(* ===== verification/_CoqProject ===== *)
-Q . S2P
Prelude.v
JsString.v
Regex.v
JsMap.v
SqlIdent.v
JsonText.v
SqlStatements.v
SqlParameters.v
SqlGrid.v
JsValue.v
Window.v
Transcript.v
TranscriptInv.v
TranscriptReplay.v
SessionStore.v
SessionStoreInv.v
ResultPages.v
ResultPagesInv.v
JsSort.v
Environment.v
SchemaDiff.v
SchemaDiffInv.v
Access.v
RevocationGate.v
RevocationGateInv.v
NeonBranches.v
NeonBranchesInv.v
NeonDeletePlan.v
NeonCreatePlan.v
NeonSwitchPlan.v
JsText.v
JsUri.v
Workbench.v
WorkbenchInv.v
WorkbenchSession.v
WorkbenchSessionInv.v
DraftStore.v
Autosave.v
AutosaveInv.v
SafetyPolicy.v
SafetyDraft.v
QueryRun.v
Connections.v
ConnectionUrl.v
ConnectionUrlInv.v
ConnectionEditor.v
ConnectionEditorInv.v
ConnectionDiagnostics.v
ConnectionDiagnosticsInv.v
ConnectionDraft.v
ConnectionDraftInv.v
JsonTree.v
JsonTreeInv.v
ResultText.v
ResultTextInv.v
ResultExport.v
ResultExportInv.v
SqlStream.v
SqlStreamInv.v
StreamView.v
ResultStream.v
ResultStreamInv.v
ResultStreamFacts.v
D1Batch.v
OperationRecords.v
OperationPlan.v
OperationExecution.v
OperationSwitch.v
OperationReads.v
OperationInv.v
OperationFacts.v
OperationReplay.v
OperationStored.v
OperationWitness.v
NeonMutation.v
NeonApi.v
NeonOperations.v
NeonFacts.v
NeonSystem.v
Lifecycle.v
