(* ===== verification/Prelude.v ===== *)
(** * DopeDB: a verification library for the TypeScript core

    DopeDB is a database client: a desktop application (front end [src/src], native
    core [src/src-tauri]) and a cloud control plane for shared workspaces
    ([src/workspace-cloud]). This library models the parts of the TypeScript code that
    carry rules and state of their own, as executable definitions, and proves what they
    promise. Paths below are relative to [src/].

    ** Parts and files

    Language layer. [Prelude] (results of calls that may throw, list functions,
    tactics, hint databases), [JsString] (strings as lists of UTF-16 units), [Regex]
    (regular expressions with backtracking order, proved against their meaning; where a
    match starts and what a group holds),
    [JsMap] (insertion-ordered maps and sets, objects with inherited names), [JsSort]
    (stable sort by a comparator, the class [SortOrder]), [JsValue] (wire values,
    [JSON.stringify]), [JsonText] (JSON text of strings, with its reader), [JsText]
    (digits and [Number], splitting, replacement), [JsUri] (percent encoding and its
    inverse, [URLSearchParams] written and read).

    SQL text. [SqlIdent] is [src/lib/tableRef.ts] and the catalog records;
    [SqlStatements] is [src/lib/sqlStatements.ts], the statement splitter;
    [SqlParameters] is [src/features/query/sqlParameters.ts]; [SqlGrid] is
    [src/lib/sqlBuild.ts] with [src/lib/gridValueFilter.ts], the statements the data
    grid generates, and the staged cell edits of [src/features/tableData/cellEdits.ts]. Writers and scanners of quoted text meet in the class
    [SqlIdent.QuoteSkipper].

    Agent conversations. [Transcript] is [src/features/agents/transcript.ts]: one
    projection per conversation, fed with events. Both of its buffers are instances
    of [Window], an array with a moving start and periodic compaction.
    [TranscriptInv] has the representation invariant, [TranscriptReplay] the theorems.
    [SessionStore] is [src/features/agents/sessionStore.ts], a store of sessions and
    projections that uses a conversation log only through the class [ConversationLog];
    [SessionStoreInv] proves its theorems against [LogInvariant] and discharges that
    interface with the transcript. Asynchronous callbacks (a loaded list, an event of
    the native core, a timer) are inputs of the store tagged with the generation that
    registered them, in any order.

    Query results. [ResultPages] is [src/features/queries/resultPageCache.ts]: pages of
    streamed results, retention, reads and retries; a read is a request and, later, its
    settlement. [ResultPagesInv] has its invariant and theorems. [SqlStream] is the transport
    of a streamed result in [src/features/queries/tauriAdapter.ts] ([startSqlStream], the
    pull, hand over and acknowledgement of one batch, and the collector [runSqlReadPage]);
    notifications, answers and the turns of the promise chains are inputs, in any order.
    [SqlStreamInv] has its theorems. [StreamView] is the reducer of [domain.ts] that takes
    batches into a view and their rows into the page cache (with its contract);
    [ResultStream] is the hook [useSqlResultStream.ts] with its runs, the commits that batches
    await, and overlapping calls as tasks; [ResultStreamInv] has its invariant and
    [ResultStreamFacts] its theorems.

    Exported results. [ResultText] is [src/lib/export.ts] and the export part of
    [src/lib/sqlBuild.ts]: the CSV, TSV and JSON text of a table and of one cell; the JSON
    texts that [JSON.parse] reads and the re-indentation [prettyJsonText] are in [JsonTree].
    [JsonTreeInv] and [ResultTextInv] have their theorems. [ResultExport] is
    [src/features/queryResults/resultExports.ts]: the registry of running exports, whose
    promise chains advance by inputs, and the saving of rows the renderer holds;
    [ResultExportInv] has its theorems.

    Schemas. [Environment] is [src/lib/environmentKind.ts]; [SchemaDiff] is
    [src/lib/schemaDiff.ts]: connection groups and the comparison of two catalogs.
    [SchemaDiffInv] has the theorems.

    Workspace authority. [Access] is [workspace-cloud/lib/workspace-permissions.ts] and
    [workspace-direct-access-core.ts]; [RevocationGate] is
    [workspace-cloud/lib/revocation-gates.ts], whose SQL statements are functions on
    tables; [RevocationGateInv] proves them over interleavings of several workers.

    Provider branches ([workspace-cloud/lib/providers]). [NeonBranches] is
    [neon-identifiers.ts] and [neon-branches.ts], the inventory of a provider project,
    and what the three plans of branch operations share; [NeonBranchesInv] proves that an
    inventory is a forest. [NeonDeletePlan] is [neon-branch-delete-plan.ts],
    [NeonCreatePlan] is [neon-branch-plan.ts], [NeonSwitchPlan] is
    [neon-branch-switch-plan.ts], each with its request, plan and revalidation.
    [NeonMutation] is [neon-branch-mutation.ts], what is taken from the provider's answers.
    [NeonApi] is the branch part of [neon-api.ts], [neon-branch-inventory-api.ts] and
    [neon-branch-api.ts], with the retirement of inherited roles of [neon-managed-access.ts]:
    programs, that is trees of effects (a request, an SQL query, the clock, a command of the
    store) with the rest of the program for every answer.

    Provider operations ([workspace-cloud/lib]): the durable record of a planned, approved and
    executed change at a provider. [D1Batch] is [d1/atomic.ts] (a batch is one command that
    happens entirely or not at all), [d1/json.ts], [workspace-audit-id.ts] and the canonical
    JSON of [workspace-versioning.ts]. [OperationRecords] is [provider-operation-records.ts],
    [provider-operation-marker.ts], [provider-operation-authority.ts],
    [provider-integrations/authority.ts] and the tables of [d1/schema/operations.ts] with
    their keys and CHECK constraints. [OperationPlan] is [provider-operation-plan.ts] (record,
    decide), [OperationExecution] is [provider-operation-execution.ts] (cancel, claim, start),
    [provider-operation-reconciliation.ts] and [provider-operation-bootstrap.ts];
    [OperationSwitch] is [provider-operation-switch.ts]; [OperationReads] has the readers and
    [provider-operation-managed-access.ts] with its theorem. [OperationInv] puts the commands
    together: a run is any sequence of commands of any workers, each with its clock, between
    arbitrary changes of the other tables; it has the invariant of the rows. [OperationFacts]
    and [OperationReplay] have the theorems, [OperationStored] those on what is stored, and
    [OperationWitness] a workspace on which each is seen at work.

    The branch use cases ([workspace-cloud/lib/providers/neon-branch-operations], with
    [neon-branch-operation-command.ts] and [neon-branch-operation-application.ts]) are programs
    in [NeonOperations]. [NeonFacts] has the theorems about what they send and observe, and
    [NeonSystem] runs any number of them concurrently over one store: a step of a worker is one
    effect, a command of the store is atomic, its answer may be lost, a worker may stop
    anywhere, and the provider's answers and all clocks are arbitrary.

    Deletion of a workspace. [Lifecycle] is [workspace-cloud/lib/workspace-lifecycle.ts],
    [workspace-retention-purge.ts], [d1/member-authority.ts] and the lifecycle authorization
    of [workspace-authorization.ts], over the tables that a deletion touches; a run mixes
    schedulings, cancellations and purges with any other writes, its theorems are about all
    states that runs reach.

    Workbench. [Workbench] is [src/features/workbench/domain.ts] and [state.ts], the
    documents of the tab strip and their reducer, and [openTabs.ts], the record
    of open tabs in [localStorage] (its keys are encoded in [JsUri]); [WorkbenchSession]
    is [useWorkbenchDocuments.ts], the hook that loads, restores, closes and remembers
    tabs, as a step function on its refs and state. [WorkbenchInv] and
    [WorkbenchSessionInv] have their invariants and theorems.

    Open SQL documents. [DraftStore] is [draftStore.ts] of the workbench with
    [src/features/query/useSqlEditorBuffer.ts]: the text typed into an editor. [Autosave]
    is [src/features/sqlDocuments/useSqlDocumentAutosave.ts]: saving after a pause, the
    recovery copy, conflicts, and the flush that closing a tab awaits; renders, timers,
    answers and the resumption after an [await] are inputs, in any order. [AutosaveInv]
    has its theorems.

    Write safety. [SafetyPolicy] is [src/features/safetySettings/policy.ts],
    [persistence.ts] and [saveCoordinator.ts]: what device settings may allow, the two
    writes of an edit (against the interface [SafetyCommands] and its laws) and the claim
    of a save. [SafetyDraft] is the form of [src/screens/Settings/Safety/index.tsx] with
    its remembered edits. Running a query: [QueryRun] is
    [src/features/queries/resolveMode.ts], [runPath.ts] and
    [src/features/query/runSignal.ts].

    Connections ([src/features/connections]). [Connections] is [domain.ts], [presets.ts],
    [options.ts], [connectionSummary.ts] and the rules of [bigQueryOnboardingModel.ts]:
    the profile and what is derived from it. [ConnectionUrl] is [connectionUrl.ts], the
    reading and showing of connection URLs; [ConnectionUrlInv] proves it.
    [ConnectionEditor] is [connectionEditorModel.ts], [useAdvancedParameterRows.ts],
    [connectionEditorInteraction.ts] and the form that [useConnectionUrlDraft.ts] makes
    from a URL; [ConnectionEditorInv] has its theorems. [ConnectionDiagnostics] is
    [diagnostics.ts], [connectionTestFailure.ts] and [useConnectionProblems.ts];
    [ConnectionDiagnosticsInv] has their theorems. [ConnectionDraft] is the editor's state machine: [useConnectionProfileState.ts],
    [useConnectionUrlDraft.ts], [useConnectionDraftChanges.ts], [useConnectionTestCommand.ts],
    [useConnectionDatabaseDiscovery.ts] and the commands of
    [useConnectionProfileController.ts]; its inputs are the events of the form and the answers
    of the calls it awaits, in any order. [ConnectionDraftInv] has its theorems, over all
    reachable states.

    Each definition keeps the name of its function or type in the source where Rocq
    allows it. A loop body that the source writes inline has a name of its own next to
    the function it belongs to.

    ** What the theorems show

    - SQL text: splitting and parameter discovery terminate on every text and place
      every range exactly; splitting is checked against a tokenizer of its own: it loses only
      separators and texts without a token; substitution equals simultaneous substitution; an
      accepted grid fragment cannot leave its clause, judged by lexical rules stated per
      engine; a literal is one token for the engine; staged cell edits update by exactly
      the table's primary key; value filters round-trip.
    - Agent conversations: any delivery of the same events (order, batches,
      duplicates) gives one projection within the replay window; all buffers are
      bounded with exact counters; streamed text keeps its tail; the store's change
      queue shows the same sessions and transcripts as immediate delivery, up to the order of
      the list; a scope switch forgets every late callback; summaries never
      go back.
    - Query results: a range is reported cached exactly when its rows can be read;
      retained pages read back; memory and automatic retries are bounded; the search of
      a row's page is a scan.
    - Streams: what passes between the core, the transport and the consumer is a sequence of
      turns, and a batch is acknowledged only after the consumer accepted it; a closed stream
      does nothing more; a completed one had every acknowledgement confirmed; it settles under every
      schedule; a collected page is what its stream delivered. A batch is acknowledged only
      when its page is on the screen, its rows read back from the cache, late answers of other
      runs change nothing, a complete view counts the accepted rows, a cancellation keeps them,
      and no caller waits for ever unless [start] and [reset] overlap.
    - Exports: CSV, TSV and JSON text reads back as the table, texts that start with a formula
      character behind an apostrophe, and no field runs as a formula, by a grammar of inert
      values that is stated apart from the code's regular expressions; re-indented JSON denotes the same value; every export finishes once and frees
      its operation; the size limit of a save is exact.
    - Schemas: a comparison reports nothing exactly when the catalogs agree on every
      compared aspect; it is dual in its sides; its entries are in code-point order;
      sections and table lists are rearrangements of their inputs; the effective
      environment is the most sensitive one.
    - Workspace authority: claims are exclusive; a pending revocation refuses every
      lease; a connection's revision fences off older authorities for good; leases stay
      within their slots and within the grant; generated identities and accepted scopes
      are well formed; levels of direct accounts are exact.
    - Provider branches: an inventory is a complete forest, and reading one always ends;
      a plan is revalidated exactly when it is fresh and planning again from the current
      facts gives the same plan; copies of production data need a second administrator.
    - The branch adapter: a reconciliation sends reading requests only, at most 54, and at most
      one SQL query, the one that retires inherited roles; a creation or deletion
      sends at most two requests, the second only after a refusal; every observation of a
      creation passes the store's validation. Composed: over all interleavings of concurrent requests, lost
      answers and stopped workers, at most one mutating request of an operation is not refused,
      and none is sent without a start that permitted it.
    - Provider operations: a start that permits the provider call comes from a live manager
      with a live approval of exactly the stored plan, and there is at most one such start;
      what touches production data is approved by a second person; rows only move along the
      state machine and final states are final; plans, decisions, claims and starts are
      idempotent; an expired plan that is approved or claimed can be closed; a switch happens
      whole or not at all; a lease passes only when the branch is bootstrapped; stored plans
      and the rows a switch writes are of the redacted form, which names no secret.
    - Deletion of a workspace: a pending one closes the workspace to everybody and keeps one
      receipt; the page offers it exactly when a request takes effect; its owner can take it
      back and everything is restored; a purge comes after seven days, succeeds when nothing
      blocks it, and removes everything of the workspace but the receipt and nothing else;
      receipts are final.
    - Workbench: every action keeps documents well formed and the active one open; a
      remembered set of tabs comes back as it was; a closed tab stays closed whatever
      answers arrive late, until a new load starts.
    - Open SQL documents: typed text survives the unmounting of its editor; an edit is
      either known to the backend or read back from its recovery copy while storage accepts
      writes; a flush that lets a
      tab close means the backend reported what is shown; an unsaved edit always has
      something that will save it; an accepted save settles the document.
    - Write safety: device settings only narrow; a failed edit leaves the team's ceiling
      closed or says so, a widening whose answer is lost excepted; one save at a time per connection; what is applied has its limits within
      bounds; an unapplied edit survives leaving the form.
    - Running a query: masking keeps positions; a quiet signal means that no statement
      looks like a write.
    - Connections: the URL shown for a MongoDB profile reads back as that profile; no pasted
      text carries a secret, a write grant or an internal parameter into a profile, and no
      shown URL has one; applying a URL keeps identity, credential and access; switching
      the source drops the parameters of the other engines; the parameter rows and the
      profile agree after every edit, and their effect settles unless a name is blank.
    - The connection editor: a draft has no blocking problem exactly when it is complete, and
      a refusal is always explained; the mark of a passed check and the list of discovered
      databases always belong to the draft shown; a running check ends with its answer and
      late answers change nothing; unsaved edits are left only after a confirmation; clean
      means saved as shown.
    - Some theorems record behaviour that is not intended: a column named like a member
      of [Object.prototype] breaks the data grid; a retry can be left without a timer;
      production connections are listed after staging ones; an edit can be lost when its tab
      is left, or conflict with the member's own save (the examples of [AutosaveInv]);
      an untouched Safety form can reopen the team's write ceiling; the connection editor
      loses what is typed during a save, and hides an edited port when a credential is bound;
      a CSV export loses a single record whose only field is empty; the splitter drops a
      statement behind a line comment that contains a block opener; on some engines the grid
      accepts a fragment in which the database sees a comment; a lost answer to a widening
      leaves the team's write ceiling open;
      an accepted deletion of a branch can never be recorded, since the store rejects all
      observations of it.

    ** Conventions, bounds and fuel

    Strings are lists of 16-bit units; a theorem that needs the bound states it
    ([SchemaDiffInv.units]). Integers are [Z] or [nat]; the sources keep them far below
    2^53, where they are exact. Throwing code returns [res];
    [undefined] and [null] are [None]. Scanners and trimming loops take fuel: the length
    of the text or of the buffer plus one, which bounds their iterations because each
    one consumes a unit or an element; the theorems are about these functions with that
    fuel, and the placement, invariant and search theorems show that it never runs out.
    Clock readings, random bytes and UUIDs are arguments.

    Parameters stand for what is not in the sources or is a table too large to restate:
    Unicode case mapping and locale comparison ([SchemaDiff]), and [Number()] of a
    marker ([ResultPages]), [Date.parse] and [toISOString] ([NeonBranches]), [JSON.parse]
    ([Workbench], [OperationRecords]), the digests and the HMAC of markers ([D1Batch],
    [OperationRecords]), the text of a [URLSearchParams], the parser of connection
    URIs and the comparison of names ([NeonApi]), and [new URL], the time zones of
    [Intl] and lower case ([Connections], [ConnectionUrl]). [Number] of a port is exact
    up to 2^1024; object keys that look like array indexes keep their insertion order in
    the model, except in the JSON export ([ResultText.own_order]), where they come first.
    The JSON reader's fuel is twice the length of the text plus one; [JsonTreeInv.read_enough]
    shows that no larger fuel reads a text that this one does not.
    Theorems that need a law of theirs name it, and a witness
    instantiates it.

    ** What is not modelled

    React components and hooks, the other Tauri adapters, translations and styling
    (rendering and I/O); the Rust core; routes, the other provider clients and the remaining
    stores of the control plane, which appear as parameters, as effects with arbitrary answers
    or as arbitrary changes of the tables between two commands; triggers of the D1 migrations;
    encryption. *)

From Stdlib Require Export Sorted.
From stdpp Require Export prelude numbers option gmap list_numbers list.

(** ** Notations of the development *)

Declare Scope dope_scope.
Delimit Scope dope_scope with dope.

(** ** Fallible code: TypeScript [throw] as a sum *)

(** A call either returns a value or throws an error of type [E]. *)
Inductive res (E A : Type) : Type :=
| Ok (a : A)
| Throw (e : E).
Arguments Ok {E A} _.
Arguments Throw {E A} _.

Definition is_ok {E A} (r : res E A) : bool :=
  match r with Ok _ => true | Throw _ => false end.

Definition from_ok {E A} (d : A) (r : res E A) : A :=
  match r with Ok a => a | Throw _ => d end.

#[export] Instance res_ret {E} : MRet (res E) := fun _ a => Ok a.
#[export] Instance res_bind {E} : MBind (res E) := fun _ _ f m =>
  match m with Ok a => f a | Throw e => Throw e end.
#[export] Instance res_fmap {E} : FMap (res E) := fun _ _ f m =>
  match m with Ok a => Ok (f a) | Throw e => Throw e end.
#[export] Instance res_eq_dec {E A} `{EqDecision E, EqDecision A} : EqDecision (res E A).
Proof. solve_decision. Defined.

(** A guard in the style of [if (cond) throw e;]. *)
Definition require {E} (b : bool) (e : E) : res E unit := if b then Ok tt else Throw e.

(** Left-to-right traversal: the first throw wins, as in a [for] loop or [map]. *)
Fixpoint res_map {E A B} (f : A -> res E B) (l : list A) : res E (list B) :=
  match l with
  | [] => Ok []
  | a :: l => b ← f a; bs ← res_map f l; Ok (b :: bs)
  end.

(** ** Generic list functions of the JavaScript library *)

Fixpoint sum_nat (l : list nat) : nat :=
  match l with [] => 0 | n :: l => n + sum_nat l end.

Definition filterb {A} (p : A -> bool) (l : list A) : list A :=
  List.filter p l.

(** [Array.prototype.find] and [findIndex]. *)
Definition findb {A} (p : A -> bool) (l : list A) : option A := List.find p l.

Fixpoint findIndex_from {A} (p : A -> bool) (i : nat) (l : list A) : option nat :=
  match l with
  | [] => None
  | a :: l => if p a then Some i else findIndex_from p (S i) l
  end.
Definition findIndex {A} (p : A -> bool) (l : list A) : option nat := findIndex_from p 0 l.

(** The last element of an array, [a[a.length - 1]]. *)
Definition last_index {A} (l : list A) : option nat :=
  match l with [] => None | _ => Some (length l - 1) end.

(** ** Ordered spans

    Scanners report what they found as half-open spans of the text they read:
    [spans from to ok lo rs hi] says that the records [rs] are non-empty, in order,
    disjoint, between [lo] and [hi], and that each one satisfies [ok]. *)
Section spans.
Context {A : Type} (from to : A -> nat) (ok : A -> Prop).

Fixpoint spans (lo : nat) (rs : list A) (hi : nat) : Prop :=
  match rs with
  | [] => lo <= hi
  | r :: rs => lo <= from r /\ from r < to r /\ ok r /\ spans (to r) rs hi
  end.

End spans.

(** ** Automation *)

Create HintDb dope.
Create HintDb dope_rw.

(** Inverts a chain of binds that returned normally. *)
Ltac res_inv :=
  repeat match goal with
  | H : Ok _ = Ok _ |- _ => injection H as H; try subst
  | H : Throw _ = Throw _ |- _ => injection H as H; try subst
  | H : Ok _ = Throw _ |- _ => discriminate H
  | H : Throw _ = Ok _ |- _ => discriminate H
  | H : mbind _ ?m = Ok _ |- _ => destruct m eqn:?; cbn in H; try discriminate H
  | H : context [require ?b _] |- _ => destruct b eqn:?; cbn in H; try discriminate H
  end.

(** Splits boolean conjunctions and turns boolean comparisons into propositions. *)
Ltac bools :=
  repeat match goal with
  | H : (_ && _) = true |- _ => apply andb_true_iff in H; destruct H
  | H : (_ || _) = false |- _ => apply orb_false_iff in H; destruct H
  | H : negb _ = true |- _ => apply negb_true_iff in H
  | H : negb _ = false |- _ => apply negb_false_iff in H
  | H : bool_decide _ = true |- _ => apply bool_decide_eq_true in H
  | H : bool_decide _ = false |- _ => apply bool_decide_eq_false in H
  end.

(** Boolean equations on code units, as propositions. *)
Ltac neqs :=
  repeat match goal with
  | H : N.eqb _ _ = true |- _ => apply N.eqb_eq in H
  | H : N.eqb _ _ = false |- _ => apply N.eqb_neq in H
  end.

(** Case analysis on every [if] and [match] of the goal. *)
Ltac case_all := repeat (case_match; simplify_eq/=; try done).

(** ** Lemmas on results *)

Lemma res_bind_ok {E A B} (m : res E A) (f : A -> res E B) b :
  m ≫= f = Ok b <-> exists a, m = Ok a /\ f a = Ok b.
Proof.
  destruct m; cbn; naive_solver.
Qed.

Section res_map.
Context {E A B : Type} (g : A -> res E B).

Lemma res_map_ok l bs : res_map g l = Ok bs <-> Forall2 (fun a b => g a = Ok b) l bs.
Proof.
  revert bs. induction l as [|a l IH]; intros bs; cbn.
  - split; [intros [=<-]; constructor | by inversion 1].
  - split.
    + intros (b & Hb & (bs' & Hbs & [= <-])%res_bind_ok)%res_bind_ok.
      constructor; [done|]. by apply IH.
    + inversion 1 as [|? b ? bs' Hb Hbs]; subst. rewrite Hb. cbn.
      apply IH in Hbs. by rewrite Hbs.
Qed.

Lemma res_map_length l bs : res_map g l = Ok bs -> length bs = length l.
Proof. intros H%res_map_ok. symmetry. by eapply Forall2_length. Qed.

End res_map.

(** ** Lemmas on lists *)

Section lists.
Context {A : Type}.
Implicit Types (l : list A) (p : A -> bool).

Lemma sum_nat_app (k l : list nat) : sum_nat (k ++ l) = sum_nat k + sum_nat l.
Proof. induction k; cbn; lia. Qed.

Lemma sum_nat_insert (l : list nat) i x y :
  l !! i = Some y -> sum_nat (<[i:=x]> l) + y = sum_nat l + x.
Proof.
  revert i. induction l as [|z l IH]; intros [|i] H; simplify_eq/=; [lia|].
  specialize (IH _ H). lia.
Qed.

Lemma filterb_elem p l a : a ∈ filterb p l <-> p a = true /\ a ∈ l.
Proof. unfold filterb. rewrite !list_elem_of_In, filter_In. tauto. Qed.

Lemma filterb_app p l k : filterb p (l ++ k) = filterb p l ++ filterb p k.
Proof. unfold filterb. apply List.filter_app. Qed.

Lemma filterb_all p l : (forall a, a ∈ l -> p a = true) -> filterb p l = l.
Proof.
  induction l as [|a l IH]; intros H; cbn; [done|].
  rewrite H by (left; done). f_equal. apply IH. intros; apply H; by right.
Qed.

Lemma filterb_none p l : (forall a, a ∈ l -> p a = false) -> filterb p l = [].
Proof.
  induction l as [|a l IH]; intros H; cbn; [done|].
  rewrite H by (left; done). apply IH. intros; apply H; by right.
Qed.

Lemma filterb_length_le p l : length (filterb p l) <= length l.
Proof. unfold filterb. apply filter_length_le. Qed.

Lemma filterb_sublist p l : sublist (filterb p l) l.
Proof. induction l as [|a l IH]; cbn; [constructor|]. case_match; by constructor. Qed.

Lemma findb_some p l a : findb p l = Some a -> p a = true /\ a ∈ l.
Proof. intros H%List.find_some. rewrite list_elem_of_In. tauto. Qed.

Lemma findb_none p l : findb p l = None <-> forall a, a ∈ l -> p a = false.
Proof.
  split.
  - intros H a Ha. eapply List.find_none in H; [done|]. by apply list_elem_of_In.
  - intros H. destruct (findb p l) eqn:E; [|done].
    apply findb_some in E as [Hp Hin]. by rewrite H in Hp.
Qed.

Lemma findIndex_from_spec p i l j :
  findIndex_from p i l = Some j ->
  i <= j /\ exists a, l !! (j - i) = Some a /\ p a = true /\
  forall k b, i <= k -> k < j -> l !! (k - i) = Some b -> p b = false.
Proof.
  revert i. induction l as [|a l IH]; intros i H; cbn in H; [done|].
  destruct (p a) eqn:Hp.
  - simplify_eq. split; [lia|]. exists a. rewrite Nat.sub_diag. cbn.
    repeat split; [done..|]. intros; lia.
  - apply IH in H as (Hle & b & Hb & Hpb & Hmin). split; [lia|].
    exists b. replace (j - i) with (S (j - S i)) by lia. repeat split; [done..|].
    intros k c Hik Hkj Hc. destruct (decide (k = i)) as [->|].
    + rewrite Nat.sub_diag in Hc. cbn in Hc. by simplify_eq.
    + replace (k - i) with (S (k - S i)) in Hc by lia. cbn in Hc.
      eapply (Hmin k); [lia..|done].
Qed.

Lemma findIndex_some p l j :
  findIndex p l = Some j ->
  exists a, l !! j = Some a /\ p a = true /\
  forall k b, k < j -> l !! k = Some b -> p b = false.
Proof.
  intros H. apply findIndex_from_spec in H as (_ & a & Ha & Hp & Hmin).
  rewrite Nat.sub_0_r in Ha. exists a. split; [done|split;[done|]].
  intros k b Hk Hb. apply (Hmin k b); [lia..|]. by rewrite Nat.sub_0_r.
Qed.

Lemma findIndex_from_none p i l :
  findIndex_from p i l = None <-> forall a, a ∈ l -> p a = false.
Proof.
  revert i. induction l as [|a l IH]; intros i; cbn.
  - split; [intros _ a Ha; inversion Ha|done].
  - destruct (p a) eqn:Hp.
    + split; [done|]. intros H. by rewrite (H a) in Hp by left.
    + rewrite IH. split.
      * intros H b [->|Hb]%elem_of_cons; auto.
      * intros H b Hb. apply H. by right.
Qed.

Lemma existsb_elem p l : existsb p l = true <-> exists a, a ∈ l /\ p a = true.
Proof. rewrite List.existsb_exists. by setoid_rewrite list_elem_of_In. Qed.

Lemma existsb_none p l : existsb p l = false <-> forall a, a ∈ l -> p a = false.
Proof.
  split.
  - intros H a Ha. destruct (p a) eqn:E; [|done].
    assert (existsb p l = true) by (apply existsb_elem; eauto). congruence.
  - intros H. apply not_true_is_false. rewrite existsb_elem. intros (a & Ha & Hp).
    rewrite H in Hp; done.
Qed.

Lemma forallb_elem p l : forallb p l = true <-> forall a, a ∈ l -> p a = true.
Proof. rewrite List.forallb_forall. by setoid_rewrite list_elem_of_In. Qed.

Lemma drop_S_app (k : list A) a l : drop (S (length k)) (k ++ a :: l) = l.
Proof. induction k as [|b k IH]; [done|]. apply IH. Qed.

Lemma drop_take_app (l : list A) i j : i <= j -> take i l ++ drop i (take j l) = take j l.
Proof.
  intros H. rewrite <- (take_drop i (take j l)) at 2. f_equal.
  rewrite take_take. f_equal. lia.
Qed.

End lists.

(** ** Rows with a key *)

Section keys.
Context {A K : Type}.
Implicit Types (key : A -> K) (p : A -> bool) (l : list A).

Lemma key_unique key l a b : NoDup (map key l) -> a ∈ l -> b ∈ l -> key a = key b -> a = b.
Proof.
  induction l as [|c l IH]; cbn; [by intros _ ?%elem_of_nil|]. intros [Hc Hn]%NoDup_cons Ha Hb E.
  apply elem_of_cons in Ha as [->|Ha], Hb as [->|Hb]; [done| | |by apply IH].
  - destruct Hc. rewrite E. by apply list_elem_of_fmap_2.
  - destruct Hc. rewrite <- E. by apply list_elem_of_fmap_2.
Qed.

Lemma map_if_key key p f l :
  (forall a, key (f a) = key a) -> map key (map (fun x => if p x then f x else x) l) = map key l.
Proof. intros H. rewrite map_map. apply map_ext. intros a. by destruct (p a). Qed.

Lemma NoDup_filterb_fmap key p l : NoDup (map key l) -> NoDup (map key (filterb p l)).
Proof. intros H. eapply sublist_NoDup; [exact H|]. by apply (fmap_sublist key), filterb_sublist. Qed.

(** The rows of a test that holds of one key. *)
Lemma filterb_unique key p l a :
  NoDup (map key l) -> a ∈ l -> (forall b, b ∈ l -> p b = true <-> key b = key a) -> filterb p l = [a].
Proof.
  induction l as [|b l IH]; cbn; [by intros _ ?%elem_of_nil|].
  intros [Hb Hn]%NoDup_cons Ha Hp.
  apply elem_of_cons in Ha as [->|Ha].
  - rewrite (proj2 (Hp b ltac:(by left)) eq_refl). f_equal.
    clear IH Hn. induction l as [|c l IH]; cbn; [done|].
    cbn in Hb. rewrite not_elem_of_cons in Hb. destruct Hb as [Hne Hb].
    destruct (p c) eqn:E.
    + apply Hp in E; [|right; by left]. by rewrite E in Hne.
    + apply IH; [done|]. intros d Hd. apply Hp. apply elem_of_cons in Hd as [->|Hd]; [by left|by do 2 right].
  - destruct (p b) eqn:E; [|apply IH; [done..|]; intros c Hc; apply Hp; by right].
    apply Hp in E; [|by left]. exfalso. apply Hb. rewrite E. by apply list_elem_of_fmap_2.
Qed.
End keys.

Lemma elem_of_map_if {A} (p : A -> bool) f l a :
  a ∈ map (fun x => if p x then f x else x) l <-> exists b, b ∈ l /\ a = if p b then f b else b.
Proof. rewrite list_elem_of_fmap. naive_solver. Qed.

Lemma elem_of_flat_map {A B} (f : A -> list B) l b : b ∈ flat_map f l <-> exists a, a ∈ l /\ b ∈ f a.
Proof. rewrite list_elem_of_In, in_flat_map. by setoid_rewrite <- list_elem_of_In. Qed.

(** ** Lemmas on spans *)

Section spans_lemmas.
Context {A : Type} (from to : A -> nat) (ok : A -> Prop).
Implicit Types (rs : list A) (lo hi : nat).

Lemma spans_le lo rs hi : spans from to ok lo rs hi -> lo <= hi.
Proof.
  revert lo. induction rs as [|a rs IH]; intros lo H; cbn in *; [done|].
  destruct H as (? & ? & _ & H%IH). lia.
Qed.

Lemma spans_weaken lo rs hi hi' :
  spans from to ok lo rs hi -> hi <= hi' -> spans from to ok lo rs hi'.
Proof.
  revert lo. induction rs as [|a rs IH]; intros lo H Hle; cbn in *; [lia|].
  destruct H as (? & ? & ? & ?). repeat split; eauto.
Qed.

Lemma spans_snoc lo rs r hi hi' :
  spans from to ok lo rs hi -> hi <= from r -> from r < to r -> to r <= hi' -> ok r ->
  spans from to ok lo (rs ++ [r]) hi'.
Proof.
  intros H H1 H2 H3 H4. revert lo H. induction rs as [|a rs IH]; intros lo H; cbn in *.
  - repeat split; [lia|done..].
  - destruct H as (? & ? & ? & ?). repeat split; eauto.
Qed.

Lemma spans_snoc_inv lo rs r hi :
  spans from to ok lo (rs ++ [r]) hi ->
  spans from to ok lo rs (from r) /\ from r < to r /\ to r <= hi.
Proof.
  revert lo. induction rs as [|a rs IH]; intros lo H; cbn in *; [naive_solver lia|].
  destruct H as (? & ? & ? & (? & ? & ?)%IH). auto.
Qed.

End spans_lemmas.

#[export] Hint Rewrite sum_nat_app @filterb_app @length_app @length_map : dope_rw.
#[export] Hint Resolve filterb_length_le filterb_sublist : dope.
