(* ===== verification/JsString.v ===== *)
(** * JavaScript strings

    A JavaScript string is a sequence of UTF-16 code units, so it is modelled as a
    [list N] of code units: [length] is [String.prototype.length], [s !! i] is
    [s[i]] with [None] for [undefined], and the operations the sources use ([slice],
    [indexOf], [startsWith], [includes], [trim], [split]-free joins, doubling
    [replace]) are executable functions on code units. *)

From S2P Require Import Prelude.
From Stdlib Require String Ascii.
From stdpp Require Import pretty.
Import Stdlib.Strings.String.StringSyntax.

(** ** Code units and literals *)

Notation jsstr := (list N).

(** A literal of the source, one code unit per ASCII character. *)
Definition js (s : String.string) : jsstr :=
  map Ascii.N_of_ascii (String.list_ascii_of_string s).
Arguments js s%_string_scope.

Definition cTAB : N := 9.
Definition cLF : N := 10.
Definition cCR : N := 13.
Definition cSP : N := 32.
Definition cDQ : N := 34.
Definition cHASH : N := 35.
Definition cDOLLAR : N := 36.
Definition cSQ : N := 39.
Definition cLP : N := 40.
Definition cRP : N := 41.
Definition cSTAR : N := 42.
Definition cCOMMA : N := 44.
Definition cDASH : N := 45.
Definition cDOT : N := 46.
Definition cSLASH : N := 47.
Definition cCOLON : N := 58.
Definition cSEMI : N := 59.
Definition cEQ : N := 61.
Definition cQM : N := 63.
Definition cLB : N := 91.
Definition cBS : N := 92.
Definition cRB : N := 93.
Definition cUS : N := 95.
Definition cBT : N := 96.
Definition cLBRACE : N := 123.
Definition cRBRACE : N := 125.

Notation "s ==s t" := (bool_decide (s = t)) (at level 70) : dope_scope.
Open Scope dope_scope.

(** [s[i] === c], false when [s[i]] is [undefined]. *)
Definition at_is (s : jsstr) (i : nat) (c : N) : bool :=
  match s !! i with Some x => N.eqb x c | None => false end.

Definition opt_is (o : option N) (p : N -> bool) : bool :=
  match o with Some x => p x | None => false end.

(** ** Character classes *)

Definition between (lo hi c : N) : bool := (N.leb lo c && N.leb c hi)%bool.
Definition is_digit (c : N) : bool := between 48 57 c.
Definition is_lower (c : N) : bool := between 97 122 c.
Definition is_upper (c : N) : bool := between 65 90 c.
Definition is_alpha (c : N) : bool := (is_lower c || is_upper c)%bool.
Definition is_alnum (c : N) : bool := (is_alpha c || is_digit c)%bool.
(** [\w] *)
Definition is_word (c : N) : bool := (is_alnum c || N.eqb c cUS)%bool.
(** [\s], which is also the set removed by [trim]. *)
Definition is_space (c : N) : bool :=
  (between 9 13 c || N.eqb c 32 || N.eqb c 160 || N.eqb c 5760
   || between 8192 8202 c || N.eqb c 8232 || N.eqb c 8233 || N.eqb c 8239
   || N.eqb c 8287 || N.eqb c 12288 || N.eqb c 65279)%bool.

(** ASCII part of [toLowerCase]. *)
Definition lower_ascii (c : N) : N := if is_upper c then (c + 32)%N else c.
Definition toLowerAscii (s : jsstr) : jsstr := map lower_ascii s.

(** ** Operations *)

(** [s.slice(i, j)] for non-negative indices. *)
Definition slice (s : jsstr) (i j : nat) : jsstr := take (j - i) (drop i s).
(** [s.slice(-n)] for a positive [n]. *)
Definition slice_last (s : jsstr) (n : nat) : jsstr := drop (length s - n) s.

Fixpoint prefixb (p s : jsstr) : bool :=
  match p, s with
  | [], _ => true
  | c :: p, d :: s => (N.eqb c d && prefixb p s)%bool
  | _ :: _, [] => false
  end.

Definition startsWith (s p : jsstr) : bool := prefixb p s.

(** The first occurrence of [p] in [s], counted from [i]. *)
Fixpoint index_from (p s : jsstr) (i : nat) : option nat :=
  if prefixb p s then Some i
  else match s with [] => None | _ :: s => index_from p s (S i) end.

(** [s.indexOf(p, i)], with [None] for [-1]. *)
Definition indexOf (s p : jsstr) (i : nat) : option nat :=
  index_from p (drop i s) (Nat.min i (length s)).
Definition includes (s p : jsstr) : bool :=
  match indexOf s p 0 with Some _ => true | None => false end.

Fixpoint trimStart (s : jsstr) : jsstr :=
  match s with
  | c :: s' => if is_space c then trimStart s' else s
  | [] => []
  end.
Definition trimEnd (s : jsstr) : jsstr := rev (trimStart (rev s)).
Definition trim (s : jsstr) : jsstr := trimEnd (trimStart s).

(** [s.replace(/c/g, "cc")]. *)
Fixpoint double (c : N) (s : jsstr) : jsstr :=
  match s with
  | [] => []
  | x :: s => if N.eqb x c then c :: c :: double c s else x :: double c s
  end.

(** [parts.join(sep)]. *)
Fixpoint join (sep : jsstr) (parts : list jsstr) : jsstr :=
  match parts with
  | [] => []
  | [p] => p
  | p :: ps => p ++ sep ++ join sep ps
  end.

(** [String(n)] of a natural number and of an integer. *)
Definition show_nat (n : nat) : jsstr := js (pretty n).
Definition show_Z (z : Z) : jsstr := js (pretty z).

(** The number of leading code units that satisfy [p]: [while (p(s[end])) end += 1]. *)
Fixpoint run_len (p : N -> bool) (s : jsstr) : nat :=
  match s with
  | [] => 0
  | c :: s => if p c then S (run_len p s) else 0
  end.

(** [s < t]: lexicographic on code units. *)
Fixpoint str_ltb (s t : jsstr) : bool :=
  match s, t with
  | _, [] => false
  | [], _ :: _ => true
  | c :: s, d :: t => if N.ltb c d then true else if N.ltb d c then false else str_ltb s t
  end.

Definition non_empty (s : jsstr) : bool := match s with [] => false | _ => true end.

(** ** Lemmas *)

Lemma js_inj s t : js s = js t -> s = t.
Proof.
  intros H. assert (String.list_ascii_of_string s = String.list_ascii_of_string t) as H2.
  { unfold js in H. revert H. generalize (String.list_ascii_of_string t).
    induction (String.list_ascii_of_string s) as [|a l IH]; intros [|b k] H; try done.
    injection H as Hab Hl. f_equal; [|auto].
    by rewrite <- (Ascii.ascii_N_embedding a), Hab, Ascii.ascii_N_embedding. }
  rewrite <- (String.string_of_list_ascii_of_string s), H2.
  apply String.string_of_list_ascii_of_string.
Qed.

Lemma show_nat_inj m n : show_nat m = show_nat n -> m = n.
Proof. intros H%js_inj. by apply (inj pretty) in H. Qed.

Lemma at_is_true s i c : at_is s i c = true <-> s !! i = Some c.
Proof.
  unfold at_is. destruct (s !! i) as [x|]; [|by split].
  rewrite N.eqb_eq. naive_solver.
Qed.

Lemma at_is_false s i c : at_is s i c = false <-> s !! i <> Some c.
Proof. rewrite <- not_true_iff_false, at_is_true. done. Qed.

Lemma prefixb_spec p s : prefixb p s = true <-> exists k, s = p ++ k.
Proof.
  revert s. induction p as [|c p IH]; intros s; cbn; [naive_solver|].
  destruct s as [|d s]; [naive_solver|].
  rewrite andb_true_iff, N.eqb_eq, IH. naive_solver.
Qed.

Lemma prefixb_app p s : prefixb p (p ++ s) = true.
Proof. apply prefixb_spec. eauto. Qed.

Lemma prefixb_length p s : prefixb p s = true -> length p <= length s.
Proof. intros (k & ->)%prefixb_spec. rewrite length_app. lia. Qed.

Lemma slice_length s i j : j <= length s -> length (slice s i j) = j - i.
Proof. intros H. unfold slice. rewrite length_take, length_drop. lia. Qed.

Lemma slice_full s : slice s 0 (length s) = s.
Proof. unfold slice. rewrite drop_0, Nat.sub_0_r. by apply take_ge. Qed.

Lemma slice_app s i j k :
  i <= j -> j <= k -> slice s i j ++ slice s j k = slice s i k.
Proof.
  intros Hij Hjk. unfold slice.
  replace (drop j s) with (drop (j - i) (drop i s)) by (rewrite drop_drop; f_equal; lia).
  rewrite take_take_drop. f_equal. lia.
Qed.

Lemma slice_slice s i j a b :
  b <= j - i -> slice (slice s i j) a b = slice s (i + a) (i + b).
Proof.
  intros H. unfold slice. rewrite skipn_firstn_comm, drop_drop, take_take.
  f_equal. lia.
Qed.

Lemma slice_lookup s i j k :
  i + k < j -> slice s i j !! k = s !! (i + k).
Proof.
  intros H. unfold slice. rewrite lookup_take_lt by lia. by rewrite lookup_drop.
Qed.

Lemma index_from_spec p s i j :
  index_from p s i = Some j -> i <= j /\ j + length p <= i + length s
    /\ prefixb p (drop (j - i) s) = true.
Proof.
  revert i. induction s as [|c s IH]; intros i; cbn [index_from].
  - destruct (prefixb p []) eqn:E; [|done]. intros [= <-].
    rewrite Nat.sub_diag. pose proof (prefixb_length _ _ E). cbn in *. by repeat split; try lia.
  - destruct (prefixb p (c :: s)) eqn:E.
    + intros [= <-]. rewrite Nat.sub_diag.
      pose proof (prefixb_length _ _ E). cbn in *. by repeat split; try lia.
    + intros H. apply IH in H as (? & ? & Hp). cbn. repeat split; try lia.
      by replace (j - i) with (S (j - S i)) by lia.
Qed.

Lemma indexOf_spec s p i j :
  indexOf s p i = Some j ->
  Nat.min i (length s) <= j /\ j + length p <= length s /\ prefixb p (drop j s) = true.
Proof.
  unfold indexOf. intros (H1 & H2 & H3)%index_from_spec.
  rewrite length_drop in H2. repeat split; [lia..|].
  rewrite drop_drop in H3.
  destruct (decide (i <= length s)) as [Hi|Hi].
  - by replace (i + (j - Nat.min i (length s))) with j in H3 by lia.
  - rewrite (drop_ge s) in H3 by lia. by rewrite (drop_ge s) by lia.
Qed.

Lemma index_from_app p a b i : exists j, index_from p (a ++ p ++ b) i = Some j.
Proof.
  revert i. induction a as [|x a IH]; intros i; cbn [app index_from].
  - destruct p as [|c p]; [destruct b; cbn; eauto|]. cbn [app index_from].
    pose proof (prefixb_app (c :: p) b) as H. cbn [app] in H. rewrite H. eauto.
  - destruct (prefixb _ _); eauto.
Qed.

Lemma includes_spec s p : includes s p = true <-> exists a b, s = a ++ p ++ b.
Proof.
  unfold includes. split.
  - destruct (indexOf s p 0) as [j|] eqn:E; [|done]. intros _.
    apply indexOf_spec in E as (_ & _ & (k & Hk)%prefixb_spec).
    exists (take j s), k. by rewrite <- Hk, take_drop.
  - intros (a & b & ->). unfold indexOf. rewrite drop_0.
    destruct (index_from_app p a b (Nat.min 0 (length (a ++ p ++ b)))) as [j ->]. done.
Qed.

Lemma includes_char s c : includes s [c] = false <-> c ∉ s.
Proof.
  rewrite <- not_true_iff_false, includes_spec. split; intros H Hin; apply H.
  - apply list_elem_of_split in Hin as (a & b & ->). by exists a, b.
  - destruct Hin as (a & b & ->). apply elem_of_app. right. by left.
Qed.

Lemma includes_false s p a b : includes s p = false -> s <> a ++ p ++ b.
Proof. rewrite <- not_true_iff_false, includes_spec. eauto. Qed.

Lemma trimStart_suffix s : exists k, s = k ++ trimStart s /\ Forall (fun c => is_space c = true) k.
Proof.
  induction s as [|c s (k & IH & Hk)]; cbn; [by exists []|].
  destruct (is_space c) eqn:E.
  - exists (c :: k). split; [by rewrite IH at 1|by constructor].
  - by exists [].
Qed.

Lemma trimEnd_prefix s : exists k, s = trimEnd s ++ k /\ Forall (fun c => is_space c = true) k.
Proof.
  destruct (trimStart_suffix (rev s)) as (k & Hk & Hs). exists (rev k). split.
  - unfold trimEnd. rewrite <- rev_app_distr, <- Hk. by rewrite rev_involutive.
  - by apply List.Forall_rev.
Qed.

Lemma trim_decomp s : exists a b, s = a ++ trim s ++ b
  /\ Forall (fun c => is_space c = true) a /\ Forall (fun c => is_space c = true) b
  /\ length a = length s - length (trimStart s).
Proof.
  destruct (trimStart_suffix s) as (a & Ha & Sa).
  destruct (trimEnd_prefix (trimStart s)) as (b & Hb & Sb).
  exists a, b. unfold trim. rewrite <- Hb. repeat split; [done..|].
  rewrite Ha at 1. rewrite length_app. lia.
Qed.

Lemma double_app c s t : double c (s ++ t) = double c s ++ double c t.
Proof. induction s as [|x s IH]; cbn; [done|]. destruct (x =? c)%N; cbn; congruence. Qed.

Lemma double_inj c s t : double c s = double c t -> s = t.
Proof.
  revert t. induction s as [|x s IH]; intros [|y t]; cbn.
  - done.
  - by destruct (y =? c)%N.
  - by destruct (x =? c)%N.
  - destruct (N.eqb_spec x c), (N.eqb_spec y c); intros [=]; subst; f_equal; auto; congruence.
Qed.

Lemma double_id c s : c ∉ s -> double c s = s.
Proof.
  induction s as [|x s IH]; cbn; [done|]. intros [Hne Hs]%not_elem_of_cons.
  destruct (N.eqb_spec x c); [congruence|]. f_equal. auto.
Qed.

Lemma join_cons sep p q ps : join sep (p :: q :: ps) = p ++ sep ++ join sep (q :: ps).
Proof. done. Qed.

Lemma run_len_le p s : run_len p s <= length s.
Proof. induction s as [|c s IH]; cbn; [lia|]. destruct (p c); lia. Qed.

Lemma toLowerAscii_length s : length (toLowerAscii s) = length s.
Proof. apply length_map. Qed.

(** *** The order of strings *)

Lemma str_ltb_irrefl s : str_ltb s s = false.
Proof. induction s as [|c s IH]; cbn; [done|]. by rewrite N.ltb_irrefl. Qed.

Lemma str_ltb_trans s t u : str_ltb s t = true -> str_ltb t u = true -> str_ltb s u = true.
Proof.
  revert t u. induction s as [|c s IH]; intros [|d t] [|e u]; cbn; try done.
  destruct (N.ltb_spec c d), (N.ltb_spec d e), (N.ltb_spec c e), (N.ltb_spec d c),
    (N.ltb_spec e d), (N.ltb_spec e c); try done; try lia. eauto.
Qed.

Lemma str_ltb_total s t : str_ltb s t = false -> str_ltb t s = false -> s = t.
Proof.
  revert t. induction s as [|c s IH]; intros [|d t]; cbn; try done.
  destruct (N.ltb_spec c d), (N.ltb_spec d c); try done; intros.
  assert (c = d) as -> by lia. f_equal. auto.
Qed.

Lemma str_ltb_asym s t : str_ltb s t = true -> str_ltb t s = false.
Proof.
  intros H. destruct (str_ltb t s) eqn:E; [|done].
  pose proof (str_ltb_trans _ _ _ H E) as Hs. by rewrite str_ltb_irrefl in Hs.
Qed.

(** [s >= t] is transitive. *)
Lemma str_geb_trans s t u : str_ltb s t = false -> str_ltb t u = false -> str_ltb s u = false.
Proof.
  intros H1 H2. destruct (str_ltb s u) eqn:E; [|done].
  destruct (str_ltb u t) eqn:E2; [by rewrite (str_ltb_trans _ _ _ E E2) in H1|].
  by rewrite (str_ltb_total _ _ E2 H2), H1 in E.
Qed.

#[export] Hint Rewrite double_app slice_full toLowerAscii_length : dope_rw.
#[export] Hint Resolve prefixb_app : dope.
