(* ===== verification/Regex.v ===== *)
(** * Regular expressions of the sources

    The sources test and split strings with JavaScript regular expressions. A regex
    is modelled by its syntax ([re]) and by [ends]: the end positions of all the
    matches that start at a position, in the priority order of the JavaScript
    backtracking matcher, so that the first one is the match [exec] returns. The
    relation [rmatch] gives the meaning of the syntax on its own, and [ends_spec]
    shows that [ends] computes exactly that relation (in particular that the fuel of
    a star, the length of the subject, is always enough). *)

From S2P Require Import Prelude JsString.
From Stdlib Require String.
Import Stdlib.Strings.String.StringSyntax.

(** ** Syntax *)

Inductive re : Type :=
| REps
| RCls (p : N -> bool)
| RSeq (a b : re)
| RAlt (a b : re)
| RStar (a : re)   (* a*  *)
| RLazy (a : re)   (* a*? *)
| RBol             (* ^   *)
| REol             (* $   *)
| RWordB.          (* \b  *)

(** Derived forms: a literal, a case-insensitive ASCII literal ([/.../i]),
    [r+], [r?], [r{n}], [r{0,n}] and an alternation of several regexes. *)
Definition RChr (c : N) : re := RCls (N.eqb c).
Fixpoint RLit (s : jsstr) : re :=
  match s with [] => REps | c :: s => RSeq (RChr c) (RLit s) end.
Definition RChrI (c : N) : re := RCls (fun x => N.eqb (lower_ascii c) (lower_ascii x)).
Fixpoint RLitI (s : jsstr) : re :=
  match s with [] => REps | c :: s => RSeq (RChrI c) (RLitI s) end.
Definition RPlus (r : re) : re := RSeq r (RStar r).
Definition ROpt (r : re) : re := RAlt r REps.
Fixpoint RRep (n : nat) (r : re) : re :=
  match n with 0 => REps | S n => RSeq r (RRep n r) end.
Fixpoint RUpTo (n : nat) (r : re) : re :=
  match n with 0 => REps | S n => RAlt (RSeq r (RUpTo n r)) REps end.
Fixpoint RAny (rs : list re) : re :=
  match rs with [] => RCls (fun _ => false) | [r] => r | r :: rs => RAlt r (RAny rs) end.
Fixpoint RSeqs (rs : list re) : re :=
  match rs with [] => REps | r :: rs => RSeq r (RSeqs rs) end.

(** ** Matching *)

Definition word_at (s : jsstr) (i : nat) : bool := opt_is (s !! i) is_word.
Definition word_before (s : jsstr) (i : nat) : bool :=
  match i with 0 => false | S i => word_at s i end.

(** The ends of the iterations of [m]; an iteration must consume something. *)
Fixpoint star_ends (m : nat -> list nat) (lazy : bool) (fuel i : nat) : list nat :=
  match fuel with
  | 0 => [i]
  | S f =>
    let more := concat (map (star_ends m lazy f) (filterb (Nat.ltb i) (m i))) in
    if lazy then i :: more else more ++ [i]
  end.

Fixpoint ends (s : jsstr) (r : re) (i : nat) : list nat :=
  match r with
  | REps => [i]
  | RCls p => if opt_is (s !! i) p then [S i] else []
  | RSeq a b => concat (map (ends s b) (ends s a i))
  | RAlt a b => ends s a i ++ ends s b i
  | RStar a => star_ends (ends s a) false (length s) i
  | RLazy a => star_ends (ends s a) true (length s) i
  | RBol => if i =? 0 then [i] else []
  | REol => if i =? length s then [i] else []
  | RWordB => if xorb (word_before s i) (word_at s i) then [i] else []
  end.

(** The match that starts exactly at [i]. *)
Definition match_at (r : re) (s : jsstr) (i : nat) : option nat := head (ends s r i).

(** The leftmost match that starts at [i] or later. *)
Fixpoint search_from (r : re) (s : jsstr) (n i : nat) : option (nat * nat) :=
  match match_at r s i with
  | Some j => Some (i, j)
  | None => match n with 0 => None | S n => search_from r s n (S i) end
  end.
Definition search (r : re) (s : jsstr) (i : nat) : option (nat * nat) :=
  search_from r s (length s - i) i.

(** [r.test(s)] *)
Definition test (r : re) (s : jsstr) : bool :=
  match search r s 0 with Some _ => true | None => false end.

(** [s.replace(r, sub)] with the [g] flag, for a regex without empty matches. *)
Fixpoint replace_from (r : re) (sub s : jsstr) (fuel i : nat) : jsstr :=
  match fuel with
  | 0 => []
  | S f =>
    match s !! i with
    | None => []
    | Some c =>
      match match_at r s i with
      | Some j => if i <? j then sub ++ replace_from r sub s f j
                  else c :: replace_from r sub s f (S i)
      | None => c :: replace_from r sub s f (S i)
      end
    end
  end.
Definition replace_all (r : re) (sub s : jsstr) : jsstr :=
  replace_from r sub s (S (length s)) 0.

(** ** Meaning *)

Inductive rmatch (s : jsstr) : re -> nat -> nat -> Prop :=
| m_eps i : rmatch s REps i i
| m_cls p i c : s !! i = Some c -> p c = true -> rmatch s (RCls p) i (S i)
| m_seq a b i j k : rmatch s a i j -> rmatch s b j k -> rmatch s (RSeq a b) i k
| m_alt_l a b i j : rmatch s a i j -> rmatch s (RAlt a b) i j
| m_alt_r a b i j : rmatch s b i j -> rmatch s (RAlt a b) i j
| m_star_nil a i : rmatch s (RStar a) i i
| m_star_step a i j k :
    rmatch s a i j -> i < j -> rmatch s (RStar a) j k -> rmatch s (RStar a) i k
| m_lazy_nil a i : rmatch s (RLazy a) i i
| m_lazy_step a i j k :
    rmatch s a i j -> i < j -> rmatch s (RLazy a) j k -> rmatch s (RLazy a) i k
| m_bol : rmatch s RBol 0 0
| m_eol : rmatch s REol (length s) (length s)
| m_wordb i : word_before s i <> word_at s i -> rmatch s RWordB i i.

(** ** Correctness *)

#[local] Hint Constructors rmatch : dope.

Lemma rmatch_le s r i j : rmatch s r i j -> i <= j /\ (i < j -> j <= length s).
Proof.
  induction 1; try lia.
  assert (i < length s) by (by eapply lookup_lt_Some). lia.
Qed.

Lemma star_ends_unfold m lazy f i j :
  j ∈ star_ends m lazy (S f) i <->
  j = i \/ exists k, k ∈ m i /\ i < k /\ j ∈ star_ends m lazy f k.
Proof.
  assert (forall l, j ∈ concat (map (star_ends m lazy f) (filterb (Nat.ltb i) l)) <->
    exists k, k ∈ l /\ i < k /\ j ∈ star_ends m lazy f k) as Hc.
  { intros l. rewrite list_elem_of_In, in_concat. setoid_rewrite in_map_iff.
    setoid_rewrite <- list_elem_of_In. setoid_rewrite filterb_elem.
    setoid_rewrite Nat.ltb_lt. naive_solver. }
  cbn [star_ends]. destruct lazy.
  - rewrite elem_of_cons, Hc. done.
  - rewrite elem_of_app, list_elem_of_singleton, Hc. tauto.
Qed.

Lemma star_ends_sound s a lazy f i j :
  (forall i j, j ∈ ends s a i -> rmatch s a i j) ->
  j ∈ star_ends (ends s a) lazy f i ->
  rmatch s (RStar a) i j /\ rmatch s (RLazy a) i j.
Proof.
  intros Ha. revert i. induction f as [|f IH]; intros i.
  - intros ->%list_elem_of_singleton. auto with dope.
  - rewrite star_ends_unfold. intros [->|(k & Hk & Hik & Hj)]; [auto with dope|].
    destruct (IH _ Hj). split; econstructor; eauto.
Qed.

Lemma star_ends_complete s a lazy f i j :
  (forall i j, rmatch s a i j -> j ∈ ends s a i) ->
  rmatch s (RStar a) i j \/ rmatch s (RLazy a) i j ->
  length s <= f + i -> j ∈ star_ends (ends s a) lazy f i.
Proof.
  intros Ha. revert i. induction f as [|f IH]; intros i Hm Hf.
  - assert (i = j) as ->; [|by apply list_elem_of_singleton].
    destruct Hm as [Hm|Hm]; inversion Hm as [| | | | |?|? ? k ? Hs Hlt| |? ? k ? Hs Hlt| | |];
      subst; try done; apply rmatch_le in Hs; lia.
  - rewrite star_ends_unfold. destruct Hm as [Hm|Hm]; inversion Hm; subst; try (by left);
      right; eexists; (split; [by eauto|]); (split; [done|]); apply IH; auto; lia.
Qed.

(** [ends] computes exactly the matches of the relation. *)
Lemma ends_spec s r i j : j ∈ ends s r i <-> rmatch s r i j.
Proof.
  revert i j. induction r as [|p|a IHa b IHb|a IHa b IHb|a IH|a IH| | |]; intros i j; cbn [ends].
  - rewrite list_elem_of_singleton. split; [intros ->; constructor|by inversion 1].
  - unfold opt_is. split.
    + case_match eqn:E; [|by inversion 1]. case_match; [|by inversion 1].
      intros ->%list_elem_of_singleton. eauto with dope.
    + inversion 1 as [|? ? c Hc Hp| | | | | | | | | |]; subst. rewrite Hc, Hp.
      by apply list_elem_of_singleton.
  - rewrite list_elem_of_In, in_concat. setoid_rewrite in_map_iff.
    setoid_rewrite <- list_elem_of_In. split.
    + intros (l & (k & <- & Hk%IHa) & Hj%IHb). eauto with dope.
    + inversion 1; subst. eexists; split; [eexists; split; [done|]; by apply IHa|]. by apply IHb.
  - rewrite elem_of_app, IHa, IHb. split; [intros []; auto with dope|]. inversion 1; auto.
  - split; [intros H; eapply star_ends_sound in H; [by apply H|apply IH]|].
    intros H. apply star_ends_complete; [apply IH|auto|lia].
  - split; [intros H; eapply star_ends_sound in H; [by apply H|apply IH]|].
    intros H. apply star_ends_complete; [apply IH|auto|lia].
  - destruct (Nat.eqb_spec i 0) as [->|].
    + rewrite list_elem_of_singleton. split; [intros ->; constructor|by inversion 1].
    + split; [by inversion 1|]. inversion 1; lia.
  - destruct (Nat.eqb_spec i (length s)) as [->|].
    + rewrite list_elem_of_singleton. split; [intros ->; constructor|by inversion 1].
    + split; [by inversion 1|]. inversion 1; lia.
  - destruct (word_before s i) eqn:E1, (word_at s i) eqn:E2; cbn;
      (split; [|by inversion 1; try apply list_elem_of_singleton; congruence]);
      try (by inversion 1); intros ->%list_elem_of_singleton; constructor; congruence.
Qed.

Lemma match_at_sound r s i j : match_at r s i = Some j -> rmatch s r i j.
Proof. unfold match_at. intros H%head_Some_elem_of. by apply ends_spec. Qed.

Lemma match_at_none r s i : match_at r s i = None <-> forall j, ~ rmatch s r i j.
Proof.
  unfold match_at. split.
  - intros H%head_None j. rewrite <- ends_spec, H. apply not_elem_of_nil.
  - intros H. apply head_None. destruct (ends s r i) as [|j l] eqn:E; [done|].
    destruct (H j). apply ends_spec. rewrite E. by left.
Qed.

Lemma match_at_bounds r s i j : match_at r s i = Some j -> i <= j /\ (i < j -> j <= length s).
Proof. intros H%match_at_sound. by eapply rmatch_le. Qed.

Lemma search_from_spec r s n i :
  match search_from r s n i with
  | Some (a, b) => i <= a <= i + n /\ rmatch s r a b
                   /\ forall k, i <= k -> k < a -> match_at r s k = None
  | None => forall k, i <= k -> k <= i + n -> match_at r s k = None
  end.
Proof.
  revert i. induction n as [|n IH]; intros i; cbn [search_from];
    destruct (match_at r s i) as [j|] eqn:E.
  - split; [lia|]. split; [by apply match_at_sound|lia].
  - intros k ??. by replace k with i by lia.
  - split; [lia|]. split; [by apply match_at_sound|lia].
  - specialize (IH (S i)). destruct (search_from r s n (S i)) as [[a b]|].
    + destruct IH as (? & ? & Hmin). split; [lia|]. split; [done|].
      intros k ??. destruct (decide (k = i)) as [->|]; [done|]. apply Hmin; lia.
    + intros k ??. destruct (decide (k = i)) as [->|]; [done|]. apply IH; lia.
Qed.

(** A test succeeds exactly when the regex matches somewhere in the subject. *)
Lemma test_spec r s :
  test r s = true <-> exists i j, i <= length s /\ rmatch s r i j.
Proof.
  unfold test, search. pose proof (search_from_spec r s (length s - 0) 0) as H.
  destruct (search_from _ _ _ _) as [[a b]|].
  - split; [|done]. intros _. exists a, b. split; [lia|tauto].
  - split; [done|]. intros (i & j & Hi & Hm).
    specialize (H i ltac:(lia) ltac:(lia)). by eapply match_at_none in H.
Qed.

(** ** Anchored patterns of fixed length

    Identifiers, hashes and verifiers are recognised by [/^...$/] patterns that are a
    sequence of character classes. *)

(** [/^p1 p2 ... pn$/] *)
Definition fixed (ps : list (N -> bool)) : re := RSeq RBol (RSeq (RSeqs (map RCls ps)) REol).

(** The classes of a literal. *)
Definition chars (s : jsstr) : list (N -> bool) := map N.eqb s.

Lemma rmatch_classes s ps i j :
  i <= length s ->
  rmatch s (RSeqs (map RCls ps)) i j
  <-> j = i + length ps /\ Forall2 (fun p c => p c = true) ps (take (length ps) (drop i s)).
Proof.
  revert i. induction ps as [|p ps IH]; intros i Hi; cbn.
  - split; [inversion 1; subst; split; [lia|constructor]|]. intros [-> _].
    rewrite Nat.add_0_r. constructor.
  - split.
    + inversion 1 as [| |? ? ? k ? Hp Hps| | | | | | | | |]; subst.
      inversion Hp as [|? ? c Hc Hpc| | | | | | | | | |]; subst.
      pose proof (lookup_lt_Some _ _ _ Hc).
      apply IH in Hps as [-> Hall]; [|lia]. split; [lia|].
      rewrite (drop_S _ _ _ Hc). cbn. by constructor.
    + intros [-> Hall]. destruct (drop i s) as [|c t] eqn:Ed; cbn in Hall; [by inversion Hall|].
      inversion_clear Hall as [|? ? ? ? Hpc Hps].
      assert (s !! i = Some c) as Hc.
      { rewrite <- (Nat.add_0_r i), <- lookup_drop, Ed. done. }
      pose proof (lookup_lt_Some _ _ _ Hc).
      assert (t = drop (S i) s) as -> by by (rewrite (drop_S _ _ _ Hc) in Ed; congruence).
      econstructor; [by econstructor|]. apply IH; [lia|]. split; [lia|done].
Qed.

(** Such a pattern accepts exactly the strings whose units are in its classes. *)
Lemma test_fixed ps s : test (fixed ps) s = true <-> Forall2 (fun p c => p c = true) ps s.
Proof.
  rewrite test_spec. unfold fixed. split.
  - intros (i & j & Hi & Hm).
    inversion Hm as [| |? ? ? k ? Hb Hr| | | | | | | | |]; subst. inversion Hb; subst.
    inversion Hr as [| |? ? ? k ? Hps He| | | | | | | | |]; subst.
    apply rmatch_classes in Hps as [-> Hall]; [|lia]. rewrite drop_0 in Hall.
    inversion He as [| | | | | | | | | |Hlen|]; subst.
    rewrite Nat.add_0_l in *. by rewrite take_ge in Hall by lia.
  - intros Hall. pose proof (Forall2_length _ _ _ Hall) as Hlen.
    exists 0, (length s). split; [lia|]. econstructor; [constructor|].
    econstructor; [|constructor]. apply rmatch_classes; [lia|].
    rewrite drop_0, take_ge by lia. split; [lia|done].
Qed.

Lemma test_fixed_length ps s : test (fixed ps) s = true -> length s = length ps.
Proof. intros H%test_fixed%Forall2_length. done. Qed.

(** ** The first match of a regular expression

    Rules to follow the backtracking matcher along a text whose shape is known. [pos s i b]
    says that [b] is what is left of [s] at the position [i]; each rule gives the first end
    of a regex at such a position, and the position there. [head_bind] chains them. *)

Definition pos (s : jsstr) (i : nat) (b : jsstr) : Prop := i <= length s /\ drop i s = b.

Lemma pos_start s : pos s 0 s.
Proof. split; [lia|]. by rewrite drop_0. Qed.

Lemma pos_length s i b : pos s i b -> length s = i + length b.
Proof. intros [H <-]. rewrite length_drop. lia. Qed.

Lemma pos_app s i w b : pos s i (w ++ b) -> pos s (i + length w) b.
Proof.
  intros Hp. pose proof (pos_length _ _ _ Hp) as Hl. destruct Hp as [Hi Hd]. rewrite length_app in Hl.
  split; [lia|]. rewrite <- drop_drop, Hd. apply drop_app_length.
Qed.

Lemma pos_cons s i c b : pos s i (c :: b) -> pos s (S i) b.
Proof. intros H. replace (S i) with (i + length [c]) by (cbn; lia). by apply pos_app. Qed.

Lemma pos_lookup s i b : pos s i b -> s !! i = head b.
Proof.
  intros [_ <-]. rewrite <- (Nat.add_0_r i) at 1. rewrite <- lookup_drop. by destruct (drop i s).
Qed.

Lemma pos_slice s i w b : pos s i (w ++ b) -> slice s i (i + length w) = w.
Proof.
  intros [_ Hd]. unfold slice. rewrite Hd. replace (i + length w - i) with (length w) by lia.
  apply take_app_length.
Qed.

(** *** Regexes at a position *)

Lemma ends_cls s i b p : pos s i b -> ends s (RCls p) i = if opt_is (head b) p then [S i] else [].
Proof. intros H. cbn [ends]. by rewrite (pos_lookup _ _ _ H). Qed.

Lemma ends_lit s i w b : pos s i (w ++ b) -> ends s (RLit w) i = [i + length w].
Proof.
  revert i. induction w as [|c w IH]; intros i H; [cbn; by rewrite Nat.add_0_r|].
  cbn [RLit RChr ends]. rewrite (pos_lookup _ _ _ H). cbn [app head opt_is]. rewrite N.eqb_refl.
  cbn [map concat app]. rewrite (IH (S i)) by by apply (pos_cons _ _ c). rewrite app_nil_r. cbn. f_equal. lia.
Qed.

Lemma ends_litI s i w v b :
  pos s i (v ++ b) -> map lower_ascii w = map lower_ascii v -> ends s (RLitI w) i = [i + length w].
Proof.
  revert i v. induction w as [|c w IH]; intros i [|d v] H E; try done; [cbn; by rewrite Nat.add_0_r|].
  injection E as Ec E. cbn [RLitI RChrI ends]. rewrite (pos_lookup _ _ _ H). cbn [app head opt_is].
  rewrite (proj2 (N.eqb_eq _ _) Ec). cbn [map concat app].
  rewrite (IH (S i) v) by (done || by apply (pos_cons _ _ d)). rewrite app_nil_r. cbn. f_equal. lia.
Qed.

(** A literal fails at the first unit that differs. *)
Lemma ends_lit_head s i b c w : pos s i b -> head b <> Some c -> ends s (RLit (c :: w)) i = [].
Proof.
  intros H Hc. cbn [RLit RChr ends]. rewrite (pos_lookup _ _ _ H). destruct (head b) as [d|]; [|done]. cbn.
  destruct (N.eqb_spec c d); [congruence|done].
Qed.

Lemma ends_litI_head s i b c w :
  pos s i b -> (forall d, head b = Some d -> lower_ascii c <> lower_ascii d) -> ends s (RLitI (c :: w)) i = [].
Proof.
  intros H Hc. cbn [RLitI RChrI ends]. rewrite (pos_lookup _ _ _ H). destruct (head b) as [d|]; [|done]. cbn.
  destruct (N.eqb_spec (lower_ascii c) (lower_ascii d)) as [E|]; [by destruct (Hc d)|done].
Qed.

Lemma ends_chr_absent s c i : c ∉ s -> ends s (RChr c) i = [].
Proof.
  intros Hc. cbn. destruct (s !! i) as [d|] eqn:E; [|done]. cbn. destruct (N.eqb_spec c d) as [->|]; [|done].
  destruct Hc. by eapply list_elem_of_lookup_2.
Qed.

Lemma star_run p s i w b fuel :
  pos s i (w ++ b) -> forallb p w = true -> opt_is (head b) p = false -> length w <= fuel ->
  head (star_ends (ends s (RCls p)) false fuel i) = Some (i + length w).
Proof.
  revert i fuel. induction w as [|c w IH]; intros i fuel H Hw Hb Hf.
  - destruct fuel as [|fuel]; [cbn; f_equal; lia|]. cbn [star_ends]. rewrite (ends_cls _ _ _ _ H). cbn [app]. rewrite Hb. cbn. f_equal. lia.
  - destruct fuel as [|fuel]; cbn in Hf; [lia|]. cbn [forallb] in Hw. apply andb_true_iff in Hw as [Hc Hw].
    cbn [star_ends]. rewrite (ends_cls _ _ _ _ H). cbn [app head opt_is]. rewrite Hc. cbn [filterb List.filter].
    rewrite (proj2 (Nat.ltb_lt i (S i))) by lia. cbn [map concat app]. rewrite app_nil_r.
    specialize (IH (S i) fuel ltac:(by apply (pos_cons _ _ c)) Hw Hb ltac:(lia)).
    destruct (star_ends (ends s (RCls p)) false fuel (S i)); [done|]. cbn in *. rewrite IH. f_equal. lia.
Qed.

(** A greedy repetition first takes the whole run. *)
Lemma head_star p s i w b :
  pos s i (w ++ b) -> forallb p w = true -> opt_is (head b) p = false ->
  head (ends s (RStar (RCls p)) i) = Some (i + length w).
Proof.
  intros H Hw Hb. cbn [ends]. eapply star_run; try done. apply pos_length in H. rewrite length_app in H. lia.
Qed.

Lemma head_plus p s i w b :
  pos s i (w ++ b) -> w <> [] -> forallb p w = true -> opt_is (head b) p = false ->
  head (ends s (RPlus (RCls p)) i) = Some (i + length w).
Proof.
  intros H Hne Hw Hb. destruct w as [|c w]; [done|]. cbn [forallb] in Hw. apply andb_true_iff in Hw as [Hc Hw].
  unfold RPlus. change (ends s (RSeq (RCls p) (RStar (RCls p))) i)
    with (concat (map (ends s (RStar (RCls p))) (ends s (RCls p) i))).
  rewrite (ends_cls _ _ _ _ H). cbn [app head opt_is]. rewrite Hc. cbn [map concat]. rewrite app_nil_r.
  rewrite (head_star p s (S i) w b) by (done || by apply (pos_cons _ _ c)). cbn. f_equal. lia.
Qed.

(** A lazy repetition takes one unit more each time. *)
Lemma lazy_run p s i w b fuel :
  pos s i (w ++ b) -> forallb p w = true -> opt_is (head b) p = false -> length w <= fuel ->
  star_ends (ends s (RCls p)) true fuel i = seq i (S (length w)).
Proof.
  revert i fuel. induction w as [|c w IH]; intros i fuel H Hw Hb Hf.
  - destruct fuel as [|fuel]; [done|]. cbn [star_ends]. rewrite (ends_cls _ _ _ _ H). cbn [app]. by rewrite Hb.
  - destruct fuel as [|fuel]; cbn in Hf; [lia|]. cbn [forallb] in Hw. apply andb_true_iff in Hw as [Hc Hw].
    cbn [star_ends]. rewrite (ends_cls _ _ _ _ H). cbn [app head opt_is]. rewrite Hc. cbn [filterb List.filter].
    rewrite (proj2 (Nat.ltb_lt i (S i))) by lia. cbn [map concat app]. rewrite app_nil_r.
    rewrite (IH (S i) fuel) by (done || lia || by apply (pos_cons _ _ c)). done.
Qed.

Lemma ends_lazy p s i w b :
  pos s i (w ++ b) -> forallb p w = true -> opt_is (head b) p = false ->
  ends s (RLazy (RCls p)) i = seq i (S (length w)).
Proof.
  intros H Hw Hb. cbn [ends]. eapply lazy_run; try done. apply pos_length in H. rewrite length_app in H. lia.
Qed.

Lemma ends_eol s i : pos s i [] -> ends s REol i = [i].
Proof. intros H%pos_length. cbn in *. by rewrite (proj2 (Nat.eqb_eq _ _)) by lia. Qed.

Lemma ends_eol_not s i c b : pos s i (c :: b) -> ends s REol i = [].
Proof. intros H%pos_length. cbn in *. by rewrite (proj2 (Nat.eqb_neq _ _)) by lia. Qed.

(** *** Chaining *)

Lemma head_bind {A B} (l : list A) (f : A -> list B) x y :
  head l = Some x -> head (f x) = Some y -> head (l ≫= f) = Some y.
Proof. destruct l as [|a l]; [done|]. intros [= ->] H. cbn. by destruct (f x). Qed.

Lemma bind_nil {A B} (l : list A) (f : A -> list B) : (forall x, x ∈ l -> f x = []) -> l ≫= f = [].
Proof.
  induction l as [|a l IH]; intros H; [done|]. cbn. rewrite (H a) by by left. apply IH. intros x Hx. apply H. by right.
Qed.

Lemma head_app_l {A} (l k : list A) x : head l = Some x -> head (l ++ k) = Some x.
Proof. by destruct l. Qed.

(** The only element of a non-empty list. *)
Lemma head_only {A} (l : list A) x : x ∈ l -> (forall y, y ∈ l -> y = x) -> head l = Some x.
Proof. destruct l as [|a l]; [by intros ?%elem_of_nil|]. intros _ H. cbn. f_equal. apply H. by left. Qed.

(** The first alternative that goes on. *)
Lemma head_bind_skip {A B} (l k : list A) (f : A -> list B) x y :
  (forall z, z ∈ l -> f z = []) -> head (f x) = Some y -> head ((l ++ x :: k) ≫= f) = Some y.
Proof.
  intros Hl Hx. induction l as [|a l IH]; cbn; [by destruct (f x)|].
  rewrite (Hl a) by by left. cbn. apply IH. intros z Hz. apply Hl. by right.
Qed.
