(* ===== verification/JsMap.v ===== *)
(** * JavaScript [Map], [Set] and plain objects

    A JavaScript [Map] iterates in insertion order and the sources rely on it (LRU
    eviction takes the first key), so a map is modelled as the association list of
    its entries in that order: [set] on a present key keeps its position, [delete]
    followed by [set] moves it to the end. A plain object used as a record is the
    list of its own entries in [Object.keys] order; reading a key also finds the
    names inherited from [Object.prototype], which is what the [in] operator and
    an index expression do. *)

From S2P Require Import Prelude JsString.
From Stdlib Require String.
Import Stdlib.Strings.String.StringSyntax.

(** ** Insertion-ordered maps *)

Section jsmap.
Context {K V : Type} `{EqDecision K}.

Definition mkeys (m : list (K * V)) : list K := map fst m.
Definition mvals (m : list (K * V)) : list V := map snd m.

(** [m.get(k)] *)
Fixpoint mget (m : list (K * V)) (k : K) : option V :=
  match m with
  | [] => None
  | (k', v) :: m => if decide (k = k') then Some v else mget m k
  end.

(** [m.has(k)] *)
Definition mhas (m : list (K * V)) (k : K) : bool :=
  match mget m k with Some _ => true | None => false end.

(** [m.set(k, v)] *)
Fixpoint mset (m : list (K * V)) (k : K) (v : V) : list (K * V) :=
  match m with
  | [] => [(k, v)]
  | (k', v') :: m => if decide (k = k') then (k', v) :: m else (k', v') :: mset m k v
  end.

(** [m.delete(k)] *)
Definition mdel (m : list (K * V)) (k : K) : list (K * V) :=
  filterb (fun e => negb (bool_decide (k = e.1))) m.

(** [m.delete(k); m.set(k, v)]: the entry becomes the most recent one. *)
Definition mtouch (m : list (K * V)) (k : K) (v : V) : list (K * V) := mset (mdel m k) k v.

(** [new Map(entries)] *)
Definition mof (l : list (K * V)) : list (K * V) :=
  foldl (fun m e => mset m e.1 e.2) [] l.

Arguments mdel : simpl never.
Implicit Types (m : list (K * V)) (k : K) (v : V).

Lemma mget_set m k v k' :
  mget (mset m k v) k' = if decide (k' = k) then Some v else mget m k'.
Proof.
  induction m as [|[a b] m IH]; cbn; repeat case_decide; cbn; subst;
    repeat case_decide; congruence.
Qed.

Lemma mget_set_eq m k v : mget (mset m k v) k = Some v.
Proof. rewrite mget_set. by rewrite decide_True. Qed.

Lemma mget_set_ne m k v k' : k' <> k -> mget (mset m k v) k' = mget m k'.
Proof. intros. rewrite mget_set. by rewrite decide_False. Qed.

Lemma mdel_cons a b m k :
  mdel ((a, b) :: m) k = if decide (k = a) then mdel m k else (a, b) :: mdel m k.
Proof. unfold mdel. cbn. by destruct (decide (k = a)); [rewrite bool_decide_true|rewrite bool_decide_false]. Qed.

Lemma mget_del m k k' : mget (mdel m k) k' = if decide (k' = k) then None else mget m k'.
Proof.
  induction m as [|[a b] m IH]; [cbn; by case_decide|].
  rewrite mdel_cons. repeat (case_decide; subst; cbn); rewrite ?IH;
    repeat case_decide; congruence.
Qed.

Lemma mget_touch m k v k' :
  mget (mtouch m k v) k' = if decide (k' = k) then Some v else mget m k'.
Proof. unfold mtouch. rewrite mget_set, mget_del. by repeat case_decide. Qed.

Lemma mget_elem m k v : mget m k = Some v -> (k, v) ∈ m.
Proof.
  induction m as [|[a b] m IH]; cbn; [done|]. case_decide; intros; simplify_eq; [by left|].
  right. auto.
Qed.

Lemma mget_keys m k : is_Some (mget m k) <-> k ∈ mkeys m.
Proof.
  induction m as [|[a b] m IH]; cbn.
  - rewrite elem_of_nil. split; [by intros []|done].
  - rewrite elem_of_cons. case_decide; subst; [naive_solver|]. rewrite IH. naive_solver.
Qed.

Lemma mget_none m k : mget m k = None <-> k ∉ mkeys m.
Proof. rewrite <- mget_keys, eq_None_not_Some. done. Qed.

Lemma mhas_true m k : mhas m k = true <-> k ∈ mkeys m.
Proof. rewrite <- mget_keys. unfold mhas. destruct (mget m k); split; naive_solver. Qed.

Lemma elem_mget m k v : NoDup (mkeys m) -> (k, v) ∈ m -> mget m k = Some v.
Proof.
  induction m as [|[a b] m IH]; cbn; [by intros _ ?%elem_of_nil|].
  intros [Ha Hm]%NoDup_cons [Heq|Hin]%elem_of_cons.
  - simplify_eq. by rewrite decide_True.
  - rewrite decide_False; [auto|]. intros ->. apply Ha. apply list_elem_of_In.
    apply in_map_iff. exists (a, v). split; [done|]. by apply list_elem_of_In.
Qed.

Lemma mkeys_set m k v :
  mkeys (mset m k v) = if decide (k ∈ mkeys m) then mkeys m else mkeys m ++ [k].
Proof.
  induction m as [|[a b] m IH]; [done|]. cbn [mset].
  destruct (decide (k = a)) as [->|Hk]; cbn [mkeys map fst].
  - rewrite decide_True; [done|by left].
  - fold (mkeys m) (mkeys (mset m k v)). rewrite IH.
    destruct (decide (k ∈ mkeys m)) as [Hin|Hin].
    + rewrite decide_True; [done|by right].
    + rewrite decide_False; [done|]. by rewrite not_elem_of_cons.
Qed.

Lemma mkeys_del m k : mkeys (mdel m k) = filterb (fun a => negb (bool_decide (k = a))) (mkeys m).
Proof.
  unfold mkeys, mdel. induction m as [|[a b] m IH]; cbn; [done|].
  destruct (bool_decide (k = a)); cbn; [done|]. by f_equal.
Qed.

Lemma mkeys_del_elem m k a : a ∈ mkeys (mdel m k) <-> a <> k /\ a ∈ mkeys m.
Proof.
  rewrite mkeys_del, filterb_elem, negb_true_iff, bool_decide_eq_false. naive_solver.
Qed.

Lemma mkeys_touch m k v : mkeys (mtouch m k v) = mkeys (mdel m k) ++ [k].
Proof.
  unfold mtouch. rewrite mkeys_set, decide_False; [done|]. rewrite mkeys_del_elem. tauto.
Qed.

Lemma mset_fresh m k v : k ∉ mkeys m -> mset m k v = m ++ [(k, v)].
Proof.
  induction m as [|[a b] m IH]; cbn; [done|]. intros [? ?]%not_elem_of_cons.
  rewrite decide_False by done. f_equal. auto.
Qed.

Lemma mtouch_app m k v : mtouch m k v = mdel m k ++ [(k, v)].
Proof. apply mset_fresh. rewrite mkeys_del_elem. tauto. Qed.

Lemma mset_NoDup m k v : NoDup (mkeys m) -> NoDup (mkeys (mset m k v)).
Proof.
  intros H. rewrite mkeys_set. case_decide; [done|].
  apply NoDup_app. split; [done|split; [|apply NoDup_singleton]].
  intros a Ha ->%list_elem_of_singleton. done.
Qed.

Lemma mdel_NoDup m k : NoDup (mkeys m) -> NoDup (mkeys (mdel m k)).
Proof. intros H. rewrite mkeys_del. eapply sublist_NoDup; [done|apply filterb_sublist]. Qed.

Lemma mtouch_NoDup m k v : NoDup (mkeys m) -> NoDup (mkeys (mtouch m k v)).
Proof. intros. by apply mset_NoDup, mdel_NoDup. Qed.

Lemma mof_NoDup l : NoDup (mkeys (mof l)).
Proof.
  unfold mof. assert (NoDup (mkeys ([] : list (K * V)))) as H by constructor. revert H.
  generalize (@nil (K * V)). induction l as [|e l IH]; intros m Hm; cbn; [done|].
  by apply IH, mset_NoDup.
Qed.

Lemma mof_keys l k : k ∈ mkeys (mof l) <-> k ∈ mkeys l.
Proof.
  unfold mof. assert (forall m, k ∈ mkeys (foldl (fun m e => mset m e.1 e.2) m l)
    <-> k ∈ mkeys m \/ k ∈ mkeys l) as H.
  { induction l as [|e l IH]; intros m; cbn.
    - rewrite elem_of_nil. tauto.
    - rewrite IH, mkeys_set, elem_of_cons. case_decide; [naive_solver|].
      rewrite elem_of_app, list_elem_of_singleton. naive_solver. }
  rewrite H. cbn. rewrite elem_of_nil. tauto.
Qed.

Lemma mof_elem l k v : mget (mof l) k = Some v -> (k, v) ∈ l.
Proof.
  unfold mof. induction l as [|[k' v'] l IH] using rev_ind; [done|].
  rewrite foldl_snoc, mget_set. intros H. apply elem_of_app.
  case_decide; simplify_eq; [right; by left|left; auto].
Qed.

Lemma mof_fresh l : NoDup (mkeys l) -> mof l = l.
Proof.
  unfold mof. assert (forall m, NoDup (mkeys (m ++ l)) ->
    foldl (fun m e => mset m e.1 e.2) m l = m ++ l) as H.
  { induction l as [|[a b] l IH]; intros m; cbn; [by rewrite app_nil_r|]. intros Hd.
    rewrite mset_fresh.
    - rewrite IH, <- app_assoc; [done|]. by rewrite <- app_assoc.
    - unfold mkeys in *. rewrite map_app in Hd. apply NoDup_app in Hd as (_ & Hd & _).
      intros Hin. eapply Hd; [done|by left]. }
  intros. by apply (H []).
Qed.

Lemma mset_length m k v : length m <= length (mset m k v) <= S (length m).
Proof. induction m as [|[a b] m IH]; cbn; [lia|]. case_decide; cbn; lia. Qed.

Lemma mdel_length m k : length (mdel m k) <= length m.
Proof. apply filterb_length_le. Qed.

Lemma mdel_id m k : k ∉ mkeys m -> mdel m k = m.
Proof.
  intros H. apply filterb_all. intros [a b] Hin. cbn. apply negb_true_iff.
  apply bool_decide_eq_false. intros ->. apply H. apply list_elem_of_In, in_map_iff.
  exists (a, b). split; [done|]. by apply list_elem_of_In.
Qed.

Lemma mdel_head k v m : k ∉ mkeys m -> mdel ((k, v) :: m) k = m.
Proof. intros H. rewrite mdel_cons, decide_True by done. by apply mdel_id. Qed.

End jsmap.

Arguments mdel {K V _} m k : simpl never.

#[export] Hint Resolve mset_NoDup mdel_NoDup mtouch_NoDup mof_NoDup : dope.

(** ** Insertion-ordered sets *)

(** [s.add(x)] and the order of [\[...new Set(l)\]]. *)
Definition sadd {A} `{EqDecision A} (s : list A) (x : A) : list A :=
  if decide (x ∈ s) then s else s ++ [x].
Definition sof {A} `{EqDecision A} (l : list A) : list A := foldl sadd [] l.

Section jsset.
Context {A : Type} `{EqDecision A}.
Implicit Types (s l : list A) (x : A).

Lemma sadd_elem s x y : y ∈ sadd s x <-> y = x \/ y ∈ s.
Proof.
  unfold sadd. case_decide.
  - naive_solver.
  - rewrite elem_of_app, list_elem_of_singleton. tauto.
Qed.

Lemma sadd_NoDup s x : NoDup s -> NoDup (sadd s x).
Proof.
  unfold sadd. intros Hs. case_decide; [done|].
  apply NoDup_app. split; [done|split; [|apply NoDup_singleton]].
  intros a Ha ->%list_elem_of_singleton. done.
Qed.

Lemma sof_elem l x : x ∈ sof l <-> x ∈ l.
Proof.
  unfold sof. assert (forall s, x ∈ foldl sadd s l <-> x ∈ s \/ x ∈ l) as H.
  { induction l as [|a l IH]; intros s; cbn; [rewrite elem_of_nil; tauto|].
    rewrite IH, sadd_elem, elem_of_cons. tauto. }
  rewrite H, elem_of_nil. tauto.
Qed.

Lemma sof_NoDup l : NoDup (sof l).
Proof.
  unfold sof. assert (forall s, NoDup s -> NoDup (foldl sadd s l)) as H.
  { induction l as [|a l IH]; intros s Hs; cbn; [done|]. by apply IH, sadd_NoDup. }
  apply H, NoDup_nil_2.
Qed.

Lemma sof_id l : NoDup l -> sof l = l.
Proof.
  unfold sof. assert (forall s, NoDup (s ++ l) -> foldl sadd s l = s ++ l) as H.
  { induction l as [|a l IH]; intros s; cbn; [by rewrite app_nil_r|]. intros Hd.
    unfold sadd at 2. rewrite decide_False.
    - rewrite IH, <- app_assoc; [done|]. by rewrite <- app_assoc.
    - apply NoDup_app in Hd as (_ & Hd & _). intros Hin. eapply Hd; [done|by left]. }
  intros. by apply (H []).
Qed.

(** [new Set(l).size !== l.length] detects exactly the duplicates. *)
Lemma sof_length_NoDup l : length (sof l) = length l <-> NoDup l.
Proof.
  split; [|intros H; by rewrite sof_id].
  intros Hlen. apply NoDup_ListNoDup.
  apply (@List.NoDup_incl_NoDup _ (sof l)); [apply NoDup_ListNoDup, sof_NoDup|lia|].
  intros x. rewrite <- !list_elem_of_In. by rewrite sof_elem.
Qed.

End jsset.

#[export] Hint Resolve sadd_NoDup sof_NoDup : dope.

(** ** Plain objects *)

(** What an index expression [o\[k\]] finds: an own property, a member inherited
    from [Object.prototype] (a function or object, never a string), or nothing. *)
Inductive prop (V : Type) : Type :=
| Own (v : V)
| Inherited
| Undefined.
Arguments Own {V} _.
Arguments Inherited {V}.
Arguments Undefined {V}.

Definition object_prototype_names : list jsstr :=
  [js "constructor"; js "__defineGetter__"; js "__defineSetter__"; js "hasOwnProperty";
   js "__lookupGetter__"; js "__lookupSetter__"; js "isPrototypeOf";
   js "propertyIsEnumerable"; js "toString"; js "valueOf"; js "__proto__";
   js "toLocaleString"].

Section objects.
Context {V : Type}.

Definition oget (o : list (jsstr * V)) (k : jsstr) : prop V :=
  match mget o k with
  | Some v => Own v
  | None => if decide (k ∈ object_prototype_names) then Inherited else Undefined
  end.

(** [k in o] *)
Definition oin (o : list (jsstr * V)) (k : jsstr) : bool :=
  match oget o k with Undefined => false | _ => true end.

Lemma oin_own o k : k ∈ mkeys o -> oin o k = true.
Proof. intros (v & H)%mget_keys. unfold oin, oget. by rewrite H. Qed.

Lemma oin_not_inherited o k :
  k ∉ object_prototype_names -> oin o k = mhas o k.
Proof. intros H. unfold oin, oget, mhas. destruct (mget o k); [done|]. by rewrite decide_False. Qed.

End objects.
