(* ===== verification/SqlIdent.v ===== *)
(** * Catalog data and identifier quoting

    Models [src/lib/tableRef.ts] and the catalog DTOs it reads
    ([src/ipc/generated/catalog-feature-contracts.ts]): engines, columns, foreign
    keys, indexes, tables, the quoting of an identifier, the reference to a table in
    generated SQL and the Explorer lookup key of a table. It also states the
    interface between code that writes quoted SQL and code that scans it:
    [QuoteSkipper], the promise that a scanner started at the opening quote of an
    escaped body stops right after its closing quote. *)

From S2P Require Import Prelude JsString.
From Stdlib Require String.
Import Stdlib.Strings.String.StringSyntax.

(** ** Catalog data *)

Inductive Engine := postgres | mysql | sqlite | mongodb | bigquery.
#[export] Instance Engine_eq_dec : EqDecision Engine.
Proof. solve_decision. Defined.

(** The DTO fields that no modelled operation reads (ordinals, comments, defaults,
    constraints, partitions, row estimates) are left out of the records. *)
Record Column := mkColumn {
  col_name : jsstr; dataType : jsstr; nullable : bool; pk : bool }.

Record ForeignKey := mkForeignKey {
  fk_column : jsstr; referencesTable : jsstr; referencesColumn : jsstr;
  referencesSchema : option jsstr }.

Record Index := mkIndex { ix_name : jsstr; ix_columns : list jsstr; unique : bool }.

Record Table := mkTable {
  database : option jsstr; schema : option jsstr; name : jsstr; kind : jsstr;
  columns : list Column; foreignKeys : list ForeignKey; indexes : list Index }.

Record Catalog := mkCatalog { tables : list Table }.

#[export] Instance Column_eq_dec : EqDecision Column.
Proof. solve_decision. Defined.
#[export] Instance ForeignKey_eq_dec : EqDecision ForeignKey.
Proof. solve_decision. Defined.
#[export] Instance Index_eq_dec : EqDecision Index.
Proof. solve_decision. Defined.
#[export] Instance Table_eq_dec : EqDecision Table.
Proof. solve_decision. Defined.

(** ** Optional strings *)

(** [x ? ... : ...] on a nullable string: null and the empty string are falsy. *)
Definition truthy (o : option jsstr) : option jsstr :=
  match o with Some (c :: s) => Some (c :: s) | _ => None end.
(** [x ?? ""] *)
Definition or_empty (o : option jsstr) : jsstr := default [] o.

(** ** Quoting *)

Definition engine_quote (engine : Engine) : N :=
  match engine with mysql | bigquery => cBT | _ => cDQ end.

Definition quoteIdent (engine : Engine) (n : jsstr) : jsstr :=
  if bool_decide (engine = mysql) || bool_decide (engine = bigquery)
  then cBT :: double cBT n ++ [cBT]
  else cDQ :: double cDQ n ++ [cDQ].

Definition tableRef (engine : Engine) (t : Table) : jsstr :=
  let q := quoteIdent engine in
  match engine, truthy (schema t), truthy (database t) with
  | postgres, Some s, _ => q s ++ [cDOT] ++ q (name t)
  | mysql, _, Some d => q d ++ [cDOT] ++ q (name t)
  | bigquery, _, _ =>
    let namespace := match schema t with Some s => Some s | None => database t end in
    let path := match truthy namespace with
                | Some n => n ++ [cDOT] ++ name t | None => name t end in
    cBT :: double cBT path ++ [cBT]
  | _, _, _ => q (name t)
  end.

Definition tableLabel (engine : Engine) (t : Table) : jsstr :=
  match engine, truthy (schema t) with
  | postgres, Some s => if s ==s js "public" then name t else s ++ [cDOT] ++ name t
  | bigquery, Some s => s ++ [cDOT] ++ name t
  | _, _ => name t
  end.

Definition tableKey (t : Table) : jsstr :=
  or_empty (database t) ++ [cDOT] ++ or_empty (schema t) ++ [cDOT] ++ name t.

(** ** Writers and scanners of quoted text *)

(** [enc q body] is the escaped form of [body] between quotes [q]. A scanner [skip]
    started at the opening quote returns the index after the closing one, whatever
    the surrounding text, unless the next character continues the literal. *)
Class QuoteSkipper (enc : N -> jsstr -> jsstr) (skip : jsstr -> nat -> N -> nat)
    (quotes : list N) : Prop :=
  skip_quoted : forall q pre body rest,
    q ∈ quotes -> head rest <> Some q ->
    skip (pre ++ q :: enc q body ++ q :: rest) (length pre) q
    = length pre + length (enc q body) + 2.

(** A whole quoted token. *)
Definition quoted (enc : N -> jsstr -> jsstr) (q : N) (body : jsstr) : jsstr :=
  q :: enc q body ++ [q].

(** ** Lemmas *)

Lemma engine_quote_spec engine n :
  quoteIdent engine n = quoted double (engine_quote engine) n.
Proof. by destruct engine. Qed.

Lemma quoteIdent_inj engine m n : quoteIdent engine m = quoteIdent engine n -> m = n.
Proof.
  rewrite !engine_quote_spec. unfold quoted. intros [= H].
  apply app_inj_tail in H as [H _]. by apply double_inj in H.
Qed.

Lemma skip_token `{QuoteSkipper enc skip quotes} q pre body rest :
  q ∈ quotes -> head rest <> Some q ->
  skip (pre ++ quoted enc q body ++ rest) (length pre) q
  = length (pre ++ quoted enc q body).
Proof.
  intros Hq Hr. unfold quoted. cbn. rewrite <- app_assoc. cbn.
  rewrite skip_quoted by done. rewrite length_app. cbn. rewrite length_app. cbn. lia.
Qed.

(** Two keys agree although the tables differ: a dot in a name is not escaped. *)
Example tableKey_collision :
  tableKey (mkTable None (Some (js "a.b")) (js "c") (js "table") [] [] [])
  = tableKey (mkTable None (Some (js "a")) (js "b.c") (js "table") [] [] []).
Proof. reflexivity. Qed.
