(* ===== verification/JsonText.v ===== *)
(** * JSON text of strings and arrays of nullable strings

    The part of [JSON.stringify] and [JSON.parse] that the grid value filters use
    ([src/lib/gridValueFilter.ts]): a string literal with the escapes of the
    ECMAScript QuoteJSONString (lone surrogates are escaped), and a reader of arrays
    whose items are strings or null. [decodeGridValueFilter] turns every other
    outcome, a syntax error as well as a valid text of another shape, into [null],
    so this reader is all that its result depends on. *)

From S2P Require Import Prelude JsString.
From Stdlib Require String.
Import Stdlib.Strings.String.StringSyntax.

(** ** Writing *)

Definition hexdigit (n : N) : N := if (n <? 10)%N then (48 + n)%N else (87 + n)%N.
(** [\uXXXX] with lower-case digits. *)
Definition unicode_escape (c : N) : jsstr :=
  [cBS; 117%N; hexdigit (c / 4096); hexdigit ((c / 256) mod 16);
   hexdigit ((c / 16) mod 16); hexdigit (c mod 16)].

Definition high_surrogate (c : N) : bool := between 55296 56319 c.
Definition low_surrogate (c : N) : bool := between 56320 57343 c.

Definition short_escape (c : N) : option N :=
  if (c =? 8)%N then Some 98%N else if (c =? 12)%N then Some 102%N
  else if (c =? 10)%N then Some 110%N else if (c =? 13)%N then Some 114%N
  else if (c =? 9)%N then Some 116%N else if (c =? cDQ)%N then Some cDQ
  else if (c =? cBS)%N then Some cBS else None.

Fixpoint json_body (s : jsstr) : jsstr :=
  match s with
  | [] => []
  | c :: s' =>
    match short_escape c with
    | Some e => cBS :: e :: json_body s'
    | None =>
      if (c <? 32)%N then unicode_escape c ++ json_body s'
      else if high_surrogate c then
        match s' with
        | d :: s'' => if low_surrogate d then c :: d :: json_body s''
                      else unicode_escape c ++ json_body s'
        | [] => unicode_escape c
        end
      else if low_surrogate c then unicode_escape c ++ json_body s'
      else c :: json_body s'
    end
  end.

Definition json_string (s : jsstr) : jsstr := cDQ :: json_body s ++ [cDQ].

Definition json_null : jsstr := js "null".
Definition json_item (v : option jsstr) : jsstr :=
  match v with Some s => json_string s | None => json_null end.
(** [JSON.stringify(values)] *)
Definition json_array (vs : list (option jsstr)) : jsstr :=
  cLB :: join [cCOMMA] (map json_item vs) ++ [cRB].

(** ** Reading *)

Definition hexvalue (c : N) : option N :=
  if is_digit c then Some (c - 48)%N
  else if between 97 102 c then Some (c - 87)%N
  else if between 65 70 c then Some (c - 55)%N else None.

Definition hex4 (a b c d : N) : option N :=
  a ← hexvalue a; b ← hexvalue b; c ← hexvalue c; d ← hexvalue d;
  Some (a * 4096 + b * 256 + c * 16 + d)%N.

Definition unescape (e : N) : option N :=
  if (e =? 98)%N then Some 8%N else if (e =? 102)%N then Some 12%N
  else if (e =? 110)%N then Some 10%N else if (e =? 114)%N then Some 13%N
  else if (e =? 116)%N then Some 9%N else if (e =? cDQ)%N then Some cDQ
  else if (e =? cBS)%N then Some cBS else if (e =? cSLASH)%N then Some cSLASH else None.

(** The rest of a string literal, after its opening quote. *)
Fixpoint read_body (s : jsstr) : option (jsstr * jsstr) :=
  match s with
  | [] => None
  | c :: s' =>
    if (c =? cDQ)%N then Some ([], s')
    else if (c =? cBS)%N then
      match s' with
      | e :: s1 =>
        if (e =? 117)%N then
          match s1 with
          | a :: b :: c :: d :: s2 =>
            u ← hex4 a b c d; '(v, r) ← read_body s2; Some (u :: v, r)
          | _ => None
          end
        else u ← unescape e; '(v, r) ← read_body s1; Some (u :: v, r)
      | [] => None
      end
    else if (c <? 32)%N then None
    else '(v, r) ← read_body s'; Some (c :: v, r)
  end.

Definition json_ws (c : N) : bool := ((c =? 32) || (c =? 9) || (c =? 10) || (c =? 13))%N.
Fixpoint skip_ws (s : jsstr) : jsstr :=
  match s with c :: s' => if json_ws c then skip_ws s' else s | [] => [] end.

Definition read_item (s : jsstr) : option (option jsstr * jsstr) :=
  match s with
  | [] => None
  | c :: s' =>
    if (c =? cDQ)%N then '(v, r) ← read_body s'; Some (Some v, r)
    else if prefixb json_null s then Some (None, drop 4 s) else None
  end.

(** The items after one has been read: each is preceded by a comma. *)
Fixpoint read_items (fuel : nat) (s : jsstr) : option (list (option jsstr) * jsstr) :=
  match fuel with
  | 0 => None
  | S f =>
    '(v, r) ← read_item (skip_ws s);
    match skip_ws r with
    | c :: r' =>
      if (c =? cRB)%N then Some ([v], r')
      else if (c =? cCOMMA)%N then '(vs, r'') ← read_items f r'; Some (v :: vs, r'')
      else None
    | [] => None
    end
  end.

(** [JSON.parse(text)] when it is an array of strings and nulls. *)
Definition parse_array (text : jsstr) : option (list (option jsstr)) :=
  match skip_ws text with
  | c :: s =>
    if (c =? cLB)%N then
      match skip_ws s with
      | d :: r =>
        if (d =? cRB)%N then (if non_empty (skip_ws r) then None else Some [])
        else '(vs, r') ← read_items (S (length s)) s;
             if non_empty (skip_ws r') then None else Some vs
      | [] => None
      end
    else None
  | [] => None
  end.

Example parse_example :
  parse_array (js "  [null, 1] ") = None
  /\ parse_array (json_array [Some [34; 92; 10; 31; 55357; 56832; 55357]%N; None])
     = Some [Some [34; 92; 10; 31; 55357; 56832; 55357]%N; None].
Proof. vm_compute. done. Qed.

(** ** The reader inverts the writer *)

Lemma hexvalue_digit n : (n < 16)%N -> hexvalue (hexdigit n) = Some n.
Proof.
  intros H. destruct (N.lt_total n 10) as [Hn|Hn]; unfold hexdigit, hexvalue, is_digit, between.
  - rewrite (proj2 (N.ltb_lt n 10)) by done.
    rewrite (proj2 (N.leb_le 48 (48 + n))), (proj2 (N.leb_le (48 + n) 57)) by lia.
    cbn [andb]. f_equal. lia.
  - rewrite (proj2 (N.ltb_ge n 10)) by lia.
    rewrite (proj2 (N.leb_gt (87 + n) 57)) by lia. rewrite andb_false_r.
    rewrite (proj2 (N.leb_le 97 (87 + n))), (proj2 (N.leb_le (87 + n) 102)) by lia.
    cbn [andb]. f_equal. lia.
Qed.

Lemma hex4_digits c : (c < 65536)%N ->
  hex4 (hexdigit (c / 4096)) (hexdigit ((c / 256) mod 16)) (hexdigit ((c / 16) mod 16))
    (hexdigit (c mod 16)) = Some c.
Proof.
  intros H. unfold hex4.
  rewrite !hexvalue_digit by (apply N.mod_lt || apply N.Div0.div_lt_upper_bound; lia).
  cbn. f_equal.
  pose proof (N.Div0.div_mod c 16). pose proof (N.Div0.div_mod (c / 16) 16).
  pose proof (N.Div0.div_mod (c / 256) 16).
  replace (c / 256)%N with (c / 16 / 16)%N in * by (rewrite N.Div0.div_div; done).
  replace (c / 4096)%N with (c / 16 / 16 / 16)%N in * by (rewrite !N.Div0.div_div; done).
  lia.
Qed.

Lemma read_unicode_escape c t : (c < 65536)%N ->
  read_body (unicode_escape c ++ t) = ('(v, r) ← read_body t; Some (c :: v, r)).
Proof.
  intros H. unfold unicode_escape. cbn [app read_body].
  change (cBS =? cDQ)%N with false. change (cBS =? cBS)%N with true.
  change (117 =? 117)%N with true. cbn iota. rewrite hex4_digits by done. done.
Qed.

Lemma read_short_escape c e t : short_escape c = Some e ->
  read_body (cBS :: e :: t) = ('(v, r) ← read_body t; Some (c :: v, r)).
Proof.
  unfold short_escape. intros H.
  repeat (case_match; neqs; [subst; simplify_eq; reflexivity|]). done.
Qed.

Lemma read_plain c t : short_escape c = None -> (32 <= c)%N ->
  read_body (c :: t) = ('(v, r) ← read_body t; Some (c :: v, r)).
Proof.
  unfold short_escape. intros H Hc. repeat (case_match; [done|]). neqs. cbn [read_body].
  rewrite (proj2 (N.eqb_neq c cDQ)), (proj2 (N.eqb_neq c cBS)) by done.
  by rewrite (proj2 (N.ltb_ge c 32)).
Qed.

Lemma surrogate_range c lo hi : between lo hi c = true -> (lo <= c <= hi)%N.
Proof. unfold between. intros [? ?]%andb_true_iff. rewrite !N.leb_le in *. lia. Qed.

Lemma read_json_body s rest : read_body (json_body s ++ cDQ :: rest) = Some (s, rest).
Proof.
  remember (length s) as n eqn:Hn. revert s Hn.
  induction n as [n IH] using lt_wf_ind. intros [|c s] ->; [done|].
  pose proof (IH (length s) ltac:(cbn; lia) s eq_refl) as IHs. cbn [json_body].
  destruct (short_escape c) as [e|] eqn:Es.
  { cbn [app]. rewrite (read_short_escape _ _ _ Es), IHs. done. }
  destruct (N.ltb_spec c 32).
  { rewrite <- app_assoc, read_unicode_escape, IHs by lia. done. }
  destruct (high_surrogate c) eqn:Eh; [apply surrogate_range in Eh|].
  - destruct s as [|d s].
    { rewrite read_unicode_escape by lia. done. }
    destruct (low_surrogate d) eqn:El.
    + apply surrogate_range in El. cbn [app]. rewrite read_plain by (done || lia).
      rewrite read_plain, (IH (length s)); [done|cbn; lia|done| |lia].
      unfold short_escape, cDQ, cBS. by repeat (case_match; neqs; [lia|]).
    + rewrite <- app_assoc, read_unicode_escape, IHs by lia. done.
  - destruct (low_surrogate c) eqn:El; [apply surrogate_range in El|].
    + rewrite <- app_assoc, read_unicode_escape, IHs by lia. done.
    + cbn [app]. rewrite read_plain, IHs by done. done.
Qed.

Lemma read_json_item v rest : read_item (skip_ws (json_item v ++ rest)) = Some (v, rest).
Proof.
  destruct v as [s|]; [|done]. unfold json_item, json_string.
  cbn [app skip_ws]. change (json_ws cDQ) with false. cbn iota. cbn [read_item].
  change (cDQ =? cDQ)%N with true. cbn iota.
  rewrite <- app_assoc. cbn [app]. by rewrite read_json_body.
Qed.

Lemma read_json_items_rest fuel v vs rest :
  length vs < fuel ->
  read_items fuel (join [cCOMMA] (map json_item (v :: vs)) ++ cRB :: rest) = Some (v :: vs, rest).
Proof.
  revert v vs. induction fuel as [|f IH]; intros v vs Hf; [lia|].
  destruct vs as [|w vs]; cbn [read_items].
  - cbn [map join]. rewrite read_json_item. done.
  - cbn [map]. rewrite join_cons, <- !app_assoc, read_json_item. cbn -[join].
    change (json_item w :: map json_item vs) with (map json_item (w :: vs)).
    rewrite IH by (cbn in *; lia). done.
Qed.

Lemma read_json_items fuel v vs :
  length vs < fuel ->
  read_items fuel (join [cCOMMA] (map json_item (v :: vs)) ++ [cRB]) = Some (v :: vs, []).
Proof. apply read_json_items_rest. Qed.

Lemma json_item_length v : 2 <= length (json_item v).
Proof. destruct v; [|cbn; lia]. unfold json_item, json_string. cbn. rewrite length_app. cbn. lia. Qed.

Lemma join_length (sep : jsstr) ps :
  0 < length sep -> length ps <= S (length (join sep ps)).
Proof.
  intros H. induction ps as [|p [|q ps] IH]; [cbn; lia..|].
  rewrite join_cons, !length_app. cbn in *. lia.
Qed.

Lemma parse_json_array vs : parse_array (json_array vs) = Some vs.
Proof.
  unfold parse_array, json_array. cbn [skip_ws]. change (json_ws cLB) with false. cbn iota.
  change (cLB =? cLB)%N with true. cbn iota.
  destruct vs as [|v vs]; [done|].
  set (body := join [cCOMMA] (map json_item (v :: vs)) ++ [cRB]).
  pose proof (read_json_items (S (length body)) v vs) as Hr. fold body in Hr.
  assert (length vs < S (length body)) as Hlen.
  { pose proof (join_length [cCOMMA] (map json_item (v :: vs)) ltac:(cbn; lia)).
    unfold body. rewrite length_app. rewrite length_map in *. cbn [length] in *. lia. }
  assert (exists d r, skip_ws body = d :: r /\ (d =? cRB)%N = false) as (d & r & Hs & Hd).
  { assert (exists d r, body = d :: r /\ json_ws d = false /\ (d =? cRB)%N = false)
      as (d & r & -> & Hw & Hd).
    { unfold body. destruct v as [s|], vs; cbn; eauto. }
    exists d, r. split; [|done]. cbn. by rewrite Hw. }
  rewrite Hs, Hd, Hr by done. done.
Qed.
