(* ===== verification/SqlStatements.v ===== *)
(** * The client-side statement splitter

    Models [src/lib/sqlStatements.ts]. The outer [while] of [splitStatementRanges]
    is [scan], one [step] per iteration on the cursor, the start of the current
    segment and the ranges pushed so far; each inner loop is a structural recursion
    on the rest of the text that returns how many code units it consumes. Fuel
    [S (length sql)] is enough because every step advances the cursor
    ([scan_total]). *)

From S2P Require Import Prelude JsString Regex SqlIdent.
From Stdlib Require String.
Import Stdlib.Strings.String.StringSyntax.

Record SqlStatementRange := mkRange { st_sql : jsstr; st_from : nat; st_to : nat }.

(** ** Helpers of the source *)

(** [s.replace(/\/\*[\s\S]*?\*\//g, " ").replace(/--[^\n]*/g, " ")] *)
Definition block_comment_re : re :=
  RSeqs [RLit (js "/*"); RLazy (RCls (fun _ => true)); RLit (js "*/")].
Definition line_comment_re : re :=
  RSeq (RLit (js "--")) (RStar (RCls (fun c => negb (c =? cLF)%N))).
Definition stripComments (s : jsstr) : jsstr :=
  replace_all line_comment_re [cSP] (replace_all block_comment_re [cSP] s).

(** [/^\$[A-Za-z_]?[A-Za-z0-9_]*\$/] *)
Definition tag_start (c : N) : bool := is_alpha c || (c =? cUS)%N.
Definition dollar_re : re :=
  RSeqs [RBol; RChr cDOLLAR; ROpt (RCls tag_start); RStar (RCls is_word); RChr cDOLLAR].
Definition dollarTag (sql : jsstr) (i : nat) : option jsstr :=
  let rest := drop i sql in
  match match_at dollar_re rest 0 with
  | Some j => Some (take j rest)
  | None => None
  end.

Definition effective (raw : jsstr) : bool :=
  non_empty (trim raw) && non_empty (trim (stripComments (trim raw))).

Definition push (out : list SqlStatementRange) (sql : jsstr) (start fin : nat)
    : list SqlStatementRange :=
  let raw := slice sql start fin in
  let s := trim raw in
  if non_empty s && non_empty (trim (stripComments s)) then
    let from := start + length raw - length (trimStart raw) in
    out ++ [mkRange s from (from + length s)]
  else out.

(** The inner loop of a quoted run: what it consumes after the opening quote. *)
Fixpoint quote_run (c : N) (l : jsstr) : nat :=
  match l with
  | [] => 0
  | x :: l' =>
    if (x =? c)%N then
      match l' with
      | y :: l'' => if (y =? c)%N then 2 + quote_run c l'' else 1
      | [] => 1
      end
    else 1 + quote_run c l'
  end.

(** [while (i < n && sql[i] !== "\n") i++] *)
Fixpoint line_run (l : jsstr) : nat :=
  match l with
  | [] => 0
  | x :: l => if (x =? cLF)%N then 0 else 1 + line_run l
  end.

(** [while (i + 1 < n && !(sql[i] === "*" && sql[i + 1] === "/")) i++] *)
Fixpoint block_run (l : jsstr) : nat :=
  match l with
  | x :: ((y :: _) as l') =>
    if ((x =? cSTAR) && (y =? cSLASH))%N then 0 else 1 + block_run l'
  | _ => 0
  end.

(** ** The scanner *)

Definition skipQuote (sql : jsstr) (i : nat) (c : N) : nat :=
  S i + quote_run c (drop (S i) sql).

(** One iteration of the outer loop at a cursor [i < n] on the code unit [c]. *)
Definition step (sql : jsstr) (c : N) (i start : nat) (out : list SqlStatementRange)
    : nat * nat * list SqlStatementRange :=
  let n := length sql in
  if ((c =? cSQ) || (c =? cDQ))%N then (skipQuote sql i c, start, out)
  else if (c =? cDASH)%N && at_is sql (i + 1) cDASH then (i + line_run (drop i sql), start, out)
  else if (c =? cSLASH)%N && at_is sql (i + 1) cSTAR then
    (Nat.min (i + 2 + block_run (drop (i + 2) sql) + 2) n, start, out)
  else if (c =? cDOLLAR)%N then
    match dollarTag sql i with
    | Some tag =>
      let i' := i + length tag in
      (match indexOf sql tag i' with None => n | Some fin => fin + length tag end, start, out)
    | None => (i + 1, start, out)
    end
  else if (c =? cSEMI)%N then (i + 1, i + 1, push out sql start i)
  else (i + 1, start, out).

Fixpoint scan (fuel : nat) (sql : jsstr) (i start : nat) (out : list SqlStatementRange)
    : option (list SqlStatementRange) :=
  match fuel with
  | 0 => None
  | S f =>
    match sql !! i with
    | Some c => let '(i', start', out') := step sql c i start out in scan f sql i' start' out'
    | None => Some (push out sql start (length sql))
    end
  end.

Definition splitStatementRanges (sql : jsstr) : list SqlStatementRange :=
  default [] (scan (S (length sql)) sql 0 0 []).

Definition splitStatements (sql : jsstr) : list jsstr :=
  map st_sql (splitStatementRanges sql).

(** ** Specification of a placement

    The ranges lie between [lo] and [hi] in order, and each one is exactly the text
    between its offsets, without outer white space. *)
Definition placed (sql : jsstr) : nat -> list SqlStatementRange -> nat -> Prop :=
  spans st_from st_to (fun r =>
    slice sql (st_from r) (st_to r) = st_sql r /\ trim (st_sql r) = st_sql r).

(** ** Specification: the tokens of a text

    SQL text is a sequence of tokens, each as long as it can be: comments, quoted and
    dollar-quoted text, separators, white space, and other units. A comment or a quotation
    that does not end takes the rest of the text. *)
Inductive token : Type :=
| t_separator
| t_blank (c : N)
| t_other (c : N)
| t_line (body : jsstr)
| t_block (body : jsstr) (closed : bool)
| t_quote (q : N) (body : jsstr) (closed : bool)
| t_dollar (tag body : jsstr) (closed : bool).
#[export] Instance token_eq_dec : EqDecision token.
Proof. solve_decision. Defined.
Definition if_closed (closed : bool) (s : jsstr) : jsstr := if closed then s else [].
Definition dollar (tag : jsstr) : jsstr := cDOLLAR :: tag ++ [cDOLLAR].
Definition token_text (t : token) : jsstr :=
  match t with
  | t_separator => [cSEMI]
  | t_blank c | t_other c => [c]
  | t_line body => js "--" ++ body
  | t_block body closed => js "/*" ++ body ++ if_closed closed (js "*/")
  | t_quote q body closed => q :: double q body ++ if_closed closed [q]
  | t_dollar tag body closed => dollar tag ++ body ++ if_closed closed (dollar tag)
  end.
Definition text (ts : list token) : jsstr := concat (map token_text ts).
(** [w] occurs in [l]. *)
Definition occurs (w l : jsstr) : Prop := exists a b, l = a ++ w ++ b.
(** [t] is the token at the start of a text that goes on with [rest]. *)
Definition token_ok (t : token) (rest : jsstr) : Prop :=
  match t with
  | t_separator => True
  | t_blank c => is_space c = true
  | t_other c =>
    is_space c = false /\ c <> cSEMI /\ c <> cSQ /\ c <> cDQ
    /\ (c = cDASH -> head rest <> Some cDASH) /\ (c = cSLASH -> head rest <> Some cSTAR)
    /\ (c = cDOLLAR -> forall tag rest', forallb is_word tag = true -> rest <> tag ++ cDOLLAR :: rest')
  | t_line body => cLF ∉ body /\ (rest = [] \/ head rest = Some cLF)
  | t_block body closed =>
    (if closed then ~ occurs (js "*/") (body ++ [cSTAR]) else ~ occurs (js "*/") body /\ rest = [])
  | t_quote q body closed => (q = cSQ \/ q = cDQ) /\ (if closed then head rest <> Some q else rest = [])
  | t_dollar tag body closed =>
    forallb is_word tag = true
    /\ (if closed then forall a b, body ++ dollar tag = a ++ dollar tag ++ b -> length body <= length a
        else ~ occurs (dollar tag) body /\ rest = [])
  end.
Fixpoint tokenized (ts : list token) : Prop :=
  match ts with [] => True | t :: ts => token_ok t (text ts) /\ tokenized ts end.
(** The texts between the separators. *)
Fixpoint segments (ts : list token) : list (list token) :=
  match ts with
  | [] => [[]]
  | t_separator :: ts => [] :: segments ts
  | t :: ts => match segments ts with seg :: segs => (t :: seg) :: segs | [] => [[t]] end
  end.

(** A segment says something when it has more than white space and comments. *)
Definition says (t : token) : bool := match t with t_other _ | t_quote _ _ _ | t_dollar _ _ _ => true | _ => false end.
(** A line comment opens no block comment, and block comments end. *)
Definition plain_comment (t : token) : bool :=
  match t with t_line body => negb (includes body (js "/*")) | t_block _ closed => closed | _ => true end.

(** What comes before the first token that says something. *)
Fixpoint lead (seg : list token) : list token :=
  match seg with [] => [] | t :: seg => if says t then [] else t :: lead seg end.

Example split_two :
  splitStatementRanges (js "select ';' ; -- x;y
 ;  select 2")
  = [mkRange (js "select ';'") 0 10; mkRange (js "select 2") 24 32].
Proof. vm_compute. reflexivity. Qed.

(** ** Lemmas *)

Lemma trimStart_idem s : trimStart (trimStart s) = trimStart s.
Proof. induction s as [|c s IH]; cbn; [done|]. destruct (is_space c) eqn:E; [done|]. cbn. by rewrite E. Qed.

Lemma trimStart_head s c k : trimStart s = c :: k -> is_space c = false.
Proof. induction s as [|d s IH]; cbn; [done|]. destruct (is_space d) eqn:E; [done|]. by intros [= <- _]. Qed.

Lemma trimEnd_head c k : is_space c = false -> exists k', trimEnd (c :: k) = c :: k'.
Proof.
  intros Hc. destruct (trimEnd_prefix (c :: k)) as (b & Hb & Hs).
  destruct (trimEnd (c :: k)) as [|d k'] eqn:E.
  - cbn in Hb. subst b. inversion Hs; congruence.
  - injection Hb as <- _. eauto.
Qed.

Lemma trim_idem s : trim (trim s) = trim s.
Proof.
  assert (forall t, trimEnd (trimEnd t) = trimEnd t) as Hend.
  { intros t. unfold trimEnd. by rewrite rev_involutive, trimStart_idem. }
  unfold trim. destruct (trimStart s) as [|c k] eqn:E; [done|].
  pose proof (trimStart_head _ _ _ E) as Hc.
  destruct (trimEnd_head c k Hc) as (k' & Hk). rewrite Hk. cbn [trimStart].
  rewrite Hc. by rewrite <- Hk, Hend.
Qed.

Lemma quote_run_le c l : quote_run c l <= length l.
Proof.
  remember (length l) as n eqn:Hn. revert l Hn.
  induction n as [n IH] using lt_wf_ind. intros [|x l] ->; cbn; [lia|].
  destruct (x =? c)%N.
  - destruct l as [|y l]; cbn; [lia|]. destruct (y =? c)%N; [|lia].
    specialize (IH (length l) ltac:(cbn; lia) l eq_refl). lia.
  - specialize (IH (length l) ltac:(cbn; lia) l eq_refl). lia.
Qed.

Lemma line_run_le l : line_run l <= length l.
Proof. induction l; cbn; [lia|]. case_match; lia. Qed.

(** The loop reads a doubled body as one run up to the closing quote. *)
Lemma quote_run_double c body rest :
  head rest <> Some c -> quote_run c (double c body ++ c :: rest) = length (double c body) + 1.
Proof.
  intros Hr. induction body as [|x body IH].
  - cbn. rewrite N.eqb_refl. destruct rest as [|y rest]; [done|].
    destruct (N.eqb_spec y c); [by subst|]. done.
  - cbn [double]. destruct (N.eqb_spec x c) as [->|Hne].
    + cbn [app quote_run]. rewrite N.eqb_refl. rewrite IH. cbn. lia.
    + cbn [app quote_run]. rewrite (proj2 (N.eqb_neq x c)) by done. rewrite IH. cbn. lia.
Qed.

#[export] Instance skipQuote_skipper : QuoteSkipper double skipQuote [cSQ; cDQ; cBT].
Proof.
  intros q pre body rest _ Hr. unfold skipQuote.
  rewrite drop_S_app, quote_run_double by done. lia.
Qed.

Lemma dollarTag_length sql i tag :
  dollarTag sql i = Some tag -> 2 <= length tag /\ i + length tag <= length sql.
Proof.
  unfold dollarTag. destruct (match_at dollar_re (drop i sql) 0) as [j|] eqn:E; [|done].
  intros [= <-]. pose proof (match_at_bounds _ _ _ _ E) as [_ Hj].
  apply match_at_sound in E.
  assert (2 <= j) as H2.
  { unfold dollar_re in E. cbn in E.
    repeat match goal with
    | H : rmatch _ (RSeq _ _) _ _ |- _ => inversion H; clear H; subst
    | H : rmatch _ REps _ _ |- _ => inversion H; clear H; subst
    | H : rmatch _ (RChr _) _ _ |- _ => inversion H; clear H; subst
    | H : rmatch _ _ ?i ?k |- _ =>
        lazymatch goal with
        | _ : i <= k |- _ => fail
        | _ => pose proof (proj1 (rmatch_le _ _ _ _ H))
        end
    end. lia. }
  rewrite length_take, length_drop. rewrite length_drop in Hj. lia.
Qed.

(** Every iteration advances the cursor, and stays in the text. *)
Lemma step_progress sql c i start out i' start' out' :
  sql !! i = Some c -> step sql c i start out = (i', start', out') ->
  i < i' /\ i' <= length sql.
Proof.
  intros Hc. pose proof (lookup_lt_Some _ _ _ Hc) as Hi. unfold step, skipQuote.
  repeat case_match; intros [= <- <- <-]; bools; try lia.
  - pose proof (quote_run_le c (drop (S i) sql)). rewrite length_drop in *. lia.
  - assert (drop i sql = c :: drop (S i) sql) as -> by (by apply drop_S).
    pose proof (line_run_le (drop (S i) sql)). rewrite length_drop in *. cbn.
    case_match; [|lia]. neqs. by subst.
  - match goal with H : dollarTag _ _ = Some _ |- _ => apply dollarTag_length in H as [? ?] end.
    match goal with H : indexOf _ _ _ = Some _ |- _ => apply indexOf_spec in H as (? & ? & ?) end.
    lia.
Qed.

Lemma scan_total fuel sql i start out :
  i <= length sql -> length sql < fuel + i -> is_Some (scan fuel sql i start out).
Proof.
  revert i start out. induction fuel as [|f IH]; intros i start out Hi H; [lia|]. cbn [scan].
  destruct (sql !! i) as [c|] eqn:Hc; [|by eexists].
  destruct (step sql c i start out) as [[i' start'] out'] eqn:E.
  eapply step_progress in E as [? ?]; [|done]. apply IH; lia.
Qed.

Lemma splitStatementRanges_scan sql :
  scan (S (length sql)) sql 0 0 [] = Some (splitStatementRanges sql).
Proof.
  unfold splitStatementRanges.
  by destruct (scan_total (S (length sql)) sql 0 0 []) as [rs ->]; [lia..|].
Qed.

(** A rule of induction for the scanner: an invariant of the loop that holds at the
    start holds when the text is exhausted, and then for the final push. *)
Section scan_induction.
Context (sql : jsstr) (P : nat -> nat -> list SqlStatementRange -> Prop).
Context (P_step : forall i start out c i' start' out',
  P i start out -> sql !! i = Some c -> step sql c i start out = (i', start', out') ->
  P i' start' out').

Lemma scan_ind_gen fuel i start out rs :
  P i start out -> i <= length sql -> scan fuel sql i start out = Some rs ->
  exists start out, P (length sql) start out /\ rs = push out sql start (length sql).
Proof.
  revert i start out. induction fuel as [|f IH]; intros i start out HP Hi Hr; [done|].
  cbn [scan] in Hr. destruct (sql !! i) as [c|] eqn:Hc.
  - destruct (step sql c i start out) as [[i' start'] out'] eqn:E.
    pose proof (step_progress _ _ _ _ _ _ _ _ Hc E) as [? ?].
    eapply IH; [by eapply P_step|lia|done].
  - simplify_eq. apply lookup_ge_None in Hc. replace (length sql) with i by lia. eauto.
Qed.

Lemma scan_ind :
  P 0 0 [] -> exists start out,
  P (length sql) start out /\ splitStatementRanges sql = push out sql start (length sql).
Proof. intros H. eapply scan_ind_gen; [done|lia|apply splitStatementRanges_scan]. Qed.

End scan_induction.

(** ** Every text has tokens *)

(** [a] is what precedes the first [w]. *)
Definition first_at (w a l : jsstr) : Prop := (exists b, l = a ++ w ++ b) /\ forall a' b', l = a' ++ w ++ b' -> length a <= length a'.
Lemma first_occurrence w l : ~ occurs w l \/ exists a, first_at w a l.
Proof.
  induction l as [|c l IH].
  - destruct w as [|x w]; [right; exists []; split; [by exists []|cbn; lia]|left]. by intros ([|] & b & E).
  - destruct (prefixb w (c :: l)) eqn:E.
    + apply prefixb_spec in E as [b ->]. right. exists []. split; [by exists b|cbn; lia].
    + assert (forall b', c :: l <> w ++ b') as Hp.
      { intros b' Hb. rewrite Hb, prefixb_app in E. done. }
      destruct IH as [IH|(a & (b & ->) & Hmin)].
      * left. intros ([|x a] & b & Hl); [by apply (Hp b)|]. injection Hl as -> ->. apply IH. by exists a, b.
      * right. exists (c :: a). split; [by exists b|]. intros [|x a'] b' Hl; [by destruct (Hp b')|]. injection Hl as _ Hl.
        cbn. apply Hmin in Hl. lia.
Qed.
Lemma first_index w a l i : first_at w a l -> index_from w l i = Some (i + length a).
Proof.
  revert l i. induction a as [|c a IH]; intros l i [(b & ->) Hmin].
  - rewrite Nat.add_0_r. cbn [app]. pose proof (prefixb_app w b) as E. destruct (w ++ b); cbn [index_from]; by rewrite E.
  - cbn [app index_from]. destruct (prefixb w _) eqn:E.
    + exfalso. apply prefixb_spec in E as [b' E]. specialize (Hmin [] b' E). cbn in Hmin. lia.
    + rewrite (IH (a ++ w ++ b) (S i)); [f_equal; cbn; lia|]. split; [by exists b|]. intros a' b' E'.
      specialize (Hmin (c :: a') b'). cbn in Hmin. apply le_S_n, Hmin. by rewrite <- E'.
Qed.
Lemma no_index w l i : ~ occurs w l -> index_from w l i = None.
Proof.
  intros H. revert i. induction l as [|c l IH]; intros i; cbn [index_from].
  - destruct w; [|done]. destruct H. by exists [], [].
  - destruct (prefixb w (c :: l)) eqn:E; [apply prefixb_spec in E as [b E]; destruct H; by exists [], b|].
    apply IH. intros (a & b & ->). apply H. by exists (c :: a), b.
Qed.

Lemma quote_parts q l :
  (exists body rest, l = double q body ++ q :: rest /\ head rest <> Some q) \/ exists body, l = double q body.
Proof.
  remember (length l) as n eqn:Hn. revert l Hn. induction n as [n IH] using lt_wf_ind. intros [|c l] ->; [right; by exists []|].
  destruct (N.eqb_spec c q) as [->|Hc].
  - destruct l as [|d l]; [left; by exists [], []|]. destruct (N.eqb_spec d q) as [->|Hd].
    + destruct (IH (length l) ltac:(cbn; lia) l eq_refl) as [(body & rest & -> & Hr)|(body & ->)]; [left|right];
        exists (q :: body); [exists rest|]; cbn; by rewrite N.eqb_refl.
    + left. exists [], (d :: l). split; [done|]. cbn. congruence.
  - destruct (IH (length l) ltac:(cbn; lia) l eq_refl) as [(body & rest & -> & Hr)|(body & ->)]; [left|right];
      exists (c :: body); [exists rest|]; cbn; by rewrite (proj2 (N.eqb_neq c q)).
Qed.
Lemma run_parts (p : N -> bool) l : exists a b, l = a ++ b /\ forallb p a = true /\ opt_is (head b) p = false.
Proof.
  induction l as [|c l (a & b & -> & Ha & Hb)]; [by exists [], []|]. destruct (p c) eqn:E.
  - exists (c :: a), b. cbn. by rewrite E.
  - exists [], (c :: a ++ b). by split_and!.
Qed.

Lemma next_token l : l <> [] -> exists t rest, l = token_text t ++ rest /\ token_ok t rest.
Proof.
  destruct l as [|c l]; [done|]. intros _. destruct (is_space c) eqn:Es; [by exists (t_blank c), l|].
  destruct (N.eqb_spec c cSEMI) as [->|Hsemi]; [by exists t_separator, l|].
  assert (forall q, q = cSQ \/ q = cDQ -> exists t rest, q :: l = token_text t ++ rest /\ token_ok t rest) as Hquote.
  { intros q Hq. destruct (quote_parts q l) as [(body & rest & -> & Hr)|(body & ->)].
    - exists (t_quote q body true), rest. cbn. by rewrite <- app_assoc.
    - exists (t_quote q body false), []. cbn. by rewrite !app_nil_r. }
  destruct (N.eqb_spec c cSQ) as [->|Hsq]; [apply Hquote; by left|].
  destruct (N.eqb_spec c cDQ) as [->|Hdq]; [apply Hquote; by right|]. clear Hquote.
  destruct (decide (c = cDASH /\ head l = Some cDASH)) as [[-> Hd]|Hdash].
  { destruct l as [|d l]; [done|]. injection Hd as ->. destruct (run_parts (fun c => negb (c =? cLF)%N) l) as (a & b & -> & Ha & Hb).
    exists (t_line a), b. split; [done|]. split.
    - intros Hin. rewrite forallb_elem in Ha. by specialize (Ha _ Hin).
    - destruct b as [|x b]; [by left|right]. cbn in Hb. apply negb_false_iff, N.eqb_eq in Hb as ->. done. }
  destruct (decide (c = cSLASH /\ head l = Some cSTAR)) as [[-> Hd]|Hslash].
  { destruct l as [|d l]; [done|]. injection Hd as ->.
    destruct (first_occurrence (js "*/") l) as [Hn|(a & (b & ->) & Hmin)].
    - exists (t_block l false), []. split; [cbn; by rewrite !app_nil_r|done].
    - exists (t_block a true), b. split; [cbn; by rewrite <- app_assoc|]. intros (a' & b' & E).
      specialize (Hmin a' (b' ++ js "/" ++ b)). change (js "*/") with ([cSTAR] ++ js "/") in Hmin at 1.
      rewrite <- !app_assoc in Hmin. rewrite (app_assoc a) , E in Hmin. rewrite <- !app_assoc in Hmin. specialize (Hmin eq_refl).
      apply (f_equal length) in E. rewrite !length_app in E. cbn in E. lia. }
  destruct (run_parts is_word l) as (w & r & -> & Hw & Hr).
  destruct (decide (c = cDOLLAR /\ head r = Some cDOLLAR)) as [[-> Hd]|Hdollar].
  { destruct r as [|d r]; [done|]. injection Hd as ->. destruct (first_occurrence (dollar w) r) as [Hn|(a & (b & ->) & Hmin)].
    - exists (t_dollar w r false), []. split; [|done]. cbn. unfold dollar. rewrite !app_nil_r, <- !app_assoc. done.
    - exists (t_dollar w a true), b. split; [cbn; unfold dollar; cbn; rewrite <- !app_assoc; cbn; by rewrite <- !app_assoc|]. split; [done|].
      intros a' b' E. apply (Hmin a' (b' ++ b)). rewrite app_assoc, E. by rewrite <- !app_assoc. }
  exists (t_other c), (w ++ r). split; [done|]. cbn. split_and!; try done; try tauto.
  intros -> tag rest' Ht E. apply Hdollar. split; [done|].
  clear -Hw Hr Ht E. revert tag Ht E. induction w as [|x w IH]; intros [|y tag] Ht E.
  - cbn in E. by rewrite E.
  - cbn in E. subst r. cbn in Ht. cbn in Hr. apply andb_true_iff in Ht as [Ht _]. congruence.
  - injection E as -> E. done.
  - injection E as <- E. cbn in *. bools. by eapply IH.
Qed.

Lemma token_text_cons t : token_text t <> [].
Proof. by destruct t. Qed.
Lemma has_tokens sql : exists ts, tokenized ts /\ text ts = sql.
Proof.
  remember (length sql) as n eqn:Hn. revert sql Hn. induction n as [n IH] using lt_wf_ind. intros sql ->.
  destruct (decide (sql = [])) as [->|Hne]; [by exists []|].
  destruct (next_token sql Hne) as (t & rest & -> & Ht). rewrite length_app in IH.
  assert (0 < length (token_text t)) by (destruct (token_text t) eqn:E; [by destruct (token_text_cons t)|cbn; lia]).
  destruct (IH (length rest) ltac:(lia) rest eq_refl) as (ts & Hts & <-). exists (t :: ts). done.
Qed.

(** ** One step per token *)

Lemma line_run_body body rest : cLF ∉ body -> rest = [] \/ head rest = Some cLF -> line_run (body ++ rest) = length body.
Proof.
  intros Hn Hr. induction body as [|c body IH]; cbn.
  - destruct Hr as [->|Hr]; [done|]. destruct rest as [|c rest]; [done|]. by injection Hr as ->.
  - rewrite not_elem_of_cons in Hn. rewrite (proj2 (N.eqb_neq c cLF)) by (intros ->; tauto). rewrite IH by tauto. done.
Qed.
Lemma block_run_body body rest : ~ occurs (js "*/") (body ++ [cSTAR]) -> block_run (body ++ js "*/" ++ rest) = length body.
Proof.
  induction body as [|c body IH]; intros Hn; [done|].
  assert (~ occurs (js "*/") (body ++ [cSTAR])) as Hn' by (intros (a & b & E); apply Hn; exists (c :: a), b; cbn; by rewrite E).
  specialize (IH Hn'). destruct (body ++ js "*/" ++ rest) as [|y l] eqn:E; [by destruct body|].
  cbn [app]. rewrite E. change (block_run (c :: y :: l)) with (if ((c =? cSTAR) && (y =? cSLASH))%N then 0 else 1 + block_run (y :: l)).
  destruct ((c =? cSTAR) && (y =? cSLASH))%N eqn:Ec; [|by rewrite IH]. exfalso. bools. neqs. subst. apply Hn.
  destruct body as [|z body]; [done|]. injection E as -> _. by exists [], (body ++ [cSTAR]).
Qed.
Lemma block_run_open body : ~ occurs (js "*/") body -> length body <= block_run body + 1.
Proof.
  induction body as [|c body IH]; intros Hn; [cbn; lia|].
  assert (~ occurs (js "*/") body) as Hn' by (intros (a & b & ->); apply Hn; by exists (c :: a), b).
  specialize (IH Hn'). destruct body as [|d body]; [cbn; lia|].
  change (block_run (c :: d :: body)) with (if ((c =? cSTAR) && (d =? cSLASH))%N then 0 else 1 + block_run (d :: body)).
  destruct ((c =? cSTAR) && (d =? cSLASH))%N eqn:Ec; [|cbn in *; lia]. exfalso. bools. neqs. subst. apply Hn. by exists [], body.
Qed.
Lemma quote_run_open q body : quote_run q (double q body) = length (double q body).
Proof.
  induction body as [|x body IH]; [done|]. cbn [double]. destruct (N.eqb_spec x q) as [->|Hne].
  - cbn [quote_run]. rewrite !N.eqb_refl, IH. done.
  - cbn [quote_run]. rewrite (proj2 (N.eqb_neq x q)), IH by done. done.
Qed.

Lemma word_star s i j : rmatch s (RStar (RCls is_word)) i j -> exists w, forallb is_word w = true /\ slice s i j = w /\ i <= j /\ (i < j -> j <= length s).
Proof.
  remember (RStar (RCls is_word)) as r eqn:Er. intros H. revert Er. induction H; intros Er; try discriminate.
  - exists []. unfold slice. rewrite Nat.sub_diag. split_and!; try done. lia.
  - injection Er as ->. inversion H; subst. destruct (IHrmatch2 eq_refl) as (w & Hw & Hs & Hle & Hlen). exists (c :: w).
    cbn. split; [by apply andb_true_iff|]. pose proof (lookup_lt_Some _ _ _ H3) as Hi. split; [|split; [lia|]].
    + rewrite <- Hs. rewrite <- (slice_app s i (S i) k) by lia. f_equal. unfold slice. rewrite (drop_S s c i) by done.
      by replace (S i - i) with 1 by lia.
    + intros _. destruct (decide (S i < k)); [tauto|lia].
Qed.
(** What the regex of an opener matches. *)
Lemma dollar_tag_of l j : rmatch l dollar_re 0 j -> exists w rest, forallb is_word w = true /\ l = dollar w ++ rest /\ j = S (S (length w)).
Proof.
  unfold dollar_re. cbn [RSeqs]. intros H.
  inversion H as [| |? ? ? ? ? H1 H2| | | | | | | | |]; clear H; subst. inversion H1; subst. clear H1.
  inversion H2 as [| |? ? ? ? ? H1 H3| | | | | | | | |]; clear H2; subst. inversion H1 as [|? ? c Hc Hd| | | | | | | | | |]; subst. clear H1.
  inversion H3 as [| |? ? ? k ? H1 H4| | | | | | | | |]; clear H3; subst.
  inversion H4 as [| |? ? ? k2 ? H5 H6| | | | | | | | |]; clear H4; subst.
  inversion H6 as [| |? ? ? k3 ? H7 H8| | | | | | | | |]; clear H6; subst. inversion H8; subst. clear H8.
  inversion H7 as [|? ? c' Hc' Hd'| | | | | | | | | |]; subst. clear H7.
  apply N.eqb_eq in Hd as <-, Hd' as <-. destruct (word_star _ _ _ H5) as (w & Hw & Hs & Hle & Hlen).
  assert (exists w0, forallb is_word w0 = true /\ slice l 1 k = w0 /\ 1 <= k) as (w0 & Hw0 & Hs0 & Hk).
  { inversion H1 as [| | |? ? ? ? Ha|? ? ? ? Ha| | | | | | |]; subst; inversion Ha as [|? ? c0 Hc0 Hp| | | | | | | | | |]; subst.
    - exists [c0]. split_and!; [|unfold slice; by rewrite (drop_S l c0 1)|lia]. cbn. rewrite andb_true_r.
      unfold tag_start, is_word, is_alnum in *. apply orb_true_iff in Hp as [->| ->]; [done|by rewrite orb_true_r].
    - exists []. split_and!; [done..|lia]. }
  pose proof (lookup_lt_Some _ _ _ Hc') as Hk2.
  exists (slice l 1 k2), (drop (S k2) l). split; [|split].
  - rewrite <- (slice_app l 1 k k2) by lia. by rewrite Hs, Hs0, forallb_app, Hw, Hw0.
  - destruct l as [|x l]; [done|]. cbn in Hc. injection Hc as ->. unfold dollar. cbn [app]. f_equal. rewrite <- app_assoc. cbn [app].
    unfold slice. cbn [drop]. rewrite drop_0. destruct k2 as [|k2]; [lia|]. cbn in Hc'. cbn [drop].
    replace (S k2 - 1) with k2 by lia. rewrite <- (take_drop k2 l) at 1. f_equal. by apply drop_S.
  - rewrite slice_length by lia. lia.
Qed.
Lemma dollar_prefix sql i w rest :
  pos sql i (dollar w ++ rest) -> forallb is_word w = true -> dollarTag sql i = Some (dollar w).
Proof.
  intros [_ Hp] Hw. unfold dollarTag. rewrite Hp. clear Hp. set (l := dollar w ++ rest).
  assert (rmatch l dollar_re 0 (S (S (length w)))) as Hm.
  { unfold dollar_re. cbn [RSeqs]. eapply m_seq; [apply m_bol|]. eapply m_seq; [by apply (m_cls _ _ _ cDOLLAR)|].
    eapply m_seq; [apply m_alt_r, m_eps|]. eapply (m_seq _ _ _ _ (1 + length w)).
    - assert (forall k, forallb is_word k = true -> forall a b, rmatch (a ++ k ++ b) (RStar (RCls is_word)) (length a) (length a + length k)) as H.
      { clear. induction k as [|c k IH]; intros Hk a b; [rewrite Nat.add_0_r; constructor|]. cbn in Hk. bools.
        eapply (m_star_step _ _ _ (S (length a))); [eapply (m_cls _ _ _ c); [by rewrite lookup_app_r, Nat.sub_diag by lia|done]|lia|].
        specialize (IH ltac:(done) (a ++ [c]) b). rewrite <- app_assoc, length_app in IH. cbn in IH |- *.
        replace (length a + S (length k)) with (length a + 1 + length k) by lia. by replace (S (length a)) with (length a + 1) by lia. }
      specialize (H w Hw [cDOLLAR] ([cDOLLAR] ++ rest)). unfold l, dollar. cbn in *. by rewrite <- app_assoc.
    - eapply m_seq; [|constructor]. apply (m_cls _ _ _ cDOLLAR); [|done]. unfold l, dollar. cbn.
      rewrite <- app_assoc. by apply list_lookup_middle. }
  destruct (match_at dollar_re l 0) as [j|] eqn:E; [|by destruct (proj1 (match_at_none _ _ _) E _ Hm)].
  apply match_at_sound, dollar_tag_of in E as (w' & rest' & Hw' & El & ->).
  assert (w' = w) as ->.
  { unfold l, dollar in El. cbn in El. injection El as El. rewrite <- !app_assoc in El. clear -El Hw Hw'.
    revert w' El Hw'. induction w as [|x w IH]; intros [|y w'] El Hw'; try done.
    - injection El as E _. subst y. by cbn in Hw'.
    - injection El as E _. subst x. by cbn in Hw.
    - injection El as <- El. cbn in *. bools. f_equal. by apply IH. }
  f_equal. unfold l. replace (S (S (length w))) with (length (dollar w)) by (unfold dollar; cbn; rewrite length_app; cbn; lia).
  apply take_app_length.
Qed.
Lemma dollar_none sql i rest :
  pos sql i (cDOLLAR :: rest) -> (forall w rest', forallb is_word w = true -> rest <> w ++ cDOLLAR :: rest') -> dollarTag sql i = None.
Proof.
  intros [_ Hp] Hn. unfold dollarTag. rewrite Hp. destruct (match_at _ _ _) as [j|] eqn:E; [|done].
  apply match_at_sound, dollar_tag_of in E as (w & rest' & Hw & El & _). exfalso. unfold dollar in El. cbn in El. injection El as El.
  rewrite <- app_assoc in El. by apply (Hn w rest').
Qed.

Lemma at_is_head sql i c l x : pos sql i (c :: l) -> at_is sql (i + 1) x = opt_is (head l) (fun y => (y =? x)%N).
Proof.
  intros Hp. apply pos_cons, pos_lookup in Hp. unfold at_is. replace (i + 1) with (S i) by lia. rewrite Hp. by destruct l.
Qed.
Lemma drop_pos sql i l : pos sql i l -> drop i sql = l.
Proof. by intros [_ ->]. Qed.

Lemma step_token sql i start out t rest c l :
  pos sql i (token_text t ++ rest) -> token_ok t rest -> token_text t = c :: l ->
  step sql c i start out = match t with t_separator => (i + 1, i + 1, push out sql start i) | _ => (i + length (token_text t), start, out) end.
Proof.
  intros Hp Ht Hc. pose proof (pos_length _ _ _ Hp) as Hlen. rewrite length_app in Hlen.
  destruct t as [|b|b|body|body closed|q body closed|tag body closed]; cbn [token_text] in Hc; injection Hc as <- <-.
  - done.
  - cbn in Ht. unfold step. destruct (_ || _) eqn:E1; [|destruct (N.eqb_spec b cDASH), (N.eqb_spec b cSLASH), (N.eqb_spec b cDOLLAR), (N.eqb_spec b cSEMI); subst; done].
    apply orb_true_iff in E1 as [E1|E1]; neqs; by subst.
  - destruct Ht as (_ & H1 & H2 & H3 & H4 & H5 & H6). unfold step. cbn in Hp. rewrite !(at_is_head _ _ _ _ _ Hp).
    rewrite (proj2 (N.eqb_neq b cSQ)), (proj2 (N.eqb_neq b cDQ)), (proj2 (N.eqb_neq b cSEMI)) by done. cbn [orb].
    destruct (N.eqb_spec b cDASH) as [->|].
    { specialize (H4 eq_refl). destruct rest as [|y rest]; [done|]. cbn. destruct (N.eqb_spec y cDASH); [by subst|done]. }
    destruct (N.eqb_spec b cSLASH) as [->|].
    { specialize (H5 eq_refl). destruct rest as [|y rest]; [done|]. cbn. destruct (N.eqb_spec y cSTAR); [by subst|done]. }
    cbn [andb]. destruct (N.eqb_spec b cDOLLAR) as [->|]; [|done]. rewrite (dollar_none sql i rest); [done|done|by apply H6].
  - destruct Ht as [Hb Hr]. unfold step. cbn [app] in Hp. rewrite (at_is_head _ _ _ _ _ Hp), (drop_pos _ _ _ Hp).
    change (cDASH :: cDASH :: body ++ rest) with ((cDASH :: cDASH :: body) ++ rest). rewrite line_run_body; [done| |done].
    change (cLF ∉ cDASH :: cDASH :: body). rewrite !not_elem_of_cons. done.
  - unfold step. pose proof Hp as Hp'. cbn [app] in Hp'. rewrite !(at_is_head _ _ _ _ _ Hp').
    assert (pos sql (i + 2) ((body ++ if_closed closed (js "*/")) ++ rest)) as Hp2 by by apply (pos_app sql i (js "/*")).
    rewrite (drop_pos _ _ _ Hp2). cbn [orb andb opt_is head].
    replace ((cSLASH =? cSQ) || (cSLASH =? cDQ))%N with false by done. replace (cSLASH =? cDASH)%N with false by done.
    replace (cSLASH =? cSLASH)%N with true by done. replace (cSTAR =? cSTAR)%N with true by done. cbn [andb].
    f_equal. f_equal. destruct closed; cbn [token_ok if_closed] in *.
    + rewrite <- app_assoc, block_run_body by done. cbn [token_text if_closed]. rewrite !length_app. cbn.
      rewrite Hlen. cbn. rewrite !length_app. cbn. lia.
    + destruct Ht as [Hn ->]. rewrite !app_nil_r. apply block_run_open in Hn. cbn. rewrite Hlen. cbn. rewrite app_nil_r. lia.
  - assert (pos sql (S i) ((double q body ++ if_closed closed [q]) ++ rest)) as Hp2 by exact (pos_cons sql i q _ Hp).
    unfold step, skipQuote. rewrite (drop_pos _ _ _ Hp2). destruct Ht as [Hq Ht].
    assert ((q =? cSQ) || (q =? cDQ) = true)%N as -> by (destruct Hq as [->| ->]; done).
    f_equal. f_equal. destruct closed; cbn [if_closed token_text] in *.
    + rewrite <- app_assoc. cbn [app]. rewrite quote_run_double by done. cbn. rewrite length_app. cbn. lia.
    + subst rest. rewrite !app_nil_r, quote_run_open. cbn. lia.
  - destruct Ht as [Hw Ht]. unfold step. replace ((cDOLLAR =? cSQ) || (cDOLLAR =? cDQ))%N with false by done.
    replace (cDOLLAR =? cDASH)%N with false by done. replace (cDOLLAR =? cSLASH)%N with false by done. cbn [andb].
    replace (cDOLLAR =? cDOLLAR)%N with true by done. cbn [token_text] in Hp. rewrite <- app_assoc in Hp.
    rewrite (dollar_prefix _ _ _ _ Hp Hw). unfold indexOf.
    assert (pos sql (i + length (dollar tag)) ((body ++ if_closed closed (dollar tag)) ++ rest)) as Hp2 by by apply pos_app.
    rewrite (drop_pos _ _ _ Hp2). cbn [token_text]. rewrite length_app.
    assert (Nat.min (i + length (dollar tag)) (length sql) = i + length (dollar tag)) as -> by (cbn [token_text] in Hlen; rewrite length_app in Hlen; lia).
    destruct closed; cbn [if_closed] in *.
    + rewrite (first_index (dollar tag) body); [do 2 f_equal; rewrite length_app; lia|]. split; [exists rest; by rewrite <- app_assoc|].
      intros a' b' E. destruct (decide (length body <= length a')) as [|Hlt]; [done|].
      apply (Ht a' (take (length (body ++ dollar tag) - length (a' ++ dollar tag)) b')).
      apply (f_equal (take (length (body ++ dollar tag)))) in E. rewrite take_app_length, (app_assoc a'), take_app_ge in E
        by (rewrite !length_app; lia).
      by rewrite <- app_assoc in E.
    + destruct Ht as [Hn ->]. rewrite !app_nil_r. rewrite no_index by done. do 2 f_equal. rewrite Hlen. cbn [token_text if_closed]. rewrite !length_app. cbn. lia.
Qed.
(** ** The scan over the tokens *)

Lemma text_cons t ts : text (t :: ts) = token_text t ++ text ts.
Proof. done. Qed.
Lemma text_app ts us : text (ts ++ us) = text ts ++ text us.
Proof. unfold text. by rewrite map_app, concat_app. Qed.
Lemma segments_cons ts : exists seg segs, segments ts = seg :: segs.
Proof. induction ts as [|t ts (seg & segs & IH)]; cbn; [eauto|]. destruct t; rewrite ?IH; eauto. Qed.
Lemma segments_other t ts seg segs :
  t <> t_separator -> segments ts = seg :: segs -> segments (t :: ts) = (t :: seg) :: segs.
Proof. intros Ht E. cbn. rewrite E. by destruct t. Qed.
Lemma segments_join ts : join [cSEMI] (map text (segments ts)) = text ts.
Proof.
  induction ts as [|t ts IH]; [done|]. destruct (segments_cons ts) as (seg & segs & E).
  destruct (decide (t = t_separator)) as [->|Ht].
  - cbn [segments]. rewrite E in *. cbn [map join] in *. rewrite text_cons, <- IH. done.
  - rewrite (segments_other t ts seg segs), text_cons, <- IH, E by done. cbn [map]. rewrite text_cons.
    destruct segs as [|seg' segs]; [done|]. cbn. by rewrite <- app_assoc.
Qed.

(** The first segment goes on from [p]. *)
Definition prepend (p : jsstr) (l : list jsstr) : list jsstr := match l with s :: l => (p ++ s) :: l | [] => [] end.
Lemma push_sql out sql start fin :
  map st_sql (push out sql start fin) = map st_sql out ++ map trim (filterb effective [slice sql start fin]).
Proof.
  unfold push, effective, filterb. cbn [List.filter]. destruct (_ && _); [|by rewrite app_nil_r]. by rewrite map_app.
Qed.
Lemma scan_tokens ts fuel sql i start out :
  pos sql i (text ts) -> tokenized ts -> start <= i -> length sql < fuel + i ->
  exists rs, scan fuel sql i start out = Some rs
    /\ map st_sql rs = map st_sql out ++ map trim (filterb effective (prepend (slice sql start i) (map text (segments ts)))).
Proof.
  revert fuel i start out. induction ts as [|t ts IH]; intros fuel i start out Hp Ht Hs Hf.
  - pose proof (pos_length _ _ _ Hp) as Hl. cbn in Hl. destruct fuel as [|fuel]; [lia|]. cbn [scan]. rewrite (pos_lookup _ _ _ Hp). cbn [head].
    eexists. split; [done|]. rewrite push_sql. cbn [segments map prepend]. rewrite app_nil_r. replace (length sql) with i by lia. done.
  - destruct Ht as [Ht Hts]. rewrite text_cons in Hp. pose proof (pos_length _ _ _ Hp) as Hl. rewrite length_app in Hl.
    destruct (token_text t) as [|c l] eqn:Et; [by destruct (token_text_cons t)|]. cbn in Hl.
    destruct fuel as [|fuel]; [lia|]. cbn [scan]. rewrite (pos_lookup _ _ _ Hp). cbn [app head]. rewrite <- Et in Hp.
    rewrite (step_token sql i start out t (text ts) c l Hp Ht Et). destruct (segments_cons ts) as (seg & segs & Eseg).
    assert (pos sql (i + length (token_text t)) (text ts)) as Hp' by by apply pos_app.
    destruct (decide (t = t_separator)) as [->|Hne].
    + cbn in Hp'. destruct (IH fuel (i + 1) (i + 1) (push out sql start i) Hp' Hts) as (rs & -> & Hrs); [lia..|].
      exists rs. split; [done|]. rewrite Hrs, push_sql. cbn [segments]. rewrite Eseg. cbn [map prepend].
      assert (slice sql (i + 1) (i + 1) = []) as -> by (unfold slice; by rewrite Nat.sub_diag). cbn [text concat map app].
      rewrite app_nil_r, <- app_assoc, <- map_app, <- filterb_app. done.
    + assert (match t with t_separator => (i + 1, i + 1, push out sql start i) | _ => (i + length (token_text t), start, out) end
              = (i + length (token_text t), start, out)) as -> by by destruct t.
      destruct (IH fuel (i + length (token_text t)) start out Hp' Hts) as (rs & -> & Hrs); [lia|rewrite Et; cbn; lia|].
      exists rs. split; [done|]. rewrite Hrs. do 2 f_equal. rewrite (segments_other t ts seg segs), Eseg by done. cbn [map prepend].
      rewrite text_cons, app_assoc, <- (slice_app sql start i) by lia. by rewrite (pos_slice _ _ _ _ Hp).
Qed.
Lemma split_tokens ts :
  tokenized ts -> splitStatements (text ts) = map trim (filterb effective (map text (segments ts))).
Proof.
  intros Ht. unfold splitStatements, splitStatementRanges.
  destruct (scan_tokens ts (S (length (text ts))) (text ts) 0 0 [] (pos_start _) Ht) as (rs & -> & Hrs); [lia..|].
  change (default [] (Some rs)) with rs. rewrite Hrs. cbn [map app]. destruct (segments_cons ts) as (seg & segs & ->). cbn [map prepend].
  by assert (slice (text ts) 0 0 = []) as ->.
Qed.

(** A segment is tokenized on its own. *)
Lemma token_ok_less t rest more :
  token_ok t (rest ++ more) -> (more = [] \/ exists k, more = cSEMI :: k) -> token_ok t rest.
Proof.
  intros H Hm. destruct t as [|b|b|body|body closed|q body closed|tag body closed]; cbn in *; try done.
  - destruct H as (? & ? & ? & ? & H1 & H2 & H3). split_and!; try done.
    + intros E. specialize (H1 E). by destruct rest.
    + intros E. specialize (H2 E). by destruct rest.
    + intros E tag rest' Hw Hr. apply (H3 E tag (rest' ++ more) Hw). by rewrite Hr, <- app_assoc.
  - destruct H as [? H]. split; [done|]. destruct rest as [|x rest]; [by left|]. right. by destruct H.
  - destruct closed; [done|]. destruct H as [? H]. split; [done|]. by apply app_nil in H as [-> _].
  - destruct H as [? H]. split; [done|]. destruct closed; [by destruct rest|]. by apply app_nil in H as [-> _].
  - destruct H as [? H]. split; [done|]. destruct closed; [done|]. destruct H as [? H]. split; [done|]. by apply app_nil in H as [-> _].
Qed.
Lemma first_segment ts seg segs :
  segments ts = seg :: segs -> exists more, text ts = text seg ++ more /\ (more = [] \/ exists k, more = cSEMI :: k).
Proof.
  revert seg segs. induction ts as [|t ts IH]; intros seg segs E.
  - injection E as <- <-. exists []. split; [done|by left].
  - destruct (segments_cons ts) as (seg' & segs' & E'). destruct (decide (t = t_separator)) as [->|Ht].
    + cbn in E. injection E as <- _. exists (cSEMI :: text ts). split; [done|right; by eexists].
    + rewrite (segments_other t ts seg' segs') in E by done. injection E as <- <-.
      destruct (IH seg' segs' E') as (more & Hm & Hk). exists more. rewrite !text_cons, Hm. split; [by rewrite app_assoc|done].
Qed.
Lemma segments_tokenized ts seg : tokenized ts -> seg ∈ segments ts -> tokenized seg.
Proof.
  revert seg. induction ts as [|t ts IH]; intros seg Ht Hin.
  - apply list_elem_of_singleton in Hin as ->. done.
  - destruct Ht as [Ht Hts]. destruct (segments_cons ts) as (seg' & segs' & E). destruct (decide (t = t_separator)) as [->|Hne].
    + cbn in Hin. apply elem_of_cons in Hin as [->|Hin]; [done|by apply IH].
    + rewrite (segments_other t ts seg' segs') in Hin by done. apply elem_of_cons in Hin as [->|Hin].
      * destruct (first_segment ts seg' segs' E) as (more & Hm & Hk). rewrite Hm in Ht. split; [|apply IH; [done|rewrite E; by left]].
        by eapply token_ok_less.
      * apply IH; [done|]. rewrite E. by right.
Qed.
(** ** What stripping leaves *)

Section replacing.
Context (r : re) (s : jsstr).

Lemma replace_fuel fuel fuel' i : length s < fuel + i -> length s < fuel' + i -> replace_from r [cSP] s fuel i = replace_from r [cSP] s fuel' i.
Proof.
  revert fuel' i. induction fuel as [|f IH]; intros fuel' i H H'.
  - destruct fuel' as [|f']; [done|]. cbn. by rewrite lookup_ge_None_2 by lia.
  - destruct fuel' as [|f']; [cbn; by rewrite lookup_ge_None_2 by lia|]. cbn [replace_from].
    destruct (s !! i) as [c|]; [|done]. destruct (match_at r s i) as [j|] eqn:E; [|f_equal; apply IH; lia].
    destruct (Nat.ltb_spec i j); f_equal; apply IH; lia.
Qed.
(** From [i] on, where [b] is left, [out] comes out. *)
Definition replaces (i : nat) (b out : jsstr) : Prop := pos s i b -> forall fuel, length s < fuel + i -> replace_from r [cSP] s fuel i = out.
Lemma replaces_nil i : replaces i [] [].
Proof. intros Hp fuel Hf. apply pos_length in Hp. cbn in Hp. destruct fuel; [done|]. cbn. by rewrite lookup_ge_None_2 by lia. Qed.
Lemma replaces_unit i c b out :
  (pos s i (c :: b) -> match_at r s i = None) -> replaces (S i) b out -> replaces i (c :: b) (c :: out).
Proof.
  intros Hm Ho Hp fuel Hf. pose proof (pos_length _ _ _ Hp) as Hl. destruct fuel as [|fuel]; [cbn in Hl; lia|]. cbn [replace_from].
  rewrite (pos_lookup _ _ _ Hp), Hm by done. cbn [head]. f_equal. apply Ho; [by eapply pos_cons|lia].
Qed.
Lemma replaces_match i w b out :
  w <> [] -> (pos s i (w ++ b) -> match_at r s i = Some (i + length w)) -> replaces (i + length w) b out -> replaces i (w ++ b) (cSP :: out).
Proof.
  intros Hw Hm Ho Hp fuel Hf. pose proof (pos_length _ _ _ Hp) as Hl. rewrite length_app in Hl.
  destruct w as [|c w]; [done|]. cbn [length] in *. destruct fuel as [|fuel]; [lia|]. cbn [replace_from].
  rewrite (pos_lookup _ _ _ Hp), Hm by done. cbn [app head]. rewrite (proj2 (Nat.ltb_lt _ _)) by lia.
  cbn [app]. f_equal. apply Ho; [exact (pos_app s i (c :: w) b Hp)|lia].
Qed.
Lemma replaces_some i b : pos s i b -> exists out, replaces i b out /\ (forall c, head out = Some c -> c = cSP \/ head b = Some c).
Proof.
  intros Hp. exists (replace_from r [cSP] s (S (length s)) i). split; [intros _ fuel Hf; apply replace_fuel; lia|].
  intros c. cbn [replace_from]. rewrite (pos_lookup _ _ _ Hp). destruct b as [|x b]; [done|]. cbn [head].
  destruct (match_at r s i) as [j|]; [|intros [= <-]; by right]. destruct (i <? j); intros [= <-]; [by left|by right].
Qed.
Lemma replaces_all b out : s = b -> replaces 0 b out -> replace_all r [cSP] s = out.
Proof. intros <- H. apply H; [apply pos_start|lia]. Qed.
End replacing.

Lemma lit_match s w i j : rmatch s (RLit w) i j -> prefixb w (drop i s) = true.
Proof.
  revert i. induction w as [|c w IH]; intros i H; [done|]. cbn in H.
  inversion H as [| |? ? ? ? ? H1 H2| | | | | | | | |]; subst. inversion H1 as [|? ? d Hd Hc| | | | | | | | | |]; subst.
  apply N.eqb_eq in Hc as <-. rewrite (drop_S s c i) by done. cbn. by rewrite N.eqb_refl, (IH (S i)).
Qed.
Lemma lit_none s w i b : pos s i b -> prefixb w b = false -> ends s (RLit w) i = [].
Proof.
  intros [_ Hp] Hw. destruct (ends s (RLit w) i) as [|j l] eqn:E; [done|]. exfalso.
  assert (rmatch s (RLit w) i j) as H%lit_match by (apply ends_spec; rewrite E; by left). by rewrite Hp, Hw in H.
Qed.
Lemma ends_seq s a b i : ends s (RSeq a b) i = ends s a i ≫= ends s b.
Proof. cbn [ends]. induction (ends s a i) as [|x l IH]; [done|]. cbn. by rewrite IH. Qed.

Lemma block_none s i b : pos s i b -> prefixb (js "/*") b = false -> match_at block_comment_re s i = None.
Proof. intros Hp Hb. unfold match_at, block_comment_re. cbn [RSeqs]. by rewrite ends_seq, (lit_none _ _ _ _ Hp Hb). Qed.
Lemma line_none s i b : pos s i b -> prefixb (js "--") b = false -> match_at line_comment_re s i = None.
Proof. intros Hp Hb. unfold match_at, line_comment_re. by rewrite ends_seq, (lit_none _ _ _ _ Hp Hb). Qed.
Lemma line_found s i body b :
  pos s i ((js "--" ++ body) ++ b) -> cLF ∉ body -> b = [] \/ head b = Some cLF ->
  match_at line_comment_re s i = Some (i + length (js "--" ++ body)).
Proof.
  intros Hp Hn Hb. unfold match_at, line_comment_re. rewrite <- app_assoc in Hp. rewrite ends_seq, (ends_lit _ _ _ _ Hp).
  cbn [mbind list_bind]. rewrite app_nil_r. rewrite (head_star _ _ _ body b).
  - f_equal. cbn. lia.
  - by apply (pos_app s i (js "--")).
  - apply forallb_elem. intros c Hc. apply negb_true_iff, N.eqb_neq. intros ->. done.
  - destruct Hb as [->|Hb]; [done|]. destruct b; [done|]. by injection Hb as ->.
Qed.
Lemma block_found s i body b :
  pos s i ((js "/*" ++ body ++ js "*/") ++ b) -> ~ occurs (js "*/") (body ++ [cSTAR]) ->
  match_at block_comment_re s i = Some (i + length (js "/*" ++ body ++ js "*/")).
Proof.
  intros Hp Hn. unfold match_at, block_comment_re. cbn [RSeqs]. rewrite <- app_assoc in Hp.
  rewrite ends_seq, (ends_lit _ _ _ _ Hp). cbn [mbind list_bind]. rewrite app_nil_r, ends_seq.
  assert (pos s (i + 2) ((body ++ js "*/") ++ b)) as Hp2 by by apply (pos_app s i (js "/*")).
  cbn [length js]. replace (i + length (js "/*")) with (i + 2) by done.
  rewrite (ends_lazy (fun _ => true) s (i + 2) ((body ++ js "*/") ++ b) []); [|by rewrite app_nil_r|by apply forallb_elem|done].
  set (n := length ((body ++ js "*/") ++ b)).
  assert (seq (i + 2) (S n) = seq (i + 2) (length body) ++ (i + 2 + length body) :: seq (S (i + 2 + length body)) (n - length body)) as ->.
  { replace (S n) with (length body + S (n - length body)) by (unfold n; rewrite !length_app; lia). by rewrite seq_app. }
  apply (head_bind_skip (seq (i + 2) (length body)) _ _ (i + 2 + length body)).
  - intros k Hk. apply elem_of_seq in Hk. rewrite ends_seq, (lit_none s (js "*/") k (drop (k - (i + 2)) ((body ++ js "*/") ++ b))); [done| |].
    + destruct Hp2 as [Hle <-]. split; [|rewrite drop_drop; f_equal; lia].
      apply pos_length in Hp. rewrite !length_app in Hp. cbn in Hp. lia.
    + apply not_true_iff_false. intros [k' Hpre]%prefixb_spec. apply Hn.
      set (a := take (k - (i + 2)) body). set (d := drop (k - (i + 2)) body).
      assert (body = a ++ d) as Eb by (symmetry; apply take_drop).
      assert (d <> []) as Hd by (intros E; apply (f_equal length) in E; unfold d in E; rewrite length_drop in E; cbn in E; lia).
      rewrite Eb, <- !app_assoc in Hpre. assert (length a = k - (i + 2)) as El by (unfold a; rewrite length_take; lia).
      rewrite <- El, drop_app_length in Hpre. destruct d as [|x [|y d]]; [done| |].
      * by injection Hpre.
      * injection Hpre as -> -> _. exists a, (d ++ [cSTAR]). rewrite Eb. by rewrite <- !app_assoc.
  - rewrite ends_seq, (ends_lit s (i + 2 + length body) (js "*/") b).
    + cbn [mbind list_bind ends app head]. f_equal. rewrite !length_app. cbn. lia.
    + rewrite <- app_assoc in Hp2. by apply pos_app.
Qed.
(** ** Comments and white space *)

(** Tokens that say nothing, none of which hides the start of a comment, before [rest]. *)
Fixpoint quiet (ts : list token) (rest : jsstr) : Prop :=
  match ts with
  | [] => True
  | t :: ts =>
    match t with
    | t_blank c => is_space c = true
    | t_line body => cLF ∉ body /\ ~ occurs (js "/*") body /\ (text ts ++ rest = [] \/ head (text ts ++ rest) = Some cLF)
    | t_block body true => ~ occurs (js "*/") (body ++ [cSTAR])
    | _ => False
    end /\ quiet ts rest
  end.
Definition unblock (t : token) : token := match t with t_block _ _ => t_blank cSP | _ => t end.
Definition unline (t : token) : token := match t with t_line _ => t_blank cSP | _ => t end.

Lemma space_not c d : is_space c = true -> is_space d = false -> c <> d.
Proof. intros H H' ->. congruence. Qed.
Lemma head_app_some {A} (l k : list A) x : head l = Some x -> head (l ++ k) = Some x.
Proof. by destruct l. Qed.
Lemma unblock_head ts rest out :
  quiet ts rest -> text ts ++ rest = [] \/ head (text ts ++ rest) = Some cLF ->
  (rest = [] -> out = []) -> (head rest = Some cLF -> head out = Some cLF) ->
  text (map unblock ts) ++ out = [] \/ head (text (map unblock ts) ++ out) = Some cLF.
Proof.
  intros Hq H Hn Hh. destruct ts as [|t ts].
  - cbn in *. destruct H as [H|H]; [left; by apply Hn|right; by apply Hh].
  - right. destruct H as [H|H]; [rewrite text_cons in H; by destruct t|]. rewrite text_cons in H. destruct Hq as [Ht _].
    by destruct t.
Qed.

(** A run of units in which no match starts. *)
Lemma replaces_run r s i w b out :
  (forall a c b', w = a ++ c :: b' -> pos s (i + length a) (c :: b' ++ b) -> match_at r s (i + length a) = None) ->
  replaces r s (i + length w) b out -> replaces r s i (w ++ b) (w ++ out).
Proof.
  revert i. induction w as [|c w IH]; intros i Hm Ho; [cbn in *; by rewrite Nat.add_0_r in Ho|]. cbn [app]. apply replaces_unit.
  - intros Hp. specialize (Hm [] c w eq_refl). cbn in Hm. rewrite Nat.add_0_r in Hm. by apply Hm.
  - apply IH; [|cbn in Ho; by replace (S i + length w) with (i + S (length w)) by lia].
    intros a c' b' -> Hp. specialize (Hm (c :: a) c' b' eq_refl). cbn in Hm. replace (S i + length a) with (i + S (length a)) in * by lia. by apply Hm.
Qed.

Lemma strip_blocks ts rest i s out :
  quiet ts rest -> replaces block_comment_re s (i + length (text ts)) rest out ->
  replaces block_comment_re s i (text ts ++ rest) (text (map unblock ts) ++ out).
Proof.
  revert i. induction ts as [|t ts IH]; intros i Hq Ho; [cbn in *; by rewrite Nat.add_0_r in Ho|].
  destruct Hq as [Ht Hq]. cbn [map]. rewrite !text_cons, <- !app_assoc in *. rewrite length_app, Nat.add_assoc in Ho.
  specialize (IH _ Hq Ho). destruct t as [|c|c|body|body closed| |]; try done; cbn [unblock token_text] in *.
  - apply (replaces_run _ _ _ [c]); [|done]. intros a x b' E Hp. eapply block_none; [exact Hp|].
    destruct a as [|? [|? ?]]; try done. injection E as <- <-. cbn. by rewrite (proj2 (N.eqb_neq _ _)) by (intros <-; done).
  - destruct Ht as (Hn & Hs & Hr). apply replaces_run; [|done]. intros a x b' E Hp. eapply block_none; [exact Hp|].
    apply not_true_iff_false. intros [k Hk]%prefixb_spec. injection Hk as -> Hk.
    destruct b' as [|y b'].
    + destruct Hr as [Hr|Hr]; cbn in Hk; rewrite Hk in Hr; done.
    + injection Hk as -> _. destruct a as [|u [|v a]]; [done|done|]. injection E as _ _ E. apply Hs. by exists a, b'.
  - destruct closed; [|done]. apply replaces_match; [done| |done]. intros Hp. exact (block_found s i body _ Hp Ht).
Qed.
Lemma strip_lines ts rest i s out :
  quiet ts rest -> Forall (fun t => unblock t = t) ts -> replaces line_comment_re s (i + length (text ts)) rest out ->
  replaces line_comment_re s i (text ts ++ rest) (text (map unline ts) ++ out).
Proof.
  revert i. induction ts as [|t ts IH]; intros i Hq Hu Ho; [cbn in *; by rewrite Nat.add_0_r in Ho|].
  destruct Hq as [Ht Hq]. inversion Hu as [|? ? Hu1 Hu2]; subst. cbn [map]. rewrite !text_cons, <- !app_assoc in *. rewrite length_app, Nat.add_assoc in Ho.
  specialize (IH _ Hq Hu2 Ho). destruct t as [|c|c|body|body closed| |]; try done; cbn [unline token_text] in *.
  - apply (replaces_run _ _ _ [c]); [|done]. intros a x b' E Hp. eapply line_none; [exact Hp|].
    destruct a as [|? [|? ?]]; try done. injection E as <- <-. cbn. by rewrite (proj2 (N.eqb_neq _ _)) by (intros <-; done).
  - destruct Ht as (Hn & Hs & Hr). apply replaces_match; [done| |done]. intros Hp. exact (line_found s i body _ Hp Hn Hr).
Qed.
Lemma quiet_unblock ts rest out :
  quiet ts rest -> (rest = [] -> out = []) -> (head rest = Some cLF -> head out = Some cLF) ->
  quiet (map unblock ts) out /\ Forall (fun t => unblock t = t) (map unblock ts).
Proof.
  intros H Hn Hh. induction ts as [|t ts IH]; [done|]. destruct H as [Ht Hq]. destruct (IH Hq) as [H1 H2].
  split; [|constructor; [by destruct t|done]]. split; [|done]. destruct t as [|c|c|body|body closed| |]; try done.
  destruct Ht as (? & ? & Hr). split_and!; [done|done|]. by eapply unblock_head.
Qed.
Lemma unline_blank ts : Forall (fun t => unblock t = t) ts -> (exists rest, quiet ts rest) -> Forall (fun c => is_space c = true) (text (map unline ts)).
Proof.
  intros Hu [rest Hq]. induction ts as [|t ts IH]; [constructor|]. destruct Hq as [Ht Hq]. inversion Hu; subst.
  cbn [map]. rewrite text_cons. apply Forall_app. split; [|by apply IH].
  destruct t as [|c|c|body|body closed| |]; try done; by repeat constructor.
Qed.

Lemma strip_quiet ts : quiet ts [] -> trim (stripComments (text ts)) = [].
Proof.
  intros Hq. unfold stripComments. destruct (quiet_unblock ts [] [] Hq) as [Hq2 Hu]; [done..|].
  rewrite (replaces_all block_comment_re (text ts) (text ts) (text (map unblock ts))); [|done|].
  2: { pose proof (strip_blocks ts [] 0 (text ts) [] Hq (replaces_nil _ _ _)) as H. by rewrite !app_nil_r in H. }
  rewrite (replaces_all line_comment_re _ (text (map unblock ts)) (text (map unline (map unblock ts)))); [|done|].
  2: { pose proof (strip_lines (map unblock ts) [] 0 (text (map unblock ts)) [] Hq2 Hu (replaces_nil _ _ _)) as H. by rewrite !app_nil_r in H. }
  pose proof (unline_blank _ Hu (ex_intro _ [] Hq2)) as Hb. destruct (trim_decomp (text (map unline (map unblock ts)))) as (a & b & E & _ & _ & _).
  destruct (trim _) as [|c k] eqn:Et; [done|]. exfalso. unfold trim in Et.
  destruct (trimStart (text (map unline (map unblock ts)))) as [|d k'] eqn:Es; [done|]. pose proof (trimStart_head _ _ _ Es) as Hd.
  destruct (trimStart_suffix (text (map unline (map unblock ts)))) as (p & Ep & _). rewrite Es in Ep. rewrite Ep in Hb.
  apply Forall_app in Hb as [_ Hb]. inversion Hb; congruence.
Qed.

(** A unit of a text that is not white space survives trimming. *)
Lemma trim_keeps a c b : is_space c = false -> trim (a ++ c :: b) <> [].
Proof.
  intros Hc E. destruct (trim_decomp (a ++ c :: b)) as (x & y & H & Hx & Hy & _). rewrite E in H. cbn in H.
  assert (Forall (fun d => is_space d = true) (a ++ c :: b)) as Hf by (rewrite H; by apply Forall_app).
  apply Forall_app in Hf as [_ Hf]. inversion Hf; congruence.
Qed.

(** The first unit of a text that is neither white space nor in a comment. *)
Definition starts_saying (c : N) (w : jsstr) : Prop :=
  is_space c = false /\ (c = cDASH -> head w <> Some cDASH) /\ (c = cSLASH -> head w <> Some cSTAR).
Lemma strip_saying ts c w : quiet ts (c :: w) -> starts_saying c w -> trim (stripComments (text ts ++ c :: w)) <> [].
Proof.
  intros Hq (Hc & Hd & Hs). unfold stripComments. set (s := text ts ++ c :: w).
  assert (pos s (length (text ts)) (c :: w)) as Hp by (apply (pos_app s 0 (text ts)), pos_start).
  destruct (replaces_some block_comment_re s (S (length (text ts))) w) as (o1 & Ho1 & Hh1); [by eapply pos_cons|].
  assert (replaces block_comment_re s 0 s (text (map unblock ts) ++ c :: o1)) as H1.
  { apply strip_blocks; [done|]. cbn [Nat.add]. apply replaces_unit; [|done]. intros Hp'. eapply block_none; [exact Hp'|].
    apply not_true_iff_false. intros [k Hk]%prefixb_spec. injection Hk as -> ->. by apply Hs. }
  rewrite (replaces_all _ _ _ _ eq_refl H1).
  destruct (quiet_unblock ts (c :: w) (c :: o1) Hq) as [Hq2 Hu]; [done..|]. set (s2 := text (map unblock ts) ++ c :: o1).
  assert (pos s2 (length (text (map unblock ts))) (c :: o1)) as Hp2 by (apply (pos_app s2 0 (text (map unblock ts))), pos_start).
  destruct (replaces_some line_comment_re s2 (S (length (text (map unblock ts)))) o1) as (o2 & Ho2 & _); [by eapply pos_cons|].
  assert (replaces line_comment_re s2 0 s2 (text (map unline (map unblock ts)) ++ c :: o2)) as H2.
  { apply strip_lines; [done|done|]. cbn [Nat.add]. apply replaces_unit; [|done]. intros Hp'. eapply line_none; [exact Hp'|].
    apply not_true_iff_false. intros [k Hk]%prefixb_spec. injection Hk as -> Hk. destruct (Hh1 cDASH) as [E|E]; [by rewrite Hk|done|]. by apply Hd. }
  rewrite (replaces_all _ _ _ _ eq_refl H2). by apply trim_keeps.
Qed.

(** ** Trimming a segment *)

Lemma quiet_head ts rest rest' : quiet ts rest -> (rest' = [] \/ head rest' = head rest) -> quiet ts rest'.
Proof.
  intros H Hh. induction ts as [|t ts IH]; [done|]. destruct H as [Ht Hq]. split; [|by apply IH].
  destruct t as [|c|c|body|body closed| |]; try done. destruct Ht as (? & ? & Hr). split_and!; [done|done|].
  destruct (text ts) as [|x k]; [|by destruct Hr; [done|right]]. cbn in *.
  destruct Hh as [->|Hh]; [by left|]. destruct Hr as [->|Hr]; [left; by destruct rest'|right; congruence].
Qed.
Lemma quiet_both ts us rest : quiet (ts ++ us) rest <-> quiet ts (text us ++ rest) /\ quiet us rest.
Proof.
  induction ts as [|t ts IH]; [cbn; tauto|]. cbn [app quiet]. rewrite IH, text_app, <- !app_assoc. tauto.
Qed.

(** White space at the front is blank tokens. *)
Lemma trim_start_quiet ts w c :
  quiet ts (c :: w) -> is_space c = false -> exists ts', trimStart (text ts ++ c :: w) = text ts' ++ c :: w /\ quiet ts' (c :: w).
Proof.
  intros H Hc. induction ts as [|t ts IH].
  - exists []. cbn. by rewrite Hc.
  - pose proof H as [Ht Hq]. destruct (IH Hq) as (ts' & E & H').
    destruct t as [|d|d|body|body closed| |]; try done; [|by exists (t_line body :: ts)|by exists (t_block body closed :: ts)].
    exists ts'. split; [|done]. rewrite <- E. cbn. by rewrite Ht.
Qed.
Lemma trim_start_all_quiet ts : quiet ts [] -> exists ts', trimStart (text ts) = text ts' /\ quiet ts' [].
Proof.
  intros H. induction ts as [|t ts IH]; [by exists []|]. pose proof H as [Ht Hq]. destruct (IH Hq) as (ts' & E & H').
  destruct t as [|d|d|body|body closed| |]; try done; [|by exists (t_line body :: ts)|by exists (t_block body closed :: ts)].
  exists ts'. split; [|done]. rewrite <- E. cbn. by rewrite Ht.
Qed.
Lemma trimStart_stop x c y : is_space c = false -> exists p k, x = p ++ k /\ trimStart (x ++ c :: y) = k ++ c :: y.
Proof.
  intros Hc. induction x as [|d x (p & k & Hx & E)]; [exists [], []; cbn; by rewrite Hc|]. cbn. destruct (is_space d).
  - exists (d :: p), k. by rewrite Hx, <- E, Hx.
  - by exists [], (d :: x).
Qed.
Lemma trimEnd_stop a c w : is_space c = false -> exists w', trimEnd (a ++ c :: w) = a ++ c :: w' /\ (w' = [] \/ head w' = head w).
Proof.
  intros Hc. destruct (trimStart_stop (rev w) c (rev a) Hc) as (p & k & Hk & E). exists (rev k). unfold trimEnd.
  rewrite rev_app_distr. cbn [rev]. rewrite <- app_assoc. cbn [app]. rewrite E, rev_app_distr. cbn [rev].
  rewrite rev_involutive, <- app_assoc. split; [done|]. apply (f_equal (@rev _)) in Hk. rewrite rev_involutive, rev_app_distr in Hk.
  rewrite Hk. destruct (rev k); [by left|by right].
Qed.
Lemma trimEnd_space s c : is_space c = true -> trimEnd (s ++ [c]) = trimEnd s.
Proof. intros H. unfold trimEnd. rewrite rev_app_distr. cbn. by rewrite H. Qed.
Lemma trimEnd_full s c : is_space c = false -> trimEnd (s ++ [c]) = s ++ [c].
Proof. intros H. unfold trimEnd. rewrite rev_app_distr. cbn. rewrite H. cbn. by rewrite rev_involutive. Qed.

(** White space at the end is blank tokens or the end of a line comment. *)
Lemma trim_end_quiet ts : quiet ts [] -> exists ts', trimEnd (text ts) = text ts' /\ quiet ts' [].
Proof.
  remember (length (text ts)) as n eqn:Hn. revert ts Hn. induction n as [n IH] using lt_wf_ind. intros ts -> H.
  destruct ts as [|t ts _] using rev_ind; [by exists []|]. pose proof H as [Hq Ht]%quiet_both. rewrite text_app in *.
  cbn [text map concat] in *. rewrite !app_nil_r in *. destruct Ht as [Ht _].
  assert (quiet ts []) as Hq' by (eapply quiet_head; [exact Hq|by left]).
  destruct t as [|c|c|body|body closed| |]; try done; cbn [token_text] in *.
  - rewrite trimEnd_space by done. apply (IH (length (text ts))); [rewrite length_app; cbn; lia|done|done].
  - destruct body as [|c body _] using rev_ind.
    + exists (ts ++ [t_line []]). split; [|done]. rewrite text_app. rewrite app_nil_r. change (js "--") with ([cDASH] ++ [cDASH]).
      rewrite app_assoc, trimEnd_full by done. by rewrite <- app_assoc.
    + rewrite app_assoc in *. rewrite app_assoc in *. destruct (is_space c) eqn:Hc.
      * rewrite trimEnd_space by done. destruct Ht as (Hlf & Ho & _).
        assert (text ts ++ js "--" ++ body = text (ts ++ [t_line body])) as E by (rewrite text_app; cbn; by rewrite app_nil_r).
        rewrite <- app_assoc, E. apply (IH (length (text (ts ++ [t_line body])))); [|done|].
        -- rewrite <- E, !length_app. cbn. lia.
        -- apply quiet_both. split; [eapply quiet_head; [exact Hq|by right]|]. split; [|exact I]. split_and!; [|by intros (a & b & E'); apply Ho; exists a, (b ++ [c]); rewrite E', <- !app_assoc|by left].
           intros Hin. apply Hlf. apply elem_of_app. by left.
      * exists (ts ++ [t_line (body ++ [c])]). split; [|done]. rewrite trimEnd_full by done. rewrite text_app. cbn. by rewrite app_nil_r, <- !app_assoc.
  - destruct closed; [|done]. exists (ts ++ [t_block body true]). split; [|done]. cbn [if_closed].
    change (js "*/") with ([cSTAR] ++ [cSLASH]). rewrite !app_assoc. rewrite trimEnd_full by done. rewrite text_app. cbn. by rewrite app_nil_r, <- !app_assoc.
Qed.

(** The tokens before the first one that says something. *)
Lemma lead_split seg : existsb says seg = false /\ lead seg = seg \/ exists t more, seg = lead seg ++ t :: more /\ says t = true.
Proof.
  induction seg as [|t seg IH]; [by left|]. cbn. destruct (says t) eqn:E; [right; by exists t, seg|].
  destruct IH as [[H ->]|(t' & more & H & Ht)]; [by left|right]. exists t', more. split; [by rewrite H at 1|done].
Qed.
Lemma lead_quiet seg more :
  tokenized (seg ++ more) -> t_separator ∉ seg -> existsb says seg = false -> forallb plain_comment seg = true -> quiet seg (text more).
Proof.
  induction seg as [|t seg IH]; [done|]. intros [Ht Hk] Hs Hn Hp. rewrite not_elem_of_cons in Hs. cbn [existsb forallb] in Hn, Hp. bools.
  split; [|apply IH; tauto]. rewrite text_app in Ht. destruct t as [|c|c|body|body closed| |]; try done; [by destruct Hs| |].
  - destruct Ht as [Hb Hr]. split_and!; [done| |done]. intros (a & b & E). change (plain_comment (t_line body)) with (negb (includes body (js "/*"))) in *.
    bools. by eapply includes_false.
  - cbn in *. by subst closed.
Qed.
Lemma segments_plain ts seg : seg ∈ segments ts -> t_separator ∉ seg.
Proof.
  revert seg. induction ts as [|t ts IH]; intros seg H.
  - apply list_elem_of_singleton in H as ->. apply not_elem_of_nil.
  - destruct (segments_cons ts) as (seg' & segs & E). destruct (decide (t = t_separator)) as [->|Ht].
    + cbn in H. apply elem_of_cons in H as [->|H]; [apply not_elem_of_nil|by apply IH].
    + rewrite (segments_other t ts seg' segs) in H by done. apply elem_of_cons in H as [->|H].
      * apply not_elem_of_cons. split; [done|]. apply IH. rewrite E. by left.
      * apply IH. rewrite E. by right.
Qed.
Lemma token_starts_saying t rest : says t = true -> token_ok t rest -> exists c w, token_text t ++ rest = c :: w /\ starts_saying c w.
Proof.
  intros Hs Ht. destruct t as [|b|b|body|body closed|q body closed|tag body closed]; try done; cbn.
  - exists b, rest. split; [done|]. destruct Ht as (? & _ & _ & _ & ? & ? & _). by split_and!.
  - eexists q, _. split; [done|]. destruct Ht as [[->| ->] _]; by split_and!.
  - eexists cDOLLAR, _. split; [done|]. by split_and!.
Qed.

Lemma effective_says seg :
  tokenized seg -> t_separator ∉ seg -> forallb plain_comment (lead seg) = true -> effective (text seg) = existsb says seg.
Proof.
  intros Hk Hs Hp. unfold effective. destruct (lead_split seg) as [[Hn E]|(t & more & E & Ht)].
  - rewrite E in Hp. rewrite Hn. apply andb_false_iff. right.
    assert (quiet seg []) as Hq by (apply (lead_quiet seg []); by rewrite ?app_nil_r).
    destruct (trim_start_all_quiet seg Hq) as (ts1 & E1 & H1), (trim_end_quiet ts1 H1) as (ts2 & E2 & H2).
    unfold trim at 2. rewrite E1, E2. by rewrite strip_quiet.
  - assert (existsb says seg = true) as -> by (rewrite E, existsb_app; cbn; by rewrite Ht, orb_true_r).
    rewrite E in Hk. assert (quiet (lead seg) (text (t :: more))) as Hq.
    { apply lead_quiet; [done| | |done].
      - intros Hin. apply Hs. rewrite E. apply elem_of_app. by left.
      - clear. induction seg as [|t seg IH]; [done|]. cbn. destruct (says t) eqn:Et; [done|]. cbn. by rewrite Et. }
    assert (token_ok t (text more)) as Ht' by (clear -Hk; induction (lead seg) as [|u us IH]; destruct Hk; auto).
    destruct (token_starts_saying t (text more) Ht Ht') as (c & w & Ew & Hc & Hd & Hl). rewrite text_cons, Ew in Hq.
    assert (text seg = text (lead seg) ++ c :: w) as -> by (rewrite E at 1; by rewrite text_app, text_cons, Ew).
    destruct (trim_start_quiet _ w c Hq Hc) as (ts1 & E1 & H1).
    destruct (trimEnd_stop (text ts1) c w Hc) as (w' & E2 & Hw'). unfold trim at 1 3. rewrite E1, E2.
    assert (trim (stripComments (text ts1 ++ c :: w')) <> []) as Hne.
    { apply strip_saying; [eapply quiet_head; [exact H1|by right]|]. split_and!; [done| |].
      - intros Ec. destruct Hw' as [->| ->]; [done|by apply Hd].
      - intros Ec. destruct Hw' as [->| ->]; [done|by apply Hl]. }
    destruct (trim (stripComments _)); [done|]. by destruct (text ts1).
Qed.

(** ** Placement of the ranges *)

Lemma push_placed sql rs start fin :
  placed sql 0 rs start -> start <= fin -> fin <= length sql ->
  placed sql 0 (push rs sql start fin) fin.
Proof.
  intros H Hle Hfin. unfold push. set (raw := slice sql start fin).
  assert (length raw = fin - start) as Hraw by (by apply slice_length).
  destruct (non_empty (trim raw) && _) eqn:E; [|by eapply spans_weaken].
  apply andb_true_iff in E as [E _].
  destruct (trim_decomp raw) as (a & b & Heq & _ & _ & Ha).
  assert (length raw = length a + length (trim raw) + length b) as Hl
    by (rewrite Heq at 1; rewrite !length_app; lia).
  assert (0 < length (trim raw)) by (destruct (trim raw); [done|cbn; lia]).
  assert (length (trimStart raw) <= length raw).
  { destruct (trimStart_suffix raw) as (k & Hk & _). apply (f_equal length) in Hk.
    rewrite length_app in Hk. lia. }
  eapply spans_snoc; [done|cbn [st_from st_to]; lia..|].
  cbn [st_from st_to st_sql]. split; [|apply trim_idem].
  replace (start + length raw - length (trimStart raw)) with (start + length a) by lia.
  transitivity (slice raw (length a) (length a + length (trim raw))).
  - assert (length a + length (trim raw) <= fin - start) as Hb by lia.
    rewrite <- Nat.add_assoc. symmetry. by apply slice_slice.
  - rewrite Heq at 1. unfold slice. rewrite drop_app_length.
    replace (length a + length (trim raw) - length a) with (length (trim raw)) by lia.
    apply take_app_length.
Qed.

Definition placed_inv (sql : jsstr) (i start : nat) (out : list SqlStatementRange) : Prop :=
  start <= i /\ i <= length sql /\ placed sql 0 out start.

Lemma step_placed sql i start out c i' start' out' :
  placed_inv sql i start out -> sql !! i = Some c ->
  step sql c i start out = (i', start', out') -> placed_inv sql i' start' out'.
Proof.
  intros (Hsi & Hi & Hp) Hc E. pose proof (step_progress _ _ _ _ _ _ _ _ Hc E) as [Hlt Hle].
  unfold step in E. repeat case_match; simplify_eq/=; (split; [lia|split; [lia|]]); try done.
  eapply spans_weaken; [apply push_placed; [done|lia..]|lia].
Qed.

#[export] Hint Resolve step_placed : dope.

(** ** Properties *)

(** the splitter terminates on every text with fuel one more than its length,
    and its result places every statement: ranges are in order and disjoint, inside
    the text, non-empty, and each statement is exactly the text at its offsets with
    no outer white space. *)
Theorem split_ranges_placed sql :
  exists rs, scan (S (length sql)) sql 0 0 [] = Some rs
    /\ splitStatementRanges sql = rs /\ placed sql 0 rs (length sql).
Proof.
  exists (splitStatementRanges sql). split; [apply splitStatementRanges_scan|split; [done|]].
  destruct (scan_ind sql (placed_inv sql)) as (start & out & (Hs & _ & Hp) & ->);
    [eauto with dope| |].
  - repeat split; cbn; lia.
  - by apply push_placed.
Qed.

(** C11: the splitter cuts the text at its separators and loses no statement. Every text is
    a sequence of tokens (quoted and dollar-quoted text, comments, separators, white space
    and other units, each as long as it can be). For every such reading of it the texts
    between its separator tokens, joined by ";", are the text; and the statements are some
    of them, in order, trimmed: those that contain more than white space and comments,
    whenever the comments a segment begins with end and no line comment among them contains
    the opening of a block comment. *)
Theorem split_lossless sql :
  (exists ts, tokenized ts /\ text ts = sql)
  /\ forall ts, tokenized ts -> text ts = sql ->
     join [cSEMI] (map text (segments ts)) = sql
     /\ exists keep,
          splitStatements sql = map (fun seg => trim (text seg)) (filterb keep (segments ts))
          /\ forall seg, seg ∈ segments ts -> forallb plain_comment (lead seg) = true ->
             keep seg = existsb says seg.
Proof.
  split; [apply has_tokens|]. intros ts Ht <-. split; [apply segments_join|].
  exists (fun seg => effective (text seg)). split.
  - rewrite (split_tokens ts Ht). induction (segments ts) as [|seg segs IH]; [done|].
    unfold filterb in *. cbn. by destruct (effective (text seg)); cbn; rewrite IH.
  - intros seg Hin Hp. apply effective_says; [by eapply segments_tokenized|by eapply segments_plain|done].
Qed.

(** A text with a quoted and a commented separator: two statements, the comment dropped. *)
Lemma split_lossless_witness :
  exists keep,
    splitStatements (js "select ';' ; -- a;b") = map (fun seg => trim (text seg)) (filterb keep
      [[t_other 115; t_other 101; t_other 108; t_other 101; t_other 99; t_other 116; t_blank cSP;
        t_quote cSQ [cSEMI] true; t_blank cSP]; [t_blank cSP; t_line (js " a;b")]]%N)
    /\ keep [t_blank cSP; t_line (js " a;b")] = false.
Proof.
  destruct (proj2 (split_lossless (js "select ';' ; -- a;b"))
    [t_other 115; t_other 101; t_other 108; t_other 101; t_other 99; t_other 116; t_blank cSP;
     t_quote cSQ [cSEMI] true; t_blank cSP; t_separator; t_blank cSP; t_line (js " a;b")]%N)
    as (_ & keep & H & Hk).
  - cbn. unfold cDASH, cSLASH, cDOLLAR, cSEMI, cSQ, cDQ. split_and!; try done; [by left| |by left].
    apply (bool_decide_unpack _). vm_compute. exact I.
  - vm_compute. reflexivity.
  - exists keep. split; [exact H|]. rewrite Hk; [reflexivity| |reflexivity]. right. left.
Defined.

(** The other case: a line comment that contains the opening of a block comment takes the
    statement after it away, up to a closing in a later comment. *)
Example statement_after_comment_dropped :
  splitStatements (js "-- /*
select 1 -- */") = []
  /\ (let ts := [t_line (js " /*"); t_blank cLF; t_other 115; t_other 101; t_other 108; t_other 101;
                 t_other 99; t_other 116; t_blank cSP; t_other 49; t_blank cSP; t_line (js " */")]%N in
      text ts = js "-- /*
select 1 -- */" /\ existsb says ts = true).
Proof. vm_compute. done. Qed.
