(* ===== verification/SqlParameters.v ===== *)
(** * SQL parameters: discovery and materialization

    Models [src/features/query/sqlParameters.ts]. [param_step] is one iteration of
    the [while] of [findSqlParameters], on the state the function keeps (the cursor,
    the parameters and named keys found so far, the positional counter and the
    subscript depth); [param_scan] iterates it, and fuel [S (length sql)] is enough
    because every iteration advances the cursor. [materializeSqlParameters]
    replaces from the last parameter to the first, as the source does. *)

From S2P Require Import Prelude JsString Regex JsMap SqlIdent.
From Stdlib Require String.
Import Stdlib.Strings.String.StringSyntax.

Record SqlParameter := mkParam {
  p_key : jsstr; p_label : jsstr; p_token : jsstr; p_start : nat; p_end : nat }.

(** ** Helpers of the source *)

Definition identifierStart (c : N) : bool := is_alpha c || (c =? cUS)%N.
Definition identifierPart (c : N) : bool :=
  is_alnum c || (c =? cUS)%N || (c =? cDOT)%N.

(** What the loop of [skipQuoted] consumes after the opening quote. *)
Fixpoint quoted_run (bs : bool) (quote : N) (l : jsstr) : nat :=
  match l with
  | [] => 0
  | x :: l' =>
    if bs && (x =? cBS)%N then
      match l' with _ :: l'' => 2 + quoted_run bs quote l'' | [] => 1 end
    else if negb (x =? quote)%N then 1 + quoted_run bs quote l'
    else match l' with
         | y :: l'' => if (y =? quote)%N then 2 + quoted_run bs quote l'' else 1
         | [] => 1
         end
  end.

Definition skipQuoted (sql : jsstr) (start : nat) (quote : N) (backslashEscapes : bool) : nat :=
  S start + quoted_run backslashEscapes quote (drop (S start) sql).

(** [/^\$[A-Za-z_][A-Za-z0-9_]*\$|^\$\$/] *)
Definition dollar_quote_re : re :=
  RAlt (RSeqs [RBol; RChr cDOLLAR; RCls identifierStart; RStar (RCls is_word); RChr cDOLLAR])
       (RSeqs [RBol; RChr cDOLLAR; RChr cDOLLAR]).
Definition dollarQuoteTag (sql : jsstr) (start : nat) : option jsstr :=
  match match_at dollar_quote_re (drop start sql) 0 with
  | Some j => Some (take j (drop start sql))
  | None => None
  end.

Record pstate := mkP {
  p_index : nat; p_params : list SqlParameter; p_named : list (jsstr * jsstr);
  p_positional : nat; p_depth : nat }.

Definition goto (i : nat) (st : pstate) : pstate :=
  mkP i (p_params st) (p_named st) (p_positional st) (p_depth st).

(** [pushNamed], followed by [index = end]. *)
Definition pushNamed (label token : jsstr) (start fin : nat) (st : pstate) : pstate :=
  let key := default (js "named:" ++ label) (mget (p_named st) label) in
  mkP fin (p_params st ++ [mkParam key label token start fin])
      (mset (p_named st) label key) (p_positional st) (p_depth st).

Definition pushPositional (st : pstate) : pstate :=
  let n := S (p_positional st) in
  let i := p_index st in
  mkP i (p_params st ++ [mkParam (js "positional:" ++ show_nat n) (show_nat n) [cQM] i (i + 1)])
      (p_named st) n (p_depth st).

Definition setDepth (d : nat) (st : pstate) : pstate :=
  mkP (p_index st) (p_params st) (p_named st) (p_positional st) d.

(** [${name}] at the cursor: its label and the index after the brace. *)
Definition bracesParameter (sql : jsstr) (i : nat) : option (jsstr * nat) :=
  if at_is sql (i + 1) cLBRACE then
    match indexOf sql [cRBRACE] (i + 2) with
    | Some fin =>
      let label := trim (slice sql (i + 2) fin) in
      if (i + 2 <? fin) && non_empty label then Some (label, fin + 1) else None
    | None => None
    end
  else None.

Definition prev_is (sql : jsstr) (i : nat) (p : N -> bool) : bool :=
  match i with 0 => false | S j => opt_is (sql !! j) p end.
Definition prev2_is (sql : jsstr) (i : nat) (p : N -> bool) : bool :=
  match i with S (S j) => opt_is (sql !! j) p | _ => false end.
Definition next_is (sql : jsstr) (i : nat) (p : N -> bool) : bool := opt_is (sql !! (i + 1)) p.

(** The index after the next [p], or the end of the text. *)
Definition after (sql p : jsstr) (from : nat) : nat :=
  match indexOf sql p from with Some fin => fin + length p | None => length sql end.

(** ** The scanner *)

Definition dollar_step (sql : jsstr) (st : pstate) : pstate :=
  let i := p_index st in
  match bracesParameter sql i with
  | Some (label, fin) => pushNamed label (slice sql i fin) i fin st
  | None =>
    match dollarQuoteTag sql i with
    | Some tag => goto (after sql tag (i + length tag)) st
    | None =>
      if next_is sql i is_digit then
        let fin := i + 2 + run_len is_digit (drop (i + 2) sql) in
        pushNamed (slice sql (i + 1) fin) (slice sql i fin) i fin st
      else goto (i + 1) st
    end
  end.

Definition question_step (sql : jsstr) (engine : Engine) (st : pstate) : pstate :=
  let i := p_index st in
  let fin := i + 1 + run_len identifierPart (drop (i + 1) sql) in
  if i + 1 <? fin then pushNamed (slice sql (i + 1) fin) (slice sql i fin) i fin st
  else goto (i + 1) (if bool_decide (engine = postgres) then st else pushPositional st).

(** [/\[A-Za-z0-9_)\]\]/]: the character before a slice colon. *)
Definition value_end (c : N) : bool := is_word c || (c =? cRP)%N || (c =? cRB)%N.

Definition subscript_step (c : N) (st : pstate) : pstate :=
  if (c =? cLB)%N then setDepth (p_depth st + 1) st
  else if (c =? cRB)%N && (0 <? p_depth st) then setDepth (p_depth st - 1) st
  else st.

Definition param_step (sql : jsstr) (engine : Engine) (c : N) (st0 : pstate) : pstate :=
  let i := p_index st0 in
  if ((c =? cSQ) || (c =? cDQ) || (c =? cBT))%N then
    let escapeString :=
      (c =? cSQ)%N && bool_decide (engine = postgres)
      && prev_is sql i (fun x => (x =? 101) || (x =? 69))%N
      && negb (prev2_is sql i identifierPart) in
    goto (skipQuoted sql i c (bool_decide (engine = mysql) || escapeString)) st0
  else if (c =? cLB)%N && bool_decide (engine = sqlite) then
    goto (after sql [cRB] (i + 1)) st0
  else
  let st := subscript_step c st0 in
  if (c =? cDASH)%N && at_is sql (i + 1) cDASH then goto (after sql [cLF] (i + 2)) st
  else if (c =? cSLASH)%N && at_is sql (i + 1) cSTAR then
    goto (after sql [cSTAR; cSLASH] (i + 2)) st
  else if bool_decide (engine = mysql) && (c =? cHASH)%N then goto (after sql [cLF] (i + 1)) st
  else if (c =? cDOLLAR)%N then dollar_step sql st
  else if (c =? cCOLON)%N && negb (prev_is sql i (N.eqb cCOLON)) && negb (at_is sql (i + 1) cEQ)
          && (p_depth st =? 0) && negb (prev_is sql i value_end)
          && next_is sql i identifierStart then
    let fin := i + 2 + run_len identifierPart (drop (i + 2) sql) in
    pushNamed (slice sql (i + 1) fin) (slice sql i fin) i fin st
  else if (c =? cQM)%N then question_step sql engine st
  else goto (i + 1) st.

Fixpoint param_scan (fuel : nat) (sql : jsstr) (engine : Engine) (st : pstate)
    : option (list SqlParameter) :=
  match fuel with
  | 0 => None
  | S f =>
    match sql !! p_index st with
    | Some c => param_scan f sql engine (param_step sql engine c st)
    | None => Some (p_params st)
    end
  end.

Definition findSqlParameters (sql : jsstr) (engine : Engine) : list SqlParameter :=
  default [] (param_scan (S (length sql)) sql engine (mkP 0 [] [] 0 0)).

(** [seen] is threaded as the filter callback does. *)
Fixpoint unique_from (seen : list jsstr) (parameters : list SqlParameter) : list SqlParameter :=
  match parameters with
  | [] => []
  | p :: ps =>
    if decide (p_key p ∈ seen) then unique_from seen ps
    else p :: unique_from (sadd seen (p_key p)) ps
  end.
Definition uniqueSqlParameters (parameters : list SqlParameter) : list SqlParameter :=
  unique_from [] parameters.

Inductive param_error := MissingParameter (label : jsstr) | NotAString.

(** [values\[key\]?.trim()], rejected when missing or blank. *)
Definition param_value (values : list (jsstr * jsstr)) (p : SqlParameter)
    : res param_error jsstr :=
  match oget values (p_key p) with
  | Own v => if non_empty (trim v) then Ok (trim v) else Throw (MissingParameter (p_label p))
  | Undefined => Throw (MissingParameter (p_label p))
  | Inherited => Throw NotAString
  end.

Fixpoint materialize_loop (materialized : jsstr) (parameters : list SqlParameter)
    (values : list (jsstr * jsstr)) : res param_error jsstr :=
  match parameters with
  | [] => Ok materialized
  | p :: ps =>
    value ← param_value values p;
    materialize_loop (take (p_start p) materialized ++ value ++ drop (p_end p) materialized)
      ps values
  end.
Definition materializeSqlParameters (sql : jsstr) (parameters : list SqlParameter)
    (values : list (jsstr * jsstr)) : res param_error jsstr :=
  materialize_loop sql (rev parameters) values.

(** ** Specification *)

(** The parameters lie in order in the text and each token is the text it covers. *)
Definition params_placed (sql : jsstr) : nat -> list SqlParameter -> nat -> Prop :=
  spans p_start p_end (fun p => slice sql (p_start p) (p_end p) = p_token p).

(** Simultaneous substitution at the original offsets, read from left to right: the
    text from [lo] to [hi] with each parameter replaced by its value. *)
Fixpoint spliced (sql : jsstr) (lo : nat) (ps : list (SqlParameter * jsstr)) (hi : nat) : jsstr :=
  match ps with
  | [] => slice sql lo hi
  | (p, v) :: ps => slice sql lo (p_start p) ++ v ++ spliced sql (p_end p) ps hi
  end.

Example find_mixed :
  map (fun p => (p_key p, p_start p, p_end p))
    (findSqlParameters (js "select ':a', arr[1:n], :b, ? -- :c
 from t where x = ${ d } and y = ?") sqlite)
  = [(js "named:b", 23, 25); (js "positional:1", 27, 28);
     (js "named:d", 53, 59); (js "positional:2", 68, 69)].
Proof. vm_compute. reflexivity. Qed.

(** ** Lemmas: quoted runs *)

Lemma quoted_run_le bs q l : quoted_run bs q l <= length l.
Proof.
  remember (length l) as n eqn:Hn. revert l Hn.
  induction n as [n IH] using lt_wf_ind. intros [|x l] ->; cbn; [lia|].
  pose proof (IH (length l) ltac:(cbn; lia) l eq_refl).
  destruct l as [|y l]; cbn in *; [by repeat case_match; lia|].
  pose proof (IH (length l) ltac:(lia) l eq_refl). repeat case_match; lia.
Qed.

(** A standard literal, whose quotes are doubled, is one run. *)
Lemma quoted_run_double q body rest :
  head rest <> Some q ->
  quoted_run false q (double q body ++ q :: rest) = length (double q body) + 1.
Proof.
  intros Hr. induction body as [|x body IH].
  - cbn. rewrite N.eqb_refl. cbn. destruct rest as [|y rest]; [done|].
    destruct (N.eqb_spec y q); [by subst|done].
  - cbn [double]. destruct (N.eqb_spec x q) as [->|Hne]; cbn [app quoted_run andb].
    + rewrite N.eqb_refl. cbn [negb]. rewrite IH. cbn. lia.
    + rewrite (proj2 (N.eqb_neq x q)) by done. cbn [negb]. rewrite IH. cbn. lia.
Qed.

(** So is a backslash literal, whose backslashes are doubled as well. *)
Lemma quoted_run_double_bs q body rest :
  q <> cBS -> head rest <> Some q ->
  quoted_run true q (double q (double cBS body) ++ q :: rest)
  = length (double q (double cBS body)) + 1.
Proof.
  intros Hq Hr. assert ((q =? cBS)%N = false) as Eq by by apply N.eqb_neq.
  assert ((cBS =? q)%N = false) as Eq' by (apply N.eqb_neq; congruence).
  induction body as [|x body IH].
  - cbn. rewrite Eq, N.eqb_refl. cbn. destruct rest as [|y rest]; [done|].
    destruct (N.eqb_spec y q); [by subst|done].
  - cbn [double]. destruct (N.eqb_spec x cBS) as [->|Hne].
    + cbn [double]. rewrite Eq'. cbn [app quoted_run andb]. rewrite N.eqb_refl.
      rewrite IH. cbn. lia.
    + cbn [double]. destruct (N.eqb_spec x q) as [->|Hne2]; cbn [app quoted_run andb].
      * rewrite Eq. cbn [andb]. rewrite N.eqb_refl. cbn [negb]. rewrite IH. cbn. lia.
      * rewrite (proj2 (N.eqb_neq x cBS)), (proj2 (N.eqb_neq x q)) by done. cbn [negb].
        rewrite IH. cbn. lia.
Qed.

#[export] Instance skipQuoted_standard :
  QuoteSkipper double (fun sql i q => skipQuoted sql i q false) [cSQ; cDQ; cBT].
Proof.
  intros q pre body rest _ Hr. unfold skipQuoted.
  rewrite drop_S_app, quoted_run_double by done. lia.
Qed.

#[export] Instance skipQuoted_backslash :
  QuoteSkipper (fun q s => double q (double cBS s)) (fun sql i q => skipQuoted sql i q true)
    [cSQ; cDQ; cBT].
Proof.
  intros q pre body rest Hq Hr. unfold skipQuoted.
  rewrite drop_S_app, quoted_run_double_bs; [lia| |done].
  intros ->. by repeat (apply elem_of_cons in Hq as [Hq|Hq]; [done|]); apply elem_of_nil in Hq.
Qed.

(** ** Lemmas: progress and placement *)

Lemma after_bounds sql p from :
  0 < length p -> from <= length sql -> from <= after sql p from /\ after sql p from <= length sql.
Proof.
  intros Hp Hf. unfold after. destruct (indexOf sql p from) as [j|] eqn:E; [|lia].
  apply indexOf_spec in E as (? & ? & _). lia.
Qed.

Lemma dollarQuoteTag_length sql i tag :
  dollarQuoteTag sql i = Some tag -> 1 <= length tag /\ i + length tag <= length sql.
Proof.
  unfold dollarQuoteTag. destruct (match_at _ _ 0) as [j|] eqn:E; [|done]. intros [= <-].
  pose proof (match_at_bounds _ _ _ _ E) as [_ Hj]. apply match_at_sound in E.
  assert (1 <= j) as H1.
  { inversion E as [| | |? ? ? ? H|? ? ? ? H| | | | | | |]; subst; cbn in H;
      inversion H as [| |? ? ? k ? H1 H2| | | | | | | | |]; subst;
      inversion H1; subst; inversion H2 as [| |? ? ? ? ? H3 H4| | | | | | | | |]; subst;
      inversion H3; subst; apply rmatch_le in H4; lia. }
  rewrite length_take, length_drop. rewrite length_drop in Hj. lia.
Qed.

Lemma bracesParameter_bounds sql i label fin :
  bracesParameter sql i = Some (label, fin) -> i + 1 < fin /\ fin <= length sql.
Proof.
  unfold bracesParameter. repeat case_match; try done. intros [= _ <-].
  match goal with H : indexOf _ _ _ = Some _ |- _ => apply indexOf_spec in H as (? & ? & _) end.
  bools. match goal with H : (_ <? _) = true |- _ => apply Nat.ltb_lt in H end. cbn in *. lia.
Qed.

Lemma run_end_bounds sql p j :
  j <= length sql -> j + run_len p (drop j sql) <= length sql.
Proof. intros H. pose proof (run_len_le p (drop j sql)). rewrite length_drop in *. lia. Qed.

Lemma next_is_bound sql i p : next_is sql i p = true -> i + 1 < length sql.
Proof. unfold next_is, opt_is. case_match; [|done]. intros _. by eapply lookup_lt_Some. Qed.

Lemma at_is_bound sql i c : at_is sql i c = true -> i < length sql.
Proof. intros H%at_is_true. by eapply lookup_lt_Some. Qed.

(** What an iteration preserves: the cursor stays in the text and everything found so
    far lies before it. *)
Definition pinv (sql : jsstr) (st : pstate) : Prop :=
  p_index st <= length sql /\ params_placed sql 0 (p_params st) (p_index st).

(** A step is an advance of the cursor to [i'] that may record one parameter, placed
    between the old and the new cursor. *)
Definition advances (sql : jsstr) (st st' : pstate) : Prop :=
  p_index st < p_index st' /\ p_index st' <= length sql /\
  (p_params st' = p_params st \/
   exists p, p_params st' = p_params st ++ [p] /\ p_start p = p_index st
     /\ p_end p = p_index st' /\ slice sql (p_start p) (p_end p) = p_token p).

Lemma goto_advances sql st st' i :
  p_params st' = p_params st -> p_index st < i -> i <= length sql ->
  advances sql st (goto i st').
Proof. intros H ??. unfold advances, goto. cbn. auto. Qed.

Lemma pushNamed_advances sql st st' label fin :
  p_params st' = p_params st -> p_index st' = p_index st ->
  p_index st < fin -> fin <= length sql ->
  advances sql st (pushNamed label (slice sql (p_index st) fin) (p_index st) fin st').
Proof. intros H1 H2 ??. split; [done|split; [done|]]. right. eexists. cbn. by rewrite H1. Qed.

#[local] Hint Resolve goto_advances pushNamed_advances : dope.

Lemma dollar_step_advances sql st st' :
  p_params st' = p_params st -> p_index st' = p_index st -> p_index st < length sql ->
  advances sql st (dollar_step sql st').
Proof.
  intros Hp Hi Hlt. unfold dollar_step. rewrite Hi.
  destruct (bracesParameter _ _) as [[label fin]|] eqn:Eb.
  { apply bracesParameter_bounds in Eb as [? ?]. apply pushNamed_advances; auto; lia. }
  destruct (dollarQuoteTag _ _) as [tag|] eqn:Et.
  { apply dollarQuoteTag_length in Et as [? ?].
    destruct (after_bounds sql tag (p_index st + length tag)); [lia..|].
    apply goto_advances; auto; lia. }
  destruct (next_is _ _ _) eqn:En; [|apply goto_advances; auto; lia].
  apply next_is_bound in En.
  pose proof (run_end_bounds sql is_digit (p_index st + 2) ltac:(lia)).
  apply pushNamed_advances; auto; lia.
Qed.

Lemma question_step_advances sql engine st st' :
  p_params st' = p_params st -> p_index st' = p_index st -> sql !! p_index st = Some cQM ->
  advances sql st (question_step sql engine st').
Proof.
  intros Hp Hi Hc. pose proof (lookup_lt_Some _ _ _ Hc) as Hlt. unfold question_step. rewrite Hi.
  pose proof (run_end_bounds sql identifierPart (p_index st + 1) ltac:(lia)).
  destruct (_ <? _) eqn:E; [apply Nat.ltb_lt in E; apply pushNamed_advances; auto; lia|].
  case_match; [apply goto_advances; auto; lia|].
  unfold advances, pushPositional. cbn. rewrite Hp, Hi. split; [lia|split; [lia|]]. right.
  eexists. repeat split. cbn. unfold slice.
  rewrite (drop_S _ _ _ Hc). by replace (p_index st + 1 - p_index st) with 1 by lia.
Qed.

Lemma param_step_advances sql engine c st :
  sql !! p_index st = Some c -> advances sql st (param_step sql engine c st).
Proof.
  intros Hc. pose proof (lookup_lt_Some _ _ _ Hc) as Hlt. unfold param_step.
  set (st' := subscript_step c st).
  assert (p_params st' = p_params st /\ p_index st' = p_index st) as [Hp Hi]
    by (unfold st', subscript_step; by repeat case_match).
  repeat (case_match; [bools|]).
  - unfold skipQuoted. pose proof (quoted_run_le
      (bool_decide (engine = mysql) || (c =? cSQ)%N && bool_decide (engine = postgres)
       && prev_is sql (p_index st) (fun x => (x =? 101) || (x =? 69))%N
       && negb (prev2_is sql (p_index st) identifierPart)) c (drop (S (p_index st)) sql)).
    rewrite length_drop in *. apply goto_advances; auto; lia.
  - destruct (after_bounds sql [cRB] (p_index st + 1)); [cbn; lia..|]. apply goto_advances; auto; lia.
  - match goal with H : at_is _ _ _ = true |- _ => apply at_is_bound in H end.
    destruct (after_bounds sql [cLF] (p_index st + 2)); [cbn; lia..|]. apply goto_advances; auto; lia.
  - match goal with H : at_is _ _ _ = true |- _ => apply at_is_bound in H end.
    destruct (after_bounds sql [cSTAR; cSLASH] (p_index st + 2)); [cbn; lia..|].
    apply goto_advances; auto; lia.
  - destruct (after_bounds sql [cLF] (p_index st + 1)); [cbn; lia..|]. apply goto_advances; auto; lia.
  - by apply dollar_step_advances.
  - match goal with H : next_is _ _ _ = true |- _ => apply next_is_bound in H end.
    pose proof (run_end_bounds sql identifierPart (p_index st + 2) ltac:(lia)).
    apply pushNamed_advances; auto; lia.
  - neqs. subst c. by apply question_step_advances.
  - apply goto_advances; auto; lia.
Qed.

Lemma advances_pinv sql st st' : pinv sql st -> advances sql st st' -> pinv sql st'.
Proof.
  intros [Hi Hp] (Hlt & Hle & [Heq|(p & Heq & Hs & He & Ht)]); (split; [done|]); rewrite Heq.
  - eapply spans_weaken; [done|lia].
  - eapply spans_snoc; [done|lia..|done].
Qed.

Lemma param_scan_spec fuel sql engine st :
  pinv sql st -> length sql < fuel + p_index st ->
  exists ps, param_scan fuel sql engine st = Some ps /\ params_placed sql 0 ps (length sql).
Proof.
  revert st. induction fuel as [|f IH]; intros st [Hi Hp] Hf; [lia|]. cbn [param_scan].
  destruct (sql !! p_index st) as [c|] eqn:Hc.
  - pose proof (param_step_advances _ engine _ _ Hc) as Ha.
    apply IH; [by eapply advances_pinv|]. destruct Ha as (? & ? & _). lia.
  - exists (p_params st). split; [done|]. eapply spans_weaken; [done|lia].
Qed.

(** ** Lemmas: materialization *)

Lemma spliced_snoc sql lo ps p v hi :
  spliced sql lo (ps ++ [(p, v)]) hi
  = spliced sql lo ps (p_start p) ++ v ++ slice sql (p_end p) hi.
Proof.
  revert lo. induction ps as [|[q w] ps IH]; intros lo; cbn; [done|].
  by rewrite IH, <- !app_assoc.
Qed.

(** The loop has replaced the parameters after [qs]: the text below [hi] is original. *)
Lemma materialize_loop_ok sql values qs vs hi tail :
  params_placed sql 0 qs hi -> hi <= length sql ->
  Forall2 (fun p v => param_value values p = Ok v) qs vs ->
  materialize_loop (take hi sql ++ tail) (rev qs) values
  = Ok (spliced sql 0 (zip qs vs) hi ++ tail).
Proof.
  revert vs hi tail. induction qs as [|q qs IH] using rev_ind; intros vs hi tail Hp Hhi Hv.
  - inversion Hv; subst. cbn. unfold slice. by rewrite drop_0, Nat.sub_0_r.
  - apply Forall2_app_inv_l in Hv as (vs' & w & Hv' & Hw & ->).
    inversion Hw as [|? v ? ? Hval Hnil]; inversion Hnil; subst.
    apply spans_snoc_inv in Hp as (Hp & Hlt & Hle).
    rewrite rev_app_distr. cbn. rewrite Hval. cbn.
    rewrite zip_with_app by (by eapply Forall2_length). cbn. rewrite spliced_snoc, <- !app_assoc.
    rewrite <- (IH vs' (p_start q) (v ++ slice sql (p_end q) hi ++ tail)) by (done || lia).
    f_equal. rewrite take_app_le, take_take, Nat.min_l by (rewrite ?length_take; lia).
    do 2 f_equal. rewrite drop_app_le by (rewrite length_take; lia). f_equal.
    unfold slice. by rewrite skipn_firstn_comm.
Qed.

Lemma materialize_loop_missing p values qs :
  (exists q, q ∈ qs /\ is_ok (param_value values q) = false) ->
  is_ok (materialize_loop p qs values) = false.
Proof.
  revert p. induction qs as [|q qs IH]; intros p (q' & Hin & Hq); [by apply elem_of_nil in Hin|].
  cbn. destruct (param_value values q) as [v|] eqn:E; [|done]. cbn. apply IH.
  apply elem_of_cons in Hin as [->|Hin]; [|eauto]. by rewrite E in Hq.
Qed.

Lemma unique_from_spec seen ps :
  NoDup (map p_key (unique_from seen ps))
  /\ (forall p, p ∈ unique_from seen ps -> p_key p ∉ seen)
  /\ sublist (unique_from seen ps) ps
  /\ forall p, p ∈ ps -> p_key p ∈ seen \/ p_key p ∈ map p_key (unique_from seen ps).
Proof.
  revert seen. induction ps as [|p ps IH]; intros seen; cbn.
  - repeat split; [constructor|by intros ? ?%elem_of_nil|constructor|by intros ? ?%elem_of_nil].
  - case_decide as Hp.
    + destruct (IH seen) as (? & ? & ? & Hc). repeat split; [done|done|by constructor|].
      intros q [->|Hq]%elem_of_cons; auto.
    + destruct (IH (sadd seen (p_key p))) as (Hd & Hns & Hsub & Hc). cbn. repeat split.
      * apply NoDup_cons. split; [|done]. intros Hin.
        apply list_elem_of_In, in_map_iff in Hin as (q & Hk & Hq%list_elem_of_In).
        apply Hns in Hq. rewrite sadd_elem in Hq. naive_solver.
      * intros q [->|Hq]%elem_of_cons; [done|]. apply Hns in Hq. rewrite sadd_elem in Hq. tauto.
      * by constructor.
      * intros q [->|Hq]%elem_of_cons; [by right; left|].
        apply Hc in Hq as [Hq|Hq]; [|by right; right].
        apply sadd_elem in Hq as [->|Hq]; [by right; left|by left].
Qed.

(** ** Properties *)

(** discovery terminates on every text and engine, and the parameters it finds are
    in order, disjoint, inside the text, and each token is exactly the text it covers. *)
Theorem find_parameters_placed sql engine :
  exists ps, param_scan (S (length sql)) sql engine (mkP 0 [] [] 0 0) = Some ps
    /\ findSqlParameters sql engine = ps /\ params_placed sql 0 ps (length sql).
Proof.
  destruct (param_scan_spec (S (length sql)) sql engine (mkP 0 [] [] 0 0)) as (ps & Hs & Hp).
  - split; cbn; lia.
  - cbn; lia.
  - exists ps. unfold findSqlParameters. by rewrite Hs.
Qed.

(** materializing the parameters found in a text, which replaces from right to
    left in the edited text, equals simultaneous substitution at the original offsets;
    it fails exactly when some parameter has no non-blank value. *)
Theorem materialize_found sql engine values :
  match res_map (param_value values) (findSqlParameters sql engine) with
  | Ok vs => materializeSqlParameters sql (findSqlParameters sql engine) values
             = Ok (spliced sql 0 (zip (findSqlParameters sql engine) vs) (length sql))
  | Throw _ => is_ok (materializeSqlParameters sql (findSqlParameters sql engine) values) = false
  end.
Proof.
  destruct (param_scan_spec (S (length sql)) sql engine (mkP 0 [] [] 0 0)) as (ps & Hs & Hp);
    [split; cbn; lia|cbn; lia|].
  unfold findSqlParameters. rewrite Hs. cbn. unfold materializeSqlParameters.
  destruct (res_map _ ps) as [vs|e] eqn:E.
  - apply res_map_ok in E.
    pose proof (materialize_loop_ok sql values ps vs (length sql) [] Hp ltac:(lia) E) as H.
    rewrite take_ge, !app_nil_r in H by lia. done.
  - apply materialize_loop_missing. clear Hs Hp. revert e E.
    induction ps as [|p ps IH]; intros e E; cbn in E; [done|].
    destruct (param_value values p) as [v|e'] eqn:Ep; cbn in E.
    + destruct (res_map _ ps) as [vs|e'] eqn:Er; [done|]. destruct (IH _ eq_refl) as (q & Hq & Hb).
      exists q. split; [|done]. cbn. apply elem_of_app. by left.
    + exists p. split; [|by rewrite Ep]. cbn. apply elem_of_app. right. by left.
Qed.

(** the prompt list asks once per parameter key: the keys are distinct, the list is a
    subsequence of the parameters, and no key of the text is missing from it. *)
Theorem unique_parameters_complete ps :
  NoDup (map p_key (uniqueSqlParameters ps)) /\ sublist (uniqueSqlParameters ps) ps
  /\ forall p, p ∈ ps -> p_key p ∈ map p_key (uniqueSqlParameters ps).
Proof.
  destruct (unique_from_spec [] ps) as (? & _ & ? & Hc). repeat split; [done..|].
  intros p [Hp|Hp]%Hc; [by apply elem_of_nil in Hp|done].
Qed.
