(* ===== verification/SqlGrid.v ===== *)
(** * SQL builders of the data grid

    Models the query and DML builders of [src/lib/sqlBuild.ts] (everything above its
    export section) and the value-filter codec of [src/lib/gridValueFilter.ts]. A
    thrown [Error] or a [TypeError] is a [Throw]; the records keyed by column name
    are lists of own entries read through [oget], because [in] and an index
    expression also find the members inherited from [Object.prototype]. A limit or
    an offset is an integer. *)

From S2P Require Import Prelude JsString Regex JsMap SqlIdent JsonText.
From S2P Require Import SqlStatements SqlParameters.
From Stdlib Require String.
Import Stdlib.Strings.String.StringSyntax.

(** ** WHERE and ORDER BY fragments *)

Inductive GridExpressionKind := gwhere | gorderBy.
Inductive GridExpressionIssue := tooLong | statementBoundary | unbalanced | clauseBoundary.
#[export] Instance GridExpressionIssue_eq_dec : EqDecision GridExpressionIssue.
Proof. solve_decision. Defined.

Definition opens_quote (c : N) : bool := (c =? cSQ)%N || (c =? cDQ)%N || (c =? cBT)%N.

(** The [for] loop: [visible], [quote] and [depth] at the end, or [None] when the loop
    returns "unbalanced" at a closing parenthesis. *)
Fixpoint grid_scan (raw visible : jsstr) (quote : option N) (depth : nat)
    : option (jsstr * option N * nat) :=
  match raw with
  | [] => Some (visible, quote, depth)
  | c :: rest =>
    match quote with
    | Some q =>
      let visible := visible ++ [cSP] in
      if (q =? cRB)%N then grid_scan rest visible (if (c =? cRB)%N then None else quote) depth
      else if (c =? q)%N then
        match rest with
        | d :: rest' => if (d =? q)%N then grid_scan rest' (visible ++ [cSP]) quote depth
                        else grid_scan rest visible None depth
        | [] => grid_scan rest visible None depth
        end
      else grid_scan rest visible quote depth
    | None =>
      if opens_quote c then grid_scan rest (visible ++ [cSP]) (Some c) depth
      else if (c =? cLB)%N then grid_scan rest (visible ++ [cSP]) (Some cRB) depth
      else if (c =? cLP)%N then grid_scan rest (visible ++ [c]) None (S depth)
      else if (c =? cRP)%N then
        match depth with
        | 0 => None
        | S d => grid_scan rest (visible ++ [c]) None d
        end
      else grid_scan rest (visible ++ [c]) None depth
    end
  end.

(** [/(^|\s)#/] *)
Definition hash_comment_re : re := RSeq (RAlt RBol (RCls is_space)) (RChr cHASH).

Definition ws1 : re := RPlus (RCls is_space).
Definition words (rs : list re) : re := RSeqs [RWordB; RAny rs; RWordB].
Definition where_escape_re : re :=
  words [RLitI (js "union"); RLitI (js "intersect"); RLitI (js "except");
         RSeqs [RLitI (js "order"); ws1; RLitI (js "by")]; RLitI (js "limit");
         RLitI (js "offset"); RLitI (js "fetch"); RLitI (js "returning")].
Definition order_escape_re : re :=
  words [RLitI (js "select"); RLitI (js "from"); RLitI (js "where");
         RSeqs [RLitI (js "group"); ws1; RLitI (js "by")]; RLitI (js "having");
         RLitI (js "union"); RLitI (js "intersect"); RLitI (js "except"); RLitI (js "limit");
         RLitI (js "offset"); RLitI (js "fetch"); RLitI (js "returning")].
Definition escape_re (kind : GridExpressionKind) : re :=
  match kind with gwhere => where_escape_re | gorderBy => order_escape_re end.

Definition boundary (visible : jsstr) : bool :=
  includes visible [0%N] || includes visible [cSEMI] || includes visible (js "--")
  || includes visible (js "/*") || includes visible (js "*/") || test hash_comment_re visible.

Definition gridExpressionIssue (kind : GridExpressionKind) (raw : jsstr)
    : option GridExpressionIssue :=
  if 2048 <? length raw then Some tooLong
  else match grid_scan raw [] None 0 with
  | None => Some unbalanced
  | Some (visible, quote, depth) =>
    if match quote with Some _ => true | None => negb (depth =? 0) end then Some unbalanced
    else if boundary visible then Some statementBoundary
    else if test (escape_re kind) visible then Some clauseBoundary else None
  end.

Inductive sql_error :=
| InvalidExpression (kind : GridExpressionKind) (issue : GridExpressionIssue)
| InsertWithNoColumns | UpdateWithoutPrimaryKey | UpdateWithNoChange
| DeleteWithoutPrimaryKey | TypeError.

Definition assertGridExpression (kind : GridExpressionKind) (raw : jsstr) : res sql_error unit :=
  match gridExpressionIssue kind raw with
  | Some issue => Throw (InvalidExpression kind issue)
  | None => Ok tt
  end.

(** ** Literals *)

Definition sqlLiteral (engine : Engine) (value : option jsstr) : jsstr :=
  match value with
  | None => js "NULL"
  | Some v =>
    let s := if bool_decide (engine = mysql) then double cBS v else v in
    cSQ :: double cSQ s ++ [cSQ]
  end.

Definition digits : re := RStar (RCls is_digit).
Definition NUMERIC_RE : re :=
  RAny [
    RSeqs [RWordB; ROpt (RAny [RLitI (js "big"); RLitI (js "small"); RLitI (js "tiny");
                               RLitI (js "medium")]);
           RLitI (js "int"); ROpt (RLitI (js "eger")); digits; RWordB];
    RSeqs [RWordB; ROpt (RAny [RLitI (js "big"); RLitI (js "small")]); RLitI (js "serial");
           digits; RWordB];
    words [RLitI (js "numeric"); RLitI (js "decimal"); RLitI (js "dec"); RLitI (js "real");
           RLitI (js "double"); RSeq (RLitI (js "float")) digits; RLitI (js "money");
           RLitI (js "fixed")]].
Definition isNumericType (dataType : jsstr) : bool := test NUMERIC_RE dataType.

(** [/^-?\d+(\.\d+)?([eE][+-]?\d+)?$/] *)
Definition digits1 : re := RPlus (RCls is_digit).
Definition number_re : re :=
  RSeqs [RBol; ROpt (RChr cDASH); digits1; ROpt (RSeq (RChr cDOT) digits1);
         ROpt (RSeqs [RCls (fun c => (c =? 101) || (c =? 69))%N;
                      ROpt (RCls (fun c => (c =? 43) || (c =? cDASH))%N); digits1]); REol].

Definition sqlValue (engine : Engine) (dataType : jsstr) (value : option jsstr) : jsstr :=
  match value with
  | None => js "NULL"
  | Some v =>
    if isNumericType dataType then
      let t := trim v in
      if negb (non_empty t) then js "NULL"
      else if test number_re t then t else sqlLiteral engine value
    else sqlLiteral engine value
  end.

Definition castText (engine : Engine) : jsstr :=
  match engine with mysql => js "CHAR" | bigquery => js "STRING" | _ => js "TEXT" end.

(** ** Columns and conditions *)

Definition typeOf (table : Table) (col : jsstr) : jsstr :=
  match findb (fun c => col_name c ==s col) (columns table) with
  | Some c => dataType c
  | None => js "text"
  end.

Definition VERSION_COLUMN_RE : re :=
  RSeqs [RBol; RAny [RLitI (js "version"); RLitI (js "row_version"); RLitI (js "lock_version");
                     RLitI (js "revision"); RLitI (js "updated_at"); RLitI (js "updatedat");
                     RLitI (js "modified_at")]; REol].

(** A cell value read from a record and passed on: an inherited member or
    [undefined] is not a string, and the first string method called on it throws. *)
Definition cell_of (p : prop (option jsstr)) : res sql_error (option jsstr) :=
  match p with Own v => Ok v | _ => Throw TypeError end.

Definition comparison (engine : Engine) (table : Table) (column : jsstr)
    (value : prop (option jsstr)) : res sql_error jsstr :=
  let identifier := quoteIdent engine column in
  v ← cell_of value;
  Ok match v with
     | None => identifier ++ js " IS NULL"
     | Some _ => identifier ++ js " = " ++ sqlValue engine (typeOf table column) v
     end.

Notation cells := (list (jsstr * option jsstr)).

Definition optimisticColumns (table : Table) (originalValues : cells)
    (changedColumns : option (list jsstr)) : list jsstr :=
  match findb (fun c => test VERSION_COLUMN_RE (col_name c) && oin originalValues (col_name c))
          (columns table) with
  | Some version => [col_name version]
  | None =>
    map col_name (filterb (fun c =>
      negb (pk c) && oin originalValues (col_name c)
      && match changedColumns with
         | None => true | Some cs => bool_decide (col_name c ∈ cs) end) (columns table))
  end.

Definition pkColumns (table : Table) : list Column := filterb pk (columns table).

Definition NON_SCALAR_PK_RE : re :=
  RAlt (words [RLitI (js "bytea");
               RSeq (ROpt (RAny [RLitI (js "tiny"); RLitI (js "medium"); RLitI (js "long")]))
                    (RLitI (js "blob"));
               RSeq (ROpt (RLitI (js "var"))) (RLitI (js "binary"));
               RLitI (js "json"); RLitI (js "jsonb"); RLitI (js "array");
               RLitI (js "composite"); RLitI (js "record")])
       (RLit (js "[]")).
Definition hasNonScalarPk (table : Table) : bool :=
  existsb (fun c => test NON_SCALAR_PK_RE (dataType c)) (pkColumns table).

(** ** Value filters ([gridValueFilter.ts]) *)

Definition GRID_VALUE_FILTER_PREFIX : jsstr := 30%N :: js "dopedb-grid-values:".

Definition encodeGridValueFilter (values : list (option jsstr)) : jsstr :=
  match values with
  | [] => []
  | _ => GRID_VALUE_FILTER_PREFIX ++ json_array values
  end.

Definition decodeGridValueFilter (filter : jsstr) : option (list (option jsstr)) :=
  if startsWith filter GRID_VALUE_FILTER_PREFIX
  then parse_array (drop (length GRID_VALUE_FILTER_PREFIX) filter)
  else None.

(** ** WHERE, ORDER BY and the statements *)

Definition omap_id {A} (l : list (option A)) : list A := omap (fun x => x) l.

(** The lowercase comparison with "null" and "not null" only involves letters whose
    sole upper-case forms are ASCII, so the ASCII lowering decides it exactly. *)
Definition filterClause (engine : Engine) (col : Column) (raw : jsstr) : option jsstr :=
  let v := trim raw in
  if negb (non_empty v) then None
  else
  let q := quoteIdent engine (col_name col) in
  match decodeGridValueFilter raw with
  | Some selectedValues =>
    let values := omap_id selectedValues in
    let clauses :=
      (if bool_decide (values = []) then []
       else [q ++ js " IN (" ++ join (js ", ")
               (map (fun value => sqlValue engine (dataType col) (Some value)) values) ++ [cRP]])
      ++ (if bool_decide (None ∈ selectedValues) then [q ++ js " IS NULL"] else []) in
    match clauses with
    | [] => None
    | [c] => Some c
    | _ => Some (cLP :: join (js " OR ") clauses ++ [cRP])
    end
  | None =>
    let low := toLowerAscii v in
    if low ==s js "null" then Some (q ++ js " IS NULL")
    else if low ==s js "not null" then Some (q ++ js " IS NOT NULL")
    else if startsWith v [cEQ] then
      Some (q ++ js " = " ++ sqlValue engine (dataType col) (Some (drop 1 v)))
    else
      let op := if bool_decide (engine = postgres) then js "ILIKE" else js "LIKE" in
      Some (js "CAST(" ++ q ++ js " AS " ++ castText engine ++ js ") " ++ op ++ [cSP]
            ++ sqlLiteral engine (Some (js "%" ++ v ++ js "%")))
  end.

(** [filters\[col.name\] ?? ""], on which [trim] is called. *)
Definition filter_text (filters : list (jsstr * jsstr)) (k : jsstr) : res sql_error jsstr :=
  match oget filters k with Own s => Ok s | Undefined => Ok [] | Inherited => Throw TypeError end.

Definition buildWhere (engine : Engine) (cols : list Column) (filters : list (jsstr * jsstr))
    (whereExpression : jsstr) : res sql_error jsstr :=
  cs ← res_map (fun col => raw ← filter_text filters (col_name col);
                           Ok (filterClause engine col raw)) cols;
  let expression := trim whereExpression in
  if non_empty expression then
    _ ← assertGridExpression gwhere expression;
    Ok (join (js " AND ") (omap_id cs ++ [cLP :: expression ++ [cRP]]))
  else Ok (join (js " AND ") (omap_id cs)).

Inductive SortDir := asc | desc.
Record GridSort := mkSort { sort_col : jsstr; sort_dir : SortDir }.

Definition pkTiebreakers (engine : Engine) (table : Table) (exclude : jsstr) : list jsstr :=
  map (fun c => quoteIdent engine (col_name c))
    (filterb (fun c => negb (col_name c ==s exclude)) (pkColumns table)).

Definition buildOrderBy (engine : Engine) (table : Table) (sort : option GridSort)
    (orderByExpression : jsstr) : res sql_error jsstr :=
  let expression := trim orderByExpression in
  if non_empty expression then
    _ ← assertGridExpression gorderBy expression;
    Ok (js "ORDER BY " ++ expression)
  else match sort with
  | Some s =>
    let dir := match sort_dir s with desc => js "DESC" | asc => js "ASC" end in
    let keys := (quoteIdent engine (sort_col s) ++ [cSP] ++ dir)
                :: pkTiebreakers engine table (sort_col s) in
    Ok (js "ORDER BY " ++ join (js ", ") keys)
  | None => Ok []
  end.

Definition nn (n : Z) : Z := Z.max 0 n.

Record PageOpts := mkPageOpts {
  filters : list (jsstr * jsstr); whereExpression : jsstr; orderByExpression : jsstr;
  sort : option GridSort; limit : Z; offset : Z }.

Definition buildPageQuery (engine : Engine) (table : Table) (opts : PageOpts)
    : res sql_error jsstr :=
  where_ ← buildWhere engine (columns table) (filters opts) (whereExpression opts);
  order ← buildOrderBy engine table (sort opts) (orderByExpression opts);
  Ok (js "SELECT * FROM " ++ tableRef engine table
      ++ (if non_empty where_ then js " WHERE " ++ where_ else [])
      ++ (if non_empty order then cSP :: order else [])
      ++ js " LIMIT " ++ show_Z (nn (limit opts)) ++ js " OFFSET " ++ show_Z (nn (offset opts))).

Definition buildCountQuery (engine : Engine) (table : Table) (fs : list (jsstr * jsstr))
    (whereExpr : jsstr) : res sql_error jsstr :=
  where_ ← buildWhere engine (columns table) fs whereExpr;
  Ok (js "SELECT COUNT(*) AS n FROM " ++ tableRef engine table
      ++ (if non_empty where_ then js " WHERE " ++ where_ else [])).

Definition assignments (engine : Engine) (table : Table) (values : cells)
    : res sql_error (list jsstr) :=
  res_map (fun c => v ← cell_of (oget values (col_name c));
                    Ok (quoteIdent engine (col_name c) ++ js " = "
                        ++ sqlValue engine (dataType c) v))
    (filterb (fun c => oin values (col_name c)) (columns table)).

Definition buildInsert (engine : Engine) (table : Table) (values : cells) : res sql_error jsstr :=
  let cols := filterb (fun c => oin values (col_name c)) (columns table) in
  match cols with
  | [] => Throw InsertWithNoColumns
  | _ =>
    let idents := join (js ", ") (map (fun c => quoteIdent engine (col_name c)) cols) in
    vals ← res_map (fun c => v ← cell_of (oget values (col_name c));
                             Ok (sqlValue engine (dataType c) v)) cols;
    Ok (js "INSERT INTO " ++ tableRef engine table ++ js " (" ++ idents ++ js ") VALUES ("
        ++ join (js ", ") vals ++ [cRP])
  end.

(** The primary-key conditions: [Object.keys(pkValues)] in order. *)
Definition pk_conditions (engine : Engine) (table : Table) (pkValues : cells)
    : res sql_error (list jsstr) :=
  res_map (fun column => comparison engine table column (oget pkValues column)) (mkeys pkValues).

(** The optimistic conditions that the [for] loop appends. *)
Definition optimistic_conditions (engine : Engine) (table : Table) (pkValues : cells)
    (originalValues : option cells) (changed : option (list jsstr)) : res sql_error (list jsstr) :=
  match originalValues with
  | None => Ok []
  | Some original =>
    res_map (fun column => comparison engine table column (oget original column))
      (filterb (fun column => negb (oin pkValues column))
        (optimisticColumns table original changed))
  end.

Definition buildUpdate (engine : Engine) (table : Table) (pkValues setValues : cells)
    (originalValues : option cells) : res sql_error jsstr :=
  where_ ← pk_conditions engine table pkValues;
  _ ← require (negb (bool_decide (where_ = []))) UpdateWithoutPrimaryKey;
  set ← assignments engine table setValues;
  _ ← require (negb (bool_decide (set = []))) UpdateWithNoChange;
  more ← optimistic_conditions engine table pkValues originalValues (Some (mkeys setValues));
  Ok (js "UPDATE " ++ tableRef engine table ++ js " SET " ++ join (js ", ") set
      ++ js " WHERE " ++ join (js " AND ") (where_ ++ more)).

Definition buildDelete (engine : Engine) (table : Table) (pkValues : cells)
    (originalValues : option cells) : res sql_error jsstr :=
  where_ ← pk_conditions engine table pkValues;
  _ ← require (negb (bool_decide (where_ = []))) DeleteWithoutPrimaryKey;
  more ← optimistic_conditions engine table pkValues originalValues None;
  Ok (js "DELETE FROM " ++ tableRef engine table ++ js " WHERE "
      ++ join (js " AND ") (where_ ++ more)).

(** ** Staged cell edits ([features/tableData/cellEdits.ts])

    The values of a key are what the index expression finds: a cell, [undefined] when the row
    lacks the column, or a member of [Object.prototype]. *)

#[export] Instance prop_eq_dec {V} `{EqDecision V} : EqDecision (prop V).
Proof. solve_decision. Defined.
Notation edit_key := (list (jsstr * prop (option jsstr))).
Record CellEdit := mkCellEdit { ce_key : edit_key; ce_original : cells; ce_values : cells }.
Record StagedWrite := mkStagedWrite { sw_id : jsstr; sw_sql : jsstr; sw_rationale : option jsstr; sw_cellEdit : option CellEdit }.
Inductive edit_error := EditRefused | EditFailed (e : sql_error).

Definition cellEditKey (table : Table) (original : cells) : edit_key :=
  mof (map (fun c => (col_name c, oget original (col_name c))) (pkColumns table)).
(** [key\[column\]] *)
Definition key_at (key : edit_key) (column : jsstr) : prop (option jsstr) :=
  match mget key column with Some p => p | None => oget ([] : cells) column end.
Definition sameCellEditRow (write : StagedWrite) (key : edit_key) : bool :=
  match sw_cellEdit write with
  | None => false
  | Some edit =>
    (0 <? length key) && (length key =? length (ce_key edit))
    && forallb (fun column => bool_decide (key_at (ce_key edit) column = key_at key column)) (mkeys key)
  end.
(** [v == null] *)
Definition nullish (p : prop (option jsstr)) : bool := match p with Own None | Undefined => true | _ => false end.
Definition edit_refused (table : Table) (key : edit_key) (column : jsstr) (value : option jsstr) : bool :=
  match findb (fun c => col_name c ==s column) (columns table) with
  | None => true
  | Some metadata =>
    pk metadata || (negb (nullable metadata) && bool_decide (value = None))
    || (length key =? 0) || hasNonScalarPk table || existsb nullish (map snd key)
  end.
(** The key as [buildUpdate] compares it: a value that is no string throws. *)
Definition key_cells (key : edit_key) : res sql_error cells :=
  res_map (fun e => v ← cell_of (snd e); Ok (fst e, v)) key.

Definition stageCellEdit (staged : list StagedWrite) (engine : Engine) (table : Table) (original : cells) (column : jsstr)
    (value : option jsstr) (fresh : jsstr) : res edit_error (list StagedWrite) :=
  let key := cellEditKey table original in
  if edit_refused table key column value then Throw EditRefused
  else
    let existing := findIndex (fun w => sameCellEditRow w key) staged in
    let write := existing ≫= (fun i => staged !! i) in
    let edit := write ≫= sw_cellEdit in
    let initial := match edit with Some e => ce_original e | None => original end in
    let values := mset match edit with Some e => ce_values e | None => [] end column value in
    let values := if bool_decide (oget initial column = Own value) then mdel values column else values in
    match values with
    | [] => Ok match existing with Some i => delete i staged | None => staged end
    | _ =>
      match (k ← key_cells key; buildUpdate engine table k values (Some initial)) with
      | Throw e => Throw (EditFailed e)
      | Ok sql =>
        let new := mkStagedWrite match write with Some w => sw_id w | None => fresh end sql None
                     (Some (mkCellEdit key initial values)) in
        Ok match existing with Some i => <[i := new]> staged | None => staged ++ [new] end
      end
    end.

(** What happens to the staged writes of a table ([features/tableData/state.ts]): edits, other
    writes, removals. *)
Inductive staged_event :=
| se_edit (original : cells) (column : jsstr) (value : option jsstr) (fresh : jsstr)
| se_other (id sql : jsstr) (rationale : option jsstr)
| se_discard (id : jsstr)
| se_clear.
Definition staged_step (engine : Engine) (table : Table) (staged : list StagedWrite) (e : staged_event) : list StagedWrite :=
  match e with
  | se_edit original column value fresh =>
    match stageCellEdit staged engine table original column value fresh with Ok staged' => staged' | Throw _ => staged end
  | se_other id sql rationale => staged ++ [mkStagedWrite id sql rationale None]
  | se_discard id => filterb (fun w => negb (sw_id w ==s id)) staged
  | se_clear => []
  end.
Definition staged_run (engine : Engine) (table : Table) (es : list staged_event) : list StagedWrite :=
  foldl (staged_step engine table) [] es.

(** ** Specification of an accepted fragment

    [lexed raw v]: [raw] is a sequence of plain code units and of complete quoted
    tokens, and [v] is [raw] with every token blanked. *)
Inductive lexed : jsstr -> jsstr -> Prop :=
| lx_nil : lexed [] []
| lx_plain c l v :
    opens_quote c = false -> c <> cLB -> lexed l v -> lexed (c :: l) (c :: v)
| lx_quoted q body l v :
    opens_quote q = true -> head l <> Some q -> lexed l v ->
    lexed (quoted double q body ++ l)
      (replicate (length (quoted double q body)) cSP ++ v)
| lx_bracket body l v :
    cRB ∉ body -> lexed l v ->
    lexed (cLB :: body ++ cRB :: l) (replicate (2 + length body) cSP ++ v).

(** The depth after reading the parentheses of [v] at depth [d], unless it falls
    below zero. *)
Fixpoint parens (v : jsstr) (d : nat) : option nat :=
  match v with
  | [] => Some d
  | c :: v =>
    if (c =? cLP)%N then parens v (S d)
    else if (c =? cRP)%N then match d with 0 => None | S d => parens v d end
    else parens v d
  end.

(** *** An engine's own reading

    Of a text in an engine's dialect, the part outside quoted tokens, every unit of a token
    blanked; [None] when a comment starts in it or a token does not end. It follows the
    manuals: which units open a token, in which of them a backslash escapes, what starts a
    comment. A doubled quote ends one token and starts the next. *)
Definition opens (engine : Engine) (c : N) : option N :=
  if ((c =? cSQ) || (c =? cDQ))%N then Some c
  else if (c =? cBT)%N then if bool_decide (engine = postgres) then None else Some c
  else if (c =? cLB)%N then if bool_decide (engine = sqlite) then Some cRB else None
  else None.
Definition hash_comments (engine : Engine) : bool := match engine with mysql | bigquery => true | _ => false end.
Definition comment_at (engine : Engine) (l : jsstr) : bool :=
  match l with
  | c :: d :: _ => ((c =? cDASH) && (d =? cDASH))%N || ((c =? cSLASH) && (d =? cSTAR))%N
                   || (hash_comments engine && (c =? cHASH)%N)
  | c :: _ => hash_comments engine && (c =? cHASH)%N
  | [] => false
  end.
Fixpoint plain_text (engine : Engine) (l : jsstr) (quote : option N) : option jsstr :=
  match l with
  | [] => match quote with None => Some [] | Some _ => None end
  | c :: rest =>
    match quote with
    | Some q =>
      if hash_comments engine && (c =? cBS)%N
      then match rest with [] => None | _ :: rest' => (fun v => cSP :: cSP :: v) <$> plain_text engine rest' quote end
      else cons cSP <$> plain_text engine rest (if (c =? q)%N then None else quote)
    | None =>
      if comment_at engine l then None
      else match opens engine c with
           | Some q => cons cSP <$> plain_text engine rest (Some q)
           | None => cons c <$> plain_text engine rest None
           end
    end
  end.

(** A [#] that does not follow white space. *)
Fixpoint glued_hash (glued : bool) (l : jsstr) : bool :=
  match l with
  | [] => false
  | c :: l => (glued && (c =? cHASH)%N) || glued_hash (negb (is_space c)) l
  end.
Definition has_none (l : jsstr) (cs : list N) : bool := forallb (fun c => negb (existsb (N.eqb c) cs)) l.
(** The texts that the engine reads as the grid does: in SQLite's dialect all of them; the
    others have no bracketed names and PostgreSQL has dollar quotes and escape strings,
    MySQL and BigQuery have backslash escapes and [#] comments, BigQuery triple quotes. *)
Definition lexes_alike (engine : Engine) (l : jsstr) : bool :=
  match engine with
  | sqlite => true
  | postgres => has_none l [cLB; cBT; cBS; cDOLLAR]
  | mysql => has_none l [cLB; cBS] && negb (glued_hash false l)
  | bigquery => has_none l [cLB; cBS] && negb (glued_hash false l) && negb (includes l (js "'''"))
                && negb (includes l (repeat cDQ 3))
  | mongodb => false
  end.

(** *** Words that would end a clause *)

Definition clause_words (kind : GridExpressionKind) : list (list jsstr) :=
  map (fun w => [w]) [js "union"; js "intersect"; js "except"; js "limit"; js "offset"; js "fetch"; js "returning"]
  ++ match kind with
     | gwhere => [[js "order"; js "by"]]
     | gorderBy => [[js "group"; js "by"]; [js "select"]; [js "from"]; [js "where"]; [js "having"]]
     end.
(** The words in any case, with white space between them. *)
Inductive phrase : list jsstr -> jsstr -> Prop :=
| ph_word w t : toLowerAscii t = w -> phrase [w] t
| ph_more w ws t sp rest :
    toLowerAscii t = w -> sp <> [] -> forallb is_space sp = true -> phrase ws rest ->
    phrase (w :: ws) (t ++ sp ++ rest).
Definition ends_in_word (l : jsstr) : bool := opt_is (last l) is_word.
Definition starts_in_word (l : jsstr) : bool := opt_is (head l) is_word.

Example page_example :
  buildPageQuery postgres
    (mkTable None (Some (js "public")) (js "orders") (js "table")
       [mkColumn (js "id") (js "bigint") false true; mkColumn (js "note") (js "text") true false]
       [] [])
    (mkPageOpts [(js "note", js "it's")] [] [] (Some (mkSort (js "note") desc)) 50 100)
  = Ok (js "SELECT * FROM " ++ quoteIdent postgres (js "public") ++ js "."
        ++ quoteIdent postgres (js "orders") ++ js " WHERE CAST("
        ++ quoteIdent postgres (js "note") ++ js " AS TEXT) ILIKE '%it''s%' ORDER BY "
        ++ quoteIdent postgres (js "note") ++ js " DESC, " ++ quoteIdent postgres (js "id")
        ++ js " LIMIT 50 OFFSET 100").
Proof. vm_compute. reflexivity. Qed.

(** ** Lemmas *)

Lemma opens_quote_elem c : opens_quote c = true <-> c ∈ [cSQ; cDQ; cBT].
Proof.
  unfold opens_quote. rewrite !elem_of_cons, elem_of_nil, !orb_true_iff, !N.eqb_eq. tauto.
Qed.

Lemma parens_spaces n v d : parens (replicate n cSP ++ v) d = parens v d.
Proof. induction n as [|n IH]; [done|]. apply IH. Qed.

(** What the scan has established when it ends outside quotes. *)
Definition scanned (raw visible V : jsstr) (quote : option N) (d d' : nat) : Prop :=
  match quote with
  | None => exists v, V = visible ++ v /\ lexed raw v /\ parens v d = Some d'
  | Some q => exists tok rest v,
      raw = tok ++ rest /\ V = visible ++ replicate (length tok) cSP ++ v
      /\ lexed rest v /\ parens v d = Some d'
      /\ if (q =? cRB)%N then exists body, tok = body ++ [cRB] /\ cRB ∉ body
         else exists body, tok = double q body ++ [q] /\ head rest <> Some q
  end.

Lemma scanned_inside raw c visible V q d d' :
  scanned raw (visible ++ [cSP]) V (Some q) d d' -> c <> q ->
  scanned (c :: raw) visible V (Some q) d d'.
Proof.
  intros (tok & rest & v & -> & -> & Hl & Hp & Hb) Hc.
  exists (c :: tok), rest, v. repeat split; [cbn; by rewrite <- app_assoc|done..|].
  destruct (N.eqb_spec q cRB) as [->|Hq]; destruct Hb as (body & -> & Hn); exists (c :: body).
  - split; [done|]. by rewrite not_elem_of_cons.
  - split; [|done]. cbn. by rewrite (proj2 (N.eqb_neq c q)).
Qed.

Lemma scanned_open raw q visible V d d' :
  (opens_quote q = true \/ q = cRB) ->
  scanned raw (visible ++ [cSP]) V (Some q) d d' ->
  scanned ((if (q =? cRB)%N then cLB else q) :: raw) visible V None d d'.
Proof.
  intros Hq (tok & rest & v & -> & -> & Hl & Hp & Hb). cbn.
  exists (replicate (S (length tok)) cSP ++ v).
  split; [cbn; by rewrite <- app_assoc|]. rewrite parens_spaces. split; [|done].
  destruct (N.eqb_spec q cRB) as [->|Hne].
  - destruct Hb as (body & -> & Hn). rewrite <- app_assoc. cbn [app].
    rewrite length_app. cbn [length]. rewrite Nat.add_1_r. by apply lx_bracket.
  - destruct Hq as [Hq|]; [|done]. destruct Hb as (body & -> & Hr).
    change (q :: (double q body ++ [q]) ++ rest) with (quoted double q body ++ rest).
    by apply lx_quoted.
Qed.

Lemma grid_scan_spec raw visible quote d V d' :
  grid_scan raw visible quote d = Some (V, None, d') -> scanned raw visible V quote d d'.
Proof.
  remember (length raw) as n eqn:Hn. revert raw visible quote d Hn.
  induction n as [n IH] using lt_wf_ind. intros [|c raw] visible quote d -> H; cbn [grid_scan] in H.
  { simplify_eq. exists []. rewrite app_nil_r. repeat split; constructor. }
  assert (forall vis qt d0, grid_scan raw vis qt d0 = Some (V, None, d') ->
    scanned raw vis V qt d0 d') as IHr by (intros; apply (IH (length raw)); [cbn; lia|done|done]).
  destruct quote as [q|].
  - destruct (N.eqb_spec q cRB) as [->|Hq].
    { destruct (N.eqb_spec c cRB) as [->|Hc]; [|by apply scanned_inside; auto].
      apply IHr in H as (v & -> & Hl & Hp). exists [cRB], raw, v.
      repeat split; [by rewrite <- app_assoc|done..|]. exists []. by split; [|apply not_elem_of_nil]. }
    destruct (N.eqb_spec c q) as [->|Hc]; [|by apply scanned_inside; auto].
    destruct raw as [|x raw]; [|destruct (N.eqb_spec x q) as [->|Hx]].
    + apply IHr in H as (v & -> & Hl & Hp). exists [q], [], v.
      repeat split; [by rewrite <- app_assoc|done..|].
      rewrite (proj2 (N.eqb_neq q cRB)) by done. by exists [].
    + assert (scanned raw ((visible ++ [cSP]) ++ [cSP]) V (Some q) d d')
        as (tok & rest & v & -> & -> & Hl & Hp & Hb) by (apply (IH (length raw)); [cbn; lia|done|done]).
      exists (q :: q :: tok), rest, v. repeat split; [cbn; by rewrite <- !app_assoc|done..|].
      rewrite (proj2 (N.eqb_neq q cRB)) in * by done. destruct Hb as (body & -> & Hr).
      exists (q :: body). split; [|done]. cbn. by rewrite N.eqb_refl.
    + apply IHr in H as (v & -> & Hl & Hp). exists [q], (x :: raw), v.
      repeat split; [by rewrite <- app_assoc|done..|].
      rewrite (proj2 (N.eqb_neq q cRB)) by done. exists []. split; [done|]. cbn. congruence.
  - assert (forall d0 d1, grid_scan raw (visible ++ [c]) None d0 = Some (V, None, d') ->
      opens_quote c = false -> c <> cLB -> (forall v, parens (c :: v) d1 = parens v d0) ->
      scanned (c :: raw) visible V None d1 d') as Hplain.
    { intros d0 d1 (v & -> & Hl & Hp)%IHr Ho Hc Hd. exists (c :: v).
      rewrite Hd, <- app_assoc. repeat split; [by constructor|done]. }
    destruct (opens_quote c) eqn:Ho.
    { apply IHr, scanned_open in H; [|by left].
      by destruct (N.eqb_spec c cRB) as [->|]. }
    destruct (N.eqb_spec c cLB) as [->|Hlb].
    { apply IHr, scanned_open in H; [done|by right]. }
    destruct (N.eqb_spec c cLP) as [->|Hlp]; [by eapply Hplain|].
    destruct (N.eqb_spec c cRP) as [->|Hrp].
    { destruct d as [|d]; [done|]. by eapply Hplain. }
    eapply Hplain; [done..|]. intros v. cbn.
    by rewrite (proj2 (N.eqb_neq c cLP)), (proj2 (N.eqb_neq c cRP)).
Qed.

(** *** The grid's scan and the engine's *)

Lemma opt_map_map {A B C} (f : A -> B) (g : B -> C) (o : option A) : g <$> (f <$> o) = (fun x => g (f x)) <$> o.
Proof. by destruct o. Qed.

Lemma hash_comment_found a b : (a = [] \/ exists a' c, a = a' ++ [c] /\ is_space c = true) -> test hash_comment_re (a ++ cHASH :: b) = true.
Proof.
  intros [->|(a' & c & -> & Hc)]; apply test_spec.
  - exists 0, 1. split; [cbn; lia|]. eapply m_seq; [apply m_alt_l, m_bol|]. by apply (m_cls _ _ _ cHASH).
  - exists (length a'), (S (S (length a'))). split; [rewrite !length_app; cbn; lia|].
    rewrite <- app_assoc. eapply m_seq; [apply m_alt_r; eapply m_cls; [|exact Hc]|].
    + by rewrite lookup_app_r, Nat.sub_diag by lia.
    + eapply (m_cls _ _ _ cHASH); [|done]. rewrite lookup_app_r by lia. by replace (S (length a') - length a') with 1 by lia.
Qed.

(** Nothing in [v] starts a comment. *)
Record no_comment (v : jsstr) : Prop := {
  nc_dash : forall a b, v <> a ++ js "--" ++ b;
  nc_block : forall a b, v <> a ++ js "/*" ++ b;
  nc_hash : forall a b, v = a ++ cHASH :: b -> exists a' c, a = a' ++ [c] /\ is_space c = false }.
Lemma boundary_no_comment v : boundary v = false -> no_comment v.
Proof.
  unfold boundary. intros H. bools. split.
  - intros a b. by apply (includes_false v (js "--")).
  - intros a b. by apply (includes_false v (js "/*")).
  - intros a b ->. destruct (list_eq_nil_dec a) as [->|Ha].
    { rewrite hash_comment_found in *; [done|by left]. }
    destruct (exists_last Ha) as (a' & c & ->). exists a', c. split; [done|]. apply not_true_iff_false. intros Hc.
    rewrite hash_comment_found in *; [done|right; eauto].
Qed.

(** What the two readings need to agree, for every rest of the text. *)
Definition alike (engine : Engine) (glued : bool) (l : jsstr) : Prop :=
  engine <> mongodb
  /\ (engine <> sqlite -> cLB ∉ l) /\ (engine = postgres -> cBT ∉ l)
  /\ (hash_comments engine = true -> cBS ∉ l /\ glued_hash glued l = false).
Lemma has_none_spec l cs c : has_none l cs = true -> c ∈ cs -> c ∉ l.
Proof.
  unfold has_none. rewrite forallb_elem. intros H Hc Hin. specialize (H c Hin). apply negb_true_iff in H.
  rewrite existsb_none in H. specialize (H c Hc). by rewrite N.eqb_refl in H.
Qed.
Lemma lexes_alike_spec engine l : lexes_alike engine l = true -> alike engine false l.
Proof.
  unfold lexes_alike, alike. destruct engine; intros H; bools; split_and!; try done; intros;
    try (eapply has_none_spec; [eassumption|by repeat (try (by left); right)]).
  all: split; [|done]; eapply has_none_spec; [eassumption|by repeat (try (by left); right)].
Qed.
Lemma alike_cons engine glued c l : alike engine glued (c :: l) -> alike engine (negb (is_space c)) l.
Proof.
  intros (Hm & Hb & Ht & Hh). split; [done|].
  split; [intros E; specialize (Hb E)|split; [intros E; specialize (Ht E)|intros E; destruct (Hh E) as [Hs Hg]]].
  - rewrite not_elem_of_cons in Hb. tauto.
  - rewrite not_elem_of_cons in Ht. tauto.
  - rewrite not_elem_of_cons in Hs. cbn in Hg. apply orb_false_iff in Hg as [_ Hg]. tauto.
Qed.

Lemma alike_opens engine glued c l :
  alike engine glued (c :: l) ->
  opens engine c = if opens_quote c then Some c else if (c =? cLB)%N then Some cRB else None.
Proof.
  intros (Hm & Hb & Ht & _). unfold opens, opens_quote.
  destruct (c =? cSQ)%N, (c =? cDQ)%N; try done. cbn [orb].
  destruct (N.eqb_spec c cBT) as [->|].
  - case_bool_decide; [|done]. specialize (Ht ltac:(done)). rewrite not_elem_of_cons in Ht. tauto.
  - destruct (N.eqb_spec c cLB) as [->|]; [|done]. case_bool_decide; [done|].
    specialize (Hb ltac:(done)). rewrite not_elem_of_cons in Hb. tauto.
Qed.

(** The unit after which a plain [#] would be a comment is the last visible one. *)
Definition last_plain (visible : jsstr) (glued : bool) : Prop :=
  glued = false -> visible = [] \/ exists a c, visible = a ++ [c] /\ is_space c = true.

Lemma plain_no_comment engine glued c l visible v rest :
  alike engine glued (c :: l) -> last_plain visible glued -> no_comment (visible ++ c :: v) ->
  (forall d l', l = d :: l' -> opens_quote d = false -> d <> cLB -> exists v', v = d :: v') ->
  (forall d rest', rest = d :: rest' -> d <> cDASH /\ d <> cSTAR) ->
  comment_at engine (c :: l ++ rest) = false.
Proof.
  intros (_ & _ & _ & Hh) Hlast [Hd Hb Hn] Hnext Hrest.
  assert (hash_comments engine && (c =? cHASH)%N = false) as Hhash.
  { apply not_true_iff_false. intros [He Hc]%andb_true_iff. apply N.eqb_eq in Hc as ->. destruct (Hh He) as [_ Hg].
    cbn in Hg. apply orb_false_iff in Hg as [Hg _]. rewrite andb_true_r in Hg. subst glued.
    destruct (Hn visible v eq_refl) as (a' & c & E & Hs). destruct (Hlast eq_refl) as [->|(a & c' & -> & Hs')].
    - by destruct a'.
    - apply app_inj_tail in E as [_ ->]. congruence. }
  assert (forall d, head (l ++ rest) = Some d -> c = cDASH /\ d = cDASH \/ c = cSLASH /\ d = cSTAR -> False) as Hpair.
  { intros d Hhd Hc. destruct l as [|x l].
    - destruct rest as [|y rest]; [done|]. injection Hhd as <-. destruct (Hrest y rest eq_refl). destruct Hc as [[_ ?]|[_ ?]]; congruence.
    - injection Hhd as ->. destruct (Hnext d l eq_refl) as [v' ->]; [by destruct Hc as [[_ ->]|[_ ->]]..|].
      destruct Hc as [[-> ->]|[-> ->]]; [by apply (Hd visible v')|by apply (Hb visible v')]. }
  unfold comment_at. destruct (l ++ rest) as [|d k] eqn:E; [done|]. rewrite Hhash, orb_false_r.
  apply orb_false_iff. split; apply andb_false_iff.
  - destruct (N.eqb_spec c cDASH) as [->|]; [right|by left]. apply N.eqb_neq. intros ->. by apply (Hpair cDASH); [|left].
  - destruct (N.eqb_spec c cSLASH) as [->|]; [right|by left]. apply N.eqb_neq. intros ->. by apply (Hpair cSTAR); [|right].
Qed.

Lemma alike_app engine glued k c l : alike engine glued (k ++ c :: l) -> alike engine (negb (is_space c)) l.
Proof. revert glued. induction k as [|x k IH]; intros glued H; [by apply alike_cons in H|]. apply alike_cons in H. by eapply IH. Qed.
Lemma quotes_no_comment engine q l : opens_quote q = true -> comment_at engine (q :: l) = false.
Proof.
  rewrite opens_quote_elem. intros H. repeat (apply elem_of_cons in H as [->|H]); try by apply elem_of_nil in H.
  all: destruct l, engine; done.
Qed.

(** A complete token is blanked. *)
Lemma plain_quoted engine q body l :
  opens_quote q = true -> opens engine q = Some q -> (hash_comments engine = true -> cBS ∉ body) ->
  plain_text engine (double q body ++ q :: l) (Some q)
  = app (replicate (S (length (double q body))) cSP) <$> plain_text engine l None.
Proof.
  intros Hq Ho Hbs. assert (hash_comments engine && (q =? cBS)%N = false) as Hqb.
  { rewrite opens_quote_elem in Hq. apply andb_false_iff. right. repeat (apply elem_of_cons in Hq as [->|Hq]; [done|]). by apply elem_of_nil in Hq. }
  induction body as [|x body IH].
  - cbn [double app length replicate plain_text]. rewrite Hqb, N.eqb_refl. by destruct (plain_text engine l None).
  - assert (hash_comments engine = true -> cBS ∉ body) as Hbs'.
    { intros E. specialize (Hbs E). rewrite not_elem_of_cons in Hbs. tauto. }
    specialize (IH Hbs'). cbn [double]. destruct (N.eqb_spec x q) as [->|Hx].
    + cbn [app length replicate plain_text]. rewrite Hqb, N.eqb_refl, quotes_no_comment, Ho by done. rewrite IH, !opt_map_map. done.
    + assert (hash_comments engine && (x =? cBS)%N = false) as Hxb.
      { apply not_true_iff_false. intros [E Hc]%andb_true_iff. apply N.eqb_eq in Hc as ->. specialize (Hbs E).
        rewrite not_elem_of_cons in Hbs. tauto. }
      cbn [app length replicate plain_text]. rewrite Hxb, (proj2 (N.eqb_neq x q)) by done. rewrite IH, opt_map_map. done.
Qed.
Lemma plain_bracket engine body l :
  hash_comments engine = false -> cRB ∉ body ->
  plain_text engine (body ++ cRB :: l) (Some cRB) = app (replicate (S (length body)) cSP) <$> plain_text engine l None.
Proof.
  intros He. induction body as [|x body IH]; intros Hn.
  - cbn [app length replicate plain_text]. rewrite He. cbn. by destruct (plain_text engine l None).
  - rewrite not_elem_of_cons in Hn. destruct Hn as [Hx Hn]. cbn [app length replicate plain_text]. rewrite He.
    rewrite (proj2 (N.eqb_neq x cRB)) by congruence. cbn [andb]. by rewrite IH, opt_map_map.
Qed.

Lemma lexed_next d l' v : lexed (d :: l') v -> opens_quote d = false -> d <> cLB -> exists v', v = d :: v'.
Proof. intros H Hd Hb. inversion H; subst; [eauto| |done]. congruence. Qed.

Definition follows (rest : jsstr) : Prop := forall d k, rest = d :: k -> d <> cDASH /\ d <> cSTAR.
Lemma lexed_plain engine glued l v visible rest :
  lexed l v -> alike engine glued l -> last_plain visible glued -> no_comment (visible ++ v) -> follows rest ->
  plain_text engine (l ++ rest) None = app v <$> plain_text engine rest None.
Proof.
  intros Hl. revert glued visible. induction Hl as [|c l v Ho Hc Hl IH|q body l v Hq Hh Hl IH|body l v Hb Hl IH];
    intros glued visible Ha Hp Hn Hr.
  - cbn [app]. by destruct (plain_text engine rest None).
  - cbn [app plain_text].
    rewrite (plain_no_comment engine glued c l visible v rest) by (try done; intros d l' -> ? ?; by eapply lexed_next).
    rewrite (alike_opens _ _ _ _ Ha), Ho, (proj2 (N.eqb_neq c cLB)) by done.
    rewrite (IH (negb (is_space c)) (visible ++ [c])), opt_map_map; [done|by eapply alike_cons| |by rewrite <- app_assoc|done].
    intros E. right. exists visible, c. split; [done|]. by apply negb_false_iff in E.
  - unfold quoted in *. cbn [app plain_text].
    assert (alike engine glued ((q :: double q body) ++ q :: l)) as Ha' by (cbn [app] in *; by rewrite <- app_assoc in Ha).
    rewrite quotes_no_comment by done.
    assert (opens engine q = Some q) as Hop by (rewrite (alike_opens _ _ _ _ Ha'), Hq; done). rewrite Hop.
    replace (((double q body ++ [q]) ++ l) ++ rest) with (double q body ++ q :: l ++ rest) by by rewrite <- !app_assoc.
    rewrite plain_quoted; [|done|done|].
    2: { intros E. destruct Ha' as (_ & _ & _ & Hbs). destruct (Hbs E) as [Hn' _]. intros Hin. apply Hn'.
         right. apply elem_of_app. left. clear -Hin. induction body as [|x body IHb]; [done|].
         cbn [double]. apply elem_of_cons in Hin as [<-|Hin]; [destruct (N.eqb_spec cBS q) as [<-|]; by left|]. case_match; [do 2 right|right]; by apply IHb. }
    rewrite (IH true (visible ++ replicate (length (q :: double q body ++ [q])) cSP)).
    + rewrite !opt_map_map. destruct (plain_text engine rest None); [|done]. cbn. f_equal. rewrite length_app. cbn.
      rewrite Nat.add_1_r. cbn. by rewrite app_assoc.
    + apply alike_app in Ha'. rewrite opens_quote_elem in Hq.
      assert (is_space q = false) as E by (repeat (apply elem_of_cons in Hq as [->|Hq]; [done|]); by apply elem_of_nil in Hq).
      by rewrite E in Ha'.
    + done.
    + by rewrite <- app_assoc.
    + done.
  - assert (engine = sqlite) as ->.
    { destruct Ha as (_ & Hlb & _). destruct (decide (engine = sqlite)); [done|]. destruct (Hlb ltac:(done)). by left. }
    cbn [app plain_text]. assert (forall k, comment_at sqlite (cLB :: k) = false) as -> by by intros [].
    change (opens sqlite cLB) with (Some cRB). cbn iota.
    replace ((body ++ cRB :: l) ++ rest) with (body ++ cRB :: l ++ rest) by by rewrite <- app_assoc.
    rewrite plain_bracket by done.
    rewrite (IH true (visible ++ replicate (2 + length body) cSP)).
    + rewrite !opt_map_map. destruct (plain_text sqlite rest None); [|done]. cbn. f_equal. by rewrite app_assoc.
    + by apply (alike_app _ glued (cLB :: body) cRB l).
    + done.
    + by rewrite <- app_assoc.
    + done.
Qed.

(** *** Clause words *)

Lemma litI_match w t a b :
  toLowerAscii t = toLowerAscii w -> rmatch (a ++ t ++ b) (RLitI w) (length a) (length a + length t).
Proof.
  revert w a. induction t as [|c t IH]; intros [|x w] a E; try done; [cbn; rewrite Nat.add_0_r; constructor|].
  injection E as Ec E. cbn [RLitI RChrI length]. eapply m_seq.
  - eapply (m_cls _ _ _ c); [by rewrite lookup_app_r, Nat.sub_diag by lia|]. by apply N.eqb_eq.
  - specialize (IH w (a ++ [c]) E). rewrite <- app_assoc, length_app in IH. cbn in IH.
    replace (length a + S (length t)) with (length a + 1 + length t) by lia. by replace (S (length a)) with (length a + 1) by lia.
Qed.
Lemma spaces_match sp a b :
  forallb is_space sp = true -> rmatch (a ++ sp ++ b) (RStar (RCls is_space)) (length a) (length a + length sp).
Proof.
  revert a. induction sp as [|c sp IH]; intros a H; [rewrite Nat.add_0_r; constructor|]. cbn in H. bools.
  eapply (m_star_step _ _ _ (S (length a))); [eapply (m_cls _ _ _ c); [by rewrite lookup_app_r, Nat.sub_diag by lia|done]|lia|].
  specialize (IH (a ++ [c]) ltac:(done)). rewrite <- app_assoc, length_app in IH. cbn in IH |- *.
  replace (length a + S (length sp)) with (length a + 1 + length sp) by lia. by replace (S (length a)) with (length a + 1) by lia.
Qed.
Lemma any_match s rs r i j : r ∈ rs -> rmatch s r i j -> rmatch s (RAny rs) i j.
Proof.
  induction rs as [|x rs IH]; intros Hin H; [by apply elem_of_nil in Hin|].
  apply elem_of_cons in Hin as [->|Hin].
  - destruct rs; [done|by apply m_alt_l].
  - destruct rs as [|y rs]; [by apply elem_of_nil in Hin|]. apply m_alt_r. by apply IH.
Qed.
Lemma words_match rs r a t b :
  r ∈ rs -> rmatch (a ++ t ++ b) r (length a) (length a + length t) ->
  starts_in_word t = true -> ends_in_word t = true -> ends_in_word a = false -> starts_in_word b = false ->
  rmatch (a ++ t ++ b) (words rs) (length a) (length a + length t).
Proof.
  intros Hr Hm Hs He Ha Hb. unfold words. cbn [RSeqs].
  assert (forall k l, word_at (k ++ l) (length k) = starts_in_word l) as Hat.
  { intros k l. unfold word_at, starts_in_word. rewrite lookup_app_r, Nat.sub_diag by lia. by destruct l. }
  assert (forall k l, word_before (k ++ l) (length k) = ends_in_word k) as Hbefore.
  { intros k l. destruct (list_eq_nil_dec k) as [->|Hk]; [done|]. destruct (exists_last Hk) as (k' & c & ->).
    unfold word_before, ends_in_word, word_at. rewrite length_app, Nat.add_1_r, last_snoc, <- app_assoc.
    by rewrite lookup_app_r, Nat.sub_diag by lia. }
  assert (forall l, starts_in_word t = true -> starts_in_word (t ++ l) = true) as Hst by (intros l; by destruct t).
  eapply m_seq; [apply m_wordb|].
  { rewrite Hat, Hbefore, Ha, Hst by done. done. }
  eapply m_seq; [by eapply any_match|].
  replace (length a + length t) with (length (a ++ t)) by apply length_app. rewrite app_assoc.
  eapply m_seq; [apply m_wordb|constructor].
  rewrite Hat, Hbefore, Hb. unfold ends_in_word in *. rewrite last_app. destruct (last t) as [c|]; [|done]. by rewrite He.
Qed.

Lemma lower_word c : is_word (lower_ascii c) = true -> is_word c = true.
Proof.
  unfold lower_ascii. destruct (is_upper c) eqn:E; [|done]. intros _. unfold is_word, is_alnum, is_alpha. by rewrite E, orb_true_r.
Qed.
Lemma word_ends t w : toLowerAscii t = w -> w <> [] -> forallb is_word w = true -> starts_in_word t = true /\ ends_in_word t = true.
Proof.
  intros <- Hne H. rewrite forallb_elem in H. assert (forall c, c ∈ t -> is_word c = true) as Hc.
  { intros c Hc. apply lower_word, H. by apply list_elem_of_fmap_2. }
  unfold starts_in_word, ends_in_word. destruct t as [|c t]; [done|]. split; [apply Hc; by left|].
  destruct (exists_last (l:=c :: t) ltac:(done)) as (k & d & E). rewrite E, last_snoc. apply Hc. rewrite E. apply elem_of_app. right. by left.
Qed.
Lemma ends_app k l : l <> [] -> ends_in_word (k ++ l) = ends_in_word l.
Proof. intros H. destruct (exists_last H) as (l' & c & ->). unfold ends_in_word. by rewrite app_assoc, !last_snoc. Qed.
Lemma starts_app k l : k <> [] -> starts_in_word (k ++ l) = starts_in_word k.
Proof. by destruct k. Qed.

(** The words of a clause word are lower-case words. *)
Definition proper_word (w : jsstr) : bool := non_empty w && forallb is_word w && bool_decide (toLowerAscii w = w).
Lemma one_word w t a b rs :
  proper_word w = true -> RLitI w ∈ rs -> phrase [w] t -> ends_in_word a = false -> starts_in_word b = false ->
  rmatch (a ++ t ++ b) (words rs) (length a) (length a + length t).
Proof.
  intros Hw Hr Hp Ha Hb. unfold proper_word in Hw. bools. inversion Hp as [? ? Ht|? ? ? ? ? ? ? ? Hrest]; subst; [|inversion Hrest].
  destruct (word_ends t _ eq_refl) as [Hs He]; [by destruct (toLowerAscii t)|done|].
  eapply words_match; [exact Hr|by apply litI_match|done..].
Qed.
Lemma two_words w1 w2 t a b rs :
  proper_word w1 = true -> proper_word w2 = true -> RSeqs [RLitI w1; ws1; RLitI w2] ∈ rs -> phrase [w1; w2] t ->
  ends_in_word a = false -> starts_in_word b = false ->
  rmatch (a ++ t ++ b) (words rs) (length a) (length a + length t).
Proof.
  intros Hw1 Hw2 Hr Hp Ha Hb. unfold proper_word in Hw1, Hw2. bools.
  inversion Hp as [|? ? t1 sp t' Ht1 Hsp Hsps Hrest]; subst. inversion Hrest as [? t2 Ht2|? ? ? ? ? ? ? ? Hr2]; subst; [|inversion Hr2].
  destruct (word_ends t1 _ eq_refl) as [Hs1 _]; [by destruct (toLowerAscii t1)|done|].
  destruct (word_ends t' _ eq_refl) as [_ He2]; [by destruct (toLowerAscii t')|done|].
  eapply words_match; [exact Hr| | | |done|done].
  - cbn [RSeqs]. rewrite !length_app. rewrite <- !app_assoc. destruct sp as [|s sp]; [done|]. cbn in Hsps. bools.
    eapply m_seq; [by apply litI_match|]. replace (length a + length t1) with (length (a ++ t1)) by apply length_app.
    eapply m_seq; [eapply m_seq|].
    + eapply (m_cls _ _ _ s); [|done]. rewrite app_assoc. cbn [app]. by rewrite lookup_app_r, Nat.sub_diag by lia.
    + replace (a ++ t1 ++ (s :: sp) ++ t' ++ b) with (((a ++ t1) ++ [s]) ++ sp ++ t' ++ b) by by rewrite <- !app_assoc.
      replace (S (length (a ++ t1))) with (length ((a ++ t1) ++ [s])) by (rewrite !length_app; cbn; lia). by apply spaces_match.
    + eapply m_seq; [|constructor].
      replace (a ++ t1 ++ (s :: sp) ++ t' ++ b) with (((a ++ t1) ++ s :: sp) ++ t' ++ b) by by rewrite <- !app_assoc.
      replace (length ((a ++ t1) ++ [s]) + length sp) with (length ((a ++ t1) ++ s :: sp)) by (rewrite !length_app; cbn; lia).
      replace (length a + (length t1 + (length (s :: sp) + length t'))) with (length ((a ++ t1) ++ s :: sp) + length t')
        by (rewrite !length_app; cbn; lia).
      by apply litI_match.
  - rewrite starts_app; [done|]. by destruct t1.
  - rewrite app_assoc, ends_app; [done|]. by destruct t'.
Qed.
Lemma phrase_match kind ws a t b :
  ws ∈ clause_words kind -> phrase ws t -> ends_in_word a = false -> starts_in_word b = false ->
  rmatch (a ++ t ++ b) (escape_re kind) (length a) (length a + length t).
Proof.
  intros Hws Hp Ha Hb.
  destruct kind; cbn [clause_words map app] in Hws; repeat (apply elem_of_cons in Hws as [->|Hws]); try (by apply elem_of_nil in Hws);
    first [eapply one_word; [| |exact Hp|done|done]|eapply two_words; [| | |exact Hp|done|done]];
    try reflexivity; repeat (try (by left); right).
Qed.

(** The escaping of a literal, per engine, and the flag the parameter scanner is given. *)
Definition literal_enc (engine : Engine) (q : N) (s : jsstr) : jsstr :=
  if bool_decide (engine = mysql) then double q (double cBS s) else double q s.

Lemma sqlLiteral_quoted engine v : sqlLiteral engine (Some v) = quoted (literal_enc engine) cSQ v.
Proof. unfold sqlLiteral, quoted, literal_enc. by case_match. Qed.

#[export] Instance engine_skipper engine :
  QuoteSkipper (literal_enc engine)
    (fun sql i q => skipQuoted sql i q (bool_decide (engine = mysql))) [cSQ; cDQ; cBT].
Proof. unfold literal_enc. destruct (bool_decide (engine = mysql)); apply _. Qed.

(** For the splitter the backslashes of a literal are ordinary text. *)
Lemma literal_split_quoted engine v : exists body, sqlLiteral engine (Some v) = quoted double cSQ body.
Proof. unfold sqlLiteral, quoted. case_match; eauto. Qed.

Lemma res_map_comparison_nonempty engine table ks (get : jsstr -> prop (option jsstr)) cs :
  res_map (fun k => comparison engine table k (get k)) ks = Ok cs ->
  Forall2 (fun k c => comparison engine table k (get k) = Ok c) ks cs.
Proof. apply res_map_ok. Qed.

(** ** Properties *)

(** C10: a WHERE or ORDER BY fragment that the grid accepts stays inside its clause. It is at
    most 2048 units long and consists of complete quoted tokens and plain text; an engine whose
    dialect reads it as the grid does reads that same plain text, and reads on after it as if
    it stood alone, so that no comment has started and no token is left open. The plain text
    has balanced parentheses that never close below the start, no statement separator, no
    comment marker, no [#] at its start or after white space, and none of the words that would
    end the clause. *)
Theorem accepted_fragment_contained kind raw :
  gridExpressionIssue kind raw = None ->
  length raw <= 2048 /\ exists v, lexed raw v
  /\ (forall engine rest, lexes_alike engine raw = true -> follows rest ->
        plain_text engine (raw ++ rest) None = app v <$> plain_text engine rest None)
  /\ parens v 0 = Some 0 /\ cSEMI ∉ v /\ 0%N ∉ v /\ no_comment v /\ (forall a b, v <> a ++ js "*/" ++ b)
  /\ forall ws a t b, ws ∈ clause_words kind -> v = a ++ t ++ b -> phrase ws t -> ends_in_word a || starts_in_word b = true.
Proof.
  unfold gridExpressionIssue. destruct (Nat.ltb_spec 2048 (length raw)); [done|].
  destruct (grid_scan raw [] None 0) as [[[v q] d]|] eqn:E; [|done].
  destruct q as [q|]; [done|]. destruct (Nat.eqb_spec d 0) as [->|]; [|done]. cbn [negb].
  destruct (boundary v) eqn:Eb; [done|]. destruct (test (escape_re kind) v) eqn:Et; [done|].
  intros _. split; [done|]. apply grid_scan_spec in E as (v' & -> & Hl & Hp). cbn in *.
  pose proof (boundary_no_comment v' Eb) as Hn. exists v'. unfold boundary in Eb. bools. split_and!; try done.
  - intros engine rest Ha Hr. apply (lexed_plain engine false raw v' []); try done; [by apply lexes_alike_spec|by left].
  - by apply includes_char.
  - by apply includes_char.
  - intros a b. by apply (includes_false v' (js "*/")).
  - intros ws a t b Hws -> Hph. apply not_false_iff_true. intros [Ha Hb]%orb_false_iff.
    apply not_true_iff_false in Et. apply Et, test_spec. exists (length a), (length a + length t).
    split; [rewrite !length_app; lia|]. by apply (phrase_match kind ws).
Qed.

Lemma accepted_fragment_contained_witness :
  gridExpressionIssue gwhere (js "name = 'a;b' and (total > 5)") = None
  /\ length (js "name = 'a;b' and (total > 5)") <= 2048
  /\ plain_text postgres (js "name = 'a;b' and (total > 5)" ++ js ") LIMIT 1") None
     = Some (js "name =       and (total > 5)) LIMIT 1").
Proof.
  split; [vm_compute; reflexivity|].
  destruct (accepted_fragment_contained gwhere (js "name = 'a;b' and (total > 5)")) as (Hl & v & _ & Hv & _);
    [vm_compute; reflexivity|].
  split; [exact Hl|]. rewrite (Hv postgres (js ") LIMIT 1")); [|vm_compute; reflexivity|intros d k [= <- _]; split; discriminate].
  specialize (Hv postgres [] ltac:(vm_compute; reflexivity) ltac:(discriminate)). rewrite app_nil_r in Hv.
  assert (plain_text postgres (js "name = 'a;b' and (total > 5)") None = Some (js "name =       and (total > 5)")) as E by (vm_compute; reflexivity).
  rewrite E in Hv. change (app v <$> plain_text postgres [] None) with (Some (v ++ [])) in Hv. rewrite app_nil_r in Hv.
  assert (v = js "name =       and (total > 5)") as -> by congruence. vm_compute. reflexivity.
Defined.

(** The grid accepts texts in which other engines start a comment, which swallows the LIMIT
    that follows: a [#] after a name, an escaped quote, a dollar quote, a bracket. *)
Example accepted_comments :
  map (fun p => (gridExpressionIssue gorderBy (snd p), plain_text (fst p) (snd p ++ js " LIMIT 100") None))
    [(mysql, js "id#"); (mysql, js "'\'' -- '"); (postgres, js "a[1 -- ]")] = repeat (None, None) 3.
Proof. vm_compute. reflexivity. Qed.

(** a generated literal is one token for the engine's own scanner: started at its
    opening quote, in any context, the parameter scanner stops exactly at its end, for
    every value (quotes and backslashes included). *)
Theorem literal_is_one_token engine v pre rest :
  head rest <> Some cSQ ->
  skipQuoted (pre ++ sqlLiteral engine (Some v) ++ rest) (length pre) cSQ
    (bool_decide (engine = mysql))
  = length (pre ++ sqlLiteral engine (Some v)).
Proof.
  intros Hr. rewrite sqlLiteral_quoted.
  apply (skip_token (skip := fun sql i q => skipQuoted sql i q (bool_decide (engine = mysql))));
    [by left|done].
Qed.

Lemma literal_is_one_token_witness :
  skipQuoted (js "x = " ++ sqlLiteral mysql (Some (js "a\' or 1=1")) ++ js " and y") 4 cSQ true = 18.
Proof.
  etransitivity; [apply (literal_is_one_token mysql (js "a\' or 1=1") (js "x = ") (js " and y"));
    vm_compute; done|vm_compute; reflexivity].
Defined.

(** The equality conditions of a generated statement, one per column of [ks]. *)
Definition conditions_on (engine : Engine) (table : Table) (values : cells)
    (ks conds : list jsstr) : Prop :=
  Forall2 (fun k c => exists v, oget values k = Own v
    /\ c = quoteIdent engine k ++ match v with
           | None => js " IS NULL"
           | Some _ => js " = " ++ sqlValue engine (typeOf table k) v end) ks conds.

Lemma conditions_on_ok engine table values ks conds :
  res_map (fun k => comparison engine table k (oget values k)) ks = Ok conds ->
  conditions_on engine table values ks conds.
Proof.
  intros H%res_map_ok. eapply Forall2_impl; [done|]. intros k c Hc. unfold comparison in Hc.
  destruct (oget values k) as [v| |]; [|done|done]. exists v. split; [done|].
  cbn in Hc. simplify_eq. by destruct v.
Qed.

Lemma pk_conditions_own engine table pkValues :
  is_ok (pk_conditions engine table pkValues) = true.
Proof.
  unfold pk_conditions. assert (forall k, k ∈ mkeys pkValues -> exists v, oget pkValues k = Own v) as H.
  { intros k (v & Hv)%mget_keys. exists v. unfold oget. by rewrite Hv. }
  revert H. generalize (mkeys pkValues). intros ks H. induction ks as [|k ks IH]; [done|]. cbn.
  destruct (H k) as (v & Hv); [by left|]. unfold comparison at 1. rewrite Hv. cbn.
  destruct (res_map _ ks); [done|]. apply IH. intros; apply H. by right.
Qed.

Lemma optimistic_conditions_ok engine table pkValues orig changed more :
  optimistic_conditions engine table pkValues orig changed = Ok more ->
  match orig with
  | None => more = []
  | Some original => conditions_on engine table original
      (filterb (fun c => negb (oin pkValues c)) (optimisticColumns table original changed)) more
  end.
Proof. destruct orig as [o|]; cbn; [apply conditions_on_ok|]. by intros [= <-]. Qed.

(** a generated UPDATE or DELETE is never unrestricted. Without a primary key both
    refuse; otherwise the statement's WHERE is the conjunction of one condition per
    key column, in order and with the key's value, followed by the optimistic
    conditions on the original values of columns outside the key. *)
Theorem dml_always_keyed engine table pkValues orig :
  match buildDelete engine table pkValues orig with
  | Ok s => exists conds more, conds <> []
      /\ conditions_on engine table pkValues (mkeys pkValues) conds
      /\ match orig with
         | None => more = []
         | Some original => conditions_on engine table original
             (filterb (fun c => negb (oin pkValues c))
               (optimisticColumns table original None)) more end
      /\ s = js "DELETE FROM " ++ tableRef engine table ++ js " WHERE "
             ++ join (js " AND ") (conds ++ more)
  | Throw e => pkValues = [] -> e = DeleteWithoutPrimaryKey
  end
  /\ forall setValues, match buildUpdate engine table pkValues setValues orig with
  | Ok s => exists conds more assigned, conds <> [] /\ assigned <> []
      /\ conditions_on engine table pkValues (mkeys pkValues) conds
      /\ match orig with
         | None => more = []
         | Some original => conditions_on engine table original
             (filterb (fun c => negb (oin pkValues c))
               (optimisticColumns table original (Some (mkeys setValues)))) more end
      /\ s = js "UPDATE " ++ tableRef engine table ++ js " SET " ++ join (js ", ") assigned
             ++ js " WHERE " ++ join (js " AND ") (conds ++ more)
  | Throw e => pkValues = [] -> e = UpdateWithoutPrimaryKey
  end.
Proof.
  unfold buildDelete, buildUpdate. pose proof (pk_conditions_own engine table pkValues) as Hok.
  destruct (pk_conditions engine table pkValues) as [conds|] eqn:Ec; [|done].
  pose proof (conditions_on_ok _ _ _ _ _ Ec) as Hc. unfold require. cbn.
  destruct (decide (conds = [])) as [->|Hne].
  { by rewrite bool_decide_true. }
  assert (pkValues = [] -> False) as Hpk.
  { intros ->. by inversion Hc; subst. }
  rewrite bool_decide_false by done. cbn. split.
  - destruct (optimistic_conditions _ _ _ _ _) as [more|] eqn:Em; cbn; [|by intros ?%Hpk].
    apply optimistic_conditions_ok in Em. by exists conds, more.
  - intros setValues. destruct (assignments _ _ _) as [assigned|]; cbn; [|by intros ?%Hpk].
    destruct (decide (assigned = [])) as [->|Ha]; [by intros ?%Hpk|].
    rewrite bool_decide_false by done. cbn.
    destruct (optimistic_conditions _ _ _ _ _) as [more|] eqn:Em; cbn; [|by intros ?%Hpk].
    apply optimistic_conditions_ok in Em. by exists conds, more, assigned.
Qed.

(** ** Staged edits *)

(** One write per edited row, keyed by the row. *)
Definition edits (staged : list StagedWrite) : list CellEdit := omap sw_cellEdit staged.
(** [sql] updates the columns of [values], and only where every key column has the value that
    the row [original] has and the optimistic conditions hold. *)
Record keyed_update (engine : Engine) (table : Table) (original values : cells) (sql : jsstr) : Prop := {
  ku_sql : exists keys more assigned,
    Forall2 (fun c s => exists v, oget original (col_name c) = Own (Some v)
               /\ s = quoteIdent engine (col_name c) ++ js " = " ++ sqlValue engine (typeOf table (col_name c)) (Some v))
      (pkColumns table) keys
    /\ (exists ks, conditions_on engine table original ks more)
    /\ Forall2 (fun c s => exists v, mget values (col_name c) = Some v
                  /\ s = quoteIdent engine (col_name c) ++ js " = " ++ sqlValue engine (dataType c) v)
         (filterb (fun c => oin values (col_name c)) (columns table)) assigned
    /\ assigned <> []
    /\ sql = js "UPDATE " ++ tableRef engine table ++ js " SET " ++ join (js ", ") assigned
             ++ js " WHERE " ++ join (js " AND ") (keys ++ more) }.
Definition edit_key_ok (table : Table) (edit : CellEdit) : Prop :=
  pkColumns table <> []
  /\ Forall2 (fun c e => exists v, e = (col_name c, Own (Some v)) /\ oget (ce_original edit) (col_name c) = Own (Some v))
       (pkColumns table) (ce_key edit).
Definition edit_values_ok (table : Table) (edit : CellEdit) : Prop :=
  NoDup (mkeys (ce_values edit))
  /\ forall k v, mget (ce_values edit) k = Some v ->
       oget (ce_original edit) k <> Own v
       /\ exists c, c ∈ columns table /\ col_name c = k /\ pk c = false /\ (v = None -> nullable c = true).
Record staged_ok (engine : Engine) (table : Table) (staged : list StagedWrite) : Prop := {
  so_rows : NoDup (map ce_key (edits staged));
  so_write : forall w edit, w ∈ staged -> sw_cellEdit w = Some edit ->
    edit_key_ok table edit /\ edit_values_ok table edit /\ keyed_update engine table (ce_original edit) (ce_values edit) (sw_sql w) }.

Section staged.
Context (engine : Engine) (table : Table) (Hnames : NoDup (map col_name (columns table))).

Lemma pk_names : NoDup (map col_name (pkColumns table)).
Proof. by apply NoDup_filterb_fmap. Qed.
Lemma cellEditKey_eq original : cellEditKey table original = map (fun c => (col_name c, oget original (col_name c))) (pkColumns table).
Proof. unfold cellEditKey. apply mof_fresh. unfold mkeys. rewrite map_map. apply pk_names. Qed.

Lemma accepted_key original column value :
  edit_refused table (cellEditKey table original) column value = false ->
  is_ok (key_cells (cellEditKey table original)) = true ->
  edit_key_ok table (mkCellEdit (cellEditKey table original) original []).
Proof.
  unfold edit_refused. destruct (findb _ _) as [c|]; [|done]. intros H Hk. bools. split.
  { intros E. rewrite cellEditKey_eq, E in *. done. }
  cbn. rewrite cellEditKey_eq in *. clear -H0 Hk. induction (pkColumns table) as [|c l IH]; [constructor|].
  cbn in *. destruct (oget original (col_name c)) as [[v|]| |] eqn:E; try done. cbn in Hk.
  constructor; [by exists v|]. apply IH; [done|]. unfold key_cells. by destruct (res_map _ _).
Qed.

(** A row that counts as the same has the same key. *)
Lemma same_row_key w key edit :
  sw_cellEdit w = Some edit -> edit_key_ok table edit -> mkeys key = map col_name (pkColumns table) -> NoDup (mkeys key) ->
  sameCellEditRow w key = true <-> key = ce_key edit.
Proof.
  intros Hw [Hne Hok] Hkeys Hnd. unfold sameCellEditRow. rewrite Hw.
  assert (mkeys (ce_key edit) = map col_name (pkColumns table)) as Hek.
  { clear -Hok. unfold mkeys. induction Hok as [|c e l l' (v & -> & _) _ IH]; [done|]. cbn. by f_equal. }
  split.
  - intros H. bools. rewrite forallb_elem in *.
    assert (length key = length (ce_key edit)) as Hl by by apply Nat.eqb_eq.
    apply list_eq. intros i. destruct (key !! i) as [[k p]|] eqn:Ei.
    + destruct (lookup_lt_is_Some_2 (ce_key edit) i) as [[k' p'] Ei']; [rewrite <- Hl; by eapply lookup_lt_Some|].
      assert (k = k') as <-.
      { assert (mkeys key !! i = mkeys (ce_key edit) !! i) as E by by rewrite Hkeys, Hek.
        unfold mkeys in E. change (map fst ?l) with (fst <$> l) in E. rewrite !list_lookup_fmap, Ei, Ei' in E. by injection E. }
      rewrite Ei'. do 2 f_equal.
      assert (mget key k = Some p) as E1 by (apply elem_mget; [done|by eapply list_elem_of_lookup_2]).
      assert (mget (ce_key edit) k = Some p') as E2 by (apply elem_mget; [by rewrite Hek, <- Hkeys|by eapply list_elem_of_lookup_2]).
      assert (k ∈ mkeys key) as Hk by (apply mget_keys; by eexists).
      match goal with H : forall a, a ∈ mkeys key -> _ |- _ => specialize (H k Hk) end. bools. unfold key_at in *. by rewrite E1, E2 in *.
    + symmetry. apply lookup_ge_None. rewrite <- Hl. by apply lookup_ge_None.
  - intros ->. rewrite Nat.eqb_refl, andb_true_r. apply andb_true_iff. split.
    + apply Nat.ltb_lt. destruct (ce_key edit) as [|e l]; [|cbn; lia]. inversion Hok as [E|]. by destruct Hne.
    + apply forallb_elem. intros k _. by apply bool_decide_eq_true.
Qed.

Lemma key_cells_own original key cells_ :
  Forall2 (fun c e => exists v, e = (col_name c, Own (Some v)) /\ oget original (col_name c) = Own (Some v)) (pkColumns table) key ->
  key_cells key = Ok cells_ ->
  mkeys cells_ = map col_name (pkColumns table)
  /\ forall c, c ∈ pkColumns table -> exists v, oget cells_ (col_name c) = Own (Some v) /\ oget original (col_name c) = Own (Some v).
Proof.
  intros H E. assert (cells_ = map (fun c => (col_name c, match oget original (col_name c) with Own v => v | _ => None end)) (pkColumns table)) as ->.
  { revert cells_ E. induction H as [|c e l l' (v & -> & Hv) _ IH]; intros cells_ E; [by injection E as <-|].
    unfold key_cells in *. cbn in E. destruct (res_map _ l') as [k|]; [|done]. injection E as <-. cbn. rewrite Hv. f_equal. by apply IH. }
  split; [unfold mkeys; by rewrite map_map|]. intros c Hc.
  destruct (list_elem_of_lookup_1 _ _ Hc) as [i Hi]. destruct (Forall2_lookup_l _ _ _ _ _ H Hi) as (e & _ & v & _ & Hv).
  exists v. split; [|done]. unfold oget at 1. erewrite elem_mget; [done| |].
  - unfold mkeys. rewrite map_map. apply pk_names.
  - apply list_elem_of_fmap. exists c. by rewrite Hv.
Qed.

Lemma assignments_ok values assigned :
  assignments engine table values = Ok assigned ->
  Forall2 (fun c s => exists v, mget values (col_name c) = Some v
             /\ s = quoteIdent engine (col_name c) ++ js " = " ++ sqlValue engine (dataType c) v)
    (filterb (fun c => oin values (col_name c)) (columns table)) assigned.
Proof.
  intros H%res_map_ok. eapply Forall2_impl; [done|]. intros c s Hc. cbn in Hc. unfold oget in Hc.
  destruct (mget values (col_name c)) as [v|]; [|by case_decide]. exists v. split; [done|]. cbn in Hc. by simplify_eq.
Qed.

Lemma update_keyed key original values sql :
  edit_key_ok table (mkCellEdit key original []) ->
  (k ← key_cells key; buildUpdate engine table k values (Some original)) = Ok sql ->
  keyed_update engine table original values sql.
Proof.
  intros [Hne Hkey] E. cbn in Hkey. destruct (key_cells key) as [cells_|] eqn:Ek; [|done]. cbn in E.
  destruct (key_cells_own original key cells_ Hkey Ek) as [Hkeys Hown].
  unfold buildUpdate in E. destruct (pk_conditions engine table cells_) as [conds|] eqn:Ec; [|done]. unfold require in E. cbn in E.
  destruct (bool_decide (conds = [])); [done|]. cbn in E.
  destruct (assignments engine table values) as [assigned|] eqn:Ea; [|done]. cbn in E.
  destruct (bool_decide_reflect (assigned = [])) as [|Hset]; [done|]. cbn in E.
  destruct (res_map _ (filterb _ _)) as [more|] eqn:Em; [|done]. injection E as <-.
  split. exists conds, more, assigned. split; [|split; [eexists; by apply conditions_on_ok|split; [by apply assignments_ok|done]]].
  apply conditions_on_ok in Ec. unfold conditions_on in Ec. rewrite Hkeys in Ec. clear -Ec Hown.
  revert Hown Ec. generalize (pkColumns table) as l. intros l. revert conds. induction l as [|c l IH]; intros conds Hown Ec.
  - inversion Ec. constructor.
  - cbn in Ec. inversion Ec as [|? s ? conds' (v & Hv & ->) Hrest]; subst. destruct (Hown c ltac:(by left)) as (v' & Hv' & Ho).
    rewrite Hv' in Hv. injection Hv as <-. constructor; [by exists v'|]. apply IH; [|done]. intros c' Hc'. apply Hown. by right.
Qed.

Lemma findb_column column c : findb (fun c => col_name c ==s column) (columns table) = Some c -> c ∈ columns table /\ col_name c = column.
Proof. intros [H Hc]%findb_some. bools. by split. Qed.

(** The staged values after one more edit. *)
Lemma values_ok original vs column value key edit0 :
  (forall k v, mget vs k = Some v -> oget original k <> Own v
     /\ exists c, c ∈ columns table /\ col_name c = k /\ pk c = false /\ (v = None -> nullable c = true)) ->
  NoDup (mkeys vs) -> edit_refused table key column value = false -> ce_original edit0 = original ->
  ce_values edit0 = (if bool_decide (oget original column = Own value) then mdel (mset vs column value) column else mset vs column value) ->
  edit_values_ok table edit0.
Proof.
  intros Hvs Hnd Href Ho Hv. unfold edit_values_ok. rewrite Ho, Hv. split.
  { case_match; [apply mdel_NoDup|]; by apply mset_NoDup. }
  unfold edit_refused in Href. destruct (findb _ (columns table)) as [c|] eqn:Ef; [|done]. apply findb_column in Ef as [Hc Hcn].
  assert (pk c = false /\ (value = None -> nullable c = true)) as [Hpk Hnull].
  { bools. split; [done|]. intros ->. rewrite bool_decide_true, andb_true_r in * by done. by bools. }
  intros k v Hk. case_bool_decide as E.
  - rewrite mget_del in Hk. case_decide; [done|]. rewrite mget_set_ne in Hk by done. by apply Hvs.
  - destruct (decide (k = column)) as [->|Hne]; [|rewrite mget_set_ne in Hk by done; by apply Hvs].
    rewrite mget_set_eq in Hk. injection Hk as <-. split; [done|]. by exists c.
Qed.

Lemma edits_sublist l k : sublist l k -> sublist (edits l) (edits k).
Proof. induction 1 as [|w l k _ IH|w l k _ IH]; cbn; [constructor|destruct (sw_cellEdit w); [by constructor|done]|destruct (sw_cellEdit w); [by constructor|done]]. Qed.
Lemma fewer_ok staged staged' : sublist staged' staged -> staged_ok engine table staged -> staged_ok engine table staged'.
Proof.
  intros Hs [Hrows Hw]. split.
  - eapply sublist_NoDup; [exact Hrows|]. by apply (fmap_sublist ce_key), edits_sublist.
  - intros w edit Hin. apply Hw. by eapply elem_of_sublist.
Qed.
Lemma replace_keys staged i w edit new edit' :
  staged !! i = Some w -> sw_cellEdit w = Some edit -> sw_cellEdit new = Some edit' -> ce_key edit' = ce_key edit ->
  map ce_key (edits (<[i := new]> staged)) = map ce_key (edits staged).
Proof.
  revert i. induction staged as [|x l IH]; intros [|i] Hi Hw Hn Hk; try done; cbn in *.
  - injection Hi as ->. rewrite Hw, Hn. cbn. by rewrite Hk.
  - destruct (sw_cellEdit x); cbn; [f_equal|]; by apply IH.
Qed.
Lemma same_row_edit w key : sameCellEditRow w key = true -> exists edit, sw_cellEdit w = Some edit.
Proof. unfold sameCellEditRow. destruct (sw_cellEdit w); eauto. done. Qed.

Lemma stage_ok staged original column value fresh staged' :
  staged_ok engine table staged -> stageCellEdit staged engine table original column value fresh = Ok staged' ->
  staged_ok engine table staged'.
Proof.
  intros Hok. unfold stageCellEdit. set (key := cellEditKey table original).
  destruct (edit_refused table key column value) eqn:Href; [done|].
  assert (mkeys key = map col_name (pkColumns table)) as Hmk.
  { unfold key. rewrite cellEditKey_eq. unfold mkeys. by rewrite map_map. }
  assert (NoDup (mkeys key)) as Hnk by (rewrite Hmk; apply pk_names).
  destruct (findIndex _ staged) as [i|] eqn:Ei; cbn [mbind option_bind].
  - apply findIndex_some in Ei as (w & Hi & Hsame & _). rewrite Hi.
    destruct (same_row_edit w key Hsame) as [edit Hedit]. cbn [mbind option_bind]. rewrite Hedit.
    destruct (so_write _ _ _ Hok w edit ltac:(by eapply list_elem_of_lookup_2) Hedit) as (Hkey & [Hnd Hvs] & _).
    apply (same_row_key w key edit Hedit Hkey Hmk Hnk) in Hsame as Hk.
    set (values := if bool_decide _ then _ else _).
    destruct values as [|p l] eqn:Ev; [intros [= <-]; eapply fewer_ok; [apply sublist_delete|done]|].
    destruct (_ ≫= _) as [sql|] eqn:Eu; [|done]. intros [= <-]. set (new := mkStagedWrite _ _ _ _). split.
    + rewrite (replace_keys staged i w edit new (mkCellEdit key (ce_original edit) (p :: l))); [apply Hok|done..].
    + intros w' e' Hin He'. apply list_elem_of_lookup_1 in Hin as [j Hj].
      apply list_lookup_insert_Some in Hj as [(_ & <- & _)|[_ Hj]]; [|apply (so_write _ _ _ Hok w'); [by eapply list_elem_of_lookup_2|done]].
      cbn in He'. injection He' as <-. cbn [ce_original ce_values].
      assert (edit_key_ok table (mkCellEdit key (ce_original edit) [])) as Hk0 by (destruct Hkey as [Hne Hf]; split; [done|]; cbn; by rewrite Hk).
      split; [exact Hk0|]. split; [|by eapply update_keyed].
      by eapply (values_ok (ce_original edit) (ce_values edit) column value key); [..|symmetry; exact Ev].
  - set (values := if bool_decide _ then _ else _).
    destruct values as [|p l] eqn:Ev; [by intros [= <-]|].
    destruct (_ ≫= _) as [sql|] eqn:Eu; [|done]. intros [= <-].
    assert (edit_key_ok table (mkCellEdit key original [])) as Hk0.
    { eapply accepted_key; [done|]. fold key. by destruct (key_cells key). }
    split.
    + unfold edits. rewrite omap_app, map_app. apply NoDup_app. split; [apply Hok|]. split; [|apply NoDup_singleton].
      intros k (e & -> & (w & Hw & He)%list_elem_of_omap)%list_elem_of_fmap Hke%list_elem_of_singleton. cbn in Hke.
      pose proof (proj1 (findIndex_from_none _ _ _) Ei) as Hfree. specialize (Hfree w Hw). cbn in Hfree. apply not_true_iff_false in Hfree. apply Hfree.
      destruct (so_write _ _ _ Hok w e Hw He) as [Hkey _]. by apply (same_row_key w key e).
    + intros w' e' [Hin| ->%list_elem_of_singleton]%elem_of_app He'; [by apply (so_write _ _ _ Hok w')|].
      cbn in He'. injection He' as <-. cbn [ce_original ce_values]. split; [exact Hk0|]. split; [|by eapply update_keyed].
      eapply (values_ok original [] column value key); [done|constructor|done|done|symmetry; exact Ev].
Qed.
End staged.


Definition demo_grid : Table :=
  mkTable None None (js "seat") (js "table")
    [mkColumn (js "row") (js "int") false true; mkColumn (js "no") (js "int") false true; mkColumn (js "name") (js "text") true false] [] [].
Definition demo_row (name : jsstr) : cells := [(js "row", Some (js "1")); (js "no", Some (js "2")); (js "name", Some name)].
Definition demo_edits : list staged_event :=
  [se_edit (demo_row (js "a")) (js "name") (Some (js "b")) (js "w1"); se_edit (demo_row (js "a")) (js "name") (Some (js "c")) (js "w2");
   se_edit (demo_row (js "a")) (js "no") (Some (js "3")) (js "w3")].

(** the value-filter codec round-trips: decoding an encoded selection gives the
    selection back, whatever the values contain; only the empty selection, whose
    encoding is the empty filter, decodes to no selection. *)
Theorem value_filter_roundtrip values :
  decodeGridValueFilter (encodeGridValueFilter values)
  = if bool_decide (values = []) then None else Some values.
Proof.
  destruct values as [|v vs]; [done|]. rewrite bool_decide_false by done.
  unfold encodeGridValueFilter, decodeGridValueFilter, startsWith.
  rewrite prefixb_app, drop_app_length. apply parse_json_array.
Qed.

(** a defect of the record-based filters: when a table has a column named like a
    member of [Object.prototype] and no filter is set on it, the page query of that
    table always throws a [TypeError]. *)
Theorem inherited_column_name_breaks_page engine table opts c :
  c ∈ columns table -> col_name c ∈ object_prototype_names ->
  col_name c ∉ mkeys (filters opts) ->
  buildPageQuery engine table opts = Throw TypeError.
Proof.
  intros Hc Hname Hkey. unfold buildPageQuery, buildWhere.
  assert (filter_text (filters opts) (col_name c) = Throw TypeError) as Hf.
  { unfold filter_text, oget. apply mget_none in Hkey. rewrite Hkey. by rewrite decide_True. }
  assert (res_map (fun col => raw ← filter_text (filters opts) (col_name col);
                              Ok (filterClause engine col raw)) (columns table)
          = Throw TypeError) as ->; [|done].
  induction (columns table) as [|d l IH]; [by apply elem_of_nil in Hc|]. cbn.
  apply elem_of_cons in Hc as [->|Hc]; [by rewrite Hf|].
  destruct (filter_text (filters opts) (col_name d)) as [raw|e] eqn:E; cbn.
  - by rewrite IH.
  - unfold filter_text in E. by case_match; simplify_eq.
Qed.

Lemma inherited_column_name_breaks_page_witness :
  buildPageQuery postgres
    (mkTable None None (js "t") (js "table")
       [mkColumn (js "constructor") (js "text") true false] [] [])
    (mkPageOpts [] [] [] None 50 0) = Throw TypeError.
Proof.
  apply (inherited_column_name_breaks_page _ _ _
           (mkColumn (js "constructor") (js "text") true false)).
  - by left.
  - apply (bool_decide_unpack _). vm_compute. exact I.
  - apply not_elem_of_nil.
Defined.
