(* ===== verification/JsValue.v ===== *)
(** * JavaScript values of the wire format

    Events and tool payloads reach the front end as JSON trees and the sources keep
    parts of them as [Record<string, unknown>]. This file models such a value, the
    reads the sources make of it (a string property, the spread of two records) and
    [JSON.stringify], whose only use in the modelled code is the length of its result.
    A BigInt, which is not JSON, is kept because it makes [JSON.stringify] throw. *)

From S2P Require Import Prelude JsString JsMap JsonText.
From Stdlib Require String.
Import Stdlib.Strings.String.StringSyntax.

(** [VNum] carries the text [JSON.stringify] gives the number. *)
Inductive value : Type :=
| VUndefined
| VNull
| VBool (b : bool)
| VNum (text : jsstr)
| VBigInt (n : Z)
| VStr (s : jsstr)
| VArr (items : list value)
| VObj (fields : list (jsstr * value)).

(** [Record<string, unknown>] *)
Notation js_record := (list (jsstr * value)).

(** [typeof r\[k\] === "string" ? r\[k\] : null] *)
Definition recordString (r : js_record) (k : jsstr) : option jsstr :=
  match oget r k with Own (VStr s) => Some s | _ => None end.

(** [{ ...a, ...b }] *)
Definition spread (a b : js_record) : js_record := foldl (fun m e => mset m e.1 e.2) a b.

(** ** [JSON.stringify] *)

(** [Ok None] is the result [undefined]; a BigInt anywhere throws. *)
Section stringify.

Fixpoint stringify (v : value) : res unit (option jsstr) :=
  match v with
  | VUndefined => Ok None
  | VNull => Ok (Some (js "null"))
  | VBool true => Ok (Some (js "true"))
  | VBool false => Ok (Some (js "false"))
  | VNum t => Ok (Some t)
  | VBigInt _ => Throw tt
  | VStr s => Ok (Some (json_string s))
  | VArr items =>
    texts ← (fix go (l : list value) : res unit (list jsstr) :=
      match l with
      | [] => Ok []
      | v :: l =>
        t ← stringify v; ts ← go l;
        Ok (default (js "null") t :: ts)
      end) items;
    Ok (Some (cLB :: join [cCOMMA] texts ++ [cRB]))
  | VObj fields =>
    texts ← (fix go (l : list (jsstr * value)) : res unit (list jsstr) :=
      match l with
      | [] => Ok []
      | (k, v) :: l =>
        t ← stringify v; ts ← go l;
        Ok match t with
           | Some t => (json_string k ++ cCOLON :: t) :: ts
           | None => ts
           end
      end) fields;
    Ok (Some (cLBRACE :: join [cCOMMA] texts ++ [cRBRACE]))
  end.

End stringify.

Definition opt_value (o : option jsstr) : value :=
  match o with Some s => VStr s | None => VNull end.
(** An optional property: absent when [None]. *)
Definition opt_field (k : jsstr) (o : option jsstr) : js_record :=
  match o with Some s => [(k, VStr s)] | None => [] end.
Definition num_value (z : Z) : value := VNum (show_Z z).

Example stringify_example :
  stringify (VObj [(js "id", VNum (js "7")); (js "skip", VUndefined);
                   (js "tags", VArr [VStr (js "a"); VNull; VUndefined])])
  = Ok (Some (js "{" ++ json_string (js "id") ++ js ":7," ++ json_string (js "tags")
              ++ js ":[" ++ json_string (js "a") ++ js ",null,null]}")).
Proof. reflexivity. Qed.

Lemma spread_get a b k :
  NoDup (mkeys b) ->
  mget (spread a b) k = match mget b k with Some v => Some v | None => mget a k end.
Proof.
  unfold spread. revert a. induction b as [|[k' v] b IH]; intros a Hd; [done|].
  cbn in Hd. apply NoDup_cons in Hd as [Hn Hd]. cbn. rewrite IH by done.
  case_decide as Hk; subst.
  - apply mget_none in Hn. by rewrite Hn, mget_set_eq.
  - by rewrite mget_set_ne.
Qed.

(** ** Equal JSON texts of equal trees

    [JSON.stringify] of a tree of strings, booleans, nulls and arrays determines the tree:
    code that compares two such texts compares the trees. *)

(** A tree without numbers, objects and absent values. *)
Fixpoint plain_json (v : value) : bool :=
  match v with
  | VNull | VBool _ | VStr _ => true
  | VArr items => forallb plain_json items
  | _ => false
  end.

Fixpoint json_text (v : value) : jsstr :=
  match v with
  | VBool true => js "true"
  | VBool false => js "false"
  | VStr s => json_string s
  | VArr items => cLB :: join [cCOMMA] (map json_text items) ++ [cRB]
  | _ => js "null"
  end.

Lemma stringify_plain v : plain_json v = true -> stringify v = Ok (Some (json_text v)).
Proof.
  revert v. fix IH 1. intros [| |[]|n|n|s|items|fields] Hv; try done.
  cbn [stringify json_text]. cbn [plain_json] in Hv.
  match goal with |- mbind ?k ?texts = _ =>
    enough (texts = Ok (map json_text items)) as E by exact (f_equal (mbind k) E) end.
  induction items as [|w items IHl]; [done|]. cbn [forallb] in Hv. apply andb_true_iff in Hv as [Hw Hl].
  specialize (IHl Hl). cbn in IHl |- *. rewrite (IH w Hw). cbn. rewrite IHl. done.
Qed.

(** The first unit of a text tells the kind of the tree. *)
Lemma json_text_head v : plain_json v = true -> exists c r, json_text v = c :: r /\ c <> cRB /\ c <> cCOMMA.
Proof. destruct v as [| |[]|n|n|s|items|fields]; intros Hv; try done; eexists _, _; (split; [reflexivity|done]). Qed.

Lemma json_string_prefix s t a b : json_string s ++ a = json_string t ++ b -> s = t /\ a = b.
Proof.
  unfold json_string. cbn [app]. rewrite <- !app_assoc. cbn [app]. intros E. apply (inj (cons cDQ)) in E.
  pose proof (read_json_body s a) as Hs. rewrite E, read_json_body in Hs. by simplify_eq.
Qed.

(** The items of an array and what follows it are read off its text. *)
Lemma json_items_prefix items items' a b :
  (forall v, v ∈ items -> forall w a b, plain_json v = true -> plain_json w = true ->
     json_text v ++ a = json_text w ++ b -> v = w /\ a = b) ->
  forallb plain_json items = true -> forallb plain_json items' = true ->
  join [cCOMMA] (map json_text items) ++ cRB :: a = join [cCOMMA] (map json_text items') ++ cRB :: b ->
  items = items' /\ a = b.
Proof.
  revert items'. induction items as [|v items IH]; intros [|w items'] Hv Hp Hp' E; cbn [forallb] in *.
  - cbn in E. by simplify_eq.
  - bools. destruct (json_text_head w) as (c & r & Ec & Hc & _); [done|].
    cbn in E. rewrite Ec in E. destruct (map json_text items'); cbn in E; congruence.
  - bools. destruct (json_text_head v) as (c & r & Ec & Hc & _); [done|].
    cbn in E. rewrite Ec in E. destruct (map json_text items); cbn in E; congruence.
  - bools. assert (forall l x, join [cCOMMA] (map json_text l) ++ cRB :: x = (match l with
      | [] => [] | u :: l' => json_text u ++ (match l' with [] => [] | _ => cCOMMA :: join [cCOMMA] (map json_text l') end)
      end) ++ cRB :: x) as Hj.
    { intros [|u [|u' l]] x; [done|by cbn; rewrite app_nil_r|]. cbn [map]. by rewrite join_cons. }
    rewrite !Hj in E. rewrite <- !app_assoc in E. apply Hv in E as [-> E]; [|by left|done|done].
    destruct items as [|v2 items], items' as [|w2 items']; try (by apply (f_equal head) in E).
    { cbn in E. by simplify_eq. }
    cbn [app] in E. apply (inj (cons cCOMMA)) in E. apply IH in E as [-> ->]; [done| |done|done].
    intros u Hu. apply Hv. by right.
Qed.

(** The text of a tree, followed by anything, determines the tree. *)
Lemma json_text_prefix v w a b :
  plain_json v = true -> plain_json w = true -> json_text v ++ a = json_text w ++ b -> v = w /\ a = b.
Proof.
  revert v w a b. fix IH 1. intros v w a b Hv Hw E.
  destruct v as [| |[]|n|n|s|items|fields]; try done;
    destruct w as [| |[]|n'|n'|s'|items'|fields']; try done; cbn [json_text] in E;
    try (by cbn in E; simplify_eq).
  - by apply json_string_prefix in E as [-> ->].
  - cbn [app] in E. apply (inj (cons cLB)) in E. rewrite <- !app_assoc in E. cbn [app] in E.
    apply json_items_prefix in E as [-> ->]; try done.
    clear E Hw. cbn [plain_json] in Hv. induction items as [|u items IHl]; intros v Hin.
    + by apply elem_of_nil in Hin.
    + apply elem_of_cons in Hin as [->|Hin]; [apply IH|]. apply IHl; [|done]. cbn in Hv. by bools.
Qed.

(** Comparing the texts is comparing the trees. *)
Lemma stringify_inj v w :
  plain_json v = true -> plain_json w = true -> stringify v = stringify w -> v = w.
Proof.
  intros Hv Hw. rewrite !stringify_plain by done. intros E. simplify_eq.
  eapply (json_text_prefix v w [] []); [done..|]. by rewrite !app_nil_r.
Qed.
