(* ===== verification/Window.v ===== *)
(** * Sliding windows over append-only arrays

    [src/features/agents/transcript.ts] keeps its recent events and its transcript
    items the same way: an array that only grows at its end, the size of each entry
    in a parallel array, the index of the first live entry and the running size of
    the live part. Entries are dropped by advancing the index, and the dead prefix is
    cut off later in one step. This file has that representation, its four operations
    and the abstract window it stands for: the list of live entries, [wlive]. *)

From S2P Require Import Prelude.
Local Open Scope Z_scope.

Record window (A : Type) := mkWindow {
  wxs : list A; wsizes : list Z; wstart : nat; wbytes : Z }.
Arguments mkWindow {A} _ _ _ _.
Arguments wxs {A} _.
Arguments wsizes {A} _.
Arguments wstart {A} _.
Arguments wbytes {A} _.

Definition COMPACT_PREFIX_AT : nat := 256.

Fixpoint sum_Z (l : list Z) : Z := match l with [] => 0 | z :: l => z + sum_Z l end.

Section window.
Context {A : Type}.
Implicit Types (w : window A) (x : A) (l : list A).

Definition empty_window : window A := mkWindow [] [] 0 0.

(** The live entries: [xs.slice(start)]. *)
Definition wlive w : list A := drop (wstart w) (wxs w).
Arguments wlive : simpl never.
Definition wlive_length w : Z := Z.of_nat (length (wxs w) - wstart w).

(** [xs.push(x); sizes.push(b); bytes += b] *)
Definition wpush x (b : Z) w : window A :=
  mkWindow (wxs w ++ [x]) (wsizes w ++ [b]) (wstart w) (wbytes w + b).

(** [bytes -= sizes[start] ?? 0; start += 1] *)
Definition wpop w : window A :=
  mkWindow (wxs w) (wsizes w) (S (wstart w)) (wbytes w - default 0 (wsizes w !! wstart w)).

(** Whether the dead prefix is cut off now. *)
Definition wcompacts w : bool :=
  (COMPACT_PREFIX_AT <=? wstart w)%nat && (length (wxs w) <=? wstart w * 2)%nat.

Definition wcut w : window A :=
  mkWindow (drop (wstart w) (wxs w)) (drop (wstart w) (wsizes w)) 0 (wbytes w).

(** [xs[i] = x; sizes[i] = b; bytes += b - previous] for an index in range. *)
Definition wreplace (i : nat) x (b : Z) w : window A :=
  mkWindow (<[i := x]> (wxs w)) (<[i := b]> (wsizes w)) (wstart w)
    (wbytes w + (b - default 0 (wsizes w !! i))).

(** ** The abstract window *)

(** Drops the oldest entries while there are more than [keep] of them and the
    window is over its limits. *)
Fixpoint shrink (keep : nat) (over : list A -> bool) l : list A :=
  match l with
  | [] => []
  | _ :: l' => if (keep <? length l)%nat && over l then shrink keep over l' else l
  end.

(** ** The representation invariant *)

Context (size : A -> Z).

Definition win_wf w : Prop :=
  wsizes w = map size (wxs w) /\ (wstart w <= length (wxs w))%nat
  /\ wbytes w = sum_Z (map size (wlive w)).

Lemma sum_Z_app (k l : list Z) : sum_Z (k ++ l) = sum_Z k + sum_Z l.
Proof. induction k as [|z k IH]; cbn; [done|]. lia. Qed.

Lemma sum_Z_insert (l : list Z) i (x y : Z) :
  l !! i = Some y -> sum_Z (<[i := x]> l) = sum_Z l + (x - y).
Proof.
  revert i. induction l as [|z l IH]; intros [|i] H; simplify_eq/=; [lia|].
  specialize (IH _ H). lia.
Qed.

Lemma sum_Z_nonneg (l : list Z) : Forall (fun z => 0 <= z) l -> 0 <= sum_Z l.
Proof. induction 1; cbn; [lia|]. lia. Qed.

Lemma sum_Z_elem (l : list Z) z : Forall (fun z => 0 <= z) l -> z ∈ l -> z <= sum_Z l.
Proof.
  intros H. revert z. induction H as [|y l Hy Hl IH]; intros z; [by intros ?%elem_of_nil|].
  pose proof (sum_Z_nonneg l Hl). cbn.
  intros [->|Hz]%elem_of_cons; [lia|]. specialize (IH _ Hz). lia.
Qed.

Lemma empty_wf : win_wf empty_window.
Proof. by repeat split. Qed.

Lemma wlive_length_eq w : wlive_length w = Z.of_nat (length (wlive w)).
Proof. unfold wlive_length, wlive. by rewrite length_drop. Qed.

Lemma wpush_live x b w : win_wf w -> wlive (wpush x b w) = wlive w ++ [x].
Proof. intros (_ & Hle & _). unfold wlive. cbn. by rewrite drop_app_le. Qed.

Lemma wpush_wf x w : win_wf w -> win_wf (wpush x (size x) w).
Proof.
  intros Hwf. pose proof (wpush_live x (size x) w Hwf) as Hl.
  destruct Hwf as (Hs & Hle & Hb). repeat split; cbn.
  - by rewrite Hs, map_app.
  - rewrite length_app. lia.
  - rewrite Hl, map_app, sum_Z_app, Hb. cbn. lia.
Qed.

Lemma wpop_live x l w : wlive w = x :: l -> wlive (wpop w) = l.
Proof.
  unfold wlive. cbn. intros H. change l with (drop 1 (x :: l)). rewrite <- H, drop_drop.
  f_equal. lia.
Qed.

Lemma wlive_cons_lookup x l w : wlive w = x :: l -> wxs w !! wstart w = Some x.
Proof.
  unfold wlive. intros H. rewrite <- (Nat.add_0_r (wstart w)), <- lookup_drop. by rewrite H.
Qed.

Lemma wpop_wf x l w : win_wf w -> wlive w = x :: l -> win_wf (wpop w).
Proof.
  intros (Hs & Hle & Hb) Hl. pose proof (wlive_cons_lookup _ _ _ Hl) as Hx.
  repeat split; cbn; [done|by apply lookup_lt_Some in Hx|].
  rewrite (wpop_live x l) by done. rewrite Hs, list_lookup_fmap, Hx. cbn.
  rewrite Hb, Hl. cbn. lia.
Qed.

Lemma wcut_live w : wlive (wcut w) = wlive w.
Proof. unfold wlive. cbn. by rewrite drop_0. Qed.

Lemma wcut_wf w : win_wf w -> win_wf (wcut w).
Proof.
  intros (Hs & Hle & Hb). repeat split; cbn; [|lia|by rewrite wcut_live].
  by rewrite Hs, skipn_map.
Qed.

Lemma wreplace_live i x b w :
  (wstart w <= i)%nat -> wlive (wreplace i x b w) = <[(i - wstart w)%nat := x]> (wlive w).
Proof. intros H. unfold wlive. cbn. by rewrite drop_insert_ge. Qed.

Lemma wreplace_wf i x y w :
  win_wf w -> (wstart w <= i)%nat -> wxs w !! i = Some y -> win_wf (wreplace i x (size x) w).
Proof.
  intros (Hs & Hle & Hb) Hi Hy. repeat split.
  - cbn. by rewrite Hs, list_fmap_insert.
  - cbn. by rewrite length_insert.
  - rewrite wreplace_live by done. cbn. rewrite Hs, list_lookup_fmap, Hy. cbn.
    rewrite list_fmap_insert, (sum_Z_insert _ _ _ (size y)), Hb; [done|].
    unfold wlive. rewrite list_lookup_fmap, lookup_drop.
    replace (wstart w + (i - wstart w))%nat with i by lia. by rewrite Hy.
Qed.

(** A window at rest has no prefix to cut off, so it holds at most twice its live
    entries or a short dead prefix. *)
Lemma wcut_rest w : win_wf w -> wcompacts (if wcompacts w then wcut w else w) = false.
Proof. intros _. destruct (wcompacts w) eqn:E; done. Qed.

Lemma rest_bound w :
  win_wf w -> wcompacts w = false ->
  (length (wxs w) <= Nat.max COMPACT_PREFIX_AT (length (wlive w)) + length (wlive w))%nat.
Proof.
  intros (_ & Hle & _) H. unfold wlive. rewrite length_drop. unfold wcompacts in H.
  apply andb_false_iff in H as [H|H]; apply Nat.leb_gt in H; lia.
Qed.

(** ** Lemmas on the abstract window *)

Lemma shrink_suffix keep over l : exists k, l = k ++ shrink keep over l.
Proof.
  induction l as [|x l [k IH]]; [by exists []|]. cbn [shrink].
  case_match; [|by exists []]. exists (x :: k). cbn. by f_equal.
Qed.

Lemma shrink_limit keep over l :
  (length (shrink keep over l) <= keep)%nat \/ over (shrink keep over l) = false.
Proof.
  induction l as [|x l IH]; [left; cbn; lia|]. cbn [shrink].
  destruct ((keep <? length (x :: l))%nat && over (x :: l)) eqn:E; [done|].
  apply andb_false_iff in E as [E|E]; [|by right].
  left. apply Nat.ltb_ge in E. done.
Qed.

Lemma shrink_id keep over l : over l = false -> shrink keep over l = l.
Proof. intros H. destruct l; [done|]. cbn [shrink]. by rewrite H, andb_false_r. Qed.

Lemma shrink_keeps keep over l :
  (keep <= length l)%nat -> (keep <= length (shrink keep over l))%nat.
Proof.
  induction l as [|x l IH]; intros H; [done|]. cbn [shrink].
  destruct (_ && _) eqn:E; [|done]. apply andb_true_iff in E as [E _].
  apply Nat.ltb_lt in E. apply IH. cbn in E. lia.
Qed.

End window.

Arguments wlive {A} w : simpl never.

#[export] Hint Resolve empty_wf wpush_wf wcut_wf : dope.
