(* ===== verification/Transcript.v ===== *)
(** * The bounded transcript of an agent conversation

    Models [src/features/agents/transcript.ts] and the event types of
    [src/features/agents/domain.ts]. The fields of the source's projection are grouped
    in two windows (file Window): the recent events with the set of their sequences,
    and the transcript items with the index of tool calls and the truncation flag.
    The source mutates one projection in place and returns it; here every operation
    returns the next projection. The [chunks] array that an item shares with the
    version it replaces is reachable from the newer one only, so it is a value. *)

From S2P Require Import Prelude JsString JsMap JsValue Window.
From Stdlib Require String.
Import Stdlib.Strings.String.StringSyntax.
Local Open Scope Z_scope.

(** ** Events *)

Inductive AcpSessionLifecycle := starting | ready | running | waitingPermission | failed | closed.
#[export] Instance AcpSessionLifecycle_eq_dec : EqDecision AcpSessionLifecycle.
Proof. solve_decision. Defined.

Record AcpSessionConfigSelectOption := mkSelectOption {
  so_value : jsstr; so_name : jsstr; so_description : option jsstr }.
Inductive AcpSessionConfigEntry :=
| SelectOption (o : AcpSessionConfigSelectOption)
| SelectGroup (group name : jsstr) (options : list AcpSessionConfigSelectOption).

Inductive current_value := CurText (s : jsstr) | CurBool (b : bool).

Record AcpSessionConfigOption := mkConfigOption {
  co_id : jsstr; co_name : jsstr; co_description : option jsstr;
  category : option jsstr; co_type : jsstr; currentValue : current_value;
  co_options : option (list AcpSessionConfigEntry) }.

Record AcpPermissionOption := mkPermissionOption {
  po_id : jsstr; po_name : jsstr; po_kind : jsstr }.

(** The union of [AcpSessionEvent]. A [configOptions] that is not an array is [None]. *)
Inductive event_body :=
| userMessage (text : jsstr) (attachments : list jsstr)
| sessionUpdate (update : js_record)
| sessionConfiguration (configOptions : option (list AcpSessionConfigOption))
| permissionRequest (requestId : jsstr) (toolCall : js_record)
    (options : list AcpPermissionOption)
| permissionResponse (requestId : jsstr) (optionId : option jsstr)
| turnEnd (stopReason : jsstr)
| status (lifecycle : AcpSessionLifecycle)
| error (message : jsstr).

Record AcpSessionEvent := mkEvent {
  sessionId : jsstr; sequence : Z; createdAt : jsstr; body : event_body }.

(** *** Events as JSON values *)

Definition lifecycle_text (l : AcpSessionLifecycle) : jsstr :=
  match l with
  | starting => js "starting" | ready => js "ready" | running => js "running"
  | waitingPermission => js "waitingPermission" | failed => js "failed" | closed => js "closed"
  end.

Definition strings_value (l : list jsstr) : value := VArr (map VStr l).

Definition select_value (o : AcpSessionConfigSelectOption) : value :=
  VObj ([(js "value", VStr (so_value o)); (js "name", VStr (so_name o))]
        ++ opt_field (js "description") (so_description o)).
Definition entry_value (e : AcpSessionConfigEntry) : value :=
  match e with
  | SelectOption o => select_value o
  | SelectGroup g n os =>
    VObj [(js "group", VStr g); (js "name", VStr n);
          (js "options", VArr (map select_value os))]
  end.
Definition config_value (o : AcpSessionConfigOption) : value :=
  VObj ([(js "id", VStr (co_id o)); (js "name", VStr (co_name o))]
        ++ opt_field (js "description") (co_description o)
        ++ opt_field (js "category") (category o)
        ++ [(js "type", VStr (co_type o));
            (js "currentValue", match currentValue o with
                                | CurText s => VStr s | CurBool b => VBool b end)]
        ++ match co_options o with
           | Some es => [(js "options", VArr (map entry_value es))] | None => [] end).
Definition permission_option_value (o : AcpPermissionOption) : value :=
  VObj [(js "id", VStr (po_id o)); (js "name", VStr (po_name o)); (js "kind", VStr (po_kind o))].

Definition typed (t : jsstr) (fields : js_record) : js_record := (js "type", VStr t) :: fields.
Definition body_fields (b : event_body) : js_record :=
  match b with
  | userMessage t a => typed (js "userMessage") [(js "text", VStr t); (js "attachments", strings_value a)]
  | sessionUpdate u => typed (js "sessionUpdate") [(js "update", VObj u)]
  | sessionConfiguration o => typed (js "sessionConfiguration")
      [(js "configOptions", match o with Some l => VArr (map config_value l) | None => VNull end)]
  | permissionRequest r tc os => typed (js "permissionRequest")
      [(js "requestId", VStr r); (js "toolCall", VObj tc);
       (js "options", VArr (map permission_option_value os))]
  | permissionResponse r o => typed (js "permissionResponse")
      [(js "requestId", VStr r); (js "optionId", opt_value o)]
  | turnEnd s => typed (js "turnEnd") [(js "stopReason", VStr s)]
  | status l => typed (js "status") [(js "lifecycle", VStr (lifecycle_text l))]
  | error m => typed (js "error") [(js "message", VStr m)]
  end.
Definition event_value (e : AcpSessionEvent) : value :=
  VObj ([(js "sessionId", VStr (sessionId e)); (js "sequence", num_value (sequence e));
         (js "createdAt", VStr (createdAt e))] ++ body_fields (body e)).

(** ** Transcript items *)

Inductive text_kind := agent | thought.
#[export] Instance text_kind_eq_dec : EqDecision text_kind.
Proof. solve_decision. Defined.

Inductive item_body :=
| IUser (text : jsstr) (attachments : list jsstr) (messageId : option jsstr)
| IText (kind : text_kind) (messageId : option jsstr) (chunks : list jsstr)
    (activityText : jsstr)
| ITool (toolCallId : jsstr) (data : js_record)
| IPermission (event : AcpSessionEvent)
| IPlan (data : js_record)
| IError (message : jsstr)
| ITurnEnd (stopReason : jsstr).

Record AcpTranscriptItem := mkItem { key : jsstr; item_revision : nat; item : item_body }.

Definition bump (i : AcpTranscriptItem) (b : item_body) : AcpTranscriptItem :=
  mkItem (key i) (S (item_revision i)) b.

Definition is_user (i : AcpTranscriptItem) : bool :=
  match item i with IUser _ _ _ => true | _ => false end.
Definition is_turn_end (i : AcpTranscriptItem) : bool :=
  match item i with ITurnEnd _ => true | _ => false end.
Definition is_text (i : AcpTranscriptItem) : bool :=
  match item i with IText _ _ _ _ => true | _ => false end.
Definition tool_id (i : AcpTranscriptItem) : option jsstr :=
  match item i with ITool id _ => Some id | _ => None end.

(** The index the [forEach] leaves behind, -1 when no item satisfies [p]. *)
Definition lastIndex (p : AcpTranscriptItem -> bool) (items : list AcpTranscriptItem) : Z :=
  snd (foldl (fun '(index, found) i => (index + 1, if p i then index else found))
         (0, -1) items).
Definition closedBeforeTurnCompleted (lifecycle : AcpSessionLifecycle) (err : option jsstr)
    (items : list AcpTranscriptItem) : bool :=
  if negb (bool_decide (lifecycle = closed)) || negb (bool_decide (err = None)) then false
  else lastIndex is_turn_end items <? lastIndex is_user items.

(** *** Sizes *)

Definition utf16Bytes (s : jsstr) : Z := Z.of_nat (length s) * 2.

Definition contentText (v : value) : option jsstr :=
  match v with
  | VObj block =>
    if bool_decide (recordString block (js "type") = Some (js "text"))
    then recordString block (js "text") else None
  | _ => None
  end.
(** [contentText(update.content)] *)
Definition update_text (update : js_record) : option jsstr :=
  match oget update (js "content") with Own v => contentText v | _ => None end.

(** [try { utf16Bytes(JSON.stringify(v)) } catch { 512 * 1024 }] *)
Definition json_bytes (v : value) : Z :=
  match stringify v with Ok (Some t) => utf16Bytes t | _ => 512 * 1024 end.

Definition approximateEventBytes (event : AcpSessionEvent) : Z :=
  match body event with
  | sessionUpdate update =>
    match update_text update with
    | Some text => 128 + utf16Bytes text
    | None => json_bytes (event_value event)
    end
  | _ => json_bytes (event_value event)
  end.

Definition item_value (i : AcpTranscriptItem) (k : jsstr) (fields : js_record) : value :=
  VObj ([(js "kind", VStr k); (js "key", VStr (key i));
         (js "revision", num_value (Z.of_nat (item_revision i)))] ++ fields).

Definition transcriptItemBytes (i : AcpTranscriptItem) : Z :=
  match item i with
  | IUser text attachments _ => utf16Bytes text + sum_Z (map utf16Bytes attachments)
  | IText _ _ chunks _ => sum_Z (map utf16Bytes chunks)
  | IError message => utf16Bytes message
  | ITurnEnd stopReason => utf16Bytes stopReason
  | ITool id data => json_bytes (item_value i (js "tool")
                       [(js "toolCallId", VStr id); (js "data", VObj data)])
  | IPermission e => json_bytes (item_value i (js "permission") [(js "event", event_value e)])
  | IPlan data => json_bytes (item_value i (js "plan") [(js "data", VObj data)])
  end.

Definition MAX_RECENT_EVENTS : Z := 1024.
Definition MAX_RECENT_EVENT_BYTES : Z := 4 * 1024 * 1024.
Definition MAX_TRANSCRIPT_ITEMS : Z := 320.
Definition MAX_TRANSCRIPT_BYTES : Z := 4 * 1024 * 1024.
Definition COMPACTED_TEXT_BYTES : Z := 3 * 1024 * 1024.
Definition MAX_ACTIVITY_TEXT_CHARS : Z := 512.

(** [s.slice(-n)] *)
Definition slice_tail (s : jsstr) (n : Z) : jsstr := slice_last s (Z.to_nat n).

(** ** The projection *)

Record RecentWindow := mkRecent {
  recentEvents : window AcpSessionEvent; recentSequences : gset Z }.

Record Transcript := mkTranscript {
  items : window AcpTranscriptItem; toolIndex : list (jsstr * nat); replayTruncated : bool }.

Record AcpConversationProjection := mkProjection {
  revision : nat; lastSequence : Z; configOptions : list AcpSessionConfigOption;
  pendingPermissionId : option jsstr; recent : RecentWindow; transcript : Transcript }.

Definition emptyProjection (truncated : bool) : AcpConversationProjection :=
  mkProjection 0 0 [] None (mkRecent empty_window ∅) (mkTranscript empty_window [] truncated).

Definition visibleAcpTranscriptItems (p : option AcpConversationProjection)
    : list AcpTranscriptItem :=
  match p with Some p => wlive (items (transcript p)) | None => [] end.

(** *** Recent events *)

Definition recent_over (w : window AcpSessionEvent) : bool :=
  (MAX_RECENT_EVENTS <? wlive_length w) || (MAX_RECENT_EVENT_BYTES <? wbytes w).

(** The [while] loop of [appendRecentEvent]. *)
Fixpoint trim_recent (fuel : nat) (r : RecentWindow) : RecentWindow :=
  match fuel with
  | 0%nat => r
  | S fuel =>
    if recent_over (recentEvents r) then
      match wxs (recentEvents r) !! wstart (recentEvents r) with
      | None => r
      | Some removed =>
        trim_recent fuel (mkRecent (wpop (recentEvents r))
                            (recentSequences r ∖ {[ sequence removed ]}))
      end
    else r
  end.

Definition compact_recent (r : RecentWindow) : RecentWindow :=
  if wcompacts (recentEvents r) then mkRecent (wcut (recentEvents r)) (recentSequences r) else r.

Definition appendRecentEvent (r : RecentWindow) (event : AcpSessionEvent) : RecentWindow :=
  let w := wpush event (approximateEventBytes event) (recentEvents r) in
  compact_recent
    (trim_recent (length (wxs w)) (mkRecent w ({[ sequence event ]} ∪ recentSequences r))).

(** *** Transcript items *)

Definition transcript_over (w : window AcpTranscriptItem) : bool :=
  (MAX_TRANSCRIPT_ITEMS <? wlive_length w) || (MAX_TRANSCRIPT_BYTES <? wbytes w).

(** The [while] loop of [trimTranscript]. *)
Fixpoint trim_items (fuel : nat) (t : Transcript) : Transcript :=
  match fuel with
  | 0%nat => t
  | S fuel =>
    let w := items t in
    if (wstart w <? length (wxs w) - 1)%nat && transcript_over w then
      let index :=
        match wxs w !! wstart w ≫= tool_id with
        | Some id => mdel (toolIndex t) id
        | None => toolIndex t
        end in
      trim_items fuel (mkTranscript (wpop w) index true)
    else t
  end.

(** [items.forEach((item, index) => ... toolIndex.set(item.toolCallId, index))] after
    a [clear]. *)
Definition index_tools (l : list AcpTranscriptItem) : list (jsstr * nat) :=
  foldl (fun m '(index, i) => match tool_id i with Some id => mset m id index | None => m end)
    [] (imap pair l).

Definition compact_items (t : Transcript) : Transcript :=
  if wcompacts (items t) then
    let w := wcut (items t) in mkTranscript w (index_tools (wxs w)) (replayTruncated t)
  else t.

Definition trimTranscript (t : Transcript) : Transcript :=
  compact_items (trim_items (length (wxs (items t))) t).

(** [items.length - 1] *)
Definition tail_index (t : Transcript) : nat := (length (wxs (items t)) - 1)%nat.
(** [items\[items.length - 1\]] *)
Definition tail_item (t : Transcript) : option AcpTranscriptItem :=
  last (wxs (items t)).

Definition with_items (t : Transcript) (w : window AcpTranscriptItem) : Transcript :=
  mkTranscript w (toolIndex t) (replayTruncated t).

(** The new transcript and the index returned by the source. *)
Definition appendItem (t : Transcript) (i : AcpTranscriptItem) : Transcript * nat :=
  let t' := trimTranscript (with_items t (wpush i (transcriptItemBytes i) (items t))) in
  (t', tail_index t').

(** Every caller passes an index in range. *)
Definition replaceItem (t : Transcript) (index : nat) (i : AcpTranscriptItem)
    (appendedBytes : option Z) : Transcript :=
  let previousBytes := default 0 (wsizes (items t) !! index) in
  let nextBytes := match appendedBytes with
                   | None => transcriptItemBytes i | Some a => previousBytes + a end in
  trimTranscript (with_items t (wreplace index i nextBytes (items t))).

Definition collapseTailTextChunks (t : Transcript) : Transcript :=
  match tail_item t with
  | Some previous =>
    match item previous with
    | IText k m chunks activity =>
      if (length chunks <=? 1)%nat then t
      else replaceItem t (tail_index t) (bump previous (IText k m [concat chunks] activity)) None
    | _ => t
    end
  | None => t
  end.

Definition compactOversizedTailText (t : Transcript) : Transcript :=
  if wbytes (items t) <=? MAX_TRANSCRIPT_BYTES then t
  else match tail_item t with
  | Some previous =>
    match item previous with
    | IText k m chunks _ =>
      let maxChars := COMPACTED_TEXT_BYTES / 2 in
      let text := slice_tail (concat chunks) maxChars in
      let t' := replaceItem t (tail_index t)
        (bump previous (IText k m [text] (slice_tail text MAX_ACTIVITY_TEXT_CHARS))) None in
      mkTranscript (items t') (toolIndex t') true
    | _ => t
    end
  | None => t
  end.

Definition appendTextChunk (t : Transcript) (kind : text_kind) (k : jsstr)
    (messageId : option jsstr) (text : jsstr) : Transcript :=
  let fresh :=
    let t := collapseTailTextChunks t in
    compactOversizedTailText
      (fst (appendItem t (mkItem k 0 (IText kind messageId [text]
                                        (slice_tail text MAX_ACTIVITY_TEXT_CHARS))))) in
  match tail_item t with
  | Some previous =>
    match item previous with
    | IText kind' m chunks activity =>
      if bool_decide (kind' = kind)
         && (bool_decide (messageId = None) || bool_decide (m = messageId))
      then
        compactOversizedTailText
          (replaceItem t (tail_index t)
             (bump previous (IText kind' m (chunks ++ [text])
                               (slice_tail (activity ++ text) MAX_ACTIVITY_TEXT_CHARS)))
             (Some (utf16Bytes text)))
      else fresh
    | _ => fresh
    end
  | None => fresh
  end.

Definition appendUserChunk (t : Transcript) (k : jsstr) (messageId : option jsstr)
    (text : jsstr) : Transcript :=
  let fresh := fst (appendItem (collapseTailTextChunks t) (mkItem k 0 (IUser text [] messageId))) in
  match tail_item t with
  | Some previous =>
    match item previous with
    | IUser before attachments m =>
      if negb (bool_decide (messageId = None)) && bool_decide (m = messageId)
      then replaceItem t (tail_index t)
             (bump previous (IUser (before ++ text) attachments m)) None
      else fresh
    | _ => fresh
    end
  | None => fresh
  end.

(** The tool-call branches of [projectEvent], after the collapse. *)
Definition appendTool (t : Transcript) (k : jsstr) (toolCallId : jsstr) (update : js_record)
    : Transcript :=
  let '(t, index) := appendItem t (mkItem k 0 (ITool toolCallId update)) in
  mkTranscript (items t) (mset (toolIndex t) toolCallId index) (replayTruncated t).

Definition updateTool (t : Transcript) (k : jsstr) (toolCallId : jsstr) (update : js_record)
    : Transcript :=
  match mget (toolIndex t) toolCallId with
  | Some index =>
    match wxs (items t) !! index with
    | Some previous =>
      match item previous with
      | ITool id data =>
        replaceItem t index (bump previous (ITool id (spread data update))) None
      | _ => appendTool t k toolCallId update
      end
    | None => appendTool t k toolCallId update
    end
  | None => appendTool t k toolCallId update
  end.

(** *** Configuration *)

Definition offersValue (option : AcpSessionConfigOption) (v : jsstr) : bool :=
  existsb (fun entry =>
    match entry with
    | SelectGroup _ _ nested => existsb (fun o => so_value o ==s v) nested
    | SelectOption o => so_value o ==s v
    end) (default [] (co_options option)).

Definition is_current (c : current_value) (v : jsstr) : bool :=
  match c with CurText s => s ==s v | CurBool _ => false end.

Definition applyCurrentMode (options : list AcpSessionConfigOption) (modeId : jsstr)
    : list AcpSessionConfigOption :=
  map (fun o =>
    if negb (bool_decide (category o = Some (js "mode"))) || is_current (currentValue o) modeId
       || negb (offersValue o modeId)
    then o
    else mkConfigOption (co_id o) (co_name o) (co_description o) (category o) (co_type o)
           (CurText modeId) (co_options o)) options.

(** *** Projecting an event *)

Definition event_key (e : AcpSessionEvent) : jsstr :=
  sessionId e ++ [cCOLON] ++ show_Z (sequence e).

(** Collapses the tail text and appends one item. *)
Definition append_boundary (t : Transcript) (k : jsstr) (b : item_body) : Transcript :=
  fst (appendItem (collapseTailTextChunks t) (mkItem k 0 b)).

(** A truthy string. *)
Definition truthy_text (o : option jsstr) : option jsstr :=
  match o with Some (c :: s) => Some (c :: s) | _ => None end.

(** The branches of a [sessionUpdate] event that only touch the transcript. *)
Definition project_update (t : Transcript) (k : jsstr) (update : js_record) : Transcript :=
  let kind := recordString update (js "sessionUpdate") in
  let messageId := recordString update (js "messageId") in
  let text := truthy_text (update_text update) in
  let toolCallId := default k (recordString update (js "toolCallId")) in
  if bool_decide (kind = Some (js "user_message_chunk")) then
    match text with Some s => appendUserChunk t k messageId s | None => t end
  else if bool_decide (kind = Some (js "agent_message_chunk")) then
    match text with Some s => appendTextChunk t agent k messageId s | None => t end
  else if bool_decide (kind = Some (js "agent_thought_chunk")) then
    match text with Some s => appendTextChunk t thought k messageId s | None => t end
  else if bool_decide (kind = Some (js "tool_call")) then
    appendTool (collapseTailTextChunks t) k toolCallId update
  else if bool_decide (kind = Some (js "tool_call_update")) then
    updateTool (collapseTailTextChunks t) k toolCallId update
  else if bool_decide (kind = Some (js "plan")) then append_boundary t k (IPlan update)
  else t.

Definition with_transcript (p : AcpConversationProjection) (t : Transcript)
    : AcpConversationProjection :=
  mkProjection (revision p) (lastSequence p) (configOptions p) (pendingPermissionId p)
    (recent p) t.
Definition with_config (p : AcpConversationProjection) (o : list AcpSessionConfigOption)
    : AcpConversationProjection :=
  mkProjection (revision p) (lastSequence p) o (pendingPermissionId p) (recent p) (transcript p).
Definition with_permission (p : AcpConversationProjection) (o : option jsstr)
    : AcpConversationProjection :=
  mkProjection (revision p) (lastSequence p) (configOptions p) o (recent p) (transcript p).

Definition projectEvent (p : AcpConversationProjection) (event : AcpSessionEvent)
    : AcpConversationProjection :=
  let k := event_key event in
  let boundary b := with_transcript p (append_boundary (transcript p) k b) in
  match body event with
  | userMessage text attachments => boundary (IUser text attachments None)
  | sessionConfiguration options => with_config p (default [] options)
  | permissionRequest requestId _ _ =>
    with_permission (boundary (IPermission event)) (Some requestId)
  | permissionResponse requestId _ =>
    if bool_decide (pendingPermissionId p = Some requestId) then with_permission p None else p
  | error message => boundary (IError message)
  | turnEnd stopReason => boundary (ITurnEnd stopReason)
  | status _ => p
  | sessionUpdate update =>
    if bool_decide (recordString update (js "sessionUpdate") = Some (js "current_mode_update"))
    then match truthy_text (recordString update (js "currentModeId")) with
         | Some modeId => with_config p (applyCurrentMode (configOptions p) modeId)
         | None => p
         end
    else with_transcript p (project_update (transcript p) k update)
  end.

Definition appendMonotonicEvent (p : AcpConversationProjection) (event : AcpSessionEvent)
    : AcpConversationProjection :=
  projectEvent
    (mkProjection (revision p) (sequence event) (configOptions p) (pendingPermissionId p)
       (appendRecentEvent (recent p) event) (transcript p)) event.

(** *** Reconciliation *)

(** Insertion into a list sorted by sequence, after the entries of equal sequence: the
    stable [Array.prototype.sort] with the comparison of sequences. *)
Fixpoint insert_event (e : AcpSessionEvent) (l : list AcpSessionEvent) : list AcpSessionEvent :=
  match l with
  | [] => [e]
  | x :: l' => if sequence e <? sequence x then e :: l else x :: insert_event e l'
  end.
Definition sort_events (l : list AcpSessionEvent) : list AcpSessionEvent :=
  foldl (fun acc e => insert_event e acc) [] l.

Definition reconcileEvents (events : list AcpSessionEvent) : list AcpSessionEvent :=
  sort_events (mvals (mof (map (fun e => (sequence e, e)) events))).

Definition with_revision (p : AcpConversationProjection) (n : nat) : AcpConversationProjection :=
  mkProjection n (lastSequence p) (configOptions p) (pendingPermissionId p) (recent p)
    (transcript p).

Definition createAcpConversationProjection (events : list AcpSessionEvent) (truncated : bool)
    : AcpConversationProjection :=
  with_revision
    (foldl appendMonotonicEvent (emptyProjection truncated) (reconcileEvents events))
    (match events with [] => 0 | _ => 1 end)%nat.

Definition recent_live (p : AcpConversationProjection) : list AcpSessionEvent :=
  wlive (recentEvents (recent p)).

Definition mergeAcpConversationFocus (current : option AcpConversationProjection)
    (events : list AcpSessionEvent) (truncated : bool) : AcpConversationProjection :=
  match current with
  | None => createAcpConversationProjection events truncated
  | Some c =>
    let covered := foldl (fun highest e => Z.max highest (sequence e)) (-1) events in
    createAcpConversationProjection
      (events ++ filterb (fun e => covered <? sequence e) (recent_live c))
      (truncated || replayTruncated (transcript c))
  end.

(** One turn of the loop of [appendAcpConversationEvents]: the projection and whether
    it changed. *)
Definition append_event (p : AcpConversationProjection) (event : AcpSessionEvent)
    : AcpConversationProjection * bool :=
  if sequence event <=? lastSequence p then
    if bool_decide (sequence event ∈ recentSequences (recent p)) then (p, false)
    else if match wxs (recentEvents (recent p)) !! wstart (recentEvents (recent p)) with
            | Some earliest => sequence event <? sequence earliest
            | None => false
            end then (p, false)
    else (createAcpConversationProjection (recent_live p ++ [event])
            (replayTruncated (transcript p)), true)
  else (appendMonotonicEvent p event, true).

Definition append_events_loop (p : AcpConversationProjection) (events : list AcpSessionEvent)
    : AcpConversationProjection * bool :=
  foldl (fun '(p, changed) e =>
    let '(p', c) := append_event p e in (p', changed || c)) (p, false) events.

Definition appendAcpConversationEvents (current : option AcpConversationProjection)
    (events : list AcpSessionEvent) : AcpConversationProjection * bool :=
  let '(p, changed) := append_events_loop (default (emptyProjection false) current) events in
  ((if changed then with_revision p (S (revision p)) else p), changed).
