(* ===== verification/TranscriptInv.v ===== *)
(** * Invariants of the agent transcript

    The invariant of a projection (file Transcript) and the proof that every
    operation keeps it: the running sizes are exact, both windows respect their
    limits, the tool index points at live tool items, and the two windows refine the
    abstract windows of file Window. *)

From S2P Require Import Prelude JsString JsMap JsValue Window Transcript.
Local Open Scope Z_scope.

(** ** Recent events *)

Definition sequences (l : list AcpSessionEvent) : list Z := map sequence l.

Definition recent_limit (l : list AcpSessionEvent) : bool :=
  (MAX_RECENT_EVENTS <? Z.of_nat (length l))
  || (MAX_RECENT_EVENT_BYTES <? sum_Z (map approximateEventBytes l)).

Definition recent_rep (r : RecentWindow) : Prop :=
  win_wf approximateEventBytes (recentEvents r)
  /\ (forall s, s ∈ recentSequences r <-> s ∈ sequences (wlive (recentEvents r)))
  /\ StronglySorted Z.lt (sequences (wlive (recentEvents r))).

Lemma recent_over_live w :
  win_wf approximateEventBytes w -> recent_over w = recent_limit (wlive w).
Proof.
  intros (_ & _ & Hb). unfold recent_over, recent_limit. by rewrite wlive_length_eq, Hb.
Qed.

Lemma sorted_head_notin (x : Z) l : StronglySorted Z.lt (x :: l) -> x ∉ l.
Proof.
  intros [_ H]%StronglySorted_inv Hin. rewrite Forall_forall in H.
  specialize (H _ Hin). lia.
Qed.

Lemma pop_rep x l r :
  recent_rep r -> wlive (recentEvents r) = x :: l ->
  recent_rep (mkRecent (wpop (recentEvents r)) (recentSequences r ∖ {[ sequence x ]})).
Proof.
  intros (Hw & Hs & Ho) Hl. pose proof (wpop_live _ _ _ Hl) as Hp.
  unfold recent_rep. cbn [recentEvents recentSequences]. rewrite Hp.
  rewrite Hl in Hs, Ho. cbn in Hs, Ho. split; [by eapply wpop_wf|split].
  - intros s. rewrite elem_of_difference, Hs, elem_of_cons, elem_of_singleton.
    pose proof (sorted_head_notin _ _ Ho) as Hn. unfold sequences in *. naive_solver.
  - by apply StronglySorted_inv in Ho as [Ho _].
Qed.

Lemma trim_recent_spec fuel r :
  recent_rep r -> (length (wlive (recentEvents r)) <= fuel)%nat ->
  recent_rep (trim_recent fuel r)
  /\ wlive (recentEvents (trim_recent fuel r))
     = shrink 0 recent_limit (wlive (recentEvents r)).
Proof.
  revert r. induction fuel as [|fuel IH]; intros r Hr Hf.
  { split; [done|]. cbn [trim_recent]. by destruct (wlive (recentEvents r)) in Hf |- *; [|cbn in Hf; lia]. }
  cbn [trim_recent]. rewrite recent_over_live by apply Hr.
  destruct (wlive (recentEvents r)) as [|x l] eqn:Hl.
  { change (recent_limit []) with false. cbn. split; [done|]. by rewrite Hl. }
  cbn [shrink]. destruct (recent_limit (x :: l)) eqn:Ho; cbn.
  - rewrite (wlive_cons_lookup _ _ _ Hl).
    pose proof (wpop_live _ _ _ Hl) as Hp.
    destruct (IH (mkRecent (wpop (recentEvents r)) (recentSequences r ∖ {[ sequence x ]})))
      as [IH1 IH2]; [by eapply pop_rep| |split; [done|]].
    + cbn [recentEvents]. rewrite Hp. cbn in Hf. lia.
    + cbn [recentEvents] in IH2. by rewrite IH2, Hp.
  - split; [done|]. done.
Qed.

Lemma compact_recent_rep r : recent_rep r -> recent_rep (compact_recent r).
Proof.
  intros (Hw & H). unfold compact_recent. case_match; [|by split].
  split; [by apply wcut_wf|]. cbn. by rewrite wcut_live.
Qed.

Lemma compact_recent_live r :
  wlive (recentEvents (compact_recent r)) = wlive (recentEvents r).
Proof. unfold compact_recent. case_match; [|done]. cbn. by rewrite wcut_live. Qed.

Lemma sorted_snoc l x :
  StronglySorted Z.lt l -> (forall y, y ∈ l -> y < x) -> StronglySorted Z.lt (l ++ [x]).
Proof.
  induction 1 as [|y l Hl IH Hy]; intros Hx; cbn; [repeat constructor|]. constructor.
  - apply IH. intros z Hz. apply Hx. by right.
  - apply Forall_app. split; [done|]. repeat constructor. apply Hx. by left.
Qed.

Lemma append_recent_rep r e :
  recent_rep r -> (forall s, s ∈ sequences (wlive (recentEvents r)) -> s < sequence e) ->
  recent_rep (appendRecentEvent r e)
  /\ wlive (recentEvents (appendRecentEvent r e))
     = shrink 0 recent_limit (wlive (recentEvents r) ++ [e]).
Proof.
  intros (Hw & Hs & Ho) He. unfold appendRecentEvent.
  set (r1 := mkRecent _ _).
  assert (wlive (recentEvents r1) = wlive (recentEvents r) ++ [e]) as Hl
    by (cbn; by eapply wpush_live).
  assert (recent_rep r1) as H1.
  { split; [by apply wpush_wf|]. rewrite Hl. unfold sequences. rewrite map_app. split.
    - intros s. cbn. rewrite elem_of_union, elem_of_singleton, Hs, elem_of_app,
        list_elem_of_singleton. tauto.
    - by apply sorted_snoc. }
  destruct (trim_recent_spec
    (length (wxs (wpush e (approximateEventBytes e) (recentEvents r)))) r1) as [H2 H3]; [done| |].
  { unfold wlive. rewrite length_drop. cbn. lia. }
  split; [by apply compact_recent_rep|]. by rewrite compact_recent_live, H3, Hl.
Qed.

(** ** Transcript items *)

Definition item_limit (l : list AcpTranscriptItem) : bool :=
  (MAX_TRANSCRIPT_ITEMS <? Z.of_nat (length l))
  || (MAX_TRANSCRIPT_BYTES <? sum_Z (map transcriptItemBytes l)).

Definition live_items (t : Transcript) : list AcpTranscriptItem := wlive (items t).

(** The representation: exact sizes, a live tail, and a tool index whose entries are
    live tool items of that id. *)
Record item_rep (t : Transcript) : Prop := {
  ir_win : win_wf transcriptItemBytes (items t);
  ir_live : wxs (items t) = [] \/ (wstart (items t) < length (wxs (items t)))%nat;
  ir_tools : forall id i, mget (toolIndex t) id = Some i ->
    (wstart (items t) <= i)%nat
    /\ exists x, wxs (items t) !! i = Some x /\ tool_id x = Some id }.

(** At rest the window is within its limits, or a single item exceeds them, and no
    prefix is left to cut off. *)
Record item_rest (t : Transcript) : Prop := {
  rs_rep : item_rep t;
  rs_limit : (length (live_items t) <= 1)%nat \/ item_limit (live_items t) = false;
  rs_cut : wcompacts (items t) = false }.

(** A text item never exceeds the limit by itself. *)
Definition small_texts (l : list AcpTranscriptItem) : Prop :=
  forall x, x ∈ l -> is_text x = true -> transcriptItemBytes x <= MAX_TRANSCRIPT_BYTES.

Definition item_inv (t : Transcript) : Prop := item_rest t /\ small_texts (live_items t).

Lemma transcript_over_live w :
  win_wf transcriptItemBytes w -> transcript_over w = item_limit (wlive w).
Proof.
  intros (_ & _ & Hb). unfold transcript_over, item_limit. by rewrite wlive_length_eq, Hb.
Qed.

Lemma live_length t :
  length (live_items t) = (length (wxs (items t)) - wstart (items t))%nat.
Proof. unfold live_items, wlive. by rewrite length_drop. Qed.

Lemma pop_item_rep t x y l b :
  item_rep t -> live_items t = x :: y :: l ->
  item_rep (mkTranscript (wpop (items t))
    match tool_id x with Some id => mdel (toolIndex t) id | None => toolIndex t end b).
Proof.
  intros [Hw Hl Ht] Hxy. pose proof (wlive_cons_lookup _ _ _ Hxy) as Hx.
  pose proof (live_length t) as Hlen. rewrite Hxy in Hlen. cbn in Hlen.
  split; cbn [items toolIndex wxs wpop wstart].
  - by eapply wpop_wf.
  - right. lia.
  - intros id i Hi. assert (mget (toolIndex t) id = Some i /\ tool_id x <> Some id) as [Hi' Hne].
    { destruct (tool_id x) as [id'|] eqn:E; [|done]. rewrite mget_del in Hi.
      case_decide; [done|]. split; [done|congruence]. }
    destruct (Ht _ _ Hi') as (Hle & z & Hz & Hid). split; [|eauto].
    assert (i <> wstart (items t)) by (intros ->; congruence). lia.
Qed.

Lemma trim_items_spec fuel t :
  item_rep t -> (length (live_items t) <= fuel)%nat ->
  item_rep (trim_items fuel t)
  /\ live_items (trim_items fuel t) = shrink 1 item_limit (live_items t).
Proof.
  revert t. induction fuel as [|fuel IH]; intros t Ht Hf.
  { split; [done|]. cbn [trim_items].
    by destruct (live_items t) in Hf |- *; [|cbn in Hf; lia]. }
  cbn [trim_items]. rewrite transcript_over_live by apply Ht. fold (live_items t).
  pose proof (live_length t) as Hlen.
  destruct (live_items t) as [|x [|y l]] eqn:Hl.
  - rewrite (proj2 (Nat.ltb_ge _ _)) by (cbn in Hlen; lia). cbn. by rewrite Hl.
  - rewrite (proj2 (Nat.ltb_ge _ _)) by (cbn in Hlen; lia). cbn. by rewrite Hl.
  - rewrite (proj2 (Nat.ltb_lt _ _)) by (cbn in Hlen; lia). cbn [andb shrink].
    change ((1 <? length (x :: y :: l))%nat) with true. cbn [andb].
    destruct (item_limit (x :: y :: l)); [|by rewrite Hl].
    rewrite (wlive_cons_lookup _ _ _ Hl). cbn [mbind option_bind].
    pose proof (pop_item_rep _ _ _ _ true Ht Hl) as Hpop.
    pose proof (wpop_live _ _ _ Hl) as Hp.
    destruct (IH _ Hpop) as [IH1 IH2]; unfold live_items in *; cbn [items] in *.
    + rewrite Hp. cbn in Hf |- *. lia.
    + split; [done|]. by rewrite IH2, Hp.
Qed.

Lemma index_tools_sound l id i :
  mget (index_tools l) id = Some i -> exists x, l !! i = Some x /\ tool_id x = Some id.
Proof.
  unfold index_tools. induction l as [|x l IH] using rev_ind; [done|].
  rewrite imap_app, foldl_app. cbn [imap foldl]. rewrite Nat.add_0_r.
  intros H. destruct (tool_id x) as [id'|] eqn:Hx.
  - rewrite mget_set in H. case_decide; simplify_eq.
    + exists x. split; [|done]. by rewrite lookup_app_r, Nat.sub_diag.
    + destruct (IH H) as (y & Hy & ?). exists y. split; [|done].
      by apply lookup_app_l_Some.
  - destruct (IH H) as (y & Hy & ?). exists y. split; [|done]. by apply lookup_app_l_Some.
Qed.

Lemma compact_item_rep t : item_rep t -> item_rep (compact_items t).
Proof.
  intros [Hw Hl Ht]. unfold compact_items. case_match; [|by split].
  split; cbn [items toolIndex]; [by apply wcut_wf| |].
  - destruct Hl as [Hl|Hl]; [left; cbn; by rewrite Hl, drop_nil|].
    right. cbn. rewrite length_drop. lia.
  - intros id i Hi. apply index_tools_sound in Hi. cbn. split; [lia|done].
Qed.

Lemma compact_item_live t : live_items (compact_items t) = live_items t.
Proof. unfold compact_items, live_items. case_match; [|done]. cbn. by rewrite wcut_live. Qed.

Lemma trimTranscript_spec t :
  item_rep t ->
  item_rest (trimTranscript t)
  /\ live_items (trimTranscript t) = shrink 1 item_limit (live_items t).
Proof.
  intros Ht. unfold trimTranscript.
  destruct (trim_items_spec (length (wxs (items t))) t Ht) as [H1 H2].
  { rewrite live_length. lia. }
  assert (live_items (compact_items (trim_items (length (wxs (items t))) t))
          = shrink 1 item_limit (live_items t)) as H3 by by rewrite compact_item_live.
  split; [|done]. split.
  - by apply compact_item_rep.
  - rewrite H3. apply shrink_limit.
  - unfold compact_items. pose proof (wcut_rest transcriptItemBytes _ (ir_win _ H1)) as Hc.
    by case_match.
Qed.

Lemma push_item_rep t i :
  item_rep t -> item_rep (with_items t (wpush i (transcriptItemBytes i) (items t))).
Proof.
  intros [Hw Hl Ht]. split; cbn [with_items items toolIndex].
  - by apply wpush_wf.
  - right. cbn. rewrite length_app. cbn. destruct Hw as (_ & ? & _). lia.
  - intros id j Hj. destruct (Ht _ _ Hj) as (? & x & Hx & ?). cbn. split; [done|].
    exists x. split; [|done]. by apply lookup_app_l_Some.
Qed.

Lemma appendItem_spec t i :
  item_rep t ->
  item_rest (fst (appendItem t i))
  /\ live_items (fst (appendItem t i)) = shrink 1 item_limit (live_items t ++ [i]).
Proof.
  intros Ht. destruct (trimTranscript_spec _ (push_item_rep t i Ht)) as [H1 H2].
  split; [done|]. cbn [appendItem fst]. rewrite H2. unfold live_items. cbn [with_items items].
  by erewrite wpush_live by apply Ht.
Qed.

Lemma transcriptItemBytes_nonneg x : 0 <= transcriptItemBytes x.
Proof.
  assert (forall v, 0 <= json_bytes v) as Hj.
  { intros v. unfold json_bytes, utf16Bytes. repeat case_match; lia. }
  assert (forall l, 0 <= sum_Z (map utf16Bytes l)) as Hs.
  { intros l. apply sum_Z_nonneg, Forall_forall. intros z (s & -> & _)%list_elem_of_fmap.
    unfold utf16Bytes. lia. }
  unfold transcriptItemBytes. case_match; try apply Hj; try apply Hs;
    unfold utf16Bytes; try lia.
  match goal with |- context [sum_Z (map _ ?a)] => specialize (Hs a) end.
  unfold utf16Bytes in *. lia.
Qed.

Lemma sizes_nonneg l : Forall (fun z => 0 <= z) (map transcriptItemBytes l).
Proof.
  apply Forall_forall. intros z (x & -> & _)%list_elem_of_fmap.
  apply transcriptItemBytes_nonneg.
Qed.

Lemma item_limit_small l x :
  item_limit l = false -> x ∈ l -> transcriptItemBytes x <= MAX_TRANSCRIPT_BYTES.
Proof.
  intros [_ H]%orb_false_iff Hx. apply Z.ltb_ge in H.
  pose proof (sum_Z_elem _ (transcriptItemBytes x) (sizes_nonneg l)). etrans; [|done].
  apply H0. by apply list_elem_of_fmap_2.
Qed.

Lemma replace_item_rep t i x old b :
  item_rep t -> (wstart (items t) <= i)%nat -> wxs (items t) !! i = Some old ->
  tool_id x = tool_id old -> b = transcriptItemBytes x ->
  item_rep (with_items t (wreplace i x b (items t))).
Proof.
  intros [Hw Hl Ht] Hi Hold Hid ->. split; cbn [with_items items toolIndex].
  - by eapply wreplace_wf.
  - right. cbn. rewrite length_insert. apply lookup_lt_Some in Hold. lia.
  - intros id j Hj. destruct (Ht _ _ Hj) as (? & y & Hy & Hyid). cbn. split; [done|].
    destruct (decide (i = j)) as [->|Hne].
    + exists x. rewrite list_lookup_insert_eq by by eapply lookup_lt_Some.
      split; [done|congruence].
    + exists y. by rewrite list_lookup_insert_ne.
Qed.

Definition replaced_bytes (t : Transcript) (i : nat) (x : AcpTranscriptItem) (a : option Z) : Prop :=
  match a with
  | None => True
  | Some a => exists old, wxs (items t) !! i = Some old
              /\ transcriptItemBytes x = transcriptItemBytes old + a
  end.

Lemma replaceItem_spec t i x old a :
  item_rep t -> (wstart (items t) <= i)%nat -> wxs (items t) !! i = Some old ->
  tool_id x = tool_id old -> replaced_bytes t i x a ->
  item_rest (replaceItem t i x a)
  /\ live_items (replaceItem t i x a)
     = shrink 1 item_limit (<[(i - wstart (items t))%nat := x]> (live_items t)).
Proof.
  intros Ht Hi Hold Hid Ha. unfold replaceItem.
  assert (default 0 (wsizes (items t) !! i) = transcriptItemBytes old) as Hprev.
  { destruct (ir_win _ Ht) as (Hs & _ & _). by rewrite Hs, list_lookup_fmap, Hold. }
  rewrite Hprev. set (b := match a with Some _ => _ | None => _ end).
  assert (b = transcriptItemBytes x) as Hb.
  { unfold b. destruct a as [a|]; [|done]. destruct Ha as (o & Ho & ->). congruence. }
  clearbody b. destruct (trimTranscript_spec _ (replace_item_rep t i x old b Ht Hi Hold Hid Hb))
    as [H1 H2].
  split; [done|]. rewrite H2. unfold live_items at 1. cbn [with_items items].
  by rewrite wreplace_live.
Qed.

(** The tail is the last live item. *)
Lemma tail_live t x :
  item_rep t -> tail_item t = Some x ->
  wxs (items t) !! tail_index t = Some x /\ (wstart (items t) <= tail_index t)%nat
  /\ exists l, live_items t = l ++ [x] /\ (tail_index t - wstart (items t))%nat = length l.
Proof.
  intros Ht H. unfold tail_item in H. apply last_Some in H as [k Hk].
  destruct (ir_live _ Ht) as [He|Hlt]; [rewrite He in Hk; by destruct k|].
  unfold tail_index. rewrite Hk in *. rewrite length_app in *. cbn in *.
  replace (length k + 1 - 1)%nat with (length k) by lia. split; [|split; [lia|]].
  - by rewrite lookup_app_r, Nat.sub_diag.
  - exists (drop (wstart (items t)) k). unfold live_items, wlive. rewrite Hk.
    split; [by rewrite drop_app_le by lia|]. by rewrite length_drop.
Qed.

Lemma replace_tail_spec t x old a :
  item_rep t -> tail_item t = Some old -> tool_id x = tool_id old ->
  replaced_bytes t (tail_index t) x a ->
  exists l, live_items t = l ++ [old]
  /\ item_rest (replaceItem t (tail_index t) x a)
  /\ live_items (replaceItem t (tail_index t) x a) = shrink 1 item_limit (l ++ [x]).
Proof.
  intros Ht Htail Hid Ha. destruct (tail_live _ _ Ht Htail) as (Hold & Hle & l & Hl & Hlen).
  exists l. split; [done|]. destruct (replaceItem_spec t _ x old a Ht Hle Hold Hid Ha)
    as [H1 H2].
  split; [done|]. rewrite H2, Hl, Hlen. f_equal.
  by rewrite insert_app_r_alt, Nat.sub_diag by lia.
Qed.

Lemma small_texts_shrink keep over l : small_texts l -> small_texts (shrink keep over l).
Proof.
  intros H x Hx. destruct (shrink_suffix keep over l) as [k Hk]. apply H. rewrite Hk.
  apply elem_of_app. by right.
Qed.

Lemma small_texts_snoc l x :
  small_texts l -> (is_text x = true -> transcriptItemBytes x <= MAX_TRANSCRIPT_BYTES) ->
  small_texts (l ++ [x]).
Proof.
  intros H Hx y [Hy| ->%list_elem_of_singleton]%elem_of_app; auto.
Qed.

Lemma small_texts_app_inv l x :
  small_texts (l ++ [x]) ->
  small_texts l /\ (is_text x = true -> transcriptItemBytes x <= MAX_TRANSCRIPT_BYTES).
Proof.
  intros H. split; [|apply H, elem_of_app; right; by left].
  intros y Hy. apply H, elem_of_app. by left.
Qed.

Lemma sum_utf16_concat chunks : utf16Bytes (concat chunks) = sum_Z (map utf16Bytes chunks).
Proof.
  unfold utf16Bytes. induction chunks as [|c l IH]; [done|]. cbn. rewrite length_app. lia.
Qed.

(** ** Every operation keeps the item invariant *)

Lemma append_inv t i :
  item_inv t -> (is_text i = true -> transcriptItemBytes i <= MAX_TRANSCRIPT_BYTES) ->
  item_inv (fst (appendItem t i)).
Proof.
  intros [Hr Ht] Hi. destruct (appendItem_spec t i (rs_rep _ Hr)) as [H1 H2].
  split; [done|]. rewrite H2. by apply small_texts_shrink, small_texts_snoc.
Qed.

Lemma collapse_inv t : item_inv t -> item_inv (collapseTailTextChunks t).
Proof.
  intros [Hr Ht]. unfold collapseTailTextChunks.
  destruct (tail_item t) as [x|] eqn:Htail; [|done].
  destruct (item x) as [|k m chunks a| | | | |] eqn:Hx; try done.
  destruct (length chunks <=? 1)%nat; [done|].
  destruct (replace_tail_spec t (bump x (IText k m [concat chunks] a)) x None
    (rs_rep _ Hr) Htail) as (l & Hl & H1 & H2); [|done|].
  { unfold tool_id. cbn. by rewrite Hx. }
  split; [done|]. rewrite H2. rewrite Hl in Ht. apply small_texts_app_inv in Ht as [Ht1 Ht2].
  apply small_texts_shrink, small_texts_snoc; [done|]. intros _.
  unfold is_text, transcriptItemBytes in *. rewrite Hx in Ht2. cbn.
  rewrite sum_utf16_concat. specialize (Ht2 eq_refl). lia.
Qed.

Lemma compact_oversized_inv t :
  item_rest t -> (forall l x, live_items t = l ++ [x] -> small_texts l) ->
  item_inv (compactOversizedTailText t).
Proof.
  intros Hr Hs. unfold compactOversizedTailText.
  destruct (rs_limit _ Hr) as [Hlim|Hlim].
  2: { pose proof (ir_win _ (rs_rep _ Hr)) as (_ & _ & Hb). rewrite Hb.
    pose proof Hlim as [_ H]%orb_false_iff. apply Z.ltb_ge in H. apply Z.leb_le in H.
    unfold live_items in H. rewrite H. split; [done|]. intros x Hx _.
    by eapply item_limit_small. }
  destruct (wbytes (items t) <=? MAX_TRANSCRIPT_BYTES) eqn:Hle.
  { apply Z.leb_le in Hle. pose proof (ir_win _ (rs_rep _ Hr)) as (_ & _ & Hb).
    split; [done|]. intros x Hx _. etrans; [|exact Hle]. rewrite Hb.
    apply sum_Z_elem; [apply sizes_nonneg|]. by apply list_elem_of_fmap_2. }
  destruct (tail_item t) as [x|] eqn:Htail.
  2: { split; [done|]. unfold tail_item in Htail. apply last_None in Htail.
    unfold live_items, wlive. rewrite Htail, drop_nil. by intros x ?%elem_of_nil. }
  destruct (tail_live _ _ (rs_rep _ Hr) Htail) as (_ & _ & l & Hl & _).
  assert (l = []) as ->.
  { rewrite Hl, length_app in Hlim. cbn in Hlim. destruct l; [done|cbn in Hlim; lia]. }
  assert (is_text x = false -> item_inv t) as Hnt.
  { intros Hx. split; [done|]. rewrite Hl. intros y ->%list_elem_of_singleton. congruence. }
  destruct (item x) as [|k m chunks a| | | | |] eqn:Hx;
    try (apply Hnt; unfold is_text; by rewrite Hx).
  set (text := slice_tail _ _).
  destruct (replace_tail_spec t
    (bump x (IText k m [text] (slice_tail text MAX_ACTIVITY_TEXT_CHARS))) x None
    (rs_rep _ Hr) Htail) as (l & Hl' & [H1 H2 H3] & H4); [|done|].
  { unfold tool_id. cbn. by rewrite Hx. }
  split; [split|]; unfold live_items in *; cbn [items] in *; [|done..|].
  - destruct H1. by split.
  - rewrite H4. apply small_texts_shrink. intros y.
    rewrite Hl in Hl'. destruct l as [|? [|? ?]]; simplify_eq/=.
    intros ->%list_elem_of_singleton _. unfold transcriptItemBytes, text, utf16Bytes.
    cbn [item bump map sum_Z]. unfold slice_tail, slice_last. rewrite length_drop.
    clear.
    generalize (length (concat chunks)).
    change (COMPACTED_TEXT_BYTES / 2) with 1572864. change MAX_TRANSCRIPT_BYTES with 4194304. lia.
Qed.

Lemma user_small x : is_text x = false -> is_text x = true -> transcriptItemBytes x <= MAX_TRANSCRIPT_BYTES.
Proof. congruence. Qed.

Lemma appended_texts t i :
  item_inv t -> (forall l x, live_items (fst (appendItem t i)) = l ++ [x] -> small_texts l).
Proof.
  intros [Hr Ht] l x. destruct (appendItem_spec t i (rs_rep _ Hr)) as [_ ->].
  destruct (shrink_suffix 1 item_limit (live_items t ++ [i])) as [k Hk]. intros Hs.
  rewrite Hs, app_assoc in Hk. apply app_inj_tail in Hk as [Hk _].
  intros y Hy. apply Ht. rewrite Hk. apply elem_of_app. by right.
Qed.

Lemma appendTextChunk_inv t kind k m text :
  item_inv t -> item_inv (appendTextChunk t kind k m text).
Proof.
  intros Hi. unfold appendTextChunk.
  assert (item_inv (compactOversizedTailText (fst (appendItem (collapseTailTextChunks t)
    (mkItem k 0 (IText kind m [text] (slice_tail text MAX_ACTIVITY_TEXT_CHARS))))))) as Hfresh.
  { apply compact_oversized_inv; [|by apply appended_texts, collapse_inv].
    by apply appendItem_spec, (collapse_inv t Hi). }
  destruct (tail_item t) as [x|] eqn:Htail; [|done].
  destruct (item x) as [|k' m' chunks a| | | | |] eqn:Hx; try done.
  case_match; [|done]. destruct Hi as [Hr Ht].
  set (x' := bump x _).
  destruct (replace_tail_spec t x' x (Some (utf16Bytes text)) (rs_rep _ Hr) Htail)
    as (l & Hl & H1 & H2).
  { unfold tool_id. cbn. by rewrite Hx. }
  { exists x. split; [by apply (tail_live t x (rs_rep _ Hr))|].
    unfold transcriptItemBytes. rewrite Hx. cbn. rewrite map_app, sum_Z_app. cbn. lia. }
  apply compact_oversized_inv; [done|]. intros l' y. rewrite H2.
  destruct (shrink_suffix 1 item_limit (l ++ [x'])) as [p Hp]. intros Hs.
  rewrite Hs, app_assoc in Hp. apply app_inj_tail in Hp as [Hp _].
  rewrite Hl, Hp in Ht. intros z Hz. apply Ht, elem_of_app. left. apply elem_of_app. by right.
Qed.

Lemma appendUserChunk_inv t k m text :
  item_inv t -> item_inv (appendUserChunk t k m text).
Proof.
  intros Hi. unfold appendUserChunk.
  assert (item_inv (fst (appendItem (collapseTailTextChunks t) (mkItem k 0 (IUser text [] m)))))
    as Hfresh by by apply append_inv; [apply collapse_inv|].
  destruct (tail_item t) as [x|] eqn:Htail; [|done].
  destruct (item x) eqn:Hx; try done. case_match; [|done].
  destruct Hi as [Hr Ht]. set (x' := bump x _).
  destruct (replace_tail_spec t x' x None (rs_rep _ Hr) Htail) as (l & Hl & H1 & H2); [|done|].
  { unfold tool_id. cbn. by rewrite Hx. }
  split; [done|]. rewrite H2. apply small_texts_shrink. rewrite Hl in Ht.
  by apply small_texts_snoc; [apply small_texts_app_inv in Ht as [Ht _]|].
Qed.

Lemma append_tail t i :
  item_rep t -> tail_item (fst (appendItem t i)) = Some i.
Proof.
  intros Ht. destruct (appendItem_spec t i Ht) as [Hr Hl].
  set (t' := fst (appendItem t i)) in *.
  assert (1 <= length (live_items t'))%nat as Hlen.
  { rewrite Hl. apply shrink_keeps. rewrite length_app. cbn. lia. }
  destruct (shrink_suffix 1 item_limit (live_items t ++ [i])) as [p Hp].
  rewrite <- Hl in Hp. unfold tail_item.
  destruct (live_items t') as [|y l _] eqn:E using rev_ind; [cbn in Hlen; lia|].
  rewrite app_assoc in Hp. apply app_inj_tail in Hp as [_ <-].
  rewrite <- (take_drop (wstart (items t')) (wxs (items t'))).
  unfold live_items, wlive in E. by rewrite E, app_assoc, last_snoc.
Qed.

Lemma appendTool_inv t k id update :
  item_inv t -> item_inv (appendTool t k id update).
Proof.
  intros Hi. unfold appendTool. set (i := mkItem k 0 (ITool id update)).
  pose proof (append_inv t i Hi (user_small i eq_refl)) as [[[Hw Hl Ht] Hlim Hcut] Hs].
  pose proof (append_tail t i (rs_rep _ (proj1 Hi))) as Htail.
  destruct (tail_live _ _ {| ir_win := Hw; ir_live := Hl; ir_tools := Ht |} Htail)
    as (Hidx & Hle & _).
  destruct (appendItem t i) as [t' index] eqn:E. cbn [fst] in *.
  assert (index = tail_index t') as -> by (unfold appendItem in E; by simplify_eq).
  split; [split; [split|..]|]; cbn [items toolIndex]; try done.
  intros id' j Hj. rewrite mget_set in Hj. case_decide; [|by apply Ht].
  simplify_eq. split; [done|]. by exists i.
Qed.

Lemma updateTool_inv t k id update :
  item_inv t -> item_inv (updateTool t k id update).
Proof.
  intros Hi. unfold updateTool.
  pose proof (appendTool_inv t k id update Hi) as Happ.
  destruct (mget (toolIndex t) id) as [index|] eqn:Hidx; [|done].
  destruct (wxs (items t) !! index) as [x|] eqn:Hx; [|done].
  destruct (item x) as [| |id' data| | | |] eqn:Hix; try done.
  destruct Hi as [Hr Ht]. destruct (ir_tools _ (rs_rep _ Hr) _ _ Hidx) as (Hle & _).
  set (x' := bump x _).
  destruct (replaceItem_spec t index x' x None (rs_rep _ Hr) Hle Hx) as [H1 H2]; [|done|].
  { unfold tool_id. cbn. by rewrite Hix. }
  split; [done|]. rewrite H2. apply small_texts_shrink. intros y Hy Hty.
  apply list_elem_of_lookup in Hy as [j Hj].
  apply list_lookup_insert_Some in Hj as [(_ & <- & _)|[_ Hj]]; [done|].
  apply Ht; [|done]. by eapply list_elem_of_lookup_2.
Qed.

Lemma append_boundary_inv t k b :
  item_inv t -> is_text (mkItem k 0 b) = false -> item_inv (append_boundary t k b).
Proof. intros Hi Hb. apply append_inv; [by apply collapse_inv|congruence]. Qed.

Lemma project_update_inv t k update : item_inv t -> item_inv (project_update t k update).
Proof.
  intros Hi. unfold project_update.
  repeat (case_bool_decide; [try case_match; try done;
    first [by apply appendUserChunk_inv | by apply appendTextChunk_inv
          | by apply appendTool_inv, collapse_inv | by apply updateTool_inv, collapse_inv
          | by apply append_boundary_inv]|]).
  done.
Qed.

(** ** The projection *)

Record projection_inv (p : AcpConversationProjection) : Prop := {
  pi_recent : recent_rep (recent p);
  pi_recent_limit : recent_limit (recent_live p) = false;
  pi_recent_cut : wcompacts (recentEvents (recent p)) = false;
  pi_sequences : forall s, s ∈ sequences (recent_live p) -> s <= lastSequence p;
  pi_items : item_inv (transcript p) }.

Lemma empty_inv b : projection_inv (emptyProjection b).
Proof.
  split; cbn; [|done|done|by intros s ?%elem_of_nil|].
  - split; [apply empty_wf|split; [|constructor]]. intros s. cbn. set_solver.
  - split; [split; [split|..]|]; cbn; try done; [by left|by right|].
    by intros x ?%elem_of_nil.
Qed.

Lemma projectEvent_parts p e :
  revision (projectEvent p e) = revision p /\ lastSequence (projectEvent p e) = lastSequence p
  /\ recent (projectEvent p e) = recent p.
Proof. unfold projectEvent. by repeat case_match. Qed.

Lemma projectEvent_items p e :
  item_inv (transcript p) -> item_inv (transcript (projectEvent p e)).
Proof.
  intros Hi. unfold projectEvent.
  repeat case_match; cbn; try done; try (by apply append_boundary_inv).
  by apply project_update_inv.
Qed.

Lemma append_monotonic_inv p e :
  projection_inv p -> (forall s, s ∈ sequences (recent_live p) -> s < sequence e) ->
  projection_inv (appendMonotonicEvent p e)
  /\ lastSequence (appendMonotonicEvent p e) = sequence e
  /\ recent_live (appendMonotonicEvent p e) = shrink 0 recent_limit (recent_live p ++ [e]).
Proof.
  intros [Hr Hlim Hcut Hs Hi] He. destruct (append_recent_rep (recent p) e Hr He) as [H1 H2].
  unfold appendMonotonicEvent. set (p1 := mkProjection _ _ _ _ _ _).
  destruct (projectEvent_parts p1 e) as (_ & Hq & Hrec).
  assert (recent_live (projectEvent p1 e) = shrink 0 recent_limit (recent_live p ++ [e]))
    as Hlive by (unfold recent_live; by rewrite Hrec).
  split; [|done]. split.
  - by rewrite Hrec.
  - rewrite Hlive. destruct (shrink_limit 0 recent_limit (recent_live p ++ [e])) as [H|H];
      [|done]. by destruct (shrink _ _ _) in H |- *; [|cbn in H; lia].
  - rewrite Hrec. cbn. unfold appendRecentEvent, compact_recent.
    by case_match.
  - rewrite Hlive, Hq. cbn. intros s (x & -> & Hx)%list_elem_of_fmap.
    destruct (shrink_suffix 0 recent_limit (recent_live p ++ [e])) as [k Hk].
    assert (x ∈ recent_live p ++ [e]) as [Hin| ->%list_elem_of_singleton]%elem_of_app; [..|done].
    + rewrite Hk. apply elem_of_app. by right.
    + apply Z.lt_le_incl, He. by apply list_elem_of_fmap_2.
  - by apply projectEvent_items.
Qed.

(** ** Reconciliation *)

Lemma insert_event_perm e l : insert_event e l ≡ₚ e :: l.
Proof.
  induction l as [|x l IH]; cbn; [done|]. case_match; [done|]. rewrite IH. by constructor.
Qed.

Lemma sort_events_perm_acc l acc :
  foldl (fun acc e => insert_event e acc) acc l ≡ₚ l ++ acc.
Proof.
  revert acc. induction l as [|e l IH]; intros acc; cbn; [done|].
  rewrite IH, insert_event_perm. by rewrite Permutation_middle.
Qed.

Lemma sort_events_perm l : sort_events l ≡ₚ l.
Proof. unfold sort_events. by rewrite sort_events_perm_acc, app_nil_r. Qed.

Lemma insert_event_sorted e l :
  StronglySorted Z.lt (sequences l) -> sequence e ∉ sequences l ->
  StronglySorted Z.lt (sequences (insert_event e l)).
Proof.
  unfold sequences. induction l as [|x l IH]; intros Hl He; cbn; [repeat constructor|].
  apply StronglySorted_inv in Hl as [Hl Hx]. cbn in He. apply not_elem_of_cons in He as [Hne He].
  destruct (sequence e <? sequence x) eqn:E; cbn.
  - apply Z.ltb_lt in E. constructor; [by constructor|]. constructor; [done|].
    eapply Forall_impl; [exact Hx|]. cbn. lia.
  - apply Z.ltb_ge in E. constructor; [by apply IH|].
    rewrite Forall_forall in *. intros s (y & -> & Hy)%list_elem_of_fmap.
    rewrite insert_event_perm in Hy. apply elem_of_cons in Hy as [->|Hy]; [lia|].
    apply Hx. by apply list_elem_of_fmap_2.
Qed.

Lemma sequences_perm k l : k ≡ₚ l -> sequences k ≡ₚ sequences l.
Proof. apply Permutation_map. Qed.

Lemma sort_events_sorted l :
  NoDup (sequences l) -> StronglySorted Z.lt (sequences (sort_events l)).
Proof.
  unfold sort_events. enough (forall acc, NoDup (sequences (l ++ acc)) ->
    StronglySorted Z.lt (sequences acc) ->
    StronglySorted Z.lt (sequences (foldl (fun acc e => insert_event e acc) acc l))) as H.
  { intros Hl. apply H; [by rewrite app_nil_r|constructor]. }
  induction l as [|e l IH]; intros acc Hd Hs; cbn; [done|].
  assert (sequence e ∉ sequences acc) as Hn.
  { cbn in Hd. apply NoDup_cons in Hd as [Hn _]. unfold sequences in Hn.
    rewrite map_app in Hn. by apply not_elem_of_app in Hn as [_ ?]. }
  apply IH; [|by apply insert_event_sorted].
  rewrite (sequences_perm _ (e :: l ++ acc)); [done|].
  by rewrite insert_event_perm, Permutation_middle.
Qed.

Lemma mof_sequences l k e :
  (k, e) ∈ mof (map (fun e => (sequence e, e)) l) -> k = sequence e /\ e ∈ l.
Proof.
  intros H%elem_mget; [|apply mof_NoDup]. revert H. unfold mof.
  enough (forall m, (forall k e, mget m k = Some e -> k = sequence e /\ e ∈ l) ->
    mget (foldl (fun m e => mset m e.1 e.2) m (map (fun e => (sequence e, e)) l)) k = Some e ->
    k = sequence e /\ e ∈ l) as H by (apply H; done).
  assert (forall x, x ∈ l -> x ∈ l) as Hsub by done. revert Hsub. generalize l at 1 4.
  induction l0 as [|x l0 IH]; intros Hsub m Hm; cbn; [apply Hm|]. apply IH.
  - intros y Hy. apply Hsub. by right.
  - intros k' e'. rewrite mget_set. case_decide; [|apply Hm]. intros [= <-].
    split; [done|]. apply Hsub. by left.
Qed.

Lemma mof_vals_sequences l :
  sequences (mvals (mof (map (fun e => (sequence e, e)) l)))
  = mkeys (mof (map (fun e => (sequence e, e)) l)).
Proof.
  unfold sequences, mvals, mkeys. rewrite map_map. apply map_ext_in. intros [k e] Hin.
  apply list_elem_of_In in Hin. by apply mof_sequences in Hin as [-> _].
Qed.

Lemma reconcile_sorted l : StronglySorted Z.lt (sequences (reconcileEvents l)).
Proof. apply sort_events_sorted. rewrite mof_vals_sequences. apply mof_NoDup. Qed.

Lemma reconcile_elem l e : e ∈ reconcileEvents l -> e ∈ l.
Proof.
  unfold reconcileEvents. rewrite sort_events_perm.
  intros ([k x] & -> & Hx)%list_elem_of_fmap. by apply mof_sequences in Hx as [_ ?].
Qed.

Lemma reconcile_sequences l s : s ∈ sequences (reconcileEvents l) <-> s ∈ sequences l.
Proof.
  unfold reconcileEvents. rewrite (sequences_perm _ _ (sort_events_perm _)).
  rewrite mof_vals_sequences, mof_keys. unfold mkeys, sequences. by rewrite map_map.
Qed.

(** ** Reachable projections *)

Lemma with_revision_inv p n : projection_inv p -> projection_inv (with_revision p n).
Proof. intros []. by split. Qed.

Lemma fold_monotonic_inv l p :
  projection_inv p -> StronglySorted Z.lt (sequences l) ->
  (forall s e, s ∈ sequences (recent_live p) -> e ∈ l -> s < sequence e) ->
  projection_inv (foldl appendMonotonicEvent p l).
Proof.
  revert p. induction l as [|e l IH]; intros p Hp Hs He; cbn; [done|].
  cbn in Hs. apply StronglySorted_inv in Hs as [Hs Hlt].
  destruct (append_monotonic_inv p e Hp) as (H1 & H2 & H3).
  { intros s Hin. apply He; [done|by left]. }
  apply IH; [done..|]. intros s x Hin Hx.
  pose proof (pi_sequences _ H1 _ Hin) as Hle. rewrite H2 in Hle.
  rewrite Forall_forall in Hlt. specialize (Hlt (sequence x)).
  assert (sequence x ∈ map sequence l) by by apply list_elem_of_fmap_2. specialize (Hlt H). lia.
Qed.

Lemma create_inv l b : projection_inv (createAcpConversationProjection l b).
Proof.
  apply with_revision_inv, fold_monotonic_inv; [apply empty_inv|apply reconcile_sorted|].
  by intros s e ?%elem_of_nil.
Qed.

Lemma append_event_inv p e : projection_inv p -> projection_inv (fst (append_event p e)).
Proof.
  intros Hp. unfold append_event. destruct (sequence e <=? lastSequence p) eqn:E.
  - repeat case_match; cbn; try done; apply create_inv.
  - apply Z.leb_gt in E. apply append_monotonic_inv; [done|]. intros s Hs.
    pose proof (pi_sequences _ Hp _ Hs). lia.
Qed.

Lemma append_loop_inv l p : projection_inv p -> projection_inv (fst (append_events_loop p l)).
Proof.
  unfold append_events_loop. generalize false.
  revert p. induction l as [|e l IH]; intros p b Hp; cbn; [done|].
  pose proof (append_event_inv p e Hp). destruct (append_event p e). by apply IH.
Qed.

Lemma append_inv_all current l :
  (forall p, current = Some p -> projection_inv p) ->
  projection_inv (fst (appendAcpConversationEvents current l)).
Proof.
  intros H. unfold appendAcpConversationEvents.
  pose proof (append_loop_inv l (default (emptyProjection false) current)) as Hl.
  destruct (append_events_loop _ l) as [p c]. cbn in *.
  assert (projection_inv p) by (apply Hl; destruct current; [by apply H|apply empty_inv]).
  destruct c; [by apply with_revision_inv|done].
Qed.

(** The projections the session store can hold. *)
Inductive reachable : AcpConversationProjection -> Prop :=
| reach_focus current events truncated :
    (forall p, current = Some p -> reachable p) ->
    reachable (mergeAcpConversationFocus current events truncated)
| reach_append current events :
    (forall p, current = Some p -> reachable p) ->
    reachable (fst (appendAcpConversationEvents current events)).

Lemma reachable_inv p : reachable p -> projection_inv p.
Proof.
  induction 1 as [[c|] l b|c l Hc IH]; [apply create_inv..|]. by apply append_inv_all.
Qed.
