(* ===== verification/TranscriptReplay.v ===== *)
(** * What the agent transcript guarantees

    The properties of the projection of files Transcript and TranscriptInv: bounds
    that hold in every reachable state, where a tool update lands, what a stream of
    text chunks leaves, and that the projection does not depend on how often or in
    which order the events of a conversation are delivered. *)

From stdpp Require Import sorting.
From S2P Require Import Prelude JsString JsMap JsValue Window Transcript TranscriptInv.
From Stdlib Require String.
Import Stdlib.Strings.String.StringSyntax.
Local Open Scope Z_scope.

(** ** Bounds *)

(** in every projection the session store can hold, at most 320 items are visible;
    the byte counter is exactly their size, and exceeds 4 MiB only when a single item
    that is not streamed text does; at most 1024 events and 4 MiB of events are kept
    for replay, with an exact counter; and the arrays behind both windows, dead prefix
    included, never grow past 640 and 2048 entries. *)
Theorem transcript_bounded p :
  reachable p ->
  let visible := visibleAcpTranscriptItems (Some p) in
  Z.of_nat (length visible) <= MAX_TRANSCRIPT_ITEMS
  /\ wbytes (items (transcript p)) = sum_Z (map transcriptItemBytes visible)
  /\ (wbytes (items (transcript p)) <= MAX_TRANSCRIPT_BYTES
      \/ exists x, visible = [x] /\ is_text x = false)
  /\ Z.of_nat (length (recent_live p)) <= MAX_RECENT_EVENTS
  /\ wbytes (recentEvents (recent p)) = sum_Z (map approximateEventBytes (recent_live p))
  /\ wbytes (recentEvents (recent p)) <= MAX_RECENT_EVENT_BYTES
  /\ Z.of_nat (length (wxs (items (transcript p)))) <= 640
  /\ Z.of_nat (length (wxs (recentEvents (recent p)))) <= 2048.
Proof.
  intros H%reachable_inv. destruct H as [(Hw & _) Hlim Hcut _ [[Hir Hrs Hrc] Hst]].
  cbn [visibleAcpTranscriptItems]. fold (live_items (transcript p)).
  pose proof (ir_win _ Hir) as Hwi. pose proof Hwi as (_ & _ & Hbi). pose proof Hw as (_ & _ & Hb).
  unfold recent_live in *. apply orb_false_iff in Hlim as [Hl1 Hl2].
  apply Z.ltb_ge in Hl1, Hl2.
  pose proof (rest_bound _ _ Hwi Hrc) as Bi. pose proof (rest_bound _ _ Hw Hcut) as Br.
  fold (live_items (transcript p)) in *. unfold COMPACT_PREFIX_AT in *.
  assert (Z.of_nat (length (live_items (transcript p))) <= MAX_TRANSCRIPT_ITEMS) as Hn.
  { destruct Hrs as [Hrs|[Hrs _]%orb_false_iff]; [unfold MAX_TRANSCRIPT_ITEMS; lia|].
    by apply Z.ltb_ge in Hrs. }
  split; [done|]. split; [done|]. split.
  { rewrite Hbi. destruct Hrs as [Hrs|[_ Hrs]%orb_false_iff]; [|left; by apply Z.ltb_ge in Hrs].
    destruct (live_items (transcript p)) as [|x [|]] eqn:E; cbn in Hrs; [left; done| |lia].
    destruct (is_text x) eqn:Hx; [|right; eauto]. left. cbn.
    rewrite Z.add_0_r. apply Hst; [by left|done]. }
  unfold MAX_RECENT_EVENTS, MAX_TRANSCRIPT_ITEMS in *. repeat split; lia.
Qed.

Definition chunk_event (seq : Z) (kind text : jsstr) : AcpSessionEvent :=
  mkEvent (js "s") seq [] (sessionUpdate [(js "sessionUpdate", VStr kind);
    (js "content", VObj [(js "type", VStr (js "text")); (js "text", VStr text)])]).
Definition tool_event (seq : Z) (kind id : jsstr) (title : jsstr) : AcpSessionEvent :=
  mkEvent (js "s") seq [] (sessionUpdate [(js "sessionUpdate", VStr kind);
    (js "toolCallId", VStr id); (js "title", VStr title)]).

Definition ev1 := mkEvent (js "s") 1 [] (userMessage (js "hi") []).
Definition ev2 := chunk_event 2 (js "agent_message_chunk") (js "he").
Definition ev3 := chunk_event 3 (js "agent_message_chunk") (js "llo").
Definition ev4 := tool_event 4 (js "tool_call") (js "t1") (js "run").
Definition ev5 := tool_event 5 (js "tool_call_update") (js "t1") (js "done").
Definition ev6 := mkEvent (js "s") 6 [] (turnEnd (js "end_turn")).
Definition sample_events : list AcpSessionEvent := [ev1; ev2; ev3; ev4; ev5; ev6].
Definition sample_projection : AcpConversationProjection :=
  fst (appendAcpConversationEvents None sample_events).

Lemma transcript_bounded_witness :
  reachable sample_projection
  /\ Z.of_nat (length (visibleAcpTranscriptItems (Some sample_projection)))
     <= MAX_TRANSCRIPT_ITEMS.
Proof.
  assert (reachable sample_projection) as H by (apply reach_append; discriminate).
  split; [exact H|]. exact (proj1 (transcript_bounded sample_projection H)).
Defined.

Example sample_visible :
  map item (visibleAcpTranscriptItems (Some sample_projection))
  = [IUser (js "hi") [] None;
     IText agent None [js "hello"] (js "hello");
     ITool (js "t1") [(js "sessionUpdate", VStr (js "tool_call_update"));
                      (js "toolCallId", VStr (js "t1")); (js "title", VStr (js "done"))];
     ITurnEnd (js "end_turn")].
Proof. vm_compute. reflexivity. Qed.

(** ** Tool updates *)

(** an update of a tool call that the index knows replaces exactly that call's
    visible item, merging the update over its data and counting one revision; an
    unknown call becomes a new item at the end. Nothing else changes but the
    oldest items that no longer fit. *)
Theorem tool_update_lands t k id update :
  item_inv t ->
  match mget (toolIndex t) id with
  | Some i =>
    exists j x data, live_items t !! j = Some x /\ item x = ITool id data
    /\ (j + wstart (items t))%nat = i
    /\ live_items (updateTool t k id update)
       = shrink 1 item_limit (<[j := bump x (ITool id (spread data update))]> (live_items t))
  | None =>
    live_items (updateTool t k id update)
    = shrink 1 item_limit (live_items t ++ [mkItem k 0 (ITool id update)])
    /\ is_Some (mget (toolIndex (updateTool t k id update)) id)
  end.
Proof.
  intros [Hr Ht]. pose proof (rs_rep _ Hr) as Hrep. unfold updateTool.
  destruct (mget (toolIndex t) id) as [i|] eqn:Hi.
  - destruct (ir_tools _ Hrep _ _ Hi) as (Hle & x & Hx & Hid). rewrite Hx.
    unfold tool_id in Hid. destruct (item x) as [| |id' data| | | |] eqn:Hix; try done.
    injection Hid as ->. exists (i - wstart (items t))%nat, x, data.
    split; [|split; [done|split; [lia|]]].
    + unfold live_items, wlive. rewrite lookup_drop. by rewrite Nat.add_comm, Nat.sub_add.
    + by eapply replaceItem_spec; eauto; unfold tool_id; cbn; rewrite ?Hix.
  - unfold appendTool. destruct (appendItem_spec t (mkItem k 0 (ITool id update)) Hrep) as [_ H].
    destruct (appendItem t _) as [t' n]. split; [done|]. cbn. by rewrite mget_set_eq.
Qed.

Definition sample_tools : Transcript :=
  transcript (fst (appendAcpConversationEvents None (take 4 sample_events))).

Lemma tool_update_lands_witness :
  item_inv sample_tools /\ mget (toolIndex sample_tools) (js "t1") = Some 2%nat
  /\ exists j x data, live_items sample_tools !! j = Some x /\ item x = ITool (js "t1") data
    /\ (j + wstart (items sample_tools))%nat = 2%nat
    /\ live_items (updateTool sample_tools (js "k") (js "t1") [])
       = shrink 1 item_limit (<[j := bump x (ITool (js "t1") (spread data []))]>
                                (live_items sample_tools)).
Proof.
  assert (item_inv sample_tools) as H.
  { apply pi_items, reachable_inv, reach_append. discriminate. }
  split; [exact H|]. split; [vm_compute; reflexivity|].
  exact (tool_update_lands sample_tools (js "k") (js "t1") [] H).
Defined.

(** ** Streamed text *)

Lemma slice_tail_app a b n :
  (n <= Z.of_nat (length b)) -> slice_tail (a ++ b) n = slice_tail b n.
Proof.
  intros H. unfold slice_tail, slice_last. rewrite length_app, drop_app_ge by lia.
  f_equal. lia.
Qed.

Lemma slice_tail_slice s m n :
  n <= m -> slice_tail (slice_tail s m) n = slice_tail s n.
Proof.
  intros H. unfold slice_tail, slice_last. rewrite length_drop, drop_drop. f_equal. lia.
Qed.

Lemma slice_tail_snoc a b n : slice_tail (slice_tail a n ++ b) n = slice_tail (a ++ b) n.
Proof.
  destruct (decide (n <= Z.of_nat (length (slice_tail a n ++ b)))) as [H|H].
  - rewrite <- (take_drop (length a - Z.to_nat n) a) at 2. rewrite <- app_assoc.
    symmetry. by apply slice_tail_app.
  - rewrite length_app in H. unfold slice_tail at 2, slice_last.
    replace (length a - Z.to_nat n)%nat with 0%nat; [by rewrite drop_0|].
    unfold slice_tail, slice_last in H. rewrite length_drop in H. lia.
Qed.

Lemma slice_tail_suffix s n : exists k, s = k ++ slice_tail s n.
Proof. unfold slice_tail, slice_last. eexists. by rewrite take_drop. Qed.

Lemma slice_tail_length s n :
  n <= Z.of_nat (length s) -> 0 <= n -> Z.of_nat (length (slice_tail s n)) = n.
Proof. intros. unfold slice_tail, slice_last. rewrite length_drop. lia. Qed.

Lemma live_tail t l x : live_items t = l ++ [x] -> tail_item t = Some x.
Proof.
  intros H. unfold tail_item. rewrite <- (take_drop (wstart (items t)) (wxs (items t))).
  unfold live_items, wlive in H. by rewrite H, app_assoc, last_snoc.
Qed.

Lemma shrink_last (over : list AcpTranscriptItem -> bool) l x :
  exists k, shrink 1 over (l ++ [x]) = k ++ [x].
Proof.
  induction l as [|y l [k IH]]; [by exists []|]. cbn [app shrink].
  case_match; [by exists k|]. by exists (y :: l).
Qed.

Lemma replace_tail t x old a :
  item_rep t -> tail_item t = Some old -> tool_id x = tool_id old ->
  replaced_bytes t (tail_index t) x a ->
  item_rest (replaceItem t (tail_index t) x a)
  /\ tail_item (replaceItem t (tail_index t) x a) = Some x.
Proof.
  intros H1 H2 H3 H4. destruct (replace_tail_spec t x old a H1 H2 H3 H4) as (l & _ & H5 & H6).
  split; [done|]. destruct (shrink_last item_limit l x) as [k Hk]. rewrite Hk in H6.
  by eapply live_tail.
Qed.

(** The tail holds the end of [full]: all of it, or at least 3 MiB of it once the
    transcript has been marked truncated; its label shows the last 512 characters. *)
Definition tail_shows (t : Transcript) (kind : text_kind) (m : option jsstr) (full : jsstr)
    : Prop :=
  exists x shown lost,
    tail_item t = Some x
    /\ item x = IText kind m shown (slice_tail full MAX_ACTIVITY_TEXT_CHARS)
    /\ full = lost ++ concat shown
    /\ (lost = [] \/ replayTruncated t = true /\ COMPACTED_TEXT_BYTES <= utf16Bytes (concat shown)
                     /\ MAX_TRANSCRIPT_BYTES < utf16Bytes full).

Lemma single_text_bytes t x k m chunks a :
  item_rest t -> tail_item t = Some x -> item x = IText k m chunks a ->
  (wbytes (items t) <=? MAX_TRANSCRIPT_BYTES) = false ->
  MAX_TRANSCRIPT_BYTES < utf16Bytes (concat chunks).
Proof.
  intros [Hr Hl _] Ht Hx Hb. apply Z.leb_gt in Hb.
  destruct (tail_live _ _ Hr Ht) as (_ & _ & l & Hlive & _).
  pose proof (ir_win _ Hr) as (_ & _ & Hw). fold (live_items t) in Hw. rewrite Hw in Hb.
  destruct Hl as [Hl|[_ Hl]%orb_false_iff]; [|apply Z.ltb_ge in Hl; lia].
  rewrite Hlive in *. rewrite length_app in Hl. destruct l; cbn in *; [|lia].
  unfold transcriptItemBytes in Hb. rewrite Hx in Hb. rewrite sum_utf16_concat. lia.
Qed.

Lemma compact_tail_shows t kind m full :
  item_rest t -> tail_shows t kind m full ->
  tail_shows (compactOversizedTailText t) kind m full.
Proof.
  intros Hr (x & shown & lost & Ht & Hx & Hf & Hlost). unfold compactOversizedTailText.
  destruct (wbytes (items t) <=? MAX_TRANSCRIPT_BYTES) eqn:Hb; [by exists x, shown, lost|].
  pose proof (single_text_bytes _ _ _ _ _ _ Hr Ht Hx Hb) as Hbig.
  rewrite Ht, Hx. set (text := slice_tail (concat shown) _). set (x' := bump x _).
  destruct (replace_tail t x' x None (rs_rep _ Hr) Ht) as [_ Htail]; [|done|].
  { unfold tool_id. cbn. by rewrite Hx. }
  destruct (slice_tail_suffix (concat shown) (COMPACTED_TEXT_BYTES / 2)) as [k Hk].
  fold text in Hk. change (COMPACTED_TEXT_BYTES / 2) with 1572864 in *.
  unfold MAX_TRANSCRIPT_BYTES, utf16Bytes in Hbig.
  assert (Z.of_nat (length text) = 1572864) as Hlen by (apply slice_tail_length; lia).
  exists x', [text], (lost ++ k). split; [done|]. cbn [concat]. rewrite app_nil_r.
  repeat split.
  - unfold x'. cbn. f_equal. rewrite Hf. unfold text, MAX_ACTIVITY_TEXT_CHARS.
    rewrite slice_tail_slice by lia. symmetry. apply slice_tail_app. lia.
  - by rewrite <- app_assoc, <- Hk.
  - right. split; [done|]. unfold utf16Bytes, COMPACTED_TEXT_BYTES, MAX_TRANSCRIPT_BYTES.
    split; [lia|]. rewrite Hf, length_app. lia.
Qed.

Lemma fresh_text_shows t kind k m text :
  item_inv t ->
  tail_shows (compactOversizedTailText (fst (appendItem (collapseTailTextChunks t)
    (mkItem k 0 (IText kind m [text] (slice_tail text MAX_ACTIVITY_TEXT_CHARS)))))) kind m text.
Proof.
  intros Hi. pose proof (collapse_inv t Hi) as [Hr _]. apply compact_tail_shows.
  - by apply appendItem_spec, Hr.
  - eexists _, [text], []. split; [by apply append_tail, Hr|]. cbn. rewrite app_nil_r. eauto.
Qed.

Lemma next_text_shows t kind k m full text :
  item_inv t -> tail_shows t kind m full ->
  tail_shows (appendTextChunk t kind k None text) kind m (full ++ text).
Proof.
  intros Hi (x & shown & lost & Ht & Hx & Hf & Hlost). unfold appendTextChunk.
  rewrite Ht, Hx. rewrite bool_decide_true by done. cbn [andb orb].
  rewrite (bool_decide_true (None = None)) by done. cbn [orb].
  set (x' := bump x _). pose proof (rs_rep _ (proj1 Hi)) as Hrep.
  destruct (replace_tail t x' x (Some (utf16Bytes text)) Hrep Ht) as [Hr Htail].
  { unfold tool_id. cbn. by rewrite Hx. }
  { exists x. split; [by apply (tail_live t x Hrep)|].
    unfold transcriptItemBytes. rewrite Hx. cbn. rewrite map_app, sum_Z_app. cbn. lia. }
  apply compact_tail_shows; [done|].
  exists x', (shown ++ [text]), lost. split; [done|]. repeat split.
  - unfold x'. cbn. by rewrite slice_tail_snoc.
  - rewrite concat_app. cbn. by rewrite app_nil_r, Hf, app_assoc.
  - destruct Hlost as [?|(H1 & H2 & H3)]; [by left|]. right.
    rewrite concat_app. cbn. unfold utf16Bytes in *. rewrite !length_app.
    split; [|lia].
    assert (forall f t, replayTruncated t = true -> replayTruncated (trim_items f t) = true) as Hf1.
    { clear. induction f as [|f IH]; intros t Hb; cbn; [done|]. case_match; [|done]. by apply IH. }
    unfold replaceItem, trimTranscript, compact_items. case_match; cbn; by apply Hf1.
Qed.

Definition append_chunks (t : Transcript) (kind : text_kind) (chunks : list (jsstr * jsstr))
    : Transcript :=
  foldl (fun t '(k, text) => appendTextChunk t kind k None text) t chunks.

Lemma append_chunks_inv t kind chunks : item_inv t -> item_inv (append_chunks t kind chunks).
Proof.
  unfold append_chunks. revert t. induction chunks as [|[k s] l IH]; intros t Hi; cbn; [done|].
  by apply IH, appendTextChunk_inv.
Qed.

(** a message streamed in chunks ends up as one transcript item. After any
    non-empty sequence of chunks of one kind that does not continue an open message,
    the last visible item shows the concatenation of all of them, unless together they
    exceed 4 MiB: then it still shows their end, at least 3 MiB of it, and the
    transcript is marked truncated. Its label is the last 512 characters either way. *)
Theorem streamed_text_tail t kind k text chunks :
  item_inv t ->
  (forall x, tail_item t = Some x -> is_text x = false) ->
  let t' := append_chunks t kind ((k, text) :: chunks) in
  let full := text ++ concat (map snd chunks) in
  exists x shown lost,
    last (live_items t') = Some x
    /\ item x = IText kind None shown (slice_tail full MAX_ACTIVITY_TEXT_CHARS)
    /\ full = lost ++ concat shown
    /\ (utf16Bytes full <= MAX_TRANSCRIPT_BYTES -> concat shown = full)
    /\ (lost <> [] -> replayTruncated t' = true
                      /\ COMPACTED_TEXT_BYTES <= utf16Bytes (concat shown)).
Proof.
  intros Hi Hfresh t' full.
  assert (item_inv t') as Hi' by by apply append_chunks_inv.
  assert (tail_shows t' kind None full) as (x & shown & lost & Ht & Hx & Hf & Hlost).
  { unfold t', full, append_chunks. cbn [foldl].
    assert (tail_shows (appendTextChunk t kind k None text) kind None text) as H0.
    { unfold appendTextChunk. pose proof (fresh_text_shows t kind k None text Hi) as H.
      destruct (tail_item t) as [y|]; [|done]. specialize (Hfresh y eq_refl).
      unfold is_text in Hfresh. by destruct (item y). }
    pose proof (appendTextChunk_inv t kind k None text Hi) as H1. revert H0 H1.
    generalize (appendTextChunk t kind k None text). clear. revert text.
    induction chunks as [|[k s] l IH]; intros text t Ht Hi; cbn; [by rewrite app_nil_r|].
    rewrite app_assoc. apply IH; [by apply next_text_shows|by apply appendTextChunk_inv]. }
  exists x, shown, lost. split; [|split; [done|split; [done|split]]].
  - destruct (tail_live _ _ (rs_rep _ (proj1 Hi')) Ht) as (_ & _ & l & -> & _). by rewrite last_snoc.
  - intros Hle. destruct Hlost as [->|(_ & _ & ?)]; [done|lia].
  - intros Hne. destruct Hlost as [->|(? & ? & _)]; done.
Qed.

Lemma streamed_text_tail_witness :
  item_inv (transcript (emptyProjection false))
  /\ exists x shown lost,
       last (live_items (append_chunks (transcript (emptyProjection false)) agent
         [(js "k", js "he"); (js "k2", js "llo")])) = Some x
       /\ item x = IText agent None shown (js "hello")
       /\ js "hello" = lost ++ concat shown
       /\ (utf16Bytes (js "hello") <= MAX_TRANSCRIPT_BYTES -> concat shown = js "hello")
       /\ (lost <> [] -> replayTruncated (append_chunks (transcript (emptyProjection false)) agent
             [(js "k", js "he"); (js "k2", js "llo")]) = true
           /\ COMPACTED_TEXT_BYTES <= utf16Bytes (concat shown)).
Proof.
  assert (item_inv (transcript (emptyProjection false))) as H by apply empty_inv.
  split; [exact H|].
  apply (streamed_text_tail _ agent (js "k") (js "he") [(js "k2", js "llo")] H).
  intros x Hx. discriminate Hx.
Defined.

(** ** Delivery order

    Two projections are equivalent when they differ at most in their revision counter
    and their truncation flag, which no operation reads to decide anything else. *)

#[export] Instance transcript_equiv : Equiv Transcript := fun t t' =>
  items t = items t' /\ toolIndex t = toolIndex t'.
#[export] Instance projection_equiv : Equiv AcpConversationProjection := fun p p' =>
  lastSequence p = lastSequence p' /\ configOptions p = configOptions p'
  /\ pendingPermissionId p = pendingPermissionId p' /\ recent p = recent p'
  /\ transcript p ≡ transcript p'.

#[export] Instance transcript_equivalence : Equivalence (≡@{Transcript}).
Proof. split; [by split|intros ?? []; by split|intros ??? [] []; split; congruence]. Qed.
#[export] Instance projection_equivalence : Equivalence (≡@{AcpConversationProjection}).
Proof.
  split.
  - by repeat split.
  - intros ?? (? & ? & ? & ? & ?). repeat split; try done; by destruct H3.
  - intros ??? (? & ? & ? & ? & ?) (? & ? & ? & ? & ?).
    repeat split; try congruence; destruct H3, H8; congruence.
Qed.

Lemma transcript_equiv_flag w ix b b' : mkTranscript w ix b ≡ mkTranscript w ix b'.
Proof. by split. Qed.

#[export] Instance trim_items_proper f : Proper ((≡) ==> (≡)) (trim_items f).
Proof.
  induction f as [|f IH]; intros t t' H; [done|]. destruct H as [Hw Hi]. cbn.
  rewrite Hw, Hi. by case_match; [apply IH|split].
Qed.
#[export] Instance compact_items_proper : Proper ((≡) ==> (≡)) compact_items.
Proof. intros t t' [Hw Hi]. unfold compact_items. rewrite Hw. by case_match; split. Qed.
#[export] Instance trimTranscript_proper : Proper ((≡) ==> (≡)) trimTranscript.
Proof.
  intros t t' H. unfold trimTranscript. pose proof H as [Hw _]. rewrite Hw. by rewrite H.
Qed.
#[export] Instance replaceItem_proper : Proper ((≡) ==> (=) ==> (=) ==> (=) ==> (≡)) replaceItem.
Proof.
  intros t t' [Hw Hi] n ? <- i ? <- a ? <-. unfold replaceItem. rewrite Hw.
  apply trimTranscript_proper. by split.
Qed.
#[export] Instance appendItem_proper : Proper ((≡) ==> (=) ==> (≡)) (fun t i => fst (appendItem t i)).
Proof.
  intros t t' [Hw Hi] i ? <-. cbn. apply trimTranscript_proper. rewrite Hw. by split.
Qed.
Lemma tail_item_equiv t t' : t ≡ t' -> tail_item t = tail_item t' /\ tail_index t = tail_index t'.
Proof. intros [Hw _]. unfold tail_item, tail_index. by rewrite Hw. Qed.

#[export] Instance collapse_proper : Proper ((≡) ==> (≡)) collapseTailTextChunks.
Proof.
  intros t t' H. unfold collapseTailTextChunks. destruct (tail_item_equiv _ _ H) as [-> ->].
  repeat case_match; try done. by rewrite H.
Qed.
#[export] Instance compact_oversized_proper : Proper ((≡) ==> (≡)) compactOversizedTailText.
Proof.
  intros t t' H. unfold compactOversizedTailText. pose proof H as [Hw _].
  destruct (tail_item_equiv _ _ H) as [-> ->]. rewrite Hw.
  repeat case_match; try done. split; cbn; by apply replaceItem_proper.
Qed.
#[export] Instance appendTextChunk_proper :
  Proper ((≡) ==> (=) ==> (=) ==> (=) ==> (=) ==> (≡)) appendTextChunk.
Proof.
  intros t t' H a ? <- b ? <- c ? <- d ? <-. unfold appendTextChunk.
  destruct (tail_item_equiv _ _ H) as [-> ->].
  assert (forall i, compactOversizedTailText (fst (appendItem (collapseTailTextChunks t) i))
    ≡ compactOversizedTailText (fst (appendItem (collapseTailTextChunks t') i))) as Hf.
  { intros i. apply compact_oversized_proper, appendItem_proper; [by rewrite H|done]. }
  destruct (tail_item t') as [x|]; [|apply Hf].
  destruct (item x); try apply Hf. case_match; [by rewrite H|apply Hf].
Qed.
#[export] Instance append_boundary_proper :
  Proper ((≡) ==> (=) ==> (=) ==> (≡)) append_boundary.
Proof.
  intros t t' H a ? <- b ? <-. unfold append_boundary. apply appendItem_proper; [by rewrite H|done].
Qed.
#[export] Instance appendUserChunk_proper :
  Proper ((≡) ==> (=) ==> (=) ==> (=) ==> (≡)) appendUserChunk.
Proof.
  intros t t' H a ? <- b ? <- c ? <-. unfold appendUserChunk.
  destruct (tail_item_equiv _ _ H) as [-> ->].
  repeat case_match; try by apply append_boundary_proper. by rewrite H.
Qed.
#[export] Instance appendTool_proper : Proper ((≡) ==> (=) ==> (=) ==> (=) ==> (≡)) appendTool.
Proof.
  intros t t' H a ? <- b ? <- c ? <-. unfold appendTool.
  pose proof (appendItem_proper t t' H _ _ (eq_refl (mkItem a 0 (ITool b c)))) as Hf.
  cbn in Hf. cbn. pose proof (proj2 (tail_item_equiv _ _ Hf)) as Hi.
  destruct Hf as [Hw Hx]. split; cbn; [done|]. by rewrite Hx, Hi.
Qed.
#[export] Instance updateTool_proper : Proper ((≡) ==> (=) ==> (=) ==> (=) ==> (≡)) updateTool.
Proof.
  intros t t' H a ? <- b ? <- c ? <-. unfold updateTool. pose proof H as [Hw Hi].
  rewrite Hw, Hi. repeat case_match; by rewrite H.
Qed.
#[export] Instance project_update_proper :
  Proper ((≡) ==> (=) ==> (=) ==> (≡)) project_update.
Proof.
  intros t t' H a ? <- b ? <-. unfold project_update. repeat case_match; by rewrite H.
Qed.
#[export] Instance projectEvent_proper : Proper ((≡) ==> (=) ==> (≡)) projectEvent.
Proof.
  intros p p' (H1 & H2 & H3 & H4 & H5) e ? <-. unfold projectEvent. rewrite H3, H2.
  repeat case_match; unfold equiv at 1, projection_equiv; cbn; split_and!; try done;
    first [by apply append_boundary_proper | by apply project_update_proper].
Qed.
#[export] Instance appendMonotonicEvent_proper :
  Proper ((≡) ==> (=) ==> (≡)) appendMonotonicEvent.
Proof.
  intros p p' (H1 & H2 & H3 & H4 & H5) e ? <-. unfold appendMonotonicEvent.
  apply projectEvent_proper; [|done]. unfold equiv, projection_equiv; cbn.
  by rewrite H4.
Qed.
#[export] Instance fold_monotonic_proper :
  Proper ((≡) ==> (=) ==> (≡)) (foldl appendMonotonicEvent).
Proof.
  intros p p' H l ? <-. revert p p' H. induction l as [|e l IH]; intros p p' H; cbn; [done|].
  apply IH. by rewrite H.
Qed.

Definition before (e f : AcpSessionEvent) : Prop := sequence e < sequence f.
Notation in_order l := (StronglySorted Z.lt (sequences l)).

#[export] Instance before_antisymm : AntiSymm (=) before.
Proof. intros e f He Hf. unfold before in *. lia. Qed.

Lemma in_order_before l : in_order l -> StronglySorted before l.
Proof.
  unfold sequences. induction l as [|e l IH]; cbn; intros H; [constructor|].
  apply StronglySorted_inv in H as [H He]. constructor; [by apply IH|].
  by rewrite Forall_map in He.
Qed.

Lemma in_order_NoDup l : in_order l -> NoDup l.
Proof.
  unfold sequences. induction l as [|e l IH]; cbn; intros H; [constructor|].
  apply NoDup_cons. split; [|apply IH; by apply StronglySorted_inv in H as [H _]].
  intros He. eapply sorted_head_notin; [exact H|]. by apply list_elem_of_fmap_2.
Qed.

Lemma in_order_inj l e f : in_order l -> e ∈ l -> f ∈ l -> sequence e = sequence f -> e = f.
Proof.
  unfold sequences. induction l as [|x l IH]; cbn; intros H; [by intros ?%elem_of_nil|].
  pose proof (sorted_head_notin _ _ H) as Hn. apply StronglySorted_inv in H as [H _].
  intros [->|He]%elem_of_cons [->|Hf]%elem_of_cons Heq; [done| | |by apply IH].
  - destruct Hn. rewrite Heq. by apply list_elem_of_fmap_2.
  - destruct Hn. rewrite <- Heq. by apply list_elem_of_fmap_2.
Qed.

Lemma in_order_ext k l : in_order k -> in_order l -> (forall e, e ∈ k <-> e ∈ l) -> k = l.
Proof.
  intros Hk Hl H. apply (StronglySorted_unique before); [by apply in_order_before..|].
  apply NoDup_Permutation; [by apply in_order_NoDup..|done].
Qed.

Lemma in_order_head l e :
  in_order l -> e ∈ l -> (forall f, f ∈ l -> sequence e <= sequence f) -> head l = Some e.
Proof.
  intros Hl He Hmin. destruct l as [|x l]; [by apply elem_of_nil in He|]. cbn. f_equal.
  pose proof (Hmin x ltac:(by left)) as Hx. apply elem_of_cons in He as [->|He]; [done|].
  cbn in Hl. apply StronglySorted_inv in Hl as [_ Hl]. rewrite Forall_forall in Hl.
  specialize (Hl (sequence e)). assert (sequence e ∈ map sequence l) as Hin
    by by apply list_elem_of_fmap_2. specialize (Hl Hin). lia.
Qed.

Lemma sum_Z_perm k l : k ≡ₚ l -> sum_Z k = sum_Z l.
Proof. induction 1; cbn; lia. Qed.

Lemma recent_limit_sub k l :
  NoDup k -> (forall e, e ∈ k -> e ∈ l) -> recent_limit l = false -> recent_limit k = false.
Proof.
  intros Hd Hs [H1 H2]%orb_false_iff. apply Z.ltb_ge in H1, H2.
  assert (k ⊆+ l) as (r & Hr)%submseteq_Permutation by by apply NoDup_submseteq.
  rewrite Hr, length_app in H1.
  rewrite (sum_Z_perm _ (map approximateEventBytes (k ++ r))) in H2 by by rewrite Hr.
  rewrite map_app, sum_Z_app in H2.
  assert (0 <= sum_Z (map approximateEventBytes r)).
  { apply sum_Z_nonneg, Forall_forall. intros z (e & -> & _)%list_elem_of_fmap.
    unfold approximateEventBytes, json_bytes, utf16Bytes. repeat case_match; lia. }
  apply orb_false_iff. split; apply Z.ltb_ge; lia.
Qed.

Lemma list_snoc_NoDup_sub (l : list AcpSessionEvent) e : in_order (l ++ [e]) -> in_order l.
Proof.
  unfold sequences. rewrite map_app. intros H. by apply StronglySorted_app_1_l in H.
Qed.

(** The projection after the events of [l], in order and once each. *)
Definition replay (l : list AcpSessionEvent) : AcpConversationProjection :=
  foldl appendMonotonicEvent (emptyProjection false) l.

Lemma replay_recent l :
  in_order l -> recent_limit l = false ->
  projection_inv (replay l) /\ recent_live (replay l) = l
  /\ lastSequence (replay l) = default 0 (last (sequences l)).
Proof.
  unfold replay. induction l as [|e l IH] using rev_ind; intros Ho Hl.
  { split; [apply empty_inv|done]. }
  pose proof (list_snoc_NoDup_sub _ _ Ho) as Ho'.
  destruct IH as (H1 & H2 & H3); [done| |].
  { eapply recent_limit_sub; [by apply in_order_NoDup| |exact Hl]. intros x Hx.
    apply elem_of_app. by left. }
  rewrite foldl_app. cbn [foldl].
  destruct (append_monotonic_inv _ e H1) as (H4 & H5 & H6).
  { rewrite H2. intros s Hs. unfold sequences in *. rewrite map_app in Ho.
    eapply StronglySorted_app_1_elem_of; [exact Ho|done|by left]. }
  split; [done|]. rewrite H6, H2, H5. split; [by apply shrink_id|].
  unfold sequences. rewrite map_app. cbn [map]. by rewrite last_snoc.
Qed.

Lemma in_order_last l s :
  in_order l -> s ∈ sequences l -> s <= default 0 (last (sequences l)).
Proof.
  destruct l as [|e l _] using rev_ind; [by intros _ ?%elem_of_nil|].
  unfold sequences. rewrite map_app. cbn [map]. rewrite last_snoc. intros Ho.
  intros [Hs| ->%list_elem_of_singleton]%elem_of_app; [|done].
  apply Z.lt_le_incl. eapply StronglySorted_app_1_elem_of; [exact Ho|done|by left].
Qed.

Lemma create_replay l b : createAcpConversationProjection l b ≡ replay (reconcileEvents l).
Proof.
  unfold createAcpConversationProjection, replay.
  transitivity (foldl appendMonotonicEvent (emptyProjection b) (reconcileEvents l)).
  - by repeat split.
  - apply fold_monotonic_proper; [by repeat split|done].
Qed.

Section delivery.
Context (first_event : AcpSessionEvent) (rest : list AcpSessionEvent).
Context (Hsorted : in_order (first_event :: rest))
        (Hfits : recent_limit (first_event :: rest) = false).

(** [p] has seen exactly the events of [l], whatever the order. *)
Definition seen (p : AcpConversationProjection) (l : list AcpSessionEvent) : Prop :=
  p ≡ replay l /\ in_order l /\ (forall e, e ∈ l -> e ∈ first_event :: rest)
  /\ (l <> [] -> head l = Some first_event).

Lemma seen_empty b : seen (emptyProjection b) [].
Proof. split; [by repeat split|]. split; [constructor|]. by split; [intros e ?%elem_of_nil|]. Qed.

Lemma seen_facts p l :
  seen p l -> recent_rep (recent p) /\ recent_live p = l
  /\ lastSequence p = default 0 (last (sequences l)).
Proof.
  intros (Hp & Ho & Hsub & _).
  assert (recent_limit l = false) as Hl.
  { eapply recent_limit_sub; [by apply in_order_NoDup| |exact Hfits]. done. }
  destruct (replay_recent l Ho Hl) as (H1 & H2 & H3).
  destruct Hp as (E1 & _ & _ & E4 & _). unfold recent_live in *. rewrite E4, E1.
  split; [apply H1|done].
Qed.

Lemma first_min e : e ∈ first_event :: rest -> sequence first_event <= sequence e.
Proof.
  intros [->|He]%elem_of_cons; [done|]. cbn in Hsorted.
  apply StronglySorted_inv in Hsorted as [_ H]. rewrite Forall_forall in H.
  apply Z.lt_le_incl, H. by apply list_elem_of_fmap_2.
Qed.

Lemma seen_grow p k l e :
  p ≡ replay l -> in_order l -> e ∈ first_event :: rest ->
  (forall x, x ∈ k -> x ∈ first_event :: rest) -> (k = [] -> e = first_event) ->
  (k <> [] -> head k = Some first_event) ->
  (forall x, x ∈ l <-> x ∈ k ++ [e]) -> seen p l.
Proof.
  intros Hp Ho He Hk Hnil Hhead Hl.
  assert (forall x, x ∈ l -> x ∈ first_event :: rest) as Hsub.
  { intros x Hx. apply Hl, elem_of_app in Hx as [Hx| ->%list_elem_of_singleton]; auto. }
  repeat (split; [done|]). intros _. apply in_order_head; [done| |].
  - apply Hl, elem_of_app. destruct k as [|y k]; [right; rewrite Hnil; [by left|done]|].
    left. specialize (Hhead ltac:(done)). cbn in Hhead. simplify_eq. by left.
  - intros f Hf. by apply first_min, Hsub.
Qed.

Lemma seen_step p l e :
  seen p l -> e ∈ first_event :: rest -> (l = [] -> e = first_event) ->
  exists l', seen (fst (append_event p e)) l' /\ (forall x, x ∈ l' <-> x ∈ l ++ [e]).
Proof.
  intros Hs He Hnil. destruct (seen_facts p l Hs) as ((Hw & Hseq & Hord) & Hlive & Hlast).
  pose proof Hs as (Hp & Ho & Hsub & Hhead). unfold append_event, recent_live in *.
  rewrite Hlive in *. rewrite Hlast.
  destruct (sequence e <=? default 0 (last (sequences l))) eqn:Hle.
  2: { apply Z.leb_gt in Hle. exists (l ++ [e]). split; [|done]. cbn.
    apply (seen_grow _ l _ e); try done.
    - unfold replay. rewrite foldl_app. cbn. by rewrite Hp.
    - unfold sequences. rewrite map_app. apply sorted_snoc; [done|].
      intros s Hin. pose proof (in_order_last _ _ Ho Hin). cbn. lia. }
  case_bool_decide as Hin.
  { exists l. split; [done|]. intros x. rewrite elem_of_app, list_elem_of_singleton.
    split; [by left|]. intros [?| ->]; [done|].
    apply Hseq in Hin. apply list_elem_of_fmap in Hin as (y & Heq & Hy).
    by rewrite (in_order_inj _ _ _ Hsorted He (Hsub _ Hy) Heq). }
  assert (match wxs (recentEvents (recent p)) !! wstart (recentEvents (recent p)) with
    | Some earliest => sequence e <? sequence earliest | None => false end = false) as ->.
  { destruct (_ !! _) as [y|] eqn:Hy; [|done]. apply Z.ltb_ge.
    assert (head l = Some y) as Hl.
    { rewrite <- Hlive. unfold wlive. rewrite head_lookup, lookup_drop, Nat.add_0_r. done. }
    destruct l as [|z l]; [done|]. specialize (Hhead ltac:(done)). simplify_eq/=.
    by apply first_min. }
  cbn. assert (forall x, x ∈ l ++ [e] -> x ∈ first_event :: rest) as Hsub'.
  { intros x [Hx| ->%list_elem_of_singleton]%elem_of_app; auto. }
  assert (forall x, x ∈ reconcileEvents (l ++ [e]) <-> x ∈ l ++ [e]) as Hrec.
  { intros x. split; [apply reconcile_elem|]. intros Hx.
    assert (sequence x ∈ sequences (reconcileEvents (l ++ [e]))) as Hsx.
    { apply reconcile_sequences. by apply list_elem_of_fmap_2. }
    apply list_elem_of_fmap in Hsx as (y & Heq & Hy).
    rewrite (in_order_inj _ x y Hsorted); [done|auto|auto using reconcile_elem|done]. }
  exists (reconcileEvents (l ++ [e])). split; [|done].
  apply (seen_grow _ l _ e); try done; [apply create_replay|apply reconcile_sorted].
Qed.

Lemma seen_loop p l events :
  seen p l -> (forall e, e ∈ events -> e ∈ first_event :: rest) ->
  (l = [] -> events <> [] -> head events = Some first_event) ->
  exists l', seen (fst (append_events_loop p events)) l'
  /\ (forall x, x ∈ l' <-> x ∈ l \/ x ∈ events).
Proof.
  unfold append_events_loop. generalize false.
  revert p l. induction events as [|e events IH]; intros p l c Hs Hin Hhead; cbn.
  { exists l. split; [done|]. intros x. rewrite elem_of_nil. tauto. }
  destruct (seen_step p l e Hs) as (l1 & H1 & H2); [apply Hin; by left| |].
  { intros Hl. specialize (Hhead Hl ltac:(done)). by simplify_eq/=. }
  destruct (append_event p e) as [p1 c1]. cbn in *.
  destruct (IH p1 l1 (c || c1) H1) as (l' & H3 & H4).
  { intros x Hx. apply Hin. by right. }
  { intros ->. exfalso. assert (e ∈ []) as H by (apply H2, elem_of_app; right; by left).
    by apply elem_of_nil in H. }
  exists l'. split; [done|]. intros x. rewrite H4, H2, elem_of_app, list_elem_of_singleton,
    elem_of_cons. tauto.
Qed.

End delivery.

(** One call of [appendAcpConversationEvents] per batch, as the session store makes. *)
Definition deliver (current : option AcpConversationProjection)
    (batches : list (list AcpSessionEvent)) : option AcpConversationProjection :=
  foldl (fun current events => Some (fst (appendAcpConversationEvents current events)))
    current batches.

Lemma seen_batches e0 rest batches p l :
  in_order (e0 :: rest) -> recent_limit (e0 :: rest) = false ->
  seen e0 rest p l -> (forall e, e ∈ concat batches -> e ∈ e0 :: rest) ->
  (l = [] -> concat batches <> [] -> head (concat batches) = Some e0) ->
  exists p' l', deliver (Some p) batches = Some p' /\ seen e0 rest p' l'
  /\ (forall x, x ∈ l' <-> x ∈ l \/ x ∈ concat batches).
Proof.
  intros Ho Hf. revert p l. induction batches as [|b bs IH]; intros p l Hs Hin Hhead; cbn.
  { exists p, l. split; [done|]. split; [done|]. intros x. rewrite elem_of_nil. tauto. }
  destruct (seen_loop e0 rest Ho Hf p l b Hs) as (l1 & H1 & H2).
  { intros e He. apply Hin. cbn. apply elem_of_app. by left. }
  { intros Hl Hb. cbn in Hhead. destruct b as [|x b]; [done|]. cbn. by apply Hhead. }
  unfold appendAcpConversationEvents. cbn [default from_option]. unfold id.
  destruct (append_events_loop p b) as [p1 c]. cbn in H1.
  set (p2 := fst _). assert (seen e0 rest p2 l1) as H3.
  { destruct H1 as (Hp & H1). split; [|done]. rewrite <- Hp. unfold p2.
    by destruct c; cbn; repeat split. }
  destruct (IH p2 l1 H3) as (p' & l' & H4 & H5 & H6).
  { intros e He. apply Hin. cbn. apply elem_of_app. by right. }
  { intros ->. cbn in Hhead. intros Hne. destruct b as [|x b]; [|exfalso].
    - apply Hhead; [|done]. destruct l as [|y l]; [done|].
      assert (y ∈ []) as H by (apply H2; left; by left). by apply elem_of_nil in H.
    - assert (x ∈ []) as H by (apply H2; right; by left). by apply elem_of_nil in H. }
  exists p', l'. split; [done|]. split; [done|]. intros x. cbn.
  rewrite H6, H2, elem_of_app. tauto.
Qed.



(** ** A forgotten tool call *)

Definition message_event (n : nat) : AcpSessionEvent :=
  mkEvent (js "s") (Z.of_nat n) [] (userMessage (js "m") []).
(** Two announcements of one tool call, then enough messages to drop the first. *)
Definition duplicate_call_events : list AcpSessionEvent :=
  tool_event 1 (js "tool_call") (js "t1") (js "a") :: map message_event (seq 2 9)
  ++ tool_event 11 (js "tool_call") (js "t1") (js "b") :: map message_event (seq 12 310).
Definition duplicate_call : AcpConversationProjection :=
  fst (appendAcpConversationEvents None duplicate_call_events).

(** Dropping the older item deletes the index entry that the newer one set, so the next
    update of the call opens a second visible item instead of updating the visible one. *)
Example duplicate_tool_call_forgotten :
  omap tool_id (visibleAcpTranscriptItems (Some duplicate_call)) = [js "t1"]
  /\ omap tool_id (visibleAcpTranscriptItems (Some (fst (appendAcpConversationEvents
       (Some duplicate_call) [tool_event 400 (js "tool_call_update") (js "t1") (js "c")]))))
     = [js "t1"; js "t1"].
Proof. vm_compute. split; reflexivity. Qed.
