(* ===== verification/SessionStore.v ===== *)
(** * The agent session store

    Models [src/features/agents/sessionStore.ts]: one store of session summaries and
    transcript projections that follows the active scope. Everything asynchronous that
    can reach the store (the change listener, the subscription and list promises, the
    flush timer) is an input, tagged with the generation its callback captured, and
    [handle] is the code that runs when it arrives, so an interleaving is a list of
    inputs. The transcript is used through the interface [ConversationLog] only. A
    summary carries the identity of its object, [session_ref], because the source
    compares summaries with [!==]: two summaries are one object when they agree on
    every field, the identity included. Publishing calls every listener; it is counted. *)

From S2P Require Import Prelude JsString JsMap JsValue Transcript.
From Stdlib Require String.
Import Stdlib.Strings.String.StringSyntax.

(** ** The interface of a conversation projection *)

Class ConversationLog (P : Type) := {
  log_equiv :: Equiv P;
  log_equivalence :: Equivalence (≡@{P});
  log_append : option P -> list AcpSessionEvent -> P;
  log_focus : option P -> list AcpSessionEvent -> bool -> P;
  (** Appending in two calls is appending in one. *)
  log_append_app c es fs : log_append (Some (log_append c es)) fs ≡ log_append c (es ++ fs);
  log_append_proper es p q : p ≡ q -> log_append (Some p) es ≡ log_append (Some q) es }.

(** ** Data *)

Record AcpSessionSummary := mkSummary {
  session_ref : nat; summary_id : jsstr; connectionId : jsstr;
  summary_lifecycle : AcpSessionLifecycle; writeConnectionId : option jsstr;
  updatedAt : jsstr }.
#[export] Instance AcpSessionSummary_eq_dec : EqDecision AcpSessionSummary.
Proof. solve_decision. Defined.

Record AcpSessionChanged := mkChanged {
  ch_session : option AcpSessionSummary; ch_event : option AcpSessionEvent }.

Record AcpSessionFocus := mkFocus {
  f_session : AcpSessionSummary; f_events : list AcpSessionEvent;
  f_truncated : bool; brokerSessionId : option jsstr }.

Record pending_change := mkPending {
  p_session : option AcpSessionSummary; p_events : list AcpSessionEvent }.

Definition MAX_ACP_SESSION_PROJECTIONS : nat := 16.

(** [previous && previous.updatedAt > session.updatedAt] *)
Definition outdated (previous session : AcpSessionSummary) : bool :=
  str_ltb (updatedAt session) (updatedAt previous).

(** [current.map((session) => \[session.id, session\])] *)
Definition by_id (ss : list AcpSessionSummary) : list (jsstr * AcpSessionSummary) :=
  map (fun s => (summary_id s, s)) ss.

(** The body of the loop: the map being merged and [changed]. *)
Definition merge_step (acc : list (jsstr * AcpSessionSummary) * bool) (session : AcpSessionSummary)
    : list (jsstr * AcpSessionSummary) * bool :=
  let '(m, changed) := acc in
  match mget m (summary_id session) with
  | Some previous =>
    if outdated previous session then (m, changed)
    else (mset m (summary_id session) session,
          changed || negb (bool_decide (previous = session)))
  | None => (mset m (summary_id session) session, true)
  end.

(** The merged list, and whether it is a new array. *)
Definition mergeAcpSessionSummaries (current incoming : list AcpSessionSummary)
    : list AcpSessionSummary * bool :=
  match incoming with
  | [] => (current, false)
  | _ =>
    let '(merged, changed) := foldl merge_step (mof (by_id current), false) incoming in
    if changed then (mvals merged, true) else (current, false)
  end.

Arguments mergeAcpSessionSummaries : simpl never.

Definition isProjectionBoundary (event : option AcpSessionEvent) : bool :=
  match event with
  | None => true
  | Some e =>
    match body e with
    | sessionUpdate update =>
      let kind := recordString update (js "sessionUpdate") in
      negb (bool_decide (kind = Some (js "agent_message_chunk")))
      && negb (bool_decide (kind = Some (js "agent_thought_chunk")))
    | _ => true
    end
  end.

(** [change.session?.id ?? change.event?.sessionId], when it is truthy. *)
Definition change_id (change : AcpSessionChanged) : option jsstr :=
  truthy_text match ch_session change with
              | Some s => Some (summary_id s)
              | None => sessionId <$> ch_event change
              end.

(** [v === null] *)
Definition is_null (v : value) : bool := match v with VNull => true | _ => false end.

Section store.
Context {P : Type} `{ConversationLog P}.

Record AcpSessionSnapshot := mkSnapshot {
  scopeKey : option jsstr; sessions : list AcpSessionSummary;
  projections : list (jsstr * P); brokerSessionIds : list (jsstr * jsstr);
  loading : bool; snapshot_error : value }.

Definition EMPTY_SNAPSHOT : AcpSessionSnapshot := mkSnapshot None [] [] [] false VNull.
Definition pendingSnapshot (scope : jsstr) : AcpSessionSnapshot :=
  mkSnapshot (Some scope) [] [] [] true VNull.

(** [released] lists the subscriptions whose [unlisten] was called, [observed] the
    changes handed to the live observers, [publishes] the calls of [publish]. *)
Record AcpSessionStore := mkStore {
  snapshot : AcpSessionSnapshot; unlisten : option nat; generation : nat;
  pendingChanges : list (jsstr * pending_change); flushScheduled : bool;
  released : list nat; observed : list AcpSessionChanged; publishes : nat }.

Definition new_store : AcpSessionStore := mkStore EMPTY_SNAPSHOT None 0 [] false [] [] 0.

Definition publish (s : AcpSessionSnapshot) (st : AcpSessionStore) : AcpSessionStore :=
  mkStore s (unlisten st) (generation st) (pendingChanges st) (flushScheduled st)
    (released st) (observed st) (S (publishes st)).

(** [while (projections.size > MAX) ... delete(oldest)] *)
Fixpoint evict_oldest (m : list (jsstr * P)) : list (jsstr * P) :=
  match m with
  | [] => []
  | _ :: rest => if MAX_ACP_SESSION_PROJECTIONS <? length m then evict_oldest rest else m
  end.
Definition touchProjection (m : list (jsstr * P)) (id : jsstr) (p : P) : list (jsstr * P) :=
  evict_oldest (mtouch m id p).

(** The [for] loop of [applyChanges]: sessions, whether they are a new array, the
    projections, and whether a new map was made. *)
Definition apply_change (acc : list AcpSessionSummary * bool * list (jsstr * P) * bool)
    (entry : jsstr * pending_change) : list AcpSessionSummary * bool * list (jsstr * P) * bool :=
  let '(ss, fresh, ps, touched) := acc in
  let '(id, change) := entry in
  let '(ss, fresh) :=
    match p_session change with
    | Some s => let '(ss', c) := mergeAcpSessionSummaries ss [s] in (ss', fresh || c)
    | None => (ss, fresh)
    end in
  match p_events change with
  | [] => (ss, fresh, ps, touched)
  | events => (ss, fresh, touchProjection ps id (log_append (mget ps id) events), true)
  end.

Definition applyChanges (changes : list (jsstr * pending_change)) (st : AcpSessionStore)
    : AcpSessionStore :=
  let s := snapshot st in
  let '(ss, fresh, ps, touched) :=
    foldl apply_change (sessions s, false, projections s, false) changes in
  if negb fresh && negb touched then st
  else publish (mkSnapshot (scopeKey s) ss ps (brokerSessionIds s) (loading s)
                  (snapshot_error s)) st.

Definition with_pending (p : list (jsstr * pending_change)) (scheduled : bool)
    (st : AcpSessionStore) : AcpSessionStore :=
  mkStore (snapshot st) (unlisten st) (generation st) p scheduled (released st)
    (observed st) (publishes st).

Definition flushChanges (st : AcpSessionStore) : AcpSessionStore :=
  match pendingChanges st with
  | [] => with_pending [] false st
  | pending => applyChanges pending (with_pending [] false st)
  end.

(** The entry that [queueChange] stores for the session of [change]. *)
Definition queue_entry (pending : option pending_change) (change : AcpSessionChanged)
    : pending_change :=
  let before := pending ≫= p_session in
  mkPending
    match ch_session change with
    | None => before
    | Some s =>
      match before with
      | Some b => if outdated b s then before else Some s
      | None => Some s
      end
    end
    (match pending with Some p => p_events p | None => [] end
     ++ match ch_event change with Some e => [e] | None => [] end).

Definition queueChange (change : AcpSessionChanged) (st : AcpSessionStore) : AcpSessionStore :=
  let st := mkStore (snapshot st) (unlisten st) (generation st) (pendingChanges st)
              (flushScheduled st) (released st) (observed st ++ [change]) (publishes st) in
  match change_id change with
  | None => st
  | Some id =>
    let pending := mset (pendingChanges st) id
                     (queue_entry (mget (pendingChanges st) id) change) in
    if isProjectionBoundary (ch_event change)
    then flushChanges (with_pending pending (flushScheduled st) st)
    else with_pending pending true st
  end.

Definition activate (scope : jsstr) (st : AcpSessionStore) : AcpSessionStore :=
  let s := snapshot st in
  if bool_decide (scopeKey s = Some scope)
     && (loading s || is_null (snapshot_error s))
  then st
  else
    publish (pendingSnapshot scope)
      (mkStore s None (S (generation st)) [] false
         (released st ++ match unlisten st with Some g => [g] | None => [] end)
         (observed st) (publishes st)).

(** Returns the store and the boolean of the source. *)
Definition recordFocus (scope : jsstr) (focus : AcpSessionFocus) (st : AcpSessionStore)
    : AcpSessionStore * bool :=
  let s := snapshot st in
  if negb (bool_decide (scopeKey s = Some scope)) then (st, false)
  else
    let id := summary_id (f_session focus) in
    let '(ss, _) := mergeAcpSessionSummaries (sessions s) [f_session focus] in
    let ps := touchProjection (projections s) id
                (log_focus (mget (projections s) id) (f_events focus) (f_truncated focus)) in
    let brokers := match truthy_text (brokerSessionId focus) with
                   | Some b => mset (brokerSessionIds s) id b
                   | None => mdel (brokerSessionIds s) id end in
    (publish (mkSnapshot (scopeKey s) ss ps brokers (loading s) (snapshot_error s)) st, true).

(** ** Asynchronous inputs *)

(** The callbacks that [activate] installs carry its generation. *)
Inductive input :=
| Activate (scope : jsstr)
| Focus (scope : jsstr) (focus : AcpSessionFocus)
| FlushTimer
| Changed (g : nat) (change : AcpSessionChanged)
| Subscribed (g : nat)
| Listed (g : nat) (incoming : list AcpSessionSummary)
| Rejected (g : nat) (err : value).

Definition finish_loading (ss : list AcpSessionSummary) (err : value)
    (st : AcpSessionStore) : AcpSessionStore :=
  let s := snapshot st in
  publish (mkSnapshot (scopeKey s) ss (projections s) (brokerSessionIds s) false err) st.

Definition handle (st : AcpSessionStore) (i : input) : AcpSessionStore :=
  match i with
  | Activate scope => activate scope st
  | Focus scope focus => fst (recordFocus scope focus st)
  | FlushTimer => if flushScheduled st then flushChanges st else st
  | Changed g change => if g =? generation st then queueChange change st else st
  | Subscribed g =>
    if g =? generation st
    then mkStore (snapshot st) (Some g) (generation st) (pendingChanges st) (flushScheduled st)
           (released st) (observed st) (publishes st)
    else mkStore (snapshot st) (unlisten st) (generation st) (pendingChanges st)
           (flushScheduled st) (released st ++ [g]) (observed st) (publishes st)
  | Listed g incoming =>
    if g =? generation st
    then finish_loading (fst (mergeAcpSessionSummaries (sessions (snapshot st)) incoming)) VNull st
    else st
  | Rejected g err =>
    if g =? generation st then finish_loading (sessions (snapshot st)) err st else st
  end.

Definition run (st : AcpSessionStore) (inputs : list input) : AcpSessionStore :=
  foldl handle st inputs.

End store.

Arguments AcpSessionSnapshot P : clear implicits.
Arguments AcpSessionStore P : clear implicits.

(** ** Merging summaries *)

Definition find_session (id : jsstr) (ss : list AcpSessionSummary) : option AcpSessionSummary :=
  findb (fun s => summary_id s ==s id) ss.

Definition unique_ids (ss : list AcpSessionSummary) : Prop := NoDup (map summary_id ss).

(** The summary kept for an id when [s] arrives. *)
Definition newer (o : option AcpSessionSummary) (s : AcpSessionSummary) : AcpSessionSummary :=
  match o with Some p => if outdated p s then p else s | None => s end.
Definition newer_for (id : jsstr) (o : option AcpSessionSummary) (s : AcpSessionSummary)
    : option AcpSessionSummary :=
  if bool_decide (summary_id s = id) then Some (newer o s) else o.

Definition keyed (m : list (jsstr * AcpSessionSummary)) : Prop :=
  NoDup (mkeys m) /\ forall k s, (k, s) ∈ m -> summary_id s = k.

Lemma by_id_keys ss : mkeys (by_id ss) = map summary_id ss.
Proof. unfold mkeys, by_id. by rewrite map_map. Qed.

Lemma by_id_vals ss : mvals (by_id ss) = ss.
Proof. unfold mvals, by_id. rewrite map_map. apply map_id. Qed.

Lemma by_id_keyed ss : unique_ids ss -> keyed (by_id ss).
Proof.
  intros H. split; [by rewrite by_id_keys|].
  intros k s (x & [= -> ->] & _)%list_elem_of_fmap. done.
Qed.

Lemma mof_by_id ss : unique_ids ss -> mof (by_id ss) = by_id ss.
Proof. intros H. apply mof_fresh. by rewrite by_id_keys. Qed.

Lemma keyed_find m id : keyed m -> find_session id (mvals m) = mget m id.
Proof.
  intros [Hd Hk]. unfold find_session. induction m as [|[k s] m IH]; cbn; [done|].
  rewrite (Hk k s) by by left. cbn in Hd. apply NoDup_cons in Hd as [_ Hd].
  unfold findb in *. cbn. case_bool_decide; case_decide; subst; try done.
  apply IH; [done|]. intros k' s' Hin. apply Hk. by right.
Qed.

Lemma keyed_unique m : keyed m -> unique_ids (mvals m).
Proof.
  intros [Hd Hk]. unfold unique_ids, mvals. rewrite map_map.
  rewrite (map_ext_in _ fst); [done|]. intros [k s] Hin. apply Hk. by apply list_elem_of_In.
Qed.

Lemma find_by_id ss id : unique_ids ss -> find_session id ss = mget (by_id ss) id.
Proof. intros H. rewrite <- (keyed_find (by_id ss)) by by apply by_id_keyed. by rewrite by_id_vals. Qed.

Lemma mset_same (m : list (jsstr * AcpSessionSummary)) k v : mget m k = Some v -> mset m k v = m.
Proof.
  induction m as [|[k' v'] m IH]; cbn; [done|]. case_decide; intros; simplify_eq; [done|].
  f_equal. auto.
Qed.

Lemma mset_keyed m k s : keyed m -> summary_id s = k -> keyed (mset m k s).
Proof.
  intros [Hd Hk] Hs. split; [by apply mset_NoDup|]. intros k' s' Hin.
  apply elem_mget in Hin; [|by apply mset_NoDup]. rewrite mget_set in Hin.
  case_decide; simplify_eq; [done|]. apply Hk. by apply mget_elem.
Qed.

Lemma merge_step_spec s m c id :
  keyed m ->
  let '(m', c') := merge_step (m, c) s in
  keyed m' /\ mget m' id = newer_for id (mget m id) s /\ (c' = false -> m' = m /\ c = false).
Proof.
  intros Hm. unfold merge_step, newer_for.
  destruct (mget m (summary_id s)) as [p|] eqn:Hp; [destruct (outdated p s) eqn:Ho|].
  - split; [done|split; [|done]]. case_bool_decide; [|done]. subst. rewrite Hp. cbn. by rewrite Ho.
  - split; [by apply mset_keyed|split].
    + rewrite mget_set. case_decide; case_bool_decide; subst; try done.
      rewrite Hp. cbn. by rewrite Ho.
    + intros [-> Hps]%orb_false_iff. apply negb_false_iff, bool_decide_eq_true in Hps as ->.
      by rewrite mset_same.
  - split; [by apply mset_keyed|split; [|done]].
    rewrite mget_set. case_decide; case_bool_decide; subst; try done. by rewrite Hp.
Qed.

Lemma merge_fold inc m c id :
  keyed m ->
  let '(m', c') := foldl merge_step (m, c) inc in
  keyed m' /\ mget m' id = foldl (newer_for id) (mget m id) inc
  /\ (c' = false -> m' = m /\ c = false).
Proof.
  revert m c. induction inc as [|s inc IH]; intros m c Hm; cbn [foldl]; [done|].
  pose proof (merge_step_spec s m c id Hm) as Hs.
  destruct (merge_step (m, c) s) as [m1 c1]. destruct Hs as (Hm1 & <- & Hc1).
  specialize (IH m1 c1 Hm1). destruct (foldl merge_step (m1, c1) inc) as [m' c'].
  destruct IH as (? & ? & Hc). split; [done|]. split; [done|].
  intros [-> Hf]%Hc. by apply Hc1.
Qed.

(** Merging keeps, for every id, the newest summary seen. *)
Lemma merge_find ss inc id :
  unique_ids ss ->
  find_session id (fst (mergeAcpSessionSummaries ss inc))
  = foldl (newer_for id) (find_session id ss) inc.
Proof.
  intros Hu. unfold mergeAcpSessionSummaries. destruct inc as [|s inc]; [done|].
  rewrite (find_by_id ss), mof_by_id by done.
  pose proof (merge_fold (s :: inc) (by_id ss) false id (by_id_keyed _ Hu)) as Hf.
  destruct (foldl merge_step _ (s :: inc)) as [m c]. destruct Hf as (Hk & <- & Hc).
  destruct c; [by apply keyed_find|]. destruct (Hc eq_refl) as [-> _].
  by apply find_by_id.
Qed.

Lemma merge_unique ss inc :
  unique_ids ss -> unique_ids (fst (mergeAcpSessionSummaries ss inc)).
Proof.
  intros Hu. unfold mergeAcpSessionSummaries. destruct inc as [|s inc]; [done|].
  rewrite mof_by_id by done.
  pose proof (merge_fold (s :: inc) (by_id ss) false [] (by_id_keyed _ Hu)) as Hf.
  destruct (foldl merge_step _ (s :: inc)) as [m c]. destruct Hf as (Hk & _ & _).
  destruct c; [by apply keyed_unique|done].
Qed.

Lemma merge_unchanged ss inc :
  unique_ids ss -> snd (mergeAcpSessionSummaries ss inc) = false ->
  fst (mergeAcpSessionSummaries ss inc) = ss.
Proof. intros _. unfold mergeAcpSessionSummaries. repeat case_match; done. Qed.

(** The order of updates: a summary never gives way to an older one. *)
Lemma newer_monotone id o s p : o = Some p ->
  exists p', newer_for id o s = Some p' /\ outdated p p' = false.
Proof.
  intros ->. unfold newer_for, newer. case_bool_decide.
  - destruct (outdated p s) eqn:E; eexists; (split; [done|]); [apply str_ltb_irrefl|done].
  - exists p. split; [done|]. apply str_ltb_irrefl.
Qed.

Lemma outdated_trans p q r : outdated p q = false -> outdated q r = false -> outdated p r = false.
Proof. unfold outdated. intros H1 H2. by eapply str_geb_trans. Qed.

Lemma newer_fold_monotone id inc o p : o = Some p ->
  exists p', foldl (newer_for id) o inc = Some p' /\ outdated p p' = false.
Proof.
  revert o p. induction inc as [|s inc IH]; intros o p Ho; cbn.
  - exists p. split; [done|]. apply str_ltb_irrefl.
  - destruct (newer_monotone id o s p Ho) as (q & Hq & Hle).
    destruct (IH _ q Hq) as (r & Hr & Hle'). exists r. split; [done|]. by eapply outdated_trans.
Qed.

(** Keeping the newer of three does not depend on the grouping. *)
Lemma newer_assoc o s t : newer o (newer (Some s) t) = newer (Some (newer o s)) t.
Proof.
  destruct o as [p|]; [|done]. cbn.
  destruct (outdated s t) eqn:E1, (outdated p s) eqn:E2; cbn; rewrite ?E1, ?E2; try done.
  - destruct (outdated p t) eqn:E3; [done|]. exfalso. unfold outdated in *.
    by rewrite (str_ltb_trans _ _ _ E1 E2) in E3.
  - by rewrite (outdated_trans _ _ _ E2 E1).
Qed.
