(* ===== verification/SessionStoreInv.v ===== *)
(** * What the agent session store guarantees

    Properties of file SessionStore, for every implementation of the conversation
    interface: bounds in every reachable state, summaries that never go back in time,
    a scope switch that forgets everything before it, and the equivalence of the
    coalesced updates with immediate ones. The last section gives the interface its
    instance, the transcript projection. *)

From S2P Require Import Prelude JsString JsMap JsValue Window Transcript TranscriptInv.
From S2P Require Import TranscriptReplay SessionStore.
From Stdlib Require String.
Import Stdlib.Strings.String.StringSyntax.

Section store.
Context {P : Type} `{ConversationLog P}.
Implicit Types (st : AcpSessionStore P) (i : input) (inputs : list input).

(** ** The invariant *)

(** A property of projections that appending and focusing establish. *)
Class LogInvariant (Good : P -> Prop) : Prop := {
  good_append c es : (forall p, c = Some p -> Good p) -> Good (log_append c es);
  good_focus c es b : (forall p, c = Some p -> Good p) -> Good (log_focus c es b) }.

Context (Good : P -> Prop) `{!LogInvariant Good}.

Record map_inv (m : list (jsstr * P)) : Prop := {
  mi_keys : NoDup (mkeys m);
  mi_size : length m <= MAX_ACP_SESSION_PROJECTIONS;
  mi_good : forall id p, (id, p) ∈ m -> Good p }.

Definition pending_inv (pending : list (jsstr * pending_change)) : Prop :=
  NoDup (mkeys pending)
  /\ forall id c s, (id, c) ∈ pending -> p_session c = Some s -> summary_id s = id.

Record store_inv st : Prop := {
  si_sessions : unique_ids (sessions (snapshot st));
  si_projections : map_inv (projections (snapshot st));
  si_pending : pending_inv (pendingChanges st);
  si_scheduled : pendingChanges st <> [] -> flushScheduled st = true }.

Lemma evict_oldest_drop (m : list (jsstr * P)) :
  evict_oldest m = drop (length m - MAX_ACP_SESSION_PROJECTIONS) m.
Proof.
  induction m as [|e m IH]; [done|]. cbn [evict_oldest].
  destruct (MAX_ACP_SESSION_PROJECTIONS <? length (e :: m)) eqn:E.
  - apply Nat.ltb_lt in E. rewrite IH. cbn [length] in *.
    by replace (S (length m) - MAX_ACP_SESSION_PROJECTIONS)
      with (S (length m - MAX_ACP_SESSION_PROJECTIONS)) by lia.
  - apply Nat.ltb_ge in E. by replace (_ - _) with 0 by lia.
Qed.

Lemma mget_good (m : list (jsstr * P)) id p : map_inv m -> mget m id = Some p -> Good p.
Proof. intros Hm Hp. eapply mi_good; [done|]. by apply mget_elem. Qed.

Lemma touch_inv m id p : map_inv m -> Good p -> map_inv (touchProjection m id p).
Proof.
  intros [Hk Hs Hg] Hp. unfold touchProjection. rewrite evict_oldest_drop. split.
  - unfold mkeys. rewrite <- skipn_map. eapply sublist_NoDup; [|apply sublist_drop].
    by apply mtouch_NoDup.
  - rewrite length_drop. lia.
  - intros id' q Hin. assert ((id', q) ∈ mtouch m id p) as Hq.
    { rewrite <- (take_drop (length (mtouch m id p) - MAX_ACP_SESSION_PROJECTIONS)).
      apply elem_of_app. by right. }
    rewrite mtouch_app in Hq. apply elem_of_app in Hq as [Hq|Hq].
    + apply filterb_elem in Hq as [_ Hq]. by eapply Hg.
    + apply list_elem_of_singleton in Hq. by simplify_eq.
Qed.

Lemma apply_change_inv acc e :
  unique_ids acc.1.1.1 -> map_inv acc.1.2 ->
  unique_ids (apply_change acc e).1.1.1 /\ map_inv (apply_change acc e).1.2.
Proof.
  destruct acc as [[[ss fresh] ps] touched], e as [id c]. cbn. intros Hu Hm.
  assert (unique_ids (fst (match p_session c with
    | Some s => let '(ss', c) := mergeAcpSessionSummaries ss [s] in (ss', fresh || c)
    | None => (ss, fresh) end))) as Hu'.
  { destruct (p_session c) as [s|]; [|done]. pose proof (merge_unique ss [s] Hu).
    by destruct (mergeAcpSessionSummaries ss [s]). }
  destruct (match p_session c with Some _ => _ | None => _ end) as [ss' fresh'].
  destruct (p_events c) as [|e es]; [done|]. split; [done|]. cbn.
  apply touch_inv; [done|]. apply good_append. intros p Hp. by eapply mget_good.
Qed.

Lemma apply_fold_inv changes acc :
  unique_ids acc.1.1.1 -> map_inv acc.1.2 ->
  unique_ids (foldl apply_change acc changes).1.1.1
  /\ map_inv (foldl apply_change acc changes).1.2.
Proof.
  revert acc. induction changes as [|e l IH]; intros acc Hu Hm; cbn; [done|].
  apply IH; by apply apply_change_inv.
Qed.

Lemma applyChanges_inv changes st :
  store_inv st -> pendingChanges st = [] -> store_inv (applyChanges changes st).
Proof.
  intros [Hs Hp Hq Hf] Hnil. unfold applyChanges.
  pose proof (apply_fold_inv changes (sessions (snapshot st), false,
    projections (snapshot st), false) Hs Hp) as [H1 H2].
  destruct (foldl apply_change _ changes) as [[[ss fresh] ps] touched].
  case_match; [by split|]. split; cbn; try done; by rewrite Hnil in *.
Qed.

Lemma applyChanges_pending changes st : pendingChanges (applyChanges changes st) = pendingChanges st.
Proof. unfold applyChanges. repeat case_match; done. Qed.

Lemma flush_inv st : store_inv st -> store_inv (flushChanges st).
Proof.
  intros Hs. assert (store_inv (with_pending [] false st)) as Hs0.
  { destruct Hs. split; try done. cbn. split; [constructor|]. by intros id c s ?%elem_of_nil. }
  unfold flushChanges. destruct (pendingChanges st); [done|]. by apply applyChanges_inv.
Qed.

Lemma truthy_text_some o s : truthy_text o = Some s -> o = Some s.
Proof. destruct o as [[|c o]|]; cbn; by intros; simplify_eq. Qed.

Lemma queue_entry_id pending change id s :
  (forall s, pending ≫= p_session = Some s -> summary_id s = id) ->
  change_id change = Some id -> p_session (queue_entry pending change) = Some s ->
  summary_id s = id.
Proof.
  intros Hp Hid%truthy_text_some Hs. unfold queue_entry in Hs. cbn in Hs.
  destruct (ch_session change) as [x|] eqn:Hx; [|by apply Hp].
  destruct (pending ≫= p_session) as [b|] eqn:Hb; [|by simplify_eq].
  destruct (outdated b x); simplify_eq; auto.
Qed.

Lemma mset_not_nil {A} (m : list (jsstr * A)) k v : mset m k v <> [].
Proof. destruct m as [|[k' v'] m]; cbn; [done|]. by case_decide. Qed.

Lemma queue_pending_inv pending change id :
  pending_inv pending -> change_id change = Some id ->
  pending_inv (mset pending id (queue_entry (mget pending id) change)).
Proof.
  intros [Hk Hid] Hc. split; [by apply mset_NoDup|].
  intros id' c s Hin%elem_mget Hs; [|by apply mset_NoDup]. rewrite mget_set in Hin.
  case_decide; simplify_eq.
  - eapply queue_entry_id; [|done..]. intros s' Hs'.
    apply bind_Some in Hs' as (c & Hc' & Hs'). eapply Hid; [|done]. by apply mget_elem.
  - eapply Hid; [by apply mget_elem|done].
Qed.

Lemma queue_inv change st : store_inv st -> store_inv (queueChange change st).
Proof.
  intros Hs. unfold queueChange.
  destruct (change_id change) as [id|] eqn:Hid; [|by destruct Hs; split].
  pose proof (queue_pending_inv _ change id (si_pending _ Hs) Hid) as Hq. cbn.
  assert (forall b, (b = true \/ b = false) -> store_inv (mkStore (snapshot st) (unlisten st) (generation st)
    (mset (pendingChanges st) id (queue_entry (mget (pendingChanges st) id) change)) true
    (released st) (observed st ++ [change]) (publishes st))) as Hs'.
  { intros _ _. destruct Hs. by split. }
  case_match; [|by apply (Hs' true); left].
  unfold flushChanges. cbn. destruct (mset _ id _) as [|e l] eqn:E.
  { exfalso. by eapply mset_not_nil. }
  apply applyChanges_inv; [|done]. destruct Hs. split; try done. cbn.
  split; [constructor|]. by intros ??? ?%elem_of_nil.
Qed.

Lemma publish_inv (s : AcpSessionSnapshot P) st :
  store_inv st -> unique_ids (sessions s) -> map_inv (projections s) ->
  store_inv (publish s st).
Proof. intros []. by split. Qed.

Lemma empty_map_inv : map_inv [].
Proof. split; [constructor|cbn; lia|]. by intros ?? ?%elem_of_nil. Qed.

Lemma activate_inv scope st : store_inv st -> store_inv (activate scope st).
Proof.
  intros Hs. unfold activate. case_match; [done|]. split; cbn; try done.
  - constructor.
  - apply empty_map_inv.
  - split; [constructor|]. by intros ??? ?%elem_of_nil.
Qed.

Lemma focus_inv scope focus st : store_inv st -> store_inv (fst (recordFocus scope focus st)).
Proof.
  intros Hs. unfold recordFocus. case_match; [done|].
  pose proof (merge_unique _ [f_session focus] (si_sessions _ Hs)) as Hu.
  destruct (mergeAcpSessionSummaries _ _) as [ss c]. cbn. apply publish_inv; [done..|]. cbn.
  apply touch_inv; [apply Hs|]. apply good_focus. intros p Hp.
  eapply mget_good; [apply Hs|done].
Qed.

Lemma handle_inv st i : store_inv st -> store_inv (handle st i).
Proof.
  intros Hs. destruct i; cbn.
  - by apply activate_inv.
  - by apply focus_inv.
  - case_match; [by apply flush_inv|done].
  - case_match; [by apply queue_inv|done].
  - case_match; by destruct Hs.
  - case_match; [|done]. apply publish_inv; [done|..|apply Hs]. cbn. by apply merge_unique, Hs.
  - case_match; [|done]. apply publish_inv; [done|apply Hs..].
Qed.

Lemma new_store_inv : store_inv new_store.
Proof.
  split; cbn; try done; [constructor|apply empty_map_inv|].
  split; [constructor|]. by intros ??? ?%elem_of_nil.
Qed.

Lemma run_inv inputs st : store_inv st -> store_inv (run st inputs).
Proof.
  unfold run. revert st. induction inputs as [|i l IH]; intros st Hs; cbn; [done|].
  by apply IH, handle_inv.
Qed.


(** ** Summaries only move forward *)

Definition forward (ss ss' : list AcpSessionSummary) : Prop :=
  forall id s, find_session id ss = Some s ->
  exists s', find_session id ss' = Some s' /\ outdated s s' = false.

Lemma forward_refl ss : forward ss ss.
Proof. intros id s Hs. exists s. split; [done|]. apply str_ltb_irrefl. Qed.

Lemma forward_trans a b c : forward a b -> forward b c -> forward a c.
Proof.
  intros Hab Hbc id s Hs. destruct (Hab _ _ Hs) as (s' & Hs' & H1).
  destruct (Hbc _ _ Hs') as (s'' & Hs'' & H2). exists s''. split; [done|].
  by eapply outdated_trans.
Qed.

Lemma merge_forward ss inc :
  unique_ids ss -> forward ss (fst (mergeAcpSessionSummaries ss inc)).
Proof.
  intros Hu id s Hs. rewrite merge_find by done. by apply newer_fold_monotone.
Qed.

Lemma apply_fold_forward changes acc :
  unique_ids acc.1.1.1 -> forward acc.1.1.1 (foldl apply_change acc changes).1.1.1.
Proof.
  revert acc. induction changes as [|[id c] l IH]; intros acc Hu; [apply forward_refl|]. cbn.
  assert (unique_ids (apply_change acc (id, c)).1.1.1
    /\ forward acc.1.1.1 (apply_change acc (id, c)).1.1.1) as [Hu' Hf].
  { destruct acc as [[[ss fresh] ps] touched]. cbn in *.
    destruct (p_session c) as [s|].
    - pose proof (merge_unique ss [s] Hu). pose proof (merge_forward ss [s] Hu).
      destruct (mergeAcpSessionSummaries ss [s]). by destruct (p_events c).
    - destruct (p_events c); (split; [done|apply forward_refl]). }
  eapply forward_trans; [exact Hf|]. by apply IH.
Qed.

Lemma applyChanges_forward changes st :
  unique_ids (sessions (snapshot st)) ->
  forward (sessions (snapshot st)) (sessions (snapshot (applyChanges changes st)))
  /\ generation (applyChanges changes st) = generation st.
Proof.
  intros Hu. unfold applyChanges.
  pose proof (apply_fold_forward changes (sessions (snapshot st), false,
    projections (snapshot st), false) Hu) as Hf.
  destruct (foldl apply_change _ changes) as [[[ss fresh] ps] touched].
  case_match; split; try done. apply forward_refl.
Qed.

Lemma flush_forward st :
  unique_ids (sessions (snapshot st)) ->
  forward (sessions (snapshot st)) (sessions (snapshot (flushChanges st)))
  /\ generation (flushChanges st) = generation st.
Proof.
  intros Hu. unfold flushChanges. destruct (pendingChanges st); [split; [apply forward_refl|done]|].
  by apply (applyChanges_forward _ (with_pending [] false st)).
Qed.

Lemma queue_forward change st :
  unique_ids (sessions (snapshot st)) ->
  forward (sessions (snapshot st)) (sessions (snapshot (queueChange change st)))
  /\ generation (queueChange change st) = generation st.
Proof.
  intros Hu. unfold queueChange. repeat case_match; try (split; [apply forward_refl|done]).
  match goal with |- context [flushChanges ?x] => exact (flush_forward x Hu) end.
Qed.

Lemma handle_forward st i :
  store_inv st ->
  generation (handle st i) = S (generation st)
  \/ generation (handle st i) = generation st
     /\ forward (sessions (snapshot st)) (sessions (snapshot (handle st i))).
Proof.
  intros Hs. pose proof (si_sessions _ Hs) as Hu.
  pose proof (forward_refl (sessions (snapshot st))) as Hr.
  destruct i; cbn; try (case_match; [|right; done]).
  - unfold activate. case_match; [by right|by left].
  - right. unfold recordFocus. case_match; [done|].
    pose proof (merge_forward _ [f_session focus] Hu).
    destruct (mergeAcpSessionSummaries _ _). by split.
  - right. destruct (flush_forward st Hu). by split.
  - right. destruct (queue_forward change st Hu). by split.
  - by right.
  - right. split; [done|]. by apply merge_forward.
  - by right.
Qed.

Lemma run_generation inputs st : store_inv st -> generation st <= generation (run st inputs).
Proof.
  unfold run. revert st. induction inputs as [|i l IH]; intros st Hs; cbn; [done|].
  pose proof (IH _ (handle_inv _ i Hs)). destruct (handle_forward st i Hs) as [E|[E _]]; lia.
Qed.

Lemma run_forward inputs st :
  store_inv st -> generation (run st inputs) = generation st ->
  forward (sessions (snapshot st)) (sessions (snapshot (run st inputs))).
Proof.
  unfold run. revert st. induction inputs as [|i l IH]; intros st Hs Hg; cbn in *;
    [apply forward_refl|].
  pose proof (handle_inv _ i Hs) as Hs'. pose proof (run_generation l _ Hs') as Hle.
  unfold run in Hle. destruct (handle_forward st i Hs) as [E|[E Hf]]; [lia|].
  eapply forward_trans; [exact Hf|]. apply IH; [done|]. by rewrite E.
Qed.

(** ** A scope switch forgets what came before *)

(** What is left of the inputs for a store that started at generation [k]: callbacks of
    earlier generations are gone and the others are renumbered. *)
Definition shift_input (k : nat) (i : input) : option input :=
  let renumber g (f : nat -> input) := if g <=? k then None else Some (f (g - k)) in
  match i with
  | Changed g c => renumber g (fun g => Changed g c)
  | Subscribed g => renumber g Subscribed
  | Listed g l => renumber g (fun g => Listed g l)
  | Rejected g e => renumber g (fun g => Rejected g e)
  | _ => Some i
  end.

Definition same_from (k : nat) st st' : Prop :=
  snapshot st = snapshot st' /\ pendingChanges st = pendingChanges st'
  /\ flushScheduled st = flushScheduled st' /\ generation st = k + generation st'
  /\ 0 < generation st'.

Lemma same_apply k changes st st' :
  same_from k st st' -> same_from k (applyChanges changes st) (applyChanges changes st').
Proof.
  intros (H1 & H2 & H3 & H4 & H5). unfold applyChanges. rewrite H1.
  destruct (foldl apply_change _ changes) as [[[ss fresh] ps] touched].
  case_match; repeat split; cbn; by rewrite ?H1.
Qed.

Lemma same_flush k st st' : same_from k st st' -> same_from k (flushChanges st) (flushChanges st').
Proof.
  intros (H1 & H2 & H3 & H4 & H5). unfold flushChanges. rewrite H2.
  destruct (pendingChanges st'); [by repeat split|]. apply same_apply. by repeat split.
Qed.

Lemma same_queue k c st st' : same_from k st st' -> same_from k (queueChange c st) (queueChange c st').
Proof.
  intros (H1 & H2 & H3 & H4 & H5). unfold queueChange. cbn. rewrite H2.
  destruct (change_id c); [|by repeat split].
  case_match; [apply same_flush|]; by repeat split; cbn.
Qed.

Lemma shift_eqb k g n : 0 < n -> k < g -> (g =? k + n) = (g - k =? n).
Proof. intros. destruct (Nat.eqb_spec g (k + n)), (Nat.eqb_spec (g - k) n); lia || done. Qed.

Lemma same_handle k st st' i :
  same_from k st st' ->
  same_from k (handle st i) match shift_input k i with Some i => handle st' i | None => st' end.
Proof.
  intros Hs. pose proof Hs as (H1 & H2 & H3 & H4 & H5).
  assert (forall g, g <= k -> (g =? generation st) = false) as Hold.
  { intros g Hg. apply Nat.eqb_neq. lia. }
  destruct i as [scope|scope f| |g c|g|g l|g e]; cbn [shift_input];
    try (destruct (Nat.leb_spec g k) as [Hg|Hg]; cbn [handle];
         [rewrite (Hold g Hg)|rewrite H4, shift_eqb by lia]).
  - cbn. unfold activate. rewrite H1. case_match; [done|]. repeat split; cbn; lia || done.
  - cbn. unfold recordFocus. rewrite H1. case_match; [done|].
    destruct (mergeAcpSessionSummaries _ _). repeat split; cbn; lia || done.
  - cbn. rewrite H3. case_match; [by apply same_flush|done].
  - done.
  - case_match; [by apply same_queue|done].
  - by repeat split.
  - case_match; by repeat split.
  - done.
  - case_match; [|done]. rewrite H1. repeat split; cbn; by rewrite ?H1.
  - done.
  - case_match; [|done]. rewrite H1. repeat split; cbn; by rewrite ?H1.
Qed.

Lemma same_run k inputs st st' :
  same_from k st st' -> same_from k (run st inputs) (run st' (omap (shift_input k) inputs)).
Proof.
  unfold run. revert st st'. induction inputs as [|i l IH]; intros st st' Hs; [done|].
  pose proof (same_handle k st st' i Hs) as Hh. cbn [foldl omap list_omap].
  destruct (shift_input k i); by apply IH.
Qed.

(** Switching to a scope leaves nothing of what the store held and makes every callback
    of an earlier scope a no-op: whatever is delivered afterwards, stale callbacks
    included, the snapshot is the one of a new store that entered the scope and received
    the callbacks of this generation only. *)
Lemma switch_forgets st scope inputs :
  (scopeKey (snapshot st) = Some scope -> loading (snapshot st) = false
     /\ is_null (snapshot_error (snapshot st)) = false) ->
  snapshot (run st (Activate scope :: inputs))
  = snapshot (run new_store (Activate scope :: omap (shift_input (generation st)) inputs)).
Proof.
  intros Hst. unfold run. cbn [foldl]. apply same_run. cbn [handle]. unfold activate.
  rewrite (bool_decide_false (scopeKey (snapshot new_store) = Some scope)) by done.
  destruct (bool_decide _) eqn:E; cbn [andb].
  - apply bool_decide_eq_true in E. destruct (Hst E) as [-> ->]. repeat split; cbn; lia.
  - repeat split; cbn; lia.
Qed.


(** ** Coalescing is invisible *)

(** The values [applyChanges] publishes, without the question whether it publishes. *)
Definition apply_to (changes : list (jsstr * pending_change)) (s : AcpSessionSnapshot P)
    : AcpSessionSnapshot P :=
  let r := foldl apply_change (sessions s, false, projections s, false) changes in
  mkSnapshot (scopeKey s) r.1.1.1 r.1.2 (brokerSessionIds s) (loading s) (snapshot_error s).

(** One change applied at once. *)
Definition apply_now (s : AcpSessionSnapshot P) (change : AcpSessionChanged)
    : AcpSessionSnapshot P :=
  match change_id change with
  | Some id => apply_to [(id, queue_entry None change)] s
  | None => s
  end.

(** Snapshots that answer every lookup alike. *)
#[export] Instance snapshot_equiv : Equiv (AcpSessionSnapshot P) := fun s s' =>
  scopeKey s = scopeKey s' /\ loading s = loading s' /\ snapshot_error s = snapshot_error s'
  /\ brokerSessionIds s = brokerSessionIds s'
  /\ (forall id, find_session id (sessions s) = find_session id (sessions s'))
  /\ (forall id, mget (projections s) id ≡ mget (projections s') id).
#[export] Instance snapshot_equivalence : Equivalence (≡@{AcpSessionSnapshot P}).
Proof.
  split.
  - by repeat split.
  - intros s s' (? & ? & ? & ? & ? & ?). unfold equiv, snapshot_equiv.
    split_and!; intros; symmetry; eauto.
  - intros a b c (? & ? & ? & ? & H5 & H6) (? & ? & ? & ? & H5' & H6').
    unfold equiv, snapshot_equiv. split_and!; try congruence.
    intros id. by rewrite H6.
Qed.

Lemma apply_fold_flags changes ss fresh (ps : list (jsstr * P)) touched :
  unique_ids ss ->
  let r := foldl apply_change (ss, fresh, ps, touched) changes in
  (r.1.1.2 = false -> r.1.1.1 = ss /\ fresh = false)
  /\ (r.2 = false -> r.1.2 = ps /\ touched = false).
Proof.
  revert ss fresh ps touched. induction changes as [|[id c] l IH]; intros ss fresh ps touched Hu;
    [done|]. cbn.
  destruct (p_session c) as [s|].
  - pose proof (merge_unique ss [s] Hu) as Hu'. pose proof (merge_unchanged ss [s] Hu) as Hc.
    destruct (mergeAcpSessionSummaries ss [s]) as [ss' c']. cbn in *.
    destruct (p_events c).
    + destruct (IH ss' (fresh || c') ps touched Hu') as [IH1 IH2]. split; [|done].
      intros [-> [-> ->]%orb_false_iff]%IH1. by rewrite Hc.
    + destruct (IH ss' (fresh || c') (touchProjection ps id
        (log_append (mget ps id) (a :: l0))) true Hu') as [IH1 IH2].
      split; [|by intros [_ ?]%IH2]. intros [-> [-> ->]%orb_false_iff]%IH1. by rewrite Hc.
  - destruct (p_events c); [by apply IH|].
    destruct (IH ss fresh (touchProjection ps id (log_append (mget ps id) (a :: l0))) true Hu)
      as [IH1 IH2]. split; [done|by intros [_ ?]%IH2].
Qed.

Lemma applyChanges_snapshot changes st :
  unique_ids (sessions (snapshot st)) ->
  snapshot (applyChanges changes st) = apply_to changes (snapshot st).
Proof.
  intros Hu. unfold applyChanges, apply_to.
  destruct (apply_fold_flags changes (sessions (snapshot st)) false
    (projections (snapshot st)) false Hu) as [H1 H2].
  destruct (foldl apply_change _ changes) as [[[ss fresh] ps] touched]. cbn in *.
  destruct fresh, touched; cbn; try done.
  destruct (H1 eq_refl) as [-> _], (H2 eq_refl) as [-> _]. by destruct (snapshot st).
Qed.

Lemma flush_snapshot st :
  unique_ids (sessions (snapshot st)) ->
  snapshot (flushChanges st) = apply_to (pendingChanges st) (snapshot st).
Proof.
  intros Hu. unfold flushChanges. destruct (pendingChanges st) as [|e l].
  - cbn. unfold apply_to. cbn. by destruct (snapshot st).
  - by apply (applyChanges_snapshot _ (with_pending [] false st)).
Qed.

(** Every id in play is one of [room], which the projection map can hold. *)
Context (room : list jsstr) (Hroom : length room <= MAX_ACP_SESSION_PROJECTIONS).

Definition in_room (keys : list jsstr) : Prop := forall id, id ∈ keys -> id ∈ room.

Lemma touch_room (m : list (jsstr * P)) id p :
  NoDup (mkeys m) -> in_room (mkeys m) -> id ∈ room ->
  touchProjection m id p = mtouch m id p /\ in_room (mkeys (mtouch m id p)).
Proof.
  intros Hd Hm Hid.
  assert (in_room (mkeys (mtouch m id p))) as Hin.
  { intros k. rewrite mkeys_touch, elem_of_app, mkeys_del_elem, list_elem_of_singleton.
    intros [[_ Hk]| ->]; [by apply Hm|done]. }
  split; [|done]. unfold touchProjection. rewrite evict_oldest_drop.
  assert (length (mkeys (mtouch m id p)) <= length room) as Hlen.
  { apply submseteq_length, NoDup_submseteq; [by apply mtouch_NoDup|done]. }
  unfold mkeys in Hlen. rewrite length_map in Hlen.
  by replace (_ - _) with 0 by lia.
Qed.

Definition appended (o : option P) (c : option pending_change) : option P :=
  match c with
  | Some c => match p_events c with [] => o | es => Some (log_append o es) end
  | None => o
  end.

Definition merged (o : option AcpSessionSummary) (c : option pending_change)
    : option AcpSessionSummary :=
  match c ≫= p_session with Some s => Some (newer o s) | None => o end.

Definition well_keyed (changes : list (jsstr * pending_change)) : Prop :=
  pending_inv changes /\ in_room (mkeys changes).

Lemma apply_fold_lookup changes ss fresh ps touched id :
  unique_ids ss -> NoDup (mkeys ps) -> in_room (mkeys ps) -> well_keyed changes ->
  let r := foldl apply_change (ss, fresh, ps, touched) changes in
  find_session id r.1.1.1 = merged (find_session id ss) (mget changes id)
  /\ mget r.1.2 id = appended (mget ps id) (mget changes id)
  /\ in_room (mkeys r.1.2).
Proof.
  revert ss fresh ps touched. induction changes as [|[k c] l IH];
    intros ss fresh ps touched Hu Hd Hps [[Hk Hid] Hin]; [done|]. cbn in Hk, Hin.
  apply NoDup_cons in Hk as [Hnk Hk].
  assert (well_keyed l) as Hl.
  { split; [split; [done|]|].
    - intros k' c' s Hc'. eapply Hid. by right.
    - intros k' Hk'. apply Hin. by right. }
  assert (k ∈ room) as Hkr by (apply Hin; by left).
  apply mget_none in Hnk. cbn [foldl apply_change].
  set (ss1 := match p_session c with Some s => fst (mergeAcpSessionSummaries ss [s]) | None => ss end).
  assert (unique_ids ss1) as Hu1.
  { unfold ss1. destruct (p_session c); [by apply merge_unique|done]. }
  assert (find_session id ss1 = if decide (id = k) then merged (find_session id ss) (Some c)
          else find_session id ss) as Hf1.
  { unfold ss1, merged. cbn. destruct (p_session c) as [s|] eqn:Hs; [|by case_decide].
    rewrite merge_find by done. cbn. unfold newer_for.
    rewrite (Hid k c s) by (done || by left).
    case_decide; subst; [by rewrite bool_decide_true|by rewrite bool_decide_false]. }
  set (fresh1 := match p_session c with
    | Some s => fresh || snd (mergeAcpSessionSummaries ss [s]) | None => fresh end).
  assert (match p_session c with
    | Some s => let '(ss', c) := mergeAcpSessionSummaries ss [s] in (ss', fresh || c)
    | None => (ss, fresh) end = (ss1, fresh1)) as ->.
  { unfold ss1, fresh1. destruct (p_session c); [|done].
    by destruct (mergeAcpSessionSummaries ss _). }
  cbn [mget]. destruct (p_events c) as [|e es] eqn:He.
  - destruct (IH ss1 fresh1 ps touched Hu1 Hd Hps Hl) as (IH1 & IH2 & IH3).
    rewrite IH1, IH2, Hf1. case_decide; subst; [|done].
    rewrite Hnk. cbn. by rewrite He.
  - set (p := log_append (mget ps k) (e :: es)).
    destruct (touch_room ps k p Hd Hps Hkr) as [-> Hr].
    destruct (IH ss1 fresh1 (mtouch ps k p) true Hu1) as (IH1 & IH2 & IH3);
      [by apply mtouch_NoDup|done..|].
    rewrite IH1, IH2, Hf1, mget_touch. case_decide; subst; [|done].
    rewrite Hnk. cbn. by rewrite He.
Qed.

(** A snapshot whose maps are well formed and fit in the room. *)
Definition snapshot_room (s : AcpSessionSnapshot P) : Prop :=
  unique_ids (sessions s) /\ NoDup (mkeys (projections s)) /\ in_room (mkeys (projections s)).

Lemma apply_to_lookup changes s id :
  snapshot_room s -> well_keyed changes ->
  find_session id (sessions (apply_to changes s))
    = merged (find_session id (sessions s)) (mget changes id)
  /\ mget (projections (apply_to changes s)) id
    = appended (mget (projections s) id) (mget changes id).
Proof.
  intros (Hu & Hd & Hr) Hc.
  destruct (apply_fold_lookup changes (sessions s) false (projections s) false id Hu Hd Hr Hc)
    as (H1 & H2 & _). done.
Qed.

Lemma apply_fold_NoDup changes acc :
  NoDup (mkeys acc.1.2) -> NoDup (mkeys (foldl apply_change acc changes).1.2).
Proof.
  revert acc. induction changes as [|[k c] l IH]; intros [[[ss fresh] ps] touched] Hd; cbn;
    [done|]. apply IH. cbn in *. destruct (match p_session c with Some _ => _ | None => _ end).
  destruct (p_events c); [done|]. cbn. unfold touchProjection. rewrite evict_oldest_drop.
  unfold mkeys. rewrite <- skipn_map. eapply sublist_NoDup; [|apply sublist_drop].
  by apply mtouch_NoDup.
Qed.

Lemma apply_fold_unique changes acc :
  unique_ids acc.1.1.1 -> unique_ids (foldl apply_change acc changes).1.1.1.
Proof.
  revert acc. induction changes as [|[k c] l IH]; intros [[[ss fresh] ps] touched] Hu; cbn;
    [done|]. apply IH. cbn in *.
  destruct (p_session c) as [s|].
  - pose proof (merge_unique ss [s] Hu). destruct (mergeAcpSessionSummaries ss [s]).
    by destruct (p_events c).
  - by destruct (p_events c).
Qed.

Lemma apply_to_room changes s :
  snapshot_room s -> well_keyed changes -> snapshot_room (apply_to changes s).
Proof.
  intros (Hu & Hd & Hr) Hc.
  destruct (apply_fold_lookup changes (sessions s) false (projections s) false [] Hu Hd Hr Hc)
    as (_ & _ & H3).
  split; [by apply apply_fold_unique|split; [by apply apply_fold_NoDup|done]].
Qed.


Lemma queue_merged o before change :
  merged (merged o before) (Some (queue_entry None change))
  = merged o (Some (queue_entry before change)).
Proof.
  unfold merged, queue_entry. cbn. destruct (ch_session change) as [s|]; [|done].
  destruct (before ≫= p_session) as [b|]; [|done].
  pose proof (newer_assoc o b s) as Ha. cbn in Ha |- *.
  destruct (outdated b s); by rewrite <- Ha.
Qed.

Lemma queue_appended o before change :
  appended o (Some (queue_entry before change))
  ≡ appended (appended o before) (Some (queue_entry None change)).
Proof.
  unfold appended, queue_entry. cbn. destruct before as [b|]; [|done].
  destruct (ch_event change) as [e|]; cbn; rewrite ?app_nil_r.
  - destruct (p_events b) as [|x es]; [done|]. cbn. constructor. symmetry. apply log_append_app.
  - by destruct (p_events b).
Qed.

Lemma well_keyed_queue pending change id :
  well_keyed pending -> change_id change = Some id -> id ∈ room ->
  well_keyed (mset pending id (queue_entry (mget pending id) change)).
Proof.
  intros [Hp Hin] Hid Hr. split; [by apply queue_pending_inv|].
  intros k. rewrite mkeys_set. case_decide; [apply Hin|].
  intros [?| ->%list_elem_of_singleton]%elem_of_app; [by apply Hin|done].
Qed.

Lemma well_keyed_single change id :
  change_id change = Some id -> id ∈ room -> well_keyed [(id, queue_entry None change)].
Proof.
  intros Hid Hr. apply (well_keyed_queue [] change id); [|done..].
  split; [split; [constructor|by intros ??? ?%elem_of_nil]|by intros ? ?%elem_of_nil].
Qed.

(** One more change, coalesced or applied at once. *)
Lemma coalesce_one pending change id s :
  snapshot_room s -> well_keyed pending -> change_id change = Some id -> id ∈ room ->
  apply_to (mset pending id (queue_entry (mget pending id) change)) s
  ≡ apply_now (apply_to pending s) change.
Proof.
  intros Hs Hp Hid Hin. unfold apply_now. rewrite Hid.
  pose proof (well_keyed_queue pending change id Hp Hid Hin) as Hp1.
  pose proof (well_keyed_single change id Hid Hin) as Hone.
  pose proof (apply_to_room pending s Hs Hp) as Hs1.
  repeat (split; [done|]). split.
  - intros k. destruct (apply_to_lookup _ s k Hs Hp1) as [-> _].
    destruct (apply_to_lookup _ _ k Hs1 Hone) as [-> _].
    destruct (apply_to_lookup _ s k Hs Hp) as [-> _]. rewrite mget_set. cbn.
    case_decide; subst; [|done]. by rewrite queue_merged.
  - intros k. destruct (apply_to_lookup _ s k Hs Hp1) as [_ ->].
    destruct (apply_to_lookup _ _ k Hs1 Hone) as [_ ->].
    destruct (apply_to_lookup _ s k Hs Hp) as [_ ->]. rewrite mget_set. cbn [mget].
    case_decide; subst; [|done]. apply queue_appended.
Qed.

Lemma appended_proper (o o' : option P) c : o ≡ o' -> appended o c ≡ appended o' c.
Proof.
  intros Ho. unfold appended. destruct c as [c|]; [|done]. destruct (p_events c) as [|e es]; [done|].
  constructor. inversion Ho; subst; [by apply log_append_proper|done].
Qed.

Lemma apply_now_proper s s' change id :
  snapshot_room s -> snapshot_room s' -> change_id change = Some id -> id ∈ room ->
  s ≡ s' -> apply_now s change ≡ apply_now s' change.
Proof.
  intros Hs Hs' Hid Hin (H1 & H2 & H3 & H4 & H5 & H6). unfold apply_now. rewrite Hid.
  pose proof (well_keyed_single change id Hid Hin) as Hone.
  unfold equiv, snapshot_equiv. split_and!; try done.
  - intros k. destruct (apply_to_lookup _ s k Hs Hone) as [-> _].
    destruct (apply_to_lookup _ s' k Hs' Hone) as [-> _]. by rewrite H5.
  - intros k. destruct (apply_to_lookup _ s k Hs Hone) as [_ ->].
    destruct (apply_to_lookup _ s' k Hs' Hone) as [_ ->]. by apply appended_proper.
Qed.

(** The changes a run of this generation delivers. *)
Definition delivered (inputs : list input) : list AcpSessionChanged :=
  omap (fun i => match i with Changed _ c => Some c | _ => None end) inputs.

Definition streaming (g : nat) (i : input) : Prop :=
  match i with
  | Changed g' c => g' = g /\ forall id, change_id c = Some id -> id ∈ room
  | FlushTimer => True
  | _ => False
  end.

Definition store_room st : Prop :=
  snapshot_room (snapshot st) /\ well_keyed (pendingChanges st).

Lemma apply_to_nil (s : AcpSessionSnapshot P) : apply_to [] s = s.
Proof. unfold apply_to. cbn. by destruct s. Qed.

Lemma apply_now_room s change :
  snapshot_room s -> (forall id, change_id change = Some id -> id ∈ room) ->
  snapshot_room (apply_now s change).
Proof.
  intros Hs Hin. unfold apply_now. destruct (change_id change) as [id|] eqn:Hid; [|done].
  by apply apply_to_room, well_keyed_single; [..|apply Hin].
Qed.

(** What a flush would publish. *)
Definition settled st : AcpSessionSnapshot P := apply_to (pendingChanges st) (snapshot st).

Lemma flush_settled st :
  store_room st -> store_room (flushChanges st) /\ settled (flushChanges st) = settled st
  /\ generation (flushChanges st) = generation st.
Proof.
  intros [Hs Hp]. pose proof (flush_snapshot st (proj1 Hs)) as Hf.
  assert (pendingChanges (flushChanges st) = []) as Hnil.
  { unfold flushChanges. destruct (pendingChanges st); [done|]. by rewrite applyChanges_pending. }
  pose proof (flush_forward st (proj1 Hs)) as [_ Hg].
  split; [|split; [|done]].
  - split; rewrite ?Hnil, ?Hf; [by apply apply_to_room|].
    split; [split; [constructor|by intros ??? ?%elem_of_nil]|by intros ? ?%elem_of_nil].
  - unfold settled. by rewrite Hnil, Hf, apply_to_nil.
Qed.

Lemma queue_settled change st :
  store_room st -> (forall id, change_id change = Some id -> id ∈ room) ->
  store_room (queueChange change st)
  /\ settled (queueChange change st) ≡ apply_now (settled st) change
  /\ generation (queueChange change st) = generation st.
Proof.
  intros [Hs Hp] Hin. unfold queueChange. cbn.
  destruct (change_id change) as [id|] eqn:Hid.
  2: { split; [done|]. unfold apply_now. by rewrite Hid. }
  specialize (Hin id eq_refl).
  pose proof (coalesce_one (pendingChanges st) change id (snapshot st) Hs Hp Hid Hin) as Hc.
  set (pending := mset _ id _) in *.
  pose proof (well_keyed_queue _ change id Hp Hid Hin) as Hp1. fold pending in Hp1.
  case_match; [|by split].
  match goal with |- context [flushChanges ?x] =>
    destruct (flush_settled x) as (H1 & H2 & H3) end; [by split|].
  split; [done|split; [|done]]. rewrite H2. exact Hc.
Qed.

(** The flush that settles a run shows what applying every change at once shows. *)
Lemma coalescing inputs st :
  store_room st -> Forall (streaming (generation st)) inputs ->
  snapshot (flushChanges (run st inputs))
  ≡ foldl apply_now (snapshot (flushChanges st)) (delivered inputs).
Proof.
  intros Hst Hall.
  assert (forall l s s', snapshot_room s -> snapshot_room s' -> s ≡ s' ->
    Forall (fun c => forall id, change_id c = Some id -> id ∈ room) l ->
    foldl apply_now s l ≡ foldl apply_now s' l) as Hprop.
  { induction l as [|c l IH]; intros s s' Hs Hs' Heq Hl; cbn; [done|].
    apply Forall_cons in Hl as [Hc Hl]. apply IH; [by apply apply_now_room..| |done].
    destruct (change_id c) as [id|] eqn:Hid; [by eapply apply_now_proper; eauto|].
    unfold apply_now. by rewrite Hid. }
  enough (store_room (run st inputs)
    /\ settled (run st inputs) ≡ foldl apply_now (settled st) (delivered inputs)) as [H1 H2].
  { rewrite !flush_snapshot; [done|apply Hst|apply H1]. }
  unfold run. revert st Hst Hall. induction inputs as [|i l IH]; intros st Hst Hall; [done|].
  apply Forall_cons in Hall as [Hi Hall]. cbn [foldl].
  assert (Forall (fun c => forall id, change_id c = Some id -> id ∈ room) (delivered l)) as Hd.
  { clear -Hall. induction Hall as [|i l Hi Hl IH]; [constructor|].
    destruct i; cbn; try done. constructor; [|done]. by destruct Hi. }
  destruct i as [| | |g c| | |]; cbn in Hi; try done; cbn [handle delivered omap list_omap].
  - destruct (flushScheduled st); [|by apply IH].
    destruct (flush_settled st Hst) as (H1 & H2 & H3).
    destruct (IH (flushChanges st) H1) as [IH1 IH2]; [by rewrite H3|]. by rewrite <- H2.
  - destruct Hi as [-> Hin]. rewrite Nat.eqb_refl.
    destruct (queue_settled c st Hst Hin) as (H1 & H2 & H3).
    destruct (IH (queueChange c st) H1) as [IH1 IH2]; [by rewrite H3|].
    split; [done|]. etrans; [exact IH2|].
    refine (Hprop (delivered l) _ (apply_now (settled st) c) _ _ H2 Hd).
    + destruct H1 as [Ha Hb]. by apply apply_to_room.
    + apply apply_now_room; [|done]. destruct Hst. by apply apply_to_room.
Qed.

End store.

(** ** The transcript implements the interface *)

#[export] Instance append_event_proper :
  Proper ((≡) ==> (=) ==> (≡)) (fun p e => fst (append_event p e)).
Proof.
  intros p q Hpq e ? <-. pose proof Hpq as (H1 & _ & _ & H4 & _).
  unfold append_event, recent_live. rewrite H1, H4. repeat case_match; cbn; try done;
    first [by rewrite !create_replay | by apply appendMonotonicEvent_proper].
Qed.

Definition append_all (p : AcpConversationProjection) (events : list AcpSessionEvent)
    : AcpConversationProjection := foldl (fun p e => fst (append_event p e)) p events.

Lemma append_all_proper events p q : p ≡ q -> append_all p events ≡ append_all q events.
Proof.
  revert p q. induction events as [|e l IH]; intros p q Hpq; cbn; [done|].
  by apply IH, append_event_proper.
Qed.

Lemma append_loop_all p events : fst (append_events_loop p events) = append_all p events.
Proof.
  unfold append_events_loop, append_all. generalize false. revert p.
  induction events as [|e l IH]; intros p c; cbn; [done|].
  destruct (append_event p e) as [p' c']. by rewrite IH.
Qed.

Lemma append_conversation_all c events :
  fst (appendAcpConversationEvents c events)
  ≡ append_all (default (emptyProjection false) c) events.
Proof.
  unfold appendAcpConversationEvents. rewrite <- append_loop_all.
  destruct (append_events_loop _ events) as [p changed]. by destruct changed; repeat split.
Qed.

#[export] Instance transcript_log : ConversationLog AcpConversationProjection.
Proof.
  refine {| log_append c es := fst (appendAcpConversationEvents c es);
            log_focus := mergeAcpConversationFocus |}.
  - intros c es fs.
    transitivity (append_all (append_all (default (emptyProjection false) c) es) fs).
    + etrans; [apply append_conversation_all|].
      apply append_all_proper, append_conversation_all.
    + rewrite append_conversation_all. unfold append_all. by rewrite foldl_app.
  - intros es p q Hpq. rewrite !append_conversation_all. by apply append_all_proper.
Defined.

#[export] Instance reachable_invariant : LogInvariant reachable.
Proof. split; intros; by constructor. Qed.

Notation agent_store := (AcpSessionStore AcpConversationProjection).

(** ** Properties *)

(** whatever reaches the store, and in whatever interleaving, it holds one summary
    per session and at most 16 transcripts, one per session, each of them a transcript
    its operations can produce (so within the bounds of the transcript theorem); and as
    long as changes are queued, a flush is scheduled. *)
Theorem agent_store_bounded inputs :
  let st : agent_store := run new_store inputs in
  unique_ids (sessions (snapshot st))
  /\ NoDup (mkeys (projections (snapshot st)))
  /\ length (projections (snapshot st)) <= MAX_ACP_SESSION_PROJECTIONS
  /\ (forall id p, (id, p) ∈ projections (snapshot st) -> reachable p)
  /\ (pendingChanges st <> [] -> flushScheduled st = true).
Proof.
  destruct (run_inv reachable inputs new_store (new_store_inv reachable))
    as [H1 [H2 H3 H4] _ H5].
  repeat (split; [done|]). done.
Qed.

Definition sample_summary (n : nat) (at_ : jsstr) : AcpSessionSummary :=
  mkSummary n (js "s") (js "c") running None at_.
Definition sample_chunk (n : Z) (text : jsstr) : AcpSessionChanged :=
  mkChanged None (Some (chunk_event n (js "agent_message_chunk") text)).

(** while a scope stays active, the summary of a session never disappears and never
    gives way to an older one, whatever the order in which the list, the live changes and
    the focus replays arrive. *)
Theorem summaries_never_go_back before after id s :
  let st : agent_store := run new_store before in
  generation (run st after) = generation st ->
  find_session id (sessions (snapshot st)) = Some s ->
  exists s', find_session id (sessions (snapshot (run st after))) = Some s'
             /\ outdated s s' = false.
Proof.
  intros st Hg. apply (run_forward reachable); [|done].
  apply run_inv; [apply _|apply new_store_inv].
Qed.

Definition sample_before : list input :=
  [Activate (js "scope"); Subscribed 1;
   Changed 1 (mkChanged (Some (sample_summary 1 (js "2026-02"))) None)].
Lemma summaries_never_go_back_witness :
  exists s', find_session (js "s") (sessions (snapshot (run (run (new_store : agent_store) sample_before)
    [Listed 1 [sample_summary 2 (js "2026-01")]]))) = Some s'
  /\ outdated (sample_summary 1 (js "2026-02")) s' = false.
Proof.
  apply (summaries_never_go_back sample_before [Listed 1 [sample_summary 2 (js "2026-01")]]
    (js "s") (sample_summary 1 (js "2026-02"))); vm_compute; reflexivity.
Defined.

(** C4: switching to a scope leaves nothing of what the store held and makes every
    callback of an earlier scope a no-op: whatever is delivered afterwards, stale
    callbacks included, the snapshot is that of a new store that entered the scope and
    received the callbacks of the new generations only. *)
Theorem scope_switch_forgets (st : agent_store) scope inputs :
  (scopeKey (snapshot st) = Some scope -> loading (snapshot st) = false
     /\ is_null (snapshot_error (snapshot st)) = false) ->
  snapshot (run st (Activate scope :: inputs))
  = snapshot (run new_store (Activate scope :: omap (shift_input (generation st)) inputs)).
Proof. apply switch_forgets. Qed.

Lemma scope_switch_forgets_witness :
  snapshot (run (run (new_store : agent_store) sample_before)
    [Activate (js "other"); Changed 1 (sample_chunk 1 (js "stale")); Subscribed 2; Listed 2 []])
  = snapshot (run new_store [Activate (js "other"); Subscribed 1; Listed 1 []]).
Proof.
  apply (scope_switch_forgets (run new_store sample_before) (js "other")
    [Changed 1 (sample_chunk 1 (js "stale")); Subscribed 2; Listed 2 []]).
  intros Hs. vm_compute in Hs. discriminate Hs.
Defined.

(** C3: coalescing changes nothing but the order of the lists. While at most 16
    conversations are in play, a stream of changes of the active generation, queued and
    flushed at any boundaries and by any timers, leaves once flushed what applying every
    change at once leaves: the same scope, error and broker sessions, for every session the
    same summary, and for every session the same transcript up to its revision counter and
    its truncation flag. The order of the list of sessions is not compared, and can differ
    ([coalescing_orders_sessions]). *)
Theorem coalescing_invisible (st : agent_store) room inputs :
  length room <= MAX_ACP_SESSION_PROJECTIONS ->
  store_room room st -> Forall (streaming room (generation st)) inputs ->
  snapshot (flushChanges (run st inputs))
  ≡ foldl apply_now (snapshot (flushChanges st)) (delivered inputs).
Proof. intros Hr. by apply coalescing. Qed.

Definition sample_stream : list input :=
  [Changed 1 (sample_chunk 1 (js "he")); FlushTimer; Changed 1 (sample_chunk 2 (js "l"));
   Changed 1 (sample_chunk 3 (js "lo"));
   Changed 1 (mkChanged (Some (sample_summary 3 (js "2026-03"))) None)].

Lemma coalescing_invisible_witness :
  snapshot (flushChanges (run (run (new_store : agent_store) sample_before) sample_stream))
  ≡ foldl apply_now (snapshot (flushChanges (run (new_store : agent_store) sample_before)))
      (delivered sample_stream).
Proof.
  apply (coalescing_invisible (run new_store sample_before) [js "s"] sample_stream).
  - vm_compute. lia.
  - split; [split; [|split]|split; [split|]].
    + apply (si_sessions reachable). apply run_inv; [apply _|apply new_store_inv].
    + constructor.
    + intros id Hid. vm_compute in Hid. by apply elem_of_nil in Hid.
    + constructor.
    + intros id c s Hc. vm_compute in Hc. by apply elem_of_nil in Hc.
    + intros id Hid. vm_compute in Hid. by apply elem_of_nil in Hid.
  - apply Forall_forall. intros i Hi.
    repeat (apply elem_of_cons in Hi as [->|Hi]); [..|by apply elem_of_nil in Hi];
      try exact I;
      (split; [vm_compute; reflexivity|intros id Hid; vm_compute in Hid; injection Hid as <-; by left]).
Defined.

(** Where the order shows: text of [s], then text of [t] that comes with the summary of [t],
    then the like of [s]. The queue keeps the order in which the sessions were first heard
    of, so the flush lists [s] before [t]. *)
Example coalescing_orders_sessions :
  let chunk id n := mkEvent id n [] (sessionUpdate [(js "sessionUpdate", VStr (js "agent_message_chunk"));
    (js "content", VObj [(js "type", VStr (js "text")); (js "text", VStr (js "a"))])]) in
  let both id n := mkChanged (Some (mkSummary 1 id (js "c") running None (js "2026-01"))) (Some (chunk id n)) in
  let inputs := [Changed 1 (mkChanged None (Some (chunk (js "s") 1%Z))); Changed 1 (both (js "t") 1%Z);
                 Changed 1 (both (js "s") 2%Z)] in
  let st : agent_store := run new_store [Activate (js "scope"); Subscribed 1] in
  map summary_id (sessions (snapshot (flushChanges (run st inputs)))) = [js "s"; js "t"]
  /\ map summary_id (sessions (foldl apply_now (snapshot (flushChanges st)) (delivered inputs)))
     = [js "t"; js "s"].
Proof. vm_compute. done. Qed.
