(* ===== verification/ResultPages.v ===== *)
(** * The cache of SQL result pages

    Models [src/features/queries/resultPageCache.ts]. The module state is the map of
    caches (one per stored result, in recency order) and the map of listeners; a call
    of [notify] is logged. A cache object carries an identity, because a page load that
    is still in flight refers to the object it was started for, even after the map has
    dropped it. Reading a page is asynchronous: [ensureSqlResultRange] returns the
    requests it starts, and [settle] is the code that runs when one of them ends. The
    clock is an argument. [Number(text)] of the shortened-cell marker is a parameter,
    [safe_natural]: the safe non-negative integer the text denotes, if any. *)

From S2P Require Import Prelude JsString Regex JsMap JsValue.
From Stdlib Require String.
Import Stdlib.Strings.String.StringSyntax.
Local Open Scope Z_scope.

(** ** Data *)

Record SqlStreamPageRange := mkRange { sequence : nat; rowStart : Z; rowCount : Z }.

Record SqlStreamRowSource := mkSource {
  operationId : option jsstr; capability : option jsstr; pageRows : Z;
  pageRanges : list SqlStreamPageRange; src_rowCount : Z; complete : bool }.

Record CellDecodeFailure := mkFailure { rowIndex : Z; columnIndex : Z; databaseType : jsstr }.

Notation row := (list value).

Record SqlStreamBatchWire := mkBatch {
  b_operationId : jsstr; b_sequence : nat; b_rowStart : option Z; b_columns : list jsstr;
  b_rows : list row; b_failures : list CellDecodeFailure }.

Inductive SqlResultPageErrorKind := authorityChanged | expired | unavailable.
#[export] Instance kind_eq_dec : EqDecision SqlResultPageErrorKind.
Proof. solve_decision. Defined.

Record SqlResultPageError := mkPageError { err_kind : SqlResultPageErrorKind; retrying : bool }.
Record PageFailure := mkPageFailure {
  attempts : nat; retryAt : Z; fail_kind : SqlResultPageErrorKind }.
Record page := mkPage { p_rowStart : Z; p_rows : list row }.

(** [loading] keeps the sequences of the pages being read. *)
Record ResultPageCache := mkCache {
  cid : nat; pages : list (nat * page); failures : list (nat * list CellDecodeFailure);
  loading : list nat; pageFailures : list (nat * PageFailure);
  retryTimer : bool; error : option SqlResultPageError }.

(** A listener set has an identity too: an unsubscription refers to its set. *)
Record state := mkState {
  caches : list (jsstr * ResultPageCache); listeners : list (jsstr * (nat * list nat));
  next_id : nat; notified : list jsstr }.

Definition SQL_RESULT_CACHE_MAX_PAGES : nat := 6.
Definition SQL_RESULT_CACHE_MAX_RESULTS : nat := 4.
Definition SQL_RESULT_PAGE_MAX_ATTEMPTS : nat := 3.
Definition SQL_RESULT_PAGE_RETRY_BASE_MS : Z := 1000.

Definition initial : state := mkState [] [] 0 [].

(** ** Error classification and cell checks *)

(** A thrown value, by its [kind] and [message] properties when they are strings. *)
Record thrown := mkThrown { t_kind : option jsstr; t_message : option jsstr }.

Definition missing_file_re : re :=
  RAny [RLitI (js "no such file"); RLitI (js "not found"); RLitI (js "cannot find")].

Definition classifySqlResultPageError (e : thrown) : SqlResultPageErrorKind :=
  let message := default [] (t_message e) in
  if bool_decide (t_kind e = Some (js "blocked")) && includes message (js "authority changed")
  then authorityChanged
  else if bool_decide (t_kind e = Some (js "notFound"))
          || (bool_decide (t_kind e = Some (js "io")) && test missing_file_re message)
  then expired
  else unavailable.

Section pages.
Variable safe_natural : jsstr -> option N.

Definition TRUNCATED_CELL_TYPE_PREFIX : jsstr := js "dopedb.truncated:".

Definition truncatedCellBytes (failure : CellDecodeFailure) : option N :=
  if startsWith (databaseType failure) TRUNCATED_CELL_TYPE_PREFIX
  then safe_natural (drop (length TRUNCATED_CELL_TYPE_PREFIX) (databaseType failure))
  else None.

(** [v] is [None] when the cell does not exist ([undefined]). *)
Definition decodeFailureCellIsConsistent (failure : CellDecodeFailure) (v : option value) : bool :=
  match truncatedCellBytes failure with
  | None => match v with Some VNull => true | _ => false end
  | Some _ => match v with Some (VStr _) => true | _ => false end
  end.

(** ** Keys and caches *)

Definition sourceKey (source : SqlStreamRowSource) : option jsstr :=
  match operationId source, capability source with
  | Some (c :: o), Some (d :: s) => Some ((c :: o) ++ [cCOLON] ++ d :: s)
  | _, _ => None
  end.

Definition empty_cache (n : nat) : ResultPageCache := mkCache n [] [] [] [] false None.

Definition with_caches (cs : list (jsstr * ResultPageCache)) (st : state) : state :=
  mkState cs (listeners st) (next_id st) (notified st).

(** Writes back the (unique) cache of [key] without moving it. *)
Definition put_cache (key : jsstr) (c : ResultPageCache) (st : state) : state :=
  with_caches (mset (caches st) key c) st.

Definition cacheFor (source : SqlStreamRowSource) (st : state)
    : state * option (jsstr * ResultPageCache) :=
  match sourceKey source with
  | None => (st, None)
  | Some key =>
    match mget (caches st) key with
    | Some c => (with_caches (mtouch (caches st) key c) st, Some (key, c))
    | None =>
      let c := empty_cache (next_id st) in
      (mkState (mtouch (caches st) key c) (listeners st) (S (next_id st)) (notified st),
       Some (key, c))
    end
  end.

(** Runs the listeners of [key], if it has any. *)
Definition notify (key : jsstr) (st : state) : state :=
  mkState (caches st) (listeners st) (next_id st) (notified st ++ [key]).

Definition clearPageFailures (c : ResultPageCache) : ResultPageCache :=
  mkCache (cid c) (pages c) (failures c) (loading c) [] false None.

(** ** Eviction *)

Definition has_pages (c : ResultPageCache) : bool := negb (bool_decide (pages c = [])).

Definition bearing (cs : list (jsstr * ResultPageCache)) : list (jsstr * ResultPageCache) :=
  filterb (fun e => has_pages e.2) cs.

(** The [while] loop of [trimResultPages]. *)
Fixpoint evict_results (fuel : nat) (protectedKey : jsstr) (st : state) : state :=
  match fuel with
  | 0%nat => st
  | S fuel =>
    if (SQL_RESULT_CACHE_MAX_RESULTS <? length (bearing (caches st)))%nat then
      match findb (fun e => negb (e.1 ==s protectedKey) && has_pages e.2) (caches st) with
      | None => st
      | Some (key, _) =>
        evict_results fuel protectedKey (notify key (with_caches (mdel (caches st) key) st))
      end
    else st
  end.

(** The [for] loop that drops idle metadata; it stops at the size limit. *)
Definition drop_idle (protectedKey : jsstr) (st : state)
    (cs : list (jsstr * ResultPageCache)) (entry : jsstr * ResultPageCache)
    : list (jsstr * ResultPageCache) :=
  if (length cs <=? SQL_RESULT_CACHE_MAX_RESULTS)%nat then cs
  else if (entry.1 ==s protectedKey) then cs
  else if negb (has_pages entry.2) && bool_decide (loading entry.2 = [])
          && negb (mhas (listeners st) entry.1)
  then mdel cs entry.1 else cs.

Definition trimResultPages (protectedKey : jsstr) (st : state) : state :=
  let st := evict_results (length (caches st)) protectedKey st in
  with_caches (foldl (drop_idle protectedKey st) (caches st) (caches st)) st.

(** ** Retaining a page *)

(** The [while] loop of [retain]. *)
Fixpoint evict_pages (ps : list (nat * page)) (fs : list (nat * list CellDecodeFailure))
    : list (nat * page) * list (nat * list CellDecodeFailure) :=
  match ps with
  | [] => (ps, fs)
  | (oldest, _) :: rest =>
    if (SQL_RESULT_CACHE_MAX_PAGES <? length ps)%nat then evict_pages rest (mdel fs oldest)
    else (ps, fs)
  end.

Definition retain (source : SqlStreamRowSource) (seq : nat) (start : Z) (rows : list row)
    (fails : list CellDecodeFailure) (st : state) : state :=
  let '(st, found) := cacheFor source st in
  match found with
  | None => st
  | Some (key, c) =>
    match pageRanges source !! seq with
    | Some range =>
      if (sequence range =? seq)%nat && (rowStart range =? start)
         && (rowCount range =? Z.of_nat (length rows))
      then
        let '(ps, fs) := evict_pages (mtouch (pages c) seq (mkPage start rows))
                           (mset (failures c) seq fails) in
        let pf := mdel (pageFailures c) seq in
        let c := mkCache (cid c) ps fs (loading c) pf (retryTimer c)
                   (if bool_decide (pf = []) then None else error c) in
        notify key (trimResultPages key (put_cache key c st))
      else st
    | None => st
    end
  end.

(** A batch that the stream pushes; its failures default to none. *)
Definition retainSqlStreamBatch (source : SqlStreamRowSource) (batch : SqlStreamBatchWire)
    (st : state) : state :=
  let start := match b_rowStart batch with
               | Some s => s
               | None => match pageRanges source !! b_sequence batch with
                         | Some range => rowStart range | None => -1 end
               end in
  retain source (b_sequence batch) start (b_rows batch) (b_failures batch) st.

(** ** Lookups *)

(** The [while] loop of [pageRangeIndexForRow] on the bounds [low] and [high]. *)
Fixpoint search_range (fuel : nat) (ranges : list SqlStreamPageRange) (index low high : Z)
    : option nat :=
  match fuel with
  | 0%nat => None
  | S fuel =>
    if high <? low then None
    else
      let middle := (low + high) / 2 in
      match ranges !! Z.to_nat middle with
      | None => None
      | Some range =>
        if index <? rowStart range then search_range fuel ranges index low (middle - 1)
        else if rowStart range + rowCount range <=? index
        then search_range fuel ranges index (middle + 1) high
        else Some (Z.to_nat middle)
      end
  end.

(** [None] for -1. *)
Definition pageRangeIndexForRow (source : SqlStreamRowSource) (index : Z) : option nat :=
  let n := length (pageRanges source) in
  search_range (S n) (pageRanges source) index 0 (Z.of_nat n - 1).

Definition page_matches (c : ResultPageCache) (range : SqlStreamPageRange) : option page :=
  match mget (pages c) (sequence range) with
  | Some p =>
    if (p_rowStart p =? rowStart range) && (Z.of_nat (length (p_rows p)) =? rowCount range)
    then Some p else None
  | None => None
  end.

(** The [for] loop of [sqlResultRangeIsCached]: the rows covered, unless it returned. *)
Fixpoint cover (c : ResultPageCache) (ranges : list SqlStreamPageRange)
    (coveredUntil requestedEnd : Z) : option Z :=
  match ranges with
  | [] => Some coveredUntil
  | range :: ranges =>
    if coveredUntil <? requestedEnd then
      if (coveredUntil <? rowStart range) || bool_decide (page_matches c range = None) then None
      else cover c ranges (Z.min requestedEnd (rowStart range + rowCount range)) requestedEnd
    else Some coveredUntil
  end.

Definition sqlResultRangeIsCached (source : SqlStreamRowSource) (start end_ : Z) (st : state)
    : state * bool :=
  let requestedStart := Z.max 0 start in
  let requestedEnd := Z.min (src_rowCount source) end_ in
  if requestedEnd <=? requestedStart then (st, true)
  else
    let '(st, found) := cacheFor source st in
    match found with
    | None => (st, false)
    | Some (_, c) =>
      match pageRangeIndexForRow source requestedStart with
      | None => (st, false)
      | Some first =>
        (st, match cover c (drop first (pageRanges source)) requestedStart requestedEnd with
             | Some coveredUntil => coveredUntil =? requestedEnd
             | None => false
             end)
      end
    end.

Definition sqlResultDecodeFailureAt (source : SqlStreamRowSource) (r col : Z) (st : state)
    : state * option CellDecodeFailure :=
  let '(st, found) := cacheFor source st in
  (st, '(_, c) ← found;
       findb (fun f => (rowIndex f =? r) && (columnIndex f =? col)) (concat (mvals (failures c)))).

Definition collectCachedSqlResultDecodeFailures (source : SqlStreamRowSource) (st : state)
    : state * list CellDecodeFailure :=
  let '(st, found) := cacheFor source st in
  (st, match found with Some (_, c) => concat (mvals (failures c)) | None => [] end).

(** [cache.pages.delete(s); cache.pages.set(s, page)] *)
Definition touch_page (c : ResultPageCache) (seq : nat) (p : page) : ResultPageCache :=
  mkCache (cid c) (mtouch (pages c) seq p) (failures c) (loading c) (pageFailures c)
    (retryTimer c) (error c).

Definition sqlResultRowAt (source : SqlStreamRowSource) (index : Z) (st : state)
    : state * option row :=
  if (index <? 0) || (src_rowCount source <=? index) then (st, None)
  else
    let '(st, found) := cacheFor source st in
    match found with
    | None => (st, None)
    | Some (key, c) =>
      match pageRangeIndexForRow source index ≫= fun i => pageRanges source !! i with
      | None => (st, None)
      | Some range =>
        match mget (pages c) (sequence range) with
        | Some p =>
          if p_rowStart p =? rowStart range
          then (put_cache key (touch_page c (sequence range) p) st,
                p_rows p !! Z.to_nat (index - rowStart range))
          else (st, None)
        | None => (st, None)
        end
      end
    end.

Definition sqlResultPageError (source : SqlStreamRowSource) (st : state)
    : state * option SqlResultPageError :=
  let '(st, found) := cacheFor source st in
  (st, '(_, c) ← found; error c).

(** The [for] loop of [collectCachedSqlResultRows]: the cache as far as it was touched,
    and the rows unless a page was missing. *)
Fixpoint collect (c : ResultPageCache) (ranges : list SqlStreamPageRange)
    : ResultPageCache * option (list row) :=
  match ranges with
  | [] => (c, Some [])
  | range :: ranges =>
    match page_matches c range with
    | None => (c, None)
    | Some p =>
      let '(c, rest) := collect (touch_page c (sequence range) p) ranges in
      (c, rs ← rest; Some (p_rows p ++ rs))
    end
  end.

Definition collectCachedSqlResultRows (source : SqlStreamRowSource) (st : state)
    : state * option (list row) :=
  if (SQL_RESULT_CACHE_MAX_PAGES <? length (pageRanges source))%nat then (st, None)
  else
    let '(st, found) := cacheFor source st in
    match found with
    | None => (st, None)
    | Some (key, c) =>
      let '(c, rows) := collect c (pageRanges source) in
      (put_cache key c st,
       rs ← rows;
       if Z.of_nat (length rs) =? src_rowCount source then Some rs else None)
    end.

(** The pairs that the generator yields when nothing changes between its steps. *)
Definition iterateCachedSqlResultRows (source : SqlStreamRowSource) (st : state)
    : state * list (Z * row) :=
  let '(st, found) := cacheFor source st in
  (st, match found with
       | Some (_, c) =>
         concat (map (fun p => imap (fun offset r => (p_rowStart p + Z.of_nat offset, r)) (p_rows p))
                   (mvals (pages c)))
       | None => []
       end).

(** ** Subscriptions *)

(** Returns the identity of the listener set, which the unsubscription refers to. *)
Definition subscribeSqlResultPages (source : SqlStreamRowSource) (listener : nat) (st : state)
    : state * option (jsstr * nat) :=
  match sourceKey source with
  | None => (st, None)
  | Some key =>
    let st := fst (cacheFor source st) in
    let '(sid, ls) := default (next_id st, []) (mget (listeners st) key) in
    (mkState (caches st) (mset (listeners st) key (sid, sadd ls listener)) (S (next_id st))
       (notified st), Some (key, sid))
  end.

Definition unsubscribe (key : jsstr) (sid listener : nat) (st : state) : state :=
  let set_listeners l := mkState (caches st) l (next_id st) (notified st) in
  match mget (listeners st) key with
  | Some (sid', ls) =>
    if (sid' =? sid)%nat then
      match filterb (fun l => negb (l =? listener)%nat) ls with
      | [] => set_listeners (mdel (listeners st) key)
      | ls => set_listeners (mset (listeners st) key (sid, ls))
      end
    else set_listeners (mdel (listeners st) key)
  | None => st
  end.

(** ** Reading pages *)

Definition recordPageFailure (key : jsstr) (c : ResultPageCache) (seq : nat) (e : thrown)
    (now : Z) (st : state) : state :=
  let n := S (match mget (pageFailures c) seq with Some f => attempts f | None => 0 end) in
  let kind := classifySqlResultPageError e in
  let again := bool_decide (kind = unavailable) && (n <? SQL_RESULT_PAGE_MAX_ATTEMPTS)%nat in
  let delay := SQL_RESULT_PAGE_RETRY_BASE_MS * 4 ^ (Z.of_nat n - 1) in
  let c := mkCache (cid c) (pages c) (failures c) (loading c)
             (mset (pageFailures c) seq
                (mkPageFailure (if again then n else SQL_RESULT_PAGE_MAX_ATTEMPTS) (now + delay) kind))
             (if again && negb (retryTimer c) then true else retryTimer c)
             (Some (mkPageError kind again)) in
  notify key (put_cache key c st).

(** The retry timer of the cache object [n] fires. *)
Definition retry_timer_fires (key : jsstr) (n : nat) (st : state) : state :=
  let st := match mget (caches st) key with
            | Some c => if (cid c =? n)%nat
                        then put_cache key (mkCache (cid c) (pages c) (failures c) (loading c)
                               (pageFailures c) false (error c)) st
                        else st
            | None => st
            end in
  notify key st.

Definition retrySqlResultPages (source : SqlStreamRowSource) (st : state) : state :=
  match sourceKey source with
  | None => st
  | Some key =>
    match mget (caches st) key with
    | None => st
    | Some c => notify key (put_cache key (clearPageFailures c) st)
    end
  end.

(** A page being read, for the cache object [rq_cid]. *)
Record request := mkRequest {
  rq_source : SqlStreamRowSource; rq_cid : nat;
  rq_range : SqlStreamPageRange; rq_columns : list jsstr }.

(** The ranges that the first [for] loop collects, at most [room] of them. *)
Fixpoint wanted (room : nat) (ranges : list SqlStreamPageRange) (requestedEnd : Z)
    : list SqlStreamPageRange :=
  match room, ranges with
  | S room, range :: ranges =>
    if requestedEnd <=? rowStart range then [] else range :: wanted room ranges requestedEnd
  | _, _ => []
  end.

(** Whether a failed page may be asked for now. *)
Definition may_request (c : ResultPageCache) (seq : nat) (now : Z) : bool :=
  negb (mhas (pages c) seq)
  && match mget (pageFailures c) seq with
     | Some f => negb ((SQL_RESULT_PAGE_MAX_ATTEMPTS <=? attempts f)%nat || (now <? retryAt f))
     | None => true
     end.

Definition start_loading (c : ResultPageCache) (seq : nat) : ResultPageCache :=
  mkCache (cid c) (pages c) (failures c) (loading c ++ [seq]) (pageFailures c)
    (retryTimer c) (error c).

(** The second [for] loop: pages already being read are awaited, not asked for again. *)
Definition request_page (source : SqlStreamRowSource) (columns : list jsstr) (now : Z)
    (acc : ResultPageCache * list request) (range : SqlStreamPageRange)
    : ResultPageCache * list request :=
  let '(c, started) := acc in
  if may_request c (sequence range) now && negb (bool_decide (sequence range ∈ loading c))
  then (start_loading c (sequence range),
        started ++ [mkRequest source (cid c) range columns])
  else (c, started).

Definition ensureSqlResultRange (source : SqlStreamRowSource) (start end_ : Z)
    (expectedColumns : list jsstr) (now : Z) (st : state) : state * list request :=
  if negb (complete source) || (src_rowCount source =? 0) || (end_ <=? start) then (st, [])
  else
    let '(st, found) := cacheFor source st in
    match found with
    | None => (st, [])
    | Some (key, c) =>
      let requestedStart := Z.max 0 start in
      let requestedEnd := Z.min (src_rowCount source) end_ in
      match pageRangeIndexForRow source requestedStart with
      | None => (st, [])
      | Some first =>
        if requestedEnd <=? requestedStart then (st, [])
        else
          let ranges := wanted SQL_RESULT_CACHE_MAX_PAGES (drop first (pageRanges source))
                          requestedEnd in
          let '(c, started) :=
            foldl (request_page source expectedColumns now) (c, []) ranges in
          (put_cache key c st, started)
      end
    end.

(** The failures of a batch lie on cells of the page that can carry them. *)
Definition failure_valid (start : Z) (rows : list row) (columns : list jsstr)
    (f : CellDecodeFailure) : bool :=
  negb ((rowIndex f <? start) || (start + Z.of_nat (length rows) <=? rowIndex f)
        || (columnIndex f <? 0) || (Z.of_nat (length columns) <=? columnIndex f)
        || negb (non_empty (databaseType f))
        || negb (decodeFailureCellIsConsistent f
             (r ← rows !! Z.to_nat (rowIndex f - start); r !! Z.to_nat (columnIndex f)))).

(** The batch is the page that the range describes. *)
Definition batch_matches (rq : request) (batch : SqlStreamBatchWire) : bool :=
  let range := rq_range rq in
  bool_decide (Some (b_operationId batch) = operationId (rq_source rq))
  && (b_sequence batch =? sequence range)%nat
  && (default (rowStart range) (b_rowStart batch) =? rowStart range)
  && (Z.of_nat (length (b_rows batch)) =? rowCount range)
  && (Z.of_nat (length (b_rows batch)) <=? pageRows (rq_source rq))
  && bool_decide (b_columns batch = rq_columns rq)
  && forallb (fun r => length r =? length (b_columns batch))%nat (b_rows batch)
  && forallb (failure_valid (rowStart range) (b_rows batch) (b_columns batch)) (b_failures batch).

(** [cache.loading.delete(sequence)] on the object the request was started for. *)
Definition stop_loading (key : jsstr) (n seq : nat) (st : state) : state :=
  match mget (caches st) key with
  | Some c =>
    if (cid c =? n)%nat
    then put_cache key (mkCache (cid c) (pages c) (failures c)
           (filterb (fun s => negb (s =? seq)%nat) (loading c)) (pageFailures c)
           (retryTimer c) (error c)) st
    else st
  | None => st
  end.

(** The error thrown for a batch that does not match has no [kind]. *)
Definition mismatch : thrown :=
  mkThrown None (Some (js "SQL result page did not match its artifact")).

Definition settle (rq : request) (outcome : res thrown SqlStreamBatchWire) (now : Z) (st : state)
    : state :=
  let seq := sequence (rq_range rq) in
  let fail e st :=
    let '(st, found) := cacheFor (rq_source rq) st in
    match found with
    | Some (key, current) => recordPageFailure key current seq e now st
    | None => st
    end in
  let st :=
    match outcome with
    | Ok batch =>
      if batch_matches rq batch
      then retain (rq_source rq) seq (rowStart (rq_range rq)) (b_rows batch) (b_failures batch) st
      else fail mismatch st
    | Throw e => fail e st
    end in
  match sourceKey (rq_source rq) with
  | Some key => stop_loading key (rq_cid rq) seq st
  | None => st
  end.

(** [clearSqlResultPageCache(source)], with [None] for a call without argument. *)
Definition clearSqlResultPageCache (source : option SqlStreamRowSource) (st : state) : state :=
  match source with
  | Some source =>
    match sourceKey source with
    | Some key => notify key (with_caches (mdel (caches st) key) st)
    | None => st
    end
  | None => foldl (fun st key => notify key st) (with_caches [] st) (mkeys (caches st))
  end.

(** ** Every call that reaches the module *)

Inductive op :=
| Push (source : SqlStreamRowSource) (batch : SqlStreamBatchWire)
| RangeIsCached (source : SqlStreamRowSource) (start end_ : Z)
| RowAt (source : SqlStreamRowSource) (index : Z)
| Collect (source : SqlStreamRowSource)
| Look (source : SqlStreamRowSource)
| Ensure (source : SqlStreamRowSource) (start end_ : Z) (columns : list jsstr) (now : Z)
| Settle (rq : request) (outcome : res thrown SqlStreamBatchWire) (now : Z)
| TimerFires (key : jsstr) (n : nat)
| Retry (source : SqlStreamRowSource)
| Subscribe (source : SqlStreamRowSource) (listener : nat)
| Unsubscribe (key : jsstr) (sid listener : nat)
| Clear (source : option SqlStreamRowSource).

(** [Look] stands for the reads that only call [cacheFor]. *)
Definition apply_op (st : state) (o : op) : state :=
  match o with
  | Push source batch => retainSqlStreamBatch source batch st
  | RangeIsCached source s e => fst (sqlResultRangeIsCached source s e st)
  | RowAt source i => fst (sqlResultRowAt source i st)
  | Collect source => fst (collectCachedSqlResultRows source st)
  | Look source => fst (cacheFor source st)
  | Ensure source s e columns now => fst (ensureSqlResultRange source s e columns now st)
  | Settle rq outcome now => settle rq outcome now st
  | TimerFires key n => retry_timer_fires key n st
  | Retry source => retrySqlResultPages source st
  | Subscribe source l => fst (subscribeSqlResultPages source l st)
  | Unsubscribe key sid l => unsubscribe key sid l st
  | Clear source => clearSqlResultPageCache source st
  end.

Definition run_ops (ops : list op) : state := foldl apply_op initial ops.

End pages.
