(* ===== verification/ResultPagesInv.v ===== *)
(** * What the cache of SQL result pages guarantees

    Properties of file ResultPages: the bounds that hold after any sequence of calls,
    the binary search of a row's page, retained pages that read back exactly, a cached
    range whose rows can all be read, and the bound on automatic retries. The last
    section shows a retry that is announced and never scheduled. *)

From S2P Require Import Prelude JsString Regex JsMap JsValue ResultPages.
From Stdlib Require String.
Import Stdlib.Strings.String.StringSyntax.
Local Open Scope Z_scope.

(** ** Counting the caches with pages *)

Definition bears (o : option ResultPageCache) : nat :=
  match o with Some c => if has_pages c then 1 else 0 | None => 0 end.
Definition count_bearing (m : list (jsstr * ResultPageCache)) : nat := length (bearing m).

Implicit Types (m : list (jsstr * ResultPageCache)) (c : ResultPageCache) (st : state).

Lemma count_cons k c m : count_bearing ((k, c) :: m) = (bears (Some c) + count_bearing m)%nat.
Proof. unfold count_bearing, bearing, filterb. cbn. by destruct (has_pages c). Qed.

Lemma count_app m m' : count_bearing (m ++ m') = (count_bearing m + count_bearing m')%nat.
Proof. unfold count_bearing, bearing. by rewrite filterb_app, length_app. Qed.

Lemma count_del m k :
  NoDup (mkeys m) -> count_bearing m = (count_bearing (mdel m k) + bears (mget m k))%nat.
Proof.
  induction m as [|[a c] m IH]; intros Hd; [done|]. cbn in Hd.
  apply NoDup_cons in Hd as [Hn Hd]. rewrite mdel_cons, count_cons. cbn [mget].
  case_decide; subst.
  - rewrite mdel_id by done. lia.
  - rewrite count_cons, IH by done. lia.
Qed.

Lemma count_touch m k c :
  NoDup (mkeys m) ->
  (count_bearing (mtouch m k c) + bears (mget m k) = count_bearing m + bears (Some c))%nat.
Proof.
  intros Hd. rewrite mtouch_app, count_app, (count_del m k Hd), count_cons. cbn. lia.
Qed.

Lemma count_set m k c :
  NoDup (mkeys m) ->
  (count_bearing (mset m k c) + bears (mget m k) = count_bearing m + bears (Some c))%nat.
Proof.
  intros Hd. rewrite (count_del (mset m k c) k), (count_del m k Hd) by by apply mset_NoDup.
  rewrite mget_set_eq. enough (mdel (mset m k c) k = mdel m k) as -> by lia. clear Hd.
  induction m as [|[a b] m IH]; [by cbn; rewrite mdel_cons, decide_True|]. cbn [mset].
  case_decide; rewrite !mdel_cons; subst.
  - by rewrite !decide_True.
  - by rewrite decide_False, decide_False, IH.
Qed.

(** ** The invariant *)

Record cache_inv c : Prop := {
  ci_pages : NoDup (mkeys (pages c));
  ci_size : (length (pages c) <= SQL_RESULT_CACHE_MAX_PAGES)%nat;
  ci_failures : forall s, s ∈ mkeys (failures c) -> s ∈ mkeys (pages c);
  ci_fkeys : NoDup (mkeys (failures c));
  ci_attempts : forall s f, mget (pageFailures c) s = Some f ->
    (attempts f <= SQL_RESULT_PAGE_MAX_ATTEMPTS)%nat }.

Record state_inv st : Prop := {
  st_keys : NoDup (mkeys (caches st));
  st_bearing : (count_bearing (caches st) <= SQL_RESULT_CACHE_MAX_RESULTS)%nat;
  st_caches : forall k c, mget (caches st) k = Some c -> cache_inv c }.

Lemma empty_cache_inv n : cache_inv (empty_cache n).
Proof. split; cbn; try done; [constructor|lia|constructor]. Qed.

Lemma initial_inv : state_inv initial.
Proof. split; cbn; [constructor|vm_compute; lia|done]. Qed.

Lemma put_cache_inv key c st :
  state_inv st -> cache_inv c -> (bears (Some c) <= bears (mget (caches st) key))%nat ->
  state_inv (put_cache key c st).
Proof.
  intros [Hk Hb Hc] Hi Hle. split; cbn [put_cache with_caches caches].
  - by apply mset_NoDup.
  - pose proof (count_set (caches st) key c Hk). lia.
  - intros k c'. rewrite mget_set. case_decide; [by intros [= <-]|apply Hc].
Qed.

Lemma notify_inv key st : state_inv st -> state_inv (notify key st).
Proof. intros []. by split. Qed.


Lemma cacheFor_inv source st :
  state_inv st -> state_inv (fst (cacheFor source st)).
Proof.
  intros Hst. pose proof Hst as [Hk Hb Hc]. unfold cacheFor.
  destruct (sourceKey source) as [key|]; [|done].
  assert (forall c, cache_inv c -> (bears (Some c) <= bears (mget (caches st) key))%nat ->
    forall st', caches st' = mtouch (caches st) key c -> state_inv st') as Hput.
  { intros c Hi Hle st' Hst'. split; rewrite Hst'.
    - by apply mtouch_NoDup.
    - pose proof (count_touch (caches st) key c Hk). lia.
    - intros k c'. rewrite mget_touch. case_decide; [by intros [= <-]|apply Hc]. }
  destruct (mget (caches st) key) as [c|] eqn:E; cbn.
  - eapply (Hput c); [by eapply Hc|done|done].
  - eapply (Hput (empty_cache (next_id st))); [apply empty_cache_inv|cbn; lia|done].
Qed.

(** What [cacheFor] finds. *)
Lemma cacheFor_found source st key c :
  snd (cacheFor source st) = Some (key, c) ->
  sourceKey source = Some key /\ mget (caches (fst (cacheFor source st))) key = Some c
  /\ (mget (caches st) key = Some c
      \/ mget (caches st) key = None /\ c = empty_cache (next_id st)).
Proof.
  unfold cacheFor. destruct (sourceKey source) as [k|]; [|done].
  destruct (mget (caches st) k) as [c'|] eqn:E; cbn; intros [= <- <-];
    rewrite mget_touch, decide_True by done; auto.
Qed.

Lemma cacheFor_other source st key k :
  sourceKey source = Some key -> k <> key ->
  mget (caches (fst (cacheFor source st))) k = mget (caches st) k.
Proof.
  unfold cacheFor. intros -> Hk. destruct (mget (caches st) key); cbn;
    rewrite mget_touch; by rewrite decide_False.
Qed.

(** ** Eviction of results *)

Lemma bears_le o : (bears o <= 1)%nat.
Proof. destruct o as [c|]; cbn; [destruct (has_pages c)|]; lia. Qed.

Lemma find_evictable m key :
  NoDup (mkeys m) -> (1 < count_bearing m)%nat ->
  exists k c, findb (fun e => negb (e.1 ==s key) && has_pages e.2) m = Some (k, c)
  /\ k <> key /\ mget m k = Some c /\ has_pages c = true.
Proof.
  intros Hd Hc. destruct (findb _ m) as [[k c]|] eqn:E.
  - apply findb_some in E as [Hp Hin]. cbn in Hp. bools. exists k, c. split; [done|].
    split; [done|]. split; [by apply elem_mget|done].
  - exfalso. rewrite findb_none in E.
    rewrite (count_del m key Hd) in Hc. pose proof (bears_le (mget m key)).
    enough (count_bearing (mdel m key) = 0%nat) by lia.
    unfold count_bearing, bearing. rewrite filterb_none; [done|].
    intros [k c] [Hk Hin]%filterb_elem. cbn in Hk. apply negb_true_iff, bool_decide_eq_false in Hk.
    specialize (E _ Hin). cbn in E. rewrite bool_decide_false in E by done. done.
Qed.

Definition caches_ok st : Prop :=
  NoDup (mkeys (caches st)) /\ forall k c, mget (caches st) k = Some c -> cache_inv c.

Lemma evict_results_spec fuel key st :
  caches_ok st -> (count_bearing (caches st) <= fuel + SQL_RESULT_CACHE_MAX_RESULTS)%nat ->
  state_inv (evict_results fuel key st)
  /\ mget (caches (evict_results fuel key st)) key = mget (caches st) key
  /\ listeners (evict_results fuel key st) = listeners st.
Proof.
  revert st. induction fuel as [|fuel IH]; intros st [Hd Hc] Hf.
  { split; [|done]. by split. }
  cbn [evict_results]. fold (count_bearing (caches st)).
  destruct (Nat.ltb_spec SQL_RESULT_CACHE_MAX_RESULTS (count_bearing (caches st))) as [Hlt|Hle].
  2: { split; [|done]. by split. }
  destruct (find_evictable (caches st) key Hd) as (k & c & -> & Hne & Hget & Hp).
  { unfold SQL_RESULT_CACHE_MAX_RESULTS in Hlt. lia. }
  pose proof (count_del (caches st) k Hd) as Hcount. rewrite Hget in Hcount. cbn in Hcount.
  rewrite Hp in Hcount.
  destruct (IH (notify k (with_caches (mdel (caches st) k) st))) as (H1 & H2 & H3).
  - split; cbn [notify with_caches caches]; [by apply mdel_NoDup|].
    intros k' c'. rewrite mget_del. case_decide; [done|apply Hc].
  - cbn [notify with_caches caches]. lia.
  - split; [done|]. cbn [notify with_caches caches listeners] in H2, H3.
    rewrite H2, mget_del, decide_False by done. done.
Qed.

Lemma drop_idle_step key st cs e :
  drop_idle key st cs e = cs
  \/ drop_idle key st cs e = mdel cs e.1 /\ e.1 <> key /\ has_pages e.2 = false
     /\ loading e.2 = [] /\ mhas (listeners st) e.1 = false.
Proof.
  unfold drop_idle. destruct (length cs <=? _)%nat; [by left|].
  destruct (e.1 ==s key) eqn:E; [by left|]. apply bool_decide_eq_false in E.
  destruct (negb (has_pages e.2) && _ && _) eqn:E2; [|by left]. right. bools. done.
Qed.

Lemma drop_idle_fold key st l cs :
  NoDup (mkeys cs) ->
  let cs' := foldl (drop_idle key st) cs l in
  NoDup (mkeys cs') /\ mget cs' key = mget cs key
  /\ (count_bearing cs' <= count_bearing cs)%nat
  /\ (forall k c, mget cs' k = Some c -> mget cs k = Some c).
Proof.
  revert cs. induction l as [|e l IH]; intros cs Hd; cbn [foldl]; [done|].
  destruct (drop_idle_step key st cs e) as [->|(-> & Hne & _)]; [by apply IH|].
  destruct (IH (mdel cs e.1)) as (H1 & H2 & H3 & H4); [by apply mdel_NoDup|].
  pose proof (count_del cs e.1 Hd). split; [done|]. split; [|split; [lia|]].
  - rewrite H2, mget_del. by rewrite decide_False.
  - intros k c Hk. apply H4 in Hk. rewrite mget_del in Hk. by case_decide.
Qed.

Lemma trim_spec key st :
  caches_ok st -> 
  state_inv (trimResultPages key st)
  /\ mget (caches (trimResultPages key st)) key = mget (caches st) key.
Proof.
  intros Hst. unfold trimResultPages.
  assert (count_bearing (caches st) <= length (caches st))%nat as Hlen
    by (unfold count_bearing, bearing; apply filterb_length_le).
  destruct (evict_results_spec (length (caches st)) key st Hst) as (H1 & H2 & _); [lia|].
  set (st1 := evict_results _ key st) in *. destruct H1 as [Hd Hb Hc].
  destruct (drop_idle_fold key st1 (caches st1) (caches st1) Hd) as (F1 & F2 & F3 & F4).
  split; [split; cbn [with_caches caches]|].
  - done.
  - lia.
  - intros k c Hk. by apply F4, Hc in Hk.
  - cbn. by rewrite F2.
Qed.

(** ** Eviction of pages *)

Lemma evict_pages_spec ps fs :
  let '(ps', fs') := evict_pages ps fs in
  ps' = drop (length ps - SQL_RESULT_CACHE_MAX_PAGES) ps
  /\ (NoDup (mkeys ps) -> NoDup (mkeys fs) -> (forall s, s ∈ mkeys fs -> s ∈ mkeys ps) ->
      NoDup (mkeys fs') /\ forall s, s ∈ mkeys fs' -> s ∈ mkeys ps').
Proof.
  revert fs. induction ps as [|[o p] ps IH]; intros fs; [done|]. cbn [evict_pages].
  destruct (Nat.ltb_spec SQL_RESULT_CACHE_MAX_PAGES (length ((o, p) :: ps))) as [Hlt|Hle].
  - specialize (IH (mdel fs o)). destruct (evict_pages ps (mdel fs o)) as [ps' fs'].
    destruct IH as [-> IH]. cbn [length] in *. split.
    { by replace (S (length ps) - SQL_RESULT_CACHE_MAX_PAGES)%nat
        with (S (length ps - SQL_RESULT_CACHE_MAX_PAGES)) by lia. }
    intros Hd Hf Hin. cbn in Hd. apply NoDup_cons in Hd as [Hn Hd]. apply IH; [done| |].
    + by apply mdel_NoDup.
    + intros s [Hne Hs]%mkeys_del_elem. apply Hin in Hs. cbn in Hs.
      apply elem_of_cons in Hs as [->|Hs]; done.
  - replace (_ - _)%nat with 0%nat by (cbn [length] in *; lia). done.
Qed.

Lemma retain_pages_inv c seq p fails e :
  cache_inv c ->
  let '(ps, fs) := evict_pages (mtouch (pages c) seq p) (mset (failures c) seq fails) in
  cache_inv (mkCache (cid c) ps fs (loading c) (mdel (pageFailures c) seq) (retryTimer c) e)
  /\ mget ps seq = Some p.
Proof.
  intros [Hp Hs Hf Hk Ha].
  pose proof (evict_pages_spec (mtouch (pages c) seq p) (mset (failures c) seq fails)) as He.
  destruct (evict_pages _ _) as [ps fs]. destruct He as [-> He].
  assert (NoDup (mkeys (mtouch (pages c) seq p))) as Hd by by apply mtouch_NoDup.
  destruct He as [He1 He2]; [done|by apply mset_NoDup| |].
  { intros s. rewrite mkeys_set, mkeys_touch, elem_of_app, mkeys_del_elem, list_elem_of_singleton.
    intros Hs'. destruct (decide (s = seq)) as [|Hne]; [by right|]. left. split; [done|].
    apply Hf. case_decide; [done|]. apply elem_of_app in Hs' as [?|?%list_elem_of_singleton]; done. }
  assert (NoDup (mkeys (drop (length (mtouch (pages c) seq p) - SQL_RESULT_CACHE_MAX_PAGES)
    (mtouch (pages c) seq p)))) as Hd'.
  { unfold mkeys. rewrite <- skipn_map. eapply sublist_NoDup; [exact Hd|apply sublist_drop]. }
  split; [split; cbn [pages failures pageFailures]|].
  - done.
  - rewrite length_drop. lia.
  - done.
  - done.
  - intros s f. rewrite mget_del. case_decide; [done|apply Ha].
  - apply elem_mget; [done|]. rewrite mtouch_app, length_app. cbn [length].
    rewrite drop_app_le by (unfold SQL_RESULT_CACHE_MAX_PAGES; lia).
    apply elem_of_app. right. by left.
Qed.

Lemma cacheFor_none source st : snd (cacheFor source st) = None -> fst (cacheFor source st) = st.
Proof. unfold cacheFor. by repeat case_match. Qed.

Lemma cacheFor_caches_ok source st key c :
  state_inv st -> snd (cacheFor source st) = Some (key, c) ->
  state_inv (fst (cacheFor source st)) /\ cache_inv c
  /\ mget (caches (fst (cacheFor source st))) key = Some c /\ sourceKey source = Some key.
Proof.
  intros Hst Hf. pose proof (cacheFor_inv source st Hst) as Hi.
  destruct (cacheFor_found _ _ _ _ Hf) as (Hk & Hget & _).
  split; [done|]. split; [by eapply Hi|done].
Qed.

Lemma retain_spec source seq start rows fails st :
  state_inv st ->
  state_inv (retain source seq start rows fails st)
  /\ forall key range, sourceKey source = Some key -> pageRanges source !! seq = Some range ->
     sequence range = seq -> rowStart range = start -> rowCount range = Z.of_nat (length rows) ->
     exists c, mget (caches (retain source seq start rows fails st)) key = Some c
               /\ mget (pages c) seq = Some (mkPage start rows).
Proof.
  intros Hst. unfold retain.
  pose proof (cacheFor_caches_ok source st) as Hcf. pose proof (cacheFor_none source st) as Hnone.
  destruct (cacheFor source st) as [st1 [[key c]|]] eqn:E; cbn [fst snd] in *.
  2: { rewrite (Hnone eq_refl). split; [done|]. intros key range Hk. unfold cacheFor in E.
    rewrite Hk in E. by destruct (mget (caches st) key). }
  destruct (Hcf key c Hst eq_refl) as (H1 & H2 & H3 & H4).
  destruct (pageRanges source !! seq) as [range|] eqn:Hr; [|split; [done|by intros]].
  destruct (_ && _) eqn:Hok.
  2: { split; [done|]. intros k r Hk [= <-] Hs Hst' Hc. exfalso.
    apply andb_false_iff in Hok as [[Hok|Hok]%andb_false_iff|Hok]; [apply Nat.eqb_neq in Hok|apply Z.eqb_neq in Hok..];
      congruence. }
  pose proof (retain_pages_inv c seq (mkPage start rows) fails
    (if bool_decide (mdel (pageFailures c) seq = []) then None else error c) H2) as Hp.
  destruct (evict_pages _ _) as [ps fs]. destruct Hp as [Hp Hpage].
  set (c' := mkCache _ _ _ _ _ _ _) in *.
  destruct (trim_spec key (put_cache key c' st1)) as [T1 T2].
  { destruct H1 as [Hd Hb Hc]. split; cbn [put_cache with_caches caches]; [by apply mset_NoDup|].
    intros k x. rewrite mget_set. case_decide; [by intros [= <-]|apply Hc]. }
  split; [by apply notify_inv|]. intros k r Hk _ _ _ _. rewrite H4 in Hk. injection Hk as <-.
  exists c'. split; [|done]. cbn [notify caches]. rewrite T2. cbn. by rewrite mget_set_eq.
Qed.

(** A cache that keeps its pages keeps the bound. *)
Lemma put_same_pages key c c0 st :
  state_inv st -> cache_inv c -> mget (caches st) key = Some c0 ->
  has_pages c = has_pages c0 -> state_inv (put_cache key c st).
Proof. intros Hst Hi Hget Hp. apply put_cache_inv; [done..|]. rewrite Hget. cbn. by rewrite Hp. Qed.

Lemma touch_page_inv c seq p :
  cache_inv c -> mget (pages c) seq = Some p ->
  cache_inv (touch_page c seq p) /\ has_pages (touch_page c seq p) = has_pages c.
Proof.
  intros [Hp Hs Hf Hk Ha] Hget.
  assert (length (mtouch (pages c) seq p) = length (pages c)) as Hlen.
  { rewrite mtouch_app, length_app. cbn.
    assert (Permutation (mkeys (mtouch (pages c) seq p)) (mkeys (pages c))) as Hperm.
    { apply NoDup_Permutation; [by apply mtouch_NoDup|done|]. intros s.
      rewrite mkeys_touch, elem_of_app, mkeys_del_elem, list_elem_of_singleton.
      split; [intros [[_ ?]| ->]; [done|by apply mget_keys; rewrite Hget]|].
      intros Hs'. destruct (decide (s = seq)); [by right|by left]. }
    apply Permutation_length in Hperm. unfold mkeys in Hperm.
    rewrite !length_map, mtouch_app, length_app in Hperm. exact Hperm. }
  split; [split; cbn [touch_page pages failures pageFailures]; try done|].
  - by apply mtouch_NoDup.
  - by rewrite Hlen.
  - intros s Hin. apply Hf in Hin. rewrite mkeys_touch, elem_of_app, mkeys_del_elem,
      list_elem_of_singleton. destruct (decide (s = seq)); [by right|by left].
  - unfold has_pages. cbn. f_equal. apply bool_decide_ext.
    split; intros E; apply (f_equal length) in E; apply nil_length_inv; cbn in *; lia.
Qed.

Lemma page_matches_get c range p :
  page_matches c range = Some p ->
  mget (pages c) (sequence range) = Some p /\ p_rowStart p = rowStart range
  /\ Z.of_nat (length (p_rows p)) = rowCount range.
Proof.
  unfold page_matches. destruct (mget _ _) as [q|]; [|done]. case_match; [|done].
  intros [= <-]. bools. repeat split; by apply Z.eqb_eq.
Qed.

Lemma collect_inv ranges c :
  cache_inv c -> cache_inv (fst (collect c ranges)) /\ has_pages (fst (collect c ranges)) = has_pages c.
Proof.
  revert c. induction ranges as [|r l IH]; intros c Hc; cbn; [done|].
  destruct (page_matches c r) as [p|] eqn:E; [|done].
  apply page_matches_get in E as (E & _ & _).
  destruct (touch_page_inv c _ _ Hc E) as [H1 H2]. destruct (IH _ H1) as [H3 H4].
  destruct (collect (touch_page c (sequence r) p) l) as [c' rest]. cbn in *.
  split; [done|]. by rewrite H4.
Qed.

Lemma same_pages_inv c c' :
  cache_inv c -> pages c' = pages c -> failures c' = failures c ->
  (forall s f, mget (pageFailures c') s = Some f -> (attempts f <= SQL_RESULT_PAGE_MAX_ATTEMPTS)%nat) ->
  cache_inv c' /\ has_pages c' = has_pages c.
Proof.
  intros [] Hp Hf Ha. split; [|unfold has_pages; by rewrite Hp].
  split; rewrite ?Hp, ?Hf; done.
Qed.

Lemma put_same key c c0 st :
  state_inv st -> mget (caches st) key = Some c0 -> pages c = pages c0 -> failures c = failures c0 ->
  (forall s f, mget (pageFailures c) s = Some f -> (attempts f <= SQL_RESULT_PAGE_MAX_ATTEMPTS)%nat) ->
  state_inv (put_cache key c st).
Proof.
  intros Hst Hget Hp Hf Ha.
  destruct (same_pages_inv c0 c (st_caches _ Hst _ _ Hget) Hp Hf Ha) as [H1 H2].
  by eapply put_same_pages.
Qed.

Lemma recordPageFailure_inv key c seq e now st :
  state_inv st -> mget (caches st) key = Some c -> state_inv (recordPageFailure key c seq e now st).
Proof.
  intros Hst Hget. unfold recordPageFailure. apply notify_inv. eapply put_same; [done..|].
  cbn [pageFailures]. intros s f. rewrite mget_set. case_decide.
  - intros [= <-]. cbn [attempts].
    destruct (bool_decide _ && (_ <? _)%nat) eqn:E; [|done].
    apply andb_true_iff in E as [_ E]. apply Nat.ltb_lt in E. lia.
  - apply (st_caches _ Hst _ _ Hget).
Qed.

Lemma stop_loading_inv key n seq st : state_inv st -> state_inv (stop_loading key n seq st).
Proof.
  intros Hst. unfold stop_loading. destruct (mget (caches st) key) as [c|] eqn:E; [|done].
  case_match; [|done]. eapply put_same; [done..|]. apply (st_caches _ Hst _ _ E).
Qed.

Lemma request_fold_pages source columns now ranges acc :
  let c' := (foldl (request_page source columns now) acc ranges).1 in
  pages c' = pages acc.1 /\ failures c' = failures acc.1 /\ pageFailures c' = pageFailures acc.1.
Proof.
  revert acc. induction ranges as [|r l IH]; intros acc; [done|]. cbn [foldl].
  destruct (IH (request_page source columns now acc r)) as (-> & -> & ->).
  destruct acc as [c started]. cbn. by case_match.
Qed.

Lemma fail_inv source seq e now st :
  state_inv st ->
  state_inv (let '(st, found) := cacheFor source st in
             match found with
             | Some (key, current) => recordPageFailure key current seq e now st
             | None => st end).
Proof.
  intros Hst. pose proof (cacheFor_caches_ok source st) as Hcf.
  pose proof (cacheFor_inv source st Hst) as Hi.
  destruct (cacheFor source st) as [st1 [[k c]|]]; [|done].
  destruct (Hcf k c Hst eq_refl) as (H1 & _ & H3 & _). by apply recordPageFailure_inv.
Qed.

Lemma settle_inv sn rq outcome now st :
  state_inv st -> state_inv (settle sn rq outcome now st).
Proof.
  intros Hst. unfold settle.
  set (st1 := match outcome with Ok _ => _ | Throw _ => _ end).
  assert (state_inv st1) as H1.
  { unfold st1. destruct outcome as [b|e]; [case_match|]; try by apply fail_inv.
    by apply retain_spec. }
  destruct (sourceKey (rq_source rq)); [by apply stop_loading_inv|done].
Qed.

Lemma drop_caches_inv cs st :
  state_inv st -> NoDup (mkeys cs) -> (count_bearing cs <= count_bearing (caches st))%nat ->
  (forall k c, mget cs k = Some c -> mget (caches st) k = Some c) -> state_inv (with_caches cs st).
Proof.
  intros [H1 H2 H3] Hd Hc Hg. split; cbn [with_caches caches]; [done|lia|].
  intros k c Hk. by eapply H3, Hg.
Qed.

Lemma clear_inv source st : state_inv st -> state_inv (clearSqlResultPageCache source st).
Proof.
  intros Hst. unfold clearSqlResultPageCache. destruct source as [source|].
  - destruct (sourceKey source) as [key|]; [|done]. apply notify_inv, drop_caches_inv; [done|..].
    + apply mdel_NoDup, Hst.
    + rewrite (count_del (caches st) key) by apply Hst. lia.
    + intros k c. rewrite mget_del. by case_decide.
  - assert (state_inv (with_caches [] st)) as H0.
    { apply drop_caches_inv; [done|constructor|cbn; lia|done]. }
    revert H0. generalize (with_caches [] st). generalize (mkeys (caches st)).
    induction l as [|k l IH]; intros s Hs; cbn; [done|]. by apply IH, notify_inv.
Qed.

Lemma rows_inv source index st : state_inv st -> state_inv (fst (sqlResultRowAt source index st)).
Proof.
  intros Hst. unfold sqlResultRowAt. case_match; [done|].
  pose proof (cacheFor_caches_ok source st) as Hcf. pose proof (cacheFor_inv source st Hst) as Hi.
  destruct (cacheFor source st) as [st1 [[k c]|]]; [|done].
  destruct (Hcf k c Hst eq_refl) as (H1 & H2 & H3 & H4).
  destruct (_ ≫= _) as [range|]; [|done].
  destruct (mget (pages c) (sequence range)) as [p|] eqn:E; [|done].
  case_match; [|done]. cbn [fst].
  destruct (touch_page_inv c _ _ H2 E). by eapply put_same_pages.
Qed.

Lemma apply_op_inv sn st o : state_inv st -> state_inv (apply_op sn st o).
Proof.
  intros Hst. destruct o; cbn [apply_op].
  - by apply retain_spec.
  - unfold sqlResultRangeIsCached. case_match; [done|].
    pose proof (cacheFor_inv source st Hst). destruct (cacheFor source st) as [st1 [[k c]|]]; [|done].
    by case_match.
  - by apply rows_inv.
  - unfold collectCachedSqlResultRows. case_match; [done|].
    pose proof (cacheFor_caches_ok source st) as Hcf. pose proof (cacheFor_inv source st Hst).
    destruct (cacheFor source st) as [st1 [[k c]|]]; [|done].
    destruct (Hcf k c Hst eq_refl) as (H1 & H2 & H3 & _).
    destruct (collect_inv (pageRanges source) c H2) as [H4 H5].
    destruct (collect c (pageRanges source)) as [c' rows]. by eapply put_same_pages.
  - by apply cacheFor_inv.
  - unfold ensureSqlResultRange. case_match; [done|].
    pose proof (cacheFor_caches_ok source st) as Hcf. pose proof (cacheFor_inv source st Hst).
    destruct (cacheFor source st) as [st1 [[k c]|]]; [|done].
    destruct (Hcf k c Hst eq_refl) as (H1 & H2 & H3 & _).
    destruct (pageRangeIndexForRow source _) as [first|]; [|done]. case_match; [done|].
    destruct (request_fold_pages source columns now (wanted SQL_RESULT_CACHE_MAX_PAGES
      (drop first (pageRanges source)) (Z.min (src_rowCount source) end_)) (c, []))
      as (P1 & P2 & P3).
    destruct (foldl _ (c, []) _) as [c' started]. cbn [fst] in *.
    eapply put_same; [done..|]. rewrite P3. apply H2.
  - by apply settle_inv.
  - unfold retry_timer_fires. apply notify_inv.
    destruct (mget (caches st) key) as [c|] eqn:E; [|done]. case_match; [|done].
    eapply put_same; [done..|]. apply (st_caches _ Hst _ _ E).
  - unfold retrySqlResultPages. destruct (sourceKey source) as [key|]; [|done].
    destruct (mget (caches st) key) as [c|] eqn:E; [|done]. apply notify_inv.
    by eapply put_same.
  - unfold subscribeSqlResultPages. destruct (sourceKey source) as [key|]; [|done].
    pose proof (cacheFor_inv source st Hst) as [A B C].
    destruct (default _ _). by split.
  - unfold unsubscribe. destruct Hst. repeat case_match; by split.
  - by apply clear_inv.
Qed.

Lemma run_ops_inv sn ops : state_inv (run_ops sn ops).
Proof.
  unfold run_ops. pose proof initial_inv as H. revert H. generalize initial.
  induction ops as [|o l IH]; intros st Hst; cbn; [done|]. by apply IH, apply_op_inv.
Qed.

(** whatever calls, page reads, failures and timers reach the module, in whatever
    order, at most four stored results hold pages, each at most six pages, one per
    sequence; decode failures are kept for held pages only; and no page is recorded as
    having failed more than three times. *)
Theorem result_pages_bounded sn ops :
  let st := run_ops sn ops in
  NoDup (mkeys (caches st))
  /\ (length (filterb (fun e => has_pages e.2) (caches st)) <= SQL_RESULT_CACHE_MAX_RESULTS)%nat
  /\ forall key c, mget (caches st) key = Some c ->
     NoDup (mkeys (pages c)) /\ (length (pages c) <= SQL_RESULT_CACHE_MAX_PAGES)%nat
     /\ (forall s, s ∈ mkeys (failures c) -> s ∈ mkeys (pages c))
     /\ forall s f, mget (pageFailures c) s = Some f ->
        (attempts f <= SQL_RESULT_PAGE_MAX_ATTEMPTS)%nat.
Proof.
  destruct (run_ops_inv sn ops) as [H1 H2 H3]. split; [done|]. split; [done|].
  intros key c Hc. by destruct (H3 _ _ Hc).
Qed.

(** ** The page of a row *)

Definition holds_row (index : Z) (r : SqlStreamPageRange) : bool :=
  (rowStart r <=? index) && (index <? rowStart r + rowCount r).

(** The ranges of a stored result: in order, without overlap. *)
Definition ordered_ranges (ranges : list SqlStreamPageRange) : Prop :=
  (forall i r, ranges !! i = Some r -> 0 <= rowCount r)
  /\ forall i j r r', (i < j)%nat -> ranges !! i = Some r -> ranges !! j = Some r' ->
     rowStart r + rowCount r <= rowStart r'.

Section search.
Context (ranges : list SqlStreamPageRange) (Hord : ordered_ranges ranges) (index : Z).

Lemma search_empty low high :
  high < low ->
  (forall i r, ranges !! i = Some r -> Z.of_nat i < low -> rowStart r + rowCount r <= index) ->
  (forall i r, ranges !! i = Some r -> high < Z.of_nat i -> index < rowStart r) ->
  forall i r, ranges !! i = Some r -> holds_row index r = false.
Proof.
  intros Hlt Hl Hh i r Hi. unfold holds_row. apply andb_false_iff.
  destruct (decide (Z.of_nat i < low)) as [Hil|Hil].
  - right. apply Z.ltb_ge. by eapply Hl.
  - left. apply Z.leb_gt. eapply Hh; [done|lia].
Qed.

Lemma search_range_spec fuel low high :
  0 <= low -> high < Z.of_nat (length ranges) -> high - low + 1 < Z.of_nat fuel ->
  (forall i r, ranges !! i = Some r -> Z.of_nat i < low -> rowStart r + rowCount r <= index) ->
  (forall i r, ranges !! i = Some r -> high < Z.of_nat i -> index < rowStart r) ->
  match search_range fuel ranges index low high with
  | Some i => exists r, ranges !! i = Some r /\ holds_row index r = true
  | None => forall i r, ranges !! i = Some r -> holds_row index r = false
  end.
Proof.
  revert low high. induction fuel as [|fuel IH]; intros low high Hlo Hhi Hf Hl Hh.
  { cbn [search_range]. intros i r. apply (search_empty low high); [lia|done..]. }
  cbn [search_range]. destruct (Z.ltb_spec high low) as [Hlt|Hge];
    [by apply (search_empty low high)|].
  set (middle := (low + high) / 2). assert (low <= middle <= high) as Hm
    by (unfold middle; split; [apply Z.div_le_lower_bound; lia|apply Z.div_le_upper_bound; lia]).
  destruct (lookup_lt_is_Some_2 ranges (Z.to_nat middle)) as [r Hr]; [lia|]. rewrite Hr.
  destruct Hord as [Hpos Hsep].
  destruct (Z.ltb_spec index (rowStart r)) as [Hb|Hb];
    [|destruct (Z.leb_spec (rowStart r + rowCount r) index) as [Ha|Ha]].
  - apply IH; try lia; [done|]. intros i r' Hi Him.
    destruct (decide (i = Z.to_nat middle)) as [->|Hne]; [by simplify_eq|].
    pose proof (Hsep (Z.to_nat middle) i r r' ltac:(lia) Hr Hi).
    pose proof (Hpos _ _ Hr). lia.
  - apply IH; try lia; [|done]. intros i r' Hi Him.
    destruct (decide (i = Z.to_nat middle)) as [->|Hne]; [by simplify_eq|].
    pose proof (Hsep i (Z.to_nat middle) r' r ltac:(lia) Hi Hr).
    pose proof (Hpos _ _ Hr). lia.
  - exists r. split; [done|]. apply andb_true_iff. split; [apply Z.leb_le|apply Z.ltb_lt]; lia.
Qed.

(** At most one range holds a row. *)
Lemma holds_unique i j r r' :
  ranges !! i = Some r -> ranges !! j = Some r' ->
  holds_row index r = true -> holds_row index r' = true -> i = j.
Proof.
  unfold holds_row. intros Hi Hj H1 H2. bools.
  repeat match goal with
  | H : (_ <=? _) = true |- _ => apply Z.leb_le in H
  | H : (_ <? _) = true |- _ => apply Z.ltb_lt in H end.
  destruct Hord as [_ Hsep]. destruct (decide (i < j)%nat) as [Hlt|Hge].
  - pose proof (Hsep i j r r' Hlt Hi Hj). lia.
  - destruct (decide (j < i)%nat) as [Hlt|]; [|lia]. pose proof (Hsep j i r' r Hlt Hj Hi). lia.
Qed.

End search.

Lemma page_search_spec source index :
  ordered_ranges (pageRanges source) ->
  match pageRangeIndexForRow source index with
  | Some i => exists r, pageRanges source !! i = Some r /\ holds_row index r = true
  | None => forall i r, pageRanges source !! i = Some r -> holds_row index r = false
  end.
Proof.
  intros Ho. unfold pageRangeIndexForRow. apply search_range_spec; try done; try lia.
  intros i r Hi. apply lookup_lt_Some in Hi. lia.
Qed.

(** the binary search ends and agrees with a linear scan: on the ordered ranges of a
    stored result it finds the range that holds the row, and reports none exactly when
    no range holds it. *)
Theorem page_search_is_scan source index :
  ordered_ranges (pageRanges source) ->
  pageRangeIndexForRow source index = findIndex (holds_row index) (pageRanges source).
Proof.
  intros Ho. pose proof (page_search_spec source index Ho) as H.
  destruct (findIndex (holds_row index) (pageRanges source)) as [j|] eqn:E.
  - apply findIndex_some in E as (r' & Hr' & Hh & _).
    destruct (pageRangeIndexForRow source index) as [i|].
    + destruct H as (r & Hr & Hi). f_equal. by eapply (holds_unique (pageRanges source)).
    + by rewrite (H _ _ Hr') in Hh.
  - unfold findIndex in E. rewrite findIndex_from_none in E.
    destruct (pageRangeIndexForRow source index) as [i|]; [|done].
    destruct H as (r & Hr & Hi). rewrite E in Hi; [done|]. by eapply list_elem_of_lookup_2.
Qed.

Definition three_ranges : list SqlStreamPageRange :=
  [mkRange 0 0 2; mkRange 1 2 3; mkRange 2 5 1].
Definition sample_source : SqlStreamRowSource :=
  mkSource (Some (js "op")) (Some (js "cap")) 256 three_ranges 6 true.

Lemma three_ranges_ordered : ordered_ranges three_ranges.
Proof.
  split.
  - intros [|[|[|i]]] r Hr; cbn in Hr; simplify_eq; cbn; lia.
  - intros [|[|[|i]]] [|[|[|j]]] r r' Hij Hr Hr'; cbn in Hr, Hr'; simplify_eq; cbn; lia.
Qed.

Lemma page_search_is_scan_witness :
  ordered_ranges (pageRanges sample_source)
  /\ pageRangeIndexForRow sample_source 4
     = findIndex (holds_row 4) (pageRanges sample_source).
Proof.
  split; [exact three_ranges_ordered|].
  exact (page_search_is_scan sample_source 4 three_ranges_ordered).
Defined.

(** ** Reading rows back *)

(** The ranges of a stored result cover rows [start] to [total], page after page. *)
Fixpoint contiguous (start : Z) (ranges : list SqlStreamPageRange) (total : Z) : Prop :=
  match ranges with
  | [] => start = total
  | r :: ranges => rowStart r = start /\ 0 < rowCount r
                   /\ contiguous (start + rowCount r) ranges total
  end.

Lemma contiguous_le start ranges total : contiguous start ranges total -> start <= total.
Proof.
  revert start. induction ranges as [|r l IH]; intros start; cbn; [lia|].
  intros (_ & Hr & H%IH). lia.
Qed.

Lemma contiguous_drop start ranges total i r :
  contiguous start ranges total -> ranges !! i = Some r ->
  start <= rowStart r /\ 0 < rowCount r
  /\ contiguous (rowStart r) (drop i ranges) total
  /\ contiguous (rowStart r + rowCount r) (drop (S i) ranges) total.
Proof.
  revert start i. induction ranges as [|r' l IH]; intros start [|i] H Hi; simplify_eq/=.
  - destruct H as (<- & ? & ?). rewrite drop_0. split; [lia|]. by split_and!.
  - destruct H as (<- & ? & H). destruct (IH _ _ H Hi) as (? & ? & ? & ?). split_and!; try done; lia.
Qed.

Lemma contiguous_ordered ranges total : contiguous 0 ranges total -> ordered_ranges ranges.
Proof.
  intros H. split.
  - intros i r Hr. destruct (contiguous_drop _ _ _ _ _ H Hr) as (_ & ? & _). lia.
  - intros i j r r' Hij Hr Hr'. destruct (contiguous_drop _ _ _ _ _ H Hr) as (_ & _ & _ & Hd).
    assert (drop (S i) ranges !! (j - S i)%nat = Some r') as Hj
      by (rewrite lookup_drop; by replace (S i + (j - S i))%nat with j by lia).
    by destruct (contiguous_drop _ _ _ _ _ Hd Hj) as (? & _).
Qed.

Lemma contiguous_holds start ranges total index :
  contiguous start ranges total -> start <= index < total ->
  exists i r, ranges !! i = Some r /\ holds_row index r = true.
Proof.
  revert start. induction ranges as [|r l IH]; intros start H Hi; cbn in H; [lia|].
  destruct H as (Hs & Hr & H). destruct (decide (index < start + rowCount r)) as [Hlt|Hge].
  - exists 0%nat, r. split; [done|]. apply andb_true_iff.
    split; [apply Z.leb_le|apply Z.ltb_lt]; lia.
  - destruct (IH _ H) as (i & r' & ? & ?); [lia|]. by exists (S i), r'.
Qed.

Lemma holds_bounds index r :
  holds_row index r = true <-> rowStart r <= index < rowStart r + rowCount r.
Proof. unfold holds_row. rewrite andb_true_iff, Z.leb_le, Z.ltb_lt. done. Qed.

(** The search on contiguous ranges, for a row of the result. *)
Lemma search_contiguous source index :
  contiguous 0 (pageRanges source) (src_rowCount source) -> 0 <= index < src_rowCount source ->
  exists i r, pageRangeIndexForRow source index = Some i /\ pageRanges source !! i = Some r
  /\ rowStart r <= index < rowStart r + rowCount r.
Proof.
  intros Hc Hi. pose proof (page_search_spec source index (contiguous_ordered _ _ Hc)) as Hs.
  destruct (contiguous_holds _ _ _ index Hc Hi) as (j & r' & Hj & Hh).
  destruct (pageRangeIndexForRow source index) as [i|].
  - destruct Hs as (r & Hr & Hh'). exists i, r. by rewrite <- holds_bounds.
  - by rewrite (Hs _ _ Hj) in Hh.
Qed.

Lemma cacheFor_hit source st key c :
  sourceKey source = Some key -> mget (caches st) key = Some c ->
  cacheFor source st = (with_caches (mtouch (caches st) key c) st, Some (key, c)).
Proof. unfold cacheFor. by intros -> ->. Qed.

(** What a row lookup answers, by the page of the range that holds the row. *)
Lemma row_lookup source st key c index i r :
  sourceKey source = Some key -> mget (caches st) key = Some c ->
  0 <= index < src_rowCount source ->
  pageRangeIndexForRow source index = Some i -> pageRanges source !! i = Some r ->
  snd (sqlResultRowAt source index st)
  = (p ← mget (pages c) (sequence r);
     if p_rowStart p =? rowStart r then p_rows p !! Z.to_nat (index - rowStart r) else None).
Proof.
  intros Hk Hc Hi Hs Hr. unfold sqlResultRowAt.
  rewrite (proj2 (Z.ltb_ge _ _)), (proj2 (Z.leb_gt _ _)) by lia. cbn [orb].
  rewrite (cacheFor_hit _ _ _ _ Hk Hc), Hs. cbn [mbind option_bind]. rewrite Hr.
  destruct (mget (pages c) (sequence r)) as [p|]; [|done]. cbn. by case_match.
Qed.

(** Pages have the number of rows that their range says. *)
Definition pages_fit c (ranges : list SqlStreamPageRange) : Prop :=
  forall r p, r ∈ ranges -> mget (pages c) (sequence r) = Some p -> p_rowStart p = rowStart r ->
  Z.of_nat (length (p_rows p)) = rowCount r.

Lemma row_available source st key c index i r :
  sourceKey source = Some key -> mget (caches st) key = Some c ->
  pages_fit c (pageRanges source) -> 0 <= index < src_rowCount source ->
  pageRangeIndexForRow source index = Some i -> pageRanges source !! i = Some r ->
  rowStart r <= index < rowStart r + rowCount r ->
  is_Some (snd (sqlResultRowAt source index st)) <-> is_Some (page_matches c r).
Proof.
  intros Hk Hc Hfit Hi Hs Hr Hin. rewrite (row_lookup _ _ _ _ _ _ _ Hk Hc Hi Hs Hr).
  unfold page_matches. destruct (mget (pages c) (sequence r)) as [p|] eqn:E; cbn; [|done].
  destruct (Z.eqb_spec (p_rowStart p) (rowStart r)) as [Hp|Hp]; cbn; [|done].
  pose proof (Hfit r p ltac:(by eapply list_elem_of_lookup_2) E Hp) as Hlen.
  rewrite Hlen, Z.eqb_refl. split; [by eexists|]. intros _. apply lookup_lt_is_Some_2. lia.
Qed.

Lemma cover_spec c l a cur e total :
  contiguous a l total -> e <= total ->
  cur = e /\ e <= a \/ a <= cur < e /\ (forall r, head l = Some r -> cur < a + rowCount r) ->
  (cover c l cur e = Some e
   /\ forall r, r ∈ l -> rowStart r < e -> cur < rowStart r + rowCount r -> is_Some (page_matches c r))
  \/ (cover c l cur e = None
   /\ exists r, r ∈ l /\ rowStart r < e /\ cur < rowStart r + rowCount r /\ page_matches c r = None).
Proof.
  revert a cur. induction l as [|r l IH]; intros a cur Hc He Hcur.
  { cbn in Hc. left. destruct Hcur as [[-> _]|[? _]]; [|lia].
    split; [done|]. by intros r ?%elem_of_nil. }
  destruct Hcur as [[-> Hle]|[Hcur Hhead]].
  { left. cbn [cover]. rewrite Z.ltb_irrefl. split; [done|]. intros r' Hr' Hlt.
    apply list_elem_of_lookup in Hr' as [i Hi].
    destruct (contiguous_drop _ _ _ _ _ Hc Hi) as (? & _). lia. }
  pose proof (Hhead r eq_refl) as Hr. cbn in Hc. destruct Hc as (Hs & Hpos & Hc).
  cbn [cover]. rewrite (proj2 (Z.ltb_lt _ _)), (proj2 (Z.ltb_ge _ _)) by lia. cbn [orb].
  destruct (page_matches c r) as [p|] eqn:Hp.
  2: { right. split; [done|]. exists r. split; [by left|]. split_and!; [lia..|done]. }
  rewrite bool_decide_false by done.
  destruct (IH (a + rowCount r) (Z.min e (rowStart r + rowCount r)) Hc He) as [[H1 H2]|[H1 H2]].
  - destruct (decide (e <= a + rowCount r)) as [Hle|Hgt]; [left; lia|right]. split; [lia|].
    intros r' Hr'. destruct l as [|x l]; [done|]. cbn in Hr', Hc. simplify_eq.
    destruct Hc as (? & ? & _). lia.
  - left. split; [done|]. intros r' [->|Hr']%elem_of_cons Hlt Hgt; [by rewrite Hp|].
    apply H2; [done..|]. apply list_elem_of_lookup in Hr' as [i Hi].
    destruct (contiguous_drop _ _ _ _ _ Hc Hi) as (? & ? & _). lia.
  - right. split; [done|]. destruct H2 as (r' & Hr' & Hlt & Hgt & Hn). exists r'.
    split; [by right|]. split_and!; [done| |done].
    apply list_elem_of_lookup in Hr' as [i Hi].
    destruct (contiguous_drop _ _ _ _ _ Hc Hi) as (? & ? & _). lia.
Qed.

(** C8: a range is reported as cached exactly when every one of its rows can be read.
    For a result whose pages are contiguous and a cache that holds pages of the right
    size, [sqlResultRangeIsCached] answers yes if and only if [sqlResultRowAt] finds a
    row for every index of the requested range that exists in the result. *)
Theorem cached_range_is_readable source start end_ st key c :
  sourceKey source = Some key -> mget (caches st) key = Some c ->
  contiguous 0 (pageRanges source) (src_rowCount source) -> pages_fit c (pageRanges source) ->
  snd (sqlResultRangeIsCached source start end_ st) = true
  <-> forall index, Z.max 0 start <= index < Z.min (src_rowCount source) end_ ->
      is_Some (snd (sqlResultRowAt source index st)).
Proof.
  intros Hk Hc Hcont Hfit. unfold sqlResultRangeIsCached.
  set (s := Z.max 0 start). set (e := Z.min (src_rowCount source) end_).
  destruct (Z.leb_spec e s) as [Hle|Hlt]; cbn [snd]; [split; [intros; lia|done]|].
  rewrite (cacheFor_hit _ _ _ _ Hk Hc).
  destruct (search_contiguous source s Hcont) as (i & r & Hi & Hr & Hin); [lia|].
  rewrite Hi. cbn [snd].
  destruct (contiguous_drop _ _ _ _ _ Hcont Hr) as (_ & Hpos & Hd & _).
  destruct (cover_spec c (drop i (pageRanges source)) (rowStart r) s e (src_rowCount source))
    as [[Hcov Hall]|[Hcov (r' & Hr' & Hlt' & Hgt' & Hn)]]; [done|lia| | |].
  { right. split; [lia|]. intros r' Hr'. rewrite head_lookup, lookup_drop, Nat.add_0_r in Hr'.
    simplify_eq. lia. }
  - rewrite Hcov, Z.eqb_refl. split; [|done]. intros _ index Hindex.
    destruct (search_contiguous source index Hcont) as (j & r' & Hj & Hr' & Hin'); [lia|].
    apply (row_available _ _ _ _ index j r' Hk Hc Hfit); [lia|done..|].
    apply Hall; [|lia..]. destruct (contiguous_ordered _ _ Hcont) as [_ Hsep].
    destruct (decide (j < i)%nat) as [Hji|Hji]; [pose proof (Hsep j i r' r Hji Hr' Hr); lia|].
    apply (list_elem_of_lookup_2 _ (j - i)%nat). rewrite lookup_drop.
    by replace (i + (j - i))%nat with j by lia.
  - rewrite Hcov. split; [done|]. intros Hrows. exfalso.
    apply list_elem_of_lookup in Hr' as [j Hj]. rewrite lookup_drop in Hj.
    destruct (contiguous_drop _ _ _ _ _ Hcont Hj) as (_ & Hpos' & _).
    set (index := Z.max s (rowStart r')). assert (s <= index < e) as Hindex by lia.
    specialize (Hrows index Hindex).
    destruct (search_contiguous source index Hcont) as (k & r'' & Hk' & Hr'' & Hin''); [lia|].
    assert (k = i + j)%nat as ->.
    { apply (holds_unique (pageRanges source) (contiguous_ordered _ _ Hcont) index k (i + j) r'' r');
        rewrite ?holds_bounds; [done..|lia|lia]. }
    assert (r'' = r') as -> by congruence.
    apply (row_available _ _ _ _ index (i + j)%nat r' Hk Hc Hfit) in Hrows;
      [|lia|done..]. rewrite Hn in Hrows. by destruct Hrows.
Qed.

Definition text_row (s : jsstr) : row := [VStr s].
Definition sample_batch : SqlStreamBatchWire :=
  mkBatch (js "op") 1 None [js "c"] [text_row (js "c"); text_row (js "d"); text_row (js "e")] [].
Definition no_number : jsstr -> option N := fun _ => None.
Definition sample_ops : list op := [Push sample_source sample_batch].

Lemma cached_range_is_readable_witness :
  exists c, mget (caches (run_ops no_number sample_ops)) (js "op:cap") = Some c
  /\ (snd (sqlResultRangeIsCached sample_source 2 5 (run_ops no_number sample_ops)) = true
      <-> forall index, Z.max 0 2 <= index < Z.min (src_rowCount sample_source) 5 ->
          is_Some (snd (sqlResultRowAt sample_source index (run_ops no_number sample_ops)))).
Proof.
  eexists. split; [vm_compute; reflexivity|].
  eapply (cached_range_is_readable sample_source 2 5 _ (js "op:cap")).
  - reflexivity.
  - vm_compute. reflexivity.
  - cbn. lia.
  - intros r p Hr. cbn in Hr.
    repeat (apply elem_of_cons in Hr as [->|Hr];
      [intros Hp _; vm_compute in Hp; try discriminate Hp; injection Hp as <-; reflexivity|]).
    by apply elem_of_nil in Hr.
Defined.

(** a retained page reads back exactly. Whatever the cache held, once a page of the
    announced size has been retained for its range, every row index of the range reads
    the row of the page at that position, and no eviction that the call made itself can
    have dropped it. *)
Theorem retained_page_reads_back source key seq range rows fails st index :
  state_inv st -> sourceKey source = Some key ->
  contiguous 0 (pageRanges source) (src_rowCount source) ->
  pageRanges source !! seq = Some range -> sequence range = seq ->
  rowCount range = Z.of_nat (length rows) ->
  rowStart range <= index < rowStart range + rowCount range ->
  snd (sqlResultRowAt source index (retain source seq (rowStart range) rows fails st))
  = rows !! Z.to_nat (index - rowStart range).
Proof.
  intros Hst Hk Hcont Hr Hseq Hlen Hin.
  destruct (retain_spec source seq (rowStart range) rows fails st Hst) as [_ Hret].
  destruct (Hret key range Hk Hr Hseq eq_refl Hlen) as (c & Hc & Hp).
  destruct (contiguous_drop _ _ _ _ _ Hcont Hr) as (? & _ & _ & Hd).
  apply contiguous_le in Hd.
  assert (0 <= index < src_rowCount source) as Hidx by lia.
  destruct (search_contiguous source index Hcont Hidx) as (j & r' & Hj & Hr' & Hin').
  assert (j = seq) as ->.
  { by apply (holds_unique _ (contiguous_ordered _ _ Hcont) index j seq r' range);
      rewrite ?holds_bounds. }
  assert (r' = range) as -> by congruence.
  rewrite (row_lookup _ _ _ _ _ _ _ Hk Hc Hidx Hj Hr), Hseq, Hp. cbn.
  by rewrite Z.eqb_refl.
Qed.

Lemma retained_page_reads_back_witness :
  snd (sqlResultRowAt sample_source 3
         (retain sample_source 1 2 (b_rows sample_batch) [] (run_ops no_number sample_ops)))
  = Some (text_row (js "d")).
Proof.
  apply (retained_page_reads_back sample_source (js "op:cap") 1 (mkRange 1 2 3)
    (b_rows sample_batch) [] (run_ops no_number sample_ops) 3).
  - apply run_ops_inv.
  - reflexivity.
  - cbn. lia.
  - reflexivity.
  - reflexivity.
  - reflexivity.
  - cbn. lia.
Defined.

(** ** Automatic retries *)

(** The calls of a stretch of failures: every page read that ends, fails, and nobody
    asks for a retry or drops the result. *)
Definition failing (sn : jsstr -> option N) (o : op) : bool :=
  match o with
  | Push _ _ | Retry _ | Clear _ => false
  | Settle rq (Ok batch) _ => negb (batch_matches sn rq batch)
  | _ => true
  end.

(** The requests that a call starts for page [seq] of the result [key]. *)
Definition requests_of (st : state) (o : op) (key : jsstr) (seq : nat) : nat :=
  match o with
  | Ensure source s e columns now =>
    length (filterb (fun rq => bool_decide (sourceKey (rq_source rq) = Some key)
                               && (sequence (rq_range rq) =? seq)%nat)
              (snd (ensureSqlResultRange source s e columns now st)))
  | _ => 0
  end.
Fixpoint count_requests (sn : jsstr -> option N) (st : state) (ops : list op) (key : jsstr) (seq : nat) : nat :=
  match ops with
  | [] => 0
  | o :: ops => requests_of st o key seq + count_requests sn (apply_op sn st o) ops key seq
  end.

Definition fail_count (st : state) (key : jsstr) (seq : nat) : nat :=
  match mget (caches st) key ≫= fun c => mget (pageFailures c) seq with
  | Some f => attempts f | None => 0 end.
Definition is_loading (st : state) (key : jsstr) (seq : nat) : bool :=
  match mget (caches st) key with
  | Some c => bool_decide (seq ∈ loading c) | None => false end.

(** What a stretch of [n] requests leaves room for. *)
Definition budget (st : state) (key : jsstr) (seq : nat) (n : nat) : Prop :=
  (n <= SQL_RESULT_PAGE_MAX_ATTEMPTS)%nat
  /\ (n <= fail_count st key seq + if is_loading st key seq then 1 else 0)%nat.

Lemma budget_ext st st' key seq n :
  fail_count st key seq = fail_count st' key seq -> is_loading st key seq = is_loading st' key seq ->
  budget st key seq n -> budget st' key seq n.
Proof. unfold budget. by intros -> ->. Qed.

Lemma same_lookup_budget st st' key seq n :
  (forall c, mget (caches st) key = Some c -> exists c', mget (caches st') key = Some c'
     /\ pageFailures c' = pageFailures c /\ loading c' = loading c) ->
  budget st key seq n -> budget st' key seq n.
Proof.
  intros H. unfold budget, fail_count, is_loading.
  destruct (mget (caches st) key) as [c|] eqn:E.
  - destruct (H c eq_refl) as (c' & -> & Hf & Hl). cbn. by rewrite Hf, Hl.
  - cbn. intros [H1 H2]. split; [done|]. assert (n = 0%nat) as -> by lia. lia.
Qed.

Lemma cacheFor_budget source st key seq n :
  budget st key seq n -> budget (fst (cacheFor source st)) key seq n.
Proof.
  apply same_lookup_budget. intros c Hc. exists c. split; [|done].
  unfold cacheFor. destruct (sourceKey source) as [k|]; [|done].
  destruct (decide (key = k)) as [->|Hne].
  - rewrite Hc. cbn. rewrite mget_touch. by rewrite decide_True.
  - destruct (mget (caches st) k); cbn; rewrite mget_touch; by rewrite decide_False.
Qed.

Lemma put_budget k c c0 st key seq n :
  mget (caches st) k = Some c0 -> pageFailures c = pageFailures c0 -> loading c = loading c0 ->
  budget st key seq n -> budget (put_cache k c st) key seq n.
Proof.
  intros Hk Hf Hl. apply same_lookup_budget. intros x Hx. cbn. rewrite mget_set.
  case_decide; subst; [|by exists x]. exists c. simplify_eq. done.
Qed.

(** Recording a failure of page [s] of [k] and ending its read. *)
Lemma record_budget k c s e now key seq n rqid st :
  state_inv st -> mget (caches st) k = Some c -> budget st key seq n ->
  budget (stop_loading k rqid s (recordPageFailure k c s e now st)) key seq n.
Proof.
  intros Hst Hc Hb.
  set (again := bool_decide (classifySqlResultPageError e = unavailable)
    && (S (match mget (pageFailures c) s with Some f => attempts f | None => 0 end)
        <? SQL_RESULT_PAGE_MAX_ATTEMPTS)%nat).
  assert (forall st', (forall x, mget (caches st) x = mget (caches st') x \/ x = k) ->
    (exists c', mget (caches st') k = Some c'
      /\ (forall q, q <> s -> mget (pageFailures c') q = mget (pageFailures c) q
                    /\ (q ∈ loading c' <-> q ∈ loading c))
      /\ exists f, mget (pageFailures c') s = Some f
         /\ (Nat.min SQL_RESULT_PAGE_MAX_ATTEMPTS
              (S (match mget (pageFailures c) s with Some f => attempts f | None => 0 end))
             <= attempts f)%nat) ->
    budget st' key seq n) as Hgen.
  { intros st' Hother (c' & Hc' & Hsame & f & Hf & Hatt). unfold budget, fail_count, is_loading in *.
    destruct (decide (key = k)) as [->|Hne].
    - rewrite Hc in Hb. rewrite Hc'. cbn [mbind option_bind] in *.
      destruct (decide (seq = s)) as [->|Hs].
      + rewrite Hf. split; [apply Hb|]. destruct (mget (pageFailures c) s), (bool_decide _);
          unfold SQL_RESULT_PAGE_MAX_ATTEMPTS in *; lia.
      + destruct (Hsame seq Hs) as [-> Hl]. by rewrite (bool_decide_ext _ _ Hl).
    - destruct (Hother key) as [<-|]; done. }
  unfold recordPageFailure. fold again. set (c1 := mkCache _ _ _ _ _ _ _).
  assert (exists f, mget (pageFailures c1) s = Some f
    /\ (Nat.min SQL_RESULT_PAGE_MAX_ATTEMPTS
         (S (match mget (pageFailures c) s with Some f => attempts f | None => 0 end))
        <= attempts f)%nat) as Hf.
  { cbn [c1 pageFailures]. rewrite mget_set_eq. eexists. split; [done|]. cbn [attempts].
    destruct again; lia. }
  apply Hgen.
  - intros x. destruct (decide (x = k)) as [->|Hx]; [by right|left].
    unfold stop_loading. cbn [notify put_cache with_caches caches]. rewrite mget_set_eq.
    destruct (cid c1 =? rqid)%nat; cbn [notify put_cache with_caches caches];
      by rewrite ?mget_set_ne.
  - unfold stop_loading. cbn [notify put_cache with_caches caches]. rewrite mget_set_eq.
    destruct (cid c1 =? rqid)%nat; cbn [notify put_cache with_caches caches]; rewrite !mget_set_eq;
      (eexists; split; [reflexivity|]); (split; [|exact Hf]); cbn [c1 pageFailures loading];
      intros q Hq; (split; [by rewrite mget_set_ne|]); [|done].
    rewrite filterb_elem, negb_true_iff, Nat.eqb_neq. tauto.
Qed.

Lemma fail_budget sn rq outcome now key seq n st :
  failing sn (Settle rq outcome now) = true -> state_inv st -> budget st key seq n ->
  budget (settle sn rq outcome now st) key seq n.
Proof.
  intros Hf Hst Hb. unfold settle.
  assert (forall e, budget
    match sourceKey (rq_source rq) with
    | Some k => stop_loading k (rq_cid rq) (sequence (rq_range rq))
        (let '(st, found) := cacheFor (rq_source rq) st in
         match found with
         | Some (k, current) => recordPageFailure k current (sequence (rq_range rq)) e now st
         | None => st end)
    | None => (let '(st, found) := cacheFor (rq_source rq) st in
         match found with
         | Some (k, current) => recordPageFailure k current (sequence (rq_range rq)) e now st
         | None => st end) end key seq n) as Hfail.
  { intros e. pose proof (cacheFor_caches_ok (rq_source rq) st) as Hcf.
    pose proof (cacheFor_budget (rq_source rq) st key seq n Hb) as Hb1.
    destruct (cacheFor (rq_source rq) st) as [st1 [[k c]|]] eqn:E.
    - destruct (Hcf k c Hst eq_refl) as (H1 & _ & H3 & ->). by apply record_budget.
    - destruct (sourceKey (rq_source rq)) as [k|] eqn:Hk; [|done].
      unfold cacheFor in E. rewrite Hk in E. by destruct (mget (caches st) k). }
  destruct outcome as [batch|e]; [|apply Hfail].
  cbn in Hf. apply negb_true_iff in Hf. rewrite Hf. apply Hfail.
Qed.

Lemma request_fold_budget source columns now ranges key seq c started n :
  sourceKey source = Some key ->
  let mine l := length (filterb (fun rq => bool_decide (sourceKey (rq_source rq) = Some key)
                               && (sequence (rq_range rq) =? seq)%nat) l) in
  let fc c := match mget (pageFailures c) seq with Some f => attempts f | None => 0%nat end in
  let ok c (k : nat) := (n + k <= SQL_RESULT_PAGE_MAX_ATTEMPTS
                 /\ n + k <= fc c + if bool_decide (seq ∈ loading c) then 1 else 0)%nat in
  ok c (mine started) ->
  let '(c', started') := foldl (request_page source columns now) (c, started) ranges in
  ok c' (mine started').
Proof.
  intros Hk mine fc ok. revert c started. induction ranges as [|r l IH]; intros c started Hok; [done|].
  cbn [foldl request_page].
  destruct (may_request c (sequence r) now && negb (bool_decide (sequence r ∈ loading c))) eqn:E;
    [|by apply IH].
  apply IH. apply andb_true_iff in E as [Hmay Hload]. apply negb_true_iff, bool_decide_eq_false in Hload.
  unfold ok, mine, fc in *. rewrite filterb_app, length_app. cbn [filterb List.filter rq_source rq_range].
  rewrite (bool_decide_true (sourceKey source = Some key)) by done. cbn [andb].
  cbn [start_loading pageFailures loading].
  destruct (Nat.eqb_spec (sequence r) seq) as [Heq|Hne]; cbn [length].
  - rewrite Heq in *. rewrite (bool_decide_false (seq ∈ loading c)) in Hok by done.
    rewrite (bool_decide_true (seq ∈ loading c ++ [seq])) by (apply elem_of_app; right; by left).
    unfold may_request in Hmay. apply andb_true_iff in Hmay as [_ Hmay].
    destruct (mget (pageFailures c) seq) as [f|].
    + apply negb_true_iff, orb_false_iff in Hmay as [Hmay _]. apply Nat.leb_gt in Hmay. lia.
    + unfold SQL_RESULT_PAGE_MAX_ATTEMPTS in *. lia.
  - rewrite (bool_decide_ext (seq ∈ loading c ++ [sequence r]) (seq ∈ loading c)).
    { rewrite !Nat.add_0_r. done. }
    rewrite elem_of_app, list_elem_of_singleton. naive_solver.
Qed.

Lemma ensure_budget sn source s e columns now key seq n st :
  state_inv st -> budget st key seq n ->
  budget (apply_op sn st (Ensure source s e columns now)) key seq
    (n + requests_of st (Ensure source s e columns now) key seq).
Proof.
  intros Hst Hb. cbn [apply_op requests_of]. unfold ensureSqlResultRange.
  assert (forall st, budget st key seq n -> budget st key seq
    (n + length (filterb (fun rq => bool_decide (sourceKey (rq_source rq) = Some key)
                               && (sequence (rq_range rq) =? seq)%nat) ([] : list request))))
    as Hnil by (intros st0; cbn; by rewrite Nat.add_0_r).
  case_match; [by apply Hnil|].
  pose proof (cacheFor_caches_ok source st) as Hcf.
  pose proof (cacheFor_budget source st key seq n Hb) as Hb1.
  destruct (cacheFor source st) as [st1 [[k c]|]]; [|by apply Hnil].
  destruct (Hcf k c Hst eq_refl) as (H1 & H2 & H3 & Hk). cbn [fst] in H3, Hb1.
  destruct (pageRangeIndexForRow source _) as [first|]; [|by apply Hnil].
  case_match; [by apply Hnil|]. set (ranges := wanted _ _ _).
  destruct (decide (key = k)) as [->|Hne].
  - pose proof (request_fold_budget source columns now ranges k seq c [] n Hk) as Hf.
    destruct (foldl _ (c, []) ranges) as [c' started]. cbn [fst snd].
    unfold budget, fail_count, is_loading in *. rewrite H3 in Hb1. cbn [mbind option_bind] in Hb1.
    cbn [put_cache with_caches caches]. rewrite mget_set_eq. cbn [mbind option_bind].
    apply Hf. cbn. by rewrite Nat.add_0_r.
  - assert (forall l acc, (forall rq, rq ∈ acc.2 -> sourceKey (rq_source rq) = Some k) ->
      forall rq, rq ∈ (foldl (request_page source columns now) acc l).2 ->
      sourceKey (rq_source rq) = Some k) as Hall.
    { induction l as [|r l IH]; intros acc Hacc; [done|]. cbn [foldl]. apply IH.
      destruct acc as [c' started]. cbn. case_match; [|done].
      intros rq [?| ->%list_elem_of_singleton]%elem_of_app; [by apply Hacc|done]. }
    specialize (Hall ranges (c, []) ltac:(by intros ? ?%elem_of_nil)).
    destruct (foldl _ (c, []) ranges) as [c' started]. cbn [fst snd] in *.
    rewrite filterb_none.
    2: { intros rq Hrq. rewrite (Hall _ Hrq), bool_decide_false by congruence. done. }
    cbn. rewrite Nat.add_0_r. revert Hb1. unfold budget, fail_count, is_loading.
    cbn [put_cache with_caches caches]. by rewrite mget_set_ne.
Qed.

Lemma failing_budget sn o key seq n st :
  failing sn o = true -> state_inv st -> budget st key seq n ->
  budget (apply_op sn st o) key seq (n + requests_of st o key seq).
Proof.
  intros Hf Hst Hb.
  destruct o; try done; try (by apply ensure_budget);
    cbn [apply_op requests_of]; rewrite Nat.add_0_r.
  - unfold sqlResultRangeIsCached. case_match; [done|].
    pose proof (cacheFor_budget source st key seq n Hb) as Hb1.
    destruct (cacheFor source st) as [st1 [[k c]|]]; [|done]. by case_match.
  - unfold sqlResultRowAt. case_match; [done|].
    pose proof (cacheFor_budget source st key seq n Hb) as Hb1.
    pose proof (cacheFor_caches_ok source st) as Hcf.
    destruct (cacheFor source st) as [st1 [[k c]|]]; [|done].
    destruct (Hcf k c Hst eq_refl) as (H1 & H2 & H3 & Hk).
    destruct (_ ≫= _) as [range|]; [|done].
    destruct (mget (pages c) (sequence range)) as [p|]; [|done].
    case_match; [|done]. by eapply put_budget.
  - unfold collectCachedSqlResultRows. case_match; [done|].
    pose proof (cacheFor_budget source st key seq n Hb) as Hb1.
    pose proof (cacheFor_caches_ok source st) as Hcf.
    destruct (cacheFor source st) as [st1 [[k c]|]]; [|done].
    destruct (Hcf k c Hst eq_refl) as (H1 & H2 & H3 & Hk).
    assert (forall l c, pageFailures (fst (collect c l)) = pageFailures c
      /\ loading (fst (collect c l)) = loading c) as Hc.
    { induction l as [|r l IH]; intros c0; cbn; [done|].
      destruct (page_matches c0 r) as [p|]; [|done].
      destruct (IH (touch_page c0 (sequence r) p)) as [IH1 IH2].
      by destruct (collect (touch_page c0 (sequence r) p) l). }
    destruct (Hc (pageRanges source) c) as [Hc1 Hc2].
    destruct (collect c (pageRanges source)) as [c' rows]. by eapply put_budget.
  - by apply cacheFor_budget.
  - by apply fail_budget.
  - unfold retry_timer_fires. destruct (mget (caches st) key0) as [c|] eqn:E; [|done].
    case_match; [|done]. revert Hb. by eapply put_budget.
  - unfold subscribeSqlResultPages. destruct (sourceKey source) as [k|]; [|done].
    pose proof (cacheFor_budget source st key seq n Hb) as Hb1.
    by destruct (default _ _).
  - unfold unsubscribe. by repeat case_match.
Qed.

(** automatic retries are bounded. From any state the module can be in, however long
    a stretch of failing page reads lasts and however often the surface re-renders and
    asks for the range, one page is requested at most three times until a read succeeds,
    the user retries or the result is dropped. *)
Theorem retries_bounded sn before ops key seq :
  forallb (failing sn) ops = true ->
  (count_requests sn (run_ops sn before) ops key seq <= SQL_RESULT_PAGE_MAX_ATTEMPTS)%nat.
Proof.
  intros Hops. enough (forall n st, state_inv st -> budget st key seq n ->
    (n + count_requests sn st ops key seq <= SQL_RESULT_PAGE_MAX_ATTEMPTS)%nat) as H.
  { apply (H 0%nat); [apply run_ops_inv|]. split; lia. }
  induction ops as [|o ops IH]; intros n st Hst Hb; cbn [count_requests].
  - rewrite Nat.add_0_r. apply Hb.
  - cbn in Hops. apply andb_true_iff in Hops as [Ho Hops]. rewrite Nat.add_assoc.
    apply IH; [done|by apply apply_op_inv|by apply failing_budget].
Qed.

Definition broken : thrown := mkThrown (Some (js "io")) (Some (js "checksum")).
Definition first_request : request := mkRequest sample_source 0 (mkRange 0 0 2) [js "c"].
Definition retry_ops : list op :=
  [Ensure sample_source 0 2 [js "c"] 0; Settle first_request (Throw broken) 5;
   Ensure sample_source 0 2 [js "c"] 6; TimerFires (js "op:cap") 0;
   Ensure sample_source 0 2 [js "c"] 1005; Settle first_request (Throw broken) 1010;
   Ensure sample_source 0 2 [js "c"] 5010; Settle first_request (Throw broken) 5015;
   Ensure sample_source 0 2 [js "c"] 99999].

Lemma retries_bounded_witness :
  forallb (failing no_number) retry_ops = true
  /\ (count_requests no_number (run_ops no_number []) retry_ops (js "op:cap") 0
      <= SQL_RESULT_PAGE_MAX_ATTEMPTS)%nat.
Proof.
  split; [vm_compute; reflexivity|].
  apply (retries_bounded no_number [] retry_ops (js "op:cap") 0). vm_compute. reflexivity.
Defined.

Example retry_ops_reach_the_bound :
  count_requests no_number (run_ops no_number []) retry_ops (js "op:cap") 0 = 3%nat.
Proof. vm_compute. reflexivity. Qed.

(** ** A retry that is announced and never scheduled *)

Definition second_request : request := mkRequest sample_source 0 (mkRange 1 2 3) [js "c"].
(** Two pages fail half a second apart; the one timer serves the first of them. *)
Definition stranded_ops : list op :=
  [Ensure sample_source 0 5 [js "c"] 0;
   Settle first_request (Throw broken) 0; Settle second_request (Throw broken) 500;
   TimerFires (js "op:cap") 0;
   Ensure sample_source 0 5 [js "c"] 1000;
   Settle first_request
     (Ok (mkBatch (js "op") 0 None [js "c"] [text_row (js "a"); text_row (js "b")] [])) 1010;
   Ensure sample_source 0 5 [js "c"] 1010].

(** the error state can announce an automatic retry that nothing will start. Only one
    timer runs per result and it is armed for the first failure; a page that fails later
    is not due yet when it fires, and no timer is armed for it again. After the trace the
    second page is missing and not being read, its retry is due at 1500, the result
    reports [retrying], and no timer is pending. *)
Theorem retry_can_be_stranded sn :
  exists c, mget (caches (run_ops sn stranded_ops)) (js "op:cap") = Some c
  /\ mget (pages c) 1%nat = None /\ loading c = []
  /\ mget (pageFailures c) 1%nat = Some (mkPageFailure 1 1500 unavailable)
  /\ error c = Some (mkPageError unavailable true) /\ retryTimer c = false.
Proof. eexists. split; [vm_compute; reflexivity|]. vm_compute. repeat split. Qed.
