(* ===== verification/JsSort.v ===== *)
(** * Array.prototype.sort

    JavaScript's sort is stable. For a comparator that is a consistent total preorder
    its result is therefore determined, and stable insertion sort computes it. The
    comparator returns an integer; [SortOrder] states that it is such a preorder. *)

From S2P Require Import Prelude.
Local Open Scope Z_scope.

Section sort.
Context {A : Type} (cmp : A -> A -> Z).

(** Inserts [x] after every element that is not greater. *)
Fixpoint insert_by (x : A) (l : list A) : list A :=
  match l with
  | [] => [x]
  | y :: l' => if cmp x y <? 0 then x :: l else y :: insert_by x l'
  end.

(** [\[...l\].sort(cmp)] *)
Definition sort_by (l : list A) : list A := foldl (fun acc x => insert_by x acc) [] l.

(** [x] may stand before [y]. *)
Definition not_after (x y : A) : Prop := cmp x y <= 0.

Class SortOrder : Prop := {
  cmp_flip x y : cmp x y < 0 <-> 0 < cmp y x;
  cmp_trans x y z : cmp x y <= 0 -> cmp y z <= 0 -> cmp x z <= 0 }.

Lemma insert_by_perm x l : insert_by x l ≡ₚ x :: l.
Proof.
  induction l as [|y l IH]; cbn; [done|]. case_match; [done|]. rewrite IH. by constructor.
Qed.

Lemma sort_fold_perm l acc : foldl (fun acc x => insert_by x acc) acc l ≡ₚ acc ++ l.
Proof.
  revert acc. induction l as [|x l IH]; intros acc; cbn; [by rewrite app_nil_r|].
  rewrite IH, insert_by_perm. by rewrite <- Permutation_middle.
Qed.

Lemma sort_by_perm l : sort_by l ≡ₚ l.
Proof. unfold sort_by. by rewrite sort_fold_perm. Qed.

Lemma sort_by_elem l x : x ∈ sort_by l <-> x ∈ l.
Proof. by rewrite sort_by_perm. Qed.

Context `{!SortOrder}.

Lemma cmp_refl_eq x : cmp x x = 0.
Proof. pose proof (cmp_flip x x). lia. Qed.

Lemma insert_by_sorted x l :
  StronglySorted not_after l -> StronglySorted not_after (insert_by x l).
Proof.
  induction 1 as [|y l Hl IH Hy]; cbn; [repeat constructor|].
  destruct (Z.ltb_spec (cmp x y) 0) as [Hlt|Hge].
  - constructor; [by constructor|]. constructor; [unfold not_after; lia|].
    eapply Forall_impl; [exact Hy|]. intros z Hz. eapply cmp_trans; [|exact Hz]. lia.
  - constructor; [done|]. apply Forall_forall. intros z Hz.
    rewrite insert_by_perm in Hz. apply elem_of_cons in Hz as [->|Hz].
    + unfold not_after. pose proof (cmp_flip y x). pose proof (cmp_flip x y). lia.
    + by eapply (proj1 (Forall_forall _ _)).
Qed.

Lemma sort_by_sorted l : StronglySorted not_after (sort_by l).
Proof.
  unfold sort_by. assert (StronglySorted not_after []) as Hnil by constructor. revert Hnil.
  generalize (@nil A). induction l as [|x l IH]; intros acc Hacc; cbn; [done|].
  by apply IH, insert_by_sorted.
Qed.

(** Equal elements keep their order. *)
Lemma insert_by_filter (p : A -> bool) x l :
  (forall y z, p y = true -> p z = true -> cmp y z = 0) ->
  StronglySorted not_after l ->
  filterb p (insert_by x l) = filterb p l ++ filterb p [x].
Proof.
  intros Hp. induction 1 as [|y l Hl IH Hy]; cbn [insert_by]; [done|].
  destruct (Z.ltb_spec (cmp x y) 0) as [Hlt|Hge].
  - unfold filterb in *. cbn. destruct (p x) eqn:Hx; [|by rewrite app_nil_r].
    assert (p y = false) as ->.
    { destruct (p y) eqn:Hpy; [|done]. rewrite (Hp x y) in Hlt by done. lia. }
    assert (List.filter p l = []) as ->; [|done].
    apply (filterb_none p). intros z Hz. destruct (p z) eqn:Hpz; [|done].
    rewrite Forall_forall in Hy. specialize (Hy z Hz). unfold not_after in Hy.
    pose proof (Hp x z Hx Hpz). pose proof (proj1 (cmp_flip x y) Hlt).
    pose proof (cmp_flip z x). pose proof (Hp z x Hpz Hx).
    pose proof (cmp_trans y z x Hy ltac:(lia)). lia.
  - unfold filterb in *. cbn [List.filter]. rewrite IH. by destruct (p y).
Qed.

(** The sort is stable: the elements of one class of equals keep their order. *)
Lemma sort_by_stable (p : A -> bool) l :
  (forall y z, p y = true -> p z = true -> cmp y z = 0) ->
  filterb p (sort_by l) = filterb p l.
Proof.
  intros Hp. unfold sort_by.
  enough (forall acc, StronglySorted not_after acc ->
    filterb p (foldl (fun acc x => insert_by x acc) acc l) = filterb p acc ++ filterb p l) as Hfold.
  { apply (Hfold []). constructor. }
  induction l as [|x l IH]; intros acc Hacc; cbn; [by rewrite app_nil_r|].
  rewrite IH by by apply insert_by_sorted. rewrite insert_by_filter by done.
  rewrite <- app_assoc. f_equal. unfold filterb. cbn. by destruct (p x).
Qed.

(** A sorted arrangement of elements without ties is unique. *)
Lemma sorted_unique l k :
  l ≡ₚ k -> StronglySorted not_after l -> StronglySorted not_after k ->
  (forall x y, x ∈ l -> y ∈ l -> cmp x y = 0 -> x = y) -> l = k.
Proof.
  revert k. induction l as [|x l IH]; intros k Hp Hl Hk Hz.
  { symmetry. by apply Permutation_nil. }
  destruct k as [|y k]; [symmetry in Hp; by apply Permutation_nil in Hp|].
  inversion_clear Hl as [|? ? Hl' Hx]. inversion_clear Hk as [|? ? Hk' Hy].
  assert (x = y) as ->.
  { assert (x ∈ y :: k) as Hin by (rewrite <- Hp; by left).
    assert (y ∈ x :: l) as Hin' by (rewrite Hp; by left).
    apply elem_of_cons in Hin as [|Hin]; [done|]. pose proof Hin' as Hin2.
    apply elem_of_cons in Hin' as [|Hin']; [done|].
    rewrite Forall_forall in Hx, Hy. specialize (Hx y Hin'). specialize (Hy x Hin).
    unfold not_after in *. apply Hz; [by left|done|].
    pose proof (cmp_flip x y). pose proof (cmp_flip y x). lia. }
  f_equal. apply IH; [by eapply Permutation_cons_inv|done|done|].
  intros a b Ha Hb. apply Hz; by right.
Qed.

Lemma sort_by_unique l k :
  l ≡ₚ k -> StronglySorted not_after k ->
  (forall x y, x ∈ l -> y ∈ l -> cmp x y = 0 -> x = y) -> sort_by l = k.
Proof.
  intros Hp Hk Hz. apply sorted_unique; [by rewrite sort_by_perm|apply sort_by_sorted|done|].
  intros x y Hx Hy. apply Hz; by rewrite <- sort_by_elem.
Qed.

End sort.

(** Comparing first by [c1], then by [c2]: [c1 || c2]. *)
Definition then_by {A} (c1 c2 : A -> A -> Z) (x y : A) : Z :=
  if c1 x y =? 0 then c2 x y else c1 x y.

Lemma cmp_le_cases {A} (cmp : A -> A -> Z) `{!SortOrder cmp} x y :
  cmp x y < 0 /\ 0 < cmp y x \/ cmp x y = 0 /\ cmp y x = 0 \/ 0 < cmp x y /\ cmp y x < 0.
Proof. pose proof (cmp_flip cmp x y). pose proof (cmp_flip cmp y x). lia. Qed.

#[export] Instance then_by_order {A} (c1 c2 : A -> A -> Z) :
  SortOrder c1 -> SortOrder c2 -> SortOrder (then_by c1 c2).
Proof.
  intros H1 H2. split; unfold then_by.
  - intros x y. destruct (cmp_le_cases c1 x y) as [[? ?]|[[E1 E2]|[? ?]]].
    + rewrite !(proj2 (Z.eqb_neq _ _)) by lia. lia.
    + rewrite E1, E2. apply cmp_flip. done.
    + rewrite !(proj2 (Z.eqb_neq _ _)) by lia. lia.
  - intros x y z Hxy Hyz.
    destruct (Z.eqb_spec (c1 x y) 0) as [E1|E1], (Z.eqb_spec (c1 y z) 0) as [E2|E2],
      (Z.eqb_spec (c1 x z) 0) as [E3|E3]; try (apply (cmp_trans c1 x y z); lia).
    + by eapply cmp_trans.
    + exfalso. destruct (cmp_le_cases c1 x y) as [?|[?|?]]; [lia| |lia].
      pose proof (cmp_trans c1 y x z). destruct (cmp_le_cases c1 y z) as [?|[?|?]]; [|lia|lia].
      pose proof (cmp_trans c1 z x y ). destruct (cmp_le_cases c1 x z) as [?|[?|?]]; lia.
    + exfalso. destruct (cmp_le_cases c1 x y) as [?|[?|?]]; [|lia|lia].
      pose proof (cmp_trans c1 y z x). destruct (cmp_le_cases c1 x z) as [?|[?|?]]; [lia| |lia].
      destruct (cmp_le_cases c1 y z) as [?|[?|?]]; lia.
    + exfalso. destruct (cmp_le_cases c1 x y) as [?|[?|?]]; [|lia|lia].
      destruct (cmp_le_cases c1 y z) as [?|[?|?]]; [|lia|lia].
      pose proof (cmp_trans c1 y z x). destruct (cmp_le_cases c1 x z) as [?|[?|?]]; lia.
Qed.

(** Comparing by a key. *)
Definition on_key {A B} (f : A -> B) (cmp : B -> B -> Z) (x y : A) : Z := cmp (f x) (f y).
#[export] Instance on_key_order {A B} (f : A -> B) (cmp : B -> B -> Z) :
  SortOrder cmp -> SortOrder (on_key f cmp).
Proof.
  intros H. split; unfold on_key; intros; [apply cmp_flip; done|]. by eapply cmp_trans.
Qed.
#[export] Instance sub_order : SortOrder Z.sub.
Proof. split; intros; lia. Qed.
