(* ===== verification/Environment.v ===== *)
(** * Environments

    Models [src/lib/environmentKind.ts]: the four environment kinds, their
    sensitivity order, the reading of stored labels and the effective environment of
    a connection. *)

From S2P Require Import Prelude JsString JsValue JsSort.
From Stdlib Require String.
Import Stdlib.Strings.String.StringSyntax.
Local Open Scope Z_scope.

Inductive EnvironmentKind := production | staging | test | development.
#[export] Instance EnvironmentKind_eq_dec : EqDecision EnvironmentKind.
Proof. solve_decision. Defined.

Definition ENVIRONMENT_KINDS : list EnvironmentKind := [production; staging; test; development].

(** The string each kind is at run time. *)
Definition kind_name (kind : EnvironmentKind) : jsstr :=
  match kind with
  | production => js "production" | staging => js "staging"
  | test => js "test" | development => js "development"
  end.

(** [ENVIRONMENT_KINDS.indexOf(kind)] *)
Definition kind_index (kind : EnvironmentKind) : Z :=
  match findIndex (fun k => bool_decide (k = kind)) ENVIRONMENT_KINDS with
  | Some i => Z.of_nat i | None => -1 end.

Definition environmentKindSensitivity (kind : EnvironmentKind) : Z :=
  Z.of_nat (length ENVIRONMENT_KINDS) - 1 - kind_index kind.

Definition compareEnvironmentKinds (left right : EnvironmentKind) : Z :=
  environmentKindSensitivity right - environmentKindSensitivity left.

(** The only strings that [toLowerCase] maps to one of the names below are their
    ASCII case variants, so lowering ASCII letters decides the same labels. *)
Definition parseEnvironmentKind (label : value) : option EnvironmentKind :=
  match label with
  | VStr s =>
    let normalized := toLowerAscii (trim s) in
    if normalized ==s js "prod" then Some production
    else if normalized ==s js "dev" then Some development
    else findb (fun k => kind_name k ==s normalized) ENVIRONMENT_KINDS
  | _ => None
  end.

Definition effectiveEnvironment (own : option EnvironmentKind) (bound : list EnvironmentKind)
    : option EnvironmentKind :=
  foldl (fun strongest kind =>
    match strongest with
    | None => Some kind
    | Some s => if compareEnvironmentKinds kind s <? 0 then Some kind else strongest
    end) own bound.

Definition ENVIRONMENT_KIND_CHOICES : list EnvironmentKind :=
  [development; staging; production; test].

(** ** Lemmas *)

Lemma sensitivity_inj k k' :
  environmentKindSensitivity k = environmentKindSensitivity k' -> k = k'.
Proof. by destruct k, k'. Qed.

#[export] Instance compareEnvironmentKinds_order : SortOrder compareEnvironmentKinds.
Proof. split; unfold compareEnvironmentKinds; lia. Qed.

(** The kind [s] is at least as sensitive as each of [ks]. *)
Definition dominates (s : EnvironmentKind) (ks : list EnvironmentKind) : Prop :=
  forall k, k ∈ ks -> environmentKindSensitivity k <= environmentKindSensitivity s.

Lemma effective_fold s bound :
  exists s', effectiveEnvironment (Some s) bound = Some s'
    /\ s' ∈ s :: bound /\ dominates s' (s :: bound).
Proof.
  unfold dominates. revert s. induction bound as [|k bound IH]; intros s.
  - exists s. split; [done|split; [by left|]]. by intros k ->%list_elem_of_singleton.
  - change (effectiveEnvironment (Some s) (k :: bound)) with
      (effectiveEnvironment (if compareEnvironmentKinds k s <? 0 then Some k else Some s) bound).
    unfold compareEnvironmentKinds. case_match eqn:E.
    + apply Z.ltb_lt in E. destruct (IH k) as (s' & -> & Hin & Hdom). exists s'.
      split; [done|split; [by right|]]. intros x [->|Hx]%elem_of_cons; [|by apply Hdom].
      specialize (Hdom k ltac:(left)). lia.
    + apply Z.ltb_ge in E. destruct (IH s) as (s' & -> & Hin & Hdom). exists s'.
      split; [done|split].
      * apply elem_of_cons in Hin as [->|Hin]; [by left|by right; right].
      * intros x [->|[->|Hx]%elem_of_cons]%elem_of_cons; [apply Hdom; by left| |apply Hdom; by right].
        specialize (Hdom s ltac:(left)). lia.
Qed.

(** The effective environment of a connection is the most sensitive of its own
    label and of every Project environment it is bound to: it is one of them and no
    other is more sensitive, in whatever order and multiplicity the bindings come; it
    is absent exactly when there is neither a label nor a binding. A production label
    is therefore never lowered. *)
Theorem effective_is_most_sensitive own bound :
  match effectiveEnvironment own bound with
  | None => own = None /\ bound = []
  | Some s => (own = Some s \/ s ∈ bound)
      /\ (forall k, own = Some k \/ k ∈ bound ->
            environmentKindSensitivity k <= environmentKindSensitivity s)
      /\ (forall own' bound', (forall k, (own' = Some k \/ k ∈ bound') <-> (own = Some k \/ k ∈ bound)) ->
            effectiveEnvironment own' bound' = Some s)
  end.
Proof.
  assert (forall own bound, match effectiveEnvironment own bound with
    | None => own = None /\ bound = []
    | Some s => (own = Some s \/ s ∈ bound) /\ forall k, own = Some k \/ k ∈ bound ->
        environmentKindSensitivity k <= environmentKindSensitivity s end) as Hall.
  { clear. intros [o|] bound.
    - destruct (effective_fold o bound) as (s & -> & Hin & Hdom). split.
      + apply elem_of_cons in Hin as [->|Hin]; auto.
      + intros k [[= <-]|Hk]; apply Hdom; [by left|by right].
    - destruct bound as [|b bound]; [done|].
      change (effectiveEnvironment None (b :: bound)) with (effectiveEnvironment (Some b) bound).
      destruct (effective_fold b bound) as (s & -> & Hin & Hdom). split; [by right|].
      intros k [?|Hk]; [done|]. by apply Hdom. }
  pose proof (Hall own bound) as H. destruct (effectiveEnvironment own bound) as [s|]; [|done].
  destruct H as [Hin Hdom]. split; [done|split; [done|]]. intros own' bound' Heq.
  pose proof (Hall own' bound') as H'. destruct (effectiveEnvironment own' bound') as [s'|].
  - f_equal. destruct H' as [Hin' Hdom']. apply sensitivity_inj.
    pose proof (Hdom s' (proj1 (Heq s') Hin')). pose proof (Hdom' s (proj2 (Heq s) Hin)). lia.
  - destruct H' as [-> ->]. apply Heq in Hin as [?|H%elem_of_nil]; done.
Qed.

Example parse_labels :
  parseEnvironmentKind (VStr (js " Prod ")) = Some production
  /\ parseEnvironmentKind (VStr (js "custom")) = None
  /\ parseEnvironmentKind (VNum (js "1")) = None
  /\ map (fun k => parseEnvironmentKind (VStr (kind_name k))) ENVIRONMENT_KINDS
     = map Some ENVIRONMENT_KINDS.
Proof. vm_compute. done. Qed.
