(* ===== verification/SchemaDiff.v ===== *)
(** * Schema groups and catalog comparison

    Models [src/lib/schemaDiff.ts]: the sections of the connection list, the choice of
    a comparison baseline, the comparison of two catalogs object by object, its memo,
    and the orders the results are shown in. The Unicode case mapping and the host's
    locale comparison are parameters; everything else is executable. *)

From S2P Require Import Prelude JsString JsMap SqlIdent JsonText JsSort Environment.
From Stdlib Require String.
Import Stdlib.Strings.String.StringSyntax.
Local Open Scope Z_scope.

(** ** Connections and groups *)

(** The fields of [ConnectionProfile] this module reads. *)
Record ConnectionProfile := mkConn {
  cn_id : jsstr; cn_name : jsstr; cn_engine : Engine; cn_database : jsstr;
  cn_env : option EnvironmentKind; effectiveEnv : option EnvironmentKind;
  schemaGroup : option jsstr }.

Record SchemaConnectionGroup := mkGroup {
  g_key : jsstr; g_label : jsstr; connections : list ConnectionProfile;
  baselineId : option jsstr }.

Inductive ConnectionSection :=
| Group (group : SchemaConnectionGroup)
| Single (connection : ConnectionProfile).

Definition ENV_ORDER : list (jsstr * Z) := [(js "prod", 0); (js "staging", 1); (js "dev", 2)].

Definition isDocumentEngine (engine : Engine) : bool := bool_decide (engine = mongodb).

Definition schemaComparableEngine (engine : option Engine) : bool :=
  match engine with
  | Some e => negb (bool_decide (e = bigquery)) && negb (isDocumentEngine e)
  | None => false
  end.

Definition schemaGroupLabel (conn : ConnectionProfile) : jsstr :=
  match schemaGroup conn with Some s => trim s | None => [] end.

(** [ENV_ORDER\[conn.env ?? ""\] ?? 9] *)
Definition env_rank (conn : ConnectionProfile) : Z :=
  match oget ENV_ORDER (match cn_env conn with Some k => kind_name k | None => [] end) with
  | Own n => n | _ => 9 end.

(** [conn.name || conn.database] *)
Definition display_name (conn : ConnectionProfile) : jsstr :=
  if non_empty (cn_name conn) then cn_name conn else cn_database conn.

Section groups.
(** [String.prototype.toLocaleLowerCase] and [localeCompare] of the host. *)
Context (toLocaleLowerCase : jsstr -> jsstr) (localeCompare : jsstr -> jsstr -> Z).

Definition schemaGroupKey (conn : ConnectionProfile) : option jsstr :=
  let label := schemaGroupLabel conn in
  if non_empty label then truthy (Some (toLocaleLowerCase label)) else None.

Definition compareConnectionsInGroup (a b : ConnectionProfile) : Z :=
  if negb (env_rank a =? env_rank b) then env_rank a - env_rank b
  else localeCompare (display_name a) (display_name b).

(** The first loop of [buildConnectionSections]: groups by key with the index of
    their first member. *)
Definition groups_of (conns : list ConnectionProfile) : list (jsstr * (SchemaConnectionGroup * nat)) :=
  foldl (fun groups ic =>
    match schemaGroupKey ic.2 with
    | None => groups
    | Some key =>
      match mget groups key with
      | Some (g, first) =>
        mset groups key (mkGroup (g_key g) (g_label g) (connections g ++ [ic.2]) (baselineId g), first)
      | None => mset groups key (mkGroup key (schemaGroupLabel ic.2) [ic.2] None, ic.1)
      end
    end) [] (imap (fun i c => (i, c)) conns).

(** One step of the second loop. *)
Definition section_step (groups : list (jsstr * (SchemaConnectionGroup * nat)))
    (st : list jsstr * list (ConnectionSection * nat)) (ic : nat * ConnectionProfile) :=
  let '(seenGroups, sections) := st in
  match schemaGroupKey ic.2 with
  | None => (seenGroups, sections ++ [(Single ic.2, ic.1)])
  | Some key =>
    if bool_decide (key ∈ seenGroups) then st
    else match mget groups key with
    | None => (sadd seenGroups key, sections)
    | Some (g, first) =>
      let ordered := sort_by compareConnectionsInGroup (connections g) in
      (sadd seenGroups key,
       sections ++ [(Group (mkGroup (g_key g) (g_label g) ordered None), first)])
    end
  end.

Definition by_index (a b : ConnectionSection * nat) : Z := Z.of_nat a.2 - Z.of_nat b.2.

Definition buildConnectionSections (conns : list ConnectionProfile) : list ConnectionSection :=
  let '(_, sections) := foldl (section_step (groups_of conns)) ([], []) (imap (fun i c => (i, c)) conns) in
  map fst (sort_by by_index sections).

Definition schemaGroupNames (conns : list ConnectionProfile) (engine : Engine) : list jsstr :=
  let names := foldl (fun names c =>
    let label := schemaGroupLabel c in
    if negb (non_empty label) || negb (bool_decide (cn_engine c = engine)) then names
    else let key := toLocaleLowerCase label in
         if mhas names key then names else mset names key label) [] conns in
  sort_by localeCompare (mvals names).

End groups.

Definition schemaGroupIsCompatible (g : SchemaConnectionGroup) : bool :=
  match head (connections g) with
  | None => false
  | Some c => forallb (fun c' => bool_decide (cn_engine c' = cn_engine c)) (connections g)
  end.

Definition defaultSchemaBaseline (g : SchemaConnectionGroup) : option ConnectionProfile :=
  match findb (fun c => bool_decide (Some (cn_id c) = baselineId g)) (connections g) with
  | Some c => Some c
  | None =>
    match findb (fun c => bool_decide (effectiveEnv c = Some production)) (connections g) with
    | Some c => Some c
    | None => head (connections g)
    end
  end.

(** ** Code-point order *)

(** [s.codePointAt(0)] of a non-empty string. *)
Definition code_point (s : jsstr) : N :=
  match s with
  | c :: d :: _ =>
    if high_surrogate c && low_surrogate d
    then (65536 + (c - 55296) * 1024 + (d - 56320))%N else c
  | [c] => c
  | [] => 0%N
  end.
Definition point_width (p : N) : nat := if (65535 <? p)%N then 2%nat else 1%nat.

(** The loop of [codePointOrder] on the two remaining suffixes. *)
Fixpoint order_loop (fuel : nat) (left right : jsstr) : Z :=
  match fuel, left, right with
  | S fuel, _ :: _, _ :: _ =>
    let leftPoint := code_point left in
    let rightPoint := code_point right in
    if negb (leftPoint =? rightPoint)%N then (if (leftPoint <? rightPoint)%N then -1 else 1)
    else order_loop fuel (drop (point_width leftPoint) left) (drop (point_width rightPoint) right)
  | _, _, _ => Z.b2z (non_empty left) - Z.b2z (non_empty right)
  end.

Definition codePointOrder (left right : jsstr) : Z := order_loop (S (length left)) left right.

(** ** The difference of two catalogs *)

Inductive SchemaDiffStatus := added | missing | changed.
Inductive SchemaObjectType := o_table | o_view | o_materializedView | o_column | o_index | o_foreignKey.
#[export] Instance SchemaDiffStatus_eq_dec : EqDecision SchemaDiffStatus.
Proof. solve_decision. Defined.
#[export] Instance SchemaObjectType_eq_dec : EqDecision SchemaObjectType.
Proof. solve_decision. Defined.

Record SchemaObjectDiff := mkObject {
  o_id : jsstr; o_tableKey : jsstr; objectType : SchemaObjectType; relationKey : jsstr;
  relation : jsstr; relationType : SchemaObjectType; o_path : jsstr; label : jsstr;
  status : SchemaDiffStatus; baselineValue : jsstr; targetValue : jsstr }.

Record TableSchemaDiff := mkTableDiff {
  td_key : jsstr; td_added : bool; td_missing : bool; relationChanged : bool;
  addedColumns : list jsstr; missingColumns : list jsstr; changedColumns : list jsstr;
  objectDiffs : list SchemaObjectDiff }.

Definition RelationOrder : Type := Z * jsstr * jsstr.

Record SchemaDiffSummary := mkSummary {
  addedTables : list Table; missingTables : list Table; changedTables : list Table;
  n_addedColumns : nat; n_missingColumns : nat; n_changedColumns : nat;
  relationChangedTables : nat; total : nat;
  tableDiffs : list (jsstr * TableSchemaDiff); objects : list SchemaObjectDiff }.

Definition dash : jsstr := [8212%N].
Definition arrow : jsstr := [32; 8594; 32]%N.
Definition middle_dot : jsstr := [32; 183; 32]%N.

Definition OBJECT_TYPE_ORDER (t : SchemaObjectType) : Z :=
  match t with
  | o_table | o_view | o_materializedView => 0
  | o_column => 1 | o_index => 2 | o_foreignKey => 3
  end.

Definition relationIdentity (t : Table) : jsstr := json_array [schema t; Some (name t)].

Definition relationOrder (t : Table) : RelationOrder :=
  (match schema t with None => 0 | Some _ => 1 end, or_empty (schema t), name t).

Definition relationPath (t : Table) : jsstr :=
  match truthy (schema t) with Some s => s ++ [cDOT] ++ name t | None => name t end.

Definition relationObjectType (k : jsstr) : SchemaObjectType :=
  if k ==s js "view" then o_view
  else if k ==s js "materialized_view" then o_materializedView else o_table.

Definition emptyTableDiff (key : jsstr) (is_added is_missing : bool) : TableSchemaDiff :=
  mkTableDiff key is_added is_missing false [] [] [] [].

Definition tableObjectDiff (t : Table) (st : SchemaDiffStatus) : SchemaObjectDiff :=
  let relation := relationPath t in
  let relationKey := relationIdentity t in
  mkObject (relationKey ++ [cCOLON] ++ kind t) (tableKey t) (relationObjectType (kind t))
    relationKey relation (relationObjectType (kind t)) relation (name t) st
    (if decide (st = missing) then kind t else dash)
    (if decide (st = added) then kind t else dash).

(** *** Values and signatures *)

Section case_mapping.
(** [String.prototype.toLowerCase] of the string of one code point. *)
Context (char_lower : jsstr -> jsstr).

(** The characters a [for ... of] loop over a string yields. *)
Fixpoint characters (fuel : nat) (s : jsstr) : list jsstr :=
  match fuel, s with
  | S fuel, _ :: _ =>
    let w := point_width (code_point s) in take w s :: characters fuel (drop w s)
  | _, _ => []
  end.

(** One character of the loop of [typeSignature]. *)
Definition signature_step (st : jsstr * option jsstr) (character : jsstr) : jsstr * option jsstr :=
  let '(signature, quote) := st in
  match quote with
  | Some q => (signature ++ character, if character ==s q then None else quote)
  | None =>
    if (character ==s [cSQ]) || (character ==s [cDQ])
    then (signature ++ character, Some character)
    else (signature ++ char_lower character, None)
  end.

Definition typeSignature (dataType : jsstr) : jsstr :=
  let text := trim dataType in
  (foldl signature_step ([], None) (characters (length text) text)).1.

Definition columnSignature (c : Column) : jsstr :=
  join [124%N] [typeSignature (dataType c);
    (if nullable c then js "null" else js "not-null");
    (if pk c then js "pk" else js "no-pk")].

Definition columnValue (c : Column) : jsstr :=
  join middle_dot (filterb non_empty
    [dataType c; (if nullable c then js "NULL" else js "NOT NULL"); (if pk c then js "PK" else [])]).

Definition indexValue (ix : Index) : jsstr :=
  (if unique ix then js "UNIQUE " else []) ++ [cLP] ++ join (js ", ") (ix_columns ix) ++ [cRP].

Definition foreignKeyValue (fk : ForeignKey) : jsstr :=
  fk_column fk ++ arrow ++
  match truthy (referencesSchema fk) with Some s => s ++ [cDOT] | None => [] end
  ++ referencesTable fk ++ [cDOT] ++ referencesColumn fk.

(** *** Objects of one relation *)

Record DiffOwner := mkOwner {
  ow_tableKey : jsstr; ow_relationKey : jsstr; ow_relation : jsstr;
  ow_relationType : SchemaObjectType }.

Definition objectType_name (t : SchemaObjectType) : jsstr :=
  match t with
  | o_table => js "table" | o_view => js "view" | o_materializedView => js "materializedView"
  | o_column => js "column" | o_index => js "index" | o_foreignKey => js "foreignKey"
  end.

Definition objectDiff (table : DiffOwner) (ty : SchemaObjectType) (nm : jsstr)
    (st : SchemaDiffStatus) (baselineValue targetValue : jsstr) : SchemaObjectDiff :=
  mkObject (ow_relationKey table ++ [cCOLON] ++ objectType_name ty ++ [cCOLON] ++ nm)
    (ow_tableKey table) ty (ow_relationKey table) (ow_relation table) (ow_relationType table)
    (ow_relation table ++ [cDOT] ++ nm) nm st baselineValue targetValue.

Definition foreignKeyObjectDiff (table : DiffOwner) (column : jsstr) (st : SchemaDiffStatus)
    (baselineValue targetValue identity : jsstr) : SchemaObjectDiff :=
  mkObject (ow_relationKey table ++ js ":foreignKey:" ++ column ++ [cCOLON] ++ identity)
    (ow_tableKey table) o_foreignKey (ow_relationKey table) (ow_relation table)
    (ow_relationType table) (ow_relation table ++ [cDOT] ++ column) column st
    baselineValue targetValue.

(** What the two loops append. *)
Definition appendNamedObjectDiffs (table : DiffOwner) (ty : SchemaObjectType)
    (current baseline : list (jsstr * jsstr)) : list SchemaObjectDiff :=
  flat_map (fun e =>
    match mget baseline e.1 with
    | None => [objectDiff table ty e.1 added dash e.2]
    | Some base =>
      if negb (base ==s e.2) then [objectDiff table ty e.1 changed base e.2] else []
    end) current
  ++ flat_map (fun e =>
    if mhas current e.1 then [] else [objectDiff table ty e.1 missing e.2 dash]) baseline.

Definition groupForeignKeysByColumn (fks : list ForeignKey) : list (jsstr * list jsstr) :=
  let grouped := foldl (fun grouped fk =>
    mset grouped (fk_column fk)
      (default [] (mget grouped (fk_column fk)) ++ [foreignKeyValue fk])) [] fks in
  map (fun e => (e.1, sort_by codePointOrder e.2)) grouped.

(** [remaining.splice(remaining.indexOf(value), 1)], or [None] when it is absent. *)
Fixpoint remove_first (v : jsstr) (l : list jsstr) : option (list jsstr) :=
  match l with
  | [] => None
  | w :: l => if v ==s w then Some l else (w ::.) <$> remove_first v l
  end.

Fixpoint unmatchedValues (source comparison : list jsstr) : list jsstr :=
  match source with
  | [] => []
  | v :: source =>
    match remove_first v comparison with
    | None => v :: unmatchedValues source comparison
    | Some remaining => unmatchedValues source remaining
    end
  end.

(** The entries of one referencing column. *)
Definition foreign_key_column (table : DiffOwner) (column : jsstr)
    (currentValues baselineValues : list jsstr) : list SchemaObjectDiff :=
  let unmatched :=
    imap (fun i v => foreignKeyObjectDiff table column added dash v
                       (js "added:" ++ show_nat i ++ [cCOLON] ++ v))
      (unmatchedValues currentValues baselineValues)
    ++ imap (fun i v => foreignKeyObjectDiff table column missing v dash
                       (js "missing:" ++ show_nat i ++ [cCOLON] ++ v))
      (unmatchedValues baselineValues currentValues) in
  match currentValues, baselineValues with
  | [cur], [base] =>
    if negb (cur ==s base)
    then [foreignKeyObjectDiff table column changed base cur (js "changed")]
    else unmatched
  | _, _ => unmatched
  end.

Definition appendForeignKeyDiffs (table : DiffOwner) (currentForeignKeys baselineForeignKeys : list ForeignKey)
    : list SchemaObjectDiff :=
  let current := groupForeignKeysByColumn currentForeignKeys in
  let baseline := groupForeignKeysByColumn baselineForeignKeys in
  flat_map (fun column => foreign_key_column table column
      (default [] (mget current column)) (default [] (mget baseline column)))
    (sof (mkeys current ++ mkeys baseline)).

Definition by_name {A} (nm : A -> jsstr) (l : list A) : list (jsstr * A) :=
  mof (map (fun a => (nm a, a)) l).

Definition kind_objects (current baseline : Table) : list SchemaObjectDiff :=
  let relationType := relationObjectType (kind current) in
  if negb (kind current ==s kind baseline) then
    [mkObject (relationIdentity current ++ js ":kind") (tableKey current) relationType
       (relationIdentity current) (relationPath current) relationType (relationPath current)
       (name current) changed (kind baseline) (kind current)]
  else [].

(** The objects and column lists of the two column loops. *)
Definition column_objects (owner : DiffOwner) (current baseline : list (jsstr * Column))
    : list SchemaObjectDiff :=
  flat_map (fun e =>
    match mget baseline e.1 with
    | None => [objectDiff owner o_column e.1 added dash (columnValue e.2)]
    | Some base =>
      if negb (columnSignature e.2 ==s columnSignature base)
      then [objectDiff owner o_column e.1 changed (columnValue base) (columnValue e.2)] else []
    end) current
  ++ flat_map (fun e =>
    if mhas current e.1 then [] else [objectDiff owner o_column e.1 missing (columnValue e.2) dash])
    baseline.

Definition diffTable (current baseline : Table) : TableSchemaDiff :=
  let key := tableKey current in
  let owner := mkOwner key (relationIdentity current) (relationPath current)
                 (relationObjectType (kind current)) in
  let currentColumns := by_name col_name (columns current) in
  let baselineColumns := by_name col_name (columns baseline) in
  let objects :=
    kind_objects current baseline
    ++ column_objects owner currentColumns baselineColumns
    ++ appendNamedObjectDiffs owner o_index
         (mof (map (fun ix => (ix_name ix, indexValue ix)) (indexes current)))
         (mof (map (fun ix => (ix_name ix, indexValue ix)) (indexes baseline)))
    ++ appendForeignKeyDiffs owner (foreignKeys current) (foreignKeys baseline) in
  mkTableDiff key false false
    (existsb (fun o => negb (bool_decide (objectType o = o_column))) objects)
    (filterb (fun n => negb (mhas baselineColumns n)) (mkeys currentColumns))
    (filterb (fun n => negb (mhas currentColumns n)) (mkeys baselineColumns))
    (mkeys (filterb (fun e => match mget baselineColumns e.1 with
       | Some base => negb (columnSignature e.2 ==s columnSignature base) | None => false end)
       currentColumns))
    objects.

Definition hasTableDiff (diff : TableSchemaDiff) : bool :=
  td_added diff || td_missing diff || negb (length (objectDiffs diff) =? 0)%nat.

(** *** Whole catalogs *)

(** The local variables of [computeCatalogDiff]. *)
Record diff_state := mkState {
  ds_added : list Table; ds_missing : list Table; ds_changed : list Table;
  ds_tableDiffs : list (jsstr * TableSchemaDiff);
  ds_relations : list (RelationOrder * list SchemaObjectDiff);
  ds_addedColumns : nat; ds_missingColumns : nat; ds_changedColumns : nat;
  ds_relationChanged : nat }.

(** A relation only one side has. *)
Definition one_sided (t : Table) (st : SchemaDiffStatus) : TableSchemaDiff :=
  let d := emptyTableDiff (tableKey t) (bool_decide (st = added)) (bool_decide (st = missing)) in
  mkTableDiff (td_key d) (td_added d) (td_missing d) (relationChanged d) (addedColumns d)
    (missingColumns d) (changedColumns d) (objectDiffs d ++ [tableObjectDiff t st]).

Definition current_step (baselineTables : list (jsstr * Table)) (s : diff_state)
    (e : jsstr * Table) : diff_state :=
  let '(comparisonKey, t) := e in
  match mget baselineTables comparisonKey with
  | None =>
    mkState (ds_added s ++ [t]) (ds_missing s) (ds_changed s)
      (mset (ds_tableDiffs s) (tableKey t) (one_sided t added))
      (ds_relations s ++ [(relationOrder t, [tableObjectDiff t added])])
      (ds_addedColumns s) (ds_missingColumns s) (ds_changedColumns s) (ds_relationChanged s)
  | Some base =>
    let diff := diffTable t base in
    if hasTableDiff diff then
      mkState (ds_added s) (ds_missing s) (ds_changed s ++ [t])
        (mset (ds_tableDiffs s) (tableKey t) diff)
        (ds_relations s ++ [(relationOrder t, objectDiffs diff)])
        (ds_addedColumns s + length (addedColumns diff))
        (ds_missingColumns s + length (missingColumns diff))
        (ds_changedColumns s + length (changedColumns diff))
        (if relationChanged diff then S (ds_relationChanged s) else ds_relationChanged s)
    else s
  end.

Definition baseline_step (currentTables : list (jsstr * Table)) (s : diff_state)
    (e : jsstr * Table) : diff_state :=
  let '(comparisonKey, t) := e in
  if mhas currentTables comparisonKey then s
  else mkState (ds_added s) (ds_missing s ++ [t]) (ds_changed s)
      (mset (ds_tableDiffs s) (tableKey t) (one_sided t missing))
      (ds_relations s ++ [(relationOrder t, [tableObjectDiff t missing])])
      (ds_addedColumns s) (ds_missingColumns s) (ds_changedColumns s) (ds_relationChanged s).

Definition compare_order (a b : RelationOrder) : Z :=
  then_by (fun a b => a.1.1 - b.1.1)
    (then_by (fun a b => codePointOrder a.1.2 b.1.2) (fun a b => codePointOrder a.2 b.2)) a b.

Definition compare_objects (a b : SchemaObjectDiff) : Z :=
  then_by (fun a b => OBJECT_TYPE_ORDER (objectType a) - OBJECT_TYPE_ORDER (objectType b))
    (fun a b => codePointOrder (label a) (label b)) a b.

Definition computeCatalogDiff (current baseline : Catalog) : SchemaDiffSummary :=
  let currentTables := by_name relationIdentity (tables current) in
  let baselineTables := by_name relationIdentity (tables baseline) in
  let s := foldl (baseline_step currentTables)
    (foldl (current_step baselineTables) (mkState [] [] [] [] [] 0 0 0 0) currentTables)
    baselineTables in
  let relations := sort_by (on_key fst compare_order) (ds_relations s) in
  let objects := flat_map (fun r => sort_by compare_objects r.2) relations in
  mkSummary (ds_added s) (ds_missing s) (ds_changed s) (ds_addedColumns s) (ds_missingColumns s)
    (ds_changedColumns s) (ds_relationChanged s) (length objects) (ds_tableDiffs s) objects.

(** *** The memo

    Catalogs are shared objects; the memo is keyed by their identity. [heap] gives the
    catalog an identity stands for; a catalog is not changed after it is built. *)
Section memo.
Context (heap : nat -> Catalog).

Definition compareCatalogs (comparisons : list (nat * list (nat * SchemaDiffSummary)))
    (current baseline : nat)
    : SchemaDiffSummary * list (nat * list (nat * SchemaDiffSummary)) :=
  let byBaseline := mget comparisons current in
  match byBaseline ≫= fun m => mget m baseline with
  | Some cached => (cached, comparisons)
  | None =>
    let summary := computeCatalogDiff (heap current) (heap baseline) in
    (summary, mset comparisons current (mset (default [] byBaseline) baseline summary))
  end.

End memo.

End case_mapping.

(** ** Reading a summary *)

Inductive DiffTone := t_added | t_missing | t_changed | t_mixed.

(** Table keys contain two dots, so reading [tableDiffs] never finds an inherited name. *)
Definition tableDiffTone (diff : option TableSchemaDiff) : option DiffTone :=
  match diff with
  | None => None
  | Some diff =>
    if td_added diff then Some t_added
    else if td_missing diff then Some t_missing
    else
      let has st := existsb (fun o => bool_decide (status o = st)) (objectDiffs diff) in
      let kinds := length (filterb id [has added; has missing; has changed]) in
      if (1 <? kinds)%nat then Some t_mixed
      else if has added then Some t_added
      else if has missing then Some t_missing
      else if has changed then Some t_changed
      else None
  end.

Definition count_status (st : SchemaDiffStatus) (l : list SchemaObjectDiff) : nat :=
  length (filterb (fun o => bool_decide (status o = st)) l).

(** [(added, missing, changed)] *)
Definition diffCounts (d : SchemaDiffSummary) : nat * nat * nat :=
  (count_status added (objects d), count_status missing (objects d), count_status changed (objects d)).

Definition table_changed (d : SchemaDiffSummary) (t : Table) : bool :=
  match tableDiffTone (mget (tableDiffs d) (tableKey t)) with Some _ => true | None => false end.

Definition compare_changed (a b : Table * nat * bool) : Z :=
  then_by (fun a b => Z.b2z b.2 - Z.b2z a.2) (fun a b => Z.of_nat a.1.2 - Z.of_nat b.1.2) a b.

Definition orderTablesBySchemaDiff (ts : list Table) (diff : option SchemaDiffSummary) : list Table :=
  match diff with
  | None => ts
  | Some d => map (fun e => e.1.1)
      (sort_by compare_changed (imap (fun i t => (t, i, table_changed d t)) ts))
  end.
