(* ===== verification/SchemaDiffInv.v ===== *)
(** * Properties of the catalog comparison

    The code-point order is the lexicographic order of the code points; a comparison
    reports no difference exactly when the catalogs agree on every compared aspect;
    exchanging the two sides exchanges additions and removals; the objects are listed
    in the order of the command line tool; the table list and the group sections are
    stable rearrangements of their inputs. *)

From S2P Require Import Prelude JsString JsMap SqlIdent JsonText JsSort Environment SchemaDiff.
From Stdlib Require String.
Import Stdlib.Strings.String.StringSyntax.
Local Open Scope Z_scope.

(** ** Code-point order *)

(** The code points of a string. *)
Fixpoint points (fuel : nat) (s : jsstr) : list N :=
  match fuel, s with
  | S fuel, _ :: _ => code_point s :: points fuel (drop (point_width (code_point s)) s)
  | _, _ => []
  end.
Definition code_points (s : jsstr) : list N := points (length s) s.

(** Lexicographic comparison. *)
Fixpoint lex_cmp (l r : list N) : Z :=
  match l, r with
  | [], [] => 0
  | [], _ :: _ => -1
  | _ :: _, [] => 1
  | a :: l, b :: r => if (a =? b)%N then lex_cmp l r else if (a <? b)%N then -1 else 1
  end.

(** The units of a JavaScript string are 16 bits wide. *)
Definition units (s : jsstr) : Prop := Forall (fun c => (c < 65536)%N) s.

Lemma point_width_pos p : (1 <= point_width p <= 2)%nat.
Proof. unfold point_width. case_match; lia. Qed.

Lemma points_fuel f f' s : (length s <= f)%nat -> (length s <= f')%nat -> points f s = points f' s.
Proof.
  revert f' s. induction f as [|f IH]; intros f' [|c s] Hf Hf'; cbn in Hf, Hf'; try lia;
    destruct f' as [|f']; try lia; try done.
  cbn [points]. f_equal. apply IH; rewrite length_drop; cbn [length];
    pose proof (point_width_pos (code_point (c :: s))); lia.
Qed.

Lemma code_points_cons c s :
  code_points (c :: s)
  = code_point (c :: s) :: code_points (drop (point_width (code_point (c :: s))) (c :: s)).
Proof.
  unfold code_points at 1. cbn [length points]. f_equal. apply points_fuel; [|done].
  rewrite length_drop. cbn [length]. pose proof (point_width_pos (code_point (c :: s))). lia.
Qed.

Lemma order_loop_spec fuel l r :
  (length l < fuel)%nat -> order_loop fuel l r = lex_cmp (code_points l) (code_points r).
Proof.
  revert l r. induction fuel as [|fuel IH]; intros l r Hf; [lia|].
  destruct l as [|c l], r as [|d r]; try done.
  rewrite !code_points_cons. cbn [order_loop lex_cmp].
  destruct (N.eqb_spec (code_point (c :: l)) (code_point (d :: r))) as [E|E]; cbn [negb]; [|done].
  apply IH. rewrite length_drop. cbn [length] in *.
  pose proof (point_width_pos (code_point (c :: l))). lia.
Qed.

Lemma codePointOrder_spec l r : codePointOrder l r = lex_cmp (code_points l) (code_points r).
Proof. apply order_loop_spec. lia. Qed.

Lemma lex_cmp_eq l r : lex_cmp l r = 0 <-> l = r.
Proof.
  revert r. induction l as [|a l IH]; intros [|b r]; cbn; try done.
  destruct (N.eqb_spec a b) as [->|Hne].
  - rewrite IH. split; [by intros ->|by intros [=]].
  - split; [by case_match|]. intros [=]. done.
Qed.

#[export] Instance lex_cmp_order : SortOrder lex_cmp.
Proof.
  split.
  - induction x as [|a l IH]; intros [|b r]; cbn; try lia.
    destruct (N.eqb_spec a b) as [->|Hne]; [by rewrite N.eqb_refl|].
    rewrite (proj2 (N.eqb_neq b a)) by done.
    destruct (N.ltb_spec a b), (N.ltb_spec b a); lia.
  - induction x as [|a l IH]; intros [|b r] [|c t]; cbn; try lia.
    destruct (N.eqb_spec a b) as [->|Hab], (N.eqb_spec b c) as [->|Hbc]; try lia.
    + apply IH.
    + rewrite (proj2 (N.eqb_neq a c)) by done. lia.
    + destruct (N.ltb_spec a b), (N.ltb_spec b c); try lia.
      rewrite (proj2 (N.eqb_neq a c)) by lia. destruct (N.ltb_spec a c); lia.
Qed.

#[export] Instance codePointOrder_order : SortOrder codePointOrder.
Proof.
  split; intros *; rewrite !codePointOrder_spec; [apply cmp_flip; apply _|].
  eapply cmp_trans; apply _.
Qed.

(** The code point, with its width, determines the units it was read from. *)
Definition unpoint (p : N) : jsstr :=
  if (65535 <? p)%N then [(55296 + (p - 65536) / 1024)%N; (56320 + (p - 65536) mod 1024)%N] else [p].

Lemma unpoint_code_point c s :
  units (c :: s) ->
  c :: s = unpoint (code_point (c :: s)) ++ drop (point_width (code_point (c :: s))) (c :: s).
Proof.
  intros [Hc Hs]%Forall_cons. unfold unpoint, point_width.
  assert ((65535 <? c)%N = false) as Hsmall by (apply N.ltb_ge; lia).
  destruct s as [|d s]; cbn [code_point]; [by rewrite Hsmall|].
  destruct (high_surrogate c && low_surrogate d) eqn:Hp; [|by rewrite Hsmall].
  bools. unfold high_surrogate, low_surrogate, between in *. bools.
  repeat match goal with H : (_ <=? _)%N = true |- _ => apply N.leb_le in H end.
  rewrite (proj2 (N.ltb_lt _ _)) by lia.
  assert (65536 + (c - 55296) * 1024 + (d - 56320) - 65536
          = (c - 55296) * 1024 + (d - 56320))%N as -> by lia.
  cbn [drop app]. f_equal; [|f_equal].
  - rewrite N.div_add_l, N.div_small by lia. lia.
  - rewrite (N.add_comm (_ * 1024)), N.Div0.mod_add, N.mod_small by lia. lia.
Qed.

Lemma units_drop n s : units s -> units (drop n s).
Proof. apply Forall_drop. Qed.

Lemma code_points_inj s t : units s -> units t -> code_points s = code_points t -> s = t.
Proof.
  remember (length s) as n eqn:Hn. revert s t Hn.
  induction n as [n IH] using lt_wf_ind. intros s t -> Hs Ht.
  destruct s as [|c s], t as [|d t]; try done.
  rewrite !code_points_cons. intros Hpr.
  pose proof (f_equal head Hpr) as Hp. pose proof (f_equal tail Hpr) as Hr. clear Hpr.
  cbn [head tail] in Hp, Hr. apply (inj Some) in Hp.
  rewrite (unpoint_code_point c s Hs), (unpoint_code_point d t Ht), <- Hp. f_equal.
  rewrite <- Hp in Hr. eapply IH; [|done|by apply units_drop|by apply units_drop|done].
  rewrite length_drop. cbn [length]. pose proof (point_width_pos (code_point (c :: s))). lia.
Qed.

Lemma codePointOrder_eq s t : units s -> units t -> codePointOrder s t = 0 <-> s = t.
Proof.
  intros Hs Ht. rewrite codePointOrder_spec, lex_cmp_eq. split; [by apply code_points_inj|by intros ->].
Qed.

(** ** Two-sided loops over maps

    Tables, columns and indexes are compared by the same pair of loops: one over the
    current side, one over the baseline for what the current side lacks. *)

Section map_diff.
Context {V O : Type}.
Implicit Types (m : list (jsstr * V)) (k : jsstr) (v w : V).

Definition map_diff (f1 : jsstr -> V -> list O) (f2 : jsstr -> V -> V -> list O)
    (f3 : jsstr -> V -> list O) m m' : list O :=
  flat_map (fun e => match mget m' e.1 with None => f1 e.1 e.2 | Some w => f2 e.1 e.2 w end) m
  ++ flat_map (fun e => if mhas m e.1 then [] else f3 e.1 e.2) m'.

(** What the loops emit for one key. *)
Definition at_key (f1 : jsstr -> V -> list O) (f2 : jsstr -> V -> V -> list O)
    (f3 : jsstr -> V -> list O) (o o' : option V) k : list O :=
  match o, o' with
  | Some v, None => f1 k v | Some v, Some w => f2 k v w
  | None, Some w => f3 k w | None, None => []
  end.

Definition all_keys m m' : list jsstr :=
  mkeys m ++ filterb (fun k => negb (mhas m k)) (mkeys m').

Lemma flat_map_keys m (g : jsstr * V -> list O) (h : jsstr -> list O) :
  (forall k v, (k, v) ∈ m -> g (k, v) = h k) -> flat_map g m = flat_map h (mkeys m).
Proof.
  induction m as [|[k v] m IH]; intros H; cbn; [done|]. f_equal; [apply H; by left|].
  apply IH. intros; apply H; by right.
Qed.

Lemma flat_map_filter (p : jsstr -> bool) (h : jsstr -> list O) l :
  (forall k, k ∈ l -> p k = false -> h k = []) -> flat_map h (filterb p l) = flat_map h l.
Proof.
  unfold filterb. induction l as [|k l IH]; intros H; cbn; [done|].
  destruct (p k) eqn:Hp; cbn; rewrite IH by (intros; apply H; [by right|done]); [done|].
  by rewrite (H k) by (first [by left|done]).
Qed.

Lemma flat_map_ext_elem {A} (f g : A -> list O) l :
  (forall a, a ∈ l -> f a = g a) -> flat_map f l = flat_map g l.
Proof.
  induction l as [|a l IH]; intros H; cbn; [done|]. f_equal; [apply H; by left|].
  apply IH. intros; apply H; by right.
Qed.

Lemma map_diff_at f1 f2 f3 m m' :
  NoDup (mkeys m) -> NoDup (mkeys m') ->
  map_diff f1 f2 f3 m m'
  = flat_map (fun k => at_key f1 f2 f3 (mget m k) (mget m' k) k) (all_keys m m').
Proof.
  intros Hm Hm'. unfold map_diff, all_keys. rewrite flat_map_app. f_equal.
  - apply flat_map_keys. intros k v Hin. cbn [fst snd]. rewrite (elem_mget m k v) by done. by destruct (mget m' k).
  - set (h := fun k => if mhas m k then [] else at_key f1 f2 f3 (mget m k) (mget m' k) k).
    rewrite (flat_map_keys m' _ h).
    + rewrite <- (flat_map_filter (fun k => negb (mhas m k)) h).
      * apply flat_map_ext_elem. intros k [Hk _]%filterb_elem.
        apply negb_true_iff in Hk. unfold h. by rewrite Hk.
      * unfold h. intros k _ ->%negb_false_iff. done.
    + intros k v Hin. unfold h, mhas. rewrite (elem_mget m' k v) by done. cbn. by destruct (mget m k).
Qed.

Lemma all_keys_elem m m' k : k ∈ all_keys m m' <-> is_Some (mget m k) \/ is_Some (mget m' k).
Proof.
  unfold all_keys. rewrite elem_of_app, filterb_elem, !mget_keys, negb_true_iff.
  rewrite <- not_true_iff_false, mhas_true. destruct (decide (k ∈ mkeys m)); tauto.
Qed.

Lemma all_keys_NoDup m m' : NoDup (mkeys m) -> NoDup (mkeys m') -> NoDup (all_keys m m').
Proof.
  intros Hm Hm'. apply NoDup_app. split; [done|split].
  - intros k Hk [H _]%filterb_elem. apply mhas_true in Hk. by rewrite Hk in H.
  - eapply sublist_NoDup; [done|apply filterb_sublist].
Qed.

Lemma all_keys_swap m m' :
  NoDup (mkeys m) -> NoDup (mkeys m') -> all_keys m m' ≡ₚ all_keys m' m.
Proof.
  intros. apply NoDup_Permutation; [by apply all_keys_NoDup..|].
  intros k. rewrite !all_keys_elem. tauto.
Qed.

Lemma map_diff_nil f1 f2 f3 m m' :
  NoDup (mkeys m) -> NoDup (mkeys m') ->
  map_diff f1 f2 f3 m m' = [] <-> forall k, at_key f1 f2 f3 (mget m k) (mget m' k) k = [].
Proof.
  intros Hm Hm'. rewrite map_diff_at by done. split.
  - intros H k. destruct (decide (k ∈ all_keys m m')) as [Hk|Hk].
    + apply elem_of_nil_inv. intros o Ho. apply (elem_of_nil o). rewrite <- H.
      apply list_elem_of_In, in_flat_map. exists k. by rewrite <- !list_elem_of_In.
    + rewrite all_keys_elem in Hk.
      destruct (mget m k), (mget m' k); cbn; try done; exfalso; apply Hk; eauto.
  - intros H. induction (all_keys m m') as [|k ks IH]; cbn; [done|]. by rewrite H.
Qed.

End map_diff.

(** ** Counting *)

Section counting.
Context {O : Type}.
Implicit Types (p q : O -> bool).

Definition cnt p (l : list O) : nat := length (filterb p l).
Arguments cnt : simpl never.

Lemma cnt_app p l k : cnt p (l ++ k) = (cnt p l + cnt p k)%nat.
Proof. unfold cnt. by rewrite filterb_app, length_app. Qed.

Lemma cnt_perm p l k : l ≡ₚ k -> cnt p l = cnt p k.
Proof.
  unfold cnt, filterb. induction 1; cbn; repeat case_match; cbn; lia.
Qed.

Lemma cnt_flat_map {A} p (f : A -> list O) l : cnt p (flat_map f l) = sum_nat (map (fun a => cnt p (f a)) l).
Proof. induction l as [|a l IH]; cbn; [done|]. by rewrite cnt_app, IH. Qed.

Lemma sum_nat_perm (l k : list nat) : l ≡ₚ k -> sum_nat l = sum_nat k.
Proof. induction 1; cbn; lia. Qed.

(** Two loops over rearranged keys that emit equally many entries at each key. *)
Lemma cnt_flat_map_perm {A} p q (f g : A -> list O) l k :
  l ≡ₚ k -> (forall a, cnt p (f a) = cnt q (g a)) -> cnt p (flat_map f l) = cnt q (flat_map g k).
Proof.
  intros Hp Hf. rewrite !cnt_flat_map.
  erewrite (sum_nat_perm _ (map (fun a => cnt p (f a)) k)) by (by apply Permutation_map).
  f_equal. apply map_ext. apply Hf.
Qed.

Lemma map_diff_swap {V} p q f1 f2 f3 g1 g2 g3 (m m' : list (jsstr * V)) :
  NoDup (mkeys m) -> NoDup (mkeys m') ->
  (forall k v, cnt p (f1 k v) = cnt q (g3 k v)) ->
  (forall k v w, cnt p (f2 k v w) = cnt q (g2 k w v)) ->
  (forall k v, cnt p (f3 k v) = cnt q (g1 k v)) ->
  cnt p (map_diff f1 f2 f3 m m') = cnt q (map_diff g1 g2 g3 m' m).
Proof.
  intros Hm Hm' H1 H2 H3. rewrite !map_diff_at by done.
  apply cnt_flat_map_perm; [by apply all_keys_swap|].
  intros k. destruct (mget m k), (mget m' k); cbn; auto.
Qed.

End counting.

Arguments cnt {O} p l : simpl never.

(** ** Multisets of foreign keys *)

Lemma remove_first_spec v l :
  match remove_first v l with Some r => l ≡ₚ v :: r | None => v ∉ l end.
Proof.
  induction l as [|w l IH]; cbn; [apply not_elem_of_nil|].
  destruct (bool_decide_reflect (v = w)) as [->|Hne]; [done|].
  destruct (remove_first v l) as [r|]; cbn.
  - rewrite IH. constructor.
  - by apply not_elem_of_cons.
Qed.

Lemma unmatched_nil source comparison :
  unmatchedValues source comparison = [] <-> source ⊆+ comparison.
Proof.
  revert comparison. induction source as [|v source IH]; intros comparison; cbn.
  - split; [intros _; apply submseteq_nil_l|done].
  - pose proof (remove_first_spec v comparison) as Hr.
    destruct (remove_first v comparison) as [r|].
    + rewrite IH, Hr. split; [by apply submseteq_skip|].
      intros (k & Hk & Hs)%submseteq_cons_l. apply (Permutation_cons_inv (a := v)) in Hk.
      by rewrite Hk.
    + split; [done|]. intros Hs. destruct Hr. eapply elem_of_submseteq; [by left|done].
Qed.

Lemma submseteq_both {A} (l k : list A) : l ⊆+ k -> k ⊆+ l -> l ≡ₚ k.
Proof.
  intros H1 H2. apply submseteq_length_Permutation; [done|]. by apply submseteq_length in H2.
Qed.

Lemma foreign_key_column_nil owner c cur base :
  foreign_key_column owner c cur base = [] <-> cur ≡ₚ base.
Proof.
  assert (forall A B (f : nat -> A -> B) l, imap f l = [] <-> l = []) as Himap.
  { intros A B f [|a l]; done. }
  assert (forall l k, unmatchedValues l k = [] /\ unmatchedValues k l = [] <-> l ≡ₚ k) as Hun.
  { intros l k. rewrite !unmatched_nil. split; [intros []; by apply submseteq_both|].
    intros ->. done. }
  unfold foreign_key_column. rewrite <- Hun.
  destruct cur as [|x [|]], base as [|y [|]]; try by rewrite app_nil, !Himap.
  case_match eqn:E; [|by rewrite app_nil, !Himap]. bools. split; [done|].
  rewrite Hun. intros H%Permutation_singleton_inj. done.
Qed.

Lemma grouped_fold fks m c :
  default [] (mget (foldl (fun grouped fk =>
    mset grouped (fk_column fk)
      (default [] (mget grouped (fk_column fk)) ++ [foreignKeyValue fk])) m fks) c)
  = default [] (mget m c)
    ++ map foreignKeyValue (filterb (fun fk => bool_decide (fk_column fk = c)) fks).
Proof.
  revert m. induction fks as [|fk fks IH]; intros m; cbn [foldl]; [by rewrite app_nil_r|].
  rewrite IH, mget_set. unfold filterb. cbn. destruct (decide (c = fk_column fk)) as [->|Hne].
  - rewrite bool_decide_true by done. cbn. by rewrite <- app_assoc.
  - by rewrite bool_decide_false by congruence.
Qed.

Lemma mget_map {V W} (f : V -> W) (m : list (jsstr * V)) k :
  mget (map (fun e => (e.1, f e.2)) m) k = f <$> mget m k.
Proof. induction m as [|[a b] m IH]; cbn; [done|]. by case_decide. Qed.

(** The foreign-key values of one column, as a multiset. *)
Lemma grouped_values fks c :
  default [] (mget (groupForeignKeysByColumn fks) c)
  ≡ₚ map foreignKeyValue (filterb (fun fk => bool_decide (fk_column fk = c)) fks).
Proof.
  unfold groupForeignKeysByColumn. rewrite mget_map.
  pose proof (grouped_fold fks [] c) as H. cbn [mget default] in H. rewrite app_nil_l in H.
  rewrite <- H. destruct (mget _ c) as [l|]; cbn; [apply sort_by_perm|done].
Qed.

Lemma append_fk_nil owner fks fks' :
  appendForeignKeyDiffs owner fks fks' = []
  <-> forall c, map foreignKeyValue (filterb (fun fk => bool_decide (fk_column fk = c)) fks)
       ≡ₚ map foreignKeyValue (filterb (fun fk => bool_decide (fk_column fk = c)) fks').
Proof.
  unfold appendForeignKeyDiffs. split.
  - intros H c. rewrite <- !grouped_values.
    apply (foreign_key_column_nil owner c).
    destruct (decide (c ∈ mkeys (groupForeignKeysByColumn fks) ++ mkeys (groupForeignKeysByColumn fks'))) as [Hc|Hc].
    + apply elem_of_nil_inv. intros o Ho. apply (elem_of_nil o). rewrite <- H.
      apply list_elem_of_In, in_flat_map. exists c. rewrite <- !list_elem_of_In. by rewrite sof_elem.
    + apply not_elem_of_app in Hc as [Hc Hc'].
      rewrite !(proj2 (mget_none _ _)) by done. done.
  - intros H. induction (sof _) as [|c cs IH]; cbn; [done|]. rewrite IH, app_nil_r.
    apply foreign_key_column_nil. by rewrite !grouped_values.
Qed.

(** Counting the entries of a column on exchanged sides. *)
Definition is_status (st : SchemaDiffStatus) (o : SchemaObjectDiff) : bool := bool_decide (status o = st).
Definition flip_status (st : SchemaDiffStatus) : SchemaDiffStatus :=
  match st with added => missing | missing => added | changed => changed end.

Lemma cnt_imap st st' {A} (f : nat -> A -> SchemaObjectDiff) l :
  (forall i a, status (f i a) = st') ->
  cnt (is_status st) (imap f l) = if decide (st' = st) then length l else 0%nat.
Proof.
  intros Hf. assert (forall f, (forall i a, status (f i a) = st') ->
    cnt (is_status st) (imap f l) = if decide (st' = st) then length l else 0%nat) as H; [|by apply H].
  clear. induction l as [|a l IH]; intros f Hf; cbn; [by case_decide|].
  change (f 0%nat a :: imap (f ∘ S) l) with ([f 0%nat a] ++ imap (f ∘ S) l).
  rewrite cnt_app, IH by (intros; apply Hf).
  unfold cnt at 1, filterb, is_status. cbn. rewrite Hf. case_decide.
  - by rewrite bool_decide_true.
  - by rewrite bool_decide_false.
Qed.

Lemma foreign_key_column_swap st owner owner' c cur base :
  cnt (is_status st) (foreign_key_column owner c cur base)
  = cnt (is_status (flip_status st)) (foreign_key_column owner' c base cur).
Proof.
  assert (forall u v, cnt (is_status st)
    (imap (fun i v => foreignKeyObjectDiff owner c added dash v (js "added:" ++ show_nat i ++ [cCOLON] ++ v)) u
     ++ imap (fun i v => foreignKeyObjectDiff owner c missing v dash (js "missing:" ++ show_nat i ++ [cCOLON] ++ v)) v)
    = cnt (is_status (flip_status st))
    (imap (fun i v => foreignKeyObjectDiff owner' c added dash v (js "added:" ++ show_nat i ++ [cCOLON] ++ v)) v
     ++ imap (fun i v => foreignKeyObjectDiff owner' c missing v dash (js "missing:" ++ show_nat i ++ [cCOLON] ++ v)) u)) as Hun.
  { intros u v. rewrite !cnt_app.
    rewrite (cnt_imap st added), (cnt_imap st missing), (cnt_imap (flip_status st) added),
      (cnt_imap (flip_status st) missing) by done.
    destruct st; cbn [flip_status]; repeat case_decide; first [lia|congruence]. }
  unfold foreign_key_column. destruct cur as [|x [|]], base as [|y [|]]; try apply Hun.
  destruct (bool_decide_reflect (x = y)) as [->|Hne].
  - rewrite bool_decide_true by done. apply Hun.
  - rewrite bool_decide_false by congruence. by destruct st.
Qed.

Lemma append_fk_swap st owner owner' fks fks' :
  cnt (is_status st) (appendForeignKeyDiffs owner fks fks')
  = cnt (is_status (flip_status st)) (appendForeignKeyDiffs owner' fks' fks).
Proof.
  unfold appendForeignKeyDiffs. apply cnt_flat_map_perm.
  - apply NoDup_Permutation; [apply sof_NoDup..|]. intros c. rewrite !sof_elem, !elem_of_app. tauto.
  - intros c. apply foreign_key_column_swap.
Qed.

(** ** Signatures are faithful *)

Definition column_suffix (n p : bool) : jsstr :=
  [124%N] ++ (if n then js "null" else js "not-null") ++ [124%N] ++ (if p then js "pk" else js "no-pk").

Lemma column_suffix_inj s s' n p n' p' :
  s ++ column_suffix n p = s' ++ column_suffix n' p' -> s = s' /\ n = n' /\ p = p'.
Proof.
  intros H. assert (n = n' /\ p = p') as [-> ->].
  { apply (f_equal (@rev N)) in H. rewrite !rev_app_distr in H.
    destruct n, p, n', p'; try done; exfalso; vm_compute in H; discriminate H. }
  by apply app_inv_tail in H.
Qed.

Section with_lower.
Context (char_lower : jsstr -> jsstr).

(** Two columns of one name agree on type, nullability and key membership. *)
Definition same_column (c c' : Column) : Prop :=
  typeSignature char_lower (dataType c) = typeSignature char_lower (dataType c')
  /\ nullable c = nullable c' /\ pk c = pk c'.

Lemma columnSignature_eq c c' :
  columnSignature char_lower c = columnSignature char_lower c' <-> same_column c c'.
Proof.
  change (columnSignature char_lower c)
    with (typeSignature char_lower (dataType c) ++ column_suffix (nullable c) (pk c)).
  change (columnSignature char_lower c')
    with (typeSignature char_lower (dataType c') ++ column_suffix (nullable c') (pk c')).
  split; [apply column_suffix_inj|]. by intros (-> & -> & ->).
Qed.

(** Two indexes of one name agree on uniqueness and on the shown list of keys. *)
Definition same_index (i i' : Index) : Prop :=
  unique i = unique i' /\ join (js ", ") (ix_columns i) = join (js ", ") (ix_columns i').

Lemma indexValue_eq i i' : indexValue i = indexValue i' <-> same_index i i'.
Proof.
  unfold indexValue, same_index. split; [|by intros [-> ->]].
  destruct (unique i), (unique i'); try done; intros H; split; try done.
  - apply app_inv_head in H. injection H as H. by apply app_inv_tail in H.
  - injection H as H. by apply app_inv_tail in H.
Qed.

(** ** Declarations by name *)

(** The declaration a name refers to: the last one, as in [new Map(entries)]. *)
Definition declared {A} (p : A -> bool) (l : list A) : option A := last (filterb p l).

(** Both sides declare it, and agree; or neither declares it. *)
Definition agree {A} (R : A -> A -> Prop) (o o' : option A) : Prop :=
  match o, o' with Some v, Some w => R v w | None, None => True | _, _ => False end.

Lemma mof_get {V} (l : list (jsstr * V)) k :
  mget (mof l) k = snd <$> declared (fun e => bool_decide (e.1 = k)) l.
Proof.
  unfold mof, declared. induction l as [|[a b] l IH] using rev_ind; [done|].
  rewrite foldl_snoc, filterb_app, mget_set, IH. unfold filterb at 3. cbn [List.filter fst snd].
  destruct (decide (k = a)) as [->|Hne].
  - rewrite bool_decide_true by done. by rewrite last_snoc.
  - rewrite bool_decide_false by congruence. by rewrite app_nil_r.
Qed.

Lemma declared_map {A B} (f : A -> B) p l : declared p (map f l) = f <$> declared (fun a => p (f a)) l.
Proof.
  unfold declared, filterb. induction l as [|a l IH] using rev_ind; [done|].
  rewrite map_app, !List.filter_app. cbn. destruct (p (f a)) eqn:E; cbn.
  - by rewrite !last_snoc.
  - by rewrite !app_nil_r.
Qed.

Lemma by_name_get {A} (nm : A -> jsstr) l k :
  mget (by_name nm l) k = declared (fun a => bool_decide (nm a = k)) l.
Proof. unfold by_name. rewrite mof_get, declared_map. by destruct (declared _ l). Qed.

Lemma index_values_get ixs k :
  mget (mof (map (fun ix => (ix_name ix, indexValue ix)) ixs)) k
  = indexValue <$> declared (fun ix => bool_decide (ix_name ix = k)) ixs.
Proof. rewrite mof_get, declared_map. cbn. by destruct (declared _ ixs). Qed.

Lemma by_name_NoDup {A} (nm : A -> jsstr) l : NoDup (mkeys (by_name nm l)).
Proof. apply mof_NoDup. Qed.

(** ** One relation *)

(** Two relations agree on every aspect the comparison covers. *)
Definition same_table (t t' : Table) : Prop :=
  kind t = kind t'
  /\ (forall n, agree same_column (declared (fun c => bool_decide (col_name c = n)) (columns t))
                  (declared (fun c => bool_decide (col_name c = n)) (columns t')))
  /\ (forall n, agree same_index (declared (fun i => bool_decide (ix_name i = n)) (indexes t))
                  (declared (fun i => bool_decide (ix_name i = n)) (indexes t')))
  /\ (forall c, map foreignKeyValue (filterb (fun fk => bool_decide (fk_column fk = c)) (foreignKeys t))
        ≡ₚ map foreignKeyValue (filterb (fun fk => bool_decide (fk_column fk = c)) (foreignKeys t'))).

(** Both loops are instances of [map_diff]. *)
Lemma column_objects_diff owner m m' :
  column_objects char_lower owner m m' =
  map_diff (fun k v => [objectDiff owner o_column k added dash (columnValue v)])
    (fun k v w => if negb (columnSignature char_lower v ==s columnSignature char_lower w)
       then [objectDiff owner o_column k changed (columnValue w) (columnValue v)] else [])
    (fun k v => [objectDiff owner o_column k missing (columnValue v) dash]) m m'.
Proof. done. Qed.

Lemma named_objects_diff owner ty m m' :
  appendNamedObjectDiffs owner ty m m' =
  map_diff (fun k v => [objectDiff owner ty k added dash v])
    (fun k v w => if negb (w ==s v) then [objectDiff owner ty k changed w v] else [])
    (fun k v => [objectDiff owner ty k missing v dash]) m m'.
Proof. done. Qed.

Lemma column_objects_nil owner m m' :
  NoDup (mkeys m) -> NoDup (mkeys m') ->
  column_objects char_lower owner m m' = []
  <-> forall n, agree same_column (mget m n) (mget m' n).
Proof.
  intros Hm Hm'. rewrite column_objects_diff, map_diff_nil by done.
  apply forall_proper. intros n. destruct (mget m n), (mget m' n); cbn; try done.
  rewrite <- columnSignature_eq. case_bool_decide; cbn; naive_solver.
Qed.

Lemma named_objects_nil owner ty m m' :
  NoDup (mkeys m) -> NoDup (mkeys m') ->
  appendNamedObjectDiffs owner ty m m' = [] <-> forall n, mget m n = mget m' n.
Proof.
  intros Hm Hm'. rewrite named_objects_diff, map_diff_nil by done.
  apply forall_proper. intros n. destruct (mget m n), (mget m' n); cbn; try done.
  case_bool_decide; cbn; naive_solver.
Qed.

Lemma diffTable_nil t t' : objectDiffs (diffTable char_lower t t') = [] <-> same_table t t'.
Proof.
  unfold diffTable, same_table. cbn [objectDiffs]. rewrite !app_nil.
  rewrite column_objects_nil, named_objects_nil, append_fk_nil by auto using by_name_NoDup, mof_NoDup.
  setoid_rewrite by_name_get. setoid_rewrite index_values_get.
  assert (kind_objects t t' = [] <-> kind t = kind t') as ->.
  { unfold kind_objects. case_bool_decide; cbn; naive_solver. }
  assert ((forall n, indexValue <$> declared (fun ix => bool_decide (ix_name ix = n)) (indexes t)
    = indexValue <$> declared (fun ix => bool_decide (ix_name ix = n)) (indexes t'))
    <-> (forall n, agree same_index (declared (fun i => bool_decide (ix_name i = n)) (indexes t))
                  (declared (fun i => bool_decide (ix_name i = n)) (indexes t')))) as ->; [|tauto].
  apply forall_proper. intros n.
  destruct (declared _ (indexes t)), (declared _ (indexes t')); cbn; try done.
  rewrite <- indexValue_eq. split; [apply (inj Some)|by intros ->].
Qed.

Lemma has_diff_iff t t' :
  hasTableDiff (diffTable char_lower t t') = true <-> objectDiffs (diffTable char_lower t t') <> [].
Proof.
  unfold hasTableDiff. change (td_added (diffTable char_lower t t')) with false.
  change (td_missing (diffTable char_lower t t')) with false.
  by destruct (objectDiffs (diffTable char_lower t t')).
Qed.

(** ** Whole catalogs *)

(** The entries of one relation of the current side, and of one only the baseline has. *)
Definition current_objects (baselineTables : list (jsstr * Table)) (e : jsstr * Table) : list SchemaObjectDiff :=
  match mget baselineTables e.1 with
  | None => [tableObjectDiff e.2 added]
  | Some base => objectDiffs (diffTable char_lower e.2 base)
  end.
Definition baseline_objects (currentTables : list (jsstr * Table)) (e : jsstr * Table) : list SchemaObjectDiff :=
  if mhas currentTables e.1 then [] else [tableObjectDiff e.2 missing].

(** [ds_relations] is the list of the non-empty ones. *)
Definition emitted (f : jsstr * Table -> list SchemaObjectDiff) (l : list (jsstr * Table))
    : list (RelationOrder * list SchemaObjectDiff) :=
  filterb (fun r => negb (length r.2 =? 0)%nat) (map (fun e => (relationOrder e.2, f e)) l).

Lemma emitted_cons f e l :
  emitted f (e :: l) = (if (length (f e) =? 0)%nat then [] else [(relationOrder e.2, f e)]) ++ emitted f l.
Proof. unfold emitted, filterb. cbn. by destruct (length (f e) =? 0)%nat. Qed.

Lemma current_loop_relations m l s :
  ds_relations (foldl (current_step char_lower m) s l)
  = ds_relations s ++ emitted (current_objects m) l.
Proof.
  revert s. induction l as [|[k t] l IH]; intros s; cbn [foldl]; [by rewrite app_nil_r|].
  rewrite IH, emitted_cons, app_assoc. f_equal. unfold current_step, current_objects. cbn [fst snd].
  destruct (mget m k) as [b|]; [|done].
  destruct (hasTableDiff (diffTable char_lower t b)) eqn:E.
  - apply has_diff_iff in E. by destruct (objectDiffs (diffTable char_lower t b)).
  - destruct (objectDiffs (diffTable char_lower t b)) eqn:E'; [by rewrite app_nil_r|].
    assert (hasTableDiff (diffTable char_lower t b) = true); [|congruence].
    apply has_diff_iff. by rewrite E'.
Qed.

Lemma baseline_loop_relations m l s :
  ds_relations (foldl (baseline_step m) s l)
  = ds_relations s ++ emitted (baseline_objects m) l.
Proof.
  revert s. induction l as [|[k t] l IH]; intros s; cbn [foldl]; [by rewrite app_nil_r|].
  rewrite IH, emitted_cons, app_assoc. f_equal. unfold baseline_step, baseline_objects. cbn [fst snd].
  destruct (mhas m k); [by rewrite app_nil_r|done].
Qed.

Lemma flat_map_emitted f l : flat_map snd (emitted f l) = flat_map f l.
Proof.
  induction l as [|e l IH]; [done|]. rewrite emitted_cons, flat_map_app, IH. cbn [flat_map].
  f_equal. destruct (f e); cbn; [done|]. by rewrite app_nil_r.
Qed.

Lemma flat_map_perm {A B} (f g : A -> list B) l k :
  l ≡ₚ k -> (forall a, f a ≡ₚ g a) -> flat_map f l ≡ₚ flat_map g k.
Proof.
  intros Hp Hf. transitivity (flat_map f k).
  - clear Hf. induction Hp; cbn; [done|by apply Permutation_app| |by etrans].
    rewrite !app_assoc. f_equiv. apply Permutation_app_comm.
  - clear Hp. induction k as [|b k IH]; cbn; [done|]. by apply Permutation_app; [apply Hf|].
Qed.

Lemma perm_nil_iff {A} (l k : list A) : l ≡ₚ k -> l = [] <-> k = [].
Proof. intros Hp. split; intros ->; [|symmetry in Hp]; by apply Permutation_nil in Hp. Qed.

(** The entries of a comparison, before they are sorted. *)
Lemma objects_perm cur base :
  objects (computeCatalogDiff char_lower cur base)
  ≡ₚ map_diff (fun _ t => [tableObjectDiff t added])
       (fun _ t b => objectDiffs (diffTable char_lower t b))
       (fun _ t => [tableObjectDiff t missing])
       (by_name relationIdentity (tables cur)) (by_name relationIdentity (tables base)).
Proof.
  unfold computeCatalogDiff. cbn [objects].
  rewrite (flat_map_perm _ snd _ _ (sort_by_perm _ _) (fun r => sort_by_perm _ r.2)).
  rewrite baseline_loop_relations, current_loop_relations, !flat_map_app, !flat_map_emitted. done.
Qed.

Lemma total_length cur base :
  total (computeCatalogDiff char_lower cur base)
  = length (objects (computeCatalogDiff char_lower cur base)).
Proof. done. Qed.

(** The relation a catalog holds under a schema and a name. *)
Definition relation_at (c : Catalog) (s : option jsstr) (n : jsstr) : option Table :=
  declared (fun t => bool_decide (schema t = s /\ name t = n)) (tables c).

Lemma relationIdentity_eq t s n :
  relationIdentity t = json_array [s; Some n] <-> schema t = s /\ name t = n.
Proof.
  unfold relationIdentity. split; [|by intros [-> ->]].
  intros H%(f_equal parse_array). rewrite !parse_json_array in H. by injection H.
Qed.

Lemma relation_lookup c s n :
  mget (by_name relationIdentity (tables c)) (json_array [s; Some n]) = relation_at c s n.
Proof.
  rewrite by_name_get. unfold declared, relation_at, declared. f_equal. unfold filterb.
  apply List.filter_ext. intros t. apply bool_decide_ext, relationIdentity_eq.
Qed.

Lemma by_name_key {A} (nm : A -> jsstr) l k a : mget (by_name nm l) k = Some a -> nm a = k.
Proof.
  rewrite by_name_get. unfold declared. intros H%last_Some_elem_of.
  apply filterb_elem in H as [H _]. by apply bool_decide_eq_true in H.
Qed.

(** Exchanging the sides of one relation. *)
Lemma diffTable_swap st t t' :
  cnt (is_status st) (objectDiffs (diffTable char_lower t t'))
  = cnt (is_status (flip_status st)) (objectDiffs (diffTable char_lower t' t)).
Proof.
  unfold diffTable. cbn [objectDiffs]. rewrite !cnt_app. f_equal; [|f_equal; [|f_equal]].
  - unfold kind_objects. destruct (bool_decide_reflect (kind t = kind t')) as [->|Hne].
    + by rewrite bool_decide_true.
    + rewrite bool_decide_false by congruence. by destruct st.
  - rewrite !column_objects_diff.
    apply map_diff_swap; [apply by_name_NoDup..|by destruct st| |by destruct st].
    intros k v w. cbn beta.
    destruct (bool_decide_reflect (columnSignature char_lower v = columnSignature char_lower w)) as [->|Hne].
    + by rewrite bool_decide_true.
    + rewrite bool_decide_false by congruence. by destruct st.
  - rewrite !named_objects_diff.
    apply map_diff_swap; [apply mof_NoDup..|by destruct st| |by destruct st].
    intros k v w. cbn beta. destruct (bool_decide_reflect (w = v)) as [->|Hne].
    + by rewrite bool_decide_true.
    + rewrite bool_decide_false by congruence. by destruct st.
  - apply append_fk_swap.
Qed.

Lemma count_status_perm st cur base :
  count_status st (objects (computeCatalogDiff char_lower cur base))
  = cnt (is_status st) (map_diff (fun _ t => [tableObjectDiff t added])
       (fun _ t b => objectDiffs (diffTable char_lower t b))
       (fun _ t => [tableObjectDiff t missing])
       (by_name relationIdentity (tables cur)) (by_name relationIdentity (tables base))).
Proof. apply (cnt_perm (is_status st)), objects_perm. Qed.

Lemma count_swap st cur base :
  count_status st (objects (computeCatalogDiff char_lower cur base))
  = count_status (flip_status st) (objects (computeCatalogDiff char_lower base cur)).
Proof.
  rewrite !count_status_perm. apply map_diff_swap; [apply by_name_NoDup..| | |].
  - intros _ t. by destruct st.
  - intros _ t b. apply diffTable_swap.
  - intros _ t. by destruct st.
Qed.

(** ** Theorems on the comparison *)

(** C7: A comparison reports zero differences exactly when the two catalogs agree on
    everything it covers: under every (schema, name) pair both sides hold a relation
    or neither does, of one kind, with the same columns (type spelling, nullability,
    key membership), the same indexes (uniqueness and shown keys) and, for every
    column, the same multiset of foreign-key targets. *)
Theorem no_difference_iff_same cur base :
  total (computeCatalogDiff char_lower cur base) = 0%nat
  <-> forall s n, agree same_table (relation_at cur s n) (relation_at base s n).
Proof.
  rewrite total_length.
  assert (forall o o' k, at_key (fun _ t => [tableObjectDiff t added])
    (fun _ t b => objectDiffs (diffTable char_lower t b)) (fun _ t => [tableObjectDiff t missing]) o o' k = []
    <-> agree same_table o o') as Hkey.
  { intros [t|] [t'|] k; cbn; try done. apply diffTable_nil. }
  transitivity (objects (computeCatalogDiff char_lower cur base) = []).
  { by destruct (objects (computeCatalogDiff char_lower cur base)). }
  rewrite (perm_nil_iff _ _ (objects_perm cur base)), map_diff_nil by apply by_name_NoDup.
  split.
  - intros H s n. rewrite <- !relation_lookup. by eapply Hkey.
  - intros H k. apply Hkey.
    destruct (mget (by_name relationIdentity (tables cur)) k) as [t|] eqn:E.
    + pose proof (by_name_key _ _ _ _ E) as <-. rewrite <- E. unfold relationIdentity at 2 4.
      rewrite !relation_lookup. apply H.
    + destruct (mget (by_name relationIdentity (tables base)) k) as [t|] eqn:E'; [|done].
      pose proof (by_name_key _ _ _ _ E') as <-. rewrite <- E, <- E'. unfold relationIdentity at 2 4.
      rewrite !relation_lookup. apply H.
Qed.

(** The two sides of a comparison are dual: with the catalogs exchanged, what was
    counted as added is counted as missing, and the number of changed objects stays. *)
Theorem exchanged_sides cur base :
  let '(a, m, c) := diffCounts (computeCatalogDiff char_lower cur base) in
  diffCounts (computeCatalogDiff char_lower base cur) = (m, a, c).
Proof.
  unfold diffCounts. cbn [fst snd].
  by rewrite (count_swap added base cur), (count_swap missing base cur), (count_swap changed base cur).
Qed.

(** ** The order of the entries *)

Lemma then_by_zero {A} (c1 c2 : A -> A -> Z) x y : then_by c1 c2 x y = 0 <-> c1 x y = 0 /\ c2 x y = 0.
Proof. unfold then_by. case_match eqn:E; [apply Z.eqb_eq in E|apply Z.eqb_neq in E]; lia. Qed.

#[export] Instance compare_order_order : SortOrder compare_order.
Proof.
  apply (then_by_order _ _ (on_key_order (fun a => a.1.1) Z.sub _)), then_by_order.
  - apply (on_key_order (fun a : RelationOrder => a.1.2) codePointOrder _).
  - apply (on_key_order (fun a : RelationOrder => a.2) codePointOrder _).
Qed.

#[export] Instance compare_objects_order : SortOrder compare_objects.
Proof.
  apply (then_by_order _ _ (on_key_order (fun a => OBJECT_TYPE_ORDER (objectType a)) Z.sub _)
    (on_key_order label codePointOrder _)).
Qed.

(** The (schema, name) pair an entry belongs to, read back from its relation key. *)
Definition object_order (o : SchemaObjectDiff) : RelationOrder :=
  match parse_array (relationKey o) with
  | Some [s; Some n] => (match s with None => 0 | Some _ => 1 end, or_empty s, n)
  | _ => (0, [], [])
  end.

(** The order of the command line tool: relation, kind of object, name. *)
Definition cli_order : SchemaObjectDiff -> SchemaObjectDiff -> Z :=
  then_by (on_key object_order compare_order) compare_objects.

Lemma object_order_of t o : relationKey o = relationIdentity t -> object_order o = relationOrder t.
Proof. unfold object_order, relationIdentity. intros ->. by rewrite parse_json_array. Qed.

Lemma Forall_flat_map {A B} (P : B -> Prop) (f : A -> list B) l :
  (forall a, Forall P (f a)) -> Forall P (flat_map f l).
Proof. intros H. induction l; cbn; [done|]. apply Forall_app. auto. Qed.

Lemma Forall_imap {A B} (P : B -> Prop) (f : nat -> A -> B) l :
  (forall i a, P (f i a)) -> Forall P (imap f l).
Proof.
  revert f. induction l as [|a l IH]; intros f H; cbn; [done|]. constructor; [done|].
  apply IH. intros; apply H.
Qed.

Lemma diffTable_relationKey t b :
  Forall (fun o => relationKey o = relationIdentity t) (objectDiffs (diffTable char_lower t b)).
Proof.
  unfold diffTable, column_objects, appendNamedObjectDiffs, appendForeignKeyDiffs.
  cbn [objectDiffs]. rewrite !Forall_app. repeat split.
  - unfold kind_objects. case_match; by repeat constructor.
  - apply Forall_flat_map. intros e. case_match; [case_match|]; by repeat constructor.
  - apply Forall_flat_map. intros e. case_match; by repeat constructor.
  - apply Forall_flat_map. intros e. case_match; [case_match|]; by repeat constructor.
  - apply Forall_flat_map. intros e. case_match; by repeat constructor.
  - apply Forall_flat_map. intros c. unfold foreign_key_column.
    repeat case_match; try (by repeat constructor);
      apply Forall_app; split; by apply Forall_imap.
Qed.

Lemma current_objects_order m e o : o ∈ current_objects m e -> object_order o = relationOrder e.2.
Proof.
  unfold current_objects. case_match.
  - intros Ho. apply object_order_of.
    pose proof (diffTable_relationKey e.2 t) as H'. rewrite Forall_forall in H'. by apply H'.
  - intros ->%list_elem_of_singleton. by apply object_order_of.
Qed.

Lemma baseline_objects_order m e o : o ∈ baseline_objects m e -> object_order o = relationOrder e.2.
Proof.
  unfold baseline_objects. case_match; [by intros ?%elem_of_nil|].
  intros ->%list_elem_of_singleton. by apply object_order_of.
Qed.

Lemma StronglySorted_app {A} (R : A -> A -> Prop) l k :
  StronglySorted R l -> StronglySorted R k -> (forall x y, x ∈ l -> y ∈ k -> R x y) ->
  StronglySorted R (l ++ k).
Proof.
  intros Hl Hk H. induction Hl as [|x l Hl IH Hx]; cbn; [done|]. constructor.
  - apply IH. intros; apply H; [by right|done].
  - apply Forall_app. split; [done|]. apply Forall_forall. intros y Hy. apply H; [by left|done].
Qed.

Lemma StronglySorted_flat_map {A B} (R : B -> B -> Prop) (f : A -> list B) l :
  StronglySorted (fun a b => forall x y, x ∈ f a -> y ∈ f b -> R x y) l ->
  (forall a, a ∈ l -> StronglySorted R (f a)) -> StronglySorted R (flat_map f l).
Proof.
  induction 1 as [|a l Hl IH Ha]; intros Hf; cbn; [constructor|]. apply StronglySorted_app.
  - apply Hf. by left.
  - apply IH. intros; apply Hf; by right.
  - intros x y Hx Hy. apply list_elem_of_In, in_flat_map in Hy as (b & Hb & Hy).
    apply list_elem_of_In in Hb, Hy. rewrite Forall_forall in Ha. by eapply Ha.
Qed.

Lemma StronglySorted_impl_elem {A} (R R' : A -> A -> Prop) l :
  StronglySorted R l -> (forall x y, x ∈ l -> y ∈ l -> R x y -> R' x y) -> StronglySorted R' l.
Proof.
  induction 1 as [|a l Hl IH Ha]; intros H; [constructor|]. constructor.
  - apply IH. intros; apply H; [by right|by right|done].
  - rewrite Forall_forall in Ha |- *. intros y Hy. apply H; [by left|by right|by apply Ha].
Qed.

(** In a sorted list without equal keys, the keys strictly increase. *)
Lemma StronglySorted_strict {A K} (f : A -> K) (R R' : A -> A -> Prop) l :
  StronglySorted R l -> NoDup (map f l) ->
  (forall x y, x ∈ l -> y ∈ l -> f x <> f y -> R x y -> R' x y) -> StronglySorted R' l.
Proof.
  induction 1 as [|a l Hl IH Ha]; intros Hnd H; [constructor|].
  apply NoDup_cons in Hnd as [Hnotin Hnd]. constructor.
  - apply IH; [done|]. intros; apply H; [by right|by right|done|done].
  - rewrite Forall_forall in Ha |- *. intros y Hy. apply H; [by left|by right| |by apply Ha].
    intros E. apply Hnotin. rewrite E. apply list_elem_of_In, in_map, list_elem_of_In. done.
Qed.

Lemma relationOrder_inj t t' : relationOrder t = relationOrder t' -> relationIdentity t = relationIdentity t'.
Proof.
  unfold relationOrder, relationIdentity, or_empty.
  destruct (schema t), (schema t'); cbn; intros [=]; congruence.
Qed.

Lemma emitted_elem f l r :
  r ∈ emitted f l <-> exists e, e ∈ l /\ r = (relationOrder e.2, f e) /\ f e <> [].
Proof.
  unfold emitted. rewrite filterb_elem, negb_true_iff, Nat.eqb_neq, list_elem_of_In, in_map_iff.
  setoid_rewrite <- list_elem_of_In. split.
  - intros [Hne (e & <- & He)]. exists e. split; [done|split; [done|]]. intros E. cbn in Hne. by rewrite E in Hne.
  - intros (e & He & -> & Hne). cbn. split; [by destruct (f e)|]. by exists e.
Qed.

(** The keys of a map of tables are their identities. *)
Definition keyed (l : list (jsstr * Table)) : Prop := forall k t, (k, t) ∈ l -> k = relationIdentity t.

Lemma by_name_keyed ts : keyed (by_name relationIdentity ts).
Proof.
  intros k t H. apply elem_mget in H; [|apply by_name_NoDup]. symmetry. by eapply by_name_key.
Qed.

Lemma emitted_NoDup f l : NoDup (mkeys l) -> keyed l -> NoDup (map fst (emitted f l)).
Proof.
  intros Hnd Hk.
  assert (NoDup (map (fun e => relationOrder e.2) l)) as H.
  { induction l as [|[k t] l IH]; cbn; [constructor|].
    apply NoDup_cons in Hnd as [Hnotin Hnd]. apply NoDup_cons. split.
    - intros Hin. apply list_elem_of_In, in_map_iff in Hin as ([k' t'] & E & Hin).
      rewrite <- list_elem_of_In in Hin. apply relationOrder_inj in E. cbn in E.
      apply Hnotin. rewrite (Hk k t) by by left. rewrite <- E, <- (Hk k' t') by by right.
      apply list_elem_of_In, in_map_iff. exists (k', t'). by rewrite <- list_elem_of_In.
    - apply IH; [done|]. intros k' t' Hin. apply Hk. by right. }
  eapply sublist_NoDup; [exact H|]. clear. induction l as [|e l IH]; [constructor|].
  rewrite emitted_cons. cbn [map]. case_match; cbn; by constructor.
Qed.

(** The relations of a comparison, in the order they were found. *)
Definition found_relations (cur base : Catalog) : list (RelationOrder * list SchemaObjectDiff) :=
  emitted (current_objects (by_name relationIdentity (tables base))) (by_name relationIdentity (tables cur))
  ++ emitted (baseline_objects (by_name relationIdentity (tables cur))) (by_name relationIdentity (tables base)).

Lemma objects_found cur base :
  objects (computeCatalogDiff char_lower cur base)
  = flat_map (fun r => sort_by compare_objects r.2)
      (sort_by (on_key fst compare_order) (found_relations cur base)).
Proof.
  unfold computeCatalogDiff. cbn [objects].
  by rewrite baseline_loop_relations, current_loop_relations.
Qed.

Lemma found_relations_NoDup cur base : NoDup (map fst (found_relations cur base)).
Proof.
  unfold found_relations. rewrite map_app. apply NoDup_app. split; [|split].
  - apply emitted_NoDup; [apply by_name_NoDup|apply by_name_keyed].
  - intros x Hx Hy.
    apply list_elem_of_In, in_map_iff in Hx as (r & <- & Hx).
    apply list_elem_of_In, in_map_iff in Hy as (r' & E & Hy).
    apply list_elem_of_In, emitted_elem in Hx as ([k t] & Hin & -> & _).
    apply list_elem_of_In, emitted_elem in Hy as ([k' t'] & Hin' & -> & Hne).
    apply relationOrder_inj in E. cbn in E. unfold baseline_objects in Hne. cbn [fst snd] in Hne.
    rewrite (by_name_keyed _ _ _ Hin'), E, <- (by_name_keyed _ _ _ Hin) in Hne.
    destruct (mhas _ k) eqn:Hk; [done|]. apply not_true_iff_false in Hk. apply Hk, mhas_true.
    apply list_elem_of_In, in_map_iff. exists (k, t). by rewrite <- list_elem_of_In.
  - apply emitted_NoDup; [apply by_name_NoDup|apply by_name_keyed].
Qed.

(** Schema and relation names are strings of 16-bit units. *)
Definition catalog_units (c : Catalog) : Prop :=
  Forall (fun t => units (or_empty (schema t)) /\ units (name t)) (tables c).

(** A relation entry: where its order and objects come from. *)
Lemma found_relation cur base r :
  catalog_units cur -> catalog_units base -> r ∈ found_relations cur base ->
  (exists t, r.1 = relationOrder t /\ units (or_empty (schema t)) /\ units (name t))
  /\ (forall o, o ∈ r.2 -> object_order o = r.1).
Proof.
  intros Hc Hb. unfold catalog_units in *. rewrite Forall_forall in Hc, Hb.
  assert (forall ts k t, (k, t) ∈ by_name relationIdentity ts -> t ∈ ts) as Hts.
  { intros ts k t H%elem_mget; [|apply by_name_NoDup]. rewrite by_name_get in H.
    apply last_Some_elem_of, filterb_elem in H as [_ H]. done. }
  unfold found_relations. rewrite elem_of_app, !emitted_elem.
  intros [([k t] & Hin & -> & _)|([k t] & Hin & -> & _)]; (split; [exists t; split; [done|]|]); cbn [fst snd].
  - by eapply Hc, Hts.
  - intros o Ho. by apply current_objects_order in Ho.
  - by eapply Hb, Hts.
  - intros o Ho. by apply baseline_objects_order in Ho.
Qed.

Lemma compare_order_eq t t' :
  units (or_empty (schema t)) -> units (name t) -> units (or_empty (schema t')) -> units (name t') ->
  compare_order (relationOrder t) (relationOrder t') = 0 -> relationOrder t = relationOrder t'.
Proof.
  intros ? ? ? ? Hz. apply then_by_zero in Hz as [Ha Hz]. apply then_by_zero in Hz as [Hs Hn].
  apply codePointOrder_eq in Hs; [|done..]. apply codePointOrder_eq in Hn; [|done..].
  unfold relationOrder in *. cbn in Ha, Hs, Hn. f_equal; [|done]. f_equal; [lia|done].
Qed.

(** The differences are listed exactly in the command line tool's order: by the
    relation's (schema, name) pair with schema-less relations first, then relation,
    column, index and foreign-key entries, then by name, all strings compared by code
    points; in particular the entries of one relation stay together. *)
Theorem objects_in_cli_order cur base :
  catalog_units cur -> catalog_units base ->
  StronglySorted (not_after cli_order) (objects (computeCatalogDiff char_lower cur base)).
Proof.
  intros Hc Hb. rewrite objects_found. apply StronglySorted_flat_map.
  - eapply (StronglySorted_strict fst); [apply sort_by_sorted; apply _| |].
    + rewrite sort_by_perm. apply found_relations_NoDup.
    + intros r r' Hr Hr' Hne Hle o o' Ho Ho'.
      apply sort_by_elem in Hr, Hr', Ho, Ho'.
      destruct (found_relation _ _ _ Hc Hb Hr) as [(t & Et & ? & ?) Hord].
      destruct (found_relation _ _ _ Hc Hb Hr') as [(t' & Et' & ? & ?) Hord'].
      unfold not_after, cli_order, then_by, on_key in *.
      rewrite (Hord o Ho), (Hord' o' Ho'). case_match eqn:E; [|done].
      apply Z.eqb_eq in E. destruct Hne. rewrite Et, Et' in *. by apply compare_order_eq.
  - intros r Hr. rewrite sort_by_elem in Hr.
    destruct (found_relation _ _ _ Hc Hb Hr) as [_ Hord].
    eapply (StronglySorted_impl_elem (not_after compare_objects)); [apply sort_by_sorted; apply _|].
    intros o o' Ho Ho' Hle. apply sort_by_elem in Ho, Ho'.
    unfold not_after, cli_order, then_by, on_key in *.
    rewrite (Hord o Ho), (Hord o' Ho'). by rewrite cmp_refl_eq by apply _.
Qed.

End with_lower.

(** ** Rearranging the table list *)

Lemma StronglySorted_filterb {A} (R : A -> A -> Prop) p l :
  StronglySorted R l -> StronglySorted R (filterb p l).
Proof.
  unfold filterb. induction 1 as [|a l Hl IH Ha]; cbn; [constructor|]. case_match; [|done].
  constructor; [done|]. rewrite Forall_forall in Ha |- *. intros x [_ Hx]%filterb_elem. by apply Ha.
Qed.

Lemma imap_indexed {A B} (f : A -> B) n (l : list A) :
  StronglySorted (fun a b : A * nat * B => (a.1.2 < b.1.2)%nat) (imap (fun i a => (a, (n + i)%nat, f a)) l).
Proof.
  revert n. induction l as [|a l IH]; intros n; cbn; [constructor|].
  assert (imap ((fun i a => (a, (n + i)%nat, f a)) ∘ S) l = imap (fun i a => (a, (S n + i)%nat, f a)) l) as ->.
  { apply imap_ext. intros. cbn. by rewrite Nat.add_succ_r. }
  constructor; [apply IH|]. apply Forall_imap. intros; cbn. lia.
Qed.

Lemma filterb_split {A} (p : A -> bool) l : filterb p l ++ filterb (fun a => negb (p a)) l ≡ₚ l.
Proof.
  unfold filterb. induction l as [|a l IH]; cbn; [done|]. destruct (p a); cbn.
  - by rewrite IH.
  - by rewrite <- Permutation_middle, IH.
Qed.

#[export] Instance compare_changed_order : SortOrder compare_changed.
Proof.
  apply (then_by_order (fun a b : Table * nat * bool => Z.b2z b.2 - Z.b2z a.2) (fun a b => Z.of_nat a.1.2 - Z.of_nat b.1.2));
    split; intros; lia.
Qed.

Lemma filterb_map_imap (f : Table -> bool) (q : bool -> bool) l :
  map (fun e => e.1.1) (filterb (fun e => q e.2) (imap (fun i t => (t, i, f t)) l))
  = filterb (fun t => q (f t)) l.
Proof.
  assert (forall n, map (fun e => e.1.1) (filterb (fun e => q e.2) (imap (fun i t => (t, (n + i)%nat, f t)) l))
    = filterb (fun t => q (f t)) l) as H; [|exact (H 0%nat)].
  unfold filterb. induction l as [|t l IH]; intros n; cbn; [done|].
  assert (imap ((fun i a => (a, (n + i)%nat, f a)) ∘ S) l = imap (fun i a => (a, (S n + i)%nat, f a)) l) as ->.
  { apply imap_ext. intros. cbn. by rewrite Nat.add_succ_r. }
  destruct (q (f t)); cbn; [f_equal|]; exact (IH (S n)).
Qed.

(** The table list keeps its order within the differing tables and within the
    others, and shows all differing tables first; without a comparison it is unchanged. *)
Theorem differing_tables_first ts d :
  orderTablesBySchemaDiff ts (Some d)
  = filterb (table_changed d) ts ++ filterb (fun t => negb (table_changed d t)) ts.
Proof.
  unfold orderTablesBySchemaDiff.
  set (l := imap (fun i t => (t, i, table_changed d t)) ts).
  assert (StronglySorted (fun a b : Table * nat * bool => (a.1.2 < b.1.2)%nat) l) as Hidx
    by exact (imap_indexed (table_changed d) 0 ts).
  rewrite (sort_by_unique compare_changed l
    (filterb (fun e => e.2) l ++ filterb (fun e => negb e.2) l)).
  - rewrite map_app. unfold l. by rewrite (filterb_map_imap _ id), (filterb_map_imap _ negb).
  - symmetry. apply (filterb_split (fun e => e.2)).
  - apply StronglySorted_app.
    + eapply StronglySorted_impl_elem; [apply StronglySorted_filterb, Hidx|].
      intros x y [Hx _]%filterb_elem [Hy _]%filterb_elem ?.
      unfold not_after, compare_changed, then_by. rewrite Hx, Hy. cbn [Z.b2z].
      case_match; lia.
    + eapply StronglySorted_impl_elem; [apply StronglySorted_filterb, Hidx|].
      intros x y [Hx%negb_true_iff _]%filterb_elem [Hy%negb_true_iff _]%filterb_elem ?.
      unfold not_after, compare_changed, then_by. rewrite Hx, Hy. cbn [Z.b2z].
      case_match; lia.
    + intros x y [Hx _]%filterb_elem [Hy%negb_true_iff _]%filterb_elem.
      unfold not_after, compare_changed, then_by. rewrite Hx, Hy. cbn [Z.b2z].
      case_match; lia.
  - clear -Hidx. induction Hidx as [|a l Hl IH Ha].
    + by intros x y ?%elem_of_nil.
    + rewrite Forall_forall in Ha. unfold compare_changed in *.
      intros x y [->|Hx]%elem_of_cons [->|Hy]%elem_of_cons [? Hz]%then_by_zero; [done| | |].
      * specialize (Ha y Hy). lia.
      * specialize (Ha x Hx). lia.
      * apply IH; [done|done|]. by apply then_by_zero.
Qed.

(** ** Group sections *)

Section sections.
Context (toLocaleLowerCase : jsstr -> jsstr) (localeCompare : jsstr -> jsstr -> Z).
Notation key_of := (schemaGroupKey toLocaleLowerCase).
Notation sorted := (sort_by (compareConnectionsInGroup localeCompare)).

Definition has_key (k : jsstr) (c : ConnectionProfile) : bool := bool_decide (key_of c = Some k).

(** The section shown at the place of [c], after the connections [before]: its own one
    when it has no group, its group's when it is the first member, else none. *)
Definition section_at (conns before : list ConnectionProfile) (c : ConnectionProfile) : list ConnectionSection :=
  match key_of c with
  | None => [Single c]
  | Some k =>
    if existsb (has_key k) before then []
    else [Group (mkGroup k (schemaGroupLabel c) (sorted (filterb (has_key k) conns)) None)]
  end.

Fixpoint sections_from (conns before rest : list ConnectionProfile) : list ConnectionSection :=
  match rest with
  | [] => []
  | c :: rest => section_at conns before c ++ sections_from conns (before ++ [c]) rest
  end.

(** Numbered connections, as [forEach] passes them. *)
Definition numbered (n : nat) (l : list ConnectionProfile) : list (nat * ConnectionProfile) :=
  imap (fun i c => (n + i, c)%nat) l.

Lemma numbered_cons n c l : numbered n (c :: l) = (n, c) :: numbered (S n) l.
Proof.
  unfold numbered. cbn. rewrite Nat.add_0_r. f_equal. apply imap_ext. intros; cbn. by rewrite Nat.add_succ_r.
Qed.

Definition groups_step (groups : list (jsstr * (SchemaConnectionGroup * nat))) (ic : nat * ConnectionProfile) :=
  match key_of ic.2 with
  | None => groups
  | Some key =>
    match mget groups key with
    | Some (g, first) =>
      mset groups key (mkGroup (g_key g) (g_label g) (connections g ++ [ic.2]) (baselineId g), first)
    | None => mset groups key (mkGroup key (schemaGroupLabel ic.2) [ic.2] None, ic.1)
    end
  end.

(** The group of a key: labelled and placed by its first member. *)
Definition group_of (k : jsstr) (ics : list (nat * ConnectionProfile)) : option (SchemaConnectionGroup * nat) :=
  match filterb (fun ic => has_key k ic.2) ics with
  | [] => None
  | ic :: rest => Some (mkGroup k (schemaGroupLabel ic.2) (ic.2 :: map snd rest) None, ic.1)
  end.

Lemma groups_fold_get ics k : mget (foldl groups_step [] ics) k = group_of k ics.
Proof.
  induction ics as [|ic ics IH] using rev_ind; [done|].
  rewrite foldl_snoc. unfold group_of in *. rewrite filterb_app. unfold filterb at 2. cbn [List.filter].
  unfold groups_step at 1. unfold has_key at 2.
  destruct (key_of ic.2) as [key|] eqn:E.
  - destruct (decide (key = k)) as [->|Hne].
    + rewrite bool_decide_true by done. rewrite IH.
      destruct (filterb _ ics) as [|ic0 rest]; cbn [app]; rewrite mget_set_eq; [done|].
      by rewrite map_app.
    + rewrite bool_decide_false by congruence. rewrite app_nil_r, <- IH.
      destruct (mget _ key) as [[g first]|]; by rewrite mget_set_ne by congruence.
  - rewrite bool_decide_false by congruence. by rewrite app_nil_r.
Qed.

Lemma filterb_numbered p n l :
  map snd (filterb (fun ic => p ic.2) (numbered n l)) = filterb p l.
Proof.
  revert n. induction l as [|c l IH]; intros n; [done|]. rewrite numbered_cons.
  unfold filterb in *. cbn. destruct (p c); cbn; by rewrite IH.
Qed.

Lemma group_of_app k n before c rest :
  existsb (has_key k) before = false -> has_key k c = true ->
  group_of k (numbered n (before ++ c :: rest))
  = Some (mkGroup k (schemaGroupLabel c) (filterb (has_key k) (before ++ c :: rest)) None, (n + length before)%nat).
Proof.
  intros Hb Hc. revert n Hb. induction before as [|b before IH]; intros n Hb; cbn [app].
  - rewrite numbered_cons. unfold group_of, filterb. cbn [List.filter snd fst]. rewrite Hc.
    cbn [length fst snd]. rewrite Nat.add_0_r. f_equal. f_equal. f_equal. f_equal.
    apply (filterb_numbered (has_key k)).
  - cbn in Hb. apply orb_false_iff in Hb as [Hb1 Hb2].
    rewrite numbered_cons. unfold group_of, filterb in *. cbn [List.filter snd fst]. rewrite Hb1.
    rewrite IH by done. cbn [length]. by rewrite Nat.add_succ_r.
Qed.

(** The second loop from any point: what it has seen and what it will still emit. *)
Lemma groups_of_get conns k : mget (groups_of toLocaleLowerCase conns) k = group_of k (numbered 0 conns).
Proof. apply groups_fold_get. Qed.

Lemma section_loop conns before rest seen sections :
  conns = before ++ rest ->
  (forall k, k ∈ seen <-> existsb (has_key k) before = true) ->
  exists out,
    (foldl (section_step toLocaleLowerCase localeCompare (groups_of toLocaleLowerCase conns))
       (seen, sections) (numbered (length before) rest)).2 = sections ++ out
    /\ map fst out = sections_from conns before rest
    /\ Forall (fun s => (length before <= s.2)%nat) out
    /\ StronglySorted (fun a b : ConnectionSection * nat => (a.2 < b.2)%nat) out.
Proof.
  revert before seen sections. induction rest as [|c rest IH]; intros before seen sections Hc Hseen.
  { exists []. rewrite app_nil_r. repeat split; constructor. }
  rewrite numbered_cons. cbn [foldl].
  assert (Hlen : S (length before) = length (before ++ [c])) by (rewrite length_app; cbn; lia).
  assert (Hc' : conns = (before ++ [c]) ++ rest) by by rewrite <- app_assoc.
  (* one step emits [here] and keeps the relation to [seen] *)
  assert (exists here seen', section_step toLocaleLowerCase localeCompare
      (groups_of toLocaleLowerCase conns) (seen, sections) (length before, c)
      = (seen', sections ++ map (fun s => (s, length before)) here)
    /\ here = section_at conns before c /\ (length here <= 1)%nat
    /\ forall k, k ∈ seen' <-> existsb (has_key k) (before ++ [c]) = true) as (here & seen' & -> & Hh & Hl & Hs).
  { assert (forall k, existsb (has_key k) (before ++ [c]) = existsb (has_key k) before || has_key k c) as Hex.
    { intros k. rewrite existsb_app. cbn. by rewrite orb_false_r. }
    unfold section_step, section_at. cbn [snd fst].
    destruct (key_of c) as [key|] eqn:E.
    - destruct (existsb (has_key key) before) eqn:Hb.
      + rewrite bool_decide_true by by apply Hseen. exists [], seen. rewrite app_nil_r.
        split; [done|split; [done|split; [cbn; lia|]]]. intros k. rewrite Hex, orb_true_iff, <- Hseen.
        split; [auto|]. intros [|Hk]; [done|]. apply bool_decide_eq_true in Hk.
        apply Hseen. by replace k with key by congruence.
      + rewrite bool_decide_false by (rewrite Hseen; congruence).
        rewrite groups_of_get, Hc, (group_of_app key 0) by (first [done|by apply bool_decide_eq_true]).
        cbn [g_key g_label connections plus]. eexists [_], _.
        split; [reflexivity|split; [done|split; [cbn; lia|]]].
        intros k. rewrite sadd_elem, Hex, orb_true_iff, Hseen. unfold has_key at 3.
        rewrite bool_decide_eq_true, E. naive_solver.
    - exists [Single c], seen. split; [done|split; [done|split; [cbn; lia|]]].
      intros k. rewrite Hex, orb_true_iff, Hseen. unfold has_key at 3. rewrite bool_decide_eq_true, E. naive_solver. }
  rewrite Hlen. destruct (IH (before ++ [c]) seen' (sections ++ map (fun s => (s, length before)) here) Hc' Hs)
    as (out & -> & Hout & Hge & Hsort).
  exists (map (fun s => (s, length before)) here ++ out). rewrite app_assoc. split; [done|].
  cbn [sections_from]. rewrite <- Hh. split; [|split].
  - rewrite map_app, Hout. f_equal. by rewrite map_map, map_id.
  - apply Forall_app. split.
    + apply Forall_map. by apply Forall_true.
    + eapply Forall_impl; [exact Hge|]. cbn. intros. lia.
  - apply StronglySorted_app; [|done|].
    + destruct here as [|h [|]]; cbn in *; [constructor|repeat constructor|lia].
    + intros x y Hx Hy. rewrite Forall_forall in Hge. specialize (Hge y Hy).
      apply list_elem_of_In, in_map_iff in Hx as (h & <- & _). cbn. lia.
Qed.

Definition members (s : ConnectionSection) : list ConnectionProfile :=
  match s with Single c => [c] | Group g => connections g end.

#[local] Instance by_index_order : SortOrder by_index.
Proof. split; unfold by_index; intros; lia. Qed.

Lemma build_sections_from conns :
  buildConnectionSections toLocaleLowerCase localeCompare conns = sections_from conns [] conns.
Proof.
  unfold buildConnectionSections.
  destruct (section_loop conns [] conns [] []) as (out & Hout & Hmap & _ & Hsort); [done| |].
  { intros k. cbn. rewrite elem_of_nil. done. }
  change (numbered (length []) conns) with (imap (fun i c => (i, c)) conns) in Hout.
  destruct (foldl _ _ _) as [seen sections]. cbn in Hout. subst sections.
  rewrite (sort_by_unique by_index out out), Hmap; [done|done| |].
  - eapply StronglySorted_impl_elem; [exact Hsort|]. intros x y _ _ Hlt.
    cbn in Hlt. unfold not_after, by_index. lia.
  - clear -Hsort. induction Hsort as [|a l Hl IH Ha]; [by intros x y ?%elem_of_nil|].
    rewrite Forall_forall in Ha. unfold by_index in *.
    intros x y [->|Hx]%elem_of_cons [->|Hy]%elem_of_cons Hz; [done| | |by apply IH].
    + specialize (Ha y Hy). lia.
    + specialize (Ha x Hx). lia.
Qed.

(** Ungrouped, or of a group no connection of [before] has. *)
Definition pending (before : list ConnectionProfile) (c : ConnectionProfile) : bool :=
  match key_of c with None => true | Some k => negb (existsb (has_key k) before) end.

Lemma existsb_snoc {A} (p : A -> bool) l x : existsb p (l ++ [x]) = existsb p l || p x.
Proof. rewrite existsb_app. cbn. by rewrite orb_false_r. Qed.

Lemma pending_snoc before c d :
  pending (before ++ [c]) d
  = pending before d && negb (match key_of c with Some k => has_key k d | None => false end).
Proof.
  unfold pending. destruct (key_of d) as [k|] eqn:Ed.
  - rewrite existsb_snoc, negb_orb. f_equal. f_equal. unfold has_key. rewrite Ed.
    destruct (key_of c) as [k'|]; [|by rewrite bool_decide_false]. apply bool_decide_ext. naive_solver.
  - destruct (key_of c) as [k'|]; [|done]. unfold has_key. by rewrite Ed, bool_decide_false.
Qed.

(** Gathering a group that is still pending. *)
Lemma gather key before c l :
  key_of c = Some key -> existsb (has_key key) before = false ->
  filterb (has_key key) l ++ filterb (pending (before ++ [c])) l ≡ₚ filterb (pending before) l.
Proof.
  intros Hc Hb. induction l as [|d l IH]; [done|]. unfold filterb in *. cbn.
  rewrite pending_snoc, Hc. destruct (has_key key d) eqn:Hd; cbn.
  - assert (pending before d = true) as ->.
    { unfold pending. apply bool_decide_eq_true in Hd. by rewrite Hd, Hb. }
    cbn. by constructor.
  - rewrite andb_true_r. destruct (pending before d); [|done]. rewrite <- Permutation_middle. by constructor.
Qed.

Lemma existsb_false_filterb {A} (p : A -> bool) l : existsb p l = false -> filterb p l = [].
Proof. unfold filterb. induction l as [|a l IH]; cbn; [done|]. by destruct (p a). Qed.

(** The members shown from a point on are those still pending there. *)
Lemma sections_from_members conns before rest :
  conns = before ++ rest ->
  flat_map members (sections_from conns before rest) ≡ₚ filterb (pending before) rest.
Proof.
  revert before. induction rest as [|c rest IH]; intros before Hc; [done|].
  cbn [sections_from]. rewrite flat_map_app, IH by by rewrite <- app_assoc.
  unfold filterb at 2. cbn [List.filter]. fold (filterb (pending before) rest).
  unfold section_at, pending at 2. destruct (key_of c) as [key|] eqn:E.
  - destruct (existsb (has_key key) before) eqn:Hb; cbn [negb flat_map members connections app].
    + apply Permutation_refl'. unfold filterb. apply List.filter_ext. intros d.
      rewrite pending_snoc, E. unfold pending, has_key at 2.
      destruct (bool_decide_reflect (key_of d = Some key)) as [->|Hne]; [by rewrite Hb|by rewrite andb_true_r].
    + rewrite app_nil_r, sort_by_perm, Hc, filterb_app, (existsb_false_filterb _ before Hb).
      unfold filterb at 1. cbn [List.filter app]. unfold has_key at 1. rewrite bool_decide_true by done.
      cbn. constructor. by apply gather.
  - cbn. constructor. apply Permutation_refl'. unfold filterb. apply List.filter_ext. intros d.
    by rewrite pending_snoc, E, andb_true_r.
Qed.

(** The connection list loses and repeats nothing: [buildConnectionSections] shows
    every connection in exactly one section, an ungrouped connection at its own place
    and a group at the place of its first member, holding every connection with its
    key in the group's order. *)
Theorem sections_partition conns :
  buildConnectionSections toLocaleLowerCase localeCompare conns = sections_from conns [] conns
  /\ flat_map members (buildConnectionSections toLocaleLowerCase localeCompare conns) ≡ₚ conns.
Proof.
  split; [apply build_sections_from|]. rewrite build_sections_from, sections_from_members by done.
  unfold filterb. rewrite (List.filter_ext _ (fun _ => true)); [by rewrite List.filter_true|].
  intros c. unfold pending. by destruct (key_of c).
Qed.

#[local] Instance compareConnections_order :
  SortOrder localeCompare -> SortOrder (compareConnectionsInGroup localeCompare).
Proof.
  intros Hl. assert (SortOrder (then_by (on_key env_rank Z.sub) (on_key display_name localeCompare))) as H by apply _.
  assert (forall a b, compareConnectionsInGroup localeCompare a b
    = then_by (on_key env_rank Z.sub) (on_key display_name localeCompare) a b) as E.
  { intros a b. unfold compareConnectionsInGroup, then_by, on_key.
    destruct (Z.eqb_spec (env_rank a) (env_rank b)); cbn [negb]; case_match; lia. }
  split; intros *; rewrite !E; [apply cmp_flip; done|]. by apply cmp_trans.
Qed.

(** Inside a group no connection ever precedes a staging one, a production one
    included, although production is the more sensitive environment and the declared
    display order is most sensitive first: the rank table still uses the labels [prod]
    and [dev] that no environment has, so every environment but staging gets rank 9. *)
Theorem staging_precedes_production g :
  SortOrder localeCompare ->
  StronglySorted (fun x y => cn_env y = Some staging -> cn_env x = Some staging)
    (sort_by (compareConnectionsInGroup localeCompare) g)
  /\ compareEnvironmentKinds production staging < 0.
Proof.
  intros Hl. split; [|done].
  eapply StronglySorted_impl_elem; [apply sort_by_sorted; apply _|].
  intros x y _ _ Hle Hy. unfold not_after, compareConnectionsInGroup in Hle.
  assert (env_rank y = 1) as Er by by (unfold env_rank; rewrite Hy). rewrite Er in Hle.
  unfold env_rank in Hle. destruct (cn_env x) as [[]|]; cbn in Hle; (done || lia).
Qed.

End sections.

(** Two members of a group, ordered by a locale comparison that is the code-point order. *)
Lemma staging_precedes_production_witness :
  let prod := mkConn (js "1") (js "a") postgres (js "app") (Some production) (Some production) (Some (js "g")) in
  let stag := mkConn (js "2") (js "b") postgres (js "app") (Some staging) (Some staging) (Some (js "g")) in
  sort_by (compareConnectionsInGroup codePointOrder) [prod; stag] = [stag; prod]
  /\ StronglySorted (fun x y => cn_env y = Some staging -> cn_env x = Some staging)
       (sort_by (compareConnectionsInGroup codePointOrder) [prod; stag]).
Proof.
  split; [vm_compute; reflexivity|].
  apply (staging_precedes_production codePointOrder). apply codePointOrder_order.
Defined.

Definition demo_column (n ty : jsstr) : Column := mkColumn n ty true false.
Definition demo_table (s : option jsstr) (n : jsstr) (cols : list Column) : Table :=
  mkTable None s n (js "table") cols [] [].

Lemma objects_in_cli_order_witness :
  let cur := mkCatalog [demo_table (Some (js "public")) (js "b") [demo_column (js "y") (js "text"); demo_column (js "x") (js "int")];
                        demo_table None (js "z") []] in
  let base := mkCatalog [demo_table (Some (js "public")) (js "b") [demo_column (js "x") (js "text")]] in
  map (fun o => (label o, status o)) (objects (computeCatalogDiff id cur base))
  = [(js "z", added); (js "x", changed); (js "y", added)]
  /\ StronglySorted (not_after cli_order) (objects (computeCatalogDiff id cur base)).
Proof.
  split; [vm_compute; reflexivity|].
  apply objects_in_cli_order; unfold catalog_units, units; vm_compute; repeat constructor.
Defined.

(** ** The memo *)

Section memo.
Context (char_lower : jsstr -> jsstr) (heap : nat -> Catalog).

Definition memo_ok (comparisons : list (nat * list (nat * SchemaDiffSummary))) : Prop :=
  forall c m b s, mget comparisons c = Some m -> mget m b = Some s ->
    s = computeCatalogDiff char_lower (heap c) (heap b).

(** The results of a sequence of calls. *)
Fixpoint compare_all (comparisons : list (nat * list (nat * SchemaDiffSummary)))
    (calls : list (nat * nat)) : list SchemaDiffSummary :=
  match calls with
  | [] => []
  | (c, b) :: calls =>
    let '(summary, comparisons) := compareCatalogs char_lower heap comparisons c b in
    summary :: compare_all comparisons calls
  end.

Lemma compareCatalogs_ok comparisons c b :
  memo_ok comparisons ->
  (compareCatalogs char_lower heap comparisons c b).1 = computeCatalogDiff char_lower (heap c) (heap b)
  /\ memo_ok (compareCatalogs char_lower heap comparisons c b).2.
Proof.
  intros Hok. unfold compareCatalogs. destruct (mget comparisons c) as [m|] eqn:Ec; cbn.
  - destruct (mget m b) as [s|] eqn:Eb; cbn; [split; [by eapply Hok|done]|]. split; [done|].
    intros c' m' b' s'. rewrite mget_set. case_decide as Hc; [|apply Hok].
    intros [= <-]. rewrite mget_set. case_decide as Hb; [intros [= <-]; by subst|].
    subst c'. by eapply Hok.
  - split; [done|]. intros c' m' b' s'. rewrite mget_set. case_decide as Hc; [|apply Hok].
    intros [= <-]. cbn. case_decide as Hb; [intros [= <-]; by subst|done].
Qed.

(** Memoizing comparisons by catalog identity is invisible: every call of any
    sequence of calls returns the difference of the two catalogs it was given. *)
Theorem memo_invisible calls :
  compare_all [] calls = map (fun cb => computeCatalogDiff char_lower (heap cb.1) (heap cb.2)) calls.
Proof.
  assert (memo_ok []) as Hok by done. revert Hok. generalize (@nil (nat * list (nat * SchemaDiffSummary))).
  induction calls as [|[c b] calls IH]; intros m Hok; cbn; [done|].
  destruct (compareCatalogs_ok m c b Hok) as [H1 H2].
  destruct (compareCatalogs _ _ _ _ _) as [s m']. cbn in *. by rewrite H1, IH.
Qed.

End memo.
