(* ===== verification/Access.v ===== *)
(** * Workspace authority

    Models [workspace-cloud/lib/workspace-permissions.ts] (roles, capabilities and the
    effective access mode of a member on a connection) and
    [workspace-cloud/lib/workspace-direct-access-core.ts] (direct database accounts:
    verifier shapes, generated identities, levels, the principal state machine and the
    parsing of a scope). Random bytes are arguments; everything is executable. *)

From S2P Require Import Prelude JsString JsMap JsValue Regex.
From Stdlib Require String.
Import Stdlib.Strings.String.StringSyntax.
Local Open Scope Z_scope.

(** ** Roles and capabilities *)

Inductive WorkspaceRoleName := viewer | analyst | editor | admin | owner.
Inductive WorkspaceCapability := wc_view | wc_read | wc_write | wc_manage | wc_delete.
Inductive WorkspaceConnectionCapability := cap_view | cap_read | cap_use | cap_manage.
(** What [accessModeForRole] and [accessModeForConnectionGrant] return. *)
Inductive AccessMode := am_view | am_read | am_write | am_manage.

#[export] Instance WorkspaceRoleName_eq_dec : EqDecision WorkspaceRoleName.
Proof. solve_decision. Defined.
#[export] Instance WorkspaceConnectionCapability_eq_dec : EqDecision WorkspaceConnectionCapability.
Proof. solve_decision. Defined.
#[export] Instance AccessMode_eq_dec : EqDecision AccessMode.
Proof. solve_decision. Defined.

Definition workspaceRoleNames : list WorkspaceRoleName := [viewer; analyst; editor; admin; owner].
Definition role_name (r : WorkspaceRoleName) : jsstr :=
  match r with
  | viewer => js "viewer" | analyst => js "analyst" | editor => js "editor"
  | admin => js "admin" | owner => js "owner"
  end.
Definition capability_name (c : WorkspaceConnectionCapability) : jsstr :=
  match c with
  | cap_view => js "view" | cap_read => js "read" | cap_use => js "use" | cap_manage => js "manage"
  end.

Definition workspaceConnectionCapabilityRank (c : WorkspaceConnectionCapability) : Z :=
  match c with cap_view => 0 | cap_read => 1 | cap_use => 2 | cap_manage => 3 end.
Definition roleRank (r : WorkspaceRoleName) : Z :=
  match r with viewer => 0 | analyst => 1 | editor => 2 | admin => 3 | owner => 4 end.
Definition requiredRank (c : WorkspaceCapability) : Z :=
  match c with
  | wc_view => roleRank viewer | wc_read => roleRank analyst | wc_write => roleRank editor
  | wc_manage => roleRank admin | wc_delete => roleRank owner
  end.

(** The predicates narrow a string; the typed reading is the [Some] case. *)
Definition isWorkspaceRole (value : jsstr) : option WorkspaceRoleName :=
  findb (fun r => role_name r ==s value) workspaceRoleNames.
Definition isWorkspaceConnectionCapability (value : jsstr) : option WorkspaceConnectionCapability :=
  findb (fun c => capability_name c ==s value) [cap_view; cap_read; cap_use; cap_manage].

Definition hasWorkspaceConnectionCapability (actual required : WorkspaceConnectionCapability) : bool :=
  workspaceConnectionCapabilityRank required <=? workspaceConnectionCapabilityRank actual.
Definition hasWorkspaceCapability (role : WorkspaceRoleName) (capability : WorkspaceCapability) : bool :=
  requiredRank capability <=? roleRank role.

Definition accessModeForRole (role : WorkspaceRoleName) : AccessMode :=
  if hasWorkspaceCapability role wc_manage then am_manage
  else if hasWorkspaceCapability role wc_write then am_write
  else if hasWorkspaceCapability role wc_read then am_read
  else am_view.

Definition accessModeForConnectionGrant (role : WorkspaceRoleName)
    (capability : WorkspaceConnectionCapability) : AccessMode :=
  if bool_decide (capability = cap_manage) && hasWorkspaceCapability role wc_manage then am_manage
  else if (bool_decide (capability = cap_use) || bool_decide (capability = cap_manage))
          && hasWorkspaceCapability role wc_write then am_write
  else if bool_decide (capability = cap_read) || bool_decide (capability = cap_use)
          || bool_decide (capability = cap_manage) then am_read
  else am_view.

Definition accessModeAllowsWrite (m : AccessMode) : bool :=
  bool_decide (m = am_write) || bool_decide (m = am_manage).

(** ** Direct database accounts *)

Inductive DirectEngine := d_postgres | d_mysql.
Inductive DirectVerifierKind := scram_sha_256 | caching_sha2.
Inductive DirectLevel := l_none | l_read | l_write.
Inductive DirectPrincipalState := requested | applying | ready | failed | drop_pending | dropped.

#[export] Instance DirectLevel_eq_dec : EqDecision DirectLevel.
Proof. solve_decision. Defined.
#[export] Instance DirectPrincipalState_eq_dec : EqDecision DirectPrincipalState.
Proof. solve_decision. Defined.

Definition DIRECT_SCOPE_MAX_ENTRIES : nat := 32.
Definition DIRECT_SCOPE_MAX_BYTES (e : DirectEngine) : nat :=
  match e with d_postgres => 63%nat | d_mysql => 64%nat end.

Definition is_hex_lower (c : N) : bool := is_digit c || between 97 102 c.
(** [\[A-Za-z0-9+/\]] *)
Definition is_base64 (c : N) : bool := is_alnum c || (c =? 43)%N || (c =? 47)%N.
(** [\[./0-9A-Za-z\]] *)
Definition is_crypt (c : N) : bool := is_alnum c || (c =? 46)%N || (c =? 47)%N.
(** [\[A-Za-z0-9_-\]] *)
Definition is_base64url (c : N) : bool := is_alnum c || (c =? 95)%N || (c =? 45)%N.
Definition one_of (cs : jsstr) (c : N) : bool := existsb (N.eqb c) cs.

Definition SCRAM_SHA_256 : re := fixed (
  chars (js "SCRAM-SHA-256$4096:") ++ replicate 21 is_base64 ++ [one_of (js "AQgw")]
  ++ chars (js "==$") ++ replicate 42 is_base64 ++ [one_of (js "AEIMQUYcgkosw048")]
  ++ chars (js "=:") ++ replicate 42 is_base64 ++ [one_of (js "AEIMQUYcgkosw048")] ++ chars (js "=")).
Definition CACHING_SHA2 : re := fixed (chars (js "$A$005$") ++ replicate 63 is_crypt).
Definition PRINCIPAL_NAME : re := fixed (chars (js "dopedb_") ++ replicate 20 is_hex_lower).
Definition MARKER : re := fixed (replicate 43 is_base64url).

Definition isDirectEngine (v : value) : option DirectEngine :=
  match v with
  | VStr s => if s ==s js "postgres" then Some d_postgres
              else if s ==s js "mysql" then Some d_mysql else None
  | _ => None
  end.

Definition verifierKindForEngine (e : DirectEngine) : DirectVerifierKind :=
  match e with d_postgres => scram_sha_256 | d_mysql => caching_sha2 end.

Definition isValidDirectVerifier (kind verifier : value) : bool :=
  match verifier, kind with
  | VStr v, VStr k =>
    if k ==s js "scram-sha-256" then test SCRAM_SHA_256 v
    else if k ==s js "caching_sha2" then test CACHING_SHA2 v else false
  | _, _ => false
  end.

Definition isValidPrincipalName (v : value) : bool :=
  match v with VStr s => test PRINCIPAL_NAME s | _ => false end.
Definition isValidPrincipalMarker (v : value) : bool :=
  match v with VStr s => test MARKER s | _ => false end.

(** [byte.toString(16).padStart(2, "0")] *)
Definition hex_digit (n : N) : N := if (n <? 10)%N then (48 + n)%N else (87 + n)%N.
Definition hex_byte (b : N) : jsstr := [hex_digit (b / 16); hex_digit (b mod 16)].
Definition generatePrincipalName (bytes : list N) : jsstr :=
  js "dopedb_" ++ concat (map hex_byte bytes).

(** [btoa] *)
Definition base64_char (n : N) : N :=
  if (n <? 26)%N then (65 + n)%N else if (n <? 52)%N then (71 + n)%N
  else if (n <? 62)%N then (n - 4)%N else if (n =? 62)%N then 43%N else 47%N.
Fixpoint btoa (bytes : list N) : jsstr :=
  match bytes with
  | [] => []
  | [a] => [base64_char (a / 4); base64_char ((a mod 4) * 16); 61%N; 61%N]
  | [a; b] => [base64_char (a / 4); base64_char ((a mod 4) * 16 + b / 16);
               base64_char ((b mod 16) * 4); 61%N]
  | a :: b :: c :: rest =>
    [base64_char (a / 4); base64_char ((a mod 4) * 16 + b / 16);
     base64_char ((b mod 16) * 4 + c / 64); base64_char (c mod 64)] ++ btoa rest
  end.

(** [s.replaceAll("+", "-").replaceAll("/", "_").replaceAll("=", "")] *)
Definition url_alphabet (s : jsstr) : jsstr :=
  filterb (fun c => negb (c =? 61)%N)
    (map (fun c => if (c =? 47)%N then 95%N else c)
      (map (fun c => if (c =? 43)%N then 45%N else c) s)).
Definition generatePrincipalMarker (bytes : list N) : jsstr := url_alphabet (btoa bytes).

(** ** Levels *)

Definition DIRECT_LEVEL_RANK (l : DirectLevel) : Z :=
  match l with l_none => 0 | l_read => 1 | l_write => 2 end.
Definition directLevelRank (l : DirectLevel) : Z := DIRECT_LEVEL_RANK l.

Definition capDirectLevel (level : DirectLevel) (cap : option DirectLevel) : DirectLevel :=
  match cap with
  | Some c => if DIRECT_LEVEL_RANK c <? DIRECT_LEVEL_RANK level then c else level
  | None => level
  end.

Definition DIRECT_PRINCIPAL_TRANSITIONS (s : DirectPrincipalState) : list DirectPrincipalState :=
  match s with
  | requested => [applying; drop_pending; dropped]
  | applying => [ready; failed; requested; drop_pending]
  | ready => [applying; requested; drop_pending]
  | failed => [requested; applying; drop_pending; dropped]
  | drop_pending => [dropped; failed]
  | dropped => []
  end.

Definition isDirectTransitionAllowed (from to : DirectPrincipalState) : bool :=
  bool_decide (from = to) || bool_decide (to ∈ DIRECT_PRINCIPAL_TRANSITIONS from).

(** The optional flags are [undefined] when left out. *)
Definition directDesiredLevel (role capability : jsstr) (writeCeiling : bool)
    (memberPresent revocationPending connectionDeleted : option bool) : DirectLevel :=
  match isWorkspaceRole role, isWorkspaceConnectionCapability capability with
  | Some r, Some c =>
    if bool_decide (memberPresent = Some false) || default false revocationPending
       || default false connectionDeleted then l_none
    else
      let accessMode := accessModeForConnectionGrant r c in
      if bool_decide (accessMode = am_view) then l_none
      else if accessModeAllowsWrite accessMode && writeCeiling then l_write else l_read
  | _, _ => l_none
  end.

(** ** Scopes *)

(** UTF-8 length of a string, as [TextEncoder] encodes it: a lone surrogate becomes
    the replacement character, three bytes. *)
Fixpoint utf8_length (s : jsstr) : nat :=
  match s with
  | [] => 0
  | c :: s' =>
    match s' with
    | d :: s'' =>
      if between 55296 56319 c && between 56320 57343 d then (4 + utf8_length s'')%nat
      else ((if (c <? 128)%N then 1 else if (c <? 2048)%N then 2 else 3) + utf8_length s')%nat
    | [] => if (c <? 128)%N then 1%nat else if (c <? 2048)%N then 2%nat else 3%nat
    end
  end.

(** [\[...s\].length] *)
Fixpoint character_count (s : jsstr) : nat :=
  match s with
  | [] => 0
  | c :: s' =>
    match s' with
    | d :: s'' =>
      if between 55296 56319 c && between 56320 57343 d then S (character_count s'')
      else S (character_count s')
    | [] => 1
    end
  end.

(** The class of control characters, quotes, backslash and percent sign. *)
Definition scope_forbidden (c : N) : bool :=
  (c <? 32)%N || (c =? 127)%N || one_of [cDQ; cBT; cSQ; cBS; 37%N] c.

(** Case folding of [/iu] on the letters of the pattern: the long s folds to s. *)
Definition fold_unicode (c : N) : N := if (c =? 383)%N then 115%N else lower_ascii c.
Definition RLitIU (s : jsstr) : re :=
  RSeqs (map (fun c => RCls (fun x => (fold_unicode x =? fold_unicode c)%N)) s).
Definition PG_RESERVED_SCHEMA : re :=
  RSeq RBol (RAlt (RLitIU (js "pg_")) (RSeq (RLitIU (js "information_schema")) REol)).
Definition MYSQL_SYSTEM_SCHEMAS : list jsstr :=
  [js "mysql"; js "information_schema"; js "performance_schema"; js "sys"].

Definition scope_entry_ok (engine : DirectEngine) (seen : list jsstr) (entry : jsstr) : bool :=
  (1 <=? length entry)%nat
  && (match engine with
      | d_postgres => utf8_length entry <=? DIRECT_SCOPE_MAX_BYTES d_postgres
      | d_mysql => character_count entry <=? DIRECT_SCOPE_MAX_BYTES d_mysql
      end)%nat
  && negb (existsb scope_forbidden entry)
  && (entry ==s trim entry)
  && negb (bool_decide (entry ∈ seen))
  && negb (match engine with
           | d_postgres => test PG_RESERVED_SCHEMA entry
           | d_mysql => bool_decide (toLowerAscii entry ∈ MYSQL_SYSTEM_SCHEMAS)
           end).

(** The loop; [None] stands for the thrown error. *)
Fixpoint scope_loop (engine : DirectEngine) (seen : list jsstr) (entries : list value) : option (list jsstr) :=
  match entries with
  | [] => Some seen
  | VStr entry :: rest =>
    if scope_entry_ok engine seen entry then scope_loop engine (sadd seen entry) rest else None
  | _ :: _ => None
  end.

Definition parseDirectScope (engine : DirectEngine) (v : value) : option (list jsstr) :=
  match v with
  | VArr entries =>
    if (length entries <? 1)%nat || (DIRECT_SCOPE_MAX_ENTRIES <? length entries)%nat then None
    else scope_loop engine [] entries
  | _ => None
  end.

(** ** Roles and modes *)

Lemma isWorkspaceRole_some s r : isWorkspaceRole s = Some r <-> s = role_name r.
Proof.
  unfold isWorkspaceRole. split.
  - intros [H _]%findb_some. by apply bool_decide_eq_true in H.
  - intros ->. by destruct r.
Qed.

Lemma isConnectionCapability_some s c :
  isWorkspaceConnectionCapability s = Some c <-> s = capability_name c.
Proof.
  unfold isWorkspaceConnectionCapability. split.
  - intros [H _]%findb_some. by apply bool_decide_eq_true in H.
  - intros ->. by destruct c.
Qed.

(** Decides a closed statement about finite types. *)
Ltac decide_closed := apply (bool_decide_unpack _); vm_compute; exact I.

(** Write authority comes from the role and the grant together. *)
Lemma grant_writes r c :
  accessModeAllowsWrite (accessModeForConnectionGrant r c) = true
  <-> r ∈ [editor; admin; owner] /\ c ∈ [cap_use; cap_manage].
Proof. destruct r, c; decide_closed. Qed.

Lemma grant_reads r c :
  accessModeForConnectionGrant r c <> am_view <-> c ∈ [cap_read; cap_use; cap_manage].
Proof. destruct r, c; decide_closed. Qed.

Lemma grant_manages r c :
  accessModeForConnectionGrant r c = am_manage <-> r ∈ [admin; owner] /\ c = cap_manage.
Proof. destruct r, c; decide_closed. Qed.

Lemma elem_of_map_inj {A B} (f : A -> B) x l : Inj eq eq f -> f x ∈ map f l <-> x ∈ l.
Proof. intros Hf. rewrite list_elem_of_fmap. naive_solver. Qed.

#[export] Instance role_name_inj : Inj eq eq role_name.
Proof. by intros [] []. Qed.
#[export] Instance capability_name_inj : Inj eq eq capability_name.
Proof. by intros [] []. Qed.

(** The facts that forbid any access. *)
Definition access_gone (memberPresent revocationPending connectionDeleted : option bool) : Prop :=
  memberPresent = Some false \/ revocationPending = Some true \/ connectionDeleted = Some true.

Lemma access_gone_spec present pending deleted :
  bool_decide (present = Some false) || default false pending || default false deleted = true
  <-> access_gone present pending deleted.
Proof. unfold access_gone. destruct present as [[]|], pending as [[]|], deleted as [[]|]; decide_closed. Qed.

(** The level a member holds on a direct database is exactly the granted one:
    write needs a live membership without pending revocation, the endpoint's write
    ceiling, an editor, admin or owner role and a [use] or [manage] grant; short of
    that, any known role with a [read], [use] or [manage] grant reads; everything else
    (a [view] grant, an unknown role or capability, a deleted connection) has none. *)
Theorem direct_level_exact role capability ceiling present pending deleted :
  let level := directDesiredLevel role capability ceiling present pending deleted in
  (level = l_write <->
     ~ access_gone present pending deleted /\ ceiling = true
     /\ role ∈ map role_name [editor; admin; owner]
     /\ capability ∈ map capability_name [cap_use; cap_manage])
  /\ (level <> l_none <->
     ~ access_gone present pending deleted
     /\ role ∈ map role_name workspaceRoleNames
     /\ capability ∈ map capability_name [cap_read; cap_use; cap_manage]).
Proof.
  cbn zeta. unfold directDesiredLevel.
  assert (forall l, role ∈ map role_name l -> is_Some (isWorkspaceRole role)) as Hknown.
  { intros l (r & -> & _)%list_elem_of_fmap. exists r. by apply isWorkspaceRole_some. }
  assert (forall l, capability ∈ map capability_name l ->
    is_Some (isWorkspaceConnectionCapability capability)) as Hknown'.
  { intros l (c & -> & _)%list_elem_of_fmap. exists c. by apply isConnectionCapability_some. }
  destruct (isWorkspaceRole role) as [r|] eqn:Hr.
  2: { split; (split; [done|]); intros H; exfalso; destruct (Hknown _ ltac:(apply H)); done. }
  destruct (isWorkspaceConnectionCapability capability) as [c|] eqn:Hc.
  2: { split; (split; [done|]); intros H; exfalso; destruct (Hknown' _ ltac:(apply H)); done. }
  apply isWorkspaceRole_some in Hr as ->. apply isConnectionCapability_some in Hc as ->.
  rewrite !(elem_of_map_inj role_name) by apply _. rewrite !(elem_of_map_inj capability_name) by apply _.
  rewrite <- access_gone_spec, not_true_iff_false, <- grant_writes, <- (grant_reads r).
  assert (r ∈ workspaceRoleNames) by (destruct r; decide_closed).
  destruct (_ || _ || _); [naive_solver|].
  destruct (bool_decide_reflect (accessModeForConnectionGrant r c = am_view)) as [->|Hview].
  - naive_solver.
  - destruct (accessModeAllowsWrite _), ceiling; cbn; naive_solver.
Qed.

(** ** Generated identities *)

Definition is_byte (b : N) : Prop := (b < 256)%N.

Lemma hex_digit_ok n : (n < 16)%N -> is_hex_lower (hex_digit n) = true.
Proof.
  intros H. unfold is_hex_lower, hex_digit, is_digit, between.
  destruct (N.ltb_spec n 10); apply orb_true_iff; [left|right]; apply andb_true_iff;
    split; apply N.leb_le; lia.
Qed.

Lemma hex_digit_inj m n : (m < 16)%N -> (n < 16)%N -> hex_digit m = hex_digit n -> m = n.
Proof. unfold hex_digit. intros. destruct (N.ltb_spec m 10), (N.ltb_spec n 10); lia. Qed.

Lemma hex_byte_inj a b : is_byte a -> is_byte b -> hex_byte a = hex_byte b -> a = b.
Proof.
  unfold is_byte, hex_byte. intros Ha Hb E.
  pose proof (f_equal head E) as Eh. pose proof (f_equal (fun l => head (tail l)) E) as El.
  cbn [head tail] in Eh, El. apply (inj Some) in Eh, El.
  apply hex_digit_inj in Eh; [|by apply N.Div0.div_lt_upper_bound..].
  apply hex_digit_inj in El; [|by apply N.mod_lt..].
  rewrite (N.div_mod a 16), (N.div_mod b 16) by done. by rewrite Eh, El.
Qed.

Lemma hex_bytes_ok bytes :
  Forall is_byte bytes ->
  Forall (fun c => is_hex_lower c = true) (concat (map hex_byte bytes))
  /\ length (concat (map hex_byte bytes)) = (2 * length bytes)%nat.
Proof.
  unfold is_byte. induction 1 as [|b bytes Hb _ [IH IHl]]; [by split|]. split.
  - cbn [map concat]. apply Forall_app. split; [|done].
    repeat constructor; apply hex_digit_ok; [by apply N.Div0.div_lt_upper_bound|by apply N.mod_lt].
  - cbn [map concat]. rewrite length_app, IHl. cbn. lia.
Qed.

Lemma hex_bytes_inj bs cs :
  Forall is_byte bs -> Forall is_byte cs ->
  concat (map hex_byte bs) = concat (map hex_byte cs) -> bs = cs.
Proof.
  intros Hb. revert cs. induction Hb as [|b bs Hb _ IH]; intros [|c cs] Hcs; [done..|].
  inversion_clear Hcs. cbn [map concat]. intros E. apply app_inj_1 in E as [E1 E2]; [|done].
  f_equal; [by apply hex_byte_inj|by apply IH].
Qed.

Definition url_char_ok (n : N) : bool :=
  let s := url_alphabet [base64_char n] in forallb is_base64url s && (length s =? 1)%nat.

Lemma base64_char_url n :
  (n < 64)%N -> Forall (fun c => is_base64url c = true) (url_alphabet [base64_char n])
  /\ length (url_alphabet [base64_char n]) = 1%nat.
Proof.
  intros H. assert (forallb url_char_ok (map N.of_nat (seq 0 64)) = true) as Hall by (vm_compute; reflexivity).
  rewrite forallb_forall in Hall. specialize (Hall n). unfold url_char_ok in Hall.
  rewrite andb_true_iff, forallb_forall, Nat.eqb_eq in Hall. destruct Hall as [Hok Hlen].
  - apply in_map_iff. exists (N.to_nat n). rewrite in_seq. lia.
  - split; [|done]. apply Forall_forall. intros c Hc. apply Hok. by apply list_elem_of_In.
Qed.

Lemma url_alphabet_app s t : url_alphabet (s ++ t) = url_alphabet s ++ url_alphabet t.
Proof. unfold url_alphabet. by rewrite !map_app, filterb_app. Qed.

(** A list of characters of 6-bit values stays that long and url-safe. *)
Lemma url_chars ns :
  Forall (fun n => (n < 64)%N) ns ->
  Forall (fun c => is_base64url c = true) (url_alphabet (map base64_char ns))
  /\ length (url_alphabet (map base64_char ns)) = length ns.
Proof.
  induction 1 as [|n ns Hn _ [IH IHl]]; [by split|].
  change (map base64_char (n :: ns)) with ([base64_char n] ++ map base64_char ns).
  rewrite url_alphabet_app. destruct (base64_char_url n Hn) as [H1 H2].
  split; [by apply Forall_app|]. rewrite length_app, H2, IHl. done.
Qed.

(** The characters of a whole marker: three bytes give four of them. *)
Lemma btoa_url bytes :
  Forall is_byte bytes ->
  Forall (fun c => is_base64url c = true) (url_alphabet (btoa bytes))
  /\ length (url_alphabet (btoa bytes)) = ((4 * length bytes + 2) / 3)%nat.
Proof.
  unfold is_byte. remember (length bytes) as n eqn:Hn. revert bytes Hn.
  induction n as [n IH] using lt_wf_ind. intros bytes -> Hb.
  assert (forall a b : N, (b < 256)%N -> (a mod 4 * 16 + b / 16 < 64)%N) as H1.
  { intros a b ?. pose proof (N.mod_lt a 4 ltac:(done)).
    assert (b / 16 < 16)%N by (by apply N.Div0.div_lt_upper_bound). lia. }
  assert (forall a b : N, (b < 256)%N -> (a mod 16 * 4 + b / 64 < 64)%N) as H2.
  { intros a b ?. pose proof (N.mod_lt a 16 ltac:(done)).
    assert (b / 64 < 4)%N by (by apply N.Div0.div_lt_upper_bound). lia. }
  assert (forall a : N, (a < 256)%N -> (a / 4 < 64)%N) as H3.
  { intros. by apply N.Div0.div_lt_upper_bound. }
  destruct bytes as [|a [|b [|c rest]]].
  - by split.
  - inversion_clear Hb as [|? ? Ha _]. pose proof (N.mod_lt a 4 ltac:(done)).
    apply (url_chars [(a / 4)%N; (a mod 4 * 16)%N]). repeat constructor; [by apply H3|lia].
  - inversion_clear Hb as [|? ? Ha Hb']. inversion_clear Hb' as [|? ? Hb _].
    pose proof (N.mod_lt b 16 ltac:(done)).
    apply (url_chars [(a / 4)%N; (a mod 4 * 16 + b / 16)%N; (b mod 16 * 4)%N]).
    repeat constructor; [by apply H3|by apply H1|lia].
  - inversion_clear Hb as [|? ? Ha Hb']. inversion_clear Hb' as [|? ? Hb Hc'].
    inversion_clear Hc' as [|? ? Hc Hrest].
    change (btoa (a :: b :: c :: rest)) with
      (map base64_char [(a / 4)%N; (a mod 4 * 16 + b / 16)%N; (b mod 16 * 4 + c / 64)%N; (c mod 64)%N]
       ++ btoa rest).
    rewrite url_alphabet_app.
    destruct (url_chars [(a / 4)%N; (a mod 4 * 16 + b / 16)%N; (b mod 16 * 4 + c / 64)%N; (c mod 64)%N])
      as [Hok Hlen]; [repeat constructor; [by apply H3|by apply H1|by apply H2|by apply N.mod_lt]|].
    destruct (IH (length rest) ltac:(cbn; lia) rest eq_refl Hrest) as [IHok IHlen].
    split; [by apply Forall_app|]. rewrite length_app, Hlen, IHlen. cbn [length].
    replace (4 * S (S (S (length rest))) + 2)%nat with (4 * length rest + 2 + 4 * 3)%nat by lia.
    rewrite Nat.div_add by done. lia.
Qed.

Lemma Forall2_replicate (p : N -> bool) n s :
  length s = n -> Forall (fun c => p c = true) s -> Forall2 (fun p c => p c = true) (replicate n p) s.
Proof. intros <-. induction 1; cbn; by constructor. Qed.

Lemma Forall2_chars s : Forall2 (fun p c => p c = true) (chars s) s.
Proof. induction s; constructor; [apply N.eqb_refl|done]. Qed.

(** What the control plane generates passes its own validators, for every outcome
    of the random source: ten bytes give a valid principal name, different bytes give
    different names, and thirty-two bytes give a valid ownership marker. *)
Theorem generated_identities_valid name_bytes marker_bytes :
  Forall is_byte name_bytes -> Forall is_byte marker_bytes ->
  length name_bytes = 10%nat -> length marker_bytes = 32%nat ->
  isValidPrincipalName (VStr (generatePrincipalName name_bytes)) = true
  /\ isValidPrincipalMarker (VStr (generatePrincipalMarker marker_bytes)) = true
  /\ forall other, Forall is_byte other ->
       generatePrincipalName other = generatePrincipalName name_bytes -> other = name_bytes.
Proof.
  intros Hn Hm Hln Hlm. split; [|split].
  - apply test_fixed. apply Forall2_app; [apply Forall2_chars|].
    destruct (hex_bytes_ok _ Hn). apply Forall2_replicate; [lia|done].
  - apply test_fixed. destruct (btoa_url _ Hm) as [Hok Hlen]. rewrite Hlm in Hlen.
    apply Forall2_replicate; [exact Hlen|done].
  - intros other Ho E. apply app_inv_head in E. by apply hex_bytes_inj in E.
Qed.

Lemma generated_identities_valid_witness :
  isValidPrincipalName (VStr (generatePrincipalName (map N.of_nat (seq 246 10)))) = true.
Proof.
  apply (generated_identities_valid (map N.of_nat (seq 246 10)) (map N.of_nat (seq 100 32)));
    [unfold is_byte; vm_compute; repeat constructor..|reflexivity|reflexivity].
Defined.

(** ** Scopes are exact *)

Lemma scope_entry_ok_seen e seen entry :
  scope_entry_ok e seen entry = scope_entry_ok e [] entry && negb (bool_decide (entry ∈ seen)).
Proof.
  unfold scope_entry_ok. rewrite (bool_decide_false (entry ∈ [])) by apply not_elem_of_nil. cbn [negb].
  destruct (bool_decide (entry ∈ seen)); cbn [negb]; by rewrite ?andb_true_r, ?andb_false_r.
Qed.

Lemma scope_loop_spec e seen entries scope :
  NoDup seen ->
  scope_loop e seen entries = Some scope
  <-> exists new, scope = seen ++ new /\ entries = map VStr new /\ NoDup scope
        /\ Forall (fun entry => scope_entry_ok e [] entry = true) new.
Proof.
  revert seen. induction entries as [|v entries IH]; intros seen Hseen; cbn.
  - split.
    + intros [= <-]. exists []. rewrite app_nil_r. by repeat constructor.
    + intros ([|? ?] & -> & ? & _); [by rewrite app_nil_r|done].
  - assert (forall P : Prop, (~ exists new, v :: entries = map VStr new) ->
      (None = Some scope <-> exists new, scope = seen ++ new /\ v :: entries = map VStr new /\ P)) as Hno.
    { intros P H. split; [done|]. intros (new & _ & E & _). destruct H. by exists new. }
    destruct v as [| | | | |entry| |];
      try (split; [done|]; intros ([|? ?] & _ & E & _); discriminate E). clear Hno.
    rewrite scope_entry_ok_seen.
    destruct (scope_entry_ok e [] entry) eqn:Hok; cbn [andb].
    2: { split; [done|]. intros ([|x new] & _ & E & _ & Hall); [done|]. injection E as -> _.
         inversion_clear Hall as [|? ? Hx _]. congruence. }
    destruct (bool_decide_reflect (entry ∈ seen)) as [Hin|Hin]; cbn [negb].
    { split; [done|]. intros ([|x new] & -> & E & Hnd & _); [done|]. injection E as -> _.
      apply NoDup_app in Hnd as (_ & Hd & _). exfalso. eapply Hd; [exact Hin|by left]. }
    rewrite IH by by apply sadd_NoDup. unfold sadd. rewrite decide_False by done. split.
    + intros (new & -> & -> & Hnd & Hall). exists (entry :: new). rewrite <- app_assoc in *. by repeat constructor.
    + intros ([|x new] & -> & E & Hnd & Hall); [done|]. injection E as -> ->. inversion_clear Hall.
      exists new. rewrite <- app_assoc. done.
Qed.

(** A scope is accepted exactly when it is an array of one to thirty-two distinct
    names, each a legal schema or database name of the engine (bounded length, trimmed,
    no quoting or control character, not a system schema), and is then kept as given. *)
Theorem scope_exact e v scope :
  parseDirectScope e v = Some scope
  <-> v = VArr (map VStr scope) /\ (1 <= length scope <= 32)%nat /\ NoDup scope
      /\ Forall (fun entry => scope_entry_ok e [] entry = true) scope.
Proof.
  unfold parseDirectScope, DIRECT_SCOPE_MAX_ENTRIES. split.
  - destruct v as [| | | | | |entries|]; try done. case_match eqn:Hl; [done|].
    apply orb_false_iff in Hl as [H1%Nat.ltb_ge H2%Nat.ltb_ge].
    intros (new & -> & -> & Hnd & Hall)%scope_loop_spec; [|constructor].
    rewrite length_map in *. by repeat split.
  - intros (-> & Hl & Hnd & Hall). rewrite length_map.
    rewrite (proj2 (Nat.ltb_ge _ _)), (proj2 (Nat.ltb_ge _ _)) by lia. cbn [orb].
    apply scope_loop_spec; [constructor|]. by exists scope.
Qed.

Example scope_examples :
  parseDirectScope d_postgres (VArr [VStr (js "app"); VStr (js "audit")]) = Some [js "app"; js "audit"]
  /\ parseDirectScope d_postgres (VArr [VStr (js "PG_toast")]) = None
  /\ parseDirectScope d_mysql (VArr [VStr (js "SYS")]) = None
  /\ parseDirectScope d_mysql (VArr [VStr (js "a"); VStr (js "a")]) = None
  /\ parseDirectScope d_mysql (VArr [VStr (js " a")]) = None.
Proof. vm_compute. done. Qed.
