(* ===== verification/RevocationGate.v ===== *)
(** * Revocation gates and managed leases

    Models [workspace-cloud/lib/revocation-gates.ts]. Each operation is one SQL
    statement, or one atomic batch, on the workspace database: it is modelled as a
    function on the tables it names, row by row with SQL's treatment of NULL (a
    comparison with NULL does not hold). Several workers run these operations in any
    order, so the clock readings and the fresh UUIDs are arguments of each operation.
    Times are milliseconds: stored timestamps are fixed-width UTC text, whose order is
    that of the times. *)

From S2P Require Import Prelude JsString Access.
From Stdlib Require String.
Import Stdlib.Strings.String.StringSyntax.
Local Open Scope Z_scope.

(** ** Tables *)

(** The three revocation columns of a member, connection or integration. *)
Record gate := mkGate {
  revocation_pending_at : option Z;
  revocation_claimed_at : option Z;
  revocation_claim_id : option jsstr }.

Record member_row := mkMember {
  m_id : jsstr; m_organization : jsstr; m_user : jsstr; m_role : jsstr; m_gate : gate }.

Record connection_row := mkConnection {
  c_id : jsstr; c_organization : jsstr; c_deletedAt : option Z; c_revision : Z;
  c_credentialMode : jsstr; c_integration : option jsstr; c_resource : option jsstr;
  c_engine : jsstr; c_provider : jsstr; c_allowWrites : bool; c_gate : gate }.

Record integration_row := mkIntegration {
  i_id : jsstr; i_organization : jsstr; i_provider : jsstr; i_generation : Z;
  i_status : jsstr; i_refreshPhase : jsstr; i_revokedAt : option Z; i_gate : gate }.

Record session_row := mkSession { s_id : jsstr; s_user : jsstr; s_expiresAt : Z }.
Record grant_row := mkGrant {
  g_organization : jsstr; g_connection : jsstr; g_member : jsstr; g_capability : jsstr }.
(** [r_write] is [json_type(capability_manifest, '$.write') = 'true']. *)
Record resource_row := mkResource {
  r_id : jsstr; r_organization : jsstr; r_provider : jsstr; r_write : bool }.
Record profile_row := mkProfile { p_organization : jsstr; p_lifecycleState : jsstr }.

Record lease_row := mkLease {
  l_id : jsstr; l_organization : jsstr; l_connection : jsstr; l_integration : jsstr;
  l_user : jsstr; l_provider : jsstr; l_accessMode : jsstr;
  l_externalId : jsstr; l_externalKind : jsstr; l_auditId : option jsstr;
  l_slot : option Z; l_expiresAt : Z; l_revokedAt : option Z }.

Record db := mkDb {
  members : list member_row; connections : list connection_row;
  integrations : list integration_row; sessions : list session_row;
  grants : list grant_row; resources : list resource_row;
  profiles : list profile_row; leases : list lease_row }.

Definition set_members (d : db) (t : list member_row) : db :=
  mkDb t (connections d) (integrations d) (sessions d) (grants d) (resources d) (profiles d) (leases d).
Definition set_connections (d : db) (t : list connection_row) : db :=
  mkDb (members d) t (integrations d) (sessions d) (grants d) (resources d) (profiles d) (leases d).
Definition set_integrations (d : db) (t : list integration_row) : db :=
  mkDb (members d) (connections d) t (sessions d) (grants d) (resources d) (profiles d) (leases d).
Definition set_leases (d : db) (t : list lease_row) : db :=
  mkDb (members d) (connections d) (integrations d) (sessions d) (grants d) (resources d) (profiles d) t.

(** [UPDATE t SET f WHERE p RETURNING ...]: the new table and the updated rows. *)
Definition sql_update {R} (p : R -> bool) (f : R -> R) (t : list R) : list R * list R :=
  (map (fun r => if p r then f r else r) t, map f (filterb p t)).

(** [column = value] on a nullable column. *)
Definition sql_eq (o : option jsstr) (s : jsstr) : bool := bool_decide (o = Some s).

(** ** Claims *)

Inductive RevocationGateTarget :=
| MemberTarget (organizationId memberId userId : jsstr)
| ConnectionTarget (organizationId connectionId : jsstr)
| IntegrationTarget (organizationId integrationId : jsstr).
#[export] Instance RevocationGateTarget_eq_dec : EqDecision RevocationGateTarget.
Proof. solve_decision. Defined.

Record RevocationGateClaim := mkClaim {
  target : RevocationGateTarget; claimId : jsstr; claimedAt : Z; pendingAt : Z;
  firstPending : bool; connectionRevision : option Z; memberRole : option WorkspaceRoleName }.

Definition REVOCATION_CLAIM_STALE_MS : Z := 5 * 60 * 1000.
Definition PENDING_LEASE_SECONDS : Z := 2 * 60.
Definition MAX_SAFE_INTEGER : Z := 9007199254740991.

Definition revocationGateLockKey (t : RevocationGateTarget) : jsstr :=
  match t with
  | MemberTarget org _ user => js "member:" ++ org ++ [cCOLON] ++ user
  | ConnectionTarget org c => js "connection:" ++ org ++ [cCOLON] ++ c
  | IntegrationTarget org i => js "integration:" ++ org ++ [cCOLON] ++ i
  end.

(** The RETURNING projection of a claim. *)
Record ClaimedRow := mkClaimedRow {
  row_pendingAt : Z; row_revision : option Z; row_role : option jsstr }.

(** [Throw] is the error "Invalid revocation gate claim". *)
Definition parsedClaim (t : RevocationGateTarget) (id : jsstr) (at_ : Z) (row : option ClaimedRow)
    : res unit (option RevocationGateClaim) :=
  match row with
  | None => Ok None
  | Some row =>
    let revision_ok := match row_revision row with
      | Some r => Z.abs r <=? MAX_SAFE_INTEGER | None => true end in
    match row_role row, revision_ok with
    | Some role, true =>
      match isWorkspaceRole role with
      | Some r => Ok (Some (mkClaim t id at_ (row_pendingAt row) (row_pendingAt row =? at_)
                              (row_revision row) (Some r)))
      | None => Throw tt
      end
    | None, true =>
      Ok (Some (mkClaim t id at_ (row_pendingAt row) (row_pendingAt row =? at_) (row_revision row) None))
    | _, false => Throw tt
    end
  end.

(** [revocation_claim_id IS NULL OR revocation_claimed_at < staleBefore] *)
Definition claimable (g : gate) (staleBefore : Z) : bool :=
  match revocation_claim_id g with
  | None => true
  | Some _ => match revocation_claimed_at g with Some t => t <? staleBefore | None => false end
  end.

Definition claimed_gate (g : gate) (at_ : Z) (id : jsstr) : gate :=
  mkGate (Some (default at_ (revocation_pending_at g))) (Some at_) (Some id).

Definition claimRevocationGate (d : db) (t : RevocationGateTarget) (now : Z) (uuid : jsstr)
    : res unit (option RevocationGateClaim) * db :=
  let staleBefore := now - REVOCATION_CLAIM_STALE_MS in
  let pending g := default 0 (revocation_pending_at g) in
  match t with
  | MemberTarget org memberId userId =>
    let '(table, rows) := sql_update
      (fun r => (m_organization r ==s org) && ((m_id r ==s memberId) && (m_user r ==s userId))
                && claimable (m_gate r) staleBefore)
      (fun r => mkMember (m_id r) (m_organization r) (m_user r) (m_role r)
                  (claimed_gate (m_gate r) now uuid)) (members d) in
    (parsedClaim t uuid now
       ((fun r => mkClaimedRow (pending (m_gate r)) None (Some (m_role r))) <$> head rows),
     set_members d table)
  | ConnectionTarget org connectionId =>
    let '(table, rows) := sql_update
      (fun r => (c_organization r ==s org)
                && ((c_id r ==s connectionId) && bool_decide (c_deletedAt r = None))
                && claimable (c_gate r) staleBefore)
      (fun r => mkConnection (c_id r) (c_organization r) (c_deletedAt r)
                  (match revocation_pending_at (c_gate r) with
                   | None => c_revision r + 1 | Some _ => c_revision r end)
                  (c_credentialMode r) (c_integration r) (c_resource r) (c_engine r) (c_provider r)
                  (c_allowWrites r) (claimed_gate (c_gate r) now uuid)) (connections d) in
    (parsedClaim t uuid now
       ((fun r => mkClaimedRow (pending (c_gate r)) (Some (c_revision r)) None) <$> head rows),
     set_connections d table)
  | IntegrationTarget org integrationId =>
    let '(table, rows) := sql_update
      (fun r => (i_organization r ==s org)
                && ((i_id r ==s integrationId) && (i_status r ==s js "active")
                    && bool_decide (i_revokedAt r = None))
                && claimable (i_gate r) staleBefore)
      (fun r => mkIntegration (i_id r) (i_organization r) (i_provider r) (i_generation r)
                  (i_status r) (i_refreshPhase r) (i_revokedAt r)
                  (claimed_gate (i_gate r) now uuid)) (integrations d) in
    (parsedClaim t uuid now
       ((fun r => mkClaimedRow (pending (i_gate r)) None None) <$> head rows),
     set_integrations d table)
  end.

Inductive claim_action := release | clear | renew.
#[export] Instance claim_action_eq_dec : EqDecision claim_action.
Proof. solve_decision. Defined.

(** What [updateClaim] returns: a boolean, or the renewed claim. *)
Inductive update_result := Flag (b : bool) | Renewed (claim : RevocationGateClaim).

Definition updated_gate (action : claim_action) (nextClaimedAt : Z) (nextClaimId : jsstr) (g : gate) : gate :=
  match action with
  | clear => mkGate None None None
  | release => mkGate (revocation_pending_at g) None None
  | renew => mkGate (revocation_pending_at g) (Some nextClaimedAt) (Some nextClaimId)
  end.

(** [revocation_pending_at IS NOT NULL AND revocation_claim_id = claimId] *)
Definition held_by (id : jsstr) (g : gate) : bool :=
  bool_decide (revocation_pending_at g <> None) && sql_eq (revocation_claim_id g) id.

Definition updateClaim (d : db) (claim : RevocationGateClaim) (action : claim_action)
    (now : Z) (uuid : jsstr) : update_result * db :=
  let next := updated_gate action now uuid in
  let '(count, d') :=
    match target claim with
    | MemberTarget org memberId userId =>
      let '(table, rows) := sql_update
        (fun r => (m_id r ==s memberId) && (m_organization r ==s org) && (m_user r ==s userId)
                  && held_by (claimId claim) (m_gate r))
        (fun r => mkMember (m_id r) (m_organization r) (m_user r) (m_role r) (next (m_gate r))) (members d) in
      (length rows, set_members d table)
    | ConnectionTarget org connectionId =>
      let '(table, rows) := sql_update
        (fun r => (c_id r ==s connectionId) && (c_organization r ==s org)
                  && bool_decide (c_deletedAt r = None) && held_by (claimId claim) (c_gate r))
        (fun r => mkConnection (c_id r) (c_organization r) (c_deletedAt r) (c_revision r)
                    (c_credentialMode r) (c_integration r) (c_resource r) (c_engine r) (c_provider r)
                    (c_allowWrites r) (next (c_gate r))) (connections d) in
      (length rows, set_connections d table)
    | IntegrationTarget org integrationId =>
      let '(table, rows) := sql_update
        (fun r => (i_id r ==s integrationId) && (i_organization r ==s org)
                  && held_by (claimId claim) (i_gate r))
        (fun r => mkIntegration (i_id r) (i_organization r) (i_provider r) (i_generation r)
                    (i_status r) (i_refreshPhase r) (i_revokedAt r) (next (i_gate r))) (integrations d) in
      (length rows, set_integrations d table)
    end in
  if negb (count =? 1)%nat then (Flag false, d')
  else if negb (bool_decide (action = renew)) then (Flag true, d')
  else (Renewed (mkClaim (target claim) uuid now (pendingAt claim) (firstPending claim)
                   (connectionRevision claim) (memberRole claim)), d').

Definition releaseRevocationGateClaim (d : db) (claim : RevocationGateClaim) (now : Z) (uuid : jsstr) :=
  updateClaim d claim release now uuid.
Definition clearRevocationGate (d : db) (claim : RevocationGateClaim) (now : Z) (uuid : jsstr) :=
  updateClaim d claim clear now uuid.
Definition renewRevocationGateClaim (d : db) (claim : RevocationGateClaim) (now : Z) (uuid : jsstr)
    : option RevocationGateClaim * db :=
  let '(r, d') := updateClaim d claim renew now uuid in
  (match r with Renewed c => Some c | Flag _ => None end, d').

(** ** Managed leases *)

Inductive ManagedAccessMode := mode_read | mode_write | mode_schema.
#[export] Instance ManagedAccessMode_eq_dec : EqDecision ManagedAccessMode.
Proof. solve_decision. Defined.
Definition mode_name (m : ManagedAccessMode) : jsstr :=
  match m with mode_read => js "read" | mode_write => js "write" | mode_schema => js "schema" end.

Record ManagedLeaseAuthority := mkAuthority {
  leaseId : jsstr; organizationId : jsstr; memberId : jsstr; userId : jsstr; sessionId : jsstr;
  role : WorkspaceRoleName; connectionId : jsstr; au_revision : Z; providerResourceId : jsstr;
  engine : jsstr; integrationId : jsstr; integrationGeneration : Z; connectionProvider : jsstr;
  provider : jsstr; accessMode : ManagedAccessMode }.

(** [column IN (names)] *)
Definition sql_in (s : jsstr) (names : list jsstr) : bool := existsb (fun n => n ==s s) names.

Definition capabilityPredicate (input : ManagedLeaseAuthority) (m : member_row) (c : connection_row)
    (i : integration_row) (r : resource_row) : bool :=
  match accessMode input with
  | mode_schema =>
    sql_in (m_role m) [js "admin"; js "owner"] && c_allowWrites c
    && sql_in (i_provider i) [js "neon"; js "gcpCloudSql"]
    && (c_engine c ==s js "postgres") && r_write r
  | mode_write => sql_in (m_role m) [js "editor"; js "admin"; js "owner"] && c_allowWrites c && r_write r
  | mode_read => sql_in (m_role m) [js "viewer"; js "analyst"; js "editor"; js "admin"; js "owner"]
  end.

Definition connectionGrantPredicate (input : ManagedLeaseAuthority) (g : grant_row) : bool :=
  (g_organization g ==s organizationId input) && (g_connection g ==s connectionId input)
  && (g_member g ==s memberId input)
  && match accessMode input with
     | mode_schema => g_capability g ==s js "manage"
     | mode_write => sql_in (g_capability g) [js "use"; js "manage"]
     | mode_read => sql_in (g_capability g) [js "read"; js "use"; js "manage"]
     end.

(** [revocation_pending_at IS NULL AND revocation_claim_id IS NULL] *)
Definition gate_open (g : gate) : bool :=
  bool_decide (revocation_pending_at g = None) && bool_decide (revocation_claim_id g = None).

Definition authorityPredicate (input : ManagedLeaseAuthority) (utcNow : Z) (s : session_row)
    (m : member_row) (c : connection_row) (g : grant_row) (i : integration_row) (r : resource_row)
    (p : profile_row) : bool :=
  (s_id s ==s sessionId input) && (s_user s ==s userId input) && (utcNow <? s_expiresAt s)
  && (m_id m ==s memberId input) && (m_organization m ==s organizationId input)
  && (m_user m ==s userId input) && (m_role m ==s role_name (role input)) && gate_open (m_gate m)
  && capabilityPredicate input m c i r && connectionGrantPredicate input g
  && (c_id c ==s connectionId input) && (c_organization c ==s organizationId input)
  && bool_decide (c_deletedAt c = None) && gate_open (c_gate c)
  && (c_credentialMode c ==s js "managed") && sql_eq (c_integration c) (integrationId input)
  && sql_eq (c_resource c) (providerResourceId input) && (c_revision c =? au_revision input)
  && (c_engine c ==s engine input) && (c_provider c ==s connectionProvider input)
  && (i_id i ==s integrationId input) && (i_organization i ==s organizationId input)
  && (i_provider i ==s provider input) && (i_generation i =? integrationGeneration input)
  && (i_status i ==s js "active") && (i_refreshPhase i ==s js "idle")
  && bool_decide (i_revokedAt i = None) && gate_open (i_gate i)
  && (r_id r ==s providerResourceId input) && (r_organization r ==s organizationId input)
  && (r_provider r ==s provider input)
  && (p_organization p ==s organizationId input) && (p_lifecycleState p ==s js "active").

(** The statement returns a row. *)
Definition durableAuthorityStatement (d : db) (input : ManagedLeaseAuthority) (utcNow : Z) : bool :=
  existsb (fun s => existsb (fun m => existsb (fun c => existsb (fun g => existsb (fun i =>
    existsb (fun r => existsb (fun p => authorityPredicate input utcNow s m c g i r p)
      (profiles d)) (resources d)) (integrations d)) (grants d)) (connections d)) (members d))
    (sessions d).

Inductive reservation := reserved | blocked | schema_busy | limit.
#[export] Instance reservation_eq_dec : EqDecision reservation.
Proof. solve_decision. Defined.

(** Live leases of one member on one connection that hold a slot. *)
Definition holds_slot (input : ManagedLeaseAuthority) (slot : Z) (l : lease_row) : bool :=
  (l_organization l ==s organizationId input) && (l_connection l ==s connectionId input)
  && (l_user l ==s userId input) && bool_decide (l_slot l = Some slot)
  && bool_decide (l_revokedAt l = None).

Definition free_slot (d : db) (input : ManagedLeaseAuthority) : option Z :=
  findb (fun slot => negb (existsb (holds_slot input slot) (leases d))) [1; 2; 3; 4; 5].

Definition schemaBusy (d : db) (input : ManagedLeaseAuthority) : bool :=
  bool_decide (accessMode input = mode_schema)
  && existsb (fun l => (l_organization l ==s organizationId input)
       && (l_connection l ==s connectionId input) && (l_accessMode l ==s js "schema")
       && bool_decide (l_revokedAt l = None)) (leases d).

Definition reserveManagedLeaseIfUnblocked (d : db) (input : ManagedLeaseAuthority) (now utcNow : Z)
    : reservation * db :=
  let allowed := durableAuthorityStatement d input utcNow in
  let busy := schemaBusy d input in
  let duplicate := existsb (fun l => l_id l ==s leaseId input) (leases d) in
  let slot := free_slot d input in
  let pendingExpiresAt := now + PENDING_LEASE_SECONDS * 1000 in
  let d' :=
    match slot with
    | Some v =>
      if allowed && negb busy && negb duplicate then
        set_leases d (leases d ++ [mkLease (leaseId input) (organizationId input) (connectionId input)
          (integrationId input) (userId input) (provider input) (mode_name (accessMode input))
          (leaseId input) (js "pending") None (Some v) pendingExpiresAt None])
      else d
    | None => d
    end in
  let status :=
    if negb allowed then blocked
    else if busy then schema_busy
    else if duplicate || bool_decide (slot = None) then limit
    else reserved in
  (status, d').

(** [expiresAt] is [None] when the provider's text is not a date. *)
Record ManagedProviderLease := mkProviderLease {
  externalCredentialId : jsstr; externalCredentialKind : jsstr; expiresAt : option Z }.

(** The lease row an authority reserved. *)
Definition own_lease (input : ManagedLeaseAuthority) (l : lease_row) : bool :=
  (l_id l ==s leaseId input) && (l_organization l ==s organizationId input)
  && (l_connection l ==s connectionId input) && (l_integration l ==s integrationId input)
  && (l_user l ==s userId input) && (l_provider l ==s provider input)
  && (l_accessMode l ==s mode_name (accessMode input)).

Definition finalizeManagedLeaseIfUnblocked (d : db) (input : ManagedLeaseAuthority)
    (lease : ManagedProviderLease) (providerAuditId : jsstr) (utcNow : Z) : bool * db :=
  match expiresAt lease with
  | None => (false, d)
  | Some expires =>
    let '(table, rows) := sql_update
      (fun l => durableAuthorityStatement d input utcNow && own_lease input l
                && (l_externalKind l ==s js "pending") && bool_decide (l_revokedAt l = None)
                && (utcNow <? l_expiresAt l) && (utcNow <? expires))
      (fun l => mkLease (l_id l) (l_organization l) (l_connection l) (l_integration l) (l_user l)
                  (l_provider l) (l_accessMode l) (externalCredentialId lease)
                  (externalCredentialKind lease) (Some providerAuditId) (l_slot l) expires (l_revokedAt l))
      (leases d) in
    ((length rows =? 1)%nat, set_leases d table)
  end.

Definition managedLeaseStillDeliverable (d : db) (input : ManagedLeaseAuthority)
    (lease : ManagedProviderLease) (providerAuditId : jsstr) (utcNow : Z) : bool :=
  match expiresAt lease with
  | None => false
  | Some expires =>
    durableAuthorityStatement d input utcNow
    && existsb (fun l => own_lease input l
         && (l_externalId l ==s externalCredentialId lease)
         && (l_externalKind l ==s externalCredentialKind lease)
         && negb (l_externalKind l ==s js "pending")
         && sql_eq (l_auditId l) providerAuditId && (l_expiresAt l =? expires)
         && (utcNow <? l_expiresAt l) && bool_decide (l_revokedAt l = None)) (leases d)
  end.
