(* ===== verification/RevocationGateInv.v ===== *)
(** * Properties of revocation gates and managed leases

    Any number of workers run the operations of [RevocationGate] in any order, and the
    rest of the control plane changes other data in between. A claim excludes every
    other worker until it goes stale; a pending gate refuses every lease until its
    holder clears it; a connection's revision fences off older authorities for good;
    live leases never exceed their slots. *)

From S2P Require Import Prelude JsString Access RevocationGate.
From Stdlib Require String.
Import Stdlib.Strings.String.StringSyntax.
Local Open Scope Z_scope.

(** ** One keyed table *)

Section table.
Context {R : Type} (key : R -> jsstr) (ident : R -> bool) (k : jsstr).
Context (ident_key : forall r, ident r = true -> key r = k).

Lemma findb_cons (p : R -> bool) r t : findb p (r :: t) = if p r then Some r else findb p t.
Proof. done. Qed.

Lemma find_updated (p : R -> bool) f t :
  (forall r, ident (f r) = ident r) ->
  findb ident (sql_update p f t).1 = (fun r => if p r then f r else r) <$> findb ident t.
Proof.
  intros Hf. induction t as [|r t IH]; [done|]. cbn [sql_update fst map] in *.
  rewrite !findb_cons. replace (ident (if p r then f r else r)) with (ident r) by (by destruct (p r)).
  destruct (ident r); [done|]. exact IH.
Qed.

(** The primary key makes the updated rows at most one. *)
Lemma updated_rows (p : R -> bool) f t :
  NoDup (map key t) -> (forall r, p r = true -> ident r = true) ->
  (sql_update p f t).2
  = match findb ident t with Some r => if p r then [f r] else [] | None => [] end.
Proof.
  intros Hnd Hp. cbn [sql_update snd]. induction t as [|r t IH]; [done|].
  apply NoDup_cons in Hnd as [Hnotin Hnd]. rewrite findb_cons. unfold filterb in *. cbn [List.filter].
  destruct (ident r) eqn:Hi.
  - assert (List.filter p t = []) as Hnone.
    { apply (filterb_none p). intros x Hx. destruct (p x) eqn:Hpx; [|done]. exfalso. apply Hnotin.
      rewrite (ident_key r Hi), <- (ident_key x (Hp x Hpx)). by apply list_elem_of_fmap_2. }
    destruct (p r); cbn; by rewrite Hnone.
  - destruct (p r) eqn:Hpr; [|by apply IH]. apply Hp in Hpr. congruence.
Qed.

Lemma updated_keys (p : R -> bool) f t :
  (forall r, key (f r) = key r) -> map key (sql_update p f t).1 = map key t.
Proof.
  intros Hf. cbn. rewrite map_map. apply map_ext. intros r. by destruct (p r).
Qed.

End table.

(** ** Gates by target *)

Definition m_ident (org id user : jsstr) (r : member_row) : bool :=
  (m_organization r ==s org) && (m_id r ==s id) && (m_user r ==s user).
Definition c_ident (org id : jsstr) (r : connection_row) : bool :=
  (c_organization r ==s org) && (c_id r ==s id).
Definition i_ident (org id : jsstr) (r : integration_row) : bool :=
  (i_organization r ==s org) && (i_id r ==s id).

(** The gate a target names. *)
Definition gate_of (d : db) (t : RevocationGateTarget) : option gate :=
  match t with
  | MemberTarget org id user => m_gate <$> findb (m_ident org id user) (members d)
  | ConnectionTarget org id => c_gate <$> findb (c_ident org id) (connections d)
  | IntegrationTarget org id => i_gate <$> findb (i_ident org id) (integrations d)
  end.

(** The target's row takes part in claims: not deleted, not revoked. *)
Definition live_target (d : db) (t : RevocationGateTarget) : bool :=
  match t with
  | MemberTarget _ _ _ => true
  | ConnectionTarget org id =>
    match findb (c_ident org id) (connections d) with
    | Some r => bool_decide (c_deletedAt r = None) | None => false end
  | IntegrationTarget org id =>
    match findb (i_ident org id) (integrations d) with
    | Some r => (i_status r ==s js "active") && bool_decide (i_revokedAt r = None) | None => false end
  end.

Definition revision_of (d : db) (org id : jsstr) : option Z :=
  c_revision <$> findb (c_ident org id) (connections d).

(** Primary keys. *)
Definition keys (d : db) : Prop :=
  NoDup (map m_id (members d)) /\ NoDup (map c_id (connections d)) /\ NoDup (map i_id (integrations d)).

Definition pending (g : gate) : Prop := revocation_pending_at g <> None.

Lemma bool_decide_eq_refl (s : jsstr) : bool_decide (s = s) = true.
Proof. by apply bool_decide_true. Qed.

Ltac split_eqs :=
  repeat match goal with
  | H : (_ && _) = true |- _ => apply andb_true_iff in H as [? ?]
  | H : bool_decide _ = true |- _ => apply bool_decide_eq_true in H
  end.

Lemma m_ident_key org id user r : m_ident org id user r = true -> m_id r = id.
Proof. unfold m_ident. intros. by split_eqs. Qed.
Lemma c_ident_key org id r : c_ident org id r = true -> c_id r = id.
Proof. unfold c_ident. intros. by split_eqs. Qed.
Lemma i_ident_key org id r : i_ident org id r = true -> i_id r = id.
Proof. unfold i_ident. intros. by split_eqs. Qed.

(** ** What the operations do to a gate *)

(** A row found under one identity is not touched by an update of another. *)
Lemma other_row {R} (ident' p : R -> bool) (f : R -> R) (g : R -> gate) t :
  (forall r, ident' r = true -> p r = false) ->
  g <$> ((fun r => if p r then f r else r) <$> findb ident' t) = g <$> findb ident' t.
Proof.
  intros H. destruct (findb ident' t) as [r|] eqn:E; [|done].
  apply findb_some in E as [E _]. cbn. by rewrite H.
Qed.

Ltac other_target :=
  apply other_row; unfold m_ident, c_ident, i_ident; intros r Hr; apply not_true_iff_false;
  intros Hp; split_eqs; congruence.

(** A row found under the identity that is updated. *)
Ltac same_target :=
  match goal with |- context [findb ?p ?t] =>
    destruct (findb p t) as [r|] eqn:E; [|done];
    apply findb_some in E as [E _]; unfold m_ident, c_ident, i_ident in E; split_eqs; cbn; f_equal;
    subst; rewrite ?bool_decide_eq_refl; cbn [andb]; by case_match
  end.

(** Opens an operation on one table: names the new table and the updated rows. *)
Ltac open_update :=
  match goal with |- context [sql_update ?p ?f ?t] =>
    rewrite (surjective_pairing (sql_update p f t)) end.

Definition claim_applies (d : db) (t : RevocationGateTarget) (now : Z) (g : gate) : bool :=
  live_target d t && claimable g (now - REVOCATION_CLAIM_STALE_MS).

Lemma claim_effect d t now u t' :
  gate_of (claimRevocationGate d t now u).2 t'
  = if decide (t' = t)
    then (fun g => if claim_applies d t now g then claimed_gate g now u else g) <$> gate_of d t
    else gate_of d t'.
Proof.
  destruct t as [org id user|org id|org id]; unfold claimRevocationGate; open_update; cbn [snd];
    destruct t' as [org' id' user'|org' id'|org' id']; cbn [gate_of set_members set_connections set_integrations members connections integrations];
    try (rewrite decide_False by done; done); rewrite find_updated by done;
    (case_decide as Ht; [injection Ht as -> -> ->|]; [|other_target]) ||
    (case_decide as Ht; [injection Ht as -> ->|]; [|other_target]);
    unfold claim_applies, live_target; same_target.
Qed.

Definition update_applies (d : db) (claim : RevocationGateClaim) (g : gate) : bool :=
  match target claim with
  | ConnectionTarget _ _ => live_target d (target claim)
  | _ => true
  end && held_by (claimId claim) g.

Lemma update_snd d claim action now u :
  (updateClaim d claim action now u).2 =
  match target claim with
  | MemberTarget org memberId userId => set_members d (sql_update
        (fun r => (m_id r ==s memberId) && (m_organization r ==s org) && (m_user r ==s userId)
                  && held_by (claimId claim) (m_gate r))
        (fun r => mkMember (m_id r) (m_organization r) (m_user r) (m_role r)
           (updated_gate action now u (m_gate r))) (members d)).1
  | ConnectionTarget org connectionId => set_connections d (sql_update
        (fun r => (c_id r ==s connectionId) && (c_organization r ==s org)
                  && bool_decide (c_deletedAt r = None) && held_by (claimId claim) (c_gate r))
        (fun r => mkConnection (c_id r) (c_organization r) (c_deletedAt r) (c_revision r)
                    (c_credentialMode r) (c_integration r) (c_resource r) (c_engine r) (c_provider r)
                    (c_allowWrites r) (updated_gate action now u (c_gate r))) (connections d)).1
  | IntegrationTarget org integrationId => set_integrations d (sql_update
        (fun r => (i_id r ==s integrationId) && (i_organization r ==s org)
                  && held_by (claimId claim) (i_gate r))
        (fun r => mkIntegration (i_id r) (i_organization r) (i_provider r) (i_generation r)
                    (i_status r) (i_refreshPhase r) (i_revokedAt r)
                    (updated_gate action now u (i_gate r))) (integrations d)).1
  end.
Proof.
  unfold updateClaim. destruct (target claim); open_update; cbn zeta iota;
    case_match; [done|case_match; done|done|case_match; done|done|case_match; done].
Qed.

Lemma update_effect d claim action now u t' :
  gate_of (updateClaim d claim action now u).2 t'
  = if decide (t' = target claim)
    then (fun g => if update_applies d claim g then updated_gate action now u g else g)
           <$> gate_of d (target claim)
    else gate_of d t'.
Proof.
  rewrite update_snd. unfold update_applies.
  destruct (target claim) as [org id user|org id|org id];
    destruct t' as [org' id' user'|org' id'|org' id']; cbn [gate_of set_members set_connections set_integrations members connections integrations];
    try (rewrite decide_False by done; done); rewrite find_updated by done;
    (case_decide as Ht; [injection Ht as -> -> ->|]; [|other_target]) ||
    (case_decide as Ht; [injection Ht as -> ->|]; [|other_target]);
    unfold live_target; same_target.
Qed.

(** ** What the operations return *)

(** Opens an operation whose updated rows are at most the identified one. *)
Ltac open_rows key_lemma Hk :=
  open_update; cbn [fst snd];
  erewrite (updated_rows _ _ _ key_lemma) by
    (first [exact Hk | intros r Hr; unfold m_ident, c_ident, i_ident; split_eqs; subst;
      by rewrite ?bool_decide_eq_refl]).

Lemma parsed_some t u now row c :
  parsedClaim t u now row = Ok (Some c) ->
  exists r, row = Some r /\ target c = t /\ claimId c = u /\ claimedAt c = now
    /\ pendingAt c = row_pendingAt r /\ connectionRevision c = row_revision r
    /\ firstPending c = (row_pendingAt r =? now).
Proof.
  unfold parsedClaim. destruct row as [r|]; [|done]. intros H. exists r.
  destruct (match row_revision r with Some _ => _ | None => _ end), (row_role r) as [role|];
    try done; try destruct (isWorkspaceRole role); try done;
    injection H as <-; repeat split.
Qed.

Lemma claim_ok d t now u c :
  keys d -> (claimRevocationGate d t now u).1 = Ok (Some c) ->
  target c = t /\ claimId c = u /\ claimedAt c = now
  /\ exists g, gate_of d t = Some g /\ claim_applies d t now g = true
       /\ pendingAt c = default now (revocation_pending_at g)
       /\ firstPending c = (default now (revocation_pending_at g) =? now)
       /\ match t with
          | ConnectionTarget org id =>
            exists v, revision_of d org id = Some v
              /\ connectionRevision c = Some (if bool_decide (revocation_pending_at g = None) then v + 1 else v)
          | _ => connectionRevision c = None
          end.
Proof.
  intros (Hm & Hc & Hi).
  destruct t as [org id user|org id|org id]; unfold claimRevocationGate;
    [open_rows (m_ident_key org id user) Hm|open_rows (c_ident_key org id) Hc|open_rows (i_ident_key org id) Hi];
    intros (row & Hrow & Ht & Hu & Hn & Hp & Hr & Hf)%parsed_some;
    (split; [done|split; [done|split; [done|]]]);
    unfold gate_of, revision_of, claim_applies, live_target.
  - destruct (findb _ _) as [r|] eqn:E; [|done]. case_match eqn:Hcond; [|done].
    split_eqs. injection Hrow as <-. cbn in *. by exists (m_gate r).
  - destruct (findb _ _) as [r|] eqn:E; [|done]. case_match eqn:Hcond; [|done].
    split_eqs. injection Hrow as <-. cbn in *. exists (c_gate r).
    rewrite bool_decide_true by done. split; [done|split; [done|split; [done|split; [done|]]]].
    exists (c_revision r). split; [done|]. rewrite Hr. by destruct (revocation_pending_at (c_gate r)).
  - destruct (findb _ _) as [r|] eqn:E; [|done]. case_match eqn:Hcond; [|done].
    split_eqs. injection Hrow as <-. cbn in *. exists (i_gate r).
    by rewrite !bool_decide_true by done.
Qed.

Lemma update_result_spec d c action now u :
  keys d ->
  (updateClaim d c action now u).1 =
  match gate_of d (target c) with
  | Some g =>
    if update_applies d c g then
      match action with
      | renew => Renewed (mkClaim (target c) u now (pendingAt c) (firstPending c)
                            (connectionRevision c) (memberRole c))
      | _ => Flag true
      end
    else Flag false
  | None => Flag false
  end.
Proof.
  intros (Hm & Hc & Hi). unfold updateClaim, update_applies, gate_of, live_target.
  destruct (target c) as [org id user|org id|org id];
    [open_rows (m_ident_key org id user) Hm|open_rows (c_ident_key org id) Hc|open_rows (i_ident_key org id) Hi];
    match goal with |- context [findb ?p ?t] => destruct (findb p t) as [r|] eqn:E; [|done] end;
    apply findb_some in E as [E _]; unfold m_ident, c_ident, i_ident in E; split_eqs; subst;
    cbn; rewrite ?bool_decide_eq_refl; cbn [andb];
    match goal with |- context [held_by ?a ?b] => destruct (held_by a b) end;
    rewrite ?andb_true_r, ?andb_false_r; cbn; try (by destruct action);
    case_bool_decide; cbn; by destruct action.
Qed.

Lemma claim_none d t now u :
  keys d -> (forall g, gate_of d t = Some g -> claim_applies d t now g = false) ->
  (claimRevocationGate d t now u).1 = Ok None.
Proof.
  intros (Hm & Hc & Hi) H. unfold gate_of, claim_applies, live_target in H.
  destruct t as [org id user|org id|org id]; unfold claimRevocationGate;
    [open_rows (m_ident_key org id user) Hm|open_rows (c_ident_key org id) Hc|open_rows (i_ident_key org id) Hi];
    destruct (findb _ _) as [r|] eqn:E; try done; specialize (H _ eq_refl);
    apply findb_some in E as [E _]; unfold m_ident, c_ident, i_ident in E; split_eqs; subst;
    rewrite ?bool_decide_eq_refl; cbn [andb] in *; by rewrite H.
Qed.

(** ** What the operations leave alone *)

Lemma claim_keys d t now u : keys d -> keys (claimRevocationGate d t now u).2.
Proof.
  intros (? & ? & ?). destruct t; unfold claimRevocationGate; open_update;
    cbn [snd]; (split; [|split]); cbn [members connections integrations set_members set_connections set_integrations];
    try done; by rewrite updated_keys.
Qed.

Lemma update_keys d c action now u : keys d -> keys (updateClaim d c action now u).2.
Proof.
  intros (? & ? & ?). rewrite update_snd. destruct (target c); (split; [|split]);
    cbn [members connections integrations set_members set_connections set_integrations];
    try done; by rewrite updated_keys.
Qed.

Lemma find_live_connections d org id (p : connection_row -> bool) f :
  (forall r, c_ident org id (f r) = c_ident org id r) -> (forall r, c_deletedAt (f r) = c_deletedAt r) ->
  match findb (c_ident org id) (sql_update p f (connections d)).1 with
  | Some r => bool_decide (c_deletedAt r = None) | None => false end
  = match findb (c_ident org id) (connections d) with
    | Some r => bool_decide (c_deletedAt r = None) | None => false end.
Proof.
  intros H Hd. rewrite find_updated by done. destruct (findb _ _); cbn; [|done].
  case_match; [|done]. apply bool_decide_ext. by rewrite Hd.
Qed.

Lemma find_live_integrations d org id (p : integration_row -> bool) f :
  (forall r, i_ident org id (f r) = i_ident org id r) ->
  (forall r, i_status (f r) = i_status r) -> (forall r, i_revokedAt (f r) = i_revokedAt r) ->
  match findb (i_ident org id) (sql_update p f (integrations d)).1 with
  | Some r => (i_status r ==s js "active") && bool_decide (i_revokedAt r = None) | None => false end
  = match findb (i_ident org id) (integrations d) with
    | Some r => (i_status r ==s js "active") && bool_decide (i_revokedAt r = None) | None => false end.
Proof.
  intros H Hs Hr. rewrite find_updated by done. destruct (findb _ _); cbn; [|done].
  case_match; [|done]. f_equal; apply bool_decide_ext; by rewrite ?Hs, ?Hr.
Qed.

Lemma claim_live d t now u t' : live_target (claimRevocationGate d t now u).2 t' = live_target d t'.
Proof.
  destruct t; unfold claimRevocationGate; open_update; cbn [snd];
    destruct t'; cbn [live_target connections integrations set_members set_connections set_integrations];
    try done; [by apply find_live_connections|by apply find_live_integrations].
Qed.

Lemma update_live d c action now u t' : live_target (updateClaim d c action now u).2 t' = live_target d t'.
Proof.
  rewrite update_snd. destruct (target c);
    destruct t'; cbn [live_target connections integrations set_members set_connections set_integrations];
    try done; [by apply find_live_connections|by apply find_live_integrations].
Qed.

(** Revisions only grow, by the first claim of a pending period. *)
Lemma claim_revision d t now u org id v :
  revision_of d org id = Some v ->
  exists v', revision_of (claimRevocationGate d t now u).2 org id = Some v' /\ v <= v'.
Proof.
  unfold revision_of. intros H.
  destruct t; unfold claimRevocationGate; open_update; cbn [snd connections set_members set_connections set_integrations];
    try by exists v. rewrite find_updated by done. destruct (findb _ _) as [r|]; [|done].
  injection H as <-. cbn. eexists; split; [done|]. case_match; cbn; [case_match; lia|lia].
Qed.

Lemma update_revision d c action now u org id :
  revision_of (updateClaim d c action now u).2 org id = revision_of d org id.
Proof.
  unfold revision_of. rewrite update_snd.
  destruct (target c); cbn [connections set_members set_connections set_integrations]; try done.
  rewrite find_updated by done. destruct (findb _ _) as [r|]; [|done]. cbn. by case_match.
Qed.

(** ** Interleavings *)

Inductive event :=
| EClaim (t : RevocationGateTarget) (now : Z) (uuid : jsstr)
| EUpdate (claim : RevocationGateClaim) (action : claim_action) (now : Z) (uuid : jsstr)
| EReserve (input : ManagedLeaseAuthority) (now utcNow : Z)
| EFinalize (input : ManagedLeaseAuthority) (lease : ManagedProviderLease) (audit : jsstr) (utcNow : Z).

Definition run1 (d : db) (e : event) : db :=
  match e with
  | EClaim t now uuid => (claimRevocationGate d t now uuid).2
  | EUpdate claim action now uuid => (updateClaim d claim action now uuid).2
  | EReserve input now utcNow => (reserveManagedLeaseIfUnblocked d input now utcNow).2
  | EFinalize input lease audit utcNow => (finalizeManagedLeaseIfUnblocked d input lease audit utcNow).2
  end.
Definition run (d : db) (es : list event) : db := foldl run1 d es.

(** Lease operations write leases only. *)
Lemma reserve_frame d input now utc :
  exists t, (reserveManagedLeaseIfUnblocked d input now utc).2 = set_leases d t.
Proof.
  assert (d = set_leases d (leases d)) as Hid by by destruct d.
  unfold reserveManagedLeaseIfUnblocked. cbn [snd]. destruct (free_slot d input); [|by eexists].
  case_match; by eexists.
Qed.

Lemma finalize_frame d input lease audit utc :
  exists t, (finalizeManagedLeaseIfUnblocked d input lease audit utc).2 = set_leases d t.
Proof.
  assert (d = set_leases d (leases d)) as Hid by by destruct d.
  unfold finalizeManagedLeaseIfUnblocked. destruct (expiresAt lease); [|by eexists].
  open_update. by eexists.
Qed.

Lemma run1_keys d e : keys d -> keys (run1 d e).
Proof.
  intros H. destruct e; cbn [run1]; [by apply claim_keys|by apply update_keys| |].
  - by destruct (reserve_frame d input now utcNow) as [t ->].
  - by destruct (finalize_frame d input lease audit utcNow) as [t ->].
Qed.

Lemma run1_live d e t : live_target (run1 d e) t = live_target d t.
Proof.
  destruct e; cbn [run1]; [by apply claim_live|by apply update_live| |].
  - by destruct (reserve_frame d input now utcNow) as [x ->], t.
  - by destruct (finalize_frame d input lease audit utcNow) as [x ->], t.
Qed.

Lemma run1_gate d e t :
  gate_of (run1 d e) t =
  match e with
  | EClaim t' now u =>
    if decide (t = t') then (fun g => if claim_applies d t now g then claimed_gate g now u else g) <$> gate_of d t
    else gate_of d t
  | EUpdate c action now u =>
    if decide (t = target c) then (fun g => if update_applies d c g then updated_gate action now u g else g) <$> gate_of d t
    else gate_of d t
  | _ => gate_of d t
  end.
Proof.
  destruct e; cbn [run1].
  - rewrite claim_effect. by case_decide; subst.
  - rewrite update_effect. by case_decide; subst.
  - by destruct (reserve_frame d input now utcNow) as [x ->], t.
  - by destruct (finalize_frame d input lease audit utcNow) as [x ->], t.
Qed.

Lemma run1_revision d e org id v :
  revision_of d org id = Some v -> exists v', revision_of (run1 d e) org id = Some v' /\ v <= v'.
Proof.
  intros H. destruct e; cbn [run1]; [by apply claim_revision|rewrite update_revision; eauto with lia| |].
  - destruct (reserve_frame d input now utcNow) as [x ->]. exists v. split; [done|lia].
  - destruct (finalize_frame d input lease audit utcNow) as [x ->]. exists v. split; [done|lia].
Qed.

(** ** A claim excludes the others *)

(** What another worker may do: claim with its own clock, at most five minutes after
    [since], and update gates with tokens other than [u]. *)
Definition by_others (u : jsstr) (since : Z) (e : event) : Prop :=
  match e with
  | EClaim _ now _ => now <= since + REVOCATION_CLAIM_STALE_MS
  | EUpdate c _ _ _ => claimId c <> u
  | _ => True
  end.

(** The gate is held with token [u] since [since], and its row takes part in claims. *)
Definition holding (d : db) (t : RevocationGateTarget) (u : jsstr) (since : Z) : Prop :=
  keys d /\ live_target d t = true
  /\ exists g, gate_of d t = Some g /\ pending g
       /\ revocation_claimed_at g = Some since /\ revocation_claim_id g = Some u.

Lemma claim_holds d t now u c :
  keys d -> (claimRevocationGate d t now u).1 = Ok (Some c) ->
  holding (claimRevocationGate d t now u).2 t u now /\ target c = t /\ claimId c = u.
Proof.
  intros Hk Hok. pose proof (claim_ok _ _ _ _ _ Hk Hok) as (Ht & Hu & _ & g & Hg & Ha & _).
  split; [|done]. split; [by apply claim_keys|]. rewrite claim_live.
  unfold claim_applies in Ha. apply andb_true_iff in Ha as [Hl Hc]. split; [done|].
  rewrite claim_effect, decide_True, Hg by done. cbn [fmap option_fmap option_map].
  unfold claim_applies. rewrite Hl, Hc. cbn.
  eexists. split; [done|]. unfold pending. cbn. done.
Qed.

Lemma holding_step d t u since e :
  holding d t u since -> by_others u since e -> holding (run1 d e) t u since.
Proof.
  intros (Hk & Hl & g & Hg & Hp & Ha & Hu) He.
  split; [by apply run1_keys|]. rewrite run1_live. split; [done|]. exists g. split; [|done].
  rewrite run1_gate. destruct e as [t' now u'|c action now u'| |]; try done; cbn in He.
  - case_decide; [|done]. rewrite Hg. cbn. unfold claim_applies, claimable. rewrite Hu, Ha.
    rewrite (proj2 (Z.ltb_ge _ _)) by lia. by rewrite andb_false_r.
  - case_decide; [|done]. rewrite Hg. cbn. unfold update_applies, held_by, sql_eq. rewrite Hu.
    rewrite (bool_decide_false (Some u = Some (claimId c))) by congruence. by rewrite !andb_false_r.
Qed.

Lemma holding_run d t u since es :
  holding d t u since -> Forall (by_others u since) es -> holding (run d es) t u since.
Proof.
  intros H Hes. revert d H. induction Hes as [|e es He _ IH]; intros d H; cbn; [done|].
  by apply IH, holding_step.
Qed.

(** C6: Claims are exclusive. After a successful claim, whatever other workers do for
    five minutes (by their clocks) and in any order, claims of the same target return
    nothing, and the holder's own release, clear or renewal still succeeds. *)
Theorem claim_is_exclusive d t now u c es :
  keys d -> (claimRevocationGate d t now u).1 = Ok (Some c) ->
  Forall (by_others u now) es ->
  let d' := run (claimRevocationGate d t now u).2 es in
  (forall now' u', now' <= now + REVOCATION_CLAIM_STALE_MS ->
     (claimRevocationGate d' t now' u').1 = Ok None)
  /\ forall action now' u', (updateClaim d' c action now' u').1 <> Flag false.
Proof.
  intros Hk Hok Hes d'. destruct (claim_holds _ _ _ _ _ Hk Hok) as (Hh & Ht & Hu).
  pose proof (holding_run _ _ _ _ _ Hh Hes) as (Hk' & Hl & g & Hg & Hp & Ha & Hid).
  fold d' in Hk', Hl, Hg. split.
  - intros now' u' Hnow. apply claim_none; [done|]. intros g'. rewrite Hg. intros [= <-].
    unfold claim_applies, claimable. rewrite Hid, Ha, (proj2 (Z.ltb_ge _ _)) by lia.
    by rewrite andb_false_r.
  - intros action now' u'. rewrite update_result_spec, Ht, Hg by done.
    unfold update_applies, held_by, sql_eq. rewrite Ht, Hl, Hid, Hu.
    rewrite (bool_decide_true (revocation_pending_at g <> None)) by done.
    rewrite bool_decide_true by done. destruct t; by destruct action.
Qed.

(** ** A pending gate refuses leases *)

(** What the rest of the control plane may do to the data meanwhile: anything that
    leaves the gate of [t] as it is or removes its row, and does not lower the
    revision of a connection. *)
Definition undisturbed (t : RevocationGateTarget) (d d' : db) : Prop :=
  keys d' /\ (gate_of d' t = gate_of d t \/ gate_of d' t = None)
  /\ forall org id v', revision_of d' org id = Some v' ->
       t = ConnectionTarget org id -> exists v, revision_of d org id = Some v /\ v <= v'.

Inductive trace (t : RevocationGateTarget) : db -> list event -> db -> Prop :=
| trace_nil d : trace t d [] d
| trace_op d e es d' : trace t (run1 d e) es d' -> trace t d (e :: es) d'
| trace_other d d1 es d' : undisturbed t d d1 -> trace t d1 es d' -> trace t d es d'.

(** The targets a lease authority depends on. *)
Definition depends_on (input : ManagedLeaseAuthority) (t : RevocationGateTarget) : Prop :=
  t = MemberTarget (organizationId input) (memberId input) (userId input)
  \/ t = ConnectionTarget (organizationId input) (connectionId input)
  \/ t = IntegrationTarget (organizationId input) (integrationId input).

(** Every lease operation of [input] is refused. *)
Definition refused (d : db) (input : ManagedLeaseAuthority) : Prop :=
  forall now utc lease audit,
    reserveManagedLeaseIfUnblocked d input now utc = (blocked, d)
    /\ finalizeManagedLeaseIfUnblocked d input lease audit utc = (false, d)
    /\ managedLeaseStillDeliverable d input lease audit utc = false.

Lemma refused_without_authority d input :
  (forall utc, durableAuthorityStatement d input utc = false) -> refused d input.
Proof.
  intros H now utc lease audit. split; [|split].
  - unfold reserveManagedLeaseIfUnblocked. rewrite H. by destruct (free_slot d input).
  - unfold finalizeManagedLeaseIfUnblocked. destruct (expiresAt lease) as [x|]; [|done].
    rewrite H. cbn [andb sql_update]. rewrite filterb_none by done. cbn.
    rewrite map_id. by destruct d.
  - unfold managedLeaseStillDeliverable. destruct (expiresAt lease); [|done]. by rewrite H.
Qed.

(** The rows an authority was checked against. *)
Lemma authority_rows d input utc :
  durableAuthorityStatement d input utc = true ->
  exists s m c g i r p, m ∈ members d /\ c ∈ connections d /\ g ∈ grants d /\ i ∈ integrations d
    /\ authorityPredicate input utc s m c g i r p = true.
Proof.
  unfold durableAuthorityStatement.
  repeat setoid_rewrite existsb_exists. setoid_rewrite <- list_elem_of_In.
  intros (s & _ & m & ? & c & ? & g & ? & i & ? & r & _ & p & _ & ?). naive_solver.
Qed.

Lemma find_unique {R} (key : R -> jsstr) (ident : R -> bool) k t r :
  (forall r, ident r = true -> key r = k) -> NoDup (map key t) -> r ∈ t -> ident r = true ->
  findb ident t = Some r.
Proof.
  intros Hk Hnd Hin Hi. induction t as [|x t IH]; [by apply elem_of_nil in Hin|].
  apply NoDup_cons in Hnd as [Hnotin Hnd]. rewrite findb_cons.
  apply elem_of_cons in Hin as [->|Hin]; [by rewrite Hi|].
  destruct (ident x) eqn:Hx; [|by apply IH]. exfalso. apply Hnotin.
  rewrite (Hk x Hx), <- (Hk r Hi). by apply list_elem_of_fmap_2.
Qed.

(** An authority needs every gate it depends on open, and the current revision. *)
Lemma authority_open d input utc t :
  keys d -> durableAuthorityStatement d input utc = true -> depends_on input t ->
  exists g, gate_of d t = Some g /\ gate_open g = true.
Proof.
  intros (Hm & Hc & Hi) (s & m & c & g & i & r & p & Hm' & Hc' & _ & Hi' & Ha)%authority_rows Hd.
  unfold authorityPredicate in Ha. split_eqs. destruct Hd as [->|[->| ->]]; cbn.
  - rewrite (find_unique m_id _ (memberId input) _ m (m_ident_key _ _ _) Hm Hm'); [by exists (m_gate m)|].
    unfold m_ident. by rewrite !bool_decide_true.
  - rewrite (find_unique c_id _ (connectionId input) _ c (c_ident_key _ _) Hc Hc'); [by exists (c_gate c)|].
    unfold c_ident. by rewrite !bool_decide_true.
  - rewrite (find_unique i_id _ (integrationId input) _ i (i_ident_key _ _) Hi Hi'); [by exists (i_gate i)|].
    unfold i_ident. by rewrite !bool_decide_true.
Qed.

Lemma authority_revision d input utc :
  keys d -> durableAuthorityStatement d input utc = true ->
  revision_of d (organizationId input) (connectionId input) = Some (au_revision input).
Proof.
  intros (Hm & Hc & Hi) (s & m & c & g & i & r & p & Hm' & Hc' & _ & Hi' & Ha)%authority_rows.
  unfold authorityPredicate in Ha. split_eqs. unfold revision_of.
  rewrite (find_unique c_id _ (connectionId input) _ c (c_ident_key _ _) Hc Hc').
  - cbn. f_equal. by apply Z.eqb_eq.
  - unfold c_ident. by rewrite !bool_decide_true.
Qed.

(** The gate of [t] is pending or its row is gone. *)
Definition shut (d : db) (t : RevocationGateTarget) : Prop :=
  keys d /\ forall g, gate_of d t = Some g -> pending g.

Definition not_cleared (t : RevocationGateTarget) (e : event) : Prop :=
  match e with EUpdate c clear _ _ => target c <> t | _ => True end.

Lemma shut_step d t e : shut d t -> not_cleared t e -> shut (run1 d e) t.
Proof.
  intros [Hk Hs] He. split; [by apply run1_keys|]. intros g. rewrite run1_gate.
  destruct e as [t' now u|c action now u| |]; try apply Hs; (case_decide; [|apply Hs]);
    (destruct (gate_of d t) as [g0|]; [|done]); intros [= <-]; specialize (Hs _ eq_refl).
  - case_match; [done|exact Hs].
  - case_match; [|exact Hs]. destruct action; [exact Hs| |exact Hs]. by destruct He.
Qed.

Lemma shut_trace d t es d' : trace t d es d' -> shut d t -> Forall (not_cleared t) es -> shut d' t.
Proof.
  induction 1 as [d|d e es d' Htr IH|d d1 es d' (Hk & Hg & _) Htr IH]; intros Hs Hes; [done| |].
  - inversion_clear Hes. apply IH; [by apply shut_step|done].
  - apply IH; [|done]. split; [done|]. intros g Hg'. destruct Hg as [E|E]; [|congruence].
    apply Hs. by rewrite <- E.
Qed.

(** C5: A revocation fences off leases from its claim until its gate is cleared: in
    every interleaving with other workers and other changes of the data in which no
    clear of the target is issued, no lease that depends on the revoked member,
    connection or integration is reserved, made final or found deliverable, even when
    the claim is released, goes stale or is taken over. *)
Theorem pending_gate_refuses_leases d t now u c es d' input :
  keys d -> (claimRevocationGate d t now u).1 = Ok (Some c) ->
  trace t (claimRevocationGate d t now u).2 es d' ->
  Forall (not_cleared t) es -> depends_on input t -> refused d' input.
Proof.
  intros Hk Hok Htr Hes Hdep.
  destruct (claim_holds _ _ _ _ _ Hk Hok) as ((Hk' & _ & g & Hg & Hp & _) & _).
  destruct (shut_trace _ _ _ _ Htr) as [Hk'' Hs]; [|done|].
  { split; [done|]. intros g' Hg'. by replace g' with g by congruence. }
  apply refused_without_authority. intros utc. apply not_true_iff_false. intros Ha.
  destruct (authority_open _ _ _ _ Hk'' Ha Hdep) as (g' & Hg' & Ho).
  unfold gate_open in Ho. split_eqs. by destruct (Hs _ Hg').
Qed.

(** ** The revision of a connection is a fence for good *)

Lemma revision_trace org id d es d' w :
  trace (ConnectionTarget org id) d es d' -> keys d ->
  (forall v, revision_of d org id = Some v -> w <= v) ->
  keys d' /\ forall v, revision_of d' org id = Some v -> w <= v.
Proof.
  induction 1 as [d|d e es d' Htr IH|d d1 es d' (Hk1 & _ & Hr) Htr IH]; intros Hk Hw; [done| |].
  - apply IH; [by apply run1_keys|]. intros v' Hv'.
    destruct (revision_of d org id) as [v|] eqn:Ev.
    + destruct (run1_revision d e _ _ _ Ev) as (x & Hx & ?). specialize (Hw v eq_refl).
      rewrite Hx in Hv'. injection Hv' as <-. lia.
    + exfalso. unfold revision_of in *. revert Hv'.
      pose proof (proj1 (fmap_None _ _) Ev) as En.
      destruct e as [t now u|c action now u|input now utc|input lease audit utc]; cbn [run1].
      * destruct t; unfold claimRevocationGate; open_update;
          cbn [snd connections set_members set_connections set_integrations]; rewrite ?find_updated, En by done; done.
      * rewrite update_snd. destruct (target c); cbn [connections set_members set_connections set_integrations];
          rewrite ?find_updated, En by done; done.
      * destruct (reserve_frame d input now utc) as [x ->]. cbn [connections set_leases]. by rewrite En.
      * destruct (finalize_frame d input lease audit utc) as [x ->]. cbn [connections set_leases]. by rewrite En.
  - apply IH; [done|]. intros v' Hv'. destruct (Hr _ _ _ Hv' eq_refl) as (v & Hv & ?).
    specialize (Hw v Hv). lia.
Qed.

(** C9: Claiming a connection's gate for the first time invalidates every lease
    authority granted before it, for good: whatever happens afterwards, including the
    end of the revocation, an authority that names an earlier revision is refused. *)
Theorem revision_fences_old_authorities d org id now u c es d' input old :
  keys d -> (claimRevocationGate d (ConnectionTarget org id) now u).1 = Ok (Some c) ->
  revision_of d org id = Some old ->
  (forall g, gate_of d (ConnectionTarget org id) = Some g -> revocation_pending_at g = None) ->
  trace (ConnectionTarget org id) (claimRevocationGate d (ConnectionTarget org id) now u).2 es d' ->
  organizationId input = org -> connectionId input = id -> au_revision input <= old ->
  connectionRevision c = Some (old + 1) /\ refused d' input.
Proof.
  intros Hk Hok Hold Hfirst Htr <- <- Hau.
  destruct (claim_ok _ _ _ _ _ Hk Hok) as (_ & _ & _ & g & Hg & Ha & _ & _ & v & Hv & Hrev).
  assert (v = old) as -> by congruence.
  rewrite bool_decide_true in Hrev by by apply Hfirst. split; [done|].
  destruct (revision_trace _ _ _ _ _ (old + 1) Htr) as [Hk' Hw]; [by apply claim_keys| |].
  - intros v' Hv'. unfold claimRevocationGate in Hv'.
    rewrite (surjective_pairing (sql_update _ _ _)) in Hv'. unfold revision_of in Hv', Hold.
    cbn [snd connections set_connections] in Hv'. rewrite find_updated in Hv' by done.
    unfold claim_applies, live_target in Ha. specialize (Hfirst _ Hg). unfold gate_of in Hg.
    destruct (findb _ _) as [r|] eqn:E; [|done]. apply findb_some in E as [E _].
    unfold c_ident in E. split_eqs. injection Hg as <-. injection Hold as Hold. cbn in Hv'.
    match goal with Hc : claimable _ _ = true |- _ => rewrite !bool_decide_true, Hc in Hv' by done end.
    cbn in Hv'. rewrite Hfirst in Hv'.
    injection Hv' as <-. lia.
  - apply refused_without_authority. intros utc. apply not_true_iff_false. intros Hauth.
    apply authority_revision in Hauth; [|done]. apply Hw in Hauth. lia.
Qed.

(** ** Leases stay within the grant *)

Lemma sql_in_elem s names : sql_in s names = true <-> s ∈ names.
Proof.
  unfold sql_in. rewrite existsb_exists. setoid_rewrite <- list_elem_of_In.
  setoid_rewrite bool_decide_eq_true. naive_solver.
Qed.

(** The access mode of the role and grant covers what a lease mode needs. *)
Definition covers (a : AccessMode) (m : ManagedAccessMode) : Prop :=
  match m with
  | mode_read => a <> am_view
  | mode_write => accessModeAllowsWrite a = true
  | mode_schema => a = am_manage
  end.

(** The operations that hand out authority on a lease. *)
Definition lease_granted (d : db) (input : ManagedLeaseAuthority) (utc : Z) : Prop :=
  (exists now, (reserveManagedLeaseIfUnblocked d input now utc).1 = reserved)
  \/ (exists lease audit, (finalizeManagedLeaseIfUnblocked d input lease audit utc).1 = true)
  \/ (exists lease audit, managedLeaseStillDeliverable d input lease audit utc = true).

Lemma lease_granted_authority d input utc :
  lease_granted d input utc -> durableAuthorityStatement d input utc = true.
Proof.
  intros H. apply not_false_iff_true. intros Ha.
  destruct H as [(now & H)|[(lease & audit & H)|(lease & audit & H)]]; revert H.
  - unfold reserveManagedLeaseIfUnblocked. rewrite Ha. by destruct (free_slot d input).
  - unfold finalizeManagedLeaseIfUnblocked. destruct (expiresAt lease) as [x|]; [|done].
    rewrite Ha. cbn [andb sql_update fst]. by rewrite filterb_none.
  - unfold managedLeaseStillDeliverable. destruct (expiresAt lease); [|done]. by rewrite Ha.
Qed.

Lemma role_in_names r names : role_name r ∈ map role_name names <-> r ∈ names.
Proof. apply elem_of_map_inj, _. Qed.

(** The SQL predicates of one mode are the rule of [accessModeForConnectionGrant]. *)
Lemma capability_covers input m c i r g :
  capabilityPredicate input m c i r = true -> connectionGrantPredicate input g = true ->
  m_role m = role_name (role input) ->
  (accessMode input <> mode_read -> c_allowWrites c = true)
  /\ exists cap, g_capability g = capability_name cap
       /\ covers (accessModeForConnectionGrant (role input) cap) (accessMode input).
Proof.
  unfold capabilityPredicate, connectionGrantPredicate. intros Hc Hg Hr. rewrite Hr in Hc.
  destruct (accessMode input); cbn [covers]; split_eqs;
    repeat match goal with H : sql_in _ _ = true |- _ => apply sql_in_elem in H end.
  - split; [done|]. match goal with H : g_capability g ∈ _ |- _ =>
      change [js "read"; js "use"; js "manage"] with (map capability_name [cap_read; cap_use; cap_manage]) in H;
      apply list_elem_of_fmap in H as (cap & -> & Hcap) end.
    exists cap. split; [done|]. by apply grant_reads.
  - split; [done|]. match goal with H : g_capability g ∈ _ |- _ =>
      change [js "use"; js "manage"] with (map capability_name [cap_use; cap_manage]) in H;
      apply list_elem_of_fmap in H as (cap & -> & Hcap) end.
    match goal with H : role_name _ ∈ _ |- _ =>
      change [js "editor"; js "admin"; js "owner"] with (map role_name [editor; admin; owner]) in H;
      apply role_in_names in H end.
    exists cap. split; [done|]. by apply grant_writes.
  - split; [done|]. exists cap_manage. split; [done|].
    match goal with H : role_name _ ∈ _ |- _ =>
      change [js "admin"; js "owner"] with (map role_name [admin; owner]) in H;
      apply role_in_names in H end.
    by apply grant_manages.
Qed.

(** The lease statements never exceed the workspace's access rule: whenever a lease
    is reserved, made final or delivered, the database holds a grant to that member on
    that connection whose effective access mode, for the member's role, covers the
    lease's mode (reading, writing, or managing for schema changes), and a writing or
    schema lease also needs the connection's own write policy. *)
Theorem lease_within_grant d input utc :
  lease_granted d input utc ->
  exists g cap c, g ∈ grants d /\ g_organization g = organizationId input
    /\ g_connection g = connectionId input /\ g_member g = memberId input
    /\ g_capability g = capability_name cap
    /\ covers (accessModeForConnectionGrant (role input) cap) (accessMode input)
    /\ c ∈ connections d /\ c_id c = connectionId input
    /\ (accessMode input <> mode_read -> c_allowWrites c = true).
Proof.
  intros (s & m & c & g & i & r & p & _ & Hc & Hg & _ & Ha)%lease_granted_authority%authority_rows.
  unfold authorityPredicate in Ha. split_eqs.
  match goal with H1 : capabilityPredicate _ _ _ _ _ = true, H2 : connectionGrantPredicate _ _ = true |- _ =>
    destruct (capability_covers _ _ _ _ _ _ H1 H2) as [Hw (cap & Hcap & Hcov)]; [done|];
    unfold connectionGrantPredicate in H2 end.
  split_eqs. exists g, cap, c. repeat split; done.
Qed.

(** ** Slots *)

Definition live (l : lease_row) : bool := bool_decide (l_revokedAt l = None).
Definition is_schema (l : lease_row) : bool := l_accessMode l ==s js "schema".
Definition slot_key (l : lease_row) : jsstr * jsstr * jsstr * option Z :=
  (l_organization l, l_connection l, l_user l, l_slot l).
Definition schema_key (l : lease_row) : jsstr * jsstr := (l_organization l, l_connection l).

(** Live leases hold different slots from 1 to 5, and a connection has at most one live
    schema lease. *)
Definition lease_inv (t : list lease_row) : Prop :=
  NoDup (map slot_key (filterb live t))
  /\ NoDup (map schema_key (filterb (fun l => live l && is_schema l) t))
  /\ forall l, l ∈ t -> live l = true -> exists v, l_slot l = Some v /\ 1 <= v <= 5.

(** Other parts of the control plane only revoke or delete leases. *)
Inductive lease_trace : db -> list event -> db -> Prop :=
| lt_nil d : lease_trace d [] d
| lt_op d e es d' : lease_trace (run1 d e) es d' -> lease_trace d (e :: es) d'
| lt_other d d1 es d' :
    sublist (filterb live (leases d1)) (filterb live (leases d)) ->
    lease_trace d1 es d' -> lease_trace d es d'.

Lemma filterb_and {A} (p q : A -> bool) l : filterb (fun x => p x && q x) l = filterb q (filterb p l).
Proof.
  unfold filterb. induction l as [|a l IH]; [done|]. cbn. destruct (p a); cbn; [|done].
  by destruct (q a); rewrite IH.
Qed.

Lemma sublist_filterb {A} (p : A -> bool) l k : sublist l k -> sublist (filterb p l) (filterb p k).
Proof.
  unfold filterb. induction 1 as [|a l k H IH|a l k H IH]; cbn; [done| |]; destruct (p a);
    first [done|by apply sublist_skip|by apply sublist_cons].
Qed.

Lemma sublist_map {A B} (f : A -> B) l k : sublist l k -> sublist (map f l) (map f k).
Proof. induction 1; cbn; first [done|by apply sublist_skip|by apply sublist_cons]. Qed.

Lemma lease_inv_sublist t t' :
  sublist (filterb live t') (filterb live t) -> lease_inv t -> lease_inv t'.
Proof.
  intros Hs (H1 & H2 & H3). unfold lease_inv. rewrite (filterb_and live is_schema) in *. split; [|split].
  - eapply sublist_NoDup; [exact H1|]. by apply sublist_map.
  - eapply sublist_NoDup; [exact H2|]. by apply sublist_map, sublist_filterb.
  - intros l Hl Hlive. apply H3; [|done]. apply (filterb_elem live).
    eapply elem_of_submseteq; [by apply filterb_elem|by apply sublist_submseteq].
Qed.

Lemma filterb_map {A} (p : A -> bool) f l :
  (forall a, p (f a) = p a) -> filterb p (map f l) = map f (filterb p l).
Proof.
  intros H. unfold filterb. induction l as [|a l IH]; [done|]. cbn. rewrite H.
  destruct (p a); cbn; by rewrite IH.
Qed.

Lemma filterb_snoc {A} (p : A -> bool) l x :
  filterb p (l ++ [x]) = filterb p l ++ if p x then [x] else [].
Proof. rewrite filterb_app. unfold filterb. cbn. by destruct (p x). Qed.

Lemma free_slot_spec d input v :
  free_slot d input = Some v ->
  1 <= v <= 5 /\ forall l, l ∈ leases d -> holds_slot input v l = false.
Proof.
  intros [H Hin]%findb_some. apply negb_true_iff in H. split.
  - rewrite !elem_of_cons, elem_of_nil in Hin. lia.
  - intros l Hl. apply not_true_iff_false. intros Hh.
    assert (existsb (holds_slot input v) (leases d) = true); [|congruence].
    apply existsb_exists. exists l. by rewrite <- list_elem_of_In.
Qed.

Lemma reserve_lease_inv d input now utc :
  lease_inv (leases d) -> lease_inv (leases (reserveManagedLeaseIfUnblocked d input now utc).2).
Proof.
  intros Hinv. unfold reserveManagedLeaseIfUnblocked. cbn [snd].
  destruct (free_slot d input) as [v|] eqn:Ev; [|done]. case_match eqn:Hc; [|done].
  cbn [leases set_leases]. apply free_slot_spec in Ev as [Hv Hfree].
  apply andb_true_iff in Hc as [Hc _]. apply andb_true_iff in Hc as [_ Hbusy].
  apply negb_true_iff in Hbusy. destruct Hinv as (H1 & H2 & H3). split; [|split].
  - rewrite filterb_app, map_app. apply NoDup_app. split; [done|split; [|apply NoDup_singleton]].
    intros k (l & -> & [Hl Hin]%filterb_elem)%list_elem_of_fmap Hk%list_elem_of_singleton.
    injection Hk as Ho Hco Hu Hs. specialize (Hfree l Hin). unfold holds_slot, live in *.
    rewrite Ho, Hco, Hu, Hs, Hl in Hfree. by rewrite !bool_decide_true in Hfree.
  - rewrite filterb_snoc, map_app. destruct (live _ && is_schema _) eqn:Hs; [|by rewrite app_nil_r].
    apply NoDup_app. split; [done|split; [|apply NoDup_singleton]]. unfold schemaBusy in Hbusy.
    assert (accessMode input = mode_schema) as Hm.
    { unfold is_schema in Hs. cbn in Hs. destruct (accessMode input); done. }
    rewrite Hm in Hbusy. rewrite bool_decide_true in Hbusy by done. cbn [andb] in Hbusy.
    intros k (l & -> & [Hl Hin]%filterb_elem)%list_elem_of_fmap Hk%list_elem_of_singleton.
    injection Hk as Ho Hco. rewrite <- not_true_iff_false in Hbusy. apply Hbusy.
    apply existsb_exists. exists l. split; [by apply list_elem_of_In|].
    unfold live, is_schema in Hl. split_eqs. by rewrite !bool_decide_true.
  - intros l [Hin|Hin]%elem_of_app Hl; [by apply H3|].
    apply list_elem_of_singleton in Hin as ->. by exists v.
Qed.

Lemma finalize_lease_inv d input lease audit utc :
  lease_inv (leases d) -> lease_inv (leases (finalizeManagedLeaseIfUnblocked d input lease audit utc).2).
Proof.
  intros Hinv. unfold finalizeManagedLeaseIfUnblocked. destruct (expiresAt lease) as [x|]; [|done].
  open_update. cbn [snd leases set_leases fst sql_update].
  match goal with |- lease_inv (map ?f _) => set (upd := f) end.
  assert (forall l, live (upd l) = live l /\ is_schema (upd l) = is_schema l
    /\ slot_key (upd l) = slot_key l /\ schema_key (upd l) = schema_key l /\ l_slot (upd l) = l_slot l) as Hupd.
  { intros l. unfold upd. by case_match. }
  destruct Hinv as (H1 & H2 & H3). split; [|split].
  - rewrite filterb_map by (intros; apply Hupd). rewrite map_map.
    by rewrite (map_ext _ slot_key) by (intros; apply Hupd).
  - rewrite filterb_map by (intros l; destruct (Hupd l) as (-> & -> & _); done). rewrite map_map.
    by rewrite (map_ext _ schema_key) by (intros; apply Hupd).
  - intros l (l0 & -> & Hin)%list_elem_of_fmap Hl. destruct (Hupd l0) as (Hlive & _ & _ & _ & Hslot).
    rewrite Hslot. apply H3; [done|]. by rewrite <- Hlive.
Qed.

Lemma run1_lease_inv d e : lease_inv (leases d) -> lease_inv (leases (run1 d e)).
Proof.
  destruct e; cbn [run1].
  - destruct t; unfold claimRevocationGate; by open_update.
  - rewrite update_snd. by destruct (target claim).
  - apply reserve_lease_inv.
  - apply finalize_lease_inv.
Qed.

Definition leases_of (d : db) (org connection user : jsstr) : list lease_row :=
  filterb (fun l => (l_organization l ==s org) && (l_connection l ==s connection) && (l_user l ==s user))
    (filterb live (leases d)).

(** Values without duplicates from a list are at most as many. *)
Lemma NoDup_bounded {A} `{EqDecision A} (l k : list A) :
  NoDup l -> (forall x, x ∈ l -> x ∈ k) -> (length l <= length k)%nat.
Proof.
  intros Hnd Hin. apply NoDup_ListNoDup in Hnd. apply (NoDup_incl_length Hnd).
  intros x Hx. apply list_elem_of_In, Hin, list_elem_of_In, Hx.
Qed.

(** However reservations, finalizations, claims and outside revocations interleave,
    a member never holds more than five live leases on a connection, and a connection
    never has two live schema leases. *)
Theorem lease_slots_bounded d es d' org connection user :
  lease_inv (leases d) -> lease_trace d es d' ->
  (length (leases_of d' org connection user) <= 5)%nat
  /\ (length (filterb (fun l => (l_organization l ==s org) && (l_connection l ==s connection))
        (filterb (fun l => live l && is_schema l) (leases d'))) <= 1)%nat.
Proof.
  intros Hinv Htr. assert (lease_inv (leases d')) as (H1 & H2 & H3).
  { induction Htr as [d|d e es d' _ IH|d d1 es d' Hs _ IH]; [done| |].
    - by apply IH, run1_lease_inv.
    - by eapply IH, lease_inv_sublist. }
  split.
  - rewrite <- (length_map l_slot). apply (NoDup_bounded _ (map Some [1; 2; 3; 4; 5])).
    + apply (NoDup_fmap_1 (fun s => (org, connection, user, s))).
      change (fmap ?f ?l) with (map f l). rewrite map_map.
      rewrite (map_ext_Forall _ slot_key).
      { eapply sublist_NoDup; [exact H1|]. apply sublist_map, filterb_sublist. }
      apply Forall_forall. intros l [Hl _]%filterb_elem. unfold slot_key. by split_eqs; subst.
    + intros s (l & -> & [_ [Hlive Hin]%filterb_elem]%filterb_elem)%list_elem_of_fmap.
      destruct (H3 l Hin Hlive) as (v & -> & Hv). apply list_elem_of_fmap. exists v. split; [done|].
      rewrite !elem_of_cons. lia.
  - rewrite <- (length_map schema_key). apply (NoDup_bounded _ [(org, connection)]).
    + eapply sublist_NoDup; [exact H2|]. apply sublist_map, filterb_sublist.
    + intros k (l & -> & [Hl _]%filterb_elem)%list_elem_of_fmap. unfold schema_key. split_eqs; subst. by left.
Qed.

(** ** A concrete workspace *)

Definition open_gate : gate := mkGate None None None.
Definition demo : db := mkDb
  [mkMember (js "m1") (js "org") (js "u1") (js "editor") open_gate]
  [mkConnection (js "c1") (js "org") None 7 (js "managed") (Some (js "i1")) (Some (js "r1"))
     (js "postgres") (js "neon") true open_gate]
  [mkIntegration (js "i1") (js "org") (js "neon") 3 (js "active") (js "idle") None open_gate]
  [mkSession (js "s1") (js "u1") 5000000]
  [mkGrant (js "org") (js "c1") (js "m1") (js "use")]
  [mkResource (js "r1") (js "org") (js "neon") true]
  [mkProfile (js "org") (js "active")] [].

Definition demo_authority (lease : jsstr) (m : ManagedAccessMode) : ManagedLeaseAuthority :=
  mkAuthority lease (js "org") (js "m1") (js "u1") (js "s1") editor (js "c1") 7 (js "r1")
    (js "postgres") (js "i1") 3 (js "neon") (js "neon") m.

Definition demo_target : RevocationGateTarget := ConnectionTarget (js "org") (js "c1").
Definition demo_claim : RevocationGateClaim := mkClaim demo_target (js "A") 1000 1000 true (Some 8) None.

Lemma demo_keys : keys demo.
Proof. unfold keys. vm_compute. repeat split; apply NoDup_singleton. Qed.

Lemma claim_is_exclusive_witness :
  let d' := run (claimRevocationGate demo demo_target 1000 (js "A")).2
              [EReserve (demo_authority (js "l1") mode_read) 1500 1500; EClaim demo_target 2000 (js "B")] in
  (claimRevocationGate d' demo_target 300000 (js "B")).1 = Ok None
  /\ (updateClaim d' demo_claim clear 300000 (js "C")).1 <> Flag false.
Proof.
  destruct (claim_is_exclusive demo demo_target 1000 (js "A") demo_claim
    [EReserve (demo_authority (js "l1") mode_read) 1500 1500; EClaim demo_target 2000 (js "B")]) as [H1 H2].
  - apply demo_keys.
  - vm_compute; reflexivity.
  - repeat constructor. cbn. unfold REVOCATION_CLAIM_STALE_MS. lia.
  - split; [apply H1; unfold REVOCATION_CLAIM_STALE_MS; lia|apply H2].
Defined.

Lemma pending_gate_refuses_leases_witness :
  let d1 := (claimRevocationGate demo demo_target 1000 (js "A")).2 in
  let d2 := run1 d1 (EUpdate demo_claim release 2000 (js "B")) in
  (reserveManagedLeaseIfUnblocked demo (demo_authority (js "l1") mode_write) 900 900).1 = reserved
  /\ refused d2 (demo_authority (js "l1") mode_write).
Proof.
  split; [vm_compute; reflexivity|].
  apply (pending_gate_refuses_leases demo demo_target 1000 (js "A") demo_claim
    [EUpdate demo_claim release 2000 (js "B")]).
  - apply demo_keys.
  - vm_compute; reflexivity.
  - apply trace_op, trace_nil.
  - repeat constructor.
  - right; left; reflexivity.
Defined.

Lemma revision_fences_old_authorities_witness :
  let d1 := (claimRevocationGate demo demo_target 1000 (js "A")).2 in
  let d2 := run1 d1 (EUpdate demo_claim clear 2000 (js "B")) in
  connectionRevision demo_claim = Some 8 /\ refused d2 (demo_authority (js "l1") mode_read).
Proof.
  apply (revision_fences_old_authorities demo (js "org") (js "c1") 1000 (js "A") demo_claim
    [EUpdate demo_claim clear 2000 (js "B")] _ _ 7).
  - apply demo_keys.
  - vm_compute; reflexivity.
  - vm_compute; reflexivity.
  - intros g Hg. vm_compute in Hg. injection Hg as <-. reflexivity.
  - apply trace_op, trace_nil.
  - reflexivity.
  - reflexivity.
  - cbn. lia.
Defined.

Lemma lease_within_grant_witness :
  exists g cap c, g ∈ grants demo /\ g_organization g = js "org" /\ g_connection g = js "c1"
    /\ g_member g = js "m1" /\ g_capability g = capability_name cap
    /\ covers (accessModeForConnectionGrant editor cap) mode_write
    /\ c ∈ connections demo /\ c_id c = js "c1" /\ (mode_write <> mode_read -> c_allowWrites c = true).
Proof.
  apply (lease_within_grant demo (demo_authority (js "l1") mode_write) 900).
  left. exists 900. vm_compute; reflexivity.
Defined.

(** Six reservations in a row: the sixth finds no slot. *)
Definition six_leases : list event :=
  map (fun n => EReserve (demo_authority n mode_read) 900 900)
    [js "l1"; js "l2"; js "l3"; js "l4"; js "l5"; js "l6"].

Lemma lt_run d es : lease_trace d es (run d es).
Proof. revert d. induction es as [|e es IH]; intros d; [constructor|]. apply lt_op, IH. Qed.

Lemma lease_slots_bounded_witness :
  (length (leases_of (run demo six_leases) (js "org") (js "c1") (js "u1")) <= 5)%nat
  /\ length (leases (run demo six_leases)) = 5%nat.
Proof.
  split; [|vm_compute; reflexivity].
  refine (proj1 (lease_slots_bounded demo six_leases _ _ _ _ _ (lt_run _ _))).
  split; [constructor|split; [constructor|]]. intros l Hl. inversion Hl.
Defined.

(** Two claims in one millisecond, the first of them released in between, both read as
    the first of their pending period: the flag compares timestamps. A caller that
    abandons the second one clears the gate the first one left pending. *)
Example same_millisecond_claims :
  let d1 := (claimRevocationGate demo demo_target 1000 (js "A")).2 in
  let d2 := run1 d1 (EUpdate demo_claim release 1000 (js "B")) in
  let r := claimRevocationGate d2 demo_target 1000 (js "C") in
  revocation_pending_at <$> gate_of d2 demo_target = Some (Some 1000)
  /\ r.1 = Ok (Some (mkClaim demo_target (js "C") 1000 1000 true (Some 8) None)).
Proof. vm_compute. done. Qed.
