(* ===== verification/NeonBranches.v ===== *)
(** * Neon branch inventories

    Models [workspace-cloud/lib/providers/neon-identifiers.ts] and
    [workspace-cloud/lib/providers/neon-branches.ts]: the allow-list projection of the
    provider's branch rows into one checked tree in display order. The rows are JSON
    values. [Date.parse] is a parameter, of which only the [NaN] answer matters here;
    the traversal takes fuel, and [NeonBranchesInv] shows that it is enough. *)

From S2P Require Import Prelude JsString Regex JsMap JsValue JsSort.
From Stdlib Require String.
Import Stdlib.Strings.String.StringSyntax.
Local Open Scope Z_scope.

(** ** Identifiers *)

(** [\[a-z0-9\]] and [\[a-z0-9-\]] *)
Definition segment_head (c : N) : bool := is_lower c || is_digit c.
Definition segment_tail (c : N) : bool := segment_head c || (c =? cDASH)%N.

Definition segment_re : re :=
  RSeqs [RBol; RCls segment_head; RUpTo 59 (RCls segment_tail); REol].

(** The predicate narrows a value to the string it is. *)
Definition neonSegment (v : value) : option jsstr :=
  match v with VStr s => if test segment_re s then Some s else None | _ => None end.

(** ** Inventory data *)

Inductive NeonBranchState := st_init | st_resetting | st_ready | st_archived | st_unknown.
Inductive NeonBranchInitSource := parent_data | schema_only | src_unknown.
Inductive ProviderProductionClassification := prod_true | prod_false | prod_unknown.
#[export] Instance NeonBranchState_eq_dec : EqDecision NeonBranchState.
Proof. solve_decision. Defined.
#[export] Instance NeonBranchInitSource_eq_dec : EqDecision NeonBranchInitSource.
Proof. solve_decision. Defined.
#[export] Instance ProviderProductionClassification_eq_dec : EqDecision ProviderProductionClassification.
Proof. solve_decision. Defined.

Record NeonBranchRestrictedAction := mkAction { act_name : jsstr; act_reason : jsstr }.
#[export] Instance NeonBranchRestrictedAction_eq_dec : EqDecision NeonBranchRestrictedAction.
Proof. solve_decision. Defined.

(** [Omit<NeonBranchInventoryItem, "depth">] *)
Record Branch := mkBranch {
  b_id : jsstr; projectId : jsstr; parentId : option jsstr; treeParentId : option jsstr;
  b_name : jsstr; currentState : NeonBranchState; pendingState : option NeonBranchState;
  stateChangedAt : jsstr; createdAt : jsstr; updatedAt : jsstr; creationSource : jsstr;
  initSource : NeonBranchInitSource; sourceLsn : option jsstr; sourceTimestamp : option jsstr;
  b_default : bool; b_protected : bool; b_expiresAt : option jsstr;
  restrictedActions : list NeonBranchRestrictedAction;
  production : ProviderProductionClassification; b_ready : bool }.
#[export] Instance Branch_eq_dec : EqDecision Branch.
Proof. solve_decision. Defined.

Record NeonBranchInventoryItem := mkItem { item_branch :> Branch; depth : nat }.

Record NeonBranchInventory := mkInventory {
  inv_projectId : jsstr; rootIds : list jsstr; branches : list NeonBranchInventoryItem }.

Definition neonBranchQueryable (b : Branch) : bool :=
  bool_decide (currentState b = st_ready) || bool_decide (currentState b = st_archived).

(** ** Field readers *)

(** A result, or the message of the [ProviderRequestError]. *)
Notation parsed := (res jsstr).
Definition invalid {A} : parsed A := Throw (js "Neon returned an invalid branch inventory").

(** [row.key]: none of the keys read is a member of [Object.prototype]. *)
Definition field (row : js_record) (k : jsstr) : value := default VUndefined (mget row k).

(** [value === undefined || value === null || value === ""] *)
Definition absent (v : value) : bool :=
  match v with VUndefined | VNull => true | VStr s => negb (non_empty s) | _ => false end.

Definition as_object (v : value) : parsed js_record :=
  match v with VObj fields => Ok fields | _ => invalid end.

(** [\[\u0000-\u001f\u007f\]] and [\[\u202a-\u202e\u2066-\u2069\]] *)
Definition control_char (c : N) : bool := (c <? 32)%N || (c =? 127)%N.
Definition bidi_char (c : N) : bool := between 8234 8238 c || between 8294 8297 c.

Definition safeText (v : value) (maxLength : nat) : parsed jsstr :=
  match v with
  | VStr s =>
    if (length s =? 0)%nat || (maxLength <? length s)%nat
       || existsb (fun c => control_char c || bidi_char c) s
    then invalid else Ok s
  | _ => invalid
  end.

Definition safeLine (v : value) (maxLength : nat) : parsed jsstr :=
  match v with
  | VStr s =>
    if existsb bidi_char s then invalid
    else
      let normalized := trim (replace_all (RPlus (RCls is_space)) [cSP]
                          (replace_all (RPlus (RCls control_char)) [cSP] s)) in
      safeText (VStr normalized) maxLength
  | _ => invalid
  end.

Definition optionalSegment (v : value) : parsed (option jsstr) :=
  if absent v then Ok None
  else match neonSegment v with Some s => Ok (Some s) | None => invalid end.

(** [/^\d{4}-\d{2}-\d{2}T\d{2}:\d{2}:\d{2}(?:\.\d{1,9})?(?:Z|[+-]\d{2}:\d{2})$/] *)
Definition digits_n (n : nat) : re := RRep n (RCls is_digit).
Definition instant_re : re :=
  RSeqs [RBol; digits_n 4; RChr cDASH; digits_n 2; RChr cDASH; digits_n 2; RChr 84%N;
    digits_n 2; RChr cCOLON; digits_n 2; RChr cCOLON; digits_n 2;
    ROpt (RSeqs [RChr cDOT; RCls is_digit; RUpTo 8 (RCls is_digit)]);
    RAlt (RChr 90%N) (RSeqs [RCls (fun c => (c =? 43)%N || (c =? cDASH)%N); digits_n 2; RChr cCOLON; digits_n 2]);
    REol].

(** [/^[0-9a-f]+\/[0-9a-f]+$/i] *)
Definition is_hex (c : N) : bool := is_digit c || between 97 102 (lower_ascii c).
Definition lsn_re : re := RSeqs [RBol; RPlus (RCls is_hex); RChr cSLASH; RPlus (RCls is_hex); REol].

Definition optionalLsn (v : value) : parsed (option jsstr) :=
  if absent v then Ok None
  else text ← safeText v 64; if test lsn_re text then Ok (Some text) else invalid.

Definition known_state (text : jsstr) : NeonBranchState :=
  if text ==s js "init" then st_init else if text ==s js "resetting" then st_resetting
  else if text ==s js "ready" then st_ready else if text ==s js "archived" then st_archived
  else st_unknown.

(** [state(value)] and [state(value, true)] *)
Definition state (v : value) (optional : bool) : parsed (option NeonBranchState) :=
  if optional && absent v then Ok None
  else text ← safeText v 64; Ok (Some (known_state text)).

Definition read_initSource (v : value) : parsed NeonBranchInitSource :=
  if absent v then Ok src_unknown
  else
    text ← safeText v 64;
    Ok (if text ==s js "parent-data" then parent_data
        else if text ==s js "schema-only" then schema_only else src_unknown).

Definition requiredBoolean (v : value) : parsed bool :=
  match v with VBool b => Ok b | _ => invalid end.

Definition MAX_RESTRICTED_ACTIONS : nat := 64.

(** [/^[a-z0-9][a-z0-9_-]{0,63}$/i] *)
Definition action_re : re :=
  RSeqs [RBol; RCls is_alnum; RUpTo 63 (RCls (fun c => is_alnum c || (c =? cUS)%N || (c =? cDASH)%N)); REol].

Fixpoint read_actions (seen : list jsstr) (candidates : list value) : parsed (list NeonBranchRestrictedAction) :=
  match candidates with
  | [] => Ok []
  | candidate :: rest =>
    row ← as_object candidate;
    name ← safeText (field row (js "name")) 64;
    if negb (test action_re name) || bool_decide (name ∈ seen) then invalid
    else
      reason ← safeLine (field row (js "reason")) 512;
      actions ← read_actions (sadd seen name) rest;
      Ok (mkAction name reason :: actions)
  end.

(** [left < right ? -1 : left === right ? 0 : 1] *)
Definition str_cmp (l r : jsstr) : Z := if str_ltb l r then -1 else if l ==s r then 0 else 1.

Definition read_restrictedActions (v : value) : parsed (list NeonBranchRestrictedAction) :=
  match v with
  | VUndefined | VNull => Ok []
  | VArr items =>
    if (MAX_RESTRICTED_ACTIONS <? length items)%nat then invalid
    else actions ← read_actions [] items; Ok (sort_by (on_key act_name str_cmp) actions)
  | _ => invalid
  end.

Definition branchOrder (left right : Branch) : Z :=
  if negb (Bool.eqb (b_default left) (b_default right)) then (if b_default left then -1 else 1)
  else if negb (Bool.eqb (b_protected left) (b_protected right)) then (if b_protected left then -1 else 1)
  else if negb (b_name left ==s b_name right) then (if str_ltb (b_name left) (b_name right) then -1 else 1)
  else str_cmp (b_id left) (b_id right).

(** ** The inventory *)

Section inventory.
(** [Date.parse], with [NaN] as [None]. *)
Context (date_parse : jsstr -> option Z).

Definition instant (v : value) (optional : bool) : parsed (option jsstr) :=
  if optional && absent v then Ok None
  else
    text ← safeText v 64;
    if negb (test instant_re text) || bool_decide (date_parse text = None) then invalid
    else Ok (Some text).

(** [x ?? invalid()] *)
Definition required {A} (r : parsed (option A)) : parsed A :=
  o ← r; match o with Some a => Ok a | None => invalid end.

(** One row, in the order the source reads its fields. *)
Definition read_branch (project : jsstr) (byId : list (jsstr * Branch)) (v : value) : parsed Branch :=
  row ← as_object v;
  match neonSegment (field row (js "id")) with
  | None => invalid
  | Some id =>
    match field row (js "project_id") with
    | VStr p =>
      if negb (p ==s project) || mhas byId id then invalid
      else
        parentId ← optionalSegment (field row (js "parent_id"));
        branchInitSource ← read_initSource (field row (js "init_source"));
        currentState ← required (state (field row (js "current_state")) false);
        isDefault ← requiredBoolean (field row (js "default"));
        isProtected ← requiredBoolean (field row (js "protected"));
        name ← safeText (field row (js "name")) 256;
        pendingState ← state (field row (js "pending_state")) true;
        stateChangedAt ← required (instant (field row (js "state_changed_at")) false);
        createdAt ← required (instant (field row (js "created_at")) false);
        updatedAt ← required (instant (field row (js "updated_at")) false);
        creationSource ← safeText (field row (js "creation_source")) 128;
        sourceLsn ← optionalLsn (field row (js "parent_lsn"));
        sourceTimestamp ← instant (field row (js "parent_timestamp")) true;
        expiresAt ← instant (field row (js "expires_at")) true;
        actions ← read_restrictedActions (field row (js "restricted_actions"));
        Ok (mkBranch id project parentId
              (if bool_decide (branchInitSource = schema_only) then None else parentId)
              name currentState pendingState stateChangedAt createdAt updatedAt creationSource
              branchInitSource sourceLsn sourceTimestamp isDefault isProtected expiresAt actions
              (if isProtected then prod_true else if isDefault then prod_unknown else prod_false)
              (bool_decide (currentState = st_ready)))
    | _ => invalid
    end
  end.

Fixpoint read_rows (project : jsstr) (byId : list (jsstr * Branch)) (values : list value)
    : parsed (list (jsstr * Branch)) :=
  match values with
  | [] => Ok byId
  | v :: values =>
    b ← read_branch project byId v;
    read_rows project (mset byId (b_id b) b) values
  end.

(** The roots, and the children of each branch. *)
Fixpoint link (byId : list (jsstr * Branch)) (roots : list Branch)
    (children : list (jsstr * list Branch)) (bs : list Branch)
    : parsed (list Branch * list (jsstr * list Branch)) :=
  match bs with
  | [] => Ok (roots, children)
  | branch :: bs =>
    match treeParentId branch with
    | None => link byId (roots ++ [branch]) children bs
    | Some p =>
      if (p ==s b_id branch) || negb (mhas byId p) then Throw (js "Neon branch hierarchy is inconsistent")
      else link byId roots (mset children p (default [] (mget children p) ++ [branch])) bs
    end
  end.

(** The sets and the output of [visit]. *)
Record visit_state := mkVisit {
  visiting : list jsstr; visited : list jsstr; ordered : list NeonBranchInventoryItem }.

Definition cycle_error : jsstr := js "Neon branch hierarchy contains a cycle".
(** Not a message of the source: the fuel ran out. *)
Definition out_of_fuel : jsstr := [].

Fixpoint visit (children : list (jsstr * list Branch)) (fuel : nat) (branch : Branch) (d : nat)
    (st : visit_state) : parsed visit_state :=
  match fuel with
  | O => Throw out_of_fuel
  | S fuel =>
    if bool_decide (b_id branch ∈ visiting st) then Throw cycle_error
    else if bool_decide (b_id branch ∈ visited st) then Ok st
    else
      st' ← (fix each (kids : list Branch) (st : visit_state) : parsed visit_state :=
        match kids with
        | [] => Ok st
        | child :: kids => st ← visit children fuel child (S d) st; each kids st
        end) (default [] (mget children (b_id branch)))
          (mkVisit (sadd (visiting st) (b_id branch)) (visited st)
             (ordered st ++ [mkItem branch d]));
      Ok (mkVisit (filterb (fun i => negb (i ==s b_id branch)) (visiting st'))
            (sadd (visited st') (b_id branch)) (ordered st'))
  end.

Fixpoint visit_all (children : list (jsstr * list Branch)) (fuel : nat) (bs : list Branch) (d : nat)
    (st : visit_state) : parsed visit_state :=
  match bs with
  | [] => Ok st
  | b :: bs => st ← visit children fuel b d st; visit_all children fuel bs d st
  end.

Definition parseNeonBranchInventory (project : jsstr) (values : list value) : parsed NeonBranchInventory :=
  match neonSegment (VStr project) with
  | None => invalid
  | Some _ =>
    byId ← read_rows project [] values;
    rc ← link byId [] [] (mvals byId);
    let roots := sort_by branchOrder rc.1 in
    let children := map (fun e => (e.1, sort_by branchOrder e.2)) rc.2 in
    st ← visit_all children (S (length byId)) roots 0 (mkVisit [] [] []);
    if negb (length (ordered st) =? length byId)%nat then Throw cycle_error
    else Ok (mkInventory project (map b_id roots) (ordered st))
  end.

End inventory.

(** ** What the plans of Neon branch operations share

    [workspace-cloud/lib/providers/neon-branch-delete-plan.ts], [neon-branch-plan.ts]
    (create) and [neon-branch-switch-plan.ts] have one shape: a request is parsed, a plan
    is built from live facts, and it is revalidated against later facts before it is
    executed. The helpers that the three files repeat ([exactRecord], [uuid],
    [sameRestrictedActions], [invalid], the expiry test) are here, with their lemmas.
    [Date.prototype.toISOString] and [Date.parse] are parameters; a date is its time
    value, [None] when it is invalid. *)

(** *** Shared helpers *)

(** The errors of a plan; [toISOString] of a date out of range throws a RangeError. *)
Inductive plan_error := PlanError (message : jsstr) (status : Z) | RangeError.
Notation planned := (res plan_error).
Definition refuse {A} (message : jsstr) (status : Z) : planned A := Throw (PlanError message status).
(** [if (condition) return invalid(message, status)] *)
Definition refuse_if (b : bool) (message : jsstr) (status : Z) : planned unit :=
  if b then refuse message status else Ok tt.

Definition exactRecord (v : value) (fields : list jsstr) : option js_record :=
  match v with
  | VObj r => if (length (mkeys r) =? length fields)%nat && forallb (mhas r) fields then Some r else None
  | _ => None
  end.

(** [/^[0-9a-f]{8}-[0-9a-f]{4}-[1-8][0-9a-f]{3}-[89ab][0-9a-f]{3}-[0-9a-f]{12}$/i] *)
Definition uuid_re : re := fixed (
  replicate 8 is_hex ++ chars (js "-") ++ replicate 4 is_hex ++ chars (js "-")
  ++ [between 49 56] ++ replicate 3 is_hex ++ chars (js "-")
  ++ [fun c => between 56 57 c || between 97 98 (lower_ascii c)] ++ replicate 3 is_hex ++ chars (js "-")
  ++ replicate 12 is_hex).
Definition uuid (s : jsstr) : bool := test uuid_re s.
Definition uuid_value (v : value) : option jsstr :=
  match v with VStr s => if uuid s then Some s else None | _ => None end.

(** [/^[0-9a-f]{64}$/] *)
Definition hash_re : re := fixed (replicate 64 (fun c => is_digit c || between 97 102 c)).

(** [left.every((item, index) => p(index, item))] *)
Definition every_index {A} (p : nat -> A -> bool) (l : list A) : bool :=
  forallb (fun ie => p (fst ie) (snd ie)) (imap pair l).

Definition sameRestrictedActions (left right : list NeonBranchRestrictedAction) : bool :=
  (length left =? length right)%nat
  && every_index (fun index item => match right !! index with
       | Some r => (act_name item ==s act_name r) && (act_reason item ==s act_reason r)
       | None => false
       end) left.

(** [left.length === right.length && !left.some((x, i) => x !== right\[i\])] *)
Definition same_list (left right : list jsstr) : bool :=
  (length left =? length right)%nat
  && every_index (fun index item => bool_decide (right !! index = Some item)) left.

(** ["development" | "production"], ["standard" | "production_data"] and
    ["single_admin" | "separate_admin"] *)
Inductive PlanEnvironment := development | production_env.
Inductive PlanRisk := standard | production_data.
Inductive ApprovalPolicy := single_admin | separate_admin.
#[export] Instance PlanEnvironment_eq_dec : EqDecision PlanEnvironment.
Proof. solve_decision. Defined.

Definition plan_environment (v : value) : option PlanEnvironment :=
  match v with
  | VStr s => if s ==s js "development" then Some development
              else if s ==s js "production" then Some production_env else None
  | _ => None
  end.

(** A number that is an integer; [None] is any other number. *)
Notation num := (option Z).
Definition isSafeInteger (n : num) : bool :=
  match n with Some z => Z.abs z <=? 9007199254740991 | None => false end.

Definition ten_minutes : Z := 10 * 60 * 1000.

(** The only branch with this identifier, [matches.length === 1 ? matches\[0\] : null]. *)
Definition sole_branch (inv : NeonBranchInventory) (id : jsstr) : option NeonBranchInventoryItem :=
  match filterb (fun b => b_id (item_branch b) ==s id) (branches inv) with
  | [b] => Some b | _ => None end.

Section dates.
Context (toISOString : Z -> jsstr) (date_parse : jsstr -> option Z).

(** The largest time value of a date. *)
Definition MAX_TIME : Z := 8640000000000000.
Definition iso (t : Z) : planned jsstr := if Z.abs t <=? MAX_TIME then Ok (toISOString t) else Throw RangeError.

(** The test that opens every revalidation. *)
Definition expired (issued expires : jsstr) (ttl : Z) (now : option Z) : bool :=
  match now, date_parse issued, date_parse expires with
  | Some now, Some issuedAt, Some expiresAt =>
    negb (expiresAt - issuedAt =? ttl) || (expiresAt <=? now)
  | _, _, _ => true
  end.

(** *** Lemmas *)

(** The law of the two date functions: a time value survives its text. *)
Definition date_law : Prop := forall t, Z.abs t <= MAX_TIME -> date_parse (toISOString t) = Some t.

Lemma iso_ok t s : iso t = Ok s <-> Z.abs t <= MAX_TIME /\ s = toISOString t.
Proof. unfold iso. destruct (Z.leb_spec (Z.abs t) MAX_TIME); naive_solver lia. Qed.

Lemma expired_spec t ttl issued expires now :
  date_law -> iso t = Ok issued -> iso (t + ttl) = Ok expires ->
  expired issued expires ttl now = false <-> exists n, now = Some n /\ n < t + ttl.
Proof.
  intros law [Ht ->]%iso_ok [He ->]%iso_ok. unfold expired. rewrite !law by done.
  replace (t + ttl - t) with ttl by lia. rewrite Z.eqb_refl. destruct now as [n|]; cbn.
  - rewrite Z.leb_gt. naive_solver.
  - naive_solver.
Qed.

End dates.

Lemma refuse_if_ok b m st (u : unit) : refuse_if b m st = Ok u <-> b = false.
Proof. destruct b, u; cbn; naive_solver. Qed.

Lemma refuse_pass {A} b m st (k : unit -> planned A) : b = false -> refuse_if b m st ≫= k = k tt.
Proof. by intros ->. Qed.

(** The tests that a normally returning chain has passed. *)
Ltac refusals :=
  repeat match goal with
  | H : mbind _ (refuse_if _ _ _) = Ok _ |- _ =>
    let E := fresh "Hpassed" in apply res_bind_ok in H as (? & E%refuse_if_ok & H)
  end.

Lemma every_index_spec {A} (p : nat -> A -> bool) l :
  every_index p l = true <-> forall i a, l !! i = Some a -> p i a = true.
Proof.
  unfold every_index. rewrite forallb_forall. setoid_rewrite <- list_elem_of_In. split.
  - intros H i a Hi. apply (H (i, a)). apply elem_of_lookup_imap. by exists i, a.
  - intros H [i a] (? & ? & [= -> ->] & Hi)%elem_of_lookup_imap. by apply H.
Qed.

Lemma same_list_spec l r : same_list l r = true <-> l = r.
Proof.
  unfold same_list. rewrite andb_true_iff, every_index_spec, Nat.eqb_eq. split.
  - intros [Hlen H]. apply list_eq_same_length with (length r); [done..|].
    intros i x y _ Hx Hy. specialize (H i x Hx). apply bool_decide_eq_true in H. congruence.
  - intros ->. split; [done|]. intros i a Hi. by apply bool_decide_eq_true.
Qed.

Lemma same_actions_spec l r : sameRestrictedActions l r = true <-> l = r.
Proof.
  unfold sameRestrictedActions. rewrite andb_true_iff, every_index_spec, Nat.eqb_eq. split.
  - intros [Hlen H]. apply list_eq_same_length with (length r); [done..|].
    intros i [n1 r1] [n2 r2] _ Hx Hy. specialize (H i _ Hx). rewrite Hy in H.
    cbn in H. bools. by simplify_eq.
  - intros ->. split; [done|]. intros i a ->. by rewrite !bool_decide_eq_true_2.
Qed.

Lemma sole_branch_id inv id b : sole_branch inv id = Some b -> b ∈ branches inv /\ b_id (item_branch b) = id.
Proof.
  unfold sole_branch. intros H. destruct (filterb _ _) as [|x [|]] eqn:E; simplify_eq.
  assert (b ∈ [b]) as Hb by (by left). rewrite <- E in Hb.
  apply filterb_elem in Hb as [Hid Hin]. bools. by split.
Qed.

(** What [parseNeonBranchInventory] guarantees, see [NeonBranchesInv]. *)
Definition of_one_project (inv : NeonBranchInventory) : Prop :=
  forall b, b ∈ branches inv -> projectId (item_branch b) = inv_projectId inv.

(** A concrete pair of date functions that obeys the law, for the witnesses. *)
Definition unary_date (t : Z) : jsstr := [if t <? 0 then Z.to_N (-2 * t - 1) else Z.to_N (2 * t)].
Definition parse_unary (s : jsstr) : option Z :=
  match s with
  | [n] => Some (if N.even n then Z.of_N (n / 2) else - Z.of_N ((n + 1) / 2))
  | _ => None
  end.
Lemma unary_date_law : date_law unary_date parse_unary.
Proof.
  intros t _. unfold unary_date, parse_unary. f_equal. destruct (Z.ltb_spec t 0).
  - replace (Z.to_N (-2 * t - 1)) with (2 * Z.to_N (- t - 1) + 1)%N by lia.
    rewrite N.even_add, N.even_mul. cbn [N.even orb eqb].
    replace (2 * Z.to_N (- t - 1) + 1 + 1)%N with ((Z.to_N (- t)) * 2)%N by lia.
    rewrite N.div_mul by done. lia.
  - replace (Z.to_N (2 * t)) with (Z.to_N t * 2)%N by lia.
    rewrite N.even_mul, orb_true_r, N.div_mul by done. lia.
Qed.

(** A project of two branches, for the witnesses. *)
Definition demo_branch (id : jsstr) (parent : option jsstr) (isDefault : bool) : Branch :=
  mkBranch id (js "p") parent parent id st_ready None (js "s") (js "c") (js "u") (js "console")
    parent_data None None isDefault false None [] (if isDefault then prod_unknown else prod_false) true.
Definition demo_project : NeonBranchInventory :=
  mkInventory (js "p") [js "main"]
    [mkItem (demo_branch (js "main") None true) 0; mkItem (demo_branch (js "dev") (Some (js "main")) false) 1].
Lemma demo_of_one_project : of_one_project demo_project.
Proof. intros b Hb. cbn in Hb. rewrite !elem_of_cons, elem_of_nil in Hb. by destruct Hb as [->|[->|[]]]. Qed.
Definition demo_uuid : jsstr := js "00000000-0000-4000-8000-000000000000".
