(* ===== verification/NeonBranchesInv.v ===== *)
(** * Properties of Neon branch inventories

    An accepted inventory is a forest in display order: every branch once, each
    non-root after its parent and one level deeper; the traversal always ends. *)

From S2P Require Import Prelude JsString JsMap JsValue JsSort Regex NeonBranches.
From Stdlib Require String.
Import Stdlib.Strings.String.StringSyntax.
Local Open Scope Z_scope.

(** ** Reading rows *)

(** A map of branches by their own identifier, all of one project. *)
Definition by_id_ok (project : jsstr) (m : list (jsstr * Branch)) : Prop :=
  NoDup (mkeys m) /\ forall k b, (k, b) ∈ m -> k = b_id b /\ projectId b = project.

Lemma read_branch_ok dp project m v b :
  read_branch dp project m v = Ok b -> projectId b = project /\ b_id b ∉ mkeys m.
Proof.
  unfold read_branch. intros H. apply res_bind_ok in H as (row & _ & H).
  destruct (neonSegment _) as [id|]; [|done]. destruct (field row (js "project_id")); try done.
  destruct (negb _ || _) eqn:Hdup; [done|]. apply orb_false_iff in Hdup as [_ Hdup].
  repeat (let x := fresh in apply res_bind_ok in H as (x & _ & H)).
  injection H as <-. cbn. split; [done|]. rewrite <- mhas_true. by rewrite Hdup.
Qed.

Lemma mset_elem {V} (m : list (jsstr * V)) k v x :
  k ∉ mkeys m -> x ∈ mset m k v <-> x = (k, v) \/ x ∈ m.
Proof.
  intros H. rewrite mset_fresh by done. rewrite elem_of_app, list_elem_of_singleton. tauto.
Qed.

Lemma read_rows_ok dp project m values m' :
  by_id_ok project m -> read_rows dp project m values = Ok m' ->
  by_id_ok project m' /\ length m' = (length m + length values)%nat.
Proof.
  revert m. induction values as [|v values IH]; intros m Hm; cbn [read_rows].
  - intros [= <-]. split; [done|]. cbn. lia.
  - intros (b & Hb & H)%res_bind_ok. apply read_branch_ok in Hb as [Hp Hnew].
    apply IH in H as [H1 H2].
    + split; [done|]. rewrite H2, mset_fresh by done. rewrite length_app. cbn. lia.
    + destruct Hm as [Hnd Hall]. split; [by apply mset_NoDup|].
      intros k b' [E|Hin]%mset_elem; [injection E as -> ->; done|by apply Hall|done].
Qed.

(** ** Linking *)

(** Roots have no parent; the children of a key name it as their parent. *)
Definition links_ok (bs : list Branch) (roots : list Branch) (children : list (jsstr * list Branch)) : Prop :=
  (forall b, b ∈ roots -> treeParentId b = None /\ b ∈ bs)
  /\ forall p b, b ∈ default [] (mget children p) -> treeParentId b = Some p /\ b ∈ bs.

Lemma link_ok byId all roots children bs r :
  links_ok all roots children -> (forall b, b ∈ bs -> b ∈ all) ->
  link byId roots children bs = Ok r -> links_ok all r.1 r.2.
Proof.
  revert roots children. induction bs as [|b bs IH]; intros roots children [H1 H2] Hbs; cbn [link].
  - intros [= <-]. done.
  - destruct (treeParentId b) as [p|] eqn:Hp.
    + case_match; [done|]. apply IH; [|intros; apply Hbs; by right]. split; [done|].
      intros p' b'. rewrite mget_set. destruct (decide (p' = p)) as [->|]; [|apply H2]. cbn.
      intros [Hin|Hin]%elem_of_app; [by apply H2|]. apply list_elem_of_singleton in Hin as ->.
      split; [done|apply Hbs; by left].
    + apply IH; [|intros; apply Hbs; by right]. split; [|done].
      intros b' [Hin|Hin]%elem_of_app; [by apply H1|]. apply list_elem_of_singleton in Hin as ->.
      split; [done|apply Hbs; by left].
Qed.

Lemma link_roots byId roots children bs r b :
  link byId roots children bs = Ok r ->
  b ∈ roots \/ (b ∈ bs /\ treeParentId b = None) -> b ∈ r.1.
Proof.
  revert roots children. induction bs as [|x bs IH]; intros roots children; cbn [link].
  - intros [= <-] [?|[?%elem_of_nil _]]; done.
  - destruct (treeParentId x) as [p|] eqn:Hx.
    + case_match; [done|]. intros Hl Hb. apply (IH _ _ Hl).
      destruct Hb as [?|[[->|?]%elem_of_cons ?]]; [by left|congruence|by right].
    + intros Hl Hb. apply (IH _ _ Hl). rewrite elem_of_app, list_elem_of_singleton.
      destruct Hb as [?|[[->|?]%elem_of_cons ?]]; [by left; left|by left; right|by right].
Qed.

Lemma link_errors byId roots children bs e :
  link byId roots children bs = Throw e -> e <> out_of_fuel.
Proof.
  revert roots children. induction bs as [|b bs IH]; intros roots children; cbn [link]; [done|].
  destruct (treeParentId b); [|apply IH]. case_match; [by intros [= <-]|apply IH].
Qed.

(** Sorting keeps the links. *)
Lemma links_sorted bs roots children :
  links_ok bs roots children ->
  links_ok bs (sort_by branchOrder roots) (map (fun e => (e.1, sort_by branchOrder e.2)) children).
Proof.
  intros [H1 H2]. split.
  - intros b Hb%sort_by_elem. by apply H1.
  - intros p b Hb. apply H2. clear H1 H2. induction children as [|[k l] children IH]; cbn in *; [done|].
    case_decide; [by apply sort_by_elem in Hb|by apply IH].
Qed.

(** ** The traversal *)

Section traversal.
Context (bs : list Branch) (children : list (jsstr * list Branch)) (n : nat).
Context (Hchildren : forall p b, b ∈ default [] (mget children p) -> treeParentId b = Some p /\ b ∈ bs).
Context (Hn : length bs = n).

Notation out := (list NeonBranchInventoryItem).
Definition out_ids (l : out) : list jsstr := map (fun i => b_id (item_branch i)) l.

(** The place of a branch at depth [d]: a root, or below an item that is already out. *)
Definition placed (l : out) (b : Branch) (d : nat) : Prop :=
  match treeParentId b with
  | None => d = 0%nat
  | Some p => exists a, a ∈ l /\ b_id (item_branch a) = p /\ d = S (depth a)
  end.

(** Every item is placed by those before it. *)
Definition forest (l : out) : Prop :=
  forall i it, l !! i = Some it -> item_branch it ∈ bs /\ placed (take i l) it (depth it).

Definition visit_inv (st : visit_state) : Prop :=
  NoDup (out_ids (ordered st)) /\ NoDup (visiting st)
  /\ (forall x, x ∈ out_ids (ordered st) <-> x ∈ visiting st \/ x ∈ visited st)
  /\ forest (ordered st).

Lemma placed_prefix l l' b d : l `prefix_of` l' -> placed l b d -> placed l' b d.
Proof.
  intros [k ->]. unfold placed. destruct (treeParentId b); [|done].
  intros (a & Ha & H). exists a. split; [|done]. apply elem_of_app. by left.
Qed.

Lemma forest_snoc l b d : forest l -> b ∈ bs -> placed l b d -> forest (l ++ [mkItem b d]).
Proof.
  intros Hf Hb Hp i it [Hi|[-> Hi]]%lookup_snoc_Some.
  - destruct Hi as [Hlt Hi]. destruct (Hf i it Hi) as [H1 H2]. split; [done|].
    by rewrite take_app_le by lia.
  - subst it. split; [done|]. cbn [depth item_branch]. by rewrite take_app_length.
Qed.

Lemma out_ids_app l k : out_ids (l ++ k) = out_ids l ++ out_ids k.
Proof. apply map_app. Qed.

Lemma visit_unfold fuel b d st :
  visit children (S fuel) b d st =
  if bool_decide (b_id b ∈ visiting st) then Throw cycle_error
  else if bool_decide (b_id b ∈ visited st) then Ok st
  else
    st' ← visit_all children fuel (default [] (mget children (b_id b))) (S d)
            (mkVisit (sadd (visiting st) (b_id b)) (visited st) (ordered st ++ [mkItem b d]));
    Ok (mkVisit (filterb (fun i => negb (i ==s b_id b)) (visiting st'))
          (sadd (visited st') (b_id b)) (ordered st')).
Proof.
  cbn [visit]. case_bool_decide; [done|]. case_bool_decide; [done|]. f_equal.
  generalize (mkVisit (sadd (visiting st) (b_id b)) (visited st) (ordered st ++ [mkItem b d])).
  induction (default [] (mget children (b_id b))) as [|c kids IH]; intros st0; cbn [visit_all]; [done|].
  destruct (visit children fuel c (S d) st0) as [st1|]; cbn; [apply IH|done].
Qed.

(** What a visit guarantees. *)
Definition visit_post (st : visit_state) (r : parsed visit_state) : Prop :=
  match r with
  | Ok st' => visit_inv st' /\ ordered st `prefix_of` ordered st' /\ visiting st' = visiting st
  | Throw e => e = cycle_error
  end.

Lemma visiting_bounded st : visit_inv st -> (length (visiting st) <= n)%nat.
Proof.
  intros (_ & Hv & Hiff & Hf). rewrite <- Hn, <- (length_map b_id bs).
  apply NoDup_ListNoDup in Hv. apply (NoDup_incl_length Hv). intros x Hx.
  apply list_elem_of_In in Hx. assert (x ∈ out_ids (ordered st)) as Hout by (apply Hiff; by left).
  apply list_elem_of_fmap in Hout as (it & -> & Hit). apply list_elem_of_lookup in Hit as [i Hi].
  apply in_map, list_elem_of_In. by eapply Hf.
Qed.

Lemma visit_all_post fuel kids d st :
  (forall b st, visit_inv st -> (n < fuel + length (visiting st))%nat -> b ∈ bs ->
     placed (ordered st) b d -> visit_post st (visit children fuel b d st)) ->
  visit_inv st -> (n < fuel + length (visiting st))%nat ->
  (forall c, c ∈ kids -> c ∈ bs /\ placed (ordered st) c d) ->
  visit_post st (visit_all children fuel kids d st).
Proof.
  intros Hvisit. revert st. induction kids as [|c kids IH]; intros st Hinv Hfuel Hkids; cbn [visit_all].
  { by split. }
  destruct (Hkids c ltac:(by left)) as [Hc Hp].
  pose proof (Hvisit c st Hinv Hfuel Hc Hp) as H. destruct (visit children fuel c d st) as [st1|e]; cbn; [|exact H].
  destruct H as (Hinv1 & Hpre1 & Hv1).
  assert (visit_post st1 (visit_all children fuel kids d st1)) as H.
  { apply IH; [done|by rewrite Hv1|]. intros c' Hc'. destruct (Hkids c' ltac:(by right)).
    split; [done|]. by eapply placed_prefix. }
  unfold visit_post in *. destruct (visit_all children fuel kids d st1) as [st2|e]; [|done].
  destruct H as (? & ? & ?). split; [done|split; [by etrans|congruence]].
Qed.

Lemma visit_spec fuel b d st :
  visit_inv st -> (n < fuel + length (visiting st))%nat -> b ∈ bs -> placed (ordered st) b d ->
  visit_post st (visit children fuel b d st).
Proof.
  revert b d st. induction fuel as [|fuel IH]; intros b d st Hinv Hfuel Hb Hp.
  { pose proof (visiting_bounded st Hinv). lia. }
  rewrite visit_unfold. case_bool_decide as Hvis; [done|]. case_bool_decide as Hdone; [by split|].
  pose proof Hinv as (Hnd & Hv & Hiff & Hf).
  set (st0 := mkVisit _ _ _).
  assert (visiting st0 = visiting st ++ [b_id b]) as Ev0 by (cbn; unfold sadd; by rewrite decide_False).
  assert (visit_inv st0) as Hinv0.
  { split; [|split; [|split]].
    - cbn. rewrite out_ids_app. apply NoDup_app. split; [done|split; [|apply NoDup_singleton]].
      intros x Hx ->%list_elem_of_singleton. apply Hiff in Hx. tauto.
    - rewrite Ev0. apply NoDup_app. split; [done|split; [|apply NoDup_singleton]].
      by intros x Hx ->%list_elem_of_singleton.
    - intros x. rewrite Ev0. cbn [ordered visited st0]. rewrite out_ids_app, !elem_of_app, Hiff. tauto.
    - by apply forest_snoc. }
  assert (visit_post st0 (visit_all children fuel (default [] (mget children (b_id b))) (S d) st0)) as Hpost.
  { apply visit_all_post; [intros; by apply IH|done|rewrite Ev0, length_app; cbn; lia|].
    intros c Hc. apply Hchildren in Hc as [Hpar Hc]. split; [done|]. unfold placed. rewrite Hpar.
    exists (mkItem b d). split; [|done]. apply elem_of_app. right. by left. }
  destruct (visit_all _ _ _ _ st0) as [st1|e]; cbn; [|exact Hpost].
  destruct Hpost as ((Hnd1 & Hv1 & Hiff1 & Hf1) & Hpre1 & Ev1).
  assert (filterb (fun i => negb (i ==s b_id b)) (visiting st1) = visiting st) as Ev.
  { rewrite Ev1, Ev0, filterb_app. unfold filterb at 2. cbn. rewrite bool_decide_true by done. cbn.
    rewrite app_nil_r. apply filterb_all. intros a Ha. apply negb_true_iff, bool_decide_eq_false. by intros ->. }
  split; [|split; [|done]].
  - split; [done|split; [by rewrite Ev|split; [|done]]].
    intros x. cbn. rewrite Ev, sadd_elem, Hiff1, Ev1, Ev0, elem_of_app, list_elem_of_singleton. tauto.
  - cbn. etrans; [|exact Hpre1]. by exists [mkItem b d].
Qed.

End traversal.

(** ** Readers fail with one message *)

Definition fails_closed {A} (r : parsed A) : Prop :=
  match r with Ok _ => True | Throw e => e = js "Neon returned an invalid branch inventory" end.

Lemma closed_bind {A B} (m : parsed A) (f : A -> parsed B) :
  fails_closed m -> (forall a, fails_closed (f a)) -> fails_closed (m ≫= f).
Proof. destruct m; cbn; auto. Qed.

Lemma closed_ok {A} (a : A) : fails_closed (Ok a : parsed A).
Proof. done. Qed.
Lemma closed_invalid {A} : fails_closed (invalid : parsed A).
Proof. done. Qed.

#[local] Hint Resolve closed_ok closed_invalid : dope.
(** Follows a reader through its binds and tests. *)
Ltac closed :=
  repeat first
    [ apply closed_bind; [|intros]
    | match goal with |- fails_closed (if ?b then _ else _) => destruct b end
    | match goal with |- fails_closed (match ?x with _ => _ end) => destruct x end
    | solve [auto with dope] ].

Lemma closed_safeText v m : fails_closed (safeText v m).
Proof. unfold safeText. closed. Qed.
#[local] Hint Resolve closed_safeText : dope.
Lemma closed_safeLine v m : fails_closed (safeLine v m).
Proof. unfold safeLine. closed. Qed.
Lemma closed_object v : fails_closed (as_object v).
Proof. unfold as_object. closed. Qed.
Lemma closed_optionalSegment v : fails_closed (optionalSegment v).
Proof. unfold optionalSegment. closed. Qed.
Lemma closed_optionalLsn v : fails_closed (optionalLsn v).
Proof. unfold optionalLsn. closed. Qed.
Lemma closed_state v o : fails_closed (state v o).
Proof. unfold state. closed. Qed.
Lemma closed_initSource v : fails_closed (read_initSource v).
Proof. unfold read_initSource. closed. Qed.
Lemma closed_boolean v : fails_closed (requiredBoolean v).
Proof. unfold requiredBoolean. closed. Qed.
Lemma closed_required {A} (r : parsed (option A)) : fails_closed r -> fails_closed (required r).
Proof. intros. unfold required. closed; done. Qed.
Lemma closed_instant dp v o : fails_closed (instant dp v o).
Proof. unfold instant. closed. Qed.
#[local] Hint Resolve closed_safeLine closed_object closed_optionalSegment closed_optionalLsn
  closed_state closed_initSource closed_boolean closed_required closed_instant : dope.
Lemma closed_actions seen l : fails_closed (read_actions seen l).
Proof.
  revert seen. induction l as [|v l IH]; intros seen; cbn [read_actions]; [done|]. closed; apply IH.
Qed.
#[local] Hint Resolve closed_actions : dope.
Lemma closed_restrictedActions v : fails_closed (read_restrictedActions v).
Proof. unfold read_restrictedActions. closed. Qed.
#[local] Hint Resolve closed_restrictedActions : dope.
Lemma closed_read_branch dp project m v : fails_closed (read_branch dp project m v).
Proof. unfold read_branch. closed. Qed.
#[local] Hint Resolve closed_read_branch : dope.
Lemma closed_read_rows dp project m l : fails_closed (read_rows dp project m l).
Proof.
  revert m. induction l as [|v l IH]; intros m; cbn [read_rows]; [done|]. closed; apply IH.
Qed.

(** ** The theorem *)

(** The shape of an accepted inventory. *)
Definition inventory_ok (project : jsstr) (count : nat) (inv : NeonBranchInventory) : Prop :=
  inv_projectId inv = project /\ length (branches inv) = count
  /\ NoDup (out_ids (branches inv))
  /\ forall i (b : NeonBranchInventoryItem), branches inv !! i = Some b ->
       projectId b = project
       /\ match treeParentId b with
          | None => depth b = 0%nat /\ b_id b ∈ rootIds inv
          | Some p => exists j (a : NeonBranchInventoryItem), (j < i)%nat /\ branches inv !! j = Some a
                        /\ b_id a = p /\ depth b = S (depth a)
          end.

Lemma parse_inventory_shape date_parse project values :
  match parseNeonBranchInventory date_parse project values with
  | Ok inv => inventory_ok project (length values) inv
  | Throw e => e <> out_of_fuel
  end.
Proof.
  unfold parseNeonBranchInventory. destruct (neonSegment _); [|done].
  pose proof (closed_read_rows date_parse project [] values) as Hclosed.
  destruct (read_rows date_parse project [] values) as [byId|e] eqn:Hrows; cbn [mbind res_bind]; [|by rewrite Hclosed].
  apply read_rows_ok in Hrows as [[Hkeys Hby] Hlen]; [|split; [constructor|by intros ? ? ?%elem_of_nil]].
  destruct (link byId [] [] (mvals byId)) as [[roots children]|e] eqn:Hlink; cbn [mbind res_bind]; [|by apply link_errors in Hlink].
  pose proof (fun b => link_roots _ _ _ _ _ b Hlink) as Hall. apply (link_ok _ (mvals byId)) in Hlink; [|by split; [intros ? ?%elem_of_nil|intros ? ? ?%elem_of_nil]|done].
  apply links_sorted in Hlink as [Hroots Hchildren]. cbn [fst snd] in *. cbn zeta.
  set (kids := map _ children) in *. set (rs := sort_by branchOrder roots) in *.
  assert (Hmv : map b_id (mvals byId) = mkeys byId).
  { unfold mvals, mkeys. rewrite map_map. apply map_ext_Forall, Forall_forall. intros [k b] Hin.
    symmetry. by apply (Hby k b). }
  assert (Hn : length (mvals byId) = length byId) by apply length_map.
  assert (visit_inv (mvals byId) (mkVisit [] [] [])) as Hinit.
  { split; [constructor|split; [constructor|split; [|by intros i it ?]]].
    intros x. cbn. rewrite !elem_of_nil. tauto. }
  pose proof (visit_all_post (mvals byId) kids (length byId) (S (length byId)) rs 0 (mkVisit [] [] [])) as Hpost.
  specialize (Hpost (fun b st => visit_spec (mvals byId) kids (length byId) Hchildren Hn _ b 0 st)).
  specialize (Hpost Hinit ltac:(cbn; lia)).
  specialize (Hpost ltac:(intros c Hc; destruct (Hroots c Hc) as [Hp Hin]; split; [done|]; unfold placed; by rewrite Hp)).
  destruct (visit_all kids (S (length byId)) rs 0 _) as [st|e]; cbn [mbind res_bind]; [|cbn in Hpost; by rewrite Hpost].
  destruct Hpost as ((Hnd & _ & _ & Hforest) & _ & _).
  destruct (length (ordered st) =? length byId)%nat eqn:Hcount; [|done]. apply Nat.eqb_eq in Hcount.
  split; [done|split; [cbn; rewrite Hcount, Hlen; done|split; [done|]]].
  intros i b Hb. destruct (Hforest i b Hb) as [Hin Hp]. split.
  - apply list_elem_of_fmap in Hin as ([k b'] & E & Hin). rewrite E. by apply (Hby k b').
  - unfold placed in Hp. destruct (treeParentId b) as [p|] eqn:Et.
    + destruct Hp as (a & Ha & Hid & Hd). apply list_elem_of_lookup in Ha as [j Hj].
      apply lookup_take_Some in Hj as [Hj Hlt]. by exists j, a.
    + split; [done|]. cbn [rootIds]. apply (list_elem_of_fmap_2 b_id), sort_by_elem, Hall. by right.
Qed.

(** Every branch of an accepted inventory is of its project. *)
Lemma parsed_of_one_project date_parse project values inv :
  parseNeonBranchInventory date_parse project values = Ok inv ->
  forall b, b ∈ branches inv -> projectId (item_branch b) = inv_projectId inv.
Proof.
  intros H b [i Hb]%list_elem_of_lookup. pose proof (parse_inventory_shape date_parse project values) as Hp.
  rewrite H in Hp. destruct Hp as (-> & _ & _ & Hall). by apply (Hall i).
Qed.

(** An inventory is accepted only as a complete forest: every row becomes exactly
    one branch of the asked project, identifiers are unique, a branch without tree
    parent is a root at depth zero, and every other branch comes after its parent, one
    level deeper; and the traversal of any provider answer ends, cyclic ones included
    (it never runs out of the fuel given to it). *)
Theorem inventory_is_forest date_parse project values :
  match parseNeonBranchInventory date_parse project values with
  | Ok inv => inventory_ok project (length values) inv
  | Throw e => e <> out_of_fuel
  end.
Proof. apply parse_inventory_shape. Qed.

(** Two rows in the wrong order, and a cycle. *)
Definition demo_row (id : jsstr) (parent : value) : value :=
  VObj [(js "id", VStr id); (js "project_id", VStr (js "p")); (js "parent_id", parent);
    (js "name", VStr id); (js "current_state", VStr (js "ready")); (js "default", VBool false);
    (js "protected", VBool false); (js "creation_source", VStr (js "console"));
    (js "state_changed_at", VStr (js "2026-01-01T00:00:00Z"));
    (js "created_at", VStr (js "2026-01-01T00:00:00.5Z"));
    (js "updated_at", VStr (js "2026-01-01T00:00:00+09:00"))].

Example demo_inventory :
  (fun inv => map (fun i => (b_id (item_branch i), depth i)) (branches inv))
    <$> parseNeonBranchInventory (fun _ => Some 0) (js "p")
          [demo_row (js "br-2") (VStr (js "br-1")); demo_row (js "br-1") VNull]
  = Ok [(js "br-1", 0%nat); (js "br-2", 1%nat)].
Proof. vm_compute. done. Qed.

Example cyclic_inventory :
  parseNeonBranchInventory (fun _ => Some 0) (js "p")
    [demo_row (js "br-1") (VStr (js "br-2")); demo_row (js "br-2") (VStr (js "br-1"))]
  = Throw cycle_error.
Proof. vm_compute. done. Qed.
