(* ===== verification/NeonDeletePlan.v ===== *)
(** * The plan of a branch deletion

    Models [workspace-cloud/lib/providers/neon-branch-delete-plan.ts]: a request, the
    facts a plan records about a branch that the workspace created and nothing refers
    to, and the revalidation of the plan. The last theorems relate revalidation to
    planning again. *)

From S2P Require Import Prelude JsString JsMap JsValue JsSort Regex NeonBranches.
From Stdlib Require String.
Import Stdlib.Strings.String.StringSyntax.
Local Open Scope Z_scope.

(** ** Data *)

Definition NEON_BRANCH_DELETE_PLAN_TTL_MS : Z := ten_minutes.

Record NeonBranchDeletePlanRequest := mkDeleteRequest {
  dr_idempotencyKey : jsstr; dr_projectId : jsstr; dr_branchId : jsstr }.
Record NeonBranchDeleteReferenceSnapshot := mkReferences {
  connectionCount : num; activeLeaseCount : num; endpointIds : list jsstr }.
Record NeonBranchDeleteOwnershipBoundary := mkOwnership {
  ow_operationId : jsstr; ow_state : jsstr; ow_planHash : jsstr; ow_marker : jsstr; ow_branchId : jsstr }.

Record NeonBranchDeleteTarget := mkDeleteTarget {
  dt_projectId : jsstr; dt_branchId : jsstr; dt_parentId : option jsstr; dt_treeParentId : option jsstr;
  dt_name : jsstr; dt_currentState : NeonBranchState; dt_pendingState : option NeonBranchState;
  dt_stateChangedAt : jsstr; dt_createdAt : jsstr; dt_updatedAt : jsstr; dt_creationSource : jsstr;
  dt_initSource : NeonBranchInitSource; dt_default : bool; dt_protected : bool;
  dt_expiresAt : option jsstr; dt_restrictedActions : list NeonBranchRestrictedAction;
  dt_childBranchIds : list jsstr }.

Record NeonBranchDeletePlan := mkDeletePlan {
  dp_version : Z; dp_kind : jsstr; dp_operationId : jsstr; dp_integrationId : jsstr;
  dp_generation : jsstr; dp_issuedAt : jsstr; dp_expiresAt : jsstr; dp_target : NeonBranchDeleteTarget;
  dp_references : NeonBranchDeleteReferenceSnapshot; dp_createOperationId : jsstr;
  dp_createPlanHash : jsstr; dp_deletionMode : jsstr; dp_risk : PlanRisk; dp_approvalPolicy : ApprovalPolicy;
  dp_warningCodes : list jsstr }.

(** ** Operations *)

Definition sortedUniqueSegments (values : list jsstr) : planned (list jsstr) :=
  _ ← refuse_if ((64 <? length values)%nat
        || existsb (fun v => bool_decide (neonSegment (VStr v) = None)) values
        || negb (length (sof values) =? length values)%nat)
      (js "Invalid Neon branch delete reference snapshot") 500;
  Ok (sort_by str_cmp values).

Definition validateReferenceSnapshot (snapshot : NeonBranchDeleteReferenceSnapshot)
    : planned NeonBranchDeleteReferenceSnapshot :=
  _ ← refuse_if (negb (bool_decide (connectionCount snapshot = Some 0))
                 || negb (bool_decide (activeLeaseCount snapshot = Some 0)))
      (js "Neon branch is still referenced by workspace authority") 409;
  ids ← sortedUniqueSegments (endpointIds snapshot);
  Ok (mkReferences (Some 0) (Some 0) ids).

(** [/^v1\.[A-Za-z0-9_-]{43}$/] *)
Definition ownership_re : re :=
  fixed (chars (js "v1.") ++ replicate 43 (fun c => is_alnum c || (c =? cUS)%N || (c =? cDASH)%N)).

Definition ownedReadyLeaf (inv : NeonBranchInventory) (branchId : jsstr)
    (ownership : NeonBranchDeleteOwnershipBoundary) : planned NeonBranchInventoryItem :=
  match sole_branch inv branchId with
  | None => refuse (js "Neon branch is unavailable") 409
  | Some branch =>
    _ ← refuse_if (negb (bool_decide (currentState branch = st_ready))
                   || negb (bool_decide (pendingState branch = None)) || negb (b_ready branch))
        (js "Neon branch is not ready for deletion") 409;
    _ ← refuse_if (bool_decide (treeParentId branch = None)) (js "Neon root branch cannot be deleted") 409;
    _ ← refuse_if (b_default branch) (js "Neon default branch cannot be deleted") 409;
    _ ← refuse_if (b_protected branch) (js "Neon protected branch cannot be deleted") 409;
    _ ← refuse_if (0 <? length (restrictedActions branch))%nat
        (js "Neon currently restricts this branch mutation") 409;
    _ ← refuse_if (existsb (fun candidate => bool_decide (treeParentId (item_branch candidate) = Some (b_id branch)))
                     (branches inv)) (js "Neon branch with child branches cannot be deleted") 409;
    _ ← refuse_if (negb (ow_branchId ownership ==s b_id branch) || negb (ow_state ownership ==s js "succeeded")
                   || negb (uuid (ow_operationId ownership)) || negb (test hash_re (ow_planHash ownership))
                   || negb (test ownership_re (ow_marker ownership)))
        (js "Only a completed DopeDB-owned branch can be deleted") 409;
    Ok branch
  end.

Definition parseNeonBranchDeletePlanRequest (v : value) : planned NeonBranchDeletePlanRequest :=
  match exactRecord v [js "idempotencyKey"; js "projectId"; js "branchId"] with
  | Some r =>
    match uuid_value (field r (js "idempotencyKey")), neonSegment (field r (js "projectId")),
          neonSegment (field r (js "branchId")) with
    | Some key, Some project, Some branch => Ok (mkDeleteRequest key project branch)
    | _, _, _ => refuse (js "Invalid Neon branch delete plan request") 400
    end
  | None => refuse (js "Invalid Neon branch delete plan request") 400
  end.

Definition delete_warnings : list jsstr :=
  [js "NEON_BRANCH_CONNECTIONS_TERMINATE"; js "NEON_SOFT_DELETE_RECOVERY_NOT_GUARANTEED"].

(** The target of the plan; the branch was checked to be neither default nor protected,
    and to have neither restrictions nor children. *)
Definition delete_target (branch : NeonBranchInventoryItem) : NeonBranchDeleteTarget :=
  mkDeleteTarget (projectId branch) (b_id branch) (parentId branch) (treeParentId branch)
    (b_name branch) (currentState branch) (pendingState branch) (stateChangedAt branch)
    (createdAt branch) (updatedAt branch) (creationSource branch) (initSource branch)
    false false (b_expiresAt branch) [] [].

Section dates.
Context (toISOString : Z -> jsstr) (date_parse : jsstr -> option Z).

Definition buildNeonBranchDeletePlan (request : NeonBranchDeletePlanRequest) (inv : NeonBranchInventory)
    (ownership : NeonBranchDeleteOwnershipBoundary) (refs : NeonBranchDeleteReferenceSnapshot)
    (operationId integrationId : jsstr) (integrationGeneration : Z) (now : num)
    : planned NeonBranchDeletePlan :=
  match now with
  | None => refuse (js "Invalid Neon branch delete plan context") 500
  | Some time =>
    _ ← refuse_if (negb (uuid operationId) || negb (uuid integrationId) || (integrationGeneration <? 1)
                   || negb (inv_projectId inv ==s dr_projectId request))
        (js "Invalid Neon branch delete plan context") 500;
    branch ← ownedReadyLeaf inv (dr_branchId request) ownership;
    references ← validateReferenceSnapshot refs;
    issuedAt ← iso toISOString time;
    expiresAt ← iso toISOString (time + NEON_BRANCH_DELETE_PLAN_TTL_MS);
    Ok (mkDeletePlan 1 (js "neon.branch.delete") operationId integrationId (show_Z integrationGeneration)
          issuedAt expiresAt (delete_target branch) references (ow_operationId ownership)
          (ow_planHash ownership) (js "provider_default_soft_delete") standard
          single_admin delete_warnings)
  end.

(** The branch still has the properties the plan recorded. *)
Definition same_delete_target (b : NeonBranchInventoryItem) (t : NeonBranchDeleteTarget) : bool :=
  (projectId b ==s dt_projectId t) && bool_decide (parentId b = dt_parentId t)
  && bool_decide (treeParentId b = dt_treeParentId t) && (b_name b ==s dt_name t)
  && bool_decide (currentState b = dt_currentState t) && bool_decide (pendingState b = dt_pendingState t)
  && (stateChangedAt b ==s dt_stateChangedAt t) && (createdAt b ==s dt_createdAt t)
  && (updatedAt b ==s dt_updatedAt t) && (creationSource b ==s dt_creationSource t)
  && bool_decide (initSource b = dt_initSource t) && bool_decide (b_default b = dt_default t)
  && bool_decide (b_protected b = dt_protected t) && bool_decide (b_expiresAt b = dt_expiresAt t)
  && sameRestrictedActions (restrictedActions b) (dt_restrictedActions t).

Definition revalidateNeonBranchDeletePlan (plan : NeonBranchDeletePlan) (inv : NeonBranchInventory)
    (ownership : NeonBranchDeleteOwnershipBoundary) (refs : NeonBranchDeleteReferenceSnapshot)
    (now : num) : planned NeonBranchDeletePlan :=
  _ ← refuse_if (expired date_parse (dp_issuedAt plan) (dp_expiresAt plan) NEON_BRANCH_DELETE_PLAN_TTL_MS now)
      (js "Neon branch delete plan expired") 409;
  _ ← refuse_if (negb (inv_projectId inv ==s dt_projectId (dp_target plan)))
      (js "Neon branch delete project changed") 409;
  branch ← ownedReadyLeaf inv (dt_branchId (dp_target plan)) ownership;
  references ← validateReferenceSnapshot refs;
  _ ← refuse_if (negb (same_delete_target branch (dp_target plan))
        || negb (ow_operationId ownership ==s dp_createOperationId plan)
        || negb (ow_planHash ownership ==s dp_createPlanHash plan)
        || negb (bool_decide (connectionCount references = connectionCount (dp_references plan)))
        || negb (bool_decide (activeLeaseCount references = activeLeaseCount (dp_references plan)))
        || negb (same_list (endpointIds references) (endpointIds (dp_references plan))))
      (js "Neon branch changed after delete planning") 409;
  Ok plan.

(** ** Lemmas *)

(** What a branch accepted for deletion is. *)
Definition owned_leaf (inv : NeonBranchInventory) (ownership : NeonBranchDeleteOwnershipBoundary)
    (b : NeonBranchInventoryItem) : Prop :=
  b ∈ branches inv /\ currentState b = st_ready /\ pendingState b = None /\ b_ready b = true
  /\ treeParentId b <> None /\ b_default b = false /\ b_protected b = false /\ restrictedActions b = []
  /\ (forall c, c ∈ branches inv -> treeParentId (item_branch c) <> Some (b_id b))
  /\ ow_branchId ownership = b_id b /\ ow_state ownership = js "succeeded".

Lemma ownedReadyLeaf_ok inv id ownership b :
  ownedReadyLeaf inv id ownership = Ok b -> owned_leaf inv ownership b /\ b_id b = id.
Proof.
  unfold ownedReadyLeaf. destruct (sole_branch inv id) as [x|] eqn:Hx; [|done].
  apply sole_branch_id in Hx as [Hin Hid]. intros H. refusals. simplify_eq. bools.
  split; [|done]. repeat split; try done.
  - by destruct (restrictedActions b).
  - intros c Hc E. match goal with H : existsb _ _ = false |- _ => rename H into Hex end.
    apply not_true_iff_false in Hex. apply Hex, existsb_exists. exists c.
    split; [by apply list_elem_of_In|by apply bool_decide_eq_true].
Qed.

Lemma validate_refs_ok refs r :
  validateReferenceSnapshot refs = Ok r -> connectionCount r = Some 0 /\ activeLeaseCount r = Some 0
  /\ r = mkReferences (Some 0) (Some 0) (endpointIds r).
Proof. unfold validateReferenceSnapshot. intros H. res_inv. done. Qed.

Lemma same_delete_target_spec (b : NeonBranchInventoryItem) t :
  dt_childBranchIds t = [] ->
  b_default b = false -> b_protected b = false -> restrictedActions b = [] -> b_id b = dt_branchId t ->
  same_delete_target b t = true <-> delete_target b = t.
Proof.
  intros Hc Hd Hp Hr Hid. unfold same_delete_target. destruct t; cbn in *. subst.
  rewrite Hd, Hp, Hr. rewrite !andb_true_iff, same_actions_spec, !bool_decide_eq_true.
  unfold delete_target. split; [naive_solver|]. intros [= <- <- <- <- <- <- <- <- <- <- <- <- <- <- <-].
  done.
Qed.

(** A plan is the record of the facts it was built from. *)
Lemma build_delete_ok request inv ownership refs op integration gen t plan :
  buildNeonBranchDeletePlan request inv ownership refs op integration gen (Some t) = Ok plan <->
  uuid op = true /\ uuid integration = true /\ 1 <= gen /\ inv_projectId inv = dr_projectId request
  /\ exists b r issued expires,
    ownedReadyLeaf inv (dr_branchId request) ownership = Ok b
    /\ validateReferenceSnapshot refs = Ok r
    /\ iso toISOString t = Ok issued /\ iso toISOString (t + NEON_BRANCH_DELETE_PLAN_TTL_MS) = Ok expires
    /\ plan = mkDeletePlan 1 (js "neon.branch.delete") op integration (show_Z gen) issued expires
          (delete_target b) r (ow_operationId ownership) (ow_planHash ownership)
          (js "provider_default_soft_delete") standard single_admin delete_warnings.
Proof.
  unfold buildNeonBranchDeletePlan. split.
  - intros H. refusals. bools. rewrite Z.ltb_ge in *.
    apply res_bind_ok in H as (b & Hb & (r & Hr & (i & Hi & (e & He & [= <-])
      %res_bind_ok)%res_bind_ok)%res_bind_ok).
    repeat (split; [done|]). by exists b, r, i, e.
  - intros (H1 & H2 & H3%Z.ltb_ge & H4 & b & r & i & e & Hb & Hr & Hi & He & ->).
    rewrite H1, H2, H3, bool_decide_eq_true_2, Hb by done. cbn. by rewrite Hr, Hi, He.
Qed.

(** ** Revalidation *)

(** A deletion plan is revalidated exactly while it is fresh and planning again, for
    the same request, operation and time, from the current inventory, ownership record
    and reference counts would give the very same plan: any change of a recorded fact,
    any new reference, child or restriction, and nothing else, refuses it. *)
Theorem delete_revalidation request inv0 ownership0 refs0 op integration gen t plan
    inv ownership refs now :
  date_law toISOString date_parse ->
  of_one_project inv0 ->
  buildNeonBranchDeletePlan request inv0 ownership0 refs0 op integration gen (Some t) = Ok plan ->
  revalidateNeonBranchDeletePlan plan inv ownership refs now = Ok plan <->
  (exists n, now = Some n /\ n < t + NEON_BRANCH_DELETE_PLAN_TTL_MS)
  /\ buildNeonBranchDeletePlan request inv ownership refs op integration gen (Some t) = Ok plan.
Proof.
  intros law Hone (Hop & Hint & Hgen & Hproj & b0 & r0 & i & e & Hb0 & Hr0 & Hi & He & Hplan)%build_delete_ok.
  apply ownedReadyLeaf_ok in Hb0 as [(Hin0 & Hleaf0) Hid0]. apply validate_refs_ok in Hr0 as (Hc0 & Hl0 & Er0).
  assert (Hp0 : projectId b0 = dr_projectId request) by (rewrite (Hone b0) by done; done).
  unfold revalidateNeonBranchDeletePlan. rewrite build_delete_ok. subst plan.
  cbn [dp_issuedAt dp_expiresAt dp_target dp_createOperationId dp_createPlanHash dp_references].
  split.
  - intros H. refusals. apply res_bind_ok in H as (b & Hb & (r & Hr & H)%res_bind_ok). refusals.
    match goal with H : expired _ _ _ _ _ = false |- _ => apply (expired_spec _ _ t _ _ _ _ law Hi He) in H end.
    split; [done|]. bools. repeat (split; [cbn in *; congruence|]).
    pose proof Hb as [Hleaf Hid]%ownedReadyLeaf_ok. pose proof Hr as (Hc & Hl & Er)%validate_refs_ok.
    match goal with H : same_list _ _ = true |- _ => apply same_list_spec in H; rename H into Hids end.
    assert (delete_target b = delete_target b0) as Ht.
    { apply same_delete_target_spec; [done|apply Hleaf..|done|done]. }
    exists b, r, i, e. cbn in Hb. rewrite Hid0 in Hb. repeat (split; [done|]).
    rewrite Ht, Er, Hids, <- Er0. congruence.
  - intros [Hfresh (_ & _ & _ & Hproj' & b & r & i' & e' & Hb & Hr & Hi' & He' & Heq)].
    pose proof (f_equal dp_target Heq) as Et. pose proof (f_equal dp_references Heq) as Er.
    pose proof (f_equal dp_createOperationId Heq) as Eo. pose proof (f_equal dp_createPlanHash Heq) as Eh.
    cbn in Et, Er, Eo, Eh. clear Heq.
    pose proof Hb as [Hleaf Hid]%ownedReadyLeaf_ok.
    rewrite refuse_pass by by apply (expired_spec _ _ t _ _ _ _ law Hi He).
    rewrite refuse_pass by (apply negb_false_iff, bool_decide_eq_true; cbn; congruence).
    cbn [dt_branchId delete_target]. rewrite Hid0, Hb. cbn [mbind res_bind].
    rewrite Hr. cbn [mbind res_bind]. subst r.
    assert (same_delete_target b (delete_target b0) = true) as ->.
    { apply same_delete_target_spec; [done|apply Hleaf..|cbn; congruence|done]. }
    rewrite refuse_pass; [done|].
    by rewrite Eo, Eh, !bool_decide_eq_true_2, (proj2 (same_list_spec _ _)).
Qed.

End dates.

(** A plan made at time zero, checked a second later with one endpoint reordered. *)
Definition demo_ownership : NeonBranchDeleteOwnershipBoundary :=
  mkOwnership demo_uuid (js "succeeded") (replicate 64 48%N) (js "v1." ++ replicate 43 65%N) (js "dev").
Definition demo_references (ids : list jsstr) : NeonBranchDeleteReferenceSnapshot :=
  mkReferences (Some 0) (Some 0) ids.
Definition demo_delete_plan : planned NeonBranchDeletePlan :=
  buildNeonBranchDeletePlan unary_date (mkDeleteRequest demo_uuid (js "p") (js "dev")) demo_project
    demo_ownership (demo_references [js "ep-b"; js "ep-a"]) demo_uuid demo_uuid 1 (Some 0).

Lemma delete_revalidation_witness :
  match demo_delete_plan with
  | Ok plan => revalidateNeonBranchDeletePlan parse_unary plan demo_project demo_ownership
                 (demo_references [js "ep-a"; js "ep-b"]) (Some 1000) = Ok plan
  | Throw _ => False
  end.
Proof.
  destruct demo_delete_plan as [plan|e] eqn:E; [|by vm_compute in E].
  apply (delete_revalidation unary_date parse_unary (mkDeleteRequest demo_uuid (js "p") (js "dev"))
    demo_project demo_ownership (demo_references [js "ep-b"; js "ep-a"]) demo_uuid demo_uuid 1 0 plan
    demo_project demo_ownership (demo_references [js "ep-a"; js "ep-b"]) (Some 1000)
    unary_date_law demo_of_one_project E).
  split; [by exists 1000|]. rewrite <- E. vm_compute. reflexivity.
Defined.
