(* ===== verification/NeonCreatePlan.v ===== *)
(** * The plan of a branch creation

    Models [workspace-cloud/lib/providers/neon-branch-plan.ts]: the request with its
    source point, the plan with the warnings and the approval it needs, and its
    revalidation against a fresh inventory. The theorems relate revalidation to planning
    again and say when a second administrator is needed. *)

From S2P Require Import Prelude JsString JsMap JsValue JsSort Regex NeonBranches.
From Stdlib Require String.
Import Stdlib.Strings.String.StringSyntax.
Local Open Scope Z_scope.

(** ** Data *)

Definition NEON_BRANCH_PLAN_TTL_MS : Z := ten_minutes.

Inductive NeonBranchSourcePoint := pt_head | pt_lsn (v : jsstr) | pt_timestamp (v : jsstr).
Inductive CreateInitSource := init_parent_data | init_schema_only.
Inductive CreateEndpoint := ep_none | ep_read_write.
#[export] Instance CreateInitSource_eq_dec : EqDecision CreateInitSource.
Proof. solve_decision. Defined.
#[export] Instance CreateEndpoint_eq_dec : EqDecision CreateEndpoint.
Proof. solve_decision. Defined.
#[export] Instance NeonBranchSourcePoint_eq_dec : EqDecision NeonBranchSourcePoint.
Proof. solve_decision. Defined.

Record NeonBranchCreatePlanRequest := mkCreateRequest {
  cr_idempotencyKey : jsstr; cr_projectId : jsstr; cr_sourceBranchId : jsstr; cr_targetName : jsstr;
  cr_initSource : CreateInitSource; cr_sourcePoint : NeonBranchSourcePoint;
  cr_endpoint : CreateEndpoint; cr_sourceEnvironment : PlanEnvironment }.

Record NeonBranchCreateSource := mkCreateSource {
  cs_projectId : jsstr; cs_branchId : jsstr; cs_parentId : option jsstr; cs_treeParentId : option jsstr;
  cs_name : jsstr; cs_currentState : NeonBranchState; cs_pendingState : option NeonBranchState;
  cs_stateChangedAt : jsstr; cs_createdAt : jsstr; cs_updatedAt : jsstr; cs_creationSource : jsstr;
  cs_initSource : NeonBranchInitSource; cs_sourceLsn : option jsstr; cs_sourceTimestamp : option jsstr;
  cs_default : bool; cs_protected : bool; cs_expiresAt : option jsstr;
  cs_environment : PlanEnvironment; cs_point : NeonBranchSourcePoint;
  cs_restrictedActions : list NeonBranchRestrictedAction }.

Record NeonBranchCreateTarget := mkCreateTarget {
  ct_name : jsstr; ct_initSource : CreateInitSource; ct_endpoint : CreateEndpoint; ct_protected : bool;
  ct_expiresAt : option jsstr; ct_copiesData : bool; ct_createsCompute : bool }.

Record NeonBranchCreatePlan := mkCreatePlan {
  cp_version : Z; cp_kind : jsstr; cp_operationId : jsstr; cp_integrationId : jsstr;
  cp_generation : jsstr; cp_issuedAt : jsstr; cp_expiresAt : jsstr; cp_source : NeonBranchCreateSource;
  cp_target : NeonBranchCreateTarget; cp_risk : PlanRisk; cp_approvalPolicy : ApprovalPolicy;
  cp_warningCodes : list jsstr }.

(** ** Requests *)

Definition branchName (v : value) : option jsstr :=
  match v with
  | VStr s => if (1 <=? length s)%nat && (length s <=? 256)%nat && (trim s ==s s)
                 && negb (existsb (fun c => control_char c || bidi_char c) s)
              then Some s else None
  | _ => None
  end.

Definition is_text (v : value) (s : jsstr) : bool :=
  match v with VStr t => t ==s s | _ => false end.

Section dates.
Context (toISOString : Z -> jsstr) (date_parse : jsstr -> option Z).

Definition sourcePoint (v : value) : option NeonBranchSourcePoint :=
  match v with
  | VObj point =>
    let kind := field point (js "kind") in
    if is_text kind (js "head") && (length (mkeys point) =? 1)%nat then Some pt_head
    else
      match field point (js "value") with
      | VStr s =>
        if (is_text kind (js "lsn") || is_text kind (js "timestamp")) && (length (mkeys point) =? 2)%nat
           && mhas point (js "value") && (0 <? length s)%nat && (length s <=? 64)%nat
        then
          if is_text kind (js "lsn") && test lsn_re s then Some (pt_lsn s)
          else if is_text kind (js "timestamp") && test instant_re s
                  && negb (bool_decide (date_parse s = None)) then Some (pt_timestamp s)
          else None
        else None
      | _ => None
      end
  | _ => None
  end.

Definition create_initSource (v : value) : option CreateInitSource :=
  if is_text v (js "parent-data") then Some init_parent_data
  else if is_text v (js "schema-only") then Some init_schema_only else None.
Definition create_endpoint (v : value) : option CreateEndpoint :=
  if is_text v (js "none") then Some ep_none
  else if is_text v (js "read_write") then Some ep_read_write else None.

Definition create_fields : list jsstr :=
  [js "idempotencyKey"; js "projectId"; js "sourceBranchId"; js "targetName"; js "initSource";
   js "sourcePoint"; js "endpoint"; js "sourceEnvironment"].

Definition read_create_request (r : js_record) : option NeonBranchCreatePlanRequest :=
  point ← sourcePoint (field r (js "sourcePoint"));
  key ← uuid_value (field r (js "idempotencyKey"));
  project ← neonSegment (field r (js "projectId"));
  branch ← neonSegment (field r (js "sourceBranchId"));
  name ← branchName (field r (js "targetName"));
  init ← create_initSource (field r (js "initSource"));
  endpoint ← create_endpoint (field r (js "endpoint"));
  environment ← plan_environment (field r (js "sourceEnvironment"));
  Some (mkCreateRequest key project branch name init point endpoint environment).

Definition parseNeonBranchCreatePlanRequest (v : value) : planned NeonBranchCreatePlanRequest :=
  match r ← exactRecord v create_fields; read_create_request r with
  | Some request => Ok request
  | None => refuse (js "Invalid Neon branch create plan request") 400
  end.

(** ** Plans *)

(** The branch to copy from, ready and not changing. *)
Definition ready_source (inv : NeonBranchInventory) (id : jsstr) : option NeonBranchInventoryItem :=
  match sole_branch inv id with
  | Some source =>
    if bool_decide (currentState source = st_ready) && bool_decide (pendingState source = None)
       && b_ready source
    then Some source else None
  | None => None
  end.

Definition name_in_use (inv : NeonBranchInventory) (name : jsstr) : bool :=
  existsb (fun b => b_name (item_branch b) ==s name) (branches inv).

(** [left < right], false when either is [NaN] *)
Definition num_ltb (left right : num) : bool :=
  match left, right with Some l, Some r => l <? r | _, _ => false end.

(** The timestamp test, the same when planning and when revalidating. *)
Definition outside_lifetime (point : NeonBranchSourcePoint) (source : NeonBranchInventoryItem) (now : Z) : bool :=
  match point with
  | pt_timestamp v =>
    num_ltb (date_parse v) (date_parse (createdAt source)) || num_ltb (Some (now + 30000)) (date_parse v)
  | _ => false
  end.

Definition create_source (request : NeonBranchCreatePlanRequest) (source : NeonBranchInventoryItem)
    : NeonBranchCreateSource :=
  mkCreateSource (projectId source) (b_id source) (parentId source) (treeParentId source) (b_name source)
    (currentState source) (pendingState source) (stateChangedAt source) (createdAt source)
    (updatedAt source) (creationSource source) (initSource source) (sourceLsn source)
    (sourceTimestamp source) (b_default source) (b_protected source) (b_expiresAt source)
    (cr_sourceEnvironment request) (cr_sourcePoint request) (restrictedActions source).

Definition copiesData (request : NeonBranchCreatePlanRequest) : bool :=
  bool_decide (cr_initSource request = init_parent_data).
Definition productionData (request : NeonBranchCreatePlanRequest) : bool :=
  copiesData request && bool_decide (cr_sourceEnvironment request = production_env).
Definition createsCompute (request : NeonBranchCreatePlanRequest) : bool :=
  bool_decide (cr_endpoint request = ep_read_write).

Definition push_if (b : bool) (codes : list jsstr) : list jsstr := if b then codes else [].
Definition create_warnings (request : NeonBranchCreatePlanRequest) (source : NeonBranchInventoryItem)
    : list jsstr :=
  push_if (productionData request) [js "NEON_PRODUCTION_DATA_COPY"]
  ++ push_if (b_protected source) [js "NEON_PROTECTED_PARENT_CREDENTIALS_ROTATE"]
  ++ push_if (negb (copiesData request)) [js "NEON_SCHEMA_ONLY_HAS_NO_DATA"]
  ++ push_if (createsCompute request)
       [js "NEON_ENDPOINT_CREATES_COMPUTE"; js "NEON_INHERITED_DOPEDB_CREDENTIALS_RETIRED"]
  ++ push_if (bool_decide (cr_sourcePoint request = pt_head)) [js "NEON_HEAD_RESOLVED_AT_EXECUTION"].

(** The object that [buildNeonBranchCreatePlan] returns. *)
Definition create_plan (request : NeonBranchCreatePlanRequest) (source : NeonBranchInventoryItem)
    (operationId integrationId : jsstr) (integrationGeneration : Z) (issuedAt expiresAt : jsstr)
    : NeonBranchCreatePlan :=
  mkCreatePlan 1 (js "neon.branch.create") operationId integrationId (show_Z integrationGeneration)
    issuedAt expiresAt (create_source request source)
    (mkCreateTarget (cr_targetName request) (cr_initSource request) (cr_endpoint request) false None
       (copiesData request) (createsCompute request))
    (if productionData request then production_data else standard)
    (if productionData request then separate_admin else single_admin)
    (create_warnings request source).

Definition buildNeonBranchCreatePlan (request : NeonBranchCreatePlanRequest) (inv : NeonBranchInventory)
    (operationId integrationId : jsstr) (integrationGeneration : Z) (workspaceProductionReference : bool)
    (now : num) : planned NeonBranchCreatePlan :=
  match now with
  | None => refuse (js "Invalid Neon branch create plan context") 500
  | Some time =>
    _ ← refuse_if (negb (uuid operationId) || negb (uuid integrationId) || (integrationGeneration <? 1)
                   || negb (inv_projectId inv ==s cr_projectId request))
        (js "Invalid Neon branch create plan context") 500;
    match ready_source inv (cr_sourceBranchId request) with
    | None => refuse (js "Neon source branch is not ready") 409
    | Some source =>
      _ ← refuse_if (name_in_use inv (cr_targetName request))
          (js "Neon target branch name is already in use") 409;
      _ ← refuse_if ((b_protected source || workspaceProductionReference)
                     && negb (bool_decide (cr_sourceEnvironment request = production_env)))
          (js "Neon production source cannot be downgraded") 409;
      _ ← refuse_if (outside_lifetime (cr_sourcePoint request) source time)
          (js "Neon source timestamp is outside the branch lifetime") 409;
      issuedAt ← iso toISOString time;
      expiresAt ← iso toISOString (time + NEON_BRANCH_PLAN_TTL_MS);
      Ok (create_plan request source operationId integrationId integrationGeneration issuedAt expiresAt)
    end
  end.

(** The source still has the properties the plan recorded. *)
Definition same_create_source (b : NeonBranchInventoryItem) (s : NeonBranchCreateSource) : bool :=
  (projectId b ==s cs_projectId s) && bool_decide (parentId b = cs_parentId s)
  && bool_decide (treeParentId b = cs_treeParentId s) && (b_name b ==s cs_name s)
  && bool_decide (currentState b = cs_currentState s) && bool_decide (pendingState b = cs_pendingState s)
  && (stateChangedAt b ==s cs_stateChangedAt s) && (createdAt b ==s cs_createdAt s)
  && (updatedAt b ==s cs_updatedAt s) && (creationSource b ==s cs_creationSource s)
  && bool_decide (initSource b = cs_initSource s) && bool_decide (sourceLsn b = cs_sourceLsn s)
  && bool_decide (sourceTimestamp b = cs_sourceTimestamp s) && bool_decide (b_default b = cs_default s)
  && bool_decide (b_protected b = cs_protected s) && bool_decide (b_expiresAt b = cs_expiresAt s)
  && sameRestrictedActions (restrictedActions b) (cs_restrictedActions s).

(** [source.expiresAt !== null && Date.parse(source.expiresAt) <= now] *)
Definition source_expired (b : NeonBranchInventoryItem) (now : Z) : bool :=
  match b_expiresAt b with
  | Some e => match date_parse e with Some t => t <=? now | None => false end
  | None => false
  end.

Definition revalidateNeonBranchCreatePlan (plan : NeonBranchCreatePlan) (inv : NeonBranchInventory)
    (workspaceProductionReference : bool) (now : num) : planned NeonBranchCreatePlan :=
  _ ← refuse_if (expired date_parse (cp_issuedAt plan) (cp_expiresAt plan) NEON_BRANCH_PLAN_TTL_MS now)
      (js "Neon branch create plan expired") 409;
  _ ← refuse_if (negb (inv_projectId inv ==s cs_projectId (cp_source plan)))
      (js "Neon branch create plan project changed") 409;
  let time := default 0 now in
  match ready_source inv (cs_branchId (cp_source plan)) with
  | None => refuse (js "Neon source branch changed after planning") 409
  | Some source =>
    _ ← refuse_if (negb (same_create_source source (cp_source plan)))
        (js "Neon source branch changed after planning") 409;
    _ ← refuse_if (source_expired source time) (js "Neon source branch expired") 409;
    _ ← refuse_if (name_in_use inv (ct_name (cp_target plan)))
        (js "Neon target branch name is already in use") 409;
    _ ← refuse_if ((b_protected source || workspaceProductionReference)
                   && negb (bool_decide (cs_environment (cp_source plan) = production_env)))
        (js "Neon production source cannot be downgraded") 409;
    _ ← refuse_if (outside_lifetime (cs_point (cp_source plan)) source time)
        (js "Neon source timestamp is outside the branch lifetime") 409;
    Ok plan
  end.

(** ** Lemmas *)

Lemma ready_source_some inv id b :
  ready_source inv id = Some b -> b ∈ branches inv /\ b_id b = id.
Proof.
  unfold ready_source. destruct (sole_branch inv id) as [x|] eqn:Hx; [|done].
  intros H. case_match; simplify_eq. by apply sole_branch_id.
Qed.

Lemma same_create_source_spec request (b : NeonBranchInventoryItem) s :
  cs_environment s = cr_sourceEnvironment request -> cs_point s = cr_sourcePoint request ->
  b_id b = cs_branchId s ->
  same_create_source b s = true <-> create_source request b = s.
Proof.
  intros He Hp Hid. unfold same_create_source. destruct s; cbn in *. subst.
  rewrite !andb_true_iff, same_actions_spec, !bool_decide_eq_true.
  unfold create_source. split; [naive_solver|].
  intros [= <- <- <- <- <- <- <- <- <- <- <- <- <- <- <- <- <-]. done.
Qed.

(** A plan depends on the source branch through its snapshot only. *)
Lemma create_plan_snapshot request b b0 op integration gen i e :
  create_source request b = create_source request b0 ->
  create_plan request b op integration gen i e = create_plan request b0 op integration gen i e.
Proof.
  intros H. pose proof (f_equal cs_protected H) as Hp. cbn in Hp.
  unfold create_plan, create_warnings. by rewrite H, Hp.
Qed.

Lemma outside_lifetime_later point (b b0 : NeonBranchInventoryItem) t n :
  createdAt b = createdAt b0 -> t <= n ->
  outside_lifetime point b0 t = false -> outside_lifetime point b n = false.
Proof.
  intros Hc Hn. unfold outside_lifetime. destruct point; [done..|]. rewrite Hc.
  rewrite !orb_false_iff. intros [-> H]. split; [done|].
  unfold num_ltb in *. case_match; [|done]. apply Z.ltb_ge in H. apply Z.ltb_ge. lia.
Qed.

Lemma build_create_ok request inv op integration gen prod t plan :
  buildNeonBranchCreatePlan request inv op integration gen prod (Some t) = Ok plan <->
  uuid op = true /\ uuid integration = true /\ 1 <= gen /\ inv_projectId inv = cr_projectId request
  /\ exists b issued expires,
    ready_source inv (cr_sourceBranchId request) = Some b
    /\ name_in_use inv (cr_targetName request) = false
    /\ (b_protected b || prod) && negb (bool_decide (cr_sourceEnvironment request = production_env)) = false
    /\ outside_lifetime (cr_sourcePoint request) b t = false
    /\ iso toISOString t = Ok issued /\ iso toISOString (t + NEON_BRANCH_PLAN_TTL_MS) = Ok expires
    /\ plan = create_plan request b op integration gen issued expires.
Proof.
  unfold buildNeonBranchCreatePlan. split.
  - intros H. refusals. destruct (ready_source _ _) as [b|] eqn:Hb; [|done]. refusals.
    apply res_bind_ok in H as (i & Hi & (e & He & [= <-])%res_bind_ok).
    match goal with H : _ || negb (_ ==s cr_projectId _) = false |- _ => rename H into Hctx end.
    bools. rewrite Z.ltb_ge in *. repeat (split; [done|]). by exists b, i, e.
  - intros (H1 & H2 & H3%Z.ltb_ge & H4 & b & i & e & Hb & Hn & Hp & Ho & Hi & He & ->).
    rewrite refuse_pass by by rewrite H1, H2, H3, H4, bool_decide_eq_true_2.
    rewrite Hb, !refuse_pass by done. by rewrite Hi, He.
Qed.

(** ** Revalidation and approval *)

(** A creation plan is revalidated exactly while it is fresh, its source branch has
    not expired, and planning again, for the same request, operation and time, from the
    current inventory and production reference would give the very same plan: any drift
    of the source, a target name taken since, or a source that became production
    refuses it. *)
Theorem create_revalidation request inv0 op integration gen prod0 t plan inv prod n :
  date_law toISOString date_parse ->
  of_one_project inv0 ->
  buildNeonBranchCreatePlan request inv0 op integration gen prod0 (Some t) = Ok plan ->
  t <= n ->
  revalidateNeonBranchCreatePlan plan inv prod (Some n) = Ok plan <->
  n < t + NEON_BRANCH_PLAN_TTL_MS
  /\ (forall b, ready_source inv (cr_sourceBranchId request) = Some b -> source_expired b n = false)
  /\ buildNeonBranchCreatePlan request inv op integration gen prod (Some t) = Ok plan.
Proof.
  intros law Hone (Hop & Hint & Hgen & Hproj & b0 & i & e & Hb0 & _ & _ & Ho0 & Hi & He & ->)%build_create_ok Hn.
  apply ready_source_some in Hb0 as [Hin0 Hid0].
  assert (Hp0 : projectId b0 = cr_projectId request) by (rewrite (Hone b0) by done; done).
  unfold revalidateNeonBranchCreatePlan. rewrite build_create_ok.
  cbn [cp_issuedAt cp_expiresAt cp_source cp_target create_plan cs_projectId cs_branchId cs_environment
    cs_point create_source ct_name default]. rewrite Hid0, Hp0.
  split.
  - intros H. refusals. destruct (ready_source inv _) as [b|] eqn:Hb; [|done]. refusals.
    match goal with H : expired _ _ _ _ _ = false |- _ =>
      apply (expired_spec _ _ t _ _ _ _ law Hi He) in H as (? & [= <-] & Hfresh) end.
    split; [done|split; [by intros ? [= <-]|]]. bools. repeat (split; [done|]).
    pose proof Hb as [_ Hid]%ready_source_some.
    assert (create_source request b = create_source request b0) as Es.
    { apply same_create_source_spec; [done|done|cbn; congruence|done]. }
    exists b, i, e. repeat (split; [done|]). split.
    { apply (outside_lifetime_later _ b b0 t t); [exact (f_equal cs_createdAt Es)|lia|done]. }
    repeat (split; [done|]). symmetry. by apply create_plan_snapshot.
  - intros (Hfresh & Hexp & _ & _ & _ & Hproj' & b & i' & e' & Hb & Hname & Hdown & Ho & _ & _ & Heq).
    pose proof (f_equal cp_source Heq) as Es. cbn [cp_source create_plan] in Es. clear Heq.
    pose proof Hb as [_ Hid]%ready_source_some.
    rewrite refuse_pass by (apply (expired_spec _ _ t _ _ _ _ law Hi He); by exists n).
    rewrite refuse_pass by by apply negb_false_iff, bool_decide_eq_true.
    rewrite Hb. rewrite refuse_pass; [|apply negb_false_iff, (same_create_source_spec request);
      [done|done|cbn; congruence|done]].
    cbn [id]. change (id n) with n. rewrite (Hexp b Hb), Hname, Hdown. cbn [refuse_if mbind res_bind].
    by rewrite refuse_pass by by eapply outside_lifetime_later.
Qed.

(** A plan that copies data needs a second administrator whenever the source is
    production by the request, by its protection or by the workspace; no other plan
    does. *)
Theorem production_copy_needs_separate_admin request inv op integration gen prod t plan b :
  buildNeonBranchCreatePlan request inv op integration gen prod t = Ok plan ->
  ready_source inv (cr_sourceBranchId request) = Some b ->
  cp_approvalPolicy plan =
    if copiesData request
       && (bool_decide (cr_sourceEnvironment request = production_env) || b_protected b || prod)
    then separate_admin else single_admin.
Proof.
  destruct t as [t|]; [|done].
  intros (_ & _ & _ & _ & b' & i & e & Hb & _ & Hdown & _ & _ & _ & ->)%build_create_ok Hb'.
  rewrite Hb' in Hb. simplify_eq. cbn [cp_approvalPolicy create_plan]. unfold productionData.
  destruct (copiesData request), (bool_decide _), (b_protected b'), prod; done.
Qed.

End dates.

(** A plan of a schema copy, checked a second later; and a copy of production data. *)
Definition demo_create (environment : PlanEnvironment) (init : CreateInitSource) : NeonBranchCreatePlanRequest :=
  mkCreateRequest demo_uuid (js "p") (js "dev") (js "copy") init pt_head ep_none environment.
Definition demo_create_plan (environment : PlanEnvironment) (init : CreateInitSource) : planned NeonBranchCreatePlan :=
  buildNeonBranchCreatePlan unary_date parse_unary (demo_create environment init) demo_project demo_uuid
    demo_uuid 1 false (Some 0).

Lemma create_revalidation_witness :
  match demo_create_plan development init_schema_only with
  | Ok plan => revalidateNeonBranchCreatePlan parse_unary plan demo_project false (Some 1000) = Ok plan
  | Throw _ => False
  end.
Proof.
  destruct (demo_create_plan _ _) as [plan|e] eqn:E; [|by vm_compute in E].
  apply (create_revalidation unary_date parse_unary (demo_create development init_schema_only)
    demo_project demo_uuid demo_uuid 1 false 0 plan demo_project false 1000
    unary_date_law demo_of_one_project E ltac:(lia)).
  split; [done|]. split; [|rewrite <- E; vm_compute; reflexivity].
  intros b [= <-]. reflexivity.
Defined.

Lemma production_copy_needs_separate_admin_witness :
  match demo_create_plan production_env init_parent_data with
  | Ok plan => cp_approvalPolicy plan = separate_admin
  | Throw _ => False
  end.
Proof.
  destruct (demo_create_plan _ _) as [plan|e] eqn:E; [|by vm_compute in E].
  exact (production_copy_needs_separate_admin unary_date parse_unary
    (demo_create production_env init_parent_data) demo_project demo_uuid demo_uuid 1 false (Some 0) plan
    (mkItem (demo_branch (js "dev") (Some (js "main")) false) 1) E eq_refl).
Defined.
