(* ===== verification/NeonSwitchPlan.v ===== *)
(** * The plan of a branch switch

    Models [workspace-cloud/lib/providers/neon-branch-switch-plan.ts]: moving one managed
    connection to another branch. The plan records the connection, both branches and the
    target database; revalidation checks all of them, and the target alone is checked
    again once the old leases are fenced. The theorems relate both checks to planning
    again. *)

From S2P Require Import Prelude JsString JsMap JsValue JsSort Regex NeonBranches.
From Stdlib Require String.
Import Stdlib.Strings.String.StringSyntax.
Local Open Scope Z_scope.

(** ** Data *)

Definition NEON_BRANCH_SWITCH_PLAN_TTL_MS : Z := ten_minutes.

Record NeonBranchSwitchPlanRequest := mkSwitchRequest {
  sr_idempotencyKey : jsstr; sr_projectId : jsstr; sr_connectionId : jsstr;
  sr_targetBranchId : jsstr; sr_targetEnvironment : PlanEnvironment }.

Record NeonBranchSwitchConnectionSnapshot := mkSwitchConnection {
  sc_connectionId : jsstr; sc_connectionName : jsstr; sc_providerResourceId : jsstr;
  sc_projectId : jsstr; sc_sourceBranchId : jsstr; sc_databaseId : jsstr; sc_database : jsstr;
  sc_schemas : list jsstr; sc_environment : PlanEnvironment; sc_readonlyDefault : bool;
  sc_allowWrites : bool; sc_schemaGroup : option jsstr; sc_contentRevision : num;
  sc_authorityRevision : num; sc_activeLeaseCount : num }.

Record NeonBranchSwitchTargetSnapshot := mkSwitchTarget {
  sw_branch : NeonBranchInventoryItem; sw_databaseId : jsstr; sw_database : jsstr;
  sw_endpointId : jsstr; sw_databaseFingerprint : jsstr; sw_resourceFingerprint : jsstr;
  sw_managedAccessOperationId : option jsstr }.

Record BranchSnapshot := mkSnapshot {
  bs_branchId : jsstr; bs_name : jsstr; bs_currentState : NeonBranchState;
  bs_pendingState : option NeonBranchState; bs_stateChangedAt : jsstr; bs_updatedAt : jsstr;
  bs_default : bool; bs_protected : bool; bs_restrictedActions : list NeonBranchRestrictedAction }.

(** [BranchSnapshot & {...}]: the snapshot, and the connection without its branch. *)
Record SwitchSource := mkSwitchSource {
  ss_branch : BranchSnapshot; ss_projectId : jsstr; ss_connectionId : jsstr;
  ss_connectionName : jsstr; ss_providerResourceId : jsstr; ss_databaseId : jsstr;
  ss_database : jsstr; ss_schemas : list jsstr; ss_environment : PlanEnvironment;
  ss_readonlyDefault : bool; ss_allowWrites : bool; ss_schemaGroup : option jsstr;
  ss_contentRevision : num; ss_authorityRevision : num; ss_activeLeaseCount : num }.

Record SwitchTarget := mkTargetFacts {
  tf_branch : BranchSnapshot; tf_projectId : jsstr; tf_databaseId : jsstr; tf_database : jsstr;
  tf_endpointId : jsstr; tf_databaseFingerprint : jsstr; tf_resourceFingerprint : jsstr;
  tf_managedAccessOperationId : option jsstr; tf_environment : PlanEnvironment }.

Record SwitchImpact := mkImpact {
  im_activeLeaseCount : num; closesExistingSessions : bool; createsConnectionRevision : bool;
  reintrospectionRequired : bool }.

Record NeonBranchSwitchPlan := mkSwitchPlan {
  sp_version : Z; sp_kind : jsstr; sp_operationId : jsstr; sp_integrationId : jsstr;
  sp_generation : jsstr; sp_issuedAt : jsstr; sp_expiresAt : jsstr; sp_source : SwitchSource;
  sp_target : SwitchTarget; sp_impact : SwitchImpact; sp_risk : PlanRisk;
  sp_approvalPolicy : ApprovalPolicy; sp_warningCodes : list jsstr }.

(** ** Checks *)

Definition branchSnapshot (b : NeonBranchInventoryItem) : BranchSnapshot :=
  mkSnapshot (b_id b) (b_name b) (currentState b) (pendingState b) (stateChangedAt b) (updatedAt b)
    (b_default b) (b_protected b) (restrictedActions b).

Definition sameBranchSnapshot (b : NeonBranchInventoryItem) (s : BranchSnapshot) : bool :=
  (b_id b ==s bs_branchId s) && (b_name b ==s bs_name s)
  && bool_decide (currentState b = bs_currentState s) && bool_decide (pendingState b = bs_pendingState s)
  && (stateChangedAt b ==s bs_stateChangedAt s) && (updatedAt b ==s bs_updatedAt s)
  && bool_decide (b_default b = bs_default s) && bool_decide (b_protected b = bs_protected s)
  && sameRestrictedActions (restrictedActions b) (bs_restrictedActions s).

(** [/^\[0-9\]{1,19}$/] *)
Definition database_id_re : re :=
  RSeqs [RBol; RCls is_digit; RUpTo 18 (RCls is_digit); REol].

Definition is_segment (s : jsstr) : bool := bool_decide (neonSegment (VStr s) <> None).
Definition sized (lo hi : nat) (s : jsstr) : bool := (lo <=? length s)%nat && (length s <=? hi)%nat.
(** [n >= lo && n <= hi] of a safe integer *)
Definition safe_between (lo hi : Z) (n : num) : bool :=
  isSafeInteger n && match n with Some z => (lo <=? z) && (z <=? hi) | None => false end.
Definition MAX_SAFE : Z := 9007199254740991.

Definition safeConnectionSnapshot (c : NeonBranchSwitchConnectionSnapshot) : bool :=
  uuid (sc_connectionId c) && sized 1 120 (sc_connectionName c) && uuid (sc_providerResourceId c)
  && is_segment (sc_projectId c) && is_segment (sc_sourceBranchId c)
  && test database_id_re (sc_databaseId c) && sized 1 256 (sc_database c)
  && (0 <? length (sc_schemas c))%nat && (length (sc_schemas c) <=? 32)%nat
  && (length (sof (sc_schemas c)) =? length (sc_schemas c))%nat
  && forallb (sized 1 63) (sc_schemas c)
  && match sc_schemaGroup c with None => true | Some g => (length g <=? 120)%nat end
  && safe_between 1 MAX_SAFE (sc_contentRevision c) && safe_between 1 MAX_SAFE (sc_authorityRevision c)
  && safe_between 0 10000 (sc_activeLeaseCount c).

Definition safeTargetSnapshot (t : NeonBranchSwitchTargetSnapshot) : bool :=
  test database_id_re (sw_databaseId t) && sized 1 256 (sw_database t) && is_segment (sw_endpointId t)
  && test hash_re (sw_databaseFingerprint t) && test hash_re (sw_resourceFingerprint t)
  && match sw_managedAccessOperationId t with None => true | Some id => uuid id end.

(** The source and the target of a switch, as named in messages. *)
Inductive switch_label := lb_source | lb_target.
Definition label_text (l : switch_label) : jsstr :=
  match l with lb_source => js "source" | lb_target => js "target" end.

Definition readyBranch (inv : NeonBranchInventory) (id : jsstr) (label : switch_label)
    : planned NeonBranchInventoryItem :=
  match sole_branch inv id with
  | Some branch =>
    if negb (b_ready branch) || negb (bool_decide (currentState branch = st_ready))
       || negb (bool_decide (pendingState branch = None)) || (0 <? length (restrictedActions branch))%nat
    then refuse (js "Neon " ++ label_text label ++ js " branch is not ready") 409
    else Ok branch
  | None => refuse (js "Neon " ++ label_text label ++ js " branch is not ready") 409
  end.

(** The environment contradicts what the provider says of the branch. *)
Definition environment_changed (branch : NeonBranchInventoryItem) (environment : PlanEnvironment) : bool :=
  if b_protected branch || bool_decide (production branch = prod_true)
  then negb (bool_decide (environment = production_env))
  else bool_decide (production branch = prod_false) && negb (bool_decide (environment = development)).

Definition assertEnvironment (branch : NeonBranchInventoryItem) (environment : PlanEnvironment)
    (label : switch_label) : planned unit :=
  refuse_if (environment_changed branch environment)
    (js "Neon " ++ label_text label ++ js " branch environment changed") 409.

(** ** Requests *)

Definition switch_fields : list jsstr :=
  [js "idempotencyKey"; js "projectId"; js "connectionId"; js "targetBranchId"; js "targetEnvironment"].

Definition read_switch_request (r : js_record) : option NeonBranchSwitchPlanRequest :=
  key ← uuid_value (field r (js "idempotencyKey"));
  project ← neonSegment (field r (js "projectId"));
  connection ← uuid_value (field r (js "connectionId"));
  branch ← neonSegment (field r (js "targetBranchId"));
  environment ← plan_environment (field r (js "targetEnvironment"));
  Some (mkSwitchRequest key project connection branch environment).

Definition parseNeonBranchSwitchPlanRequest (v : value) : planned NeonBranchSwitchPlanRequest :=
  match r ← exactRecord v switch_fields; read_switch_request r with
  | Some request => Ok request
  | None => refuse (js "Invalid Neon branch switch plan request") 400
  end.

(** ** Plans *)

Definition switch_source (b : NeonBranchInventoryItem) (c : NeonBranchSwitchConnectionSnapshot) : SwitchSource :=
  mkSwitchSource (branchSnapshot b) (sc_projectId c) (sc_connectionId c) (sc_connectionName c)
    (sc_providerResourceId c) (sc_databaseId c) (sc_database c) (sc_schemas c) (sc_environment c)
    (sc_readonlyDefault c) (sc_allowWrites c) (sc_schemaGroup c) (sc_contentRevision c)
    (sc_authorityRevision c) (sc_activeLeaseCount c).

Definition switch_target (request : NeonBranchSwitchPlanRequest) (b : NeonBranchInventoryItem)
    (t : NeonBranchSwitchTargetSnapshot) : SwitchTarget :=
  mkTargetFacts (branchSnapshot b) (sr_projectId request) (sw_databaseId t) (sw_database t)
    (sw_endpointId t) (sw_databaseFingerprint t) (sw_resourceFingerprint t)
    (sw_managedAccessOperationId t) (sr_targetEnvironment request).

Definition switch_productionData (source target : PlanEnvironment) : bool :=
  bool_decide (source = production_env) || bool_decide (target = production_env).

(** The object that [buildNeonBranchSwitchPlan] returns, from its two halves. *)
Definition switch_plan (operationId integrationId : jsstr) (integrationGeneration : Z)
    (issuedAt expiresAt : jsstr) (s : SwitchSource) (t : SwitchTarget) : NeonBranchSwitchPlan :=
  let productionData := switch_productionData (ss_environment s) (tf_environment t) in
  mkSwitchPlan 1 (js "neon.branch.switch") operationId integrationId (show_Z integrationGeneration)
    issuedAt expiresAt s t (mkImpact (ss_activeLeaseCount s) true true true)
    (if productionData then production_data else standard)
    (if productionData then separate_admin else single_admin)
    ([js "NEON_CONNECTION_TARGET_CHANGES"; js "NEON_ACTIVE_ACCESS_REVOKED"]
     ++ if productionData then [js "NEON_PRODUCTION_TARGET_SWITCH"] else []).

Section dates.
Context (toISOString : Z -> jsstr) (date_parse : jsstr -> option Z).

(** The tests on the arguments of [buildNeonBranchSwitchPlan]. *)
Definition switch_context_ok (request : NeonBranchSwitchPlanRequest) (inv : NeonBranchInventory)
    (connection : NeonBranchSwitchConnectionSnapshot) (target : NeonBranchSwitchTargetSnapshot)
    (operationId integrationId : jsstr) (integrationGeneration : Z) : bool :=
  uuid operationId && uuid integrationId && (1 <=? integrationGeneration)
  && (inv_projectId inv ==s sr_projectId request) && (sc_connectionId connection ==s sr_connectionId request)
  && (sc_projectId connection ==s sr_projectId request) && safeConnectionSnapshot connection
  && safeTargetSnapshot target && (projectId (sw_branch target) ==s sr_projectId request)
  && (b_id (sw_branch target) ==s sr_targetBranchId request).

Definition buildNeonBranchSwitchPlan (request : NeonBranchSwitchPlanRequest) (inv : NeonBranchInventory)
    (connection : NeonBranchSwitchConnectionSnapshot) (target : NeonBranchSwitchTargetSnapshot)
    (operationId integrationId : jsstr) (integrationGeneration : Z) (now : num)
    : planned NeonBranchSwitchPlan :=
  match now with
  | None => refuse (js "Invalid Neon branch switch plan context") 500
  | Some time =>
    _ ← refuse_if (negb (switch_context_ok request inv connection target operationId integrationId
                           integrationGeneration))
        (js "Invalid Neon branch switch plan context") 500;
    _ ← refuse_if (sc_sourceBranchId connection ==s sr_targetBranchId request)
        (js "Neon connection already targets this branch") 409;
    _ ← refuse_if (negb (sw_database target ==s sc_database connection)
                   || (length (sw_databaseId target) =? 0)%nat)
        (js "Neon target branch does not contain the same database") 409;
    sourceBranch ← readyBranch inv (sc_sourceBranchId connection) lb_source;
    targetBranch ← readyBranch inv (sr_targetBranchId request) lb_target;
    _ ← assertEnvironment sourceBranch (sc_environment connection) lb_source;
    _ ← assertEnvironment targetBranch (sr_targetEnvironment request) lb_target;
    issuedAt ← iso toISOString time;
    expiresAt ← iso toISOString (time + NEON_BRANCH_SWITCH_PLAN_TTL_MS);
    Ok (switch_plan operationId integrationId integrationGeneration issuedAt expiresAt
          (switch_source sourceBranch connection) (switch_target request targetBranch target))
  end.

Definition same_target_facts (inv : NeonBranchInventory) (b : NeonBranchInventoryItem)
    (t : NeonBranchSwitchTargetSnapshot) (f : SwitchTarget) : bool :=
  (inv_projectId inv ==s tf_projectId f) && sameBranchSnapshot b (tf_branch f) && safeTargetSnapshot t
  && (b_id (sw_branch t) ==s bs_branchId (tf_branch f)) && (sw_databaseId t ==s tf_databaseId f)
  && (sw_database t ==s tf_database f) && (sw_endpointId t ==s tf_endpointId f)
  && (sw_databaseFingerprint t ==s tf_databaseFingerprint f)
  && (sw_resourceFingerprint t ==s tf_resourceFingerprint f)
  && bool_decide (sw_managedAccessOperationId t = tf_managedAccessOperationId f).

Definition revalidateNeonBranchSwitchTarget (plan : NeonBranchSwitchPlan) (inv : NeonBranchInventory)
    (target : NeonBranchSwitchTargetSnapshot) : planned NeonBranchSwitchPlan :=
  targetBranch ← readyBranch inv (bs_branchId (tf_branch (sp_target plan))) lb_target;
  _ ← refuse_if (negb (same_target_facts inv targetBranch target (sp_target plan)))
      (js "Neon branch switch target changed after planning") 409;
  _ ← assertEnvironment targetBranch (tf_environment (sp_target plan)) lb_target;
  Ok plan.

Definition same_connection (c : NeonBranchSwitchConnectionSnapshot) (s : SwitchSource) : bool :=
  safeConnectionSnapshot c
  && (sc_connectionId c ==s ss_connectionId s) && (sc_connectionName c ==s ss_connectionName s)
  && (sc_providerResourceId c ==s ss_providerResourceId s) && (sc_projectId c ==s ss_projectId s)
  && (sc_sourceBranchId c ==s bs_branchId (ss_branch s)) && (sc_databaseId c ==s ss_databaseId s)
  && (sc_database c ==s ss_database s) && same_list (sc_schemas c) (ss_schemas s)
  && bool_decide (sc_environment c = ss_environment s)
  && bool_decide (sc_readonlyDefault c = ss_readonlyDefault s)
  && bool_decide (sc_allowWrites c = ss_allowWrites s) && bool_decide (sc_schemaGroup c = ss_schemaGroup s)
  && bool_decide (sc_contentRevision c = ss_contentRevision s)
  && bool_decide (sc_authorityRevision c = ss_authorityRevision s)
  && bool_decide (sc_activeLeaseCount c = ss_activeLeaseCount s).

Definition revalidateNeonBranchSwitchPlan (plan : NeonBranchSwitchPlan) (inv : NeonBranchInventory)
    (connection : NeonBranchSwitchConnectionSnapshot) (target : NeonBranchSwitchTargetSnapshot)
    (now : num) : planned NeonBranchSwitchPlan :=
  _ ← refuse_if (expired date_parse (sp_issuedAt plan) (sp_expiresAt plan) NEON_BRANCH_SWITCH_PLAN_TTL_MS now)
      (js "Neon branch switch plan expired") 409;
  _ ← revalidateNeonBranchSwitchTarget plan inv target;
  sourceBranch ← readyBranch inv (bs_branchId (ss_branch (sp_source plan))) lb_source;
  _ ← refuse_if (negb (inv_projectId inv ==s ss_projectId (sp_source plan))
                 || negb (tf_projectId (sp_target plan) ==s ss_projectId (sp_source plan))
                 || negb (sameBranchSnapshot sourceBranch (ss_branch (sp_source plan)))
                 || negb (same_connection connection (sp_source plan)))
      (js "Neon branch switch authority changed after planning") 409;
  _ ← assertEnvironment sourceBranch (ss_environment (sp_source plan)) lb_source;
  Ok plan.

(** ** Lemmas *)

Lemma readyBranch_ok inv id label b : readyBranch inv id label = Ok b -> b_id b = id.
Proof.
  unfold readyBranch. destruct (sole_branch inv id) as [x|] eqn:Hx; [|done].
  intros H. case_match; simplify_eq. by apply (sole_branch_id inv).
Qed.

Lemma same_snapshot_spec b s : sameBranchSnapshot b s = true <-> branchSnapshot b = s.
Proof.
  unfold sameBranchSnapshot, branchSnapshot. destruct s; cbn.
  rewrite !andb_true_iff, same_actions_spec, !bool_decide_eq_true.
  split; [intros H; destruct_and!; congruence|intros [= -> -> -> -> -> -> -> -> ->]; done].
Qed.

Lemma same_target_facts_spec request inv b t f :
  tf_environment f = sr_targetEnvironment request -> tf_projectId f = sr_projectId request ->
  same_target_facts inv b t f = true <->
  inv_projectId inv = sr_projectId request /\ safeTargetSnapshot t = true
  /\ b_id (sw_branch t) = b_id b /\ switch_target request b t = f.
Proof.
  intros He Hp. unfold same_target_facts. rewrite !andb_true_iff, same_snapshot_spec, !bool_decide_eq_true.
  destruct f; cbn in *. subst. unfold switch_target. split.
  - intros [[[[[[[[[H1 H2] H3] H4] H5] H6] H7] H8] H9] H10]. subst. done.
  - intros (H1 & H3 & H4 & Heq). apply (f_equal (fun f => (tf_branch f, (tf_databaseId f, tf_database f,
      tf_endpointId f, tf_databaseFingerprint f, tf_resourceFingerprint f, tf_managedAccessOperationId f)))) in Heq.
    cbn in Heq. by simplify_eq.
Qed.

Lemma same_connection_spec b c s :
  branchSnapshot b = ss_branch s ->
  same_connection c s = true <->
  safeConnectionSnapshot c = true /\ sc_sourceBranchId c = b_id b /\ switch_source b c = s.
Proof.
  intros Hb. unfold same_connection, switch_source. rewrite Hb.
  assert (b_id b = bs_branchId (ss_branch s)) as -> by by rewrite <- Hb.
  rewrite !andb_true_iff, same_list_spec, !bool_decide_eq_true. destruct s; cbn.
  split; [intros H; destruct_and!; repeat split; congruence|intros (? & ? & [=]); repeat split; congruence].
Qed.

Lemma build_switch_ok request inv c tgt op integration gen t plan :
  buildNeonBranchSwitchPlan request inv c tgt op integration gen (Some t) = Ok plan <->
  switch_context_ok request inv c tgt op integration gen = true
  /\ sc_sourceBranchId c <> sr_targetBranchId request
  /\ sw_database tgt = sc_database c /\ sw_databaseId tgt <> []
  /\ exists b b' issued expires,
    readyBranch inv (sc_sourceBranchId c) lb_source = Ok b
    /\ readyBranch inv (sr_targetBranchId request) lb_target = Ok b'
    /\ environment_changed b (sc_environment c) = false
    /\ environment_changed b' (sr_targetEnvironment request) = false
    /\ iso toISOString t = Ok issued /\ iso toISOString (t + NEON_BRANCH_SWITCH_PLAN_TTL_MS) = Ok expires
    /\ plan = switch_plan op integration gen issued expires (switch_source b c) (switch_target request b' tgt).
Proof.
  unfold buildNeonBranchSwitchPlan. split.
  - intros H. refusals. apply res_bind_ok in H as (b & Hb & (b' & Hb' & H)%res_bind_ok).
    unfold assertEnvironment in H. refusals.
    apply res_bind_ok in H as (i & Hi & (e & He & [= <-])%res_bind_ok). bools.
    repeat (split; [done|]). split; [by intros E; rewrite E in *|]. by exists b, b', i, e.
  - intros (H1 & H2 & H3 & H4 & b & b' & i & e & Hb & Hb' & H5 & H6 & Hi & He & ->).
    rewrite refuse_pass by by rewrite H1. rewrite refuse_pass by by apply bool_decide_eq_false.
    rewrite refuse_pass; [|rewrite bool_decide_eq_true_2 by done; by destruct (sw_databaseId tgt)].
    rewrite Hb. cbn [mbind res_bind]. rewrite Hb'. cbn [mbind res_bind]. unfold assertEnvironment.
    rewrite !refuse_pass by done. by rewrite Hi, He.
Qed.

Lemma switch_context_iff request inv c tgt op integration gen :
  switch_context_ok request inv c tgt op integration gen = true <->
  (uuid op = true /\ uuid integration = true /\ 1 <= gen)
  /\ inv_projectId inv = sr_projectId request /\ sc_connectionId c = sr_connectionId request
  /\ sc_projectId c = sr_projectId request /\ safeConnectionSnapshot c = true
  /\ safeTargetSnapshot tgt = true /\ projectId (sw_branch tgt) = sr_projectId request
  /\ b_id (sw_branch tgt) = sr_targetBranchId request.
Proof. unfold switch_context_ok. rewrite !andb_true_iff, !bool_decide_eq_true, Z.leb_le. tauto. Qed.

(** The check of the target alone, on the facts that [switch_target] records. *)
Lemma revalidate_target_ok request inv tgt plan :
  tf_environment (sp_target plan) = sr_targetEnvironment request ->
  tf_projectId (sp_target plan) = sr_projectId request ->
  revalidateNeonBranchSwitchTarget plan inv tgt = Ok plan <->
  exists b, readyBranch inv (bs_branchId (tf_branch (sp_target plan))) lb_target = Ok b
    /\ inv_projectId inv = sr_projectId request /\ safeTargetSnapshot tgt = true
    /\ b_id (sw_branch tgt) = b_id b /\ switch_target request b tgt = sp_target plan
    /\ environment_changed b (sr_targetEnvironment request) = false.
Proof.
  intros He Hp. unfold revalidateNeonBranchSwitchTarget, assertEnvironment. rewrite He, res_bind_ok. split.
  - intros (b & Hb & H). refusals. bools. exists b. split; [done|].
    match goal with H : same_target_facts _ _ _ _ = true |- _ =>
      apply (proj1 (same_target_facts_spec request _ _ _ _ He Hp)) in H as (? & ? & ? & ?) end. done.
  - intros (b & Hb & H1 & H2 & H3 & H4 & H5). exists b. split; [done|].
    rewrite refuse_pass by by apply negb_false_iff, (same_target_facts_spec request).
    by rewrite refuse_pass.
Qed.

(** ** Revalidation *)

(** A switch plan is revalidated exactly while it is fresh and planning again, for
    the same request, operation and time, from the current inventory, connection and
    target would give the very same plan; both provider branches, the database identity,
    the connection's revisions and the count of leases to revoke are all held to it. *)
Theorem switch_revalidation request inv0 c0 tgt0 op integration gen t plan inv c tgt now :
  date_law toISOString date_parse ->
  buildNeonBranchSwitchPlan request inv0 c0 tgt0 op integration gen (Some t) = Ok plan ->
  projectId (sw_branch tgt) = inv_projectId inv ->
  revalidateNeonBranchSwitchPlan plan inv c tgt now = Ok plan <->
  (exists n, now = Some n /\ n < t + NEON_BRANCH_SWITCH_PLAN_TTL_MS)
  /\ buildNeonBranchSwitchPlan request inv c tgt op integration gen (Some t) = Ok plan.
Proof.
  intros law (Hctx0 & Hdiff0 & Hdb0 & Hid0 & b0 & b0' & i & e & Hb0 & Hb0' & _ & _ & Hi & He & ->)%build_switch_ok Hp.
  apply switch_context_iff in Hctx0 as (Hops & _ & Hc0 & Hpc0 & _ & _ & _ & Hbr0).
  apply readyBranch_ok in Hb0, Hb0'.
  unfold revalidateNeonBranchSwitchPlan. rewrite build_switch_ok, switch_context_iff. split.
  - intros H. refusals. apply res_bind_ok in H as (p & Ht & (b & Hb & H)%res_bind_ok).
    unfold assertEnvironment in H. refusals.
    assert (p = switch_plan op integration gen i e (switch_source b0 c0) (switch_target request b0' tgt0)) as ->.
    { unfold revalidateNeonBranchSwitchTarget, assertEnvironment in Ht.
      apply res_bind_ok in Ht as (? & _ & Ht). refusals. congruence. }
    apply (revalidate_target_ok request) in Ht as (b' & Hb' & Hinv & Hsafe & Hbt & Htf & Henv'); [|done..].
    match goal with H : expired _ _ _ _ _ = false |- _ => apply (expired_spec _ _ t _ _ _ _ law Hi He) in H end.
    bools. match goal with H : sameBranchSnapshot _ _ = true |- _ => apply same_snapshot_spec in H; rename H into Hsnap end.
    match goal with H : same_connection _ _ = true |- _ =>
      apply (same_connection_spec _ _ _ Hsnap) in H as (Hsafec & Hsc & Hsf) end.
    cbn [sp_source sp_target switch_plan] in *. cbn [ss_branch switch_source bs_branchId branchSnapshot
      tf_branch switch_target] in Hb, Hb'. pose proof (readyBranch_ok _ _ _ _ Hb) as Hidb.
    pose proof (readyBranch_ok _ _ _ _ Hb') as Hidb'. rewrite Hb0' in Hb', Hidb'.
    pose proof (f_equal ss_connectionId Hsf). pose proof (f_equal ss_projectId Hsf).
    pose proof (f_equal ss_database Hsf). pose proof (f_equal ss_environment Hsf) as Henv.
    pose proof (f_equal tf_database Htf). pose proof (f_equal tf_databaseId Htf). cbn in *.
    split; [done|]. repeat split; try done; try congruence; [naive_solver..|].
    exists b, b', i, e. rewrite Hsc, Hidb. repeat split; try done; congruence.
  - intros [Hfresh ((_ & Hinv & Hcid & Hcp & Hsafec & Hsafe & _ & Hbr) & Hdiff & Hdb & Hid & b & b' & i' & e'
      & Hb & Hb' & Henv & Henv' & _ & _ & Heq)].
    pose proof (f_equal sp_source Heq) as Hsf. pose proof (f_equal sp_target Heq) as Htf. clear Heq.
    cbn [sp_source sp_target switch_plan] in Hsf, Htf.
    rewrite refuse_pass by by apply (expired_spec _ _ t _ _ _ _ law Hi He).
    pose proof (readyBranch_ok _ _ _ _ Hb) as Hidb. pose proof (readyBranch_ok _ _ _ _ Hb') as Hidb'.
    set (plan := switch_plan _ _ _ _ _ _ _).
    assert (revalidateNeonBranchSwitchTarget plan inv tgt = Ok plan) as ->.
    { apply (revalidate_target_ok request); [done|done|]. exists b'.
      cbn [plan sp_target switch_plan tf_branch switch_target bs_branchId branchSnapshot].
      rewrite Hb0'. repeat split; try done; congruence. }
    cbn [mbind res_bind]. subst plan. cbn [sp_source sp_target switch_plan]. rewrite Hsf.
    change (bs_branchId _) with (b_id b). rewrite Hidb, Hb. cbn [mbind res_bind].
    unfold assertEnvironment. rewrite !refuse_pass; [done|done|].
    rewrite (proj2 (same_snapshot_spec _ _)) by done.
    rewrite (proj2 (same_connection_spec b c (switch_source b c) eq_refl)) by done.
    cbn. by rewrite Hinv, Hcp, !bool_decide_eq_true_2.
Qed.

End dates.

(** The plan of moving a connection from [dev] to [main], checked a second later. *)
Definition demo_switch_request : NeonBranchSwitchPlanRequest :=
  mkSwitchRequest demo_uuid (js "p") demo_uuid (js "main") production_env.
Definition demo_connection : NeonBranchSwitchConnectionSnapshot :=
  mkSwitchConnection demo_uuid (js "app") demo_uuid (js "p") (js "dev") (js "7") (js "db")
    [js "public"] development true false None (Some 1) (Some 2) (Some 0).
Definition demo_switch_target : NeonBranchSwitchTargetSnapshot :=
  mkSwitchTarget (mkItem (demo_branch (js "main") None true) 0) (js "8") (js "db") (js "ep")
    (replicate 64 48%N) (replicate 64 49%N) None.
Definition demo_switch_plan : planned NeonBranchSwitchPlan :=
  buildNeonBranchSwitchPlan unary_date demo_switch_request demo_project demo_connection demo_switch_target
    demo_uuid demo_uuid 1 (Some 0).

Lemma switch_revalidation_witness :
  match demo_switch_plan with
  | Ok plan => revalidateNeonBranchSwitchPlan parse_unary plan demo_project demo_connection
                 demo_switch_target (Some 1000) = Ok plan
  | Throw _ => False
  end.
Proof.
  destruct demo_switch_plan as [plan|e] eqn:E; [|by vm_compute in E].
  apply (switch_revalidation unary_date parse_unary demo_switch_request demo_project demo_connection
    demo_switch_target demo_uuid demo_uuid 1 0 plan demo_project demo_connection demo_switch_target
    (Some 1000) unary_date_law E eq_refl).
  split; [by exists 1000|exact E].
Defined.
