(* ===== verification/JsText.v ===== *)
(** * Number texts, splits and replacements

    The conversions between numbers and their decimal texts ([Number(s)] of a text of
    digits, with the rounding of a double), and the string functions the connection
    sources add to those of [JsString]: [split], [endsWith] and [replace] of a class of
    units. *)

From S2P Require Import Prelude JsString.
From Stdlib Require String.
From stdpp Require Import pretty.
Import Stdlib.Strings.String.StringSyntax.

(** ** Numbers *)

(** The value of a text of decimal digits. *)
Definition dec_value (s : jsstr) : Z := foldl (fun n c => 10 * n + (Z.of_N c - 48))%Z 0%Z s.

(** The double nearest to a natural number, ties to even: 53 significant bits. *)
Definition round_double (n : Z) : Z :=
  if (n <? 2 ^ 53)%Z then n
  else
    let ulp := (2 ^ (Z.log2 n - 52))%Z in
    let q := (n / ulp)%Z in let r := (n mod ulp)%Z in
    if (2 * r <? ulp)%Z then (q * ulp)%Z
    else if (ulp <? 2 * r)%Z then ((q + 1) * ulp)%Z
    else if Z.even q then (q * ulp)%Z else ((q + 1) * ulp)%Z.

(** [Number(s)] of a text of decimal digits below 2^1024. *)
Definition Number_digits (s : jsstr) : Z := round_double (dec_value s).
Definition all_digits (s : jsstr) : bool := non_empty s && forallb is_digit s.
Definition MAX_SAFE_INTEGER : Z := 9007199254740991.

Example round_examples :
  Number_digits (js "9007199254740993") = 9007199254740992%Z
  /\ Number_digits (js "9007199254740995") = 9007199254740996%Z
  /\ Number_digits (js "05432") = 5432%Z.
Proof. vm_compute. done. Qed.

(** ** Splits *)

(** [s.split(c)] for a class of single units. *)
Fixpoint split_on (p : N -> bool) (s : jsstr) : list jsstr :=
  match s with
  | [] => [[]]
  | c :: s =>
    if p c then [] :: split_on p s
    else match split_on p s with
         | w :: ws => (c :: w) :: ws
         | [] => [[c]]
         end
  end.

Definition endsWith (s p : jsstr) : bool := prefixb (rev p) (rev s).

(** [s.replace(/\[...\]/g, sub)] for a class of single units. *)
Definition replace_units (p : N -> bool) (sub s : jsstr) : jsstr :=
  flat_map (fun c => if p c then sub else [c]) s.

(** ** Lemmas on numbers *)

Lemma digit_char x : (x < 10)%N ->
  Ascii.N_of_ascii (pretty_N_char x) = (48 + x)%N /\ is_digit (48 + x)%N = true.
Proof.
  intros. assert (x = 0 \/ x = 1 \/ x = 2 \/ x = 3 \/ x = 4 \/ x = 5 \/ x = 6 \/ x = 7 \/ x = 8 \/ x = 9)%N as Hx by lia.
  destruct_or!; subst; vm_compute; done.
Qed.

Lemma dec_fold_pretty x s :
  exists k, forall n, foldl (fun n c => 10 * n + (Z.of_N c - 48))%Z n (js (pretty_N_go x s))
    = foldl (fun n c => 10 * n + (Z.of_N c - 48))%Z (n * k + Z.of_N x)%Z (js s).
Proof.
  revert s. induction (N.lt_wf_0 x) as [x _ IH]; intros s.
  destruct (decide (x = 0)%N) as [->|Hx].
  { exists 1%Z. intros n. rewrite pretty_N_go_0. f_equal. lia. }
  rewrite pretty_N_go_step by lia. assert (x `div` 10 < x)%N as Hlt by (apply N.div_lt; lia).
  destruct (IH _ Hlt (String.String (pretty_N_char (x `mod` 10)) s)) as [k Hk].
  exists (10 * k)%Z. intros n. rewrite Hk. cbn [js String.list_ascii_of_string map foldl].
  unfold js at 1. cbn [String.list_ascii_of_string map foldl].
  destruct (digit_char (x `mod` 10)) as [-> _]; [apply N.mod_lt; lia|]. unfold js. f_equal.
  pose proof (N.div_mod x 10 ltac:(lia)). lia.
Qed.

Lemma pretty_digits x s : forallb is_digit (js s) = true -> forallb is_digit (js (pretty_N_go x s)) = true.
Proof.
  revert s. induction (N.lt_wf_0 x) as [x _ IH]; intros s Hs.
  destruct (decide (x = 0)%N) as [->|Hx]; [by rewrite pretty_N_go_0|].
  rewrite pretty_N_go_step by lia. apply IH; [apply N.div_lt; lia|].
  unfold js in *. cbn [String.list_ascii_of_string map forallb].
  destruct (digit_char (x `mod` 10)) as [-> Hd]; [apply N.mod_lt; lia|]. rewrite Hd. exact Hs.
Qed.

(** The text of a natural number is made of digits and reads back as the number. *)
Lemma show_digits v : (0 <= v)%Z -> forallb is_digit (show_Z v) = true /\ dec_value (show_Z v) = v.
Proof.
  intros Hv. unfold show_Z. destruct v as [|p|p]; [by vm_compute| |lia].
  change (pretty (Zpos p)) with (pretty (Npos p)). unfold pretty, pretty_N.
  destruct (decide (Npos p = 0)%N); [done|]. split; [by apply pretty_digits|].
  destruct (dec_fold_pretty (Npos p) "") as [k Hk]. unfold dec_value. rewrite Hk. cbn. lia.
Qed.

Lemma trim_no_space s : forallb (fun c => negb (is_space c)) s = true -> trim s = s.
Proof.
  intros H. destruct (trim_decomp s) as (a & b & E & Ha & Hb & _).
  assert (forall l, Forall (fun c => is_space c = true) l -> (forall c, c ∈ l -> c ∈ s) -> l = []) as Hnil.
  { intros [|c l] Hl Hin; [done|]. apply Forall_cons in Hl as [Hc _].
    rewrite forallb_elem in H. specialize (H c (Hin c (list_elem_of_here _ _))). by rewrite Hc in H. }
  rewrite (Hnil a), (Hnil b) in E; [by rewrite app_nil_r in E|done| |done|];
    intros c Hc; rewrite E, !elem_of_app; auto.
Qed.

Lemma digits_no_space s : forallb is_digit s = true -> forallb (fun c => negb (is_space c)) s = true.
Proof.
  rewrite !forallb_elem. intros H c Hc. specialize (H c Hc).
  unfold is_digit, is_space, JsString.between in *. apply andb_true_iff in H as [H1%N.leb_le H2%N.leb_le].
  apply negb_true_iff. repeat (apply orb_false_iff; split); try (apply N.eqb_neq; lia);
    apply andb_false_iff; rewrite !N.leb_gt; lia.
Qed.

Lemma Number_shown v : (0 <= v < 2 ^ 53)%Z -> Number_digits (show_Z v) = v.
Proof.
  intros Hv. unfold Number_digits, round_double. destruct (show_digits v) as [_ ->]; [lia|].
  destruct (Z.ltb_spec v (2 ^ 53)); [done|lia].
Qed.

(** Rounding does not cross 2^53. *)
Lemma round_double_ge n : (2 ^ 53 <= n -> 2 ^ 53 <= round_double n)%Z.
Proof.
  intros Hn. unfold round_double. destruct (Z.ltb_spec n (2 ^ 53)); [lia|]. cbv zeta.
  pose proof (Z.log2_spec n ltac:(lia)) as [Hlo Hhi].
  assert (53 <= Z.log2 n)%Z as Hk by (apply Z.log2_le_pow2; lia).
  assert (2 ^ Z.log2 n = 2 ^ 52 * 2 ^ (Z.log2 n - 52))%Z as E by (rewrite <- Z.pow_add_r by lia; f_equal; lia).
  assert (2 ^ 53 <= 2 ^ Z.log2 n)%Z by (apply Z.pow_le_mono_r; lia).
  set (ulp := (2 ^ (Z.log2 n - 52))%Z) in *. assert (0 < ulp)%Z by (apply Z.pow_pos_nonneg; lia).
  assert (2 ^ 52 <= n / ulp)%Z as Hq by (apply Z.div_le_lower_bound; lia).
  repeat case_match; nia.
Qed.

Lemma show_non_empty v : (0 <= v)%Z -> all_digits (show_Z v) = true.
Proof.
  intros Hv. unfold all_digits. destruct (show_digits v Hv) as [-> Hval].
  destruct (show_Z v) as [|c s] eqn:E; [|done]. cbn in Hval. subst v. by vm_compute in E.
Qed.

(** ** Lemmas on splits *)

Lemma split_on_none p s : forallb (fun c => negb (p c)) s = true -> split_on p s = [s].
Proof.
  induction s as [|c s IH]; [done|]. cbn [forallb split_on]. intros H. bools.
  destruct (p c); [done|]. by rewrite IH.
Qed.

Lemma split_on_cons p s : exists w ws, split_on p s = w :: ws.
Proof. induction s as [|c s (w & ws & IH)]; cbn; [eauto|]. destruct (p c); [eauto|]. rewrite IH. eauto. Qed.

Lemma split_join (c : N) (s : jsstr) : JsString.join [c] (split_on (N.eqb c) s) = s.
Proof.
  induction s as [|x s IH]; [done|]. cbn [split_on].
  destruct (split_on_cons (N.eqb c) s) as (w & ws & E). rewrite E in *.
  destruct (N.eqb_spec c x) as [->|Hx].
  - rewrite join_cons, IH. done.
  - destruct ws as [|v ws]; cbn in IH |- *; by rewrite IH.
Qed.
