(* ===== verification/JsUri.v ===== *)
(** * [encodeURIComponent]

    The percent-encoding of the ECMAScript library, as far as storage keys use it: the
    UTF-8 bytes of every code point outside the unreserved set are written in upper-case
    hexadecimal; a lone surrogate is a [URIError] ([None]). *)

From S2P Require Import Prelude JsString JsonText JsText.
From Stdlib Require String.
From Stdlib Require Import ZifyBool ZifyN.
Import Stdlib.Strings.String.StringSyntax.

Definition uri_unreserved (c : N) : bool :=
  is_alnum c || bool_decide (c ∈ js "-_.!~*'()").

Definition hex_upper (n : N) : N := if (n <? 10)%N then (48 + n)%N else (55 + n)%N.
Definition percent_byte (b : N) : jsstr := [37%N; hex_upper (b / 16); hex_upper (b mod 16)].

(** UTF-8 of a code point. *)
Definition utf8 (c : N) : list N :=
  (if c <? 128 then [c]
   else if c <? 2048 then [192 + c / 64; 128 + c mod 64]
   else if c <? 65536 then [224 + c / 4096; 128 + (c / 64) mod 64; 128 + c mod 64]
   else [240 + c / 262144; 128 + (c / 4096) mod 64; 128 + (c / 64) mod 64; 128 + c mod 64])%N.

Definition percent (c : N) : jsstr := flat_map percent_byte (utf8 c).

(** The units [keep] accepts stay as they are. *)
Fixpoint encode_with (keep : N -> bool) (s : jsstr) : option jsstr :=
  match s with
  | [] => Some []
  | c :: s' =>
    if keep c then r ← encode_with keep s'; Some (c :: r)
    else if low_surrogate c then None
    else if high_surrogate c then
      match s' with
      | d :: s'' =>
        if low_surrogate d
        then r ← encode_with keep s'';
             Some (percent (65536 + (c - 55296) * 1024 + (d - 56320))%N ++ r)
        else None
      | [] => None
      end
    else r ← encode_with keep s'; Some (percent c ++ r)
  end.
Definition encodeURIComponent (s : jsstr) : option jsstr := encode_with uri_unreserved s.

(** "a b", the euro sign, an emoji, and half of one. *)
Example encode_examples :
  encodeURIComponent (js "a b") = Some (js "a%20b")
  /\ encodeURIComponent [8364%N] = Some (js "%E2%82%AC")
  /\ encodeURIComponent [55357%N; 56832%N] = Some (js "%F0%9F%98%80")
  /\ encodeURIComponent [55357%N] = None.
Proof. vm_compute. done. Qed.

(** * [decodeURIComponent] *)

(** The byte of a [%XX] at the start of a text, and the rest. *)
Definition read_byte (s : jsstr) : option (N * jsstr) :=
  match s with
  | p :: a :: b :: r =>
    if (p =? 37)%N then hi ← hexvalue a; lo ← hexvalue b; Some ((16 * hi + lo)%N, r) else None
  | _ => None
  end.

(** [n] continuation bytes appended to the bits [v]. *)
Fixpoint read_tail (n : nat) (v : N) (s : jsstr) : option (N * jsstr) :=
  match n with
  | O => Some (v, s)
  | S n =>
    '(b, r) ← read_byte s;
    if (128 <=? b)%N && (b <? 192)%N then read_tail n (64 * v + (b - 128))%N r else None
  end.

(** The code point that starts with the byte [b]; overlong forms, surrogates and what lies
    above U+10FFFF are refused. *)
Definition read_point (b : N) (s : jsstr) : option (N * jsstr) :=
  if (b <? 128)%N then Some (b, s)
  else if (192 <=? b)%N && (b <? 224)%N then
    '(v, r) ← read_tail 1 (b - 192)%N s; if (128 <=? v)%N then Some (v, r) else None
  else if (224 <=? b)%N && (b <? 240)%N then
    '(v, r) ← read_tail 2 (b - 224)%N s;
    if (2048 <=? v)%N && negb ((55296 <=? v)%N && (v <? 57344)%N) then Some (v, r) else None
  else if (240 <=? b)%N && (b <? 248)%N then
    '(v, r) ← read_tail 3 (b - 240)%N s; if (65536 <=? v)%N && (v <? 1114112)%N then Some (v, r) else None
  else None.

(** UTF-16 of a code point. *)
Definition utf16 (v : N) : jsstr :=
  if (v <? 65536)%N then [v] else [(55296 + (v - 65536) / 1024)%N; (56320 + (v - 65536) mod 1024)%N].

(** [None] is the [URIError]. Every round consumes a unit. *)
Fixpoint decode_loop (fuel : nat) (s : jsstr) : option jsstr :=
  match fuel, s with
  | S fuel, c :: s' =>
    if (c =? 37)%N then
      '(b, r) ← read_byte s; '(v, r) ← read_point b r; t ← decode_loop fuel r; Some (utf16 v ++ t)
    else t ← decode_loop fuel s'; Some (c :: t)
  | _, _ => Some []
  end.
Definition decodeURIComponent (s : jsstr) : option jsstr := decode_loop (length s) s.

Example decode_examples :
  decodeURIComponent (js "a%20b%e2%82%AC") = Some (js "a b" ++ [8364%N])
  /\ decodeURIComponent (js "%F0%9F%98%80") = Some [55357%N; 56832%N]
  /\ decodeURIComponent (js "100%") = None /\ decodeURIComponent (js "%C0%80") = None
  /\ decodeURIComponent (js "%ED%A0%80") = None.
Proof. vm_compute. done. Qed.

(** ** Decoding undoes encoding *)

Lemma hexvalue_upper n : (n < 16)%N -> hexvalue (hex_upper n) = Some n.
Proof.
  intros. assert (n = 0 \/ n = 1 \/ n = 2 \/ n = 3 \/ n = 4 \/ n = 5 \/ n = 6 \/ n = 7 \/ n = 8 \/ n = 9 \/ n = 10
    \/ n = 11 \/ n = 12 \/ n = 13 \/ n = 14 \/ n = 15)%N as Hn by lia.
  destruct_or!; subst; reflexivity.
Qed.

#[local] Ltac Zify.zify_post_hook ::= Z.to_euclidean_division_equations.

Lemma read_percent b r : (b < 256)%N -> read_byte (percent_byte b ++ r) = Some (b, r).
Proof.
  intros Hb. cbn [percent_byte app read_byte]. rewrite !hexvalue_upper by lia. cbn. repeat f_equal. lia.
Qed.

Lemma read_tail_byte n v b r :
  (128 <= b < 192)%N -> read_tail (S n) v (percent_byte b ++ r) = read_tail n (64 * v + (b - 128))%N r.
Proof.
  intros Hb. cbn [read_tail]. rewrite read_percent by lia. cbn [mbind option_bind].
  replace ((128 <=? b)%N && (b <? 192)%N) with true by lia. done.
Qed.

(** A scalar value: not a surrogate, at most U+10FFFF. *)
Definition scalar (v : N) : Prop := (v < 1114112)%N /\ ~ (55296 <= v < 57344)%N.

(** The groups of six bits of a number. *)
Lemma six_bits v : (v = 64 * (v / 64) + v mod 64 /\ v mod 64 < 64)%N.
Proof. lia. Qed.

Lemma utf8_groups v :
  (v / 4096 = v / 64 / 64 /\ v / 262144 = v / 64 / 64 / 64)%N.
Proof. rewrite !N.Div0.div_div. done. Qed.

#[local] Ltac lead_range :=
  match goal with |- (if ?b then _ else _) = _ =>
    (replace b with true by lia) || (replace b with false by lia) end.

Lemma read_point_utf8 v b bs r :
  scalar v -> utf8 v = b :: bs -> read_point b (flat_map percent_byte bs ++ r) = Some (v, r).
Proof.
  intros [Hv Hs]. unfold utf8, read_point. destruct (utf8_groups v) as [-> ->].
  pose proof (six_bits v) as [E1 B1]. pose proof (six_bits (v / 64)) as [E2 B2].
  pose proof (six_bits (v / 64 / 64)) as [E3 B3].
  set (c3 := (v / 64 / 64 / 64)%N) in *. set (a2 := (v / 64 / 64)%N) in *. set (a1 := (v / 64)%N) in *.
  set (m0 := (v mod 64)%N) in *. set (m1 := (a1 mod 64)%N) in *. set (m2 := (a2 mod 64)%N) in *.
  clearbody m0 m1 m2 c3 a2 a1.
  destruct (N.ltb_spec v 128); [|destruct (N.ltb_spec v 2048); [|destruct (N.ltb_spec v 65536)]];
    injection 1 as <- <-; cbn [flat_map]; rewrite ?app_nil_r, <- ?app_assoc; cbn [app].
  all: repeat lead_range; rewrite ?read_tail_byte by lia; cbn [read_tail mbind option_bind].
  - done.
  - replace (64 * _ + _)%N with v by lia. repeat lead_range. done.
  - replace (64 * (64 * _ + _) + _)%N with v by lia. repeat lead_range. done.
  - replace (64 * (64 * (64 * _ + _) + _) + _)%N with v by lia. repeat lead_range. done.
Qed.

Lemma utf8_cons v : exists b bs, utf8 v = b :: bs.
Proof. unfold utf8. repeat case_match; eauto. Qed.

Lemma utf8_bytes v : scalar v -> Forall (fun b => b < 256)%N (utf8 v).
Proof.
  intros [Hv _]. unfold utf8. repeat case_match; repeat (constructor; [lia|]); constructor.
Qed.

(** One round of the decoder takes one encoded code point. *)
Lemma decode_percent v r fuel :
  scalar v -> decode_loop (S fuel) (percent v ++ r) = (t ← decode_loop fuel r; Some (utf16 v ++ t)).
Proof.
  intros Hv. pose proof (utf8_cons v) as (b & bs & E). pose proof (utf8_bytes v Hv) as Hb.
  rewrite E in Hb. apply Forall_cons in Hb as [Hb _].
  unfold percent. rewrite E. cbn [flat_map]. rewrite <- app_assoc.
  change (decode_loop (S fuel) (percent_byte b ++ ?x))
    with ('(b, r) ← read_byte (percent_byte b ++ x); '(v, r) ← read_point b r;
          t ← decode_loop fuel r; Some (utf16 v ++ t)).
  rewrite read_percent by done. cbn [mbind option_bind]. rewrite (read_point_utf8 v b bs r Hv E). done.
Qed.

Lemma decode_plain c r fuel :
  c <> 37%N -> decode_loop (S fuel) (c :: r) = (t ← decode_loop fuel r; Some (c :: t)).
Proof. intros Hc. cbn [decode_loop]. destruct (N.eqb_spec c 37); done. Qed.

(** A text of 16-bit units. *)
Definition units (s : jsstr) : Prop := Forall (fun c => c < 65536)%N s.

Lemma hex_upper_alnum n : (n < 16)%N -> is_alnum (hex_upper n) = true.
Proof.
  intros. assert (n = 0 \/ n = 1 \/ n = 2 \/ n = 3 \/ n = 4 \/ n = 5 \/ n = 6 \/ n = 7 \/ n = 8 \/ n = 9 \/ n = 10
    \/ n = 11 \/ n = 12 \/ n = 13 \/ n = 14 \/ n = 15)%N as Hn by lia.
  destruct_or!; subst; reflexivity.
Qed.

Section encode.
Context (keep : N -> bool) (keep_percent : keep 37%N = false).

Lemma decode_encode fuel s e :
  units s -> encode_with keep s = Some e -> length s <= fuel -> decode_loop fuel e = Some s.
Proof.
  revert s e. induction fuel as [|fuel IH]; intros [|c s] e Hu He Hf; cbn in Hf; try lia.
  1-2: cbn in He; by simplify_eq.
  apply Forall_cons in Hu as [Hc Hu]. cbn [encode_with] in He.
  destruct (keep c) eqn:Hun.
  { destruct (encode_with keep s) as [r|] eqn:Hr; cbn in He; simplify_eq.
    rewrite decode_plain by by (intros ->; congruence). rewrite (IH s r) by (done || lia). done. }
  destruct (low_surrogate c) eqn:Hlow; [done|]. unfold low_surrogate, high_surrogate, between in *.
  destruct ((55296 <=? c)%N && (c <=? 56319)%N) eqn:Hhigh.
  - destruct s as [|d s]; [done|]. destruct ((56320 <=? d)%N && (d <=? 57343)%N) eqn:Hd; [|done].
    apply Forall_cons in Hu as [_ Hu]. cbn in Hf.
    destruct (encode_with keep s) as [r|] eqn:Hr; cbn in He; simplify_eq.
    rewrite decode_percent by (split; lia). rewrite (IH s r) by (done || lia). cbn. f_equal.
    unfold utf16. destruct (N.ltb_spec (65536 + (c - 55296) * 1024 + (d - 56320)) 65536); [lia|].
    cbn. repeat f_equal; lia.
  - destruct (encode_with keep s) as [r|] eqn:Hr; cbn in He; simplify_eq.
    rewrite decode_percent by (split; lia). rewrite (IH s r) by (done || lia). cbn. f_equal.
    unfold utf16. destruct (N.ltb_spec c 65536); [done|lia].
Qed.

Lemma encoded_long s e : encode_with keep s = Some e -> length s <= length e.
Proof.
  revert e. induction s as [s IH] using (induction_ltof1 _ length). unfold ltof in IH.
  destruct s as [|c s]; intros e He; [cbn; lia|]. cbn [encode_with] in He.
  assert (forall v, 3 <= length (percent v)) as H3.
  { intros v. pose proof (utf8_cons v) as (b & bs & E). unfold percent. rewrite E. cbn. lia. }
  pose proof (H3 c) as Hp.
  repeat case_match; try done;
    match type of He with context[encode_with keep ?t] =>
      destruct (encode_with keep t) as [r|] eqn:Hr; cbn in He; simplify_eq;
      apply IH in Hr; [|cbn; lia] end;
    rewrite ?length_app; cbn [length]; try lia.
  match goal with |- context[length (percent ?v)] => specialize (H3 v) end. lia.
Qed.

(** The units an encoded text may hold. *)
Definition encoded_unit (c : N) : bool := keep c || is_alnum c || (c =? 37)%N.

Lemma percent_units v : scalar v -> Forall (fun c => encoded_unit c = true) (percent v).
Proof.
  intros Hv. apply utf8_bytes in Hv. unfold percent.
  induction Hv as [|b bs Hb _ IH]; [constructor|]. cbn [flat_map]. apply Forall_app. split; [|done].
  unfold percent_byte, encoded_unit.
  repeat constructor; rewrite ?hex_upper_alnum by lia; by rewrite ?orb_true_r.
Qed.

Lemma encoded_units s e :
  units s -> encode_with keep s = Some e -> Forall (fun c => encoded_unit c = true) e.
Proof.
  revert e. induction s as [s IH] using (induction_ltof1 _ length). unfold ltof in IH.
  destruct s as [|c s]; intros e Hu He; [cbn in He; simplify_eq; constructor|].
  apply Forall_cons in Hu as [Hc Hu]. cbn [encode_with] in He.
  destruct (keep c) eqn:Hun.
  { destruct (encode_with keep s) as [r|] eqn:Hr; cbn in He; simplify_eq.
    constructor; [unfold encoded_unit; by rewrite Hun|]. eapply (IH s); [cbn; lia|done|done]. }
  destruct (low_surrogate c) eqn:Hlow; [done|]. unfold low_surrogate, high_surrogate, between in *.
  destruct ((55296 <=? c)%N && (c <=? 56319)%N) eqn:Hhigh.
  - destruct s as [|d s]; [done|]. destruct ((56320 <=? d)%N && (d <=? 57343)%N) eqn:Hd; [|done].
    apply Forall_cons in Hu as [_ Hu].
    destruct (encode_with keep s) as [r|] eqn:Hr; cbn in He; simplify_eq.
    apply Forall_app. split; [apply percent_units; split; lia|]. eapply (IH s); [cbn; lia|done|done].
  - destruct (encode_with keep s) as [r|] eqn:Hr; cbn in He; simplify_eq.
    apply Forall_app. split; [apply percent_units; split; lia|]. eapply (IH s); [cbn; lia|done|done].
Qed.

(** Decoding undoes encoding. *)
Lemma decode_encode_with s e : units s -> encode_with keep s = Some e -> decodeURIComponent e = Some s.
Proof. intros Hu He. eapply decode_encode; eauto using encoded_long. Qed.

(** Which texts can be encoded does not depend on the units kept, surrogates aside. *)
Lemma encode_with_some (keep' : N -> bool) s :
  (forall c, keep c = true \/ keep' c = true -> low_surrogate c = false /\ high_surrogate c = false) ->
  is_Some (encode_with keep s) -> is_Some (encode_with keep' s).
Proof.
  intros Hk. induction s as [s IH] using (induction_ltof1 _ length). unfold ltof in IH.
  destruct s as [|c s]; [by eexists|]. intros [e He]. cbn [encode_with] in *.
  assert (forall t k, length t < length (c :: s) -> encode_with keep t = Some k -> is_Some (encode_with keep' t)) as IH'.
  { intros t k Ht Hs. apply IH; [done|by eexists]. }
  pose proof (Hk c) as Hkc.
  destruct (keep c) eqn:K1, (keep' c) eqn:K2; try (destruct Hkc as [L H]; [by auto|]; rewrite L, H in * );
    try (destruct (low_surrogate c); [done|]; destruct (high_surrogate c);
         [destruct s as [|d s]; [done|]; destruct (low_surrogate d); [|done]|]);
    (match type of He with context[encode_with keep ?t] =>
       destruct (encode_with keep t) as [k|] eqn:E; [|done];
       destruct (IH' t k) as [r Er]; [cbn; lia|done|]; rewrite Er; cbn; by eexists end).
Qed.

End encode.

(** The instance of [encodeURIComponent]. *)
Definition uri_unit (c : N) : bool := uri_unreserved c || (c =? 37)%N.

Lemma decode_encodeURIComponent s e :
  units s -> encodeURIComponent s = Some e -> decodeURIComponent e = Some s.
Proof. by apply decode_encode_with. Qed.

Lemma encodeURIComponent_long s e : encodeURIComponent s = Some e -> length s <= length e.
Proof. apply encoded_long. Qed.

Lemma encodeURIComponent_units s e :
  units s -> encodeURIComponent s = Some e -> Forall (fun c => uri_unit c = true) e.
Proof.
  intros Hu He. eapply Forall_impl; [by eapply encoded_units|]. intros c. unfold encoded_unit, uri_unit, uri_unreserved.
  cbn. by destruct (is_alnum c); [|rewrite orb_false_r].
Qed.

(** A text without percent signs is its own decoding. *)
Lemma decode_plain_text s : 37%N ∉ s -> decodeURIComponent s = Some s.
Proof.
  unfold decodeURIComponent. induction s as [|c s IH]; intros H; [done|].
  apply not_elem_of_cons in H as [Hc Hs]. cbn [length]. rewrite decode_plain by done. by rewrite IH.
Qed.

(** ** application/x-www-form-urlencoded

    A serializer and a parser of query parameters, to instantiate [URLSearchParams]: names
    and values are percent-encoded, pairs are joined by ampersands. A space is written %20,
    which [URLSearchParams] writes as a plus sign; both read a plus sign as a space. *)

Definition form_keep (c : N) : bool := is_alnum c || bool_decide (c ∈ js "*-._").
Definition form_encode (s : jsstr) : jsstr := default [] (encode_with form_keep s).
Definition print_pair (e : jsstr * jsstr) : jsstr := form_encode e.1 ++ js "=" ++ form_encode e.2.
Definition print_form (l : list (jsstr * jsstr)) : jsstr := JsString.join (js "&") (map print_pair l).

Definition cAMP : N := 38.
Definition form_decode (s : jsstr) : jsstr :=
  let t := replace_units (N.eqb 43) (js "%20") s in default t (decodeURIComponent t).

(** The pair of [name=value]; without an equals sign the value is empty. *)
Definition parse_pair (s : jsstr) : jsstr * jsstr :=
  let n := run_len (fun c => negb (c =? cEQ)%N) s in (form_decode (take n s), form_decode (drop (S n) s)).
Definition parse_form (s : jsstr) : list (jsstr * jsstr) :=
  let s := match s with c :: t => if (c =? cQM)%N then t else s | [] => s end in
  map parse_pair (filterb non_empty (split_on (N.eqb cAMP) s)).

Example form_examples :
  parse_form (js "?retryWrites=true&w=majority&&x&y=a%20b+c")
  = [(js "retryWrites", js "true"); (js "w", js "majority"); (js "x", []); (js "y", js "a b c")]
  /\ print_form [(js "a b", js "1&2"); (js "c", [])] = js "a%20b=1%262&c=".
Proof. vm_compute. done. Qed.

(** *** Lemmas *)

Definition pair_unit (c : N) : bool := form_keep c || (c =? 37)%N.

Lemma form_encode_spec s :
  units s -> is_Some (encodeURIComponent s) ->
  forallb pair_unit (form_encode s) = true /\ form_decode (form_encode s) = s.
Proof.
  intros Hu Hs. unfold form_encode. apply (encode_with_some _ form_keep) in Hs as [e He].
  - rewrite He. cbn [default from_option id]. pose proof (encoded_units form_keep s e Hu He) as Hun.
    assert (forallb pair_unit e = true) as Hp.
    { apply forallb_elem. intros c Hc. rewrite Forall_forall in Hun. specialize (Hun c Hc).
      unfold encoded_unit, pair_unit, form_keep in *. by destruct (is_alnum c); [|rewrite ?orb_false_r in *]. }
    split; [done|]. unfold form_decode.
    assert (replace_units (N.eqb 43) (js "%20") e = e) as ->.
    { clear -Hp. unfold replace_units. induction e as [|c e IH]; [done|]. cbn [forallb] in Hp. bools. cbn [flat_map].
      rewrite IH by done. destruct (N.eqb_spec 43 c); [subst; done|done]. }
    rewrite (decode_encode_with form_keep eq_refl s e Hu He). done.
  - intros c Hc. assert ((c < 128)%N) as Hlt.
    { destruct Hc as [Hc|Hc]; unfold uri_unreserved, form_keep in Hc; apply orb_true_iff in Hc as [Hc|Hc];
        try (unfold is_alnum, is_alpha, is_lower, is_upper, is_digit, between in Hc; lia);
        apply bool_decide_eq_true in Hc; vm_compute in Hc; set_unfold in Hc; destruct_or! Hc; subst; lia. }
    unfold low_surrogate, high_surrogate, between. split; apply andb_false_iff; left; apply N.leb_gt; lia.
Qed.

Lemma run_len_stop p a c b : forallb p a = true -> p c = false -> run_len p (a ++ c :: b) = length a.
Proof.
  intros Ha Hc. induction a as [|x a IH]; cbn in *; [by rewrite Hc|]. apply andb_true_iff in Ha as [-> Ha]. by rewrite IH.
Qed.

Lemma parse_print_pair e :
  units e.1 /\ is_Some (encodeURIComponent e.1) -> units e.2 /\ is_Some (encodeURIComponent e.2) ->
  parse_pair (print_pair e) = e.
Proof.
  intros [U1 S1] [U2 S2]. destruct (form_encode_spec _ U1 S1) as [P1 D1]. destruct (form_encode_spec _ U2 S2) as [P2 D2].
  unfold parse_pair, print_pair. change (js "=") with [cEQ]. cbn [app].
  rewrite run_len_stop; [| |done].
  - rewrite take_app_length, drop_app_ge by lia.
    replace (S (length (form_encode e.1)) - length (form_encode e.1)) with 1 by lia. cbn [drop].
    rewrite drop_0, D1, D2. by destruct e.
  - apply forallb_elem. intros c Hc. rewrite forallb_elem in P1. specialize (P1 c Hc).
    destruct (N.eqb_spec c cEQ); [subst; by vm_compute in P1|done].
Qed.

Lemma split_on_app p a c b : forallb (fun x => negb (p x)) a = true -> p c = true -> split_on p (a ++ c :: b) = a :: split_on p b.
Proof.
  intros Ha Hc. induction a as [|x a IH]; cbn [app split_on]; [by rewrite Hc|].
  cbn [forallb] in Ha. apply andb_true_iff in Ha as [Hx Ha]. apply negb_true_iff in Hx. rewrite Hx, IH by done. done.
Qed.

Lemma split_join_all p c (l : list jsstr) :
  p c = true -> l <> [] -> Forall (fun w => forallb (fun x => negb (p x)) w = true) l ->
  split_on p (JsString.join [c] l) = l.
Proof.
  intros Hc Hne Hl. induction Hl as [|w l Hw Hl IH]; [done|]. destruct l as [|v l].
  - cbn. by apply split_on_none.
  - rewrite join_cons. cbn [app]. rewrite split_on_app by done. by rewrite IH.
Qed.

(** The units of a serialized form. *)
Definition form_unit (c : N) : bool := is_alnum c || bool_decide (c ∈ js "*-._+%=&").

(** The pairs [URLSearchParams] can carry: texts [encodeURIComponent] accepts. *)
Definition form_pair (e : jsstr * jsstr) : Prop :=
  (units e.1 /\ is_Some (encodeURIComponent e.1)) /\ (units e.2 /\ is_Some (encodeURIComponent e.2)).

Lemma pair_unit_form c : pair_unit c || (c =? cEQ)%N = true -> form_unit c = true /\ c <> cAMP.
Proof.
  unfold pair_unit, form_keep, form_unit. rewrite !orb_true_iff, bool_decide_eq_true, !N.eqb_eq. intros Hc.
  destruct_or! Hc; try (vm_compute in Hc; set_unfold in Hc; destruct_or! Hc); subst.
  all: split; [first [by left|right; vm_compute; set_solver]|unfold cAMP; first [done|intros ->; by vm_compute in Hc]].
Qed.

Lemma print_pair_units e : form_pair e -> forallb (fun c => pair_unit c || (c =? cEQ)%N) (print_pair e) = true.
Proof.
  intros [[U1 S1] [U2 S2]].
  destruct (form_encode_spec _ U1 S1) as [P1 _]. destruct (form_encode_spec _ U2 S2) as [P2 _].
  unfold print_pair. rewrite !forallb_app, !andb_true_iff. rewrite forallb_elem in P1, P2.
  split_and!; [|done|]; apply forallb_elem; intros c Hc; [by rewrite P1|by rewrite P2].
Qed.

Lemma join_units (p : N -> bool) sep l :
  forallb p sep = true -> Forall (fun w => forallb p w = true) l -> forallb p (JsString.join sep l) = true.
Proof.
  intros Hs. induction 1 as [|w l Hw Hl IH]; [done|]. destruct l as [|v l]; [done|].
  rewrite join_cons, !forallb_app, Hw, Hs, IH. done.
Qed.

Lemma print_form_units l : Forall form_pair l -> forallb form_unit (print_form l) = true.
Proof.
  intros Hl. apply join_units; [done|]. apply Forall_map. eapply Forall_impl; [exact Hl|]. intros e He.
  pose proof (print_pair_units e He) as Hp. rewrite forallb_elem in Hp. apply forallb_elem. intros c Hc.
  by apply pair_unit_form, Hp.
Qed.

Lemma print_form_cons e l : print_form (e :: l) <> [].
Proof.
  unfold print_form. assert (forall w, JsString.join (js "&") (print_pair e :: w) <> []) as H; [|apply H].
  intros [|v w]; [|rewrite join_cons]; unfold print_pair; cbn; by destruct (form_encode e.1).
Qed.

(** Parsing undoes printing. *)
Lemma parse_print_form l : Forall form_pair l -> parse_form (print_form l) = l.
Proof.
  intros Hl. destruct (decide (l = [])) as [->|Hne]; [done|]. unfold parse_form.
  pose proof (print_form_units l Hl) as Hu.
  assert (match print_form l with c :: t => if (c =? cQM)%N then t else print_form l | [] => print_form l end = print_form l) as E.
  { destruct (print_form l) as [|c t]; [done|]. destruct (N.eqb_spec c cQM); [subst; by vm_compute in Hu|done]. }
  rewrite E. clear E Hu. unfold print_form. change (js "&") with [cAMP]. rewrite split_join_all; [|done|by destruct l|].
  - assert (filterb non_empty (map print_pair l) = map print_pair l) as ->.
    { apply filterb_all. intros w (e & -> & _)%list_elem_of_fmap. unfold print_pair. by destruct (form_encode e.1). }
    clear Hne. induction Hl as [|e l [He1 He2] Hl IH]; [done|]. cbn [map]. by rewrite IH, parse_print_pair.
  - apply Forall_map. eapply Forall_impl; [exact Hl|]. intros e He. pose proof (print_pair_units e He) as Hp.
    rewrite forallb_elem in Hp. apply forallb_elem. intros c Hc. destruct (pair_unit_form c (Hp c Hc)) as [_ Hn].
    destruct (N.eqb_spec cAMP c); [congruence|done].
Qed.
