(* ===== verification/Workbench.v ===== *)
(** * Workbench documents

    Models [src/features/workbench/domain.ts], [src/features/workbench/state.ts] and the
    parts of [src/features/sqlDocuments/domain.ts] they use: the documents of the tab
    strip, their construction (with the recovery copy of an unsaved draft) and the
    reducer. [JSON.parse] and the contents of [localStorage] are parameters; the suffix
    of a new document's identifier comes from a clock reading and a counter. *)

From S2P Require Import Prelude JsString JsMap SqlIdent JsonText JsValue JsUri.
From Stdlib Require String.
Import Stdlib.Strings.String.StringSyntax.

(** ** Saved documents *)

(** [SqlResolveMode] of [src/features/queries/resolveMode.ts] *)
Inductive SqlResolveMode := playground | script.
#[export] Instance SqlResolveMode_eq_dec : EqDecision SqlResolveMode.
Proof. solve_decision. Defined.
Definition DEFAULT_SQL_RESOLVE_MODE : SqlResolveMode := playground.

(** The fields the workbench reads. *)
Record SqlDocument := mkSqlDocument {
  sd_id : jsstr; sd_connectionId : jsstr; sd_title : jsstr; sd_selectedDatabase : jsstr;
  sd_selectedSchema : option jsstr; sd_resolveMode : SqlResolveMode; sd_content : jsstr;
  sd_localRevision : Z }.
#[export] Instance SqlDocument_eq_dec : EqDecision SqlDocument.
Proof. solve_decision. Defined.

Definition sqlRecoveryKey (id : jsstr) : jsstr := js "dopedb.sqlRecovery." ++ id.

(** [SqlDocumentFlushOutcome] of [src/features/sqlDocuments/pendingSaves.ts] *)
Inductive SqlDocumentFlushOutcome := fl_saved | fl_pending | fl_conflict | fl_error (message : jsstr).
#[export] Instance SqlDocumentFlushOutcome_eq_dec : EqDecision SqlDocumentFlushOutcome.
Proof. solve_decision. Defined.

(** ** Documents *)

Inductive StableDocumentKind := k_welcome | k_schema | k_activity | k_results.
Definition stable_name (k : StableDocumentKind) : jsstr :=
  match k with
  | k_welcome => js "welcome" | k_schema => js "schema"
  | k_activity => js "activity" | k_results => js "results"
  end.

Record SqlTab := mkSqlTab {
  st_draft : jsstr; st_title : jsstr; st_selectedDatabase : jsstr; st_selectedSchema : option jsstr;
  st_resolveMode : SqlResolveMode; st_persistedId : option jsstr; st_revision : Z; st_recovered : bool }.

(** What a document has besides its identifier and its connection. *)
Inductive doc_body :=
| BData (table : Table)
| BStable (kind : StableDocumentKind)
| BSql (tab : SqlTab)
| BDocuments (draft : option jsstr).

Record WorkbenchDocument := mkDoc { doc_id : jsstr; doc_connectionId : jsstr; doc_kind : doc_body }.

Definition stableDocument (connectionId : jsstr) (kind : StableDocumentKind) : WorkbenchDocument :=
  mkDoc (connectionId ++ js ":" ++ stable_name kind) connectionId (BStable kind).

Definition tableDocument (connectionId : jsstr) (table : Table) : WorkbenchDocument :=
  mkDoc (connectionId ++ js ":data:" ++ tableKey table) connectionId (BData table).

(** [n.toString(36)] of a natural number. *)
Definition digit36 (d : N) : N := if (d <? 10)%N then (48 + d)%N else (87 + d)%N.
Fixpoint base36_loop (fuel : nat) (n : N) (acc : jsstr) : jsstr :=
  match fuel with
  | O => acc
  | S fuel =>
    let acc := digit36 (n mod 36) :: acc in
    if (n <? 36)%N then acc else base36_loop fuel (n / 36) acc
  end.
Definition base36 (n : N) : jsstr := base36_loop (S (N.size_nat n)) n [].

(** [`${Date.now().toString(36)}-${sequence.toString(36)}`] *)
Definition fresh_suffix (now sequence : N) : jsstr := base36 now ++ js "-" ++ base36 sequence.

Definition sqlQueryDocument (connectionId suffix : jsstr) (draft : option jsstr)
    (database untitledTitle : jsstr) : WorkbenchDocument :=
  mkDoc (connectionId ++ js ":sql:" ++ suffix) connectionId
    (BSql (mkSqlTab (default (js "SELECT 1;") draft) untitledTitle database None
             DEFAULT_SQL_RESOLVE_MODE None 0 false)).
(** [queryDocument(connectionId, "documents", draft)] *)
Definition queryDocument (connectionId suffix : jsstr) (draft : option jsstr) : WorkbenchDocument :=
  mkDoc (connectionId ++ js ":documents:" ++ suffix) connectionId (BDocuments draft).

(** ** Recovery of unsaved drafts *)

Record SqlRecoverySnapshot := mkRecovery {
  rc_revision : Z; rc_title : jsstr; rc_draft : jsstr; rc_selectedDatabase : jsstr;
  rc_selectedSchema : option jsstr; rc_resolveMode : SqlResolveMode }.

#[export] Instance SqlRecoverySnapshot_eq_dec : EqDecision SqlRecoverySnapshot.
Proof. solve_decision. Defined.

Section storage.
Context (getItem : jsstr -> option jsstr) (json_parse : jsstr -> option value).

Definition own (r : js_record) (k : jsstr) : value := default VUndefined (mget r k).

(** A string, or what an absent field stands for; any other value is refused. *)
Definition text_or (d : jsstr) (v : value) : option jsstr :=
  match v with VStr s => Some s | VUndefined => Some d | _ => None end.
Definition schema_or_null (v : value) : option (option jsstr) :=
  match v with VStr s => Some (Some s) | VUndefined | VNull => Some None | _ => None end.
Definition mode_or_default (v : value) : option SqlResolveMode :=
  match v with
  | VUndefined => Some DEFAULT_SQL_RESOLVE_MODE
  | VStr s => if bool_decide (s = js "playground") then Some playground
              else if bool_decide (s = js "script") then Some script else None
  | _ => None
  end.

Definition readRecovery (document : SqlDocument) : option SqlRecoverySnapshot :=
  raw ← getItem (sqlRecoveryKey (sd_id document));
  if non_empty raw then
    v ← json_parse raw;
    match v with
    | VObj r =>
      match own r (js "revision"), own r (js "title"), own r (js "draft") with
      | VNum n, VStr title, VStr draft =>
        if bool_decide (n = show_Z (sd_localRevision document)) then
          database ← text_or (sd_selectedDatabase document) (own r (js "selectedDatabase"));
          schema ← schema_or_null (own r (js "selectedSchema"));
          mode ← mode_or_default (own r (js "resolveMode"));
          Some (mkRecovery (sd_localRevision document) title draft database schema mode)
        else None
      | _, _, _ => None
      end
    | _ => None
    end
  else None.

Definition persistedQueryDocument (document : SqlDocument) : WorkbenchDocument :=
  let recovery := readRecovery document in
  let pick {A} (f : SqlRecoverySnapshot -> A) (d : A) := match recovery with Some r => f r | None => d end in
  mkDoc (sd_connectionId document ++ js ":sql:" ++ sd_id document) (sd_connectionId document)
    (BSql (mkSqlTab (pick rc_draft (sd_content document)) (pick rc_title (sd_title document))
       (pick rc_selectedDatabase (sd_selectedDatabase document))
       (match recovery with
        | Some r => match rc_selectedSchema r with Some s => Some s | None => sd_selectedSchema document end
        | None => sd_selectedSchema document
        end)
       (pick rc_resolveMode (sd_resolveMode document)) (Some (sd_id document)) (sd_localRevision document)
       (match recovery with
        | Some r =>
          negb (bool_decide (rc_draft r = sd_content document))
          || negb (bool_decide (rc_title r = sd_title document))
          || negb (bool_decide (rc_selectedDatabase r = sd_selectedDatabase document))
          || negb (bool_decide (rc_selectedSchema r = sd_selectedSchema document))
          || negb (bool_decide (rc_resolveMode r = sd_resolveMode document))
        | None => false
        end))).

(** ** The reducer *)

Record WorkbenchState := mkWorkbench {
  documents : list WorkbenchDocument; activeDocumentId : option jsstr }.
Definition emptyWorkbenchState : WorkbenchState := mkWorkbench [] None.

Inductive WorkbenchAction :=
| AReset
| AInitialize (document : WorkbenchDocument)
| ARestoreSql (connectionId : jsstr) (stored : list SqlDocument) (open : list jsstr)
    (activePersistedId : option jsstr)
| AActivate (document : WorkbenchDocument)
| AActivateId (id : jsstr)
| AClose (id connectionId : jsstr) (fallbackWelcome : bool) (suffix : jsstr)
| AUpdateTitle (id title : jsstr)
| AUpdateSelectedDatabase (id selectedDatabase : jsstr)
| AUpdateSelectedSchema (id : jsstr) (selectedSchema : option jsstr)
| AUpdateResolveMode (id : jsstr) (mode : SqlResolveMode)
| APersist (id : jsstr) (document : SqlDocument).

Definition of_connection (c : jsstr) (d : WorkbenchDocument) : bool := bool_decide (doc_connectionId d = c).
Definition is_sql (d : WorkbenchDocument) : bool := match doc_kind d with BSql _ => true | _ => false end.
(** [document.kind === "sql" && document.persistedId ? document.persistedId : undefined] *)
Definition persisted_id (d : WorkbenchDocument) : option jsstr :=
  match doc_kind d with
  | BSql t => match st_persistedId t with Some p => if non_empty p then Some p else None | None => None end
  | _ => None
  end.
Definition has_id (id : jsstr) (d : WorkbenchDocument) : bool := bool_decide (doc_id d = id).
(** [documents.some((document) => document.id === activeDocumentId)] *)
Definition open_id (ds : list WorkbenchDocument) (active : option jsstr) : bool :=
  match active with Some id => existsb (has_id id) ds | None => false end.

(** [state.documents.map(...)] over the SQL document with this identifier. *)
Definition update_sql (id : jsstr) (f : SqlTab -> SqlTab) (st : WorkbenchState) : WorkbenchState :=
  mkWorkbench (map (fun d => match doc_kind d with
      | BSql t => if has_id id d then mkDoc (doc_id d) (doc_connectionId d) (BSql (f t)) else d
      | _ => d
      end) (documents st)) (activeDocumentId st).

(** What the update actions do to the SQL tab. *)
Definition with_title (title : jsstr) (t : SqlTab) : SqlTab :=
  mkSqlTab (st_draft t) title (st_selectedDatabase t) (st_selectedSchema t) (st_resolveMode t)
    (st_persistedId t) (st_revision t) (st_recovered t).
Definition with_database (database : jsstr) (t : SqlTab) : SqlTab :=
  mkSqlTab (st_draft t) (st_title t) database None (st_resolveMode t)
    (st_persistedId t) (st_revision t) (st_recovered t).
Definition with_schema (schema : option jsstr) (t : SqlTab) : SqlTab :=
  mkSqlTab (st_draft t) (st_title t) (st_selectedDatabase t) schema (st_resolveMode t)
    (st_persistedId t) (st_revision t) (st_recovered t).
Definition with_mode (mode : SqlResolveMode) (t : SqlTab) : SqlTab :=
  mkSqlTab (st_draft t) (st_title t) (st_selectedDatabase t) (st_selectedSchema t) mode
    (st_persistedId t) (st_revision t) (st_recovered t).
Definition with_persisted (document : SqlDocument) (t : SqlTab) : SqlTab :=
  mkSqlTab (sd_content document) (sd_title document) (sd_selectedDatabase document)
    (sd_selectedSchema document) (sd_resolveMode document)
    (st_persistedId t) (sd_localRevision document) false.

Definition openById (connectionId : jsstr) (ds : list WorkbenchDocument) : list (jsstr * WorkbenchDocument) :=
  mof (omap (fun d => if of_connection connectionId d
                      then (fun p => (p, d)) <$> persisted_id d else None) ds).

Definition restored_tabs (st : WorkbenchState) (connectionId : jsstr) (stored : list SqlDocument)
    (open : list jsstr) : list WorkbenchDocument :=
  let storedById := mof (map (fun d => (sd_id d, d)) stored) in
  omap (fun id => match mget (openById connectionId (documents st)) id with
    | Some alreadyOpen => Some alreadyOpen
    | None => persistedQueryDocument <$> mget storedById id
    end) open.

(** [activePersistedId ? restored.find(...)?.id ?? null : null] *)
Definition reactivated (restored : list WorkbenchDocument) (activePersistedId : option jsstr) : option jsstr :=
  match activePersistedId with
  | Some p => if non_empty p
      then doc_id <$> findb (fun d => match doc_kind d with
             | BSql t => bool_decide (st_persistedId t = Some p) | _ => false end) restored
      else None
  | None => None
  end.

Definition restoreSql (st : WorkbenchState) (connectionId : jsstr) (stored : list SqlDocument)
    (open : list jsstr) (activePersistedId : option jsstr) : WorkbenchState :=
  let restored := restored_tabs st connectionId stored open in
  let ds := filterb (fun d => negb (of_connection connectionId d) || negb (is_sql d)) (documents st) ++ restored in
  mkWorkbench ds
    (if open_id restored (activeDocumentId st) then activeDocumentId st
     else match reactivated restored activePersistedId with
          | Some id => Some id
          | None => if open_id ds (activeDocumentId st) then activeDocumentId st else doc_id <$> head ds
          end).

Definition close (st : WorkbenchState) (id connectionId : jsstr) (fallbackWelcome : bool) (suffix : jsstr)
    : WorkbenchState :=
  let selected := filterb (of_connection connectionId) (documents st) in
  match findIndex (has_id id) selected with
  | None => st
  | Some index =>
    let remaining := match filterb (fun d => negb (has_id id d)) selected with
      | [] => [if fallbackWelcome then stableDocument connectionId k_welcome
               else queryDocument connectionId suffix None]
      | ds => ds
      end in
    mkWorkbench (filterb (fun d => negb (of_connection connectionId d)) (documents st) ++ remaining)
      (if bool_decide (activeDocumentId st = Some id)
       then doc_id <$> remaining !! Nat.min index (Nat.max 0 (length remaining - 1))
       else activeDocumentId st)
  end.

Definition workbenchReducer (st : WorkbenchState) (action : WorkbenchAction) : WorkbenchState :=
  match action with
  | AReset => emptyWorkbenchState
  | AInitialize document => mkWorkbench [document] (Some (doc_id document))
  | ARestoreSql c stored open active => restoreSql st c stored open active
  | AActivate document =>
    mkWorkbench (if existsb (has_id (doc_id document)) (documents st) then documents st
                 else documents st ++ [document]) (Some (doc_id document))
  | AActivateId id =>
    if existsb (has_id id) (documents st) then mkWorkbench (documents st) (Some id) else st
  | AClose id c fallback suffix => close st id c fallback suffix
  | AUpdateTitle id title => update_sql id (with_title title) st
  | AUpdateSelectedDatabase id database => update_sql id (with_database database) st
  | AUpdateSelectedSchema id schema => update_sql id (with_schema schema) st
  | AUpdateResolveMode id mode => update_sql id (with_mode mode) st
  | APersist id document => update_sql id (with_persisted document) st
  end.

End storage.

(** ** The remembered tabs of a connection

    Models [src/features/workbench/openTabs.ts]: the record of which saved documents a
    member left open, kept in [localStorage] per workspace, account and connection, and
    the choice of the documents that may reopen. [localStorage] is an association list
    that may refuse a write; [JSON.parse] is a parameter. *)

Definition STORAGE_PREFIX : jsstr := js "dopedb.workbench-open-tabs.v1".
Definition MAX_STORED_TABS : nat := 128.

Record StoredOpenTabs := mkTabs { tab_open : list jsstr; tab_active : option jsstr }.
#[export] Instance StoredOpenTabs_eq_dec : EqDecision StoredOpenTabs.
Proof. solve_decision. Defined.

Definition openTabScopeKey (workspaceKind workspaceId accountScope : option jsstr) : option jsstr :=
  match truthy workspaceKind, truthy workspaceId with
  | Some k, Some w => Some (k ++ js ":" ++ w ++ js ":account:" ++ default (js "anonymous") accountScope)
  | _, _ => None
  end.

(** [None] is the [URIError] of [encodeURIComponent]. *)
Definition storageKey (scope connectionId : jsstr) : option jsstr :=
  s ← encodeURIComponent scope; c ← encodeURIComponent connectionId;
  Some (STORAGE_PREFIX ++ js ":" ++ s ++ js ":" ++ c).

Notation local_storage := (list (jsstr * jsstr)).

Definition strings_of (vs : list value) : list jsstr :=
  omap (fun v => match v with VStr s => Some s | _ => None end) vs.

(** [{ open, active }] *)
Definition tabs_value (open : list jsstr) (active : option jsstr) : value :=
  VObj [(js "open", VArr (map VStr open)); (js "active", opt_value active)].

Section storage.
Context (json_parse : jsstr -> option value).
(** Whether [setItem] is accepted: storage may be full or blocked. *)
Context (accepts : jsstr -> jsstr -> bool).

Definition readOpenTabs (ls : local_storage) (scope : option jsstr) (connectionId : jsstr)
    : option StoredOpenTabs :=
  scope ← truthy scope;
  key ← storageKey scope connectionId;
  raw ← mget ls key;
  v ← json_parse raw;
  match v with
  | VObj record =>
    match own record (js "open") with
    | VArr items =>
      Some (mkTabs (strings_of items)
        (match own record (js "active") with VStr s => Some s | _ => None end))
    | _ => None
    end
  | _ => None
  end.

(** The tabs that [writeOpenTabs] stores. *)
Definition bounded_tabs (v : StoredOpenTabs) : StoredOpenTabs :=
  let open := take MAX_STORED_TABS (tab_open v) in
  mkTabs open (match truthy (tab_active v) with
               | Some a => if bool_decide (a ∈ open) then Some a else None
               | None => None
               end).

(** [Throw tt] stands for the exception of [encodeURIComponent] or [setItem]. *)
Definition writeOpenTabs (ls : local_storage) (scope : option jsstr) (connectionId : jsstr)
    (v : StoredOpenTabs) : res unit local_storage :=
  match truthy scope with
  | None => Ok ls
  | Some scope =>
    match storageKey scope connectionId with
    | None => Throw tt
    | Some key =>
      let b := bounded_tabs v in
      text ← stringify (tabs_value (tab_open b) (tab_active b));
      let text := default [] text in
      if accepts key text then Ok (mset ls key text) else Throw tt
    end
  end.

(** The filter of [restorableOpenTabs] with its set of identifiers seen. *)
Fixpoint reopen (live closed seen : list jsstr) (ids : list jsstr) : list jsstr :=
  match ids with
  | [] => []
  | id :: ids =>
    if negb (bool_decide (id ∈ live)) || bool_decide (id ∈ closed) || bool_decide (id ∈ seen)
    then reopen live closed seen ids
    else id :: reopen live closed (sadd seen id) ids
  end.

Definition restorableOpenTabs (stored : option StoredOpenTabs) (docs : list SqlDocument)
    (closedWhileLoading openedWhileLoading : list jsstr) : StoredOpenTabs :=
  let live := sof (map sd_id docs ++ openedWhileLoading) in
  let requested := (match stored with Some t => tab_open t | None => map sd_id docs end)
                   ++ openedWhileLoading in
  let open := reopen live closedWhileLoading [] requested in
  let active := t ← stored; truthy (tab_active t) in
  mkTabs open (match active with
               | Some a => if bool_decide (a ∈ open) then Some a else None
               | None => None
               end).

End storage.

(** *** Lemmas *)

Lemma reopen_elem live closed seen ids id :
  id ∈ reopen live closed seen ids <-> id ∈ ids /\ id ∈ live /\ id ∉ closed /\ id ∉ seen.
Proof.
  revert seen. induction ids as [|x ids IH]; intros seen; cbn [reopen].
  - rewrite !elem_of_nil. tauto.
  - destruct (negb _ || _ || _) eqn:E.
    + rewrite IH, elem_of_cons. split; [tauto|]. intros ([->|Hin] & Hl & Hc & Hs); [|done].
      apply orb_true_iff in E as [[E|E]%orb_true_iff|E]; exfalso; bools; done.
    + apply orb_false_iff in E as [[E1 E2]%orb_false_iff E3]. bools.
      rewrite !elem_of_cons, IH, sadd_elem. destruct (decide (id = x)) as [->|]; [tauto|].
      split; [intros [->|(? & ? & ? & ?)]; [done|tauto]|]. intros ([->|?] & ? & ? & ?); [done|].
      right. repeat split; try done. by intros [->|].
Qed.

Lemma reopen_NoDup live closed seen ids : NoDup (reopen live closed seen ids).
Proof.
  revert seen. induction ids as [|x ids IH]; intros seen; cbn [reopen]; [constructor|].
  case_match; [done|]. constructor; [|done]. rewrite reopen_elem, sadd_elem. tauto.
Qed.

Lemma reopen_id live closed seen ids :
  NoDup ids -> (forall id, id ∈ ids -> id ∈ live /\ id ∉ closed /\ id ∉ seen) ->
  reopen live closed seen ids = ids.
Proof.
  revert seen. induction ids as [|x ids IH]; intros seen Hnd H; cbn [reopen]; [done|].
  apply NoDup_cons in Hnd as [Hx Hnd]. destruct (H x) as (Hl & Hc & Hs); [by left|].
  rewrite (bool_decide_eq_true_2 (x ∈ live)), !bool_decide_eq_false_2 by done. cbn [negb orb].
  f_equal. apply IH; [done|]. intros id Hid. destruct (H id) as (? & ? & ?); [by right|].
  rewrite sadd_elem. repeat split; try done. intros [->|]; done.
Qed.

Lemma strings_of_strings l : strings_of (map VStr l) = l.
Proof. induction l as [|s l IH]; [done|]. cbn. by rewrite <- IH at 2. Qed.

Lemma bounded_active v a : tab_active (bounded_tabs v) = Some a -> a ∈ tab_open (bounded_tabs v) /\ non_empty a = true.
Proof.
  unfold bounded_tabs, truthy. cbn. intros H. repeat (case_match; simplify_eq). bools. done.
Qed.

(** *** Writing, then reading *)

(** The law of [JSON.parse] on the records written here. *)
Definition json_law (json_parse : jsstr -> option value) : Prop :=
  forall open active text, stringify (tabs_value open active) = Ok (Some text) ->
    json_parse text = Some (tabs_value open active).

Definition key_text (k : jsstr) : jsstr := json_string k ++ [cCOLON].
Definition tabs_text (open : list jsstr) (active : option jsstr) : jsstr :=
  (cLBRACE :: key_text (js "open")) ++ json_array (map Some open)
  ++ (cCOMMA :: key_text (js "active")) ++ json_item active ++ [cRBRACE].

Lemma stringify_strings_text l : stringify (VArr (map VStr l)) = Ok (Some (json_array (map Some l))).
Proof.
  cbn [stringify]. match goal with |- context [?f (map VStr l)] => set (go := f) end.
  assert (go (map VStr l) = Ok (map json_item (map Some l))) as ->; [|done].
  induction l as [|s l IH]; [done|]. cbn. by rewrite IH.
Qed.

Lemma stringify_pair k1 k2 v1 v2 t1 t2 :
  stringify v1 = Ok (Some t1) -> stringify v2 = Ok (Some t2) ->
  stringify (VObj [(k1, v1); (k2, v2)])
  = Ok (Some ((cLBRACE :: key_text k1) ++ t1 ++ (cCOMMA :: key_text k2) ++ t2 ++ [cRBRACE])).
Proof.
  intros H1 H2. cbn [stringify]. rewrite H1. cbn [mbind res_bind]. rewrite H2. cbn [mbind res_bind join].
  unfold key_text. generalize (json_string k1) (json_string k2). intros a b.
  do 2 f_equal. cbn [app]. rewrite <- !app_assoc. cbn [app]. by rewrite <- !app_assoc.
Qed.

Lemma stringify_tabs_text open active : stringify (tabs_value open active) = Ok (Some (tabs_text open active)).
Proof.
  unfold tabs_value, tabs_text. apply stringify_pair; [apply stringify_strings_text|by destruct active].
Qed.

Lemma read_after_write json_parse accepts ls scope c v ls' :
  json_law json_parse -> truthy scope <> None ->
  writeOpenTabs accepts ls scope c v = Ok ls' ->
  readOpenTabs json_parse ls' scope c = Some (bounded_tabs v).
Proof.
  intros law Hs H. unfold writeOpenTabs in H. unfold readOpenTabs.
  destruct (truthy scope) as [sc|]; [|done]. destruct (storageKey sc c) as [key|] eqn:Hk; [|done].
  cbv zeta in H. pose proof (stringify_tabs_text (tab_open (bounded_tabs v)) (tab_active (bounded_tabs v))) as Ht.
  set (text := tabs_text _ _) in Ht. clearbody text.
  rewrite Ht in H. cbn in H. case_match; simplify_eq. cbn [mbind option_bind].
  rewrite Hk. cbn [mbind option_bind]. rewrite mget_set_eq. cbn [mbind option_bind].
  rewrite (law _ _ _ Ht). cbn [mbind option_bind tabs_value].
  change (own _ (js "open")) with (VArr (map VStr (tab_open (bounded_tabs v)))). cbn iota.
  change (own _ (js "active")) with (opt_value (tab_active (bounded_tabs v))).
  rewrite strings_of_strings. destruct (bounded_tabs v) as [o [a|]]; done.
Qed.

(** *** A reader that obeys the law

    A reader of exactly the texts that [JSON.stringify] makes of a record, for the
    theorems that assume the law of [JSON.parse]. *)

Definition strip (p s : jsstr) : option jsstr := if prefixb p s then Some (drop (length p) s) else None.

Definition read_tabs (text : jsstr) : option value :=
  t ← strip (cLBRACE :: key_text (js "open") ++ [cLB]) text;
  '(open, r) ← match t with
    | c :: r => if (c =? cRB)%N then Some ([], r) else read_items (S (length t)) t
    | [] => None
    end;
  r ← strip (cCOMMA :: key_text (js "active")) r;
  '(active, r) ← read_item r;
  if bool_decide (r = [cRBRACE])
  then Some (VObj [(js "open", VArr (map opt_value open)); (js "active", opt_value active)]) else None.

Lemma strip_app p s : strip p (p ++ s) = Some s.
Proof. unfold strip. by rewrite prefixb_app, drop_app_length. Qed.

Lemma read_tabs_law : json_law read_tabs.
Proof.
  intros open active text H. assert (text = tabs_text open active) as ->.
  { rewrite stringify_tabs_text in H. congruence. }
  clear H. unfold tabs_text, read_tabs, json_array. generalize (key_text (js "open")) (key_text (js "active")). intros ko ka.
  replace ((cLBRACE :: ko) ++ (cLB :: join [cCOMMA] (map json_item (map Some open)) ++ [cRB])
    ++ (cCOMMA :: ka) ++ json_item active ++ [cRBRACE])
    with ((cLBRACE :: ko ++ [cLB]) ++ join [cCOMMA] (map json_item (map Some open))
      ++ cRB :: (cCOMMA :: ka) ++ json_item active ++ [cRBRACE])
    by (cbn [app]; rewrite <- !app_assoc; done).
  rewrite strip_app. cbn [mbind option_bind]. set (rest := (cCOMMA :: ka) ++ _).
  assert (match join [cCOMMA] (map json_item (map Some open)) ++ cRB :: rest with
    | c :: r => if (c =? cRB)%N then Some ([], r)
                else read_items (S (length (join [cCOMMA] (map json_item (map Some open)) ++ cRB :: rest)))
                       (join [cCOMMA] (map json_item (map Some open)) ++ cRB :: rest)
    | [] => None
    end = Some (map Some open, rest)) as ->.
  - destruct open as [|s open]; [done|]. cbn [map].
    pose proof (join_length [cCOMMA] (map json_item (Some s :: map Some open)) ltac:(cbn; lia)) as Hlen.
    rewrite <- (read_json_items_rest (S (length (join [cCOMMA] (map json_item (Some s :: map Some open)) ++ cRB :: rest)))
      (Some s) (map Some open) rest).
    + cbn [map]. destruct (join _ _ ++ _) as [|c l] eqn:E.
      { destruct (map json_item (map Some open)); cbn in E; done. }
      assert (c = cDQ) as ->. { destruct (map json_item (map Some open)); cbn in E; by simplify_eq. }
      done.
    + rewrite length_app. cbn [map length] in *. rewrite !length_map in *. lia.
  - cbn [mbind option_bind]. unfold rest. rewrite strip_app. cbn [mbind option_bind].
    pose proof (read_json_item active [cRBRACE]) as H.
    assert (skip_ws (json_item active ++ [cRBRACE]) = json_item active ++ [cRBRACE]) as E by by destruct active.
    rewrite E in H. rewrite H. cbn [mbind option_bind]. rewrite bool_decide_eq_true_2 by done.
    unfold tabs_value. by rewrite map_map.
Qed.
