(* ===== verification/WorkbenchInv.v ===== *)
(** * Invariants of the workbench documents

    The identifier discipline of documents, preserved by every action of the reducer,
    and what the restoration of saved tabs does to the tab strip. *)

From S2P Require Import Prelude JsString JsMap JsValue SqlIdent Workbench.
From Stdlib Require String.
Import Stdlib.Strings.String.StringSyntax.

(** ** Well-formed documents *)

(** Connection identifiers are UUIDs; all that matters is that they have no colon. *)
Definition connection_ok (c : jsstr) : Prop := cCOLON ∉ c.

(** What follows the connection in the identifier of a document. *)
Definition id_tail (b : doc_body) (x : jsstr) : jsstr :=
  match b with
  | BData t => js "data:" ++ tableKey t
  | BStable k => stable_name k
  | BSql t => js "sql:" ++ match st_persistedId t with Some p => p | None => x end
  | BDocuments _ => js "documents:" ++ x
  end.
Definition doc_ok (d : WorkbenchDocument) : Prop :=
  connection_ok (doc_connectionId d)
  /\ exists x, doc_id d = doc_connectionId d ++ cCOLON :: id_tail (doc_kind d) x.

Record state_ok (st : WorkbenchState) : Prop := mkOk {
  so_docs : Forall doc_ok (documents st);
  so_ids : NoDup (map doc_id (documents st));
  so_active : match activeDocumentId st with
              | Some id => id ∈ map doc_id (documents st)
              | None => documents st = []
              end }.

(** What the callers of an action provide: a well-formed document, or the saved
    documents of one connection with distinct tabs to open. *)
Definition action_ok (a : WorkbenchAction) : Prop :=
  match a with
  | AInitialize d | AActivate d => doc_ok d
  | ARestoreSql c stored open _ =>
    connection_ok c /\ NoDup open /\ forall d, d ∈ stored -> sd_connectionId d = c
  | _ => True
  end.

(** ** Identifiers *)

Lemma colon_split (c1 c2 t1 t2 : jsstr) :
  cCOLON ∉ c1 -> cCOLON ∉ c2 -> c1 ++ cCOLON :: t1 = c2 ++ cCOLON :: t2 -> c1 = c2 /\ t1 = t2.
Proof.
  revert c2. induction c1 as [|a c1 IH]; intros [|b c2] H1 H2 E; cbn in E; simplify_eq.
  - done.
  - exfalso. apply H2. by left.
  - exfalso. apply H1. by left.
  - rewrite not_elem_of_cons in H1, H2. edestruct IH as [-> ->]; try done; tauto.
Qed.

Lemma doc_ok_connection d e : doc_ok d -> doc_ok e -> doc_id d = doc_id e -> doc_connectionId d = doc_connectionId e.
Proof. intros (Hd & x & Ed) (He & y & Ee) E. rewrite Ed, Ee in E. by apply colon_split in E as [? _]. Qed.

(** The kind is readable off the identifier as well. *)
Lemma doc_ok_sql d e : doc_ok d -> doc_ok e -> doc_id d = doc_id e -> is_sql d = is_sql e.
Proof.
  intros (Hd & x & Ed) (He & y & Ee) E. rewrite Ed, Ee in E.
  apply colon_split in E as [_ E]; [|done..]. unfold is_sql, id_tail in *.
  destruct (doc_kind d) as [?|[]|?|?], (doc_kind e) as [?|[]|?|?]; done.
Qed.

Lemma persisted_sql d p : doc_ok d -> persisted_id d = Some p ->
  is_sql d = true /\ doc_id d = doc_connectionId d ++ js ":sql:" ++ p.
Proof.
  intros (_ & x & E) H. unfold persisted_id, is_sql, id_tail in *.
  destruct (doc_kind d); try done. destruct (st_persistedId tab); [|done].
  case_match; simplify_eq. by rewrite E.
Qed.

(** ** Lists of documents *)

Lemma has_id_true id d : has_id id d = true <-> doc_id d = id.
Proof. unfold has_id. apply bool_decide_eq_true. Qed.

Lemma existsb_id id ds : existsb (has_id id) ds = true <-> id ∈ map doc_id ds.
Proof.
  rewrite existsb_exists. setoid_rewrite <- list_elem_of_In. setoid_rewrite has_id_true.
  rewrite list_elem_of_fmap. naive_solver.
Qed.

Lemma existsb_id_false id ds : existsb (has_id id) ds = false <-> id ∉ map doc_id ds.
Proof. rewrite <- existsb_id. by destruct (existsb _ _). Qed.

Lemma filter_ids p (ds : list WorkbenchDocument) : sublist (map doc_id (filterb p ds)) (map doc_id ds).
Proof.
  pose proof (filterb_sublist p ds) as H. induction H; cbn; by constructor.
Qed.

Lemma filter_ids_NoDup p (ds : list WorkbenchDocument) : NoDup (map doc_id ds) -> NoDup (map doc_id (filterb p ds)).
Proof. intros H. eapply sublist_NoDup; [done|apply filter_ids]. Qed.

Lemma Forall_filterb {A} (P : A -> Prop) p l : Forall P l -> Forall P (filterb p l).
Proof. rewrite !Forall_forall. intros H a [_ Ha]%filterb_elem. by apply H. Qed.

Lemma open_id_true ds active : open_id ds active = true -> exists id, active = Some id /\ id ∈ map doc_id ds.
Proof. destruct active as [id|]; cbn; [|done]. rewrite existsb_id. eauto. Qed.

(** ** Updates of one SQL document *)

Lemma update_sql_ok id f st :
  (forall t, st_persistedId (f t) = st_persistedId t) -> state_ok st -> state_ok (update_sql id f st).
Proof.
  intros Hf [Hd Hn Ha]. unfold update_sql.
  set (g := fun d => _). assert (map doc_id (map g (documents st)) = map doc_id (documents st)) as Hids.
  { rewrite map_map. apply map_ext. intros d. unfold g. repeat case_match; done. }
  split; cbn [documents activeDocumentId].
  - rewrite Forall_forall in *. intros d (d0 & -> & Hin)%list_elem_of_fmap. specialize (Hd d0 Hin).
    unfold g. destruct (doc_kind d0) as [| |t|] eqn:Hk; [done..| |done].
    destruct (has_id id d0); [|done]. destruct Hd as (Hc & x & E). split; [done|]. exists x. cbn. rewrite Hk in E.
    cbn in E. by rewrite Hf.
  - by rewrite Hids.
  - rewrite Hids. destruct (activeDocumentId st); [done|]. by rewrite Ha.
Qed.

(** ** Closing *)

Lemma close_ok st id c fallback suffix : state_ok st -> state_ok (close st id c fallback suffix).
Proof.
  intros Hst. pose proof Hst as [Hd Hn Ha]. unfold close. cbv zeta.
  destruct (findIndex _ _) as [i|] eqn:Hi; [|done].
  apply findIndex_some in Hi as (d & Hdi & Hid & _). rewrite has_id_true in Hid. subst id.
  assert (d ∈ filterb (of_connection c) (documents st)) as Hin by by eapply list_elem_of_lookup_2.
  apply filterb_elem in Hin as [Hdc Hin]. unfold of_connection in Hdc. bools.
  set (rest := filterb (fun e => negb (has_id (doc_id d) e)) _).
  set (remaining := match rest with [] => _ | _ => _ end).
  assert (Hrest : forall e, e ∈ rest -> doc_connectionId e = c /\ e ∈ documents st /\ doc_id e <> doc_id d).
  { intros e [Hne [Hec Hein]%filterb_elem]%filterb_elem. unfold of_connection, has_id in *. bools. done. }
  rewrite Forall_forall in Hd.
  assert (Hrem : remaining <> [] /\ NoDup (map doc_id remaining)
    /\ forall e, e ∈ remaining -> doc_ok e /\ doc_connectionId e = c).
  { unfold remaining. destruct rest as [|e0 es] eqn:Er.
    - split; [done|]. split; [apply NoDup_singleton|].
      intros e ->%list_elem_of_singleton. destruct (Hd d Hin) as [Hcc _]. rewrite Hdc in Hcc.
      destruct fallback; (split; [split; [done|]|done]); [exists []|exists suffix]; done.
    - split; [done|]. rewrite <- Er in *. split; [by apply filter_ids_NoDup, filter_ids_NoDup|].
      intros e He. destruct (Hrest e He) as (? & ? & _). split; [by apply Hd|done]. }
  destruct Hrem as (Hne & Hnd & Hrem). split; cbn [documents activeDocumentId].
  - apply Forall_app. split; [by apply Forall_filterb, Forall_forall|]. apply Forall_forall. intros e He. by apply Hrem.
  - rewrite map_app. apply NoDup_app. split; [by apply filter_ids_NoDup|]. split; [|done].
    intros x (e & -> & He)%list_elem_of_fmap (f & E & Hf)%list_elem_of_fmap.
    apply filterb_elem in He as [Hec Hein]. destruct (Hrem f Hf) as [Hokf Hcf].
    pose proof (doc_ok_connection e f (Hd e Hein) Hokf E). unfold of_connection in Hec. bools. congruence.
  - rewrite map_app. case_bool_decide as Hact.
    + destruct (remaining !! _) as [e|] eqn:He; cbn.
      * apply elem_of_app. right. apply list_elem_of_fmap_2. by eapply list_elem_of_lookup_2.
      * exfalso. apply lookup_ge_None in He. destruct remaining; [done|]. cbn [length] in He. lia.
    + destruct (activeDocumentId st) as [a|]; [|by rewrite Ha in Hin; inversion Hin].
      apply list_elem_of_fmap in Ha as (e & -> & He). apply elem_of_app.
      destruct (decide (doc_connectionId e = c)) as [Hec|Hec].
      * right. apply list_elem_of_fmap_2. assert (e ∈ rest) as Her.
        { apply filterb_elem. split; [|by apply filterb_elem; split; [apply bool_decide_eq_true|]].
          apply negb_true_iff. unfold has_id. apply bool_decide_eq_false. congruence. }
        unfold remaining. destruct rest; [inversion Her|done].
      * left. apply list_elem_of_fmap_2, filterb_elem. split; [|done].
        apply negb_true_iff. by apply bool_decide_eq_false.
Qed.

(** ** Restoring saved tabs *)

Section restore.
Context (getItem : jsstr -> option jsstr) (json_parse : jsstr -> option value).
Notation restored_tabs := (restored_tabs getItem json_parse).
Notation restoreSql := (restoreSql getItem json_parse).
Notation persistedQueryDocument := (persistedQueryDocument getItem json_parse).
Notation workbenchReducer := (workbenchReducer getItem json_parse).

Lemma openById_get c ds p d :
  mget (openById c ds) p = Some d -> d ∈ ds /\ doc_connectionId d = c /\ persisted_id d = Some p.
Proof.
  intros (x & Hx & E)%mof_elem%list_elem_of_omap. unfold of_connection in E.
  case_bool_decide; [|done]. destruct (persisted_id x) eqn:Hp; cbn in E; simplify_eq. done.
Qed.

(** A restored tab is the open or the saved document of its identifier. *)
Lemma restored_elem st c stored open d :
  Forall doc_ok (documents st) -> connection_ok c -> (forall d, d ∈ stored -> sd_connectionId d = c) ->
  d ∈ restored_tabs st c stored open ->
  exists p, p ∈ open /\ doc_ok d /\ doc_connectionId d = c /\ is_sql d = true /\ doc_id d = c ++ js ":sql:" ++ p.
Proof.
  intros Hok Hc Hstored (p & Hp & E)%list_elem_of_omap. exists p. split; [done|].
  destruct (mget (openById c _) p) as [e|] eqn:He.
  - simplify_eq. apply openById_get in He as (Hin & <- & Hper). rewrite Forall_forall in Hok.
    specialize (Hok d Hin). pose proof (persisted_sql d p Hok Hper) as [? ?]. done.
  - destruct (mget (mof _) p) as [s|] eqn:Hs; [|done]. cbn in E. simplify_eq.
    apply mof_elem in Hs as (s' & [= -> ->] & Hin)%list_elem_of_fmap.
    unfold doc_ok, is_sql. cbn. rewrite !(Hstored s') by done. split; [split; [done|by exists []]|done].
Qed.

Lemma restored_ids st c stored open :
  Forall doc_ok (documents st) -> connection_ok c -> (forall d, d ∈ stored -> sd_connectionId d = c) ->
  sublist (map doc_id (restored_tabs st c stored open)) (map (fun p => c ++ js ":sql:" ++ p) open).
Proof.
  intros Hok Hc Hstored. induction open as [|p open IH]; [constructor|].
  unfold restored_tabs, Workbench.restored_tabs in *. cbn [omap list_omap map].
  assert (forall d, (match mget (openById c (documents st)) p with
      | Some a => Some a
      | None => persistedQueryDocument <$> mget (mof (map (fun d => (sd_id d, d)) stored)) p
      end = Some d) -> doc_id d = c ++ js ":sql:" ++ p) as Hid.
  { intros d E. destruct (restored_elem st c stored [p] d) as (q & Hq & _ & _ & _ & ->); try done.
    - apply list_elem_of_omap. exists p. split; [by left|done].
    - apply list_elem_of_singleton in Hq. by subst. }
  destruct (match mget (openById c (documents st)) p with Some a => Some a | None => _ end) as [d|] eqn:E.
  - cbn [map]. rewrite (Hid d eq_refl). by constructor.
  - by constructor.
Qed.

Lemma restored_NoDup st c stored open :
  Forall doc_ok (documents st) -> connection_ok c -> (forall d, d ∈ stored -> sd_connectionId d = c) ->
  NoDup open -> NoDup (map doc_id (restored_tabs st c stored open)).
Proof.
  intros Hok Hc Hstored Hnd. eapply sublist_NoDup; [|by apply restored_ids].
  apply NoDup_fmap_2; [|done]. intros x y E. by apply app_inv_head, app_inv_head in E.
Qed.

Lemma restoreSql_ok st c stored open active :
  state_ok st -> connection_ok c -> NoDup open -> (forall d, d ∈ stored -> sd_connectionId d = c) ->
  state_ok (restoreSql st c stored open active).
Proof.
  intros [Hd Hn Ha] Hc Hopen Hstored. unfold restoreSql, Workbench.restoreSql. cbv zeta.
  set (kept := filterb _ _). set (restored := Workbench.restored_tabs _ _ _ _ _ _).
  assert (Hr : forall d, d ∈ restored -> doc_ok d /\ doc_connectionId d = c /\ is_sql d = true).
  { intros d Hin. apply (restored_elem st) in Hin as (p & _ & ? & ? & ? & _); done. }
  assert (Hall : Forall doc_ok (kept ++ restored)).
  { apply Forall_app. split; [by apply Forall_filterb|]. apply Forall_forall. intros d Hin. by apply Hr. }
  split; cbn [documents activeDocumentId]; [done|..].
  - rewrite map_app. apply NoDup_app. split; [by apply filter_ids_NoDup|]. split; [|by apply restored_NoDup].
    intros id (d & -> & Hd1)%list_elem_of_fmap (e & E & He)%list_elem_of_fmap.
    apply filterb_elem in Hd1 as [Hp Hin]. destruct (Hr e He) as (Hoke & Hce & Hsql).
    rewrite Forall_forall in Hd. specialize (Hd d Hin).
    pose proof (doc_ok_connection d e Hd Hoke E) as Ec. pose proof (doc_ok_sql d e Hd Hoke E) as Es.
    unfold of_connection in Hp. rewrite Ec, Hce, bool_decide_eq_true_2, Es, Hsql in Hp by done. done.
  - destruct (open_id restored _) eqn:E1.
    { apply open_id_true in E1 as (id & -> & Hin). rewrite map_app, elem_of_app. by right. }
    destruct (reactivated restored active) as [id|] eqn:E2.
    { unfold reactivated in E2. destruct active as [p|]; [|done]. destruct (non_empty p); [|done].
      destruct (findb _ restored) as [d|] eqn:Hf; [|done]. cbn in E2. simplify_eq.
      apply findb_some in Hf as [_ Hin]. rewrite map_app, elem_of_app. right. by apply list_elem_of_fmap_2. }
    destruct (open_id (kept ++ restored) _) eqn:E3.
    { apply open_id_true in E3 as (id & -> & Hin). done. }
    destruct (kept ++ restored) as [|d ds]; [done|]. cbn. by left.
Qed.

(** ** The reducer *)

Lemma reducer_ok st action :
  state_ok st -> action_ok action -> state_ok (workbenchReducer st action).
Proof.
  intros Hst Ha. destruct action; cbn [Workbench.workbenchReducer].
  - split; cbn; [constructor..|done].
  - split; cbn; [by constructor|apply NoDup_singleton|by left].
  - destruct Ha as (Hc & Hnd & Hs). by apply restoreSql_ok.
  - destruct Hst as [Hd Hn _]. destruct (existsb _ _) eqn:E; split; cbn [documents activeDocumentId]; try done.
    + by apply existsb_id.
    + apply Forall_app. split; [done|]. by constructor.
    + rewrite map_app. apply NoDup_app. split; [done|]. split; [|apply NoDup_singleton].
      intros x Hx ->%list_elem_of_singleton. by apply existsb_id_false in E.
    + rewrite map_app, elem_of_app. right. by left.
  - destruct Hst as [Hd Hn Hac]. destruct (existsb _ _) eqn:E; [|done].
    split; cbn [documents activeDocumentId]; try done. by apply existsb_id.
  - by apply close_ok.
  - by apply update_sql_ok.
  - by apply update_sql_ok.
  - by apply update_sql_ok.
  - by apply update_sql_ok.
  - by apply update_sql_ok.
Qed.

(** Every action of the workbench keeps the tab strip well formed: identifiers are
    unique and spell out the connection and kind of their document, and the active
    document is always one of the open ones (there is none only when nothing is open). *)
Theorem reducer_keeps_documents_typed st action :
  state_ok st -> action_ok action -> state_ok (workbenchReducer st action).
Proof. apply reducer_ok. Qed.

End restore.

(** A saved tab is restored next to the welcome document. *)
Lemma reducer_keeps_documents_typed_witness :
  let st := mkWorkbench [stableDocument (js "c") k_welcome] (Some (js "c:welcome")) in
  let saved := mkSqlDocument (js "q") (js "c") (js "t") (js "db") None playground (js "SELECT 1") 3 in
  let action := ARestoreSql (js "c") [saved] [js "q"] (Some (js "q")) in
  activeDocumentId (workbenchReducer (fun _ => None) (fun _ => None) st action) = Some (js "c:sql:q")
  /\ state_ok (workbenchReducer (fun _ => None) (fun _ => None) st action).
Proof.
  split; [reflexivity|].
  assert (connection_ok (js "c")) as Hc by by apply (bool_decide_unpack _).
  apply reducer_keeps_documents_typed.
  - split; cbn; [|apply NoDup_singleton|by left]. constructor; [|constructor]. split; [done|by exists []].
  - split; [done|]. split; [apply NoDup_singleton|]. by intros d ->%list_elem_of_singleton.
Defined.
