(* ===== verification/WorkbenchSession.v ===== *)
(** * The workbench session

    Models [src/features/workbench/useWorkbenchDocuments.ts]: the hook that owns the
    documents, loads the saved ones of a connection, honours what was opened and closed
    while that list was on its way, and keeps the member's record of open tabs. Its refs
    and state are one record; the effect on the selected connection, the answers of the
    asynchronous calls and the commands are the inputs of a step function, which runs the
    effect that writes the record after every input. (React runs it when the documents or
    the active one changed; otherwise it would write the same record again.) *)

From S2P Require Import Prelude JsString JsMap JsValue SqlIdent Workbench.
From Stdlib Require String.
Import Stdlib.Strings.String.StringSyntax.

(** ** State *)

(** A list request on its way, with what its callback closed over. *)
Record pending_list := mkList { pl_token : nat; pl_connection : jsstr; pl_scope : option jsstr }.
(** A close command that waits for the editor's save. *)
Record pending_close := mkClose {
  pc_token : nat; pc_id : jsstr; pc_connection : jsstr; pc_persisted : jsstr; pc_welcome : bool }.

Record session := mkSession {
  wb : WorkbenchState;
  restoringConnectionId : option jsstr;
  loadToken : nat;
  pendingInitial : option (WorkbenchDocument * bool);
  persistTarget : option (option jsstr * jsstr);
  closedWhileLoading : list jsstr;
  openedWhileLoading : list jsstr;
  lists : list pending_list;
  closes : list pending_close;
  storage : local_storage }.

Definition initial_session (ls : local_storage) : session :=
  mkSession emptyWorkbenchState None 0 None None [] [] [] [] ls.

Inductive session_input :=
| ISelect (connectionId : option jsstr) (supportsSql : bool) (scope : option jsstr) (suffix : jsstr)
| IListed (request : nat) (stored : list SqlDocument)
| IListFailed (request : nat)
| IReset
| IPrime (document : WorkbenchDocument) (showRestore : bool)
| IActivate (document : WorkbenchDocument)
| IClose (id connection : jsstr) (supportsSql : bool) (suffix : jsstr)
| IFlushed (request : nat) (outcome : SqlDocumentFlushOutcome) (suffix : jsstr)
| IAction (action : WorkbenchAction).

Section hook.
Context (getItem : jsstr -> option jsstr) (json_parse : jsstr -> option value)
  (accepts : jsstr -> jsstr -> bool).

(** ** Operations *)

Definition dispatch (a : WorkbenchAction) (s : session) : session :=
  mkSession (workbenchReducer getItem json_parse (wb s) a) (restoringConnectionId s) (loadToken s)
    (pendingInitial s) (persistTarget s) (closedWhileLoading s) (openedWhileLoading s) (lists s)
    (closes s) (storage s).

(** A new token, no persist target and empty sets: what every (re)start does first. *)
Definition restart (s : session) : session :=
  mkSession (wb s) (restoringConnectionId s) (S (loadToken s)) (pendingInitial s) None [] [] (lists s)
    (closes s) (storage s).

Definition set_restoring (c : option jsstr) (s : session) : session :=
  mkSession (wb s) c (loadToken s) (pendingInitial s) (persistTarget s) (closedWhileLoading s)
    (openedWhileLoading s) (lists s) (closes s) (storage s).
Definition set_initial (i : option (WorkbenchDocument * bool)) (s : session) : session :=
  mkSession (wb s) (restoringConnectionId s) (loadToken s) i (persistTarget s) (closedWhileLoading s)
    (openedWhileLoading s) (lists s) (closes s) (storage s).
Definition set_target (t : option (option jsstr * jsstr)) (s : session) : session :=
  mkSession (wb s) (restoringConnectionId s) (loadToken s) (pendingInitial s) t (closedWhileLoading s)
    (openedWhileLoading s) (lists s) (closes s) (storage s).
Definition set_sets (closed opened : list jsstr) (s : session) : session :=
  mkSession (wb s) (restoringConnectionId s) (loadToken s) (pendingInitial s) (persistTarget s) closed
    opened (lists s) (closes s) (storage s).
Definition set_lists (l : list pending_list) (s : session) : session :=
  mkSession (wb s) (restoringConnectionId s) (loadToken s) (pendingInitial s) (persistTarget s)
    (closedWhileLoading s) (openedWhileLoading s) l (closes s) (storage s).
Definition set_closes (l : list pending_close) (s : session) : session :=
  mkSession (wb s) (restoringConnectionId s) (loadToken s) (pendingInitial s) (persistTarget s)
    (closedWhileLoading s) (openedWhileLoading s) (lists s) l (storage s).
Definition set_storage (ls : local_storage) (s : session) : session :=
  mkSession (wb s) (restoringConnectionId s) (loadToken s) (pendingInitial s) (persistTarget s)
    (closedWhileLoading s) (openedWhileLoading s) (lists s) (closes s) ls.

Definition sdel (l : list jsstr) (x : jsstr) : list jsstr := filterb (fun y => negb (bool_decide (y = x))) l.

(** The effect on the selected connection. *)
Definition select_connection (connectionId : option jsstr) (supportsSql : bool) (scope : option jsstr)
    (suffix : jsstr) (s : session) : session :=
  let s := restart s in
  match truthy connectionId with
  | None => dispatch AReset (set_restoring None (set_initial None s))
  | Some c =>
    let queued := match pendingInitial s with
      | Some (d, show) => if of_connection c d then Some (d, show) else None
      | None => None
      end in
    let show := match pendingInitial s with Some (_, show) => show | None => true end in
    let initial := match queued with
      | Some (d, _) => d
      | None => if supportsSql then stableDocument c k_welcome else queryDocument c suffix None
      end in
    let s := set_restoring (if supportsSql && show then Some c else None) (set_initial None s) in
    let s := match queued with Some _ => s | None => dispatch (AInitialize initial) s end in
    let s := match persisted_id initial with
      | Some p => set_sets (closedWhileLoading s) (sadd (openedWhileLoading s) p) s
      | None => s
      end in
    if supportsSql then set_lists (lists s ++ [mkList (loadToken s) c scope]) s else s
  end.

(** The list request is answered. *)
Definition listed (request : pending_list) (stored : list SqlDocument) (s : session) : session :=
  if negb (pl_token request =? loadToken s)%nat then s
  else
    let restorable := restorableOpenTabs (readOpenTabs json_parse (storage s) (pl_scope request) (pl_connection request))
                        stored (closedWhileLoading s) (openedWhileLoading s) in
    let s := set_sets [] [] (set_target (Some (pl_scope request, pl_connection request)) s) in
    set_restoring None
      (dispatch (ARestoreSql (pl_connection request) stored (tab_open restorable) (tab_active restorable)) s).

Definition activate_document (document : WorkbenchDocument) (s : session) : session :=
  let s := set_restoring None s in
  let s := match persistTarget s, persisted_id document with
    | None, Some p => set_sets (sdel (closedWhileLoading s) p) (sadd (openedWhileLoading s) p) s
    | _, _ => s
    end in
  dispatch (AActivate document) s.

(** The command up to its [await]. *)
Definition close_tab (id connection : jsstr) (supportsSql : bool) (suffix : jsstr) (s : session) : session :=
  match findb (has_id id) (documents (wb s)) with
  | Some target =>
    if of_connection connection target then
      match persisted_id target with
      | Some p => set_closes (closes s ++ [mkClose (loadToken s) id connection p supportsSql]) s
      | None => dispatch (AClose id connection supportsSql suffix) s
      end
    else s
  | None => s
  end.

(** The command after its [await]. *)
Definition flushed (request : pending_close) (outcome : SqlDocumentFlushOutcome) (suffix : jsstr) (s : session) : session :=
  if negb (pc_token request =? loadToken s)%nat then s
  else match outcome with
  | fl_saved =>
    let s := match persistTarget s with
      | None => set_sets (sadd (closedWhileLoading s) (pc_persisted request))
                         (sdel (openedWhileLoading s) (pc_persisted request)) s
      | Some _ => s
      end in
    dispatch (AClose (pc_id request) (pc_connection request) (pc_welcome request) suffix) s
  | _ => s
  end.

(** The tabs to remember: the loop of the second effect. *)
Definition connection_tabs (c : jsstr) (ds : list WorkbenchDocument) : list (jsstr * jsstr) :=
  omap (fun d => if of_connection c d then (fun p => (doc_id d, p)) <$> persisted_id d else None) ds.
Definition remembered_tabs (st : WorkbenchState) (c : jsstr) : StoredOpenTabs :=
  let tabs := connection_tabs c (documents st) in
  mkTabs (map snd tabs)
    (foldl (fun active t => if bool_decide (Some t.1 = activeDocumentId st) then Some t.2 else active) None tabs).

(** A refused write is reported and changes nothing. *)
Definition remember (s : session) : session :=
  match persistTarget s with
  | Some (scope, c) =>
    match writeOpenTabs accepts (storage s) scope c (remembered_tabs (wb s) c) with
    | Ok ls => set_storage ls s
    | Throw _ => s
    end
  | None => s
  end.

(** The answer of the request at this position, which is then gone. *)
Definition take_at {A} (i : nat) (l : list A) : option (A * list A) :=
  match l !! i with Some a => Some (a, delete i l) | None => None end.

Definition session_handle (i : session_input) (s : session) : session :=
  match i with
  | ISelect c supports scope suffix => select_connection c supports scope suffix s
  | IListed k stored =>
    match take_at k (lists s) with Some (r, rest) => listed r stored (set_lists rest s) | None => s end
  | IListFailed k =>
    match take_at k (lists s) with
    | Some (r, rest) =>
      let s := set_lists rest s in
      if (pl_token r =? loadToken s)%nat then set_restoring None s else s
    | None => s
    end
  | IReset => dispatch AReset (set_restoring None (set_initial None (restart s)))
  | IPrime d show =>
    dispatch (AInitialize d)
      (set_restoring (if show then Some (doc_connectionId d) else None) (set_initial (Some (d, show)) (restart s)))
  | IActivate d => activate_document d s
  | IClose id c supports suffix => close_tab id c supports suffix s
  | IFlushed k outcome suffix =>
    match take_at k (closes s) with Some (r, rest) => flushed r outcome suffix (set_closes rest s) | None => s end
  | IAction a => dispatch a s
  end.

Definition session_step (i : session_input) (s : session) : session := remember (session_handle i s).
Definition session_run (inputs : list session_input) (s : session) : session := foldl (fun s i => session_step i s) s inputs.

End hook.
