(* ===== verification/WorkbenchSessionInv.v ===== *)
(** * What the workbench session remembers

    Theorems about [WorkbenchSession]: the record of open tabs brings the same tabs back,
    and a tab that was closed stays closed, whatever answers arrive later. *)

From S2P Require Import Prelude JsString JsMap JsonText JsValue SqlIdent Workbench WorkbenchInv.
From S2P Require Import WorkbenchSession.
From Stdlib Require String.
Import Stdlib.Strings.String.StringSyntax.

(** ** The tabs of a connection *)

Definition tab_ids (c : jsstr) (ds : list WorkbenchDocument) : list jsstr := map snd (connection_tabs c ds).

Lemma connection_tabs_elem c ds id p :
  (id, p) ∈ connection_tabs c ds <->
  exists d, d ∈ ds /\ doc_connectionId d = c /\ doc_id d = id /\ persisted_id d = Some p.
Proof.
  unfold connection_tabs, of_connection. rewrite list_elem_of_omap. split.
  - intros (d & Hd & E). case_bool_decide; [|done]. destruct (persisted_id d) eqn:Hp; cbn in E; simplify_eq. eauto.
  - intros (d & Hd & Hc & Hid & Hp). exists d. split; [done|]. rewrite bool_decide_eq_true_2 by done.
    rewrite Hp. cbn. by rewrite Hid.
Qed.

Lemma tab_ids_elem c ds p :
  p ∈ tab_ids c ds <-> exists d, d ∈ ds /\ doc_connectionId d = c /\ persisted_id d = Some p.
Proof.
  unfold tab_ids. rewrite list_elem_of_fmap. split.
  - intros ([id q] & -> & (d & ? & ? & ? & ?)%connection_tabs_elem). eauto.
  - intros (d & ? & ? & ?). exists (doc_id d, p). split; [done|]. apply connection_tabs_elem. eauto.
Qed.

Lemma connection_tabs_app c ds es : connection_tabs c (ds ++ es) = connection_tabs c ds ++ connection_tabs c es.
Proof. unfold connection_tabs. apply omap_app. Qed.

Lemma connection_tabs_none c ds :
  (forall d, d ∈ ds -> doc_connectionId d = c -> is_sql d = false) -> connection_tabs c ds = [].
Proof.
  intros H. destruct (connection_tabs c ds) as [|[id p] l] eqn:E; [done|].
  assert ((id, p) ∈ connection_tabs c ds) as Hin by (rewrite E; by left).
  apply connection_tabs_elem in Hin as (d & Hd & Hc & _ & Hp). specialize (H d Hd Hc).
  unfold persisted_id, is_sql in *. by destruct (doc_kind d).
Qed.

(** Tabs are listed under the identifiers that their documents have. *)
Lemma connection_tabs_ids c ds :
  Forall doc_ok ds -> map fst (connection_tabs c ds) = map (fun p => c ++ js ":sql:" ++ p) (tab_ids c ds).
Proof.
  intros Hok. unfold tab_ids. rewrite map_map. apply map_ext_in. intros [id p] Hin%list_elem_of_In.
  apply connection_tabs_elem in Hin as (d & Hd & <- & <- & Hp). rewrite Forall_forall in Hok.
  by apply persisted_sql in Hp as [_ E]; [|apply Hok].
Qed.

Lemma connection_tabs_sublist c ds : sublist (map fst (connection_tabs c ds)) (map doc_id ds).
Proof.
  induction ds as [|d ds IH]; [constructor|]. unfold connection_tabs in *. cbn.
  destruct (of_connection c d); [|by constructor]. destruct (persisted_id d); by constructor.
Qed.

Lemma tab_ids_NoDup c ds : Forall doc_ok ds -> NoDup (map doc_id ds) -> NoDup (tab_ids c ds).
Proof.
  intros Hok Hn. apply (NoDup_fmap_1 (fun p => c ++ js ":sql:" ++ p)).
  rewrite <- connection_tabs_ids by done. eapply sublist_NoDup; [done|apply connection_tabs_sublist].
Qed.

(** ** The remembered record *)

Definition pick_active (active : option jsstr) (tabs : list (jsstr * jsstr)) : option jsstr :=
  foldl (fun acc t => if bool_decide (Some t.1 = active) then Some t.2 else acc) None tabs.

Lemma pick_active_some active tabs p :
  NoDup (map fst tabs) -> pick_active active tabs = Some p <-> exists id, active = Some id /\ (id, p) ∈ tabs.
Proof.
  unfold pick_active. intros Hnd.
  enough (forall acc, (forall q, acc = Some q -> exists id, active = Some id /\ id ∉ map fst tabs) ->
    foldl (fun acc t => if bool_decide (Some t.1 = active) then Some t.2 else acc) acc tabs = Some p <->
    acc = Some p \/ exists id, active = Some id /\ (id, p) ∈ tabs) as H.
  { rewrite H by done. naive_solver. }
  clear -Hnd. induction tabs as [|[id q] tabs IH]; intros acc Hacc; cbn [foldl].
  - split; [by left|]. intros [?|(? & _ & H)]; [done|by apply elem_of_nil in H].
  - cbn [map fst] in *. apply NoDup_cons in Hnd as [Hid Hnd]. cbn [snd]. case_bool_decide as E.
    + rewrite IH; [|done|by intros ? [= <-]; exists id]. split.
      * intros [[= <-]|(id' & E' & Hin)]; right; [exists id; split; [done|by left]|exists id'; split; [done|by right]].
      * intros [->|(id' & E' & Hin)].
        { destruct (Hacc p eq_refl) as (id' & E' & Hn). rewrite <- E in E'. simplify_eq. exfalso. apply Hn. by left. }
        rewrite <- E in E'. simplify_eq. apply elem_of_cons in Hin as [[= ->]|Hin]; [by left|].
        right. by exists id'.
    + rewrite IH; [|done|].
      * split; (intros [?|(id' & E' & Hin)]; [by left|right; exists id'; split; [done|]]); [by right|].
        apply elem_of_cons in Hin as [[= -> ->]|Hin]; [done|done].
      * intros r Hr. destruct (Hacc r Hr) as (id' & E' & Hn). exists id'. split; [done|].
        intros Hin. apply Hn. by right.
Qed.

Lemma remembered_active st c p :
  state_ok st ->
  tab_active (remembered_tabs st c) = Some p <->
  exists d, d ∈ documents st /\ doc_connectionId d = c /\ persisted_id d = Some p
    /\ activeDocumentId st = Some (doc_id d).
Proof.
  intros [Hd Hn _]. unfold remembered_tabs. cbn [tab_active].
  change (foldl _ None _) with (pick_active (activeDocumentId st) (connection_tabs c (documents st))).
  rewrite pick_active_some by (eapply sublist_NoDup; [exact Hn|apply connection_tabs_sublist]).
  setoid_rewrite connection_tabs_elem. naive_solver.
Qed.

(** ** A record brings its tabs back *)

Section hook.
Context (getItem : jsstr -> option jsstr) (json_parse : jsstr -> option value)
  (accepts : jsstr -> jsstr -> bool).
Notation restoreSql := (restoreSql getItem json_parse).
Notation restored_tabs := (restored_tabs getItem json_parse).
Notation session_run := (session_run getItem json_parse accepts).
Notation session_step := (session_step getItem json_parse accepts).

Lemma persistedQueryDocument_id d :
  persisted_id (persistedQueryDocument getItem json_parse d) = if non_empty (sd_id d) then Some (sd_id d) else None.
Proof. done. Qed.

(** Restoring into a connection without SQL tabs opens exactly what is asked for. *)
Lemma restored_fresh st c stored open :
  (forall d, d ∈ documents st -> doc_connectionId d = c -> is_sql d = false) ->
  (forall d, d ∈ stored -> sd_connectionId d = c) ->
  (forall p, p ∈ open -> p ∈ map sd_id stored /\ non_empty p = true) ->
  connection_tabs c (restored_tabs st c stored open) = map (fun p => (c ++ js ":sql:" ++ p, p)) open.
Proof.
  intros Hfresh Hstored Hopen. unfold restored_tabs, Workbench.restored_tabs. cbv zeta.
  assert (forall p, mget (openById c (documents st)) p = None) as Hnone.
  { intros p. destruct (mget _ p) as [d|] eqn:E; [|done].
    apply openById_get in E as (Hin & Hc & Hp). specialize (Hfresh d Hin Hc).
    unfold persisted_id, is_sql in *. by destruct (doc_kind d). }
  induction open as [|p open IH]; [done|]. cbn [omap list_omap map]. rewrite Hnone.
  destruct (Hopen p) as [Hin Hne]; [by left|].
  assert (exists d, mget (mof (map (fun d => (sd_id d, d)) stored)) p = Some d /\ d ∈ stored /\ sd_id d = p)
    as (d & -> & Hd & Hid).
  { assert (is_Some (mget (mof (map (fun d => (sd_id d, d)) stored)) p)) as [d Hd].
    { apply mget_keys, mof_keys. unfold mkeys. by rewrite map_map. }
    pose proof (mof_elem _ _ _ Hd) as (d' & [= -> ->] & Hin')%list_elem_of_fmap. eauto. }
  cbn [fmap option_fmap option_map]. unfold connection_tabs in *. cbn [omap list_omap].
  unfold of_connection at 1. cbn [doc_connectionId persistedQueryDocument].
  rewrite (Hstored d Hd), bool_decide_eq_true_2, persistedQueryDocument_id by done.
  rewrite Hid, Hne. cbn [fmap option_fmap option_map doc_id persistedQueryDocument].
  rewrite (Hstored d Hd), Hid. f_equal. apply IH. intros q Hq. apply Hopen. by right.
Qed.

Lemma restorable_stored tabs stored :
  NoDup (tab_open tabs) -> (forall p, p ∈ tab_open tabs -> p ∈ map sd_id stored) ->
  (forall a, tab_active tabs = Some a -> a ∈ tab_open tabs /\ non_empty a = true) ->
  restorableOpenTabs (Some tabs) stored [] [] = tabs.
Proof.
  intros Hnd Hin Hact. unfold restorableOpenTabs. rewrite !app_nil_r. cbv zeta.
  rewrite reopen_id; [|done|].
  - destruct tabs as [o [a|]]; cbn in *; [|done]. destruct (Hact a eq_refl) as [Ha Hne]. destruct a; [done|]. cbn [truthy].
    by rewrite bool_decide_eq_true_2.
  - intros p Hp. rewrite sof_elem. repeat split; [by apply Hin|apply not_elem_of_nil..].
Qed.

Lemma persisted_id_non_empty d p : persisted_id d = Some p -> non_empty p = true.
Proof.
  unfold persisted_id. intros H. destruct (doc_kind d); try done. destruct (st_persistedId tab); [|done].
  by destruct (non_empty _) eqn:E; simplify_eq.
Qed.

(** The active document of a fresh connection is not one of its restored tabs. *)
Lemma fresh_not_restored st c stored open :
  state_ok st -> connection_ok c -> (forall d, d ∈ stored -> sd_connectionId d = c) ->
  (forall d, d ∈ documents st -> doc_connectionId d = c -> is_sql d = false) ->
  forall d, d ∈ restored_tabs st c stored open -> activeDocumentId st <> Some (doc_id d).
Proof.
  intros [Hok _ Hact] Hc Hstored Hfresh d (q & _ & Hokd & Hcd & Hsd & _)%restored_elem E; [|done..].
  rewrite E in Hact. apply list_elem_of_fmap in Hact as (f & Ef & Hf).
  rewrite Forall_forall in Hok. specialize (Hok f Hf).
  pose proof (doc_ok_connection d f Hokd Hok Ef). pose proof (doc_ok_sql d f Hokd Hok Ef) as Hs.
  rewrite (Hfresh f Hf) in Hs by congruence. congruence.
Qed.

(** With no tab to activate, the document that was active stays active. *)
Lemma restore_keeps_active st c stored open :
  state_ok st -> connection_ok c -> (forall d, d ∈ stored -> sd_connectionId d = c) ->
  (forall d, d ∈ documents st -> doc_connectionId d = c -> is_sql d = false) ->
  documents st <> [] ->
  activeDocumentId (restoreSql st c stored open None) = activeDocumentId st.
Proof.
  intros Hst Hc Hstored Hfresh Hne. pose proof Hst as [_ _ Hact].
  unfold restoreSql, Workbench.restoreSql. cbn [activeDocumentId reactivated].
  destruct (open_id _ (activeDocumentId st)) eqn:E; [done|].
  destruct (activeDocumentId st) as [id|] eqn:Ea; [|done]. cbn [open_id].
  rewrite (proj2 (existsb_id _ _)); [done|]. rewrite map_app, elem_of_app. left.
  apply list_elem_of_fmap in Hact as (f & -> & Hf). apply list_elem_of_fmap_2, filterb_elem.
  split; [|done]. unfold of_connection. case_bool_decide; [|done]. by rewrite Hfresh.
Qed.

(** The tab asked for is active after the restoration. *)
Lemma restore_activates st c stored open a :
  state_ok st -> connection_ok c -> (forall d, d ∈ stored -> sd_connectionId d = c) ->
  (forall d, d ∈ documents st -> doc_connectionId d = c -> is_sql d = false) ->
  (forall p, p ∈ open -> p ∈ map sd_id stored /\ non_empty p = true) -> a ∈ open ->
  exists d, d ∈ restored_tabs st c stored open /\ persisted_id d = Some a /\ doc_connectionId d = c
    /\ activeDocumentId (restoreSql st c stored open (Some a)) = Some (doc_id d).
Proof.
  intros Hst Hc Hstored Hfresh Hopen Ha. destruct (Hopen a Ha) as [_ Hne].
  assert ((c ++ js ":sql:" ++ a, a) ∈ connection_tabs c (restored_tabs st c stored open)) as Hra.
  { rewrite restored_fresh by done. by apply (list_elem_of_fmap_2 (fun p => (c ++ js ":sql:" ++ p, p))). }
  apply connection_tabs_elem in Hra as (d & Hd & Hdc & _ & Hp).
  unfold restoreSql, Workbench.restoreSql. cbn [activeDocumentId].
  destruct (open_id _ (activeDocumentId st)) eqn:Eo.
  { exfalso. apply open_id_true in Eo as (id & Eact & (e & -> & He)%list_elem_of_fmap).
    by apply (fresh_not_restored st c stored open Hst Hc Hstored Hfresh e). }
  unfold reactivated. rewrite Hne. destruct (findb _ _) as [e|] eqn:Hf.
  - apply findb_some in Hf as [He Hin]. exists e. repeat split; [done|..].
    + unfold persisted_id. destruct (doc_kind e); try done. bools. by rewrite He, Hne.
    + apply (restored_elem _ _ st) in Hin as (? & _ & _ & ? & _); [done|apply Hst|done..].
  - exfalso. pose proof (proj1 (findb_none _ _) Hf d Hd) as Hx. cbn beta in Hx. unfold persisted_id in Hp.
    destruct (doc_kind d) as [| |t|]; try done. destruct (st_persistedId t) as [q|]; [|done].
    destruct (non_empty q); [|done]. simplify_eq. by apply bool_decide_eq_false in Hx.
Qed.

Lemma remembered_bounded st c stored p :
  state_ok st -> (forall p, p ∈ tab_open (remembered_tabs st c) -> p ∈ map sd_id stored) ->
  p ∈ tab_open (bounded_tabs (remembered_tabs st c)) -> p ∈ map sd_id stored /\ non_empty p = true.
Proof.
  intros Hst Hopen Hp. apply (sublist_subseteq _ _ (sublist_take _ _)) in Hp.
  split; [by apply Hopen|]. apply (tab_ids_elem c) in Hp as (d & _ & _ & Hd).
  by eapply persisted_id_non_empty.
Qed.

(** The tabs after restoring a bounded record into a fresh connection. *)
Lemma restored_record st0 c stored b :
  state_ok st0 -> connection_ok c -> (forall d, d ∈ stored -> sd_connectionId d = c) ->
  (forall d, d ∈ documents st0 -> doc_connectionId d = c -> is_sql d = false) -> documents st0 <> [] ->
  NoDup (tab_open b) -> (forall p, p ∈ tab_open b -> p ∈ map sd_id stored /\ non_empty p = true) ->
  (forall a, tab_active b = Some a -> a ∈ tab_open b) ->
  remembered_tabs (restoreSql st0 c stored (tab_open b) (tab_active b)) c = b.
Proof.
  intros Hst0 Hc Hstored Hfresh Hne Hnd Hb Hact.
  pose proof (restoreSql_ok getItem json_parse st0 c stored (tab_open b) (tab_active b) Hst0 Hc Hnd Hstored) as Hok1.
  pose proof (fun p => remembered_active _ c p Hok1) as Hrem.
  assert (Htabs : connection_tabs c (documents (restoreSql st0 c stored (tab_open b) (tab_active b)))
    = map (fun p => (c ++ js ":sql:" ++ p, p)) (tab_open b)).
  { unfold restoreSql, Workbench.restoreSql. cbn [documents]. rewrite connection_tabs_app, restored_fresh by done.
    rewrite connection_tabs_none; [done|]. intros d [Hp _]%filterb_elem Hdc.
    unfold of_connection in Hp. rewrite bool_decide_eq_true_2 in Hp by done. by destruct (is_sql d). }
  assert (tab_active (remembered_tabs (restoreSql st0 c stored (tab_open b) (tab_active b)) c) = tab_active b) as Ha.
  2:{ unfold remembered_tabs in *. rewrite Htabs in *. rewrite map_map in *. cbn [snd] in *.
      rewrite map_id in *. cbn [tab_active] in Ha. rewrite Ha. by destruct b. }
  destruct (tab_active b) as [a|] eqn:Eb.
  - apply Hrem. destruct (restore_activates st0 c stored (tab_open b) a) as (d & Hd & Hp & Hdc & Hid); auto.
    exists d. repeat split; [|done..]. unfold restoreSql, Workbench.restoreSql. cbn [documents].
    rewrite elem_of_app. by right.
  - destruct (tab_active (remembered_tabs _ c)) as [p|] eqn:Ep; [|done]. exfalso.
    destruct (proj1 (Hrem p) eq_refl) as (d & Hd & Hdc & Hp & Hid). rewrite restore_keeps_active in Hid by done.
    unfold restoreSql, Workbench.restoreSql in Hd. cbn [documents] in Hd. apply elem_of_app in Hd as [Hd|Hd].
    + apply filterb_elem in Hd as [_ Hd]. specialize (Hfresh d Hd Hdc).
      unfold persisted_id, is_sql in *. by destruct (doc_kind d).
    + by apply (fresh_not_restored st0 c stored (tab_open b) Hst0 Hc Hstored Hfresh d).
Qed.

(** What a session remembers of a connection, a later session brings back: once the
    record was written and the saved documents still exist, reading the record and
    restoring from it opens the same saved tabs in the same order with the same one
    active (at most the first 128 of them), so that the new session would write the very
    same record again. *)
Theorem reopening_restores_tabs st c scope ls ls' stored st0 :
  json_law json_parse ->
  state_ok st -> truthy scope <> None ->
  writeOpenTabs accepts ls scope c (remembered_tabs st c) = Ok ls' ->
  (forall d, d ∈ stored -> sd_connectionId d = c) ->
  (forall p, p ∈ tab_open (remembered_tabs st c) -> p ∈ map sd_id stored) ->
  state_ok st0 -> connection_ok c ->
  (forall d, d ∈ documents st0 -> doc_connectionId d = c -> is_sql d = false) ->
  documents st0 <> [] ->
  let r := restorableOpenTabs (readOpenTabs json_parse ls' scope c) stored [] [] in
  remembered_tabs (restoreSql st0 c stored (tab_open r) (tab_active r)) c = bounded_tabs (remembered_tabs st c).
Proof.
  intros law Hst Hscope Hwrite Hstored Hopen Hst0 Hc Hfresh Hne r.
  pose proof (remembered_bounded st c stored) as Hb.
  assert (NoDup (tab_open (bounded_tabs (remembered_tabs st c)))) as Hnd.
  { eapply sublist_NoDup; [|apply sublist_take]. destruct Hst. by apply tab_ids_NoDup. }
  assert (r = bounded_tabs (remembered_tabs st c)) as ->.
  { unfold r. rewrite (read_after_write _ accepts _ _ _ _ _ law Hscope Hwrite). apply restorable_stored; [done|..].
    - intros p Hp. by apply Hb.
    - intros a Ha. by apply bounded_active. }
  apply restored_record; auto. intros a Ha. by apply bounded_active.
Qed.

(** ** Reachable sessions *)

(** The commands that reach the reducer directly. *)
Definition command (a : WorkbenchAction) : bool :=
  match a with
  | AActivateId _ | AUpdateTitle _ _ | AUpdateSelectedDatabase _ _ | AUpdateSelectedSchema _ _
  | AUpdateResolveMode _ _ | APersist _ _ => true
  | _ => false
  end.

(** What the environment guarantees of an input: documents are well formed, and a list
    request is answered with documents of its connection. *)
Definition input_ok (i : session_input) (s : session) : Prop :=
  match i with
  | ISelect (Some c) _ _ _ => connection_ok c
  | IListed k stored =>
    forall r, lists s !! k = Some r -> forall d, d ∈ stored -> sd_connectionId d = pl_connection r
  | IPrime d _ | IActivate d => doc_ok d
  | IAction a => command a = true
  | _ => True
  end.
Fixpoint inputs_ok (inputs : list session_input) (s : session) : Prop :=
  match inputs with
  | [] => True
  | i :: inputs => input_ok i s /\ inputs_ok inputs (session_step i s)
  end.

Record session_ok (s : session) : Prop := mkSessionOk {
  sok_wb : state_ok (wb s);
  sok_initial : forall d b, pendingInitial s = Some (d, b) -> doc_ok d;
  sok_tokens : NoDup (map pl_token (lists s));
  sok_lists : forall r, r ∈ lists s -> (pl_token r <= loadToken s)%nat /\ connection_ok (pl_connection r)
    /\ (pl_token r = loadToken s -> persistTarget s = None);
  sok_closes : forall r, r ∈ closes s -> pc_id r = pc_connection r ++ js ":sql:" ++ pc_persisted r }.

Lemma remember_fields s :
  let s' := remember accepts s in
  wb s' = wb s /\ loadToken s' = loadToken s /\ pendingInitial s' = pendingInitial s
  /\ persistTarget s' = persistTarget s /\ closedWhileLoading s' = closedWhileLoading s
  /\ openedWhileLoading s' = openedWhileLoading s /\ lists s' = lists s /\ closes s' = closes s.
Proof.
  cbv zeta. unfold remember. destruct (persistTarget s) as [[scope c]|] eqn:E; [|done].
  by destruct (writeOpenTabs _ _ _ _ _).
Qed.

Lemma session_ok_remember s : session_ok s -> session_ok (remember accepts s).
Proof.
  intros [H1 H2 H3 H4 H5]. destruct (remember_fields s) as (E1 & E2 & E3 & E4 & E5 & E6 & E7 & E8).
  split; rewrite ?E1, ?E2, ?E3, ?E4, ?E7, ?E8; done.
Qed.

Lemma take_at_spec {A} k (l : list A) a rest :
  take_at k l = Some (a, rest) -> l !! k = Some a /\ sublist rest l /\ rest = delete k l.
Proof.
  unfold take_at. destruct (l !! k) eqn:E; [|done]. intros [= <- <-].
  repeat split. apply sublist_delete.
Qed.

Lemma command_ok a : command a = true -> action_ok a.
Proof. by destruct a. Qed.

Lemma dispatch_ok a s :
  session_ok s -> action_ok a -> session_ok (dispatch getItem json_parse a s).
Proof.
  intros [H1 H2 H3 H4 H5] Ha. split; cbn [wb dispatch pendingInitial lists loadToken persistTarget closes]; try done.
  pose proof (restoreSql_ok getItem json_parse). by apply reducer_ok.
Qed.

(** A restart leaves every list request stale. *)
Lemma restart_ok s : session_ok s -> session_ok (restart s).
Proof.
  intros [H1 H2 H3 H4 H5]. split; cbn; try done. intros r Hr. destruct (H4 r Hr) as (? & ? & _).
  repeat split; [lia|done].
Qed.

Lemma select_ok c supports scope suffix s :
  session_ok s -> (forall c', c = Some c' -> connection_ok c') ->
  session_ok (select_connection getItem json_parse c supports scope suffix s).
Proof.
  intros Hs Hc. pose proof (restart_ok s Hs) as Hr. unfold select_connection.
  destruct c as [c|]; cbn [truthy].
  2:{ apply dispatch_ok; [|done]. destruct Hr. by split. }
  destruct c as [|u c']; [apply dispatch_ok; [destruct Hr; by split|done]|].
  set (c := u :: c') in *. clearbody c.
  specialize (Hc c eq_refl). cbv zeta.
  set (queued := match pendingInitial (restart s) with Some _ => _ | None => None end).
  set (initial := match queued with Some _ => _ | None => _ end).
  assert (Hini : doc_ok initial).
  { unfold initial, queued. destruct (pendingInitial (restart s)) as [[d b]|] eqn:Ep.
    - destruct (of_connection c d); [by apply (sok_initial _ Hr d b)|].
      destruct supports; (split; [done|]); [by exists []|by exists suffix].
    - destruct supports; (split; [done|]); [by exists []|by exists suffix]. }
  set (s1 := set_restoring _ _). assert (session_ok s1) as H1 by (destruct Hr; by split).
  set (s2 := match queued with Some _ => s1 | None => _ end).
  assert (session_ok s2 /\ lists s2 = lists s /\ loadToken s2 = S (loadToken s) /\ persistTarget s2 = None) as (H2 & L2 & T2 & P2).
  { unfold s2. destruct queued; [done|]. split; [by apply dispatch_ok|done]. }
  set (s3 := match persisted_id initial with Some _ => _ | None => s2 end).
  assert (session_ok s3 /\ lists s3 = lists s /\ loadToken s3 = S (loadToken s) /\ persistTarget s3 = None) as (H3 & L3 & T3 & P3).
  { unfold s3. destruct (persisted_id initial); [|done]. split; [destruct H2; by split|done]. }
  destruct supports; [|done]. destruct H3 as [G1 G2 G3 G4 G5].
  split; cbn [wb set_lists pendingInitial lists loadToken persistTarget closes]; try done.
  - rewrite map_app. apply NoDup_app. split; [done|]. split; [|apply NoDup_singleton].
    intros x (r & -> & Hx)%list_elem_of_fmap Hr'%list_elem_of_singleton. cbn [pl_token] in Hr'.
    rewrite L3 in Hx. destruct (sok_lists _ Hs r Hx) as (Hle & _ & _). lia.
  - intros r [Hx| ->%list_elem_of_singleton]%elem_of_app; [by apply G4|]. cbn. done.
Qed.


(** Dropping requests keeps a session well formed. *)
Lemma set_lists_ok rest s : session_ok s -> sublist rest (lists s) -> session_ok (set_lists rest s).
Proof.
  intros [H1 H2 H3 H4 H5] Hsub. split; cbn; try done.
  - eapply sublist_NoDup; [exact H3|]. clear -Hsub. induction Hsub; cbn; by constructor.
  - intros r Hr. apply H4. by eapply sublist_subseteq.
Qed.
Lemma set_closes_ok rest s : session_ok s -> sublist rest (closes s) -> session_ok (set_closes rest s).
Proof.
  intros [H1 H2 H3 H4 H5] Hsub. split; cbn; try done. intros r Hr. apply H5. by eapply sublist_subseteq.
Qed.

Lemma listed_ok r stored s :
  session_ok s -> connection_ok (pl_connection r) ->
  (forall r', r' ∈ lists s -> pl_token r' <> pl_token r) ->
  (forall d, d ∈ stored -> sd_connectionId d = pl_connection r) ->
  session_ok (listed getItem json_parse r stored s).
Proof.
  intros Hs Hc Hr Hstored. unfold listed. destruct (Nat.eqb_spec (pl_token r) (loadToken s)) as [E|]; [|done].
  cbn [negb]. cbv zeta. set (t := restorableOpenTabs _ _ _ _).
  pose proof (dispatch_ok (ARestoreSql (pl_connection r) stored (tab_open t) (tab_active t))
    (set_sets [] [] (set_target (Some (pl_scope r, pl_connection r)) s))) as Hd.
  destruct Hd as [H1 H2 H3 H4 H5].
  - destruct Hs as [H1 H2 H3 H4 H5]. split; cbn; try done. intros r' Hr'.
    destruct (H4 r' Hr') as (? & ? & _). repeat split; [done..|]. intros E'. cbn in E'. destruct (Hr r' Hr'). congruence.
  - split; [done|]. split; [|done]. apply reopen_NoDup.
  - by split.
Qed.

Lemma activate_ok d s : session_ok s -> doc_ok d -> session_ok (activate_document getItem json_parse d s).
Proof.
  intros Hs Hd. unfold activate_document. apply dispatch_ok; [|done].
  assert (session_ok (set_restoring None s)) as H by (destruct Hs; by split).
  destruct (persistTarget (set_restoring None s)); [done|]. destruct (persisted_id d); [|done].
  destruct H; by split.
Qed.

Lemma close_tab_ok id c supports suffix s :
  session_ok s -> session_ok (close_tab getItem json_parse id c supports suffix s).
Proof.
  intros Hs. unfold close_tab. destruct (findb _ _) as [d|] eqn:Hf; [|done].
  apply findb_some in Hf as [Hid Hin]. apply has_id_true in Hid as <-.
  destruct (of_connection c d) eqn:Hc; [|done].
  destruct (persisted_id d) as [p|] eqn:Hp; [|by apply dispatch_ok].
  destruct Hs as [H1 H2 H3 H4 H5]. split; cbn; try done.
  intros r [Hr| ->%list_elem_of_singleton]%elem_of_app; [by apply H5|]. cbn.
  destruct H1 as [Hd _ _]. rewrite Forall_forall in Hd. apply persisted_sql in Hp as [_ ->]; [|by apply Hd].
  unfold of_connection in Hc. bools. by subst.
Qed.

Lemma flushed_ok r outcome suffix s : session_ok s -> session_ok (flushed getItem json_parse r outcome suffix s).
Proof.
  intros Hs. unfold flushed. destruct (_ =? _)%nat; [|done]. destruct outcome; try done.
  apply dispatch_ok; [|done]. destruct (persistTarget s) eqn:E; [done|].
  destruct Hs as [H1 H2 H3 H4 H5]. by split.
Qed.

Lemma handle_ok i s : session_ok s -> input_ok i s -> session_ok (session_handle getItem json_parse i s).
Proof.
  intros Hs Hi. destruct i; cbn [session_handle].
  - apply select_ok; [done|]. by intros c ->.
  - destruct (take_at _ _) as [[r rest]|] eqn:E; [|done].
    apply take_at_spec in E as (Hr & Hsub & ->). apply listed_ok.
    + by apply set_lists_ok.
    + by eapply (sok_lists _ Hs), list_elem_of_lookup_2.
    + intros r' Hr' Et. pose proof (sok_tokens _ Hs) as Hnd. rewrite (delete_Permutation _ _ _ Hr) in Hnd.
      apply NoDup_cons in Hnd as [Hnot _]. apply Hnot. cbn [set_lists lists] in Hr'.
      rewrite <- Et. by apply list_elem_of_fmap_2.
    + by apply Hi.
  - destruct (take_at _ _) as [[r rest]|] eqn:E; [|done].
    apply take_at_spec in E as (_ & Hsub & _). cbv zeta.
    pose proof (set_lists_ok rest s Hs Hsub) as H. destruct (_ =? _)%nat; [destruct H; by split|done].
  - apply dispatch_ok; [|done]. pose proof (restart_ok s Hs) as H. destruct H as [H1 H2 H3 H4 H5].
    split; cbn; try done.
  - apply dispatch_ok; [|done]. pose proof (restart_ok s Hs) as H. destruct H as [H1 H2 H3 H4 H5].
    split; cbn; try done. by intros d b [= <- _].
  - by apply activate_ok.
  - by apply close_tab_ok.
  - destruct (take_at _ _) as [[r rest]|] eqn:E; [|done].
    apply take_at_spec in E as (_ & Hsub & _). by apply flushed_ok, set_closes_ok.
  - apply dispatch_ok; [done|]. by apply command_ok.
Qed.

Lemma step_ok i s : session_ok s -> input_ok i s -> session_ok (session_step i s).
Proof. intros Hs Hi. by apply session_ok_remember, handle_ok. Qed.

Lemma run_ok inputs s : session_ok s -> inputs_ok inputs s -> session_ok (session_run inputs s).
Proof.
  revert s. induction inputs as [|i inputs IH]; intros s Hs; [done|]. cbn [inputs_ok].
  intros [Hi Hrest]. apply IH; [by apply step_ok|done].
Qed.

Lemma initial_ok ls : session_ok (initial_session ls).
Proof. split; cbn; try done; [split; cbn; [constructor..|done]|constructor|by intros ? ?%elem_of_nil..]. Qed.


(** ** Which tabs an input can open *)

(** Saved documents come with the connection they are restored for. *)
Definition stored_ok (a : WorkbenchAction) : Prop :=
  match a with
  | ARestoreSql c stored _ _ => forall d, d ∈ stored -> sd_connectionId d = c
  | _ => True
  end.

Definition opens (a : WorkbenchAction) (c p : jsstr) : Prop :=
  match a with
  | AInitialize d | AActivate d => persisted_id d = Some p
  | ARestoreSql c' stored open _ => c' = c /\ p ∈ open
  | _ => False
  end.

Lemma update_sql_tabs id f st c :
  (forall t, st_persistedId (f t) = st_persistedId t) ->
  tab_ids c (documents (update_sql id f st)) = tab_ids c (documents st).
Proof.
  intros Hf. unfold tab_ids, connection_tabs, update_sql. cbn [documents].
  induction (documents st) as [|d ds IH]; [done|]. cbn [map omap list_omap].
  set (d' := match doc_kind d with BSql _ => _ | _ => d end).
  assert (of_connection c d' = of_connection c d /\ persisted_id d' = persisted_id d /\ doc_id d' = doc_id d) as (-> & -> & ->).
  { unfold d', of_connection, persisted_id. destruct (doc_kind d) eqn:E; try by rewrite E.
    destruct (has_id id d); [cbn; by rewrite Hf|by rewrite E]. }
  destruct (if of_connection c d then _ else None); cbn [map]; by rewrite IH.
Qed.

Lemma restore_opens st c' stored open active c p :
  (forall d, d ∈ stored -> sd_connectionId d = c') ->
  p ∈ tab_ids c (documents (restoreSql st c' stored open active)) ->
  p ∈ tab_ids c (documents st) /\ c' <> c \/ c' = c /\ p ∈ open.
Proof.
  intros Hstored (d & Hd & Hdc & Hp)%tab_ids_elem.
  unfold restoreSql, Workbench.restoreSql in Hd. cbn [documents] in Hd.
  apply elem_of_app in Hd as [[Hk Hd]%filterb_elem|Hd].
  - left. split; [apply tab_ids_elem; eauto|]. intros ->. unfold of_connection in Hk.
    rewrite bool_decide_eq_true_2 in Hk by done. unfold persisted_id, is_sql in *. by destruct (doc_kind d).
  - right. apply list_elem_of_omap in Hd as (q & Hq & E).
    destruct (mget (openById c' _) q) as [e|] eqn:He.
    + simplify_eq. apply openById_get in He as (_ & Hec & Hep). split; [congruence|]. congruence.
    + destruct (mget (mof _) q) as [e|] eqn:Hs; [|done]. cbn in E. injection E as <-.
      apply mof_elem in Hs as (e' & [= -> ->] & Hin)%list_elem_of_fmap. cbn in Hdc.
      rewrite (Hstored _ Hin) in Hdc. split; [done|]. rewrite persistedQueryDocument_id in Hp.
      destruct (non_empty _); [|done]. by simplify_eq.
Qed.

Lemma reducer_opens a st c p :
  stored_ok a ->
  p ∈ tab_ids c (documents (workbenchReducer getItem json_parse st a)) ->
  p ∈ tab_ids c (documents st) \/ opens a c p.
Proof.
  intros Hstored H. destruct a; cbn [workbenchReducer opens] in *; try (left; by rewrite update_sql_tabs in H).
  - by apply elem_of_nil in H.
  - right. apply tab_ids_elem in H as (d & ->%list_elem_of_singleton & _ & ?). done.
  - apply restore_opens in H as [[? _]|[-> ?]]; [by left|by right|done].
  - apply tab_ids_elem in H as (d & Hd & Hc & Hp). cbn [documents] in Hd.
    destruct (existsb _ _); [left; apply tab_ids_elem; eauto|].
    apply elem_of_app in Hd as [Hd| ->%list_elem_of_singleton]; [left; apply tab_ids_elem; eauto|by right].
  - left. by destruct (existsb _ _).
  - left. unfold close in H. cbv zeta in H. destruct (findIndex _ _); [|done].
    apply tab_ids_elem in H as (d & Hd & Hc & Hp). cbn [documents] in Hd. apply tab_ids_elem. exists d.
    apply elem_of_app in Hd as [[_ Hd]%filterb_elem|Hd]; [done|].
    destruct (filterb (fun e => negb (has_id id e)) _) as [|e es] eqn:Er.
    + apply list_elem_of_singleton in Hd as ->. by destruct fallbackWelcome.
    + rewrite <- Er in Hd. by apply filterb_elem in Hd as [_ [_ Hd]%filterb_elem].
Qed.

Lemma close_removes st c p fallback suffix :
  state_ok st ->
  p ∉ tab_ids c (documents (close st (c ++ js ":sql:" ++ p) c fallback suffix)).
Proof.
  intros Hst Hin. pose proof (close_ok st (c ++ js ":sql:" ++ p) c fallback suffix Hst) as [Hok _ _].
  apply tab_ids_elem in Hin as (d & Hd & Hc & Hp). rewrite Forall_forall in Hok.
  pose proof (persisted_sql d p (Hok d Hd) Hp) as [_ Hid]. rewrite Hc in Hid.
  unfold close in Hd. cbv zeta in Hd. destruct (findIndex _ _) as [i|] eqn:Hi.
  - cbn [documents] in Hd. apply elem_of_app in Hd as [[Hk _]%filterb_elem|Hd].
    { unfold of_connection in Hk. by rewrite bool_decide_eq_true_2 in Hk. }
    destruct (filterb (fun e => negb (has_id _ e)) _) as [|e es] eqn:Er.
    + apply list_elem_of_singleton in Hd as ->. by destruct fallback.
    + rewrite <- Er in Hd. apply filterb_elem in Hd as [Hne _]. apply negb_true_iff in Hne.
      by rewrite (proj2 (has_id_true _ _) Hid) in Hne.
  - unfold findIndex in Hi. rewrite findIndex_from_none in Hi. specialize (Hi d). rewrite (proj2 (has_id_true _ _) Hid) in Hi.
    assert (d ∈ filterb (of_connection c) (documents st)) as Hind.
    { apply filterb_elem. split; [|done]. by apply bool_decide_eq_true. }
    by specialize (Hi Hind).
Qed.

(** ** Closed tabs *)

(** The tab [p] of [c] is closed, and every answer still to come knows it. *)
Definition stays_closed (c p : jsstr) (s : session) : Prop :=
  p ∉ tab_ids c (documents (wb s))
  /\ forall r, r ∈ lists s -> pl_token r = loadToken s -> p ∈ closedWhileLoading s.

(** Inputs that neither start a new load nor open [p] themselves. *)
Definition quiet (p : jsstr) (i : session_input) : Prop :=
  match i with
  | ISelect _ _ _ _ => False
  | IPrime d _ | IActivate d => persisted_id d <> Some p
  | _ => True
  end.

Lemma stays_closed_remember c p s : stays_closed c p s -> stays_closed c p (remember accepts s).
Proof.
  intros [H1 H2]. destruct (remember_fields s) as (E1 & E2 & E3 & E4 & E5 & E6 & E7 & E8).
  split; rewrite ?E1, ?E2, ?E5, ?E7; done.
Qed.

Lemma stays_closed_dispatch c p a s :
  stays_closed c p s ->
  stored_ok a ->
  ~ opens a c p -> stays_closed c p (dispatch getItem json_parse a s).
Proof. intros [H1 H2] Hs Hno. split; [|done]. by intros [?|?]%reducer_opens. Qed.

Lemma sdel_elem l x y : y ∈ sdel l x <-> y <> x /\ y ∈ l.
Proof. unfold sdel. rewrite filterb_elem, negb_true_iff, bool_decide_eq_false. tauto. Qed.

Lemma stays_closed_listed c p r stored s :
  stays_closed c p s -> (pl_token r = loadToken s -> p ∈ closedWhileLoading s) ->
  (forall r', r' ∈ lists s -> pl_token r' <> pl_token r) ->
  (forall d, d ∈ stored -> sd_connectionId d = pl_connection r) ->
  stays_closed c p (listed getItem json_parse r stored s).
Proof.
  intros [H1 H2] Hr Hother Hstored. unfold listed.
  destruct (Nat.eqb_spec (pl_token r) (loadToken s)) as [E|]; [|done]. cbn [negb]. cbv zeta.
  set (t := restorableOpenTabs _ _ _ _). split.
  - intros [?|Hopen]%(reducer_opens (ARestoreSql _ _ _ _)); [done| |done].
    destruct Hopen as [_ (_ & _ & Hn & _)%reopen_elem]. by apply Hn, Hr.
  - intros r' Hr' E'. cbn in *. destruct (Hother r' Hr'). congruence.
Qed.


Lemma stays_closed_step c p i s :
  session_ok s -> input_ok i s -> quiet p i -> stays_closed c p s -> stays_closed c p (session_step i s).
Proof.
  intros Hs Hi Hq Hp. apply stays_closed_remember. pose proof Hp as [H1 H2].
  destruct i; cbn [session_handle quiet] in *; try done.
  - destruct (take_at _ _) as [[r rest]|] eqn:E; [|done]. apply take_at_spec in E as (Hr & Hsub & ->).
    apply stays_closed_listed.
    + split; [done|]. intros r' Hr'. apply H2. by eapply sublist_subseteq.
    + apply H2. by eapply list_elem_of_lookup_2.
    + intros r' Hr' Et. pose proof (sok_tokens _ Hs) as Hnd. rewrite (delete_Permutation _ _ _ Hr) in Hnd.
      apply NoDup_cons in Hnd as [Hnot _]. apply Hnot. rewrite <- Et. by apply list_elem_of_fmap_2.
    + by apply Hi.
  - destruct (take_at _ _) as [[r rest]|] eqn:E; [|done]. apply take_at_spec in E as (_ & Hsub & _).
    cbv zeta. assert (stays_closed c p (set_lists rest s)) as H.
    { split; [done|]. intros r' Hr'. apply H2. by eapply sublist_subseteq. }
    destruct (_ =? _)%nat; [|done]. by destruct H.
  - apply stays_closed_dispatch; [|exact I|intros []]. split; [done|]. cbn. intros r Hr E.
    destruct (sok_lists _ Hs r Hr) as [Hle _]. lia.
  - apply stays_closed_dispatch; [|exact I|done]. split; [done|]. cbn. intros r Hr E.
    destruct (sok_lists _ Hs r Hr) as [Hle _]. lia.
  - unfold activate_document. apply stays_closed_dispatch; [|done|done].
    assert (stays_closed c p (set_restoring None s)) as H by done.
    destruct (persistTarget _); [done|]. destruct (persisted_id document) as [q|]; [|done].
    split; [done|]. cbn. intros r Hr E. apply sdel_elem. split; [congruence|]. by apply (H2 r).
  - unfold close_tab. destruct (findb _ _) as [d|]; [|done]. destruct (of_connection _ d); [|done].
    destruct (persisted_id d); [done|]. apply stays_closed_dispatch; [done|exact I|intros []].
  - destruct (take_at _ _) as [[r rest]|]; [|done]. unfold flushed. destruct (_ =? _)%nat; [|done].
    destruct outcome; try done. apply stays_closed_dispatch; [|exact I|intros []].
    destruct (persistTarget _); [done|]. split; [done|]. cbn. intros r' Hr E. apply sadd_elem. right. by apply (H2 r').
  - apply stays_closed_dispatch; [done|by destruct action|destruct action; try done; intros []].
Qed.

Lemma stays_closed_run c p inputs s :
  session_ok s -> inputs_ok inputs s -> Forall (quiet p) inputs -> stays_closed c p s ->
  stays_closed c p (session_run inputs s).
Proof.
  revert s. induction inputs as [|i inputs IH]; intros s Hs; [done|]. cbn [inputs_ok].
  intros [Hi Hrest] Hq Hp. apply Forall_cons in Hq as [Hq Hqs].
  apply IH; [by apply step_ok|done|done|by apply stays_closed_step].
Qed.

(** A close that was saved: the tab is gone, and a list still on its way will not bring
    it back. *)
Lemma close_stays_closed k r suffix s :
  session_ok s -> closes s !! k = Some r -> pc_token r = loadToken s ->
  stays_closed (pc_connection r) (pc_persisted r) (session_step (IFlushed k fl_saved suffix) s).
Proof.
  intros Hs Hr Ht. apply stays_closed_remember. cbn [session_handle]. unfold take_at. rewrite Hr.
  unfold flushed. cbn [loadToken set_closes]. rewrite Ht, Nat.eqb_refl. cbn [negb].
  assert (pc_id r = pc_connection r ++ js ":sql:" ++ pc_persisted r) as Hid.
  { by eapply (sok_closes _ Hs), list_elem_of_lookup_2. }
  set (s' := match persistTarget _ with None => _ | Some _ => _ end).
  assert (wb s' = wb s /\ lists s' = lists s /\ loadToken s' = loadToken s
    /\ (persistTarget s = None -> pc_persisted r ∈ closedWhileLoading s')) as (E1 & E2 & E3 & E4).
  { unfold s'. cbn [persistTarget set_closes]. destruct (persistTarget s); [done|]. repeat split.
    intros _. apply sadd_elem. by left. }
  split.
  - cbn [wb dispatch workbenchReducer]. rewrite E1, Hid. apply close_removes, Hs.
  - cbn [lists loadToken closedWhileLoading dispatch]. rewrite E2, E3. intros r' Hr' Et. apply E4.
    by apply (sok_lists _ Hs r').
Qed.

(** C37: A tab whose close was saved never comes back by itself: whatever commands, saves
    and late list answers follow, in any order, the document is not among the tabs of its
    connection until the user opens it again or a new load starts. *)
Theorem closed_tab_stays_closed ls before k r suffix after :
  inputs_ok before (initial_session ls) ->
  closes (session_run before (initial_session ls)) !! k = Some r ->
  pc_token r = loadToken (session_run before (initial_session ls)) ->
  inputs_ok after (session_step (IFlushed k fl_saved suffix) (session_run before (initial_session ls))) ->
  Forall (quiet (pc_persisted r)) after ->
  pc_persisted r ∉ tab_ids (pc_connection r)
    (documents (wb (session_run after (session_step (IFlushed k fl_saved suffix) (session_run before (initial_session ls)))))).
Proof.
  intros Hbefore Hr Ht Hafter Hq.
  pose proof (run_ok _ _ (initial_ok ls) Hbefore) as Hs.
  refine (proj1 (stays_closed_run _ _ _ _ _ Hafter Hq _)); [by apply step_ok|by apply close_stays_closed].
Qed.

End hook.

(** ** A session of one saved document *)

Module Demo.
Definition saved : SqlDocument :=
  mkSqlDocument (js "q") (js "c") (js "t") (js "db") None playground (js "SELECT 1") 3.
Definition tab : WorkbenchDocument := persistedQueryDocument (fun _ => None) (fun _ => None) saved.
Definition scope : option jsstr := Some (js "local:w:account:a").
(** The member opens the tab while the list is loading and closes it before it arrives. *)
Definition opened_and_closed : list session_input :=
  [ISelect (Some (js "c")) true scope (js "s"); IActivate tab; IClose (js "c:sql:q") (js "c") true (js "s")].
Notation demo_run := (session_run (fun _ => None) read_tabs (fun _ _ => true)).
Notation demo_step := (session_step (fun _ => None) read_tabs (fun _ _ => true)).
Definition demo_close : pending_close := mkClose 1 (js "c:sql:q") (js "c") (js "q") true.
End Demo.

Lemma closed_tab_stays_closed_witness :
  js "q" ∉ tab_ids (js "c") (documents (wb (Demo.demo_run [IListed 0 [Demo.saved]]
    (Demo.demo_step (IFlushed 0 fl_saved (js "s")) (Demo.demo_run Demo.opened_and_closed (initial_session [])))))).
Proof.
  apply (closed_tab_stays_closed (fun _ => None) read_tabs (fun _ _ => true) [] Demo.opened_and_closed 0
    Demo.demo_close (js "s") [IListed 0 [Demo.saved]]).
  - assert (connection_ok (js "c")) by by apply (bool_decide_unpack _).
    repeat split; try done. by exists [].
  - vm_compute. reflexivity.
  - vm_compute. reflexivity.
  - split; [|done]. intros r Hr d ->%list_elem_of_singleton.
    assert (Some r = Some (mkList 1 (js "c") Demo.scope)) as [= ->]; [|done].
    rewrite <- Hr. vm_compute. reflexivity.
  - by repeat constructor.
Defined.

(** The restart of a load forgets what was closed: the record still lists the tab, so the
    second answer opens it again. *)
Definition remembered_storage : local_storage :=
  from_ok [] (writeOpenTabs (fun _ _ => true) [] Demo.scope (js "c") (mkTabs [js "q"] (Some (js "q")))).
Example reload_reopens_closed_tab :
  let s := Demo.demo_run (Demo.opened_and_closed ++ [IFlushed 0 fl_saved (js "s")]) (initial_session remembered_storage) in
  tab_ids (js "c") (documents (wb s)) = []
  /\ tab_ids (js "c") (documents (wb (Demo.demo_run
        [ISelect (Some (js "c")) true Demo.scope (js "s"); IListed 1 [Demo.saved]] s))) = [js "q"].
Proof. vm_compute. done. Qed.

Lemma reopening_restores_tabs_witness :
  let st := mkWorkbench [stableDocument (js "c") k_welcome; Demo.tab] (Some (js "c:sql:q")) in
  let st0 := mkWorkbench [stableDocument (js "c") k_welcome] (Some (js "c:welcome")) in
  let r := restorableOpenTabs (readOpenTabs read_tabs remembered_storage Demo.scope (js "c")) [Demo.saved] [] [] in
  remembered_tabs (restoreSql (fun _ => None) read_tabs st0 (js "c") [Demo.saved] (tab_open r) (tab_active r)) (js "c")
  = mkTabs [js "q"] (Some (js "q")).
Proof.
  assert (connection_ok (js "c")) as Hc by by apply (bool_decide_unpack _).
  assert (doc_ok (stableDocument (js "c") k_welcome)) as Hw by (split; [done|by exists []]).
  assert (doc_ok Demo.tab) as Ht by (split; [done|by exists []]).
  apply (reopening_restores_tabs (fun _ => None) read_tabs (fun _ _ => true)
    (mkWorkbench [stableDocument (js "c") k_welcome; Demo.tab] (Some (js "c:sql:q"))) (js "c") Demo.scope
    [] remembered_storage [Demo.saved] (mkWorkbench [stableDocument (js "c") k_welcome] (Some (js "c:welcome")))).
  - exact read_tabs_law.
  - split; cbn [documents activeDocumentId]; [by repeat (apply Forall_cons; split; [done|])|by apply (bool_decide_unpack _)|].
    by apply (bool_decide_unpack _).
  - done.
  - vm_compute. reflexivity.
  - by intros d ->%list_elem_of_singleton.
  - intros p Hp. change (p ∈ [js "q"]) in Hp. apply list_elem_of_singleton in Hp as ->. by left.
  - split; cbn [documents activeDocumentId]; [by repeat (apply Forall_cons; split; [done|])|by apply (bool_decide_unpack _)|].
    by apply (bool_decide_unpack _).
  - done.
  - by intros d ->%list_elem_of_singleton.
  - done.
Defined.

(** A recovery copy whose schema was cleared with the database reopens with the schema of
    the saved document: the new database is paired with a schema of the old one. *)
Definition other_database (text : jsstr) : option value :=
  Some (VObj [(js "revision", num_value 3); (js "title", VStr (js "t")); (js "draft", VStr (js "SELECT 1"));
    (js "selectedDatabase", VStr (js "db2")); (js "selectedSchema", VNull); (js "resolveMode", VStr (js "playground"))]).
Example recovered_schema_not_cleared :
  let d := mkSqlDocument (js "q") (js "c") (js "t") (js "db") (Some (js "billing")) playground (js "SELECT 1") 3 in
  match doc_kind (persistedQueryDocument (fun _ => Some (js "x")) other_database d) with
  | BSql t => (st_selectedDatabase t, st_selectedSchema t) = (js "db2", Some (js "billing"))
  | _ => False
  end.
Proof. reflexivity. Qed.
