(* ===== verification/DraftStore.v ===== *)
(** * Unsaved text of SQL documents

    Models [src/features/workbench/draftStore.ts], the bounded store of unsaved text outside
    the component tree, and [src/features/query/useSqlEditorBuffer.ts], the editor's own
    buffer that publishes into it after a pause. A [Map] is its entries in insertion order;
    an entry's listeners are their identifiers. Theorems: the store is bounded by the
    editors that are mounted, never evicts a mounted editor's text, and the buffer loses no
    text that was typed. *)

From S2P Require Import Prelude JsString JsMap.
From Stdlib Require String.
Import Stdlib.Strings.String.StringSyntax.

Definition MAX_RETAINED_DRAFTS : nat := 64.

Record DraftEntry := mkDraft { dr_value : jsstr; dr_listeners : list nat }.
Notation drafts := (list (jsstr * DraftEntry)).

(** ** The store *)

Definition evictable (e : jsstr * DraftEntry) : bool := match dr_listeners e.2 with [] => true | _ => false end.

(** The loop of [trimDrafts]; [fuel] is the number of entries. *)
Fixpoint trim_loop (fuel : nat) (m : drafts) : drafts :=
  match fuel with
  | O => m
  | S fuel =>
    if (MAX_RETAINED_DRAFTS <? length m)%nat then
      match findb evictable m with
      | Some e => trim_loop fuel (mdel m e.1)
      | None => m
      end
    else m
  end.
Definition trimDrafts (m : drafts) : drafts := trim_loop (length m) m.

Definition seedWorkbenchDraft (id fallback : jsstr) (m : drafts) : drafts :=
  match mget m id with
  | Some current =>
    match dr_listeners current with
    | [] => if bool_decide (dr_value current = fallback) then m else mtouch m id (mkDraft fallback [])
    | _ => m
    end
  | None => trimDrafts (mset m id (mkDraft fallback []))
  end.

(** The listeners to notify are the result's second part. *)
Definition publishWorkbenchDraft (id value : jsstr) (m : drafts) : drafts * list nat :=
  match mget m id with
  | Some current =>
    if bool_decide (dr_value current = value) then (m, [])
    else (trimDrafts (mtouch m id (mkDraft value (dr_listeners current))), dr_listeners current)
  | None => (trimDrafts (mtouch m id (mkDraft value [])), [])
  end.

Definition readWorkbenchDraft (id fallback : jsstr) (m : drafts) : jsstr :=
  match mget m id with Some e => dr_value e | None => fallback end.

Definition subscribeWorkbenchDraft (id : jsstr) (listener : nat) (m : drafts) : drafts :=
  match mget m id with
  | Some e =>
    mset m id (mkDraft (dr_value e)
      (if bool_decide (listener ∈ dr_listeners e) then dr_listeners e else dr_listeners e ++ [listener]))
  | None => m
  end.
(** What [subscribeWorkbenchDraft] returns. An entry with listeners stays in the map, so the
    entry it closed over is the map's. *)
Definition unsubscribeWorkbenchDraft (id : jsstr) (listener : nat) (m : drafts) : drafts :=
  match mget m id with
  | Some e => mset m id (mkDraft (dr_value e) (filterb (fun x => negb (x =? listener)%nat) (dr_listeners e)))
  | None => m
  end.

Inductive draft_op :=
| DSeed (id fallback : jsstr) | DPublish (id value : jsstr)
| DSubscribe (id : jsstr) (listener : nat) | DUnsubscribe (id : jsstr) (listener : nat).
Definition draft_step (m : drafts) (o : draft_op) : drafts :=
  match o with
  | DSeed id f => seedWorkbenchDraft id f m
  | DPublish id v => (publishWorkbenchDraft id v m).1
  | DSubscribe id l => subscribeWorkbenchDraft id l m
  | DUnsubscribe id l => unsubscribeWorkbenchDraft id l m
  end.
Definition draft_run (ops : list draft_op) : drafts := foldl draft_step [] ops.

(** ** The editor's buffer *)

Record editor_buffer := mkBuffer {
  bf_text : jsstr; bf_version : nat; bf_lastPublished : jsstr; bf_timer : bool; bf_snapshot : jsstr }.

Definition new_buffer (snapshot : jsstr) : editor_buffer := mkBuffer snapshot 0 snapshot false snapshot.

(** [flushSnapshot], with the text it hands to [onSnapshot]. *)
Definition flushSnapshot (b : editor_buffer) : editor_buffer * option jsstr :=
  if bool_decide (bf_text b = bf_lastPublished b)
  then (mkBuffer (bf_text b) (bf_version b) (bf_lastPublished b) false (bf_snapshot b), None)
  else (mkBuffer (bf_text b) (bf_version b) (bf_text b) false (bf_snapshot b), Some (bf_text b)).

(** The effect that arms the publishing timer. *)
Definition arm_publish (b : editor_buffer) : editor_buffer :=
  if bool_decide (bf_text b = bf_lastPublished b) || bf_timer b then b
  else mkBuffer (bf_text b) (bf_version b) (bf_lastPublished b) true (bf_snapshot b).

(** [setText], and the effect of the render that follows. *)
Definition setText (text : jsstr) (b : editor_buffer) : editor_buffer :=
  if bool_decide (bf_text b = text) then b
  else arm_publish (mkBuffer text (S (bf_version b)) (bf_lastPublished b) (bf_timer b) (bf_snapshot b)).

(** A render with a snapshot: its effect runs when the snapshot changed. *)
Definition receive_snapshot (snapshot : jsstr) (b : editor_buffer) : editor_buffer :=
  if bool_decide (snapshot = bf_snapshot b) then b
  else if bool_decide (snapshot = bf_lastPublished b) || bool_decide (snapshot = bf_text b)
  then mkBuffer (bf_text b) (bf_version b) (bf_lastPublished b) (bf_timer b) snapshot
  else arm_publish (mkBuffer snapshot (S (bf_version b)) snapshot (bf_timer b) snapshot).

(** ** An editor over the store *)

(** The mounted editor of one document: [useWorkbenchDraft] subscribes it and the buffer
    publishes into the store. *)
Inductive buffer_input := BType (text : jsstr) | BTimer | BHide | BRender.

Definition publish_out (id : jsstr) (out : option jsstr) (m : drafts) : drafts :=
  match out with Some v => (publishWorkbenchDraft id v m).1 | None => m end.

Definition buffer_flush (id : jsstr) (s : editor_buffer * drafts) : editor_buffer * drafts :=
  let (b, out) := flushSnapshot s.1 in (b, publish_out id out s.2).

Definition buffer_step (id fallback : jsstr) (s : editor_buffer * drafts) (i : buffer_input) : editor_buffer * drafts :=
  match i with
  | BType text => (setText text s.1, s.2)
  | BTimer => if bf_timer s.1 then buffer_flush id s else s
  | BHide => buffer_flush id s
  | BRender => (receive_snapshot (readWorkbenchDraft id fallback s.2) s.1, s.2)
  end.

Definition mount_buffer (id fallback : jsstr) (listener : nat) (m : drafts) : editor_buffer * drafts :=
  let m := seedWorkbenchDraft id fallback m in
  (new_buffer (readWorkbenchDraft id fallback m), subscribeWorkbenchDraft id listener m).

(** The cleanup of the editor flushes the buffer and ends the subscription. *)
Definition unmount_buffer (id : jsstr) (listener : nat) (s : editor_buffer * drafts) : drafts :=
  unsubscribeWorkbenchDraft id listener (buffer_flush id s).2.

(** ** The store is bounded *)

Definition active_count (m : drafts) : nat := length (filterb (fun e => negb (evictable e)) m).

Lemma mdel_shorter (m : drafts) k e : (k, e) ∈ m -> (length (mdel m k) < length m)%nat.
Proof.
  induction m as [|[a b] m IH]; [by intros ?%elem_of_nil|]. rewrite mdel_cons. intros Hin.
  pose proof (mdel_length m k). case_decide; cbn; [lia|].
  apply elem_of_cons in Hin as [[=]|Hin]; [done|]. specialize (IH Hin). lia.
Qed.

(** Trimming ends below the limit or with mounted entries only. *)
Lemma trim_loop_bound fuel m :
  (length m <= fuel)%nat -> (length (trim_loop fuel m) <= Nat.max MAX_RETAINED_DRAFTS (active_count m))%nat.
Proof.
  revert m. induction fuel as [|fuel IH]; intros m Hf; cbn [trim_loop]; [lia|].
  destruct (MAX_RETAINED_DRAFTS <? length m)%nat eqn:Hl; [|apply Nat.ltb_ge in Hl; lia].
  destruct (findb evictable m) as [[k e]|] eqn:Hfind.
  - apply findb_some in Hfind as [He Hin]. cbn [fst]. pose proof (mdel_shorter _ _ _ Hin).
    specialize (IH (mdel m k) ltac:(lia)). enough (active_count (mdel m k) <= active_count m)%nat by lia.
    unfold active_count, mdel. clear. induction m as [|x m IH]; [done|]. unfold filterb in *. cbn.
    destruct (negb (bool_decide (k = x.1))); cbn; destruct (negb (evictable x)); cbn; lia.
  - enough (active_count m = length m) by lia. unfold active_count. f_equal. apply filterb_all.
    intros x Hx. apply negb_true_iff. by eapply findb_none in Hfind.
Qed.

(** What the store keeps of an entry that an editor has mounted. *)
Lemma trim_loop_active fuel m k e :
  NoDup (mkeys m) -> mget m k = Some e -> evictable (k, e) = false -> mget (trim_loop fuel m) k = Some e.
Proof.
  revert m. induction fuel as [|fuel IH]; intros m Hd Hm Ha; cbn [trim_loop]; [done|].
  destruct (_ <? _)%nat; [|done]. destruct (findb evictable m) as [[k' e']|] eqn:Hf; [|done].
  apply findb_some in Hf as [He Hin]. apply IH; [by apply mdel_NoDup| |done]. cbn [fst].
  rewrite mget_del. case_decide as Hk; [|done]. subst. apply elem_mget in Hin; [|done].
  rewrite Hm in Hin. simplify_eq. congruence.
Qed.

Lemma trim_loop_NoDup fuel m : NoDup (mkeys m) -> NoDup (mkeys (trim_loop fuel m)).
Proof.
  revert m. induction fuel as [|fuel IH]; intros m Hd; cbn [trim_loop]; [done|]. case_all. apply IH, mdel_NoDup, Hd.
Qed.

Lemma draft_step_NoDup m o : NoDup (mkeys m) -> NoDup (mkeys (draft_step m o)).
Proof.
  intros Hd. destruct o; cbn [draft_step]; unfold seedWorkbenchDraft, publishWorkbenchDraft, subscribeWorkbenchDraft,
    unsubscribeWorkbenchDraft, trimDrafts; repeat case_match; cbn [fst];
    auto using trim_loop_NoDup, mset_NoDup, mtouch_NoDup.
Qed.

Lemma active_cons x m : active_count (x :: m) = ((if evictable x then 0 else 1) + active_count m)%nat.
Proof. unfold active_count, filterb. cbn. by destruct (evictable x). Qed.

Lemma active_app m m' : active_count (m ++ m') = (active_count m + active_count m')%nat.
Proof. unfold active_count. by rewrite filterb_app, length_app. Qed.

Lemma active_del m k e :
  mget m k = Some e -> (active_count (mdel m k) + (if evictable (k, e) then 0 else 1) <= active_count m)%nat.
Proof.
  assert (forall m, active_count (mdel m k) <= active_count m)%nat as Hle.
  { clear m. induction m as [|[a b] m IH]; [done|]. rewrite mdel_cons, active_cons. case_decide; [lia|].
    rewrite active_cons. lia. }
  induction m as [|[a b] m IH]; [done|]. cbn [mget]. rewrite mdel_cons, active_cons. case_decide as Hk.
  - intros [= ->]. subst. specialize (Hle m). lia.
  - intros H%IH. rewrite active_cons. lia.
Qed.

(** Touching an entry without a change of its listeners mounts nothing. *)
Lemma active_touch m k v ls :
  ls = match mget m k with Some e => dr_listeners e | None => [] end ->
  (active_count (mtouch m k (mkDraft v ls)) <= active_count m)%nat.
Proof.
  intros ->. unfold mtouch. rewrite mset_fresh by (rewrite mkeys_del_elem; tauto).
  rewrite active_app, active_cons. destruct (mget m k) as [e|] eqn:E; cbn.
  - pose proof (active_del m k e E) as H. unfold evictable in *. cbn in *. destruct (dr_listeners e); lia.
  - rewrite mdel_id by (by apply mget_none). lia.
Qed.

Lemma mset_length_same {V} (m : list (jsstr * V)) k v : is_Some (mget m k) -> length (mset m k v) = length m.
Proof.
  intros H%mget_keys. rewrite <- (length_map fst), <- (length_map fst m).
  change (length (mkeys (mset m k v)) = length (mkeys m)). by rewrite mkeys_set, decide_True.
Qed.

(** The most editors mounted at once along a run. *)
Fixpoint peak (m : drafts) (ops : list draft_op) : nat :=
  match ops with
  | [] => active_count m
  | o :: ops => Nat.max (active_count m) (peak (draft_step m o) ops)
  end.

Lemma draft_step_length m o :
  (length (draft_step m o) <= Nat.max (length m) (Nat.max MAX_RETAINED_DRAFTS (active_count m)))%nat.
Proof.
  assert (forall k v ls, ls = match mget m k with Some e => dr_listeners e | None => [] end ->
    length (trimDrafts (mtouch m k (mkDraft v ls))) <= Nat.max MAX_RETAINED_DRAFTS (active_count m))%nat as Ht.
  { intros k v ls Hls. unfold trimDrafts. etrans; [by apply trim_loop_bound|].
    pose proof (active_touch m k v ls Hls). lia. }
  destruct o as [k f|k v|k l|k l]; cbn.
  - unfold seedWorkbenchDraft. destruct (mget m k) as [e|] eqn:E.
    + destruct (dr_listeners e); [|lia]. case_bool_decide; [lia|].
      enough (length (mtouch m k (mkDraft f [])) <= length m)%nat by lia.
      unfold mtouch. rewrite mset_fresh, length_app by (rewrite mkeys_del_elem; tauto). cbn.
      apply mget_elem in E. pose proof (mdel_shorter _ _ _ E). lia.
    + specialize (Ht k f [] ltac:(by rewrite E)). unfold mtouch in Ht.
      rewrite mdel_id in Ht by (by apply mget_none). lia.
  - unfold publishWorkbenchDraft. destruct (mget m k) as [e|] eqn:E; [case_bool_decide; [cbn; lia|]|]; cbn [fst];
      (etrans; [apply Ht; by rewrite E|lia]).
  - unfold subscribeWorkbenchDraft. destruct (mget m k) eqn:E; [|lia].
    rewrite mset_length_same by (by rewrite E). lia.
  - unfold unsubscribeWorkbenchDraft. destruct (mget m k) eqn:E; [|lia].
    rewrite mset_length_same by (by rewrite E). lia.
Qed.

(** The store holds at most 64 texts, or as many as there were editors mounted at once. *)
Theorem draft_store_bounded ops :
  (length (draft_run ops) <= Nat.max MAX_RETAINED_DRAFTS (peak [] ops))%nat.
Proof.
  enough (forall m, length (foldl draft_step m ops) <= Nat.max (length m) (Nat.max MAX_RETAINED_DRAFTS (peak m ops)))%nat
    as H by (apply (H [])).
  induction ops as [|o ops IH]; intros m; cbn [foldl peak]; [lia|].
  pose proof (draft_step_length m o). specialize (IH (draft_step m o)). lia.
Qed.

(** ** Typed text survives the editor *)

(** A new entry goes last, so it stays while an older one can be evicted. *)
Lemma trim_loop_newest fuel m k e :
  NoDup (mkeys (m ++ [(k, e)])) -> (active_count m < MAX_RETAINED_DRAFTS)%nat ->
  mget (trim_loop fuel (m ++ [(k, e)])) k = Some e.
Proof.
  revert m. induction fuel as [|fuel IH]; intros m Hd Ha; cbn [trim_loop].
  { apply elem_mget; [done|]. apply elem_of_app. right. by left. }
  destruct (MAX_RETAINED_DRAFTS <? length (m ++ [(k, e)]))%nat eqn:Hl.
  2:{ apply elem_mget; [done|]. apply elem_of_app. right. by left. }
  apply Nat.ltb_lt in Hl. rewrite length_app in Hl. cbn in Hl.
  destruct (findb evictable m) as [[k' e']|] eqn:Hf.
  2:{ exfalso. unfold active_count in Ha. rewrite filterb_all in Ha; [lia|].
      intros x Hx. apply negb_true_iff. by eapply findb_none in Hf. }
  assert (findb evictable (m ++ [(k, e)]) = Some (k', e')) as ->.
  { unfold findb in *. clear -Hf. induction m as [|x m IH]; [done|]. cbn in *. destruct (evictable x); auto. }
  cbn [fst]. apply findb_some in Hf as [_ Hin].
  assert (k' <> k) as Hk.
  { intros ->. unfold mkeys in Hd. rewrite map_app in Hd. apply NoDup_app in Hd as (_ & H & _).
    apply (H k); [|by left]. apply list_elem_of_fmap. by exists (k, e'). }
  unfold mdel. rewrite filterb_app. unfold filterb at 2. cbn [List.filter fst].
  rewrite bool_decide_eq_false_2 by done. cbn [negb]. apply IH.
  - apply (mdel_NoDup _ k') in Hd. unfold mdel in Hd. rewrite filterb_app in Hd.
    unfold filterb at 2 in Hd. cbn [List.filter fst] in Hd. rewrite bool_decide_eq_false_2 in Hd by done. done.
  - apply elem_mget in Hin; [|unfold mkeys in Hd; rewrite map_app in Hd; apply NoDup_app in Hd as [Hd _]; exact Hd].
    pose proof (active_del m k' e' Hin) as H. unfold mdel in H. lia.
Qed.

Lemma seed_present id fallback m :
  NoDup (mkeys m) -> (active_count m < MAX_RETAINED_DRAFTS)%nat ->
  exists e, mget (seedWorkbenchDraft id fallback m) id = Some e
            /\ (mget m id = Some e \/ e = mkDraft fallback []).
Proof.
  intros Hd Ha. unfold seedWorkbenchDraft. destruct (mget m id) as [e|] eqn:E.
  - destruct (dr_listeners e); [|eauto]. case_bool_decide; [eauto|].
    rewrite mget_touch, decide_True by done. eauto.
  - apply mget_none in E. eexists. split; [|by right]. unfold trimDrafts. rewrite mset_fresh by done.
    apply trim_loop_newest; [|done]. rewrite <- mset_fresh by done. by apply mset_NoDup.
Qed.

(** The editor is subscribed and the store has what the buffer published last. *)
Definition buffer_ok (id : jsstr) (l : nat) (s : editor_buffer * drafts) : Prop :=
  NoDup (mkeys s.2) /\ exists e, mget s.2 id = Some e /\ l ∈ dr_listeners e /\ dr_value e = bf_lastPublished s.1.

Lemma publish_ok id l v m e :
  NoDup (mkeys m) -> mget m id = Some e -> l ∈ dr_listeners e ->
  NoDup (mkeys (publishWorkbenchDraft id v m).1) /\
  mget (publishWorkbenchDraft id v m).1 id = Some (mkDraft v (dr_listeners e)).
Proof.
  intros Hd Hm Hl. split; [by apply (draft_step_NoDup m (DPublish id v))|].
  unfold publishWorkbenchDraft. rewrite Hm. case_bool_decide as Hv; cbn [fst].
  { rewrite Hm. by destruct e; cbn in *; subst. }
  unfold trimDrafts. apply trim_loop_active.
  - by apply mtouch_NoDup.
  - by rewrite mget_touch, decide_True.
  - unfold evictable. cbn. destruct (dr_listeners e); [by apply elem_of_nil in Hl|done].
Qed.

Lemma buffer_flush_ok id l s :
  buffer_ok id l s -> buffer_ok id l (buffer_flush id s) /\ bf_text (buffer_flush id s).1 = bf_text s.1
    /\ bf_lastPublished (buffer_flush id s).1 = bf_text s.1.
Proof.
  intros (Hd & e & Hm & Hl & Hv). unfold buffer_flush, flushSnapshot.
  case_bool_decide as Ht; cbn; (split; [|auto]).
  - split; [done|]. exists e. cbn. auto.
  - destruct (publish_ok id l (bf_text s.1) s.2 e Hd Hm Hl). split; [done|]. eexists. cbn. eauto.
Qed.

Lemma arm_publish_keeps b : bf_text (arm_publish b) = bf_text b /\ bf_lastPublished (arm_publish b) = bf_lastPublished b.
Proof. unfold arm_publish. by destruct (_ || _). Qed.

(** The text after an input. *)
Definition typed (text : jsstr) (i : buffer_input) : jsstr := match i with BType t => t | _ => text end.

Lemma buffer_step_ok id fallback l s i :
  buffer_ok id l s ->
  buffer_ok id l (buffer_step id fallback s i) /\ bf_text (buffer_step id fallback s i).1 = typed (bf_text s.1) i.
Proof.
  intros Hok. pose proof (buffer_flush_ok id l s Hok) as (Hf & Ht & _).
  destruct i as [text| | |]; cbn [buffer_step typed].
  - unfold setText. case_bool_decide; cbn [fst]; [by subst|].
    set (b := mkBuffer _ _ _ _ _). pose proof (arm_publish_keeps b) as [E1 E2]. split; [|done].
    destruct Hok as (Hd & e & Hm & Hl & Hv). split; [done|]. exists e. split_and!; [done..|].
    cbn [fst]. rewrite E2. exact Hv.
  - by destruct (bf_timer s.1).
  - done.
  - destruct Hok as (Hd & e & Hm & Hl & Hv). unfold receive_snapshot, readWorkbenchDraft. rewrite Hm, Hv.
    case_bool_decide; cbn [fst]; [|rewrite bool_decide_eq_true_2 by done; cbn [orb fst]];
      (split; [|done]); (split; [done|]); exists e; auto.
Qed.

(** Whatever the timers and renders in between, what was typed last is what the store has
    after the editor is gone. *)
Theorem typed_text_survives_unmount id fallback l m inputs :
  NoDup (mkeys m) -> (active_count m < MAX_RETAINED_DRAFTS)%nat ->
  let s0 := mount_buffer id fallback l m in
  let s := foldl (buffer_step id fallback) s0 inputs in
  bf_text s.1 = foldl typed (bf_text s0.1) inputs
  /\ readWorkbenchDraft id fallback (unmount_buffer id l s) = foldl typed (bf_text s0.1) inputs.
Proof.
  intros Hd Ha s0 s.
  assert (buffer_ok id l s0) as H0.
  { unfold s0, mount_buffer. destruct (seed_present id fallback m Hd Ha) as (e & He & _).
    pose proof (draft_step_NoDup _ (DSeed id fallback) Hd) as Hd1. cbn [draft_step] in Hd1.
    split; [by apply (draft_step_NoDup _ (DSubscribe id l))|].
    unfold subscribeWorkbenchDraft, readWorkbenchDraft. cbn [snd fst]. rewrite He. cbn [snd].
    eexists. rewrite mget_set_eq. split; [done|]. cbn. split; [|done].
    case_bool_decide; [done|]. apply elem_of_app. right. by left. }
  assert (buffer_ok id l s /\ bf_text s.1 = foldl typed (bf_text s0.1) inputs) as [Hs Ht].
  { unfold s. clear s. induction inputs as [|i inputs [IHs IHt]] using rev_ind; [done|].
    rewrite !foldl_snoc. pose proof (buffer_step_ok id fallback l _ i IHs) as [? ->]. by rewrite IHt. }
  split; [done|]. destruct (buffer_flush_ok id l s Hs) as ((_ & e & He & Hl & Hv) & _ & Hp).
  unfold unmount_buffer, unsubscribeWorkbenchDraft, readWorkbenchDraft. rewrite He, mget_set_eq. cbn.
  by rewrite Hv, Hp.
Qed.

Lemma typed_text_survives_unmount_witness :
  exists m id, let s := foldl (buffer_step id (js "SELECT 1;")) (mount_buffer id (js "SELECT 1;") 7 m)
                          [BType (js "SELECT 2;"); BTimer; BType (js "SELECT 3;"); BRender] in
    readWorkbenchDraft id (js "SELECT 1;") (unmount_buffer id 7 s) = js "SELECT 3;".
Proof.
  exists [], (js "doc"). cbv zeta.
  refine (eq_trans (proj2 (typed_text_survives_unmount _ _ _ _ _ _ _)) _).
  - constructor.
  - vm_compute. lia.
  - reflexivity.
Defined.

(** But an editor that mounts over an entry without listeners takes the tab's text. *)
Lemma mount_takes_fallback id fallback l m e :
  mget m id = Some e -> dr_listeners e = [] -> bf_text (mount_buffer id fallback l m).1 = fallback.
Proof.
  intros He Hl. unfold mount_buffer, seedWorkbenchDraft, readWorkbenchDraft. rewrite He, Hl. cbn [fst bf_text new_buffer].
  case_bool_decide as Hv; [by rewrite He|]. by rewrite mget_touch, decide_True.
Qed.
