(* ===== verification/Autosave.v ===== *)
(** * Autosave of an open SQL document

    Models [src/features/sqlDocuments/useSqlDocumentAutosave.ts]: the hook that saves an
    open document after a pause, keeps a recovery copy of what is not saved, ignores the
    answers of saves that a newer one replaced, holds a revision conflict for the member to
    settle, and finishes what it owes when the tab closes. Its props come from the tab of
    [Workbench] and the editor's text, and its callbacks change them. Timers, answers,
    renders, commands and the resumption after each [await] are the inputs of a step
    function, so any order of them is a sequence of inputs. *)

From S2P Require Import Prelude JsString JsMap JsonText JsValue SqlIdent Workbench.
From Stdlib Require String.
Import Stdlib.Strings.String.StringSyntax.

(** ** Data *)

Inductive DocumentSaveState := ds_saved | ds_dirty | ds_saving | ds_error | ds_conflict.

(** What a save sends besides the identifiers and the revision. *)
Record doc_fields := mkFields {
  df_title : jsstr; df_selectedDatabase : jsstr; df_selectedSchema : option jsstr;
  df_resolveMode : SqlResolveMode; df_content : jsstr }.
#[export] Instance doc_fields_eq_dec : EqDecision doc_fields.
Proof. solve_decision. Defined.

Definition fields_of (d : SqlDocument) : doc_fields :=
  mkFields (sd_title d) (sd_selectedDatabase d) (sd_selectedSchema d) (sd_resolveMode d) (sd_content d).

Record SqlDocumentConflict := mkConflict { cf_current : SqlDocument; cf_local : doc_fields }.
#[export] Instance SqlDocumentConflict_eq_dec : EqDecision SqlDocumentConflict.
Proof. solve_decision. Defined.
(** The expected revision and the fields of the retry. *)
Definition retrySqlDocumentConflict (c : SqlDocumentConflict) : Z * doc_fields :=
  (sd_localRevision (cf_current c), cf_local c).

(** [SqlRecoveryPayload] has the fields of the snapshot that [readRecovery] reads. *)
Definition recovery_payload (revision : Z) (f : doc_fields) : SqlRecoverySnapshot :=
  mkRecovery revision (df_title f) (df_content f) (df_selectedDatabase f) (df_selectedSchema f) (df_resolveMode f).
Definition mode_text (m : SqlResolveMode) : jsstr :=
  match m with playground => js "playground" | script => js "script" end.
Definition payload_value (p : SqlRecoverySnapshot) : value :=
  VObj [(js "revision", num_value (rc_revision p)); (js "title", VStr (rc_title p));
        (js "selectedDatabase", VStr (rc_selectedDatabase p)); (js "selectedSchema", opt_value (rc_selectedSchema p));
        (js "resolveMode", VStr (mode_text (rc_resolveMode p))); (js "draft", VStr (rc_draft p))].
(** [JSON.stringify(payload)]: the payload has no BigInt and is not [undefined]. *)
Definition payload_text (p : SqlRecoverySnapshot) : jsstr :=
  match stringify (payload_value p) with Ok (Some t) => t | _ => [] end.

Record PendingRecoveryWrite := mkWrite { rw_key : jsstr; rw_payload : SqlRecoverySnapshot }.

(** What the last render used: the props, and the conflict that its closures see. *)
Record rendering := mkRendering {
  rn_revision : Z; rn_fields : doc_fields; rn_recovered : bool; rn_conflict : option SqlDocumentConflict }.
#[export] Instance rendering_eq_dec : EqDecision rendering.
Proof. solve_decision. Defined.

(** A call of [performSave] that has not come back, by its sequence number. *)
Record save_call := mkSave { sv_sequence : nat; sv_expected : Z; sv_fields : doc_fields }.

(** [tab] and [draft] belong to the parent. [refusal] is what [localStorage.setItem] would
    throw now. A flush waits for the saves it found in flight, then for its own. *)
Record editor := mkEditor {
  ed_tab : SqlTab; ed_draft : jsstr;
  conflict : option SqlDocumentConflict; saveState : DocumentSaveState; saveError : option jsstr;
  latest : rendering; latestConflict : option SqlDocumentConflict;
  saveSequence : nat; mounted : bool;
  baseline_revision : Z; baseline_fields : option doc_fields;
  saveTimer : option (Z * doc_fields);
  recoveryTimer : bool; pendingRecovery : option PendingRecoveryWrite;
  local : local_storage; refusal : option jsstr;
  inFlight : list save_call; waiting : list (nat * list nat); finishing : list (nat * nat) }.

(** How [gateway.save] settles. *)
Inductive save_reply := RSaved (document : SqlDocument) | RConflict (document : SqlDocument) | RFailed (message : jsstr).

(** The tab edits that the editor's controls make. *)
Inductive tab_edit :=
| TTitle (title : jsstr) | TDatabase (database : jsstr) | TSchema (schema : option jsstr) | TMode (mode : SqlResolveMode).
Definition edit_tab (x : tab_edit) : SqlTab -> SqlTab :=
  match x with
  | TTitle t => with_title t | TDatabase d => with_database d
  | TSchema s => with_schema s | TMode m => with_mode m
  end.

Inductive editor_input :=
| EEdit (edit : tab_edit)
| EType (content : jsstr)
| ERender (effectiveDatabase : jsstr)
| ESaveTimer
| ERecoveryTimer
| EHidden
| EReply (sequence : nat) (reply : save_reply)
| EFlush (id : nat)
| EResume (id : nat)
| EUseSaved
| EKeepLocal
| EStorage (refusal : option jsstr)
| EUnmount.

Inductive editor_output :=
| OSave (sequence : nat) (expectedRevision : Z) (f : doc_fields)
| OFlushed (id : nat) (outcome : SqlDocumentFlushOutcome).

(** Assignments. *)
Definition set_parent (t : SqlTab) (d : jsstr) (e : editor) : editor :=
  mkEditor t d (conflict e) (saveState e) (saveError e) (latest e) (latestConflict e) (saveSequence
    e) (mounted e) (baseline_revision e) (baseline_fields e) (saveTimer e) (recoveryTimer e)
    (pendingRecovery e) (local e) (refusal e) (inFlight e) (waiting e) (finishing e).
Definition set_ui (s : DocumentSaveState) (m : option jsstr) (e : editor) : editor :=
  mkEditor (ed_tab e) (ed_draft e) (conflict e) s m (latest e) (latestConflict e) (saveSequence e)
    (mounted e) (baseline_revision e) (baseline_fields e) (saveTimer e) (recoveryTimer e)
    (pendingRecovery e) (local e) (refusal e) (inFlight e) (waiting e) (finishing e).
Definition set_conflict (c : option SqlDocumentConflict) (e : editor) : editor :=
  mkEditor (ed_tab e) (ed_draft e) c (saveState e) (saveError e) (latest e) (latestConflict e)
    (saveSequence e) (mounted e) (baseline_revision e) (baseline_fields e) (saveTimer e)
    (recoveryTimer e) (pendingRecovery e) (local e) (refusal e) (inFlight e) (waiting e) (finishing
    e).
Definition set_rendered (r : rendering) (e : editor) : editor :=
  mkEditor (ed_tab e) (ed_draft e) (conflict e) (saveState e) (saveError e) r (latestConflict e)
    (saveSequence e) (mounted e) (baseline_revision e) (baseline_fields e) (saveTimer e)
    (recoveryTimer e) (pendingRecovery e) (local e) (refusal e) (inFlight e) (waiting e) (finishing
    e).
Definition set_latest_conflict (c : option SqlDocumentConflict) (e : editor) : editor :=
  mkEditor (ed_tab e) (ed_draft e) (conflict e) (saveState e) (saveError e) (latest e) c
    (saveSequence e) (mounted e) (baseline_revision e) (baseline_fields e) (saveTimer e)
    (recoveryTimer e) (pendingRecovery e) (local e) (refusal e) (inFlight e) (waiting e) (finishing
    e).
Definition set_sequence (n : nat) (e : editor) : editor :=
  mkEditor (ed_tab e) (ed_draft e) (conflict e) (saveState e) (saveError e) (latest e)
    (latestConflict e) n (mounted e) (baseline_revision e) (baseline_fields e) (saveTimer e)
    (recoveryTimer e) (pendingRecovery e) (local e) (refusal e) (inFlight e) (waiting e) (finishing
    e).
Definition set_mounted (b : bool) (e : editor) : editor :=
  mkEditor (ed_tab e) (ed_draft e) (conflict e) (saveState e) (saveError e) (latest e)
    (latestConflict e) (saveSequence e) b (baseline_revision e) (baseline_fields e) (saveTimer e)
    (recoveryTimer e) (pendingRecovery e) (local e) (refusal e) (inFlight e) (waiting e) (finishing
    e).
Definition set_baseline (n : Z) (f : option doc_fields) (e : editor) : editor :=
  mkEditor (ed_tab e) (ed_draft e) (conflict e) (saveState e) (saveError e) (latest e)
    (latestConflict e) (saveSequence e) (mounted e) n f (saveTimer e) (recoveryTimer e)
    (pendingRecovery e) (local e) (refusal e) (inFlight e) (waiting e) (finishing e).
Definition set_save_timer (t : option (Z * doc_fields)) (e : editor) : editor :=
  mkEditor (ed_tab e) (ed_draft e) (conflict e) (saveState e) (saveError e) (latest e)
    (latestConflict e) (saveSequence e) (mounted e) (baseline_revision e) (baseline_fields e) t
    (recoveryTimer e) (pendingRecovery e) (local e) (refusal e) (inFlight e) (waiting e) (finishing
    e).
Definition set_recovery (b : bool) (p : option PendingRecoveryWrite) (e : editor) : editor :=
  mkEditor (ed_tab e) (ed_draft e) (conflict e) (saveState e) (saveError e) (latest e)
    (latestConflict e) (saveSequence e) (mounted e) (baseline_revision e) (baseline_fields e)
    (saveTimer e) b p (local e) (refusal e) (inFlight e) (waiting e) (finishing e).
Definition set_local (ls : local_storage) (e : editor) : editor :=
  mkEditor (ed_tab e) (ed_draft e) (conflict e) (saveState e) (saveError e) (latest e)
    (latestConflict e) (saveSequence e) (mounted e) (baseline_revision e) (baseline_fields e)
    (saveTimer e) (recoveryTimer e) (pendingRecovery e) ls (refusal e) (inFlight e) (waiting e)
    (finishing e).
Definition set_refusal (m : option jsstr) (e : editor) : editor :=
  mkEditor (ed_tab e) (ed_draft e) (conflict e) (saveState e) (saveError e) (latest e)
    (latestConflict e) (saveSequence e) (mounted e) (baseline_revision e) (baseline_fields e)
    (saveTimer e) (recoveryTimer e) (pendingRecovery e) (local e) m (inFlight e) (waiting e)
    (finishing e).
Definition set_in_flight (l : list save_call) (e : editor) : editor :=
  mkEditor (ed_tab e) (ed_draft e) (conflict e) (saveState e) (saveError e) (latest e)
    (latestConflict e) (saveSequence e) (mounted e) (baseline_revision e) (baseline_fields e)
    (saveTimer e) (recoveryTimer e) (pendingRecovery e) (local e) (refusal e) l (waiting e)
    (finishing e).
Definition set_flushes (w : list (nat * list nat)) (l : list (nat * nat)) (e : editor) : editor :=
  mkEditor (ed_tab e) (ed_draft e) (conflict e) (saveState e) (saveError e) (latest e)
    (latestConflict e) (saveSequence e) (mounted e) (baseline_revision e) (baseline_fields e)
    (saveTimer e) (recoveryTimer e) (pendingRecovery e) (local e) (refusal e) (inFlight e) w l.

(** ** The hook *)

Section hook.
Context (documentId : option jsstr).

(** [flushRecovery]; the error of a refused write is also its result. *)
Definition flushRecovery (e : editor) : editor * option jsstr :=
  let e := set_recovery false (pendingRecovery e) e in
  match pendingRecovery e with
  | None => (e, None)
  | Some w =>
    match refusal e with
    | None => (set_recovery false None (set_local (mset (local e) (rw_key w) (payload_text (rw_payload w))) e), None)
    | Some m => (if mounted e then set_ui ds_error (Some m) e else e, Some m)
    end
  end.

(** The timer is not restarted when it is armed. *)
Definition scheduleRecovery (w : PendingRecoveryWrite) (e : editor) : editor := set_recovery true (Some w) e.

Definition clearRecovery (id : jsstr) (e : editor) : editor :=
  let key := sqlRecoveryKey id in
  let e := match pendingRecovery e with
    | Some w => if bool_decide (rw_key w = key) then set_recovery false None e else e
    | None => e
    end in
  set_local (mdel (local e) key) e.

(** [persist]: [performSave] up to its [await], and the promise noted as in flight. *)
Definition persist (expected : Z) (f : doc_fields) (e : editor) : editor * list editor_output :=
  match documentId with
  | None => (e, [])
  | Some _ =>
    let sequence := S (saveSequence e) in
    let e := set_ui ds_saving None (set_sequence sequence e) in
    (set_in_flight (inFlight e ++ [mkSave sequence expected f]) e, [OSave sequence expected f])
  end.

(** [callbacks.current.onPersisted] *)
Definition onPersisted (d : SqlDocument) (e : editor) : editor := set_parent (with_persisted d (ed_tab e)) (ed_draft e) e.

(** [performSave] after its [await], with its outcome. *)
Definition settled (c : save_call) (reply : save_reply) (e : editor) : editor * SqlDocumentFlushOutcome :=
  if negb (mounted e) || negb (sv_sequence c =? saveSequence e)%nat then (e, fl_pending)
  else match reply with
  | RFailed m => (set_ui ds_error (Some m) e, fl_error m)
  | RConflict d =>
    let next := Some (mkConflict d (sv_fields c)) in
    (set_ui ds_conflict (saveError e) (set_conflict next (set_latest_conflict next e)), fl_conflict)
  | RSaved d =>
    let e := set_baseline (sd_localRevision d) (Some (fields_of d)) e in
    let savedLatestSnapshot :=
      (rn_revision (latest e) =? sv_expected c)%Z && bool_decide (rn_fields (latest e) = sv_fields c) in
    let e := match documentId with
      | Some id => if savedLatestSnapshot then clearRecovery id e else e
      | None => e
      end in
    let e := set_conflict None (set_latest_conflict None e) in
    let e := set_ui (if savedLatestSnapshot then ds_saved else ds_dirty) (saveError e) e in
    (onPersisted d e, if savedLatestSnapshot then fl_saved else fl_pending)
  end.

(** The save comes back: it is no longer in flight, and the flush that waits for it ends. *)
Definition reply_to (sequence : nat) (reply : save_reply) (e : editor) : editor * list editor_output :=
  match findb (fun c => sv_sequence c =? sequence)%nat (inFlight e) with
  | None => (e, [])
  | Some c =>
    let e := set_in_flight (filterb (fun c => negb (sv_sequence c =? sequence)%nat) (inFlight e)) e in
    let (e, outcome) := settled c reply e in
    (set_flushes (waiting e) (filterb (fun p => negb (p.2 =? sequence)%nat) (finishing e)) e,
     map (fun p => OFlushed p.1 outcome) (filterb (fun p => p.2 =? sequence)%nat (finishing e)))
  end.

(** [title.trim()] is not empty. *)
Definition titled (f : doc_fields) : bool := non_empty (trim (df_title f)).

(** The autosave effect. *)
Definition autosave_effect (e : editor) : editor :=
  match documentId, rn_conflict (latest e) with
  | Some id, None =>
    let r := latest e in
    let dirty := rn_recovered r || negb (baseline_revision e =? rn_revision r)%Z
                 || negb (bool_decide (baseline_fields e = Some (rn_fields r))) in
    if negb dirty then clearRecovery id (set_ui ds_saved (saveError e) e)
    else
      let e := set_ui ds_dirty (saveError e) e in
      let e := scheduleRecovery (mkWrite (sqlRecoveryKey id) (recovery_payload (rn_revision r) (rn_fields r))) e in
      if titled (rn_fields r) then set_save_timer (Some (rn_revision r, rn_fields r)) e else e
  | _, _ => e
  end.

(** The props and state that the next render uses. *)
Definition next_rendering (effectiveDatabase : jsstr) (e : editor) : rendering :=
  mkRendering (st_revision (ed_tab e))
    (mkFields (st_title (ed_tab e)) effectiveDatabase (st_selectedSchema (ed_tab e)) (st_resolveMode (ed_tab e)) (ed_draft e))
    (st_recovered (ed_tab e)) (conflict e).

(** A render and its commit: the effect runs again, after its cleanup, when one of its
    dependencies changed. *)
Definition render (effectiveDatabase : jsstr) (e : editor) : editor :=
  let r := next_rendering effectiveDatabase e in
  let changed := negb (bool_decide (r = latest e)) in
  let e := set_latest_conflict (conflict e) (set_rendered r e) in
  if changed then autosave_effect (set_save_timer None e) else e.

Definition mount (tab : SqlTab) (draft effectiveDatabase : jsstr) (ls : local_storage) (refusal : option jsstr) : editor :=
  let f := mkFields (st_title tab) effectiveDatabase (st_selectedSchema tab) (st_resolveMode tab) draft in
  let r := mkRendering (st_revision tab) f (st_recovered tab) None in
  autosave_effect
    (mkEditor tab draft None (if st_recovered tab then ds_dirty else ds_saved) None r None 0 true
       (st_revision tab) (if st_recovered tab then None else Some f) None false None ls refusal [] [] []).

(** [flushPendingSave] up to its first [await]. *)
Definition flush_begin (id : nat) (e : editor) : editor :=
  set_flushes (waiting e ++ [(id, map sv_sequence (inFlight e))]) (finishing e) (set_save_timer None e).

(** The rest of [flushPendingSave]. *)
Definition flush_rest (id : nat) (e : editor) : editor * list editor_output :=
  if negb (mounted e) then (e, [OFlushed id fl_pending])
  else match flushRecovery e with
  | (e, Some m) => (e, [OFlushed id (fl_error m)])
  | (e, None) =>
    match latestConflict e, documentId with
    | Some _, _ => (e, [OFlushed id fl_conflict])
    | None, None => (e, [OFlushed id fl_saved])
    | None, Some _ =>
      let current := rn_fields (latest e) in
      if bool_decide (baseline_fields e = Some current) then (e, [OFlushed id fl_saved])
      else if negb (titled current) then (e, [OFlushed id fl_pending])
      else
        let (e, out) := persist (baseline_revision e) current e in
        (set_flushes (waiting e) (finishing e ++ [(id, saveSequence e)]) e, out)
    end
  end.

(** The first [await] ends when every save it waits for has come back. *)
Definition flush_resume (id : nat) (e : editor) : editor * list editor_output :=
  match findb (fun w => w.1 =? id)%nat (waiting e) with
  | Some w =>
    if existsb (fun n => existsb (fun c => sv_sequence c =? n)%nat (inFlight e)) w.2 then (e, [])
    else flush_rest id (set_flushes (filterb (fun w => negb (w.1 =? id)%nat) (waiting e)) (finishing e) e)
  | None => (e, [])
  end.

Definition useSavedVersion (e : editor) : editor :=
  match documentId, rn_conflict (latest e) with
  | Some id, Some c =>
    let current := cf_current c in
    let e := set_sequence (S (saveSequence e)) e in
    let e := set_baseline (sd_localRevision current) (Some (fields_of current)) e in
    let e := clearRecovery id e in
    let tab := with_mode (sd_resolveMode current) (with_schema (sd_selectedSchema current)
                 (with_database (sd_selectedDatabase current) (with_title (sd_title current) (ed_tab e)))) in
    let e := onPersisted current (set_parent tab (sd_content current) e) in
    set_ui ds_saved (saveError e) (set_conflict None e)
  | _, _ => e
  end.

Definition keepLocalVersion (e : editor) : editor * list editor_output :=
  match rn_conflict (latest e) with
  | Some c => let (expected, f) := retrySqlDocumentConflict c in persist expected f e
  | None => (e, [])
  end.

(** The cleanups of the effects. *)
Definition unmount (e : editor) : editor :=
  let e := set_save_timer None e in
  let e := set_sequence (S (saveSequence e)) (set_mounted false e) in
  fst (flushRecovery e).

(** ** Steps *)

(** What needs the mounted editor happens only while it is mounted. *)
Definition editor_step (i : editor_input) (e : editor) : editor * list editor_output :=
  match i with
  | EReply sequence reply => reply_to sequence reply e
  | EResume id => flush_resume id e
  | EStorage m => (set_refusal m e, [])
  | EEdit x => (set_parent (edit_tab x (ed_tab e)) (ed_draft e) e, [])
  | _ =>
    if negb (mounted e) then (e, [])
    else match i with
    | EType content => (set_parent (ed_tab e) content e, [])
    | ERender db => (render db e, [])
    | ESaveTimer =>
      match saveTimer e with
      | Some (revision, f) => persist revision f (set_save_timer None e)
      | None => (e, [])
      end
    | ERecoveryTimer => (if recoveryTimer e then fst (flushRecovery e) else e, [])
    | EHidden => (fst (flushRecovery e), [])
    | EFlush id => (flush_begin id e, [])
    | EUseSaved => (useSavedVersion e, [])
    | EKeepLocal => keepLocalVersion e
    | EUnmount => (unmount e, [])
    | _ => (e, [])
    end
  end.

Fixpoint editor_run (inputs : list editor_input) (e : editor) : editor * list editor_output :=
  match inputs with
  | [] => (e, [])
  | i :: inputs =>
    let (e, out) := editor_step i e in
    let (e, outs) := editor_run inputs e in
    (e, out ++ outs)
  end.

End hook.
