(* ===== verification/AutosaveInv.v ===== *)
(** * What autosave promises

    Theorems about [Autosave]: an edit that the backend has not confirmed has a recovery
    copy that reopening reads back, a finished flush means that the backend reported what
    the editor shows, an unsaved edit always has something that will save it, and an
    accepted save settles the document. *)

From S2P Require Import Prelude JsString JsMap JsonText JsValue SqlIdent Workbench DraftStore Autosave.
From Stdlib Require String.
Import Stdlib.Strings.String.StringSyntax.

(** ** Runs *)

(** The versions of the document that a reply reports: the one that went through and the
    one the backend holds. *)
Definition reported (i : editor_input) (e : editor) : list doc_fields :=
  match i with
  | EReply sequence (RSaved d) =>
    match findb (fun c => sv_sequence c =? sequence)%nat (inFlight e) with
    | Some c => [sv_fields c; fields_of d]
    | None => []
    end
  | EReply sequence (RConflict d) =>
    if existsb (fun c => sv_sequence c =? sequence)%nat (inFlight e) then [fields_of d] else []
  | _ => []
  end.

#[local] Arguments sqlRecoveryKey : simpl never.

Section autosave.
Context (id : jsstr).
Notation estep := (editor_step (Some id)).

(** What [mount] knows to be saved: the props, unless they hold a recovered draft. *)
Definition opened (tab : SqlTab) (draft db : jsstr) : list doc_fields :=
  if st_recovered tab then []
  else [mkFields (st_title tab) db (st_selectedSchema tab) (st_resolveMode tab) draft].

(** Runs from a mount whose inputs satisfy [P], with the versions known to be saved. *)
Inductive reached (P : editor -> editor_input -> Prop) : list doc_fields -> editor -> Prop :=
| reached_mount tab draft db ls q :
    reached P (opened tab draft db) (mount (Some id) tab draft db ls q)
| reached_step known e i :
    reached P known e -> P e i -> reached P (known ++ reported i e) (estep i e).1.

Notation key := (sqlRecoveryKey id).
Notation shown e := (rn_fields (latest e)).
Notation shown_payload e := (recovery_payload (rn_revision (latest e)) (rn_fields (latest e))).

(** The recovery copy, written or about to be written. *)
Definition copied (e : editor) : Prop :=
  match pendingRecovery e with
  | Some w => rw_payload w = shown_payload e
  | None => mget (local e) key = Some (payload_text (shown_payload e))
  end.

Record autosave_inv (known : list doc_fields) (e : editor) : Prop := mkAutosaveInv {
  inv_key : forall w, pendingRecovery e = Some w -> rw_key w = key;
  inv_baseline : forall f, baseline_fields e = Some f -> f ∈ known;
  inv_copy : mounted e = true -> rn_conflict (latest e) = None -> shown e ∈ known \/ copied e;
  inv_conflict : rn_conflict (latest e) = None -> latestConflict e = conflict e;
  inv_reported : forall c, conflict e = Some c \/ rn_conflict (latest e) = Some c -> fields_of (cf_current c) ∈ known;
  inv_timer : forall a, saveTimer e = Some a -> a = (rn_revision (latest e), shown e) }.

(** ** The operations keep it *)

(** A mounted editor's recovery write fails with an error on display, or touches nothing but
    the copy. *)
Lemma flushRecovery_frame e :
  mounted e = true ->
  match flushRecovery e with
  | (e', Some _) => saveState e' = ds_error
  | (e', None) => latest e' = latest e /\ latestConflict e' = latestConflict e /\ conflict e' = conflict e
                  /\ baseline_fields e' = baseline_fields e
  end.
Proof.
  intros Hm. unfold flushRecovery. cbn.
  destruct (pendingRecovery e); [destruct (refusal e)|]; cbn; rewrite ?Hm; done.
Qed.

Lemma inv_known known known' e : known ⊆ known' -> autosave_inv known e -> autosave_inv known' e.
Proof. intros Hs []. constructor; auto. intros Hm Hc. destruct (inv_copy0 Hm Hc); auto. Qed.

Lemma flushRecovery_inv known e : autosave_inv known e -> autosave_inv known (flushRecovery e).1.
Proof.
  intros [Hk Hb Hc Hl Hr Ht]. unfold flushRecovery. destruct e as [? ? ? ? ? ? ? ? m ? ? ? ? p ? q ? ? ?]; cbn in *.
  destruct p as [w|]; [|by constructor]. destruct q as [r|]; [destruct m; by constructor|].
  constructor; cbn; try done. intros Hm Hn. destruct (Hc Hm Hn) as [|Hw]; [by left|right].
  unfold copied in *; cbn in *. by rewrite (Hk w eq_refl), mget_set_eq, Hw.
Qed.

(** Every recovery write of this editor goes to this document's key. *)
Lemma clear_spec e :
  (forall w, pendingRecovery e = Some w -> rw_key w = key) ->
  exists b, clearRecovery id e = set_local (mdel (local e) key) (set_recovery b None e).
Proof.
  intros Hk. unfold clearRecovery. destruct (pendingRecovery e) as [w|] eqn:E.
  - rewrite bool_decide_eq_true_2 by auto. by exists false.
  - exists (recoveryTimer e). destruct e; cbn in *. by subst.
Qed.

Lemma persist_inv known r f e : autosave_inv known e -> autosave_inv known (persist (Some id) r f e).1.
Proof. intros []; by constructor. Qed.

Lemma effect_inv known e :
  (forall w, pendingRecovery e = Some w -> rw_key w = key) ->
  (forall f, baseline_fields e = Some f -> f ∈ known) ->
  (rn_conflict (latest e) = None -> latestConflict e = conflict e) ->
  (forall c, conflict e = Some c \/ rn_conflict (latest e) = Some c -> fields_of (cf_current c) ∈ known) ->
  saveTimer e = None ->
  autosave_inv known (autosave_effect (Some id) e).
Proof.
  intros Hk Hb Hl Hr Ht. unfold autosave_effect. destruct (rn_conflict (latest e)) as [c|] eqn:Ec.
  - constructor; rewrite ?Ec, ?Ht; done.
  - destruct (rn_recovered _ || _ || _) eqn:Ed; cbn [negb].
    + destruct (titled _); constructor; cbn; rewrite ?Ec; auto; try congruence;
        intros; try (by simplify_eq); by right.
    + apply orb_false_iff in Ed as [_ Ed]. bools.
      assert (shown e ∈ known) by auto.
      destruct (clear_spec (set_ui ds_saved (saveError e) e)) as [b ->]; [done|].
      constructor; cbn; rewrite ?Ec, ?Ht; auto; done.
Qed.

Lemma render_inv known db e : autosave_inv known e -> autosave_inv known (render (Some id) db e).
Proof.
  intros [Hk Hb Hc Hl Hr Ht]. unfold render. case_bool_decide as Hn; cbn [negb].
  - rewrite Hn. constructor; cbn; auto.
  - apply effect_inv; cbn; auto. intros c [H|H]; auto.
Qed.

Lemma settled_inv known c reply e :
  autosave_inv known e ->
  autosave_inv (known ++ match reply with
                         | RSaved d => [sv_fields c; fields_of d] | RConflict d => [fields_of d] | _ => [] end)
    (settled (Some id) c reply e).1.
Proof.
  intros Hinv. unfold settled. assert (forall l, autosave_inv (known ++ l) e) as Hmore.
  { intros l. apply (inv_known known); [set_solver|done]. }
  destruct (negb (mounted e) || _); [done|]. destruct reply as [d|d|m]; cbn.
  - destruct Hinv as [Hk Hb Hc Hl Hr Ht]. destruct (_ && _) eqn:E.
    + apply andb_true_iff in E as [_ E]. bools.
      assert (shown e ∈ known ++ [sv_fields c; fields_of d]) by (rewrite E; set_solver).
      destruct (clear_spec (set_baseline (sd_localRevision d) (Some (fields_of d)) e)) as [b ->]; [done|].
      constructor; cbn; auto; [done|intros; simplify_eq; set_solver|]. intros c' [|]; [done|]. set_solver.
    + constructor; cbn; auto; [intros; simplify_eq; set_solver| |].
      * intros. destruct Hc as [?|?]; [done|done|left; set_solver|by right].
      * intros c' [|]; [done|]. set_solver.
  - destruct Hinv as [Hk Hb Hc Hl Hr Ht]. constructor; cbn; auto; [set_solver| |].
    + intros. destruct Hc as [?|?]; [done|done|left; set_solver|by right].
    + intros c' [?|?]; simplify_eq; set_solver.
  - specialize (Hmore []). destruct Hmore. by constructor.
Qed.

Lemma flush_rest_inv known n e : autosave_inv known e -> autosave_inv known (flush_rest (Some id) n e).1.
Proof.
  intros Hinv. unfold flush_rest. destruct (negb _); [done|].
  pose proof (flushRecovery_inv _ _ Hinv) as H'. destruct (flushRecovery e) as [e' [m|]]; cbn in *; [done|].
  destruct (latestConflict e'); [done|]. case_bool_decide; [done|]. destruct (negb _); [done|].
  destruct H'. by constructor.
Qed.

Lemma reply_inv known n reply e :
  autosave_inv known e ->
  autosave_inv (known ++ reported (EReply n reply) e) (reply_to (Some id) n reply e).1.
Proof.
  intros Hinv. unfold reply_to, reported.
  destruct (findb _ (inFlight e)) as [c|] eqn:Ec; [|apply (inv_known known); [set_solver|done]].
  set (e1 := set_in_flight _ e).
  assert (autosave_inv known e1) as H1 by (destruct Hinv; by constructor).
  pose proof (settled_inv known c reply e1 H1) as H2.
  destruct (settled _ c reply e1) as [e2 o]; cbn in *.
  assert (existsb (fun c => sv_sequence c =? n)%nat (inFlight e) = true) as Hx.
  { apply findb_some in Ec as [Hin Hn]. apply existsb_elem. eauto. }
  destruct reply; rewrite ?Hx; destruct H2; by constructor.
Qed.

Lemma useSaved_inv known e : autosave_inv known e -> autosave_inv known (useSavedVersion (Some id) e).
Proof.
  intros Hinv. unfold useSavedVersion. destruct (rn_conflict (latest e)) as [c|] eqn:Ec; [|done].
  destruct Hinv as [Hk Hb Hc Hl Hr Ht].
  assert (fields_of (cf_current c) ∈ known) by auto.
  destruct (clear_spec (set_baseline (sd_localRevision (cf_current c)) (Some (fields_of (cf_current c)))
    (set_sequence (S (saveSequence e)) e))) as [b ->]; [done|].
  constructor; cbn; rewrite ?Ec; auto; try done; [intros; by simplify_eq|].
  intros c' [|E]; simplify_eq; auto.
Qed.

Lemma step_inv known e i : autosave_inv known e -> autosave_inv (known ++ reported i e) (estep i e).1.
Proof.
  intros Hinv. assert (autosave_inv (known ++ []) e) as Hn by (by rewrite app_nil_r).
  destruct i; cbn [editor_step]; try (by apply reply_inv);
    cbn [reported]; rewrite app_nil_r in *; try (destruct (negb (mounted e)); [done|]); cbn [fst].
  - destruct Hinv; by constructor.
  - destruct Hinv; by constructor.
  - by apply render_inv.
  - destruct (saveTimer e) as [[r f]|]; [|done]. apply persist_inv. destruct Hinv; by constructor.
  - destruct (recoveryTimer e); [by apply flushRecovery_inv|done].
  - by apply flushRecovery_inv.
  - destruct Hinv; by constructor.
  - unfold flush_resume. destruct (findb _ _) as [w|]; [|done]. destruct (existsb _ _); [done|].
    apply flush_rest_inv. destruct Hinv; by constructor.
  - by apply useSaved_inv.
  - unfold keepLocalVersion. destruct (rn_conflict _) as [c|]; [|done]. by apply persist_inv.
  - destruct Hinv; by constructor.
  - unfold unmount. apply flushRecovery_inv. destruct Hinv; constructor; cbn; auto; done.
Qed.

Lemma reached_inv P known e : reached P known e -> autosave_inv known e.
Proof.
  induction 1; [|by apply step_inv]. unfold mount. apply effect_inv; cbn; try done.
  - unfold opened. intros f. destruct (st_recovered tab); [done|]. intros [= <-]. by left.
  - by intros c [|].
Qed.

(** ** What an unmounted editor leaves behind *)

Lemma unmount_copy e :
  copied e -> refusal e = None -> (forall w, pendingRecovery e = Some w -> rw_key w = key) ->
  mget (local (unmount e)) key = Some (payload_text (shown_payload e)).
Proof.
  intros Hc Hq Hk. unfold unmount, flushRecovery, copied in *. cbn.
  destruct (pendingRecovery e) as [w|]; [|done]. rewrite Hq. cbn. by rewrite (Hk w eq_refl), mget_set_eq, Hc.
Qed.

Lemma payload_text_non_empty p : non_empty (payload_text p) = true.
Proof.
  unfold payload_text, payload_value, opt_value, num_value.
  destruct (rc_selectedSchema p); cbn -[js json_string join show_Z]; done.
Qed.

Lemma mode_text_read m : mode_or_default (VStr (mode_text m)) = Some m.
Proof. by destruct m. Qed.

Lemma schema_read o : schema_or_null (opt_value o) = Some o.
Proof. by destruct o. Qed.

(** The fields of the stored payload, as [readRecovery] reads them. *)
Lemma payload_fields p :
  let r := match payload_value p with VObj r => r | _ => [] end in
  own r (js "revision") = num_value (rc_revision p) /\ own r (js "title") = VStr (rc_title p)
  /\ own r (js "draft") = VStr (rc_draft p) /\ own r (js "selectedDatabase") = VStr (rc_selectedDatabase p)
  /\ own r (js "selectedSchema") = opt_value (rc_selectedSchema p)
  /\ own r (js "resolveMode") = VStr (mode_text (rc_resolveMode p)).
Proof. unfold own, payload_value. cbv zeta iota. by repeat split. Qed.

Lemma read_back (json_parse : jsstr -> option value) getItem (p : SqlRecoverySnapshot) d :
  json_parse (payload_text p) = Some (payload_value p) ->
  getItem (sqlRecoveryKey (sd_id d)) = Some (payload_text p) -> sd_localRevision d = rc_revision p ->
  readRecovery getItem json_parse d = Some p.
Proof.
  intros Hj Hg Hr. unfold readRecovery. rewrite Hg. cbn [mbind option_bind].
  rewrite payload_text_non_empty, Hj. cbn [mbind option_bind].
  pose proof (payload_fields p) as (E1 & E2 & E3 & E4 & E5 & E6). unfold payload_value in *.
  rewrite E1, E2, E3, E4, E5, E6, schema_read, mode_text_read. unfold num_value.
  rewrite Hr, bool_decide_eq_true_2 by done. cbn [text_or mbind option_bind]. by destruct p.
Qed.

(** ** An unsaved edit is owed a save *)

(** A save that goes through gives the document a revision that the editor has not shown. *)
Definition revision_grows (e : editor) (i : editor_input) : Prop :=
  match i with
  | EReply _ (RSaved d) => (rn_revision (latest e) < sd_localRevision d)%Z
  | _ => True
  end.

(** A save is scheduled or current, a closing tab waits to save, a render with a newer
    revision is due, or the member sees an error. *)
Definition owes_save (e : editor) : Prop :=
  saveTimer e <> None \/ Exists (fun c => sv_sequence c = saveSequence e) (inFlight e)
  \/ waiting e <> [] \/ saveState e = ds_error \/ st_revision (ed_tab e) <> rn_revision (latest e).

(** The member's text differs from the saved one and can be saved. *)
Definition unsaved (e : editor) : Prop :=
  mounted e = true /\ rn_conflict (latest e) = None /\ conflict e = None
  /\ baseline_fields e <> Some (shown e) /\ titled (shown e) = true.

Definition owed (e : editor) : Prop := unsaved e -> owes_save e.

Lemma effect_owed e : saveTimer e = None -> owed (autosave_effect (Some id) e).
Proof.
  intros Ht. unfold autosave_effect. destruct (rn_conflict (latest e)) as [c|] eqn:Ec.
  { intros (_ & H & _). congruence. }
  destruct (rn_recovered _ || _ || _) eqn:Ed; cbn [negb].
  - destruct (titled (shown e)) eqn:Et; intros (_ & _ & _ & _ & H); cbn in *; [by left|congruence].
  - apply orb_false_iff in Ed as [_ Ed]. bools. intros (_ & _ & _ & H & _).
    unfold clearRecovery in H. cbn in H. destruct (pendingRecovery e); [case_bool_decide|]; done.
Qed.

Lemma flushRecovery_owed e : owed e -> owed (flushRecovery e).1.
Proof.
  unfold owed, unsaved, owes_save, flushRecovery. intros H. cbn.
  destruct (pendingRecovery e); [destruct (refusal e); [destruct (mounted e) eqn:Em|]|]; cbn; rewrite ?Em; tauto.
Qed.

Lemma persist_owed r f e : owed (persist (Some id) r f e).1.
Proof. intros _. right; left. cbn. apply Exists_app. right. by constructor. Qed.

Lemma flush_rest_owed n e :
  (rn_conflict (latest e) = None -> latestConflict e = conflict e) -> owed (flush_rest (Some id) n e).1.
Proof.
  intros Hl. unfold flush_rest. destruct (mounted e) eqn:Em; [|by intros [? _]; cbn in *; congruence]. cbn [negb].
  pose proof (flushRecovery_frame e Em) as H.
  destruct (flushRecovery e) as [e' [m|]]; cbn in H |- *; [intros _; by do 3 right; left|].
  destruct H as (E1 & E2 & E3 & E4). destruct (latestConflict e') eqn:Ec; cbn.
  { intros (_ & Hn & Hc & _). rewrite E1 in Hn. rewrite E3 in Hc. specialize (Hl Hn). congruence. }
  case_bool_decide as Hb; cbn; [by intros (_ & _ & _ & ? & _)|].
  destruct (titled (shown e')) eqn:Et; cbn; [|intros (_ & _ & _ & _ & ?); congruence].
  intros _. right; left. cbn. apply Exists_app. right. by constructor.
Qed.

Lemma step_owed known e i :
  autosave_inv known e -> revision_grows e i -> owed e -> owed (estep i e).1.
Proof.
  intros Hinv Hg Ho. destruct i; cbn [editor_step];
    try (destruct (mounted e) eqn:Em; cbn [negb]; [|done]); cbn [fst].
  - destruct edit; exact Ho.
  - exact Ho.
  - unfold render. case_bool_decide as Hn; cbn [negb]; [|by apply effect_owed].
    rewrite Hn. exact Ho.
  - destruct (saveTimer e) as [[r f]|]; [apply persist_owed|done].
  - destruct (recoveryTimer e); [by apply flushRecovery_owed|done].
  - by apply flushRecovery_owed.
  - unfold reply_to. destruct (findb _ (inFlight e)) as [c|] eqn:Ec; [|done].
    apply findb_some in Ec as [Hn%Nat.eqb_eq Hin]. unfold settled. cbn [mounted saveSequence set_in_flight].
    destruct (mounted e) eqn:Em; [|by intros [? _]; cbn in *; congruence]. cbn [negb orb].
    destruct (Nat.eqb_spec (sv_sequence c) (saveSequence e)) as [Es|Es]; cbn [negb].
    + destruct reply as [d|d|m]; cbn.
      * intros _. do 4 right. destruct (_ && _); cbn; [|cbn in Hg; lia].
        unfold clearRecovery. cbn. destruct (pendingRecovery e); [case_bool_decide|]; cbn in *; lia.
      * by intros (_ & _ & ? & _).
      * intros _. by do 3 right; left.
    + intros Hu. destruct (Ho Hu) as [?|[H|?]]; [by left| |by do 2 right]. right; left. cbn.
      apply Exists_exists in H as (c' & Hc' & E). apply Exists_exists. exists c'. split; [|done].
      apply filterb_elem. split; [|done]. apply negb_true_iff, Nat.eqb_neq. lia.
  - intros _. right; right; left. cbn. by destruct (waiting e).
  - unfold flush_resume. destruct (findb _ _) as [w|]; [|done]. destruct (existsb _ _); [done|].
    apply flush_rest_owed. apply Hinv.
  - unfold useSavedVersion. destruct (rn_conflict (latest e)) eqn:Ec; [|done].
    intros (_ & H & _). exfalso. revert H. unfold clearRecovery. cbn.
    destruct (pendingRecovery e); [case_bool_decide|]; cbn; congruence.
  - unfold keepLocalVersion. destruct (rn_conflict _) as [c|]; [|done]. apply persist_owed.
  - exact Ho.
  - intros [H _]. exfalso. revert H. unfold unmount, flushRecovery. cbn.
    destruct (pendingRecovery e); [destruct (refusal e)|]; done.
Qed.

(** ** Finished flushes *)

Lemma settled_saved c reply e :
  (settled (Some id) c reply e).2 = fl_saved -> exists d, reply = RSaved d /\ shown e = sv_fields c.
Proof.
  unfold settled. destruct (_ || _); [done|]. destruct reply as [d| |]; [|done..]. cbn.
  destruct (_ && _) eqn:E; [|done]. apply andb_true_iff in E as [_ E]. bools. eauto.
Qed.

Lemma reply_saved known n m reply e :
  OFlushed n fl_saved ∈ (reply_to (Some id) m reply e).2 -> shown e ∈ known ++ reported (EReply m reply) e.
Proof.
  unfold reply_to. destruct (findb _ (inFlight e)) as [c|] eqn:Ec; [|by intros ?%elem_of_nil].
  pose proof (settled_saved c reply (set_in_flight
    (filterb (fun c => negb (sv_sequence c =? m)%nat) (inFlight e)) e)) as Hs.
  destruct (settled _ _ _ _) as [e' o]. cbn. intros (p & [= -> <-] & _)%list_elem_of_fmap.
  destruct (Hs eq_refl) as (d & -> & E). cbn in E |- *. rewrite Ec, E. set_solver.
Qed.

Lemma resume_saved m e n :
  OFlushed n fl_saved ∈ (flush_resume (Some id) m e).2 -> baseline_fields e = Some (shown e).
Proof.
  unfold flush_resume. destruct (findb _ _) as [w|]; [|by intros ?%elem_of_nil].
  destruct (existsb _ _); [by intros ?%elem_of_nil|]. set (e1 := set_flushes _ _ e). unfold flush_rest.
  destruct (mounted e1) eqn:Em; cbn [negb]; [|by intros [=]%list_elem_of_singleton].
  pose proof (flushRecovery_frame e1 Em) as H. destruct (flushRecovery e1) as [e2 [x|]]; cbn;
    [by intros [=]%list_elem_of_singleton|].
  destruct H as (E1 & _ & _ & E2). destruct (latestConflict e2); cbn; [by intros [=]%list_elem_of_singleton|].
  case_bool_decide as Hb; cbn; [intros _; by rewrite E1, E2 in Hb|].
  destruct (titled _); cbn; [intros Ho|]; by apply list_elem_of_singleton in Ho || intros [=]%list_elem_of_singleton.
Qed.

(** ** Theorems *)

(** C39: An edit survives the editor while storage accepts writes: when a mounted editor without
    a conflict is unmounted and [localStorage] accepts the write, the version it shows is one
    the backend reported, or reopening the document at the revision it shows reads exactly
    that version back, [JSON.parse] reading what was stringified. When storage refuses the
    write the version can be lost ([refused_copy_is_lost]). *)
Theorem unsaved_edit_recoverable (json_parse : jsstr -> option value) P known e d :
  json_parse (payload_text (shown_payload e)) = Some (payload_value (shown_payload e)) ->
  reached P known e -> mounted e = true -> rn_conflict (latest e) = None -> refusal e = None ->
  sd_id d = id -> sd_localRevision d = rn_revision (latest e) ->
  shown e ∈ known
  \/ readRecovery (mget (local (estep EUnmount e).1)) json_parse d = Some (shown_payload e).
Proof.
  intros Hj Hr Hm Hc Hq Hid Hd. apply reached_inv in Hr. destruct (inv_copy _ _ Hr Hm Hc) as [?|Hcopy]; [by left|right].
  cbn [editor_step]. rewrite Hm. cbn [negb fst]. apply read_back; [done|rewrite Hid|done].
  apply unmount_copy; [done|done|apply Hr].
Qed.

(** A flush that reports "saved", which lets the tab close, means that the backend has
    reported exactly the version the editor shows. *)
Theorem flush_saved_is_reported P known e i n :
  reached P known e -> OFlushed n fl_saved ∈ (estep i e).2 -> shown e ∈ known ++ reported i e.
Proof.
  intros Hr%reached_inv Ho. destruct i; cbn [editor_step] in Ho;
    try (destruct (negb (mounted e)); [by apply elem_of_nil in Ho|]); try (by apply elem_of_nil in Ho).
  - destruct (saveTimer e) as [[r f]|]; cbn in Ho; [|by apply elem_of_nil in Ho].
    by apply list_elem_of_singleton in Ho.
  - by apply (reply_saved known) in Ho.
  - apply (resume_saved _ _ n) in Ho. apply elem_of_app. left. by apply Hr.
  - unfold keepLocalVersion in Ho. destruct (rn_conflict _); cbn in Ho; [|by apply elem_of_nil in Ho].
    by apply list_elem_of_singleton in Ho.
Qed.

(** No edit waits silently: in a mounted editor without a conflict, an unsaved version with
    a title has a save scheduled or current, a closing tab that waits to save it, a render
    due, or an error on display. *)
Theorem unsaved_edit_is_owed known e : reached revision_grows known e -> unsaved e -> owes_save e.
Proof.
  intros Hr. change (owed e). induction Hr as [tab draft db ls q|known e i Hr IH Hi].
  - by apply effect_owed.
  - eapply step_owed; [by eapply reached_inv|done|done].
Qed.

Lemma settle_snapshot e d c :
  mounted e = true -> sv_sequence c = saveSequence e -> (forall w, pendingRecovery e = Some w -> rw_key w = key) ->
  sv_expected c = rn_revision (latest e) -> sv_fields c = shown e ->
  exists b, settled (Some id) c (RSaved d) e =
    (onPersisted d (set_ui ds_saved (saveError e) (set_conflict None (set_latest_conflict None
       (set_local (mdel (local e) key) (set_recovery b None
         (set_baseline (sd_localRevision d) (Some (fields_of d)) e)))))), fl_saved).
Proof.
  intros Hm Hs Hk Hr Hf. unfold settled. rewrite Hm, Hs, Nat.eqb_refl, Hr, Hf. cbn [negb orb].
  cbn [latest set_baseline]. rewrite Z.eqb_refl, bool_decide_eq_true_2 by done. cbn [andb].
  destruct (clear_spec (set_baseline (sd_localRevision d) (Some (fields_of d)) e)) as [b ->]; [done|].
  by exists b.
Qed.

(** A render that finds the baseline shown leaves the document settled. *)
Lemma render_clean e db :
  rn_revision (next_rendering db e) = baseline_revision e ->
  baseline_fields e = Some (rn_fields (next_rendering db e)) ->
  rn_recovered (next_rendering db e) = false -> conflict e = None ->
  saveState e = ds_saved -> pendingRecovery e = None -> saveTimer e = None -> mget (local e) key = None ->
  let e' := render (Some id) db e in
  latest e' = next_rendering db e /\ saveState e' = ds_saved /\ saveTimer e' = None
  /\ pendingRecovery e' = None /\ mget (local e') key = None
  /\ baseline_fields e' = baseline_fields e /\ baseline_revision e' = baseline_revision e
  /\ inFlight e' = inFlight e.
Proof.
  intros Hr Hf Hn Hc Hs Hp Ht Hl. unfold render. case_bool_decide as Hd; cbn [negb]; [done|].
  unfold autosave_effect. cbn [latest set_rendered set_latest_conflict set_save_timer].
  replace (rn_conflict (next_rendering db e)) with (conflict e) by done. rewrite Hc, Hn.
  cbn [baseline_revision baseline_fields set_rendered set_latest_conflict set_save_timer].
  rewrite Hf, <- Hr, Z.eqb_refl, bool_decide_eq_true_2 by done. cbn [negb orb].
  unfold clearRecovery. cbn. rewrite Hp. cbn. repeat split; try done. by rewrite mget_del, decide_True.
Qed.

(** When the scheduled save is the only one and the backend accepts it, the document is
    settled: saved on display, no timer, no recovery copy, and the next save would start
    from the new revision. *)
Theorem accepted_save_settles P known e a db d :
  reached P known e -> mounted e = true -> saveTimer e = Some a -> inFlight e = [] ->
  rn_conflict (latest e) = None -> conflict e = None -> next_rendering db e = latest e ->
  fields_of d = shown e -> sd_selectedDatabase d = db ->
  let r := editor_run (Some id) [ESaveTimer; EReply (S (saveSequence e)) (RSaved d); ERender db] e in
  let e' := r.1 in
  OSave (S (saveSequence e)) (rn_revision (latest e)) (shown e) ∈ r.2
  /\ shown e' = shown e /\ baseline_fields e' = Some (shown e)
  /\ rn_revision (latest e') = sd_localRevision d /\ baseline_revision e' = sd_localRevision d
  /\ saveState e' = ds_saved /\ saveTimer e' = None /\ inFlight e' = []
  /\ pendingRecovery e' = None /\ mget (local e') key = None.
Proof.
  intros Hr%reached_inv Hm Ht Hi Hc Hcf Hn Hd Hdb.
  pose proof (inv_timer _ _ Hr _ Ht) as ->.
  cbn [editor_run editor_step]. rewrite Hm, Ht. cbn [negb]. unfold persist.
  cbn [saveSequence set_save_timer set_sequence set_ui inFlight set_in_flight]. rewrite Hi. cbn [app].
  set (c := mkSave _ _ _). set (e1 := set_in_flight _ _).
  assert (reply_to (Some id) (S (saveSequence e)) (RSaved d) e1 =
    let (e2, o) := settled (Some id) c (RSaved d) (set_in_flight [] e1) in
    (set_flushes (waiting e2) (filterb (fun p => negb (p.2 =? S (saveSequence e))%nat) (finishing e2)) e2,
     map (fun p => OFlushed p.1 o) (filterb (fun p => p.2 =? S (saveSequence e))%nat (finishing e2)))) as ->.
  { unfold reply_to, e1. cbn [inFlight set_in_flight]. unfold findb, filterb at 1. cbn [List.find List.filter].
    subst c. cbn [sv_sequence]. by rewrite Nat.eqb_refl. }
  destruct (settle_snapshot (set_in_flight [] e1) d c) as [b ->]; [done|done|apply Hr|done|done|].
  cbv beta iota. set (e2 := set_flushes _ _ _).
  assert (next_rendering db e2 = mkRendering (sd_localRevision d) (shown e) false None) as En.
  { unfold next_rendering, e2. cbn. f_equal. rewrite <- Hd. unfold fields_of. f_equal; [done|].
    apply (f_equal (fun r => df_content (rn_fields r))) in Hn. cbn in Hn. rewrite Hn, <- Hd. done. }
  replace (mounted e2) with (mounted e) by done. rewrite Hm. cbn [negb].
  destruct (render_clean e2 db) as (E1 & E2 & E3 & E4 & E5 & E6 & E7 & E8); rewrite ?En; try done.
  { cbn. by rewrite Hd. }
  { cbn. by rewrite mget_del, decide_True. }
  cbv zeta. cbn [fst snd]. split; [by left|]. rewrite E1, E2, E3, E4, E5, E6, E7, E8, En. cbn. by rewrite Hd.
Qed.

(** ** Runs by inputs *)

Fixpoint known_run (inputs : list editor_input) (known : list doc_fields) (e : editor) : list doc_fields :=
  match inputs with
  | [] => known
  | i :: inputs => known_run inputs (known ++ reported i e) (estep i e).1
  end.
Fixpoint inputs_ok (P : editor -> editor_input -> Prop) (inputs : list editor_input) (e : editor) : Prop :=
  match inputs with
  | [] => True
  | i :: inputs => P e i /\ inputs_ok P inputs (estep i e).1
  end.

Lemma reached_run P inputs known e :
  reached P known e -> inputs_ok P inputs e ->
  reached P (known_run inputs known e) (editor_run (Some id) inputs e).1.
Proof.
  revert known e. induction inputs as [|i inputs IH]; intros known e Hr Hi; cbn in *; [done|].
  destruct Hi as [Hi Hrest]. pose proof (reached_step P known e i Hr Hi) as Hs.
  specialize (IH _ _ Hs Hrest). destruct (estep i e) as [e1 o]. cbn in *.
  by destruct (editor_run (Some id) inputs e1).
Qed.

End autosave.

(** ** A document in the editor *)

Module Demo.

Definition doc_id : jsstr := js "d1".
Definition tab : SqlTab :=
  mkSqlTab (js "SELECT 1;") (js "Report") (js "shop") None playground (Some doc_id) 4 false.
Definition version (title content : jsstr) : doc_fields := mkFields title (js "shop") None playground content.
Definition stored (revision : Z) (title content : jsstr) : SqlDocument :=
  mkSqlDocument doc_id (js "c1") title (js "shop") None playground content revision.
Definition start : editor := mount (Some doc_id) tab (js "SELECT 1;") (js "shop") [] None.
Definition edited : list editor_input := [EType (js "SELECT 2;"); ERender (js "shop")].
Definition run (inputs : list editor_input) : editor * list editor_output := editor_run (Some doc_id) inputs start.

Lemma reaches P inputs :
  inputs_ok doc_id P inputs start ->
  reached doc_id P (known_run doc_id inputs (opened tab (js "SELECT 1;") (js "shop")) start) (run inputs).1.
Proof. intros. apply reached_run; [constructor|done]. Qed.

Definition parse_one (p : SqlRecoverySnapshot) (t : jsstr) : option value :=
  if bool_decide (t = payload_text p) then Some (payload_value p) else None.

End Demo.
Import Demo.

Lemma unsaved_edit_recoverable_witness :
  let e := (run edited).1 in
  let p := recovery_payload 4 (version (js "Report") (js "SELECT 2;")) in
  readRecovery (mget (local (editor_step (Some doc_id) EUnmount e).1)) (parse_one p)
    (stored 4 (js "Report") (js "SELECT 1;")) = Some p.
Proof.
  cbv zeta.
  destruct (unsaved_edit_recoverable doc_id
    (parse_one (recovery_payload 4 (version (js "Report") (js "SELECT 2;")))) (fun _ _ => True)
    (known_run doc_id edited (opened tab (js "SELECT 1;") (js "shop")) start) (run edited).1
    (stored 4 (js "Report") (js "SELECT 1;"))) as [H|H].
  - vm_compute. reflexivity.
  - apply reaches. vm_compute. tauto.
  - reflexivity.
  - reflexivity.
  - reflexivity.
  - reflexivity.
  - reflexivity.
  - exfalso. vm_compute in H. apply list_elem_of_singleton in H. discriminate H.
  - exact H.
Defined.

(** Storage refuses the write at the unmount: the edit was neither reported nor kept. *)
Example refused_copy_is_lost :
  let e := (run (edited ++ [EStorage (Some (js "QuotaExceededError"))])).1 in
  rn_fields (latest e) <> version (js "Report") (js "SELECT 1;")
  /\ mget (local (editor_step (Some doc_id) EUnmount e).1) (sqlRecoveryKey doc_id) = None.
Proof. by vm_compute. Qed.

Lemma flush_saved_is_reported_witness :
  let i := EReply 1 (RSaved (stored 5 (js "Report") (js "SELECT 2;"))) in
  let e := (run (edited ++ [EFlush 7; EResume 7])).1 in
  OFlushed 7 fl_saved ∈ (editor_step (Some doc_id) i e).2 /\
  rn_fields (latest e)
    ∈ known_run doc_id (edited ++ [EFlush 7; EResume 7]) (opened tab (js "SELECT 1;") (js "shop")) start ++ reported i e.
Proof.
  cbv zeta. assert (OFlushed 7 fl_saved ∈ (editor_step (Some doc_id)
    (EReply 1 (RSaved (stored 5 (js "Report") (js "SELECT 2;")))) (run (edited ++ [EFlush 7; EResume 7])).1).2) as H.
  { vm_compute. left. }
  split; [exact H|]. apply (flush_saved_is_reported doc_id (fun _ _ => True) _ _ _ 7); [|exact H].
  apply reaches. vm_compute. tauto.
Defined.

Lemma unsaved_edit_is_owed_witness : owes_save (run (edited ++ [EFlush 7; EResume 7])).1.
Proof.
  apply (unsaved_edit_is_owed doc_id
    (known_run doc_id (edited ++ [EFlush 7; EResume 7]) (opened tab (js "SELECT 1;") (js "shop")) start)).
  - apply reaches. vm_compute. tauto.
  - vm_compute. repeat split; discriminate.
Defined.

Lemma accepted_save_settles_witness :
  let e' := (editor_run (Some doc_id) [ESaveTimer;
      EReply 1 (RSaved (stored 5 (js "Report") (js "SELECT 2;"))); ERender (js "shop")] (run edited).1).1 in
  rn_fields (latest e') = version (js "Report") (js "SELECT 2;") /\ saveState e' = ds_saved.
Proof.
  cbv zeta. destruct (accepted_save_settles doc_id (fun _ _ => True)
    (known_run doc_id edited (opened tab (js "SELECT 1;") (js "shop")) start) (run edited).1
    (4%Z, version (js "Report") (js "SELECT 2;")) (js "shop") (stored 5 (js "Report") (js "SELECT 2;")))
    as (_ & E1 & _ & _ & _ & E2 & _).
  - apply reaches. vm_compute. tauto.
  - reflexivity.
  - vm_compute. reflexivity.
  - reflexivity.
  - reflexivity.
  - reflexivity.
  - vm_compute. reflexivity.
  - vm_compute. reflexivity.
  - reflexivity.
  - split; [exact E1|exact E2].
Defined.

(** ** Where an edit is lost or a conflict is the member's own *)

(** The backend's rule: a save goes through when the expected revision is the current one. *)
Definition backend_save (now : SqlDocument) (expected : Z) (f : doc_fields) : save_reply * SqlDocument :=
  if (sd_localRevision now =? expected)%Z then
    let next := mkSqlDocument (sd_id now) (sd_connectionId now) (df_title f) (df_selectedDatabase f)
                  (df_selectedSchema f) (df_resolveMode f) (df_content f) (sd_localRevision now + 1) in
    (RSaved next, next)
  else (RConflict now, now).

(** A save slower than the next pause: the second save still expects the old revision, the
    answer of the first is ignored as replaced, and the member gets a conflict with the text
    they typed themselves a moment ago. *)
Example slow_save_conflicts_with_itself :
  let before := stored 4 (js "Report") (js "SELECT 1;") in
  let s1 := run (edited ++ [ESaveTimer; EType (js "SELECT 3;"); ERender (js "shop"); ESaveTimer]) in
  let a := version (js "Report") (js "SELECT 2;") in
  let b := version (js "Report") (js "SELECT 3;") in
  let '(reply1, mid) := backend_save before 4 a in
  let '(reply2, _) := backend_save mid 4 b in
  s1.2 = [OSave 1 4 a; OSave 2 4 b]
  /\ conflict (editor_run (Some doc_id) [EReply 1 reply1; EReply 2 reply2] s1.1).1 = Some (mkConflict mid b)
  /\ fields_of mid = a.
Proof. vm_compute. repeat split. Qed.

(** A title typed while a save is on its way is replaced by the answer of that save. *)
Example title_typed_during_save_is_replaced :
  let s := run (edited ++ [ESaveTimer; EEdit (TTitle (js "Sales")); ERender (js "shop");
                 EReply 1 (RSaved (stored 5 (js "Report") (js "SELECT 2;"))); ERender (js "shop")]) in
  df_title (rn_fields (latest s.1)) = js "Report" /\ saveState s.1 = ds_saved
  /\ mget (local s.1) (sqlRecoveryKey doc_id) = None /\ pendingRecovery s.1 = None.
Proof. vm_compute. repeat split. Qed.

(** The application quits while a save is on its way: the copy of the newer text carries the
    old revision, so reopening the document at its new revision ignores the copy. *)
Example edit_during_save_not_recovered :
  let s := run (edited ++ [ESaveTimer; EType (js "SELECT 3;"); ERender (js "shop"); EUnmount]) in
  let p := recovery_payload 4 (version (js "Report") (js "SELECT 3;")) in
  mget (local s.1) (sqlRecoveryKey doc_id) = Some (payload_text p)
  /\ readRecovery (mget (local s.1)) (parse_one p) (stored 5 (js "Report") (js "SELECT 2;")) = None.
Proof. vm_compute. repeat split. Qed.

(** The member leaves the tab before the pause is over and comes back. The store has the
    edit and so has the recovery copy, but the editor is mounted with the tab's text, takes
    it for the saved one and clears the copy. *)
Example leaving_the_tab_drops_the_edit :
  let old := js "SELECT 1;" in
  let typed_text := js "SELECT 2;" in
  let left := (run [EType typed_text; ERender (js "shop"); EUnmount]).1 in
  let store := unmount_buffer doc_id 1 (buffer_step doc_id old (mount_buffer doc_id old 1 []) (BType typed_text)) in
  let text := bf_text (mount_buffer doc_id (st_draft (ed_tab left)) 2 store).1 in
  let back := mount (Some doc_id) (ed_tab left) text (js "shop") (local left) None in
  readWorkbenchDraft doc_id old store = typed_text
  /\ mget (local left) (sqlRecoveryKey doc_id)
     = Some (payload_text (recovery_payload 4 (version (js "Report") typed_text)))
  /\ text = old /\ saveState back = ds_saved /\ saveTimer back = None
  /\ mget (local back) (sqlRecoveryKey doc_id) = None.
Proof. vm_compute. repeat split. Qed.

(** "Keep mine" and then "use saved" before the answer: the answer is ignored, the editor
    shows the saved version as saved, and the backend holds the other one. *)
Example conflict_answered_twice :
  let theirs := stored 5 (js "Report") (js "SELECT 9;") in
  let mine := version (js "Report") (js "SELECT 2;") in
  let s1 := run (edited ++ [ESaveTimer; EReply 1 (RConflict theirs); ERender (js "shop"); EKeepLocal; EUseSaved]) in
  let '(reply, now) := backend_save theirs 5 mine in
  let s2 := editor_run (Some doc_id) [EReply 2 reply; ERender (js "shop")] s1.1 in
  fields_of now = mine /\ saveState s2.1 = ds_saved
  /\ rn_fields (latest s2.1) = version (js "Report") (js "SELECT 9;").
Proof. vm_compute. repeat split. Qed.
