(* ===== verification/SafetyPolicy.v ===== *)
(** * Write safety of a connection

    Models [src/features/safetySettings/policy.ts] (what a connection's authority lets the
    device settings allow, and where a blocked write is recovered),
    [persistence.ts] (the two writes of a Safety edit, with their rollback) and
    [saveCoordinator.ts] (one save per connection). Lowercasing a message is a parameter;
    the two commands of [persistence.ts] are the interface [SafetyCommands]. *)

From S2P Require Import Prelude JsString JsMap Regex SqlIdent.
From Stdlib Require String.
Import Stdlib.Strings.String.StringSyntax.

(** ** Data *)

Inductive ConnectionProvider := p_auto | p_generic | p_neon | p_planetScale | p_gcpCloudSql | p_cloudflareD1.
Inductive WorkspaceConnectionAccess := wa_view | wa_read | wa_write | wa_manage | wa_local.
Inductive WorkspaceCredentialMode := cm_local | cm_memberLocal | cm_managed | cm_provisioned.
#[export] Instance ConnectionProvider_eq_dec : EqDecision ConnectionProvider.
Proof. solve_decision. Defined.
#[export] Instance WorkspaceConnectionAccess_eq_dec : EqDecision WorkspaceConnectionAccess.
Proof. solve_decision. Defined.
#[export] Instance WorkspaceCredentialMode_eq_dec : EqDecision WorkspaceCredentialMode.
Proof. solve_decision. Defined.

Record SafetySettings := mkSafety {
  allowWrites : bool; allowSchemaChanges : bool; wrapWritesInTx : bool; explainPreview : bool;
  autoRunReads : bool; maxRows : Z; execPreviewRowLimit : Z }.
#[export] Instance SafetySettings_eq_dec : EqDecision SafetySettings.
Proof. solve_decision. Defined.

(** The engine, the provider and the schema flag are optional. *)
Record ConnectionWriteAuthority := mkAuthority {
  cw_allowWrites : bool; cw_credentialMode : WorkspaceCredentialMode; cw_workspaceAccess : WorkspaceConnectionAccess;
  cw_engine : option Engine; cw_provider : option ConnectionProvider; cw_schemaAccessAvailable : option bool }.

Inductive WriteBlockRecoveryKind :=
| deviceSafety | localSafety | schemaSafety | schemaUnavailable | workspaceGrant | workspacePolicy
| workspacePolicyAndDevice.
#[export] Instance WriteBlockRecoveryKind_eq_dec : EqDecision WriteBlockRecoveryKind.
Proof. solve_decision. Defined.

Record WriteBlockError := mkBlockError { wb_kind : option jsstr; wb_message : jsstr; wb_sql : option jsstr }.

(** ** Authority *)

Definition is_local (c : ConnectionWriteAuthority) : bool :=
  bool_decide (cw_credentialMode c = cm_local) && bool_decide (cw_workspaceAccess c = wa_local).
Definition is_managed_manage (c : ConnectionWriteAuthority) : bool :=
  bool_decide (cw_credentialMode c = cm_managed) && bool_decide (cw_workspaceAccess c = wa_manage).
Definition sql_engine (c : ConnectionWriteAuthority) : bool :=
  negb (bool_decide (cw_engine c = Some bigquery)) && negb (bool_decide (cw_engine c = Some mongodb)).

Definition connectionCanEnterWritePath (c : ConnectionWriteAuthority) : bool :=
  if negb (cw_allowWrites c) then false
  else bool_decide (cw_workspaceAccess c = wa_local) || bool_decide (cw_workspaceAccess c = wa_write)
       || bool_decide (cw_workspaceAccess c = wa_manage).

Definition canManageWorkspaceWritePolicy (c : ConnectionWriteAuthority) : bool := is_managed_manage c.

Definition safetyWriteControlAvailable (c : ConnectionWriteAuthority) : bool :=
  if is_local c then sql_engine c
  else canManageWorkspaceWritePolicy c || connectionCanEnterWritePath c.

Definition safetySchemaControlAvailable (c : ConnectionWriteAuthority) : bool :=
  if is_local c then sql_engine c
  else is_managed_manage c
       && (bool_decide (cw_provider c = Some p_neon) || bool_decide (cw_provider c = Some p_gcpCloudSql))
       && bool_decide (cw_engine c = Some postgres) && bool_decide (cw_schemaAccessAvailable c = Some true).

(** [{ ...settings, allowWrites, allowSchemaChanges }] *)
Definition with_gates (s : SafetySettings) (writes schema : bool) : SafetySettings :=
  mkSafety writes schema (wrapWritesInTx s) (explainPreview s) (autoRunReads s) (maxRows s) (execPreviewRowLimit s).

Definition requestedSafetySettings (c : ConnectionWriteAuthority) (s : SafetySettings) : SafetySettings :=
  let writes := allowWrites s && safetyWriteControlAvailable c in
  with_gates s writes (writes && allowSchemaChanges s && safetySchemaControlAvailable c).

Definition effectiveSafetySettings (c : ConnectionWriteAuthority) (s : SafetySettings) : SafetySettings :=
  let writes := allowWrites s && connectionCanEnterWritePath c in
  with_gates s writes (writes && allowSchemaChanges s && safetySchemaControlAvailable c).

Definition needsLocalSchemaConnection (c : ConnectionWriteAuthority) : bool :=
  is_managed_manage c && bool_decide (cw_provider c = Some p_gcpCloudSql)
  && bool_decide (cw_engine c = Some postgres) && negb (bool_decide (cw_schemaAccessAvailable c = Some true)).

(** ** Recovery of a blocked write *)

(** The loop of [sqlAfterLeadingTrivia]; every round consumes a unit. *)
Fixpoint after_trivia (fuel : nat) (s : jsstr) : option jsstr :=
  match fuel with
  | O => Some s
  | S fuel =>
    match s with
    | [] => Some s
    | c :: s' =>
      if is_space c then after_trivia fuel s'
      else if startsWith s (js "--") then
        let rest := drop 2 s in
        after_trivia fuel (drop (run_len (fun c => negb (c =? 13)%N && negb (c =? 10)%N) rest) rest)
      else if startsWith s (js "/*") then
        match indexOf s (js "*/") 2 with
        | None => None
        | Some stop => after_trivia fuel (drop (stop + 2) s)
        end
      else Some s
    end
  end.
Definition sqlAfterLeadingTrivia (sql : jsstr) : option jsstr := after_trivia (S (length sql)) sql.

(** [/^(?:create|alter|drop|truncate|comment|reindex)\b/i] *)
Definition DDL_RE : re :=
  RSeqs [RBol; RAny (map RLitI [js "create"; js "alter"; js "drop"; js "truncate"; js "comment"; js "reindex"]); RWordB].

Definition isDdlStatement (sql : option jsstr) : bool :=
  match truthy sql with
  | None => false
  | Some sql => match sqlAfterLeadingTrivia sql with Some st => test DDL_RE st | None => false end
  end.

Section messages.
Context (toLocaleLowerCase : jsstr -> jsstr).

Definition isSchemaAccessError (e : WriteBlockError) : bool :=
  let message := toLocaleLowerCase (wb_message e) in
  includes message (js "schema changes are disabled")
  || includes message (js "workspace role does not permit schema changes")
  || includes message (js "managed schema access requires")
  || includes message (js "managed schema access is not supported")
  || includes message (js "schema access requires a separately verified")
  || includes message (js "schema policy owner is unavailable")
  || includes message (js "managed schema access is not configured")
  || (isDdlStatement (wb_sql e)
      && (includes message (js "permission denied for schema") || includes message (js "must be owner of"))).

Definition isWritesDisabledError (e : WriteBlockError) : bool :=
  if negb (bool_decide (wb_kind e = Some (js "blocked"))) && negb (bool_decide (wb_kind e = Some (js "safety"))) then false
  else
    let message := toLocaleLowerCase (wb_message e) in
    includes message (js "writes are disabled for this connection")
    || includes message (js "writing is disabled for this connection")
    || includes message (js "schema change (ddl) is disabled for this connection").

Definition writeBlockRecoveryKind (c : ConnectionWriteAuthority) (e : WriteBlockError) : option WriteBlockRecoveryKind :=
  let schemaAccessError := isSchemaAccessError e in
  if negb schemaAccessError && negb (isWritesDisabledError e) then None
  else if bool_decide (cw_workspaceAccess c = wa_view) || bool_decide (cw_workspaceAccess c = wa_read)
  then Some workspaceGrant
  else if schemaAccessError then
    if bool_decide (cw_credentialMode c = cm_managed) && negb (bool_decide (cw_workspaceAccess c = wa_manage))
    then Some workspaceGrant
    else Some (if safetySchemaControlAvailable c then schemaSafety else schemaUnavailable)
  else if negb (cw_allowWrites c)
          && (bool_decide (cw_credentialMode c = cm_provisioned) || bool_decide (cw_credentialMode c = cm_memberLocal))
  then Some workspacePolicy
  else if negb (cw_allowWrites c) && bool_decide (cw_credentialMode c = cm_managed)
  then Some (if bool_decide (cw_workspaceAccess c = wa_manage) then workspacePolicyAndDevice else workspacePolicy)
  else if negb (cw_allowWrites c) then Some localSafety
  else Some deviceSafety.

End messages.

Definition writeBlockRecoveryOpensSafety (k : WriteBlockRecoveryKind) : bool :=
  match k with
  | deviceSafety | localSafety | schemaSafety | schemaUnavailable | workspacePolicyAndDevice => true
  | workspaceGrant | workspacePolicy => false
  end.

(** ** Persisting an edit *)

(** The connection profile as far as this code reads it: its identifier and its authority. *)
Record ConnectionProfile := mkProfile { pf_id : jsstr; pf_authority : ConnectionWriteAuthority }.
Definition set_allow_writes (b : bool) (p : ConnectionProfile) : ConnectionProfile :=
  let c := pf_authority p in
  mkProfile (pf_id p) (mkAuthority b (cw_credentialMode c) (cw_workspaceAccess c) (cw_engine c) (cw_provider c)
                         (cw_schemaAccessAvailable c)).

(** [SafetyPersistenceCommands] over a state [W] of the device and the workspace; [E] is
    what a command is rejected with. *)
Class SafetyCommands (W E : Type) := {
  setDeviceSafety : jsstr -> SafetySettings -> W -> W * res E unit;
  setWorkspaceWritePolicy : jsstr -> bool -> W -> W * res E ConnectionProfile }.

Inductive persist_error (E : Type) :=
| CommandError (error : E)
| WorkspaceWritePolicyRollbackError (connection : ConnectionProfile) (originalError rollbackError : E).
Arguments CommandError {E} _.
Arguments WorkspaceWritePolicyRollbackError {E} _ _ _.

Section persist.
Context {W E : Type} `{!SafetyCommands W E}.

Definition policy_change (connection : ConnectionProfile) (settings : SafetySettings) (writesChanged : bool) : bool :=
  writesChanged && canManageWorkspaceWritePolicy (pf_authority connection)
  && negb (Bool.eqb (cw_allowWrites (pf_authority connection)) (allowWrites settings)).

Definition persistConnectionSafety (connection : ConnectionProfile) (settings : SafetySettings) (writesChanged : bool)
    (w : W) : W * res (persist_error E) ConnectionProfile :=
  let workspacePolicyChange := policy_change connection settings writesChanged in
  if workspacePolicyChange && allowWrites settings then
    match setWorkspaceWritePolicy (pf_id connection) true w with
    | (w, Throw e) => (w, Throw (CommandError e))
    | (w, Ok widened) =>
      match setDeviceSafety (pf_id connection) settings w with
      | (w, Ok _) => (w, Ok widened)
      | (w, Throw error) =>
        match setWorkspaceWritePolicy (pf_id connection) false w with
        | (w, Throw rollbackError) => (w, Throw (WorkspaceWritePolicyRollbackError widened error rollbackError))
        | (w, Ok _) => (w, Throw (CommandError error))
        end
      end
    end
  else
    match setDeviceSafety (pf_id connection) settings w with
    | (w, Throw e) => (w, Throw (CommandError e))
    | (w, Ok _) =>
      if workspacePolicyChange then
        match setWorkspaceWritePolicy (pf_id connection) false w with
        | (w, Throw e) => (w, Throw (CommandError e))
        | (w, Ok c) => (w, Ok c)
        end
      else (w, Ok connection)
    end.

End persist.

(** ** One save per connection *)

(** [activeSaves]; a symbol is the number of its creation. *)
Record coordinator := mkCoordinator { activeSaves : list (jsstr * nat); next_symbol : nat }.
Definition empty_coordinator : coordinator := mkCoordinator [] 0.

Definition claimSafetySave (id : jsstr) (k : coordinator) : coordinator * option nat :=
  if mhas (activeSaves k) id then (k, None)
  else (mkCoordinator (mset (activeSaves k) id (next_symbol k)) (S (next_symbol k)), Some (next_symbol k)).
Definition ownsSafetySave (id : jsstr) (token : nat) (k : coordinator) : bool :=
  bool_decide (mget (activeSaves k) id = Some token).
Definition releaseSafetySave (id : jsstr) (token : nat) (k : coordinator) : coordinator * bool :=
  if negb (ownsSafetySave id token k) then (k, false)
  else (mkCoordinator (mdel (activeSaves k) id) (next_symbol k), true).
Definition safetySaveInFlight (id : jsstr) (k : coordinator) : bool := mhas (activeSaves k) id.

Inductive save_op := SClaim (id : jsstr) | SRelease (id : jsstr) (token : nat).
Definition save_step (k : coordinator) (o : save_op) : coordinator :=
  match o with
  | SClaim id => (claimSafetySave id k).1
  | SRelease id t => (releaseSafetySave id t k).1
  end.

(** ** Theorems: authority *)

(** [a] allows nothing that [b] does not, and sets the same limits. *)
Definition narrower (a b : SafetySettings) : Prop :=
  (allowWrites a = true -> allowWrites b = true)
  /\ (allowSchemaChanges a = true -> allowSchemaChanges b = true)
  /\ with_gates a false false = with_gates b false false.

Lemma with_gates_narrower s w sc :
  (w = true -> allowWrites s = true) -> (sc = true -> allowSchemaChanges s = true) -> narrower (with_gates s w sc) s.
Proof. intros. repeat split; cbn; auto. Qed.

(** Device settings only narrow: what is effective is allowed by the settings, by the
    connection's own gate and by an access that may write; schema changes need writes and
    either a personal SQL connection or an exact managed grant. Applying them again changes
    nothing. *)
Theorem settings_only_narrow c s :
  let e := effectiveSafetySettings c s in
  narrower e s /\ narrower (requestedSafetySettings c s) s
  /\ effectiveSafetySettings c e = e
  /\ (allowWrites e = true <-> allowWrites s = true /\ cw_allowWrites c = true
      /\ cw_workspaceAccess c <> wa_view /\ cw_workspaceAccess c <> wa_read)
  /\ (allowSchemaChanges e = true -> allowWrites e = true
      /\ (cw_credentialMode c = cm_local /\ cw_workspaceAccess c = wa_local
          \/ cw_credentialMode c = cm_managed /\ cw_workspaceAccess c = wa_manage
             /\ cw_engine c = Some postgres /\ cw_schemaAccessAvailable c = Some true)).
Proof.
  cbv zeta. unfold requestedSafetySettings, effectiveSafetySettings.
  split; [|split; [|split; [|split]]].
  - apply with_gates_narrower; intros H; bools; done.
  - apply with_gates_narrower; intros H; bools; done.
  - unfold with_gates. cbn. f_equal; destruct (allowWrites s), (connectionCanEnterWritePath c), (allowSchemaChanges s),
      (safetySchemaControlAvailable c); done.
  - cbn. unfold connectionCanEnterWritePath.
    destruct (allowWrites s), (cw_allowWrites c), (cw_workspaceAccess c); vm_compute; intuition congruence.
  - cbn. intros H. bools. split; [by apply andb_true_iff|].
    unfold safetySchemaControlAvailable, is_local, is_managed_manage in *.
    repeat case_bool_decide; cbn in *; try done; auto.
Qed.

(** The recovery of a blocked write names the layer that blocks it: a member without a
    grant is sent to the grant, the device's own gate is blamed only when everything above
    it allows writes, and the schema control is offered only where it can be used. *)
Theorem recovery_names_the_layer lower c e k :
  writeBlockRecoveryKind lower c e = Some k ->
  match k with
  | workspaceGrant => cw_workspaceAccess c = wa_view \/ cw_workspaceAccess c = wa_read
                      \/ cw_credentialMode c = cm_managed /\ cw_workspaceAccess c <> wa_manage
  | schemaSafety => safetySchemaControlAvailable c = true /\ isSchemaAccessError lower e = true
  | schemaUnavailable => safetySchemaControlAvailable c = false /\ isSchemaAccessError lower e = true
  | deviceSafety => connectionCanEnterWritePath c = true /\ isWritesDisabledError lower e = true
  | localSafety => cw_credentialMode c = cm_local /\ cw_allowWrites c = false
  | workspacePolicy => cw_credentialMode c <> cm_local /\ cw_allowWrites c = false
                       /\ canManageWorkspaceWritePolicy c = false
  | workspacePolicyAndDevice => canManageWorkspaceWritePolicy c = true /\ cw_allowWrites c = false
  end.
Proof.
  unfold writeBlockRecoveryKind, connectionCanEnterWritePath, canManageWorkspaceWritePolicy, is_managed_manage.
  destruct (isSchemaAccessError lower e) eqn:Es, (isWritesDisabledError lower e) eqn:Ew; cbn [negb andb]; try done;
    destruct (cw_workspaceAccess c) eqn:Ea, (cw_credentialMode c) eqn:Em;
    try (destruct (safetySchemaControlAvailable c) eqn:Ec); destruct (cw_allowWrites c) eqn:Ewr;
    intros H; vm_compute in H; simplify_eq; vm_compute; intuition congruence.
Qed.

(** ** Theorems: persistence *)

(** What a client may rely on: a command that resolves has done its work, a rejected one may
    or may not have, and neither touches the other setting. *)
Class SafetyCommandLaws (W E : Type) `{!SafetyCommands W E} (device : W -> SafetySettings) (ceiling : W -> bool) := {
  device_ok id s w w' : setDeviceSafety id s w = (w', Ok tt) -> device w' = s /\ ceiling w' = ceiling w;
  device_failed id s w w' e :
    setDeviceSafety id s w = (w', Throw e) -> (device w' = s \/ device w' = device w) /\ ceiling w' = ceiling w;
  policy_ok id b w w' c :
    setWorkspaceWritePolicy id b w = (w', Ok c) -> ceiling w' = b /\ cw_allowWrites (pf_authority c) = b /\ device w' = device w;
  policy_failed id b w w' e :
    setWorkspaceWritePolicy id b w = (w', Throw e) -> (ceiling w' = b \/ ceiling w' = ceiling w) /\ device w' = device w }.

Section laws.
Context {W E : Type} `{!SafetyCommands W E} {device : W -> SafetySettings} {ceiling : W -> bool}
  `{!SafetyCommandLaws W E device ceiling}.

(** C40: What a caller of a Safety edit may conclude, whatever the commands do. When it resolves,
    the device has the settings and a changed team ceiling is the requested one, as the
    returned connection says. When a widening is rejected, either its very first command, the
    widening of the ceiling, was rejected: then nothing else was sent and the device is
    untouched, but the ceiling is open if that command took effect all the same
    ([lost_widening_stays_open]); or the device write failed and the ceiling is closed again;
    or the special error says that closing it failed and carries the widened connection. When
    anything else is rejected, the ceiling moved only if the device already has the settings. *)
Theorem persist_fail_closed connection settings writesChanged w :
  let change := policy_change connection settings writesChanged in
  let '(w', r) := persistConnectionSafety connection settings writesChanged w in
  match r with
  | Ok c => device w' = settings
            /\ (if change then ceiling w' = allowWrites settings /\ cw_allowWrites (pf_authority c) = allowWrites settings
                else ceiling w' = ceiling w /\ c = connection)
  | Throw (WorkspaceWritePolicyRollbackError c _ _) =>
    change = true /\ allowWrites settings = true /\ cw_allowWrites (pf_authority c) = true
    /\ (device w' = device w \/ device w' = settings)
  | Throw (CommandError e) =>
    if change && allowWrites settings then
      setWorkspaceWritePolicy (pf_id connection) true w = (w', Throw e) /\ device w' = device w
        /\ (ceiling w' = true \/ ceiling w' = ceiling w)
      \/ ceiling w' = false /\ (device w' = device w \/ device w' = settings)
    else ceiling w' = ceiling w /\ (device w' = device w \/ device w' = settings)
         \/ ceiling w' = allowWrites settings /\ device w' = settings
  end.
Proof.
  cbv zeta. unfold persistConnectionSafety. destruct (policy_change connection settings writesChanged) eqn:Ec,
    (allowWrites settings) eqn:Ew; cbn [andb].
  - destruct (setWorkspaceWritePolicy _ true w) as [w1 [c|e]] eqn:E1.
    + apply policy_ok in E1 as (Hc1 & Ha1 & Hd1).
      destruct (setDeviceSafety _ settings w1) as [w2 [[]|e]] eqn:E2.
      * apply device_ok in E2 as [Hd2 Hc2]. by rewrite Hc2.
      * apply device_failed in E2 as [Hd2 _]. rewrite Hd1 in Hd2.
        destruct (setWorkspaceWritePolicy _ false w2) as [w3 [c'|e']] eqn:E3.
        -- apply policy_ok in E3 as (Hc3 & _ & Hd3). right. rewrite Hd3. tauto.
        -- apply policy_failed in E3 as [_ Hd3]. rewrite Hd3. tauto.
    + left. split; [done|]. by apply policy_failed in E1 as [Hc1 Hd].
  - destruct (setDeviceSafety _ settings w) as [w1 [[]|e]] eqn:E1.
    + apply device_ok in E1 as [Hd1 Hc1].
      destruct (setWorkspaceWritePolicy _ false w1) as [w2 [c|e]] eqn:E2.
      * apply policy_ok in E2 as (Hc2 & Ha2 & Hd2). by rewrite Hd2.
      * apply policy_failed in E2 as ([Hc2|Hc2] & Hd2); rewrite Hd2, Hd1; [by right|].
        left. split; [congruence|by right].
    + apply device_failed in E1 as [[?|?] Hc1]; left; auto.
  - destruct (setDeviceSafety _ settings w) as [w1 [[]|e]] eqn:E1.
    + by apply device_ok in E1 as [Hd1 Hc1].
    + apply device_failed in E1 as [[?|?] Hc1]; left; auto.
  - destruct (setDeviceSafety _ settings w) as [w1 [[]|e]] eqn:E1.
    + by apply device_ok in E1 as [Hd1 Hc1].
    + apply device_failed in E1 as [[?|?] Hc1]; left; auto.
Qed.

End laws.

(** A world whose commands follow a script: whether each one takes effect and whether it
    reports success (one that reports success took effect). *)
Inductive scripted := cmd_done | cmd_refused | cmd_lost.
Record world := mkWorld { wd_device : SafetySettings; wd_ceiling : bool; wd_script : list scripted }.
Definition next_outcome (w : world) : scripted := default cmd_done (head (wd_script w)).
Definition demo_profile (b : bool) : ConnectionProfile :=
  mkProfile (js "c1") (mkAuthority b cm_managed wa_manage (Some postgres) (Some p_neon) (Some true)).

#[export] Instance world_commands : SafetyCommands world unit := {
  setDeviceSafety _ s w :=
    let rest := tail (wd_script w) in
    match next_outcome w with
    | cmd_done => (mkWorld s (wd_ceiling w) rest, Ok tt)
    | cmd_refused => (mkWorld (wd_device w) (wd_ceiling w) rest, Throw tt)
    | cmd_lost => (mkWorld s (wd_ceiling w) rest, Throw tt)
    end;
  setWorkspaceWritePolicy _ b w :=
    let rest := tail (wd_script w) in
    match next_outcome w with
    | cmd_done => (mkWorld (wd_device w) b rest, Ok (demo_profile b))
    | cmd_refused => (mkWorld (wd_device w) (wd_ceiling w) rest, Throw tt)
    | cmd_lost => (mkWorld (wd_device w) b rest, Throw tt)
    end }.

#[export] Instance world_laws : SafetyCommandLaws world unit wd_device wd_ceiling.
Proof.
  constructor; cbn; intros; destruct (next_outcome w); simplify_eq; cbn; auto.
Qed.

Definition demo_settings (writes : bool) : SafetySettings := mkSafety writes false true true true 1000 10000.

(** The device write is lost and the rollback refused: the caller learns of the widened team. *)
Lemma persist_fail_closed_witness :
  let w := mkWorld (demo_settings false) false [cmd_done; cmd_lost; cmd_refused] in
  snd (persistConnectionSafety (demo_profile false) (demo_settings true) true w)
  = Throw (WorkspaceWritePolicyRollbackError (demo_profile true) tt tt)
  /\ policy_change (demo_profile false) (demo_settings true) true = true.
Proof.
  cbv zeta. pose proof (persist_fail_closed (device := wd_device) (ceiling := wd_ceiling)
    (demo_profile false) (demo_settings true) true
    (mkWorld (demo_settings false) false [cmd_done; cmd_lost; cmd_refused])) as H.
  split; [reflexivity|]. exact (proj1 H).
Defined.

(** The widening command takes effect, but its answer is lost: the team may write, no
    rollback is sent and the error is a plain one. *)
Example lost_widening_stays_open :
  let w := mkWorld (demo_settings false) false [cmd_lost] in
  persistConnectionSafety (demo_profile false) (demo_settings true) true w
  = (mkWorld (demo_settings false) true [], Throw (CommandError tt)).
Proof. reflexivity. Qed.

Lemma recovery_names_the_layer_witness :
  let c := mkAuthority false cm_managed wa_manage (Some postgres) None None in
  let e := mkBlockError (Some (js "blocked")) (js "Writes are disabled for this connection") None in
  canManageWorkspaceWritePolicy c = true /\ cw_allowWrites c = false.
Proof.
  cbv zeta.
  apply (recovery_names_the_layer toLowerAscii (mkAuthority false cm_managed wa_manage (Some postgres) None None)
    (mkBlockError (Some (js "blocked")) (js "Writes are disabled for this connection") None) workspacePolicyAndDevice).
  vm_compute. reflexivity.
Defined.

(** ** Theorems: one save at a time *)

(** From a successful claim to the release with its own symbol, whatever else is claimed or
    released meanwhile, the claim stays its holder's, the connection counts as saving, and
    every other claim of it is refused. *)
Theorem one_save_at_a_time k id token ops :
  let k1 := (claimSafetySave id k).1 in
  (claimSafetySave id k).2 = Some token -> SRelease id token ∉ ops ->
  let k2 := foldl save_step k1 ops in
  ownsSafetySave id token k2 = true /\ safetySaveInFlight id k2 = true /\ claimSafetySave id k2 = (k2, None).
Proof.
  cbv zeta. intros Hc Hn.
  assert (mget (activeSaves (foldl save_step (claimSafetySave id k).1 ops)) id = Some token) as H.
  { assert (mget (activeSaves (claimSafetySave id k).1) id = Some token) as H0.
    { unfold claimSafetySave in *. destruct (mhas _ id); [done|]. cbn in *. simplify_eq. apply mget_set_eq. }
    revert H0. generalize (claimSafetySave id k).1. clear Hc. induction ops as [|o ops IH]; intros k' H0; [done|].
    cbn [foldl]. apply not_elem_of_cons in Hn as [Ho Hn]. apply IH; [done|]. destruct o as [i|i n]; cbn.
    - unfold claimSafetySave. destruct (mhas _ i) eqn:E; [done|]. cbn. rewrite mget_set. case_decide; [|done]. subst.
      unfold mhas in E. by rewrite H0 in E.
    - unfold releaseSafetySave, ownsSafetySave. case_bool_decide as E; cbn; [|done]. rewrite mget_del.
      case_decide; [|done]. subst. rewrite H0 in E. simplify_eq. }
  set (k2 := foldl _ _ _) in *. assert (mhas (activeSaves k2) id = true) as Hm by (unfold mhas; by rewrite H).
  unfold ownsSafetySave, safetySaveInFlight, claimSafetySave. rewrite H, Hm. by rewrite bool_decide_eq_true_2.
Qed.

Lemma one_save_at_a_time_witness :
  claimSafetySave (js "c1")
    (foldl save_step (claimSafetySave (js "c1") empty_coordinator).1
       [SClaim (js "c2"); SRelease (js "c1") 5; SClaim (js "c1")]) =
  (foldl save_step (claimSafetySave (js "c1") empty_coordinator).1
       [SClaim (js "c2"); SRelease (js "c1") 5; SClaim (js "c1")], None).
Proof.
  apply (one_save_at_a_time empty_coordinator (js "c1") 0
    [SClaim (js "c2"); SRelease (js "c1") 5; SClaim (js "c1")]).
  - reflexivity.
  - rewrite !not_elem_of_cons. repeat split; try discriminate. apply not_elem_of_nil.
Defined.
