(* ===== verification/SafetyDraft.v ===== *)
(** * The Safety form

    Models the state of [src/screens/Settings/Safety/index.tsx] with
    [src/features/safetySettings/draftStore.ts]: the draft of a connection's settings, its
    reconciliation with what is stored, the limits typed as text, and the request that
    applying it sends. Rendering and the toast are left out; the two effects run after every
    input, as React runs them after the commit. *)

From S2P Require Import Prelude JsString JsText JsMap Regex SqlIdent SafetyPolicy.
From Stdlib Require String.
From stdpp Require Import pretty.
Import Stdlib.Strings.String.StringSyntax.

(** ** Limits *)

Inductive LimitKey := k_maxRows | k_execPreviewRowLimit.
Definition limit_min (k : LimitKey) : Z := match k with k_maxRows => 1 | k_execPreviewRowLimit => 0 end.
Definition limit_max (k : LimitKey) : Z := match k with k_maxRows => 100000 | k_execPreviewRowLimit => 1000000 end.
Definition limit_keys : list LimitKey := [k_maxRows; k_execPreviewRowLimit].

(** Above the largest safe integer [Number] rounds, but then the bound refuses the value. *)
Definition parseLimit (raw : jsstr) (k : LimitKey) : option Z :=
  let trimmed := trim raw in
  if negb (non_empty trimmed && forallb is_digit trimmed) then None
  else
    let v := dec_value trimmed in
    if (limit_min k <=? v)%Z && (v <=? limit_max k)%Z then Some v else None.

(** A value per limit. *)
Record limits (A : Type) := mkLimits { l_maxRows : A; l_preview : A }.
Arguments mkLimits {A} _ _. Arguments l_maxRows {A} _. Arguments l_preview {A} _.
Definition limit_of {A} (k : LimitKey) (l : limits A) : A :=
  match k with k_maxRows => l_maxRows l | k_execPreviewRowLimit => l_preview l end.
Definition set_limit {A} (k : LimitKey) (v : A) (l : limits A) : limits A :=
  match k with k_maxRows => mkLimits v (l_preview l) | k_execPreviewRowLimit => mkLimits (l_maxRows l) v end.

Definition setting_limit (k : LimitKey) (s : SafetySettings) : Z :=
  match k with k_maxRows => maxRows s | k_execPreviewRowLimit => execPreviewRowLimit s end.
Definition set_setting_limit (k : LimitKey) (v : Z) (s : SafetySettings) : SafetySettings :=
  mkSafety (allowWrites s) (allowSchemaChanges s) (wrapWritesInTx s) (explainPreview s) (autoRunReads s)
    (match k with k_maxRows => v | _ => maxRows s end)
    (match k with k_execPreviewRowLimit => v | _ => execPreviewRowLimit s end).

Definition limitText (s : SafetySettings) : limits jsstr := mkLimits (show_Z (maxRows s)) (show_Z (execPreviewRowLimit s)).

(** ** Drafts *)

Record SafetyDraftValues := mkDraftValues { dv_settings : SafetySettings; dv_numbers : limits jsstr }.

Record SafetyDraft := mkSafetyDraft {
  sf_connectionId : jsstr; sf_settings : SafetySettings; sf_numbers : limits jsstr; sf_invalid : limits bool;
  sf_restored : bool }.

Definition sameSafetySettings (a b : SafetySettings) : bool :=
  Bool.eqb (allowWrites a) (allowWrites b) && Bool.eqb (allowSchemaChanges a) (allowSchemaChanges b)
  && Bool.eqb (wrapWritesInTx a) (wrapWritesInTx b) && Bool.eqb (explainPreview a) (explainPreview b)
  && Bool.eqb (autoRunReads a) (autoRunReads b) && (maxRows a =? maxRows b)%Z
  && (execPreviewRowLimit a =? execPreviewRowLimit b)%Z.

Definition freshDraft (id : jsstr) (s : SafetySettings) : SafetyDraft :=
  mkSafetyDraft id s (limitText s) (mkLimits false false) false.

(** The draft differs from what is stored. *)
Definition edited (settings : SafetySettings) (numbers : limits jsstr) (persisted : SafetySettings) : bool :=
  negb (sameSafetySettings settings persisted)
  || existsb (fun k => negb (bool_decide (trim (limit_of k numbers) = show_Z (setting_limit k persisted)))) limit_keys.

Notation safety_drafts := (list (jsstr * SafetyDraftValues)).
Definition rememberSafetyDraft (id : jsstr) (d : option SafetyDraftValues) (m : safety_drafts) : safety_drafts :=
  match d with Some d => mset m id d | None => mdel m id end.
Definition restoreSafetyDraft (id : jsstr) (m : safety_drafts) : option SafetyDraftValues := mget m id.

(** ** The form *)

Record form := mkForm {
  fm_connection : ConnectionProfile; fm_data : option SafetySettings; fm_draft : option SafetyDraft;
  fm_store : safety_drafts }.

Definition persisted_of (f : form) : option SafetySettings :=
  effectiveSafetySettings (pf_authority (fm_connection f)) <$> fm_data f.
Definition form_id (f : form) : jsstr := pf_id (fm_connection f).
(** The draft of the connection on display. *)
Definition own_draft (f : form) : option SafetyDraft :=
  d ← fm_draft f; if bool_decide (sf_connectionId d = form_id f) then Some d else None.
Definition set_draft (d : option SafetyDraft) (f : form) : form := mkForm (fm_connection f) (fm_data f) d (fm_store f).

(** The reconciling effect. *)
Definition reconcile (f : form) : form :=
  match persisted_of f with
  | None => set_draft None f
  | Some persisted =>
    set_draft (Some match own_draft f with
      | Some current =>
        if edited (sf_settings current) (sf_numbers current) persisted then current
        else freshDraft (form_id f) persisted
      | None =>
        match restoreSafetyDraft (form_id f) (fm_store f) with
        | Some remembered =>
          if negb (sameSafetySettings (dv_settings remembered) persisted)
          then mkSafetyDraft (form_id f) (dv_settings remembered) (dv_numbers remembered) (mkLimits false false) true
          else freshDraft (form_id f) persisted
        | None => freshDraft (form_id f) persisted
        end
      end) f
  end.

(** The effect that keeps an unapplied edit. *)
Definition keep_edit (f : form) : form :=
  match own_draft f, persisted_of f with
  | Some d, Some persisted =>
    mkForm (fm_connection f) (fm_data f) (fm_draft f)
      (rememberSafetyDraft (form_id f)
         (if edited (sf_settings d) (sf_numbers d) persisted then Some (mkDraftValues (sf_settings d) (sf_numbers d))
          else None) (fm_store f))
  | _, _ => f
  end.

(** Changing the draft of the connection on display. *)
Definition on_draft (u : SafetyDraft -> SafetyDraft) (f : form) : form :=
  match own_draft f with Some d => set_draft (Some (u d)) f | None => f end.

Inductive flag := f_wrapWritesInTx | f_explainPreview | f_autoRunReads | f_allowSchemaChanges.
Definition set_flag (x : flag) (b : bool) (s : SafetySettings) : SafetySettings :=
  mkSafety (allowWrites s) (match x with f_allowSchemaChanges => b | _ => allowSchemaChanges s end)
    (match x with f_wrapWritesInTx => b | _ => wrapWritesInTx s end)
    (match x with f_explainPreview => b | _ => explainPreview s end)
    (match x with f_autoRunReads => b | _ => autoRunReads s end) (maxRows s) (execPreviewRowLimit s).
Definition with_settings (s : SafetySettings) (d : SafetyDraft) : SafetyDraft :=
  mkSafetyDraft (sf_connectionId d) s (sf_numbers d) (sf_invalid d) (sf_restored d).

(** The write permission's switch. *)
Definition toggle_writes (checked : bool) (d : SafetyDraft) : SafetyDraft :=
  with_settings (with_gates (sf_settings d) checked (checked && allowSchemaChanges (sf_settings d))) d.

Definition editLimit (k : LimitKey) (raw : jsstr) (d : SafetyDraft) : SafetyDraft :=
  let value := parseLimit raw k in
  mkSafetyDraft (sf_connectionId d)
    (match value with Some v => set_setting_limit k v (sf_settings d) | None => sf_settings d end)
    (set_limit k raw (sf_numbers d))
    (match value with Some _ => set_limit k false (sf_invalid d) | None => sf_invalid d end) (sf_restored d).

Definition validateLimit (k : LimitKey) (d : SafetyDraft) : SafetyDraft :=
  match parseLimit (limit_of k (sf_numbers d)) k with
  | None => mkSafetyDraft (sf_connectionId d) (sf_settings d) (sf_numbers d) (set_limit k true (sf_invalid d)) (sf_restored d)
  | Some v => mkSafetyDraft (sf_connectionId d) (sf_settings d) (set_limit k (show_Z v) (sf_numbers d))
                (set_limit k false (sf_invalid d)) (sf_restored d)
  end.

(** ** Applying *)

Record save_request := mkRequest { rq_settings : SafetySettings; rq_writesChanged : bool; rq_localPolicyChange : bool }.

(** [save] up to its first [await], once the save is claimed: nothing to do, limits to
    correct, or the request for [persistConnectionSafety]. *)
Inductive save_attempt := sa_nothing | sa_invalid (keys : list LimitKey) | sa_request (r : save_request).

Definition invalid_limits (d : SafetyDraft) : list LimitKey :=
  filterb (fun k => match parseLimit (limit_of k (sf_numbers d)) k with None => true | Some _ => false end) limit_keys.

Definition attempt_save (f : form) : save_attempt :=
  match own_draft f, persisted_of f with
  | Some d, Some persisted =>
    if negb (edited (sf_settings d) (sf_numbers d) persisted) then sa_nothing
    else match invalid_limits d with
    | _ :: _ as keys => sa_invalid keys
    | [] =>
      let authority := pf_authority (fm_connection f) in
      let requested := requestedSafetySettings authority (sf_settings d) in
      sa_request (mkRequest requested (negb (Bool.eqb (allowWrites (sf_settings d)) (allowWrites persisted)))
        (is_local authority && negb (Bool.eqb (cw_allowWrites authority) (allowWrites requested))))
    end
  | _, _ => sa_nothing
  end.

Definition mark_invalid (keys : list LimitKey) (d : SafetyDraft) : SafetyDraft :=
  mkSafetyDraft (sf_connectionId d) (sf_settings d) (sf_numbers d)
    (foldl (fun l k => set_limit k true l) (mkLimits false false) keys) (sf_restored d).

Inductive form_input :=
| FConnection (connection : ConnectionProfile)
| FData (data : option SafetySettings)
| FWrites (checked : bool)
| FFlag (x : flag) (checked : bool)
| FLimit (k : LimitKey) (raw : jsstr)
| FBlur (k : LimitKey)
| FDiscard
| FApply
| FSaved (connection : ConnectionProfile) (persisted : SafetySettings)
| FClose.

Definition form_handle (i : form_input) (f : form) : form :=
  match i with
  | FConnection c => mkForm c (if bool_decide (pf_id c = form_id f) then fm_data f else None) (fm_draft f) (fm_store f)
  | FData d => mkForm (fm_connection f) d (fm_draft f) (fm_store f)
  | FWrites b => on_draft (toggle_writes b) f
  | FFlag x b => on_draft (fun d => with_settings (set_flag x b (sf_settings d)) d) f
  | FLimit k raw => on_draft (editLimit k raw) f
  | FBlur k => on_draft (validateLimit k) f
  | FDiscard =>
    match persisted_of f with
    | Some persisted =>
      mkForm (fm_connection f) (fm_data f) (Some (freshDraft (form_id f) persisted))
        (rememberSafetyDraft (form_id f) None (fm_store f))
    | None => f
    end
  | FApply => match attempt_save f with sa_invalid keys => on_draft (mark_invalid keys) f | _ => f end
  | FSaved c persisted =>
    mkForm c (Some persisted) (Some (freshDraft (form_id f) persisted)) (rememberSafetyDraft (form_id f) None (fm_store f))
  | FClose => mkForm (fm_connection f) None None (fm_store f)
  end.

(** A commit: the reconciling effect runs when the connection or the stored settings changed,
    then the other one sees its result. *)
Definition form_step (f : form) (i : form_input) : form :=
  let f := form_handle i f in
  keep_edit (match i with FConnection _ | FData _ | FSaved _ _ | FClose => reconcile f | _ => f end).

Definition new_form (c : ConnectionProfile) (m : safety_drafts) : form := mkForm c None None m.
Definition form_run (c : ConnectionProfile) (m : safety_drafts) (inputs : list form_input) : form :=
  foldl form_step (new_form c m) inputs.

(** ** Typed limits *)

(** A limit written out is read back as itself. *)
Lemma parse_shown v k v' : parseLimit (show_Z v) k = Some v' -> v' = v.
Proof.
  unfold parseLimit. destruct (Z.le_gt_cases 0 v) as [Hv|Hv].
  - destruct (show_digits v Hv) as [Hd Hval]. rewrite (trim_no_space _ (digits_no_space _ Hd)), Hval.
    destruct (negb _); [done|]. destruct (_ && _); congruence.
  - destruct v as [|p|p]; [lia..|].
    assert (show_Z (Zneg p) = 45%N :: js (pretty (Npos p))) as -> by reflexivity.
    assert (forallb is_digit (js (pretty (Npos p))) = true) as Hd.
    { unfold pretty, pretty_N. destruct (decide _); [done|]. by apply pretty_digits. }
    rewrite trim_no_space; [done|]. cbn [forallb]. by rewrite (digits_no_space _ Hd).
Qed.

Lemma parseLimit_bounds raw k v : parseLimit raw k = Some v -> (limit_min k <= v <= limit_max k)%Z.
Proof. unfold parseLimit. destruct (negb _); [done|]. destruct (_ && _) eqn:E; intros [= <-]. lia. Qed.

(** ** What a draft keeps true *)

(** A limit whose text is valid has the typed value. *)
Definition typed_ok (s : SafetySettings) (n : limits jsstr) : Prop :=
  forall k v, parseLimit (limit_of k n) k = Some v -> setting_limit k s = v.
Record form_ok (f : form) : Prop := mkFormOk {
  ok_draft : forall d, fm_draft f = Some d -> typed_ok (sf_settings d) (sf_numbers d);
  ok_store : forall id d, mget (fm_store f) id = Some d -> typed_ok (dv_settings d) (dv_numbers d) }.

Lemma fresh_ok s : typed_ok s (limitText s).
Proof. intros [] v H; cbn in *; symmetry; by eapply parse_shown. Qed.

Lemma set_draft_ok f d : form_ok f -> (forall d', d = Some d' -> typed_ok (sf_settings d') (sf_numbers d')) -> form_ok (set_draft d f).
Proof. intros []. by constructor. Qed.

Lemma own_draft_some f d : own_draft f = Some d -> fm_draft f = Some d /\ sf_connectionId d = form_id f.
Proof. unfold own_draft. destruct (fm_draft f); cbn; [|done]. case_bool_decide; intros; by simplify_eq. Qed.

Lemma on_draft_ok f u :
  form_ok f -> (forall d, typed_ok (sf_settings d) (sf_numbers d) -> typed_ok (sf_settings (u d)) (sf_numbers (u d))) ->
  form_ok (on_draft u f).
Proof.
  intros Hf Hu. unfold on_draft. destruct (own_draft f) as [d|] eqn:E; [|done].
  apply own_draft_some in E as [E _]. apply set_draft_ok; [done|]. intros d' [= <-]. apply Hu. by apply Hf.
Qed.

Lemma reconcile_ok f : form_ok f -> form_ok (reconcile f).
Proof.
  intros Hf. unfold reconcile, restoreSafetyDraft. destruct (persisted_of f) as [p|]; apply set_draft_ok; try done.
  intros d [= <-]. destruct (own_draft f) as [c|] eqn:E.
  - apply own_draft_some in E as [E _]. destruct (edited _ _ _); [by apply Hf|apply fresh_ok].
  - destruct (mget _ _) as [r|] eqn:Er; [|apply fresh_ok].
    destruct (negb _); [by eapply (ok_store _ Hf)|apply fresh_ok].
Qed.

Lemma keep_edit_ok f : form_ok f -> form_ok (keep_edit f).
Proof.
  intros Hf. unfold keep_edit. destruct (own_draft f) as [d|] eqn:E; [|done].
  destruct (persisted_of f); [|done]. apply own_draft_some in E as [E _].
  constructor; cbn; [apply Hf|]. intros id v. destruct (edited _ _ _); cbn.
  - rewrite mget_set. case_decide; [intros [= <-]; by apply Hf|by apply Hf].
  - rewrite mget_del. case_decide; [done|by apply Hf].
Qed.

Lemma dropped_ok f : form_ok f -> forall i id d, mget (mdel (fm_store f) i) id = Some d -> typed_ok (dv_settings d) (dv_numbers d).
Proof. intros Hf i id d. rewrite mget_del. case_decide; [done|apply Hf]. Qed.

Lemma form_step_ok f i : form_ok f -> form_ok (form_step f i).
Proof.
  intros Hf. apply keep_edit_ok.
  assert (form_ok (form_handle i f)) as Hh.
  { destruct i; cbn [form_handle].
    - constructor; cbn; apply Hf.
    - constructor; cbn; apply Hf.
    - by apply on_draft_ok.
    - apply on_draft_ok; [done|]. intros d Hd k v Hp. rewrite <- (Hd k v Hp). by destruct x, k.
    - apply on_draft_ok; [done|]. intros d Hd k' v. unfold editLimit. cbn.
      destruct (parseLimit raw k) as [n|] eqn:E; destruct k, k'; cbn; intros Hp;
        rewrite ?E in Hp; simplify_eq; try done;
        first [exact (Hd k_maxRows _ Hp)|exact (Hd k_execPreviewRowLimit _ Hp)].
    - apply on_draft_ok; [done|]. intros d Hd k' v. unfold validateLimit.
      destruct (parseLimit (limit_of k (sf_numbers d)) k) as [n|] eqn:E; cbn; [|by apply Hd].
      destruct k, k'; cbn; intros Hp; cbn in E;
        first [exact (Hd k_maxRows _ Hp)|exact (Hd k_execPreviewRowLimit _ Hp)|
               apply parse_shown in Hp as ->; first [exact (Hd k_maxRows _ E)|exact (Hd k_execPreviewRowLimit _ E)]].
    - destruct (persisted_of f); [|done]. constructor; cbn; [intros d [= <-]; apply fresh_ok|by apply dropped_ok].
    - destruct (attempt_save f); [done| |done]. by apply on_draft_ok.
    - constructor; cbn; [intros d [= <-]; apply fresh_ok|by apply dropped_ok].
    - constructor; cbn; [done|apply Hf]. }
  destruct i; try done; by apply reconcile_ok.
Qed.

Lemma form_run_ok c inputs : form_ok (form_run c [] inputs).
Proof.
  unfold form_run. induction inputs as [|i inputs IH] using rev_ind; [by constructor|].
  rewrite foldl_snoc. by apply form_step_ok.
Qed.

(** ** Theorems *)

(** Whatever was typed, blurred, reloaded, restored or left before, what applying sends has
    every limit within its bounds, and each limit is the number typed in its field. *)
Theorem applied_limits_in_bounds c inputs r d :
  own_draft (form_run c [] inputs) = Some d -> attempt_save (form_run c [] inputs) = sa_request r ->
  forall k, (limit_min k <= setting_limit k (rq_settings r) <= limit_max k)%Z
            /\ parseLimit (limit_of k (sf_numbers d)) k = Some (setting_limit k (rq_settings r)).
Proof.
  intros Hd Ha k. pose proof (form_run_ok c inputs) as Hok.
  pose proof (own_draft_some _ _ Hd) as [Hd' _]. pose proof (ok_draft _ Hok _ Hd') as Ht.
  unfold attempt_save in Ha. rewrite Hd in Ha. destruct (persisted_of _) as [p|]; [|done].
  destruct (negb _); [done|]. destruct (invalid_limits d) as [|] eqn:Ei; [|done]. injection Ha as <-.
  assert (exists v, parseLimit (limit_of k (sf_numbers d)) k = Some v) as [v Hv].
  { destruct (parseLimit (limit_of k (sf_numbers d)) k) as [v|] eqn:E; [eauto|]. exfalso.
    assert (k ∈ invalid_limits d) as Hin.
    { apply filterb_elem. rewrite E. split; [done|]. destruct k; set_solver. }
    rewrite Ei in Hin. by apply elem_of_nil in Hin. }
  pose proof (Ht k v Hv) as Hs.
  cbn [rq_settings].
  assert (setting_limit k (requestedSafetySettings (pf_authority (fm_connection (form_run c [] inputs))) (sf_settings d)) = v)
    as -> by (by destruct k).
  split; [by eapply parseLimit_bounds|done].
Qed.

(** The form shows other connections only. *)
Definition elsewhere (id : jsstr) (i : form_input) : Prop :=
  match i with FConnection c => pf_id c <> id | FSaved c _ => pf_id c <> id | _ => True end.

Lemma set_draft_same f d : fm_store (set_draft d f) = fm_store f /\ fm_connection (set_draft d f) = fm_connection f.
Proof. done. Qed.

Lemma reconcile_same f : fm_store (reconcile f) = fm_store f /\ fm_connection (reconcile f) = fm_connection f.
Proof. unfold reconcile. by destruct (persisted_of f). Qed.

Lemma keep_edit_other id f : form_id f <> id -> mget (fm_store (keep_edit f)) id = mget (fm_store f) id.
Proof.
  intros Hn. unfold keep_edit. destruct (own_draft f), (persisted_of f); try done.
  cbn. destruct (edited _ _ _); cbn; [by rewrite mget_set_ne|]. rewrite mget_del. by case_decide.
Qed.

Lemma on_draft_same u f : fm_store (on_draft u f) = fm_store f /\ fm_connection (on_draft u f) = fm_connection f.
Proof. unfold on_draft. by destruct (own_draft f). Qed.

Lemma keep_edit_store f : exists m, keep_edit f = mkForm (fm_connection f) (fm_data f) (fm_draft f) m.
Proof.
  unfold keep_edit. destruct (own_draft f), (persisted_of f); try (by exists (fm_store f); destruct f). by eexists.
Qed.

Lemma keep_edit_same f : fm_connection (keep_edit f) = fm_connection f.
Proof. unfold keep_edit. by destruct (own_draft f), (persisted_of f). Qed.

Lemma elsewhere_step id f i :
  form_id f <> id -> elsewhere id i ->
  form_id (form_step f i) <> id /\ mget (fm_store (form_step f i)) id = mget (fm_store f) id.
Proof.
  intros Hf Hi. unfold form_step.
  assert (form_id (form_handle i f) <> id /\ mget (fm_store (form_handle i f)) id = mget (fm_store f) id) as [H1 H2].
  { destruct i; cbn [form_handle elsewhere] in *; unfold form_id in *; try done;
      try (destruct (on_draft_same (toggle_writes checked) f) as [E1 E2]; by rewrite ?E1, ?E2);
      try (match goal with |- context [on_draft ?u f] => destruct (on_draft_same u f) as [E1 E2] end; by rewrite ?E1, ?E2).
    - destruct (persisted_of f); [|done]. cbn. rewrite mget_del. by case_decide.
    - destruct (attempt_save f); try done.
      match goal with |- context [on_draft ?u f] => destruct (on_draft_same u f) as [E1 E2] end. by rewrite ?E1, ?E2.
    - split; [done|]. cbn. rewrite mget_del. by case_decide. }
  set (g := form_handle i f) in *.
  assert (forall g', (g' = g \/ g' = reconcile g) ->
    form_id (keep_edit g') <> id /\ mget (fm_store (keep_edit g')) id = mget (fm_store f) id) as H.
  { intros g' Hg. pose proof (reconcile_same g) as [R1 R2].
    assert (form_id g' <> id /\ fm_store g' = fm_store g) as [G1 G2].
    { destruct Hg as [->| ->]; [done|]. unfold form_id. by rewrite R2. }
    split; [unfold form_id; by rewrite keep_edit_same|]. by rewrite keep_edit_other, G2. }
  destruct i; apply H; auto.
Qed.

(** Opening a connection again takes the remembered edit. *)
Lemma come_back h c data v :
  pf_id c <> form_id h -> mget (fm_store h) (pf_id c) = Some v ->
  sameSafetySettings (dv_settings v) (effectiveSafetySettings (pf_authority c) data) = false ->
  own_draft (form_step (form_step h (FConnection c)) (FData (Some data)))
  = Some (mkSafetyDraft (pf_id c) (dv_settings v) (dv_numbers v) (mkLimits false false) true).
Proof.
  intros Hn Hv Hs. unfold form_step at 2. cbn [form_handle].
  assert (keep_edit (reconcile (mkForm c (if bool_decide (pf_id c = form_id h) then fm_data h else None) (fm_draft h)
    (fm_store h))) = mkForm c None None (fm_store h)) as -> by (by rewrite bool_decide_eq_false_2).
  unfold form_step. cbn [form_handle fm_connection fm_draft fm_store].
  set (f := mkForm c (Some data) None (fm_store h)).
  assert (reconcile f = set_draft (Some (mkSafetyDraft (pf_id c) (dv_settings v) (dv_numbers v) (mkLimits false false) true)) f)
    as ->.
  { unfold reconcile, restoreSafetyDraft. unfold form_id. cbn. rewrite Hv. cbn. by rewrite Hs. }
  set (g := set_draft _ f). destruct (keep_edit_store g) as [m ->].
  unfold own_draft, form_id. cbn. by rewrite bool_decide_eq_true_2.
Qed.

(** An unapplied change of the settings survives leaving: after any visit to other
    connections, closing included, coming back to the connection shows the same settings
    and the same text in the limits, labelled as restored. *)
Theorem unapplied_edit_survives_leaving f i d p inputs c data :
  let g := form_step f i in
  own_draft g = Some d -> persisted_of g = Some p -> sameSafetySettings (sf_settings d) p = false ->
  Forall (elsewhere (form_id g)) inputs -> (exists c' rest, inputs = FConnection c' :: rest) ->
  pf_id c = form_id g ->
  sameSafetySettings (sf_settings d) (effectiveSafetySettings (pf_authority c) data) = false ->
  own_draft (foldl form_step g (inputs ++ [FConnection c; FData (Some data)]))
  = Some (mkSafetyDraft (form_id g) (sf_settings d) (sf_numbers d) (mkLimits false false) true).
Proof.
  cbv zeta. intros Hd Hp Hs Hi (c' & rest & ->) Hc Hs'.
  assert (mget (fm_store (form_step f i)) (form_id (form_step f i)) = Some (mkDraftValues (sf_settings d) (sf_numbers d))) as Hm.
  { revert Hd Hp. unfold form_step. set (g0 := match i with FConnection _ => _ | _ => _ end). intros Hd Hp.
    assert (own_draft (keep_edit g0) = own_draft g0 /\ persisted_of (keep_edit g0) = persisted_of g0
            /\ form_id (keep_edit g0) = form_id g0) as (E1 & E2 & E3).
    { by destruct (keep_edit_store g0) as [m ->]. }
    rewrite E1 in Hd. rewrite E2 in Hp. rewrite E3. unfold keep_edit. rewrite Hd, Hp. cbn.
    unfold edited. rewrite Hs. cbn. apply mget_set_eq. }
  set (g := form_step f i) in *. set (id := form_id g) in *.
  apply Forall_cons in Hi as [Hc' Hrest]. rewrite foldl_app. cbn [foldl].
  assert (forall l h, form_id h <> id -> Forall (elsewhere id) l ->
    form_id (foldl form_step h l) <> id /\ mget (fm_store (foldl form_step h l)) id = mget (fm_store h) id) as Hwalk.
  { induction l as [|x l IHl]; intros h Hh Hl; [done|]. apply Forall_cons in Hl as [Hx Hl]. cbn [foldl].
    destruct (elsewhere_step id h x Hh Hx) as [A B]. destruct (IHl _ A Hl) as [C D]. split; [done|congruence]. }
  assert (form_id (form_step g (FConnection c')) <> id
          /\ mget (fm_store (form_step g (FConnection c'))) id = mget (fm_store g) id) as [H1 H2].
  { unfold form_step. cbn [form_handle]. set (h := mkForm _ _ _ _). destruct (reconcile_same h) as [R1 R2].
    assert (form_id (reconcile h) <> id) as Hh by (unfold form_id; by rewrite R2).
    split; [unfold form_id; by rewrite keep_edit_same, R2|]. by rewrite keep_edit_other, R1. }
  destruct (Hwalk rest _ H1 Hrest) as [H3 H4]. set (h := foldl form_step (form_step g _) rest) in *.
  rewrite H2, Hm in H4. 
  unfold id in *. rewrite <- Hc in H3, H4 |- *. apply not_eq_sym in H3. exact (come_back _ _ _ _ H3 H4 Hs').
Qed.

(** ** A connection of a team *)

Definition other_profile : ConnectionProfile :=
  mkProfile (js "c2") (mkAuthority true cm_local wa_local (Some sqlite) None None).

Lemma applied_limits_in_bounds_witness :
  let f := form_run (demo_profile true) [] [FData (Some (demo_settings true)); FLimit k_maxRows (js " 0500 ")] in
  exists r, attempt_save f = sa_request r /\ (1 <= maxRows (rq_settings r) <= 100000)%Z.
Proof.
  cbv zeta. exists (mkRequest (mkSafety true false true true true 500 10000) false false).
  split; [vm_compute; reflexivity|].
  refine (proj1 (applied_limits_in_bounds (demo_profile true)
    [FData (Some (demo_settings true)); FLimit k_maxRows (js " 0500 ")]
    (mkRequest (mkSafety true false true true true 500 10000) false false)
    (mkSafetyDraft (js "c1") (mkSafety true false true true true 500 10000) (mkLimits (js " 0500 ") (js "10000"))
       (mkLimits false false) false) _ _ k_maxRows)); vm_compute; reflexivity.
Defined.

Lemma unapplied_edit_survives_leaving_witness :
  let f := form_run (demo_profile true) [] [FData (Some (demo_settings true))] in
  let g := form_step f (FWrites false) in
  own_draft (foldl form_step g [FConnection other_profile; FData (Some (demo_settings true)); FWrites false;
                                FConnection (demo_profile true); FData (Some (demo_settings true))])
  = Some (mkSafetyDraft (js "c1") (demo_settings false) (mkLimits (js "1000") (js "10000")) (mkLimits false false) true).
Proof.
  cbv zeta.
  refine (unapplied_edit_survives_leaving
    (form_run (demo_profile true) [] [FData (Some (demo_settings true))]) (FWrites false)
    (mkSafetyDraft (js "c1") (demo_settings false) (mkLimits (js "1000") (js "10000")) (mkLimits false false) false)
    (demo_settings true) [FConnection other_profile; FData (Some (demo_settings true)); FWrites false]
    (demo_profile true) (demo_settings true) _ _ _ _ _ _ _).
  - vm_compute. reflexivity.
  - vm_compute. reflexivity.
  - vm_compute. reflexivity.
  - repeat constructor; try exact I; vm_compute; discriminate.
  - exists other_profile, [FData (Some (demo_settings true)); FWrites false]. reflexivity.
  - reflexivity.
  - vm_compute. reflexivity.
Defined.

(** Another manager closes the team's ceiling while the form is open and untouched. The form
    keeps its old value as if it were an edit, and applying a change of a limit alone opens
    the ceiling again. *)
Example unedited_form_reopens_ceiling :
  let f := form_run (demo_profile true) []
             [FData (Some (demo_settings true)); FConnection (demo_profile false); FLimit k_maxRows (js "500")] in
  match attempt_save f with
  | sa_request r =>
    rq_writesChanged r = true /\
    wd_ceiling (fst (persistConnectionSafety (demo_profile false) (rq_settings r) (rq_writesChanged r)
                       (mkWorld (demo_settings true) false []))) = true
  | _ => False
  end.
Proof. vm_compute. repeat split. Qed.

(** A limit left with an invalid text is kept for the return, but only a change of the
    settings is restored. *)
Example invalid_limit_text_dropped :
  let f := form_run (demo_profile true) [] [FData (Some (demo_settings true)); FLimit k_maxRows (js "12x")] in
  let g := foldl form_step f [FConnection other_profile; FConnection (demo_profile true); FData (Some (demo_settings true))] in
  (sf_numbers <$> own_draft f) = Some (mkLimits (js "12x") (js "10000"))
  /\ is_Some (mget (fm_store f) (js "c1"))
  /\ own_draft g = Some (freshDraft (js "c1") (demo_settings true)) /\ mget (fm_store g) (js "c1") = None.
Proof. vm_compute. repeat split. eexists. reflexivity. Qed.
