(* ===== verification/QueryRun.v ===== *)
(** * Running a query: namespace, path and first guidance

    Models [src/features/queries/resolveMode.ts] (the namespace that completion uses at the
    caret), [src/features/queries/runPath.ts] (which backend command a run starts with) and
    [src/features/query/runSignal.ts] (the guidance shown before the backend classifies).
    Message keys are strings, translation is a parameter. *)

From S2P Require Import Prelude JsString Regex SqlIdent SqlStatements Workbench SafetyPolicy.
From Stdlib Require String.
Import Stdlib.Strings.String.StringSyntax.

(** ** Masking what is not code *)

Definition blanks (n : nat) : jsstr := replicate n cSP.
Definition blank_line (c : N) : N := if (c =? cLF)%N then cLF else cSP.

(** The inside of a quoted text up to its closing quote: what is written for it and the rest. *)
Fixpoint mask_quoted (quote : N) (s : jsstr) : jsstr * jsstr :=
  match s with
  | [] => ([], [])
  | c :: s' =>
    if (c =? quote)%N then
      match s' with
      | d :: s'' =>
        if (d =? quote)%N then let (m, r) := mask_quoted quote s'' in (quote :: quote :: m, r)
        else ([quote], s')
      | [] => ([quote], s')
      end
    else let (m, r) := mask_quoted quote s' in ((if (quote =? cSQ)%N then cSP else c) :: m, r)
  end.

(** The inside of a block comment with its end. *)
Fixpoint mask_block (s : jsstr) : jsstr * jsstr :=
  match s with
  | [] => ([], [])
  | c :: s' =>
    match s' with
    | d :: s'' =>
      if (c =? cSTAR)%N && (d =? cSLASH)%N then ([cSP; cSP], s'')
      else let (m, r) := mask_block s' in (blank_line c :: m, r)
    | [] => ([blank_line c], [])
    end
  end.

(** One round of the loop on a non-empty rest: what is written, and the rest. *)
Definition mask_step (c : N) (s : jsstr) : jsstr * jsstr :=
  if (c =? cSQ)%N || (c =? cDQ)%N then let (m, r) := mask_quoted c s in (c :: m, r)
  else if (c =? cBT)%N then let (m, r) := mask_quoted cBT s in (c :: m, r)
  else if (c =? cDASH)%N && opt_is (s !! 0) (N.eqb cDASH) then
    let n := run_len (fun c => negb (c =? cLF)%N) (drop 1 s) in
    (blanks (2 + n), drop (1 + n) s)
  else if (c =? cSLASH)%N && opt_is (s !! 0) (N.eqb cSTAR) then
    let (m, r) := mask_block (drop 1 s) in (blanks 2 ++ m, r)
  else
    match (if (c =? cDOLLAR)%N then dollarTag (c :: s) 0 else None) with
    | Some tag =>
      let n := length tag in
      let rest := drop n (c :: s) in
      match indexOf rest tag 0 with
      | None => (blanks n ++ map blank_line rest, [])
      | Some stop => (blanks n ++ map blank_line (take stop rest) ++ blanks n, drop (stop + n) rest)
      end
    | None => ([c], s)
    end.

(** Every round consumes a unit, so the length of the text is fuel enough. *)
Fixpoint mask_loop (fuel : nat) (s : jsstr) : jsstr :=
  match fuel, s with
  | S fuel, c :: s => let (m, r) := mask_step c s in m ++ mask_loop fuel r
  | _, _ => []
  end.
Definition maskNonCode (sql : jsstr) : jsstr := mask_loop (length sql) sql.

(** ** The namespace at the caret *)

Definition ident_start (c : N) : bool := is_alpha c || (c =? cUS)%N.
Definition ident_part (c : N) : bool := is_word c || (c =? cDOLLAR)%N.
Definition SPACES : re := RPlus (RCls is_space).
Definition WORD_RE : re := RSeq (RCls ident_start) (RStar (RCls ident_part)).
(** A quoted identifier, its quotes doubled inside. *)
Definition QUOTED_RE (q : N) : re :=
  RSeqs [RChr q; RStar (RAlt (RCls (fun c => negb (c =? q)%N)) (RSeq (RChr q) (RChr q))); RChr q].

(** What precedes the captured name, and the name. *)
Definition SEARCH_PATH_RE : re :=
  RSeqs [RWordB; RLitI (js "set"); SPACES; ROpt (RSeq (RAlt (RLitI (js "local")) (RLitI (js "session"))) SPACES);
         RLitI (js "search_path"); RStar (RCls is_space); RAlt (RLitI (js "to")) (RChr cEQ); RStar (RCls is_space)].
Definition PG_NAME_RE : re := RAlt (QUOTED_RE cDQ) WORD_RE.
Definition USE_RE : re := RSeqs [RWordB; RLitI (js "use"); SPACES].
Definition MYSQL_NAME_RE : re := RAlt (QUOTED_RE cBT) WORD_RE.

(** The match of [before] followed by the group [name] that starts at [i]: where the group
    starts and ends. The first end of [before] that [name] can follow is the one the
    backtracking matcher takes. *)
Definition group_at (before name : re) (s : jsstr) (i : nat) : option (nat * nat) :=
  head (omap (fun k => (fun j => (k, j)) <$> match_at name s k) (ends s before i)).

(** [sql.matchAll(pattern)] for a pattern without empty matches: the last one's group. *)
Fixpoint last_group (before name : re) (s : jsstr) (fuel i : nat) (latest : option (nat * nat)) : option (nat * nat) :=
  match fuel with
  | O => latest
  | S fuel =>
    match group_at before name s i with
    | Some (k, j) => last_group before name s fuel j (Some (k, j))
    | None => last_group before name s fuel (S i) latest
    end
  end.

(** [.replace(/qq/g, "q")] *)
Fixpoint halve (q : N) (s : jsstr) : jsstr :=
  match s with
  | c :: s' =>
    match s' with
    | d :: s'' => if (c =? q)%N && (d =? q)%N then q :: halve q s'' else c :: halve q s'
    | [] => [c]
    end
  | [] => []
  end.
Definition identifier (v : jsstr) : jsstr :=
  let inside := drop 1 (take (length v - 1) v) in
  if startsWith v [cDQ] then halve cDQ inside
  else if startsWith v [cBT] then halve cBT inside
  else v.

Definition lastMatch (sql : jsstr) (before name : re) : option jsstr :=
  match last_group before name sql (S (length sql)) 0 None with
  | Some (k, j) => Some (identifier (slice sql k j))
  | None => None
  end.

Definition resolveSqlNamespaceAtCaret (sqlBeforeCaret : jsstr) (engine : Engine) (mode : SqlResolveMode)
    (selectedNamespace : jsstr) (namespaceOptions : list jsstr) : jsstr :=
  match mode with
  | playground => selectedNamespace
  | script =>
    let sql := maskNonCode sqlBeforeCaret in
    let directive := match engine with
      | postgres => lastMatch sql SEARCH_PATH_RE PG_NAME_RE
      | mysql => lastMatch sql USE_RE MYSQL_NAME_RE
      | _ => None
      end in
    match directive with
    | Some n => if bool_decide (n ∈ namespaceOptions) then n else selectedNamespace
    | None => selectedNamespace
    end
  end.

(** ** The path of a run *)

Inductive SqlRunPath := combinedReadStream | plannedReadStream | approval.
Inductive QueryKind := q_read | q_write | q_ddl | q_privilege.
(** The fields of a proposal that this code reads. *)
Record SqlOperationProposal := mkProposal {
  pr_operationId : jsstr; pr_payloadHash : jsstr; pr_approvalRequired : bool; pr_confirmationPhrase : option jsstr;
  pr_kind : QueryKind }.

Definition any_unit : re := RCls (fun _ => true).
Definition not_lf : re := RCls (fun c => negb (c =? cLF)%N).
Definition LINE_COMMENT : re := RSeq (RLit (js "--")) (RStar not_lf).
Definition BLOCK_COMMENT : re := RSeqs [RLit (js "/*"); RLazy any_unit; RLit (js "*/")].
(** Leading blanks and comments. *)
Definition LEADING_TRIVIA : re :=
  RSeqs [RBol; RStar (RCls is_space);
         RStar (RAlt (RSeq LINE_COMMENT (RAlt (RChr cLF) REol)) (RSeq BLOCK_COMMENT (RStar (RCls is_space))))].
Definition keyword_re (ws : list jsstr) : re := RSeqs [RBol; RAny (map RLitI ws); RWordB].
Definition word_re (w : jsstr) : re := RSeqs [RWordB; RLitI w; RWordB].
(** [/\bfor\s+(?:(?:no\s+)?key\s+)?(?:update|share)\b/i] *)
Definition LOCKING_RE : re :=
  RSeqs [RWordB; RLitI (js "for"); SPACES;
         ROpt (RSeqs [ROpt (RSeq (RLitI (js "no")) SPACES); RLitI (js "key"); SPACES]);
         RAlt (RLitI (js "update")) (RLitI (js "share")); RWordB].

Definition collapse_spaces (s : jsstr) : jsstr := trim (replace_all SPACES [cSP] s).

Definition combinedReadCandidate (sql : jsstr) : bool :=
  let rest := match match_at LEADING_TRIVIA sql 0 with Some j => drop j sql | None => sql end in
  let compact := collapse_spaces rest in
  test (keyword_re [js "select"]) compact && negb (test (word_re (js "into")) compact)
  && negb (test LOCKING_RE compact).

Definition initialSqlRunPath (autoRunReads : bool) (sql : jsstr) : SqlRunPath :=
  if autoRunReads && combinedReadCandidate sql then combinedReadStream else plannedReadStream.

Definition proposalSqlRunPath (p : SqlOperationProposal) : SqlRunPath :=
  if pr_approvalRequired p || match pr_kind p with q_read => false | _ => true end then approval else plannedReadStream.

Definition canFallbackFromCombinedRead (errorKind : option jsstr) : bool :=
  bool_decide (errorKind = Some (js "proposalRequired")).

(** The call of [approve], if any, and the result. *)
Definition approveManualOperationIfRequired (p : SqlOperationProposal) : option (jsstr * jsstr * option jsstr) * bool :=
  if negb (pr_approvalRequired p) then (None, false)
  else (Some (pr_operationId p, pr_payloadHash p, pr_confirmationPhrase p), true).

(** ** Guidance before a run *)

Inductive tone := t_muted | t_warning | t_danger.
Inductive signal_icon := i_alert | i_info.
Record RunSignalMessage := mkMessage { ms_key : jsstr; ms_count : option Z }.
Record RunSignalAnalysis := mkSignal {
  sg_tone : tone; sg_icon : option signal_icon; sg_text : RunSignalMessage; sg_title : option RunSignalMessage }.

Definition compactSql (sql : jsstr) : jsstr :=
  collapse_spaces (replace_all LINE_COMMENT [cSP] (replace_all BLOCK_COMMENT [cSP] sql)).

(** [.] of a regex without the [s] flag *)
Definition not_line_end : re :=
  RCls (fun c => negb ((c =? 10)%N || (c =? 13)%N || (c =? 8232)%N || (c =? 8233)%N)).
(** [/^select\b.*\binto\b/i] *)
Definition SELECT_INTO_RE : re :=
  RSeqs [RBol; RLitI (js "select"); RWordB; RStar not_line_end; RWordB; RLitI (js "into"); RWordB].

Definition likelyChangesSchema (sql : jsstr) : bool :=
  let compact := compactSql sql in
  test (keyword_re [js "create"; js "alter"; js "drop"; js "truncate"; js "comment"; js "reindex"]) compact
  || test SELECT_INTO_RE compact.

Definition likelyMutates (sql : jsstr) : bool :=
  likelyChangesSchema sql
  || test (keyword_re [js "insert"; js "update"; js "delete"; js "merge"; js "replace"; js "grant"; js "revoke";
                       js "vacuum"; js "analyze"; js "call"; js "execute"]) (compactSql sql).

Definition likelyRead (sql : jsstr) : bool :=
  let compact := compactSql sql in
  test (keyword_re [js "select"; js "with"; js "values"; js "table"; js "show"; js "describe"; js "desc"; js "explain"]) compact
  || (test (keyword_re [js "pragma"]) compact && negb (includes compact (js "="))).

Definition changesSessionContext (sql : jsstr) : bool := test (keyword_re [js "use"; js "set"]) (compactSql sql).

Definition lacksWhereOnBulkMutation (sql : jsstr) : bool :=
  let compact := compactSql sql in
  test (keyword_re [js "update"; js "delete"]) compact && negb (test (word_re (js "where")) compact).

(** [/\b(cross\s+join|generate_series)\b/i] *)
Definition HEAVY_RE : re :=
  RSeqs [RWordB; RAlt (RSeqs [RLitI (js "cross"); SPACES; RLitI (js "join")]) (RLitI (js "generate_series")); RWordB].
Definition likelyHeavyRead (sql : jsstr) : bool :=
  let compact := compactSql sql in likelyRead compact && test HEAVY_RE compact.

(** [/\blimit\s+\d+\b/i] *)
Definition LIMIT_RE : re := RSeqs [RWordB; RLitI (js "limit"); SPACES; RPlus (RCls is_digit); RWordB].
Definition likelyUnboundedRead (sql : jsstr) : bool :=
  let compact := compactSql sql in likelyRead compact && negb (test LIMIT_RE compact).

(** The privilege statements of [analyzeRunSignal]. *)
Definition changes_privileges (sql : jsstr) : bool :=
  let compact := compactSql sql in
  test (keyword_re [js "grant"; js "revoke"; js "deny"]) compact
  || test (RSeqs [RBol; RAlt (RLitI (js "create")) (RLitI (js "alter")); SPACES;
                  RAny (map RLitI [js "role"; js "user"; js "policy"]); RWordB]) compact.
(** [/^explain\s+analyze\b/i] *)
Definition EXPLAIN_ANALYZE_RE : re :=
  RSeqs [RBol; RLitI (js "explain"); SPACES; RLitI (js "analyze"); RWordB].

Definition msg (k : jsstr) : RunSignalMessage := mkMessage k None.
Definition count_msg (k : jsstr) (n : Z) : RunSignalMessage := mkMessage k (Some n).
Definition alert (t : tone) (text : jsstr) (title : option jsstr) : RunSignalAnalysis :=
  mkSignal t (Some i_alert) (msg text) (msg <$> title).

(** The part for a script of several statements. *)
Definition script_signal (statements : list jsstr) (safety : SafetySettings) : RunSignalAnalysis :=
  let writes := existsb likelyMutates statements in
  let changesSchema := existsb likelyChangesSchema statements in
  let n := Z.of_nat (length statements) in
  if changesSchema && negb (allowSchemaChanges safety) then
    alert t_danger (js "sql.signalSchemaDisabled") (Some (js "sql.schemaDisabledScript"))
  else if writes && negb (allowWrites safety) then
    alert t_danger (js "sql.signalWritesDisabled") (Some (js "sql.writesDisabledScript"))
  else if (12 <=? n)%Z then
    mkSignal t_warning (Some i_alert) (count_msg (js "sql.signalLargeScript") n) (Some (msg (js "sql.scriptNote")))
  else if writes then alert t_warning (js "sql.signalWriteScript") (Some (js "sql.scriptNote"))
  else mkSignal t_muted (Some i_info) (count_msg (js "sql.signalReadScript") n) None.

(** The part for one statement. *)
Definition statement_signal (statement : jsstr) (safety : SafetySettings) : option RunSignalAnalysis :=
  if lacksWhereOnBulkMutation statement then Some (alert t_warning (js "sql.signalNoWhere") None)
  else if test EXPLAIN_ANALYZE_RE (compactSql statement) then Some (alert t_warning (js "sql.signalExplainAnalyze") None)
  else if likelyMutates statement then
    if likelyChangesSchema statement && negb (allowSchemaChanges safety)
    then Some (alert t_danger (js "sql.signalSchemaDisabled") None)
    else if negb (allowWrites safety) then Some (alert t_danger (js "sql.signalWritesDisabled") None)
    else Some (alert t_warning (js "sql.signalWriteStatement") None)
  else if likelyHeavyRead statement then Some (alert t_warning (js "sql.signalHeavyRead") None)
  else if likelyUnboundedRead statement
  then Some (mkSignal t_muted (Some i_info) (count_msg (js "sql.signalReadCap") (maxRows safety)) None)
  else None.

Definition effective_statements (sql : jsstr) (statements : list jsstr) : list jsstr :=
  match statements with [] => [sql] | _ => statements end.

Definition analyzeRunSignal (sql : jsstr) (statements : list jsstr) (safety : SafetySettings) : option RunSignalAnalysis :=
  if negb (non_empty (trim sql)) then None
  else
    let sts := effective_statements sql statements in
    if existsb changes_privileges sts then
      Some (alert t_danger (js "sql.signalPrivilegeBlocked") (Some (js "sql.policyBlock.message")))
    else if existsb changesSessionContext sts then
      Some (alert t_danger (js "sql.signalSessionStatement") (Some (js "sql.signalSessionStatementTitle")))
    else match sts with
    | _ :: _ :: _ => Some (script_signal sts safety)
    | _ => statement_signal (default sql (head sts)) safety
    end.

Record RunSignal := mkRunSignal {
  rs_tone : tone; rs_icon : option signal_icon; rs_text : jsstr; rs_title : option jsstr }.
Definition localizeRunSignal (t : jsstr -> option Z -> jsstr) (a : option RunSignalAnalysis) : option RunSignal :=
  (fun a => mkRunSignal (sg_tone a) (sg_icon a) (t (ms_key (sg_text a)) (ms_count (sg_text a)))
              ((fun m => t (ms_key m) (ms_count m)) <$> sg_title a)) <$> a.

(** ** Theorems *)

Definition masked_as (c m : N) : Prop := m = c \/ m = cSP.

Lemma masked_refl c : masked_as c c.
Proof. by left. Qed.
Lemma masked_blank c : masked_as c cSP.
Proof. by right. Qed.
#[export] Hint Resolve masked_refl masked_blank : dope.

Lemma masked_line c : masked_as c (blank_line c).
Proof. unfold blank_line. destruct (N.eqb_spec c cLF) as [->|]; auto with dope. Qed.

Lemma masked_lines s : Forall2 masked_as s (map blank_line s).
Proof. induction s; cbn; constructor; auto using masked_line. Qed.

Lemma masked_blanks s : Forall2 masked_as s (blanks (length s)).
Proof. induction s; cbn; constructor; auto with dope. Qed.

(** A round that writes [m] for what it consumed of [s] and leaves [r]. *)
Definition masks (s m r : jsstr) : Prop := exists k, s = k ++ r /\ Forall2 masked_as k m.

Lemma masks_cons c d s m r : masked_as c d -> masks s m r -> masks (c :: s) (d :: m) r.
Proof. intros Hc (k & -> & Hk). exists (c :: k). split; [done|]. by constructor. Qed.

Lemma mask_quoted_masks q s : masks s (mask_quoted q s).1 (mask_quoted q s).2.
Proof.
  enough (forall n s, length s <= n -> masks s (mask_quoted q s).1 (mask_quoted q s).2) as H by (by apply (H (length s))).
  clear s. induction n as [|n IH]; intros s Hn; (destruct s as [|c s]; [by exists []; split|]); [cbn in Hn; lia|].
  cbn [length] in Hn. cbn [mask_quoted]. destruct (N.eqb_spec c q) as [->|Hq].
  - destruct s as [|d s]; [exists [q]; split; [done|]; constructor; [auto with dope|constructor]|].
    destruct (N.eqb_spec d q) as [->|].
    + specialize (IH s ltac:(cbn in Hn; lia)). destruct (mask_quoted q s) as [m r]. cbn in *.
      by apply masks_cons, masks_cons; auto with dope.
    + exists [q]. split; [done|]. constructor; [auto with dope|constructor].
  - specialize (IH s ltac:(lia)). destruct (mask_quoted q s) as [m r]. cbn in *.
    apply masks_cons; [destruct (q =? cSQ)%N; auto with dope|done].
Qed.

Lemma mask_block_masks s : masks s (mask_block s).1 (mask_block s).2.
Proof.
  induction s as [|c s IH]; cbn [mask_block]; [by exists []; split|].
  destruct s as [|d s]; [exists [c]; split; [done|]; constructor; [apply masked_line|constructor]|].
  destruct ((c =? cSTAR)%N && (d =? cSLASH)%N).
  - exists [c; d]. split; [done|]. constructor; [|constructor; [|constructor]]; auto with dope.
  - destruct (mask_block (d :: s)) as [m r]. cbn in *. apply masks_cons; [apply masked_line|done].
Qed.

(** One round never reads past the text, and consumes at least the unit it starts with. *)
Lemma mask_step_masks c s : exists k, c :: s = k ++ (mask_step c s).2
  /\ Forall2 masked_as k (mask_step c s).1 /\ length (mask_step c s).2 <= length s.
Proof.
  assert (forall m r, masks s m r -> exists k, c :: s = k ++ r /\ Forall2 masked_as k (c :: m) /\ length r <= length s) as Hkeep.
  { intros m r (k & -> & Hk). exists (c :: k). split; [done|]. split; [constructor; auto with dope|]. rewrite length_app. lia. }
  unfold mask_step. destruct (_ || _).
  { pose proof (mask_quoted_masks c s) as H. destruct (mask_quoted c s). by apply Hkeep. }
  destruct (c =? cBT)%N.
  { pose proof (mask_quoted_masks cBT s) as H. destruct (mask_quoted cBT s). by apply Hkeep. }
  destruct ((c =? cDASH)%N && opt_is (s !! 0) (N.eqb cDASH)) eqn:Ed.
  { cbn [fst snd]. pose proof (run_len_le (fun c => negb (c =? cLF)%N) (drop 1 s)) as Hn.
    set (n := run_len _ _) in *. rewrite length_drop in Hn.
    assert (1 <= length s)%nat by (apply andb_true_iff in Ed as [_ Ed]; destruct s; [done|cbn; lia]).
    exists (take (2 + n) (c :: s)). split; [by rewrite <- (take_drop (1 + n) s) at 1|].
    split; [|rewrite length_drop; lia].
    replace (2 + n)%nat with (length (take (2 + n) (c :: s))) at 2 by (rewrite length_take; cbn [length]; lia).
    apply masked_blanks. }
  destruct ((c =? cSLASH)%N && opt_is (s !! 0) (N.eqb cSTAR)) eqn:Eb.
  { apply andb_true_iff in Eb as [_ Eb]. destruct s as [|d s]; [done|]. cbn [drop]. rewrite drop_0.
    pose proof (mask_block_masks s) as (k & Hk & Hm). destruct (mask_block s) as [m r]. cbn in *.
    exists (c :: d :: k). split; [by rewrite Hk|]. split; [|rewrite Hk, length_app; lia].
    constructor; [apply masked_blank|]. constructor; [apply masked_blank|done]. }
  destruct (if (c =? cDOLLAR)%N then dollarTag (c :: s) 0 else None) as [tag|] eqn:Et.
  2:{ exists [c]. split; [done|]. split; [constructor; [auto with dope|constructor]|cbn; lia]. }
  destruct (c =? cDOLLAR)%N; [|done]. pose proof (dollarTag_length _ _ _ Et) as [Hl1 Hl2].
  set (n := length tag) in *. set (rest := drop n (c :: s)).
  assert (c :: s = take n (c :: s) ++ rest) as Hs by (unfold rest; by rewrite take_drop).
  assert (length rest + n = length (c :: s))%nat as Hrest by (unfold rest; rewrite length_drop; cbn [length] in *; lia).
  assert (Forall2 masked_as (take n (c :: s)) (blanks n)) as Htag.
  { replace n with (length (take n (c :: s))) at 2 by (rewrite length_take; cbn [length] in *; lia). apply masked_blanks. }
  destruct (indexOf rest tag 0) as [stop|] eqn:Ei; cbn [fst snd].
  - assert (stop + n <= length rest)%nat as Hstop by (apply indexOf_spec in Ei; lia).
    exists (take n (c :: s) ++ take (stop + n) rest). split; [by rewrite <- app_assoc, take_drop|].
    split; [|rewrite length_drop; cbn [length] in *; lia].
    apply Forall2_app; [done|]. rewrite <- (take_drop stop (take (stop + n) rest)).
    rewrite take_take, Nat.min_l by lia. apply Forall2_app; [apply masked_lines|].
    replace n with (length (drop stop (take (stop + n) rest))) at 2 by (rewrite length_drop, length_take; lia).
    apply masked_blanks.
  - exists (c :: s). split; [by rewrite app_nil_r|]. split; [|cbn; lia].
    rewrite Hs at 1. apply Forall2_app; [done|apply masked_lines].
Qed.

(** Masking ends, keeps every position, and writes at each one the unit of the text or a
    blank; so a directive found in the masked text stands where the text has it. *)
Theorem mask_keeps_positions sql :
  length (maskNonCode sql) = length sql /\ Forall2 masked_as sql (maskNonCode sql).
Proof.
  assert (forall fuel s, length s <= fuel -> Forall2 masked_as s (mask_loop fuel s)) as H.
  { induction fuel as [|fuel IH]; intros s Hs; (destruct s as [|c s]; [constructor|]); [cbn in Hs; lia|].
    cbn [length] in Hs. cbn [mask_loop]. destruct (mask_step_masks c s) as (k & Hk & Hm & Hl).
    destruct (mask_step c s) as [m r]. cbn [fst snd] in *. rewrite Hk. apply Forall2_app; [done|]. apply IH. lia. }
  specialize (H (length sql) sql (le_n _)). split; [symmetry; by eapply Forall2_length|done].
Qed.

(** The namespace at the caret is the selected one or one of the offered ones, and in
    playground mode always the selected one. *)
Theorem namespace_is_offered sql engine mode selected options :
  let n := resolveSqlNamespaceAtCaret sql engine mode selected options in
  (n = selected \/ n ∈ options) /\ (mode = playground -> n = selected).
Proof.
  cbv zeta. unfold resolveSqlNamespaceAtCaret. destruct mode; [auto|]. split; [|done].
  destruct engine; cbn; auto; destruct (lastMatch _ _ _); auto; case_bool_decide; auto.
Qed.

(** Guidance is never quiet about a write: when nothing or a muted note is shown for a
    non-empty text, no statement looks like one that changes data, schema, privileges or the
    session. *)
Theorem quiet_signal_means_no_write sql statements safety st :
  non_empty (trim sql) = true ->
  match analyzeRunSignal sql statements safety with None => True | Some a => sg_tone a = t_muted end ->
  st ∈ effective_statements sql statements ->
  likelyMutates st = false /\ changes_privileges st = false /\ changesSessionContext st = false.
Proof.
  intros Hs Hq Hin. unfold analyzeRunSignal in Hq. rewrite Hs in Hq. cbn [negb] in Hq.
  set (sts := effective_statements sql statements) in *.
  destruct (existsb changes_privileges sts) eqn:Ep; [done|].
  destruct (existsb changesSessionContext sts) eqn:Ec; [done|].
  rewrite existsb_none in Ep. rewrite existsb_none in Ec.
  split; [|by split; [apply Ep|apply Ec]].
  assert (existsb likelyMutates sts = false) as Hm; [|by rewrite existsb_none in Hm; apply Hm].
  destruct sts as [|s1 [|s2 rest]].
  - by apply elem_of_nil in Hin.
  - cbn [head default from_option] in Hq. cbn [existsb]. rewrite orb_false_r. change (id s1) with s1 in Hq.
    unfold statement_signal in Hq.
    destruct (lacksWhereOnBulkMutation s1); [done|]. destruct (test EXPLAIN_ANALYZE_RE _); [done|].
    destruct (likelyMutates s1); [|done]. destruct (_ && _); [done|]. by destruct (negb _).
  - unfold script_signal in Hq. destruct (existsb likelyMutates _); [|done]. exfalso.
    destruct (_ && _); [done|]. destruct (_ && _); [done|]. by destruct (12 <=? _)%Z.
Qed.

Definition read_only : SafetySettings := mkSafety false false true true true 1000 10000.

Lemma quiet_signal_means_no_write_witness :
  likelyMutates (js "select 1 -- drop table x") = false
  /\ changes_privileges (js "select 1 -- drop table x") = false
  /\ changesSessionContext (js "select 1 -- drop table x") = false.
Proof.
  apply (quiet_signal_means_no_write (js "select 1 -- drop table x") [] read_only).
  - reflexivity.
  - vm_compute. reflexivity.
  - left.
Defined.

(** In MySQL a double-quoted text is a string, but its inside is kept for PostgreSQL's quoted
    names, so a [USE] inside such a string is taken for a directive. *)
Example use_inside_a_string :
  resolveSqlNamespaceAtCaret (js "select " ++ [cDQ] ++ js "please use archive" ++ [cDQ] ++ js " from t") mysql script (js "shop") [js "shop"; js "archive"]
  = js "archive".
Proof. vm_compute. reflexivity. Qed.
