(* ===== verification/Connections.v ===== *)
(** * Connection profiles

    Models [src/features/connections/domain.ts], [presets.ts], [options.ts],
    [bigQueryOnboardingModel.ts], [connectionSummary.ts] and the guard of
    [useDeleteConnection.ts]: the profile of a connection, its defaults and names, who may
    bind or recover its credentials, and the option values the editor accepts. A record of
    strings ([extraParams]) is the list of its own entries; [toLowerCase] is a parameter. *)

From S2P Require Import Prelude JsString JsText JsMap SqlIdent JsValue JsSort Environment NeonBranches.
From S2P Require Import SafetyPolicy.
From Stdlib Require String.
Import Stdlib.Strings.String.StringSyntax.

(** ** Profiles *)

Record ConnectionProviderTarget := mkTarget {
  pt_projectId : jsstr; pt_branchId : jsstr; pt_branchName : option jsstr;
  pt_currentState : option NeonBranchState; pt_pendingState : option NeonBranchState;
  pt_default : option bool; pt_protected : option bool }.

Record ConnectionProfile := mkProfile {
  cp_id : jsstr; cp_name : jsstr; cp_engine : Engine; cp_provider : ConnectionProvider;
  cp_driverId : option jsstr; cp_host : jsstr; cp_port : Z; cp_database : jsstr; cp_username : jsstr;
  cp_sslmode : jsstr; cp_extraParams : list (jsstr * jsstr); cp_readonlyDefault : bool;
  cp_allowWrites : bool; cp_schemaAccessAvailable : option bool; cp_secretRef : option jsstr;
  cp_env : option EnvironmentKind; cp_effectiveEnv : option EnvironmentKind;
  cp_schemaGroup : option jsstr; cp_workspaceAccess : WorkspaceConnectionAccess;
  cp_credentialMode : WorkspaceCredentialMode; cp_providerTarget : option ConnectionProviderTarget }.

#[export] Instance ConnectionProviderTarget_eq_dec : EqDecision ConnectionProviderTarget.
Proof. solve_decision. Defined.
#[export] Instance ConnectionProfile_eq_dec : EqDecision ConnectionProfile.
Proof. solve_decision. Defined.

(** [object[key] = value] on a plain object: the assignment to ["__proto__"] of a string
    does nothing. *)
Definition oset {V} (o : list (jsstr * V)) (k : jsstr) (v : V) : list (jsstr * V) :=
  if k ==s js "__proto__" then o else mset o k v.
(** [{ ...a, ...b }] *)
Definition merge {V} (a b : list (jsstr * V)) : list (jsstr * V) := foldl (fun m e => mset m e.1 e.2) a b.
(** [o\[key\] ?? d] and [o\[key\] === v] of a name no object inherits. *)
Definition param (p : list (jsstr * jsstr)) (k : jsstr) : jsstr := default [] (mget p k).
Definition param_is (p : list (jsstr * jsstr)) (k v : jsstr) : bool := bool_decide (mget p k = Some v).

(** ** Drivers *)

Inductive DriverInstallMode := dm_bundled | dm_managed | dm_system.
Inductive DriverInstallState := drv_installed | drv_available | drv_planned.
Inductive DriverCapability :=
| dc_sql | dc_documentQuery | dc_transactions | dc_introspection | dc_collections | dc_schemaDiff | dc_monitoring.
Record DriverDescriptor := mkDriver {
  dd_id : jsstr; dd_name : jsstr; dd_engine : Engine; dd_version : jsstr; dd_installMode : DriverInstallMode;
  dd_installState : DriverInstallState; dd_supportedProviders : list ConnectionProvider;
  dd_capabilities : list DriverCapability; dd_recommended : bool }.
#[export] Instance DriverInstallState_eq_dec : EqDecision DriverInstallState.
Proof. solve_decision. Defined.

(** ** Names and endpoints *)

Definition engine_name (e : Engine) : jsstr :=
  match e with
  | postgres => js "postgres" | mysql => js "mysql" | sqlite => js "sqlite"
  | mongodb => js "mongodb" | bigquery => js "bigquery" end.

Definition databaseEngineLabel (e : Engine) : jsstr :=
  match e with
  | postgres => js "PostgreSQL" | mysql => js "MySQL" | sqlite => js "SQLite"
  | mongodb => js "MongoDB" | bigquery => js "BigQuery" end.

Definition path_separator (c : N) : bool := (c =? cBS)%N || (c =? cSLASH)%N.

Definition databaseDisplayLabel (e : Engine) (database : jsstr) : jsstr :=
  let value := trim database in
  if negb (bool_decide (e = sqlite)) || negb (non_empty value) then value
  else default value (last (filterb non_empty (split_on path_separator value))).

Definition CONNECTION_DEFAULT_PORTS (e : Engine) : Z :=
  match e with postgres => 5432 | mysql => 3306 | sqlite => 0 | mongodb => 27017 | bigquery => 443 end.

Definition connectionDefaultSslMode (e : Engine) : jsstr :=
  match e with
  | mysql => js "preferred" | sqlite => js "disable" | bigquery => js "require" | _ => js "prefer" end.

Definition is_d1 (p : ConnectionProfile) : bool :=
  bool_decide (cp_engine p = sqlite) && bool_decide (cp_provider p = p_cloudflareD1).

Definition defaultConnectionName (p : ConnectionProfile) : jsstr :=
  if negb (bool_decide (cp_workspaceAccess p = wa_local)) then []
  else if bool_decide (cp_engine p = sqlite) then
    if bool_decide (cp_provider p = p_cloudflareD1) then []
    else default [] (last (split_on path_separator (trim (cp_database p))))
  else if bool_decide (cp_engine p = bigquery) then []
  else
    let host := trim (cp_host p) in
    if negb (non_empty host) then []
    else
      let singleHost := negb (includes host (js ",")) && negb (param_is (cp_extraParams p) (js "srv") (js "true")) in
      databaseEngineLabel (cp_engine p) ++ js " " ++ host
      ++ (if singleHost then js ":" ++ show_Z (cp_port p) else []).

Definition connectionEndpoint (c : ConnectionProfile) : jsstr :=
  if bool_decide (cp_engine c = sqlite) then
    let label := databaseDisplayLabel (cp_engine c)
                   (if non_empty (cp_database c) then cp_database c else cp_host c) in
    if non_empty label then label else js "sqlite"
  else cp_host c ++ (if (cp_port c =? 0)%Z then [] else js ":" ++ show_Z (cp_port c)).

Definition connectionSummary (c : ConnectionProfile) : jsstr :=
  let branch := match cp_providerTarget c with
                | Some t => Some (default (pt_branchId t) (pt_branchName t)) | None => None end in
  let parts := filterb non_empty
    [engine_name (cp_engine c); default [] branch; connectionEndpoint c;
     databaseDisplayLabel (cp_engine c) (cp_database c)] in
  JsString.join (js " " ++ [183%N] ++ js " ") (sof parts).

(** ** Presets *)

Record ConnectionLaunchPreset := mkPreset {
  ps_engine : option Engine; ps_provider : option ConnectionProvider; ps_schemaAdmin : bool;
  ps_host : option jsstr; ps_port : option Z; ps_database : option jsstr; ps_name : option jsstr;
  ps_sslmode : option jsstr }.

(** [uuid] is [crypto.randomUUID()]. *)
Definition blankConnection (uuid : jsstr) (preset : option ConnectionLaunchPreset) : ConnectionProfile :=
  let given {A} (f : ConnectionLaunchPreset -> option A) : option A := match preset with Some s => f s | None => None end in
  let engine := default postgres (given ps_engine) in
  let provider := default p_auto (given ps_provider) in
  let bq := bool_decide (engine = bigquery) in
  let d1 := bool_decide (engine = sqlite) && bool_decide (provider = p_cloudflareD1) in
  {| cp_id := uuid; cp_name := default [] (given ps_name); cp_engine := engine;
     cp_provider := if bq then p_generic else provider;
     cp_driverId := if d1 then Some (js "cloudflare-d1-wrangler") else None;
     cp_host := default (if bq || d1 then [] else js "localhost") (given ps_host);
     cp_port := default (if d1 then 443 else CONNECTION_DEFAULT_PORTS engine)%Z (given ps_port);
     cp_database := default [] (given ps_database); cp_username := [];
     cp_sslmode := default (if d1 then js "require" else connectionDefaultSslMode engine) (given ps_sslmode);
     cp_extraParams := if bq then [(js "maximumBytesBilled", js "1073741824")] else [];
     cp_readonlyDefault := true; cp_allowWrites := false; cp_schemaAccessAvailable := None;
     cp_secretRef := None; cp_env := None; cp_effectiveEnv := None; cp_schemaGroup := None;
     cp_workspaceAccess := wa_local; cp_credentialMode := cm_local; cp_providerTarget := None |}.

Definition DEMO_SQLITE_PATH_SUFFIX : jsstr := js "/demos/dopedb-demo-v1.sqlite".

Definition demoSqliteConnection (uuid path : jsstr) : ConnectionProfile :=
  let b := blankConnection uuid (Some (mkPreset (Some sqlite) (Some p_generic) false None None None None None)) in
  {| cp_id := cp_id b; cp_name := js "Demo SQLite"; cp_engine := cp_engine b; cp_provider := cp_provider b;
     cp_driverId := Some (js "sqlx-sqlite"); cp_host := cp_host b; cp_port := cp_port b; cp_database := path;
     cp_username := cp_username b; cp_sslmode := cp_sslmode b; cp_extraParams := cp_extraParams b;
     cp_readonlyDefault := cp_readonlyDefault b; cp_allowWrites := cp_allowWrites b;
     cp_schemaAccessAvailable := cp_schemaAccessAvailable b; cp_secretRef := cp_secretRef b;
     cp_env := Some Environment.development; cp_effectiveEnv := Some Environment.development;
     cp_schemaGroup := cp_schemaGroup b; cp_workspaceAccess := cp_workspaceAccess b;
     cp_credentialMode := cp_credentialMode b; cp_providerTarget := cp_providerTarget b |}.

Definition isDemoSqliteConnection (p : ConnectionProfile) : bool :=
  bool_decide (cp_engine p = sqlite)
  && endsWith (replace_units (N.eqb cBS) (js "/") (cp_database p)) DEMO_SQLITE_PATH_SUFFIX.

Definition findDemoSqliteConnection (cs : list ConnectionProfile) (path : jsstr) : option ConnectionProfile :=
  findb (fun c => bool_decide (cp_engine c = sqlite) && (cp_database c ==s path)) cs.

Definition localSchemaConnectionPreset (c : ConnectionProfile) (name : jsstr) : ConnectionLaunchPreset :=
  mkPreset (Some (cp_engine c)) (Some p_generic) true (Some (cp_host c)) (Some (cp_port c))
    (Some (cp_database c)) (Some name) (Some (cp_sslmode c)).

(** ** Credentials and access *)

Definition isDeviceOnlySqlite (c : ConnectionProfile) : bool :=
  bool_decide (cp_workspaceAccess c = wa_local) && bool_decide (cp_engine c = sqlite)
  && negb (bool_decide (cp_provider c = p_cloudflareD1)).

Definition canRecoverBigQueryAuthentication (c : ConnectionProfile) : bool :=
  if negb (bool_decide (cp_engine c = bigquery)) then false
  else if bool_decide (cp_workspaceAccess c = wa_local) && bool_decide (cp_credentialMode c = cm_local) then true
  else negb (bool_decide (cp_workspaceAccess c = wa_local)) && negb (bool_decide (cp_workspaceAccess c = wa_view))
       && bool_decide (cp_credentialMode c = cm_memberLocal).

Definition usesCliAuthentication (c : ConnectionProfile) : bool :=
  bool_decide (cp_engine c = bigquery) || is_d1 c.

Definition canBindMemberCredentials (c : ConnectionProfile) : bool :=
  bool_decide (cp_credentialMode c = cm_memberLocal) && negb (bool_decide (cp_workspaceAccess c = wa_view))
  && negb (bool_decide (cp_workspaceAccess c = wa_local)) && negb (usesCliAuthentication c).

Definition provisioningNotReady (c : ConnectionProfile) : bool :=
  bool_decide (cp_credentialMode c = cm_provisioned) && negb (non_empty (cp_username c)).

Inductive ConnectionAccessIssue := ai_grant | ai_credentials | ai_provisioning.

Definition connectionAccessIssue (c : ConnectionProfile) : option ConnectionAccessIssue :=
  if bool_decide (cp_workspaceAccess c = wa_view) then Some ai_grant
  else if provisioningNotReady c then Some ai_provisioning
  else if negb (usesCliAuthentication c) && negb (bool_decide (cp_workspaceAccess c = wa_local))
          && bool_decide (cp_credentialMode c = cm_memberLocal) && bool_decide (cp_secretRef c = None)
  then Some ai_credentials
  else None.

Definition canDeleteConnection (c : ConnectionProfile) : bool :=
  bool_decide (cp_workspaceAccess c = wa_local)
  || (bool_decide (cp_workspaceAccess c = wa_manage) && negb (bool_decide (cp_credentialMode c = cm_provisioned))).

(** ** Options *)

Definition CONNECTION_INPUT_MODE_PARAMETER : jsstr := js "dopedb.connectionInputMode".
Definition CONNECTION_TIME_ZONE_PARAMETER : jsstr := js "dopedb.timeZone".
Definition CONNECTION_KEEP_ALIVE_SECONDS_PARAMETER : jsstr := js "dopedb.keepAliveSeconds".
Definition CONNECTION_AUTO_DISCONNECT_SECONDS_PARAMETER : jsstr := js "dopedb.autoDisconnectSeconds".
Definition CONNECTION_STARTUP_SCRIPT_PARAMETER : jsstr := js "dopedb.startupScript".
Definition CONNECTION_SSH_ALIAS_PARAMETER : jsstr := js "dopedb.sshAlias".
Definition CONNECTION_TRANSACTION_POOLER_PARAMETER : jsstr := js "dopedb.transactionPooler".

Definition CONNECTION_OPTION_PARAMETERS : list jsstr :=
  [CONNECTION_INPUT_MODE_PARAMETER; CONNECTION_TIME_ZONE_PARAMETER; CONNECTION_KEEP_ALIVE_SECONDS_PARAMETER;
   CONNECTION_AUTO_DISCONNECT_SECONDS_PARAMETER; CONNECTION_STARTUP_SCRIPT_PARAMETER;
   CONNECTION_SSH_ALIAS_PARAMETER].

Definition isConnectionOptionParameter (key : jsstr) : bool := bool_decide (key ∈ CONNECTION_OPTION_PARAMETERS).

Definition isConnectionOptionSupported (key : jsstr) (e : Engine) : bool :=
  if (key ==s CONNECTION_TIME_ZONE_PARAMETER) || (key ==s CONNECTION_KEEP_ALIVE_SECONDS_PARAMETER)
  then bool_decide (e = postgres) || bool_decide (e = mysql)
  else if key ==s CONNECTION_STARTUP_SCRIPT_PARAMETER then bool_decide (e = postgres) || bool_decide (e = mysql)
  else if key ==s CONNECTION_SSH_ALIAS_PARAMETER then negb (bool_decide (e = sqlite)) && negb (bool_decide (e = bigquery))
  else isConnectionOptionParameter key.

(** [s.split(".", 1)\[0\]] *)
Definition first_label (s : jsstr) : jsstr := default [] (head (split_on (N.eqb cDOT) s)).

Definition isPostgresTransactionPooler (toLowerCase : jsstr -> jsstr) (p : ConnectionProfile) : bool :=
  let host := toLowerCase (trim (cp_host p)) in
  let supavisor := (host ==s js "pooler.supabase.com") || endsWith host (js ".pooler.supabase.com") in
  let neonPooled := endsWith host (js ".neon.tech") && endsWith (first_label host) (js "-pooler") in
  (supavisor && (cp_port p =? 6543)%Z) || neonPooled
  || match mget (cp_extraParams p) CONNECTION_TRANSACTION_POOLER_PARAMETER with
     | Some v => toLowerCase (trim v) ==s js "true" | None => false end.

(** [/^[...]+$/u.test(s)] *)
Definition all_units (p : N -> bool) (s : jsstr) : bool := non_empty s && forallb p s.

Definition isSshHostAlias (value : jsstr) : bool :=
  let n := trim value in
  (0 <? length n) && (length n <=? 255) && negb (startsWith n (js "-"))
  && all_units (fun c => is_alnum c || bool_decide (c ∈ js "._-")) n.

Definition connectionOption (p : ConnectionProfile) (key : jsstr) : jsstr := param (cp_extraParams p) key.

(** [Number] skips the white space [trim] removes. *)
Definition isBoundedConnectionOptionSeconds (value : jsstr) (lo hi : Z) : bool :=
  if negb (all_digits (trim value)) then false
  else
    let seconds := Number_digits (trim value) in
    (seconds <=? MAX_SAFE_INTEGER)%Z && (lo <=? seconds)%Z && (seconds <=? hi)%Z.

Definition isConnectionTimeZone (value : jsstr) : bool :=
  let n := trim value in
  (0 <? length n) && (length n <=? 64)
  && all_units (fun c => is_alnum c || bool_decide (c ∈ js "_./:+-")) n.

(** ** BigQuery *)

Definition BIGQUERY_AUTH_MODE_PARAMETER : jsstr := js "authMode".
Inductive BigQueryAuthMode := googleAccount | serviceAccount.
#[export] Instance BigQueryAuthMode_eq_dec : EqDecision BigQueryAuthMode.
Proof. solve_decision. Defined.

Definition bigQueryAuthMode (p : ConnectionProfile) : BigQueryAuthMode :=
  if param_is (cp_extraParams p) BIGQUERY_AUTH_MODE_PARAMETER (js "serviceAccount")
  then serviceAccount else googleAccount.

(** [/^[a-z][a-z0-9-]{4,28}[a-z0-9]$/]: between 6 and 30 units. *)
Definition isValidBigQueryProjectId (s : jsstr) : bool :=
  (6 <=? length s) && (length s <=? 30) && opt_is (head s) is_lower
  && forallb (fun c => is_lower c || is_digit c || (c =? cDASH)%N) s
  && opt_is (last s) (fun c => is_lower c || is_digit c).

Definition isValidBigQueryDatasetId (s : jsstr) : bool :=
  (length s <=? 1024) && all_units is_word s.

Inductive input_mode := im_select | im_manual.
Definition bigQueryResourceInputMode (authenticated : bool) (count : nat) : input_mode :=
  if authenticated && (0 <? count) then im_select else im_manual.
