(* ===== verification/ConnectionUrl.v ===== *)
(** * Connection URLs

    Models [src/features/connections/connectionUrl.ts]: reading a pasted connection URL into
    the fields of a profile and a password, and the redacted URL of a profile. The regular
    expressions with groups are the list of their matches in the order the backtracking
    matcher tries them ([Regex.ends]); the first is the one [exec] returns. [new URL],
    [URLSearchParams], [toLowerCase] and [localeCompare] are the platform's and are
    parameters. [encodeURIComponent] throws on a lone surrogate, which is [None]. *)

From S2P Require Import Prelude JsString JsText JsMap JsSort Regex JsUri SqlIdent JsValue Environment.
From S2P Require Import SafetyPolicy Connections.
From Stdlib Require String.
Import Stdlib.Strings.String.StringSyntax.

(** ** The platform *)

(** [new URL(text)] *)
Record URL := mkURL {
  u_protocol : jsstr; u_hostname : jsstr; u_port : jsstr; u_pathname : jsstr; u_username : jsstr;
  u_password : jsstr; u_searchParams : list (jsstr * jsstr) }.

Class UrlPlatform := {
  new_URL : jsstr -> option URL;
  toLowerCase : jsstr -> jsstr;
  localeCompare : jsstr -> jsstr -> Z;
  (** [new URLSearchParams(text)] and its [toString]. *)
  form_parse : jsstr -> list (jsstr * jsstr);
  form_print : list (jsstr * jsstr) -> jsstr }.

(** ** Results *)

(** [Partial<ConnectionProfile>]: an optional field is absent when [None]. *)
Record profile_update := mkUpdate {
  up_name : jsstr; up_engine : Engine; up_provider : ConnectionProvider; up_driverId : option jsstr;
  up_host : jsstr; up_port : Z; up_database : jsstr; up_username : jsstr; up_sslmode : jsstr;
  up_extraParams : list (jsstr * jsstr); up_env : option EnvironmentKind;
  up_schemaGroup : option jsstr; up_readonlyDefault : option bool; up_allowWrites : option bool }.

Record ParsedConnectionUrl := mkParsed { pu_update : profile_update; pu_password : option jsstr }.
#[export] Instance profile_update_eq_dec : EqDecision profile_update.
Proof. solve_decision. Defined.
#[export] Instance ParsedConnectionUrl_eq_dec : EqDecision ParsedConnectionUrl.
Proof. solve_decision. Defined.

(** ** Matching with groups *)

Definition line_end (c : N) : bool := (c =? 10)%N || (c =? 13)%N || (c =? 8232)%N || (c =? 8233)%N.
(** [.], and the class of all units but those of [s]. *)
Definition RDot : re := RCls (fun c => negb (line_end c)).
Definition RNot (s : jsstr) : re := RCls (fun c => negb (bool_decide (c ∈ s))).

(** [open(body)] from [i], as the captured text and the end. *)
Definition group (s : jsstr) (open body : re) (i : nat) : list (option jsstr * nat) :=
  j ← ends s open i; k ← ends s body j; [(Some (slice s j k), k)].
(** [(?:open(body))?] *)
Definition opt_group (s : jsstr) (open body : re) (i : nat) : list (option jsstr * nat) :=
  group s open body i ++ [(None, i)].

(** ** Input *)

(** [/^(?:export\s+)?[A-Za-z_][A-Za-z0-9_]*\s*=\s*(.+)$/u], its group. *)
Definition assignment (s : jsstr) : option jsstr :=
  head (i ← ends s (RSeqs [RBol; ROpt (RSeq (RLit (js "export")) (RPlus (RCls is_space)));
                           RCls (fun c => is_alpha c || (c =? cUS)%N); RStar (RCls is_word);
                           RStar (RCls is_space); RChr cEQ; RStar (RCls is_space)]) 0;
        j ← ends s (RSeq (RPlus RDot) REol) i;
        [slice s i j]).

Definition is_quote (c : N) : bool := (c =? cSQ)%N || (c =? cDQ)%N || (c =? cBT)%N.
(** [s.replace(/^['"`]+|['"`]+$/g, "")] *)
Definition strip_quotes (s : jsstr) : jsstr :=
  let t := drop (run_len is_quote s) s in rev (drop (run_len is_quote (rev t)) (rev t)).

Definition unwrapConnectionUrlInput (raw : jsstr) : jsstr :=
  let trimmed := trim raw in strip_quotes (trim (default trimmed (assignment trimmed))).

Definition CONNECTION_META_PARAMETER_KEYS : list jsstr :=
  [js "allowwrites"; js "connectionname"; js "env"; js "environment"; js "group"; js "name"; js "readonly";
   js "schemagroup"; js "writes"].
Definition CONNECTION_SECRET_PARAMETER_KEYS : list jsstr :=
  [js "accesstoken"; js "apikey"; js "clientsecret"; js "pass"; js "passwd"; js "password"; js "privatekey";
   js "refreshtoken"; js "secret"; js "token"].

Definition decodeUrlPart (value : jsstr) : jsstr := default value (decodeURIComponent value).

Definition firstSearchParam (params : list (jsstr * jsstr)) (keys : list jsstr) : option jsstr :=
  findb non_empty (omap (mget params) keys).

(** [a || b] of optional strings. *)
Definition or_text (a b : option jsstr) : option jsstr :=
  match a with Some (c :: s) => Some (c :: s) | _ => b end.

Section url.
Context `{!UrlPlatform}.

Definition normalizedParameterKey (key : jsstr) : jsstr :=
  replace_units (fun c => (c =? cDASH)%N || (c =? cUS)%N) [] (toLowerCase (trim key)).
Definition isConnectionMetaParameter (key : jsstr) : bool :=
  bool_decide (normalizedParameterKey key ∈ CONNECTION_META_PARAMETER_KEYS).
Definition isConnectionSecretParameter (key : jsstr) : bool :=
  bool_decide (normalizedParameterKey key ∈ CONNECTION_SECRET_PARAMETER_KEYS).
Definition isConnectionUrlControlParameter (key : jsstr) : bool :=
  let normalized := normalizedParameterKey key in (normalized ==s js "ssl") || (normalized ==s js "sslmode").
Definition isInternalConnectionParameter (key : jsstr) : bool := startsWith (toLowerCase (trim key)) (js "dopedb.").

Definition parseOptionalBoolean (value : option jsstr) : option bool :=
  match value with
  | None => None
  | Some value =>
    let normalized := toLowerCase (trim value) in
    if bool_decide (normalized ∈ [js "1"; js "true"; js "yes"; js "on"]) then Some true
    else if bool_decide (normalized ∈ [js "0"; js "false"; js "no"; js "off"]) then Some false
    else None
  end.

(** The [name] and [env] a URL carries. *)
Definition parseUrlMetaParams (params : list (jsstr * jsstr)) (nameFallback : jsstr)
    : jsstr * option EnvironmentKind :=
  (default nameFallback (firstSearchParam params [js "name"; js "connectionName"; js "connection_name"]),
   parseEnvironmentKind (match firstSearchParam params [js "env"; js "environment"] with
                         | Some s => VStr s | None => VNull end)).

Definition normalizeSslMode (engine : Engine) (value : option jsstr) : option jsstr :=
  match truthy value with
  | None => None
  | Some value =>
    let normalized := replace_units (N.eqb cUS) (js "-") (toLowerCase (trim value)) in
    if bool_decide (normalized ∈ [js "1"; js "true"; js "yes"; js "on"]) then Some (js "require")
    else if bool_decide (normalized ∈ [js "0"; js "false"; js "no"; js "off"]) then
      Some (if bool_decide (engine = mysql) then js "disabled" else js "disable")
    else if bool_decide (engine = mysql) then
      if normalized ==s js "disable" then Some (js "disabled")
      else if normalized ==s js "prefer" then Some (js "preferred")
      else if normalized ==s js "require" then Some (js "required")
      else if normalized ==s js "verify-full" then Some (js "verify-identity")
      else Some normalized
    else Some normalized
  end.

(** ** MongoDB *)

Record mongo_match := mkMongo {
  mm_srv : bool; mm_user : option jsstr; mm_pass : option jsstr; mm_host : jsstr; mm_database : option jsstr;
  mm_query : option jsstr }.

(** [(?:([^:@/]+)(?::([^@/]*\))?@)?] from [i]. *)
Definition userinfo (s : jsstr) (i : nat) : list (option jsstr * option jsstr * nat) :=
  (j ← ends s (RPlus (RNot (js ":@/"))) i;
   '(p, k) ← opt_group s (RChr cCOLON) (RStar (RNot (js "@/"))) j;
   m ← ends s (RChr 64) k;
   [(Some (slice s i j), p, m)]) ++ [(None, None, i)].

(** [^mongodb(\+srv)?:// userinfo ([^/?]+)(?:/([^?]*\))?(?:\?(.*\))?$], ignoring case. *)
Definition mongo_exec (s : jsstr) : option mongo_match :=
  head (i0 ← ends s (RSeq RBol (RLitI (js "mongodb"))) 0;
        '(srv, i1) ← map (pair true) (ends s (RLitI (js "+srv")) i0) ++ [(false, i0)];
        i2 ← ends s (RLit (js "://")) i1;
        '(user, pass, i3) ← userinfo s i2;
        i4 ← ends s (RPlus (RNot (js "/?"))) i3;
        '(db, i5) ← opt_group s (RChr cSLASH) (RStar (RNot (js "?"))) i4;
        '(query, i6) ← opt_group s (RChr cQM) (RStar RDot) i5;
        _ ← ends s REol i6;
        [mkMongo srv user pass (slice s i3 i4) db query]).

(** [/^(.+?)(?::(\d+))?$/] *)
Definition host_exec (s : jsstr) : option (jsstr * option jsstr) :=
  head (j ← ends s (RSeq RDot (RLazy RDot)) 0;
        '(port, k) ← opt_group s (RChr cCOLON) (RPlus (RCls is_digit)) j;
        _ ← ends s REol k;
        [(slice s 0 j, port)]).

(** The body of [params.forEach]. *)
Definition mongo_param (extra : list (jsstr * jsstr)) (e : jsstr * jsstr) : list (jsstr * jsstr) :=
  let '(key, value) := e in
  let normalizedKey := toLowerCase key in
  if isConnectionMetaParameter key || isConnectionSecretParameter key || isInternalConnectionParameter key
  then extra
  else if (normalizedKey ==s js "ssl") || (normalizedKey ==s js "tls") then
    match parseOptionalBoolean (Some value) with
    | Some true => oset extra (js "tls") (js "true")
    | Some false => mdel extra (js "tls")
    | None => oset extra key value
    end
  else oset extra key value.

Definition mongo_hosts (hostPart : jsstr) : list jsstr :=
  filterb non_empty (map trim (split_on (N.eqb cCOMMA) hostPart)).

(** The [host] and [port] of the host part. *)
Definition mongo_endpoint (hostPart : jsstr) : jsstr * Z :=
  let hosts := mongo_hosts hostPart in
  if 1 <? length hosts then (hostPart, CONNECTION_DEFAULT_PORTS mongodb)
  else
    let single := default [] (head hosts) in
    match host_exec single with
    | None => (decodeUrlPart single, CONNECTION_DEFAULT_PORTS mongodb)
    | Some (h, p) =>
      (decodeUrlPart h, match p with Some d => Number_digits d | None => CONNECTION_DEFAULT_PORTS mongodb end)
    end.

Definition parseMongoConnectionUrl (text : jsstr) : option ParsedConnectionUrl :=
  match mongo_exec text with
  | None => None
  | Some m =>
    let database := match truthy (mm_database m) with Some d => decodeUrlPart d | None => [] end in
    let params := form_parse (default [] (mm_query m)) in
    let extra := foldl mongo_param [] params in
    let extra := if mm_srv m then oset extra (js "srv") (js "true") else extra in
    let hosts := mongo_hosts (mm_host m) in
    let '(host, port) := mongo_endpoint (mm_host m) in
    let '(name, env) := parseUrlMetaParams params (default [] (or_text (Some database) (head hosts))) in
    Some (mkParsed
      {| up_name := name; up_engine := mongodb; up_provider := p_auto; up_driverId := None; up_host := host;
         up_port := port; up_database := database;
         up_username := match mm_user m with Some u => decodeUrlPart u | None => [] end;
         up_sslmode := js "prefer"; up_extraParams := extra; up_env := env; up_schemaGroup := None;
         up_readonlyDefault := None; up_allowWrites := None |}
      (or_text (decodeUrlPart <$> mm_pass m)
        (or_text (firstSearchParam params [js "password"; js "pass"]) None)))
  end.

(** ** Cloudflare D1 *)

(** [/^\/client\/v4\/accounts\/(\[^/\]+)\/d1\/database\/(\[^/\]+)(?:\/(?:query|raw))?\/?$/u] *)
Definition d1_exec (s : jsstr) : option (jsstr * jsstr) :=
  head (i ← ends s (RSeq RBol (RLit (js "/client/v4/accounts/"))) 0;
        j ← ends s (RPlus (RNot (js "/"))) i;
        k ← ends s (RLit (js "/d1/database/")) j;
        l ← ends s (RPlus (RNot (js "/"))) k;
        _ ← ends s (RSeqs [ROpt (RSeq (RChr cSLASH) (RAlt (RLit (js "query")) (RLit (js "raw"))));
                           ROpt (RChr cSLASH); REol]) l;
        [(slice s i j, slice s k l)]).

(** [s.replace(/^\/+/, "")] *)
Definition drop_slashes (s : jsstr) : jsstr := drop (run_len (N.eqb cSLASH) s) s.

Definition d1_target (url : URL) : option (jsstr * jsstr) :=
  if u_protocol url ==s js "d1:" then
    Some (decodeUrlPart (u_hostname url), decodeUrlPart (drop_slashes (u_pathname url)))
  else if (u_protocol url ==s js "https:") && (toLowerCase (u_hostname url) ==s js "api.cloudflare.com") then
    '(a, d) ← d1_exec (u_pathname url); Some (decodeUrlPart a, decodeUrlPart d)
  else None.

Definition parseCloudflareD1Url (url : URL) : option ParsedConnectionUrl :=
  '(accountId, databaseId) ← d1_target url;
  if negb (non_empty accountId) || negb (non_empty databaseId) then None
  else
    let '(name, env) := parseUrlMetaParams (u_searchParams url) databaseId in
    Some (mkParsed
      {| up_name := name; up_engine := sqlite; up_provider := p_cloudflareD1;
         up_driverId := Some (js "cloudflare-d1-wrangler"); up_host := accountId; up_port := 443;
         up_database := databaseId; up_username := []; up_sslmode := js "require"; up_extraParams := [];
         up_env := env; up_schemaGroup := None; up_readonlyDefault := None; up_allowWrites := None |} None).

(** ** SQL engines *)

(** [/^\/\[a-z\]:\//i.test(path)] and without the leading slash. *)
Definition drive_path (s : jsstr) : bool :=
  match s with a :: b :: c :: _ => is_alpha a && (b =? cCOLON)%N && (c =? cSLASH)%N | _ => false end.

Definition sqliteDatabaseFromUrl (url : URL) : jsstr :=
  let path := decodeUrlPart (u_pathname url) in
  let normalizedPath := match path with
                        | c :: rest => if (c =? cSLASH)%N && drive_path rest then rest else path
                        | [] => path end in
  if u_protocol url ==s js "file:" then normalizedPath
  else if non_empty (u_hostname url) && negb (non_empty (u_pathname url)) then decodeUrlPart (u_hostname url)
  else if non_empty (u_hostname url) then decodeUrlPart (u_hostname url ++ u_pathname url)
  else normalizedPath.

Definition protocol_engine (protocol : jsstr) : option Engine :=
  if (protocol ==s js "postgres") || (protocol ==s js "postgresql") then Some postgres
  else if (protocol ==s js "mysql") || (protocol ==s js "mariadb") then Some mysql
  else if (protocol ==s js "sqlite") || (protocol ==s js "sqlite3") || (protocol ==s js "file") then Some sqlite
  else if protocol ==s js "bigquery" then Some bigquery
  else None.

(** [s.replace(/:$/, "")] *)
Definition drop_colon (s : jsstr) : jsstr := if endsWith s (js ":") then take (length s - 1) s else s.

(** The body of [url.searchParams.forEach]. *)
Definition url_param (extra : list (jsstr * jsstr)) (e : jsstr * jsstr) : list (jsstr * jsstr) :=
  let '(key, value) := e in
  if isConnectionMetaParameter key || isConnectionSecretParameter key
     || isConnectionUrlControlParameter key || isInternalConnectionParameter key
  then extra else oset extra key value.

Definition bigquery_key (key : jsstr) : bool := (key ==s js "location") || (key ==s js "maximumBytesBilled").

Definition url_extra (engine : Engine) (params : list (jsstr * jsstr)) : list (jsstr * jsstr) :=
  let extra := foldl url_param [] params in
  if bool_decide (engine = bigquery)
  then foldl (fun m k => if bigquery_key k then m else mdel m k) extra (mkeys extra) else extra.

Definition parseSqlUrl (url : URL) (engine : Engine) : ParsedConnectionUrl :=
  let bq := bool_decide (engine = bigquery) in
  let params := u_searchParams url in
  let extra := url_extra engine params in
  let sslmode := normalizeSslMode engine
    (firstSearchParam params [js "sslmode"; js "ssl-mode"; js "sslMode"; js "ssl"]) in
  let database := if bool_decide (engine = sqlite) then sqliteDatabaseFromUrl url
                  else decodeUrlPart (drop_slashes (u_pathname url)) in
  let '(name, env) := parseUrlMetaParams params (if non_empty database then database else u_hostname url) in
  let schemaGroup := firstSearchParam params
    [js "schemaGroup"; js "schema_group"; js "schema-group"; js "group"] in
  mkParsed
    {| up_name := name; up_engine := engine; up_provider := if bq then p_generic else p_auto;
       up_driverId := None;
       up_host := if bool_decide (engine = sqlite) then js "localhost" else decodeUrlPart (u_hostname url);
       up_port := if bq then CONNECTION_DEFAULT_PORTS bigquery
                  else if non_empty (u_port url) then Number_digits (u_port url)
                  else CONNECTION_DEFAULT_PORTS engine;
       up_database := database;
       up_username := if bq then [] else decodeUrlPart (u_username url);
       up_sslmode := if bq then js "require" else default (connectionDefaultSslMode engine) sslmode;
       up_extraParams := extra; up_env := env;
       up_schemaGroup := if bq then None else schemaGroup;
       up_readonlyDefault := if bq then Some true else None;
       up_allowWrites := if bq then Some false else None |}
    (if bq then None
     else or_text (Some (decodeUrlPart (u_password url)))
            (firstSearchParam params [js "password"; js "pass"])).

(** [text.replace(/^jdbc:/i, "")] *)
Definition strip_jdbc (s : jsstr) : jsstr :=
  match match_at (RSeq RBol (RLitI (js "jdbc:"))) s 0 with Some j => drop j s | None => s end.
(** [/^mongodb(\+srv)?:\/\//i] *)
Definition MONGO_URL : re :=
  RSeqs [RBol; RLitI (js "mongodb"); ROpt (RLitI (js "+srv")); RLit (js "://")].

Definition parseConnectionUrl (raw : jsstr) : option ParsedConnectionUrl :=
  let text := unwrapConnectionUrlInput raw in
  if negb (non_empty text) then None
  else
    let driverUrl := strip_jdbc text in
    if Regex.test MONGO_URL driverUrl then parseMongoConnectionUrl driverUrl
    else
      url ← new_URL driverUrl;
      match parseCloudflareD1Url url with
      | Some d1 => Some d1
      | None =>
        engine ← protocol_engine (toLowerCase (drop_colon (u_protocol url)));
        Some (parseSqlUrl url engine)
      end.

Definition connectionUrlNeedsDatabaseSelection (p : ParsedConnectionUrl) : bool :=
  bool_decide (up_engine (pu_update p) = mongodb) && negb (non_empty (trim (up_database (pu_update p)))).

(** ** Formatting *)

Definition slashes (s : jsstr) : jsstr := replace_units (N.eqb cBS) (js "/") s.

Definition encodedPath (value : jsstr) : option jsstr :=
  JsString.join (js "/") <$> mapM encodeURIComponent (split_on (N.eqb cSLASH) (slashes value)).

Definition urlHost (value : jsstr) : jsstr :=
  let host := trim value in
  if includes host (js ":") && negb (includes host (js ",")) && negb (startsWith host (js "["))
  then js "[" ++ host ++ js "]" else host.

Definition shown_param (e : jsstr * jsstr) : bool :=
  negb (e.1 ==s js "srv") && negb (isConnectionMetaParameter e.1) && negb (isConnectionSecretParameter e.1)
  && negb (isConnectionUrlControlParameter e.1) && negb (isInternalConnectionParameter e.1).

(** The parameters, set one by one on an empty [URLSearchParams]. *)
Definition safeConnectionParameters (p : ConnectionProfile) : list (jsstr * jsstr) :=
  let params := mof (sort_by (fun a b => localeCompare a.1 b.1) (filterb shown_param (cp_extraParams p))) in
  if bool_decide (cp_engine p = postgres) || bool_decide (cp_engine p = mysql)
  then mset params (js "sslmode") (cp_sslmode p) else params.

Definition withQuery (base : jsstr) (params : list (jsstr * jsstr)) : jsstr :=
  let query := form_print params in
  if non_empty query then base ++ js "?" ++ query else base.

(** [value.trim() ? before ++ encodeURIComponent(value.trim()) ++ after : ""] *)
Definition optional_part (before value after : jsstr) : option jsstr :=
  let v := trim value in
  if non_empty v then e ← encodeURIComponent v; Some (before ++ e ++ after) else Some [].

Definition port_part (port : Z) : jsstr := if (port =? 0)%Z then [] else js ":" ++ show_Z port.

Definition mongo_authority (srv : bool) (p : ConnectionProfile) : jsstr :=
  let host := urlHost (cp_host p) in
  if srv || includes host (js ",") then host else host ++ port_part (cp_port p).

Definition formatConnectionUrl (p : ConnectionProfile) : option jsstr :=
  let params := safeConnectionParameters p in
  if is_d1 p then
    accountId ← encodeURIComponent (trim (cp_host p));
    databaseId ← encodeURIComponent (trim (cp_database p));
    Some (js "d1://" ++ accountId ++ js "/" ++ databaseId)
  else if bool_decide (cp_engine p = sqlite) then
    let normalizedPath := slashes (cp_database p) in
    path ← encodedPath normalizedPath;
    Some (withQuery ((if startsWith normalizedPath (js "/") then js "sqlite://"
                      else if drive_path normalizedPath then js "sqlite:///" else js "sqlite:") ++ path) params)
  else
    username ← optional_part [] (cp_username p) (js "@");
    database ← optional_part (js "/") (cp_database p) [];
    match cp_engine p with
    | mongodb =>
      let srv := param_is (cp_extraParams p) (js "srv") (js "true") in
      Some (withQuery ((if srv then js "mongodb+srv" else js "mongodb") ++ js "://" ++ username
                       ++ mongo_authority srv p ++ database) params)
    | bigquery => Some (withQuery (js "bigquery://" ++ urlHost (cp_host p) ++ database) params)
    | e =>
      Some (withQuery ((if bool_decide (e = postgres) then js "postgresql" else js "mysql") ++ js "://" ++ username
                       ++ urlHost (cp_host p) ++ port_part (cp_port p) ++ database) params)
    end.

End url.
