(* ===== verification/ConnectionUrlInv.v ===== *)
(** * Connection URLs: what reading and formatting guarantee

    A formatted MongoDB URL reads back as the endpoint, the database, the user and the
    parameters it was made from, without a password; and whatever text is pasted, the profile
    fields read from it hold no secret, no naming flag, no DopeDB-internal parameter and no
    write permission. *)

From S2P Require Import Prelude JsString JsText JsMap JsSort Regex JsUri SqlIdent JsValue Environment.
From S2P Require Import SafetyPolicy Connections ConnectionUrl.
From Stdlib Require String.
Import Stdlib.Strings.String.StringSyntax.

(** ** Laws of the platform *)

Class UrlLaws `{UrlPlatform} : Prop := {
  form_print_nil : form_print [] = [];
  form_print_cons e l : form_print (e :: l) <> [];
  form_print_units l : Forall form_pair l -> forallb form_unit (form_print l) = true;
  form_roundtrip l : Forall form_pair l -> form_parse (form_print l) = l;
  form_parse_nil : form_parse [] = [];
  lower_ascii_text s : forallb (fun c => c <? 128)%N s = true -> toLowerCase s = toLowerAscii s }.

(** ** The MongoDB pattern *)

Definition scheme (srv : bool) : jsstr := js "mongodb" ++ (if srv then js "+srv" else []) ++ js "://".
Definition after (c : N) (o : option jsstr) : jsstr := match o with Some s => c :: s | None => [] end.
Definition before_at (o : option jsstr) : jsstr := match o with Some s => s ++ js "@" | None => [] end.
Definition avoids (no s : jsstr) : bool := forallb (fun c => negb (bool_decide (c ∈ no))) s.

Lemma avoids_elem no s c : avoids no s = true -> c ∈ no -> c ∉ s.
Proof. unfold avoids. rewrite forallb_elem. intros H Hn Hs. specialize (H c Hs). bools. done. Qed.

Lemma avoids_sub no no' s : no' ⊆ no -> avoids no s = true -> avoids no' s = true.
Proof.
  intros Hsub. unfold avoids. rewrite !forallb_elem. intros H c Hc. specialize (H c Hc). bools.
  apply negb_true_iff, bool_decide_eq_false. auto.
Qed.

Lemma avoids_app no a b : avoids no (a ++ b) = avoids no a && avoids no b.
Proof. apply forallb_app. Qed.

(** A group that is there, and one that is not. *)
Lemma head_group_some s i c p w b :
  pos s i (c :: w ++ b) -> forallb p w = true -> opt_is (head b) p = false ->
  head (opt_group s (RChr c) (RStar (RCls p)) i) = Some (Some w, S i + length w).
Proof.
  intros H Hw Hb. unfold opt_group. apply head_app_l. unfold group.
  pose proof (pos_cons _ _ _ _ H) as H'.
  eapply (head_bind _ _ (S i)).
  { unfold RChr. rewrite (ends_cls _ _ _ _ H). cbn. by rewrite N.eqb_refl. }
  eapply (head_bind _ _ (S i + length w)); [by apply (head_star p s (S i) w b)|].
  cbn [head]. by rewrite (pos_slice s (S i) w b).
Qed.

Lemma opt_group_none s i b c body :
  pos s i b -> head b <> Some c -> opt_group s (RChr c) body i = [(None, i)].
Proof.
  intros H Hb. unfold opt_group, group. unfold RChr. rewrite (ends_cls _ _ _ _ H).
  destruct (head b) as [d|] eqn:E; cbn; [|done]. destruct (N.eqb_spec c d); [congruence|done].
Qed.

Lemma head_opt_group s i c p o b :
  pos s i (after c o ++ b) -> (forall w, o = Some w -> forallb p w = true /\ opt_is (head b) p = false) ->
  (o = None -> head b <> Some c) ->
  head (opt_group s (RChr c) (RStar (RCls p)) i) = Some (o, i + length (after c o)).
Proof.
  intros H Hs Hn. destruct o as [w|]; cbn [after] in *.
  - destruct (Hs w eq_refl). rewrite (head_group_some s i c p w b) by done. cbn. do 2 f_equal. lia.
  - rewrite (opt_group_none s i b) by auto. cbn. do 2 f_equal. lia.
Qed.

(** Without an at sign there is no user information; with an encoded user before one, it is
    that user. *)
Lemma userinfo_none s i : 64%N ∉ s -> userinfo s i = [(None, None, i)].
Proof.
  intros H. unfold userinfo. rewrite bind_nil; [done|]. intros j _. apply bind_nil. intros [q k] _.
  by rewrite ends_chr_absent.
Qed.

Lemma userinfo_some s i u b :
  pos s i (u ++ 64%N :: b) -> u <> [] -> avoids (js ":@/") u = true ->
  head (userinfo s i) = Some (Some u, None, S (i + length u)).
Proof.
  intros H Hne Hu. unfold userinfo. apply head_app_l.
  eapply (head_bind _ _ (i + length u)); [by apply (head_plus _ s i u (64%N :: b))|].
  pose proof (pos_app _ _ _ _ H) as H1.
  eapply (head_bind _ _ (None, i + length u)).
  { rewrite (opt_group_none s _ (64%N :: b)); [done|done|]. by vm_compute. }
  eapply (head_bind _ _ (S (i + length u))).
  { unfold RChr. rewrite (ends_cls _ _ _ _ H1). done. }
  cbn [head]. by rewrite (pos_slice s i u (64%N :: b)).
Qed.

Lemma mongo_exec_shape srv u auth d q s :
  s = scheme srv ++ before_at u ++ auth ++ after cSLASH d ++ after cQM q ->
  (forall w, u = Some w -> w <> [] /\ avoids (js ":@/") w = true) ->
  auth <> [] -> avoids (js "/?@") auth = true ->
  (forall w, d = Some w -> avoids (js "?@") w = true) ->
  (forall w, q = Some w -> avoids (js "@") w = true /\ forallb (fun c => negb (line_end c)) w = true) ->
  mongo_exec s = Some (mkMongo srv u None auth d q).
Proof.
  intros Hs Hu Hne Ha Hd Hq. unfold mongo_exec.
  pose proof (pos_start s) as P0. rewrite Hs in P0 at 2. unfold scheme in P0. rewrite <- !app_assoc in P0.
  eapply (head_bind _ _ 7).
  { change (ends s (RSeq RBol (RLitI (js "mongodb"))) 0) with (ends s (RLitI (js "mongodb")) 0 ++ []).
    rewrite app_nil_r, (ends_litI _ _ _ _ _ P0) by done. done. }
  apply pos_app in P0. change (0 + length (js "mongodb")) with 7 in P0.
  set (i1 := 7 + length (if srv then js "+srv" else [])).
  eapply (head_bind _ _ (srv, i1)).
  { unfold i1. destruct srv.
    - rewrite (ends_litI _ _ _ _ _ P0) by done. done.
    - change (js "+srv") with (43%N :: js "srv"). rewrite (ends_litI_head _ _ _ _ _ P0); [done|]. intros x [= <-]. by vm_compute. }
  apply pos_app in P0. fold i1 in P0.
  eapply (head_bind _ _ (i1 + 3)); [by rewrite (ends_lit _ _ _ _ P0)|].
  apply pos_app in P0. change (length (js "://")) with 3 in P0. set (i2 := i1 + 3) in *.
  set (rest := auth ++ after cSLASH d ++ after cQM q) in *.
  eapply (head_bind _ _ (u, None, i2 + length (before_at u))).
  { destruct u as [w|]; cbn [before_at] in *.
    - destruct (Hu w eq_refl) as [Hw Hav]. rewrite <- app_assoc in P0.
      rewrite (userinfo_some s i2 w rest) by done. rewrite length_app. cbn. do 2 f_equal. lia.
    - rewrite userinfo_none; [cbn; do 2 f_equal; lia|]. rewrite Hs. unfold rest, scheme.
      assert (avoids (js "@") auth = true) as Ha1 by (eapply avoids_sub; [|done]; vm_compute; set_solver).
      cbn [before_at]. rewrite !elem_of_app. intros Hin. destruct_or! Hin.
      + vm_compute in Hin. set_solver.
      + destruct srv; vm_compute in Hin; set_solver.
      + vm_compute in Hin. set_solver.
      + by apply elem_of_nil in Hin.
      + eapply avoids_elem; [exact Ha1| |done]. by left.
      + destruct d as [w|]; [|by apply elem_of_nil in Hin]. apply elem_of_cons in Hin as [|Hin]; [done|].
        eapply (avoids_elem (js "?@")); [by apply Hd| |done]. right. by left.
      + destruct q as [w|]; [|by apply elem_of_nil in Hin]. apply elem_of_cons in Hin as [|Hin]; [done|].
        eapply (avoids_elem (js "@")); [by apply Hq| |done]. by left. }
  apply pos_app in P0. set (i3 := i2 + length (before_at u)) in *. unfold rest in P0.
  eapply (head_bind _ _ (i3 + length auth)).
  { eapply head_plus; [done|done| |].
    - eapply avoids_sub; [|done]. vm_compute. set_solver.
    - destruct d; [done|]. by destruct q. }
  pose proof (pos_slice _ _ _ _ P0) as Eauth. apply pos_app in P0. set (i4 := i3 + length auth) in *.
  eapply (head_bind _ _ (d, i4 + length (after cSLASH d))).
  { eapply head_opt_group; [done| |].
    - intros w ->. split; [|by destruct q]. eapply avoids_sub; [|by apply Hd]. vm_compute. set_solver.
    - intros _. by destruct q. }
  apply pos_app in P0. set (i5 := i4 + length (after cSLASH d)) in *. rewrite <- (app_nil_r (after cQM q)) in P0.
  eapply (head_bind _ _ (q, i5 + length (after cQM q))).
  { eapply head_opt_group; [done| |done]. intros w ->. split; [|done]. by apply Hq. }
  apply pos_app in P0. eapply head_bind; [by rewrite ends_eol|]. cbn [head]. by rewrite Eauth.
Qed.

(** ** The host pattern *)

Lemma host_exec_shape h (o : option jsstr) s :
  s = h ++ after cCOLON o -> h <> [] -> avoids (js ":") h = true ->
  forallb (fun c => negb (line_end c)) h = true -> (forall d, o = Some d -> all_digits d = true) ->
  host_exec s = Some (h, o).
Proof.
  intros Hs Hne Hc Hl Ho. unfold host_exec.
  assert (forallb (fun c => negb (line_end c)) s = true) as Hls.
  { rewrite Hs, forallb_app, Hl. destruct o as [d|]; [|done]. specialize (Ho d eq_refl). cbn. apply forallb_elem.
    intros c Hin. unfold all_digits in Ho. apply andb_true_iff in Ho as [_ Ho]. rewrite forallb_elem in Ho.
    specialize (Ho c Hin). unfold is_digit, JsString.between, line_end in *. lia. }
  assert (ends s (RSeq RDot (RLazy RDot)) 0 = seq 1 (length s)) as ->.
  { destruct s as [|c t]; [destruct h; done|]. pose proof (pos_start (c :: t)) as P.
    change (ends (c :: t) (RSeq RDot (RLazy RDot)) 0)
      with (concat (map (ends (c :: t) (RLazy RDot)) (ends (c :: t) RDot 0))).
    unfold RDot. rewrite (ends_cls _ _ _ _ P). cbn [forallb] in Hls. apply andb_true_iff in Hls as [H1 H2].
    cbn [head opt_is]. rewrite H1. cbn [map concat]. rewrite app_nil_r. apply pos_cons in P.
    rewrite (ends_lazy _ _ 1 t []) by (try done; by rewrite app_nil_r). done. }
  assert (seq 1 (length s) = seq 1 (length h - 1) ++ length h :: seq (S (length h)) (length s - length h)) as ->.
  { assert (0 < length h) by (destruct h; [done|cbn; lia]).
    assert (length h <= length s) by (rewrite Hs, length_app; lia).
    replace (length s) with ((length h - 1) + S (length s - length h)) at 1 by lia. rewrite seq_app.
    replace (1 + (length h - 1)) with (length h) by lia. done. }
  apply head_bind_skip.
  - intros j Hj%elem_of_seq. assert (s !! j <> Some cCOLON) as Hjc.
    { rewrite Hs, lookup_app_l by lia. intros E%list_elem_of_lookup_2. by apply (avoids_elem (js ":") h cCOLON Hc) in E; [|left]. }
    assert (j <= length s) by (rewrite Hs, length_app; lia).
    rewrite (opt_group_none s j (drop j s)); [|by split|].
    2: { by rewrite <- (pos_lookup s j). }
    cbn. rewrite (proj2 (Nat.eqb_neq _ _)); [done|]. rewrite Hs, length_app. lia.
  - pose proof (pos_start s) as P. rewrite Hs in P at 2. pose proof (pos_slice _ _ _ _ P) as Eh.
    apply pos_app in P. cbn [Nat.add] in *. destruct o as [d|]; cbn [after] in *.
    + specialize (Ho d eq_refl). unfold all_digits in Ho. apply andb_true_iff in Ho as [Hd1 Hd2].
      eapply (head_bind _ _ (Some d, S (length h) + length d)).
      * unfold opt_group. apply head_app_l. unfold group. pose proof (pos_cons _ _ _ _ P) as P2.
        rewrite <- (app_nil_r d) in P2.
        eapply (head_bind _ _ (S (length h))); [unfold RChr; by rewrite (ends_cls _ _ _ _ P)|].
        eapply head_bind; [eapply (head_plus _ _ _ d []); [done|by destruct d|done|done]|].
        cbn [head]. by rewrite (pos_slice _ _ _ _ P2).
      * apply pos_cons in P. rewrite <- (app_nil_r d) in P. apply pos_app in P.
        eapply head_bind; [by rewrite ends_eol|]. cbn [head]. by rewrite Eh.
    + rewrite (opt_group_none _ _ [] _ _ P) by done. cbn [mbind list_bind app].
      rewrite (ends_eol _ _ P). cbn [mbind list_bind app head]. by rewrite Eh.
Qed.

(** ** Units of a formatted URL *)

Lemma avoids_units (p : N -> bool) no s :
  forallb (fun c => negb (p c)) no = true -> forallb p s = true -> avoids no s = true.
Proof.
  rewrite !forallb_elem. intros Hn Hs. apply forallb_elem. intros c Hc. apply negb_true_iff, bool_decide_eq_false.
  intros Hin. specialize (Hn c Hin). by rewrite (Hs c Hc) in Hn.
Qed.

Lemma Forall_units (p : N -> bool) s : Forall (fun c => p c = true) s -> forallb p s = true.
Proof. rewrite Forall_forall. intros H. by apply forallb_elem. Qed.

Lemma encoded_avoids no s e :
  units s -> encodeURIComponent s = Some e -> forallb (fun c => negb (uri_unit c)) no = true -> avoids no e = true.
Proof. intros Hu He Hn. eapply avoids_units; [done|]. by eapply Forall_units, encodeURIComponent_units. Qed.

Lemma encode_non_empty s e : encodeURIComponent s = Some e -> s <> [] -> e <> [].
Proof. intros He Hs ->. apply encodeURIComponent_long in He. destruct s; [done|cbn in He; lia]. Qed.

Lemma units_trim s : units s -> units (trim s).
Proof.
  destruct (trim_decomp s) as (a & b & E & _). unfold units. intros H. rewrite E, !Forall_app in H. tauto.
Qed.

(** A part that is optional in the URL, and the text it decodes to. *)
Lemma optional_part_spec before value after r :
  units value -> optional_part before value after = Some r ->
  trim value = [] /\ r = []
  \/ trim value <> [] /\ exists e, encodeURIComponent (trim value) = Some e /\ e <> []
     /\ r = before ++ e ++ after /\ decodeUrlPart e = trim value.
Proof.
  intros Hu. unfold optional_part. destruct (non_empty (trim value)) eqn:Hn.
  - destruct (encodeURIComponent (trim value)) as [e|] eqn:He; cbn; intros; simplify_eq. right.
    split; [by destruct (trim value)|]. exists e. split_and!; try done.
    + eapply encode_non_empty; [done|]. by destruct (trim value).
    + unfold decodeUrlPart. by rewrite (decode_encodeURIComponent _ _ (units_trim _ Hu) He).
  - intros [= <-]. left. by destruct (trim value).
Qed.

(** ** The text is taken as it is *)

Lemma rmatch_seq s a b i k : rmatch s (RSeq a b) i k -> exists j, rmatch s a i j /\ rmatch s b j k.
Proof. inversion 1; subst. eauto. Qed.

Lemma star_units p s i j k :
  rmatch s (RStar (RCls p)) i j -> i <= k < j -> opt_is (s !! k) p = true.
Proof.
  intros H. remember (RStar (RCls p)) as r eqn:Er. revert k. induction H; try discriminate Er; [lia|].
  intros m Hm. injection Er as ->. inversion H; subst. destruct (decide (m = i)) as [->|]; [|apply IHrmatch2; [done|lia]].
  match goal with E : s !! i = Some _ |- _ => rewrite E end. done.
Qed.

Lemma mongodb_not_assignment c s :
  c = cCOLON \/ c = 43%N -> assignment (js "mongodb" ++ c :: s) = None.
Proof.
  intros Hc. unfold assignment. set (t := js "mongodb" ++ c :: s).
  match goal with |- head (mbind ?f (ends t ?r 0)) = None => assert (ends t r 0 = []) as -> end; [|done].
  match goal with |- ?x = [] => destruct x as [|j l] eqn:E; [done|exfalso] end.
  assert (j ∈ j :: l) as Hj by by left. rewrite <- E in Hj. apply ends_spec in Hj. clear E l.
  cbn [RSeqs] in Hj. apply rmatch_seq in Hj as (i0 & Hb & Hj). inversion Hb; subst.
  apply rmatch_seq in Hj as (i1 & Hexp & Hj). apply rmatch_seq in Hj as (i2 & Hfirst & Hj).
  apply rmatch_seq in Hj as (i3 & Hid & Hj). apply rmatch_seq in Hj as (i4 & Hsp & Hj).
  apply rmatch_seq in Hj as (i5 & Heq & _).
  assert (i1 = 0) as ->.
  { inversion Hexp; subst; [|by match goal with H : rmatch _ REps _ _ |- _ => inversion H end].
    match goal with H : rmatch _ (RSeq _ _) _ _ |- _ => apply rmatch_seq in H as (k & H & _) end.
    match goal with H : rmatch _ (RSeq _ _) _ _ |- _ => apply rmatch_seq in H as (k' & H & _); inversion H; subst end.
    match goal with H : t !! 0 = Some _ |- _ => injection H as <- end. done. }
  inversion Hfirst; subst. pose proof (rmatch_le _ _ _ _ Hid) as [Hle _]. pose proof (rmatch_le _ _ _ _ Hsp) as [Hle2 _].
  assert (i3 <= 7) as H7.
  { destruct (decide (i3 <= 7)); [done|]. pose proof (star_units _ _ _ _ 7 Hid ltac:(lia)) as H7.
    change (t !! 7) with (Some c) in H7. cbn in H7. by destruct Hc as [-> | ->]. }
  assert (i4 = i3) as ->.
  { destruct (decide (i4 = i3)); [done|]. pose proof (star_units _ _ _ _ i3 Hsp ltac:(lia)) as H3.
    do 8 (destruct i3 as [|i3]; [first [lia|discriminate H3|cbn in H3; by destruct Hc; subst]|]). lia. }
  inversion Heq; subst.
  match goal with H : t !! i3 = Some _, H2 : (_ =? _)%N = true |- _ =>
    do 8 (destruct i3 as [|i3]; [first [lia|injection H as <-; first [discriminate H2|by destruct Hc; subst]]|]) end. lia.
Qed.

(** ** Parameters *)

Section params.
Context `{UrlLaws}.

(** A parameter [parseMongoConnectionUrl] stores under its own name. *)
Definition mongo_keeps (e : jsstr * jsstr) : bool :=
  negb (e.1 ==s js "__proto__")
  && (negb ((toLowerCase e.1 ==s js "ssl") || (toLowerCase e.1 ==s js "tls"))
      || match parseOptionalBoolean (Some e.2) with
         | Some true => (e.1 ==s js "tls") && (e.2 ==s js "true") | Some false => false | None => true end).

Lemma mongo_param_keeps extra e :
  shown_param e = true -> mongo_keeps e = true -> mongo_param extra e = mset extra e.1 e.2.
Proof.
  destruct e as [k v]. unfold shown_param, mongo_keeps, mongo_param, oset. cbn [fst snd]. intros Hs Hk. bools.
  repeat match goal with E : ?x = false |- context[?x] => rewrite E end. cbn [orb].
  destruct (toLowerCase k ==s js "ssl") eqn:E1, (toLowerCase k ==s js "tls") eqn:E2; cbn [orb negb] in *;
    try destruct (parseOptionalBoolean (Some v)) as [[]|]; bools; subst; try discriminate;
    rewrite ?(bool_decide_eq_false_2 (k = js "__proto__")) by done; done.
Qed.

Lemma mongo_params_kept l :
  NoDup (mkeys l) -> Forall (fun e => shown_param e = true /\ mongo_keeps e = true) l -> foldl mongo_param [] l = l.
Proof.
  intros Hd Hl. rewrite <- (mof_fresh l Hd) at 2. unfold mof. revert Hl. generalize (@nil (jsstr * jsstr)).
  clear Hd. induction l as [|e l IH]; intros m Hl; [done|]. apply Forall_cons in Hl as [[H1 H2] Hl].
  cbn [foldl]. rewrite mongo_param_keeps by done. by apply IH.
Qed.

Definition shown_key (k : jsstr) : bool := shown_param (k, []).
Lemma shown_param_key e : shown_param e = shown_key e.1.
Proof. done. Qed.

Lemma mget_filter_shown l k :
  mget (filterb shown_param l) k = if shown_key k then mget l k else None.
Proof.
  induction l as [|[k' v] l IH]; [cbn; by case_match|]. unfold filterb in *. cbn [List.filter mget].
  rewrite shown_param_key. cbn [fst]. destruct (decide (k = k')) as [->|Hne].
  - destruct (shown_key k') eqn:E; cbn [mget]; [by rewrite decide_True|by rewrite IH].
  - destruct (shown_key k') eqn:E; cbn [mget]; [rewrite decide_False by done|]; exact IH.
Qed.

Lemma mget_perm (l m : list (jsstr * jsstr)) k : NoDup (mkeys l) -> l ≡ₚ m -> mget l k = mget m k.
Proof.
  intros Hd Hp. assert (NoDup (mkeys m)) as Hd' by (unfold mkeys in *; by rewrite <- Hp).
  destruct (mget l k) as [v|] eqn:E.
  - symmetry. apply elem_mget; [done|]. rewrite <- Hp. by apply mget_elem.
  - symmetry. apply mget_none. unfold mkeys. rewrite <- Hp. by apply mget_none.
Qed.

Lemma filter_keys_NoDup (l : list (jsstr * jsstr)) p : NoDup (mkeys l) -> NoDup (mkeys (filterb p l)).
Proof. intros Hd. eapply sublist_NoDup; [done|]. unfold mkeys. apply (fmap_sublist fst), filterb_sublist. Qed.

(** The parameters of a MongoDB profile, in the order the URL shows them. *)
Lemma safe_parameters_mongo p :
  cp_engine p = mongodb -> NoDup (mkeys (cp_extraParams p)) ->
  safeConnectionParameters p ≡ₚ filterb shown_param (cp_extraParams p)
  /\ NoDup (mkeys (safeConnectionParameters p)).
Proof.
  intros He Hd. unfold safeConnectionParameters. rewrite He. cbn [bool_decide].
  rewrite !bool_decide_eq_false_2 by done. cbn [orb].
  set (l := sort_by _ _). assert (l ≡ₚ filterb shown_param (cp_extraParams p)) as Hp by apply sort_by_perm.
  assert (NoDup (mkeys l)) as Hl.
  { unfold mkeys. rewrite Hp. by apply (filter_keys_NoDup _ shown_param). }
  rewrite mof_fresh by done. done.
Qed.

(** The names a parameter of a URL may have are not names of credentials. *)
Lemma shown_no_name l ks :
  Forall (fun e => shown_param e = true) l -> forallb (fun k => negb (shown_key k)) ks = true ->
  firstSearchParam l ks = None.
Proof.
  intros Hl Hk. unfold firstSearchParam. assert (omap (mget l) ks = []) as ->; [|done].
  induction ks as [|k ks IH]; [done|]. cbn [forallb] in Hk. bools. cbn.
  assert (mget l k = None) as ->; [|by apply IH].
  destruct (mget l k) as [v|] eqn:E; [|done]. apply mget_elem in E. rewrite Forall_forall in Hl.
  specialize (Hl _ E). rewrite shown_param_key in Hl. cbn in Hl. congruence.
Qed.

(** Keys that the editor keeps out of a URL. *)
Lemma hidden_key k :
  forallb (fun c => (c <? 128)%N && negb (is_space c)) k = true ->
  bool_decide (replace_units (fun c => (c =? cDASH)%N || (c =? cUS)%N) [] (toLowerAscii k)
               ∈ CONNECTION_META_PARAMETER_KEYS ++ CONNECTION_SECRET_PARAMETER_KEYS) = true ->
  shown_key k = false.
Proof.
  intros Hk Hin. apply bool_decide_eq_true in Hin. rewrite forallb_elem in Hk.
  assert (normalizedParameterKey k = replace_units (fun c => (c =? cDASH)%N || (c =? cUS)%N) [] (toLowerAscii k)) as Hn.
  { unfold normalizedParameterKey. rewrite trim_no_space, lower_ascii_text; [done| |];
      apply forallb_elem; intros c Hc; specialize (Hk c Hc); apply andb_true_iff in Hk as [? ?]; done. }
  unfold shown_key, shown_param, isConnectionMetaParameter, isConnectionSecretParameter. cbn [fst]. rewrite Hn.
  apply elem_of_app in Hin as [Hin|Hin]; rewrite (bool_decide_eq_true_2 _ Hin); cbn [negb]; by rewrite ?andb_false_r.
Qed.

End params.

(** ** Reading a formatted MongoDB URL *)

Lemma unwrap_plain c s :
  c = cCOLON \/ c = 43%N -> let t := js "mongodb" ++ c :: s in
  forallb (fun c => negb (is_space c)) t = true -> opt_is (last t) is_quote = false ->
  unwrapConnectionUrlInput t = t.
Proof.
  intros Hc t Ht Hl. unfold unwrapConnectionUrlInput. rewrite (trim_no_space t Ht).
  unfold t at 2. rewrite mongodb_not_assignment by done. cbn [default]. rewrite (trim_no_space t Ht).
  unfold strip_quotes. change (run_len is_quote t) with 0. rewrite drop_0.
  assert (run_len is_quote (rev t) = 0) as ->.
  { assert (head (rev t) = last t) as Hlast by (rewrite <- head_reverse; f_equal; apply rev_alt).
    rewrite <- Hlast in Hl. destruct (rev t) as [|x l]; [done|]. cbn in *. by rewrite Hl. }
  rewrite drop_0. apply rev_involutive.
Qed.

Lemma scheme_colon srv s : exists c r, scheme srv ++ s = js "mongodb" ++ c :: r /\ (c = cCOLON \/ c = 43%N).
Proof.
  destruct srv; [exists 43%N, (js "srv" ++ js "://" ++ s)|exists cCOLON, (js "//" ++ s)];
    (split; [unfold scheme; by rewrite <- !app_assoc|auto]).
Qed.

Lemma mongo_no_jdbc s : strip_jdbc (js "mongodb" ++ s) = js "mongodb" ++ s.
Proof.
  unfold strip_jdbc. set (t := js "mongodb" ++ s). assert (match_at (RSeq RBol (RLitI (js "jdbc:"))) t 0 = None) as ->; [|done].
  unfold match_at. change (ends t (RSeq RBol (RLitI (js "jdbc:"))) 0) with (ends t (RLitI (106%N :: js "dbc:")) 0 ++ []).
  rewrite app_nil_r, (ends_litI_head t 0 t) by (apply pos_start || (intros d [= <-]; by vm_compute)). done.
Qed.

Lemma mongo_url_tested srv s : Regex.test MONGO_URL (scheme srv ++ s) = true.
Proof.
  apply test_spec. remember (scheme srv ++ s) as t eqn:Et. pose proof (pos_start t) as P. rewrite Et in P at 2.
  unfold scheme in P. rewrite <- !app_assoc in P. exists 0.
  pose proof (ends_litI _ _ (js "mongodb") _ _ P eq_refl) as E1. apply pos_app in P.
  set (i1 := 0 + length (js "mongodb")) in *.
  assert (rmatch t (ROpt (RLitI (js "+srv"))) i1 (i1 + length (if srv then js "+srv" else []))) as E2.
  { destruct srv; [apply m_alt_l|apply m_alt_r].
    - apply ends_spec. rewrite (ends_litI _ _ _ _ _ P) by done. by left.
    - rewrite Nat.add_0_r. apply m_eps. }
  apply pos_app in P. pose proof (ends_lit _ _ _ _ P) as E3.
  eexists. split; [lia|]. unfold MONGO_URL. cbn [RSeqs].
  eapply m_seq; [apply m_bol|]. eapply m_seq; [apply ends_spec; rewrite E1; by left|].
  eapply m_seq; [exact E2|]. eapply m_seq; [apply ends_spec; rewrite E3; by left|]. apply m_eps.
Qed.

(** Hosts: one name without a port, or several with their ports. *)
Definition host_unit (c : N) : bool := is_alnum c || bool_decide (c ∈ js "-._").
Definition single_host (h : jsstr) : bool := all_units host_unit h.
Definition hosts_unit (c : N) : bool := host_unit c || (c =? cCOLON)%N || (c =? cCOMMA)%N.
Definition many_hosts (h : jsstr) : bool :=
  all_units hosts_unit h && (1 <? length (mongo_hosts h)).

Section mongo.
Context `{UrlLaws}.

(** A MongoDB profile whose fields the editor can show in a URL. *)
Record mongo_formattable (p : ConnectionProfile) : Prop := {
  mf_engine : cp_engine p = mongodb;
  mf_host : single_host (cp_host p) = true \/ many_hosts (cp_host p) = true;
  mf_port : (0 <= cp_port p < 2 ^ 53)%Z;
  mf_username : units (cp_username p);
  mf_database : units (cp_database p);
  mf_keys : NoDup (mkeys (cp_extraParams p));
  mf_params : Forall (fun e => shown_param e = true ->
    mongo_keeps e = true /\ form_pair e) (cp_extraParams p) }.

Definition is_srv (p : ConnectionProfile) : bool := param_is (cp_extraParams p) (js "srv") (js "true").

Lemma host_units_facts (p : N -> bool) h :
  all_units p h = true -> forallb (fun c => negb (p c)) (js "/?@ %" ++ [10; 13; 8232; 8233]%N) = true ->
  h <> [] /\ avoids (js "/?@") h = true /\ 37%N ∉ h /\ forallb (fun c => negb (line_end c)) h = true.
Proof.
  intros Hh Hp. unfold all_units in Hh. apply andb_true_iff in Hh as [Hn Hh].
  pose proof (avoids_units p _ h Hp Hh) as Hav. split_and!.
  - by destruct h.
  - eapply avoids_sub; [|exact Hav]. vm_compute. set_solver.
  - eapply avoids_elem; [exact Hav|]. vm_compute. set_solver.
  - apply forallb_elem. intros c Hc. apply negb_true_iff. destruct (line_end c) eqn:E; [|done].
    exfalso. eapply avoids_elem; [exact Hav| |exact Hc]. unfold line_end in E.
    rewrite !orb_true_iff, !N.eqb_eq in E. destruct_or! E; subst; vm_compute; set_solver.
Qed.

(** The port a formatted URL says. *)
Definition read_port (p : ConnectionProfile) : Z :=
  if is_srv p || includes (cp_host p) (js ",") || (cp_port p =? 0)%Z then CONNECTION_DEFAULT_PORTS mongodb
  else cp_port p.

Lemma nonspace_units (p : N -> bool) s :
  forallb p s = true -> (forall c, p c = true -> is_space c = false) -> forallb (fun c => negb (is_space c)) s = true.
Proof. rewrite !forallb_elem. intros Hs Hp c Hc. by rewrite (Hp c (Hs c Hc)). Qed.

Lemma hosts_unit_nonspace c : hosts_unit c = true -> is_space c = false.
Proof.
  unfold hosts_unit, host_unit. rewrite !orb_true_iff, bool_decide_eq_true, !N.eqb_eq. intros Hc.
  destruct_or! Hc; try (vm_compute in Hc; set_unfold in Hc; destruct_or! Hc); subst; try done.
  unfold is_alnum, is_alpha, is_lower, is_upper, is_digit, is_space, between in *. lia.
Qed.

Lemma single_units h (o : option jsstr) :
  forallb host_unit h = true -> (forall d, o = Some d -> all_digits d = true) ->
  forallb hosts_unit (h ++ after cCOLON o) = true.
Proof.
  intros Hu Ho. rewrite forallb_app. apply andb_true_iff. split.
  - rewrite forallb_elem in Hu. apply forallb_elem. intros c Hc. unfold hosts_unit. by rewrite (Hu c Hc).
  - destruct o as [d|]; [|done]. specialize (Ho d eq_refl). unfold all_digits in Ho.
    apply andb_true_iff in Ho as [_ Ho]. rewrite forallb_elem in Ho. apply forallb_elem.
    intros c [->|Hc]%elem_of_cons; [done|]. unfold hosts_unit, host_unit, is_alnum. rewrite (Ho c Hc). by rewrite orb_true_r.
Qed.

Lemma single_endpoint h (o : option jsstr) :
  single_host h = true -> (forall d, o = Some d -> all_digits d = true) ->
  mongo_hosts (h ++ after cCOLON o) = [h ++ after cCOLON o]
  /\ mongo_endpoint (h ++ after cCOLON o)
     = (h, match o with Some d => Number_digits d | None => CONNECTION_DEFAULT_PORTS mongodb end).
Proof.
  intros Hh Ho. pose proof (host_units_facts host_unit h Hh eq_refl) as (Hne & Hav & Hpc & Hle).
  unfold single_host, all_units in Hh. apply andb_true_iff in Hh as [Hn Hu].
  pose proof (single_units h o Hu Ho) as Hall.
  assert (mongo_hosts (h ++ after cCOLON o) = [h ++ after cCOLON o]) as Hm.
  { unfold mongo_hosts. rewrite split_on_none.
    - cbn [map]. rewrite trim_no_space by (eapply nonspace_units; [exact Hall|apply hosts_unit_nonspace]).
      unfold filterb. cbn. destruct h; done.
    - rewrite forallb_app. apply andb_true_iff. split.
      + rewrite forallb_elem in Hu. apply forallb_elem. intros c Hc. specialize (Hu c Hc). destruct (N.eqb_spec cCOMMA c); [subst; by vm_compute in Hu|done].
      + destruct o as [d|]; [|done]. specialize (Ho d eq_refl). unfold all_digits in Ho.
        apply andb_true_iff in Ho as [_ Ho]. rewrite forallb_elem in Ho. apply forallb_elem.
        intros c [->|Hc]%elem_of_cons; [done|]. specialize (Ho c Hc). destruct (N.eqb_spec cCOMMA c); [subst; by vm_compute in Ho|done]. }
  split; [done|]. unfold mongo_endpoint. rewrite Hm. cbn [length Nat.ltb Nat.leb head default from_option id].
  rewrite (host_exec_shape h o _ eq_refl Hne (avoids_units host_unit (js ":") h eq_refl Hu) Hle Ho).
  unfold decodeUrlPart. rewrite (decode_plain_text h Hpc). done.
Qed.

Lemma many_endpoint h :
  many_hosts h = true -> includes h (js ",") = true /\ mongo_endpoint h = (h, CONNECTION_DEFAULT_PORTS mongodb).
Proof.
  unfold many_hosts. intros Hh. apply andb_true_iff in Hh as [Hu Hl]. split; [|unfold mongo_endpoint; by rewrite Hl].
  destruct (includes h (js ",")) eqn:E; [done|]. exfalso. apply includes_char in E.
  unfold mongo_hosts in Hl. rewrite split_on_none in Hl.
  - cbn [map] in Hl. pose proof (filterb_length_le non_empty [trim h]). apply Nat.ltb_lt in Hl. cbn in *. lia.
  - apply forallb_elem. intros c Hc. destruct (N.eqb_spec cCOMMA c); [by subst|done].
Qed.

(** The authority of a MongoDB URL reads back as the host and the port. *)
Lemma authority_reads p :
  mongo_formattable p ->
  let a := mongo_authority (is_srv p) p in
  a <> [] /\ avoids (js "/?@") a = true /\ forallb hosts_unit a = true
  /\ mongo_endpoint a = (cp_host p, read_port p).
Proof.
  intros Hp a. destruct (mf_host p Hp) as [Hh|Hh].
  - assert (includes (cp_host p) (js ",") = false) as Hcomma.
    { apply includes_char. intros Hin. unfold single_host, all_units in Hh. apply andb_true_iff in Hh as [_ Hh].
      rewrite forallb_elem in Hh. specialize (Hh _ Hin). by vm_compute in Hh. }
    assert (exists o, a = cp_host p ++ after cCOLON o /\ (forall d, o = Some d -> all_digits d = true)
      /\ match o with Some d => Number_digits d | None => CONNECTION_DEFAULT_PORTS mongodb end = read_port p)
      as (o & Ea & Ho & Eo).
    { pose proof (host_units_facts host_unit _ Hh eq_refl) as (Hne & Hav & _ & _). pose proof Hh as Hu.
      unfold single_host, all_units in Hu. apply andb_true_iff in Hu as [_ Hu].
      assert (urlHost (cp_host p) = cp_host p) as Eu.
      { unfold urlHost. rewrite trim_no_space.
        - assert (includes (cp_host p) (js ":") = false) as ->; [|done]. apply includes_char. intros Hin.
          rewrite forallb_elem in Hu. specialize (Hu _ Hin). by vm_compute in Hu.
        - eapply nonspace_units; [exact Hu|]. intros c Hc. apply hosts_unit_nonspace. unfold hosts_unit. by rewrite Hc. }
      unfold a, mongo_authority, read_port. rewrite Eu, Hcomma, orb_false_r. destruct (is_srv p); cbn [orb].
      - exists None. by rewrite app_nil_r.
      - pose proof (mf_port p Hp) as Hport. unfold port_part. destruct (Z.eqb_spec (cp_port p) 0) as [E|E].
        + exists None. done.
        + exists (Some (show_Z (cp_port p))). split; [done|]. split; [|by apply Number_shown].
          intros d [= <-]. apply show_non_empty. lia. }
    pose proof (single_endpoint (cp_host p) o Hh Ho) as [_ E]. rewrite Ea, E, Eo.
    pose proof (host_units_facts host_unit _ Hh eq_refl) as (Hne & Hav & _ & _).
    pose proof (single_units (cp_host p) o (proj2 (proj1 (andb_true_iff _ _) Hh)) Ho) as Hall.
    split_and!; [by destruct (cp_host p)|eapply avoids_units; [|exact Hall]; done|done|done].
  - destruct (many_endpoint _ Hh) as [Hcomma E]. unfold many_hosts in Hh. apply andb_true_iff in Hh as [Hu _].
    pose proof (host_units_facts hosts_unit _ Hu eq_refl) as (Hne & Hav & _ & _). unfold all_units in Hu.
    apply andb_true_iff in Hu as [_ Hu].
    assert (a = cp_host p) as ->.
    { unfold a, mongo_authority, urlHost. rewrite trim_no_space.
      - rewrite Hcomma, andb_false_r. cbn [andb]. by rewrite Hcomma, orb_true_r.
      - eapply nonspace_units; [exact Hu|apply hosts_unit_nonspace]. }
    split_and!; [done|done|done|]. rewrite E. unfold read_port. by rewrite Hcomma, orb_true_r.
Qed.

Lemma uri_unit_nonspace c : uri_unit c = true -> is_space c = false.
Proof.
  unfold uri_unit, uri_unreserved. rewrite !orb_true_iff, bool_decide_eq_true, !N.eqb_eq. intros Hc.
  destruct_or! Hc; try (vm_compute in Hc; set_unfold in Hc; destruct_or! Hc); subst; try done.
  unfold is_alnum, is_alpha, is_lower, is_upper, is_digit, is_space, between in *. lia.
Qed.

Lemma form_unit_nonspace c : form_unit c = true -> is_space c = false.
Proof.
  unfold form_unit. rewrite !orb_true_iff, bool_decide_eq_true. intros Hc.
  destruct_or! Hc; try (vm_compute in Hc; set_unfold in Hc; destruct_or! Hc); subst; try done.
  unfold is_alnum, is_alpha, is_lower, is_upper, is_digit, is_space, between in *. lia.
Qed.

(** The parts of a formatted URL. *)
Lemma formatted_parts p url :
  mongo_formattable p -> formatConnectionUrl p = Some url ->
  exists ou od,
    url = scheme (is_srv p) ++ before_at ou ++ mongo_authority (is_srv p) p ++ after cSLASH od
          ++ after cQM (truthy (Some (form_print (safeConnectionParameters p))))
    /\ (forall e, ou = Some e -> e <> [] /\ forallb uri_unit e = true)
    /\ (forall e, od = Some e -> e <> [] /\ forallb uri_unit e = true)
    /\ match ou with Some e => decodeUrlPart e | None => [] end = trim (cp_username p)
    /\ match od with Some e => decodeUrlPart e | None => [] end = trim (cp_database p).
Proof.
  intros Hp Hf. unfold formatConnectionUrl, is_d1 in Hf. rewrite (mf_engine p Hp) in Hf.
  rewrite !bool_decide_eq_false_2 in Hf by done. cbn [andb] in Hf.
  destruct (optional_part [] (cp_username p) (js "@")) as [u|] eqn:Eu; [|done]. cbn [mbind option_bind] in Hf.
  destruct (optional_part (js "/") (cp_database p) []) as [d|] eqn:Ed; [|done]. cbn [mbind option_bind] in Hf.
  apply (inj Some) in Hf. subst url.
  assert (forall value r b a, units value -> optional_part b value a = Some r ->
    exists o, r = match o with Some e => b ++ e ++ a | None => [] end
      /\ (forall e, o = Some e -> e <> [] /\ forallb uri_unit e = true)
      /\ match o with Some e => decodeUrlPart e | None => [] end = trim value) as Hpart.
  { intros value r b a Hu Hr. destruct (optional_part_spec b value a r Hu Hr) as [[E ->]|(Hn & e & He & Hne & -> & Hdec)].
    - by exists None.
    - exists (Some e). split_and!; [done| |done]. intros e' [= <-]. split; [done|].
      by eapply Forall_units, encodeURIComponent_units; [apply units_trim|]. }
  destruct (Hpart _ _ _ _ (mf_username p Hp) Eu) as (ou & -> & Hou & Edu).
  destruct (Hpart _ _ _ _ (mf_database p Hp) Ed) as (od & -> & Hod & Edd).
  exists ou, od. split_and!; try done. unfold withQuery, is_srv.
  assert (forall q base, (if non_empty q then base ++ js "?" ++ q else base) = base ++ after cQM (truthy (Some q))) as ->.
  { intros [|x q] base; [symmetry; apply app_nil_r|reflexivity]. }
  unfold scheme. change (js "mongodb+srv") with (js "mongodb" ++ js "+srv").
  destruct (param_is _ _ _), ou, od; cbn [before_at after]; rewrite ?app_nil_r, <- ?app_assoc; reflexivity.
Qed.

(** The parameters a formatted URL shows, and their reading. *)
Lemma formatted_parameters p (L := safeConnectionParameters p) :
  mongo_formattable p ->
  NoDup (mkeys L) /\ (forall k, mget L k = if shown_key k then mget (cp_extraParams p) k else None)
  /\ Forall (fun e => shown_param e = true /\ mongo_keeps e = true) L /\ Forall form_pair L
  /\ form_parse (default [] (truthy (Some (form_print L)))) = L.
Proof.
  intros Hp. destruct (safe_parameters_mongo p (mf_engine p Hp) (mf_keys p Hp)) as [Hperm Hnd]. fold L in Hperm, Hnd.
  assert (forall e, e ∈ L -> shown_param e = true /\ mongo_keeps e = true /\ form_pair e) as Hall.
  { intros e He. rewrite Hperm, filterb_elem in He. destruct He as [Hs He].
    pose proof (mf_params p Hp) as Hall. rewrite Forall_forall in Hall. destruct (Hall e He Hs). done. }
  assert (Forall form_pair L) as Hwf by (apply Forall_forall; intros e He; by apply Hall).
  split_and!; [done| | |done|].
  - intros k. rewrite <- mget_filter_shown. by apply mget_perm.
  - apply Forall_forall. intros e He. by destruct (Hall e He) as (? & ? & _).
  - destruct (form_print L) as [|x q] eqn:E; cbn.
    + destruct L as [|e l]; [apply form_parse_nil|by destruct (form_print_cons e l)].
    + rewrite <- E. by apply form_roundtrip.
Qed.

(** Its text is taken as it is and matched part by part. *)
Lemma formatted_exec p url :
  mongo_formattable p -> formatConnectionUrl p = Some url -> opt_is (last url) is_quote = false ->
  exists ou od,
    unwrapConnectionUrlInput url = url /\ (exists s, url = scheme (is_srv p) ++ s)
    /\ mongo_exec url = Some (mkMongo (is_srv p) ou None (mongo_authority (is_srv p) p) od
                               (truthy (Some (form_print (safeConnectionParameters p)))))
    /\ match ou with Some e => decodeUrlPart e | None => [] end = trim (cp_username p)
    /\ match truthy od with Some e => decodeUrlPart e | None => [] end = trim (cp_database p).
Proof.
  intros Hp Hf Hq. destruct (formatted_parts p url Hp Hf) as (ou & od & Eurl & Hou & Hod & Edu & Edd).
  destruct (authority_reads p Hp) as (Hane & Haav & Haun & _).
  destruct (formatted_parameters p Hp) as (_ & _ & _ & Hwf & _). apply form_print_units in Hwf as Hform.
  set (L := safeConnectionParameters p) in *. set (a := mongo_authority (is_srv p) p) in *. exists ou, od.
  assert (forall q, truthy (Some (form_print L)) = Some q -> q = form_print L) as Hq'.
  { intros q. destruct (form_print L); cbn; congruence. }
  split_and!; [|by eexists| |done|].
  - destruct (scheme_colon (is_srv p) (before_at ou ++ a ++ after cSLASH od ++ after cQM (truthy (Some (form_print L)))))
      as (c & r & Er & Hc). rewrite Eurl, Er in *. apply unwrap_plain; [done| |done].
    rewrite <- Er. unfold scheme. rewrite !forallb_app, !andb_true_iff. split_and!.
    + done.
    + by destruct (is_srv p).
    + done.
    + destruct ou as [e|]; [|done]. destruct (Hou e eq_refl) as [_ Hu]. cbn [before_at]. rewrite forallb_app.
      rewrite (nonspace_units _ _ Hu uri_unit_nonspace). done.
    + by eapply nonspace_units, hosts_unit_nonspace.
    + destruct od as [e|]; [|done]. destruct (Hod e eq_refl) as [_ Hu].
      apply (nonspace_units _ _ Hu uri_unit_nonspace).
    + destruct (truthy _) as [q|] eqn:Et; [|done]. rewrite (Hq' q eq_refl).
      apply (nonspace_units _ _ Hform form_unit_nonspace).
  - eapply mongo_exec_shape; [exact Eurl| |done|done| |].
    + intros e He. destruct (Hou e He). split; [done|]. by eapply avoids_units; [|done].
    + intros e He. destruct (Hod e He). by eapply avoids_units; [|done].
    + intros q Et. rewrite (Hq' q Et). split; [by eapply avoids_units; [|exact Hform]|].
      apply forallb_elem. intros c Hc. rewrite forallb_elem in Hform. specialize (Hform c Hc).
      destruct (line_end c) eqn:E; [|done]. unfold line_end in E. rewrite !orb_true_iff, !N.eqb_eq in E.
      destruct_or! E; subst; by vm_compute in Hform.
  - destruct od as [e|]; [|done]. destruct (Hod e eq_refl) as [Hne _]. by destruct e.
Qed.

(** A MongoDB URL the editor shows reads back as the profile it was made from: its host, its
    port (unless the URL cannot carry one), its trimmed database and user, every parameter
    shown with its value, the SRV flag, and no password. *)
Theorem mongo_url_roundtrip p url :
  mongo_formattable p -> formatConnectionUrl p = Some url -> opt_is (last url) is_quote = false ->
  exists u, parseConnectionUrl url = Some (mkParsed u None)
    /\ up_engine u = mongodb /\ up_host u = cp_host p /\ up_port u = read_port p
    /\ up_database u = trim (cp_database p) /\ up_username u = trim (cp_username p)
    /\ (forall k, mget (up_extraParams u) k
        = if shown_key k then mget (cp_extraParams p) k
          else if (k ==s js "srv") && is_srv p then Some (js "true") else None)
    /\ up_allowWrites u = None /\ up_readonlyDefault u = None.
Proof.
  intros Hp Hf Hq. destruct (formatted_exec p url Hp Hf Hq) as (ou & od & Hun & [s Eurl] & Hexec & Edu & Edd).
  destruct (authority_reads p Hp) as (_ & _ & _ & Haend).
  destruct (formatted_parameters p Hp) as (Hnd & Hget & Hkept & _ & Hparse).
  set (L := safeConnectionParameters p) in *. unfold parseConnectionUrl. rewrite Hun.
  assert (exists r, url = js "mongodb" ++ r) as [r Er] by (rewrite Eurl; unfold scheme; rewrite <- !app_assoc; eauto).
  assert (non_empty url = true) as -> by by rewrite Er. cbn [negb].
  assert (strip_jdbc url = url) as -> by (rewrite Er; apply mongo_no_jdbc).
  assert (Regex.test MONGO_URL url = true) as -> by (rewrite Eurl; apply mongo_url_tested).
  unfold parseMongoConnectionUrl. rewrite Hexec. cbn [mm_srv mm_user mm_pass mm_host mm_database mm_query].
  rewrite Hparse, (mongo_params_kept L Hnd Hkept), Haend. unfold parseUrlMetaParams.
  assert (Forall (fun e => shown_param e = true) L) as Hshown by (eapply Forall_impl; [exact Hkept|]; by intros ? []).
  rewrite !(shown_no_name L) by (done || by cbn [forallb]; rewrite !hidden_key).
  eexists. split; [reflexivity|].
  cbn [up_engine up_host up_port up_database up_username up_extraParams up_allowWrites up_readonlyDefault].
  split_and!; try done. intros k. destruct (is_srv p); [|rewrite andb_false_r, Hget; by destruct (shown_key k)].
  rewrite andb_true_r. change (oset L (js "srv") (js "true")) with (mset L (js "srv") (js "true")).
  rewrite mget_set, Hget. destruct (decide (k = js "srv")) as [->|Hne]; [done|]. by rewrite (bool_decide_eq_false_2 _ Hne).
Qed.

End mongo.

(** ** A platform *)

(** An ASCII platform with the serializer of [JsUri]; it knows no URL but
    MongoDB's, which do not go through [new URL]. *)
#[local] Instance ascii_platform : UrlPlatform := {|
  new_URL _ := None; toLowerCase := toLowerAscii;
  localeCompare a b := if str_ltb a b then (-1)%Z else if str_ltb b a then 1%Z else 0%Z;
  form_parse := parse_form; form_print := print_form |}.
#[local] Instance ascii_laws : UrlLaws.
Proof.
  split; [done|apply print_form_cons|apply print_form_units|apply parse_print_form|done|done].
Qed.

Definition sample_mongo : ConnectionProfile :=
  let b := blankConnection (js "id") (Some (mkPreset (Some mongodb) None false (Some (js "db-1.example.org"))
             (Some 27018%Z) (Some (js "caf\u00e9/x")) None None)) in
  {| cp_id := cp_id b; cp_name := cp_name b; cp_engine := cp_engine b; cp_provider := cp_provider b;
     cp_driverId := cp_driverId b; cp_host := cp_host b; cp_port := cp_port b; cp_database := [99; 97; 102; 233]%N;
     cp_username := js "ann@x "; cp_sslmode := cp_sslmode b;
     cp_extraParams := [(js "w", js "majority"); (js "tls", js "true"); (js "password", js "s3cret")];
     cp_readonlyDefault := true; cp_allowWrites := false; cp_schemaAccessAvailable := None; cp_secretRef := None;
     cp_env := None; cp_effectiveEnv := None; cp_schemaGroup := None; cp_workspaceAccess := wa_local;
     cp_credentialMode := cm_local; cp_providerTarget := None |}.

Example sample_mongo_url :
  formatConnectionUrl sample_mongo = Some (js "mongodb://ann%40x@db-1.example.org:27018/caf%C3%A9?tls=true&w=majority").
Proof. vm_compute. done. Qed.

Lemma mongo_url_roundtrip_witness :
  exists u, parseConnectionUrl (js "mongodb://ann%40x@db-1.example.org:27018/caf%C3%A9?tls=true&w=majority")
              = Some (mkParsed u None)
    /\ up_host u = js "db-1.example.org" /\ up_port u = 27018%Z /\ up_username u = js "ann@x"
    /\ mget (up_extraParams u) (js "w") = Some (js "majority").
Proof.
  assert (mongo_formattable sample_mongo) as Hp.
  { split; try done.
    - by left.
    - repeat constructor.
    - repeat constructor.
    - refine (proj1 (bool_decide_eq_true _) _). vm_compute. done.
    - assert (forall k v, forallb (fun c => c <? 65536)%N (k ++ v) = true ->
        bool_decide (encodeURIComponent k <> None) && bool_decide (encodeURIComponent v <> None) = true ->
        form_pair (k, v)) as Hpair.
      { intros k v Hu He. rewrite forallb_elem in Hu. apply andb_true_iff in He as [H1 H2].
        apply bool_decide_eq_true in H1, H2. split; (split; [|by apply not_eq_None_Some]); apply Forall_forall;
          intros c Hc; apply N.ltb_lt, Hu, elem_of_app; auto. }
      cbn [sample_mongo cp_extraParams]. repeat (apply Forall_cons; split); try apply Forall_nil_2; intros Hs;
        try (by vm_compute in Hs); (split; [vm_compute; done|apply Hpair; vm_compute; done]). }
  destruct (mongo_url_roundtrip sample_mongo _ Hp sample_mongo_url eq_refl) as (u & Hu & _ & Hh & Hport & _ & Hus & Hk & _).
  exists u. split; [exact Hu|]. rewrite Hh, Hport, Hus, Hk. vm_compute. split_and!; reflexivity.
Defined.

(** ** What a URL may carry into a profile *)

Section safety.
Context `{UrlPlatform}.

(** A parameter name that stays out of a profile read from a URL. *)
Definition forbidden (k : jsstr) : bool :=
  isConnectionMetaParameter k || isConnectionSecretParameter k || isInternalConnectionParameter k.

Definition keys_ok (own : list jsstr) (l : list (jsstr * jsstr)) : Prop :=
  forall k, k ∈ mkeys l -> k ∈ own \/ forbidden k = false.

Lemma keys_ok_oset own l k v : keys_ok own l -> (k ∈ own \/ forbidden k = false) -> keys_ok own (oset l k v).
Proof.
  intros Hl Hk x Hx. unfold oset in Hx. case_match; [auto|]. rewrite mkeys_set in Hx.
  case_decide; [auto|]. apply elem_of_app in Hx as [Hx| ->%list_elem_of_singleton]; auto.
Qed.

Lemma keys_ok_del own l k : keys_ok own l -> keys_ok own (mdel l k).
Proof. intros Hl x Hx. apply mkeys_del_elem in Hx as [_ Hx]. auto. Qed.

Lemma keys_ok_fold own (f : list (jsstr * jsstr) -> jsstr * jsstr -> list (jsstr * jsstr)) params l :
  (forall l e, keys_ok own l -> keys_ok own (f l e)) -> keys_ok own l -> keys_ok own (foldl f l params).
Proof. intros Hf. revert l. induction params as [|e params IH]; intros l Hl; cbn; auto. Qed.

Lemma mongo_param_ok l e : keys_ok [js "srv"; js "tls"] l -> keys_ok [js "srv"; js "tls"] (mongo_param l e).
Proof.
  intros Hl. destruct e as [k v]. unfold mongo_param. destruct (_ || _) eqn:Ef; [done|].
  assert (forall v, keys_ok [js "srv"; js "tls"] (oset l k v)) as Hk by (intros; apply keys_ok_oset; auto).
  destruct ((_ ==s js "ssl") || _); [|apply Hk]. destruct (parseOptionalBoolean _) as [[]|]; [|by apply keys_ok_del|apply Hk].
  apply keys_ok_oset; [done|]. left. right. by left.
Qed.

Lemma url_param_ok l e : keys_ok [] l -> keys_ok [] (url_param l e).
Proof.
  intros Hl. destruct e as [k v]. unfold url_param. destruct (_ || _) eqn:Ef; [done|].
  apply keys_ok_oset; [done|]. right. unfold forbidden. bools.
  repeat match goal with E : ?x = false |- context[?x] => rewrite E end. done.
Qed.

Lemma url_extra_ok engine params : keys_ok [] (url_extra engine params).
Proof.
  unfold url_extra. assert (keys_ok [] (foldl url_param [] params)) as Hl.
  { apply keys_ok_fold; [apply url_param_ok|]. intros k Hk. by apply elem_of_nil in Hk. }
  assert (forall ks l, keys_ok [] l -> keys_ok [] (foldl (fun m k => if bigquery_key k then m else mdel m k) l ks)) as Hdel.
  { intros ks. induction ks as [|k ks IH]; intros l Hk; [done|]. apply IH. case_match; [done|by apply keys_ok_del]. }
  case_match; [by apply Hdel|done].
Qed.

Lemma shown_parameters_ok p : keys_ok [js "sslmode"] (safeConnectionParameters p).
Proof.
  intros k Hk. unfold safeConnectionParameters in Hk. set (l := mof _) in Hk.
  assert (forall k, k ∈ mkeys l -> forbidden k = false) as Hl.
  { intros x Hx. unfold l in Hx. apply (proj1 (mof_keys _ _)) in Hx. unfold mkeys in Hx. rewrite sort_by_perm in Hx.
    apply list_elem_of_In, in_map_iff in Hx as (e & <- & He). apply list_elem_of_In, filterb_elem in He as [He _].
    unfold shown_param in He. rewrite !andb_true_iff, !negb_true_iff in He. unfold forbidden.
    by destruct He as [[[[_ ->] ->] _] ->]. }
  destruct (_ || _); [|by right; apply Hl]. rewrite mkeys_set in Hk. case_decide; [by right; apply Hl|].
  apply elem_of_app in Hk as [Hk| ->%list_elem_of_singleton]; [by right; apply Hl|left; by left].
Qed.

(** The parameters read have distinct names. *)
Lemma oset_NoDup (l : list (jsstr * jsstr)) k v : NoDup (mkeys l) -> NoDup (mkeys (oset l k v)).
Proof. intros Hl. unfold oset. case_match; [done|by apply mset_NoDup]. Qed.

Lemma fold_NoDup {A} (f : list (jsstr * jsstr) -> A -> list (jsstr * jsstr)) (params : list A) l :
  (forall l e, NoDup (mkeys l) -> NoDup (mkeys (f l e))) -> NoDup (mkeys l) -> NoDup (mkeys (foldl f l params)).
Proof. intros Hf. revert l. induction params as [|e params IH]; intros l Hl; [done|]. cbn [foldl]. by apply IH, Hf. Qed.

Lemma parsed_NoDup raw u pw : parseConnectionUrl raw = Some (mkParsed u pw) -> NoDup (mkeys (up_extraParams u)).
Proof.
  assert (forall l e, NoDup (mkeys l) -> NoDup (mkeys (mongo_param l e))) as Hm.
  { intros l [k v] Hl. unfold mongo_param. repeat case_match; try done; by first [apply oset_NoDup|apply mdel_NoDup]. }
  assert (forall l e, NoDup (mkeys l) -> NoDup (mkeys (url_param l e))) as Hu.
  { intros l [k v] Hl. unfold url_param. case_match; [done|by apply oset_NoDup]. }
  unfold parseConnectionUrl. case_match; [done|]. case_match.
  - unfold parseMongoConnectionUrl. destruct (mongo_exec _) as [m|]; [|done].
    destruct (mongo_endpoint _), (parseUrlMetaParams _ _). intros Hp. apply (inj Some) in Hp. injection Hp as <- _. cbn.
    destruct (mm_srv m); [apply oset_NoDup|]; apply fold_NoDup; try done; apply NoDup_nil_2.
  - destruct (new_URL _) as [url|]; [|done]. cbn [mbind option_bind].
    assert (NoDup (mkeys (K := jsstr) (V := jsstr) [])) as Hnil by apply NoDup_nil_2.
    assert (forall e, parseSqlUrl url e = mkParsed u pw -> NoDup (mkeys (up_extraParams u))) as Hsql.
    { intros e. unfold parseSqlUrl. destruct (parseUrlMetaParams _ _). intros Hp. injection Hp as <- _. cbn.
      unfold url_extra. case_match; [|by apply fold_NoDup]. apply fold_NoDup; [|by apply fold_NoDup].
      intros m x Hl. case_match; [done|by apply mdel_NoDup]. }
    destruct (parseCloudflareD1Url url) as [d1|] eqn:Ed.
    + unfold parseCloudflareD1Url in Ed. destruct (d1_target url) as [[a d]|]; [|done]. cbn [mbind option_bind] in Ed.
      case_match; [done|]. destruct (parseUrlMetaParams _ _). apply (inj Some) in Ed. subst d1.
      intros Hp. apply (inj Some) in Hp. by injection Hp as <- _.
    + destruct (protocol_engine _) as [e|]; [|done]. cbn [mbind option_bind]. intros Hp. apply (inj Some) in Hp. eauto.
Qed.

Lemma parsed_is_safe raw u pw :
  parseConnectionUrl raw = Some (mkParsed u pw) ->
  keys_ok [js "srv"; js "tls"] (up_extraParams u)
  /\ up_allowWrites u <> Some true /\ up_readonlyDefault u <> Some false
  /\ (up_engine u = bigquery \/ up_provider u = p_cloudflareD1 -> pw = None).
Proof.
  intros Hp. unfold parseConnectionUrl in Hp. case_match; [done|]. case_match.
  - unfold parseMongoConnectionUrl in Hp. destruct (mongo_exec _) as [m|]; [|done].
    destruct (mongo_endpoint _), (parseUrlMetaParams _ _). apply (inj Some) in Hp. injection Hp as <- _. cbn.
    split_and!; [|done|done|by intros []]. assert (keys_ok [js "srv"; js "tls"] []) as Hnil.
    { intros k Hk. by apply elem_of_nil in Hk. }
    pose proof (keys_ok_fold _ mongo_param (form_parse (default [] (mm_query m))) [] mongo_param_ok Hnil) as Hl.
    destruct (mm_srv m); [|done]. apply keys_ok_oset; [done|]. left. by left.
  - destruct (new_URL _) as [url|]; [|done]. cbn [mbind option_bind] in Hp.
    destruct (parseCloudflareD1Url url) as [d1|] eqn:Ed.
    + unfold parseCloudflareD1Url in Ed. destruct (d1_target url) as [[a d]|]; [|done]. cbn [mbind option_bind] in Ed.
      case_match; [done|]. destruct (parseUrlMetaParams _ _). apply (inj Some) in Ed. subst d1.
      apply (inj Some) in Hp. injection Hp as <- <-. cbn.
      split_and!; try done. intros k Hk. by apply elem_of_nil in Hk.
    + destruct (protocol_engine _) as [engine|] eqn:Ee; [|done]. cbn [mbind option_bind] in Hp.
      apply (inj Some) in Hp. unfold parseSqlUrl in Hp. destruct (parseUrlMetaParams _ _). injection Hp as <- <-. cbn.
      split_and!.
      * intros k Hk. destruct (url_extra_ok engine _ k Hk) as [Hn|]; [by apply elem_of_nil in Hn|auto].
      * by case_match.
      * by case_match.
      * case_bool_decide; [done|]. intros [->|Hpr]; [done|done].
Qed.

(** Whatever text is pasted, the profile fields read from it hold no secret, no naming or
    write flag and no DopeDB-internal parameter (but for the driver's own [srv] and [tls]); they
    never turn writes on or the read-only default off; and a BigQuery or D1 URL gives no
    password. The URL shown for any profile has no secret or internal parameter either. *)
Theorem urls_carry_no_authority :
  (forall raw u pw, parseConnectionUrl raw = Some (mkParsed u pw) ->
     keys_ok [js "srv"; js "tls"] (up_extraParams u)
     /\ up_allowWrites u <> Some true /\ up_readonlyDefault u <> Some false
     /\ (up_engine u = bigquery \/ up_provider u = p_cloudflareD1 -> pw = None))
  /\ (forall p, keys_ok [js "sslmode"] (safeConnectionParameters p)).
Proof.
  split.
  - apply parsed_is_safe.
  - apply shown_parameters_ok.
Qed.

End safety.

Definition pasted_url : jsstr := js "export DB_URL='mongodb://ann:pw@h:1/db?token=t&allowWrites=true&ssl=1&w=1'".

Lemma urls_carry_no_authority_witness :
  match parseConnectionUrl pasted_url with
  | Some (mkParsed u pw) =>
    keys_ok [js "srv"; js "tls"] (up_extraParams u) /\ up_allowWrites u <> Some true
    /\ up_extraParams u = [(js "tls", js "true"); (js "w", js "1")] /\ pw = Some (js "pw")
  | None => False
  end.
Proof.
  destruct urls_carry_no_authority as [Hp _]. specialize (Hp pasted_url).
  assert (is_Some (parseConnectionUrl pasted_url)) as [[u pw] E] by (vm_compute; by eexists).
  destruct (Hp u pw E) as (Hk & Hw & _).
  assert (up_extraParams u = [(js "tls", js "true"); (js "w", js "1")] /\ pw = Some (js "pw")) as [Ex Epw].
  { vm_compute in E. injection E as <- <-. vm_compute. split; reflexivity. }
  rewrite E. split; [exact Hk|]. split; [exact Hw|]. split; [exact Ex|exact Epw].
Defined.
