(* ===== verification/ConnectionEditor.v ===== *)
(** * The connection editor's rules

    Models [src/features/connections/connectionEditorModel.ts] (switching the data source and
    its parameters), [connectionEditorInteraction.ts], [useAdvancedParameterRows.ts] (the
    free-form parameter rows) and the form that [useConnectionUrlDraft.ts] makes of a parsed
    URL. The string tables of the data sources are left out. *)

From S2P Require Import Prelude JsString JsText JsMap JsSort SqlIdent JsValue Environment SafetyPolicy.
From S2P Require Import Connections ConnectionUrl.
From Stdlib Require String.
Import Stdlib.Strings.String.StringSyntax.

(** ** Parameters *)

Definition SCHEMA_SCOPE_PARAMETER : jsstr := js "dopedb.schemaScope".
Definition OBJECT_PATTERN_PARAMETER : jsstr := js "dopedb.objectPattern".
Definition isIntrospectionParameter (key : jsstr) : bool :=
  bool_decide (key ∈ [SCHEMA_SCOPE_PARAMETER; OBJECT_PATTERN_PARAMETER]).

Definition POSTGRES_SSL_MODES : list jsstr :=
  [js "disable"; js "allow"; js "prefer"; js "require"; js "verify-ca"; js "verify-full"].
Definition MYSQL_SSL_MODES : list jsstr :=
  [js "disabled"; js "preferred"; js "required"; js "verify-ca"; js "verify-identity"].
Definition SQL_TLS_PARAMETERS : list jsstr :=
  [js "sslrootcert"; js "sslrootcert_pem"; js "sslcert"; js "sslcert_pem"; js "sslkey"; js "sslkey_pem"].
Definition MONGO_TLS_PARAMETERS : list jsstr := [js "tls"; js "tlsCAFile"; js "tlsCertificateKeyFile"].
Definition BIGQUERY_LOCATION_PARAMETER : jsstr := js "location".
Definition BIGQUERY_MAXIMUM_BYTES_BILLED_PARAMETER : jsstr := js "maximumBytesBilled".
Definition BIGQUERY_DEFAULT_MAXIMUM_BYTES_BILLED : jsstr := js "1073741824".

Definition CONTROLLED_CONNECTION_PARAMETERS : list jsstr :=
  SQL_TLS_PARAMETERS ++ MONGO_TLS_PARAMETERS
  ++ [CONNECTION_SSH_ALIAS_PARAMETER; CONNECTION_INPUT_MODE_PARAMETER; CONNECTION_TIME_ZONE_PARAMETER;
      CONNECTION_KEEP_ALIVE_SECONDS_PARAMETER; CONNECTION_AUTO_DISCONNECT_SECONDS_PARAMETER;
      CONNECTION_STARTUP_SCRIPT_PARAMETER; js "srv"; BIGQUERY_AUTH_MODE_PARAMETER; BIGQUERY_LOCATION_PARAMETER;
      BIGQUERY_MAXIMUM_BYTES_BILLED_PARAMETER].

Definition compatibleDrivers (drivers : list DriverDescriptor) (engine : Engine) (provider : ConnectionProvider)
    : list DriverDescriptor :=
  filterb (fun d => negb (bool_decide (dd_installState d = drv_planned)) && bool_decide (dd_engine d = engine)
    && (bool_decide (provider = p_auto) || bool_decide (provider ∈ dd_supportedProviders d))) drivers.

Section rules.
Context `{UrlPlatform}.

Definition sslModeForEngine (engine : Engine) (current : jsstr) : jsstr :=
  let normalized := replace_units (N.eqb cUS) (js "-") (toLowerCase (trim current)) in
  match engine with
  | postgres =>
    let mapped :=
      if normalized ==s js "disabled" then js "disable"
      else if normalized ==s js "preferred" then js "prefer"
      else if normalized ==s js "required" then js "require"
      else if normalized ==s js "verify-identity" then js "verify-full" else normalized in
    if bool_decide (mapped ∈ POSTGRES_SSL_MODES) then mapped else connectionDefaultSslMode engine
  | mysql =>
    let mapped :=
      if normalized ==s js "disable" then js "disabled"
      else if normalized ==s js "prefer" then js "preferred"
      else if normalized ==s js "require" then js "required"
      else if normalized ==s js "verify-full" then js "verify-identity" else normalized in
    if bool_decide (mapped ∈ MYSQL_SSL_MODES) then mapped else connectionDefaultSslMode engine
  | _ => connectionDefaultSslMode engine
  end.

Record profile_flags := mkFlags {
  fl_isSqlite : bool; fl_isCloudflareD1 : bool; fl_isMongo : bool; fl_isBigQuery : bool; fl_isSharedTemplate : bool;
  fl_isWorkspaceManaged : bool; fl_canEditConnection : bool; fl_supportsSqlSessionOptions : bool;
  fl_canDiscoverDatabases : bool; fl_supportsStartupScript : bool; fl_keepAliveEnabled : bool;
  fl_autoDisconnectEnabled : bool; fl_srv : bool; fl_mongoTlsEnabled : bool; fl_sqlSslModes : list jsstr;
  fl_sqlTlsEnabled : bool }.

Definition connectionProfileFlags (form : ConnectionProfile) : profile_flags :=
  let e := cp_engine form in let extra := cp_extraParams form in
  let shared := negb (bool_decide (cp_workspaceAccess form = wa_local)) in
  let sql := bool_decide (e = postgres) || bool_decide (e = mysql) in
  {| fl_isSqlite := bool_decide (e = sqlite); fl_isCloudflareD1 := is_d1 form; fl_isMongo := bool_decide (e = mongodb);
     fl_isBigQuery := bool_decide (e = bigquery); fl_isSharedTemplate := shared;
     fl_isWorkspaceManaged := shared && bool_decide (cp_credentialMode form = cm_managed);
     fl_canEditConnection := negb shared || bool_decide (cp_workspaceAccess form = wa_manage);
     fl_supportsSqlSessionOptions := sql;
     fl_canDiscoverDatabases := negb (bool_decide (e = sqlite)) && negb shared
       && bool_decide (cp_credentialMode form = cm_local) && (sql || bool_decide (e = mongodb));
     fl_supportsStartupScript := sql;
     fl_keepAliveEnabled := oin extra CONNECTION_KEEP_ALIVE_SECONDS_PARAMETER;
     fl_autoDisconnectEnabled := oin extra CONNECTION_AUTO_DISCONNECT_SECONDS_PARAMETER;
     fl_srv := param_is extra (js "srv") (js "true");
     fl_mongoTlsEnabled := match mget extra (js "tls") with Some v => toLowerCase v ==s js "true" | None => false end;
     fl_sqlSslModes := if bool_decide (e = mysql) then MYSQL_SSL_MODES else POSTGRES_SSL_MODES;
     fl_sqlTlsEnabled := negb (bool_decide (cp_sslmode form ∈ [js "disable"; js "disabled"])) |}.

(** [for (const key of keys) delete o\[key\]] *)
Definition delete_all (keys : list jsstr) (o : list (jsstr * jsstr)) : list (jsstr * jsstr) := foldl mdel o keys.

Definition clearIncompatibleSourceParameters (current : ConnectionProfile) (engine : Engine) : list (jsstr * jsstr) :=
  let extra := cp_extraParams current in
  if bool_decide (engine = bigquery) then
    let q := [(BIGQUERY_MAXIMUM_BYTES_BILLED_PARAMETER,
               default BIGQUERY_DEFAULT_MAXIMUM_BYTES_BILLED (mget extra BIGQUERY_MAXIMUM_BYTES_BILLED_PARAMETER))] in
    let q := match truthy (mget extra BIGQUERY_LOCATION_PARAMETER) with
             | Some location => mset q BIGQUERY_LOCATION_PARAMETER location | None => q end in
    if bool_decide (bigQueryAuthMode current = serviceAccount)
    then mset q BIGQUERY_AUTH_MODE_PARAMETER (js "serviceAccount") else q
  else
    let x := delete_all [BIGQUERY_AUTH_MODE_PARAMETER; BIGQUERY_LOCATION_PARAMETER;
                         BIGQUERY_MAXIMUM_BYTES_BILLED_PARAMETER] extra in
    let x := if bool_decide (engine = mongodb)
      then delete_all [SCHEMA_SCOPE_PARAMETER; OBJECT_PATTERN_PARAMETER; CONNECTION_TIME_ZONE_PARAMETER;
                       CONNECTION_STARTUP_SCRIPT_PARAMETER; CONNECTION_KEEP_ALIVE_SECONDS_PARAMETER] x else x in
    let x := if bool_decide (engine = sqlite)
      then delete_all [CONNECTION_TIME_ZONE_PARAMETER; CONNECTION_KEEP_ALIVE_SECONDS_PARAMETER;
                       CONNECTION_STARTUP_SCRIPT_PARAMETER; CONNECTION_SSH_ALIAS_PARAMETER] x else x in
    let x := if bool_decide (engine = mongodb) || bool_decide (engine = sqlite)
      then delete_all SQL_TLS_PARAMETERS x else x in
    if negb (bool_decide (engine = mongodb)) then delete_all MONGO_TLS_PARAMETERS x else x.

Definition switchConnectionSource (c : ConnectionProfile) (engine : Engine) (provider : ConnectionProvider)
    : ConnectionProfile :=
  let fromBq := bool_decide (cp_engine c = bigquery) in let toBq := bool_decide (engine = bigquery) in
  let fromD1 := bool_decide (cp_provider c = p_cloudflareD1) in let toD1 := bool_decide (provider = p_cloudflareD1) in
  {| cp_id := cp_id c; cp_name := cp_name c; cp_engine := engine; cp_provider := provider; cp_driverId := None;
     cp_host := if toBq || toD1 then [] else if fromBq || fromD1 then js "localhost" else cp_host c;
     cp_port := if toD1 then 443
                else if toBq || fromBq || fromD1 then CONNECTION_DEFAULT_PORTS engine
                else if (cp_port c =? CONNECTION_DEFAULT_PORTS (cp_engine c))%Z then CONNECTION_DEFAULT_PORTS engine
                else cp_port c;
     cp_database := if toBq || fromBq || toD1 || fromD1 then [] else cp_database c;
     cp_username := if toBq || toD1 then [] else cp_username c;
     cp_sslmode := if toD1 then js "require" else sslModeForEngine engine (cp_sslmode c);
     cp_extraParams := clearIncompatibleSourceParameters c engine;
     cp_readonlyDefault := if toBq then true else cp_readonlyDefault c;
     cp_allowWrites := if toBq then false else cp_allowWrites c;
     cp_schemaAccessAvailable := cp_schemaAccessAvailable c; cp_secretRef := cp_secretRef c; cp_env := cp_env c;
     cp_effectiveEnv := cp_effectiveEnv c;
     cp_schemaGroup := if bool_decide (engine = mongodb) || toBq then None else cp_schemaGroup c;
     cp_workspaceAccess := cp_workspaceAccess c; cp_credentialMode := cp_credentialMode c;
     cp_providerTarget := cp_providerTarget c |}.

(** ** The form of a parsed URL *)

Inductive ConnectionInputMode := m_default | m_urlOnly.
#[export] Instance ConnectionInputMode_eq_dec : EqDecision ConnectionInputMode.
Proof. solve_decision. Defined.

(** The parameters of the form that survive a URL. *)
Definition kept_parameter (engine : Engine) (e : jsstr * jsstr) : bool :=
  (negb (bool_decide (engine = mongodb)) && isIntrospectionParameter e.1)
  || (isConnectionOptionParameter e.1 && isConnectionOptionSupported e.1 engine).

Definition internal_params (form : ConnectionProfile) (engine : Engine) (mode : ConnectionInputMode)
    : list (jsstr * jsstr) :=
  let kept := filterb (kept_parameter engine) (cp_extraParams form) in
  match mode with m_urlOnly => mset kept CONNECTION_INPUT_MODE_PARAMETER (js "urlOnly") | m_default => kept end.

(** [nextForm] of [apply]. *)
Definition applied_form (form : ConnectionProfile) (u : profile_update) (mode : ConnectionInputMode)
    (normalizeDraft : bool) : ConnectionProfile :=
  {| cp_id := cp_id form;
     cp_name := if normalizeDraft && negb (non_empty (trim (cp_name form))) then up_name u else cp_name form;
     cp_engine := up_engine u; cp_provider := up_provider u; cp_driverId := up_driverId u; cp_host := up_host u;
     cp_port := up_port u; cp_database := up_database u; cp_username := up_username u; cp_sslmode := up_sslmode u;
     cp_extraParams := merge (internal_params form (up_engine u) mode) (up_extraParams u);
     cp_readonlyDefault := default (cp_readonlyDefault form) (up_readonlyDefault u);
     cp_allowWrites := default (cp_allowWrites form) (up_allowWrites u);
     cp_schemaAccessAvailable := cp_schemaAccessAvailable form; cp_secretRef := cp_secretRef form;
     cp_env := match up_env u with Some e => Some e | None => cp_env form end;
     cp_effectiveEnv := cp_effectiveEnv form;
     cp_schemaGroup := match up_schemaGroup u with Some g => Some g | None => cp_schemaGroup form end;
     cp_workspaceAccess := cp_workspaceAccess form; cp_credentialMode := cp_credentialMode form;
     cp_providerTarget := cp_providerTarget form |}.

End rules.

(** ** Free-form parameter rows *)

Record AdvancedParameterRow := mkRow { ar_id : nat; ar_key : jsstr; ar_value : jsstr }.
Inductive AdvancedParameterIssue := ai_reserved | ai_duplicate.

(** The rows of the hook with the value of [nextRowId]. *)
Record advanced := mkAdvanced { ad_next : nat; ad_rows : list AdvancedParameterRow }.

Definition isFreeFormParameter (key : jsstr) : bool :=
  negb (isIntrospectionParameter key) && negb (bool_decide (key ∈ CONTROLLED_CONNECTION_PARAMETERS)).

Definition freeFormParameters (extra : list (jsstr * jsstr)) : list (jsstr * jsstr) :=
  filterb (fun e => isFreeFormParameter e.1) extra.

Definition row_counts (r : AdvancedParameterRow) : bool :=
  non_empty (trim (ar_key r)) && isFreeFormParameter (ar_key r).
Definition rowParameters (rows : list AdvancedParameterRow) : list (jsstr * jsstr) :=
  foldl (fun m r => if row_counts r then oset m (ar_key r) (ar_value r) else m) [] rows.

(** [key in right && right\[key\] === left\[key\]] *)
Definition same_at (right : list (jsstr * jsstr)) (e : jsstr * jsstr) : bool :=
  oin right e.1 && match oget right e.1 with Own v => v ==s e.2 | _ => false end.
Definition sameParameters (left right : list (jsstr * jsstr)) : bool :=
  (length left =? length right) && forallb (same_at right) left.

(** A row per entry, numbered by [id_of] or, for a new key, by the next number. *)
Fixpoint build_rows (ids : list (jsstr * nat)) (next : nat) (l : list (jsstr * jsstr))
    : nat * list AdvancedParameterRow :=
  match l with
  | [] => (next, [])
  | (k, v) :: l =>
    let '(id, next) := match mget ids k with Some id => (id, next) | None => (S next, S next) end in
    let '(next, rows) := build_rows ids next l in (next, mkRow id k v :: rows)
  end.

Definition initial_rows (extra : list (jsstr * jsstr)) : advanced :=
  let '(next, rows) := build_rows [] 0 (freeFormParameters extra) in mkAdvanced next rows.

(** The effect of [useAdvancedParameterRows]. *)
Definition idsByKey (rows : list AdvancedParameterRow) : list (jsstr * nat) :=
  mof (map (fun r => (ar_key r, ar_id r)) (filterb (fun r => non_empty (trim (ar_key r))) rows)).
Definition sync_rows (a : advanced) (extra : list (jsstr * jsstr)) : advanced :=
  let external := freeFormParameters extra in
  if sameParameters (rowParameters (ad_rows a)) external then a
  else let '(next, rows) := build_rows (idsByKey (ad_rows a)) (ad_next a) external in mkAdvanced next rows.

(** What [commit] writes into the profile. *)
Definition commit_params (next : list AdvancedParameterRow) (extra : list (jsstr * jsstr)) : list (jsstr * jsstr) :=
  merge (filterb (fun e => negb (isFreeFormParameter e.1)) extra) (rowParameters next).

Definition update_row (a : advanced) (id : nat) (key value : jsstr) : advanced :=
  mkAdvanced (ad_next a) (map (fun r => if ar_id r =? id then mkRow id key value else r) (ad_rows a)).
Definition remove_row (a : advanced) (id : nat) : advanced :=
  mkAdvanced (ad_next a) (filterb (fun r => negb (ar_id r =? id)) (ad_rows a)).

(** The loop of [add]: [parameter], [parameter2], [parameter3], ... *)
Definition numbered_key (suffix : nat) : jsstr :=
  if suffix =? 1 then js "parameter" else js "parameter" ++ show_nat suffix.
Fixpoint fresh_key (used : list jsstr) (fuel suffix : nat) : option jsstr :=
  match fuel with
  | O => None
  | S fuel =>
    if bool_decide (numbered_key suffix ∈ used) then fresh_key used fuel (S suffix) else Some (numbered_key suffix)
  end.
Definition used_keys (a : advanced) (extra : list (jsstr * jsstr)) : list jsstr :=
  map ar_key (ad_rows a) ++ mkeys extra.
Definition add_row (a : advanced) (extra : list (jsstr * jsstr)) : option advanced :=
  let used := used_keys a extra in
  key ← fresh_key used (S (length used)) 1;
  Some (mkAdvanced (S (ad_next a)) (ad_rows a ++ [mkRow (S (ad_next a)) key []])).

Definition row_issue (rows : list AdvancedParameterRow) (r : AdvancedParameterRow) : option AdvancedParameterIssue :=
  if negb (non_empty (trim (ar_key r))) then None
  else if negb (isFreeFormParameter (ar_key r)) then Some ai_reserved
  else if existsb (fun c => negb (ar_id c =? ar_id r) && (ar_key c ==s ar_key r)) rows then Some ai_duplicate
  else None.

(** ** Keyboard and request identity *)

Inductive ConnectionEditorEnterCommand := ec_normalizeUrl | ec_save.
Record enter_event := mkEnter {
  en_key : jsstr; en_defaultPrevented : bool; en_isComposing : bool; en_busy : bool; en_editorOwnsTarget : bool;
  en_nestedFormOwnsTarget : bool; en_inputType : option jsstr; en_inputId : option jsstr }.
Definition SAVE_INPUT_TYPES : list jsstr :=
  [js "text"; js "password"; js "number"; js "url"; js "email"; js "tel"].

Definition connectionEditorEnterCommand (e : enter_event) : option ConnectionEditorEnterCommand :=
  if negb (en_key e ==s js "Enter") || en_defaultPrevented e || en_isComposing e || en_busy e
     || negb (en_editorOwnsTarget e) || en_nestedFormOwnsTarget e then None
  else if bool_decide (en_inputId e = Some (js "connection-url")) then Some ec_normalizeUrl
  else match en_inputType e with
       | Some t => if bool_decide (t ∈ SAVE_INPUT_TYPES) then Some ec_save else None
       | None => None
       end.

Definition connectionTestResultIsCurrent (startedRevision currentRevision requestId currentRequestId : nat) : bool :=
  (startedRevision =? currentRevision) && (requestId =? currentRequestId).
