(* ===== verification/ConnectionEditorInv.v ===== *)
(** * The connection editor's rules: what they guarantee

    Parameter rows agree with the profile after every edit and settle after a replacement
    exactly when no parameter has a blank name; a new row always gets a fresh name; switching
    the data source drops the parameters of the old one; and applying a URL changes neither
    the identity, the credentials nor the write permission of the form. *)

From S2P Require Import Prelude JsString JsText JsMap JsSort SqlIdent JsValue Environment SafetyPolicy.
From S2P Require Import JsUri Connections ConnectionUrl ConnectionUrlInv ConnectionEditor.
From Stdlib Require String.
Import Stdlib.Strings.String.StringSyntax.

(** ** Merged records *)

Lemma mget_merge {V} (a b : list (jsstr * V)) k :
  NoDup (mkeys b) -> mget (merge a b) k = match mget b k with Some v => Some v | None => mget a k end.
Proof.
  unfold merge. revert a. induction b as [|[x v] b IH]; intros a Hd; [done|]. cbn [foldl mget].
  unfold mkeys in Hd. cbn [map] in Hd. apply NoDup_cons in Hd as [Hx Hd]. rewrite IH, mget_set by done. cbn [fst snd].
  destruct (decide (k = x)) as [->|Hne]; [|done]. assert (mget b x = None) as -> by by apply mget_none. done.
Qed.

Lemma merge_disjoint {V} (a b : list (jsstr * V)) :
  NoDup (mkeys b) -> (forall k, k ∈ mkeys b -> k ∉ mkeys a) -> merge a b = a ++ b.
Proof.
  unfold merge. revert a. induction b as [|[x v] b IH]; intros a Hd Hk; [by rewrite app_nil_r|]. cbn [foldl fst snd].
  unfold mkeys in Hd. cbn [map] in Hd. apply NoDup_cons in Hd as [Hx Hd].
  rewrite mset_fresh by (apply Hk; by left). rewrite IH; [by rewrite <- app_assoc|done|].
  intros k Hk'. unfold mkeys. rewrite map_app, not_elem_of_app. split; [apply Hk; by right|].
  intros ->%list_elem_of_singleton. done.
Qed.

(** ** Rows *)

Lemma rowParameters_keys rows :
  NoDup (mkeys (rowParameters rows))
  /\ forall k, k ∈ mkeys (rowParameters rows) ->
     isFreeFormParameter k = true /\ trim k <> [] /\ k <> js "__proto__".
Proof.
  unfold rowParameters. induction rows as [|r rows [IHd IHk]] using rev_ind.
  { split; [constructor|]. intros k Hk. by apply elem_of_nil in Hk. }
  rewrite foldl_snoc. destruct (row_counts r) eqn:E; [|done]. unfold oset. case_bool_decide as Ep; [done|].
  split; [by apply mset_NoDup|]. intros k. rewrite mkeys_set. case_decide; [apply IHk|].
  intros [Hk| ->%list_elem_of_singleton]%elem_of_app; [by apply IHk|].
  unfold row_counts in E. apply andb_true_iff in E as [E1 E2]. split; [done|]. split; [by destruct (trim (ar_key r))|done].
Qed.

Lemma same_refl l : NoDup (mkeys l) -> sameParameters l l = true.
Proof.
  intros Hd. unfold sameParameters. rewrite Nat.eqb_refl. apply forallb_elem. intros [k v] Hkv.
  pose proof (elem_mget _ _ _ Hd Hkv) as E. unfold same_at, oin, oget. cbn [fst snd]. rewrite E. by apply bool_decide_eq_true.
Qed.

Lemma same_keys l r k : sameParameters l r = true -> k ∈ mkeys l -> k ∈ mkeys r.
Proof.
  unfold sameParameters. intros [_ H]%andb_true_iff Hk. rewrite forallb_elem in H.
  apply list_elem_of_In, in_map_iff in Hk as (e & <- & He). apply list_elem_of_In in He. specialize (H e He).
  unfold same_at, oget in H. apply mget_keys. destruct (mget r e.1); [by eexists|]. by repeat case_match; bools.
Qed.

Lemma same_keys_back l r k :
  sameParameters l r = true -> NoDup (mkeys l) -> NoDup (mkeys r) -> k ∈ mkeys r -> k ∈ mkeys l.
Proof.
  intros H Hl Hr Hk. pose proof H as Hlen. unfold sameParameters in Hlen. apply andb_true_iff in Hlen as [Hlen _].
  apply Nat.eqb_eq in Hlen. assert (mkeys l ⊆+ mkeys r) as Hs by (apply NoDup_submseteq; [done|]; intros x; by apply same_keys).
  apply submseteq_length_Permutation in Hs; [by rewrite Hs|]. unfold mkeys. rewrite !length_map. lia.
Qed.

Lemma commit_split rows extra :
  commit_params rows extra = filterb (fun e => negb (isFreeFormParameter e.1)) extra ++ rowParameters rows.
Proof.
  destruct (rowParameters_keys rows) as [Hd Hk]. apply merge_disjoint; [done|]. intros k Hin Hex.
  destruct (Hk k Hin) as [Hf _]. apply list_elem_of_In, in_map_iff in Hex as (e & <- & He).
  apply list_elem_of_In, filterb_elem in He as [He _]. by rewrite Hf in He.
Qed.

Lemma committed_free rows extra : freeFormParameters (commit_params rows extra) = rowParameters rows.
Proof.
  rewrite commit_split. unfold freeFormParameters. rewrite filterb_app, filterb_none, filterb_all; [done| |].
  - intros e He. apply (rowParameters_keys rows). apply list_elem_of_In, in_map. by apply list_elem_of_In.
  - intros e [He _]%filterb_elem. by apply negb_true_iff in He.
Qed.

(** After any edit of the rows the profile holds exactly what they say: the rows are left as
    they are by the effect that follows (so focus and order survive every keystroke), a
    free-form parameter has its row's value, and no other parameter changes. *)
Theorem row_edit_settles a extra :
  let extra' := commit_params (ad_rows a) extra in
  sync_rows a extra' = a
  /\ (forall k, isFreeFormParameter k = true -> mget extra' k = mget (rowParameters (ad_rows a)) k)
  /\ (forall k, isFreeFormParameter k = false -> mget extra' k = mget extra k).
Proof.
  intros extra'. destruct (rowParameters_keys (ad_rows a)) as [Hd Hk]. split; [|split].
  - unfold sync_rows, extra'. by rewrite committed_free, same_refl.
  - intros k Hf. unfold extra', commit_params. rewrite mget_merge by done.
    destruct (mget (rowParameters (ad_rows a)) k); [done|]. apply mget_none. intros Hin.
    apply list_elem_of_In, in_map_iff in Hin as (e & <- & He). apply list_elem_of_In, filterb_elem in He as [He _].
    by rewrite Hf in He.
  - intros k Hf. unfold extra', commit_params. rewrite mget_merge by done.
    destruct (mget (rowParameters (ad_rows a)) k) as [v|] eqn:E.
    + assert (k ∈ mkeys (rowParameters (ad_rows a))) as Hin by (apply mget_keys; by eexists).
      destruct (Hk k Hin) as [Hf' _]. congruence.
    + clear E. induction extra as [|[x v] l IH]; [done|]. unfold filterb in *. cbn [List.filter mget fst].
      destruct (decide (k = x)) as [->|Hne].
      * rewrite Hf. cbn. by rewrite decide_True.
      * destruct (negb (isFreeFormParameter x)); [cbn; by rewrite decide_False|done].
Qed.

(** ** Settling *)

(** [rowParameters] on the pairs of the rows. *)
Definition pair_parameters (l : list (jsstr * jsstr)) : list (jsstr * jsstr) :=
  foldl (fun m e => if non_empty (trim e.1) && isFreeFormParameter e.1 then oset m e.1 e.2 else m) [] l.

Lemma build_rows_pairs ids next l :
  map (fun r => (ar_key r, ar_value r)) (build_rows ids next l).2 = l.
Proof.
  revert next. induction l as [|[k v] l IH]; intros next; [done|]. cbn [build_rows].
  destruct (match mget ids k with Some id => (id, next) | None => (S next, S next) end) as [id n].
  specialize (IH n). destruct (build_rows ids n l) as [m rows]. cbn in *. by rewrite IH.
Qed.

Lemma rowParameters_pairs rows l :
  map (fun r => (ar_key r, ar_value r)) rows = l ->
  rowParameters rows = pair_parameters l.
Proof.
  unfold rowParameters, pair_parameters. generalize (@nil (jsstr * jsstr)). intros m <-. revert m.
  induction rows as [|r rows IH]; intros m; [done|]. cbn [foldl map fst snd]. apply IH.
Qed.

(** A name the rows can carry. *)
Definition row_name (k : jsstr) : Prop := trim k <> [] /\ k <> js "__proto__".

Lemma rows_of_named l :
  NoDup (mkeys l) -> (forall k, k ∈ mkeys l -> row_name k /\ isFreeFormParameter k = true) ->
  pair_parameters l = l.
Proof.
  intros Hd Hk. unfold pair_parameters. rewrite <- (mof_fresh l Hd) at 2. unfold mof. generalize (@nil (jsstr * jsstr)). clear Hd.
  induction l as [|[k v] l IH]; intros m; [done|]. cbn [foldl fst snd].
  destruct (Hk k ltac:(by left)) as [[Ht Hp] Hf]. rewrite Hf. destruct (trim k) eqn:E; [done|]. cbn [non_empty andb].
  unfold oset. rewrite bool_decide_eq_false_2 by done. apply IH. intros x Hx. apply Hk. by right.
Qed.

(** The effect has nothing left to do. *)
Definition settled (a : advanced) (extra : list (jsstr * jsstr)) : bool :=
  sameParameters (rowParameters (ad_rows a)) (freeFormParameters extra).

Lemma free_keys extra : NoDup (mkeys extra) -> NoDup (mkeys (freeFormParameters extra)).
Proof. intros Hd. by apply filter_keys_NoDup. Qed.

(** One run of the effect brings the rows to the parameters of the profile, whatever replaced
    them, exactly when no free-form parameter has a blank name (or the name [__proto__]);
    with such a parameter no rows at all agree with it, and the effect runs for ever. *)
Theorem rows_settle_iff extra :
  NoDup (mkeys extra) ->
  ((forall k, k ∈ mkeys (freeFormParameters extra) -> row_name k)
     <-> forall a, settled (sync_rows a extra) extra = true)
  /\ ((exists k, k ∈ mkeys (freeFormParameters extra) /\ ~ row_name k)
      -> forall a, settled a extra = false).
Proof.
  intros Hd. assert (forall k a, k ∈ mkeys (freeFormParameters extra) -> ~ row_name k -> settled a extra = false) as Hnever.
  { intros k a Hk Hn. unfold settled. apply not_true_iff_false. intros Hs.
    destruct (rowParameters_keys (ad_rows a)) as [Hrd Hrk]. apply Hn, (Hrk k).
    by apply (same_keys_back _ _ k Hs Hrd (free_keys extra Hd)). }
  split; [split|].
  - intros Hk a. unfold settled, sync_rows. case_match eqn:E; [done|].
    pose proof (build_rows_pairs (idsByKey (ad_rows a)) (ad_next a) (freeFormParameters extra)) as Hp.
    destruct (build_rows _ _ _) as [next rows]. cbn [ad_rows snd] in *. rewrite (rowParameters_pairs _ _ Hp).
    rewrite rows_of_named; [by apply same_refl, free_keys|by apply free_keys|]. intros k Hin. split; [auto|].
    apply list_elem_of_In, in_map_iff in Hin as (e & <- & He). by apply list_elem_of_In, filterb_elem in He as [He _].
  - intros Hs k Hk. specialize (Hs (initial_rows [])).
    destruct (decide (trim k = [])) as [Ht|Ht]; [|destruct (decide (k = js "__proto__")) as [Hp|Hp]; [|done]];
      exfalso; rewrite (Hnever k _ Hk) in Hs; try done; by intros [].
  - intros (k & Hk & Hn) a. by eapply Hnever.
Qed.

Lemma rows_settle_iff_witness :
  settled (sync_rows (mkAdvanced 3 [mkRow 2 (js "old") []; mkRow 3 (js "w") (js "1")]) [(js "w", js "2"); (js "srv", js "true")])
    [(js "w", js "2"); (js "srv", js "true")] = true
  /\ ~ row_name (js " ").
Proof.
  split; [|by intros [[]]]. apply rows_settle_iff.
  - refine (proj1 (bool_decide_eq_true _) _). vm_compute. done.
  - intros k Hk. assert (k = js "w") as -> by by apply list_elem_of_singleton. split; done.
Defined.

(** ** New rows *)

Lemma numbered_key_inj i j : 0 < i -> 0 < j -> numbered_key i = numbered_key j -> i = j.
Proof.
  assert (forall n, show_nat n <> []) as Hne.
  { intros n E. destruct (show_digits (Z.of_nat n)) as [_ Hv]; [lia|]. destruct (decide (n = 0)) as [->|]; [done|].
    assert (show_nat n = show_Z (Z.of_nat n)) as En by (unfold show_nat, show_Z; by destruct n).
    rewrite <- En, E in Hv. cbn in Hv. lia. }
  intros Hi Hj. unfold numbered_key. destruct (Nat.eqb_spec i 1), (Nat.eqb_spec j 1); subst; try done.
  - intros E. rewrite <- (app_nil_r (js "parameter")) in E at 1. apply app_inv_head in E. by destruct (Hne j).
  - intros E. rewrite <- (app_nil_r (js "parameter")) in E at 2. apply app_inv_head in E. by destruct (Hne i).
  - intros E%app_inv_head. by apply show_nat_inj.
Qed.

Lemma fresh_key_spec used fuel i :
  0 < i -> NoDup (map numbered_key (seq i fuel)) /\
  match fresh_key used fuel i with
  | Some k => k ∉ used /\ exists j, i <= j /\ k = numbered_key j
  | None => forall j, i <= j < i + fuel -> numbered_key j ∈ used
  end.
Proof.
  revert i. induction fuel as [|fuel IH]; intros i Hi; [split; [constructor|]; cbn; lia|].
  destruct (IH (S i) ltac:(lia)) as [Hd Hf]. split.
  - cbn [seq map]. constructor; [|done]. rewrite list_elem_of_In, in_map_iff. intros (j & E & Hj%in_seq).
    apply numbered_key_inj in E; lia.
  - cbn [fresh_key]. case_bool_decide as Hu.
    + destruct (fresh_key used fuel (S i)) as [k|].
      * destruct Hf as (? & j & ? & ->). split; [done|]. exists j. split; [lia|done].
      * intros j Hj. destruct (decide (j = i)) as [->|]; [done|]. apply Hf. lia.
    + split; [done|]. by exists i.
Qed.

(** Adding a row always ends, with an empty row at the end whose name no row and no parameter
    of the profile has yet, and whose number is new. *)
Theorem add_row_fresh a extra :
  exists key, add_row a extra = Some (mkAdvanced (S (ad_next a)) (ad_rows a ++ [mkRow (S (ad_next a)) key []]))
    /\ key ∉ map ar_key (ad_rows a) /\ key ∉ mkeys extra /\ exists j, 1 <= j /\ key = numbered_key j.
Proof.
  unfold add_row. set (used := used_keys a extra).
  destruct (fresh_key_spec used (S (length used)) 1 ltac:(lia)) as [Hd Hf].
  destruct (fresh_key used (S (length used)) 1) as [k|].
  - destruct Hf as (Hu & Hj). exists k. unfold used, used_keys in Hu. rewrite not_elem_of_app in Hu.
    destruct Hu. by split_and!.
  - exfalso. assert (map numbered_key (seq 1 (S (length used))) ⊆+ used) as Hs.
    { apply NoDup_submseteq; [done|]. intros x. rewrite list_elem_of_In, in_map_iff. intros (j & <- & Hj%in_seq).
      apply Hf. lia. }
    apply submseteq_length in Hs. rewrite length_map, length_seq in Hs. lia.
Qed.

(** A pasted URL with a nameless parameter: the editor's effect never settles on it. *)
Example blank_parameter_never_settles :
  match parseConnectionUrl (H := ascii_platform) (js "mongodb://h/db?=x") with
  | Some p => up_extraParams (pu_update p) = [([], js "x")] /\ forall a, settled a (up_extraParams (pu_update p)) = false
  | None => False
  end.
Proof.
  assert (is_Some (parseConnectionUrl (H := ascii_platform) (js "mongodb://h/db?=x"))) as [p E] by (vm_compute; by eexists).
  assert (up_extraParams (pu_update p) = [([], js "x")]) as Ep by (vm_compute in E; injection E as <-; reflexivity).
  rewrite E, Ep. split; [reflexivity|]. apply rows_settle_iff; [apply NoDup_singleton|].
  exists []. split; [by left|]. by intros [[]].
Qed.

(** ** Switching the data source *)

(** The parameters of the other engines. *)
Definition foreign_parameters (engine : Engine) : list jsstr :=
  [BIGQUERY_AUTH_MODE_PARAMETER; BIGQUERY_LOCATION_PARAMETER; BIGQUERY_MAXIMUM_BYTES_BILLED_PARAMETER]
  ++ match engine with
     | mongodb => [SCHEMA_SCOPE_PARAMETER; OBJECT_PATTERN_PARAMETER; CONNECTION_TIME_ZONE_PARAMETER;
                   CONNECTION_STARTUP_SCRIPT_PARAMETER; CONNECTION_KEEP_ALIVE_SECONDS_PARAMETER] ++ SQL_TLS_PARAMETERS
     | sqlite => [CONNECTION_TIME_ZONE_PARAMETER; CONNECTION_KEEP_ALIVE_SECONDS_PARAMETER;
                  CONNECTION_STARTUP_SCRIPT_PARAMETER; CONNECTION_SSH_ALIAS_PARAMETER]
                 ++ SQL_TLS_PARAMETERS ++ MONGO_TLS_PARAMETERS
     | _ => MONGO_TLS_PARAMETERS
     end.

Lemma mget_delete_all keys o k : mget (delete_all keys o) k = if decide (k ∈ keys) then None else mget o k.
Proof.
  unfold delete_all. revert o. induction keys as [|x keys IH]; intros o; cbn [foldl].
  - by rewrite decide_False by apply not_elem_of_nil.
  - rewrite IH, mget_del. destruct (decide (k ∈ keys)).
    + by rewrite decide_True by (by right).
    + destruct (decide (k = x)) as [->|]; [by rewrite decide_True by (by left)|].
      rewrite decide_False; [done|]. by rewrite not_elem_of_cons.
Qed.

Section switch.
Context `{UrlPlatform}.

Lemma cleared_parameters c engine k :
  engine <> bigquery ->
  mget (clearIncompatibleSourceParameters c engine) k
  = if decide (k ∈ foreign_parameters engine) then None else mget (cp_extraParams c) k.
Proof.
  intros Hne. unfold clearIncompatibleSourceParameters, foreign_parameters.
  assert (forall a b, bool_decide (k ∈ a ++ b) = bool_decide (k ∈ a) || bool_decide (k ∈ b)) as Happ.
  { intros a b. rewrite <- bool_decide_or. apply bool_decide_ext, elem_of_app. }
  destruct engine; try done; repeat (case_bool_decide; try done); cbn [orb negb]; rewrite !mget_delete_all, ?decide_bool_decide, !Happ;
    repeat (destruct (bool_decide (k ∈ _)); cbn [orb]; try done).
Qed.

(** Switching the data source drops exactly the parameters of the other engines (a BigQuery
    form keeps only its own three), gives a TLS mode of the engine, forgets the driver, and
    changes neither the identity, the stored credential nor who may use the connection; it can
    only take write permission away. *)
Theorem switch_source_spec c engine provider :
  let c' := switchConnectionSource c engine provider in
  (if decide (engine = bigquery)
   then forall k, k ∈ mkeys (cp_extraParams c') ->
          k ∈ [BIGQUERY_AUTH_MODE_PARAMETER; BIGQUERY_LOCATION_PARAMETER; BIGQUERY_MAXIMUM_BYTES_BILLED_PARAMETER]
   else forall k, mget (cp_extraParams c') k
          = if decide (k ∈ foreign_parameters engine) then None else mget (cp_extraParams c) k)
  /\ (engine = postgres -> provider <> p_cloudflareD1 -> cp_sslmode c' ∈ POSTGRES_SSL_MODES)
  /\ (engine = mysql -> provider <> p_cloudflareD1 -> cp_sslmode c' ∈ MYSQL_SSL_MODES)
  /\ cp_driverId c' = None /\ cp_id c' = cp_id c /\ cp_secretRef c' = cp_secretRef c
  /\ cp_workspaceAccess c' = cp_workspaceAccess c /\ cp_credentialMode c' = cp_credentialMode c
  /\ (cp_allowWrites c' = true -> cp_allowWrites c = true /\ engine <> bigquery)
  /\ (cp_readonlyDefault c' = false -> cp_readonlyDefault c = false).
Proof.
  cbn [switchConnectionSource cp_extraParams cp_sslmode cp_driverId cp_id cp_secretRef cp_workspaceAccess
       cp_credentialMode cp_allowWrites cp_readonlyDefault].
  split_and!; try done.
  - case_decide as He; [|intros k; by apply cleared_parameters]. subst. intros k.
    unfold clearIncompatibleSourceParameters. rewrite bool_decide_eq_true_2 by done.
    repeat case_match; intros Hk; vm_compute in Hk |- *; set_solver.
  - intros -> Hp. rewrite (bool_decide_eq_false_2 _ Hp). unfold sslModeForEngine. case_bool_decide; [done|].
    vm_compute. set_solver.
  - intros -> Hp. rewrite (bool_decide_eq_false_2 _ Hp). unfold sslModeForEngine. case_bool_decide; [done|].
    vm_compute. set_solver.
  - by case_bool_decide.
  - by case_bool_decide.
Qed.

End switch.

(** Leaving a MongoDB SRV source keeps its [srv] flag, so the name derived for the new PostgreSQL
    connection has no port. *)
Example srv_survives_switching :
  let c := mkProfile (js "id") [] mongodb p_generic None (js "db.example.org") 27017 (js "app") [] (js "prefer")
             [(js "srv", js "true")] true false None None None None None wa_local cm_local None in
  let c' := switchConnectionSource (H := ascii_platform) c postgres p_auto in
  cp_extraParams c' = [(js "srv", js "true")] /\ defaultConnectionName c' = js "PostgreSQL db.example.org".
Proof. vm_compute. split; reflexivity. Qed.

(** ** Applying a URL *)

Section apply_url.
Context `{UrlLaws}.

Lemma option_is_internal k : isConnectionOptionParameter k = true -> forbidden k = true.
Proof.
  unfold isConnectionOptionParameter. intros Hk%bool_decide_eq_true. unfold forbidden.
  assert (isInternalConnectionParameter k = true) as ->; [|by rewrite orb_true_r].
  unfold isInternalConnectionParameter, CONNECTION_OPTION_PARAMETERS in *.
  repeat (apply elem_of_cons in Hk as [->|Hk]; [rewrite lower_ascii_text; vm_compute; reflexivity|]).
  by apply elem_of_nil in Hk.
Qed.

(** Applying a URL, whatever it is, keeps the identity of the form, its stored credential, its
    workspace access and its credential mode, can only take write permission away, and keeps
    the value of every option parameter that the new engine supports. *)
Theorem applied_url_keeps_authority raw u pw form mode normalizeDraft :
  parseConnectionUrl raw = Some (mkParsed u pw) ->
  let f := applied_form form u mode normalizeDraft in
  cp_id f = cp_id form /\ cp_secretRef f = cp_secretRef form /\ cp_workspaceAccess f = cp_workspaceAccess form
  /\ cp_credentialMode f = cp_credentialMode form /\ cp_providerTarget f = cp_providerTarget form
  /\ (cp_allowWrites f = true -> cp_allowWrites form = true)
  /\ (cp_readonlyDefault f = false -> cp_readonlyDefault form = false)
  /\ (forall k, isConnectionOptionParameter k = true -> isConnectionOptionSupported k (cp_engine f) = true ->
        k <> CONNECTION_INPUT_MODE_PARAMETER -> mget (cp_extraParams f) k = mget (cp_extraParams form) k).
Proof.
  intros Hp f. destruct (parsed_is_safe raw u pw Hp) as (Hkeys & Hw & Hro & _).
  split_and!; try done.
  - cbn. destruct (up_allowWrites u) as [[]|]; done.
  - cbn. destruct (up_readonlyDefault u) as [[]|]; done.
  - intros k Hk Hs Hm. cbn [f applied_form cp_extraParams cp_engine] in *.
    rewrite mget_merge by by eapply parsed_NoDup.
    assert (mget (up_extraParams u) k = None) as ->.
    { apply mget_none. intros Hin. destruct (Hkeys k Hin) as [Hown|Hf].
      - repeat (apply elem_of_cons in Hown as [->|Hown]; [by vm_compute in Hk|]). by apply elem_of_nil in Hown.
      - by rewrite (option_is_internal k Hk) in Hf. }
    assert (mget (filterb (kept_parameter (up_engine u)) (cp_extraParams form)) k = mget (cp_extraParams form) k) as E.
    { induction (cp_extraParams form) as [|[x v] l IH]; [done|]. unfold filterb in *. cbn [List.filter mget].
      destruct (decide (k = x)) as [->|Hne].
      - assert (kept_parameter (up_engine u) (x, v) = true) as ->; [|cbn; by rewrite decide_True].
        unfold kept_parameter. cbn [fst]. by rewrite Hk, Hs, orb_true_r.
      - case_match; [cbn; by rewrite decide_False|done]. }
    unfold internal_params. destruct mode; [done|]. by rewrite mget_set_ne.
Qed.

End apply_url.

Definition pooled_form : ConnectionProfile :=
  mkProfile (js "id") (js "db") postgres p_auto None (js "10.0.0.1") 6432 (js "app") (js "ann") (js "prefer")
    [(CONNECTION_STARTUP_SCRIPT_PARAMETER, js "SET x = 1"); (CONNECTION_TRANSACTION_POOLER_PARAMETER, js "true");
     (CONNECTION_AUTO_DISCONNECT_SECONDS_PARAMETER, js "60")]
    true false None (Some (js "secret")) None None None wa_local cm_local None.

Lemma applied_url_keeps_authority_witness :
  match parseConnectionUrl (H := ascii_platform) pasted_url with
  | Some (mkParsed u _) =>
    let f := applied_form pooled_form u m_default false in
    cp_secretRef f = Some (js "secret") /\ cp_id f = js "id"
    /\ mget (cp_extraParams f) CONNECTION_AUTO_DISCONNECT_SECONDS_PARAMETER = Some (js "60")
  | None => False
  end.
Proof.
  assert (is_Some (parseConnectionUrl (H := ascii_platform) pasted_url)) as [[u pw] E] by (vm_compute; by eexists).
  rewrite E. destruct (@applied_url_keeps_authority ascii_platform ascii_laws _ _ _ pooled_form m_default false E)
    as (Hid & Hs & _ & _ & _ & _ & _ & Hk).
  cbv zeta. rewrite Hs, Hid, Hk; [split_and!; reflexivity|reflexivity|reflexivity|].
  intros Hne. apply (f_equal length) in Hne. vm_compute in Hne. discriminate.
Defined.

(** The hand-set mark of a transaction-mode pooler is not among the option parameters, so the
    first edit of the URL drops it, and the startup script is sent to the pooler again. *)
Example url_edit_drops_pooler_mark :
  match parseConnectionUrl (H := ascii_platform) (js "mongodb://h:1/db") with
  | Some (mkParsed u _) =>
    let sql := mkUpdate [] postgres p_auto None (up_host u) 6432 (up_database u) [] (js "prefer") [] None None None None in
    let f := applied_form pooled_form sql m_urlOnly false in
    isPostgresTransactionPooler toLowerAscii pooled_form = true
    /\ isPostgresTransactionPooler toLowerAscii f = false
    /\ mget (cp_extraParams f) CONNECTION_STARTUP_SCRIPT_PARAMETER = Some (js "SET x = 1")
  | None => False
  end.
Proof. vm_compute. split_and!; reflexivity. Qed.
