(* ===== verification/ConnectionDiagnostics.v ===== *)
(** * What is wrong with a connection draft

    Models [src/features/connections/diagnostics.ts], the checks of a draft, and the part of
    [useConnectionProblems.ts] and [connectionDiagnosticMessage.ts] that turns them into
    blocking flags, the list of problems and the messages next to fields. The comparison of
    names ([localeCompare] with sensitivity "accent") and [toLowerCase] are parameters. *)

From S2P Require Import Prelude JsString Regex JsMap SqlIdent JsValue Access SafetyPolicy JsText Connections.
From S2P Require Import ConnectionUrl ConnectionEditor.
From Stdlib Require String.
Import Stdlib.Strings.String.StringSyntax.

(** ** Codes *)

Inductive ConnectionDiagnosticCode :=
| nameRequired | duplicateName | hostRequired | hostInvalid | portInvalid | usernameRequired
| postgresUsernameInvalid | sqliteFileRequired | cloudflareAccountRequired | cloudflareAccountInvalid
| cloudflareD1DatabaseRequired | cloudflareD1DatabaseInvalid | mongoDatabaseRequired
| targetDatabaseRequired | targetDatabaseInvalid | bigQueryProjectRequired | bigQueryProjectInvalid
| bigQueryDatasetRequired | bigQueryDatasetInvalid | bigQueryLocationInvalid
| bigQueryMaximumBytesBilledInvalid | timeZoneInvalid | keepAliveInvalid | autoDisconnectInvalid
| startupScriptTooLong | startupScriptSkippedByPooler | sshAliasInvalid | sshTunnelSingleHostRequired
| sshTunnelSrvUnsupported | driverCatalogUnavailable | driverUnavailable | driverInstallRequired.
#[export] Instance ConnectionDiagnosticCode_eq_dec : EqDecision ConnectionDiagnosticCode.
Proof. solve_decision. Defined.

Definition code_name (c : ConnectionDiagnosticCode) : jsstr :=
  js match c with
     | nameRequired => "nameRequired" | duplicateName => "duplicateName" | hostRequired => "hostRequired"
     | hostInvalid => "hostInvalid" | portInvalid => "portInvalid" | usernameRequired => "usernameRequired"
     | postgresUsernameInvalid => "postgresUsernameInvalid" | sqliteFileRequired => "sqliteFileRequired"
     | cloudflareAccountRequired => "cloudflareAccountRequired"
     | cloudflareAccountInvalid => "cloudflareAccountInvalid"
     | cloudflareD1DatabaseRequired => "cloudflareD1DatabaseRequired"
     | cloudflareD1DatabaseInvalid => "cloudflareD1DatabaseInvalid"
     | mongoDatabaseRequired => "mongoDatabaseRequired" | targetDatabaseRequired => "targetDatabaseRequired"
     | targetDatabaseInvalid => "targetDatabaseInvalid" | bigQueryProjectRequired => "bigQueryProjectRequired"
     | bigQueryProjectInvalid => "bigQueryProjectInvalid" | bigQueryDatasetRequired => "bigQueryDatasetRequired"
     | bigQueryDatasetInvalid => "bigQueryDatasetInvalid" | bigQueryLocationInvalid => "bigQueryLocationInvalid"
     | bigQueryMaximumBytesBilledInvalid => "bigQueryMaximumBytesBilledInvalid"
     | timeZoneInvalid => "timeZoneInvalid" | keepAliveInvalid => "keepAliveInvalid"
     | autoDisconnectInvalid => "autoDisconnectInvalid" | startupScriptTooLong => "startupScriptTooLong"
     | startupScriptSkippedByPooler => "startupScriptSkippedByPooler" | sshAliasInvalid => "sshAliasInvalid"
     | sshTunnelSingleHostRequired => "sshTunnelSingleHostRequired"
     | sshTunnelSrvUnsupported => "sshTunnelSrvUnsupported"
     | driverCatalogUnavailable => "driverCatalogUnavailable" | driverUnavailable => "driverUnavailable"
     | driverInstallRequired => "driverInstallRequired"
     end.

Inductive diagnostic_tone := t_warning | t_danger.
Inductive ConnectionTab := tab_general | tab_options | tab_sshSsl | tab_schemas | tab_advanced.
#[export] Instance diagnostic_tone_eq_dec : EqDecision diagnostic_tone.
Proof. solve_decision. Defined.
#[export] Instance ConnectionTab_eq_dec : EqDecision ConnectionTab.
Proof. solve_decision. Defined.

Record ConnectionDiagnostic := mkDiagnostic {
  di_id : jsstr; di_code : ConnectionDiagnosticCode; di_tone : diagnostic_tone; di_tab : ConnectionTab;
  di_fieldId : option jsstr }.

Definition is_danger (d : ConnectionDiagnostic) : bool := bool_decide (di_tone d = t_danger).

Definition connectionDiagnosticBlocksTest (d : ConnectionDiagnostic) : bool :=
  is_danger d && negb (bool_decide (di_code d = nameRequired))
  && negb (bool_decide (di_code d = targetDatabaseRequired)).

Definition issue_in (tab : ConnectionTab) (code : ConnectionDiagnosticCode) (tone : diagnostic_tone)
    (fieldId : jsstr) : ConnectionDiagnostic :=
  mkDiagnostic (js "connection-" ++ code_name code) code tone tab (Some fieldId).
Definition issue := issue_in tab_general.

(** [if (condition) diagnostics.push(d)] *)
Definition when (b : bool) (d : ConnectionDiagnostic) : list ConnectionDiagnostic := if b then [d] else [].

(** ** Text rules *)

(** The code point of a surrogate pair is above every range tested here, so a test of the
    code points is a test of the units. *)
Definition suspiciousPostgresUsername (username : jsstr) : bool :=
  negb (trim username ==s username) || existsb (fun c => (c <? 32)%N || (c =? 127)%N) username.

Definition is_hex_ci (c : N) : bool := is_digit c || between 97 102 c || between 65 70 c.
Definition CLOUDFLARE_ACCOUNT_RE : re := fixed (repeat is_hex_ci 32).
Definition CLOUDFLARE_DATABASE_RE : re :=
  fixed (repeat is_hex_ci 8 ++ [N.eqb cDASH] ++ repeat is_hex_ci 4 ++ [N.eqb cDASH; between 49 53]
         ++ repeat is_hex_ci 3 ++ [N.eqb cDASH; fun c => bool_decide (c ∈ js "89abAB")]
         ++ repeat is_hex_ci 3 ++ [N.eqb cDASH] ++ repeat is_hex_ci 12).

Definition is_control (c : N) : bool := (c <=? 31)%N || between 127 159 c.

(** The digits of [text] are an integer from [lo] to [hi]. *)
Definition digits_between (lo hi : Z) (text : jsstr) : bool :=
  all_digits text && (Number_digits text <=? MAX_SAFE_INTEGER)%Z
  && (lo <=? Number_digits text)%Z && (Number_digits text <=? hi)%Z.

(** [extraParams\[key\]?.trim() ?? ""] *)
Definition trimmed_param (p : ConnectionProfile) (key : jsstr) : jsstr := trim (param (cp_extraParams p) key).

(** ** The checks *)

Section diagnose.
Context `{!UrlPlatform} (accentCompare : jsstr -> jsstr -> Z).

Definition name_issues (p : ConnectionProfile) (savedConnections : list ConnectionProfile)
    : list ConnectionDiagnostic :=
  let name := trim (cp_name p) in
  if negb (non_empty name) && negb (non_empty (defaultConnectionName p)) then
    [issue nameRequired t_danger (js "connection-name")]
  else when (non_empty name
             && existsb (fun c => negb (cp_id c ==s cp_id p) && (accentCompare (trim (cp_name c)) name =? 0)%Z)
                  savedConnections)
         (issue duplicateName t_warning (js "connection-name")).

(** A value that is required and has a form. *)
Definition required_text (value : jsstr) (valid : jsstr -> bool) (missing invalid : ConnectionDiagnosticCode)
    (fieldId : jsstr) : list ConnectionDiagnostic :=
  if negb (non_empty value) then [issue missing t_danger fieldId]
  else when (negb (valid value)) (issue invalid t_danger fieldId).

Definition d1_issues (p : ConnectionProfile) : list ConnectionDiagnostic :=
  required_text (trim (cp_host p)) (test CLOUDFLARE_ACCOUNT_RE) cloudflareAccountRequired cloudflareAccountInvalid
    (js "connection-host")
  ++ required_text (trim (cp_database p)) (test CLOUDFLARE_DATABASE_RE) cloudflareD1DatabaseRequired
       cloudflareD1DatabaseInvalid (js "connection-database").

Definition bigquery_issues (p : ConnectionProfile) : list ConnectionDiagnostic :=
  let location := trimmed_param p (js "location") in
  required_text (trim (cp_host p)) isValidBigQueryProjectId bigQueryProjectRequired bigQueryProjectInvalid
    (js "connection-host")
  ++ required_text (trim (cp_database p)) isValidBigQueryDatasetId bigQueryDatasetRequired bigQueryDatasetInvalid
       (js "connection-database")
  ++ when (non_empty location
           && ((64 <? length location)
               || negb (all_units (fun c => is_alnum c || (c =? cDASH)%N) location)))
       (issue bigQueryLocationInvalid t_danger (js "connection-bigquery-location"))
  ++ when (bool_decide (cp_workspaceAccess p = wa_local)
           && negb (digits_between 1 (10 * 1024 ^ 4) (param (cp_extraParams p) (js "maximumBytesBilled"))))
       (issue bigQueryMaximumBytesBilledInvalid t_danger (js "connection-bigquery-maximum-bytes-billed")).

Definition valid_host (host : jsstr) : bool :=
  negb (includes host (js "://")) && negb (existsb (existsb is_space) (split_on (N.eqb cCOMMA) host)).

Definition username_issues (p : ConnectionProfile) : list ConnectionDiagnostic :=
  let source := if param_is (cp_extraParams p) CONNECTION_INPUT_MODE_PARAMETER (js "urlOnly")
                then js "connection-url" else js "connection-username" in
  let personal := bool_decide (cp_workspaceAccess p = wa_local) in
  if (bool_decide (cp_engine p = postgres) || bool_decide (cp_engine p = mysql)) && personal
     && bool_decide (cp_credentialMode p = cm_local) && bool_decide (cp_providerTarget p = None)
     && negb (non_empty (trim (cp_username p)))
  then [issue usernameRequired t_danger source]
  else when (bool_decide (cp_engine p = postgres) && personal && non_empty (cp_username p)
             && suspiciousPostgresUsername (cp_username p))
         (issue postgresUsernameInvalid t_warning source).

Definition mongo_srv (p : ConnectionProfile) : bool :=
  bool_decide (cp_engine p = mongodb) && param_is (cp_extraParams p) (js "srv") (js "true").

Definition target_issues (p : ConnectionProfile) : list ConnectionDiagnostic :=
  if bool_decide (cp_engine p = postgres) || bool_decide (cp_engine p = mysql) then
    let database := cp_database p in
    if negb (non_empty (trim database)) then [issue targetDatabaseRequired t_danger (js "connection-database")]
    else when ((255 <? utf8_length database) || existsb is_control database)
           (issue targetDatabaseInvalid t_danger (js "connection-database"))
  else [].

Definition server_issues (p : ConnectionProfile) (portDraft : jsstr) : list ConnectionDiagnostic :=
  required_text (trim (cp_host p)) valid_host hostRequired hostInvalid (js "connection-host")
  ++ username_issues p
  ++ when (negb (mongo_srv p) && negb (digits_between 1 65535 portDraft))
       (issue portInvalid t_danger (js "connection-port"))
  ++ when (bool_decide (cp_engine p = mongodb) && negb (non_empty (trim (cp_database p))))
       (issue mongoDatabaseRequired t_danger (js "connection-database"))
  ++ target_issues p.

Definition engine_issues (p : ConnectionProfile) (portDraft : jsstr) : list ConnectionDiagnostic :=
  if is_d1 p then d1_issues p
  else if bool_decide (cp_engine p = sqlite) then
    when (negb (non_empty (trim (cp_database p)))) (issue sqliteFileRequired t_danger (js "connection-database"))
  else if bool_decide (cp_engine p = bigquery) then bigquery_issues p
  else server_issues p portDraft.

(** A number of seconds that is present and out of bounds. *)
Definition seconds_issue (p : ConnectionProfile) (key : jsstr) (lo hi : Z) (d : ConnectionDiagnostic)
    : list ConnectionDiagnostic :=
  when (match mget (cp_extraParams p) key with
        | Some v => negb (isBoundedConnectionOptionSeconds v lo hi) | None => false end) d.

Definition startup_issues (p : ConnectionProfile) : list ConnectionDiagnostic :=
  let startupScript := param (cp_extraParams p) CONNECTION_STARTUP_SCRIPT_PARAMETER in
  if 4096 <? length startupScript then
    [issue_in tab_options startupScriptTooLong t_danger (js "connection-startup-script")]
  else when (bool_decide (cp_engine p = postgres) && non_empty (trim startupScript)
             && isPostgresTransactionPooler toLowerCase p)
         (issue_in tab_options startupScriptSkippedByPooler t_warning (js "connection-startup-script")).

Definition ssh_issues (p : ConnectionProfile) : list ConnectionDiagnostic :=
  let sshAlias := trimmed_param p CONNECTION_SSH_ALIAS_PARAMETER in
  if non_empty sshAlias && negb (isSshHostAlias sshAlias) then
    [issue_in tab_sshSsl sshAliasInvalid t_danger (js "connection-ssh-alias")]
  else if non_empty sshAlias && includes (cp_host p) (js ",") then
    [issue_in tab_general sshTunnelSingleHostRequired t_danger (js "connection-host")]
  else when (non_empty sshAlias && mongo_srv p)
         (issue_in tab_sshSsl sshTunnelSrvUnsupported t_danger (js "connection-ssh-alias")).

Definition option_issues (p : ConnectionProfile) : list ConnectionDiagnostic :=
  let timeZone := trimmed_param p CONNECTION_TIME_ZONE_PARAMETER in
  when (non_empty timeZone && negb (isConnectionTimeZone timeZone))
    (issue_in tab_options timeZoneInvalid t_danger (js "connection-time-zone"))
  ++ seconds_issue p CONNECTION_KEEP_ALIVE_SECONDS_PARAMETER 10 86400
       (issue_in tab_options keepAliveInvalid t_danger (js "connection-keep-alive"))
  ++ seconds_issue p CONNECTION_AUTO_DISCONNECT_SECONDS_PARAMETER 30 86400
       (issue_in tab_options autoDisconnectInvalid t_danger (js "connection-auto-disconnect"))
  ++ startup_issues p ++ ssh_issues p.

(** The driver a profile runs on: the pinned one, else the recommended one, else the first. *)
Definition selected_driver (p : ConnectionProfile) (drivers : list DriverDescriptor) : option DriverDescriptor :=
  let compatible := filterb (fun d => bool_decide (dd_engine d = cp_engine p)
                                      && (bool_decide (cp_provider p = p_auto)
                                          || bool_decide (cp_provider p ∈ dd_supportedProviders d))) drivers in
  match truthy (cp_driverId p) with
  | Some id => findb (fun d => dd_id d ==s id) compatible
  | None => match findb dd_recommended compatible with Some d => Some d | None => head compatible end
  end.

Definition driver_issues (p : ConnectionProfile) (drivers : list DriverDescriptor) (failed pending : bool)
    : list ConnectionDiagnostic :=
  if failed then [issue driverCatalogUnavailable t_danger (js "connection-driver")]
  else if pending then []
  else match selected_driver p drivers with
       | None => [issue driverUnavailable t_danger (js "connection-driver")]
       | Some d => when (negb (bool_decide (dd_installState d = drv_installed)))
                     (issue driverInstallRequired t_danger (js "connection-driver"))
       end.

Definition diagnoseConnection (p : ConnectionProfile) (savedConnections : list ConnectionProfile)
    (drivers : list DriverDescriptor) (driverCatalogFailed driverCatalogPending : bool) (portDraft : jsstr)
    : list ConnectionDiagnostic :=
  name_issues p savedConnections ++ engine_issues p portDraft ++ option_issues p
  ++ driver_issues p drivers driverCatalogFailed driverCatalogPending.

End diagnose.

(** ** Failed checks and saves of a connection

    Models [src/features/connections/connectionTestFailure.ts] with the receipt types of
    [domain.ts] and [connectionCheck.ts]: what a refused or failed connection check shows,
    where its fix is, and the messages of failed saves and deletions. A message is its key
    in the catalog with its variables; the text of the catalogs is not modelled. The wire
    error is the [kind] that [errDetails] reads from it. *)

(** *** Receipts *)

Inductive ConnectionTestFailureCode :=
| tf_sshClientMissing | tf_sshConfiguration | tf_sshHostKey | tf_sshAuthentication | tf_sshForwarding
| tf_sshTimeout | tf_sshUnknown | tf_timeoutNetwork | tf_authentication | tf_authenticationIdentity
| tf_tls | tf_databaseConfig | tf_unknown.
Inductive ConnectionTestFailureField := ff_ssh | ff_credentials | ff_tls | ff_database.
Inductive ConnectionProbeRefusal :=
| pr_savedCredentialEndpointChanged | pr_retryLater | pr_sharedConnectionChanged
| pr_workspaceSignInRequired | pr_credentialStoreDenied | pr_lockTimeout.
#[export] Instance ConnectionTestFailureCode_eq_dec : EqDecision ConnectionTestFailureCode.
Proof. solve_decision. Defined.
#[export] Instance ConnectionTestFailureField_eq_dec : EqDecision ConnectionTestFailureField.
Proof. solve_decision. Defined.
#[export] Instance ConnectionProbeRefusal_eq_dec : EqDecision ConnectionProbeRefusal.
Proof. solve_decision. Defined.

Record ConnectionTestFailure := mkFailure {
  tf_code : ConnectionTestFailureCode; tf_field : option ConnectionTestFailureField; tf_detail : jsstr;
  tf_refusal : option ConnectionProbeRefusal; tf_retryAfterSeconds : option Z }.
Record ConnectionTestIssue := mkIssue {
  ti_code : ConnectionTestFailureCode; ti_field : option ConnectionTestFailureField;
  ti_refusal : option ConnectionProbeRefusal }.
Inductive ConnectionTestReceipt := r_ok | r_failed (f : ConnectionTestFailure).
Record DatabaseDiscoveryReceipt := mkDiscovered {
  dr_databases : list jsstr; dr_refusal : option ConnectionProbeRefusal }.
#[export] Instance ConnectionTestIssue_eq_dec : EqDecision ConnectionTestIssue.
Proof. solve_decision. Defined.

Definition CONNECTION_TEST_FAILURE_CODES : list jsstr :=
  [js "sshClientMissing"; js "sshConfiguration"; js "sshHostKey"; js "sshAuthentication"; js "sshForwarding";
   js "sshTimeout"; js "sshUnknown"; js "timeoutNetwork"; js "authentication"; js "authenticationIdentity";
   js "tls"; js "databaseConfig"; js "unknown"].
Definition CONNECTION_TEST_FAILURE_FIELDS : list jsstr := [js "ssh"; js "credentials"; js "tls"; js "database"].

Definition failure_name (c : ConnectionTestFailureCode) : jsstr :=
  js match c with
     | tf_sshClientMissing => "sshClientMissing" | tf_sshConfiguration => "sshConfiguration"
     | tf_sshHostKey => "sshHostKey" | tf_sshAuthentication => "sshAuthentication"
     | tf_sshForwarding => "sshForwarding" | tf_sshTimeout => "sshTimeout" | tf_sshUnknown => "sshUnknown"
     | tf_timeoutNetwork => "timeoutNetwork" | tf_authentication => "authentication"
     | tf_authenticationIdentity => "authenticationIdentity" | tf_tls => "tls"
     | tf_databaseConfig => "databaseConfig" | tf_unknown => "unknown"
     end.

(** What a failed check keeps: no detail of the backend. *)
Definition connectionTestIssue (f : ConnectionTestFailure) : ConnectionTestIssue :=
  mkIssue (tf_code f) (tf_field f) (tf_refusal f).

Inductive SavedConnectionCheck := sc_ok | sc_failed (issue : ConnectionTestIssue) (retryAfterSeconds : option Z).

(** [checkSavedConnection] with the answer of [testConnection]: [None] when it rejects. *)
Definition checkSavedConnection (answer : option ConnectionTestReceipt) : SavedConnectionCheck :=
  match answer with
  | Some r_ok => sc_ok
  | Some (r_failed f) => sc_failed (connectionTestIssue f) (tf_retryAfterSeconds f)
  | None => sc_failed (mkIssue tf_unknown None None) None
  end.

(** *** Messages *)

(** A key of the message catalog, with the number of seconds when the text has one. *)
Record message := mkMessage { m_key : jsstr; m_seconds : option Z }.
Definition tr (key : jsstr) : message := mkMessage key None.

(** *** Who owns the credential *)

(** The part of a profile that decides how a failure reads. An absent context reads as a
    local one. *)
Record failure_context := mkContext {
  fc_credentialMode : WorkspaceCredentialMode; fc_workspaceAccess : WorkspaceConnectionAccess;
  fc_extraParams : list (jsstr * jsstr) }.
Definition context_of (p : ConnectionProfile) : failure_context :=
  mkContext (cp_credentialMode p) (cp_workspaceAccess p) (cp_extraParams p).

Definition isWorkspaceManaged (c : failure_context) : bool :=
  bool_decide (fc_credentialMode c = cm_managed) && negb (bool_decide (fc_workspaceAccess c = wa_local)).
Definition isProvisioned (c : failure_context) : bool := bool_decide (fc_credentialMode c = cm_provisioned).
Definition isMemberLocalBinding (c : failure_context) : bool :=
  bool_decide (fc_credentialMode c = cm_memberLocal) && negb (bool_decide (fc_workspaceAccess c = wa_local)).

Definition isBindingFailure (code : ConnectionTestFailureCode) : bool :=
  startsWith (failure_name code) (js "ssh")
  || bool_decide (code ∈ [tf_authentication; tf_authenticationIdentity; tf_tls]).

(** *** Failed commands *)

Definition connectionSaveNeedsPassword (kind : option jsstr) : bool :=
  bool_decide (kind = Some (js "credentialBindingRequired")).

Definition kind_is (kind : jsstr) (names : list jsstr) : bool := bool_decide (kind ∈ names).

(** The kinds of [connectionOperationErrorTitle], in the order of its cases. *)
Definition operation_titles : list (jsstr * message) :=
  [(js "sshClientMissing", tr (js "connections.testFailure.sshClientMissingTitle"));
   (js "sshConfiguration", tr (js "connections.testFailure.sshConfigurationTitle"));
   (js "sshHostKey", tr (js "connections.testFailure.sshHostKeyTitle"));
   (js "sshAuthentication", tr (js "connections.testFailure.sshAuthenticationTitle"));
   (js "sshForwarding", tr (js "connections.testFailure.sshForwardingTitle"));
   (js "sshTimeout", tr (js "connections.testFailure.sshTimeoutTitle"));
   (js "sshUnknown", tr (js "connections.testFailure.sshUnknownTitle"));
   (js "connectionNetwork", tr (js "connections.testFailure.timeoutNetworkTitle"));
   (js "connectionTls", tr (js "connections.testFailure.tlsTitle"));
   (js "connectionAuthentication", tr (js "connections.testFailure.authenticationTitle"));
   (js "connectionConfiguration", tr (js "connections.testFailure.databaseConfigTitle"));
   (js "connectionUnknown", tr (js "connections.testFailure.unknownTitle"));
   (js "keychain", tr (js "sql.credentialStoreDenied.title"));
   (js "cancelled", tr (js "connections.catalogIssue.cancelled"))].

Definition connectionOperationErrorTitle (kind : option jsstr) : message :=
  match kind with
  | Some k => match findb (fun e => k ==s e.1) operation_titles with
              | Some e => e.2 | None => tr (js "connections.testFailure.unknownTitle") end
  | None => tr (js "connections.testFailure.unknownTitle")
  end.

Inductive ConnectionSavePhase := ph_profile | ph_projectBinding.

Definition connectionSaveFailureMessage (error : option jsstr) (phase : ConnectionSavePhase) : message :=
  match phase with
  | ph_projectBinding => tr (js "connections.saveFailure.projectBinding")
  | ph_profile =>
    let kind := default [] error in
    if kind_is kind [js "credentialBindingRequired"] then
      tr (js "connections.testFailure.savedCredentialEndpointChangedTitle")
    else if kind_is kind [js "keychain"] then tr (js "connections.saveFailure.credentialStore")
    else if kind_is kind [js "config"; js "parse"; js "serialization"] then tr (js "connections.saveFailure.configuration")
    else if kind_is kind [js "blocked"; js "safety"] then tr (js "connections.saveFailure.blocked")
    else if kind_is kind [js "notFound"] then tr (js "connections.saveFailure.notFound")
    else if kind_is kind [js "network"; js "timeout"] then tr (js "connections.saveFailure.workspaceUnavailable")
    else if startsWith kind (js "ssh") || startsWith kind (js "connection") then connectionOperationErrorTitle error
    else tr (js "connections.saveFailure.unknown")
  end.

Definition connectionDeleteFailureMessage (error : option jsstr) : message :=
  let kind := default [] error in
  if kind_is kind [js "blocked"; js "safety"] then tr (js "connections.deleteFailure.blocked")
  else if kind_is kind [js "network"; js "timeout"] then tr (js "connections.saveFailure.workspaceUnavailable")
  else tr (js "connections.deleteFailure.unknown").

(** *** Failed checks *)

Definition connectionTestFailureTitle (code : ConnectionTestFailureCode) (c : failure_context) : message :=
  if isProvisioned c then tr (js "directAccess.testFailure.title")
  else if isWorkspaceManaged c then tr (js "connections.testFailure.managedTitle")
  else mkMessage (js "connections.testFailure." ++ failure_name code ++ js "Title") None.

Definition connectionTestFailureRecovery (code : ConnectionTestFailureCode) (c : failure_context)
    (usedSavedCredential : bool) : message :=
  if isProvisioned c then tr (js "directAccess.testFailure.recovery")
  else if isWorkspaceManaged c then
    if bool_decide (fc_workspaceAccess c = wa_manage) then tr (js "connections.testFailure.managedManagerRecovery")
    else tr (js "connections.testFailure.managedMemberRecovery")
  else if isMemberLocalBinding c && isBindingFailure code then tr (js "connections.testFailure.memberBindingRecovery")
  else if bool_decide (code = tf_authentication) && usedSavedCredential then
    tr (js "connections.testFailure.savedCredentialRecovery")
  else mkMessage (js "connections.testFailure." ++ failure_name code ++ js "Recovery") None.

Definition connectionTestIssueTitle (i : ConnectionTestIssue) (c : failure_context) : message :=
  match ti_refusal i with
  | Some pr_savedCredentialEndpointChanged => tr (js "connections.testFailure.savedCredentialEndpointChangedTitle")
  | Some pr_sharedConnectionChanged => tr (js "connections.testFailure.sharedConnectionChangedTitle")
  | Some pr_workspaceSignInRequired => tr (js "connections.testFailure.workspaceSignInRequiredTitle")
  | Some pr_credentialStoreDenied => tr (js "sql.credentialStoreDenied.title")
  | Some pr_lockTimeout => tr (js "connections.testFailure.lockTimeoutTitle")
  | Some pr_retryLater | None => connectionTestFailureTitle (ti_code i) c
  end.

Definition connectionTestIssueRecovery (i : ConnectionTestIssue) (c : failure_context)
    (usedSavedCredential : bool) (retrySeconds : Z) : message :=
  match ti_refusal i with
  | Some pr_savedCredentialEndpointChanged => tr (js "connections.testFailure.savedCredentialEndpointChangedRecovery")
  | Some pr_sharedConnectionChanged => tr (js "connections.testFailure.sharedConnectionChangedRecovery")
  | Some pr_workspaceSignInRequired => tr (js "connections.testFailure.workspaceSignInRequiredRecovery")
  | Some pr_credentialStoreDenied => tr (js "connections.testFailure.credentialStoreDeniedRecovery")
  | Some pr_lockTimeout => tr (js "connections.testFailure.lockTimeoutRecovery")
  | Some pr_retryLater =>
    if (retrySeconds =? 0)%Z then tr (js "schema.connectionRetryLater")
    else mkMessage (js "schema.connectionRetryAfter") (Some retrySeconds)
  | None => connectionTestFailureRecovery (ti_code i) c usedSavedCredential
  end.

(** *** Where the fix is *)

Definition connectionTestFailureOpensBinding (i : ConnectionTestIssue) (p : ConnectionProfile) : bool :=
  isMemberLocalBinding (context_of p) && negb (bool_decide (cp_workspaceAccess p = wa_view))
  && negb (usesCliAuthentication p)
  && (isBindingFailure (ti_code i)
      || bool_decide (ti_field i ∈ [Some ff_credentials; Some ff_ssh; Some ff_tls])).

Definition connectionTestFailureTarget (i : ConnectionTestIssue) (c : failure_context)
    : option (ConnectionTab * jsstr) :=
  if isWorkspaceManaged c || isProvisioned c || isMemberLocalBinding c then None
  else if startsWith (failure_name (ti_code i)) (js "ssh") || bool_decide (ti_field i = Some ff_ssh) then
    Some (tab_sshSsl, js "connection-ssh-alias")
  else if bool_decide (ti_code i = tf_authenticationIdentity) then
    Some (tab_general, if param_is (fc_extraParams c) CONNECTION_INPUT_MODE_PARAMETER (js "urlOnly")
                       then js "connection-url" else js "connection-username")
  else match ti_field i with
       | Some ff_credentials => Some (tab_general, js "connection-password")
       | Some ff_database => Some (tab_general, js "connection-database")
       | Some ff_tls => Some (tab_sshSsl, js "connection-tls-control")
       | _ => None
       end.

(** *** Examples *)

Example messages :
  m_key (connectionSaveFailureMessage (Some (js "sshTimeout")) ph_profile)
    = js "connections.testFailure.sshTimeoutTitle"
  /\ m_key (connectionSaveFailureMessage None ph_profile) = js "connections.saveFailure.unknown"
  /\ m_key (connectionTestFailureTitle tf_tls (mkContext cm_local wa_local [])) = js "connections.testFailure.tlsTitle".
Proof. vm_compute. done. Qed.

(** ** The problems of the connection editor

    Models [src/features/connections/useConnectionProblems.ts] and
    [connectionDiagnosticMessage.ts]: which diagnostics are shown, whether they block a save
    or a check, the list of problems with the last check outcome, the message next to a
    field, and where a problem leads. *)

(** *** Inputs *)

Inductive ConnectionCommandStage := stage_save | stage_delete | stage_driver | stage_refresh.
#[export] Instance ConnectionCommandStage_eq_dec : EqDecision ConnectionCommandStage.
Proof. solve_decision. Defined.

(** What the hook reads from the draft, the status, the catalog and the workspace. *)
Record problem_inputs := mkInputs {
  pi_form : ConnectionProfile; pi_portDraft : jsstr; pi_urlMode : ConnectionInputMode; pi_urlDraft : jsstr;
  pi_touched : list jsstr; pi_revealAll : bool;
  pi_message : option jsstr; pi_messageIsError : bool; pi_messageStage : option ConnectionCommandStage;
  pi_testFailure : option ConnectionTestIssue; pi_usedSavedCredential : bool; pi_retrySeconds : Z;
  pi_connections : list ConnectionProfile; pi_drivers : option (list DriverDescriptor);
  pi_driversFailed : bool; pi_driversPending : bool;
  (** The role in the team workspace, [None] outside of one. *)
  pi_teamRole : option (option WorkspaceRoleName) }.

Record DiagnosticItem := mkItem {
  it_id : jsstr; it_tone : diagnostic_tone; it_title : message; it_description : option message }.
Record FieldValidation := mkValidation { fv_tone : diagnostic_tone; fv_message : message }.

(** *** Texts *)

Definition capitalize (s : jsstr) : jsstr :=
  match s with c :: r => (if is_lower c then (c - 32)%N else c) :: r | [] => [] end.
Definition connectionDiagnosticMessage (code : ConnectionDiagnosticCode) : message :=
  tr (js "connections.problem" ++ capitalize (code_name code)).

Definition REQUIRED_VALUE_CODES : list ConnectionDiagnosticCode :=
  [nameRequired; hostRequired; usernameRequired; sqliteFileRequired; cloudflareAccountRequired;
   cloudflareD1DatabaseRequired; mongoDatabaseRequired; targetDatabaseRequired; bigQueryProjectRequired;
   bigQueryDatasetRequired].

Definition COMMAND_FAILURE_TITLES (stage : ConnectionCommandStage) : message :=
  tr match stage with
     | stage_save => js "connections.problemSaveFailed" | stage_delete => js "connections.problemDeleteFailed"
     | stage_driver => js "connections.problemDriverFailed" | stage_refresh => js "connections.problemRefreshFailed"
     end.

Definition canAddWorkspaceConnections (role : option WorkspaceRoleName) : bool :=
  bool_decide (role ∈ [Some editor; Some admin; Some owner]).

Definition ID_ROLE : jsstr := js "team-connection-role".
Definition ID_URL : jsstr := js "connection-url-invalid".
Definition ID_RUNTIME : jsstr := js "connection-runtime".
Definition ID_TEST : jsstr := js "connection-test-failure".

Section problems.
Context `{!UrlPlatform} (accentCompare : jsstr -> jsstr -> Z).

Definition is_shared (p : ConnectionProfile) : bool := negb (bool_decide (cp_workspaceAccess p = wa_local)).

(** [isSharedTemplate ? { ...form.value, extraParams: {} } : form.value] *)
Definition diagnosticProfile (p : ConnectionProfile) : ConnectionProfile :=
  if is_shared p then
    {| cp_id := cp_id p; cp_name := cp_name p; cp_engine := cp_engine p; cp_provider := cp_provider p;
       cp_driverId := cp_driverId p; cp_host := cp_host p; cp_port := cp_port p; cp_database := cp_database p;
       cp_username := cp_username p; cp_sslmode := cp_sslmode p; cp_extraParams := [];
       cp_readonlyDefault := cp_readonlyDefault p; cp_allowWrites := cp_allowWrites p;
       cp_schemaAccessAvailable := cp_schemaAccessAvailable p; cp_secretRef := cp_secretRef p; cp_env := cp_env p;
       cp_effectiveEnv := cp_effectiveEnv p; cp_schemaGroup := cp_schemaGroup p;
       cp_workspaceAccess := cp_workspaceAccess p; cp_credentialMode := cp_credentialMode p;
       cp_providerTarget := cp_providerTarget p |}
  else p.

Definition problem_diagnostics (i : problem_inputs) : list ConnectionDiagnostic :=
  diagnoseConnection accentCompare (diagnosticProfile (pi_form i)) (pi_connections i) (default [] (pi_drivers i))
    (pi_driversFailed i) (pi_driversPending i) (pi_portDraft i).

Definition diagnosticRevealed (i : problem_inputs) (d : ConnectionDiagnostic) : bool :=
  negb (bool_decide (di_code d ∈ REQUIRED_VALUE_CODES)) || pi_revealAll i
  || match di_fieldId d with Some f => bool_decide (f ∈ pi_touched i) | None => false end.

Definition connectionUrlInvalid (i : problem_inputs) : bool :=
  negb (is_shared (pi_form i)) && bool_decide (pi_urlMode i = m_urlOnly)
  && bool_decide (parseConnectionUrl (pi_urlDraft i) = None).

Definition teamRoleCannotAdd (i : problem_inputs) : bool :=
  match pi_teamRole i with
  | None => false
  | Some role =>
    let p := diagnosticProfile (pi_form i) in
    negb (is_shared (pi_form i)) && negb (canAddWorkspaceConnections role)
    && (negb (bool_decide (cp_engine p = sqlite)) || bool_decide (cp_provider p = p_cloudflareD1))
  end.

Definition hasBlocking (i : problem_inputs) : bool :=
  connectionUrlInvalid i || teamRoleCannotAdd i || existsb is_danger (problem_diagnostics i).
Definition hasTestBlocking (i : problem_inputs) : bool :=
  connectionUrlInvalid i || existsb connectionDiagnosticBlocksTest (problem_diagnostics i).

Definition failureTitle (i : problem_inputs) (issue : ConnectionTestIssue) : message :=
  connectionTestIssueTitle issue (context_of (pi_form i)).
Definition failureRecovery (i : problem_inputs) (issue : ConnectionTestIssue) : message :=
  connectionTestIssueRecovery issue (context_of (pi_form i)) (pi_usedSavedCredential i) (pi_retrySeconds i).
Definition failureOpensBinding (i : problem_inputs) : bool :=
  match pi_testFailure i with Some f => connectionTestFailureOpensBinding f (pi_form i) | None => false end.

Definition diagnostic_item (d : ConnectionDiagnostic) : DiagnosticItem :=
  mkItem (di_id d) (di_tone d) (connectionDiagnosticMessage (di_code d)) None.
(** [if (condition) items.push(item)] *)
Definition push_when (b : bool) (item : DiagnosticItem) : list DiagnosticItem := if b then [item] else [].

Definition problem_items (i : problem_inputs) : list DiagnosticItem :=
  map diagnostic_item (filterb (diagnosticRevealed i) (problem_diagnostics i))
  ++ push_when (teamRoleCannotAdd i) (mkItem ID_ROLE t_danger (tr (js "connections.problemTeamRoleCannotAdd")) None)
  ++ push_when (connectionUrlInvalid i)
       (mkItem ID_URL t_danger (tr (js "connections.problemConnectionUrlInvalid")) None)
  ++ match truthy (pi_message i) with
     | Some text =>
       push_when (pi_messageIsError i)
         (mkItem ID_RUNTIME t_danger
            (match pi_messageStage i with Some s => COMMAND_FAILURE_TITLES s
             | None => tr (js "connections.problemRuntime") end) (Some (tr text)))
     | None => []
     end
  ++ match pi_testFailure i with
     | Some f => [mkItem ID_TEST t_danger (failureTitle i f) (Some (failureRecovery i f))]
     | None => []
     end.

Definition fieldValidation (i : problem_inputs) (fieldId : jsstr) : option FieldValidation :=
  match findb (fun d => bool_decide (di_fieldId d = Some fieldId) && diagnosticRevealed i d) (problem_diagnostics i) with
  | Some d => Some (mkValidation (di_tone d) (connectionDiagnosticMessage (di_code d)))
  | None => None
  end.

(** Where a problem leads: the member's binding, a field of a tab, a tab, or nowhere. *)
Inductive destination :=
| to_binding | to_field (tab : ConnectionTab) (fieldId : jsstr) | to_tab (tab : ConnectionTab) | to_problems_closed
| to_nowhere.

Definition openDiagnostic (i : problem_inputs) (diagnosticId : jsstr) : destination :=
  if diagnosticId ==s ID_TEST then
    match pi_testFailure i with
    | None => to_problems_closed
    | Some f =>
      if failureOpensBinding i then to_binding
      else match connectionTestFailureTarget f (context_of (pi_form i)) with
           | Some (tab, field) => to_field tab field | None => to_problems_closed end
    end
  else if diagnosticId ==s ID_URL then to_field tab_general (js "connection-url")
  else match findb (fun d => di_id d ==s diagnosticId) (problem_diagnostics i) with
       | None => to_nowhere
       | Some d => match di_fieldId d with Some f => to_field (di_tab d) f | None => to_tab (di_tab d) end
       end.

End problems.
