(* ===== verification/ConnectionDiagnosticsInv.v ===== *)
(** * What the checks of a connection draft mean

    Theorems about [ConnectionDiagnostics]: the identities of the
    problems are unique, a draft without a blocking problem is one that can be saved, and a
    refused command always shows why. *)

From S2P Require Import Prelude JsString JsText JsMap Regex SqlIdent JsValue SafetyPolicy.
From S2P Require Import Access Connections ConnectionUrl ConnectionUrlInv ConnectionEditor.
From S2P Require Import ConnectionDiagnostics.
From S2P Require Import ConnectionDiagnostics.
From Stdlib Require String.
Import Stdlib.Strings.String.StringSyntax.

(** ** Blocks of diagnostics *)

(** The codes of a block, in the order of their checks. *)
Definition within (l : list ConnectionDiagnostic) (codes : list ConnectionDiagnosticCode) : Prop :=
  sublist (map di_code l) codes
  /\ Forall (fun d => di_id d = js "connection-" ++ code_name (di_code d) /\ is_Some (di_fieldId d)) l.

Lemma within_nil codes : within [] codes.
Proof. split; [apply sublist_nil_l|constructor]. Qed.

Lemma within_one tab code tone f codes : code ∈ codes -> within [issue_in tab code tone f] codes.
Proof.
  intros H. split; [by apply singleton_sublist_l|].
  constructor; [|constructor]. split; [done|]. cbn. eauto.
Qed.

Lemma within_when b tab code tone f codes : code ∈ codes -> within (when b (issue_in tab code tone f)) codes.
Proof. intros H. destruct b; [by apply within_one|apply within_nil]. Qed.

Lemma within_app l k a b : within l a -> within k b -> within (l ++ k) (a ++ b).
Proof.
  intros [Hl Fl] [Hk Fk]. split; [rewrite map_app; by apply sublist_app|by apply Forall_app].
Qed.

Lemma within_two b l k codes : within l codes -> within k codes -> within (if b : bool then l else k) codes.
Proof. by destruct b. Qed.

(** Closes a block whose codes are listed. *)
Ltac block :=
  repeat first [apply within_nil | apply within_two
               | apply within_when; apply (proj1 (bool_decide_eq_true _)); vm_compute; reflexivity
               | apply within_one; apply (proj1 (bool_decide_eq_true _)); vm_compute; reflexivity].

Section ids.
Context `{!UrlPlatform} (accentCompare : jsstr -> jsstr -> Z).

Lemma within_required value valid missing invalid f :
  within (required_text value valid missing invalid f) [missing; invalid].
Proof.
  unfold required_text. apply within_two; [apply within_one; by left|].
  apply within_when. right. by left.
Qed.

Definition NAME_CODES := [nameRequired; duplicateName].
Definition OPTION_CODES :=
  [timeZoneInvalid; keepAliveInvalid; autoDisconnectInvalid; startupScriptTooLong; startupScriptSkippedByPooler;
   sshAliasInvalid; sshTunnelSingleHostRequired; sshTunnelSrvUnsupported].
Definition DRIVER_CODES := [driverCatalogUnavailable; driverUnavailable; driverInstallRequired].
Definition engine_codes (p : ConnectionProfile) : list ConnectionDiagnosticCode :=
  if is_d1 p then
    [cloudflareAccountRequired; cloudflareAccountInvalid; cloudflareD1DatabaseRequired; cloudflareD1DatabaseInvalid]
  else if bool_decide (cp_engine p = sqlite) then [sqliteFileRequired]
  else if bool_decide (cp_engine p = bigquery) then
    [bigQueryProjectRequired; bigQueryProjectInvalid; bigQueryDatasetRequired; bigQueryDatasetInvalid;
     bigQueryLocationInvalid; bigQueryMaximumBytesBilledInvalid]
  else [hostRequired; hostInvalid; usernameRequired; postgresUsernameInvalid; portInvalid; mongoDatabaseRequired;
        targetDatabaseRequired; targetDatabaseInvalid].

Lemma engine_issues_within p portDraft : within (engine_issues p portDraft) (engine_codes p).
Proof.
  unfold engine_issues, engine_codes. destruct (is_d1 p).
  { apply (within_app _ _ [_; _] [_; _]); apply within_required. }
  destruct (bool_decide (cp_engine p = sqlite)); [block|].
  destruct (bool_decide (cp_engine p = bigquery)).
  - apply (within_app _ _ [_; _]); [apply within_required|].
    apply (within_app _ _ [_; _]); [apply within_required|]. apply (within_app _ _ [_]); block.
  - apply (within_app _ _ [_; _]); [apply within_required|]. apply (within_app _ _ [_; _]).
    { unfold username_issues. block. }
    apply (within_app _ _ [_]); [block|]. apply (within_app _ _ [_]); [block|].
    unfold target_issues. block.
Qed.

Lemma option_issues_within p : within (option_issues p) OPTION_CODES.
Proof.
  unfold option_issues, seconds_issue. do 3 (apply (within_app _ _ [_]); [block|]).
  apply (within_app _ _ [_; _]); [unfold startup_issues; block|]. unfold ssh_issues. block.
Qed.

Lemma diagnose_within p saved drivers failed pending portDraft :
  within (diagnoseConnection accentCompare p saved drivers failed pending portDraft)
    (NAME_CODES ++ engine_codes p ++ OPTION_CODES ++ DRIVER_CODES).
Proof.
  repeat apply within_app; [unfold name_issues; block|apply engine_issues_within|apply option_issues_within|].
  unfold driver_issues. destruct failed; [block|]. destruct pending; [block|]. destruct (selected_driver _ _); block.
Qed.

Lemma codes_NoDup p : NoDup (NAME_CODES ++ engine_codes p ++ OPTION_CODES ++ DRIVER_CODES).
Proof.
  unfold engine_codes. repeat case_match; refine (proj1 (bool_decide_eq_true _) _); vm_compute; reflexivity.
Qed.

Definition id_of (c : ConnectionDiagnosticCode) : jsstr := js "connection-" ++ code_name c.

Lemma diagnose_ids p saved drivers failed pending portDraft d :
  d ∈ diagnoseConnection accentCompare p saved drivers failed pending portDraft ->
  di_id d = id_of (di_code d) /\ is_Some (di_fieldId d).
Proof. revert d. apply (proj1 (Forall_forall _ _)). apply (diagnose_within p saved drivers failed pending portDraft). Qed.

End ids.

(** The identity of a diagnostic tells its code. *)
Definition ALL_CODES : list ConnectionDiagnosticCode :=
  [nameRequired; duplicateName; hostRequired; hostInvalid; portInvalid; usernameRequired; postgresUsernameInvalid;
   sqliteFileRequired; cloudflareAccountRequired; cloudflareAccountInvalid; cloudflareD1DatabaseRequired;
   cloudflareD1DatabaseInvalid; mongoDatabaseRequired; targetDatabaseRequired; targetDatabaseInvalid;
   bigQueryProjectRequired; bigQueryProjectInvalid; bigQueryDatasetRequired; bigQueryDatasetInvalid;
   bigQueryLocationInvalid; bigQueryMaximumBytesBilledInvalid; timeZoneInvalid; keepAliveInvalid;
   autoDisconnectInvalid; startupScriptTooLong; startupScriptSkippedByPooler; sshAliasInvalid;
   sshTunnelSingleHostRequired; sshTunnelSrvUnsupported; driverCatalogUnavailable; driverUnavailable;
   driverInstallRequired].
Definition FIXED_IDS : list jsstr := [ID_ROLE; ID_URL; ID_RUNTIME; ID_TEST].

Lemma all_ids_NoDup : NoDup (map id_of ALL_CODES ++ FIXED_IDS).
Proof. refine (proj1 (bool_decide_eq_true _) _). vm_compute. reflexivity. Qed.

Lemma all_codes c : c ∈ ALL_CODES.
Proof. refine (proj1 (bool_decide_eq_true _) _). by destruct c; vm_compute. Qed.

Lemma id_of_inj c d : id_of c = id_of d -> c = d.
Proof.
  intros E. pose proof all_ids_NoDup as H. apply NoDup_app in H as [H _].
  pose proof (all_codes c) as [i Hi]%list_elem_of_lookup. pose proof (all_codes d) as [j Hj]%list_elem_of_lookup.
  assert (i = j) as ->; [|congruence].
  eapply (NoDup_lookup _ _ _ (id_of c) H); rewrite list_lookup_fmap; [by rewrite Hi|by rewrite Hj, E].
Qed.

Lemma fixed_id_no_code c id : id ∈ FIXED_IDS -> id <> id_of c.
Proof.
  intros Hid ->. pose proof all_ids_NoDup as H. apply NoDup_app in H as (_ & H & _).
  apply (H (id_of c)); [|done]. apply list_elem_of_fmap_2, all_codes.
Qed.

(** ** Problems *)

Section problems.
Context `{!UrlPlatform} (accentCompare : jsstr -> jsstr -> Z).
Notation problem_items := (problem_items accentCompare).
Notation problem_diagnostics := (problem_diagnostics accentCompare).

Lemma problem_diagnostic_ids i d :
  d ∈ problem_diagnostics i -> di_id d = id_of (di_code d) /\ is_Some (di_fieldId d).
Proof. apply diagnose_ids. Qed.

Lemma problem_diagnostics_NoDup i : NoDup (map di_id (problem_diagnostics i)).
Proof.
  assert (map di_id (problem_diagnostics i) = map id_of (map di_code (problem_diagnostics i))) as ->.
  { rewrite map_map. apply map_ext_in. intros d [Hd _]%list_elem_of_In%problem_diagnostic_ids. done. }
  apply (NoDup_fmap_2_strong id_of); [intros x y _ _; apply id_of_inj|].
  eapply sublist_NoDup; [apply codes_NoDup|apply diagnose_within].
Qed.

Definition runtime_item (i : problem_inputs) : bool :=
  match truthy (pi_message i) with Some _ => pi_messageIsError i | None => false end.

(** The identities after the diagnostics, in their order. *)
Lemma fixed_items i :
  exists rest, map it_id (problem_items i) = map di_id (filterb (diagnosticRevealed i) (problem_diagnostics i)) ++ rest
    /\ sublist rest FIXED_IDS.
Proof.
  unfold ConnectionDiagnostics.problem_items. rewrite map_app, map_map. eexists. split; [done|].
  rewrite !map_app. unfold push_when, FIXED_IDS.
  apply (sublist_app _ [ID_ROLE] _ [_; _; _]); [by destruct (teamRoleCannotAdd i); [|apply sublist_nil_l]|].
  apply (sublist_app _ [ID_URL] _ [_; _]); [by destruct (connectionUrlInvalid i); [|apply sublist_nil_l]|].
  apply (sublist_app _ [ID_RUNTIME] _ [_]).
  - destruct (truthy _); [|apply sublist_nil_l]. by destruct (pi_messageIsError i); [|apply sublist_nil_l].
  - by destruct (pi_testFailure i); [|apply sublist_nil_l].
Qed.

(** The problems shown have distinct identities, and the one of a diagnostic leads to
    that diagnostic's own tab and field. *)
Theorem problems_lead_to_their_fields i :
  NoDup (map it_id (problem_items i))
  /\ forall d, d ∈ problem_diagnostics i ->
       exists f, di_fieldId d = Some f /\ openDiagnostic accentCompare i (di_id d) = to_field (di_tab d) f.
Proof.
  pose proof (problem_diagnostics_NoDup i) as Hnd. split.
  - destruct (fixed_items i) as (rest & -> & Hrest). apply NoDup_app. split_and!.
    + by apply NoDup_filterb_fmap.
    + intros x (d & -> & [_ Hd]%filterb_elem)%list_elem_of_fmap Hx.
      eapply (fixed_id_no_code (di_code d)); [by eapply elem_of_sublist|].
      by apply problem_diagnostic_ids in Hd as [-> _].
    + eapply sublist_NoDup; [|exact Hrest]. pose proof all_ids_NoDup as Hall. by apply NoDup_app in Hall as (_ & _ & ?).
  - intros d Hd. destruct (problem_diagnostic_ids i d Hd) as [Hid [f Hf]]. exists f. split; [done|].
    unfold openDiagnostic.
    assert (forall k, k ∈ FIXED_IDS -> (di_id d ==s k) = false) as Hk.
    { intros k Hk. apply bool_decide_eq_false. rewrite Hid. intros <-. by eapply fixed_id_no_code. }
    rewrite !Hk by (unfold FIXED_IDS; rewrite !elem_of_cons; tauto).
    destruct (findb _ _) as [e|] eqn:E.
    + apply findb_some in E as [He Hin]. apply bool_decide_eq_true in He.
      assert (e = d) as ->; [|by rewrite Hf].
      apply list_elem_of_lookup in Hin as [a Ha]. apply list_elem_of_lookup in Hd as [b Hb].
      assert (a = b) as ->; [|congruence].
      eapply (NoDup_lookup _ _ _ (di_id d) Hnd); rewrite list_lookup_fmap; [by rewrite Ha, <- He|by rewrite Hb].
    + exfalso. apply (proj1 (findb_none _ _)) with (a := d) in E; [|done]. by rewrite bool_decide_eq_true_2 in E.
Qed.

(** A save that is refused shows a blocking problem once everything is revealed, as the
    refusal itself does, and a check is never refused where a save is allowed. *)
Theorem refusals_are_explained i :
  (pi_revealAll i = true -> hasBlocking accentCompare i = true ->
   exists item, item ∈ problem_items i /\ it_tone item = t_danger)
  /\ (hasBlocking accentCompare i = false -> hasTestBlocking accentCompare i = false).
Proof.
  unfold hasBlocking, hasTestBlocking. split.
  - intros Hr [[Hu|Ht]%orb_true_iff|Hd]%orb_true_iff; unfold ConnectionDiagnostics.problem_items.
    + rewrite Hu. eexists. rewrite !elem_of_app. split; [do 2 right; left; by left|done].
    + rewrite Ht. eexists. rewrite !elem_of_app. split; [right; left; by left|done].
    + apply existsb_exists in Hd as (d & Hin%list_elem_of_In & Hd). unfold is_danger in Hd. bools.
      exists (diagnostic_item d). split; [|done]. apply elem_of_app. left. apply list_elem_of_fmap_2, filterb_elem.
      split; [|done]. unfold diagnosticRevealed. rewrite Hr. by rewrite orb_true_r.
  - intros [[Hu Ht]%orb_false_iff Hd]%orb_false_iff. rewrite Hu. cbn.
    apply not_true_iff_false. intros (d & Hin & Hb)%existsb_exists.
    unfold connectionDiagnosticBlocksTest in Hb. bools.
    apply not_true_iff_false in Hd. apply Hd, existsb_exists. eauto.
Qed.

End problems.

(** ** A draft without a blocking diagnostic *)

Definition quiet (l : list ConnectionDiagnostic) : Prop := existsb is_danger l = false.

Lemma quiet_app l k : quiet (l ++ k) <-> quiet l /\ quiet k.
Proof. unfold quiet. rewrite existsb_app. apply orb_false_iff. Qed.

Lemma quiet_when b d : is_danger d = true -> quiet (when b d) <-> b = false.
Proof. intros Hd. unfold quiet. destruct b; cbn; [rewrite Hd|]; done. Qed.

Lemma quiet_warning b d : is_danger d = false -> quiet (when b d).
Proof. intros Hd. unfold quiet. destruct b; cbn; [rewrite Hd|]; done. Qed.

Lemma quiet_one d : is_danger d = true -> ~ quiet [d].
Proof. intros Hd. unfold quiet. cbn. by rewrite Hd. Qed.

Lemma quiet_required value valid missing invalid f :
  quiet (required_text value valid missing invalid f) <-> value <> [] /\ valid value = true.
Proof.
  unfold required_text. destruct value as [|c s]; cbn [non_empty negb].
  - split; [intros H; by apply quiet_one in H|]. by intros [[] _].
  - rewrite quiet_when by done. rewrite negb_false_iff. naive_solver.
Qed.

Lemma digits_between_spec lo hi text :
  (hi < 2 ^ 53)%Z ->
  digits_between lo hi text = true <-> all_digits text = true /\ (lo <= dec_value text <= hi)%Z.
Proof.
  intros Hhi. unfold digits_between, Number_digits, round_double, MAX_SAFE_INTEGER.
  destruct (Z.ltb_spec (dec_value text) (2 ^ 53)) as [Hlt|Hge].
  - rewrite !andb_true_iff, !Z.leb_le. lia.
  - pose proof (round_double_ge (dec_value text) Hge) as Hr. unfold round_double in Hr.
    destruct (Z.ltb_spec (dec_value text) (2 ^ 53)); [lia|]. rewrite !andb_true_iff, !Z.leb_le. lia.
Qed.

(** ** What an accepted draft has *)

(** A host name or a list of them. *)
Lemma valid_host_spec host :
  valid_host host = true <-> includes host (js "://") = false /\ Forall (fun c => is_space c = false) host.
Proof.
  unfold valid_host. rewrite andb_true_iff, !negb_true_iff.
  assert (existsb (existsb is_space) (split_on (N.eqb cCOMMA) host) = existsb is_space host) as ->.
  { induction host as [|c host IH]; [done|]. cbn [split_on existsb].
    destruct (split_on_cons (N.eqb cCOMMA) host) as (w & ws & E). rewrite E in *.
    destruct (N.eqb_spec cCOMMA c) as [<-|Hc]; cbn in IH |- *; rewrite <- IH; [done|]. by rewrite orb_assoc. }
  by rewrite existsb_none, Forall_forall.
Qed.

Definition personal (p : ConnectionProfile) : Prop :=
  cp_workspaceAccess p = wa_local /\ cp_credentialMode p = cm_local /\ cp_providerTarget p = None.

(** A server that is named, on a port, with the user and the database its engine needs. *)
Record server_ready (p : ConnectionProfile) (portDraft : jsstr) : Prop := mkServerReady {
  sr_host : trim (cp_host p) <> [];
  sr_plain : includes (trim (cp_host p)) (js "://") = false
             /\ Forall (fun c => is_space c = false) (trim (cp_host p));
  sr_user : cp_engine p = postgres \/ cp_engine p = mysql -> personal p -> trim (cp_username p) <> [];
  sr_port : mongo_srv p = false -> all_digits portDraft = true /\ (1 <= dec_value portDraft <= 65535)%Z;
  sr_database : trim (cp_database p) <> [];
  sr_target : cp_engine p = postgres \/ cp_engine p = mysql ->
              utf8_length (cp_database p) <= 255 /\ Forall (fun c => is_control c = false) (cp_database p) }.

Inductive endpoint_ready (p : ConnectionProfile) (portDraft : jsstr) : Prop :=
| ready_d1 : is_d1 p = true -> Forall2 (fun q c => q c = true) (repeat is_hex_ci 32) (trim (cp_host p)) ->
    trim (cp_database p) <> [] -> test CLOUDFLARE_DATABASE_RE (trim (cp_database p)) = true -> endpoint_ready p portDraft
| ready_file : is_d1 p = false -> cp_engine p = sqlite -> trim (cp_database p) <> [] -> endpoint_ready p portDraft
| ready_bigquery : cp_engine p = bigquery -> isValidBigQueryProjectId (trim (cp_host p)) = true ->
    isValidBigQueryDatasetId (trim (cp_database p)) = true ->
    (let location := trimmed_param p (js "location") in
     length location <= 64 /\ Forall (fun c => is_alnum c || (c =? cDASH)%N = true) location) ->
    (cp_workspaceAccess p = wa_local ->
     let maximum := param (cp_extraParams p) (js "maximumBytesBilled") in
     all_digits maximum = true /\ (1 <= dec_value maximum <= 10 * 1024 ^ 4)%Z) -> endpoint_ready p portDraft
| ready_server : cp_engine p <> sqlite -> cp_engine p <> bigquery -> server_ready p portDraft ->
    endpoint_ready p portDraft.

Definition seconds_ok (p : ConnectionProfile) (key : jsstr) (lo hi : Z) : Prop :=
  forall v, mget (cp_extraParams p) key = Some v ->
    all_digits (trim v) = true /\ (lo <= dec_value (trim v) <= hi)%Z.

Record options_ready (p : ConnectionProfile) : Prop := mkOptionsReady {
  or_zone : let zone := trimmed_param p CONNECTION_TIME_ZONE_PARAMETER in
            zone <> [] -> isConnectionTimeZone zone = true;
  or_keepAlive : seconds_ok p CONNECTION_KEEP_ALIVE_SECONDS_PARAMETER 10 86400;
  or_autoDisconnect : seconds_ok p CONNECTION_AUTO_DISCONNECT_SECONDS_PARAMETER 30 86400;
  or_script : length (param (cp_extraParams p) CONNECTION_STARTUP_SCRIPT_PARAMETER) <= 4096;
  or_ssh : let alias := trimmed_param p CONNECTION_SSH_ALIAS_PARAMETER in
           alias <> [] -> isSshHostAlias alias = true /\ includes (cp_host p) (js ",") = false /\ mongo_srv p = false }.

(** The catalog did not fail, and once it is loaded the driver is installed. *)
Definition driver_ready (p : ConnectionProfile) (drivers : list DriverDescriptor) (failed pending : bool) : Prop :=
  failed = false
  /\ (pending = true \/ exists d, selected_driver p drivers = Some d /\ dd_installState d = drv_installed).

Lemma quiet_seconds p key lo hi d :
  is_danger d = true -> (hi < 2 ^ 53)%Z -> quiet (seconds_issue p key lo hi d) <-> seconds_ok p key lo hi.
Proof.
  intros Hd Hhi. unfold seconds_issue, seconds_ok. rewrite quiet_when by done.
  destruct (mget (cp_extraParams p) key) as [v|]; [|split; [done|done]].
  rewrite negb_false_iff.
  assert (isBoundedConnectionOptionSeconds v lo hi = digits_between lo hi (trim v)) as ->.
  { unfold isBoundedConnectionOptionSeconds, digits_between. by destruct (all_digits (trim v)). }
  rewrite digits_between_spec by done. split; [by intros H w [= <-]|]. intros H. by apply H.
Qed.

Lemma quiet_options p `{!UrlPlatform} : quiet (option_issues p) <-> options_ready p.
Proof.
  unfold option_issues. rewrite !quiet_app, quiet_when, !quiet_seconds by done.
  assert (quiet (startup_issues p)
          <-> length (param (cp_extraParams p) CONNECTION_STARTUP_SCRIPT_PARAMETER) <= 4096) as ->.
  { unfold startup_issues. destruct (Nat.ltb_spec 4096 (length (param (cp_extraParams p)
      CONNECTION_STARTUP_SCRIPT_PARAMETER))).
    - split; [intros Hq; by apply quiet_one in Hq|lia].
    - split; [lia|]. intros _. by apply quiet_warning. }
  assert (quiet (ssh_issues p) <-> (trimmed_param p CONNECTION_SSH_ALIAS_PARAMETER <> [] ->
    isSshHostAlias (trimmed_param p CONNECTION_SSH_ALIAS_PARAMETER) = true
    /\ includes (cp_host p) (js ",") = false /\ mongo_srv p = false)) as ->.
  { unfold ssh_issues. destruct (trimmed_param p CONNECTION_SSH_ALIAS_PARAMETER) as [|c s]; cbn [non_empty andb].
    { split; [done|]. by intros _. }
    destruct (isSshHostAlias (c :: s)); cbn [negb andb].
    - destruct (includes (cp_host p) (js ",")).
      + split; [intros Hq; by apply quiet_one in Hq|]. intros Hq. by destruct Hq as (_ & ? & _).
      + rewrite quiet_when by done. naive_solver.
    - split; [intros Hq; by apply quiet_one in Hq|]. intros Hq. by destruct Hq as (? & _). }
  assert (forall zone, non_empty zone && negb (isConnectionTimeZone zone) = false
          <-> (zone <> [] -> isConnectionTimeZone zone = true)) as Hz.
  { intros [|c s]; cbn [non_empty andb]; [naive_solver|]. rewrite negb_false_iff. naive_solver. }
  rewrite Hz. split; [intros (? & ? & ? & ? & ?); by split|]. by intros [].
Qed.

Lemma quiet_drivers p drivers failed pending :
  quiet (driver_issues p drivers failed pending) <-> driver_ready p drivers failed pending.
Proof.
  unfold driver_issues, driver_ready. destruct failed.
  { split; [intros Hq; by apply quiet_one in Hq|]. by intros []. }
  destruct pending; [by split; auto|]. destruct (selected_driver p drivers) as [d|].
  - rewrite quiet_when by done. rewrite negb_false_iff, bool_decide_eq_true. naive_solver.
  - split; [intros Hq; by apply quiet_one in Hq|]. naive_solver.
Qed.

Lemma quiet_names `{!UrlPlatform} accentCompare p saved :
  quiet (name_issues accentCompare p saved) <-> trim (cp_name p) <> [] \/ defaultConnectionName p <> [].
Proof.
  unfold name_issues. destruct (trim (cp_name p)) as [|c s]; cbn [non_empty negb andb].
  - destruct (defaultConnectionName p) as [|c s]; cbn [non_empty negb andb].
    + split; [intros Hq; by apply quiet_one in Hq|naive_solver].
    + split; [naive_solver|]. intros _. by apply quiet_warning.
  - split; [naive_solver|]. intros _. by apply quiet_warning.
Qed.

Lemma quiet_d1 p :
  quiet (d1_issues p) <->
  Forall2 (fun q c => q c = true) (repeat is_hex_ci 32) (trim (cp_host p))
  /\ trim (cp_database p) <> [] /\ test CLOUDFLARE_DATABASE_RE (trim (cp_database p)) = true.
Proof.
  unfold d1_issues. rewrite quiet_app, !quiet_required. unfold CLOUDFLARE_ACCOUNT_RE. rewrite test_fixed.
  split; [tauto|]. intros (Ha & ?). split; [|done]. split; [|done]. intros E. rewrite E in Ha. inversion Ha.
Qed.

Lemma quiet_bigquery p portDraft :
  cp_engine p = bigquery -> quiet (bigquery_issues p) <-> endpoint_ready p portDraft.
Proof.
  intros He. unfold bigquery_issues. rewrite !quiet_app, !quiet_required, !quiet_when by done.
  rewrite !andb_false_iff, negb_false_iff, bool_decide_eq_false, digits_between_spec, orb_false_iff, negb_false_iff by done.
  assert (forall s, isValidBigQueryProjectId s = true -> s <> []) as Hp by by intros s H ->.
  assert (forall s, isValidBigQueryDatasetId s = true -> s <> []) as Hd by by intros s H ->.
  set (location := trimmed_param p (js "location")).
  assert (non_empty location = false \/ (64 <? length location) = false
            /\ all_units (fun c => is_alnum c || (c =? cDASH)%N) location = true
          <-> length location <= 64 /\ Forall (fun c => is_alnum c || (c =? cDASH)%N = true) location) as ->.
  { unfold all_units. rewrite Nat.ltb_ge, andb_true_iff, forallb_elem, Forall_forall.
    destruct location; cbn [non_empty length]; [|naive_solver]. split; [split; [lia|by intros ? ?%elem_of_nil]|by left]. }
  split.
  - intros (? & ? & ? & Hm).
    apply ready_bigquery; try tauto.
    all: cbv zeta; tauto.
  - intros [Hd1| |_ ? ? ? Hm|]; [|congruence| |congruence].
    { unfold is_d1 in Hd1. bools. congruence. }
    cbv zeta in *. split_and!; auto; try tauto.
    destruct (decide (cp_workspaceAccess p = wa_local)); [right; by apply Hm|by left].
Qed.

Lemma quiet_server p portDraft :
  cp_engine p <> sqlite -> cp_engine p <> bigquery -> quiet (server_issues p portDraft) <-> server_ready p portDraft.
Proof.
  intros Hs Hb. unfold server_issues. rewrite !quiet_app, quiet_required, !quiet_when, valid_host_spec by done.
  assert (quiet (username_issues p) <->
    (cp_engine p = postgres \/ cp_engine p = mysql -> personal p -> trim (cp_username p) <> [])) as ->.
  { unfold username_issues, personal. cbv zeta.
    match goal with |- context [if ?b && negb (non_empty ?u) then _ else _] =>
      destruct b eqn:E; [destruct u eqn:Hu|]; cbn [andb non_empty negb] end.
    - split; [intros Hq; by apply quiet_one in Hq|]. intros Hname. exfalso.
      rewrite !andb_true_iff, orb_true_iff, !bool_decide_eq_true in E.
      destruct E as [[[? ?] ?] ?]. by apply Hname.
    - split; [done|]. intros _. by apply quiet_warning.
    - split; [|intros _; by apply quiet_warning]. intros _ Hen (Hw & Hc & Ht). rewrite Hw, Hc, Ht in E.
      destruct Hen as [Hen|Hen]; by rewrite Hen in E. }
  rewrite !andb_false_iff, !negb_false_iff, digits_between_spec, bool_decide_eq_false by done.
  assert (quiet (target_issues p) /\ (cp_engine p <> mongodb \/ non_empty (trim (cp_database p)) = true)
    <-> trim (cp_database p) <> [] /\ (cp_engine p = postgres \/ cp_engine p = mysql ->
        utf8_length (cp_database p) <= 255 /\ Forall (fun c => is_control c = false) (cp_database p))) as Ht.
  { unfold target_issues. cbv zeta. set (sql := bool_decide _ || bool_decide _). destruct sql eqn:E; subst sql.
    - rewrite orb_true_iff, !bool_decide_eq_true in E.
      destruct (trim (cp_database p)) as [|c s]; cbn [non_empty negb].
      + split; [by intros [Hq%quiet_one _]|]. by intros [? _].
      + rewrite quiet_when, orb_false_iff, Nat.ltb_ge, existsb_none, Forall_forall by done. naive_solver.
    - rewrite orb_false_iff, !bool_decide_eq_false in E.
      assert (cp_engine p = mongodb) as -> by (destruct (cp_engine p); naive_solver).
      destruct (trim (cp_database p)); naive_solver. }
  split.
  - intros ([? ?] & Hu & Hp & Hm & Hq). destruct (proj1 Ht) as [? ?]; [tauto|].
    split; try tauto. intros Hsrv. rewrite Hsrv in Hp. destruct Hp; done.
  - intros [? ? ? Hp ? ?]. split_and!; try tauto. destruct (mongo_srv p); [by left|]. right. by apply Hp.
Qed.

Lemma quiet_engine p portDraft : quiet (engine_issues p portDraft) <-> endpoint_ready p portDraft.
Proof.
  unfold engine_issues. destruct (is_d1 p) eqn:Hd.
  { rewrite quiet_d1. unfold is_d1 in Hd. bools. split; [intros (? & ? & ?)|].
    - apply ready_d1; try done. unfold is_d1. by rewrite !bool_decide_eq_true_2.
    - intros []; [done| |congruence|congruence]. unfold is_d1 in *. by rewrite !bool_decide_eq_true_2 in *. }
  destruct (bool_decide (cp_engine p = sqlite)) eqn:Hs; bools.
  { rewrite quiet_when, negb_false_iff by done. split.
    - intros H. apply ready_file; [done..|]. by destruct (trim (cp_database p)).
    - intros []; try congruence. by destruct (trim (cp_database p)). }
  destruct (bool_decide (cp_engine p = bigquery)) eqn:Hb; bools; [by apply quiet_bigquery|].
  rewrite quiet_server by done. split; [by apply ready_server|]. intros []; [congruence|congruence|congruence|done].
Qed.

(** A draft has no blocking diagnostic exactly when it has a name, names an endpoint of
    its engine with the user, port and database it needs, has its options within their
    bounds, and runs on an installed driver. *)
Theorem accepted_draft_is_complete `{!UrlPlatform} accentCompare p saved drivers failed pending portDraft :
  existsb is_danger (diagnoseConnection accentCompare p saved drivers failed pending portDraft) = false
  <-> (trim (cp_name p) <> [] \/ defaultConnectionName p <> [])
      /\ endpoint_ready p portDraft /\ options_ready p /\ driver_ready p drivers failed pending.
Proof.
  fold (quiet (diagnoseConnection accentCompare p saved drivers failed pending portDraft)).
  unfold diagnoseConnection. by rewrite !quiet_app, quiet_names, quiet_engine, quiet_options, quiet_drivers.
Qed.
