(* ===== verification/ConnectionDraft.v ===== *)
(** * The draft of the connection editor

    Models [src/features/connections/useConnectionProfileState.ts], [useConnectionUrlDraft.ts],
    [useConnectionDraftChanges.ts], [useConnectionTestCommand.ts],
    [useConnectionDatabaseDiscovery.ts] and the commands of [useConnectionProfileController.ts]
    as one state with a step per input. Inputs are the events of the editor and the answers
    of the calls it awaits, in any order; the editor renders between two of them, so that a
    handler sees the state of the last step, except for what a closure kept across an
    [await]. A call in flight carries its arguments. [toLowerCase], [localeCompare] and
    [new URL] are parameters, messages are keys of the catalog. *)

From S2P Require Import Prelude JsString JsText JsMap JsSort JsValue JsonText SqlIdent Environment.
From S2P Require Import SafetyPolicy.
From S2P Require Import Access Connections ConnectionUrl ConnectionEditor ConnectionDiagnostics.
From S2P Require Import ConnectionDiagnostics.
From Stdlib Require String.
Import Stdlib.Strings.String.StringSyntax.

(** ** State *)

(** What is edited. [df_baseline] is the fingerprint of the last saved profile. *)
Record draft_fields := mkDraft {
  df_form : ConnectionProfile; df_password : jsstr; df_clear : bool; df_portDraft : jsstr;
  df_isNew : bool; df_persisted : bool; df_mode : ConnectionInputMode; df_urlDraft : jsstr;
  df_baseline : jsstr }.

Inductive running_command := run_save | run_apply | run_test.
#[export] Instance running_command_eq_dec : EqDecision running_command.
Proof. solve_decision. Defined.

Record editor_status := mkStatus {
  su_busy : bool; su_running : option running_command; su_message : option jsstr; su_isError : bool;
  su_stage : option ConnectionCommandStage; su_testFailure : option ConnectionTestIssue; su_verified : bool;
  su_usedSaved : bool; su_retryAt : option Z; su_clock : Z; su_problemsOpen : bool; su_tab : ConnectionTab;
  su_touched : list jsstr; su_revealAll : bool }.

(** What a check or a discovery is called with. *)
Inductive probe_subject :=
| probe_saved (id : jsstr)
| probe_draft (profile : ConnectionProfile) (password : option jsstr).
#[export] Instance probe_subject_eq_dec : EqDecision probe_subject.
Proof. solve_decision. Defined.

Record test_call := mkTest { tc_id : nat; tc_revision : nat; tc_subject : probe_subject }.
Record discovery_call := mkDiscoveryCall { dc_id : nat; dc_revision : nat; dc_subject : probe_subject }.

Inductive discovery_phase := dp_idle | dp_loading | dp_ready | dp_empty | dp_error | dp_credentialRequired
| dp_credentialStoreDenied.
#[export] Instance discovery_phase_eq_dec : EqDecision discovery_phase.
Proof. solve_decision. Defined.

(** [Discovery]; the initial revision -1 is [None]. The subject is that of the request. *)
Record Discovery := mkDiscovery {
  ds_revision : option nat; ds_phase : discovery_phase; ds_databases : list jsstr;
  ds_subject : option probe_subject }.

(** The refs of the two revisions, the checks and the discoveries in flight.
    [ck_passed] remembers what the last passing check was called with. *)
Record probe_state := mkProbes {
  ck_verification : nat; ck_endpoint : nat; ck_testId : nat; ck_tests : list test_call;
  ck_passed : option probe_subject; ck_result : Discovery;
  ck_requestId : nat; ck_requestRevision : option nat; ck_requestPending : bool;
  ck_discoveries : list discovery_call }.

(** A command of the editor at the call it awaits, with its arguments and what its closure
    reads after the call. *)
Inductive command :=
| c_upsert (closeEditor shared : bool) (mode : ConnectionInputMode) (sent : ConnectionProfile)
    (password : option jsstr) (clear : bool)
| c_finalize (saved : ConnectionProfile) (closeEditor : bool)
| c_onSaved (saved : ConnectionProfile) (closeEditor : bool)
| c_delete (id : jsstr)
| c_deleted
| c_refresh
| c_cleanup.

(** An action that leaves the draft: the cancel command with the running command its
    closure saw, or another route. *)
Inductive leave_action := lv_cancel (running : option running_command) | lv_route (route : nat).
#[export] Instance leave_action_eq_dec : EqDecision leave_action.
Proof. solve_decision. Defined.

Record editor := mkEditor {
  ed_draft : draft_fields; ed_status : editor_status; ed_probes : probe_state;
  ed_pendingDiscard : option leave_action; ed_left : list leave_action; ed_commands : list command;
  ed_clipboard : option ConnectionProfile; ed_mounted : bool }.

(** ** Updates of the state *)

Definition on_draft (f : draft_fields -> draft_fields) (e : editor) : editor :=
  mkEditor (f (ed_draft e)) (ed_status e) (ed_probes e) (ed_pendingDiscard e) (ed_left e) (ed_commands e)
    (ed_clipboard e) (ed_mounted e).
Definition on_status (f : editor_status -> editor_status) (e : editor) : editor :=
  mkEditor (ed_draft e) (f (ed_status e)) (ed_probes e) (ed_pendingDiscard e) (ed_left e) (ed_commands e)
    (ed_clipboard e) (ed_mounted e).
Definition on_probes (f : probe_state -> probe_state) (e : editor) : editor :=
  mkEditor (ed_draft e) (ed_status e) (f (ed_probes e)) (ed_pendingDiscard e) (ed_left e) (ed_commands e)
    (ed_clipboard e) (ed_mounted e).
Definition with_commands (c : list command) (e : editor) : editor :=
  mkEditor (ed_draft e) (ed_status e) (ed_probes e) (ed_pendingDiscard e) (ed_left e) c (ed_clipboard e) (ed_mounted e).
Definition with_pending (a : option leave_action) (e : editor) : editor :=
  mkEditor (ed_draft e) (ed_status e) (ed_probes e) a (ed_left e) (ed_commands e) (ed_clipboard e) (ed_mounted e).
Definition with_left (a : leave_action) (e : editor) : editor :=
  mkEditor (ed_draft e) (ed_status e) (ed_probes e) (ed_pendingDiscard e) (ed_left e ++ [a]) (ed_commands e)
    (ed_clipboard e) (ed_mounted e).
Definition with_clipboard (c : option ConnectionProfile) (e : editor) : editor :=
  mkEditor (ed_draft e) (ed_status e) (ed_probes e) (ed_pendingDiscard e) (ed_left e) (ed_commands e) c (ed_mounted e).
Definition unmount (e : editor) : editor :=
  mkEditor (ed_draft e) (ed_status e) (ed_probes e) (ed_pendingDiscard e) (ed_left e) (ed_commands e)
    (ed_clipboard e) false.

Definition with_form (p : ConnectionProfile) (d : draft_fields) : draft_fields :=
  mkDraft p (df_password d) (df_clear d) (df_portDraft d) (df_isNew d) (df_persisted d) (df_mode d) (df_urlDraft d)
    (df_baseline d).
Definition with_password (s : jsstr) (d : draft_fields) : draft_fields :=
  mkDraft (df_form d) s (df_clear d) (df_portDraft d) (df_isNew d) (df_persisted d) (df_mode d) (df_urlDraft d)
    (df_baseline d).
Definition with_clear (b : bool) (d : draft_fields) : draft_fields :=
  mkDraft (df_form d) (df_password d) b (df_portDraft d) (df_isNew d) (df_persisted d) (df_mode d) (df_urlDraft d)
    (df_baseline d).
Definition with_portDraft (s : jsstr) (d : draft_fields) : draft_fields :=
  mkDraft (df_form d) (df_password d) (df_clear d) s (df_isNew d) (df_persisted d) (df_mode d) (df_urlDraft d)
    (df_baseline d).
Definition with_identity (isNew persisted : bool) (d : draft_fields) : draft_fields :=
  mkDraft (df_form d) (df_password d) (df_clear d) (df_portDraft d) isNew persisted (df_mode d) (df_urlDraft d)
    (df_baseline d).
Definition with_mode (m : ConnectionInputMode) (d : draft_fields) : draft_fields :=
  mkDraft (df_form d) (df_password d) (df_clear d) (df_portDraft d) (df_isNew d) (df_persisted d) m (df_urlDraft d)
    (df_baseline d).
Definition with_urlDraft (s : jsstr) (d : draft_fields) : draft_fields :=
  mkDraft (df_form d) (df_password d) (df_clear d) (df_portDraft d) (df_isNew d) (df_persisted d) (df_mode d) s
    (df_baseline d).
Definition with_baseline (s : jsstr) (d : draft_fields) : draft_fields :=
  mkDraft (df_form d) (df_password d) (df_clear d) (df_portDraft d) (df_isNew d) (df_persisted d) (df_mode d)
    (df_urlDraft d) s.

Definition with_busy (b : bool) (s : editor_status) : editor_status :=
  mkStatus b (su_running s) (su_message s) (su_isError s) (su_stage s) (su_testFailure s) (su_verified s)
    (su_usedSaved s) (su_retryAt s) (su_clock s) (su_problemsOpen s) (su_tab s) (su_touched s) (su_revealAll s).
Definition with_running (r : option running_command) (s : editor_status) : editor_status :=
  mkStatus (su_busy s) r (su_message s) (su_isError s) (su_stage s) (su_testFailure s) (su_verified s)
    (su_usedSaved s) (su_retryAt s) (su_clock s) (su_problemsOpen s) (su_tab s) (su_touched s) (su_revealAll s).
Definition with_message (m : option jsstr) (s : editor_status) : editor_status :=
  mkStatus (su_busy s) (su_running s) m (su_isError s) (su_stage s) (su_testFailure s) (su_verified s)
    (su_usedSaved s) (su_retryAt s) (su_clock s) (su_problemsOpen s) (su_tab s) (su_touched s) (su_revealAll s).
Definition with_isError (b : bool) (s : editor_status) : editor_status :=
  mkStatus (su_busy s) (su_running s) (su_message s) b (su_stage s) (su_testFailure s) (su_verified s)
    (su_usedSaved s) (su_retryAt s) (su_clock s) (su_problemsOpen s) (su_tab s) (su_touched s) (su_revealAll s).
Definition with_stage (t : ConnectionCommandStage) (s : editor_status) : editor_status :=
  mkStatus (su_busy s) (su_running s) (su_message s) (su_isError s) (Some t) (su_testFailure s) (su_verified s)
    (su_usedSaved s) (su_retryAt s) (su_clock s) (su_problemsOpen s) (su_tab s) (su_touched s) (su_revealAll s).
Definition with_testFailure (f : option ConnectionTestIssue) (s : editor_status) : editor_status :=
  mkStatus (su_busy s) (su_running s) (su_message s) (su_isError s) (su_stage s) f (su_verified s)
    (su_usedSaved s) (su_retryAt s) (su_clock s) (su_problemsOpen s) (su_tab s) (su_touched s) (su_revealAll s).
Definition with_verified (b : bool) (s : editor_status) : editor_status :=
  mkStatus (su_busy s) (su_running s) (su_message s) (su_isError s) (su_stage s) (su_testFailure s) b
    (su_usedSaved s) (su_retryAt s) (su_clock s) (su_problemsOpen s) (su_tab s) (su_touched s) (su_revealAll s).
Definition with_usedSaved (b : bool) (s : editor_status) : editor_status :=
  mkStatus (su_busy s) (su_running s) (su_message s) (su_isError s) (su_stage s) (su_testFailure s) (su_verified s)
    b (su_retryAt s) (su_clock s) (su_problemsOpen s) (su_tab s) (su_touched s) (su_revealAll s).
Definition with_cooldown (retryAt : option Z) (clock : Z) (s : editor_status) : editor_status :=
  mkStatus (su_busy s) (su_running s) (su_message s) (su_isError s) (su_stage s) (su_testFailure s) (su_verified s)
    (su_usedSaved s) retryAt clock (su_problemsOpen s) (su_tab s) (su_touched s) (su_revealAll s).
Definition with_problemsOpen (b : bool) (s : editor_status) : editor_status :=
  mkStatus (su_busy s) (su_running s) (su_message s) (su_isError s) (su_stage s) (su_testFailure s) (su_verified s)
    (su_usedSaved s) (su_retryAt s) (su_clock s) b (su_tab s) (su_touched s) (su_revealAll s).
Definition with_tab (t : ConnectionTab) (s : editor_status) : editor_status :=
  mkStatus (su_busy s) (su_running s) (su_message s) (su_isError s) (su_stage s) (su_testFailure s) (su_verified s)
    (su_usedSaved s) (su_retryAt s) (su_clock s) (su_problemsOpen s) t (su_touched s) (su_revealAll s).
Definition with_touched (l : list jsstr) (s : editor_status) : editor_status :=
  mkStatus (su_busy s) (su_running s) (su_message s) (su_isError s) (su_stage s) (su_testFailure s) (su_verified s)
    (su_usedSaved s) (su_retryAt s) (su_clock s) (su_problemsOpen s) (su_tab s) l (su_revealAll s).
Definition with_revealAll (s : editor_status) : editor_status :=
  mkStatus (su_busy s) (su_running s) (su_message s) (su_isError s) (su_stage s) (su_testFailure s) (su_verified s)
    (su_usedSaved s) (su_retryAt s) (su_clock s) (su_problemsOpen s) (su_tab s) (su_touched s) true.

Definition with_revisions (verification endpoint : nat) (p : probe_state) : probe_state :=
  mkProbes verification endpoint (ck_testId p) (ck_tests p) (ck_passed p) (ck_result p) (ck_requestId p)
    (ck_requestRevision p) (ck_requestPending p) (ck_discoveries p).
Definition with_tests (testId : nat) (tests : list test_call) (p : probe_state) : probe_state :=
  mkProbes (ck_verification p) (ck_endpoint p) testId tests (ck_passed p) (ck_result p) (ck_requestId p)
    (ck_requestRevision p) (ck_requestPending p) (ck_discoveries p).
Definition with_passed (s : probe_subject) (p : probe_state) : probe_state :=
  mkProbes (ck_verification p) (ck_endpoint p) (ck_testId p) (ck_tests p) (Some s) (ck_result p) (ck_requestId p)
    (ck_requestRevision p) (ck_requestPending p) (ck_discoveries p).
Definition with_result (r : Discovery) (p : probe_state) : probe_state :=
  mkProbes (ck_verification p) (ck_endpoint p) (ck_testId p) (ck_tests p) (ck_passed p) r (ck_requestId p)
    (ck_requestRevision p) (ck_requestPending p) (ck_discoveries p).
Definition with_request (id : nat) (revision : option nat) (pending : bool) (calls : list discovery_call)
    (p : probe_state) : probe_state :=
  mkProbes (ck_verification p) (ck_endpoint p) (ck_testId p) (ck_tests p) (ck_passed p) (ck_result p) id revision
    pending calls.

(** ** Edits of the profile *)

(** [{ ...p, ... }] of the fields the editor changes. *)
Definition revise (p : ConnectionProfile) (name : jsstr) (driverId : option jsstr) (host : jsstr) (port : Z)
    (database username sslmode : jsstr) (extra : list (jsstr * jsstr)) (readonlyDefault : bool)
    (secretRef : option jsstr) (env : option EnvironmentKind) (schemaGroup : option jsstr) : ConnectionProfile :=
  {| cp_id := cp_id p; cp_name := name; cp_engine := cp_engine p; cp_provider := cp_provider p;
     cp_driverId := driverId; cp_host := host; cp_port := port; cp_database := database; cp_username := username;
     cp_sslmode := sslmode; cp_extraParams := extra; cp_readonlyDefault := readonlyDefault;
     cp_allowWrites := cp_allowWrites p; cp_schemaAccessAvailable := cp_schemaAccessAvailable p;
     cp_secretRef := secretRef; cp_env := env; cp_effectiveEnv := cp_effectiveEnv p; cp_schemaGroup := schemaGroup;
     cp_workspaceAccess := cp_workspaceAccess p; cp_credentialMode := cp_credentialMode p;
     cp_providerTarget := cp_providerTarget p |}.

Definition put_name (s : jsstr) (p : ConnectionProfile) : ConnectionProfile :=
  revise p s (cp_driverId p) (cp_host p) (cp_port p) (cp_database p) (cp_username p) (cp_sslmode p)
    (cp_extraParams p) (cp_readonlyDefault p) (cp_secretRef p) (cp_env p) (cp_schemaGroup p).
Definition put_port (port : Z) (p : ConnectionProfile) : ConnectionProfile :=
  revise p (cp_name p) (cp_driverId p) (cp_host p) port (cp_database p) (cp_username p) (cp_sslmode p)
    (cp_extraParams p) (cp_readonlyDefault p) (cp_secretRef p) (cp_env p) (cp_schemaGroup p).
Definition put_extra (extra : list (jsstr * jsstr)) (p : ConnectionProfile) : ConnectionProfile :=
  revise p (cp_name p) (cp_driverId p) (cp_host p) (cp_port p) (cp_database p) (cp_username p) (cp_sslmode p)
    extra (cp_readonlyDefault p) (cp_secretRef p) (cp_env p) (cp_schemaGroup p).
Definition put_secretRef (s : option jsstr) (p : ConnectionProfile) : ConnectionProfile :=
  revise p (cp_name p) (cp_driverId p) (cp_host p) (cp_port p) (cp_database p) (cp_username p) (cp_sslmode p)
    (cp_extraParams p) (cp_readonlyDefault p) s (cp_env p) (cp_schemaGroup p).
Definition put_place (host database : jsstr) (p : ConnectionProfile) : ConnectionProfile :=
  revise p (cp_name p) (cp_driverId p) host (cp_port p) database (cp_username p) (cp_sslmode p)
    (cp_extraParams p) (cp_readonlyDefault p) (cp_secretRef p) (cp_env p) (cp_schemaGroup p).

(** The fields the editor sets one at a time. *)
Inductive field_edit :=
| fe_name (s : jsstr) | fe_driverId (s : option jsstr) | fe_host (s : jsstr) | fe_database (s : jsstr)
| fe_username (s : jsstr) | fe_sslmode (s : jsstr) | fe_readonlyDefault (b : bool)
| fe_env (e : option EnvironmentKind) | fe_schemaGroup (s : option jsstr).

Definition put_field (f : field_edit) (p : ConnectionProfile) : ConnectionProfile :=
  let put name driverId host database username sslmode ro env grp :=
    revise p name driverId host (cp_port p) database username sslmode (cp_extraParams p) ro (cp_secretRef p) env grp in
  let name := cp_name p in let driverId := cp_driverId p in let host := cp_host p in
  let database := cp_database p in let username := cp_username p in let sslmode := cp_sslmode p in
  let ro := cp_readonlyDefault p in let env := cp_env p in let grp := cp_schemaGroup p in
  match f with
  | fe_name s => put s driverId host database username sslmode ro env grp
  | fe_driverId s => put name s host database username sslmode ro env grp
  | fe_host s => put name driverId s database username sslmode ro env grp
  | fe_database s => put name driverId host s username sslmode ro env grp
  | fe_username s => put name driverId host database s sslmode ro env grp
  | fe_sslmode s => put name driverId host database username s ro env grp
  | fe_readonlyDefault b => put name driverId host database username sslmode b env grp
  | fe_env e => put name driverId host database username sslmode ro e grp
  | fe_schemaGroup s => put name driverId host database username sslmode ro env s
  end.

(** [SERVER_NEUTRAL_FIELDS] *)
Definition server_neutral (f : field_edit) : bool :=
  match f with
  | fe_name _ | fe_env _ | fe_schemaGroup _ | fe_readonlyDefault _ | fe_database _ => true
  | _ => false
  end.

(** [PROFILE_FIELD_IDS] *)
Definition profile_field_id (f : field_edit) : option jsstr :=
  match f with
  | fe_name _ => Some (js "connection-name") | fe_host _ => Some (js "connection-host")
  | fe_database _ => Some (js "connection-database") | fe_driverId _ => Some (js "connection-driver")
  | _ => None
  end.

(** The parameters [setExtraParameter], [setSrv] and [setMongoTls] leave. *)
Definition set_or_delete (key value : jsstr) (extra : list (jsstr * jsstr)) : list (jsstr * jsstr) :=
  if non_empty value then oset extra key value else mdel extra key.
Definition srv_parameters (checked : bool) (extra : list (jsstr * jsstr)) : list (jsstr * jsstr) :=
  if checked then mset extra (js "srv") (js "true") else mdel extra (js "srv").
Definition tls_parameters (checked : bool) (extra : list (jsstr * jsstr)) : list (jsstr * jsstr) :=
  if checked then mset extra (js "tls") (js "true") else delete_all MONGO_TLS_PARAMETERS extra.

(** A project or an account of a cloud provider is chosen: its resource belongs to it. *)
Definition choose_owner (id : jsstr) (p : ConnectionProfile) : ConnectionProfile :=
  put_place id (if trim (cp_host p) ==s trim id then cp_database p else []) p.
Definition choose_d1_database (id : jsstr) (name : option jsstr) (p : ConnectionProfile) : ConnectionProfile :=
  let q := put_place (cp_host p) id p in
  put_name (if non_empty (trim (cp_name p)) then cp_name p else default (cp_name p) name) q.

(** The edits that replace the profile by a function of it. *)
Inductive profile_edit :=
| pe_extra (key value : jsstr)
| pe_srv (checked : bool)
| pe_mongoTls (checked : bool)
| pe_toggleTimed (key : jsstr) (checked : bool) (defaultSeconds : Z)
| pe_timedValue (key value : jsstr)
| pe_rows (rows : list AdvancedParameterRow)
| pe_owner (id : jsstr)
| pe_d1Database (id : jsstr) (name : option jsstr).

Definition edit_profile (x : profile_edit) (p : ConnectionProfile) : ConnectionProfile :=
  let extra := cp_extraParams p in
  match x with
  | pe_extra key value => put_extra (set_or_delete key value extra) p
  | pe_srv checked => put_extra (srv_parameters checked extra) p
  | pe_mongoTls checked => put_extra (tls_parameters checked extra) p
  | pe_toggleTimed key checked seconds =>
    put_extra (set_or_delete key (if checked then show_Z seconds else []) extra) p
  | pe_timedValue key value => put_extra (mset extra key value) p
  | pe_rows rows => put_extra (commit_params rows extra) p
  | pe_owner id => choose_owner id p
  | pe_d1Database id name => choose_d1_database id name p
  end.

(** The copy of [duplicateCurrentConnection]. *)
Definition duplicate_profile (uuid name : jsstr) (p : ConnectionProfile) : ConnectionProfile :=
  {| cp_id := uuid; cp_name := name; cp_engine := cp_engine p; cp_provider := cp_provider p;
     cp_driverId := cp_driverId p; cp_host := cp_host p; cp_port := cp_port p; cp_database := cp_database p;
     cp_username := cp_username p; cp_sslmode := cp_sslmode p;
     cp_extraParams := mdel (cp_extraParams p) CONNECTION_INPUT_MODE_PARAMETER;
     cp_readonlyDefault := cp_readonlyDefault p; cp_allowWrites := cp_allowWrites p;
     cp_schemaAccessAvailable := cp_schemaAccessAvailable p; cp_secretRef := None; cp_env := cp_env p;
     cp_effectiveEnv := cp_effectiveEnv p; cp_schemaGroup := cp_schemaGroup p; cp_workspaceAccess := wa_local;
     cp_credentialMode := cm_local; cp_providerTarget := None |}.

(** What the binding of a member owns. *)
Definition bind_profile (bound p : ConnectionProfile) : ConnectionProfile :=
  revise p (cp_name p) (cp_driverId p) (cp_host p) (cp_port p) (cp_database p) (cp_username bound) (cp_sslmode p)
    (cp_extraParams bound) (cp_readonlyDefault p) (cp_secretRef bound) (cp_env p) (cp_schemaGroup p).

(** ** Unsaved changes *)

Definition provider_name (p : ConnectionProvider) : jsstr :=
  match p with
  | p_auto => js "auto" | p_generic => js "generic" | p_neon => js "neon" | p_planetScale => js "planetScale"
  | p_gcpCloudSql => js "gcpCloudSql" | p_cloudflareD1 => js "cloudflareD1" end.

Section editor.
Context `{!UrlPlatform} (accentCompare : jsstr -> jsstr -> Z) (copyName : jsstr -> jsstr) (unnamed : jsstr).

Definition fingerprint_value (p : ConnectionProfile) (portDraft : jsstr) (urlDraft : option jsstr) : value :=
  VArr [VStr (cp_id p); VStr (cp_name p); VStr (engine_name (cp_engine p)); VStr (provider_name (cp_provider p));
        opt_value (cp_driverId p); VStr (cp_host p); VStr portDraft; VStr (cp_database p); VStr (cp_username p);
        VStr (cp_sslmode p);
        VArr (map (fun e => VArr [VStr e.1; VStr e.2])
                (sort_by (fun a b => localeCompare a.1 b.1) (cp_extraParams p)));
        VBool (cp_readonlyDefault p); opt_value (option_map kind_name (cp_env p)); opt_value (cp_schemaGroup p);
        opt_value urlDraft].
(** The array has neither numbers nor BigInts, so that [JSON.stringify] gives a text. *)
Definition draftFingerprint (p : ConnectionProfile) (portDraft : jsstr) (urlDraft : option jsstr) : jsstr :=
  match stringify (fingerprint_value p portDraft urlDraft) with Ok (Some text) => text | _ => [] end.

Definition is_urlOnly (p : ConnectionProfile) : bool :=
  param_is (cp_extraParams p) CONNECTION_INPUT_MODE_PARAMETER (js "urlOnly").
(** [None] when the URL of the profile cannot be encoded, which throws. *)
Definition initialUrlDraft (p : ConnectionProfile) : option (option jsstr) :=
  if is_urlOnly p then url ← formatConnectionUrl p; Some (Some url) else Some None.

Definition url_draft (d : draft_fields) : option jsstr :=
  match df_mode d with m_urlOnly => Some (df_urlDraft d) | m_default => None end.
Definition credentialEdited (d : draft_fields) : bool := non_empty (df_password d) || df_clear d.
Definition dirty (d : draft_fields) : bool :=
  negb (draftFingerprint (df_form d) (df_portDraft d) (url_draft d) ==s df_baseline d) || credentialEdited d.

(** ** The initial state *)

Definition with_sslmode (p : ConnectionProfile) : ConnectionProfile :=
  put_field (fe_sslmode (sslModeForEngine (cp_engine p) (cp_sslmode p))) p.

(** [None] when the first render throws. [profile] is the opened profile or a blank one. *)
Definition open_editor (profile : ConnectionProfile) (isNew : bool) (now : Z) : option editor :=
  let p := with_sslmode profile in
  url ← formatConnectionUrl p;
  initialUrl ← initialUrlDraft p;
  Some (mkEditor
    (mkDraft p [] false (show_Z (cp_port p)) isNew (negb isNew) (if is_urlOnly p then m_urlOnly else m_default) url
       (draftFingerprint p (show_Z (cp_port p)) initialUrl))
    (mkStatus false None None false None None false false None now false tab_general [] false)
    (mkProbes 0 0 0 [] None (mkDiscovery None dp_idle [] None) 0 None false [])
    None [] [] None true).

(** ** The profile state's commands *)

Definition invalidateVerification (e : editor) : editor :=
  on_status (fun s => with_verified false (with_testFailure None (with_isError false (with_message None s))))
    (on_probes (fun p => with_revisions (S (ck_verification p)) (ck_endpoint p) p) e).

Definition bump_endpoint (e : editor) : editor :=
  on_probes (fun p => with_revisions (ck_verification p) (S (ck_endpoint p)) p) e.

Definition setFormValue (f : ConnectionProfile -> ConnectionProfile) (endpointChanged : bool) (e : editor) : editor :=
  let e := invalidateVerification e in
  let e := if endpointChanged then bump_endpoint e else e in
  on_draft (fun d => with_form (f (df_form d)) d) e.

Definition setCredentialPassword (s : jsstr) (e : editor) : editor :=
  on_draft (with_password s) (bump_endpoint (invalidateVerification e)).
Definition setClearStoredPassword (b : bool) (e : editor) : editor :=
  on_draft (with_clear b) (bump_endpoint (invalidateVerification e)).

Definition touch (fieldId : jsstr) (e : editor) : editor :=
  on_status (fun s => with_touched (sadd (su_touched s) fieldId) s) e.

Definition set_field (f : field_edit) (e : editor) : editor :=
  let e := match profile_field_id f with Some id => touch id e | None => e end in
  setFormValue (put_field f) (negb (server_neutral f)) e.

Definition setPortDraft (text : jsstr) (e : editor) : editor :=
  let e := on_draft (with_portDraft text) (bump_endpoint (invalidateVerification e)) in
  if digits_between 1 65535 text
  then on_draft (fun d => with_form (put_port (Number_digits text) (df_form d)) d) e
  else e.

(** The effect of [form.port]: the text follows a port that changed since [before]. *)
Definition follow_port (before : Z) (e : editor) : editor :=
  if (cp_port (df_form (ed_draft e)) =? before)%Z then e
  else on_draft (fun d => with_portDraft (show_Z (cp_port (df_form d))) d) e.

Definition showError (stage : ConnectionCommandStage) (text : jsstr) (e : editor) : editor :=
  on_status (fun s => with_stage stage (with_isError true (with_message (Some text) s))) e.

Definition markPersisted (saved : ConnectionProfile) (urlDraft : option jsstr) (e : editor) : editor :=
  let port := show_Z (cp_port saved) in
  on_draft (fun d => with_clear false (with_portDraft port (with_baseline (draftFingerprint saved port urlDraft) d))) e.

Definition probeProfile (d : draft_fields) : ConnectionProfile :=
  if df_clear d then put_secretRef None (df_form d) else df_form d.
Definition usesSavedPassword (d : draft_fields) : bool :=
  negb (bool_decide (cp_secretRef (df_form d) = None)) && negb (df_clear d) && negb (non_empty (df_password d)).
Definition draft_subject (d : draft_fields) : probe_subject := probe_draft (probeProfile d) (truthy (Some (df_password d))).
Definition isSharedTemplate (d : draft_fields) : bool := is_shared (df_form d).

(** Whole seconds of a cooldown: [Math.max(1, Math.ceil((retryAt - clock) / 1000))]. *)
Definition retrySeconds (s : editor_status) : Z :=
  match su_retryAt s with
  | None => 0
  | Some retryAt => Z.max 1 ((retryAt - su_clock s + 999) / 1000)
  end.
Definition tick (now : Z) (e : editor) : editor :=
  on_status (fun s =>
    match su_retryAt s with
    | None => s
    | Some retryAt => with_cooldown (if (retryAt <=? now)%Z then None else Some retryAt) now s
    end) e.

(** ** The URL draft *)

Definition selectMode (next : ConnectionInputMode) (e : editor) : editor :=
  if bool_decide (next = df_mode (ed_draft e)) then e
  else
    let set_mode url e :=
      on_draft (fun d => with_mode next (with_urlDraft url d))
        (setFormValue (fun p =>
           put_extra (match next with
                      | m_urlOnly => mset (cp_extraParams p) CONNECTION_INPUT_MODE_PARAMETER (js "urlOnly")
                      | m_default => mdel (cp_extraParams p) CONNECTION_INPUT_MODE_PARAMETER end) p) true e) in
    match next with
    | m_urlOnly => match formatConnectionUrl (df_form (ed_draft e)) with Some url => set_mode url e | None => e end
    | m_default => set_mode (df_urlDraft (ed_draft e)) e
    end.

(** [apply], from the form its closure saw; the result tells whether the text was a URL. *)
Definition apply_url (form : ConnectionProfile) (raw : jsstr) (normalizeDraft : bool) (inputMode : ConnectionInputMode)
    (e : editor) : editor * bool :=
  match parseConnectionUrl raw with
  | None => (e, false)
  | Some parsed =>
    let nextForm := applied_form form (pu_update parsed) inputMode normalizeDraft in
    let e := setFormValue (fun _ => nextForm) true e in
    let e := match pu_password parsed with Some s => setCredentialPassword s e | None => e end in
    if normalizeDraft then
      match formatConnectionUrl nextForm with
      | Some url => (on_draft (with_urlDraft url) e, true)
      | None => (e, false)
      end
    else (e, true)
  end.

Definition edit_url (raw : jsstr) (e : editor) : editor :=
  let e' := on_draft (with_urlDraft raw) (invalidateVerification e) in
  (apply_url (df_form (ed_draft e)) raw false (df_mode (ed_draft e)) e').1.
Definition normalize_url (raw : jsstr) (e : editor) : editor :=
  (apply_url (df_form (ed_draft e)) raw true (df_mode (ed_draft e)) e).1.

(** The clipboard text arrives after an [await]: the form is that of the click. *)
Definition import_url (form : ConnectionProfile) (text : jsstr) (e : editor) : editor :=
  let inputMode := match parseConnectionUrl text with
                   | Some parsed => if connectionUrlNeedsDatabaseSelection parsed then m_default else m_urlOnly
                   | None => m_urlOnly end in
  let '(e, imported) := apply_url form text true inputMode e in
  if imported then on_draft (with_mode inputMode) e else e.

(** ** Checks *)

(** What the problems are computed from besides the editor. *)
Record surroundings := mkSurroundings {
  sr_connections : list ConnectionProfile; sr_drivers : option (list DriverDescriptor);
  sr_driversFailed : bool; sr_driversPending : bool; sr_teamRole : option (option WorkspaceRoleName) }.

Definition inputs_of (x : surroundings) (e : editor) : problem_inputs :=
  let d := ed_draft e in let s := ed_status e in
  mkInputs (df_form d) (df_portDraft d) (df_mode d) (df_urlDraft d) (su_touched s) (su_revealAll s)
    (su_message s) (su_isError s) (su_stage s) (su_testFailure s) (su_usedSaved s) (retrySeconds s)
    (sr_connections x) (sr_drivers x) (sr_driversFailed x) (sr_driversPending x) (sr_teamRole x).

Inductive ConnectionTestUnavailableReason := sharedDraftUnsaved | managedCooldown.
Definition unavailableReason (e : editor) : option ConnectionTestUnavailableReason :=
  if isSharedTemplate (ed_draft e) && dirty (ed_draft e) then Some sharedDraftUnsaved
  else if (0 <? retrySeconds (ed_status e))%Z then Some managedCooldown
  else None.

Definition cancel_test (running : option running_command) (e : editor) : editor :=
  if bool_decide (running = Some run_test) then
    on_status (with_running None) (on_probes (fun p => with_tests (S (ck_testId p)) (ck_tests p) p) e)
  else e.

Definition reveal_problems (e : editor) : editor := on_status (fun s => with_problemsOpen true (with_revealAll s)) e.

Definition test_subject (d : draft_fields) : probe_subject :=
  if isSharedTemplate d then probe_saved (cp_id (df_form d)) else draft_subject d.

Definition start_test (e : editor) : editor :=
  let d := ed_draft e in
  let call := mkTest (S (ck_testId (ed_probes e))) (ck_verification (ed_probes e)) (test_subject d) in
  on_status (fun s =>
      with_problemsOpen false
        (with_usedSaved (negb (isSharedTemplate d) && usesSavedPassword d)
           (with_testFailure None (with_message None (with_running (Some run_test) s)))))
    (on_probes (fun p => with_tests (S (ck_testId p)) (ck_tests p ++ [call]) p) e).

Definition test_command (x : surroundings) (e : editor) : editor :=
  if bool_decide (su_running (ed_status e) = Some run_test) then cancel_test (su_running (ed_status e)) e
  else match unavailableReason e with
       | Some _ => e
       | None =>
         if su_busy (ed_status e) then e
         else if hasTestBlocking accentCompare (inputs_of x e) then reveal_problems e
         else start_test e
       end.

(** What a landed answer shows; [now] is [Date.now()]. *)
Definition land_receipt (now : Z) (subject : probe_subject) (answer : option ConnectionTestReceipt) (e : editor)
    : editor :=
  match answer with
  | Some r_ok =>
    on_status (fun s => with_verified true (with_isError false
                          (with_message (Some (js "connections.connectionOk")) s)))
      (on_probes (with_passed subject) e)
  | Some (r_failed f) =>
    let issue := connectionTestIssue f in
    let e := on_status (fun s => with_isError true (with_testFailure (Some issue) s)) e in
    match ti_refusal issue with
    | Some refusal =>
      let e := match refusal with
               | pr_savedCredentialEndpointChanged => on_status (with_tab tab_general) e | _ => e end in
      match refusal, tf_retryAfterSeconds f with
      | pr_retryLater, Some seconds =>
        if (seconds =? 0)%Z then e else on_status (with_cooldown (Some (now + seconds * 1000)%Z) now) e
      | _, _ => e
      end
    | None => on_status (with_problemsOpen true) e
    end
  | None =>
    on_status (fun s => with_problemsOpen true (with_isError true
                          (with_testFailure (Some (mkIssue tf_unknown None None)) s))) e
  end.

Definition test_is_current (p : probe_state) (c : test_call) : bool :=
  connectionTestResultIsCurrent (tc_revision c) (ck_verification p) (tc_id c) (ck_testId p).

(** The rest of [test] after its [await], with its [finally]. *)
Definition test_answered (now : Z) (id : nat) (answer : option ConnectionTestReceipt) (e : editor) : editor :=
  match findb (fun c => tc_id c =? id) (ck_tests (ed_probes e)) with
  | None => e
  | Some c =>
    let e := on_probes (fun p => with_tests (ck_testId p) (filterb (fun c => negb (tc_id c =? id)) (ck_tests p)) p) e in
    if negb (ed_mounted e) then e
    else
      let landed := if test_is_current (ed_probes e) c then land_receipt now (tc_subject c) answer e else e in
      if tc_id c =? ck_testId (ed_probes e) then on_status (with_running None) landed else landed
  end.

(** ** Database discovery *)

Definition shown_discovery (e : editor) : Discovery :=
  let r := ck_result (ed_probes e) in
  if bool_decide (ds_revision r = Some (ck_endpoint (ed_probes e))) then r else mkDiscovery None dp_idle [] None.

Definition canDiscoverDatabases (p : ConnectionProfile) : bool := fl_canDiscoverDatabases (connectionProfileFlags p).

Definition discover (force : bool) (e : editor) : editor :=
  let p := ed_probes e in
  let revision := ck_endpoint p in
  if negb (canDiscoverDatabases (df_form (ed_draft e)))
     || (ck_requestPending p && bool_decide (ck_requestRevision p = Some revision)) then e
  else if negb force && bool_decide (ds_revision (ck_result p) = Some revision)
          && negb (bool_decide (ds_phase (ck_result p) = dp_idle)) then e
  else
    let id := S (ck_requestId p) in
    let subject := draft_subject (ed_draft e) in
    on_probes (fun p =>
      with_result (mkDiscovery (Some revision) dp_loading [] (Some subject))
        (with_request id (Some revision) true (ck_discoveries p ++ [mkDiscoveryCall id revision subject]) p)) e.

(** The answer: a receipt, or the kind of the error. *)
Definition discovered (c : discovery_call) (answer : DatabaseDiscoveryReceipt + option jsstr) : Discovery :=
  match answer with
  | inl receipt =>
    let phase := match dr_refusal receipt with
                 | Some pr_savedCredentialEndpointChanged => dp_credentialRequired
                 | Some _ => dp_error
                 | None => match dr_databases receipt with [] => dp_empty | _ => dp_ready end end in
    mkDiscovery (Some (dc_revision c)) phase (dr_databases receipt) (Some (dc_subject c))
  | inr kind =>
    mkDiscovery (Some (dc_revision c))
      (if bool_decide (kind = Some (js "keychain")) then dp_credentialStoreDenied else dp_error) [] (Some (dc_subject c))
  end.

Definition discovery_answered (id : nat) (answer : DatabaseDiscoveryReceipt + option jsstr) (e : editor) : editor :=
  match findb (fun c => dc_id c =? id) (ck_discoveries (ed_probes e)) with
  | None => e
  | Some c =>
    let current := ed_mounted e
      && connectionTestResultIsCurrent (dc_revision c) (ck_endpoint (ed_probes e)) (dc_id c) (ck_requestId (ed_probes e)) in
    on_probes (fun p =>
      let p := with_request (ck_requestId p) (ck_requestRevision p)
                 (if ck_requestId p =? id then false else ck_requestPending p)
                 (filterb (fun c => negb (dc_id c =? id)) (ck_discoveries p)) p in
      if current then with_result (discovered c answer) p else p) e
  end.

(** ** Save, delete, refresh, duplicate and bind *)

(** The profile a save sends: an unnamed draft is named by its endpoint, and a shared
    template never grants writes. *)
Definition saved_draft (p : ConnectionProfile) : ConnectionProfile :=
  if non_empty (trim (cp_name p)) then p else put_name (defaultConnectionName p) p.
Definition shared_template (p : ConnectionProfile) : ConnectionProfile :=
  {| cp_id := cp_id p; cp_name := cp_name p; cp_engine := cp_engine p; cp_provider := cp_provider p;
     cp_driverId := cp_driverId p; cp_host := cp_host p; cp_port := cp_port p; cp_database := cp_database p;
     cp_username := cp_username p; cp_sslmode := cp_sslmode p; cp_extraParams := cp_extraParams p;
     cp_readonlyDefault := true; cp_allowWrites := false;
     cp_schemaAccessAvailable := cp_schemaAccessAvailable p; cp_secretRef := cp_secretRef p; cp_env := cp_env p;
     cp_effectiveEnv := cp_effectiveEnv p; cp_schemaGroup := cp_schemaGroup p;
     cp_workspaceAccess := cp_workspaceAccess p; cp_credentialMode := cp_credentialMode p;
     cp_providerTarget := cp_providerTarget p |}.

Definition add_command (c : command) (e : editor) : editor := with_commands (ed_commands e ++ [c]) e.

Definition upsert_call (closeEditor : bool) (d : draft_fields) : command :=
  let p := saved_draft (df_form d) in
  if isSharedTemplate d then c_upsert closeEditor true (df_mode d) (shared_template p) None false
  else c_upsert closeEditor false (df_mode d) p (truthy (Some (df_password d)))
         (df_clear d && negb (non_empty (df_password d))).

Definition save (x : surroundings) (closeEditor : bool) (e : editor) : editor :=
  if hasBlocking accentCompare (inputs_of x e) then reveal_problems e
  else
    add_command (upsert_call closeEditor (ed_draft e))
      (on_status (fun s =>
          with_testFailure None (with_message None
            (with_running (Some (if closeEditor then run_save else run_apply)) (with_busy true s))))
        (cancel_test (su_running (ed_status e)) e)).

Definition idle_status (e : editor) : editor := on_status (fun s => with_running None (with_busy false s)) e.

(** [inr kind] is the rejection. When the URL of the saved profile cannot be encoded, the
    handler throws and no call is left to await. *)
Definition upsert_answered (closeEditor shared : bool) (mode : ConnectionInputMode)
    (answer : ConnectionProfile + option jsstr) (e : editor) : editor :=
  match answer with
  | inr kind =>
    let e := idle_status (showError stage_save (m_key (connectionSaveFailureMessage kind ph_profile)) e) in
    if negb shared && connectionSaveNeedsPassword kind
    then on_status (fun s => with_tab tab_general (with_problemsOpen false s)) e
    else e
  | inl saved =>
    let e := setFormValue (fun _ => saved) true e in
    let finish urlDraft e :=
      add_command (c_finalize saved closeEditor)
        (setCredentialPassword [] (markPersisted saved urlDraft (on_draft (with_identity false true) e))) in
    match mode with
    | m_default => finish None e
    | m_urlOnly =>
      match formatConnectionUrl saved with
      | Some url => finish (Some url) (on_draft (with_urlDraft url) e)
      | None => e
      end
    end
  end.

Definition finalize_answered (saved : ConnectionProfile) (closeEditor : bool) (e : editor) : editor :=
  add_command (c_onSaved saved closeEditor) e.

Definition onSaved_answered (ok inProject : bool) (e : editor) : editor :=
  idle_status
    (if ok then
       on_status (fun s => with_isError false (with_message
         (Some (if inProject then js "connections.connectionSavedToProject" else js "connections.connectionSaved")) s)) e
     else showError stage_save (m_key (connectionSaveFailureMessage None ph_projectBinding)) e).

Definition bindWorkspaceConnection (bound : ConnectionProfile) (e : editor) : editor :=
  markPersisted bound None (setFormValue (bind_profile bound) true e).
(** The rejected [onSaved] of a binding. *)
Definition bind_failed (e : editor) : editor :=
  showError stage_save (m_key (connectionSaveFailureMessage None ph_projectBinding)) e.

Definition duplicateCurrentConnection (uuid : jsstr) (e : editor) : editor :=
  let d := ed_draft e in
  if df_isNew d || is_shared (df_form d) then e
  else
    let name := cp_name (df_form d) in
    let e := setFormValue (duplicate_profile uuid (copyName (if non_empty name then name else unnamed))) true e in
    let e := on_draft (with_identity true false) e in
    let e := setClearStoredPassword false (setCredentialPassword [] e) in
    on_status (fun s => with_isError false (with_message None (with_tab tab_general s)))
      (on_draft (fun d => with_urlDraft [] (with_mode m_default d)) e).

Definition removeCurrentConnection (e : editor) : editor :=
  if df_isNew (ed_draft e) then e
  else
    add_command (c_delete (cp_id (df_form (ed_draft e))))
      (on_status (fun s => with_message None (with_busy true s)) (cancel_test (su_running (ed_status e)) e)).
(** A failed deletion; after a successful one [onDeletedConnection] is awaited. *)
Definition delete_answered (failure : option jsstr) (e : editor) : editor :=
  match failure with
  | Some text => on_status (with_busy false) (showError stage_delete text e)
  | None => add_command c_deleted e
  end.

Definition refreshWorkspace (e : editor) : editor :=
  if su_busy (ed_status e) then e
  else add_command c_refresh
         (on_status (fun s => with_message None (with_testFailure None (with_busy true s))) e).
Definition refresh_answered (ok : bool) (e : editor) : editor :=
  on_status (with_busy false)
    (if ok then on_status (fun s => with_isError false (with_message (Some (js "connections.workspaceRefreshed")) s)) e
     else showError stage_refresh (js "connections.workspaceRefreshFailed") e).

(** ** Leaving *)

(** [cancelEditor] with the running command its closure saw: [requestCancel] makes that
    closure only while nothing is busy. The answer of the clean-up calls [onCancel]. *)
Definition cancelEditor (running : option running_command) (e : editor) : editor :=
  add_command c_cleanup
    (on_status (fun s => with_message None (with_busy true s)) (cancel_test running e)).
Definition cleanup_answered (e : editor) : editor := on_status (with_busy false) e.

(** The leaving action runs: it is remembered in [ed_left]. *)
Definition run_leave (a : leave_action) (e : editor) : editor :=
  let e := with_left a e in
  match a with lv_cancel running => cancelEditor running e | lv_route _ => e end.

Definition guardDiscard (a : leave_action) (e : editor) : editor :=
  if dirty (ed_draft e) then with_pending (Some a) e else run_leave a e.
Definition confirmDiscard (e : editor) : editor :=
  match ed_pendingDiscard e with Some a => run_leave a (with_pending None e) | None => e end.
Definition requestCancel (e : editor) : editor :=
  if su_busy (ed_status e) then e else guardDiscard (lv_cancel (su_running (ed_status e))) e.

(** ** Inputs *)

Inductive input :=
| i_field (f : field_edit) | i_edit (x : profile_edit) | i_source (engine : Engine) (provider : ConnectionProvider)
| i_portDraft (text : jsstr) | i_password (s : jsstr) | i_clear (b : bool) | i_touch (fieldId : jsstr)
| i_tab (tab : ConnectionTab) | i_selectMode (mode : ConnectionInputMode) | i_editUrl (raw : jsstr)
| i_normalizeUrl (raw : jsstr) | i_clipboard | i_clipboardText (text : option jsstr)
| i_test | i_testAnswer (now : Z) (id : nat) (answer : option ConnectionTestReceipt)
| i_discover (force : bool) | i_discoverAnswer (id : nat) (answer : DatabaseDiscoveryReceipt + option jsstr)
| i_save (closeEditor : bool) | i_saveAnswer (answer : ConnectionProfile + option jsstr)
| i_finalized | i_savedAnswer (ok inProject : bool)
| i_bind (bound : ConnectionProfile) | i_bindFailed | i_duplicate (uuid : jsstr)
| i_remove | i_deleteAnswer (failure : option jsstr) | i_refresh | i_refreshAnswer (ok : bool)
| i_requestCancel | i_leave (route : nat) | i_confirm | i_keepEditing | i_cleanup
| i_tick (now : Z) | i_unmount.

(** [selectSource] *)
Definition select_source (engine : Engine) (provider : ConnectionProvider) (e : editor) : editor :=
  let tab := su_tab (ed_status e) in
  let e := setFormValue (fun p => switchConnectionSource p engine provider) true e in
  let e := if bool_decide (engine = bigquery) then setCredentialPassword [] e else e in
  let e := if bool_decide (provider = p_cloudflareD1) then setCredentialPassword [] e else e in
  if bool_decide (engine = bigquery) || (bool_decide (tab = tab_schemas) && bool_decide (engine = mongodb))
  then on_status (with_tab tab_general) e else e.

(** The buttons of the save, delete, duplicate and clipboard commands are disabled while the
    editor is busy, as [connectionEditorEnterCommand] is. *)
Definition unless_busy (f : editor -> editor) (e : editor) : editor := if su_busy (ed_status e) then e else f e.

(** The oldest command that awaits such an answer goes on. *)
Fixpoint take_command {A} (f : command -> option A) (l : list command) : option (A * list command) :=
  match l with
  | [] => None
  | c :: l =>
    match f c with
    | Some a => Some (a, l)
    | None => '(a, rest) ← take_command f l; Some (a, c :: rest)
    end
  end.
Definition answer_to {A} (f : command -> option A) (go : A -> editor -> editor) (e : editor) : editor :=
  match take_command f (ed_commands e) with
  | Some (a, rest) => go a (with_commands rest e)
  | None => e
  end.

Definition handle (x : surroundings) (i : input) (e : editor) : editor :=
  match i with
  | i_field f => set_field f e
  | i_edit y => setFormValue (edit_profile y) true e
  | i_source engine provider => select_source engine provider e
  | i_portDraft text => setPortDraft text e
  | i_password s => setCredentialPassword s e
  | i_clear b => setClearStoredPassword b e
  | i_touch f => touch f e
  | i_tab tab => on_status (with_tab tab) e
  | i_selectMode mode => unless_busy (selectMode mode) e
  | i_editUrl raw => edit_url raw e
  | i_normalizeUrl raw => unless_busy (normalize_url raw) e
  | i_clipboard => unless_busy (with_clipboard (Some (df_form (ed_draft e)))) e
  | i_clipboardText text =>
    match ed_clipboard e, text with
    | Some form, Some text => with_clipboard None (import_url form text e)
    | _, _ => with_clipboard None e
    end
  | i_test => test_command x e
  | i_testAnswer now id answer => test_answered now id answer e
  | i_discover force => discover force e
  | i_discoverAnswer id answer => discovery_answered id answer e
  | i_save closeEditor => unless_busy (save x closeEditor) e
  | i_saveAnswer answer =>
    answer_to (fun c => match c with c_upsert close shared mode _ _ _ => Some (close, shared, mode) | _ => None end)
      (fun '(close, shared, mode) => upsert_answered close shared mode answer) e
  | i_finalized =>
    answer_to (fun c => match c with c_finalize saved close => Some (saved, close) | _ => None end)
      (fun '(saved, close) => finalize_answered saved close) e
  | i_savedAnswer ok inProject =>
    answer_to (fun c => match c with c_onSaved _ _ => Some () | _ => None end)
      (fun _ => onSaved_answered ok inProject) e
  | i_bind bound => bindWorkspaceConnection bound e
  | i_bindFailed => bind_failed e
  | i_duplicate uuid => unless_busy (duplicateCurrentConnection uuid) e
  | i_remove => unless_busy removeCurrentConnection e
  | i_deleteAnswer failure =>
    answer_to (fun c => match c with c_delete _ => Some () | _ => None end) (fun _ => delete_answered failure) e
  | i_refresh => refreshWorkspace e
  | i_refreshAnswer ok =>
    answer_to (fun c => match c with c_refresh => Some () | _ => None end) (fun _ => refresh_answered ok) e
  | i_requestCancel => requestCancel e
  | i_leave route => guardDiscard (lv_route route) e
  | i_confirm => confirmDiscard e
  | i_keepEditing => with_pending None e
  | i_cleanup =>
    answer_to (fun c => match c with c_cleanup => Some () | _ => None end) (fun _ => cleanup_answered) e
  | i_tick now => tick now e
  | i_unmount => unmount e
  end.

(** A handler, then the effect of [form.port]. *)
Definition step (x : surroundings) (i : input) (e : editor) : editor :=
  follow_port (cp_port (df_form (ed_draft e))) (handle x i e).

Definition run (e : editor) (l : list (surroundings * input)) : editor := foldl (fun e s => step s.1 s.2 e) e l.

End editor.
