(* ===== verification/ConnectionDraftInv.v ===== *)
(** * Checks and changes of the connection editor

    Theorems about [ConnectionDraft]: the editor is marked verified only for the draft that
    was checked, a list of databases is shown only for the endpoint it was read from, late
    answers land nowhere, nothing is left without a confirmation, and a draft is clean
    exactly when it saves as the last saved profile. *)

From S2P Require Import Prelude JsString JsText JsMap JsSort JsValue JsonText SqlIdent Environment.
From S2P Require Import SafetyPolicy.
From S2P Require Import Access Connections ConnectionUrl ConnectionUrlInv ConnectionEditor.
From S2P Require Import ConnectionDiagnostics.
From S2P Require Import ConnectionDiagnostics ConnectionDiagnosticsInv ConnectionDraft JsValue.
From Stdlib Require String.
Import Stdlib.Strings.String.StringSyntax.

(** ** What a probe is called with *)

(** The part of a draft that decides which server and credential a probe uses. *)
Definition server_part (s : probe_subject) : probe_subject :=
  match s with
  | probe_saved id => probe_saved id
  | probe_draft p password =>
    probe_draft (revise p [] (cp_driverId p) (cp_host p) (cp_port p) [] (cp_username p) (cp_sslmode p)
                   (cp_extraParams p) false (cp_secretRef p) None None) password
  end.
Definition endpoint (e : editor) : probe_subject := server_part (draft_subject (ed_draft e)).

Lemma neutral_endpoint f d :
  server_neutral f = true ->
  server_part (draft_subject (with_form (put_field f (df_form d)) d)) = server_part (draft_subject d).
Proof.
  intros Hf. unfold draft_subject, probeProfile. cbn. destruct (df_clear d); by destruct f.
Qed.

Notation verification e := (ck_verification (ed_probes e)).
Notation endpoint_revision e := (ck_endpoint (ed_probes e)).
Notation verified e := (su_verified (ed_status e)).
Notation running e := (su_running (ed_status e)).

(** The two revisions advance past every change of what they stand for. *)
Definition advances (e e' : editor) : Prop :=
  (ed_draft e' = ed_draft e /\ verification e' = verification e /\ endpoint_revision e' = endpoint_revision e
   /\ (verified e' = true -> verified e = true))
  \/ (verification e < verification e' /\ verified e' = false
      /\ (endpoint_revision e < endpoint_revision e'
          \/ (endpoint_revision e' = endpoint_revision e /\ endpoint e' = endpoint e))).

(** A step that starts and ends no probe. *)
Record plain (e e' : editor) : Prop := mkPlain {
  pl_advances : advances e e';
  pl_tests : ck_tests (ed_probes e') = ck_tests (ed_probes e);
  pl_testId : ck_testId (ed_probes e) <= ck_testId (ed_probes e');
  pl_passed : ck_passed (ed_probes e') = ck_passed (ed_probes e);
  pl_result : ck_result (ed_probes e') = ck_result (ed_probes e);
  pl_discoveries : ck_discoveries (ed_probes e') = ck_discoveries (ed_probes e);
  pl_requestId : ck_requestId (ed_probes e') = ck_requestId (ed_probes e);
  pl_running : running e' = Some run_test ->
               running e = Some run_test /\ ck_testId (ed_probes e') = ck_testId (ed_probes e);
  pl_mounted : ed_mounted e' = true -> ed_mounted e = true }.

Lemma advances_refl e : advances e e.
Proof. left. auto. Qed.

Lemma plain_refl e : plain e e.
Proof. split; auto using advances_refl. Qed.

Lemma advances_trans e f g : advances e f -> advances f g -> advances e g.
Proof.
  unfold advances, endpoint. intros [(E1 & V1 & P1 & W1)|(V1 & W1 & P1)] [(E2 & V2 & P2 & W2)|(V2 & W2 & P2)].
  - left. split_and!; congruence || auto.
  - right. rewrite <- V1. split; [done|]. split; [done|]. rewrite <- E1, <- P1. done.
  - right. rewrite V2, P2, E2. split; [done|]. split; [|done]. apply not_true_is_false. intros H.
    apply W2 in H. congruence.
  - right. split; [lia|]. split; [done|]. destruct P1 as [P1|[P1 Q1]], P2 as [P2|[P2 Q2]]; try (left; lia).
    right. split; congruence.
Qed.

Lemma plain_trans e f g : plain e f -> plain f g -> plain e g.
Proof.
  intros [] []. split; try congruence; eauto using advances_trans; [lia|].
  intros Hr. destruct (pl_running1 Hr) as [Hf Ei]. destruct (pl_running0 Hf). split; congruence.
Qed.

Create HintDb plain.
#[export] Hint Resolve plain_refl : plain.

(** Only the status changes. *)
Lemma plain_status f e :
  (su_running (f (ed_status e)) = Some run_test -> running e = Some run_test) ->
  (su_verified (f (ed_status e)) = true -> verified e = true) -> plain e (on_status f e).
Proof. intros Hr Hv. split; cbn; auto. left. auto. Qed.

(** Only fields outside of the draft, the status and the probes change. *)
Lemma plain_outside e e' :
  ed_draft e' = ed_draft e -> ed_status e' = ed_status e -> ed_probes e' = ed_probes e ->
  (ed_mounted e' = true -> ed_mounted e = true) -> plain e e'.
Proof. intros Hd Hs Hp Hm. split; rewrite ?Hp, ?Hs; auto. left. rewrite Hd, Hs, Hp. auto. Qed.

(** The draft changes after the revisions were advanced. *)
Lemma plain_after_bump e f :
  plain e (on_draft f (bump_endpoint (invalidateVerification e))).
Proof. split; cbn; auto. right. cbn. auto with lia. Qed.

Lemma plain_form f e : plain e (setFormValue f true e).
Proof. apply plain_after_bump. Qed.

(** A later change of the draft within the same handler. *)
Lemma plain_draft_again e e' f :
  plain e e' -> verification e < verification e' -> endpoint_revision e < endpoint_revision e' ->
  plain e (on_draft f e').
Proof.
  intros [Ha ? ? ? ? ? ? ? ?] Hv He. split; auto. right. cbn. split; [done|]. split; [|by left].
  destruct Ha as [(_ & V & _)|(_ & W & _)]; [lia|done].
Qed.

Lemma plain_password s e : plain e (setCredentialPassword s e).
Proof. apply plain_after_bump. Qed.
Lemma plain_clear b e : plain e (setClearStoredPassword b e).
Proof. apply plain_after_bump. Qed.

#[export] Hint Resolve plain_form plain_password plain_clear plain_after_bump : plain.

(** ** Handlers that start and end no probe *)

Lemma plain_field f e : plain e (set_field f e).
Proof.
  unfold set_field. destruct (profile_field_id f) as [id|].
  1: eapply plain_trans; [apply (plain_status (fun s => with_touched (sadd (su_touched s) id) s)); done|].
  all: fold (touch); unfold setFormValue; destruct (server_neutral f) eqn:Hf; cbn [negb]; [|apply plain_after_bump].
  all: split; cbn; auto; right; cbn; split; [lia|]; split; [done|right]; split; [done|]; by apply neutral_endpoint.
Qed.

Lemma plain_bumped e e' f :
  plain e e' -> ed_draft e' <> ed_draft e \/ (verification e < verification e' /\ endpoint_revision e < endpoint_revision e') ->
  endpoint_revision e < endpoint_revision e' -> plain e (on_draft f e').
Proof.
  intros Hp Hor He. apply plain_draft_again; try done.
  destruct Hor as [Hne|[? _]]; [|done]. destruct (pl_advances _ _ Hp) as [(E & _)|(? & _)]; congruence.
Qed.

Lemma plain_portDraft s e : plain e (setPortDraft s e).
Proof.
  unfold setPortDraft. destruct (digits_between _ _ _); [|apply plain_after_bump].
  apply plain_draft_again; [apply plain_after_bump|cbn; lia..].
Qed.

Lemma plain_cancel_test r e : r = running e -> plain e (cancel_test r e).
Proof.
  intros ->. unfold cancel_test. case_bool_decide; [|apply plain_refl].
  split; cbn; auto; try done. left. auto.
Qed.

Lemma plain_commands c e : plain e (with_commands c e).
Proof. by apply plain_outside. Qed.
Lemma plain_add_command c e : plain e (add_command c e).
Proof. by apply plain_outside. Qed.
#[export] Hint Resolve plain_field plain_portDraft plain_cancel_test plain_commands plain_add_command : plain.

(** Steps from [e] through a plain step, in the order they are taken. *)
Ltac plain_via :=
  unfold touch, bind_failed, reveal_problems, cleanup_answered, delete_answered; unfold idle_status, showError;
  lazymatch goal with
  | |- plain _ (on_status _ ?e') => apply (plain_trans _ e'); [|apply plain_status; cbn; by auto]
  | |- plain _ (with_commands _ ?e') => apply (plain_trans _ e'); [|apply plain_commands]
  | |- plain _ (add_command _ ?e') => apply (plain_trans _ e'); [|apply plain_add_command]
  end.

Section plain.
Context `{!UrlPlatform} (accentCompare : jsstr -> jsstr -> Z) (copyName : jsstr -> jsstr) (unnamed : jsstr).
Notation handle := (handle accentCompare copyName unnamed).
Notation step := (step accentCompare copyName unnamed).

Lemma plain_selectMode m e : plain e (selectMode m e).
Proof.
  unfold selectMode. case_bool_decide; [apply plain_refl|].
  destruct m; [|destruct (formatConnectionUrl _); [|apply plain_refl]];
    (apply plain_draft_again; [apply plain_form|cbn; lia..]).
Qed.

Lemma apply_url_spec form raw normalize mode e :
  plain e (apply_url form raw normalize mode e).1
  /\ ((apply_url form raw normalize mode e).2 = true ->
      verification e < verification (apply_url form raw normalize mode e).1
      /\ endpoint_revision e < endpoint_revision (apply_url form raw normalize mode e).1).
Proof.
  unfold apply_url. destruct (parseConnectionUrl raw) as [parsed|]; [|cbn; split; [apply plain_refl|done]].
  set (form' := applied_form _ _ _ _). set (e1 := setFormValue _ true e).
  set (e2 := match pu_password parsed with Some s => _ | None => _ end).
  assert (plain e e2 /\ verification e < verification e2 /\ endpoint_revision e < endpoint_revision e2) as (Hp & Hv & He).
  { subst e1 e2. destruct (pu_password parsed).
    - split; [eapply plain_trans; [apply plain_form|apply plain_password]|]. cbn. lia.
    - split; [apply plain_form|]. cbn. lia. }
  destruct normalize; [destruct (formatConnectionUrl form')|]; cbn; auto using plain_draft_again.
Qed.

Lemma plain_apply form raw normalize mode e : plain e (apply_url form raw normalize mode e).1.
Proof. apply apply_url_spec. Qed.

(** The text of the URL changes nothing a probe is called with. *)
Lemma plain_editUrl raw e : plain e (edit_url raw e).
Proof.
  unfold edit_url. eapply plain_trans; [|apply plain_apply].
  split; cbn; auto. right. cbn. split; [lia|]. split; [done|]. right. split; [done|].
  unfold endpoint, draft_subject, probeProfile. done.
Qed.

Lemma plain_import form text e : plain e (import_url form text e).
Proof.
  unfold import_url.
  set (mode := match parseConnectionUrl text with Some _ => _ | None => _ end).
  pose proof (apply_url_spec form text true mode e) as [Hp Hb].
  destruct (apply_url _ _ _ _ _) as [e' imported]. cbn [fst snd] in *.
  destruct imported; [|done]. destruct (Hb eq_refl). by apply plain_draft_again.
Qed.

Lemma plain_source engine provider e : plain e (select_source engine provider e).
Proof.
  unfold select_source. cbv zeta.
  set (e1 := setFormValue _ true e). assert (plain e e1) as H1 by apply plain_form. clearbody e1.
  set (e2 := if bool_decide (engine = bigquery) then _ else e1).
  assert (plain e e2) as H2.
  { subst e2. case_bool_decide; [|done]. eapply plain_trans; [exact H1|apply plain_password]. }
  clearbody e2. set (e3 := if bool_decide (provider = _) then _ else e2).
  assert (plain e e3) as H3.
  { subst e3. case_bool_decide; [|done]. eapply plain_trans; [exact H2|apply plain_password]. }
  clearbody e3. destruct (_ || _); [|done]. plain_via. done.
Qed.

Lemma plain_save x close e : plain e (save accentCompare x close e).
Proof.
  unfold save. destruct (hasBlocking _ _); [plain_via; apply plain_refl|].
  eapply plain_trans; [|apply plain_add_command]. eapply plain_trans; [by apply plain_cancel_test|].
  apply plain_status; cbn; [by destruct close|done].
Qed.

Lemma plain_mark saved url e e' :
  plain e e' -> verification e < verification e' -> endpoint_revision e < endpoint_revision e' ->
  plain e (markPersisted saved url e').
Proof. intros. by apply plain_draft_again. Qed.

Lemma plain_upsert close shared mode answer e : plain e (upsert_answered close shared mode answer e).
Proof.
  unfold upsert_answered. destruct answer as [saved|kind].
  - set (e1 := setFormValue _ true e).
    assert (plain e e1 /\ verification e < verification e1 /\ endpoint_revision e < endpoint_revision e1) as (H1 & Hv & He).
    { split; [apply plain_form|]. cbn. lia. }
    clearbody e1. destruct mode; [|destruct (formatConnectionUrl saved); [|done]].
    all: eapply plain_trans; [|apply plain_add_command]; eapply plain_trans; [|apply plain_password];
      apply plain_mark; [|exact Hv|exact He]; repeat (apply plain_draft_again; [|exact Hv|exact He]); exact H1.
  - destruct (_ && _); repeat plain_via; apply plain_refl.
Qed.

Lemma plain_duplicate uuid e : plain e (duplicateCurrentConnection copyName unnamed uuid e).
Proof.
  unfold duplicateCurrentConnection. destruct (_ || _); [apply plain_refl|]. cbv zeta.
  plain_via. apply plain_draft_again; [|cbn; lia..].
  eapply plain_trans; [|apply plain_clear]. eapply plain_trans; [|apply plain_password].
  apply plain_draft_again; [apply plain_form|cbn; lia..].
Qed.

Lemma plain_leave a e : plain e (run_leave a e).
Proof.
  assert (plain e (with_left a e)) as Hl by by apply plain_outside.
  destruct a as [r|]; cbn; [|done]. unfold cancelEditor.
  plain_via. plain_via. eapply plain_trans; [exact Hl|].
  unfold cancel_test. case_bool_decide; [|apply plain_refl]. split; cbn; auto; try done. left; auto.
Qed.

Lemma plain_guard a e : plain e (guardDiscard a e).
Proof. unfold guardDiscard. destruct (dirty _); [by apply plain_outside|apply plain_leave]. Qed.

Lemma plain_answer {A} (f : command -> option A) go e :
  (forall a e, plain e (go a e)) -> plain e (answer_to f go e).
Proof.
  intros Hgo. unfold answer_to. destruct (take_command _ _) as [[a rest]|]; [|apply plain_refl].
  eapply plain_trans; [|apply Hgo]. apply plain_commands.
Qed.

Lemma plain_unless_busy f e : plain e (f e) -> plain e (unless_busy f e).
Proof. intros Hf. unfold unless_busy. by destruct (su_busy _); [apply plain_refl|]. Qed.

(** Inputs of checks and discoveries. *)
Definition is_probe (i : input) : bool :=
  match i with i_test | i_testAnswer _ _ _ | i_discover _ | i_discoverAnswer _ _ => true | _ => false end.

Lemma plain_handle x i e : is_probe i = false -> plain e (handle x i e).
Proof.
  intros Hi. destruct i; try done; cbn [ConnectionDraft.handle]; auto with plain.
  - apply plain_source.
  - plain_via. apply plain_refl.
  - plain_via. apply plain_refl.
  - apply plain_unless_busy, plain_selectMode.
  - apply plain_editUrl.
  - apply plain_unless_busy, plain_apply.
  - apply plain_unless_busy. by apply plain_outside.
  - destruct (ed_clipboard e), text; try by apply plain_outside.
    eapply plain_trans; [apply plain_import|]. by apply plain_outside.
  - apply plain_unless_busy, plain_save.
  - apply plain_answer. intros [[close shared] mode] e'. apply plain_upsert.
  - apply plain_answer. intros [saved close] e'. apply plain_add_command.
  - apply plain_answer. intros _ e'. unfold onSaved_answered. destruct ok; repeat plain_via; apply plain_refl.
  - apply plain_mark; [apply plain_form|cbn; lia..].
  - plain_via. apply plain_refl.
  - apply plain_unless_busy, plain_duplicate.
  - apply plain_unless_busy. unfold removeCurrentConnection. destruct (df_isNew _); [apply plain_refl|].
    repeat plain_via. by apply plain_cancel_test.
  - apply plain_answer. intros _ e'. destruct failure; repeat plain_via; apply plain_refl.
  - unfold refreshWorkspace. destruct (su_busy _); [apply plain_refl|]. repeat plain_via. apply plain_refl.
  - apply plain_answer. intros _ e'. unfold refresh_answered. destruct ok; repeat plain_via; apply plain_refl.
  - unfold requestCancel. destruct (su_busy _); [apply plain_refl|apply plain_guard].
  - apply plain_guard.
  - unfold confirmDiscard. destruct (ed_pendingDiscard e); [|apply plain_refl].
    eapply plain_trans; [|apply plain_leave]. by apply plain_outside.
  - by apply plain_outside.
  - apply plain_answer. intros _ e'. repeat plain_via. apply plain_refl.
  - unfold tick. apply plain_status; by destruct (su_retryAt _).
  - by apply plain_outside.
Qed.

Lemma plain_follow e e' : plain e e' -> plain e (follow_port (cp_port (df_form (ed_draft e))) e').
Proof.
  intros Hp. unfold follow_port. destruct (Z.eqb_spec (cp_port (df_form (ed_draft e'))) (cp_port (df_form (ed_draft e)))); [done|].
  destruct Hp as [[(E & _)|(V & W & P)] ? ? ? ? ? ? ? ?]; [congruence|]. split; auto. right. cbn. auto.
Qed.

End plain.

(** ** The invariant of the probes *)

(** A check of the current draft. *)
Definition subject_current (e : editor) `{!UrlPlatform} (s : probe_subject) : Prop :=
  s = test_subject (ed_draft e) /\ (isSharedTemplate (ed_draft e) = true -> dirty (ed_draft e) = false).

Record probes_ok `{!UrlPlatform} (e : editor) : Prop := mkProbesOk {
  po_ids : NoDup (map tc_id (ck_tests (ed_probes e)));
  po_tests : forall c, c ∈ ck_tests (ed_probes e) ->
    tc_id c <= ck_testId (ed_probes e) /\ tc_revision c <= verification e
    /\ (tc_revision c = verification e -> subject_current e (tc_subject c));
  po_verified : verified e = true -> exists s, ck_passed (ed_probes e) = Some s /\ subject_current e s;
  po_running : ed_mounted e = true -> running e = Some run_test ->
    exists c, c ∈ ck_tests (ed_probes e) /\ tc_id c = ck_testId (ed_probes e);
  po_discoveries : forall c, c ∈ ck_discoveries (ed_probes e) ->
    dc_id c <= ck_requestId (ed_probes e) /\ dc_revision c <= endpoint_revision e
    /\ (dc_revision c = endpoint_revision e -> server_part (dc_subject c) = endpoint e);
  po_result : forall r, ds_revision (ck_result (ed_probes e)) = Some r ->
    r <= endpoint_revision e
    /\ (r = endpoint_revision e ->
        exists s, ds_subject (ck_result (ed_probes e)) = Some s /\ server_part s = endpoint e) }.

(** ** The text of a number *)

Lemma shown_port v : digits_between 1 65535 (show_Z v) = true -> v = Number_digits (show_Z v).
Proof.
  rewrite digits_between_spec by done. intros [Hd Hb]. destruct (Z.le_gt_cases 0 v) as [Hv|Hv].
  - destruct (show_digits v Hv) as [_ E]. rewrite Number_shown; lia.
  - destruct v as [|q|q]; [lia|lia|]. by cbn in Hd.
Qed.

Section fingerprints.
Context `{!UrlPlatform}.

(** Two profiles that a save writes alike, their ports aside. *)
Record saved_alike (p q : ConnectionProfile) : Prop := mkAlike {
  al_id : cp_id p = cp_id q; al_name : cp_name p = cp_name q; al_engine : cp_engine p = cp_engine q;
  al_provider : cp_provider p = cp_provider q; al_driverId : cp_driverId p = cp_driverId q;
  al_host : cp_host p = cp_host q; al_database : cp_database p = cp_database q;
  al_username : cp_username p = cp_username q; al_sslmode : cp_sslmode p = cp_sslmode q;
  al_extra : sort_by (fun a b => localeCompare a.1 b.1) (cp_extraParams p)
             = sort_by (fun a b => localeCompare a.1 b.1) (cp_extraParams q);
  al_readonly : cp_readonlyDefault p = cp_readonlyDefault q; al_env : cp_env p = cp_env q;
  al_group : cp_schemaGroup p = cp_schemaGroup q }.

Lemma engine_name_inj a b : engine_name a = engine_name b -> a = b.
Proof. by destruct a, b. Qed.
Lemma provider_name_inj a b : provider_name a = provider_name b -> a = b.
Proof. by destruct a, b. Qed.
Lemma kind_name_inj a b : kind_name a = kind_name b -> a = b.
Proof. by destruct a, b. Qed.
Lemma opt_value_inj a b : opt_value a = opt_value b -> a = b.
Proof. destruct a, b; cbn; congruence. Qed.

Lemma opt_value_plain o : plain_json (opt_value o) = true.
Proof. by destruct o. Qed.

Lemma fingerprint_plain p portDraft urlDraft : plain_json (fingerprint_value p portDraft urlDraft) = true.
Proof.
  cbn. rewrite !opt_value_plain, !andb_true_r. apply forallb_elem. by intros v (e & -> & _)%list_elem_of_fmap.
Qed.

(** Equal fingerprints are those of drafts that save alike. *)
Lemma fingerprint_spec p q a b u v :
  draftFingerprint p a u = draftFingerprint q b v <-> saved_alike p q /\ a = b /\ u = v.
Proof.
  split.
  - unfold draftFingerprint. rewrite !stringify_plain by apply fingerprint_plain. intros E.
    pose proof (stringify_inj _ _ (fingerprint_plain p a u) (fingerprint_plain q b v)) as Hinj.
    rewrite !stringify_plain in Hinj by apply fingerprint_plain. rewrite E in Hinj. specialize (Hinj eq_refl).
    unfold fingerprint_value in Hinj. injection Hinj as Hid Hn He Hp Hdr Hh Ha Hdb Hu Hs Hx Hro Henv Hg Hurl.
    split; [|split; [done|by apply opt_value_inj]]. split; auto using engine_name_inj, provider_name_inj, opt_value_inj.
    + revert Hx. generalize (sort_by (fun a b : jsstr * jsstr => localeCompare a.1 b.1) (cp_extraParams p)).
      generalize (sort_by (fun a b : jsstr * jsstr => localeCompare a.1 b.1) (cp_extraParams q)).
      intros l k. revert l. induction k as [|[k1 k2] k IH]; intros [|[l1 l2] l] Hx; try done. cbn in Hx.
      injection Hx as -> -> Hx. by rewrite (IH l).
    + apply opt_value_inj in Henv. destruct (cp_env p) as [x|], (cp_env q) as [y|]; try done.
      injection Henv as Henv. by rewrite (kind_name_inj x y).
  - intros ([E1 E2 E3 E4 E5 E6 E7 E8 E9 E10 E11 E12 E13] & -> & ->). unfold draftFingerprint, fingerprint_value.
    by rewrite E1, E2, E3, E4, E5, E6, E7, E8, E9, E10, E11, E12, E13.
Qed.

End fingerprints.

Section invariant.
Context `{!UrlPlatform} (accentCompare : jsstr -> jsstr -> Z) (copyName : jsstr -> jsstr) (unnamed : jsstr).
Notation handle := (handle accentCompare copyName unnamed).
Notation step := (step accentCompare copyName unnamed).
Notation run := (run accentCompare copyName unnamed).

Lemma probes_ok_plain e e' : probes_ok e -> plain e e' -> probes_ok e'.
Proof.
  intros [Hids Ht Hv Hr Hd Hres] [Ha Et Eid Ep Er Ed Eq Hrun Hmo].
  assert (verification e <= verification e' /\ endpoint_revision e <= endpoint_revision e') as [Hvle Hele].
  { destruct Ha as [(_ & -> & -> & _)|(? & _ & [?|[? _]])]; lia. }
  assert (forall s, verification e' = verification e -> subject_current e s -> subject_current e' s) as Hsub.
  { intros s E [-> Hdirty]. destruct Ha as [(Ed' & _)|(? & _)]; [|lia]. unfold subject_current. by rewrite Ed'. }
  assert (endpoint_revision e' = endpoint_revision e -> endpoint e' = endpoint e) as Hend.
  { intros E. destruct Ha as [(Ed' & _)|(_ & _ & [?|[_ ?]])]; [|lia|done]. unfold endpoint. by rewrite Ed'. }
  split.
  - by rewrite Et.
  - intros c Hc. rewrite Et in Hc. destruct (Ht c Hc) as (H1 & H2 & H3). split_and!; [lia|lia|].
    intros E. apply Hsub; [lia|]. apply H3. lia.
  - intros Hver. rewrite Ep. destruct Ha as [(Ed' & V & _ & W)|(_ & W & _)]; [|congruence].
    destruct (Hv (W Hver)) as (s & ? & ?). exists s. auto.
  - intros Hm Hrt. destruct (Hrun Hrt) as [Hre ->]. rewrite Et. auto.
  - intros c Hc. rewrite Ed in Hc. destruct (Hd c Hc) as (H1 & H2 & H3). split_and!; [lia|lia|].
    intros E. rewrite Hend by lia. apply H3. lia.
  - intros r Hrs. rewrite Er in *. destruct (Hres r Hrs) as [H1 H2]. split; [lia|]. intros ->.
    destruct H2 as (s & ? & ?); [lia|]. exists s. rewrite Hend by lia. done.
Qed.

(** A started check is of the current draft, which is saved when it is shared. *)
Lemma probes_ok_start e : probes_ok e -> unavailableReason e = None -> probes_ok (start_test e).
Proof.
  intros [Hids Ht Hv Hr Hd Hres] Hun. split; cbn [start_test on_status on_probes ed_probes ed_status ed_draft with_tests
    ck_tests ck_testId ck_verification ck_passed ck_discoveries ck_result ck_endpoint ck_requestId]; auto.
  - rewrite map_app, NoDup_app. split_and!; [done| |apply NoDup_singleton].
    intros x (c & -> & Hc)%list_elem_of_fmap E%list_elem_of_singleton. cbn in E.
    destruct (Ht c Hc) as (? & _). lia.
  - intros c [Hc| ->%list_elem_of_singleton]%elem_of_app.
    + destruct (Ht c Hc) as (? & ? & ?). split_and!; auto with lia.
    + split_and!; [done|done|]. intros _. split; [done|]. cbn. intros Hs.
      unfold unavailableReason in Hun. rewrite Hs in Hun. by destruct (dirty (ed_draft e)).
  - intros _ _. eexists. split; [apply elem_of_app; right; by left|done].
Qed.

Lemma probes_ok_test x e : probes_ok e -> probes_ok (test_command accentCompare x e).
Proof.
  intros He. unfold test_command. case_bool_decide as Hrun.
  { eapply probes_ok_plain; [done|]. by apply plain_cancel_test. }
  destruct (unavailableReason e) eqn:Hun; [done|]. destruct (su_busy _); [done|].
  destruct (hasTestBlocking _ _); [|by apply probes_ok_start].
  eapply probes_ok_plain; [done|]. plain_via. apply plain_refl.
Qed.

(** What lands touches only the status, and [verified] with the subject that passed. *)
Lemma land_receipt_spec now s answer e :
  ed_draft (land_receipt now s answer e) = ed_draft e
  /\ ed_mounted (land_receipt now s answer e) = ed_mounted e
  /\ (verified (land_receipt now s answer e) = true ->
      (ck_passed (ed_probes (land_receipt now s answer e)) = Some s)
      \/ (verified e = true /\ ck_passed (ed_probes (land_receipt now s answer e)) = ck_passed (ed_probes e)))
  /\ running (land_receipt now s answer e) = running e
  /\ exists p, ed_probes (land_receipt now s answer e)
       = mkProbes (verification e) (endpoint_revision e) (ck_testId (ed_probes e)) (ck_tests (ed_probes e)) p
           (ck_result (ed_probes e)) (ck_requestId (ed_probes e)) (ck_requestRevision (ed_probes e))
           (ck_requestPending (ed_probes e)) (ck_discoveries (ed_probes e)).
Proof.
  destruct answer as [[|f]|]; cbn.
  - split_and!; auto. by eexists.
  - unfold land_receipt, connectionTestIssue. cbn. repeat (case_match; cbn); split_and!; auto; destruct (ed_probes e);
      by eexists.
  - split_and!; auto. destruct (ed_probes e). by eexists.
Qed.

(** The state after an answer: the request is gone, the editor runs on with another one only,
    and it is verified by this answer only when the draft is still the one it was for. *)
Record answered (c : test_call) (e e' : editor) : Prop := mkAnswered {
  an_draft : ed_draft e' = ed_draft e;
  an_mounted : ed_mounted e' = ed_mounted e;
  an_probes : exists p, ed_probes e'
    = mkProbes (verification e) (endpoint_revision e) (ck_testId (ed_probes e))
        (filterb (fun d => negb (tc_id d =? tc_id c)) (ck_tests (ed_probes e))) p (ck_result (ed_probes e))
        (ck_requestId (ed_probes e)) (ck_requestRevision (ed_probes e)) (ck_requestPending (ed_probes e))
        (ck_discoveries (ed_probes e));
  an_running : ed_mounted e' = true -> running e' = Some run_test ->
    running e = Some run_test /\ tc_id c <> ck_testId (ed_probes e);
  an_verified : verified e' = true ->
    (ck_passed (ed_probes e') = Some (tc_subject c) /\ tc_revision c = verification e)
    \/ (verified e = true /\ ck_passed (ed_probes e') = ck_passed (ed_probes e)) }.

Lemma test_answered_spec now id answer e c :
  findb (fun c => tc_id c =? id) (ck_tests (ed_probes e)) = Some c ->
  answered c e (test_answered now id answer e).
Proof.
  intros Hf. unfold test_answered. rewrite Hf. apply findb_some in Hf as [Hid%Nat.eqb_eq Hc]. subst id.
  set (e1 := on_probes _ e). destruct (ed_mounted e1) eqn:Hm; cbn [negb].
  - set (landed := if test_is_current _ _ then _ else e1).
    assert (ed_draft landed = ed_draft e /\ ed_mounted landed = ed_mounted e /\ running landed = running e
      /\ (exists p, ed_probes landed = mkProbes (verification e) (endpoint_revision e) (ck_testId (ed_probes e))
        (filterb (fun d => negb (tc_id d =? tc_id c)) (ck_tests (ed_probes e))) p (ck_result (ed_probes e))
        (ck_requestId (ed_probes e)) (ck_requestRevision (ed_probes e)) (ck_requestPending (ed_probes e))
        (ck_discoveries (ed_probes e)))
      /\ (verified landed = true ->
          (ck_passed (ed_probes landed) = Some (tc_subject c) /\ tc_revision c = verification e)
          \/ (verified e = true /\ ck_passed (ed_probes landed) = ck_passed (ed_probes e)))) as (E1 & E2 & E3 & E4 & E5).
    { subst landed. destruct (test_is_current _ _) eqn:Hcur.
      - destruct (land_receipt_spec now (tc_subject c) answer e1) as (A1 & A2 & A3 & A4 & p & A5).
        rewrite A1, A2, A4. split_and!; [done..|by exists p|].
        unfold test_is_current, connectionTestResultIsCurrent in Hcur. bools. intros Hv'.
        destruct (A3 Hv') as [A|[A1' A2']]; [left|by right]. split; [done|by apply Nat.eqb_eq].
      - split_and!; try done; [by eexists|]. intros Hv'. by right. }
    destruct (tc_id c =? ck_testId (ed_probes e1)) eqn:Hid; split; cbn; auto; try done.
    intros _ Hrt. split; [congruence|]. apply Nat.eqb_neq in Hid. done.
  - split; try done; [by eexists|congruence|by right].
Qed.

Lemma probes_ok_answered now id answer e : probes_ok e -> probes_ok (test_answered now id answer e).
Proof.
  intros [Hids Ht Hv Hr Hd Hres].
  destruct (findb (fun c => tc_id c =? id) (ck_tests (ed_probes e))) as [c|] eqn:Hf;
    [|unfold test_answered; rewrite Hf; by split].
  pose proof (test_answered_spec now id answer e c Hf) as [Ed Em (p & Ep) Hrun Hver].
  apply findb_some in Hf as [_ Hc]. destruct (Ht c Hc) as (Hcid & Hcrev & Hcsub).
  generalize dependent (test_answered now id answer e). intros e2 Ed Em Ep Hrun Hver.
  split; rewrite ?Ep; cbn [ck_tests ck_testId ck_verification ck_endpoint ck_passed
    ck_discoveries ck_result ck_requestId].
  - eapply sublist_NoDup; [exact Hids|]. apply (fmap_sublist tc_id). apply filterb_sublist.
  - intros d [_ Hdin]%filterb_elem. unfold subject_current. rewrite Ed. by apply Ht.
  - rewrite Ep in Hver. cbn in Hver. unfold subject_current. rewrite Ed. intros Hv'.
    destruct (Hver Hv') as [[-> E]|[Hve ->]]; [|by apply Hv]. eexists. split; [done|]. by apply Hcsub.
  - intros Hm Hrt. destruct (Hrun Hm Hrt) as [Hrt' Hne]. rewrite Em in Hm.
    destruct (Hr Hm Hrt') as (d & Hdin & Hdid). exists d. split; [|done]. apply filterb_elem. split; [|done].
    apply negb_true_iff, Nat.eqb_neq. congruence.
  - unfold endpoint. rewrite Ed. exact Hd.
  - unfold endpoint. rewrite Ed. exact Hres.
Qed.

Lemma probes_ok_discover force e : probes_ok e -> probes_ok (discover force e).
Proof.
  intros [Hids Ht Hv Hr Hd Hres]. unfold discover.
  destruct (_ || _); [by split|]. destruct (_ && _); [by split|]. split; auto; cbn.
  - intros c [Hc| ->%list_elem_of_singleton]%elem_of_app; [|done]. destruct (Hd c Hc) as (? & ? & ?). auto.
  - intros r [= <-]. split; [done|]. intros _. by eexists.
Qed.

Lemma probes_ok_discovered id answer e : probes_ok e -> probes_ok (discovery_answered id answer e).
Proof.
  intros [Hids Ht Hv Hr Hd Hres]. unfold discovery_answered.
  destruct (findb _ _) as [c|] eqn:Hf; [|by split]. apply findb_some in Hf as [_ Hc].
  destruct (Hd c Hc) as (_ & Hle & Hsame).
  assert (forall r, ds_revision (discovered c answer) = Some r -> r <= endpoint_revision e
    /\ (r = endpoint_revision e ->
        exists s, ds_subject (discovered c answer) = Some s /\ server_part s = endpoint e)) as Hnew.
  { unfold discovered. destruct answer; cbn; intros r [= <-]; split; try done; intros E; eexists; split; auto. }
  destruct (_ && _); split; auto; cbn; intros d [_ Hdin]%filterb_elem; by apply Hd.
Qed.

Lemma probes_ok_step x i e : probes_ok e -> probes_ok (step x i e).
Proof.
  intros He. destruct (is_probe i) eqn:Hi.
  - assert (probes_ok (handle x i e)) as Hh.
    { destruct i; try done; cbn [ConnectionDraft.handle];
        auto using probes_ok_test, probes_ok_answered, probes_ok_discover, probes_ok_discovered. }
    assert (ed_draft (handle x i e) = ed_draft e) as Ed.
    { destruct i; try done; cbn [ConnectionDraft.handle].
      - unfold test_command, cancel_test. repeat case_match; done.
      - destruct (findb (fun c => tc_id c =? id) (ck_tests (ed_probes e))) eqn:Hf.
        + by destruct (test_answered_spec now id answer e _ Hf).
        + unfold test_answered. by rewrite Hf.
      - unfold discover. repeat case_match; done.
      - unfold discovery_answered. repeat case_match; done. }
    unfold ConnectionDraft.step, follow_port. by rewrite Ed, Z.eqb_refl.
  - eapply probes_ok_plain; [exact He|]. apply plain_follow. by apply plain_handle.
Qed.

Lemma probes_ok_open p isNew now e : open_editor p isNew now = Some e -> probes_ok e.
Proof.
  unfold open_editor. intros Ho. apply bind_Some in Ho as (url & _ & Ho). apply bind_Some in Ho as (u & _ & Ho).
  apply (inj Some) in Ho. subst e. split; cbn; try done; try (by intros ? ?%elem_of_nil). constructor.
Qed.

Lemma probes_ok_run p isNew now e l : open_editor p isNew now = Some e -> probes_ok (run e l).
Proof.
  intros Ho%probes_ok_open. revert e Ho. induction l as [|[x i] l IH]; intros e Ho; [done|].
  cbn. apply IH. by apply probes_ok_step.
Qed.

(** ** Theorems about probes *)

(** In every reachable state, the databases shown were read, or are being read, from the
    server and with the credential of the draft as it is. *)
Theorem discovered_list_is_current p isNew now e0 l :
  open_editor p isNew now = Some e0 -> ds_phase (shown_discovery (run e0 l)) <> dp_idle ->
  exists s, ds_subject (shown_discovery (run e0 l)) = Some s /\ server_part s = endpoint (run e0 l).
Proof.
  intros Ho. unfold shown_discovery. case_bool_decide as Hr; [|done]. intros _.
  apply (po_result _ (probes_ok_run p isNew now e0 l Ho) _ Hr). done.
Qed.

Lemma find_test e c :
  probes_ok e -> c ∈ ck_tests (ed_probes e) -> findb (fun d => tc_id d =? tc_id c) (ck_tests (ed_probes e)) = Some c.
Proof.
  intros Hok Hc. destruct (findb _ _) as [d|] eqn:Hf.
  - apply findb_some in Hf as [Hid%Nat.eqb_eq Hd]. f_equal.
    apply list_elem_of_lookup in Hc as [a Ha]. apply list_elem_of_lookup in Hd as [b Hb].
    assert (a = b) as ->; [|congruence].
    eapply (NoDup_lookup _ _ _ (tc_id c) (po_ids _ Hok)); rewrite list_lookup_fmap; [by rewrite Ha|by rewrite Hb, <- Hid].
  - apply (proj1 (findb_none _ _)) with (a := c) in Hf; [|done]. by rewrite Nat.eqb_refl in Hf.
Qed.

(** A running check always has a call in flight, whose answer, whatever it is, ends it;
    the answer of a stopped, superseded or outdated check changes neither the draft nor
    anything the editor shows, other than ending the check it is the current call of. *)
Theorem checks_end_and_late_answers_vanish p isNew now e0 l :
  open_editor p isNew now = Some e0 ->
  let e := run e0 l in
  (ed_mounted e = true -> running e = Some run_test ->
   exists c, c ∈ ck_tests (ed_probes e) /\ tc_id c = ck_testId (ed_probes e)
     /\ forall x clock answer, running (step x (i_testAnswer clock (tc_id c) answer) e) <> Some run_test)
  /\ forall c x clock answer,
       c ∈ ck_tests (ed_probes e) -> tc_id c <> ck_testId (ed_probes e) \/ tc_revision c <> verification e ->
       let e' := step x (i_testAnswer clock (tc_id c) answer) e in
       ed_draft e' = ed_draft e
       /\ ed_status e' = (if ed_mounted e && (tc_id c =? ck_testId (ed_probes e))
                          then with_running None (ed_status e) else ed_status e).
Proof.
  intros Ho e. assert (probes_ok e) as Hok by by eapply probes_ok_run.
  assert (forall c x clock answer, c ∈ ck_tests (ed_probes e) ->
    step x (i_testAnswer clock (tc_id c) answer) e = test_answered clock (tc_id c) answer e) as Hstep.
  { intros c x clock answer Hc. unfold ConnectionDraft.step, follow_port. cbn [ConnectionDraft.handle].
    pose proof (test_answered_spec clock (tc_id c) answer e c (find_test e c Hok Hc)) as [-> _ _ _ _].
    by rewrite Z.eqb_refl. }
  split.
  - intros Hm Hr. destruct (po_running _ Hok Hm Hr) as (c & Hc & Hid). exists c. split_and!; [done..|].
    intros x clock answer. rewrite Hstep by done.
    pose proof (test_answered_spec clock (tc_id c) answer e c (find_test e c Hok Hc)) as [_ Em _ Hrun _].
    intros H'. destruct Hrun; congruence.
  - intros c x clock answer Hc Hold. cbv zeta. rewrite Hstep by done. unfold test_answered.
    rewrite find_test by done. cbn [on_probes ed_mounted ed_probes with_tests].
    destruct (ed_mounted e); cbn [negb andb]; [|done].
    assert (test_is_current (ed_probes e) c = false) as Hcur.
    { unfold test_is_current, connectionTestResultIsCurrent. apply andb_false_iff. rewrite !Nat.eqb_neq.
      destruct Hold; [right|left]; congruence. }
    unfold test_is_current in *. cbn. rewrite Hcur. by destruct (tc_id c =? _).
Qed.

(** ** Leaving *)

Lemma left_apply form raw normalize mode e : ed_left (apply_url form raw normalize mode e).1 = ed_left e.
Proof. unfold apply_url. repeat (case_match; try done). Qed.

Lemma left_answer {A} (f : command -> option A) go e :
  (forall a e, ed_left (go a e) = ed_left e) -> ed_left (answer_to f go e) = ed_left e.
Proof. intros Hgo. unfold answer_to. destruct (take_command _ _) as [[a rest]|]; [|done]. by rewrite Hgo. Qed.

Lemma left_cancel r e : ed_left (cancel_test r e) = ed_left e.
Proof. unfold cancel_test. by case_bool_decide. Qed.

Lemma left_land now subject answer e : ed_left (land_receipt now subject answer e) = ed_left e.
Proof. unfold land_receipt. repeat (case_match; try done). Qed.

Definition is_leaving (i : input) : bool := match i with i_requestCancel | i_leave _ | i_confirm => true | _ => false end.

Lemma left_handle x i e : is_leaving i = false -> ed_left (handle x i e) = ed_left e.
Proof.
  intros Hi. destruct i; try done; cbn [ConnectionDraft.handle]; unfold unless_busy;
    try (destruct (su_busy _); [done|]); try done.
  - unfold set_field. destruct (profile_field_id f); unfold setFormValue; by destruct (negb _).
  - unfold select_source. repeat case_match; done.
  - unfold setPortDraft. by destruct (digits_between _ _ _).
  - unfold selectMode. repeat case_match; done.
  - unfold edit_url. by rewrite left_apply.
  - apply left_apply.
  - destruct (ed_clipboard e), text; try done. cbn. unfold import_url.
    match goal with |- context [apply_url ?f ?r ?n ?m ?e] => pose proof (left_apply f r n m e) as Hl;
      destruct (apply_url f r n m e) as [e' b] end. by destruct b.
  - unfold test_command. repeat (case_match; try done). unfold cancel_test. by case_bool_decide.
  - unfold test_answered. destruct (findb _ _); [|done]. destruct (negb _); [done|].
    destruct (test_is_current _ _), (_ =? _); cbn; by rewrite ?left_land.
  - unfold discover. repeat (case_match; try done).
  - unfold discovery_answered. repeat (case_match; try done).
  - unfold save. destruct (hasBlocking _ _); [done|]. cbn. by rewrite left_cancel.
  - apply left_answer. intros [[close shared] mode] e'. unfold upsert_answered. repeat (case_match; try done).
  - apply left_answer. by intros [saved close] e'.
  - apply left_answer. intros _ e'. by destruct ok.
  - unfold duplicateCurrentConnection. by destruct (_ || _).
  - unfold removeCurrentConnection. destruct (df_isNew _); [done|]. cbn. by rewrite left_cancel.
  - apply left_answer. intros _ e'. by destruct failure.
  - unfold refreshWorkspace. by destruct (su_busy _).
  - apply left_answer. intros _ e'. by destruct ok.
  - by apply left_answer.
Qed.

(** A step leaves the draft only when nothing is unsaved or when the person confirms a
    leaving action that was put off; asking to leave an unsaved draft only asks. *)
Theorem leaving_is_confirmed x i e :
  (ed_left (step x i e) <> ed_left e ->
   dirty (ed_draft e) = false \/ (i = i_confirm /\ exists a, ed_pendingDiscard e = Some a))
  /\ (dirty (ed_draft e) = true -> forall route,
      ed_pendingDiscard (step x (i_leave route) e) = Some (lv_route route)
      /\ ed_draft (step x (i_leave route) e) = ed_draft e).
Proof.
  assert (forall e', ed_left (follow_port (cp_port (df_form (ed_draft e))) e') = ed_left e') as Hf.
  { intros e'. unfold follow_port. by destruct (_ =? _)%Z. }
  split.
  - unfold ConnectionDraft.step. rewrite Hf. intros Hne.
    destruct (is_leaving i) eqn:Hi; [|by rewrite left_handle in Hne].
    destruct i; try done; cbn [ConnectionDraft.handle] in Hne.
    + left. unfold requestCancel, guardDiscard in Hne. destruct (su_busy _); [done|]. by destruct (dirty _).
    + left. unfold guardDiscard in Hne. by destruct (dirty _).
    + right. split; [done|]. unfold confirmDiscard in Hne. destruct (ed_pendingDiscard e); [by eexists|done].
  - intros Hd route. unfold ConnectionDraft.step, follow_port, ConnectionDraft.handle, guardDiscard.
    rewrite Hd. cbn. by rewrite Z.eqb_refl.
Qed.

(** ** The text of the port *)

Notation portDraft e := (df_portDraft (ed_draft e)).
Notation port e := (cp_port (df_form (ed_draft e))).

(** A valid text is the port a save would write. *)
Definition port_agrees (e : editor) : Prop :=
  digits_between 1 65535 (portDraft e) = true -> port e = Number_digits (portDraft e).

Lemma portDraft_apply form raw normalize mode e : portDraft (apply_url form raw normalize mode e).1 = portDraft e.
Proof. unfold apply_url. repeat (case_match; try done). Qed.

Lemma draft_answer {A} (f : command -> option A) go e :
  (forall a e, ed_draft (go a e) = ed_draft e) -> ed_draft (answer_to f go e) = ed_draft e.
Proof. intros Hgo. unfold answer_to. destruct (take_command _ _) as [[a rest]|]; [|done]. by rewrite Hgo. Qed.

Lemma draft_cancel r e : ed_draft (cancel_test r e) = ed_draft e.
Proof. unfold cancel_test. by case_bool_decide. Qed.

Lemma draft_leave a e : ed_draft (run_leave a e) = ed_draft e.
Proof. destruct a; [|done]. cbn. by rewrite draft_cancel. Qed.

Lemma draft_guard a e : ed_draft (guardDiscard a e) = ed_draft e.
Proof. unfold guardDiscard. destruct (dirty _); [done|apply draft_leave]. Qed.

Lemma draft_land now subject answer e : ed_draft (land_receipt now subject answer e) = ed_draft e.
Proof. by destruct (land_receipt_spec now subject answer e) as [-> _]. Qed.

(** The inputs that write the text of the port. *)
Definition writes_port (i : input) : bool :=
  match i with i_portDraft _ | i_saveAnswer _ | i_bind _ => true | _ => false end.

Lemma portDraft_handle x i e : writes_port i = false -> portDraft (handle x i e) = portDraft e.
Proof.
  intros Hi. destruct i; try done; cbn [ConnectionDraft.handle]; unfold unless_busy;
    try (destruct (su_busy _); [done|]); try done.
  - unfold set_field. destruct (profile_field_id f); unfold setFormValue; by destruct (negb _).
  - unfold select_source. repeat case_match; done.
  - unfold selectMode. repeat case_match; done.
  - unfold edit_url. by rewrite portDraft_apply.
  - apply portDraft_apply.
  - destruct (ed_clipboard e), text; try done. cbn. unfold import_url.
    match goal with |- context [apply_url ?f ?r ?n ?m ?e] => pose proof (portDraft_apply f r n m e) as Hl;
      destruct (apply_url f r n m e) as [e' b] end. by destruct b.
  - unfold test_command, cancel_test. repeat (case_match; try done).
  - unfold test_answered. destruct (findb _ _); [|done]. destruct (negb _); [done|].
    destruct (test_is_current _ _), (_ =? _); cbn; by rewrite ?draft_land.
  - unfold discover. repeat (case_match; try done).
  - unfold discovery_answered. repeat (case_match; try done).
  - unfold save. destruct (hasBlocking _ _); [done|]. cbn. by rewrite draft_cancel.
  - rewrite draft_answer; [done|]. by intros [saved close] e'.
  - rewrite draft_answer; [done|]. intros _ e'. by destruct ok.
  - unfold duplicateCurrentConnection. by destruct (_ || _).
  - unfold removeCurrentConnection. destruct (df_isNew _); [done|]. cbn. by rewrite draft_cancel.
  - rewrite draft_answer; [done|]. intros _ e'. by destruct failure.
  - unfold refreshWorkspace. by destruct (su_busy _).
  - rewrite draft_answer; [done|]. intros _ e'. by destruct ok.
  - unfold requestCancel. destruct (su_busy _); [done|]. by rewrite draft_guard.
  - by rewrite draft_guard.
  - unfold confirmDiscard. destruct (ed_pendingDiscard e); [|done]. by rewrite draft_leave.
  - by rewrite draft_answer.
Qed.

Lemma follow_agrees before e :
  port e <> before \/ port_agrees e -> port_agrees (follow_port before e).
Proof.
  unfold follow_port. destruct (Z.eqb_spec (port e) before); [by intros [|]|]. intros _ Hp. cbn in *.
  by apply shown_port.
Qed.

Lemma upsert_agrees close shared mode answer e :
  port_agrees e ->
  port (upsert_answered close shared mode answer e) <> port e
  \/ port_agrees (upsert_answered close shared mode answer e).
Proof.
  intros He. unfold upsert_answered. destruct answer as [saved|kind].
  - destruct mode; [right; unfold port_agrees; cbn; by apply shown_port|].
    destruct (formatConnectionUrl saved); [right; unfold port_agrees; cbn; by apply shown_port|].
    unfold port_agrees in *. cbn. destruct (decide (cp_port saved = port e)) as [->|]; [by right|by left].
  - right. by destruct (_ && _).
Qed.

(** The port shown, when it is a valid one, is the port a save would write: every step
    keeps this, binding a credential for another port than the one edited excepted. *)
Theorem port_text_agrees x i e :
  port_agrees e -> (forall bound, i = i_bind bound -> cp_port bound = port e) -> port_agrees (step x i e).
Proof.
  intros He Hb. unfold ConnectionDraft.step. apply follow_agrees.
  destruct (writes_port i) eqn:Hw.
  - destruct i; try done; cbn [ConnectionDraft.handle].
    + right. unfold port_agrees, setPortDraft. destruct (digits_between 1 65535 text) eqn:Ht; cbn; congruence.
    + unfold answer_to. destruct (take_command _ _) as [[[[close shared] mode] rest]|]; [|by right].
      apply (upsert_agrees close shared mode answer (with_commands rest e)). exact He.
    + right. unfold port_agrees. cbn. rewrite (Hb bound eq_refl). apply shown_port.
  - destruct (decide (port (handle x i e) = port e)) as [Hp|]; [|by left].
    right. unfold port_agrees. rewrite Hp, portDraft_handle by done. exact He.
Qed.

(** *** The profile last opened, saved or bound *)

Definition upsert_command (c : command) : option (bool * bool * ConnectionInputMode) :=
  match c with c_upsert close shared mode _ _ _ => Some (close, shared, mode) | _ => None end.

(** The profile that an input makes the saved one: a binding's, or that of a save's answer. *)
Definition keeps (i : input) (e : editor) : option ConnectionProfile :=
  match i with
  | i_bind bound => Some bound
  | i_saveAnswer (inl saved) =>
    match take_command upsert_command (ed_commands e) with
    | Some ((_, _, m_default), _) => Some saved
    | Some ((_, _, m_urlOnly), _) => if formatConnectionUrl saved then Some saved else None
    | None => None
    end
  | _ => None
  end.
Fixpoint last_kept (q : ConnectionProfile) (e : editor) (l : list (surroundings * input)) : ConnectionProfile :=
  match l with
  | [] => q
  | (x, i) :: l => last_kept (default q (keeps i e)) (step x i e) l
  end.

Notation baseline e := (df_baseline (ed_draft e)).
Definition kept_ok (q : ConnectionProfile) (e : editor) : Prop :=
  exists u, baseline e = draftFingerprint q (show_Z (cp_port q)) u.

Lemma baseline_apply form raw normalize mode e : baseline (apply_url form raw normalize mode e).1 = baseline e.
Proof. unfold apply_url. repeat (case_match; try done). Qed.

Lemma baseline_handle x i e :
  match i with i_saveAnswer _ | i_bind _ => False | _ => True end -> baseline (handle x i e) = baseline e.
Proof.
  intros Hi. destruct i; try done; cbn [ConnectionDraft.handle]; unfold unless_busy;
    try (destruct (su_busy _); [done|]); try done.
  - unfold set_field. destruct (profile_field_id f); unfold setFormValue; by destruct (negb _).
  - unfold select_source. repeat case_match; done.
  - unfold setPortDraft. by destruct (digits_between _ _ _).
  - unfold selectMode. repeat case_match; done.
  - unfold edit_url. by rewrite baseline_apply.
  - apply baseline_apply.
  - destruct (ed_clipboard e), text; try done. cbn. unfold import_url.
    match goal with |- context [apply_url ?f ?r ?n ?m ?e] => pose proof (baseline_apply f r n m e) as Hl;
      destruct (apply_url f r n m e) as [e' b] end. by destruct b.
  - unfold test_command, cancel_test. repeat (case_match; try done).
  - unfold test_answered. destruct (findb _ _); [|done]. destruct (negb _); [done|].
    destruct (test_is_current _ _), (_ =? _); cbn; by rewrite ?draft_land.
  - unfold discover. repeat (case_match; try done).
  - unfold discovery_answered. repeat (case_match; try done).
  - unfold save. destruct (hasBlocking _ _); [done|]. cbn. by rewrite draft_cancel.
  - rewrite draft_answer; [done|]. by intros [saved close] e'.
  - rewrite draft_answer; [done|]. intros _ e'. by destruct ok.
  - unfold duplicateCurrentConnection. by destruct (_ || _).
  - unfold removeCurrentConnection. destruct (df_isNew _); [done|]. cbn. by rewrite draft_cancel.
  - rewrite draft_answer; [done|]. intros _ e'. by destruct failure.
  - unfold refreshWorkspace. by destruct (su_busy _).
  - rewrite draft_answer; [done|]. intros _ e'. by destruct ok.
  - unfold requestCancel. destruct (su_busy _); [done|]. by rewrite draft_guard.
  - by rewrite draft_guard.
  - unfold confirmDiscard. destruct (ed_pendingDiscard e); [|done]. by rewrite draft_leave.
  - by rewrite draft_answer.
Qed.

Lemma kept_step x i e q : kept_ok q e -> kept_ok (default q (keeps i e)) (step x i e).
Proof.
  intros Hq. unfold kept_ok, ConnectionDraft.step, follow_port.
  enough (exists u, baseline (handle x i e) = draftFingerprint (default q (keeps i e)) (show_Z (cp_port (default q (keeps i e)))) u)
    as Hh by by destruct (_ =? _)%Z.
  destruct (match i with i_saveAnswer _ | i_bind _ => true | _ => false end) eqn:Ei;
    [|rewrite baseline_handle by (by destruct i); by destruct i].
  destruct i; try done.
  - cbn [ConnectionDraft.handle]. unfold answer_to. fold upsert_command. cbn [keeps].
    destruct answer as [saved|kind]; destruct (take_command upsert_command (ed_commands e)) as [[[[close shared] mode] rest]|]; try exact Hq.
    + unfold upsert_answered. destruct mode; [by eexists|]. destruct (formatConnectionUrl saved); [by eexists|exact Hq].
    + unfold upsert_answered. destruct (_ && _); exact Hq.
  - by exists None.
Qed.

Lemma kept_run e l q : kept_ok q e -> kept_ok (last_kept q e l) (run e l).
Proof. revert e q. induction l as [|[x i] l IH]; intros e q Hq; [done|]. by apply IH, kept_step. Qed.

Lemma kept_open p isNew now e : open_editor p isNew now = Some e -> kept_ok (with_sslmode p) e.
Proof.
  unfold open_editor. intros Ho. apply bind_Some in Ho as (url & _ & Ho). apply bind_Some in Ho as (u & _ & Ho).
  apply (inj Some) in Ho. subst e. by eexists.
Qed.

(** C35: In every reachable state, an editor marked verified holds exactly the draft that the
    last passing check was called with: the profile and the credential, or for a shared
    connection, which is checked as it is saved, its identifier. Then no password is typed or
    cleared, and what the editor of a shared connection shows is the profile last opened, saved
    or bound: every field a save writes agrees with it, but that for the port it is the text
    shown that agrees (binding a credential can leave another port in the form, see
    [binding_hides_a_port_edit]). *)
Theorem verified_means_current p isNew now e0 l :
  open_editor p isNew now = Some e0 -> verified (run e0 l) = true ->
  let d := ed_draft (run e0 l) in
  let kept := last_kept (with_sslmode p) e0 l in
  ck_passed (ed_probes (run e0 l)) = Some (test_subject d)
  /\ (isSharedTemplate d = true ->
      credentialEdited d = false /\ saved_alike (df_form d) kept /\ df_portDraft d = show_Z (cp_port kept)).
Proof.
  intros Ho Hv d kept. destruct (po_verified _ (probes_ok_run p isNew now e0 l Ho) Hv) as (s & Hs & -> & Hd).
  rewrite Hs. split; [done|]. intros Hsh. specialize (Hd Hsh). unfold dirty in Hd.
  apply orb_false_iff in Hd as [Hf Hc]. split; [done|]. apply negb_false_iff, bool_decide_eq_true in Hf.
  destruct (kept_run e0 l _ (kept_open _ _ _ _ Ho)) as [u Hu]. rewrite Hu in Hf.
  apply fingerprint_spec in Hf as (Ha & Hp & _). done.
Qed.

End invariant.

Section changes.
Context `{!UrlPlatform}.

Lemma port_agrees_open p isNew now e : open_editor p isNew now = Some e -> port_agrees e.
Proof.
  unfold open_editor. intros Ho. apply bind_Some in Ho as (url & _ & Ho). apply bind_Some in Ho as (u & _ & Ho).
  apply (inj Some) in Ho. subst e. unfold port_agrees. cbn. apply shown_port.
Qed.

(** ** Unsaved changes *)

(** A successful save leaves nothing unsaved, and until the next one the draft counts as
    clean exactly when its credential is untouched and it would be saved as it was. *)
Theorem clean_means_saved close shared mode saved e :
  mode = df_mode (ed_draft e) -> (mode = m_urlOnly -> is_Some (formatConnectionUrl saved)) ->
  let d := ed_draft (upsert_answered close shared mode (inl saved) e) in
  dirty d = false
  /\ forall d', df_baseline d' = df_baseline d ->
      (dirty d' = false <-> credentialEdited d' = false /\ saved_alike (df_form d') saved
                           /\ df_portDraft d' = show_Z (cp_port saved) /\ url_draft d' = url_draft d).
Proof.
  intros -> Hurl d.
  assert (df_baseline d = draftFingerprint saved (show_Z (cp_port saved)) (url_draft d)
          /\ credentialEdited d = false /\ df_form d = saved /\ df_portDraft d = show_Z (cp_port saved)) as (Hb & Hc & Hf & Hp).
  { subst d. unfold upsert_answered. destruct (df_mode (ed_draft e)) eqn:Hm; [|destruct Hurl as [url ->]; [done|]];
      unfold url_draft; cbn; rewrite ?Hm; done. }
  assert (forall d', df_baseline d' = df_baseline d ->
      (dirty d' = false <-> credentialEdited d' = false /\ saved_alike (df_form d') saved
                           /\ df_portDraft d' = show_Z (cp_port saved) /\ url_draft d' = url_draft d)) as Hiff.
  { intros d' Hd'. unfold dirty. rewrite Hd', Hb, orb_false_iff, negb_false_iff, bool_decide_eq_true, fingerprint_spec.
    tauto. }
  split; [|done]. apply Hiff; [done|]. rewrite Hf. done.
Qed.

End changes.

(** ** Runs on concrete inputs *)

Section examples.
#[local] Existing Instance ascii_platform.

Definition no_compare (a b : jsstr) : Z := 1.
Definition copy_of (s : jsstr) : jsstr := s ++ js " copy".
(** The driver catalog is still loading, so that it is no problem. *)
Definition loading : surroundings := mkSurroundings [] None false true None.
Definition ex_blank : ConnectionProfile := blankConnection (js "c1") None.
Definition ex_step := step no_compare copy_of (js "(unnamed)").
Definition ex_run (p : ConnectionProfile) (isNew : bool) (l : list input) : option editor :=
  e ← open_editor p isNew 0; Some (run no_compare copy_of (js "(unnamed)") e (map (fun i => (loading, i)) l)).

Definition ex_filled : list input := [i_field (fe_username (js "ada")); i_field (fe_database (js "app"))].
Definition ex_checked : list input := ex_filled ++ [i_test; i_testAnswer 0 1 (Some r_ok)].
Definition ex_open : editor :=
  default (mkEditor (mkDraft ex_blank [] false [] true false m_default [] [])
             (mkStatus false None None false None None false false None 0 false tab_general [] false)
             (mkProbes 0 0 0 [] None (mkDiscovery None dp_idle [] None) 0 None false []) None [] [] None true)
    (open_editor ex_blank true 0).
Definition with_loading (l : list input) : list (surroundings * input) := map (fun i => (loading, i)) l.

Definition ex_template : ConnectionProfile :=
  {| cp_id := js "t"; cp_name := js "team"; cp_engine := postgres; cp_provider := p_auto; cp_driverId := None;
     cp_host := js "db"; cp_port := 5432; cp_database := js "app"; cp_username := []; cp_sslmode := js "prefer";
     cp_extraParams := []; cp_readonlyDefault := true; cp_allowWrites := false; cp_schemaAccessAvailable := None;
     cp_secretRef := None; cp_env := None; cp_effectiveEnv := None; cp_schemaGroup := None;
     cp_workspaceAccess := wa_manage; cp_credentialMode := cm_memberLocal; cp_providerTarget := None |}.

Definition ex_shared : editor := default ex_open (open_editor ex_template false 0).
(** A member binds a credential to a shared connection and checks it. *)
Definition ex_bound : ConnectionProfile := put_field (fe_username (js "ada")) ex_template.
Definition ex_shared_check : list input :=
  [i_portDraft (js "5433"); i_bind ex_bound; i_test; i_testAnswer 0 1 (Some r_ok)].

Lemma verified_means_current_witness :
  let e := run no_compare copy_of (js "(unnamed)") ex_open (with_loading ex_checked) in
  let t := run no_compare copy_of (js "(unnamed)") ex_shared (with_loading ex_shared_check) in
  (verified e = true /\ ck_passed (ed_probes e) = Some (test_subject (ed_draft e)))
  /\ verified t = true /\ saved_alike (df_form (ed_draft t))
       (last_kept no_compare copy_of (js "(unnamed)") (with_sslmode ex_template) ex_shared (with_loading ex_shared_check)).
Proof.
  split; split.
  - vm_compute. reflexivity.
  - refine (proj1 (verified_means_current no_compare copy_of (js "(unnamed)") ex_blank true 0 ex_open
                   (with_loading ex_checked) _ _)); vm_compute; reflexivity.
  - vm_compute. reflexivity.
  - refine (proj1 (proj2 (proj2 (verified_means_current no_compare copy_of (js "(unnamed)") ex_template false 0 ex_shared
                   (with_loading ex_shared_check) _ _) _))); vm_compute; reflexivity.
Defined.
Example kept_is_the_bound_profile :
  last_kept no_compare copy_of (js "(unnamed)") (with_sslmode ex_template) ex_shared (with_loading ex_shared_check) = ex_bound.
Proof. vm_compute. reflexivity. Qed.

Definition ex_listed : list input :=
  ex_filled ++ [i_discover false; i_discoverAnswer 1 (inl (mkDiscovered [js "app"; js "test"] None));
                i_field (fe_name (js "renamed"))].
Lemma discovered_list_is_current_witness :
  let e := run no_compare copy_of (js "(unnamed)") ex_open (with_loading ex_listed) in
  ds_databases (shown_discovery e) = [js "app"; js "test"]
  /\ exists s, ds_subject (shown_discovery e) = Some s /\ server_part s = endpoint e.
Proof.
  split; [vm_compute; reflexivity|].
  refine (discovered_list_is_current no_compare copy_of (js "(unnamed)") ex_blank true 0 ex_open
            (with_loading ex_listed) _ _); vm_compute; [reflexivity|discriminate].
Defined.

Definition ex_saved : ConnectionProfile := put_field (fe_database (js "app")) (put_field (fe_username (js "ada")) ex_blank).
Definition ex_call : test_call := mkTest 1 2 (probe_draft ex_saved None).
Lemma checks_end_and_late_answers_vanish_witness :
  let e := run no_compare copy_of (js "(unnamed)") ex_open
             (with_loading (ex_filled ++ [i_test; i_field (fe_host (js "other"))])) in
  running e = Some run_test
  /\ ed_status (ex_step loading (i_testAnswer 0 1 (Some r_ok)) e) = with_running None (ed_status e).
Proof.
  split; [vm_compute; reflexivity|].
  refine (proj2 (proj2 (checks_end_and_late_answers_vanish no_compare copy_of (js "(unnamed)") ex_blank true 0 ex_open
    (with_loading (ex_filled ++ [i_test; i_field (fe_host (js "other"))])) _) ex_call loading 0%Z (Some r_ok) _ _));
    vm_compute; [reflexivity|left|right; discriminate].
Defined.

Lemma port_text_agrees_witness :
  let e := ex_step loading (i_portDraft (js "06543")) ex_open in
  df_portDraft (ed_draft e) = js "6543" /\ port_agrees e.
Proof.
  split; [vm_compute; reflexivity|].
  refine (port_text_agrees no_compare copy_of (js "(unnamed)") loading (i_portDraft (js "06543")) ex_open _ _);
    [|discriminate]. refine (port_agrees_open ex_blank true 0 ex_open _). vm_compute. reflexivity.
Defined.

Lemma clean_means_saved_witness :
  dirty (ed_draft (upsert_answered false false m_default (inl ex_saved) ex_open)) = false.
Proof.
  refine (proj1 (clean_means_saved false false m_default ex_saved ex_open _ _)); [vm_compute; reflexivity|discriminate].
Defined.

(** An edit made while a save is under way is overwritten by the answer, with the password
    typed meanwhile, and the draft counts as clean. *)
Example edits_during_save_are_lost :
  (e ← ex_run ex_blank true (ex_filled ++ [i_field (fe_name (js "n")); i_save false; i_field (fe_host (js "other"));
                                          i_password (js "pw"); i_saveAnswer (inl ex_saved)]);
   Some (cp_host (df_form (ed_draft e)), df_password (ed_draft e), dirty (ed_draft e)))
  = Some (js "localhost", [], false).
Proof. vm_compute. reflexivity. Qed.

(** Binding a credential shows the saved port over an edited one: the draft counts as clean,
    shows 5432, and would save 5433. *)
Example binding_hides_a_port_edit :
  (e ← ex_run ex_template false [i_portDraft (js "5433"); i_bind (put_field (fe_username (js "ada")) ex_template)];
   Some (df_portDraft (ed_draft e), dirty (ed_draft e), cp_port (saved_draft (df_form (ed_draft e)))))
  = Some (js "5432", false, 5433%Z).
Proof. vm_compute. reflexivity. Qed.

End examples.
