(* ===== verification/JsonTree.v ===== *)
(** * JSON texts as trees of tokens

    [JSON.parse] and the indenting form of [JSON.stringify] on trees that keep every
    scalar as the token it was written with, so that no number is rounded: [parse_json]
    accepts exactly the texts of the JSON grammar, [write] gives the compact and the
    indented text of a tree. [src/lib/export.ts] re-indents JSON text without going
    through such a tree ([prettyJsonText], modelled here); its correctness is stated
    against them in [JsonTreeInv]. *)

From S2P Require Import Prelude JsString JsonText.
From Stdlib Require String.
Import Stdlib.Strings.String.StringSyntax.

(** ** Trees *)

(** A scalar keeps its token; the key of a member is its string literal. *)
Inductive raw : Type :=
| RTok (token : jsstr)
| RArr (items : list raw)
| RObj (fields : list (jsstr * raw)).

Section raw_induction.
Variable P : raw -> Prop.
Hypotheses (Htok : forall t, P (RTok t)) (Harr : forall items, Forall P items -> P (RArr items))
  (Hobj : forall fields, Forall (fun kv => P kv.2) fields -> P (RObj fields)).

Lemma raw_tree_ind v : P v.
Proof.
  revert v. fix IH 1. intros [t|items|fields]; [apply Htok|apply Harr|apply Hobj].
  - induction items as [|v items IHl]; constructor; [apply IH|apply IHl].
  - induction fields as [|[k v] fields IHl]; constructor; [apply IH|apply IHl].
Qed.
End raw_induction.

(** ** Writing *)

(** A line break and the indentation of a depth; nothing in the compact form. *)
Definition indent (gap : bool) (depth : nat) : jsstr :=
  if gap then cLF :: concat (replicate depth [cSP; cSP]) else [].
Definition colon (gap : bool) : jsstr := if gap then [cCOLON; cSP] else [cCOLON].

Definition bracketed (gap : bool) (depth : nat) (o c : N) (parts : list jsstr) : jsstr :=
  match parts with
  | [] => [o; c]
  | _ => o :: indent gap (S depth) ++ join (cCOMMA :: indent gap (S depth)) parts
           ++ indent gap depth ++ [c]
  end.

(** [JSON.stringify(v)] and [JSON.stringify(v, null, 2)] of the tree of a value. *)
Fixpoint write (gap : bool) (depth : nat) (v : raw) : jsstr :=
  match v with
  | RTok t => t
  | RArr items => bracketed gap depth cLB cRB (map (write gap (S depth)) items)
  | RObj fields =>
    bracketed gap depth cLBRACE cRBRACE
      (map (fun kv => kv.1 ++ colon gap ++ write gap (S depth) kv.2) fields)
  end.

(** ** Reading *)

Definition json_digits (s : jsstr) : option (jsstr * jsstr) :=
  let n := run_len is_digit s in
  if n =? 0 then None else Some (take n s, drop n s).

(** The parts of a number: sign, integer, fraction, exponent. *)
Definition read_sign (p : N -> bool) (s : jsstr) : jsstr * jsstr :=
  match s with c :: r => if p c then ([c], r) else ([], s) | [] => ([], []) end.
Definition read_int (s : jsstr) : option (jsstr * jsstr) :=
  match s with c :: r => if (c =? 48)%N then Some ([c], r) else json_digits s | [] => None end.
Definition read_fraction (s : jsstr) : option (jsstr * jsstr) :=
  match s with
  | c :: r => if (c =? cDOT)%N then '(d, r') ← json_digits r; Some (c :: d, r') else Some ([], s)
  | [] => Some ([], [])
  end.
Definition is_exp (c : N) : bool := ((c =? 101) || (c =? 69))%N.
Definition is_sign (c : N) : bool := ((c =? 43) || (c =? cDASH))%N.
Definition read_exponent (s : jsstr) : option (jsstr * jsstr) :=
  match s with
  | c :: r =>
    if is_exp c then
      let '(sg, r1) := read_sign is_sign r in
      '(d, r') ← json_digits r1; Some (c :: sg ++ d, r')
    else Some ([], s)
  | [] => Some ([], [])
  end.
Definition read_number (s : jsstr) : option (jsstr * jsstr) :=
  let '(sg, s1) := read_sign (N.eqb cDASH) s in
  '(i, s2) ← read_int s1;
  '(f, s3) ← read_fraction s2;
  '(e, s4) ← read_exponent s3;
  Some (sg ++ i ++ f ++ e, s4).

Definition read_string (s : jsstr) : option (jsstr * jsstr) :=
  match s with
  | c :: s' =>
    if (c =? cDQ)%N then '(_, r) ← read_body s'; Some (take (length s - length r) s, r)
    else None
  | [] => None
  end.

Definition read_word (w s : jsstr) : option (jsstr * jsstr) :=
  if prefixb w s then Some (w, drop (length w) s) else None.

(** A scalar token at the start of [s] and what follows it. *)
Definition read_token (s : jsstr) : option (jsstr * jsstr) :=
  match s with
  | [] => None
  | c :: _ =>
    if (c =? cDQ)%N then read_string s
    else if (c =? 116)%N then read_word (js "true") s
    else if (c =? 102)%N then read_word (js "false") s
    else if (c =? 110)%N then read_word (js "null") s
    else read_number s
  end.

(** The next unit after white space, when it is [c]: what follows it. *)
Definition accept (c : N) (s : jsstr) : option jsstr :=
  match skip_ws s with d :: r => if (d =? c)%N then Some r else None | [] => None end.

Fixpoint read_value (fuel : nat) (s : jsstr) : option (raw * jsstr) :=
  match fuel with
  | 0 => None
  | S f =>
    match accept cLB s, accept cLBRACE s with
    | Some s1, _ =>
      match accept cRB s1 with
      | Some r => Some (RArr [], r)
      | None => '(vs, r) ← read_elements f s1; Some (RArr vs, r)
      end
    | None, Some s1 =>
      match accept cRBRACE s1 with
      | Some r => Some (RObj [], r)
      | None => '(kvs, r) ← read_members f s1; Some (RObj kvs, r)
      end
    | None, None => '(t, r) ← read_token (skip_ws s); Some (RTok t, r)
    end
  end
with read_elements (fuel : nat) (s : jsstr) : option (list raw * jsstr) :=
  match fuel with
  | 0 => None
  | S f =>
    '(v, r) ← read_value f s;
    match accept cCOMMA r with
    | Some r' => '(vs, r'') ← read_elements f r'; Some (v :: vs, r'')
    | None => r' ← accept cRB r; Some ([v], r')
    end
  end
with read_members (fuel : nat) (s : jsstr) : option (list (jsstr * raw) * jsstr) :=
  match fuel with
  | 0 => None
  | S f =>
    '(k, r0) ← read_string (skip_ws s);
    r1 ← accept cCOLON r0;
    '(v, r) ← read_value f r1;
    match accept cCOMMA r with
    | Some r' => '(kvs, r'') ← read_members f r'; Some ((k, v) :: kvs, r'')
    | None => r' ← accept cRBRACE r; Some ([(k, v)], r')
    end
  end.

Definition value_fuel (s : jsstr) : nat := S (2 * length s).

(** [JSON.parse(text)]: [None] is the thrown [SyntaxError]. *)
Definition parse_json (text : jsstr) : option raw :=
  '(v, r) ← read_value (value_fuel text) text;
  if non_empty (skip_ws r) then None else Some v.

(** ** [prettyJsonText] *)

(** ["\n" + "  ".repeat(depth)]; [repeat] throws on a negative count. *)
Definition newline (depth : Z) : res unit jsstr :=
  if (depth <? 0)%Z then Throw tt else Ok (indent true (Z.to_nat depth)).

(** The loop over [trimmed] from the position whose suffix is [s]. *)
Fixpoint pretty_loop (fuel : nat) (s : jsstr) (depth : Z) (inString : bool) : res unit jsstr :=
  match fuel with
  | 0 => Ok []
  | S f =>
    match s with
    | [] => Ok []
    | char :: rest =>
      if inString then
        if (char =? cBS)%N then
          match rest with
          | e :: rest' => out ← pretty_loop f rest' depth true; Ok (char :: e :: out)
          | [] => Ok [char]
          end
        else out ← pretty_loop f rest depth (negb (char =? cDQ)%N); Ok (char :: out)
      else if (char =? cDQ)%N then out ← pretty_loop f rest depth true; Ok (char :: out)
      else if ((char =? cLBRACE) || (char =? cLB))%N then
        let close := if (char =? cLBRACE)%N then cRBRACE else cRB in
        match trimStart rest with
        | next :: rest' =>
          if (next =? close)%N then
            out ← pretty_loop f rest' depth false; Ok (char :: close :: out)
          else
            nl ← newline (depth + 1); out ← pretty_loop f rest (depth + 1) false;
            Ok (char :: nl ++ out)
        | [] =>
          nl ← newline (depth + 1); out ← pretty_loop f rest (depth + 1) false;
          Ok (char :: nl ++ out)
        end
      else if ((char =? cRBRACE) || (char =? cRB))%N then
        nl ← newline (depth - 1); out ← pretty_loop f rest (depth - 1) false;
        Ok (nl ++ char :: out)
      else if (char =? cCOMMA)%N then
        nl ← newline depth; out ← pretty_loop f rest depth false; Ok (cCOMMA :: nl ++ out)
      else if (char =? cCOLON)%N then
        out ← pretty_loop f rest depth false; Ok (cCOLON :: cSP :: out)
      else if is_space char then pretty_loop f rest depth false
      else out ← pretty_loop f rest depth false; Ok (char :: out)
    end
  end.

Definition prettyJsonText (text : jsstr) : res unit (option jsstr) :=
  let trimmed := trim text in
  if negb (opt_is (head trimmed) (fun c => (c =? cLB) || (c =? cLBRACE))%N) then Ok None
  else
    match parse_json trimmed with
    | None => Ok None
    | Some _ =>
      out ← pretty_loop (S (length trimmed)) trimmed 0 false; Ok (Some out)
    end.

Definition sample : jsstr :=
  js " [ {" ++ json_string [97; 34; 125]%N ++ js " : -12345678901234567890.50e+3 , "
  ++ json_string (js "b") ++ js ":[ ]} ,null] ".
Example pretty_sample :
  prettyJsonText sample = Ok (Some (write true 0 (RArr
    [RObj [(json_string [97; 34; 125]%N, RTok (js "-12345678901234567890.50e+3"));
           (json_string (js "b"), RArr [])]; RTok (js "null")])))
  /\ prettyJsonText (js "[1 2]") = Ok None /\ prettyJsonText (js "17") = Ok None
  /\ prettyJsonText (js "[01]") = Ok None /\ prettyJsonText (js "[1,]") = Ok None
  /\ parse_json (js " true ") = Some (RTok (js "true")).
Proof. vm_compute. done. Qed.
