(* ===== verification/JsonTreeInv.v ===== *)
(** * Re-indenting JSON text is indenting its tree

    [pretty_is_indented]: the loop of [prettyJsonText], which never looks at a number or
    parses a token, writes the indented form of the tree the text denotes, and writes
    nothing for a text that is not one object or array. [parse_write]: both written forms
    of a tree read back as that tree, so re-indenting the compact text of a value gives
    its indented text. The fuel of the reader is always enough ([read_value_enough]). *)

From S2P Require Import Prelude JsString JsonText JsonTree.
From Stdlib Require String.
Import Stdlib.Strings.String.StringSyntax.

(** ** White space *)

Lemma skip_ws_head s c r : skip_ws s = c :: r -> json_ws c = false.
Proof. induction s as [|d s IH]; [done|]. cbn. destruct (json_ws d) eqn:E; [done|]. by intros [= -> ->]. Qed.

Lemma skip_ws_none s : opt_is (head s) json_ws = false -> skip_ws s = s.
Proof. destruct s as [|c s]; [done|]. cbn. by intros ->. Qed.

Lemma skip_ws_idem s : skip_ws (skip_ws s) = skip_ws s.
Proof.
  destruct (skip_ws s) as [|c r] eqn:E; [done|]. cbn. by rewrite (skip_ws_head _ _ _ E).
Qed.

Lemma skip_ws_length s : length (skip_ws s) <= length s.
Proof. induction s as [|c s IH]; [done|]. cbn. case_match; cbn; lia. Qed.

Lemma skip_ws_app s k : skip_ws s <> [] -> skip_ws (s ++ k) = skip_ws s ++ k.
Proof. induction s as [|c s IH]; [done|]. cbn. by case_match. Qed.

Lemma accept_spec c s r : accept c s = Some r <-> skip_ws s = c :: r.
Proof.
  unfold accept. destruct (skip_ws s) as [|d t]; [naive_solver|].
  destruct (N.eqb_spec d c) as [->|]; naive_solver.
Qed.

Lemma accept_length c s r : accept c s = Some r -> length r < length s.
Proof. intros E%accept_spec. pose proof (skip_ws_length s) as H. rewrite E in H. cbn in H. lia. Qed.

Lemma ws_space c : json_ws c = true -> is_space c = true.
Proof. unfold json_ws. intros H. repeat (apply orb_true_iff in H as [H|H]); apply N.eqb_eq in H; by subst. Qed.

(** The white space of the loop agrees with that of the grammar before a token. *)
Lemma trimStart_skip s c r : skip_ws s = c :: r -> is_space c = false -> trimStart s = c :: r.
Proof.
  induction s as [|d s IH]; [done|]. cbn. destruct (json_ws d) eqn:E.
  - intros. rewrite (ws_space _ E). auto.
  - intros [= -> ->] ->. done.
Qed.

(** ** What readers consume *)

(** The rest of a string literal, as the loop sees it: an escape skips one unit. *)
Inductive string_body : jsstr -> Prop :=
| sb_end : string_body [cDQ]
| sb_escape e u : string_body u -> string_body (cBS :: e :: u)
| sb_unit c u : c <> cDQ -> c <> cBS -> string_body u -> string_body (c :: u).

Lemma hexvalue_unit c n : hexvalue c = Some n -> c <> cDQ /\ c <> cBS.
Proof. intros H. by split; intros ->. Qed.

Lemma read_body_split s v r :
  read_body s = Some (v, r) -> exists u, s = u ++ r /\ string_body u /\
    forall k, read_body (u ++ k) = Some (v, k).
Proof.
  revert v r. induction (Nat.lt_wf_0_projected (length (A := N)) s) as [s _ IH]. intros v r Hb.
  destruct s as [|c s]; [done|]. cbn [read_body] in Hb. destruct (N.eqb_spec c cDQ) as [->|Hq].
  { simplify_eq. exists [cDQ]. split; [done|]. split; [constructor|done]. }
  destruct (N.eqb_spec c cBS) as [->|Hs].
  - destruct s as [|e s]; [done|]. destruct (N.eqb_spec e 117) as [->|He].
    + destruct s as [|a [|b [|d [|f s]]]]; try done. destruct (hex4 a b d f) as [u|] eqn:Eu; [|done]. cbn in Hb.
      destruct (read_body s) as [[w r']|] eqn:Er; [|done]. cbn in Hb. simplify_eq.
      eapply IH in Er as (p & -> & Hp & Hk); [|cbn; lia].
      exists (cBS :: 117 :: a :: b :: d :: f :: p)%N. split; [done|]. split.
      { unfold hex4 in Eu. simplify_option_eq. constructor.
        repeat match goal with E : hexvalue _ = Some _ |- _ => apply hexvalue_unit in E as [? ?] end.
        by repeat apply sb_unit. }
      intros k.
      cbn. rewrite Eu. cbn. rewrite Hk. done.
    + destruct (unescape e) as [u|] eqn:Eu; [|done]. cbn in Hb.
      destruct (read_body s) as [[w r']|] eqn:Er; [|done]. cbn in Hb. simplify_eq.
      eapply IH in Er as (p & -> & Hp & Hk); [|cbn; lia].
      exists (cBS :: e :: p)%N. split; [done|]. split; [by constructor|]. intros k.
      cbn. rewrite (proj2 (N.eqb_neq e 117)) by done. rewrite Eu. cbn. by rewrite Hk.
  - destruct (c <? 32)%N eqn:El; [done|]. destruct (read_body s) as [[w r']|] eqn:Er; [|done].
    cbn in Hb. simplify_eq. eapply IH in Er as (p & -> & Hp & Hk); [|cbn; lia].
    exists (c :: p). split; [done|]. split; [by constructor|]. intros k. cbn.
    rewrite (proj2 (N.eqb_neq c cDQ)), (proj2 (N.eqb_neq c cBS)) by done. rewrite El, Hk. done.
Qed.

Lemma read_string_spec s t r :
  read_string s = Some (t, r) <->
  exists u v, t = cDQ :: u /\ s = t ++ r /\ read_body (u ++ r) = Some (v, r).
Proof.
  split.
  - destruct s as [|c s]; [done|]. cbn [read_string]. destruct (N.eqb_spec c cDQ) as [->|]; [|done].
    destruct (read_body s) as [[v r']|] eqn:E; [|done]. cbn [mbind option_bind]. intros [= <- <-].
    destruct (read_body_split _ _ _ E) as (u & -> & _ & _). exists u, v. split; [|split; [|done]].
    + cbn [length]. rewrite length_app. replace (S (length u + length r') - length r') with (length (cDQ :: u)) by (cbn; lia).
      change (cDQ :: u ++ r') with ((cDQ :: u) ++ r'). by rewrite take_app_length.
    + cbn [length]. rewrite length_app. replace (S (length u + length r') - length r') with (length (cDQ :: u)) by (cbn; lia).
      change (cDQ :: u ++ r') with ((cDQ :: u) ++ r'). by rewrite take_app_length.
  - intros (u & v & -> & -> & E). cbn [app read_string]. rewrite N.eqb_refl, E. cbn [mbind option_bind]. f_equal. f_equal.
    cbn [length]. rewrite length_app. replace (S (length u + length r) - length r) with (length (cDQ :: u)) by (cbn; lia).
    change (cDQ :: u ++ r) with ((cDQ :: u) ++ r). by rewrite take_app_length.
Qed.

Lemma read_string_app t r k : read_string (t ++ r) = Some (t, r) -> read_string (t ++ k) = Some (t, k).
Proof.
  rewrite !read_string_spec. intros (u & v & -> & _ & E). exists u, v. split; [done|]. split; [done|].
  destruct (read_body_split _ _ _ E) as (u' & Eu & _ & Hk). apply app_inv_tail in Eu as <-. apply Hk.
Qed.

(** ** Numbers and other tokens *)

(** The units of a number. *)
Definition number_unit (c : N) : bool :=
  is_digit c || (c =? cDOT)%N || is_exp c || is_sign c.

(** What follows a token that has been read to the end of the text does not extend it. *)
Definition stops (r k : jsstr) : Prop := r = [] -> opt_is (head k) number_unit = false.

(** A reader of number parts splits the text, and is not misled by more text. *)
Definition reads_part (read : jsstr -> option (jsstr * jsstr)) : Prop :=
  forall s t r, read s = Some (t, r) ->
    s = t ++ r /\ forallb number_unit t = true /\
    forall k, stops r k -> read (s ++ k) = Some (t, r ++ k).

Lemma digit_unit c : is_digit c = true -> number_unit c = true.
Proof. unfold number_unit. by intros ->. Qed.

Lemma run_len_all p s : forallb p (take (run_len p s) s) = true.
Proof. induction s as [|c s IH]; [done|]. cbn. destruct (p c) eqn:E; [|done]. cbn. by rewrite E, IH. Qed.

Lemma run_len_app p s k :
  (drop (run_len p s) s = [] -> opt_is (head k) p = false) -> run_len p (s ++ k) = run_len p s.
Proof.
  induction s as [|c s IH]; cbn.
  - intros H. destruct k as [|c k]; [done|]. cbn in *. by rewrite H.
  - destruct (p c); [|done]. cbn. intros H. by rewrite IH.
Qed.

Lemma stops_weaken (p : N -> bool) r k :
  (forall c, p c = true -> number_unit c = true) -> stops r k -> r = [] -> opt_is (head k) p = false.
Proof.
  intros Hp Hs Hr. specialize (Hs Hr). destruct k as [|c k]; [done|]. cbn in *.
  destruct (p c) eqn:E; [|done]. apply Hp in E. congruence.
Qed.

Lemma json_digits_part : reads_part json_digits.
Proof.
  intros s t r. unfold json_digits. destruct (Nat.eqb_spec (run_len is_digit s) 0) as [|Hn]; [done|].
  intros [= <- <-]. split; [by rewrite take_drop|]. split.
  - pose proof (run_len_all is_digit s) as H. rewrite !forallb_elem in *. auto using digit_unit.
  - intros k Hs. pose proof (run_len_le is_digit s) as Hle.
    rewrite run_len_app by (apply stops_weaken, Hs; apply digit_unit).
    rewrite (proj2 (Nat.eqb_neq _ _)) by done. by rewrite take_app_le, drop_app_le.
Qed.

Lemma json_digits_ne s t r : json_digits s = Some (t, r) -> t <> [].
Proof.
  unfold json_digits. destruct (Nat.eqb_spec (run_len is_digit s) 0) as [|Hn]; [done|]. intros [= <- <-].
  destruct s; [done|]. cbn in *. by destruct (is_digit n).
Qed.

Lemma sign_unit c : is_sign c = true -> number_unit c = true.
Proof. unfold number_unit. intros ->. by rewrite orb_true_r. Qed.

Lemma read_sign_part p :
  (forall c, p c = true -> is_sign c = true) -> reads_part (fun s => Some (read_sign p s)).
Proof.
  intros Hp s t r [= E]. destruct s as [|c s]; cbn in E.
  - simplify_eq. split; [done|]. split; [done|]. intros k Hs. destruct k as [|c k]; [done|]. cbn.
    pose proof (stops_weaken p [] (c :: k) (fun c H => sign_unit c (Hp c H)) Hs eq_refl) as E. cbn in E.
    by rewrite E.
  - destruct (p c) eqn:Ec; simplify_eq; (split; [done|]).
    + split; [by cbn; rewrite sign_unit by auto|]. intros k _. cbn. by rewrite Ec.
    + split; [done|]. intros k _. cbn. by rewrite Ec.
Qed.

Lemma read_int_part : reads_part read_int.
Proof.
  intros s t r. destruct s as [|c s]; [done|]. cbn [read_int app]. destruct (N.eqb_spec c 48) as [->|Hc].
  - by intros [= <- <-].
  - intros E. exact (json_digits_part _ _ _ E).
Qed.

Lemma read_fraction_part : reads_part read_fraction.
Proof.
  intros s t r. destruct s as [|c s]; cbn [read_fraction app].
  - intros [= <- <-]. split; [done|]. split; [done|]. intros k Hs. destruct k as [|c k]; [done|]. cbn.
    pose proof (stops_weaken (fun c => (c =? cDOT)%N) [] (c :: k)) as E. cbn in E. rewrite E; [done| |done|done].
    intros d Hd. unfold number_unit. rewrite Hd. by rewrite orb_true_r.
  - destruct (N.eqb_spec c cDOT) as [->|Hc].
    + destruct (json_digits s) as [[d r']|] eqn:E; [|done]. cbn. intros [= <- <-].
      apply json_digits_part in E as (-> & Hd & Hk). split; [done|]. split; [done|].
      intros k Hs. by rewrite Hk.
    + by intros [= <- <-].
Qed.

Lemma read_exponent_part : reads_part read_exponent.
Proof.
  intros s t r. destruct s as [|c s]; cbn [read_exponent app].
  - intros [= <- <-]. split; [done|]. split; [done|]. intros k Hs. destruct k as [|c k]; [done|]. cbn.
    pose proof (stops_weaken is_exp [] (c :: k)) as E. cbn in E. rewrite E; [done| |done|done].
    intros d Hd. unfold number_unit. rewrite Hd. by rewrite orb_true_r.
  - destruct (is_exp c) eqn:Ec; [|by intros [= <- <-]].
    pose proof (read_sign_part is_sign (fun _ H => H) s) as Hsg. lazy beta in Hsg. destruct (read_sign is_sign s) as [sg r1].
    destruct (Hsg _ _ eq_refl) as (-> & Hsu & Hsk). destruct (json_digits r1) as [[d r']|] eqn:E; [|done]. cbn.
    intros [= <- <-]. pose proof (json_digits_ne _ _ _ E) as Hne. apply json_digits_part in E as (-> & Hd & Hk).
    split; [cbn; by rewrite !app_assoc|]. split.
    { cbn. unfold number_unit at 1. rewrite Ec, !orb_true_r. cbn. by rewrite forallb_app, Hsu, Hd. }
    intros k Hs. specialize (Hsk k). rewrite <- app_assoc in Hsk |- *.
    specialize (Hsk ltac:(by intros [??]%app_nil)). injection Hsk as ->. by rewrite (Hk k Hs).
Qed.

Lemma read_number_part : reads_part read_number.
Proof.
  intros s t r. unfold read_number.
  pose proof (read_sign_part (N.eqb cDASH)) as Hsg. specialize (Hsg ltac:(by intros c <-%N.eqb_eq) s). lazy beta in Hsg.
  destruct (read_sign (N.eqb cDASH) s) as [sg s1]. destruct (Hsg _ _ eq_refl) as (Es & Hu & Hsk).
  destruct (read_int s1) as [[i s2]|] eqn:Ei; [|done]. apply read_int_part in Ei as (E1 & Hui & Hik).
  cbn. destruct (read_fraction s2) as [[f s3]|] eqn:Ef; [|done]. apply read_fraction_part in Ef as (E2 & Huf & Hfk).
  cbn. destruct (read_exponent s3) as [[e s4]|] eqn:Ee; [|done]. apply read_exponent_part in Ee as (E3 & Hue & Hek).
  cbn. intros [= <- <-]. split; [subst; by rewrite !app_assoc|].
  split; [by rewrite !forallb_app, Hu, Hui, Huf, Hue|].
  intros k Hs. assert (stops s3 k) as H3 by (intros ->; apply Hs; by apply eq_sym, app_nil in E3 as [_ ->]).
  assert (stops s2 k) as H2 by (intros ->; apply H3; by apply eq_sym, app_nil in E2 as [_ ->]).
  assert (stops s1 k) as H1 by (intros ->; apply H2; by apply eq_sym, app_nil in E1 as [_ ->]).
  pose proof (Hsk k H1) as [= ->]. rewrite Hik by done. cbn. rewrite Hfk by done. cbn. by rewrite Hek.
Qed.

Lemma read_number_ne s t r : read_number s = Some (t, r) -> t <> [].
Proof.
  unfold read_number. destruct (read_sign (N.eqb cDASH) s) as [sg s1].
  destruct (read_int s1) as [[i s2]|] eqn:Ei; [|done]. cbn.
  destruct (read_fraction s2) as [[f s3]|]; [|done]. cbn. destruct (read_exponent s3) as [[e s4]|]; [|done]. cbn.
  intros [= <- <-]. destruct s1 as [|c s1]; [done|]. cbn in Ei. case_match; simplify_eq; [by destruct sg|].
  apply json_digits_ne in Ei. by destruct sg, i.
Qed.

(** A unit that the loop copies outside strings. *)
Definition copied (c : N) : bool :=
  negb (is_space c) && forallb (fun d => negb (c =? d)%N) [cDQ; cLBRACE; cLB; cRBRACE; cRB; cCOMMA; cCOLON].

Lemma number_copied c : number_unit c = true -> copied c = true.
Proof.
  unfold number_unit, is_exp, is_sign, is_digit, between. intros H.
  assert (c ∈ [43; 45; 46; 48; 49; 50; 51; 52; 53; 54; 55; 56; 57; 69; 101]%N) as Hin.
  { repeat (apply orb_true_iff in H as [H|H]); try (apply N.eqb_eq in H; subst; set_solver).
    apply andb_true_iff in H as [H1%N.leb_le H2%N.leb_le].
    assert (c = 48 \/ c = 49 \/ c = 50 \/ c = 51 \/ c = 52 \/ c = 53 \/ c = 54 \/ c = 55 \/ c = 56 \/ c = 57)%N as Hc by lia.
    destruct_or! Hc; subst; set_solver. }
  repeat (apply elem_of_cons in Hin as [->|Hin]; [done|]). by apply elem_of_nil in Hin.
Qed.

Lemma read_word_spec w s t r : read_word w s = Some (t, r) <-> t = w /\ s = w ++ r.
Proof.
  unfold read_word. destruct (prefixb w s) eqn:E.
  - apply prefixb_spec in E as [k ->]. rewrite drop_app_length. naive_solver.
  - split; [done|]. intros [-> ->]. by rewrite prefixb_app in E.
Qed.

Lemma read_token_split s t r :
  read_token s = Some (t, r) ->
  s = t ++ r /\ t <> [] /\ (read_string s = Some (t, r) \/ forallb copied t = true).
Proof.
  destruct s as [|c s]; [done|]. unfold read_token.
  destruct (N.eqb_spec c cDQ) as [->|_].
  { intros H. pose proof H as (u & v & -> & E & _)%read_string_spec. auto. }
  destruct (N.eqb_spec c 116) as [->|_]; [intros [-> ->]%read_word_spec; split; [done|]; split; [done|]; by right|].
  destruct (N.eqb_spec c 102) as [->|_]; [intros [-> ->]%read_word_spec; split; [done|]; split; [done|]; by right|].
  destruct (N.eqb_spec c 110) as [->|_]; [intros [-> ->]%read_word_spec; split; [done|]; split; [done|]; by right|].
  intros H. pose proof (read_number_ne _ _ _ H). apply read_number_part in H as (E & Hu & _).
  split; [done|]. split; [done|]. right. rewrite !forallb_elem in *. auto using number_copied.
Qed.

(** A token that ends its text is read the same way before anything that does not extend it. *)
Lemma read_token_app t k :
  read_token t = Some (t, []) -> opt_is (head k) number_unit = false -> read_token (t ++ k) = Some (t, k).
Proof.
  intros H Hk. destruct t as [|c t]; [done|]. unfold read_token in *. cbn [app].
  destruct (N.eqb_spec c cDQ) as [->|_].
  { change (cDQ :: t ++ k) with ((cDQ :: t) ++ k). apply (read_string_app _ []). by rewrite app_nil_r. }
  destruct (N.eqb_spec c 116) as [->|_]; [apply read_word_spec in H as [E _]; apply read_word_spec; by rewrite <- E|].
  destruct (N.eqb_spec c 102) as [->|_]; [apply read_word_spec in H as [E _]; apply read_word_spec; by rewrite <- E|].
  destruct (N.eqb_spec c 110) as [->|_]; [apply read_word_spec in H as [E _]; apply read_word_spec; by rewrite <- E|].
  apply read_number_part in H as (_ & _ & H). by apply (H k (fun _ => Hk)).
Qed.

(** A token starts with no white space, bracket or separator. *)
Lemma read_token_start s x :
  read_token s = Some x -> exists c r, s = c :: r /\ is_space c = false /\
    c ∉ [cLBRACE; cLB; cRBRACE; cRB; cCOMMA; cCOLON].
Proof.
  destruct x as [t r]. intros H. apply read_token_split in H as (-> & Hne & [H|H]).
  - apply read_string_spec in H as (u & v & -> & _). exists cDQ, (u ++ r). split; [done|]. split; [done|]. set_solver by done.
  - destruct t as [|c t]; [done|]. exists c, (t ++ r). split; [done|]. cbn [forallb] in H.
    apply andb_true_iff in H as [H _]. unfold copied in H. bools. split; [by destruct (is_space c)|].
    rewrite !elem_of_cons, elem_of_nil. intros Hc. by destruct_or! Hc; subst.
Qed.

(** ** The loop *)

Lemma trimStart_length s : length (trimStart s) <= length s.
Proof. induction s as [|c s IH]; [done|]. cbn. case_match; cbn; lia. Qed.

Lemma pretty_loop_fuel F F' s d q :
  length s < F -> length s < F' -> pretty_loop F s d q = pretty_loop F' s d q.
Proof.
  revert F' s d q. induction F as [|F IH]; intros [|F'] s d q H H'; try lia.
  destruct s as [|c s]; [done|]. cbn [length] in *. pose proof (trimStart_length s) as Ht.
  assert (forall s' d q, length s' <= length s -> pretty_loop F s' d q = pretty_loop F' s' d q) as E
    by (intros; apply IH; lia).
  cbn [pretty_loop]. rewrite !(E s) by done.
  destruct s as [|e s]; [done|].
  rewrite !(E s) by (cbn; lia). destruct (trimStart (e :: s)) as [|x r] eqn:Er; [done|].
  by rewrite !(E r) by (cbn in *; lia).
Qed.

(** The loop from a position, with enough fuel. *)
Definition loop (s : jsstr) (d : Z) (q : bool) : res unit jsstr := pretty_loop (S (length s)) s d q.
Definition after (p : jsstr) (m : res unit jsstr) : res unit jsstr := out ← m; Ok (p ++ out).

#[local] Arguments loop : simpl never.

Lemma after_after p p' m : after p (after p' m) = after (p ++ p') m.
Proof. destruct m; [|done]. cbn. by rewrite app_assoc. Qed.

Lemma after_nil m : after [] m = m.
Proof. by destruct m. Qed.

(** One turn of the loop on [c :: s], its fuel hidden. *)
Ltac loop_turn s :=
  unfold loop; cbn [app length]; generalize (S (length s)); intros F; cbn [pretty_loop].

Lemma loop_in_string c s d : c <> cBS -> loop (c :: s) d true = after [c] (loop s d (negb (c =? cDQ)%N)).
Proof. intros Hc. loop_turn s. by rewrite (proj2 (N.eqb_neq c cBS)). Qed.

Lemma loop_escape e s d : loop (cBS :: e :: s) d true = after [cBS; e] (loop s d true).
Proof.
  unfold loop at 2. rewrite (pretty_loop_fuel _ (S (length (e :: s)))) by (cbn; lia).
  by loop_turn (e :: s).
Qed.

Lemma loop_copy c s d : copied c = true -> loop (c :: s) d false = after [c] (loop s d false).
Proof.
  unfold copied. cbn [forallb]. intros Hc. bools. loop_turn s.
  repeat match goal with E : _ = false |- _ => rewrite !E; clear E end. done.
Qed.

Lemma loop_body u r d : string_body u -> loop (u ++ r) d true = after u (loop r d false).
Proof.
  induction 1 as [|e u _ IH|c u Hq Hs _ IH]; cbn [app].
  - by rewrite loop_in_string.
  - by rewrite loop_escape, IH, after_after.
  - rewrite loop_in_string, (proj2 (N.eqb_neq c cDQ)) by done. cbn [negb]. by rewrite IH, after_after.
Qed.

Lemma loop_copied t r d : forallb copied t = true -> loop (t ++ r) d false = after t (loop r d false).
Proof.
  induction t as [|c t IH]; [by rewrite after_nil|]. cbn [forallb app]. intros [Hc Ht]%andb_true_iff.
  by rewrite loop_copy, IH, after_after.
Qed.

Lemma loop_skip s d : loop s d false = loop (skip_ws s) d false.
Proof.
  induction s as [|c s IH]; [done|]. cbn [skip_ws]. destruct (json_ws c) eqn:E; [|done].
  rewrite <- IH. loop_turn s.
  unfold json_ws in E. repeat (apply orb_true_iff in E as [E|E]); apply N.eqb_eq in E; by subst.
Qed.

Lemma loop_token s t r d : read_token s = Some (t, r) -> loop s d false = after t (loop r d false).
Proof.
  intros H. apply read_token_split in H as (-> & _ & [H|H]); [|by apply loop_copied].
  apply read_string_spec in H as (u & v & -> & _ & E).
  destruct (read_body_split _ _ _ E) as (u' & Eu & Hb & _). apply app_inv_tail in Eu as <-.
  change (loop ((cDQ :: u) ++ r) d false) with (out ← loop (u ++ r) d true; Ok (cDQ :: out)).
  rewrite loop_body by done. by destruct (loop r d false).
Qed.

Lemma loop_close c r d :
  c = cRB \/ c = cRBRACE ->
  loop (c :: r) (Z.of_nat (S d)) false = after (indent true d ++ [c]) (loop r (Z.of_nat d) false).
Proof.
  intros Hc. replace (loop r (Z.of_nat d) false) with (loop r (Z.of_nat (S d) - 1) false) by (f_equal; lia).
  assert (newline (Z.of_nat (S d) - 1) = Ok (indent true d)) as En.
  { unfold newline. destruct (Z.ltb_spec (Z.of_nat (S d) - 1) 0); [lia|]. do 2 f_equal. lia. }
  loop_turn r. destruct Hc as [-> | ->]; cbn -[newline pretty_loop indent Z.of_nat Z.sub];
    rewrite En; destruct (pretty_loop F r _ false); cbn -[indent]; by rewrite <- ?app_assoc.
Qed.

Lemma loop_comma r d :
  loop (cCOMMA :: r) (Z.of_nat d) false = after (cCOMMA :: indent true d) (loop r (Z.of_nat d) false).
Proof.
  assert (newline (Z.of_nat d) = Ok (indent true d)) as En.
  { unfold newline. destruct (Z.ltb_spec (Z.of_nat d) 0); [lia|]. by rewrite Nat2Z.id. }
  loop_turn r. cbn -[newline pretty_loop indent]. by rewrite En.
Qed.

Lemma loop_colon r d : loop (cCOLON :: r) d false = after (colon true) (loop r d false).
Proof. by loop_turn r. Qed.

(** An opening bracket, followed or not by its closing one. *)
Definition brackets (o c : N) : Prop := (o = cLB /\ c = cRB) \/ (o = cLBRACE /\ c = cRBRACE).

Lemma loop_empty o c s r d :
  brackets o c -> accept c s = Some r -> loop (o :: s) d false = after [o; c] (loop r d false).
Proof.
  intros Hb Hs. pose proof (accept_length _ _ _ Hs). apply accept_spec in Hs.
  assert (trimStart s = c :: r) as Ht by (apply trimStart_skip; [done|]; by destruct Hb as [[_ ->]|[_ ->]]).
  unfold loop at 2. rewrite (pretty_loop_fuel _ (S (length s))) by lia.
  loop_turn s. rewrite Ht. by destruct Hb as [[-> ->]|[-> ->]].
Qed.

Lemma loop_open o c s d y s' :
  brackets o c -> accept c s = None -> skip_ws s = y :: s' -> is_space y = false ->
  loop (o :: s) (Z.of_nat d) false = after (o :: indent true (S d)) (loop s (Z.of_nat (S d)) false).
Proof.
  intros Hb Hn Hs Hy. pose proof (trimStart_skip _ _ _ Hs Hy) as Ht.
  assert (y <> c) as Hne by (intros ->; by rewrite (proj2 (accept_spec _ _ _) Hs) in Hn).
  assert (newline (Z.of_nat d + 1) = Ok (indent true (S d))) as En.
  { unfold newline. destruct (Z.ltb_spec (Z.of_nat d + 1) 0); [lia|]. do 2 f_equal. lia. }
  replace (loop s (Z.of_nat (S d)) false) with (loop s (Z.of_nat d + 1) false) by (f_equal; lia).
  loop_turn s. rewrite Ht.
  destruct Hb as [[-> ->]|[-> ->]]; cbn -[newline indent pretty_loop Z.add Z.of_nat];
    rewrite (proj2 (N.eqb_neq _ _)) by done; by rewrite En.
Qed.

(** ** The loop indents the tree *)

Lemma read_value_start f s x :
  read_value f s = Some x -> exists c r, skip_ws s = c :: r /\ is_space c = false /\ c <> cRB /\ c <> cRBRACE.
Proof.
  destruct f as [|f]; [done|]. cbn [read_value].
  destruct (accept cLB s) as [s1|] eqn:E1; [apply accept_spec in E1; by exists cLB, s1|].
  destruct (accept cLBRACE s) as [s1|] eqn:E2; [apply accept_spec in E2; by exists cLBRACE, s1|].
  destruct (read_token (skip_ws s)) as [[t r]|] eqn:Et; [|done]. intros _.
  apply read_token_start in Et as (c & r' & -> & Hc & Hn). exists c, r'. split; [done|]. split; [done|]. set_solver.
Qed.

Lemma read_elements_start f s x : read_elements f s = Some x -> exists f' y, read_value f' s = Some y.
Proof. destruct f as [|f]; [done|]. cbn. destruct (read_value f s) eqn:E; [eauto|done]. Qed.

Lemma read_members_start f s x :
  read_members f s = Some x -> exists r, skip_ws s = cDQ :: r.
Proof.
  destruct f as [|f]; [done|]. cbn. destruct (read_string (skip_ws s)) as [[k r]|] eqn:E; [|done].
  intros _. apply read_string_spec in E as (u & v & -> & -> & _). by exists (u ++ r).
Qed.

Lemma loop_accept c s r d : accept c s = Some r -> loop s d false = loop (c :: r) d false.
Proof. intros H%accept_spec. by rewrite loop_skip, H. Qed.

Definition member_text (d : nat) (kv : jsstr * raw) : jsstr := kv.1 ++ colon true ++ write true d kv.2.

(** What the loop writes for a list of parts and the closing bracket. *)
Definition parts_text (d : nat) (c : N) (parts : list jsstr) : jsstr :=
  join (cCOMMA :: indent true (S d)) parts ++ indent true d ++ [c].

Lemma parts_text_cons d c p q ps :
  parts_text d c (p :: q :: ps) = p ++ (cCOMMA :: indent true (S d)) ++ parts_text d c (q :: ps).
Proof. unfold parts_text. rewrite join_cons, <- !app_assoc. done. Qed.

Lemma read_list_ne f s vs r : read_elements f s = Some (vs, r) -> vs <> [].
Proof.
  destruct f as [|f]; [done|]. cbn. destruct (read_value f s) as [[v r0]|]; [|done]. cbn.
  destruct (accept cCOMMA r0) as [r'|].
  - destruct (read_elements f r') as [[us r'']|]; [|done]. cbn. by intros [= <- <-].
  - destruct (accept cRB r0); [|done]. cbn. by intros [= <- <-].
Qed.

Lemma read_fields_ne f s vs r : read_members f s = Some (vs, r) -> vs <> [].
Proof.
  destruct f as [|f]; [done|]. cbn. destruct (read_string (skip_ws s)) as [[k r0]|]; [|done]. cbn.
  destruct (accept cCOLON r0) as [r1|]; [|done]. cbn.
  destruct (read_value f r1) as [[v r2]|]; [|done]. cbn.
  destruct (accept cCOMMA r2) as [r'|].
  - destruct (read_members f r') as [[us r'']|]; [|done]. cbn. by intros [= <- <-].
  - destruct (accept cRBRACE r2); [|done]. cbn. by intros [= <- <-].
Qed.

Section indents.
Variable f : nat.
Hypothesis IHv : forall s v r d, read_value f s = Some (v, r) ->
  loop s (Z.of_nat d) false = after (write true d v) (loop r (Z.of_nat d) false).
Hypothesis IHe : forall s vs r d, read_elements f s = Some (vs, r) ->
  loop s (Z.of_nat (S d)) false
  = after (parts_text d cRB (map (write true (S d)) vs)) (loop r (Z.of_nat d) false).
Hypothesis IHm : forall s kvs r d, read_members f s = Some (kvs, r) ->
  loop s (Z.of_nat (S d)) false
  = after (parts_text d cRBRACE (map (member_text (S d)) kvs)) (loop r (Z.of_nat d) false).

Lemma value_indents s v r d : read_value (S f) s = Some (v, r) ->
  loop s (Z.of_nat d) false = after (write true d v) (loop r (Z.of_nat d) false).
Proof.
  cbn [read_value]. destruct (accept cLB s) as [s1|] eqn:E1.
  { rewrite (loop_accept _ _ _ _ E1). destruct (accept cRB s1) as [r'|] eqn:Ec.
    { intros [= <- <-]. rewrite (loop_empty cLB cRB s1 r') by (done || by left). done. }
    destruct (read_elements f s1) as [[vs r']|] eqn:Er; [|done]. cbn. intros [= <- <-].
    destruct (read_elements_start _ _ _ Er) as (f' & y & Hy). destruct (read_value_start _ _ _ Hy) as (c & t & Hc & Hs & _).
    rewrite (loop_open cLB cRB s1 d c t) by (done || by left). rewrite (IHe _ _ _ _ Er), after_after.
    pose proof (read_list_ne _ _ _ _ Er). by destruct vs. }
  destruct (accept cLBRACE s) as [s1|] eqn:E2.
  { rewrite (loop_accept _ _ _ _ E2). destruct (accept cRBRACE s1) as [r'|] eqn:Ec.
    { intros [= <- <-]. rewrite (loop_empty cLBRACE cRBRACE s1 r') by (done || by right). done. }
    destruct (read_members f s1) as [[vs r']|] eqn:Er; [|done]. cbn. intros [= <- <-].
    destruct (read_members_start _ _ _ Er) as (t & Hc).
    rewrite (loop_open cLBRACE cRBRACE s1 d cDQ t) by (done || by right). rewrite (IHm _ _ _ _ Er), after_after.
    pose proof (read_fields_ne _ _ _ _ Er). by destruct vs. }
  destruct (read_token (skip_ws s)) as [[t r']|] eqn:Et; [|done]. cbn. intros [= <- <-].
  by rewrite loop_skip, (loop_token _ _ _ _ Et).
Qed.

Lemma elements_indents s vs r d : read_elements (S f) s = Some (vs, r) ->
  loop s (Z.of_nat (S d)) false
  = after (parts_text d cRB (map (write true (S d)) vs)) (loop r (Z.of_nat d) false).
Proof.
  cbn [read_elements]. destruct (read_value f s) as [[v r0]|] eqn:Ev; [|done]. cbn [mbind option_bind].
  rewrite (IHv _ _ _ _ Ev). destruct (accept cCOMMA r0) as [r'|] eqn:Ea.
  - destruct (read_elements f r') as [[us r'']|] eqn:Er; [|done]. cbn. intros [= <- <-].
    rewrite (loop_accept _ _ _ _ Ea), loop_comma, (IHe _ _ _ _ Er), !after_after.
    pose proof (read_list_ne _ _ _ _ Er). destruct us as [|u us]; [done|]. cbn [map].
    by rewrite parts_text_cons, <- !app_assoc.
  - destruct (accept cRB r0) as [r'|] eqn:Ec; [|done]. cbn. intros [= <- <-].
    rewrite (loop_accept _ _ _ _ Ec), loop_close, after_after by auto. done.
Qed.

Lemma members_indents s kvs r d : read_members (S f) s = Some (kvs, r) ->
  loop s (Z.of_nat (S d)) false
  = after (parts_text d cRBRACE (map (member_text (S d)) kvs)) (loop r (Z.of_nat d) false).
Proof.
  cbn [read_members]. destruct (read_string (skip_ws s)) as [[k r0]|] eqn:Ek; [|done]. cbn [mbind option_bind].
  destruct (accept cCOLON r0) as [r1|] eqn:Ec; [|done]. cbn [mbind option_bind].
  destruct (read_value f r1) as [[v r2]|] eqn:Ev; [|done]. cbn [mbind option_bind].
  assert (read_token (skip_ws s) = Some (k, r0)) as Et.
  { apply read_string_spec in Ek as Hk. destruct Hk as (u & w & -> & E & _). rewrite E in *. done. }
  rewrite loop_skip, (loop_token _ _ _ _ Et), (loop_accept _ _ _ _ Ec), loop_colon, (IHv _ _ _ _ Ev), !after_after.
  destruct (accept cCOMMA r2) as [r'|] eqn:Ea.
  - destruct (read_members f r') as [[us r'']|] eqn:Er; [|done]. cbn. intros [= <- <-].
    rewrite (loop_accept _ _ _ _ Ea), loop_comma, (IHm _ _ _ _ Er), !after_after.
    pose proof (read_fields_ne _ _ _ _ Er). destruct us as [|u us]; [done|]. cbn [map].
    rewrite parts_text_cons. unfold member_text. cbn [fst snd]. by rewrite <- !app_assoc.
  - destruct (accept cRBRACE r2) as [r'|] eqn:Eb; [|done]. cbn. intros [= <- <-].
    rewrite (loop_accept _ _ _ _ Eb), loop_close, after_after by auto.
    unfold parts_text, member_text. cbn [map join fst snd]. by rewrite <- !app_assoc.
Qed.
End indents.

Lemma loop_indents f :
  (forall s v r d, read_value f s = Some (v, r) ->
    loop s (Z.of_nat d) false = after (write true d v) (loop r (Z.of_nat d) false)) /\
  (forall s vs r d, read_elements f s = Some (vs, r) ->
    loop s (Z.of_nat (S d)) false
    = after (parts_text d cRB (map (write true (S d)) vs)) (loop r (Z.of_nat d) false)) /\
  (forall s kvs r d, read_members f s = Some (kvs, r) ->
    loop s (Z.of_nat (S d)) false
    = after (parts_text d cRBRACE (map (member_text (S d)) kvs)) (loop r (Z.of_nat d) false)).
Proof.
  induction f as [|f (IHv & IHe & IHm)]; [done|].
  split; [|split]; intros; [by apply (value_indents f)|by apply (elements_indents f)|by apply (members_indents f)].
Qed.

(** The tree a text denotes, when it is one object or one array. *)
Definition parse_container (text : jsstr) : option raw :=
  match parse_json text with Some (RTok _) | None => None | Some v => Some v end.

Lemma read_value_shape f s v r :
  read_value f s = Some (v, r) ->
  opt_is (head (skip_ws s)) (fun c => (c =? cLB) || (c =? cLBRACE))%N
  = match v with RTok _ => false | _ => true end.
Proof.
  destruct f as [|f]; [done|]. cbn [read_value].
  destruct (accept cLB s) as [s1|] eqn:E1.
  { apply accept_spec in E1 as ->. destruct (accept cRB s1); [by intros [= <- _]|].
    destruct (read_elements f s1) as [[??]|]; [|done]. by intros [= <- _]. }
  destruct (accept cLBRACE s) as [s1|] eqn:E2.
  { apply accept_spec in E2 as ->. destruct (accept cRBRACE s1); [by intros [= <- _]|].
    destruct (read_members f s1) as [[??]|]; [|done]. by intros [= <- _]. }
  destruct (read_token (skip_ws s)) as [[t r']|] eqn:Et; [|done]. intros [= <- _].
  apply read_token_start in Et as (c & r'' & -> & _ & Hn). cbn.
  destruct (N.eqb_spec c cLB), (N.eqb_spec c cLBRACE); subst; set_solver.
Qed.

Lemma trim_start s : opt_is (head (trim s)) is_space = false.
Proof.
  unfold trim, trimEnd. assert (forall t, opt_is (head (trimStart t)) is_space = false) as Hs.
  { induction t as [|c t IH]; [done|]. cbn. destruct (is_space c) eqn:E; [done|]. cbn. by rewrite E. }
  specialize (Hs s). destruct (trimStart s) as [|c t]; [done|]. cbn in Hs. cbn [rev].
  destruct (trimStart_suffix (rev t ++ [c])) as (k & Ek & Hk).
  destruct (trimStart (rev t ++ [c])) as [|d u] eqn:Et; [done|].
  assert (last (d :: u) = Some c) as Hl.
  { apply (f_equal last) in Ek. rewrite last_snoc in Ek. rewrite last_app_cons in Ek. done. }
  rewrite rev_alt. change (rev_append (d :: u) []) with (reverse (d :: u)). by rewrite head_reverse, Hl.
Qed.

(** The loop never throws on the texts it is used on, and what it writes is the tree of
    the text, indented. *)
Lemma pretty_is_indented text :
  prettyJsonText text = Ok (fmap (write true 0) (parse_container (trim text))).
Proof.
  unfold prettyJsonText, parse_container. cbv zeta. pose proof (trim_start text) as Hs.
  set (s := trim text) in *. clearbody s.
  assert (skip_ws s = s) as Hw.
  { apply skip_ws_none. destruct s as [|c s]; [done|]. cbn in *. destruct (json_ws c) eqn:E; [|done].
    by rewrite (ws_space _ E) in Hs. }
  destruct (parse_json s) as [v|] eqn:Ep; [|by destruct (negb _)].
  unfold parse_json in Ep. destruct (read_value (value_fuel s) s) as [[w r]|] eqn:Er; [|done]. cbn in Ep.
  destruct (skip_ws r) as [|c r'] eqn:Ew; [|done]. cbn in Ep. injection Ep as ->.
  pose proof (read_value_shape _ _ _ _ Er) as Hshape. rewrite Hw in Hshape. rewrite Hshape.
  destruct (loop_indents (value_fuel s)) as (Hv & _). specialize (Hv s v r 0 Er).
  unfold loop at 1 in Hv. change (Z.of_nat 0) with 0%Z in Hv. rewrite Hv, loop_skip, Ew.
  change (loop [] 0 false) with (Ok (E := unit) (@nil N)).
  unfold after. cbn [mbind res_bind]. rewrite app_nil_r. by destruct v.
Qed.

(** ** The fuel of the reader *)

Lemma read_token_length s t r : read_token s = Some (t, r) -> length r < length s.
Proof. intros H. apply read_token_split in H as (-> & Hne & _). rewrite length_app. destruct t; [done|cbn; lia]. Qed.

Lemma read_string_length s t r : read_string s = Some (t, r) -> length r < length s.
Proof. intros (u & v & -> & -> & _)%read_string_spec. rewrite length_app. cbn. lia. Qed.

Ltac accept_lengths :=
  repeat match goal with
  | E : accept _ ?s = Some ?r |- _ =>
    lazymatch goal with _ : length r < length s |- _ => fail | _ => pose proof (accept_length _ _ _ E) end
  end.

(** Run a reader: split on what each step returns. *)
Ltac reader_steps :=
  repeat (cbn [mbind option_bind] in *;
    match goal with
    | H : context [match accept ?c ?s with _ => _ end] |- _ => destruct (accept c s) eqn:?
    | H : context [accept ?c ?s ≫= _] |- _ => destruct (accept c s) eqn:?
    | H : context [read_value ?f ?s ≫= _] |- _ => destruct (read_value f s) as [[??]|] eqn:?
    | H : context [read_elements ?f ?s ≫= _] |- _ => destruct (read_elements f s) as [[??]|] eqn:?
    | H : context [read_members ?f ?s ≫= _] |- _ => destruct (read_members f s) as [[??]|] eqn:?
    | H : context [read_token ?s ≫= _] |- _ => destruct (read_token s) as [[??]|] eqn:?
    | H : context [read_string ?s ≫= _] |- _ => destruct (read_string s) as [[??]|] eqn:?
    | H : None = Some _ |- _ => discriminate H
    | H : Some _ = Some _ |- _ => injection H as <-
    end).

Lemma read_shorter f :
  (forall s x, read_value f s = Some x -> length x.2 < length s) /\
  (forall s x, read_elements f s = Some x -> length x.2 < length s) /\
  (forall s x, read_members f s = Some x -> length x.2 < length s).
Proof.
  induction f as [|f (IHv & IHe & IHm)]; [done|]. split; [|split]; intros s x H.
  - cbn [read_value] in H. pose proof (skip_ws_length s). reader_steps; cbn [snd]; accept_lengths;
      repeat match goal with
      | E : read_elements f _ = _ |- _ => apply IHe in E; cbn [snd] in E
      | E : read_members f _ = _ |- _ => apply IHm in E; cbn [snd] in E
      | E : read_token _ = _ |- _ => apply read_token_length in E
      end; lia.
  - cbn [read_elements] in H. reader_steps; cbn [snd]; accept_lengths;
      repeat match goal with
      | E : read_elements f _ = _ |- _ => apply IHe in E; cbn [snd] in E
      | E : read_value f _ = _ |- _ => apply IHv in E; cbn [snd] in E
      end; lia.
  - cbn [read_members] in H. pose proof (skip_ws_length s). reader_steps; cbn [snd]; accept_lengths;
      repeat match goal with
      | E : read_members f _ = _ |- _ => apply IHm in E; cbn [snd] in E
      | E : read_value f _ = _ |- _ => apply IHv in E; cbn [snd] in E
      | E : read_string _ = _ |- _ => apply read_string_length in E
      end; lia.
Qed.

(** More fuel than needed, on texts no longer than the one read, changes nothing. *)
Lemma read_enough f :
  (forall s x, read_value f s = Some x -> forall F, 2 * length s < F -> read_value F s = Some x) /\
  (forall s x, read_elements f s = Some x -> forall F, S (2 * length s) < F -> read_elements F s = Some x) /\
  (forall s x, read_members f s = Some x -> forall F, S (2 * length s) < F -> read_members F s = Some x).
Proof.
  induction f as [|f (IHv & IHe & IHm)]; [done|].
  destruct (read_shorter f) as (Lv & Le & Lm).
  split; [|split]; intros s x H [|F] HF; try lia.
  - cbn [read_value] in H |- *. pose proof (skip_ws_length s). reader_steps; accept_lengths;
      repeat match goal with
      | E : read_elements f _ = _ |- _ => apply IHe with (F := F) in E; [rewrite E|lia]
      | E : read_members f _ = _ |- _ => apply IHm with (F := F) in E; [rewrite E|lia]
      | E : _ = ?o |- context [match ?o' with _ => _ end] => rewrite E
      end; done.
  - cbn [read_elements] in H |- *. reader_steps; accept_lengths;
      match goal with E : read_value f _ = _ |- _ =>
        pose proof (Lv _ _ E); apply IHv with (F := F) in E; [rewrite E|lia] end;
      cbn [mbind option_bind snd] in *;
      repeat match goal with
      | E : accept ?c ?s = _ |- context [accept ?c ?s] => rewrite E; cbn [mbind option_bind]
      | E : read_elements f _ = _ |- _ => apply IHe with (F := F) in E; [rewrite E|lia]
      end; done.
  - cbn [read_members] in H |- *. pose proof (skip_ws_length s). reader_steps; accept_lengths;
      match goal with E : read_string _ = _ |- _ => apply read_string_length in E end;
      match goal with E : read_value f _ = _ |- _ =>
        pose proof (Lv _ _ E); apply IHv with (F := F) in E; [rewrite E|lia] end;
      cbn [mbind option_bind snd] in *;
      repeat match goal with
      | E : accept ?c ?s = _ |- context [accept ?c ?s] => rewrite E; cbn [mbind option_bind]
      | E : read_members f _ = _ |- _ => apply IHm with (F := F) in E; [rewrite E|lia]
      end; done.
Qed.

Lemma read_value_enough f s x : read_value f s = Some x -> read_value (value_fuel s) s = Some x.
Proof. intros H. apply (proj1 (read_enough f) _ _ H). unfold value_fuel. lia. Qed.

(** ** Both written forms read back *)

(** The tokens of a tree are scalars of the grammar, its keys string literals. *)
Fixpoint well_formed (v : raw) : bool :=
  match v with
  | RTok t => bool_decide (read_token t = Some (t, []))
  | RArr items => forallb well_formed items
  | RObj fields => forallb (fun kv => bool_decide (read_string kv.1 = Some (kv.1, [])) && well_formed kv.2) fields
  end.

Lemma skip_indent gap d s : skip_ws (indent gap d ++ s) = skip_ws s.
Proof.
  destruct gap; [|done]. cbn [indent app skip_ws]. change (json_ws cLF) with true. cbn iota.
  induction d as [|d IH]; [done|]. exact IH.
Qed.

Lemma accept_indent gap d c s : json_ws c = false -> accept c (indent gap d ++ c :: s) = Some s.
Proof. intros Hc. apply accept_spec. rewrite skip_indent. cbn. by rewrite Hc. Qed.

Lemma accept_here c s : json_ws c = false -> accept c (c :: s) = Some s.
Proof. apply (accept_indent false 0). Qed.

Lemma accept_other c d s : json_ws d = false -> d <> c -> accept c (d :: s) = None.
Proof. intros Hd Hne. unfold accept. cbn. rewrite Hd. by rewrite (proj2 (N.eqb_neq _ _)). Qed.

Lemma accept_skip c s : accept c s = accept c (skip_ws s).
Proof. unfold accept. by rewrite skip_ws_idem. Qed.

Lemma read_value_skip f s : read_value f s = read_value f (skip_ws s).
Proof.
  destruct f as [|f]; [done|]. cbn [read_value]. by rewrite skip_ws_idem, <- !(accept_skip _ s).
Qed.

Lemma read_value_indent f gap d s : read_value f (indent gap d ++ s) = read_value f s.
Proof. by rewrite read_value_skip, skip_indent, <- read_value_skip. Qed.

Lemma read_elements_indent f gap d s : read_elements f (indent gap d ++ s) = read_elements f s.
Proof. destruct f as [|f]; [done|]. cbn [read_elements]. by rewrite read_value_indent. Qed.

Lemma read_members_indent f gap d s : read_members f (indent gap d ++ s) = read_members f s.
Proof. destruct f as [|f]; [done|]. cbn [read_members]. by rewrite skip_indent. Qed.

Definition delimits (k : jsstr) : Prop := opt_is (head k) number_unit = false.

Lemma delimits_indent gap d c k : number_unit c = false -> delimits (indent gap d ++ c :: k).
Proof. by destruct gap. Qed.

Definition reads_back (gap : bool) (d : nat) (v : raw) : Prop :=
  forall k, delimits k -> exists f, read_value f (write gap d v ++ k) = Some (v, k).

Section lists.
Variables (gap : bool) (d : nat).

Definition list_text (c : N) (parts : list jsstr) (k : jsstr) : jsstr :=
  join (cCOMMA :: indent gap (S d)) parts ++ indent gap d ++ c :: k.

Lemma list_text_cons c p q ps k :
  list_text c (p :: q :: ps) k = p ++ cCOMMA :: indent gap (S d) ++ list_text c (q :: ps) k.
Proof. unfold list_text. rewrite join_cons, <- !app_assoc. done. Qed.

Lemma list_text_one c p k : list_text c [p] k = p ++ indent gap d ++ c :: k.
Proof. done. Qed.

Lemma elements_back vs k :
  vs <> [] -> Forall (reads_back gap (S d)) vs ->
  exists f, read_elements f (list_text cRB (map (write gap (S d)) vs) k) = Some (vs, k).
Proof.
  induction vs as [|v vs IH]; [done|]. intros _ [Hv Hvs]%Forall_cons.
  destruct vs as [|w vs].
  - cbn [map]. rewrite list_text_one. destruct (Hv (indent gap d ++ cRB :: k)) as [f Hf]; [by apply delimits_indent|].
    exists (S f). cbn [read_elements]. rewrite Hf. cbn [mbind option_bind].
    unfold accept at 1. rewrite skip_indent. cbn -[accept]. by rewrite accept_indent.
  - cbn [map] in *. rewrite list_text_cons. set (rest := indent gap (S d) ++ list_text cRB _ k).
    destruct (Hv (cCOMMA :: rest)) as [f Hf]; [done|]. destruct IH as [g Hg]; [done|done|].
    rewrite <- (read_elements_indent _ gap (S d)) in Hg. fold rest in Hg.
    set (F := S (S (2 * length (write gap (S d) v ++ cCOMMA :: rest)))).
    exists (S F). cbn [read_elements].
    rewrite (proj1 (read_enough f) _ _ Hf F) by lia. cbn [mbind option_bind]. rewrite accept_here by done.
    rewrite (proj1 (proj2 (read_enough g)) _ _ Hg F); [done|].
    unfold F. rewrite length_app. cbn [length]. lia.
Qed.

Lemma members_back kvs k :
  kvs <> [] ->
  Forall (fun kv => read_string kv.1 = Some (kv.1, []) /\ reads_back gap (S d) kv.2) kvs ->
  exists f, read_members f (list_text cRBRACE
    (map (fun kv => kv.1 ++ colon gap ++ write gap (S d) kv.2) kvs) k) = Some (kvs, k).
Proof.
  induction kvs as [|[n v] kvs IH]; [done|]. intros _ [[Hn Hv] Hvs]%Forall_cons. cbn [fst snd] in *.
  assert (forall t, read_string (skip_ws ((n ++ colon gap ++ write gap (S d) v) ++ t))
    = Some (n, colon gap ++ write gap (S d) v ++ t)) as Hs.
  { intros t. rewrite <- app_assoc, <- app_assoc.
    assert (skip_ws (n ++ colon gap ++ write gap (S d) v ++ t) = n ++ colon gap ++ write gap (S d) v ++ t) as ->.
    { apply read_string_spec in Hn as (u & w & -> & _). done. }
    apply (read_string_app _ []). by rewrite app_nil_r. }
  assert (forall s, exists r, accept cCOLON (colon gap ++ s) = Some r /\
    length r <= S (length s) /\ forall f, read_value f r = read_value f s) as Hc.
  { intros s. destruct gap.
    - exists (cSP :: s). split; [done|]. split; [done|]. intros f. by rewrite read_value_skip, (read_value_skip f s).
    - exists s. split; [done|]. split; [lia|done]. }
  destruct kvs as [|w kvs].
  - cbn [map fst snd]. rewrite list_text_one.
    destruct (Hv (indent gap d ++ cRBRACE :: k)) as [f Hf]; [by apply delimits_indent|].
    exists (S f). cbn [read_members]. rewrite Hs. cbn [mbind option_bind].
    destruct (Hc (write gap (S d) v ++ indent gap d ++ cRBRACE :: k)) as (r & -> & _ & Hr). cbn [mbind option_bind].
    rewrite Hr, Hf. cbn [mbind option_bind].
    unfold accept at 1. rewrite skip_indent. cbn -[accept]. by rewrite accept_indent.
  - cbn [map fst snd] in *. rewrite list_text_cons. set (rest := indent gap (S d) ++ list_text cRBRACE _ k).
    destruct (Hv (cCOMMA :: rest)) as [f Hf]; [done|]. destruct IH as [g Hg]; [done|done|].
    rewrite <- (read_members_indent _ gap (S d)) in Hg. fold rest in Hg.
    set (F := S (S (2 * length (write gap (S d) v ++ cCOMMA :: rest)))).
    exists (S F). cbn [read_members]. rewrite Hs. cbn [mbind option_bind].
    destruct (Hc (write gap (S d) v ++ cCOMMA :: rest)) as (r & -> & _ & Hr). cbn [mbind option_bind].
    rewrite Hr, (proj1 (read_enough f) _ _ Hf F) by lia. cbn [mbind option_bind]. rewrite accept_here by done.
    rewrite (proj2 (proj2 (read_enough g)) _ _ Hg F); [done|].
    unfold F. rewrite length_app. cbn [length]. lia.
Qed.
End lists.

Lemma tree_back gap d v : well_formed v = true -> reads_back gap d v.
Proof.
  revert d. induction v as [t|items IH|fields IH] using raw_tree_ind; intros d Hv k Hk.
  - cbn [well_formed] in Hv. apply bool_decide_eq_true in Hv. exists 1. cbn [write read_value].
    pose proof (read_token_app _ _ Hv Hk) as Ht. destruct (read_token_start _ _ Ht) as (c & r & E & Hc & Hn).
    rewrite E in *. assert (json_ws c = false) as Hw by (destruct (json_ws c) eqn:Ew; [apply ws_space in Ew; congruence|done]).
    rewrite !accept_other by (done || set_solver). cbn [skip_ws]. rewrite Hw, Ht. done.
  - destruct (decide (items = [])) as [->|Hne].
    { exists 1. cbn [write map bracketed app read_value]. by rewrite !accept_here. }
    destruct (elements_back gap d items k Hne) as [f Hf].
    { cbn in Hv. rewrite Forall_forall in *. intros v Hin. apply IH; [done|]. rewrite forallb_elem in Hv. auto. }
    exists (S f). change (write gap d (RArr items)) with (bracketed gap d cLB cRB (map (write gap (S d)) items)).
    destruct items as [|v items]; [done|]. cbn [map bracketed app] in *. cbn [read_value].
    rewrite <- !app_assoc. cbn [app].
    rewrite accept_here by done. change (join ?s ?p ++ indent gap d ++ cRB :: k) with (list_text gap d cRB p k).
    assert (accept cRB (indent gap (S d) ++ list_text gap d cRB (write gap (S d) v :: map (write gap (S d)) items) k) = None) as ->.
    { rewrite <- read_elements_indent with (gap := gap) (d := S d) in Hf.
      destruct (read_elements_start _ _ _ Hf) as (f' & y & Hy).
      destruct (read_value_start _ _ _ Hy) as (c & r & E & _ & Hc & _). unfold accept. rewrite E.
      by rewrite (proj2 (N.eqb_neq _ _)). }
    rewrite read_elements_indent, Hf. done.
  - destruct (decide (fields = [])) as [->|Hne].
    { exists 1. cbn [write map bracketed app read_value].
      rewrite (accept_other cLB) by done. by rewrite !accept_here. }
    destruct (members_back gap d fields k Hne) as [f Hf].
    { cbn in Hv. rewrite Forall_forall in *. intros kv Hin. rewrite forallb_elem in Hv. specialize (Hv _ Hin). bools. auto. }
    exists (S f).
    change (write gap d (RObj fields)) with
      (bracketed gap d cLBRACE cRBRACE (map (fun kv => kv.1 ++ colon gap ++ write gap (S d) kv.2) fields)).
    destruct fields as [|v fields]; [done|]. cbn [map bracketed] in *. cbn [app read_value].
    rewrite (accept_other cLB), accept_here by done. rewrite <- !app_assoc.
    set (parts := (_ ++ _) :: map _ _) in *.
    change (join ?s parts ++ indent gap d ++ [cRBRACE] ++ k) with (list_text gap d cRBRACE parts k).
    rewrite <- read_members_indent with (gap := gap) (d := S d) in Hf.
    assert (accept cRBRACE (indent gap (S d) ++ list_text gap d cRBRACE parts k) = None) as ->.
    { destruct (read_members_start _ _ _ Hf) as (r & E). unfold accept. by rewrite E. }
    by rewrite Hf.
Qed.

(** Either text of a tree parses as that tree: no token, key or nesting is lost. *)
Lemma parse_write gap v : well_formed v = true -> parse_json (write gap 0 v) = Some v.
Proof.
  intros Hv. destruct (tree_back gap 0 v Hv [] eq_refl) as [f Hf]. rewrite app_nil_r in Hf.
  unfold parse_json. by rewrite (read_value_enough _ _ _ Hf).
Qed.

(** ** What is read is well formed *)

(** A reader that stops inside [u] does not look further. *)
Definition cuts (read : jsstr -> option (jsstr * jsstr)) : Prop :=
  forall u k t w, read (u ++ k) = Some (t, w ++ k) -> read u = Some (t, w).

Lemma app_ends_nil (t w k : jsstr) : k = t ++ w ++ k -> t = [] /\ w = [].
Proof. intros E. apply (f_equal length) in E. rewrite !length_app in E. destruct t, w; cbn in E; (done || lia). Qed.

Lemma json_digits_cuts : cuts json_digits.
Proof.
  intros u k t w H. pose proof (json_digits_part _ _ _ H) as (E & _). rewrite app_assoc in E. apply app_inv_tail in E as ->.
  revert H. unfold json_digits. destruct (Nat.eqb_spec (run_len is_digit ((t ++ w) ++ k)) 0) as [|Hn]; [done|].
  intros [= Ht Hw].
  assert (run_len is_digit ((t ++ w) ++ k) = length t) as El.
  { apply (f_equal length) in Hw. rewrite length_drop, !length_app in Hw.
    pose proof (run_len_le is_digit ((t ++ w) ++ k)). rewrite !length_app in *. lia. }
  assert (forall p (a b : jsstr) n, run_len p (a ++ b) = n -> n <= length a -> run_len p a = n) as Hcut.
  { clear. intros p a b. induction a as [|c a IH]; intros n; cbn; [lia|]. destruct (p c); [|done].
    destruct n; [done|]. intros [= E] Hn. f_equal. apply IH; [done|lia]. }
  rewrite (Hcut _ _ _ _ El) by (rewrite length_app; lia). rewrite El in Hn. rewrite (proj2 (Nat.eqb_neq _ _)) by done.
  by rewrite take_app_length, drop_app_length.
Qed.

Lemma read_sign_cuts p : cuts (fun s => Some (read_sign p s)).
Proof.
  intros u k t w [= E]. destruct u as [|c u]; cbn in *.
  - destruct k as [|c k]; cbn in E; [by destruct t, w; simplify_eq|].
    destruct (p c); injection E as Et E; subst; [|by destruct (app_ends_nil [] w (c :: k) E) as [_ ->]].
    apply (f_equal length) in E. rewrite length_app in E. cbn in E. lia.
  - destruct (p c); injection E as Et E; subst.
    + by apply app_inv_tail in E as ->.
    + change (c :: u ++ k) with ((c :: u) ++ k) in E. by apply app_inv_tail in E as <-.
Qed.

Lemma read_int_cuts : cuts read_int.
Proof.
  intros u k t w H. destruct u as [|c u].
  - pose proof (read_int_part _ _ _ H) as (E & _). destruct (app_ends_nil _ _ _ E) as [-> ->].
    destruct k as [|c k]; [done|]. cbn [app read_int] in H. destruct (c =? 48)%N; [congruence|]. by apply json_digits_ne in H.
  - cbn [app read_int] in *. destruct (c =? 48)%N.
    + injection H as <- E. by apply app_inv_tail in E as ->.
    + change (c :: u ++ k) with ((c :: u) ++ k) in H. by apply json_digits_cuts in H.
Qed.

Lemma read_fraction_cuts : cuts read_fraction.
Proof.
  intros u k t w H. destruct u as [|c u].
  - apply read_fraction_part in H as (E & _). by destruct (app_ends_nil _ _ _ E) as [-> ->].
  - cbn [app read_fraction] in *. destruct (c =? cDOT)%N.
    + destruct (json_digits (u ++ k)) as [[d r]|] eqn:Ed; [|done]. cbn in H. injection H as <- ->.
      by rewrite (json_digits_cuts _ _ _ _ Ed).
    + injection H as <- E. change (c :: u ++ k) with ((c :: u) ++ k) in E. by apply app_inv_tail in E as <-.
Qed.

Lemma read_exponent_cuts : cuts read_exponent.
Proof.
  intros u k t w H. destruct u as [|c u].
  - apply read_exponent_part in H as (E & _). by destruct (app_ends_nil _ _ _ E) as [-> ->].
  - cbn [app read_exponent] in *. destruct (is_exp c).
    + pose proof (read_sign_part is_sign (fun _ H => H) (u ++ k)) as Hp. pose proof (read_sign_cuts is_sign u k) as Hc.
      lazy beta in Hp, Hc. destruct (read_sign is_sign (u ++ k)) as [sg r1]. destruct (Hp _ _ eq_refl) as (Es & _).
      destruct (json_digits r1) as [[d r]|] eqn:Ed; [|done]. cbn in H. injection H as <- ->.
      pose proof (json_digits_part _ _ _ Ed) as (E1 & _). rewrite E1 in Hc, Ed. rewrite app_assoc in Hc, Ed.
      specialize (Hc _ _ eq_refl). injection Hc as ->. by rewrite (json_digits_cuts _ _ _ _ Ed).
    + injection H as <- E. change (c :: u ++ k) with ((c :: u) ++ k) in E. by apply app_inv_tail in E as <-.
Qed.

Lemma read_number_cuts : cuts read_number.
Proof.
  intros u k t w. unfold read_number.
  pose proof (read_sign_part (N.eqb cDASH) ltac:(by intros c <-%N.eqb_eq) (u ++ k)) as Hp.
  pose proof (read_sign_cuts (N.eqb cDASH) u k) as Hc. lazy beta in Hp, Hc.
  destruct (read_sign (N.eqb cDASH) (u ++ k)) as [sg s1]. destruct (Hp _ _ eq_refl) as (Es & _).
  destruct (read_int s1) as [[i s2]|] eqn:Ei; [|done]. cbn [mbind option_bind].
  destruct (read_fraction s2) as [[f s3]|] eqn:Ef; [|done]. cbn [mbind option_bind].
  destruct (read_exponent s3) as [[e s4]|] eqn:Ee; [|done]. cbn [mbind option_bind].
  intros [= <- ->].
  pose proof (read_exponent_part _ _ _ Ee) as (E3 & _). pose proof (read_fraction_part _ _ _ Ef) as (E2 & _).
  pose proof (read_int_part _ _ _ Ei) as (E1 & _). subst s3 s2 s1.
  assert (u = sg ++ i ++ f ++ e ++ w) as -> by (apply (app_inv_tail k); by rewrite Es, <- !app_assoc).
  specialize (Hc sg (i ++ f ++ e ++ w)). rewrite <- !app_assoc in Hc. specialize (Hc eq_refl). injection Hc as ->.
  rewrite (read_int_cuts (i ++ f ++ e ++ w) k i (f ++ e ++ w)) by by rewrite <- !app_assoc.
  cbn [mbind option_bind]. rewrite (read_fraction_cuts (f ++ e ++ w) k f (e ++ w)) by by rewrite <- !app_assoc.
  cbn [mbind option_bind]. by rewrite (read_exponent_cuts (e ++ w) k e w) by by rewrite <- !app_assoc.
Qed.

Lemma read_string_alone s t r : read_string s = Some (t, r) -> read_string t = Some (t, []).
Proof.
  intros H. pose proof H as (u & v & -> & -> & _)%read_string_spec. apply (read_string_app _ _ []) in H.
  by rewrite app_nil_r in H.
Qed.

Lemma read_token_alone s t r : read_token s = Some (t, r) -> read_token t = Some (t, []).
Proof.
  intros H. pose proof (read_token_split _ _ _ H) as (-> & Hne & _). destruct t as [|c t]; [done|].
  unfold read_token in *. cbn [app] in *.
  destruct (c =? cDQ)%N.
  { change (c :: t ++ r) with ((c :: t) ++ r) in H. apply (read_string_app _ _ []) in H. by rewrite app_nil_r in H. }
  destruct (c =? 116)%N; [apply read_word_spec in H as [E _]; apply read_word_spec; by rewrite <- E, app_nil_r|].
  destruct (c =? 102)%N; [apply read_word_spec in H as [E _]; apply read_word_spec; by rewrite <- E, app_nil_r|].
  destruct (c =? 110)%N; [apply read_word_spec in H as [E _]; apply read_word_spec; by rewrite <- E, app_nil_r|].
  by apply (read_number_cuts (c :: t) r).
Qed.

Lemma read_well_formed f :
  (forall s x, read_value f s = Some x -> well_formed x.1 = true) /\
  (forall s x, read_elements f s = Some x -> forallb well_formed x.1 = true) /\
  (forall s x, read_members f s = Some x -> well_formed (RObj x.1) = true).
Proof.
  induction f as [|f (IHv & IHe & IHm)]; [done|]. split; [|split]; intros s x H.
  - cbn [read_value] in H. reader_steps; cbn [fst];
      repeat match goal with
      | E : read_elements f _ = _ |- _ => apply IHe in E; exact E
      | E : read_members f _ = _ |- _ => apply IHm in E; exact E
      | E : read_token _ = _ |- _ => apply read_token_alone in E; cbn; by rewrite E, bool_decide_eq_true
      end; done.
  - cbn [read_elements] in H. reader_steps; cbn [fst forallb];
      repeat match goal with
      | E : read_value f _ = _ |- _ => apply IHv in E; cbn [fst] in E; rewrite E
      | E : read_elements f _ = _ |- _ => apply IHe in E; cbn [fst] in E; rewrite E
      end; done.
  - cbn [read_members] in H. reader_steps; cbn [fst well_formed forallb snd];
      repeat match goal with
      | E : read_value f _ = _ |- _ => apply IHv in E; cbn [fst] in E; rewrite E
      | E : read_members f _ = _ |- _ => apply IHm in E; cbn [fst well_formed] in E; rewrite E
      | E : read_string ?s = Some _ |- context [read_string] =>
        apply read_string_alone in E; rewrite (bool_decide_eq_true_2 _ E)
      end; done.
Qed.

Lemma parse_well_formed text v : parse_json text = Some v -> well_formed v = true.
Proof.
  unfold parse_json. destruct (read_value (value_fuel text) text) as [[w r]|] eqn:E; [|done]. cbn.
  destruct (non_empty (skip_ws r)); [done|]. intros [= ->]. by apply (proj1 (read_well_formed _) _ _ E).
Qed.
