(* ===== verification/ResultText.v ===== *)
(** * The text of an exported result

    CSV, TSV and JSON text of the rows of a result ([src/lib/sqlBuild.ts], the export
    section, and [src/lib/export.ts]): one field, the guard against spreadsheet
    formulas, the rows, the keys of the JSON records, the clipboard text of one cell,
    and the size shown for a shortened value. Cells are the JSON values of the wire
    ([JsValue]). *)

From S2P Require Import Prelude JsString Regex JsMap JsonText JsValue JsText JsonTree.
From Stdlib Require String.
Import Stdlib.Strings.String.StringSyntax.

(** ** [JSON.stringify] with an indentation *)

(** The tree [JSON.stringify] writes: a property without a text is skipped, an array
    item without one is [null]; a BigInt throws. *)
Fixpoint value_raw (v : value) : res unit (option raw) :=
  match v with
  | VUndefined => Ok None
  | VNull => Ok (Some (RTok (js "null")))
  | VBool true => Ok (Some (RTok (js "true")))
  | VBool false => Ok (Some (RTok (js "false")))
  | VNum t => Ok (Some (RTok t))
  | VBigInt _ => Throw tt
  | VStr s => Ok (Some (RTok (json_string s)))
  | VArr items =>
    trees ← (fix go (l : list value) : res unit (list raw) :=
      match l with
      | [] => Ok []
      | v :: l => t ← value_raw v; ts ← go l; Ok (default (RTok (js "null")) t :: ts)
      end) items;
    Ok (Some (RArr trees))
  | VObj fields =>
    trees ← (fix go (l : list (jsstr * value)) : res unit (list (jsstr * raw)) :=
      match l with
      | [] => Ok []
      | (k, v) :: l =>
        t ← value_raw v; ts ← go l;
        Ok match t with Some t => (json_string k, t) :: ts | None => ts end
      end) fields;
    Ok (Some (RObj trees))
  end.

(** [JSON.stringify(v)], and [JSON.stringify(v, null, 2)] with [gap]. *)
Definition JSON_stringify (gap : bool) (v : value) : res unit (option jsstr) :=
  t ← value_raw v; Ok (option_map (write gap 0) t).

(** ** Fields *)

(** [/^[=+\-@\t\r]/], on the first unit. *)
Definition SPREADSHEET_FORMULA_START (c : N) : bool :=
  ((c =? cEQ) || (c =? 43) || (c =? cDASH) || (c =? 64) || (c =? cTAB) || (c =? cCR))%N.

Definition rdigit : re := RCls is_digit.
Definition rsign : re := RCls (fun c => (c =? 43) || (c =? cDASH))%N.
Definition rminus : re := RChr cDASH.
(** [\[0-9\]+:\[0-9\]{2}:\[0-9\]{2}(?:\.\[0-9\]+)?] *)
Definition rclock : re :=
  RSeqs [RPlus rdigit; RChr cCOLON; RRep 2 rdigit; RChr cCOLON; RRep 2 rdigit;
         ROpt (RSeq (RChr cDOT) (RPlus rdigit))].
Definition rnumber : re :=
  RSeqs [ROpt rsign;
         RAlt (RSeq (RPlus rdigit) (ROpt (RSeq (RChr cDOT) (RStar rdigit))))
              (RSeq (RChr cDOT) (RPlus rdigit));
         ROpt (RSeqs [RCls is_exp; ROpt rsign; RPlus rdigit])].
Definition rinfinity : re :=
  RSeqs [ROpt rsign; RCls (fun c => (c =? 73) || (c =? 105))%N; RLit (js "nfinity")].
Definition runit : re :=
  RAny [RSeq (RLit (js "year")) (ROpt (RChr 115)); RSeq (RLit (js "mon")) (ROpt (RChr 115));
        RSeq (RLit (js "day")) (ROpt (RChr 115))].
Definition rinterval : re :=
  RSeqs [ROpt rminus; RPlus rdigit; RChr cSP; runit;
         RStar (RSeqs [RChr cSP; ROpt rsign; RPlus rdigit; RChr cSP; runit]);
         ROpt (RSeqs [RChr cSP; ROpt rsign; rclock])].
Definition INERT_VALUE : re :=
  RSeqs [RBol; RAny [rnumber; rinfinity; rinterval; RSeq (ROpt rminus) rclock]; REol].

Definition formula_start (text : jsstr) : bool := opt_is (head text) SPREADSHEET_FORMULA_START.

Definition spreadsheetSafeText (text : jsstr) : jsstr :=
  if formula_start text && negb (test INERT_VALUE text) then cSQ :: text else text.

(** [typeof v === "object" ? JSON.stringify(v) : String(v)] of a value that is not null. *)
Definition value_text (v : value) : res unit jsstr :=
  match v with
  | VUndefined | VNull => Ok []
  | VBool b => Ok (if b then js "true" else js "false")
  | VNum t => Ok t
  | VBigInt n => Ok (show_Z n)
  | VStr s => Ok s
  | VArr _ | VObj _ => t ← stringify v; Ok (default [] t)
  end.

(** The text of a field before quoting: formulas are guarded in text cells only. *)
Definition field_text (v : value) : res unit jsstr :=
  s ← value_text v;
  Ok match v with VStr _ => spreadsheetSafeText s | _ => s end.

(** [/\[sep"\n\r\]/.test(s) ? `"${s.replace(/"/g, ...)}"` : s] *)
Definition quote_field (sep : N) (s : jsstr) : jsstr :=
  if existsb (fun c => (c =? cDQ) || (c =? sep) || (c =? cLF) || (c =? cCR))%N s
  then cDQ :: double cDQ s ++ [cDQ] else s.

Definition escapeCsvField (v : value) : res unit jsstr :=
  match v with
  | VUndefined | VNull => Ok []
  | _ => s ← field_text v; Ok (quote_field cCOMMA s)
  end.

Definition tsvField (v : value) : res unit jsstr :=
  s ← field_text v; Ok (quote_field cTAB s).

(** ** Tables *)

Definition CRLF : jsstr := [cCR; cLF].

Definition toCsv (columns : list jsstr) (rows : list (list value)) : res unit jsstr :=
  heads ← res_map escapeCsvField (map VStr columns);
  let head := join [cCOMMA] heads in
  lines ← res_map (fun r => fields ← res_map escapeCsvField r; Ok (join [cCOMMA] fields)) rows;
  let body := join CRLF lines in
  Ok (if non_empty body then head ++ CRLF ++ body else head).

Definition BOM : N := 65279.
Definition csvExportText (columns : list jsstr) (rows : list (list value)) : res unit jsstr :=
  csv ← toCsv columns rows; Ok (BOM :: csv).

Definition toTsv (columns : list jsstr) (rows : list (list value)) : res unit jsstr :=
  lines ← res_map (fun r => fields ← res_map tsvField r; Ok (join [cTAB] fields))
            (map VStr columns :: rows);
  Ok (join [cLF] lines).

(** ** JSON records *)

Definition suffixed (column : jsstr) (suffix : nat) : jsstr := column ++ cUS :: show_nat suffix.

(** [for (let suffix = 2; used.has(key); suffix += 1) key = `${column}_${suffix}`] *)
Fixpoint fresh_key (fuel : nat) (used : list jsstr) (column key : jsstr) (suffix : nat) : jsstr :=
  match fuel with
  | 0 => key
  | S f =>
    if bool_decide (key ∈ used) then fresh_key f used column (suffixed column suffix) (S suffix)
    else key
  end.

Fixpoint unique_keys (used : list jsstr) (columns : list jsstr) : list jsstr :=
  match columns with
  | [] => []
  | column :: columns =>
    let key := fresh_key (S (length used)) used column column 2 in
    key :: unique_keys (sadd used key) columns
  end.
Definition uniqueColumnKeys (columns : list jsstr) : list jsstr := unique_keys [] columns.

(** The order in which an object lists its own keys: array indexes first, by value. *)
Definition array_index (k : jsstr) : option Z :=
  if all_digits k && bool_decide (show_Z (dec_value k) = k) && (dec_value k <? 4294967295)%Z
  then Some (dec_value k) else None.
Fixpoint insert_index {A} (n : Z) (e : jsstr * A) (l : list (jsstr * A)) : list (jsstr * A) :=
  match l with
  | [] => [e]
  | e' :: l' =>
    match array_index e'.1 with
    | Some m => if (m <=? n)%Z then e' :: insert_index n e l' else e :: l
    | None => e :: l
    end
  end.
Fixpoint own_order {A} (l : list (jsstr * A)) : list (jsstr * A) :=
  match l with
  | [] => []
  | e :: l =>
    match array_index e.1 with
    | Some n => insert_index n e (own_order l)
    | None =>
      (fix go (l : list (jsstr * A)) := match l with
        | e' :: l' => match array_index e'.1 with Some _ => e' :: go l' | None => e :: l end
        | [] => [e]
        end) (own_order l)
    end
  end.

(** [r\[i\] ?? null] *)
Definition cell_or_null (r : list value) (i : nat) : value :=
  match r !! i with Some VUndefined | None => VNull | Some v => v end.

(** [Object.fromEntries(keys.map((key, i) => \[key, r\[i\] ?? null\]))] *)
Definition record (keys : list jsstr) (r : list value) : value :=
  VObj (own_order (mof (imap (fun i key => (key, cell_or_null r i)) keys))).

Definition toJson (columns : list jsstr) (rows : list (list value)) : res unit (option jsstr) :=
  let keys := uniqueColumnKeys columns in
  JSON_stringify true (VArr (map (record keys) rows)).

Definition jsonExportText (columns : list jsstr) (rows : list (list value)) : res unit (option jsstr) :=
  let keys := uniqueColumnKeys columns in
  if 5000 <? length rows then JSON_stringify false (VArr (map (record keys) rows))
  else toJson columns rows.

(** ** One cell, and sizes *)

Definition cellClipboardText (v : value) : res unit (option jsstr) :=
  match v with
  | VUndefined | VNull => Ok (Some [])
  | VArr _ | VObj _ => JSON_stringify true v
  | VStr s =>
    p ← prettyJsonText s;
    Ok (Some match p with Some (c :: out) => c :: out | _ => s end)
  | _ => t ← value_text v; Ok (Some t)
  end.

(** [(bytes / unit).toFixed(1)]: the quotient is exact, halves round up. *)
Definition toFixed1 (n unit : Z) : jsstr :=
  let tenths := ((20 * n + unit) / (2 * unit))%Z in
  show_Z (tenths / 10) ++ cDOT :: show_Z (tenths mod 10).

Definition formatByteSize (bytes : Z) : jsstr :=
  if (bytes <? 1024)%Z then show_Z bytes ++ js " B"
  else if (bytes <? 1024 * 1024)%Z then toFixed1 bytes 1024 ++ js " KB"
  else toFixed1 bytes (1024 * 1024) ++ js " MB".

Example csv_sample :
  toCsv [js "id"; js "a,b"] [[VNum (js "1"); VStr (js "=1+1")]; [VNull; VStr (js "-12.50")];
                             [VBool true; VStr (js "x" ++ [cLF] ++ js "y")]]
  = Ok (js "id," ++ [cDQ] ++ js "a,b" ++ [cDQ] ++ CRLF ++ js "1,'=1+1" ++ CRLF ++ js ",-12.50" ++ CRLF
        ++ js "true," ++ [cDQ] ++ js "x" ++ [cLF] ++ js "y" ++ [cDQ])
  /\ map spreadsheetSafeText [js "-1 day -02:00:00"; js "-Infinity"; js "+1e5"; js "@x"; js "-1 dayz"; js "3"]
     = [js "-1 day -02:00:00"; js "-Infinity"; js "+1e5"; js "'@x"; js "'-1 dayz"; js "3"]
  /\ uniqueColumnKeys [js "a"; js "a"; js "a_2"; js "a"] = [js "a"; js "a_2"; js "a_2_2"; js "a_3"]
  /\ map formatByteSize [1023; 1024; 1587; 1048575; 1048576; 1572864]%Z
     = [js "1023 B"; js "1.0 KB"; js "1.5 KB"; js "1024.0 KB"; js "1.0 MB"; js "1.5 MB"].
Proof. vm_compute. done. Qed.
