(* ===== verification/ResultTextInv.v ===== *)
(** * Exported text reads back, and runs no formula

    A reader of delimiter-separated tables ([read_table]) as spreadsheets have it; the CSV
    and TSV text of a result reads back as fields that tell its cells ([tables_read_back]),
    no field that comes back is a formula ([exported_fields_are_inert]; formulas and the
    values that databases write have a specification of their own, [starts_formula] and
    [written]), and the JSON text parses as the records, under distinct keys
    ([json_export_reads_back]). *)

From S2P Require Import Prelude JsString Regex JsMap JsonText JsValue JsText JsonTree JsonTreeInv ResultText.
From Stdlib Require String.
Import Stdlib.Strings.String.StringSyntax.

(** ** Reading a table *)

Inductive mode := FieldStart | Bare | Quoted | Closed.

(** A table from the middle of a field: the rest of the field, of the record, of the table. *)
Notation scanned := (jsstr * list jsstr * list (list jsstr))%type.

Definition add_unit (c : N) (x : scanned) : scanned := let '(f, fs, rs) := x in (c :: f, fs, rs).
Definition end_field (x : scanned) : scanned := let '(f, fs, rs) := x in ([], f :: fs, rs).
Definition end_record (x : scanned) : scanned := let '(f, fs, rs) := x in ([], [], (f :: fs) :: rs).

(** Quotes open a field only at its start and are doubled inside it; LF, CR and CRLF end
    a record. *)
Fixpoint scan (sep : N) (m : mode) (s : jsstr) : scanned :=
  match s with
  | [] => ([], [], [])
  | c :: s =>
    match m with
    | Quoted => if (c =? cDQ)%N then scan sep Closed s else add_unit c (scan sep Quoted s)
    | _ =>
      if (c =? cDQ)%N && (match m with FieldStart => true | _ => false end) then scan sep Quoted s
      else if (c =? cDQ)%N && (match m with Closed => true | _ => false end) then add_unit c (scan sep Quoted s)
      else if (c =? sep)%N then end_field (scan sep FieldStart s)
      else if (c =? cLF)%N then end_record (scan sep FieldStart s)
      else if (c =? cCR)%N then
        if opt_is (head s) (N.eqb cLF) then scan sep m s else end_record (scan sep FieldStart s)
      else add_unit c (scan sep Bare s)
    end
  end.

Definition read_table (sep : N) (s : jsstr) : list (list jsstr) :=
  let '(f, fs, rs) := scan sep FieldStart s in (f :: fs) :: rs.

Section tables.
Variables (sep : N) (nl : jsstr).
Hypotheses (Hsep : sep <> cDQ /\ sep <> cLF /\ sep <> cCR) (Hnl : nl = [cLF] \/ nl = CRLF).

(** Where a field ends, the mode no longer matters. *)
Definition field_end (k : jsstr) : Prop := k = [] \/ (exists k', k = sep :: k') \/ exists k', k = nl ++ k'.

Definition prepend (t : jsstr) (x : scanned) : scanned := let '(f, fs, rs) := x in (t ++ f, fs, rs).

Lemma scan_end m k : field_end k -> m <> Quoted -> scan sep m k = scan sep FieldStart k.
Proof.
  intros Hk Hm. destruct Hsep as (H1 & H2 & H3). destruct Hk as [->|[[k' ->]|[k' ->]]]; [done|..].
  - cbn. rewrite (proj2 (N.eqb_neq _ _) H1), N.eqb_refl. by destruct m.
  - destruct Hnl as [-> | ->]; cbn -[N.eqb];
      change (cLF =? cDQ)%N with false; change (cLF =? cLF)%N with true;
      change (cCR =? cDQ)%N with false; change (cCR =? cLF)%N with false; change (cCR =? cCR)%N with true; cbn -[N.eqb];
      rewrite ?(proj2 (N.eqb_neq cLF sep)), ?(proj2 (N.eqb_neq cCR sep)) by congruence; by destruct m.
Qed.

Lemma end_first k : field_end k -> scan sep FieldStart k = prepend [] (scan sep FieldStart k).
Proof. by destruct (scan sep FieldStart k) as [[f fs] rs]. Qed.

Lemma prepend_cons c t x : prepend (c :: t) x = add_unit c (prepend t x).
Proof. by destruct x as [[f fs] rs]. Qed.

Definition special (c : N) : bool := ((c =? cDQ) || (c =? sep) || (c =? cLF) || (c =? cCR))%N.

Lemma scan_bare m t k :
  existsb special t = false -> field_end k -> m <> Quoted ->
  scan sep m (t ++ k) = prepend t (scan sep FieldStart k).
Proof.
  revert m. induction t as [|c t IH]; intros m Ht Hk Hm.
  - cbn. rewrite scan_end by done. by apply end_first.
  - cbn [existsb] in Ht. apply orb_false_iff in Ht as [Hc Ht]. unfold special in Hc. bools.
    rewrite prepend_cons, <- (IH Bare) by done. cbn [app scan].
    repeat match goal with E : _ = false |- _ => rewrite !E; clear E end. by destruct m.
Qed.

Lemma scan_quoted t k :
  field_end k -> scan sep Quoted (double cDQ t ++ cDQ :: k) = prepend t (scan sep FieldStart k).
Proof.
  intros Hk. induction t as [|c t IH].
  - cbn. rewrite scan_end by done. by apply end_first.
  - rewrite prepend_cons, <- IH. cbn [double]. destruct (N.eqb_spec c cDQ) as [->|Hc]; cbn [app scan].
    + done.
    + by rewrite (proj2 (N.eqb_neq _ _) Hc).
Qed.

Lemma scan_field t k :
  field_end k -> scan sep FieldStart (quote_field sep t ++ k) = prepend t (scan sep FieldStart k).
Proof.
  intros Hk. unfold quote_field. fold special. destruct (existsb special t) eqn:E.
  - cbn [app scan]. change (cDQ =? cDQ)%N with true. cbn [andb]. rewrite <- app_assoc. cbn [app]. by apply scan_quoted.
  - by apply scan_bare.
Qed.

Lemma scan_sep k : scan sep FieldStart (sep :: k) = end_field (scan sep FieldStart k).
Proof. destruct Hsep as (H1 & _). cbn. by rewrite (proj2 (N.eqb_neq _ _) H1), N.eqb_refl. Qed.

Lemma scan_nl k : scan sep FieldStart (nl ++ k) = end_record (scan sep FieldStart k).
Proof.
  destruct Hsep as (_ & H2 & H3). destruct Hnl as [-> | ->]; cbn -[N.eqb];
    change (cLF =? cDQ)%N with false; change (cLF =? cLF)%N with true;
    change (cCR =? cDQ)%N with false; change (cCR =? cLF)%N with false; change (cCR =? cCR)%N with true; cbn -[N.eqb];
    rewrite ?(proj2 (N.eqb_neq cLF sep)), ?(proj2 (N.eqb_neq cCR sep)) by congruence; done.
Qed.

Definition line (r : list jsstr) : jsstr := join [sep] (map (quote_field sep) r).

Lemma scan_line f fs k :
  k = [] \/ (exists k', k = nl ++ k') ->
  exists rs, scan sep FieldStart k = ([], [], rs) /\
    scan sep FieldStart (line (f :: fs) ++ k) = (f, fs, rs).
Proof.
  intros Hk. assert (exists rs, scan sep FieldStart k = ([], [], rs)) as [rs Hrs].
  { destruct Hk as [->|[k' ->]]; [by eexists|]. rewrite scan_nl. destruct (scan sep FieldStart k') as [[??]?]. by eexists. }
  exists rs. split; [done|]. unfold line. revert f. induction fs as [|g fs IH]; intros f.
  - cbn [map join]. rewrite scan_field by (destruct Hk as [?|?]; [by left|by right; right]). rewrite Hrs. cbn. by rewrite app_nil_r.
  - cbn [map]. rewrite join_cons, <- !app_assoc. rewrite scan_field by (right; left; eexists; done).
    cbn [app]. rewrite scan_sep. cbn [map] in IH. rewrite IH. cbn. by rewrite app_nil_r.
Qed.

(** A table of non-empty records reads back, whatever its fields contain. *)
Lemma table_reads_back r rows :
  Forall (fun r => r <> []) (r :: rows) ->
  read_table sep (join nl (map line (r :: rows))) = r :: rows.
Proof.
  intros Hne. unfold read_table. enough (exists f fs, r = f :: fs /\
    scan sep FieldStart (join nl (map line (r :: rows))) = (f, fs, rows)) as (f & fs & -> & ->) by done.
  revert r Hne. induction rows as [|q rows IH]; intros r [Hr Hrows]%Forall_cons; (destruct r as [|f fs]; [done|]).
  - exists f, fs. split; [done|]. cbn [map join]. destruct (scan_line f fs []) as (rs & E & H); [by left|].
    rewrite app_nil_r in H. rewrite H. by injection E as <-.
  - exists f, fs. split; [done|]. cbn [map]. rewrite join_cons.
    destruct (IH q Hrows) as (g & gs & -> & Hq). cbn [map] in Hq.
    destruct (scan_line f fs (nl ++ join nl (line (g :: gs) :: map line rows))) as (rs & E & H); [right; by eexists|].
    rewrite H. rewrite scan_nl, Hq in E. by injection E as <-.
Qed.
End tables.

(** ** CSV and TSV *)

Lemma res_map_bind {E A B C} (f : A -> res E B) (g : B -> C) l :
  res_map (fun a => b ← f a; Ok (g b)) l = (bs ← res_map f l; Ok (map g bs)).
Proof.
  induction l as [|a l IH]; [done|]. cbn [res_map]. destruct (f a) as [b|e]; [|done]. cbn in *. rewrite IH.
  by destruct (res_map f l).
Qed.

Lemma res_map_pure {E A B C} (f : A -> res E B) (g : C -> A) (h : C -> B) l :
  (forall c, f (g c) = Ok (h c)) -> res_map f (map g l) = Ok (map h l).
Proof. intros H. induction l as [|c l IH]; [done|]. cbn. rewrite H. cbn. cbn in IH. by rewrite IH. Qed.

Lemma escape_quotes v : escapeCsvField v = (s ← field_text v; Ok (quote_field cCOMMA s)).
Proof. by destruct v. Qed.

Lemma res_map_ext {E A B} (f g : A -> res E B) l : (forall a, f a = g a) -> res_map f l = res_map g l.
Proof. intros H. induction l as [|a l IH]; [done|]. cbn. rewrite H. by rewrite IH. Qed.

(** The lines of a table are those of its field texts. *)
Lemma table_lines (field : value -> res unit jsstr) sep rows :
  (forall v, field v = (s ← field_text v; Ok (quote_field sep s))) ->
  res_map (fun r => fields ← res_map field r; Ok (join [sep] fields)) rows
  = (cells ← res_map (res_map field_text) rows; Ok (map (line sep) cells)).
Proof.
  intros Hf. rewrite (res_map_ext _ (fun r => cells ← res_map field_text r; Ok (line sep cells))).
  - by rewrite res_map_bind.
  - intros r. rewrite (res_map_ext _ _ r Hf), res_map_bind. by destruct (res_map field_text r).
Qed.

Lemma column_texts columns : res_map field_text (map VStr columns) = Ok (map spreadsheetSafeText columns).
Proof. by apply res_map_pure. Qed.

Lemma cells_shape rows cells :
  res_map (res_map field_text) rows = Ok cells -> Forall (fun r => r <> []) rows -> Forall (fun r => r <> []) cells.
Proof.
  intros H%res_map_ok. induction H as [|r c rows cells Hr _ IH]; [done|].
  intros [Hne Hrows]%Forall_cons. constructor; [|auto]. intros ->. destruct r as [|v r]; [done|].
  cbn in Hr. destruct (field_text v); [|done]. cbn in Hr. by destruct (res_map field_text r).
Qed.

(** The body of the table is empty only without a record, or with one empty field. *)
Lemma body_empty sep nl cells :
  nl <> [] -> Forall (fun r => r <> []) cells ->
  non_empty (join nl (map (line sep) cells)) = false <-> cells = [] \/ cells = [[[]]].
Proof.
  intros Hnl Hne. split; [|by intros [-> | ->]]. destruct cells as [|r [|q cells]]; [by left| |].
  - intros H. right. apply Forall_cons in Hne as [Hr _]. destruct r as [|f [|g r]]; [done| |].
    + cbn in H. unfold quote_field in H. destruct (existsb _ f); [done|]. by destruct f.
    + cbn in H. unfold line in H. cbn [map join] in H. by destruct (quote_field sep f).
  - cbn [map]. rewrite join_cons. destruct (line sep r); [|done]. cbn [app]. destruct nl; [done|by cbn].
Qed.

(** The records that a CSV text holds: a single record whose only field is empty is left
    out, since its body is the empty text. *)
Definition csv_records (cells : list (list jsstr)) : list (list jsstr) :=
  if decide (cells = [[[]]]) then [] else cells.

Definition csv_text (heads : list jsstr) (cells : list (list jsstr)) : jsstr :=
  let body := join CRLF (map (line cCOMMA) cells) in
  if non_empty body then line cCOMMA heads ++ CRLF ++ body else line cCOMMA heads.

Lemma toCsv_cells columns rows :
  toCsv columns rows =
  (cells ← res_map (res_map field_text) rows; Ok (csv_text (map spreadsheetSafeText columns) cells)).
Proof.
  unfold toCsv. cbv zeta. rewrite (table_lines _ cCOMMA) by apply escape_quotes.
  rewrite (res_map_ext _ _ _ escape_quotes), res_map_bind, column_texts. cbn [mbind res_bind].
  by destruct (res_map (res_map field_text) rows).
Qed.

Lemma csv_text_reads heads cells :
  heads <> [] -> Forall (fun r => r <> []) cells ->
  read_table cCOMMA (csv_text heads cells) = heads :: csv_records cells.
Proof.
  intros Hh Hne. unfold csv_text. cbv zeta.
  assert (forall records, Forall (fun r => r <> []) records ->
    read_table cCOMMA (join CRLF (map (line cCOMMA) (heads :: records))) = heads :: records) as Hread.
  { intros records Hr. apply table_reads_back; [done|by right|]. by constructor. }
  unfold csv_records. destruct (non_empty (join CRLF (map (line cCOMMA) cells))) eqn:E.
  - destruct cells as [|r cells]; [done|]. destruct (decide (r :: cells = [[[]]])) as [Hd|_]; [by rewrite Hd in E|].
    specialize (Hread (r :: cells) Hne). cbn [map] in Hread |- *. by rewrite join_cons in Hread.
  - apply (body_empty cCOMMA CRLF cells) in E as [-> | ->]; [by apply (Hread [])| |done..].
    destruct (decide _); [by apply (Hread [])|done].
Qed.

Lemma toTsv_cells columns rows :
  toTsv columns rows =
  (cells ← res_map (res_map field_text) rows;
   Ok (join [cLF] (map (line cTAB) (map spreadsheetSafeText columns :: cells)))).
Proof.
  unfold toTsv. rewrite (table_lines _ cTAB) by done. cbn [res_map]. rewrite column_texts. cbn [mbind res_bind].
  by destruct (res_map (res_map field_text) rows).
Qed.

(** ** Formulas *)

(** What runs as a formula, and what a database writes for a number, an infinity, an interval
    or a time of day; said on their own, without the regular expressions of the code. *)
Definition FORMULA_SIGNS : jsstr := js "=+-@" ++ [9; 13]%N.
Definition starts_formula (s : jsstr) : bool :=
  match s with [] => false | c :: _ => existsb (N.eqb c) FORMULA_SIGNS end.

Definition digit (c : N) : Prop := (48 <= c <= 57)%N.
Definition digits (w : jsstr) : Prop := w <> [] /\ Forall digit w.
Definition two_digits (w : jsstr) : Prop := length w = 2 /\ Forall digit w.
Definition minus (w : jsstr) : Prop := w = [] \/ w = js "-".
Definition sign (w : jsstr) : Prop := minus w \/ w = js "+".
Inductive decimal : jsstr -> Prop :=
| dec_whole a : digits a -> decimal a
| dec_point a b : digits a -> Forall digit b -> decimal (a ++ js "." ++ b)
| dec_fraction b : digits b -> decimal (js "." ++ b).
Inductive exponent : jsstr -> Prop :=
| exp_none : exponent []
| exp_some e s d : e = js "e" \/ e = js "E" -> sign s -> digits d -> exponent (e ++ s ++ d).
Inductive clock : jsstr -> Prop :=
| clk_whole h m s : digits h -> two_digits m -> two_digits s -> clock (h ++ js ":" ++ m ++ js ":" ++ s)
| clk_fraction h m s f : digits h -> two_digits m -> two_digits s -> digits f ->
    clock (h ++ js ":" ++ m ++ js ":" ++ s ++ js "." ++ f).
Definition time_unit (w : jsstr) : Prop :=
  w ∈ [js "year"; js "years"; js "mon"; js "mons"; js "day"; js "days"].
Inductive interval_rest : jsstr -> Prop :=
| rest_none : interval_rest []
| rest_clock s c : sign s -> clock c -> interval_rest (js " " ++ s ++ c)
| rest_more s d u r : sign s -> digits d -> time_unit u -> interval_rest r ->
    interval_rest (js " " ++ s ++ d ++ js " " ++ u ++ r).
Inductive written : jsstr -> Prop :=
| wr_number s n x : sign s -> decimal n -> exponent x -> written (s ++ n ++ x)
| wr_infinity s w : sign s -> w = js "Infinity" \/ w = js "infinity" -> written (s ++ w)
| wr_interval m d u r : minus m -> digits d -> time_unit u -> interval_rest r ->
    written (m ++ d ++ js " " ++ u ++ r)
| wr_clock m c : minus m -> clock c -> written (m ++ c).

(** What a spreadsheet leaves alone. *)
Definition inert_field (s : jsstr) : Prop := starts_formula s = false \/ written s.

Lemma starts_formula_spec s : formula_start s = starts_formula s.
Proof.
  destruct s as [|c s]; [done|]. unfold formula_start, starts_formula, SPREADSHEET_FORMULA_START. cbn -[N.eqb].
  by rewrite orb_false_r, !orb_assoc.
Qed.

(** *** The texts of a regular expression *)

(** The texts that a regex consumes, its anchors left aside. *)
Fixpoint lang (r : re) (w : jsstr) : Prop :=
  match r with
  | REps | RBol | REol | RWordB => w = []
  | RCls p => exists c, w = [c] /\ p c = true
  | RSeq a b => exists u v, w = u ++ v /\ lang a u /\ lang b v
  | RAlt a b => lang a w \/ lang b w
  | RStar a | RLazy a => exists ws, w = concat ws /\ Forall (lang a) ws
  end.

Lemma slice_empty s i : slice s i i = [].
Proof. unfold slice. by rewrite Nat.sub_diag. Qed.
Lemma slice_split s i j k : i <= j <= k -> k <= length s -> slice s i k = slice s i j ++ slice s j k.
Proof.
  intros [Hi Hj] Hk. unfold slice. replace (k - i) with ((j - i) + (k - j)) by lia. rewrite <- take_take_drop, drop_drop.
  by replace (i + (j - i)) with j by lia.
Qed.

Lemma rmatch_lang s r i j : rmatch s r i j -> i <= length s -> lang r (slice s i j).
Proof.
  induction 1 as [i|p i c Hc Hp|a b i j k Ha IHa Hb IHb|a b i j Ha IHa|a b i j Ha IHa|a i|a i j k Ha IHa Hlt Hb IHb
    |a i|a i j k Ha IHa Hlt Hb IHb| | |i]; intros Hi; cbn [lang]; rewrite ?slice_empty; try done.
  - exists c. split; [|done]. unfold slice. rewrite (drop_S _ _ _ Hc). by replace (S i - i) with 1 by lia.
  - pose proof (rmatch_le _ _ _ _ Ha). pose proof (rmatch_le _ _ _ _ Hb). exists (slice s i j), (slice s j k).
    split; [apply slice_split; lia|]. split; [by apply IHa|apply IHb; lia].
  - left. by apply IHa.
  - right. by apply IHa.
  - by exists [].
  - pose proof (rmatch_le _ _ _ _ Ha). pose proof (rmatch_le _ _ _ _ Hb). destruct IHb as (ws & E & Hws); [lia|].
    exists (slice s i j :: ws). split; [cbn; rewrite <- E; apply slice_split; lia|]. constructor; [by apply IHa|done].
  - by exists [].
  - pose proof (rmatch_le _ _ _ _ Ha). pose proof (rmatch_le _ _ _ _ Hb). destruct IHb as (ws & E & Hws); [lia|].
    exists (slice s i j :: ws). split; [cbn; rewrite <- E; apply slice_split; lia|]. constructor; [by apply IHa|done].
Qed.

(** What [/^...$/] accepts is a text of what stands between the anchors. *)
Lemma anchored_lang r s : test (RSeqs [RBol; r; REol]) s = true -> lang r s.
Proof.
  intros (i & j & Hi & Hm)%test_spec.
  inversion Hm as [| |? ? ? m ? Hb Hr| | | | | | | | |]; subst. inversion Hb; subst.
  inversion Hr as [| |? ? ? n ? Ha He| | | | | | | | |]; subst.
  inversion He as [| |? ? ? q ? He1 He2| | | | | | | | |]; subst. inversion He1; subst.
  apply rmatch_lang in Ha; [|done]. unfold slice in Ha. by rewrite drop_0, Nat.sub_0_r, take_ge in Ha.
Qed.

Lemma lang_lit l w : lang (RLit l) w -> w = l.
Proof.
  revert w. induction l as [|c l IH]; intros w; [done|]. intros (u & v & -> & (d & -> & ->%N.eqb_eq) & Hv). cbn. by rewrite (IH v).
Qed.
Lemma lang_chr c w : lang (RChr c) w -> w = [c].
Proof. by intros (d & -> & ->%N.eqb_eq). Qed.
Lemma lang_digit w : lang rdigit w -> exists c, w = [c] /\ digit c.
Proof.
  intros (c & -> & H). exists c. split; [done|]. unfold is_digit in H. apply andb_true_iff in H as [H1 H2].
  apply N.leb_le in H1. apply N.leb_le in H2. done.
Qed.
Lemma lang_run w : lang (RStar rdigit) w -> Forall digit w.
Proof.
  intros (ws & -> & H). induction H as [|u ws (c & -> & Hc)%lang_digit _ IH]; [constructor|]. by constructor.
Qed.
Lemma lang_digits w : lang (RPlus rdigit) w -> digits w.
Proof. intros (u & v & -> & (c & -> & Hc)%lang_digit & Hv%lang_run). split; [done|by constructor]. Qed.
Lemma lang_two w : lang (RRep 2 rdigit) w -> two_digits w.
Proof. intros (u & v & -> & (c & -> & Hc)%lang_digit & u' & v' & -> & (d & -> & Hd)%lang_digit & ->). split; [done|]. constructor; [done|by constructor]. Qed.
Lemma lang_minus w : lang (ROpt rminus) w -> minus w.
Proof. intros [->%lang_chr| ->]; [by right|by left]. Qed.
Lemma lang_sign w : lang (ROpt rsign) w -> sign w.
Proof. intros [(c & -> & [->%N.eqb_eq| ->%N.eqb_eq]%orb_true_iff)| ->]; [by right|left; by right|left; by left]. Qed.

Lemma lang_exponent w : lang (ROpt (RSeqs [RCls is_exp; ROpt rsign; RPlus rdigit])) w -> exponent w.
Proof.
  intros [(e & v & -> & (c & -> & Hc) & s & d & -> & Hs%lang_sign & d' & n & -> & Hd%lang_digits & ->)| ->]; [|constructor].
  rewrite app_nil_r. apply (exp_some [c]); [|done..]. unfold is_exp in Hc.
  apply orb_true_iff in Hc as [->%N.eqb_eq| ->%N.eqb_eq]; [by left|by right].
Qed.
Lemma lang_decimal w :
  lang (RAlt (RSeq (RPlus rdigit) (ROpt (RSeq (RChr cDOT) (RStar rdigit)))) (RSeq (RChr cDOT) (RPlus rdigit))) w -> decimal w.
Proof.
  intros [(a & v & -> & Ha%lang_digits & [(p & b & -> & ->%lang_chr & Hb%lang_run)| ->])|(p & b & -> & ->%lang_chr & Hb%lang_digits)].
  - by apply (dec_point a b).
  - rewrite app_nil_r. by constructor.
  - by apply (dec_fraction b).
Qed.
Lemma lang_clock w : lang rclock w -> clock w.
Proof.
  intros (h & v1 & -> & Hh%lang_digits & c1 & v2 & -> & ->%lang_chr & m & v3 & -> & Hm%lang_two & c2 & v4 & -> & ->%lang_chr
    & s & v5 & -> & Hs%lang_two & f & n & -> & [(p & d & -> & ->%lang_chr & Hd%lang_digits)| ->] & ->); rewrite !app_nil_r.
  - by apply (clk_fraction h m s d).
  - by apply (clk_whole h m s).
Qed.
Lemma lang_unit w : lang runit w -> time_unit w.
Proof.
  unfold time_unit. intros [H|[H|H]]; destruct H as (u & v & -> & ->%lang_lit & [->%lang_chr| ->]); by vm_compute; set_solver.
Qed.
Lemma lang_rest ws w :
  Forall (lang (RSeqs [RChr cSP; ROpt rsign; RPlus rdigit; RChr cSP; runit])) ws ->
  lang (ROpt (RSeqs [RChr cSP; ROpt rsign; rclock])) w -> interval_rest (concat ws ++ w).
Proof.
  intros H Hw. induction H as [|a ws Ha _ IH]; cbn [concat app].
  - destruct Hw as [(b & v & -> & ->%lang_chr & s & v' & -> & Hs%lang_sign & c & n & -> & Hc%lang_clock & ->)| ->]; [|constructor].
    rewrite app_nil_r. by apply rest_clock.
  - destruct Ha as (b & v1 & -> & ->%lang_chr & s & v2 & -> & Hs%lang_sign & d & v3 & -> & Hd%lang_digits & b' & v4 & -> & ->%lang_chr
      & u & n & -> & Hu%lang_unit & ->). rewrite app_nil_r, <- !app_assoc. by apply (rest_more s d u).
Qed.

(** The code takes nothing else for inert. *)
Lemma inert_written s : test INERT_VALUE s = true -> written s.
Proof.
  intros [H|[H|[H|H]]]%anchored_lang.
  - destruct H as (a & v & -> & Ha%lang_sign & n & x & -> & Hn%lang_decimal & x' & e & -> & Hx%lang_exponent & ->).
    rewrite app_nil_r. by constructor.
  - destruct H as (a & v & -> & Ha%lang_sign & i & x & -> & (c & -> & Hc) & x' & e & -> & ->%lang_lit & ->).
    rewrite app_nil_r. apply wr_infinity; [done|].
    apply orb_true_iff in Hc as [->%N.eqb_eq| ->%N.eqb_eq]; [by left|by right].
  - destruct H as (m & v1 & -> & Hm%lang_minus & d & v2 & -> & Hd%lang_digits & b & v3 & -> & ->%lang_chr & u & v4 & -> & Hu%lang_unit
      & r & v5 & -> & (ws & -> & Hws) & t & n & -> & Ht & ->). rewrite app_nil_r. apply wr_interval; [done..|]. by apply lang_rest.
  - destruct H as (m & c & -> & Hm%lang_minus & Hc%lang_clock). by apply wr_clock.
Qed.

Lemma inert_field_intro s : formula_start s = false \/ test INERT_VALUE s = true -> inert_field s.
Proof. rewrite starts_formula_spec. intros [H|H%inert_written]; [by left|by right]. Qed.

Lemma safe_text_inert s : inert_field (spreadsheetSafeText s).
Proof.
  apply inert_field_intro. unfold spreadsheetSafeText.
  destruct (formula_start s) eqn:E1, (test INERT_VALUE s) eqn:E2; cbn; auto.
Qed.

(** The guard adds an apostrophe, to formulas only, and loses nothing. *)
Definition guarded (t f : jsstr) : Prop := f = t \/ starts_formula t = true /\ f = js "'" ++ t.
Lemma safe_text_guarded t : guarded t (spreadsheetSafeText t).
Proof.
  unfold spreadsheetSafeText. rewrite starts_formula_spec. destruct (starts_formula t) eqn:E; [|by left].
  destruct (test INERT_VALUE t); [by left|by right].
Qed.

(** [r] can match the text [w] wherever it stands. *)
Definition accepts (r : re) (w : jsstr) : Prop := forall s i b, pos s i (w ++ b) -> rmatch s r i (i + length w).

Lemma accepts_seq a b u v : accepts a u -> accepts b v -> accepts (RSeq a b) (u ++ v).
Proof.
  intros Ha Hb s i k Hp. rewrite <- app_assoc in Hp. rewrite length_app, Nat.add_assoc.
  econstructor; [eapply Ha, Hp|]. eapply Hb. by apply pos_app.
Qed.

Lemma accepts_seqs1 a u : accepts a u -> accepts (RSeqs [a]) u.
Proof. intros Ha. rewrite <- (app_nil_r u). apply accepts_seq; [done|]. intros s i b _. cbn. rewrite Nat.add_0_r. constructor. Qed.

Lemma accepts_opt_none r : accepts (ROpt r) [].
Proof. intros s i b _. cbn. rewrite Nat.add_0_r. apply m_alt_r. constructor. Qed.

Lemma accepts_opt r w : accepts r w -> accepts (ROpt r) w.
Proof. intros H s i b Hp. apply m_alt_l. by apply (H s i b). Qed.

Lemma accepts_cls (p : N -> bool) c : p c = true -> accepts (RCls p) [c].
Proof. intros Hc s i b Hp. rewrite Nat.add_1_r. econstructor; [|done]. by rewrite (pos_lookup _ _ _ Hp). Qed.

Lemma accepts_star p w : forallb p w = true -> accepts (RStar (RCls p)) w.
Proof.
  induction w as [|c w IH]; intros Hw s i b Hp; [rewrite Nat.add_0_r; constructor|].
  cbn [forallb] in Hw. apply andb_true_iff in Hw as [Hc Hw]. cbn [length].
  apply (m_star_step s (RCls p) i (S i)); [|lia|].
  - econstructor; [|done]. by rewrite (pos_lookup _ _ _ Hp).
  - replace (i + S (length w)) with (S i + length w) by lia. apply (IH Hw s (S i) b). by apply (pos_cons s i c).
Qed.

Lemma accepts_plus p w : w <> [] -> forallb p w = true -> accepts (RPlus (RCls p)) w.
Proof.
  destruct w as [|c w]; [done|]. intros _ [Hc Hw]%andb_true_iff. change (c :: w) with ([c] ++ w).
  apply accepts_seq; [by apply accepts_cls|by apply accepts_star].
Qed.

Lemma json_digits_digits s t r : json_digits s = Some (t, r) -> forallb is_digit t = true.
Proof.
  unfold json_digits. destruct (_ =? 0)%nat; [done|]. intros [= <- _]. apply run_len_all.
Qed.

Lemma number_accepted s t r : read_number s = Some (t, r) -> accepts rnumber t.
Proof.
  unfold read_number. destruct (read_sign (N.eqb cDASH) s) as [sg s1] eqn:Es.
  destruct (read_int s1) as [[i s2]|] eqn:Ei; [|done]. cbn [mbind option_bind].
  destruct (read_fraction s2) as [[f s3]|] eqn:Ef; [|done]. cbn [mbind option_bind].
  destruct (read_exponent s3) as [[e s4]|] eqn:Ee; [|done]. cbn [mbind option_bind]. intros [= <- _].
  assert (accepts (ROpt rsign) sg) as Hsg.
  { destruct s as [|c s]; cbn [read_sign] in Es; [simplify_eq/=; apply accepts_opt_none|].
    destruct (N.eqb_spec cDASH c) as [<-|]; simplify_eq/=; [|apply accepts_opt_none].
    apply accepts_opt. by apply accepts_cls. }
  assert (accepts (RPlus rdigit) i) as Hi.
  { destruct s1 as [|c s1]; [done|]. cbn [read_int] in Ei. destruct (N.eqb_spec c 48) as [->|].
    - simplify_eq/=. by apply accepts_plus.
    - apply accepts_plus; [by eapply json_digits_ne|by eapply json_digits_digits]. }
  assert (accepts (ROpt (RSeq (RChr cDOT) (RStar rdigit))) f) as Hf.
  { destruct s2 as [|c s2]; cbn [read_fraction] in Ef; [simplify_eq/=; apply accepts_opt_none|].
    destruct (N.eqb_spec c cDOT) as [->|]; [|simplify_eq/=; apply accepts_opt_none].
    destruct (json_digits s2) as [[d r']|] eqn:Ed; [|done]. simplify_eq/=. apply accepts_opt.
    change (cDOT :: d) with ([cDOT] ++ d). apply accepts_seq; [by apply accepts_cls|].
    apply accepts_star. by eapply json_digits_digits. }
  assert (accepts (ROpt (RSeqs [RCls is_exp; ROpt rsign; RPlus rdigit])) e) as He.
  { destruct s3 as [|c s3]; cbn [read_exponent] in Ee; [simplify_eq/=; apply accepts_opt_none|].
    destruct (is_exp c) eqn:Ec; [|simplify_eq/=; apply accepts_opt_none].
    destruct (read_sign is_sign s3) as [g r1] eqn:Eg. destruct (json_digits r1) as [[d r']|] eqn:Ed; [|done].
    simplify_eq/=. apply accepts_opt. change (c :: g ++ d) with ([c] ++ g ++ d).
    apply accepts_seq; [by apply accepts_cls|]. apply accepts_seq.
    - destruct s3 as [|x s3]; cbn [read_sign] in Eg; [simplify_eq/=; apply accepts_opt_none|].
      destruct (is_sign x) eqn:Ex; simplify_eq/=; [|apply accepts_opt_none].
      apply accepts_opt. by apply accepts_cls.
    - apply accepts_seqs1, accepts_plus; [by eapply json_digits_ne|by eapply json_digits_digits]. }
  apply accepts_seq; [done|]. rewrite app_assoc. apply accepts_seq; [|by apply accepts_seqs1].
  intros s' k b Hp. apply m_alt_l. eapply accepts_seq; eassumption.
Qed.

Lemma number_inert t : read_number t = Some (t, []) -> test INERT_VALUE t = true.
Proof.
  intros H%number_accepted. apply test_spec. exists 0, (length t). split; [lia|].
  econstructor; [constructor|]. econstructor.
  - apply m_alt_l. apply (H t 0 []). rewrite app_nil_r. apply pos_start.
  - econstructor; [constructor|constructor].
Qed.

(** A cell of the wire: a number is a JSON number, and there is no BigInt. *)
Definition wire_cell (v : value) : bool :=
  match v with
  | VNum t => bool_decide (read_number t = Some (t, []))
  | VBigInt _ => false
  | _ => true
  end.

Lemma stringify_start v t :
  match v with VArr _ | VObj _ => True | _ => False end -> stringify v = Ok (Some t) ->
  exists r, t = cLB :: r \/ t = cLBRACE :: r.
Proof.
  destruct v as [| | | | | |items|fields]; try done; intros _; cbn [stringify];
    match goal with |- mbind _ ?m = _ -> _ => destruct m as [texts|]; [|done] end; intros [= <-]; eauto.
Qed.

Lemma field_inert v s : wire_cell v = true -> field_text v = Ok s -> inert_field s.
Proof.
  intros Hw. unfold field_text. destruct v as [| |b|t|n|t|items|fields]; cbn [value_text mbind res_bind].
  - intros [= <-]. by left.
  - intros [= <-]. by left.
  - intros [= <-]. left. by destruct b.
  - intros [= <-]. apply inert_field_intro. right. cbn in Hw. apply bool_decide_eq_true in Hw. by apply number_inert.
  - done.
  - intros [= <-]. apply safe_text_inert.
  - destruct (stringify (VArr items)) as [[t|]|] eqn:E; [|intros [= <-]; by left|done]. intros [= <-].
    apply stringify_start in E as [r [-> | ->]]; [by left|by left|done].
  - destruct (stringify (VObj fields)) as [[t|]|] eqn:E; [|intros [= <-]; by left|done]. intros [= <-].
    apply stringify_start in E as [r [-> | ->]]; [by left|by left|done].
Qed.

Lemma cells_inert rows cells :
  forallb (forallb wire_cell) rows = true -> res_map (res_map field_text) rows = Ok cells ->
  Forall (Forall inert_field) cells.
Proof.
  intros Hw H%res_map_ok. induction H as [|r c rows cells Hr _ IH]; [constructor|].
  cbn [forallb] in *. apply andb_true_iff in Hw as [Hw Hws]. constructor; [|by apply IH].
  apply res_map_ok in Hr. induction Hr as [|v s r c Hv _ IHr]; [constructor|].
  cbn [forallb] in *. apply andb_true_iff in Hw as [Hw Hw']. constructor; [by apply (field_inert v s)|by apply IHr].
Qed.

(** ** JSON text of wire values *)

(** A value of the wire, at any depth. *)
Fixpoint wire (v : value) : bool :=
  match v with
  | VNum t => bool_decide (read_number t = Some (t, []))
  | VBigInt _ => false
  | VArr items => forallb wire items
  | VObj fields => forallb (fun kv => wire kv.2) fields
  | _ => true
  end.

Lemma wire_is_cell v : wire v = true -> wire_cell v = true.
Proof. by destruct v. Qed.

Lemma json_string_literal s : read_string (json_string s) = Some (json_string s, []).
Proof.
  apply read_string_spec. exists (json_body s ++ [cDQ]), s. unfold json_string. rewrite app_nil_r.
  split; [done|]. split; [done|]. rewrite app_nil_r. by rewrite read_json_body.
Qed.

Lemma number_token t : read_number t = Some (t, []) -> read_token t = Some (t, []).
Proof.
  intros H. pose proof (read_number_ne _ _ _ H). destruct t as [|c t]; [done|].
  unfold read_token. destruct (N.eqb_spec c cDQ) as [->|]; [done|].
  destruct (N.eqb_spec c 116) as [->|]; [done|]. destruct (N.eqb_spec c 102) as [->|]; [done|].
  by destruct (N.eqb_spec c 110) as [->|].
Qed.

(** Writing a wire value never throws, and gives a well-formed tree. *)
Lemma wire_tree v : wire v = true ->
  exists o, value_raw v = Ok o /\ (o = None -> v = VUndefined) /\ forall r, o = Some r -> well_formed r = true.
Proof.
  revert v. fix IH 1. intros [| |[]|t|n|s|items|fields] Hw; cbn [wire] in Hw; try done.
  - by exists None.
  - by eexists; split; [done|]; split; [done|]; intros r [= <-].
  - by eexists; split; [done|]; split; [done|]; intros r [= <-].
  - by eexists; split; [done|]; split; [done|]; intros r [= <-].
  - eexists; split; [done|]; split; [done|]; intros r [= <-]. apply bool_decide_eq_true in Hw.
    cbn. by apply bool_decide_eq_true, number_token.
  - eexists; split; [done|]; split; [done|]; intros r [= <-].
    cbn [well_formed]. apply bool_decide_eq_true. exact (json_string_literal s).
  - cbn [value_raw]. match goal with |- context [mbind ?k ?m] =>
      enough (exists trees, m = Ok trees /\ forallb well_formed trees = true) as (trees & -> & Ht) end.
    { eexists; split; [done|]; split; [done|]; by intros r [= <-]. }
    induction items as [|v items IHl]; [by exists []|]. cbn [forallb] in Hw. apply andb_true_iff in Hw as [Hv Hl].
    destruct (IH v Hv) as (o & -> & _ & Ho). destruct (IHl Hl) as (trees & -> & Ht). cbn [mbind res_bind].
    eexists; split; [done|]. cbn [forallb]. rewrite Ht, andb_true_r. destruct o; [by apply Ho|done].
  - cbn [value_raw]. match goal with |- context [mbind ?k ?m] =>
      enough (exists trees, m = Ok trees /\ well_formed (RObj trees) = true) as (trees & -> & Ht) end.
    { eexists; split; [done|]; split; [done|]; by intros r [= <-]. }
    induction fields as [|[k v] fields IHl]; [by exists []|]. cbn [forallb snd] in Hw. apply andb_true_iff in Hw as [Hv Hl].
    destruct (IH v Hv) as (o & -> & _ & Ho). destruct (IHl Hl) as (trees & -> & Ht). cbn [mbind res_bind].
    destruct o as [t|]; [|eauto]. eexists; split; [done|]. cbn [well_formed forallb fst snd] in *.
    rewrite Ht, andb_true_r, (Ho t eq_refl), andb_true_r. by apply bool_decide_eq_true, json_string_literal.
Qed.

Lemma write_compact d v : write false d v = write false 0 v.
Proof.
  revert d. induction v as [t|items IH|fields IH] using raw_tree_ind; intros d; [done|..]; cbn [write].
  - rewrite (map_ext_in (write false (S d)) (write false 1)); [by destruct items|].
    intros v Hv%list_elem_of_In. rewrite Forall_forall in IH. by rewrite IH, (IH _ Hv 1).
  - rewrite (map_ext_in (fun kv => kv.1 ++ colon false ++ write false (S d) kv.2) (fun kv => kv.1 ++ colon false ++ write false 1 kv.2));
      [by destruct fields|].
    intros v Hv%list_elem_of_In. rewrite Forall_forall in IH. by rewrite IH, (IH _ Hv 1).
Qed.

Lemma bracketed_compact d o c parts : bracketed false d o c parts = o :: join [cCOMMA] parts ++ [c].
Proof. by destruct parts. Qed.

(** The compact form is the one of [JsValue.stringify]. *)
Lemma stringify_compact v : stringify v = JSON_stringify false v.
Proof.
  revert v. unfold JSON_stringify. fix IH 1. intros [| |[]|t|n|s|items|fields]; [reflexivity..| |].
  - cbn [stringify value_raw].
    match goal with |- mbind ?k ?m = mbind ?k' (mbind ?j ?m') =>
      enough (m = (trees ← m'; Ok (map (write false 0) trees))) as -> by
        (destruct m' as [trees|]; [|done]; cbn -[write join]; do 2 f_equal;
         cbn [write]; rewrite bracketed_compact; do 3 f_equal; apply map_ext; intros; by rewrite (write_compact 1)) end.
    induction items as [|v items IHl]; [done|]. rewrite (IH v), IHl. destruct (value_raw v) as [[r|]|]; [| |done];
      cbn [mbind res_bind option_map]; match goal with |- context [mbind ?k ?m] => by destruct m end.
  - cbn [stringify value_raw].
    match goal with |- mbind ?k ?m = mbind ?k' (mbind ?j ?m') =>
      enough (m = (trees ← m'; Ok (map (fun kv => kv.1 ++ cCOLON :: write false 0 kv.2) trees))) as -> by
        (destruct m' as [trees|]; [|done]; cbn -[write join]; do 2 f_equal;
         cbn [write]; rewrite bracketed_compact; do 3 f_equal; apply map_ext; intros; by rewrite (write_compact 1)) end.
    induction fields as [|[k v] fields IHl]; [done|]. rewrite (IH v), IHl. destruct (value_raw v) as [[r|]|]; [| |done];
      cbn [mbind res_bind option_map]; match goal with |- context [mbind ?k ?m] => by destruct m end.
Qed.

(** ** Distinct keys *)

(** The candidates of a column: its name, then its name with 2, 3, ... *)
Definition candidate (column : jsstr) (n : nat) : jsstr :=
  match n with 0 => column | S n => suffixed column (S (S n)) end.

Lemma candidate_inj column m n : candidate column m = candidate column n -> m = n.
Proof.
  assert (forall n, suffixed column n <> column) as Hne.
  { intros k E. apply (f_equal length) in E. unfold suffixed in E. rewrite length_app in E. cbn in E. lia. }
  destruct m, n; cbn; [done|intros E; by destruct (Hne (S (S n)))|intros E; by destruct (Hne (S (S m)))|].
  unfold suffixed. intros E%app_inv_head. injection E as E. apply show_nat_inj in E. lia.
Qed.

Lemma unused_key_spec fuel used column n :
  exists m, n <= m /\ fresh_key fuel used column (candidate column n) (S (S n)) = candidate column m /\
    (m = n + fuel \/ candidate column m ∉ used) /\ forall k, n <= k < m -> candidate column k ∈ used.
Proof.
  revert n. induction fuel as [|fuel IH]; intros n; cbn [fresh_key].
  - exists n. split; [lia|]. split; [done|]. split; [left; lia|lia].
  - case_bool_decide as Hn.
    + destruct (IH (S n)) as (m & Hm & E & Hu & Hk). exists m. split; [lia|]. split; [exact E|].
      split; [destruct Hu; [left; lia|by right]|]. intros k Hk'.
      destruct (decide (k = n)) as [->|]; [done|]. apply Hk. lia.
    + exists n. split; [lia|]. split; [done|]. split; [by right|lia].
Qed.

(** One more candidate than keys in use is enough. *)
Lemma fresh_key_fresh used column :
  exists m, fresh_key (S (length used)) used column column 2 = candidate column m /\
    candidate column m ∉ used /\ forall k, k < m -> candidate column k ∈ used.
Proof.
  destruct (unused_key_spec (S (length used)) used column 0) as (m & _ & E & Hu & Hk).
  exists m. split; [exact E|]. split; [|intros; apply Hk; lia]. destruct Hu as [Hm|Hu]; [|done].
  exfalso. assert (length (map (candidate column) (seq 0 m)) <= length used) as Hlen.
  { apply NoDup_incl_length.
    - apply NoDup_ListNoDup. change (map (candidate column)) with (fmap (M := list) (candidate column)).
      apply NoDup_fmap_2; [intros ?? E'; by eapply candidate_inj|apply NoDup_seq].
    - intros x (k & <- & Hin)%in_map_iff. apply in_seq in Hin. apply list_elem_of_In, Hk. lia. }
  rewrite length_map, length_seq in Hlen. lia.
Qed.

Lemma unique_keys_fresh used columns :
  NoDup (unique_keys used columns) /\ (forall key, key ∈ unique_keys used columns -> key ∉ used) /\
  forall i column, columns !! i = Some column -> exists key m,
    unique_keys used columns !! i = Some key /\ key = candidate column m /\
    forall k, k < m -> candidate column k ∈ used ++ take i (unique_keys used columns).
Proof.
  revert used. induction columns as [|column columns IH]; intros used; cbn [unique_keys].
  - split; [constructor|]. split; [by intros ? ?%elem_of_nil|done].
  - destruct (fresh_key_fresh used column) as (m & E & Hn & Hk). rewrite E.
    destruct (IH (sadd used (candidate column m))) as (Hd & Hf & Hc). split; [|split].
    + constructor; [|done]. intros Hin%Hf. apply Hin. apply sadd_elem. by left.
    + intros key [->|Hin]%elem_of_cons; [done|]. intros Hu. apply (Hf key Hin), sadd_elem. by right.
    + intros [|i] c Hi; cbn in Hi.
      * injection Hi as <-. exists (candidate column m), m. split; [done|]. split; [done|].
        intros k Hlt. apply elem_of_app. left. by apply Hk.
      * destruct (Hc i c Hi) as (key & n & Hkey & -> & Hlt). eexists _, n. split; [exact Hkey|]. split; [done|].
        intros k Hk'. specialize (Hlt k Hk'). cbn [take]. rewrite elem_of_app, sadd_elem in Hlt.
        rewrite elem_of_app, elem_of_cons. tauto.
Qed.

Lemma unique_keys_length used columns : length (unique_keys used columns) = length columns.
Proof. revert used. induction columns as [|c columns IH]; intros used; [done|]. cbn. by rewrite IH. Qed.

(** ** Records *)

Lemma insert_index_perm {A} n (e : jsstr * A) l : insert_index n e l ≡ₚ e :: l.
Proof.
  induction l as [|e' l IH]; [done|]. cbn. destruct (array_index e'.1) as [m|]; [|done].
  destruct (m <=? n)%Z; [|done]. rewrite IH. apply Permutation_swap.
Qed.

Lemma own_order_perm {A} (l : list (jsstr * A)) : own_order l ≡ₚ l.
Proof.
  induction l as [|e l IH]; [done|]. cbn. destruct (array_index e.1) as [n|].
  - by rewrite insert_index_perm, IH.
  - transitivity (e :: own_order l); [|by rewrite IH]. generalize (own_order l) as k. clear.
    induction k as [|e' k IH]; [done|]. destruct (array_index e'.1); [|done]. rewrite IH. apply Permutation_swap.
Qed.

Lemma record_fields keys r :
  NoDup keys -> exists fields, record keys r = VObj fields /\
    fields ≡ₚ imap (fun i key => (key, cell_or_null r i)) keys.
Proof.
  intros Hd. eexists. split; [done|]. rewrite own_order_perm, mof_fresh; [done|].
  unfold mkeys. change (map fst ?l) with (fst <$> l). rewrite fmap_imap.
  replace (imap _ keys) with keys; [done|]. rewrite <- (list_fmap_id keys) at 1. rewrite <- imap_const.
  by apply imap_ext.
Qed.

Definition cell_tree (kv : jsstr * value) (t : jsstr * raw) : Prop :=
  t.1 = json_string kv.1 /\ value_raw kv.2 = Ok (Some t.2).

Lemma object_tree fields :
  Forall (fun kv => wire kv.2 = true /\ kv.2 <> VUndefined) fields ->
  exists trees, value_raw (VObj fields) = Ok (Some (RObj trees)) /\ Forall2 cell_tree fields trees.
Proof.
  intros H. cbn [value_raw].
  match goal with |- context [mbind ?k ?m] =>
    enough (exists trees, m = Ok trees /\ Forall2 cell_tree fields trees) as (trees & -> & Ht) by eauto end.
  induction H as [|[k v] fields [Hw Hu] _ (trees & -> & Ht)]; [by exists []|]. cbn [snd] in *.
  destruct (wire_tree v Hw) as ([t|] & E & Hn & _); [|by destruct Hu; apply Hn].
  rewrite E. cbn [mbind res_bind]. eexists. split; [done|]. by constructor.
Qed.

Lemma cell_wire r i : forallb wire r = true -> wire (cell_or_null r i) = true /\ cell_or_null r i <> VUndefined.
Proof.
  intros Hr. unfold cell_or_null. destruct (r !! i) as [v|] eqn:E; [|done].
  apply list_elem_of_lookup_2 in E. rewrite forallb_elem in Hr. specialize (Hr v E). by destruct v.
Qed.

(** What the JSON text holds of a row: every cell under its own key, and nothing else. *)
Definition holds_row (keys : list jsstr) (r : list value) (t : raw) : Prop :=
  exists fields, t = RObj fields /\ NoDup (map fst fields) /\ length fields = length keys /\
    forall i key, keys !! i = Some key -> exists cell,
      value_raw (cell_or_null r i) = Ok (Some cell) /\ (json_string key, cell) ∈ fields.

Lemma json_string_inj s t : json_string s = json_string t -> s = t.
Proof.
  unfold json_string. intros [= E]. pose proof (read_json_body s []) as Hs. rewrite E, read_json_body in Hs. by simplify_eq.
Qed.

Lemma record_tree keys r :
  NoDup keys -> forallb wire r = true -> exists t, value_raw (record keys r) = Ok (Some t) /\ holds_row keys r t.
Proof.
  intros Hd Hr. destruct (record_fields keys r Hd) as (fields & -> & Hp).
  destruct (object_tree fields) as (trees & -> & Ht).
  { rewrite Hp. apply Forall_forall. intros [k v] Hin. apply elem_of_lookup_imap in Hin as (i & key & [= -> ->] & _).
    by apply cell_wire. }
  eexists. split; [done|]. exists trees. split; [done|].
  assert (map fst trees = map json_string (map fst fields)) as Ek.
  { clear Hp. induction Ht as [|kv t fields trees [E _] _ IH]; [done|]. cbn. by rewrite E, IH. }
  assert (map fst fields ≡ₚ keys) as Hk.
  { change (map fst fields) with (fst <$> fields). rewrite Hp, fmap_imap.
    replace (imap _ keys) with keys; [done|]. rewrite <- (list_fmap_id keys) at 1. rewrite <- imap_const. by apply imap_ext. }
  split; [|split].
  - rewrite Ek. change (map json_string ?l) with (json_string <$> l).
    apply NoDup_fmap_2; [intros ??; apply json_string_inj|]. by rewrite Hk.
  - rewrite <- (Forall2_length _ _ _ Ht), Hp, length_imap. done.
  - intros i key Hi. assert ((key, cell_or_null r i) ∈ fields) as Hin.
    { rewrite Hp. apply elem_of_lookup_imap. by exists i, key. }
    apply list_elem_of_lookup in Hin as [j Hj]. destruct (Forall2_lookup_l _ _ _ _ _ Ht Hj) as ([k c] & Hc & [Ej E]).
    cbn [fst snd] in Ej, E. subst k. exists c. split; [done|]. by eapply list_elem_of_lookup_2.
Qed.

Lemma records_tree keys rows :
  NoDup keys -> forallb (forallb wire) rows = true ->
  exists records, value_raw (VArr (map (record keys) rows)) = Ok (Some (RArr records)) /\
    Forall2 (holds_row keys) rows records.
Proof.
  intros Hd Hr. cbn [value_raw].
  match goal with |- context [mbind ?k ?m] =>
    enough (exists records, m = Ok records /\ Forall2 (holds_row keys) rows records) as (records & -> & Ht) by eauto end.
  induction rows as [|r rows IH]; [by exists []|]. cbn [forallb] in Hr. apply andb_true_iff in Hr as [Hr Hrs].
  destruct (record_tree keys r Hd Hr) as (t & Et & Ht). destruct (IH Hrs) as (records & Er & Hrec).
  cbn [map]. rewrite Et, Er. cbn [mbind res_bind default]. eexists. split; [done|]. by constructor.
Qed.

Lemma record_wire keys r : NoDup keys -> forallb wire r = true -> wire (record keys r) = true.
Proof.
  intros Hd Hr. destruct (record_fields keys r Hd) as (fields & -> & Hp). cbn. apply forallb_elem.
  intros [k v] Hin. rewrite Hp in Hin. apply elem_of_lookup_imap in Hin as (i & key & [= -> ->] & _).
  by apply cell_wire.
Qed.

Lemma keys_distinct columns : NoDup (uniqueColumnKeys columns).
Proof. apply unique_keys_fresh. Qed.

(** Both layouts, the compact one of large results too, are texts of the same tree. *)
Lemma json_export_parses columns rows :
  forallb (forallb wire) rows = true ->
  exists text records, jsonExportText columns rows = Ok (Some text) /\
    parse_json text = Some (RArr records) /\ Forall2 (holds_row (uniqueColumnKeys columns)) rows records.
Proof.
  intros Hw. set (keys := uniqueColumnKeys columns).
  destruct (records_tree keys rows (keys_distinct columns) Hw) as (records & E & Hr).
  assert (well_formed (RArr records) = true) as Hwf.
  { destruct (wire_tree (VArr (map (record keys) rows))) as (o & E' & _ & Ho).
    - pose proof (proj1 (forallb_elem _ _) Hw) as Hw'. cbn. apply forallb_elem.
      intros v (r & -> & Hin)%list_elem_of_fmap. apply record_wire; [apply keys_distinct|by apply Hw'].
    - rewrite E in E'. injection E' as <-. by apply Ho. }
  exists (write (negb (5000 <? length rows)) 0 (RArr records)), records. split; [|split; [by apply parse_write|done]].
  unfold jsonExportText, toJson, JSON_stringify. fold keys. rewrite E. by destruct (5000 <? length rows).
Qed.

(** ** Exports never throw *)

Lemma res_map_total {E A B} (f : A -> res E B) l :
  (forall a, a ∈ l -> exists b, f a = Ok b) -> exists bs, res_map f l = Ok bs.
Proof.
  induction l as [|a l IH]; intros H; [by exists []|]. destruct (H a) as [b Hb]; [by left|].
  destruct IH as [bs Hbs]; [intros; apply H; by right|]. exists (b :: bs). cbn. rewrite Hb. cbn. by rewrite Hbs.
Qed.

Lemma field_total v : wire v = true -> exists s, field_text v = Ok s.
Proof.
  intros Hw. enough (exists s, value_text v = Ok s) as [s E] by (unfold field_text; rewrite E; eexists; done).
  destruct (wire_tree v Hw) as (o & E & _). destruct v; try (by eexists);
    (cbn [value_text]; rewrite stringify_compact; unfold JSON_stringify; rewrite E; by eexists).
Qed.

Lemma cells_total rows :
  forallb (forallb wire) rows = true -> exists cells, res_map (res_map field_text) rows = Ok cells.
Proof.
  rewrite forallb_elem. intros Hw. apply res_map_total. intros r Hr. apply res_map_total. intros v Hv.
  apply field_total. specialize (Hw r Hr). rewrite forallb_elem in Hw. auto.
Qed.

Lemma rows_wire_cells rows : forallb (forallb wire) rows = true -> forallb (forallb wire_cell) rows = true.
Proof.
  rewrite !forallb_elem. intros Hw r Hr. specialize (Hw r Hr). rewrite forallb_elem in *. auto using wire_is_cell.
Qed.

(** ** Properties *)

(** Re-indenting JSON text for the clipboard ([prettyJsonText]), which works on the
    characters alone, never throws and gives exactly the indented text of the value that the
    text denotes when that is one object or array, and nothing otherwise; the new text denotes
    the same value, with every number written with the same digits. *)
Theorem reindenting_keeps_the_value (text : jsstr) :
  prettyJsonText text = Ok (option_map (write true 0) (parse_container (trim text))) /\
  (forall v, parse_container (trim text) = Some v ->
     parse_json (trim text) = Some v /\ parse_json (write true 0 v) = Some v).
Proof.
  split; [apply pretty_is_indented|]. unfold parse_container. intros v H.
  destruct (parse_json (trim text)) as [w|] eqn:E; [|done].
  assert (w = v) as -> by (destruct w; congruence). split; [done|].
  apply parse_write. by eapply parse_well_formed.
Qed.
Lemma reindenting_witness :
  exists v, parse_container (trim sample) = Some v /\ parse_json (write true 0 v) = Some v.
Proof.
  eexists. split; [vm_compute; reflexivity|].
  exact (proj2 (proj2 (reindenting_keeps_the_value sample) _ eq_refl)).
Defined.

Lemma tables_read (columns : list jsstr) (rows : list (list value)) :
  columns <> [] -> Forall (fun r => r <> []) rows -> forallb (forallb wire) rows = true ->
  exists cells csv tsv, res_map (res_map field_text) rows = Ok cells /\
    csvExportText columns rows = Ok (BOM :: csv) /\
    read_table cCOMMA csv = map spreadsheetSafeText columns :: csv_records cells /\
    toTsv columns rows = Ok tsv /\
    read_table cTAB tsv = map spreadsheetSafeText columns :: cells.
Proof.
  intros Hc Hr Hw. destruct (cells_total rows Hw) as [cells E]. pose proof (cells_shape _ _ E Hr) as Hne.
  assert (map spreadsheetSafeText columns <> []) as Hh by by destruct columns.
  exists cells, (csv_text (map spreadsheetSafeText columns) cells),
    (join [cLF] (map (line cTAB) (map spreadsheetSafeText columns :: cells))).
  split; [done|]. unfold csvExportText. rewrite toCsv_cells, toTsv_cells, E. split; [done|].
  split; [by apply csv_text_reads|]. split; [done|].
  apply table_reads_back; [done|by left|by constructor].
Qed.

(** The field [f] tells the cell [v]: NULL is empty, a text is itself or itself behind an
    apostrophe, which only a formula gets, any other scalar is its own text and a container
    is JSON text that denotes it. *)
Definition field_tells (v : value) (f : jsstr) : Prop :=
  match v with
  | VUndefined | VNull => f = []
  | VBool b => f = (if b then js "true" else js "false")
  | VNum t => f = t
  | VBigInt n => f = show_Z n
  | VStr t => guarded t f
  | VArr _ | VObj _ => exists tree, value_raw v = Ok (Some tree) /\ parse_json f = Some tree
  end.

Lemma field_text_tells v f : wire v = true -> field_text v = Ok f -> field_tells v f.
Proof.
  intros Hw. destruct (wire_tree v Hw) as (o & E & Ho & Hwf). unfold field_text.
  assert (o <> None -> stringify v = Ok (option_map (write false 0) o) ->
    exists t, stringify v = Ok (Some t) /\ exists tree, value_raw v = Ok (Some tree) /\ parse_json t = Some tree) as Hc.
  { intros Hne Hs. destruct o as [tree|]; [|done]. exists (write false 0 tree). split; [done|].
    exists tree. split; [done|]. by apply parse_write, Hwf. }
  assert (stringify v = Ok (option_map (write false 0) o)) as Hs by (rewrite stringify_compact; unfold JSON_stringify; by rewrite E).
  destruct v as [| |b|t|n|t|items|fields]; cbn [value_text mbind res_bind field_tells]; try (by intros [= <-]).
  - intros [= <-]. apply safe_text_guarded.
  - destruct Hc as (t & Ht & Hp); [intros ->; by specialize (Ho eq_refl)|done|]. rewrite Ht. by intros [= <-].
  - destruct Hc as (t & Ht & Hp); [intros ->; by specialize (Ho eq_refl)|done|]. rewrite Ht. by intros [= <-].
Qed.

Lemma cells_tell rows cells :
  forallb (forallb wire) rows = true -> res_map (res_map field_text) rows = Ok cells ->
  Forall2 (Forall2 field_tells) rows cells.
Proof.
  intros Hw H%res_map_ok. induction H as [|r c rows cells Hr _ IH]; [constructor|].
  cbn [forallb] in Hw. apply andb_true_iff in Hw as [Hw Hws]. constructor; [|by apply IH].
  apply res_map_ok in Hr. clear IH Hws. induction Hr as [|v s r c Hv _ IHr]; [constructor|].
  cbn [forallb] in Hw. apply andb_true_iff in Hw as [Hw Hw']. constructor; [by apply field_text_tells|by apply IHr].
Qed.

Lemma heads_guarded columns : Forall2 guarded columns (map spreadsheetSafeText columns).
Proof. induction columns as [|c columns IH]; constructor; [apply safe_text_guarded|done]. Qed.

(** C33: The CSV text of a result read by a spreadsheet gives back its column names and every
    cell, record by record, whatever separators, quotes and line breaks they contain: a name or
    a text comes back as it is, or behind one apostrophe if it starts with a formula
    character; a number, a boolean and NULL come back as their own text, an object or array as
    JSON text that denotes it. The only loss is that a result of one record with one empty
    field loses that record. The text copied to the clipboard reads back as the same fields,
    without exception. Exporting wire values never throws. *)
Theorem tables_read_back (columns : list jsstr) (rows : list (list value)) :
  columns <> [] -> Forall (fun r => r <> []) rows -> forallb (forallb wire) rows = true ->
  exists heads cells csv tsv,
    Forall2 guarded columns heads /\ Forall2 (Forall2 field_tells) rows cells /\
    csvExportText columns rows = Ok (BOM :: csv) /\
    read_table cCOMMA csv = heads :: (if decide (cells = [[[]]]) then [] else cells) /\
    toTsv columns rows = Ok tsv /\
    read_table cTAB tsv = heads :: cells.
Proof.
  intros Hc Hr Hw. destruct (tables_read columns rows Hc Hr Hw) as (cells & csv & tsv & E & H1 & H2 & H3 & H4).
  exists (map spreadsheetSafeText columns), cells, csv, tsv. split; [apply heads_guarded|].
  split; [by apply cells_tell|]. done.
Qed.

Definition sample_columns : list jsstr := [js "id"; js "note"; js "note"].
Definition sample_rows : list (list value) :=
  [[VNum (js "1"); VStr (js "=HYPERLINK(1)"); VStr (js "a,b")];
   [VNum (js "-2.5e3"); VNull; VArr [VBool true; VObj [(js "k", VStr [cDQ; cLF])]]]].
Lemma tables_witness :
  (sample_columns <> [] /\ Forall (fun r => r <> []) sample_rows /\ forallb (forallb wire) sample_rows = true) /\
  exists heads cells csv tsv,
    Forall2 guarded sample_columns heads /\ Forall2 (Forall2 field_tells) sample_rows cells /\
    csvExportText sample_columns sample_rows = Ok (BOM :: csv) /\
    read_table cCOMMA csv = heads :: (if decide (cells = [[[]]]) then [] else cells) /\
    toTsv sample_columns sample_rows = Ok tsv /\
    read_table cTAB tsv = heads :: cells.
Proof.
  assert (Forall (fun r => r <> []) sample_rows) as Hr by by repeat constructor.
  split; [by vm_compute|]. refine (tables_read_back sample_columns sample_rows _ Hr _); by vm_compute.
Defined.

(** A name that starts with a formula character comes back behind an apostrophe, unless it is
    what a database writes. *)
Example guarded_names_read_back :
  forall csv, toCsv [js "-x"; js "-1 day"; js "=1"] [] = Ok csv ->
  read_table cCOMMA csv = [[js "'-x"; js "-1 day"; js "'=1"]].
Proof. intros csv [= <-]. by vm_compute. Qed.

(** The record that is lost: one row whose only cell is NULL. *)
Example empty_record_is_lost :
  csvExportText [js "deleted_at"] [[VNull]] = csvExportText [js "deleted_at"] []
  /\ toTsv [js "deleted_at"] [[VNull]] <> toTsv [js "deleted_at"] [].
Proof. by vm_compute. Qed.

(** C34: No field of an exported or copied table runs as a formula in a spreadsheet: every field
    that comes back either starts with none of [= + - @], a tab or a carriage return, or is
    exactly what a database writes for a signed number, an infinity, an interval of years,
    months and days with an optional time, or a time of day. *)
Theorem exported_fields_are_inert (columns : list jsstr) (rows : list (list value)) (csv tsv : jsstr) :
  columns <> [] -> Forall (fun r => r <> []) rows -> forallb (forallb wire) rows = true ->
  csvExportText columns rows = Ok (BOM :: csv) -> toTsv columns rows = Ok tsv ->
  Forall (Forall inert_field) (read_table cCOMMA csv) /\ Forall (Forall inert_field) (read_table cTAB tsv).
Proof.
  intros Hc Hr Hw. destruct (tables_read columns rows Hc Hr Hw) as (cells & csv' & tsv' & E & -> & Hcsv & -> & Htsv).
  intros [= <-] [= <-]. rewrite Hcsv, Htsv.
  assert (Forall inert_field (map spreadsheetSafeText columns)) as Hh.
  { apply Forall_forall. intros s (c & -> & _)%list_elem_of_fmap. apply safe_text_inert. }
  pose proof (cells_inert _ _ (rows_wire_cells _ Hw) E) as Hi.
  unfold csv_records. destruct (decide _); by repeat constructor.
Qed.
Definition sample_csv : jsstr := Eval vm_compute in
  match csvExportText sample_columns sample_rows with Ok (_ :: s) => s | _ => [] end.
Definition sample_tsv : jsstr := Eval vm_compute in
  match toTsv sample_columns sample_rows with Ok s => s | _ => [] end.
Lemma inert_witness :
  csvExportText sample_columns sample_rows = Ok (BOM :: sample_csv) /\
  Forall (Forall inert_field) (read_table cCOMMA sample_csv) /\
  Forall (Forall inert_field) (read_table cTAB sample_tsv).
Proof.
  assert (Forall (fun r => r <> []) sample_rows) as Hr by by repeat constructor.
  split; [vm_compute; reflexivity|].
  refine (exported_fields_are_inert sample_columns sample_rows sample_csv sample_tsv _ Hr _ _ _); by vm_compute.
Defined.

(** The JSON export of any table of wire values succeeds, below and above the size at which
    it drops the indentation, and its text denotes one object per row in which every cell is
    found under the key of its column and nothing else is; the keys are distinct, and each is
    the first of the column's name, the name with _2, _3, ... that no earlier column has. *)
Theorem json_export_reads_back (columns : list jsstr) (rows : list (list value)) :
  forallb (forallb wire) rows = true ->
  NoDup (uniqueColumnKeys columns) /\
  (forall i column, columns !! i = Some column -> exists n,
     uniqueColumnKeys columns !! i = Some (candidate column n) /\
     forall k, k < n -> candidate column k ∈ take i (uniqueColumnKeys columns)) /\
  exists text records, jsonExportText columns rows = Ok (Some text) /\
    parse_json text = Some (RArr records) /\ Forall2 (holds_row (uniqueColumnKeys columns)) rows records.
Proof.
  intros Hw. destruct (unique_keys_fresh [] columns) as (Hd & _ & Hc). split; [exact Hd|]. split.
  - intros i column Hi. destruct (Hc i column Hi) as (key & n & Hk & -> & Hn). exists n. by split.
  - by apply json_export_parses.
Qed.
Lemma json_export_witness :
  forallb (forallb wire) sample_rows = true /\
  exists text records, jsonExportText sample_columns sample_rows = Ok (Some text) /\
    parse_json text = Some (RArr records) /\
    Forall2 (holds_row (uniqueColumnKeys sample_columns)) sample_rows records.
Proof.
  split; [by vm_compute|].
  refine (proj2 (proj2 (json_export_reads_back sample_columns sample_rows _))). by vm_compute.
Defined.
