(* ===== verification/ResultExport.v ===== *)
(** * Exports of stored results

    [src/features/queryResults/resultExports.ts] with [exportSqlResult] of
    [src/features/queries/tauriAdapter.ts]: the registry of running exports that outlives
    the toolbars, the controller of one export, the save of rows the renderer holds, and
    the reason shown for a failure. The native core's answers and messages, and the
    turns of the promise chain, are inputs; a turn runs only when its promise is settled,
    so a list of inputs is an interleaving. *)

From S2P Require Import Prelude JsString Regex JsMap JsText JsValue Access JsonTree ResultText.
From Stdlib Require String.
Import Stdlib.Strings.String.StringSyntax.

(** ** One export *)

Record Progress := mkProgress { pg_rowsWritten : nat; pg_totalRows : nat }.
Record Receipt := mkReceipt {
  rc_exportId : jsstr; rc_operationId : jsstr; rc_rowsWritten : nat; rc_fileName : option jsstr }.

(** The errors of [completion]: an incomplete handle, a foreign receipt, the native core's. *)
Inductive export_error := err_incomplete | err_owner | err_native (e : value).

(** How [completion] settles. *)
Inductive completion := Resolved (receipt : option Receipt) | Rejected (e : export_error).

Inductive ResultExportOutcome :=
| completed (rowsWritten : nat) (fileName : option jsstr)
| dismissed
| cancelled
| failed (e : export_error).

(** The promise chain of a started export: its native command runs, [completion] is
    settled, the outcome is known, [onDone] has been called. *)
Inductive chain := Writing | Settled (c : completion) | Known (o : ResultExportOutcome) | Over.

(** [exportSqlResult]: an incomplete handle starts no native command. *)
Record run := mkRun { rn_operation : jsstr; rn_exportId : jsstr; rn_native : bool; rn_chain : chain }.

Definition truthy (s : option jsstr) : bool := match s with Some s => non_empty s | None => false end.

Definition exportSqlResult (operationId : jsstr) (capability : option jsstr) (uuid : jsstr) : run :=
  if truthy capability then mkRun operationId uuid true Writing
  else mkRun operationId [] false (Settled (Rejected err_incomplete)).

(** The [.then] of [exportSqlResult]: a receipt of another export is refused. *)
Definition owned (r : run) (a : completion) : completion :=
  match a with
  | Resolved (Some receipt) =>
    if negb (bool_decide (rc_exportId receipt = rn_exportId r))
       || negb (bool_decide (rc_operationId receipt = rn_operation r))
    then Rejected err_owner else a
  | _ => a
  end.

(** ** The registry *)

(** [controller] is the position of its run in [rg_runs]. *)
Record ActiveExport := mkActive {
  ae_controller : nat; ae_title : jsstr; ae_startedAt : Z;
  ae_progress : option Progress; ae_cancelled : bool }.

Record ResultExportTask := mkTask {
  tk_operationId : jsstr; tk_title : jsstr; tk_startedAt : Z;
  tk_rowsWritten : nat; tk_totalRows : nat; tk_cancelled : bool }.

Record registry := mkRegistry {
  rg_active : list (jsstr * ActiveExport);
  rg_tasks : list ResultExportTask;                 (* [writingTasks] *)
  rg_runs : list run;                               (* every export that was started *)
  rg_done : list (nat * ResultExportOutcome);       (* the calls of [onDone], newest first *)
  rg_stops : list nat }.                            (* the native cancellations sent *)

Definition initial : registry := mkRegistry [] [] [] [] [].

Definition with_run (g : registry) (i : nat) (r : run) : registry :=
  mkRegistry (rg_active g) (rg_tasks g) (<[i := r]> (rg_runs g)) (rg_done g) (rg_stops g).
Definition with_chain (r : run) (c : chain) : run := mkRun (rn_operation r) (rn_exportId r) (rn_native r) c.

(** The tasks of the status bar: the exports that are writing rows. *)
Definition task_of (e : jsstr * ActiveExport) : list ResultExportTask :=
  match ae_progress e.2 with
  | Some p => [mkTask e.1 (ae_title e.2) (ae_startedAt e.2) (pg_rowsWritten p) (pg_totalRows p) (ae_cancelled e.2)]
  | None => []
  end.
Definition notify (active : list (jsstr * ActiveExport)) (g : registry) : registry :=
  mkRegistry active (flat_map task_of active) (rg_runs g) (rg_done g) (rg_stops g).

Definition startResultExport (operationId capability : option jsstr) (suggestedName uuid : jsstr) (now : Z)
    (g : registry) : registry * bool :=
  match operationId with
  | None => (g, false)
  | Some operationId =>
    if negb (non_empty operationId) || mhas (rg_active g) operationId then (g, false)
    else
      let controller := length (rg_runs g) in
      let g := mkRegistry (rg_active g) (rg_tasks g)
                 (rg_runs g ++ [exportSqlResult operationId capability uuid]) (rg_done g) (rg_stops g) in
      (notify (mset (rg_active g) operationId (mkActive controller suggestedName now None false)) g, true)
  end.

(** The [onProgress] closure of a run; the channel is muted once the command has ended. *)
Definition on_progress (i : nat) (progress : Progress) (g : registry) : registry :=
  match rg_runs g !! i with
  | Some (mkRun operationId _ true Writing) =>
    match mget (rg_active g) operationId with
    | Some current =>
      if negb (ae_controller current =? i) then g
      else notify (mset (rg_active g) operationId
             (mkActive (ae_controller current) (ae_title current) (ae_startedAt current)
                (Some progress) (ae_cancelled current))) g
    | None => g
    end
  | _ => g
  end.

(** The native command ends. *)
Definition on_answer (i : nat) (a : completion) (g : registry) : registry :=
  match rg_runs g !! i with
  | Some (mkRun _ _ true Writing as r) => with_run g i (with_chain r (Settled (owned r a)))
  | _ => g
  end.

(** The [.then] and [.catch] that turn the completion into an outcome. *)
Definition outcome_of (cancelled_now : bool) (c : completion) : ResultExportOutcome :=
  match c with
  | Resolved (Some receipt) => completed (rc_rowsWritten receipt) (rc_fileName receipt)
  | Resolved None => dismissed
  | Rejected e => if cancelled_now then cancelled else failed e
  end.
Definition on_settled (i : nat) (g : registry) : registry :=
  match rg_runs g !! i with
  | Some (mkRun operationId _ _ (Settled c) as r) =>
    let cancelled_now :=
      match mget (rg_active g) operationId with Some e => ae_cancelled e | None => false end in
    with_run g i (with_chain r (Known (outcome_of cancelled_now c)))
  | _ => g
  end.

(** The last [.then]: the entry goes, then [onDone] is called. *)
Definition on_known (i : nat) (g : registry) : registry :=
  match rg_runs g !! i with
  | Some (mkRun operationId _ _ (Known o) as r) =>
    let g :=
      match mget (rg_active g) operationId with
      | Some e => if ae_controller e =? i then notify (mdel (rg_active g) operationId) g else g
      | None => g
      end in
    let g := with_run g i (with_chain r Over) in
    mkRegistry (rg_active g) (rg_tasks g) (rg_runs g) ((i, o) :: rg_done g) (rg_stops g)
  | _ => g
  end.

Definition cancelResultExport (operationId : option jsstr) (g : registry) : registry :=
  match operationId with
  | None => g
  | Some operationId =>
    if negb (non_empty operationId) then g
    else
      match mget (rg_active g) operationId with
      | None => g
      | Some current =>
        let g := notify (mset (rg_active g) operationId
                   (mkActive (ae_controller current) (ae_title current) (ae_startedAt current)
                      (ae_progress current) true)) g in
        let native := match rg_runs g !! ae_controller current with Some r => rn_native r | None => false end in
        mkRegistry (rg_active g) (rg_tasks g) (rg_runs g) (rg_done g)
          (if native then ae_controller current :: rg_stops g else rg_stops g)
      end
  end.

Inductive export_input :=
| x_start (operationId capability : option jsstr) (suggestedName uuid : jsstr) (now : Z)
| x_cancel (operationId : option jsstr)
| x_progress (controller : nat) (progress : Progress)
| x_answer (controller : nat) (a : completion)
| x_settled (controller : nat)
| x_known (controller : nat).

Definition export_step (g : registry) (x : export_input) : registry :=
  match x with
  | x_start op cap name uuid now => (startResultExport op cap name uuid now g).1
  | x_cancel op => cancelResultExport op g
  | x_progress i p => on_progress i p g
  | x_answer i a => on_answer i a g
  | x_settled i => on_settled i g
  | x_known i => on_known i g
  end.

Definition export_run (xs : list export_input) : registry := foldl export_step initial xs.

(** [useResultExportProgress], [useResultExportActive] *)
Definition useResultExportProgress (g : registry) (operationId : option jsstr) : option Progress :=
  match operationId with
  | Some op => if non_empty op then match mget (rg_active g) op with Some e => ae_progress e | None => None end else None
  | None => None
  end.
Definition useResultExportActive (g : registry) (operationId : option jsstr) : bool :=
  match operationId with Some op => non_empty op && mhas (rg_active g) op | None => false end.

(** ** Rows the renderer holds *)

Definition RENDERER_EXPORT_MAX_BYTES : Z := 64 * 1024 * 1024.
Definition RENDERER_EXPORT_MAX_MIB : Z := RENDERER_EXPORT_MAX_BYTES / 1024 / 1024.

Definition exceedsRendererExportLimit (text : jsstr) : bool :=
  let len := Z.of_nat (length text) in
  if (RENDERER_EXPORT_MAX_BYTES <? len)%Z then true
  else if (len * 3 <=? RENDERER_EXPORT_MAX_BYTES)%Z then false
  else (RENDERER_EXPORT_MAX_BYTES <? Z.of_nat (utf8_length text))%Z.

(** The reasons shown for a failed export, by their message key. *)
Inductive export_message :=
| exportBlockedDecode (row column type : jsstr)
| exportBlockedTruncated (row column : jsstr)
| exportAuthorityChanged
| exportTooLarge (limit : Z)
| exportDestinationRefused
| exportExpired
| exportFailed.

Definition rrow_column : re :=
  RSeqs [RLit (js "row "); RPlus (RCls is_digit); RLit (js ", column "); RPlus (RCls is_digit)].
Definition line_unit (c : N) : bool := negb ((c =? cLF) || (c =? cCR) || (c =? 8232) || (c =? 8233))%N.
Definition rdecode : re :=
  RSeqs [rrow_column; RLit (js " could not be decoded as "); RPlus (RCls line_unit); REol].
Definition rshortened : re := RSeq rrow_column (RLit (js " was shortened")).
Definition rmissing : re := RAlt (RLitI (js "no such file")) (RLitI (js "not found")).

(** The groups of a match that starts at [i]: the two runs of digits, and the position after
    them. *)
Definition digits_at (s : jsstr) (i : nat) : jsstr := take (run_len is_digit (drop i s)) (drop i s).
Definition row_column (s : jsstr) (i : nat) : jsstr * jsstr * nat :=
  let row := digits_at s (i + 4) in
  let after := i + 4 + length row + 9 in
  let column := digits_at s after in
  (row, column, after + length column).

(** [error.kind] and [error.message], when [error] is an object. *)
Definition error_field (k : jsstr) (error : value) : option jsstr :=
  match error with VObj fields => recordString fields k | _ => None end.

Definition resultExportErrorMessage (error : value) : export_message :=
  let kind := default [] (error_field (js "kind") error) in
  let message := default [] (error_field (js "message") error) in
  let blocked := bool_decide (kind = js "blocked") in
  match search rdecode message 0, search rshortened message 0 with
  | Some (i, _), _ =>
    let '(row, column, after) := row_column message i in
    exportBlockedDecode row column (drop (after + length (js " could not be decoded as ")) message)
  | None, Some (i, _) => let '(row, column, _) := row_column message i in exportBlockedTruncated row column
  | None, None =>
    if blocked && includes message (js "authority changed") then exportAuthorityChanged
    else if blocked && includes message (js "larger than one in-memory save")
    then exportTooLarge RENDERER_EXPORT_MAX_MIB
    else if blocked && includes message (js "destination is not a regular file") then exportDestinationRefused
    else if bool_decide (kind = js "notFound") || (bool_decide (kind = js "io") && test rmissing message)
    then exportExpired
    else exportFailed
  end.

Inductive export_toast :=
| toast_error (m : export_message)
| toast_saved (count : nat) (file : jsstr)
| toast_saved_no_name (count : nat).

Inductive export_format := format_csv | format_json.

(** [saveRendererExport]: the native save, asked only within the limit, answers with the
    name of the file, with null when the dialog was dismissed, or fails. *)
Inductive save_answer := Saved (fileName : option jsstr) | SaveFailed (error : value).

Definition renderer_text (format : export_format) (columns : list jsstr) (rows : list (list value)) : res unit jsstr :=
  match format with
  | format_csv => csvExportText columns rows
  | format_json => t ← jsonExportText columns rows; Ok (default [] t)
  end.

(** The text given to the native save, if it is asked, and the toast, if one is shown. *)
Definition saveRendererExport (save : jsstr -> save_answer) (format : export_format)
    (columns : list jsstr) (rows : list (list value)) : res unit (option jsstr * option export_toast) :=
  text ← renderer_text format columns rows;
  if exceedsRendererExportLimit text
  then Ok (None, Some (toast_error (exportTooLarge RENDERER_EXPORT_MAX_MIB)))
  else
    Ok (Some text,
      match save text with
      | Saved None => None
      | Saved (Some fileName) =>
        Some (if non_empty fileName then toast_saved (length rows) fileName else toast_saved_no_name (length rows))
      | SaveFailed error => Some (toast_error (resultExportErrorMessage error))
      end).

Definition native_error (kind message : jsstr) : value := VObj [(js "kind", VStr kind); (js "message", VStr message)].
Example export_messages :
  map resultExportErrorMessage
    [native_error (js "decode") (js "cell at row 12, column 3 could not be decoded as numeric(10,2)");
     native_error (js "x") (js "row 7, column 1 was shortened to fit");
     native_error (js "blocked") (js "the authority changed"); native_error (js "notFound") [];
     native_error (js "io") (js "No Such File"); native_error (js "io") (js "disk full"); VNull]
  = [exportBlockedDecode (js "12") (js "3") (js "numeric(10,2)"); exportBlockedTruncated (js "7") (js "1");
     exportAuthorityChanged; exportExpired; exportExpired; exportFailed; exportFailed].
Proof. vm_compute. done. Qed.

Definition op1 : option jsstr := Some (js "op1").
Example export_sample :
  let g := export_run [x_start op1 (Some (js "c")) (js "a.csv") (js "u1") 5; x_start op1 (Some (js "c")) (js "b") (js "u2") 6;
                       x_progress 0 (mkProgress 10 100); x_cancel op1; x_answer 0 (Rejected (err_native VNull));
                       x_settled 0; x_known 0; x_start op1 None (js "c") (js "u3") 9] in
  rg_done g = [(0, cancelled)] /\ rg_stops g = [0] /\ length (rg_runs g) = 2
  /\ useResultExportActive g op1 = true /\ rg_tasks g = [].
Proof. vm_compute. done. Qed.
