(* ===== verification/ResultExportInv.v ===== *)
(** * Every export ends once

    The registry of exports ([ResultExport]): an entry for every export that is running and
    for no other, one call of [onDone] per export, a cancelled outcome only after a request
    of the user, and the operation free again afterwards; and the size limit of the texts
    the renderer builds. *)

From S2P Require Import Prelude JsString JsMap JsValue Access ResultText ResultExport.
From Stdlib Require String.
Import Stdlib.Strings.String.StringSyntax.

(** ** The invariant *)

Definition over (r : run) : Prop := rn_chain r = Over.

Record consistent (g : registry) : Prop := mkConsistent {
  cs_entries : forall op e, mget (rg_active g) op = Some e ->
    exists r, rg_runs g !! ae_controller e = Some r /\ rn_operation r = op /\ ~ over r;
  cs_runs : forall i r, rg_runs g !! i = Some r -> ~ over r ->
    exists e, mget (rg_active g) (rn_operation r) = Some e /\ ae_controller e = i;
  cs_keys : NoDup (mkeys (rg_active g));
  cs_tasks : rg_tasks g = flat_map task_of (rg_active g);
  cs_once : NoDup (map fst (rg_done g));
  cs_done : forall i, i ∈ map fst (rg_done g) <-> exists r, rg_runs g !! i = Some r /\ over r;
  cs_flag : forall op e r, mget (rg_active g) op = Some e -> ae_cancelled e = true ->
    rg_runs g !! ae_controller e = Some r -> rn_native r = true -> ae_controller e ∈ rg_stops g;
  cs_known : forall i r, rg_runs g !! i = Some r -> rn_chain r = Known cancelled ->
    rn_native r = true -> i ∈ rg_stops g;
  cs_cancelled : forall i r, (i, cancelled) ∈ rg_done g -> rg_runs g !! i = Some r ->
    rn_native r = true -> i ∈ rg_stops g }.

Lemma initial_consistent : consistent initial.
Proof. constructor; cbn; try done; try constructor; set_solver. Qed.

Lemma mget_active_mset {V} (m : list (jsstr * V)) k v k' v' :
  mget (mset m k v) k' = Some v' -> (k' = k /\ v' = v) \/ (k' <> k /\ mget m k' = Some v').
Proof. rewrite mget_set. destruct (decide (k' = k)); [intros [= <-]; by left|by right]. Qed.

(** A new value of an entry that keeps its controller. *)
Lemma update_entry g op e e' stops :
  consistent g -> mget (rg_active g) op = Some e -> ae_controller e' = ae_controller e ->
  (ae_cancelled e' = true -> ae_cancelled e = true \/
     forall r, rg_runs g !! ae_controller e = Some r -> rn_native r = true -> ae_controller e ∈ stops) ->
  (forall i, i ∈ rg_stops g -> i ∈ stops) ->
  consistent (mkRegistry (mset (rg_active g) op e') (flat_map task_of (mset (rg_active g) op e'))
                (rg_runs g) (rg_done g) stops).
Proof.
  intros H He Hc Hf Hs. constructor; cbn.
  - intros op' e1 [[-> ->]|[_ H1]]%mget_active_mset; [rewrite Hc|]; by apply (cs_entries g H).
  - intros i r Hr Ho. destruct (cs_runs g H i r Hr Ho) as (e1 & H1 & <-). rewrite mget_set.
    destruct (decide (rn_operation r = op)) as [E|]; [|by exists e1]. exists e'. split; [done|].
    rewrite E, He in H1. injection H1 as <-. done.
  - apply mset_NoDup, (cs_keys g H).
  - done.
  - apply (cs_once g H).
  - apply (cs_done g H).
  - intros op' e1 r [[-> ->]|[_ H1]]%mget_active_mset Hcan Hr Hn.
    + rewrite Hc in *. destruct (Hf Hcan) as [Hold|Hall]; [|by eapply Hall]. by eapply Hs, (cs_flag g H).
    + by eapply Hs, (cs_flag g H).
  - intros i r Hr Hk Hn. eapply Hs, (cs_known g H); done.
  - intros i r Hd Hr Hn. eapply Hs, (cs_cancelled g H); done.
Qed.

Lemma start_consistent op cap name uuid now g :
  consistent g -> consistent (startResultExport op cap name uuid now g).1.
Proof.
  intros H. unfold startResultExport. destruct op as [op|]; [|done].
  destruct (negb (non_empty op) || mhas (rg_active g) op) eqn:E; [done|]. apply orb_false_iff in E as [_ Hfree].
  assert (mget (rg_active g) op = None) as Hnone by (unfold mhas in Hfree; by destruct (mget _ op)).
  set (r0 := exportSqlResult op cap uuid). set (e0 := mkActive (length (rg_runs g)) name now None false).
  assert (~ over r0 /\ rn_operation r0 = op /\ rn_chain r0 <> Known cancelled) as (Hr0 & Hop0 & Hk0).
  { unfold r0, exportSqlResult, over. by destruct (truthy cap). }
  assert (forall i r, (rg_runs g ++ [r0]) !! i = Some r ->
    rg_runs g !! i = Some r \/ (i = length (rg_runs g) /\ r = r0)) as Hlast.
  { intros i r [Hi|[Hi Hr]]%lookup_app_Some; [by left|]. right. apply list_lookup_singleton_Some in Hr as [? ->].
    split; [lia|done]. }
  assert (forall i r, rg_runs g !! i = Some r -> (rg_runs g ++ [r0]) !! i = Some r) as Hkeep
    by (intros; by apply lookup_app_l_Some).
  cbn [fst]. constructor; cbn.
  - intros op' e [[-> ->]|[Hne He]]%mget_active_mset.
    + exists r0. split; [|done]. cbn. by rewrite lookup_app_r, Nat.sub_diag by lia.
    + destruct (cs_entries g H op' e He) as (r & Hr & Hrest). eauto.
  - intros i r [Hr|[-> ->]]%Hlast Ho.
    + destruct (cs_runs g H i r Hr Ho) as (e & He & Hc). exists e. split; [|done].
      rewrite mget_set_ne; [done|]. intros E. by rewrite E, Hnone in He.
    + exists e0. rewrite Hop0, mget_set_eq. done.
  - apply mset_NoDup, (cs_keys g H).
  - done.
  - apply (cs_once g H).
  - intros i. rewrite (cs_done g H i). split; intros (r & Hr & Ho); [by eauto|].
    apply Hlast in Hr as [Hr|[_ ->]]; [eauto|done].
  - intros op' e r [[-> ->]|[Hne He]]%mget_active_mset Hcan Hr Hn; [done|].
    destruct (cs_entries g H op' e He) as (r' & Hr' & _). eapply (cs_flag g H); [done|done| |].
    + exact Hr'.
    + apply Hkeep in Hr'. congruence.
  - intros i r [Hr|[-> ->]]%Hlast Hk Hn; [|done]. by eapply (cs_known g H).
  - intros i r Hd Hr Hn. assert (i ∈ map fst (rg_done g)) as (r' & Hr' & _)%(cs_done g H)
      by (apply list_elem_of_fmap; by exists (i, cancelled)).
    eapply (cs_cancelled g H); [done|done|]. apply Hkeep in Hr'. congruence.
Qed.

Lemma progress_consistent i p g : consistent g -> consistent (on_progress i p g).
Proof.
  intros H. unfold on_progress. destruct (rg_runs g !! i) as [[op ? [] []]|]; try done.
  destruct (mget (rg_active g) op) as [e|] eqn:He; [|done]. destruct (negb _); [done|].
  apply (update_entry g op e); try done. auto.
Qed.

Lemma cancel_consistent op g : consistent g -> consistent (cancelResultExport op g).
Proof.
  intros H. unfold cancelResultExport. destruct op as [op|]; [|done]. destruct (negb _); [done|].
  destruct (mget (rg_active g) op) as [e|] eqn:He; [|done]. cbv zeta. cbn.
  apply (update_entry g op e); try done.
  - intros _. right. intros r -> ->. by left.
  - intros i Hi. case_match; [by right|done].
Qed.

(** A turn of the chain that is not the last. *)
Lemma chain_consistent g i r c :
  consistent g -> rg_runs g !! i = Some r -> ~ over r -> c <> Over ->
  (c = Known cancelled -> rn_native r = true -> i ∈ rg_stops g) ->
  consistent (with_run g i (with_chain r c)).
Proof.
  intros H Hr Hnot Hc Hk. pose proof (lookup_lt_Some _ _ _ Hr) as Hlt.
  assert (forall j s, <[i := with_chain r c]> (rg_runs g) !! j = Some s ->
    (j = i /\ s = with_chain r c) \/ (j <> i /\ rg_runs g !! j = Some s)) as Hget.
  { intros j s [(-> & <- & _)|[? ?]]%list_lookup_insert_Some; auto. }
  assert (forall j, i = j -> <[i := with_chain r c]> (rg_runs g) !! j = Some (with_chain r c)) as Hself
    by (intros j <-; by apply list_lookup_insert_eq).
  constructor; cbn.
  - intros op e He. destruct (cs_entries g H op e He) as (s & Hs & Hop & Ho).
    destruct (decide (i = ae_controller e)) as [E|].
    + exists (with_chain r c). rewrite <- E in Hs. split; [by apply Hself|]. split; [|done]. cbn. congruence.
    + exists s. by rewrite list_lookup_insert_ne.
  - intros j s [[-> ->]|[_ Hs]]%Hget Ho; [|by apply (cs_runs g H)]. by apply (cs_runs g H i r).
  - apply (cs_keys g H).
  - apply (cs_tasks g H).
  - apply (cs_once g H).
  - intros j. rewrite (cs_done g H j). split.
    + intros (s & Hs & Ho). destruct (decide (i = j)) as [<-|]; [congruence|]. exists s. by rewrite list_lookup_insert_ne.
    + intros (s & [[-> ->]|[_ Hs]]%Hget & Ho); [done|eauto].
  - intros op e s He Hcan Hs Hn. destruct (cs_entries g H op e He) as (s' & Hs' & _).
    eapply (cs_flag g H); [done|done|exact Hs'|]. apply Hget in Hs as [[E ->]|[_ Hs]]; [|congruence].
    cbn in Hn. rewrite E in Hs'. congruence.
  - intros j s [[-> ->]|[_ Hs]]%Hget; [cbn; auto|by apply (cs_known g H)].
  - intros j s Hd [[-> ->]|[_ Hs]]%Hget Hn; [|by eapply (cs_cancelled g H)].
    assert (i ∈ map fst (rg_done g)) as (r' & Hr' & Ho)%(cs_done g H)
      by (apply list_elem_of_fmap; by exists (i, cancelled)). congruence.
Qed.

Lemma answer_consistent i a g : consistent g -> consistent (on_answer i a g).
Proof.
  intros H. unfold on_answer. destruct (rg_runs g !! i) as [[op x [] []]|] eqn:Hr; try done.
  apply chain_consistent; done.
Qed.

Lemma settled_consistent i g : consistent g -> consistent (on_settled i g).
Proof.
  intros H. unfold on_settled. destruct (rg_runs g !! i) as [[op x n [|c|o|]]|] eqn:Hr; try done.
  apply chain_consistent; [done|done|done|done|]. cbn. intros Hk Hn.
  destruct (mget (rg_active g) op) as [e|] eqn:He.
  - destruct (cs_runs g H i _ Hr) as (e' & He' & Hc); [done|]. cbn in He'. rewrite He in He'. injection He' as <-.
    rewrite <- Hc. eapply (cs_flag g H); [exact He| |by rewrite Hc|done].
    destruct (ae_cancelled e); [done|]. by destruct c as [[]|].
  - by destruct c as [[]|].
Qed.

Lemma known_shape i g op x n o :
  consistent g -> rg_runs g !! i = Some (mkRun op x n (Known o)) ->
  on_known i g = mkRegistry (mdel (rg_active g) op) (flat_map task_of (mdel (rg_active g) op))
                   (<[i := mkRun op x n Over]> (rg_runs g)) ((i, o) :: rg_done g) (rg_stops g).
Proof.
  intros H Hr. unfold on_known. rewrite Hr. destruct (cs_runs g H i _ Hr) as (e & He & Hc); [done|].
  cbn in He. rewrite He, Hc, Nat.eqb_refl. done.
Qed.

Lemma known_consistent i g : consistent g -> consistent (on_known i g).
Proof.
  intros H. destruct (rg_runs g !! i) as [[op x n [|c|o|]]|] eqn:Hr; try (unfold on_known; by rewrite Hr).
  rewrite (known_shape i g op x n o) by done. pose proof (lookup_lt_Some _ _ _ Hr) as Hlt.
  destruct (cs_runs g H i _ Hr) as (e & He & Hc); [done|]. cbn in He.
  assert (forall j s, <[i := mkRun op x n Over]> (rg_runs g) !! j = Some s ->
    (j = i /\ s = mkRun op x n Over) \/ (j <> i /\ rg_runs g !! j = Some s)) as Hget.
  { intros j s [(-> & <- & _)|[? ?]]%list_lookup_insert_Some; auto. }
  assert (forall op' e', mget (mdel (rg_active g) op) op' = Some e' ->
    op' <> op /\ mget (rg_active g) op' = Some e' /\ ae_controller e' <> i) as Hdel.
  { intros op' e' H1. rewrite mget_del in H1. destruct (decide (op' = op)) as [|Hne]; [done|].
    split; [done|]. split; [done|]. intros E. destruct (cs_entries g H op' e' H1) as (s & Hs & Hop & _).
    rewrite E, Hr in Hs. injection Hs as <-. by cbn in Hop. }
  assert (i ∉ map fst (rg_done g)) as Hnew by (intros (s & Hs & Ho)%(cs_done g H); rewrite Hr in Hs; by injection Hs as <-).
  constructor; cbn.
  - intros op' e' (Hne & H1 & Hi)%Hdel. destruct (cs_entries g H op' e' H1) as (s & Hs & Hrest).
    exists s. by rewrite list_lookup_insert_ne by done.
  - intros j s [[-> ->]|[Hj Hs]]%Hget Ho; [done|]. destruct (cs_runs g H j s Hs Ho) as (e' & He' & Hj').
    exists e'. split; [|done]. rewrite mget_del. destruct (decide (rn_operation s = op)) as [E|]; [|done].
    rewrite E, He in He'. injection He' as <-. congruence.
  - apply mdel_NoDup, (cs_keys g H).
  - done.
  - constructor; [done|apply (cs_once g H)].
  - intros j. rewrite elem_of_cons, (cs_done g H j). split.
    + intros [-> |(s & Hs & Ho)].
      * eexists. rewrite list_lookup_insert_eq by done. done.
      * exists s. rewrite list_lookup_insert_ne; [done|]. intros <-. rewrite Hr in Hs. by injection Hs as <-.
    + intros (s & [[-> ->]|[_ Hs]]%Hget & Ho); [by left|right; eauto].
  - intros op' e' s (Hne & H1 & Hi)%Hdel Hcan [[Hj ->]|[_ Hs]]%Hget Hn; [done|by eapply (cs_flag g H)].
  - intros j s [[-> ->]|[_ Hs]]%Hget; [done|by apply (cs_known g H)].
  - intros j s [[= -> <-]|Hd]%elem_of_cons Hs Hn.
    + apply (cs_known g H i (mkRun op x n (Known cancelled))); [done|done|].
      apply Hget in Hs as [[_ ->]|[? _]]; done.
    + apply Hget in Hs as [[-> ->]|[_ Hs]]; [|by eapply (cs_cancelled g H)].
      destruct Hnew. apply list_elem_of_fmap. by exists (i, cancelled).
Qed.

Lemma step_consistent g x : consistent g -> consistent (export_step g x).
Proof.
  intros H. destruct x; cbn.
  - by apply start_consistent.
  - by apply cancel_consistent.
  - by apply progress_consistent.
  - by apply answer_consistent.
  - by apply settled_consistent.
  - by apply known_consistent.
Qed.

Lemma reachable_consistent xs : consistent (export_run xs).
Proof.
  unfold export_run. generalize initial_consistent. generalize initial. induction xs as [|x xs IH]; intros g H; [done|].
  apply IH. by apply step_consistent.
Qed.

(** ** The end of an export *)

(** The native command of a running export answers and its promise chain runs to the end. *)
Lemma chain_ends g i r a :
  consistent g -> rg_runs g !! i = Some r -> rn_native r = true -> rn_chain r = Writing ->
  exists e, mget (rg_active g) (rn_operation r) = Some e /\ ae_controller e = i /\
    let g' := foldl export_step g [x_answer i a; x_settled i; x_known i] in
    rg_done g' = (i, outcome_of (ae_cancelled e) (owned r a)) :: rg_done g /\
    rg_active g' = mdel (rg_active g) (rn_operation r).
Proof.
  intros H Hr Hn Hw. pose proof (lookup_lt_Some _ _ _ Hr) as Hlt.
  destruct (cs_runs g H i r Hr) as (e & He & Hc); [by unfold over; rewrite Hw|].
  exists e. split; [done|]. split; [done|]. cbv zeta. cbn [foldl export_step].
  destruct r as [op x n c]. cbn in Hn, Hw, He |- *. subst n c.
  set (g1 := on_answer i a g). assert (g1 = with_run g i (mkRun op x true (Settled (owned (mkRun op x true Writing) a)))) as E1.
  { unfold g1, on_answer. by rewrite Hr. }
  set (o := outcome_of (ae_cancelled e) (owned (mkRun op x true Writing) a)).
  assert (on_settled i g1 = with_run g1 i (mkRun op x true (Known o))) as E2.
  { unfold on_settled. rewrite E1. cbn [with_run rg_runs]. rewrite list_lookup_insert_eq by done.
    cbn [with_run rg_active with_chain rn_operation rn_exportId rn_native]. by rewrite He. }
  rewrite E2. set (g2 := with_run g1 i _).
  assert (rg_runs g2 !! i = Some (mkRun op x true (Known o))) as Hr2.
  { unfold g2. cbn. apply list_lookup_insert_eq. rewrite E1. cbn. by rewrite length_insert. }
  assert (consistent g2) as H2 by (unfold g2; rewrite <- E2; by apply settled_consistent, answer_consistent).
  rewrite (known_shape i g2 op x true o) by done. cbn. by rewrite E1.
Qed.

Lemma start_free op cap name uuid now g :
  consistent g -> non_empty op = true ->
  (startResultExport (Some op) cap name uuid now g).2
  = negb (existsb (fun r => bool_decide (rn_operation r = op) && match rn_chain r with Over => false | _ => true end) (rg_runs g)).
Proof.
  intros H Hop. unfold startResultExport. rewrite Hop. cbn [negb orb]. unfold mhas.
  destruct (mget (rg_active g) op) as [e|] eqn:He; cbn.
  - destruct (cs_entries g H op e He) as (r & Hr & Hrop & Ho). symmetry. apply negb_false_iff, existsb_elem.
    exists r. split; [by eapply list_elem_of_lookup_2|]. rewrite bool_decide_eq_true_2 by done. cbn. unfold over in Ho.
    by destruct (rn_chain r).
  - symmetry. apply negb_true_iff, existsb_none. intros r (i & Hr)%list_elem_of_lookup. case_bool_decide as E; [|done]. cbn.
    destruct (rn_chain r) eqn:Ec; [..|done]; (destruct (cs_runs g H i r Hr) as (e & H1 & _); [by unfold over; rewrite Ec|]);
      by rewrite E, He in H1.
Qed.

(** ** The size of renderer-built texts *)

Lemma utf8_bounds s : length s <= utf8_length s <= 3 * length s.
Proof.
  induction (Nat.lt_wf_0_projected (length (A := N)) s) as [s _ IH]. destruct s as [|c [|d s]]; [done| |].
  - cbn. repeat case_match; lia.
  - change (utf8_length (c :: d :: s)) with
      (if between 55296 56319 c && between 56320 57343 d then 4 + utf8_length s
       else (if (c <? 128)%N then 1 else if (c <? 2048)%N then 2 else 3) + utf8_length (d :: s)).
    destruct (between 55296 56319 c && between 56320 57343 d).
    + specialize (IH s ltac:(cbn; lia)). cbn [length] in *. lia.
    + specialize (IH (d :: s) ltac:(cbn; lia)). cbn [length] in *.
      generalize dependent (utf8_length (d :: s)). intros n Hn. repeat case_match; lia.
Qed.

Lemma limit_exact text :
  exceedsRendererExportLimit text = (RENDERER_EXPORT_MAX_BYTES <? Z.of_nat (utf8_length text))%Z.
Proof.
  unfold exceedsRendererExportLimit. pose proof (utf8_bounds text) as [H1 H2]. cbv zeta.
  destruct (Z.ltb_spec RENDERER_EXPORT_MAX_BYTES (Z.of_nat (length text))).
  { symmetry. apply Z.ltb_lt. lia. }
  destruct (Z.leb_spec (Z.of_nat (length text) * 3) RENDERER_EXPORT_MAX_BYTES); [|done].
  symmetry. apply Z.ltb_ge. lia.
Qed.

(** The turns that are left end the export, whichever they are. *)
Lemma turns_end g i r a :
  consistent g -> rg_runs g !! i = Some r -> ~ over r -> (rn_native r = false -> rn_chain r <> Writing) ->
  let g' := foldl export_step g [x_answer i a; x_settled i; x_known i] in
  (exists o, rg_done g' = (i, o) :: rg_done g) /\ rg_active g' = mdel (rg_active g) (rn_operation r).
Proof.
  intros H Hr Ho Hn. cbv zeta. destruct r as [op x n [|c|o|]]; [| | |by destruct Ho].
  - destruct n; [|by destruct Hn]. destruct (chain_ends g i _ a H Hr eq_refl eq_refl) as (e & _ & _ & Hd & Ha).
    split; [by eexists|done].
  - pose proof (lookup_lt_Some _ _ _ Hr) as Hlt.
    destruct (cs_runs g H i _ Hr) as (e & He & Hc); [done|]. cbn in He. cbn [foldl export_step].
    assert (on_answer i a g = g) as -> by (unfold on_answer; rewrite Hr; by destruct n).
    assert (on_settled i g = with_run g i (mkRun op x n (Known (outcome_of (ae_cancelled e) c)))) as E
      by (unfold on_settled; rewrite Hr, He; done).
    pose proof (settled_consistent i g H) as H2. rewrite E in *.
    rewrite (known_shape i _ op x n (outcome_of (ae_cancelled e) c)); [|done|by apply list_lookup_insert_eq].
    split; [by eexists|done].
  - cbn [foldl export_step].
    assert (on_answer i a g = g) as -> by (unfold on_answer; rewrite Hr; by destruct n).
    assert (on_settled i g = g) as -> by (unfold on_settled; by rewrite Hr).
    rewrite (known_shape i g op x n o) by done. split; [by eexists|done].
Qed.

(** A handle without a capability is settled from the start. *)
Lemma incomplete_settled xs i r :
  rg_runs (export_run xs) !! i = Some r -> rn_native r = false -> rn_chain r <> Writing.
Proof.
  unfold export_run. revert i r. induction xs as [|x xs IH] using rev_ind; intros i r; [done|].
  rewrite foldl_snoc. set (g := foldl export_step initial xs) in *. clearbody g.
  destruct x as [op cap name uuid now|op|j p|j a|j|j]; cbn [export_step].
  - unfold startResultExport. destruct op as [op|]; [|apply IH]. destruct (_ || _); [apply IH|]. cbn.
    intros [Hr|[_ Hr]]%lookup_app_Some; [by apply (IH i)|]. apply list_lookup_singleton_Some in Hr as [_ <-].
    unfold exportSqlResult. by destruct (truthy cap).
  - unfold cancelResultExport. destruct op as [op|]; [|apply IH]. destruct (negb _); [apply IH|].
    destruct (mget (rg_active g) op); apply IH.
  - unfold on_progress. destruct (rg_runs g !! j) as [[op ? [] []]|]; try apply IH.
    destruct (mget (rg_active g) op); [|apply IH]. destruct (negb _); apply IH.
  - unfold on_answer. destruct (rg_runs g !! j) as [[op ? [] []]|] eqn:E; try apply IH.
    intros [(-> & <- & _)|[_ Hr]]%list_lookup_insert_Some; [done|by apply (IH i)].
  - unfold on_settled. destruct (rg_runs g !! j) as [[op ? ? []]|] eqn:E; try apply IH.
    intros [(-> & <- & _)|[_ Hr]]%list_lookup_insert_Some; [done|by apply (IH i)].
  - unfold on_known. destruct (rg_runs g !! j) as [[op ? ? []]|] eqn:E; try apply IH. cbn.
    destruct (mget (rg_active g) op) as [e|]; [destruct (_ =? _)|]; cbn;
      intros [(-> & <- & _)|[_ Hr]]%list_lookup_insert_Some; (done || by apply (IH i)).
Qed.

(** ** Properties *)

(** Whatever order progress messages, cancellations, answers and promise turns come in:
    an operation has at most one running export, and an entry in the registry exactly while it
    has one; [onDone] is called once for every export that is over and never for a running
    one; an export is reported cancelled only if its cancellation was requested; the status bar
    lists exactly the exports that are writing. *)
Theorem exports_finish_once (xs : list export_input) :
  let g := export_run xs in
  (forall i j r s, rg_runs g !! i = Some r -> rg_runs g !! j = Some s -> ~ over r -> ~ over s ->
     rn_operation r = rn_operation s -> i = j) /\
  (forall op, mhas (rg_active g) op = true <->
     exists i r, rg_runs g !! i = Some r /\ rn_operation r = op /\ ~ over r) /\
  NoDup (map fst (rg_done g)) /\
  (forall i, i ∈ map fst (rg_done g) <-> exists r, rg_runs g !! i = Some r /\ over r) /\
  (forall i r, (i, cancelled) ∈ rg_done g -> rg_runs g !! i = Some r -> rn_native r = true -> i ∈ rg_stops g) /\
  rg_tasks g = flat_map task_of (rg_active g).
Proof.
  intros g. pose proof (reachable_consistent xs) as H. fold g in H. split; [|split; [|split; [|split; [|split]]]].
  - intros i j r s Hr Hs Hro Hso Hop. destruct (cs_runs g H i r Hr Hro) as (e & He & <-).
    destruct (cs_runs g H j s Hs Hso) as (e' & He' & <-). congruence.
  - intros op. rewrite mhas_true, <- mget_keys. split.
    + intros [e He]. destruct (cs_entries g H op e He) as (r & Hr & Hop & Ho). eauto.
    + intros (i & r & Hr & <- & Ho). destruct (cs_runs g H i r Hr Ho) as (e & He & _). eauto.
  - apply (cs_once g H).
  - apply (cs_done g H).
  - intros i r Hd Hr Hn. by apply (cs_cancelled g H i r).
  - apply (cs_tasks g H).
Qed.

Definition sample_inputs : list export_input :=
  [x_start op1 (Some (js "c")) (js "a.csv") (js "u1") 5; x_progress 0 (mkProgress 10 100); x_cancel op1;
   x_answer 0 (Rejected (err_native VNull)); x_settled 0; x_known 0].
Lemma finish_witness : 0 ∈ rg_stops (export_run sample_inputs).
Proof.
  refine (proj1 (proj2 (proj2 (proj2 (proj2 (exports_finish_once sample_inputs))))) 0 _ _ _ _);
    [vm_compute; left|vm_compute; reflexivity|reflexivity].
Defined.

(** From every reachable state, a running export ends: once its native command has answered,
    the two turns of its promise chain call [onDone] with the outcome of the answer (a receipt
    of another export is a failure; a failure is a cancellation when it was requested), its
    entry is gone, and its operation can be exported again. *)
Theorem an_export_ends (xs : list export_input) (i : nat) (r : run) (a : completion) :
  rg_runs (export_run xs) !! i = Some r -> ~ over r ->
  let g := export_run xs in
  let g' := foldl export_step g [x_answer i a; x_settled i; x_known i] in
  (exists o, rg_done g' = (i, o) :: rg_done g /\
     (rn_chain r = Writing -> exists e, mget (rg_active g) (rn_operation r) = Some e /\
        o = outcome_of (ae_cancelled e) (owned r a))) /\
  useResultExportActive g' (Some (rn_operation r)) = false /\
  forall cap name uuid now, non_empty (rn_operation r) = true ->
    (startResultExport (Some (rn_operation r)) cap name uuid now g').2 = true.
Proof.
  intros Hr Ho g g'. pose proof (reachable_consistent xs) as H. fold g in H, Hr.
  destruct (turns_end g i r a H Hr Ho) as ((o & Hd) & Ha); [by apply (incomplete_settled xs i)|]. fold g' in Hd, Ha.
  assert (mhas (rg_active g') (rn_operation r) = false) as Hf.
  { unfold mhas. rewrite Ha, mget_del. by rewrite decide_True. }
  split; [|split].
  - exists o. split; [done|]. intros Hw. destruct (rn_native r) eqn:En.
    + destruct (chain_ends g i r a H Hr En Hw) as (e & He & _ & Hd' & _). cbv zeta in Hd'. fold g' in Hd'.
      rewrite Hd in Hd'. exists e. split; [done|]. congruence.
    + by destruct (incomplete_settled xs i r Hr En).
  - unfold useResultExportActive. by rewrite Hf, andb_false_r.
  - intros cap name uuid now Hne. unfold startResultExport. by rewrite Hne, Hf.
Qed.
Lemma export_ends_witness :
  useResultExportActive (foldl export_step (export_run (take 3 sample_inputs))
    [x_answer 0 (Resolved None); x_settled 0; x_known 0]) op1 = false.
Proof.
  refine (proj1 (proj2 (an_export_ends (take 3 sample_inputs) 0 (mkRun (js "op1") (js "u1") true Writing) (Resolved None) _ _)));
    [vm_compute; reflexivity|done].
Defined.

(** The native save of renderer-built text is asked exactly when the text takes at most 64
    MiB in UTF-8, which the shortcuts on the number of units decide correctly; a longer text is
    refused with that reason, and a dismissed dialog shows nothing. *)
Theorem save_within_limit (save : jsstr -> save_answer) (format : export_format)
    (columns : list jsstr) (rows : list (list value)) (text : jsstr) :
  renderer_text format columns rows = Ok text ->
  exists asked toast, saveRendererExport save format columns rows = Ok (asked, toast) /\
    (asked = Some text <-> (Z.of_nat (utf8_length text) <= 64 * 1024 * 1024)%Z) /\
    (asked = None <-> (64 * 1024 * 1024 < Z.of_nat (utf8_length text))%Z) /\
    (asked = None -> toast = Some (toast_error (exportTooLarge 64))) /\
    (asked = Some text -> save text = Saved None -> toast = None).
Proof.
  intros E. unfold saveRendererExport. rewrite E. cbn [mbind res_bind]. rewrite limit_exact.
  unfold RENDERER_EXPORT_MAX_BYTES. destruct (Z.ltb_spec (64 * 1024 * 1024) (Z.of_nat (utf8_length text))) as [Hlt|Hle];
    eexists _, _; (split; [done|]).
  - split; [split; [done|lia]|]. split; [done|]. split; [done|]. done.
  - split; [done|]. split; [split; [done|lia]|]. split; [done|]. by intros _ ->.
Qed.
Lemma save_limit_witness :
  exists toast, saveRendererExport (fun _ => Saved None) format_csv [js "a"] [[VNull]] = Ok (Some (BOM :: js "a"), toast).
Proof.
  destruct (save_within_limit (fun _ => Saved None) format_csv [js "a"] [[VNull]] (BOM :: js "a") eq_refl)
    as (asked & toast & E & [_ Hs] & _). rewrite Hs in E; [by exists toast|vm_compute; congruence].
Defined.
