(* ===== verification/SqlStream.v ===== *)
(** * The transport of a streamed result

    [startSqlStream] and [pullAcceptAndAcknowledgeStreamBatch] of
    [src/features/queries/tauriAdapter.ts], and the page collector [runSqlReadPage]. The
    native core notifies that a batch is ready; the batch is pulled, handed to the consumer
    and acknowledged, one at a time; a cancellation, a mismatch or an error ends the stream.
    What the native core and the consumer answer, and the turns of the promise chains, are
    inputs ([stream_input]); a turn runs only when what it awaits is there, so a list of
    inputs is an interleaving. [st_log] records the calls that leave the transport. *)

From S2P Require Import Prelude JsString JsValue.
From S2P Require ResultPages.
From Stdlib Require String.
Import Stdlib.Strings.String.StringSyntax.

(** ** Messages *)

Notation SqlStreamBatchWire := ResultPages.SqlStreamBatchWire.
Notation ba_operationId := ResultPages.b_operationId.
Notation ba_sequence := ResultPages.b_sequence.
Notation ba_columns := ResultPages.b_columns.
Notation ba_rows := ResultPages.b_rows.

Record SqlStreamReady := mkReady { rd_operationId : jsstr; rd_sequence : nat; rd_capability : jsstr }.

Record SqlStreamReceipt := mkStreamReceipt {
  sr_operationId : jsstr; sr_rowCount : Z; sr_truncated : bool; sr_durationMs : Z }.

(** What is thrown: an [Error] of the transport, an [Error] from elsewhere, another value. *)
Inductive stream_error :=
| se_ready_owner        (* stream ready notification did not match its owner *)
| se_batch_gone         (* stream batch is no longer available *)
| se_batch_owner        (* stream batch did not match its ready notification *)
| se_ack_rejected       (* stream batch acknowledgement was rejected *)
| se_receipt_owner      (* stream completion did not match the owning operation *)
| se_transport          (* SQL stream transport failed *)
| se_error (message : jsstr)
| se_value (v : value).

(** [error instanceof Error ? error : new Error("SQL stream transport failed")] *)
Definition as_error (e : stream_error) : stream_error :=
  match e with se_value _ => se_transport | _ => e end.

Inductive stream_terminal := t_open | t_cancelled | t_completed | t_error.

(** The calls that leave the transport: to the native core and to the consumer. *)
Inductive stream_call :=
| k_pull (operationId : jsstr) (sequence : nat) (capability : jsstr)
| k_batch (batch : SqlStreamBatchWire) (resultCapability : jsstr)
| k_ack (operationId : jsstr) (sequence : nat) (capability : jsstr)
| k_cancel (operationId : option jsstr) (capability : jsstr).

(** ** State *)

(** Where the current job waits. *)
Inductive job_wait := w_pull | w_consumer (batch : SqlStreamBatchWire) | w_ack | w_cancel.

(** Where [completion] waits; [c_queue n] for the first [n] jobs. *)
Inductive completion_state :=
| c_start
| c_queue (jobs : nat) (receipt : SqlStreamReceipt)
| c_cancel (e : stream_error)      (* a cancellation before the throw of [e] *)
| c_throw (e : stream_error)       (* [e] reaches the [.catch] *)
| c_resolved (receipt : SqlStreamReceipt)
| c_rejected (e : stream_error).

Record stream := mkStream {
  st_capability : jsstr;
  st_operation : jsstr;                                (* [activeOperationId] *)
  st_terminal : stream_terminal;
  st_terminalError : option stream_error;
  st_firstBatch : bool;
  st_queue : list SqlStreamReady;                      (* jobs that have not begun *)
  st_job : option (SqlStreamReady * job_wait);         (* the job that runs *)
  st_finished : nat;                                   (* jobs that have ended *)
  st_completion : completion_state;
  st_listening : bool;                                 (* [onRows.onmessage] is set *)
  st_log : list stream_call }.                         (* newest first *)

Definition startSqlStream (operationId capability : jsstr) : stream :=
  mkStream capability operationId t_open None false [] None 0 c_start true [].

Definition set_operation (op : jsstr) (s : stream) : stream :=
  mkStream (st_capability s) op (st_terminal s) (st_terminalError s) (st_firstBatch s) (st_queue s)
    (st_job s) (st_finished s) (st_completion s) (st_listening s) (st_log s).
Definition set_terminal (t : stream_terminal) (e : option stream_error) (s : stream) : stream :=
  mkStream (st_capability s) (st_operation s) t e (st_firstBatch s) (st_queue s)
    (st_job s) (st_finished s) (st_completion s) (st_listening s) (st_log s).
Definition set_first (s : stream) : stream :=
  mkStream (st_capability s) (st_operation s) (st_terminal s) (st_terminalError s) true (st_queue s)
    (st_job s) (st_finished s) (st_completion s) (st_listening s) (st_log s).
Definition set_queue (q : list SqlStreamReady) (s : stream) : stream :=
  mkStream (st_capability s) (st_operation s) (st_terminal s) (st_terminalError s) (st_firstBatch s) q
    (st_job s) (st_finished s) (st_completion s) (st_listening s) (st_log s).
Definition wait_job (r : SqlStreamReady) (w : job_wait) (s : stream) : stream :=
  mkStream (st_capability s) (st_operation s) (st_terminal s) (st_terminalError s) (st_firstBatch s) (st_queue s)
    (Some (r, w)) (st_finished s) (st_completion s) (st_listening s) (st_log s).
Definition end_job (s : stream) : stream :=
  mkStream (st_capability s) (st_operation s) (st_terminal s) (st_terminalError s) (st_firstBatch s) (st_queue s)
    None (S (st_finished s)) (st_completion s) (st_listening s) (st_log s).
Definition set_completion (c : completion_state) (s : stream) : stream :=
  mkStream (st_capability s) (st_operation s) (st_terminal s) (st_terminalError s) (st_firstBatch s) (st_queue s)
    (st_job s) (st_finished s) c (st_listening s) (st_log s).
Definition mute (s : stream) : stream :=
  mkStream (st_capability s) (st_operation s) (st_terminal s) (st_terminalError s) (st_firstBatch s) (st_queue s)
    (st_job s) (st_finished s) (st_completion s) false (st_log s).
Definition call (k : stream_call) (s : stream) : stream :=
  mkStream (st_capability s) (st_operation s) (st_terminal s) (st_terminalError s) (st_firstBatch s) (st_queue s)
    (st_job s) (st_finished s) (st_completion s) (st_listening s) (k :: st_log s).

Definition is_open (s : stream) : bool := match st_terminal s with t_open => true | _ => false end.

(** ** Ending the stream *)

(** [operationId: knownOperationId || null] *)
Definition sendCancellation (knownOperationId : jsstr) (s : stream) : stream :=
  call (k_cancel (if non_empty knownOperationId then Some knownOperationId else None) (st_capability s)) s.

Definition cancel (s : stream) : stream :=
  if is_open s then let s := set_terminal t_cancelled (st_terminalError s) s in sendCancellation (st_operation s) s
  else s.

(** The synchronous part of [fail]; the flag tells that a cancellation is awaited. *)
Definition fail (e : stream_error) (s : stream) : stream * bool :=
  if is_open s then
    let s := set_terminal t_error (Some (as_error e)) s in (sendCancellation (st_operation s) s, true)
  else (s, false).

(** ** A ready notification *)

Definition on_ready (ready : SqlStreamReady) (s : stream) : stream :=
  if negb (st_listening s) then s
  else if negb (is_open s) then sendCancellation (rd_operationId ready) s
  else if negb (rd_capability ready ==s st_capability s)
          || (non_empty (st_operation s) && negb (rd_operationId ready ==s st_operation s))
  then (fail se_ready_owner s).1
  else set_queue (st_queue s ++ [ready]) (set_operation (rd_operationId ready) s).

(** ** One job *)

(** [fail] inside a job: the job ends once its cancellation has been answered. *)
Definition fail_job (r : SqlStreamReady) (e : stream_error) (s : stream) : stream :=
  let '(s, waits) := fail e s in if waits then wait_job r w_cancel s else end_job s.

(** The next job begins when the one before it has ended. *)
Definition begin_job (s : stream) : stream :=
  match st_job s, st_queue s with
  | None, ready :: queue =>
    let s := set_queue queue s in
    if negb (is_open s) then wait_job ready w_cancel (sendCancellation (st_operation s) s)
    else wait_job ready w_pull (call (k_pull (rd_operationId ready) (rd_sequence ready) (rd_capability ready)) s)
  | _, _ => s
  end.

(** The pull is answered: [null] when the batch is gone. *)
Definition on_pulled (answer : res stream_error (option SqlStreamBatchWire)) (s : stream) : stream :=
  match st_job s with
  | Some (ready, w_pull) =>
    match answer with
    | Throw e => fail_job ready e s
    | Ok None => fail_job ready se_batch_gone s
    | Ok (Some batch) =>
      if negb (ba_operationId batch ==s rd_operationId ready) || negb (ba_sequence batch =? rd_sequence ready)
      then fail_job ready se_batch_owner s
      else if negb (is_open s) then end_job s
      else wait_job ready (w_consumer batch) (call (k_batch batch (rd_capability ready)) (set_first s))
    end
  | _ => s
  end.

(** The consumer has accepted the batch, or thrown. *)
Definition on_consumed (answer : res stream_error unit) (s : stream) : stream :=
  match st_job s with
  | Some (ready, w_consumer batch) =>
    match answer with
    | Throw e => fail_job ready e s
    | Ok _ =>
      if negb (is_open s) then end_job s
      else wait_job ready w_ack (call (k_ack (rd_operationId ready) (rd_sequence ready) (rd_capability ready)) s)
    end
  | _ => s
  end.

Definition on_acknowledged (answer : res stream_error bool) (s : stream) : stream :=
  match st_job s with
  | Some (ready, w_ack) =>
    match answer with
    | Throw e => fail_job ready e s
    | Ok accepted => if accepted then end_job s else fail_job ready se_ack_rejected s
    end
  | _ => s
  end.

(** The cancellation the job awaits is answered, one way or the other. *)
Definition on_job_cancelled (s : stream) : stream :=
  match st_job s with Some (_, w_cancel) => end_job s | _ => s end.

(** ** Completion *)

(** The start command ends. *)
Definition on_started (answer : res stream_error SqlStreamReceipt) (s : stream) : stream :=
  match st_completion s with
  | c_start =>
    match answer with
    | Ok receipt =>
      let running := match st_job s with Some _ => 1 | None => 0 end in
      set_completion (c_queue (st_finished s + running + length (st_queue s)) receipt) s
    | Throw e => set_completion (c_throw e) s
    end
  | _ => s
  end.

(** The turn after [await readyQueue], once the jobs it waits for have ended. *)
Definition on_drained (s : stream) : stream :=
  match st_completion s with
  | c_queue jobs receipt =>
    if st_finished s <? jobs then s
    else
      match st_terminal s with
      | t_error => set_completion (c_throw (default se_transport (st_terminalError s))) s
      | _ =>
        if non_empty (st_operation s) && negb (sr_operationId receipt ==s st_operation s) then
          let s := set_terminal t_error (Some se_receipt_owner) s in
          set_completion (c_cancel se_receipt_owner) (sendCancellation (st_operation s) s)
        else
          let s := if is_open s then set_terminal t_completed (st_terminalError s) s else s in
          mute (set_completion (c_resolved receipt) s)
      end
  | _ => s
  end.

(** The [.catch]: a failure of an open stream is sent as a cancellation first. *)
Definition on_thrown (s : stream) : stream :=
  match st_completion s with
  | c_throw e =>
    let '(s, waits) := fail e s in
    if waits then set_completion (c_cancel e) s else mute (set_completion (c_rejected e) s)
  | _ => s
  end.

(** The cancellation that [completion] awaits is answered. *)
Definition on_completion_cancelled (s : stream) : stream :=
  match st_completion s with c_cancel e => mute (set_completion (c_rejected e) s) | _ => s end.

Inductive stream_input :=
| y_ready (ready : SqlStreamReady)
| y_cancel
| y_begin
| y_pulled (answer : res stream_error (option SqlStreamBatchWire))
| y_consumed (answer : res stream_error unit)
| y_acknowledged (answer : res stream_error bool)
| y_job_cancelled
| y_started (answer : res stream_error SqlStreamReceipt)
| y_drained
| y_thrown
| y_completion_cancelled.

Definition stream_step (s : stream) (y : stream_input) : stream :=
  match y with
  | y_ready r => on_ready r s
  | y_cancel => cancel s
  | y_begin => begin_job s
  | y_pulled a => on_pulled a s
  | y_consumed a => on_consumed a s
  | y_acknowledged a => on_acknowledged a s
  | y_job_cancelled => on_job_cancelled s
  | y_started a => on_started a s
  | y_drained => on_drained s
  | y_thrown => on_thrown s
  | y_completion_cancelled => on_completion_cancelled s
  end.
Definition stream_run (operationId capability : jsstr) (ys : list stream_input) : stream :=
  foldl stream_step (startSqlStream operationId capability) ys.

(** ** [runSqlReadPage] *)

(** The columns, once known, and the rows collected so far. *)
Record page_rows := mkPageRows { pr_columns : option (list jsstr); pr_rows : list (list value) }.
Definition empty_page : page_rows := mkPageRows None [].

Definition sameColumns (left right : list jsstr) : bool := bool_decide (left = right).

(** The consumer of the page's stream: [Throw] is the [Error] it throws. *)
Definition page_batch (p : page_rows) (batch : SqlStreamBatchWire) : res stream_error page_rows :=
  if match pr_columns p with Some columns => negb (sameColumns columns (ba_columns batch)) | None => false end
  then Throw (se_error (js "SQL page stream changed columns between batches"))
  else if existsb (fun row => negb (length row =? length (ba_columns batch))) (ba_rows batch)
  then Throw (se_error (js "SQL page stream returned a row with the wrong width"))
  else Ok (mkPageRows (Some (default (ba_columns batch) (pr_columns p))) (pr_rows p ++ ba_rows batch)).

Record QueryResult := mkQueryResult {
  qr_columns : list jsstr; qr_rows : list (list value); qr_rowCount : nat; qr_truncated : bool; qr_durationMs : Z }.

(** After [completion]: the receipt's count must be that of the collected rows. *)
Definition page_result (p : page_rows) (receipt : SqlStreamReceipt) : res stream_error QueryResult :=
  if negb (sr_rowCount receipt =? Z.of_nat (length (pr_rows p)))%Z
  then Throw (se_error (js "SQL page stream receipt did not match accepted rows"))
  else Ok (mkQueryResult (default [] (pr_columns p)) (pr_rows p) (length (pr_rows p))
             (sr_truncated receipt) (sr_durationMs receipt)).

(** The stream of a page: the collector runs when a batch is handed over, and its answer is
    what the next turn of the job finds. *)
Record page_run := mkPageRun { pn_stream : stream; pn_page : page_rows; pn_answer : res stream_error unit }.

Definition handed_batch (before after : stream) : option SqlStreamBatchWire :=
  match st_job before, st_job after with
  | Some (_, w_pull), Some (_, w_consumer batch) => Some batch
  | _, _ => None
  end.

Definition page_step (p : page_run) (y : stream_input) : page_run :=
  match y with
  | y_pulled _ =>
    let s := stream_step (pn_stream p) y in
    match handed_batch (pn_stream p) s with
    | Some batch =>
      match page_batch (pn_page p) batch with
      | Ok page => mkPageRun s page (Ok tt)
      | Throw e => mkPageRun s (pn_page p) (Throw e)
      end
    | None => mkPageRun s (pn_page p) (pn_answer p)
    end
  | y_consumed _ => mkPageRun (stream_step (pn_stream p) (y_consumed (pn_answer p))) (pn_page p) (pn_answer p)
  | _ => mkPageRun (stream_step (pn_stream p) y) (pn_page p) (pn_answer p)
  end.

(** [startSqlStream("", ...)] with the collector, and what the call has returned. *)
Definition page_run_from (capability : jsstr) (ys : list stream_input) : page_run :=
  foldl page_step (mkPageRun (startSqlStream [] capability) empty_page (Ok tt)) ys.
Definition runSqlReadPage (p : page_run) : option (res stream_error QueryResult) :=
  match st_completion (pn_stream p) with
  | c_resolved receipt => Some (page_result (pn_page p) receipt)
  | c_rejected e => Some (Throw e)
  | _ => None
  end.

Definition ready (n : nat) : SqlStreamReady := mkReady (js "op") n (js "cap").
Definition batch (n : nat) (rows : list (list value)) : SqlStreamBatchWire :=
  ResultPages.mkBatch (js "op") n None [js "a"] rows [].
Definition receipt (n : Z) : SqlStreamReceipt := mkStreamReceipt (js "op") n false 3.
Definition full_run : list stream_input :=
  [y_ready (ready 0); y_ready (ready 1); y_begin; y_pulled (Ok (Some (batch 0 [[VNull]]))); y_begin; y_consumed (Ok tt);
   y_started (Ok (receipt 2)); y_drained; y_acknowledged (Ok true); y_begin; y_pulled (Ok (Some (batch 1 [[VBool true]])));
   y_consumed (Ok tt); y_acknowledged (Ok true); y_drained].
Example stream_sample :
  let s := stream_run [] (js "cap") full_run in
  st_terminal s = t_completed /\ st_completion s = c_resolved (receipt 2)
  /\ rev (st_log s) = [k_pull (js "op") 0 (js "cap"); k_batch (batch 0 [[VNull]]) (js "cap"); k_ack (js "op") 0 (js "cap");
                       k_pull (js "op") 1 (js "cap"); k_batch (batch 1 [[VBool true]]) (js "cap"); k_ack (js "op") 1 (js "cap")]
  /\ runSqlReadPage (page_run_from (js "cap") full_run) = Some (Ok (mkQueryResult [js "a"] [[VNull]; [VBool true]] 2 false 3)).
Proof. vm_compute. done. Qed.
Example cancelled_sample :
  let s := stream_run [] (js "cap") [y_ready (ready 0); y_begin; y_cancel; y_pulled (Ok (Some (batch 0 [[VNull]]))); y_ready (ready 1)] in
  rev (st_log s) = [k_pull (js "op") 0 (js "cap"); k_cancel (Some (js "op")) (js "cap"); k_cancel (Some (js "op")) (js "cap")]
  /\ st_finished s = 1 /\ st_queue s = [].
Proof. vm_compute. done. Qed.
