(* ===== verification/SqlStreamInv.v ===== *)
(** * A streamed result is handed over once, in order, and acknowledged

    Theorems about [SqlStream]: the protocol of pulls, deliveries and acknowledgements, what
    ending a stream stops, what a resolved completion means, that it settles, and the page
    that [runSqlReadPage] returns. *)

From S2P Require Import Prelude JsString JsValue SqlStream.
From S2P Require ResultPages.
From Stdlib Require String.
Import Stdlib.Strings.String.StringSyntax.

(** ** The turns of a stream *)

Definition is_main (k : stream_call) : bool := match k with k_cancel _ _ => false | _ => true end.
(** The pulls, deliveries and acknowledgements, oldest first. *)
Definition main (s : stream) : list stream_call := rev (filterb is_main (st_log s)).

(** What passes between the transport, the native core and the consumer: the calls, and the
    answers the current job gets. The core answers a pull with a batch, the consumer accepts a
    batch, the core confirms an acknowledgement. *)
Inductive stream_event :=
| x_call (k : stream_call)
| x_answered (b : SqlStreamBatchWire)
| x_accepted (b : SqlStreamBatchWire)
| x_confirmed (r : SqlStreamReady).
Definition heard (s : stream) (y : stream_input) : list stream_event :=
  match st_job s, y with
  | Some (_, w_pull), y_pulled (Ok (Some b)) => [x_answered b]
  | Some (_, w_consumer b), y_consumed (Ok _) => [x_accepted b]
  | Some (r, w_ack), y_acknowledged (Ok true) => [x_confirmed r]
  | _, _ => []
  end.
Definition said (s s' : stream) : list stream_event := map x_call (drop (length (main s)) (main s')).
(** What passes while the inputs come in. *)
Fixpoint history (s : stream) (ys : list stream_input) : list stream_event :=
  match ys with
  | [] => []
  | y :: ys => (heard s y ++ said s (stream_step s y)) ++ history (stream_step s y) ys
  end.

(** The turn of a ready batch, broken off after [n] of its six events. *)
Definition turn (r : SqlStreamReady) (b : SqlStreamBatchWire) (n : nat) : list stream_event :=
  take n [x_call (k_pull (rd_operationId r) (rd_sequence r) (rd_capability r)); x_answered b;
          x_call (k_batch b (rd_capability r)); x_accepted b;
          x_call (k_ack (rd_operationId r) (rd_sequence r) (rd_capability r)); x_confirmed r].

Definition matches (r : SqlStreamReady) (b : SqlStreamBatchWire) : Prop :=
  ba_operationId b = rd_operationId r /\ ba_sequence b = rd_sequence r.

Definition turns := list (SqlStreamReady * SqlStreamBatchWire * nat).
Definition turn_calls (ts : turns) : list stream_event := flat_map (fun t => turn t.1.1 t.1.2 t.2) ts.
Definition turn_ok (capability : jsstr) (t : SqlStreamReady * SqlStreamBatchWire * nat) : Prop :=
  t.2 <= 6 /\ rd_capability t.1.1 = capability /\ (3 <= t.2 -> matches t.1.1 t.1.2).

Definition opened (s : stream) : Prop := st_terminal s = t_open.

Lemma is_open_spec s : is_open s = true <-> opened s.
Proof. unfold is_open, opened. by destruct (st_terminal s). Qed.

Lemma is_open_false s : is_open s = false <-> ~ opened s.
Proof. rewrite <- is_open_spec. by destruct (is_open s). Qed.

(** What the current job has done so far. *)
Definition current_ok (s : stream) (calls : list stream_event) : Prop :=
  match st_job s with
  | None => calls = []
  | Some (r, w) =>
    rd_capability r = st_capability s /\
    exists b n, calls = turn r b n /\ n <= 6 /\ (3 <= n -> matches r b) /\
      match w with
      | w_pull => n = 1
      | w_consumer b' => n = 3 /\ b' = b
      | w_ack => n = 5
      | w_cancel => ~ opened s
      end
  end.

(** [h] has passed; [ts] are the turns of the finished jobs, the first [full] of them complete. *)
Record protocol (s : stream) (h : list stream_event) (ts : turns) (full : nat) : Prop := mkProtocol {
  pt_finished : length ts = st_finished s;
  pt_ok : Forall (turn_ok (st_capability s)) ts;
  pt_main : exists calls, h = turn_calls ts ++ calls /\ current_ok s calls;
  pt_queue : Forall (fun r => rd_capability r = st_capability s) (st_queue s);
  pt_full : full <= length ts /\ Forall (fun t => t.2 = 6) (take full ts);
  pt_open : opened s -> full = length ts }.

Lemma start_protocol op cap : protocol (startSqlStream op cap) [] [] 0.
Proof. constructor; cbn; try done. by exists []. Qed.

(** *** Steps that do not touch the job *)

(** Same job, same calls but for cancellations, and never opened again. *)
Record steady (s s' : stream) : Prop := mkSteady {
  sd_capability : st_capability s' = st_capability s;
  sd_job : st_job s' = st_job s;
  sd_finished : st_finished s' = st_finished s;
  sd_main : main s' = main s;
  sd_open : opened s' -> opened s }.

Lemma steady_refl s : steady s s.
Proof. by constructor. Qed.

Lemma steady_trans s s' s'' : steady s s' -> steady s' s'' -> steady s s''.
Proof. intros [] []. constructor; (congruence || auto). Qed.

Lemma steady_protocol s s' h ts full :
  steady s s' -> Forall (fun r => rd_capability r = st_capability s') (st_queue s') ->
  protocol s h ts full -> protocol s' h ts full.
Proof.
  intros [Hc Hj Hf Hm Ho] Hq [H1 H2 (calls & H3 & H3') H4 H5 H6].
  constructor; [by rewrite Hf|by rewrite Hc| |done|done|auto].
  exists calls. split; [done|]. unfold current_ok in *. rewrite Hj, Hc.
  destruct (st_job s) as [[r w]|]; [|done]. destruct H3' as (Hr & b & n & E & Hn & Hb & Hw).
  split; [done|]. exists b, n. split; [done|]. split; [done|]. split; [done|]. destruct w; auto.
Qed.

Lemma send_steady op s : steady s (sendCancellation op s).
Proof. by constructor. Qed.

Lemma cancel_steady s : steady s (cancel s).
Proof. unfold cancel. destruct (is_open s); [|apply steady_refl]. by constructor. Qed.

Lemma fail_steady e s : steady s (fail e s).1.
Proof. unfold fail. destruct (is_open s); [|apply steady_refl]. by constructor. Qed.

Lemma fail_closed e s : ~ opened (fail e s).1.
Proof. unfold fail. destruct (is_open s) eqn:E; [done|]. by apply is_open_false. Qed.

Lemma fail_queue e s : st_queue (fail e s).1 = st_queue s.
Proof. unfold fail. by destruct (is_open s). Qed.

(** *** Steps of the job *)


Lemma turn_calls_snoc ts t : turn_calls (ts ++ [t]) = turn_calls ts ++ turn t.1.1 t.1.2 t.2.
Proof. unfold turn_calls. rewrite flat_map_app. cbn. by rewrite app_nil_r. Qed.

(** The job ends: its turn joins the finished ones, complete if the stream is still open. *)
Lemma end_job_protocol s h0 h ts full r w n b :
  protocol s h0 ts full -> st_job s = Some (r, w) -> n <= 6 -> (3 <= n -> matches r b) ->
  h = turn_calls ts ++ turn r b n -> rd_capability r = st_capability s -> (opened s -> n = 6) ->
  exists ts' full', protocol (end_job s) h ts' full' /\ full <= full'.
Proof.
  intros [H1 H2 _ H4 [H5 H5'] H6] Hj Hn Hb Hm Hr Ho. exists (ts ++ [(r, b, n)]).
  exists (if is_open s then S full else full). split; [|case_match; lia]. constructor; cbn.
  - rewrite length_app, H1. cbn. lia.
  - apply Forall_app. split; [done|]. constructor; [|constructor]. split; [done|]. by split.
  - exists []. split; [|done]. rewrite turn_calls_snoc, app_nil_r. exact Hm.
  - done.
  - destruct (is_open s) eqn:E.
    + apply is_open_spec in E. specialize (H6 E). split; [rewrite length_app; cbn; lia|].
      rewrite H6 in *. rewrite take_ge in H5' by done. rewrite take_ge by (rewrite length_app; cbn; lia).
      apply Forall_app. split; [done|]. constructor; [by apply Ho|constructor].
    + split; [rewrite length_app; cbn; lia|]. by rewrite take_app_le.
  - intros E. assert (opened s) as Es by exact E. rewrite (proj2 (is_open_spec s) Es), (H6 Es), length_app. cbn. lia.
Qed.

(** The job waits for its next answer. *)
Lemma wait_protocol s s' h0 h ts full r w n b :
  protocol s h0 ts full -> st_capability s' = st_capability s -> st_finished s' = st_finished s ->
  st_queue s' = st_queue s -> (opened s' -> opened s) ->
  st_job s' = Some (r, w) -> n <= 6 -> (3 <= n -> matches r b) ->
  h = turn_calls ts ++ turn r b n -> rd_capability r = st_capability s ->
  match w with w_pull => n = 1 | w_consumer b' => n = 3 /\ b' = b | w_ack => n = 5 | w_cancel => ~ opened s' end ->
  protocol s' h ts full.
Proof.
  intros [H1 H2 _ H4 H5 H6] Hc Hf Hq Ho Hj Hn Hb Hm Hr Hw.
  constructor; [by rewrite Hf|by rewrite Hc| |by rewrite Hq, Hc|done|auto].
  eexists. split; [exact Hm|]. unfold current_ok. rewrite Hj, Hc. split; [done|]. by exists b, n.
Qed.

(** The running job fails: it is broken off where it is. *)
Lemma fail_job_protocol e s h0 h ts full r w n b :
  protocol s h0 ts full -> st_job s = Some (r, w) -> n <= 6 -> (3 <= n -> matches r b) ->
  h = turn_calls ts ++ turn r b n -> rd_capability r = st_capability s ->
  exists ts' full', protocol (fail_job r e s) h ts' full' /\ full <= full'.
Proof.
  intros H Hj Hn Hb Hm Hr. unfold fail_job.
  pose proof (fail_steady e s) as Hs. pose proof (fail_closed e s) as Hc. pose proof (fail_queue e s) as Hq.
  assert (protocol (fail e s).1 h0 ts full) as H'.
  { eapply steady_protocol; [exact Hs| |done]. rewrite Hq, (sd_capability _ _ Hs). apply (pt_queue _ _ _ _ H). }
  destruct (fail e s) as [s' waits]. cbn [fst] in *. destruct waits.
  - exists ts, full. split; [|done]. eapply (wait_protocol s'); try done. by rewrite Hr, (sd_capability _ _ Hs).
  - eapply (end_job_protocol s' h0 h ts full r w n b); try done.
    + by rewrite (sd_job _ _ Hs).
    + by rewrite (sd_capability _ _ Hs).
Qed.

Lemma main_call k s : is_main k = true -> main (call k s) = main s ++ [k].
Proof. intros Hk. unfold main. cbn [call st_log]. unfold filterb. cbn [List.filter]. rewrite Hk. done. Qed.
Lemma said_same s s' : main s' = main s -> said s s' = [].
Proof. intros E. unfold said. by rewrite E, drop_ge. Qed.
Lemma said_call s s' k : main s' = main s ++ [k] -> said s s' = [x_call k].
Proof. intros E. unfold said. by rewrite E, drop_app_length. Qed.
Lemma fail_job_main r e s : main (fail_job r e s) = main s /\ ~ opened (fail_job r e s).
Proof.
  unfold fail_job. pose proof (fail_steady e s) as Hs. pose proof (fail_closed e s) as Hc.
  destruct (fail e s) as [s' []]; cbn in *; split; (apply (sd_main _ _ Hs) || done).
Qed.
Lemma fail_job_said r e s : said s (fail_job r e s) = [].
Proof. apply said_same, fail_job_main. Qed.

(** What has passed after one more step. *)
Notation more h s y := (h ++ heard s y ++ said s (stream_step s y)).
Lemma begin_protocol s h ts full :
  protocol s h ts full -> exists ts' full', protocol (begin_job s) (more h s y_begin) ts' full' /\ full <= full'.
Proof.
  intros H. exists ts, full. split; [|done]. assert (heard s y_begin = []) as -> by (unfold heard; by destruct (st_job s) as [[? []]|]).
  cbn [stream_step app]. unfold begin_job. destruct (st_job s) as [[r w]|] eqn:Ej; [by rewrite said_same, app_nil_r|].
  destruct (st_queue s) as [|r queue] eqn:Eq; [by rewrite said_same, app_nil_r|].
  pose proof H as [H1 H2 (calls & Hm & Hcur) H4 H5 H6]. unfold current_ok in Hcur. rewrite Ej in Hcur. subst calls.
  rewrite app_nil_r in Hm. rewrite Eq in H4. apply Forall_cons in H4 as [Hr Hq].
  assert (protocol (set_queue queue s) h ts full) as H'.
  { constructor; try done. exists []. rewrite app_nil_r. split; [done|]. unfold current_ok. cbn. by rewrite Ej. }
  destruct (is_open (set_queue queue s)) eqn:Eo; cbn [negb].
  - rewrite (said_call s _ (k_pull (rd_operationId r) (rd_sequence r) (rd_capability r))); cycle 1.
    { change (main (wait_job ?r ?w ?s)) with (main s). rewrite main_call by done. done. }
    apply (wait_protocol (set_queue queue s) _ h _ ts full r w_pull 1 (ResultPages.mkBatch [] 0 None [] [] [])); try done; [lia|intros; lia|].
    by rewrite Hm.
  - rewrite said_same by done.
    apply (wait_protocol (set_queue queue s) _ h _ ts full r w_cancel 0 (ResultPages.mkBatch [] 0 None [] [] [])); try done; [lia|intros; lia| |].
    + rewrite app_nil_r. cbn. by rewrite app_nil_r.
    + apply is_open_false in Eo. exact Eo.
Qed.

Lemma pulled_protocol a s h ts full :
  protocol s h ts full -> exists ts' full', protocol (on_pulled a s) (more h s (y_pulled a)) ts' full' /\ full <= full'.
Proof.
  intros H. cbn [stream_step]. unfold on_pulled, heard. destruct (st_job s) as [[r [|b0| |]]|] eqn:Ej;
    try (exists ts, full; split; [|done]; by rewrite said_same, app_nil_r).
  pose proof (pt_main _ _ _ _ H) as (calls & Hm & Hcur). unfold current_ok in Hcur. rewrite Ej in Hcur.
  destruct Hcur as (Hr & b & n & -> & Hn & Hb & ->).
  destruct a as [[batch|]|e]; [|rewrite fail_job_said, app_nil_r; by eapply (fail_job_protocol _ s h h ts full r w_pull 1 b)..].
  assert (h ++ [x_answered batch] = turn_calls ts ++ turn r batch 2) as Hm2 by (rewrite Hm; by rewrite <- app_assoc).
  destruct (negb (ba_operationId batch ==s rd_operationId r) || negb (ba_sequence batch =? rd_sequence r)) eqn:Em.
  { rewrite fail_job_said, app_nil_r. by eapply (fail_job_protocol _ s h _ ts full r w_pull 2 batch); try done; [lia|intros; lia]. }
  apply orb_false_iff in Em as [E1 E2]. bools. apply Nat.eqb_eq in E2.
  destruct (is_open s) eqn:Eo; cbn [negb].
  - exists ts, full. split; [|done]. assert (matches r batch) as Hmatch by (by split).
    rewrite (said_call s _ (k_batch batch (rd_capability r))); cycle 1.
    { change (main (wait_job ?r ?w ?s)) with (main s). by rewrite main_call. }
    apply (wait_protocol s _ h _ ts full r (w_consumer batch) 3 batch); try done; [lia|].
    rewrite app_assoc, Hm2. by rewrite <- app_assoc.
  - rewrite said_same, app_nil_r by done. eapply (end_job_protocol s h _ ts full r w_pull 2 batch); try done; [lia|].
    intros Hs. by apply is_open_false in Eo.
Qed.

Lemma consumed_protocol a s h ts full :
  protocol s h ts full -> exists ts' full', protocol (on_consumed a s) (more h s (y_consumed a)) ts' full' /\ full <= full'.
Proof.
  intros H. cbn [stream_step]. unfold on_consumed, heard. destruct (st_job s) as [[r [|b0| |]]|] eqn:Ej;
    try (exists ts, full; split; [|done]; by rewrite said_same, app_nil_r).
  pose proof (pt_main _ _ _ _ H) as (calls & Hm & Hcur). unfold current_ok in Hcur. rewrite Ej in Hcur.
  destruct Hcur as (Hr & b & n & -> & Hn & Hb & -> & ->).
  destruct a as [[]|e]; [|rewrite fail_job_said, app_nil_r; by eapply (fail_job_protocol _ s h h ts full r (w_consumer b) 3 b)].
  assert (h ++ [x_accepted b] = turn_calls ts ++ turn r b 4) as Hm2 by (rewrite Hm; by rewrite <- app_assoc).
  destruct (is_open s) eqn:Eo; cbn [negb].
  - exists ts, full. split; [|done].
    rewrite (said_call s _ (k_ack (rd_operationId r) (rd_sequence r) (rd_capability r))); cycle 1.
    { change (main (wait_job ?r ?w ?s)) with (main s). by rewrite main_call. }
    apply (wait_protocol s _ h _ ts full r w_ack 5 b); try done; [lia|intros; by apply Hb|].
    rewrite app_assoc, Hm2. by rewrite <- app_assoc.
  - rewrite said_same by done. eapply (end_job_protocol s h _ ts full r (w_consumer b) 4 b); try done; [lia|intros; by apply Hb|].
    intros Hs. by apply is_open_false in Eo.
Qed.

Lemma acknowledged_protocol a s h ts full :
  protocol s h ts full -> exists ts' full', protocol (on_acknowledged a s) (more h s (y_acknowledged a)) ts' full' /\ full <= full'.
Proof.
  intros H. cbn [stream_step]. unfold on_acknowledged, heard. destruct (st_job s) as [[r [|b0| |]]|] eqn:Ej;
    try (exists ts, full; split; [|done]; by rewrite said_same, app_nil_r).
  pose proof (pt_main _ _ _ _ H) as (calls & Hm & Hcur). unfold current_ok in Hcur. rewrite Ej in Hcur.
  destruct Hcur as (Hr & b & n & -> & Hn & Hb & ->).
  destruct a as [[]|e]; [|rewrite fail_job_said, app_nil_r; by eapply (fail_job_protocol _ s h h ts full r w_ack 5 b)..].
  rewrite said_same by done. eapply (end_job_protocol s h _ ts full r w_ack 6 b); try done; [intros; apply Hb; lia|].
  rewrite Hm. by rewrite <- app_assoc.
Qed.

Lemma job_cancelled_protocol s h ts full :
  protocol s h ts full -> exists ts' full', protocol (on_job_cancelled s) (more h s y_job_cancelled) ts' full' /\ full <= full'.
Proof.
  intros H. cbn [stream_step]. unfold on_job_cancelled, heard. destruct (st_job s) as [[r [|b0| |]]|] eqn:Ej;
    try (exists ts, full; split; [|done]; by rewrite said_same, app_nil_r).
  pose proof (pt_main _ _ _ _ H) as (calls & Hm & Hcur). unfold current_ok in Hcur. rewrite Ej in Hcur.
  destruct Hcur as (Hr & b & n & -> & Hn & Hb & Hw). rewrite said_same, app_nil_r by done.
  eapply (end_job_protocol s h h ts full r w_cancel n b); try done.
Qed.

(** *** The other steps are steady *)

Lemma ready_steady r s : steady s (on_ready r s) /\
  (Forall (fun r => rd_capability r = st_capability s) (st_queue s) ->
   Forall (fun r => rd_capability r = st_capability s) (st_queue (on_ready r s))).
Proof.
  unfold on_ready. destruct (negb (st_listening s)); [by split; [apply steady_refl|]|].
  destruct (negb (is_open s)); [by split; [apply send_steady|]|].
  destruct (_ || _) eqn:E; [by split; [apply fail_steady|rewrite fail_queue]|].
  split; [by constructor|]. intros Hq. cbn. apply Forall_app. split; [done|]. constructor; [|constructor].
  apply orb_false_iff in E as [E _]. by bools.
Qed.

Lemma completion_steady s y :
  match y with y_started _ | y_drained | y_thrown | y_completion_cancelled | y_cancel => True | _ => False end ->
  steady s (stream_step s y) /\ st_queue (stream_step s y) = st_queue s.
Proof.
  destruct y as [r| | |a|a|a| |a| | |]; try done; intros _; cbn [stream_step].
  - split; [apply cancel_steady|]. unfold cancel. by destruct (is_open s).
  - unfold on_started. destruct (st_completion s); try (split; [apply steady_refl|done]).
    destruct a; split; (by constructor || done).
  - unfold on_drained. destruct (st_completion s) as [|jobs rc| | | |]; try (split; [apply steady_refl|done]).
    destruct (st_finished s <? jobs); [split; [apply steady_refl|done]|].
    destruct (st_terminal s) eqn:Et; try (split; [by constructor|done]);
      (destruct (_ && _); [split; [by constructor|done]|]; unfold is_open; rewrite Et;
       split; [constructor; try done; unfold opened; cbn; congruence|done]).
  - unfold on_thrown. destruct (st_completion s) as [| | |e| |]; try (split; [apply steady_refl|done]).
    pose proof (fail_steady e s) as Hs. pose proof (fail_queue e s) as Hq. destruct (fail e s) as [s' []]; cbn in *;
      (split; [|done]); eapply steady_trans; [exact Hs|by constructor|exact Hs|by constructor].
  - unfold on_completion_cancelled. destruct (st_completion s); split; (by constructor || done || apply steady_refl).
Qed.

Lemma step_protocol s h y ts full :
  protocol s h ts full -> exists ts' full', protocol (stream_step s y) (more h s y) ts' full' /\ full <= full'.
Proof.
  intros H.
  assert (match y with y_started _ | y_drained | y_thrown | y_completion_cancelled | y_cancel => True | _ => False end ->
    protocol (stream_step s y) (more h s y) ts full) as Hc.
  { intros Hy. destruct (completion_steady s y Hy) as [Hs Hq]. rewrite said_same by apply (sd_main _ _ Hs).
    assert (heard s y = []) as -> by (unfold heard; destruct (st_job s) as [[? []]|]; by destruct y). rewrite app_nil_r.
    eapply steady_protocol; [exact Hs| |done]. rewrite Hq, (sd_capability _ _ Hs). apply (pt_queue _ _ _ _ H). }
  destruct y as [r| | |a|a|a| |a| | |]; try (exists ts, full; split; [by apply Hc|done]).
  - exists ts, full. split; [|done]. destruct (ready_steady r s) as [Hs Hq]. cbn [stream_step].
    rewrite said_same by apply (sd_main _ _ Hs). assert (heard s (y_ready r) = []) as -> by (unfold heard; by destruct (st_job s) as [[? []]|]).
    rewrite app_nil_r. eapply steady_protocol; [exact Hs| |done]. rewrite (sd_capability _ _ Hs). apply Hq. exact (pt_queue s h ts full H).
  - by eapply begin_protocol.
  - by eapply pulled_protocol.
  - by eapply consumed_protocol.
  - by eapply acknowledged_protocol.
  - by eapply job_cancelled_protocol.
Qed.

Lemma steps_protocol s h ys ts full :
  protocol s h ts full -> exists ts' full', protocol (foldl stream_step s ys) (h ++ history s ys) ts' full' /\ full <= full'.
Proof.
  revert s h ts full. induction ys as [|y ys IH]; intros s h ts full H; [exists ts, full; by rewrite app_nil_r|].
  destruct (step_protocol s h y ts full H) as (ts1 & full1 & H1 & Hle). cbn [foldl history].
  destruct (IH _ _ _ _ H1) as (ts2 & full2 & H2 & Hle'). exists ts2, full2. rewrite app_assoc. split; [done|lia].
Qed.
Lemma history_app s ys ys' : history s (ys ++ ys') = history s ys ++ history (foldl stream_step s ys) ys'.
Proof. revert s. induction ys as [|y ys IH]; intros s; [done|]. cbn. by rewrite IH, app_assoc. Qed.

(** ** A closed stream *)

Lemma end_main s : main (end_job s) = main s.
Proof. done. Qed.

(** Nothing more is pulled, handed over or acknowledged, and the stream does not reopen. *)
Lemma closed_step s y : ~ opened s -> main (stream_step s y) = main s /\ ~ opened (stream_step s y).
Proof.
  intros Hc. assert (forall s', steady s s' -> main s' = main s /\ ~ opened s') as Hs.
  { intros s' H. split; [apply (sd_main _ _ H)|]. intros Ho. by apply Hc, (sd_open _ _ H). }
  apply is_open_false in Hc as Eo.
  destruct y as [r| | |a|a|a| |a| | |]; cbn [stream_step].
  - apply Hs, ready_steady.
  - apply Hs, (completion_steady s y_cancel I).
  - unfold begin_job. destruct (st_job s), (st_queue s) as [|r q]; try done.
    change (is_open (set_queue q s)) with (is_open s). rewrite Eo. done.
  - unfold on_pulled. destruct (st_job s) as [[r [|b0| |]]|]; try done.
    destruct a as [[b|]|e]; [|apply fail_job_main|apply fail_job_main].
    destruct (_ || _); [apply fail_job_main|]. by rewrite Eo.
  - unfold on_consumed. destruct (st_job s) as [[r [|b0| |]]|]; try done.
    destruct a as [[]|e]; [|apply fail_job_main]. by rewrite Eo.
  - unfold on_acknowledged. destruct (st_job s) as [[r [|b0| |]]|]; try done.
    destruct a as [[]|e]; [done|apply fail_job_main..].
  - unfold on_job_cancelled. by destruct (st_job s) as [[r [|b0| |]]|].
  - apply Hs, (completion_steady s (y_started a) I).
  - apply Hs, (completion_steady s y_drained I).
  - apply Hs, (completion_steady s y_thrown I).
  - apply Hs, (completion_steady s y_completion_cancelled I).
Qed.

Lemma closed_steps s ys : ~ opened s -> main (foldl stream_step s ys) = main s /\ ~ opened (foldl stream_step s ys).
Proof.
  revert s. induction ys as [|y ys IH]; intros s Hc; [done|]. destruct (closed_step s y Hc) as [Hm Ho].
  cbn. destruct (IH _ Ho) as [Hm' Ho']. split; [by rewrite Hm', Hm|done].
Qed.

(** The one cancellation that ends a stream names its operation and its capability. *)
Definition ending (s : stream) : stream_call :=
  k_cancel (if non_empty (st_operation s) then Some (st_operation s) else None) (st_capability s).

Lemma fail_ends e s : opened s -> st_log (fail e s).1 = ending s :: st_log s /\ st_terminal (fail e s).1 = t_error.
Proof. intros Ho%is_open_spec. unfold fail. by rewrite Ho. Qed.

Lemma fail_job_ends r e s :
  opened s -> st_log (fail_job r e s) = ending s :: st_log s /\ st_terminal (fail_job r e s) = t_error.
Proof.
  intros Ho. unfold fail_job. pose proof (fail_ends e s Ho) as [H1 H2]. by destruct (fail e s) as [s' []].
Qed.

Lemma closing_step s y :
  opened s -> ~ opened (stream_step s y) ->
  st_terminal (stream_step s y) = t_completed \/ st_log (stream_step s y) = ending s :: st_log s.
Proof.
  intros Ho. pose proof (proj2 (is_open_spec s) Ho) as Eo.
  assert (forall r e, st_terminal (fail_job r e s) = t_completed \/ st_log (fail_job r e s) = ending s :: st_log s) as Hf
    by (intros; right; by apply fail_job_ends).
  destruct y as [r| | |a|a|a| |a| | |]; cbn [stream_step].
  - unfold on_ready. destruct (negb (st_listening s)); [done|]. rewrite Eo. cbn [negb]. destruct (_ || _); [|done].
    right. by apply fail_ends.
  - unfold cancel. rewrite Eo. by right.
  - unfold begin_job. destruct (st_job s), (st_queue s) as [|r q]; try done.
    change (is_open (set_queue q s)) with (is_open s). by rewrite Eo.
  - unfold on_pulled. destruct (st_job s) as [[r [|b0| |]]|]; try done.
    destruct a as [[b|]|e]; [|intros _; apply Hf..]. destruct (_ || _); [intros _; apply Hf|]. by rewrite Eo.
  - unfold on_consumed. destruct (st_job s) as [[r [|b0| |]]|]; try done.
    destruct a as [[]|e]; [|intros _; apply Hf]. by rewrite Eo.
  - unfold on_acknowledged. destruct (st_job s) as [[r [|b0| |]]|]; try done.
    destruct a as [[]|e]; [done|intros _; apply Hf..].
  - unfold on_job_cancelled. by destruct (st_job s) as [[r [|b0| |]]|].
  - unfold on_started. destruct (st_completion s); try done. by destruct a.
  - unfold on_drained. destruct (st_completion s) as [|jobs rc| | | |]; try done.
    destruct (st_finished s <? jobs); [done|]. rewrite Ho. destruct (_ && _); [by right|]. rewrite Eo. by left.
  - unfold on_thrown. destruct (st_completion s) as [| | |e| |]; try done.
    pose proof (fail_ends e s Ho) as [H1 H2]. destruct (fail e s) as [s' []]; intros _; right; exact H1.
  - unfold on_completion_cancelled. by destruct (st_completion s).
Qed.

(** ** Completion *)

(** The ready batches announced so far. *)
Definition announced (s : stream) : nat :=
  st_finished s + (match st_job s with Some _ => 1 | None => 0 end) + length (st_queue s).

(** The state of a started stream whose completion waits for the first [n] jobs. *)
Record awaiting (n : nat) (receipt : SqlStreamReceipt) (s : stream) (full : nat) : Prop := mkAwaiting {
  aw_state : st_completion s = c_queue n receipt \/
    (exists e, st_completion s = c_cancel e \/ st_completion s = c_throw e \/ st_completion s = c_rejected e) \/
    (st_completion s = c_resolved receipt /\
     (st_terminal s = t_completed \/ st_terminal s = t_cancelled) /\
     (non_empty (st_operation s) = true -> sr_operationId receipt = st_operation s) /\
     st_listening s = false);
  aw_full : st_terminal s = t_completed -> n <= full }.

Lemma awaiting_same n receipt s s' full full' :
  awaiting n receipt s full -> full <= full' -> st_completion s' = st_completion s ->
  st_terminal s' = st_terminal s \/ (opened s /\ st_terminal s' <> t_completed) ->
  st_operation s' = st_operation s -> st_listening s' = st_listening s ->
  awaiting n receipt s' full'.
Proof.
  intros [H1 H2] Hf Hc Ht Hop Hl. constructor.
  - rewrite Hc, Hop, Hl. destruct H1 as [H1|[H1|(H1 & Hter & Ho & Hm)]]; [by left|right; by left|right; right].
    split; [done|]. split; [|done]. destruct Ht as [->|[Hopen _]]; [done|]. unfold opened in Hopen.
    rewrite Hopen in Hter. by destruct Hter.
  - intros E. destruct Ht as [Ht|[_ Ht]]; [rewrite Ht in E; specialize (H2 E); lia|done].
Qed.

Lemma fail_same e s :
  st_completion (fail e s).1 = st_completion s /\ st_operation (fail e s).1 = st_operation s /\
  st_listening (fail e s).1 = st_listening s /\
  (st_terminal (fail e s).1 = st_terminal s \/ (opened s /\ st_terminal (fail e s).1 <> t_completed)).
Proof.
  unfold fail. destruct (is_open s) eqn:E; [|by auto]. apply is_open_spec in E. cbn. by repeat split; auto.
Qed.

Lemma fail_job_same r e s :
  st_completion (fail_job r e s) = st_completion s /\ st_operation (fail_job r e s) = st_operation s /\
  st_listening (fail_job r e s) = st_listening s /\
  (st_terminal (fail_job r e s) = st_terminal s \/ (opened s /\ st_terminal (fail_job r e s) <> t_completed)).
Proof.
  unfold fail_job. pose proof (fail_same e s) as H. by destruct (fail e s) as [s' []].
Qed.

(** A step of the job changes none of the completion's state, but for a failure. *)
Lemma job_step_same s y :
  match y with y_begin | y_pulled _ | y_consumed _ | y_acknowledged _ | y_job_cancelled | y_cancel => True | _ => False end ->
  st_completion (stream_step s y) = st_completion s /\ st_operation (stream_step s y) = st_operation s /\
  st_listening (stream_step s y) = st_listening s /\
  (st_terminal (stream_step s y) = st_terminal s \/ (opened s /\ st_terminal (stream_step s y) <> t_completed)).
Proof.
  assert (forall s', st_completion s' = st_completion s -> st_operation s' = st_operation s ->
    st_listening s' = st_listening s -> st_terminal s' = st_terminal s ->
    st_completion s' = st_completion s /\ st_operation s' = st_operation s /\
    st_listening s' = st_listening s /\ (st_terminal s' = st_terminal s \/ (opened s /\ st_terminal s' <> t_completed))) as Hk
    by auto.
  destruct y as [r| | |a|a|a| |a| | |]; try done; intros _; cbn [stream_step].
  - unfold cancel. destruct (is_open s) eqn:E; [|by auto]. apply is_open_spec in E. cbn. by repeat split; auto.
  - unfold begin_job. destruct (st_job s), (st_queue s) as [|r q]; try (by apply Hk).
    destruct (negb _); by apply Hk.
  - unfold on_pulled. destruct (st_job s) as [[r [|b0| |]]|]; try (by apply Hk).
    destruct a as [[b|]|e]; [|apply fail_job_same..]. destruct (_ || _); [apply fail_job_same|].
    destruct (negb _); by apply Hk.
  - unfold on_consumed. destruct (st_job s) as [[r [|b0| |]]|]; try (by apply Hk).
    destruct a as [[]|e]; [|apply fail_job_same]. destruct (negb _); by apply Hk.
  - unfold on_acknowledged. destruct (st_job s) as [[r [|b0| |]]|]; try (by apply Hk).
    destruct a as [[]|e]; [by apply Hk|apply fail_job_same..].
  - unfold on_job_cancelled. destruct (st_job s) as [[r [|b0| |]]|]; by apply Hk.
Qed.

Lemma awaiting_ready n receipt r s full :
  awaiting n receipt s full -> awaiting n receipt (on_ready r s) full.
Proof.
  intros H. unfold on_ready. destruct (st_listening s) eqn:El; cbn [negb]; [|done].
  destruct (is_open s) eqn:Eo; cbn [negb]; [|apply (awaiting_same n receipt s _ full full); (done || by left)].
  apply is_open_spec in Eo. destruct (_ || _).
  { destruct (fail_same se_ready_owner s) as (H1 & H2 & H3 & H4). by eapply (awaiting_same n receipt s). }
  destruct H as [H1 H2]. constructor; [|exact H2]. cbn.
  destruct H1 as [H1|[H1|(_ & _ & _ & Hl)]]; [by left|right; by left|congruence].
Qed.

Lemma awaiting_drained n receipt s h ts full :
  protocol s h ts full -> awaiting n receipt s full -> awaiting n receipt (on_drained s) full.
Proof.
  intros Hp H. unfold on_drained. destruct (st_completion s) as [|jobs rc| | | |] eqn:Ec; try done.
  destruct (Nat.ltb_spec (st_finished s) jobs) as [|Hge]; [done|].
  assert (jobs = n /\ rc = receipt) as [-> ->].
  { destruct (aw_state _ _ _ _ H) as [E|[(e & [E|[E|E]])|[E _]]]; rewrite Ec in E; try done. by injection E. }
  destruct (st_terminal s) eqn:Et.
  - destruct (_ && _) eqn:Em.
    + constructor; [right; left; eexists; by left|done].
    + unfold is_open. rewrite Et. constructor; cbn.
      * right; right. split; [done|]. split; [by left|]. split; [|done]. intros Hne. rewrite Hne in Em. cbn in Em. by bools.
      * intros _. rewrite (pt_open _ _ _ _ Hp Et), (pt_finished _ _ _ _ Hp). done.
  - destruct (_ && _) eqn:Em.
    + constructor; [right; left; eexists; by left|done].
    + unfold is_open. rewrite Et. constructor; cbn; [|by rewrite Et].
      right; right. split; [done|]. split; [by right|]. split; [|done]. intros Hne. rewrite Hne in Em. cbn in Em. by bools.
  - destruct (_ && _) eqn:Em.
    + constructor; [right; left; eexists; by left|done].
    + unfold is_open. rewrite Et. constructor; cbn.
      * right; right. split; [done|]. split; [by left|]. split; [|done]. intros Hne. rewrite Hne in Em. cbn in Em. by bools.
      * intros _. by apply (aw_full _ _ _ _ H).
  - constructor; [right; left; eexists; right; left; done|]. cbn. by rewrite Et.
Qed.

Lemma awaiting_step n receipt s h y ts full :
  protocol s h ts full -> awaiting n receipt s full ->
  exists ts' full', protocol (stream_step s y) (more h s y) ts' full' /\ awaiting n receipt (stream_step s y) full'.
Proof.
  intros Hp H. destruct (step_protocol s h y ts full Hp) as (ts' & full' & Hp' & Hle).
  assert (forall s', awaiting n receipt s' full -> awaiting n receipt s' full') as Hw.
  { intros s' [H1 H2]. constructor; [done|]. intros E. specialize (H2 E). lia. }
  exists ts', full'. split; [done|].
  destruct (match y with y_begin | y_pulled _ | y_consumed _ | y_acknowledged _ | y_job_cancelled | y_cancel => true | _ => false end) eqn:Ej.
  { destruct (job_step_same s y) as (H1 & H2 & H3 & H4); [by destruct y|]. by eapply (awaiting_same n receipt s). }
  apply Hw. destruct y as [r| | |a|a|a| |a| | |]; try done; cbn [stream_step].
  - by apply awaiting_ready.
  - unfold on_started. destruct (aw_state _ _ _ _ H) as [E|[(e & [E|[E|E]])|[E _]]]; by rewrite E.
  - by eapply awaiting_drained.
  - unfold on_thrown. destruct (st_completion s) as [| | |e| |] eqn:Ec; try done.
    pose proof (fail_same e s) as (H1 & H2 & H3 & H4). destruct (fail e s) as [s' waits]. cbn [fst] in *.
    assert (st_terminal s' = t_completed -> n <= full) as Hfull.
    { intros E. destruct H4 as [H4|[_ H4]]; [rewrite H4 in E; by apply (aw_full _ _ _ _ H)|done]. }
    destruct waits; constructor; try done; right; left; eexists; [by left|by right; right].
  - unfold on_completion_cancelled. destruct (st_completion s) as [| |e| | |] eqn:Ec; try done.
    constructor; [right; left; eexists; by right; right|]. exact (aw_full _ _ _ _ H).
Qed.

Lemma awaiting_steps n receipt s h ys ts full :
  protocol s h ts full -> awaiting n receipt s full ->
  exists ts' full', protocol (foldl stream_step s ys) (h ++ history s ys) ts' full' /\ awaiting n receipt (foldl stream_step s ys) full'.
Proof.
  revert s h ts full. induction ys as [|y ys IH]; intros s h ts full Hp H; [exists ts, full; by rewrite app_nil_r|].
  destruct (awaiting_step n receipt s h y ts full Hp H) as (ts1 & full1 & Hp1 & H1). cbn [foldl history].
  rewrite app_assoc. by apply (IH _ _ ts1 full1).
Qed.

(** A start command answers while its stream has not been completed. *)
Lemma start_not_completed op cap ys :
  st_completion (stream_run op cap ys) = c_start -> st_terminal (stream_run op cap ys) <> t_completed.
Proof.
  unfold stream_run. enough (forall s, (st_completion s = c_start -> st_terminal s <> t_completed) ->
    st_completion (foldl stream_step s ys) = c_start -> st_terminal (foldl stream_step s ys) <> t_completed) as H by by apply H.
  induction ys as [|y ys IH]; intros s Hs; [done|]. cbn. apply IH.
  destruct (match y with y_begin | y_pulled _ | y_consumed _ | y_acknowledged _ | y_job_cancelled | y_cancel => true | _ => false end) eqn:Ej.
  { destruct (job_step_same s y) as (H1 & _ & _ & H4); [by destruct y|]. rewrite H1. intros E. specialize (Hs E).
    destruct H4 as [->|[_ H4]]; done. }
  destruct y as [r| | |a|a|a| |a| | |]; try done; cbn [stream_step].
  - unfold on_ready. destruct (negb (st_listening s)); [done|]. destruct (negb (is_open s)); [done|].
    destruct (_ || _); [|done]. destruct (fail_same se_ready_owner s) as (H1 & _ & _ & H4). rewrite H1.
    intros E. specialize (Hs E). destruct H4 as [->|[_ H4]]; done.
  - unfold on_started. destruct (st_completion s) eqn:Ec; try by rewrite Ec. by destruct a.
  - unfold on_drained. destruct (st_completion s) as [|jobs rc| | | |] eqn:Ec; try by rewrite Ec.
    destruct (_ <? _); [by rewrite Ec|]. destruct (st_terminal s); try done; by destruct (_ && _).
  - unfold on_thrown. destruct (st_completion s) as [| | |e| |] eqn:Ec; try by rewrite Ec.
    by destruct (fail e s) as [s' []].
  - unfold on_completion_cancelled. destruct (st_completion s) eqn:Ec; try by rewrite Ec. done.
Qed.

(** ** Settling *)

Definition settled (s : stream) : bool := match st_completion s with c_resolved _ | c_rejected _ => true | _ => false end.

(** The turns and answers that a state waits for. *)
Definition enabled (y : stream_input) (s : stream) : bool :=
  match y, st_job s, st_completion s with
  | y_begin, None, _ => match st_queue s with [] => false | _ => true end
  | y_pulled _, Some (_, w_pull), _ => true
  | y_consumed _, Some (_, w_consumer _), _ => true
  | y_acknowledged _, Some (_, w_ack), _ => true
  | y_job_cancelled, Some (_, w_cancel), _ => true
  | y_drained, _, c_queue n _ => n <=? st_finished s
  | y_thrown, _, c_throw _ => true
  | y_completion_cancelled, _, c_cancel _ => true
  | _, _, _ => false
  end.

Definition job_measure (j : option (SqlStreamReady * job_wait)) : nat :=
  match j with
  | None => 0 | Some (_, w_cancel) => 1 | Some (_, w_ack) => 2 | Some (_, w_consumer _) => 3 | Some (_, w_pull) => 4
  end.
Definition completion_measure (c : completion_state) : nat :=
  match c with c_start => 4 | c_queue _ _ => 3 | c_throw _ => 2 | c_cancel _ => 1 | _ => 0 end.
Definition measure (s : stream) : nat :=
  5 * length (st_queue s) + job_measure (st_job s) + completion_measure (st_completion s).

(** The jobs that the completion waits for are finished, running or queued. *)
Definition covered (s : stream) : Prop := match st_completion s with c_queue n _ => n <= announced s | _ => True end.

Lemma fail_frame e s : st_queue (fail e s).1 = st_queue s /\ st_job (fail e s).1 = st_job s /\
  st_finished (fail e s).1 = st_finished s /\ st_completion (fail e s).1 = st_completion s.
Proof. unfold fail. by destruct (is_open s). Qed.

Lemma fail_job_frame r e s :
  st_queue (fail_job r e s) = st_queue s /\ st_completion (fail_job r e s) = st_completion s /\
  ((st_job (fail_job r e s) = Some (r, w_cancel) /\ st_finished (fail_job r e s) = st_finished s)
   \/ (st_job (fail_job r e s) = None /\ st_finished (fail_job r e s) = S (st_finished s))).
Proof.
  unfold fail_job. pose proof (fail_frame e s) as (H1 & H2 & H3 & H4). destruct (fail e s) as [s' []]; cbn in *.
  - split; [done|]. split; [done|]. by left.
  - split; [done|]. split; [done|]. right. by rewrite H3.
Qed.

(** Every step keeps the count of announced jobs, or adds one. *)
Lemma announced_step s y : announced s <= announced (stream_step s y).
Proof.
  assert (forall r e, announced s <= announced (fail_job r e s) \/ st_job s = None) as Hf.
  { intros r e. unfold announced. destruct (fail_job_frame r e s) as (Hq & _ & [[-> ->]|[-> ->]]); rewrite Hq;
      destruct (st_job s); [left; lia|by right|left; lia|by right]. }
  assert (forall r w e, st_job s = Some (r, w) -> announced s <= announced (fail_job r e s)) as Hfj.
  { intros r w e Hj. destruct (Hf r e) as [|E]; [done|congruence]. }
  destruct y as [r| | |a|a|a| |a| | |]; cbn [stream_step].
  - unfold on_ready. destruct (negb (st_listening s)); [done|]. destruct (negb (is_open s)); [done|].
    destruct (_ || _); [|unfold announced; cbn; rewrite length_app; lia].
    destruct (fail_frame se_ready_owner s) as (H1 & H2 & H3 & _). unfold announced. by rewrite H1, H2, H3.
  - unfold cancel. by destruct (is_open s).
  - unfold begin_job. destruct (st_job s) as [[??]|] eqn:Ej; [done|]. destruct (st_queue s) as [|r q] eqn:Eq; [done|].
    unfold announced. rewrite Ej, Eq. destruct (negb _); cbn; lia.
  - unfold on_pulled. destruct (st_job s) as [[r [|b0| |]]|] eqn:Ej; try done.
    destruct a as [[b|]|e]; [|by eapply Hfj..]. destruct (_ || _); [by eapply Hfj|].
    unfold announced. rewrite Ej. destruct (negb _); cbn; lia.
  - unfold on_consumed. destruct (st_job s) as [[r [|b0| |]]|] eqn:Ej; try done.
    destruct a as [[]|e]; [|by eapply Hfj]. unfold announced. rewrite Ej. destruct (negb _); cbn; lia.
  - unfold on_acknowledged. destruct (st_job s) as [[r [|b0| |]]|] eqn:Ej; try done.
    destruct a as [[]|e]; [|by eapply Hfj..]. unfold announced. rewrite Ej. cbn. lia.
  - unfold on_job_cancelled. destruct (st_job s) as [[r [|b0| |]]|] eqn:Ej; try done. unfold announced. rewrite Ej. cbn. lia.
  - unfold on_started. destruct (st_completion s); try done. by destruct a.
  - unfold on_drained. destruct (st_completion s) as [|jobs rc| | | |]; try done. destruct (_ <? _); [done|].
    destruct (st_terminal s) eqn:Et; try done; (destruct (_ && _); [done|]); unfold is_open; by rewrite Et.
  - unfold on_thrown. destruct (st_completion s) as [| | |e| |]; try done.
    destruct (fail_frame e s) as (H1 & H2 & H3 & _). unfold announced in *.
    destruct (fail e s) as [s' []]; cbn in *; by rewrite H1, H2, H3.
  - unfold on_completion_cancelled. by destruct (st_completion s).
Qed.

Lemma covered_step s y : covered s -> covered (stream_step s y).
Proof.
  intros H. pose proof (announced_step s y) as Ha. unfold covered in *.
  destruct (match y with y_begin | y_pulled _ | y_consumed _ | y_acknowledged _ | y_job_cancelled | y_cancel => true | _ => false end) eqn:Ej.
  { destruct (job_step_same s y) as (H1 & _); [by destruct y|]. rewrite H1. destruct (st_completion s); (lia || done). }
  destruct y as [r| | |a|a|a| |a| | |]; try done; cbn [stream_step] in *.
  - assert (st_completion (on_ready r s) = st_completion s) as ->.
    { unfold on_ready. destruct (negb (st_listening s)); [done|]. destruct (negb (is_open s)); [done|].
      destruct (_ || _); [|done]. apply fail_frame. }
    destruct (st_completion s); (lia || done).
  - unfold on_started in *. destruct (st_completion s) eqn:Ec; rewrite ?Ec in *; try (lia || done). by destruct a.
  - unfold on_drained in *. destruct (st_completion s) as [|jobs rc| | | |] eqn:Ec; rewrite ?Ec; try done.
    destruct (_ <? _); [by rewrite Ec|]. destruct (st_terminal s); try done; by destruct (_ && _).
  - unfold on_thrown in *. destruct (st_completion s) as [| | |e| |] eqn:Ec; rewrite ?Ec in *; try (lia || done).
    by destruct (fail e s) as [s' []].
  - unfold on_completion_cancelled in *. destruct (st_completion s) eqn:Ec; rewrite ?Ec in *; (lia || done).
Qed.

Lemma run_covered op cap ys : covered (stream_run op cap ys).
Proof.
  unfold stream_run. assert (covered (startSqlStream op cap)) as H by done. revert H. generalize (startSqlStream op cap).
  induction ys as [|y ys IH]; intros s H; [done|]. apply IH. by apply covered_step.
Qed.

(** Each enabled input brings the end nearer. *)
Lemma enabled_decreases s y : enabled y s = true -> measure (stream_step s y) < measure s.
Proof.
  assert (forall r w e, st_job s = Some (r, w) -> w <> w_cancel -> measure (fail_job r e s) < measure s) as Hf.
  { intros r w e Hj Hw. unfold measure. destruct (fail_job_frame r e s) as (-> & -> & [[-> _]|[-> _]]); rewrite Hj;
      destruct w; (done || cbn; lia). }
  unfold enabled. destruct y as [r| | |a|a|a| |a| | |]; try done; cbn [stream_step]; try (by destruct (st_job s) as [[??]|]).
  - unfold begin_job. destruct (st_job s) as [[??]|] eqn:Ej; [done|]. destruct (st_queue s) as [|r q] eqn:Eq; [done|].
    intros _. unfold measure. rewrite Ej, Eq. destruct (negb _); cbn; lia.
  - unfold on_pulled. destruct (st_job s) as [[r [|b0| |]]|] eqn:Ej; try done. intros _.
    destruct a as [[b|]|e]; [|by eapply Hf..]. destruct (_ || _); [by eapply Hf|].
    unfold measure. rewrite Ej. destruct (negb _); cbn; lia.
  - unfold on_consumed. destruct (st_job s) as [[r [|b0| |]]|] eqn:Ej; try done. intros _.
    destruct a as [[]|e]; [|by eapply Hf]. unfold measure. rewrite Ej. destruct (negb _); cbn; lia.
  - unfold on_acknowledged. destruct (st_job s) as [[r [|b0| |]]|] eqn:Ej; try done. intros _.
    destruct a as [[]|e]; [|by eapply Hf..]. unfold measure. rewrite Ej. cbn. lia.
  - unfold on_job_cancelled. destruct (st_job s) as [[r [|b0| |]]|] eqn:Ej; try done. intros _.
    unfold measure. rewrite Ej. cbn. lia.
  - intros H. assert (exists n rc, st_completion s = c_queue n rc /\ n <= st_finished s) as (n & rc & Ec & Hn).
    { destruct (st_job s) as [[? []]|], (st_completion s) as [|n rc| | | |]; try done; apply Nat.leb_le in H; by exists n, rc. }
    unfold on_drained. rewrite Ec. rewrite (proj2 (Nat.ltb_ge _ _)) by done. unfold measure. rewrite Ec.
    destruct (st_terminal s) eqn:Et; try (cbn; lia); (destruct (_ && _); [cbn; lia|]); unfold is_open; rewrite Et; cbn; lia.
  - intros H. assert (exists e, st_completion s = c_throw e) as (e & Ec).
    { destruct (st_job s) as [[? []]|], (st_completion s) as [| | |e| |]; try done; by exists e. }
    unfold on_thrown. rewrite Ec. destruct (fail_frame e s) as (H1 & H2 & H3 & H4). unfold measure. rewrite Ec.
    destruct (fail e s) as [s' []]; cbn in *; rewrite H1, H2; lia.
  - intros H. assert (exists e, st_completion s = c_cancel e) as (e & Ec).
    { destruct (st_job s) as [[? []]|], (st_completion s) as [| |e| | |]; try done; by exists e. }
    unfold on_completion_cancelled. rewrite Ec. unfold measure. rewrite Ec. cbn. lia.
Qed.

(** A stream whose start command has answered always waits for something it can get. *)
Lemma never_stuck s :
  covered s -> st_completion s <> c_start -> settled s = false -> exists y, enabled y s = true.
Proof.
  unfold covered, settled, announced, enabled. intros Hc Hs Hn.
  destruct (st_completion s) as [|n rc|e|e| |] eqn:Ec; try done.
  - destruct (st_job s) as [[r [|b| |]]|] eqn:Ej.
    + by exists (y_pulled (Ok None)).
    + by exists (y_consumed (Ok tt)).
    + by exists (y_acknowledged (Ok true)).
    + by exists y_job_cancelled.
    + destruct (st_queue s) as [|q qs] eqn:Eq; [|by exists y_begin]. exists y_drained. apply Nat.leb_le. cbn in Hc. lia.
  - exists y_completion_cancelled. by destruct (st_job s) as [[r [|b| |]]|].
  - exists y_thrown. by destruct (st_job s) as [[r [|b| |]]|].
Qed.

(** A scheduler: what happens next in a state, out of what the state waits for. *)
Fixpoint drive (pick : stream -> stream_input) (n : nat) (s : stream) : stream :=
  match n with
  | 0 => s
  | S n => if settled s then s else drive pick n (stream_step s (pick s))
  end.

Lemma started_step s y : st_completion s <> c_start -> st_completion (stream_step s y) <> c_start.
Proof.
  intros H. destruct (match y with y_begin | y_pulled _ | y_consumed _ | y_acknowledged _ | y_job_cancelled | y_cancel => true | _ => false end) eqn:Ej.
  { destruct (job_step_same s y) as (H1 & _); [by destruct y|]. by rewrite H1. }
  destruct y as [r| | |a|a|a| |a| | |]; try done; cbn [stream_step] in *.
  - unfold on_ready. destruct (negb (st_listening s)); [done|]. destruct (negb (is_open s)); [done|].
    destruct (_ || _); [|done]. by destruct (fail_frame se_ready_owner s) as (_ & _ & _ & ->).
  - unfold on_started. destruct (st_completion s) eqn:Ec; by rewrite ?Ec.
  - unfold on_drained. destruct (st_completion s) as [|jobs rc| | | |] eqn:Ec; rewrite ?Ec; try done.
    destruct (_ <? _); [by rewrite Ec|]. destruct (st_terminal s); try done; by destruct (_ && _).
  - unfold on_thrown. destruct (st_completion s) as [| | |e| |] eqn:Ec; rewrite ?Ec; try done. by destruct (fail e s) as [s' []].
  - unfold on_completion_cancelled. destruct (st_completion s) eqn:Ec; by rewrite ?Ec.
Qed.

Lemma drive_settles pick n s :
  (forall t, (exists y, enabled y t = true) -> enabled (pick t) t = true) ->
  covered s -> st_completion s <> c_start -> measure s <= n -> settled (drive pick n s) = true.
Proof.
  intros Hp. revert s. induction n as [|n IH]; intros s Hc Hs Hm; cbn.
  - destruct (settled s) eqn:E; [done|]. destruct (never_stuck s Hc Hs E) as [y Hy].
    pose proof (enabled_decreases s y Hy). lia.
  - destruct (settled s) eqn:E; [done|]. pose proof (Hp s (never_stuck s Hc Hs E)) as Hy.
    pose proof (enabled_decreases s _ Hy). apply IH; [by apply covered_step|by apply started_step|lia].
Qed.

(** ** The page *)

(** The batches handed to the consumer, oldest first. *)
Definition deliveries (s : stream) : list SqlStreamBatchWire :=
  flat_map (fun k => match k with k_batch b _ => [b] | _ => [] end) (main s).

(** The page holds the rows of [accepted], which have one shape. *)
Definition page_of (accepted : list SqlStreamBatchWire) (p : page_rows) : Prop :=
  pr_rows p = concat (map ba_rows accepted) /\
  pr_columns p = option_map ba_columns (head accepted) /\
  Forall (fun b => Some (ba_columns b) = pr_columns p /\
                   Forall (fun row => length row = length (ba_columns b)) (ba_rows b)) accepted.

Lemma page_batch_accepts p b p' accepted :
  page_of accepted p -> page_batch p b = Ok p' -> page_of (accepted ++ [b]) p'.
Proof.
  intros (Hr & Hc & Hall). unfold page_batch.
  destruct (match pr_columns p with Some _ => _ | None => _ end) eqn:E1; [done|].
  destruct (existsb _ _) eqn:E2; [done|]. intros [= <-].
  assert (Forall (fun row => length row = length (ba_columns b)) (ba_rows b)) as Hw.
  { apply Forall_forall. intros row Hin. rewrite existsb_none in E2. specialize (E2 row Hin).
    by apply negb_false_iff, Nat.eqb_eq in E2. }
  assert (default (ba_columns b) (pr_columns p) = ba_columns b) as Hd.
  { destruct (pr_columns p) as [columns|]; [|done]. unfold sameColumns in E1. by bools. }
  split; [cbn; rewrite Hr, map_app, concat_app; cbn; by rewrite app_nil_r|]. rewrite Hd. split.
  - cbn. destruct accepted as [|a accepted]; [done|]. cbn in *. rewrite Hc in Hd. cbn in Hd. congruence.
  - cbn. apply Forall_app. split; [|by constructor]. eapply Forall_impl; [exact Hall|].
    intros a [Ha Hrows]. cbn in Ha |- *. split; [|done]. rewrite <- Ha in Hd. cbn in Hd. congruence.
Qed.

Lemma main_deliveries s s' : main s' = main s -> deliveries s' = deliveries s.
Proof. unfold deliveries. by intros ->. Qed.

(** Only a pull's answer hands over a batch. *)
Lemma step_deliveries s y :
  match y with y_pulled _ => False | _ => True end -> deliveries (stream_step s y) = deliveries s.
Proof.
  intros Hy. destruct (is_open s) eqn:Eo; [|apply main_deliveries, closed_step; by apply is_open_false].
  destruct y as [r| | |a|a|a| |a| | |]; try done; cbn [stream_step].
  - apply main_deliveries, ready_steady.
  - apply main_deliveries, (completion_steady s y_cancel I).
  - unfold begin_job. destruct (st_job s), (st_queue s) as [|r q]; try done.
    change (is_open (set_queue q s)) with (is_open s). rewrite Eo. cbn [negb].
    unfold deliveries. change (main (wait_job ?r ?w ?s)) with (main s). rewrite main_call by done.
    rewrite flat_map_app. cbn. by rewrite app_nil_r.
  - unfold on_consumed. destruct (st_job s) as [[r [|b0| |]]|]; try done.
    destruct a as [[]|e]; [|apply main_deliveries, fail_job_main]. rewrite Eo. cbn [negb].
    unfold deliveries. change (main (wait_job ?r ?w ?s)) with (main s). rewrite main_call by done.
    rewrite flat_map_app. cbn. by rewrite app_nil_r.
  - unfold on_acknowledged. destruct (st_job s) as [[r [|b0| |]]|]; try done.
    destruct a as [[]|e]; [done|apply main_deliveries, fail_job_main..].
  - unfold on_job_cancelled. by destruct (st_job s) as [[r [|b0| |]]|].
  - apply main_deliveries, (completion_steady s (y_started a) I).
  - apply main_deliveries, (completion_steady s y_drained I).
  - apply main_deliveries, (completion_steady s y_thrown I).
  - apply main_deliveries, (completion_steady s y_completion_cancelled I).
Qed.

(** A pull's answer either hands over the batch the job then waits on, or hands over nothing. *)
Lemma pulled_deliveries s a :
  match handed_batch s (on_pulled a s) with
  | Some b => opened s /\ deliveries (on_pulled a s) = deliveries s ++ [b]
  | None => deliveries (on_pulled a s) = deliveries s
  end.
Proof.
  unfold handed_batch, on_pulled. destruct (st_job s) as [[r [|b0| |]]|] eqn:Ej; try done.
  assert (forall e, match st_job (fail_job r e s) with Some (_, w_consumer b) => opened s /\ deliveries (fail_job r e s) = deliveries s ++ [b]
    | _ => deliveries (fail_job r e s) = deliveries s end) as Hf.
  { intros e. destruct (fail_job_frame r e s) as (_ & _ & [[-> _]|[-> _]]); apply main_deliveries, fail_job_main. }
  assert (forall o : option (SqlStreamReady * job_wait), forall (P : SqlStreamBatchWire -> Prop) (Q : Prop),
    match o with Some (_, w_consumer b) => P b | _ => Q end ->
    match (match o with Some (_, w_consumer b) => Some b | _ => None end) with Some b => P b | None => Q end) as Hm
    by (intros [[? []]|]; done).
  destruct a as [[b|]|e]; [|by apply Hm, Hf..]. destruct (_ || _); [by apply Hm, Hf|].
  destruct (is_open s) eqn:Eo; cbn [negb]; [|done]. cbn [wait_job st_job]. split; [by apply is_open_spec|].
  unfold deliveries. change (main (wait_job ?r ?w ?s)) with (main s). rewrite main_call by done.
  rewrite flat_map_app. done.
Qed.

(** What the collector holds: every delivered batch, but for one it has refused, after which
    nothing more is delivered. *)
Definition collected (p : page_run) (accepted : list SqlStreamBatchWire) : Prop :=
  page_of accepted (pn_page p) /\
  (deliveries (pn_stream p) = accepted \/
   exists b e, deliveries (pn_stream p) = accepted ++ [b] /\ page_batch (pn_page p) b = Throw e /\
     (~ opened (pn_stream p) \/
      (exists r, st_job (pn_stream p) = Some (r, w_consumer b)) /\ pn_answer p = Throw e)).

Lemma consumer_stays s y r b :
  st_job s = Some (r, w_consumer b) ->
  match y with y_consumed _ => False | _ => True end -> st_job (stream_step s y) = Some (r, w_consumer b).
Proof.
  intros Hj Hy. assert (forall s', steady s s' -> st_job s' = Some (r, w_consumer b)) as Hs by (intros s' []; congruence).
  destruct y as [r'| | |a|a|a| |a| | |]; try done; cbn [stream_step];
    try (unfold begin_job, on_pulled, on_acknowledged, on_job_cancelled; by rewrite Hj).
  - apply Hs, ready_steady.
  - apply Hs, (completion_steady s y_cancel I).
  - apply Hs, (completion_steady s (y_started a) I).
  - apply Hs, (completion_steady s y_drained I).
  - apply Hs, (completion_steady s y_thrown I).
  - apply Hs, (completion_steady s y_completion_cancelled I).
Qed.

Lemma collected_other p y accepted :
  match y with y_pulled _ | y_consumed _ => False | _ => True end ->
  collected p accepted -> collected (page_step p y) accepted.
Proof.
  intros Hy [Hp Hd]. assert (page_step p y = mkPageRun (stream_step (pn_stream p) y) (pn_page p) (pn_answer p)) as ->
    by by destruct y.
  split; [done|]. cbn [pn_stream pn_page pn_answer]. rewrite step_deliveries by by destruct y.
  destruct Hd as [Hd|(b & e & Hd & Ht & Hend)]; [by left|]. right. exists b, e. split; [done|]. split; [done|].
  destruct Hend as [Hc|[[r Hj] Ha]]; [left; by apply closed_step|].
  right. split; [|done]. exists r. apply consumer_stays; [done|by destruct y].
Qed.

Lemma consumed_throw s r b e : st_job s = Some (r, w_consumer b) -> ~ opened (on_consumed (Throw e) s).
Proof. intros Hj. unfold on_consumed. rewrite Hj. apply fail_job_main. Qed.

Lemma collected_consumed p a accepted : collected p accepted -> collected (page_step p (y_consumed a)) accepted.
Proof.
  intros [Hp Hd]. split; [done|]. cbn [page_step pn_stream pn_page pn_answer]. rewrite step_deliveries by done.
  destruct Hd as [Hd|(b & e & Hd & Ht & Hend)]; [by left|]. right. exists b, e. split; [done|]. split; [done|]. left.
  destruct Hend as [Hc|[[r Hj] ->]]; [by apply closed_step|]. cbn [stream_step]. by eapply consumed_throw.
Qed.

Lemma collected_pulled p a accepted :
  collected p accepted -> exists accepted', collected (page_step p (y_pulled a)) accepted'.
Proof.
  intros [Hp Hd]. cbn [page_step stream_step]. pose proof (pulled_deliveries (pn_stream p) a) as Hdel.
  destruct (handed_batch (pn_stream p) (on_pulled a (pn_stream p))) as [b|] eqn:Eh.
  - destruct Hdel as [Ho Hdel]. assert (deliveries (pn_stream p) = accepted) as Hacc.
    { destruct Hd as [Hd|(b' & e & _ & _ & [Hc|[[r Hj] _]])]; [done|done|]. unfold handed_batch in Eh. by rewrite Hj in Eh. }
    rewrite Hacc in Hdel. destruct (page_batch (pn_page p) b) as [page|e] eqn:Eb.
    + exists (accepted ++ [b]). split; [by eapply page_batch_accepts|]. by left.
    + exists accepted. split; [done|]. right. exists b, e. split; [done|]. split; [done|]. right. split; [|done].
      unfold handed_batch in Eh. cbn [pn_stream]. destruct (st_job (pn_stream p)) as [[r0 []]|]; try done.
      destruct (st_job (on_pulled a (pn_stream p))) as [[r [|b1| |]]|] eqn:Ej; try done. injection Eh as ->. by exists r.
  - exists accepted. split; [done|]. cbn [pn_stream pn_page pn_answer]. rewrite Hdel.
    destruct Hd as [Hd|(b & e & Hd & Ht & Hend)]; [by left|]. right. exists b, e. split; [done|]. split; [done|].
    destruct Hend as [Hc|[[r Hj] Ha]]; [left; by apply (closed_step _ (y_pulled a))|].
    right. split; [|done]. exists r. by apply (consumer_stays _ (y_pulled a)).
Qed.

Lemma page_collected cap ys : exists accepted, collected (page_run_from cap ys) accepted.
Proof.
  unfold page_run_from. assert (collected (mkPageRun (startSqlStream [] cap) empty_page (Ok tt)) []) as H.
  { split; [|by left]. by repeat split. }
  revert H. generalize (mkPageRun (startSqlStream [] cap) empty_page (Ok tt)). generalize (@nil SqlStreamBatchWire).
  induction ys as [|y ys IH]; intros accepted p H; [by exists accepted|]. cbn.
  destruct (match y with y_pulled _ | y_consumed _ => true | _ => false end) eqn:Ey.
  - destruct y; try done.
    + destruct (collected_pulled p answer accepted H) as [accepted' H']. by apply (IH accepted').
    + apply (IH accepted). by apply collected_consumed.
  - apply (IH accepted). apply collected_other; [by destruct y|done].
Qed.

Lemma capability_step s y : st_capability (stream_step s y) = st_capability s.
Proof.
  assert (forall r e, st_capability (fail_job r e s) = st_capability s) as Hf.
  { intros r e. unfold fail_job. pose proof (sd_capability _ _ (fail_steady e s)) as E. by destruct (fail e s) as [s' []]. }
  destruct y as [r| | |a|a|a| |a| | |]; cbn [stream_step];
    try (apply (sd_capability _ _ (proj1 (ready_steady r s))));
    try (apply (sd_capability _ _ (proj1 (completion_steady s y_cancel I))));
    try (apply (sd_capability _ _ (proj1 (completion_steady s (y_started a) I))));
    try (apply (sd_capability _ _ (proj1 (completion_steady s y_drained I))));
    try (apply (sd_capability _ _ (proj1 (completion_steady s y_thrown I))));
    try (apply (sd_capability _ _ (proj1 (completion_steady s y_completion_cancelled I)))).
  - unfold begin_job. destruct (st_job s), (st_queue s); try done. by destruct (negb _).
  - unfold on_pulled. destruct (st_job s) as [[r [|b0| |]]|]; try done.
    destruct a as [[b|]|e]; [|apply Hf..]. destruct (_ || _); [apply Hf|]. by destruct (negb _).
  - unfold on_consumed. destruct (st_job s) as [[r [|b0| |]]|]; try done.
    destruct a as [[]|e]; [|apply Hf]. by destruct (negb _).
  - unfold on_acknowledged. destruct (st_job s) as [[r [|b0| |]]|]; try done. destruct a as [[]|e]; [done|apply Hf..].
  - unfold on_job_cancelled. by destruct (st_job s) as [[r [|b0| |]]|].
Qed.

Lemma run_capability op cap ys : st_capability (stream_run op cap ys) = cap.
Proof.
  unfold stream_run. change cap with (st_capability (startSqlStream op cap)) at 2. generalize (startSqlStream op cap).
  induction ys as [|y ys IH]; intros s; [done|]. cbn. by rewrite IH, capability_step.
Qed.

Lemma page_stream cap ys :
  exists ys', pn_stream (page_run_from cap ys) = stream_run [] cap ys'.
Proof.
  enough (forall p, exists ys', pn_stream (foldl page_step p ys) = foldl stream_step (pn_stream p) ys') as H by apply H.
  induction ys as [|y ys IH]; intros p; [by exists []|]. cbn [foldl].
  assert (exists y', pn_stream (page_step p y) = stream_step (pn_stream p) y') as [y' E].
  { destruct y; try by eexists. cbn [page_step]. exists (y_pulled answer).
    destruct (handed_batch _ _); [|done]. by destruct (page_batch _ _). }
  destruct (IH (page_step p y)) as [ys' E']. exists (y' :: ys'). cbn [foldl]. by rewrite <- E.
Qed.

(** ** Properties *)

(** C29: Whatever order notifications, answers, cancellations and promise turns come in, a stream
    handles one batch at a time. What passes is a sequence of turns: the batch is pulled with
    the stream's capability; the core answers with a batch; if that has the operation and the
    sequence that were announced it is handed to the consumer; the consumer accepts it; it is
    acknowledged; the core confirms. The next one is pulled only then. A turn is broken off
    only once the stream is closed; a closed stream pulls, delivers and acknowledges nothing
    any more, and closing it other than by completion sends one cancellation of its
    operation. *)
Theorem stream_protocol (op cap : jsstr) (ys : list stream_input) :
  let s := stream_run op cap ys in
  (exists ts calls, history (startSqlStream op cap) ys = turn_calls ts ++ calls /\ length ts = st_finished s /\
     Forall (turn_ok cap) ts /\ current_ok s calls /\ (opened s -> Forall (fun t => t.2 = 6) ts)) /\
  (forall ys', ~ opened s -> main (foldl stream_step s ys') = main s /\ ~ opened (foldl stream_step s ys')) /\
  (forall y, opened s -> ~ opened (stream_step s y) ->
     st_terminal (stream_step s y) = t_completed \/ st_log (stream_step s y) = ending s :: st_log s).
Proof.
  intros s. destruct (steps_protocol _ [] ys [] 0 (start_protocol op cap)) as (ts & full & H & _). fold (stream_run op cap ys) in H.
  fold s in H. split; [|split; [intros; by apply closed_steps|intros; by apply closing_step]].
  destruct H as [H1 H2 (calls & Hm & Hcur) H4 [_ H5] H6]. exists ts, calls. split; [done|]. split; [done|].
  split; [by rewrite <- (run_capability op cap ys)|]. split; [done|]. intros Ho. rewrite (H6 Ho) in H5. by rewrite take_ge in H5.
Qed.
Lemma protocol_witness :
  main (foldl stream_step (stream_run [] (js "cap") (take 4 full_run ++ [y_cancel])) [y_consumed (Ok tt); y_begin])
  = main (stream_run [] (js "cap") (take 4 full_run ++ [y_cancel])).
Proof.
  refine (proj1 (proj1 (proj2 (stream_protocol [] (js "cap") (take 4 full_run ++ [y_cancel])))
    [y_consumed (Ok tt); y_begin] _)). by vm_compute.
Defined.

(** C30: When a stream's promise resolves, it resolves with the receipt of its start command,
    which names the operation of the stream; and unless the stream was cancelled, every batch
    announced before that receipt came has had its whole turn: it was pulled and answered,
    handed to the consumer and accepted by it, acknowledged and confirmed. *)
Theorem completion_means_acknowledged (op cap : jsstr) (ys ys' : list stream_input)
    (receipt receipt' : SqlStreamReceipt) :
  let s := stream_run op cap ys in
  let s' := foldl stream_step s (y_started (Ok receipt) :: ys') in
  st_completion s = c_start -> st_completion s' = c_resolved receipt' ->
  receipt' = receipt /\
  (st_terminal s' = t_completed \/ st_terminal s' = t_cancelled) /\
  (non_empty (st_operation s') = true -> sr_operationId receipt = st_operation s') /\
  (st_terminal s' = t_completed -> exists ts calls,
     history (startSqlStream op cap) (ys ++ y_started (Ok receipt) :: ys') = turn_calls ts ++ calls /\
     announced s <= length ts /\ Forall (fun t => t.2 = 6 /\ matches t.1.1 t.1.2) (take (announced s) ts)).
Proof.
  intros s s' Hs Hs'. destruct (steps_protocol _ [] ys [] 0 (start_protocol op cap)) as (ts & full & H & _).
  fold (stream_run op cap ys) in H. fold s in H.
  assert (stream_step s (y_started (Ok receipt)) = set_completion (c_queue (announced s) receipt) s) as E1.
  { cbn. unfold on_started. by rewrite Hs. }
  assert (protocol (set_completion (c_queue (announced s) receipt) s) (history (startSqlStream op cap) ys) ts full) as H1.
  { eapply steady_protocol; [|exact (pt_queue _ _ _ _ H)|exact H]. by constructor. }
  assert (awaiting (announced s) receipt (set_completion (c_queue (announced s) receipt) s) full) as Ha.
  { constructor; [by left|]. cbn. intros Ht. by destruct (start_not_completed op cap ys Hs). }
  destruct (awaiting_steps _ _ _ _ ys' _ _ H1 Ha) as (ts' & full' & Hp & [Hst Hf]).
  assert (s' = foldl stream_step (set_completion (c_queue (announced s) receipt) s) ys') as E2 by (unfold s'; cbn [foldl]; by rewrite E1).
  assert (history (startSqlStream op cap) ys ++ history (set_completion (c_queue (announced s) receipt) s) ys'
    = history (startSqlStream op cap) (ys ++ y_started (Ok receipt) :: ys')) as E3.
  { rewrite history_app. fold (stream_run op cap ys). fold s. cbn [history]. rewrite said_same by (by rewrite E1).
    assert (heard s (y_started (Ok receipt)) = []) as -> by (unfold heard; by destruct (st_job s) as [[? []]|]). by rewrite E1. }
  rewrite E3 in Hp. rewrite <- E2 in *. destruct Hst as [E|[(e & [E|[E|E]])|(E & Hter & Hop & _)]]; rewrite Hs' in E; try done.
  injection E as ->. split; [done|]. split; [done|]. split; [done|]. intros Hc.
  destruct Hp as [P1 P2 (calls & P3 & P4) P5 [P6 P7] P8]. exists ts', calls. split; [done|].
  specialize (Hf Hc). split; [lia|]. apply Forall_forall. intros t Hin.
  assert (t ∈ take full' ts') as Hin'.
  { replace (take (announced s) ts') with (take (announced s) (take full' ts')) in Hin by (rewrite take_take; f_equal; lia).
    eapply elem_of_sublist; [exact Hin|apply sublist_take]. }
  rewrite Forall_forall in P7, P2. pose proof (P7 t Hin') as Ht. split; [done|].
  destruct (P2 t) as (_ & _ & Hm); [eapply elem_of_sublist; [exact Hin'|apply sublist_take]|]. apply Hm. lia.
Qed.
Lemma completion_witness :
  st_completion (stream_run [] (js "cap") (take 6 full_run)) = c_start /\
  st_terminal (foldl stream_step (stream_run [] (js "cap") (take 6 full_run)) (y_started (Ok (receipt 2)) :: drop 7 full_run))
  = t_completed /\ receipt 2 = receipt 2.
Proof.
  split; [vm_compute; reflexivity|]. split; [vm_compute; reflexivity|].
  exact (proj1 (completion_means_acknowledged [] (js "cap") (take 6 full_run) (drop 7 full_run) (receipt 2) (receipt 2)
    ltac:(vm_compute; reflexivity) ltac:(vm_compute; reflexivity))).
Defined.

(** C36: A stream whose start command has answered settles: in every state it waits for
    something that it can get, and however the turns are scheduled and whatever the native
    core and the consumer answer, a number of steps bounded by its queue settles its
    promise. *)
Theorem stream_settles (op cap : jsstr) (ys : list stream_input) (pick : stream -> stream_input) :
  let s := stream_run op cap ys in
  (forall t, (exists y, enabled y t = true) -> enabled (pick t) t = true) ->
  st_completion s <> c_start ->
  (settled s = false -> exists y, enabled y s = true) /\
  settled (drive pick (5 * length (st_queue s) + 8) s) = true.
Proof.
  intros s Hp Hs. pose proof (run_covered op cap ys) as Hc. fold s in Hc. split; [by apply never_stuck|].
  apply drive_settles; [done|done|done|]. unfold measure.
  assert (job_measure (st_job s) <= 4) by (destruct (st_job s) as [[? []]|]; cbn; lia).
  assert (completion_measure (st_completion s) <= 4) by (destruct (st_completion s); cbn; lia). lia.
Qed.

(** A scheduler that refuses every batch. *)
Definition refuse (s : stream) : stream_input :=
  match st_job s with
  | Some (_, w_pull) => y_pulled (Ok None)
  | Some (_, w_consumer _) => y_consumed (Throw se_transport)
  | Some (_, w_ack) => y_acknowledged (Ok false)
  | Some (_, w_cancel) => y_job_cancelled
  | None =>
    match st_queue s, st_completion s with
    | _ :: _, _ => y_begin
    | [], c_queue _ _ => y_drained
    | [], c_throw _ => y_thrown
    | [], _ => y_completion_cancelled
    end
  end.
Lemma settles_witness :
  settled (drive refuse 13 (stream_run [] (js "cap") [y_ready (ready 0); y_started (Ok (receipt 2))])) = true.
Proof.
  refine (proj2 (stream_settles [] (js "cap") [y_ready (ready 0); y_started (Ok (receipt 2))] refuse _ _)).
  - intros t [y Hy]. unfold refuse, enabled in *.
    destruct (st_job t) as [[r [|b| |]]|] eqn:Ej, (st_queue t) as [|q qs] eqn:Eq, (st_completion t) eqn:Ec, y; done.
  - done.
Defined.

(** [runSqlReadPage] reads one stream, and the page that it returns consists of the rows of
    the batches that the stream delivered, in order and without a gap: all of them, or all but
    one last batch that it refused; every row is as wide as the page's columns, and their number
    is the one in the receipt that completed the stream. *)
Theorem page_is_the_stream (cap : jsstr) (ys : list stream_input) (q : QueryResult) :
  runSqlReadPage (page_run_from cap ys) = Some (Ok q) ->
  (exists ys', pn_stream (page_run_from cap ys) = stream_run [] cap ys') /\
  exists accepted refused receipt,
    deliveries (pn_stream (page_run_from cap ys)) = accepted ++ refused /\ length refused <= 1 /\
    (forall b, b ∈ refused -> exists e, page_batch (pn_page (page_run_from cap ys)) b = Throw e) /\
    qr_rows q = concat (map ba_rows accepted) /\
    Forall (fun b => ba_columns b = qr_columns q) accepted /\
    Forall (fun row => length row = length (qr_columns q)) (qr_rows q) /\
    st_completion (pn_stream (page_run_from cap ys)) = c_resolved receipt /\
    sr_rowCount receipt = Z.of_nat (qr_rowCount q) /\ qr_rowCount q = length (qr_rows q).
Proof.
  intros Hq. split; [apply page_stream|]. revert Hq.
  destruct (page_collected cap ys) as [accepted [(Hr & Hc & Hall) Hd]]. unfold runSqlReadPage.
  set (p := page_run_from cap ys) in *. destruct (st_completion (pn_stream p)) as [| | | |rc|e] eqn:Ec; try done.
  unfold page_result. destruct (Z.eqb_spec (sr_rowCount rc) (Z.of_nat (length (pr_rows (pn_page p))))) as [Hn|]; [|done].
  intros [= <-]. cbn [qr_rows qr_columns qr_rowCount].
  assert (Forall (fun b => ba_columns b = default [] (pr_columns (pn_page p)) /\
    Forall (fun row => length row = length (default [] (pr_columns (pn_page p)))) (ba_rows b)) accepted) as Hshape.
  { eapply Forall_impl; [exact Hall|]. intros b [E Hrows]. cbn in E. rewrite <- E. by split. }
  assert (exists refused, deliveries (pn_stream p) = accepted ++ refused /\ length refused <= 1 /\
    forall b, b ∈ refused -> exists e, page_batch (pn_page p) b = Throw e) as (refused & Hdel & Hlen & Href).
  { destruct Hd as [-> |(b & e & -> & He & _)]; [exists []|exists [b]]; rewrite ?app_nil_r; (split; [done|]);
      (split; [cbn; lia|]); [by intros ? ?%elem_of_nil|]. intros b' ->%list_elem_of_singleton. by exists e. }
  exists accepted, refused, rc. split; [done|]. split; [done|]. split; [done|]. split; [done|].
  split; [by eapply Forall_impl; [exact Hshape|intros b [E _]]|]. split; [|done].
  rewrite Hr. apply Forall_concat, Forall_map. eapply Forall_impl; [exact Hshape|]. intros b [_ Hrows]. exact Hrows.
Qed.
Lemma page_witness :
  exists q accepted refused, runSqlReadPage (page_run_from (js "cap") full_run) = Some (Ok q) /\
    deliveries (pn_stream (page_run_from (js "cap") full_run)) = accepted ++ refused /\
    qr_rows q = concat (map ba_rows accepted).
Proof.
  destruct (page_is_the_stream (js "cap") full_run (mkQueryResult [js "a"] [[VNull]; [VBool true]] 2 false 3))
    as (_ & accepted & refused & rc & Hd & _ & _ & Hr & _); [vm_compute; reflexivity|].
  eexists _, accepted, refused. split; [vm_compute; reflexivity|]. split; [exact Hd|exact Hr].
Defined.
