(* ===== verification/StreamView.v ===== *)
(** * The view of a streamed result

    The reducer of [src/features/queries/domain.ts]: [acceptSqlStreamBatch] takes exactly the
    next batch of a run into the view and retains its rows in the page cache ([ResultPages]),
    [finishSqlStream] closes the view with the receipt of its operation. The view itself
    keeps a handle of the stored pages, not the rows. Then its contract: what every view
    promises ([view_ok]), that accepting and finishing keep it, and that the rows of an
    accepted batch are read back from the page cache through the view's handle. *)

From S2P Require Import Prelude JsString JsMap JsValue ResultPages ResultPagesInv.
From S2P Require SqlStream.
From Stdlib Require String.
Import Stdlib.Strings.String.StringSyntax.
Local Open Scope Z_scope.

Notation SqlStreamReceipt := SqlStream.SqlStreamReceipt.

(** ** The view *)

Inductive SqlStreamPhase :=
| ph_idle | ph_connecting | ph_streaming | ph_complete | ph_cancelled | ph_error | ph_outcome_unknown.
#[export] Instance phase_eq_dec : EqDecision SqlStreamPhase.
Proof. solve_decision. Defined.

Record SqlStreamViewState := mkView {
  v_runId : nat; v_phase : SqlStreamPhase; v_operationId : option jsstr; v_nextSequence : nat;
  v_columns : list jsstr; v_rowSource : SqlStreamRowSource; v_rowCount : Z; v_truncated : bool;
  v_durationMs : option Z; v_error : option jsstr; v_timings : option Z }.

Definition SQL_STREAM_MAX_ROWS_PER_BATCH : Z := 256.

Definition emptySqlStreamRows : SqlStreamRowSource :=
  mkSource None None SQL_STREAM_MAX_ROWS_PER_BATCH [] 0 false.

Definition emptySqlStreamView (runId : nat) : SqlStreamViewState :=
  mkView runId ph_idle None 0 [] emptySqlStreamRows 0 false None None None.

(** [state.phase === "connecting" || state.phase === "streaming"] *)
Definition receiving (phase : SqlStreamPhase) : bool :=
  match phase with ph_connecting | ph_streaming => true | _ => false end.

Definition sameColumns (left right : list jsstr) : bool :=
  (length left =? length right)%nat
  && forallb (fun p => p.1 ==s p.2) (combine left right).

(** ** Accepting a batch *)

(** [Number.isSafeInteger] of a whole number *)
Definition isSafeInteger (n : Z) : bool := (- (2 ^ 53) <? n) && (n <? 2 ^ 53).

(** [/^[0-9a-f]+$/i] *)
Definition hex_unit (c : N) : bool := is_digit c || between 97 102 c || between 65 70 c.

Section accept.
Variable safe_natural : jsstr -> option N.

(** A decode failure that does not lie on a cell of the batch which can carry it. *)
Definition misplaced_failure (start : Z) (batch : SqlStreamBatchWire) (f : CellDecodeFailure) : bool :=
  negb (isSafeInteger (rowIndex f)) || negb (isSafeInteger (columnIndex f))
  || (rowIndex f <? start) || (start + Z.of_nat (length (b_rows batch)) <=? rowIndex f)
  || (columnIndex f <? 0) || (Z.of_nat (length (b_columns batch)) <=? columnIndex f)
  || negb (non_empty (databaseType f))
  || negb (decodeFailureCellIsConsistent safe_natural f
       (r ← b_rows batch !! Z.to_nat (rowIndex f - start); r !! Z.to_nat (columnIndex f))).

(** [SqlStreamBatch] is a wire batch with its [resultCapability]. [None] refuses the batch;
    otherwise the new view and the page cache that retains the rows. *)
Definition acceptSqlStreamBatch (v : SqlStreamViewState) (runId : nat) (batch : SqlStreamBatchWire)
    (resultCapability : jsstr) (st : state) : option (SqlStreamViewState * state) :=
  let start := default (v_rowCount v) (b_rowStart batch) in
  let rows := Z.of_nat (length (b_rows batch)) in
  if negb (v_runId v =? runId)%nat || negb (receiving (v_phase v)) then None
  else if negb (b_sequence batch =? v_nextSequence v)%nat
       || negb (start =? v_rowCount v)
       || ((rows =? 0) && (negb (b_sequence batch =? 0)%nat || negb (v_rowCount v =? 0)))
       || (SQL_STREAM_MAX_ROWS_PER_BATCH <? rows)
  then None
  else if match v_operationId v with
          | Some op => non_empty op && negb (op ==s b_operationId batch) | None => false end then None
  else if existsb (fun r => negb (length r =? length (b_columns batch))%nat) (b_rows batch) then None
  else if existsb (misplaced_failure start batch) (b_failures batch) then None
  else if match v_columns v with [] => false | columns => negb (sameColumns columns (b_columns batch)) end
  then None
  else
    let sourceOperationId := default (b_operationId batch) (operationId (v_rowSource v)) in
    let sourceCapability := default resultCapability (capability (v_rowSource v)) in
    if negb (sourceOperationId ==s b_operationId batch) || negb (sourceCapability ==s resultCapability)
       || negb (length resultCapability =? 64)%nat
       || negb (non_empty resultCapability && forallb hex_unit resultCapability)
    then None
    else
      let rowSource := mkSource (Some sourceOperationId) (Some sourceCapability)
        SQL_STREAM_MAX_ROWS_PER_BATCH
        (pageRanges (v_rowSource v) ++ [mkRange (b_sequence batch) start rows])
        (v_rowCount v + rows) false in
      Some (mkView (v_runId v) ph_streaming (Some (b_operationId batch)) (S (v_nextSequence v))
              (match v_columns v with [] => b_columns batch | columns => columns end)
              rowSource (v_rowCount v + rows) (v_truncated v) (v_durationMs v) (v_error v) (v_timings v),
            retainSqlStreamBatch rowSource batch st).
End accept.

(** ** Finishing *)

(** The receipt is taken: otherwise [finishSqlStream] returns the view it was given. *)
Definition takes_receipt (v : SqlStreamViewState) (runId : nat) : bool :=
  (v_runId v =? runId)%nat && receiving (v_phase v).

Definition with_phase (v : SqlStreamViewState) (phase : SqlStreamPhase) (error : option jsstr)
    : SqlStreamViewState :=
  mkView (v_runId v) phase (v_operationId v) (v_nextSequence v) (v_columns v) (v_rowSource v)
    (v_rowCount v) (v_truncated v) (v_durationMs v) error (v_timings v).

(** [{ ...source, rowCount, complete: true }] *)
Definition readable (source : SqlStreamRowSource) (rows : Z) : SqlStreamRowSource :=
  mkSource (operationId source) (capability source) (pageRows source) (pageRanges source) rows true.

Definition receipt_mismatch : jsstr := js "stream completion receipt did not match accepted batches".

Definition finishSqlStream (v : SqlStreamViewState) (runId : nat) (receipt : SqlStreamReceipt)
    (timings : option Z) : SqlStreamViewState :=
  if negb (takes_receipt v runId) then v
  else if match v_operationId v with
          | Some op => negb (op ==s SqlStream.sr_operationId receipt) | None => false end
       || negb (v_rowCount v =? SqlStream.sr_rowCount receipt)
  then with_phase v ph_outcome_unknown (Some receipt_mismatch)
  else
    mkView (v_runId v) ph_complete (Some (SqlStream.sr_operationId receipt)) (v_nextSequence v)
      (v_columns v) (readable (v_rowSource v) (SqlStream.sr_rowCount receipt))
      (SqlStream.sr_rowCount receipt) (SqlStream.sr_truncated receipt)
      (Some (SqlStream.sr_durationMs receipt)) (v_error v)
      (match timings with Some t => Some t | None => v_timings v end).

Definition no_safe_natural (_ : jsstr) : option N := None.
Definition sample_capability : jsstr := repeat 97%N 64.
Definition sample_view : SqlStreamViewState := with_phase (emptySqlStreamView 1) ph_connecting None.
Definition sample_batch (n : nat) (rows : list (list value)) : SqlStreamBatchWire :=
  mkBatch (js "op") n None [js "a"] rows [].
Definition sample_receipt (n : Z) : SqlStreamReceipt := SqlStream.mkStreamReceipt (js "op") n false 3.

Example view_sample :
  match acceptSqlStreamBatch no_safe_natural sample_view 1 (sample_batch 0 [[VNull]; [VBool true]])
          sample_capability initial with
  | Some (v, st) =>
    (v_rowCount v, v_nextSequence v, (sqlResultRowAt (v_rowSource v) 1 st).2,
     v_phase (finishSqlStream v 1 (sample_receipt 2) None), v_phase (finishSqlStream v 1 (sample_receipt 3) None),
     acceptSqlStreamBatch no_safe_natural v 1 (sample_batch 1 []) sample_capability st)
  | None => (0, 0%nat, None, ph_idle, ph_idle, None)
  end = (2, 1%nat, Some [VBool true], ph_complete, ph_outcome_unknown, None).
Proof. reflexivity. Qed.

(** ** The contract *)

(** The pages of a handle: numbered in order, at most 256 rows each, adjacent from row 0 to
    the number of rows; only the first one may be empty. *)
Definition pages_placed (s : SqlStreamRowSource) : Prop :=
  (exists first rest, pageRanges s = first ++ rest /\ (first = [] \/ first = [mkRange 0 0 0])
     /\ contiguous 0 rest (src_rowCount s))
  /\ forall i r, pageRanges s !! i = Some r -> sequence r = i /\ 0 <= rowCount r <= 256.

(** A handle names an operation and a capability of 64 hexadecimal digits, or neither; without
    them it has no pages. *)
Definition handle_ok (s : SqlStreamRowSource) : Prop :=
  match operationId s, capability s with
  | Some _, Some cap => length cap = 64%nat /\ forallb hex_unit cap = true
  | None, None => pageRanges s = []
  | _, _ => False
  end.

Record view_ok (v : SqlStreamViewState) : Prop := {
  vo_placed : pages_placed (v_rowSource v);
  vo_handle : handle_ok (v_rowSource v);
  vo_rows : v_rowCount v = src_rowCount (v_rowSource v);
  vo_receiving : receiving (v_phase v) = true ->
    v_nextSequence v = length (pageRanges (v_rowSource v))
    /\ v_operationId v = operationId (v_rowSource v) /\ complete (v_rowSource v) = false;
  vo_complete : v_phase v = ph_complete -> complete (v_rowSource v) = true;
  vo_readable : complete (v_rowSource v) = true -> v_phase v = ph_complete \/ v_phase v = ph_cancelled }.

Lemma contiguous_snoc start l total q n :
  contiguous start l total -> 0 < n -> contiguous start (l ++ [mkRange q total n]) (total + n).
Proof.
  revert start. induction l as [|r l IH]; intros start; cbn; [by intros -> ?; split_and!|].
  intros (? & ? & ?) ?. split_and!; [done..|by apply IH].
Qed.

Lemma contiguous_nil start l : contiguous start l start -> l = [].
Proof. destruct l as [|r l]; [done|]. cbn. intros (? & ? & H%contiguous_le). lia. Qed.

Lemma empty_rows_placed : pages_placed emptySqlStreamRows.
Proof. split; [exists [], []; by split_and!; [|left|]|done]. Qed.

Lemma placed_ordered s : pages_placed s -> ordered_ranges (pageRanges s).
Proof.
  intros [(first & rest & -> & [->| ->] & Hc) _]; [by eapply contiguous_ordered|].
  pose proof (contiguous_ordered _ _ Hc) as [Hp Ho]. cbn [app]. split.
  - intros [|i] r Hr; cbn in Hr; simplify_eq/=; [done|]. by eapply Hp.
  - intros [|i] [|j] r r' Hij Hr Hr'; cbn in Hr, Hr'; try lia; simplify_eq/=.
    + by destruct (contiguous_drop _ _ _ _ _ Hc Hr').
    + eapply (Ho i j); [lia|done..].
Qed.

Lemma placed_rows s : pages_placed s -> 0 <= src_rowCount s.
Proof. intros [(f & l & _ & _ & H%contiguous_le) _]. lia. Qed.

Lemma placed_empty s : pages_placed s -> pageRanges s = [] -> src_rowCount s = 0.
Proof. intros [(f & l & Hl & _ & H) _] E. rewrite E in Hl. by destruct f, l; simplify_eq. Qed.

(** A page more, which may be empty if it is the first. *)
Lemma placed_snoc s op cap pr n b :
  pages_placed s -> 0 <= n <= 256 -> (n = 0 -> pageRanges s = []) ->
  pages_placed (mkSource op cap pr
    (pageRanges s ++ [mkRange (length (pageRanges s)) (src_rowCount s) n]) (src_rowCount s + n) b).
Proof.
  intros Hs Hn H0. split; cbn.
  - destruct (decide (n = 0)) as [->|Hne].
    + pose proof (placed_empty _ Hs (H0 eq_refl)) as E. rewrite (H0 eq_refl), E. exists [mkRange 0 0 0], [].
      split_and!; [done|by right|done].
    + destruct Hs as [(f & l & Hl & Hf & Hc) _]. exists f, (l ++ [mkRange (length (pageRanges s)) (src_rowCount s) n]).
      split_and!; [by rewrite Hl at 1; rewrite <- app_assoc|done|]. apply contiguous_snoc; [done|lia].
  - intros i r [Hr|[Hi Hr]]%lookup_app_Some; [by apply Hs|].
    apply list_lookup_singleton_Some in Hr as [? <-]. cbn. split; [lia|done].
Qed.

(** ** The operations keep it *)

Lemma empty_view_ok n : view_ok (emptySqlStreamView n).
Proof. split; cbn; try done. apply empty_rows_placed. Qed.

Lemma connecting_view_ok v :
  view_ok v -> v_phase v = ph_idle -> v_rowSource v = emptySqlStreamRows -> v_nextSequence v = 0%nat ->
  v_operationId v = None -> forall e, view_ok (with_phase v ph_connecting e).
Proof. intros [H1 H2 H3 H4 H5 H6] Hp Hs Hn Ho e. split; cbn; try done; rewrite Hs; by try rewrite Hn, Ho. Qed.

(** Closing a view in a phase that is neither receiving nor complete. *)
Lemma closed_view_ok v p e :
  view_ok v -> receiving p = false -> p <> ph_complete -> complete (v_rowSource v) = false ->
  view_ok (with_phase v p e).
Proof. intros [H1 H2 H3 H4 H5 H6] Hp Hc Hs. split; cbn; try done; by rewrite ?Hp, ?Hs. Qed.

Lemma finish_ok v n receipt timings : view_ok v -> view_ok (finishSqlStream v n receipt timings).
Proof.
  intros Hv. unfold finishSqlStream. destruct (takes_receipt v n) eqn:Ht; cbn [negb]; [|done].
  unfold takes_receipt in Ht. bools. destruct Hv as [H1 H2 H3 H4 H5 H6]. case_match eqn:E; bools.
  - apply closed_view_ok; [by split|done|done|by apply H4].
  - apply Z.eqb_eq in H8. split; cbn; try done; [|by left].
    rewrite <- H8, H3. by destruct (v_rowSource v).
Qed.

(** What a receipt means for a view: accepted exactly when it counts the accepted rows. *)
Lemma finish_complete v n receipt timings :
  v_phase (finishSqlStream v n receipt timings) = ph_complete -> receiving (v_phase v) = true ->
  v_rowCount v = SqlStream.sr_rowCount receipt
  /\ (forall op, v_operationId v = Some op -> op = SqlStream.sr_operationId receipt).
Proof.
  intros Hp Hr. unfold finishSqlStream, takes_receipt in Hp. rewrite Hr, andb_true_r in Hp.
  destruct (v_runId v =? n)%nat; cbn in Hp; [|by rewrite Hp in Hr].
  case_match eqn:E; cbn in Hp; [done|]. bools. split; [by apply Z.eqb_eq|].
  intros op Ho. rewrite Ho in H. by bools.
Qed.

Section accept.
Variable safe_natural : jsstr -> option N.

(** What an accepted batch is, and the view it gives. *)
Record accepted (v : SqlStreamViewState) (n : nat) (batch : SqlStreamBatchWire) (cap : jsstr)
    (st : state) (v' : SqlStreamViewState) (st' : state) : Prop := {
  ac_run : v_runId v = n /\ v_runId v' = n;
  ac_phase : receiving (v_phase v) = true /\ v_phase v' = ph_streaming;
  ac_next : b_sequence batch = v_nextSequence v /\ v_nextSequence v' = S (v_nextSequence v);
  ac_start : default (v_rowCount v) (b_rowStart batch) = v_rowCount v;
  ac_size : Z.of_nat (length (b_rows batch)) <= SQL_STREAM_MAX_ROWS_PER_BATCH
            /\ (b_rows batch = [] -> b_sequence batch = 0%nat /\ v_rowCount v = 0);
  ac_width : Forall (fun r => length r = length (b_columns batch)) (b_rows batch);
  ac_columns : v_columns v' = (match v_columns v with [] => b_columns batch | columns => columns end)
               /\ (v_columns v <> [] -> v_columns v = b_columns batch);
  ac_handle : v_operationId v' = Some (b_operationId batch)
    /\ default (b_operationId batch) (operationId (v_rowSource v)) = b_operationId batch
    /\ default cap (capability (v_rowSource v)) = cap
    /\ length cap = 64%nat /\ forallb hex_unit cap = true;
  ac_source : v_rowSource v' = mkSource (Some (b_operationId batch)) (Some cap) SQL_STREAM_MAX_ROWS_PER_BATCH
    (pageRanges (v_rowSource v) ++ [mkRange (b_sequence batch) (v_rowCount v) (Z.of_nat (length (b_rows batch)))])
    (v_rowCount v + Z.of_nat (length (b_rows batch))) false;
  ac_rows : v_rowCount v' = v_rowCount v + Z.of_nat (length (b_rows batch));
  ac_pages : st' = retainSqlStreamBatch (v_rowSource v') batch st }.

Lemma sameColumns_spec l k : sameColumns l k = true -> l = k.
Proof.
  unfold sameColumns. intros [Hl Hf]%andb_true_iff. apply Nat.eqb_eq in Hl. revert k Hl Hf.
  induction l as [|x l IH]; intros [|y k] Hl Hf; cbn in *; try done. bools. f_equal; [done|]. apply IH; [lia|done].
Qed.

Lemma accepted_spec v n batch cap st v' st' :
  acceptSqlStreamBatch safe_natural v n batch cap st = Some (v', st') -> accepted v n batch cap st v' st'.
Proof.
  unfold acceptSqlStreamBatch. intros H.
  destruct (_ || _) eqn:E1 in H; [done|]. destruct (_ || _) eqn:E2 in H; [done|].
  destruct (match v_operationId v with Some _ => _ | None => _ end) eqn:E3 in H; [done|].
  destruct (existsb _ (b_rows batch)) eqn:E4 in H; [done|]. destruct (existsb _ (b_failures batch)) eqn:E5 in H; [done|].
  destruct (match v_columns v with [] => _ | _ => _ end) eqn:E6 in H; [done|].
  destruct (_ || _) eqn:E7 in H; [done|]. bools.
  repeat match goal with
  | H : (_ =? _)%nat = true |- _ => apply Nat.eqb_eq in H
  | H : (_ =? _) = true |- _ => apply Z.eqb_eq in H
  | H : (_ <? _) = false |- _ => apply Z.ltb_ge in H
  end.
  simplify_eq. split; cbn; try done.
  - split; [done|]. intros Hn. destruct (b_rows batch); [|done].
    change ((negb (b_sequence batch =? 0)%nat || negb (v_rowCount v =? 0)) = false) in H6. bools.
    split; [by apply Nat.eqb_eq|by apply Z.eqb_eq].
  - apply Forall_forall. intros r Hr. rewrite existsb_none in E4. specialize (E4 r Hr). bools. by apply Nat.eqb_eq.
  - split; [done|]. intros Hc. destruct (v_columns v); [done|]. bools. by apply sameColumns_spec.
  - match goal with H : default (v_rowCount v) _ = _ |- _ => rewrite H end.
    match goal with H : default (b_operationId batch) _ = _ |- _ => rewrite H end.
    by match goal with H : default cap _ = _ |- _ => rewrite H end.
Qed.

Lemma accept_ok v n batch cap st v' st' :
  view_ok v -> accepted v n batch cap st v' st' -> view_ok v'.
Proof.
  intros [H1 H2 H3 H4 H5 H6] [Hrun [Hp Hp'] [Hs Hn] Hst [Hz He] Hw Hc (Ho & Ho1 & Ho2 & Hcap & Hhex) Hsrc Hr Hst'].
  destruct (H4 Hp) as (Hlen & Hop & Hdone).
  split; rewrite ?Hsrc, ?Hp', ?Hr, ?Hn, ?Ho; cbn; try done.
  - rewrite Hs, Hlen, H3. apply placed_snoc; [done|unfold SQL_STREAM_MAX_ROWS_PER_BATCH in Hz; lia|].
    intros Hl. assert (b_rows batch = []) as Hb by (apply nil_length_inv; lia).
    destruct (He Hb) as [Hq _]. rewrite Hs, Hlen in Hq. by apply nil_length_inv.
  - intros _. rewrite length_app. cbn. rewrite Hlen. split_and!; [lia|done|done].
Qed.

(** ** Reading back *)

Lemma handle_key v op cap :
  non_empty op = true -> length cap = 64%nat -> operationId (v_rowSource v) = Some op ->
  capability (v_rowSource v) = Some cap -> exists key, sourceKey (v_rowSource v) = Some key.
Proof.
  intros Ho Hc E1 E2. unfold sourceKey. rewrite E1, E2. destruct op as [|c o]; [done|]. destruct cap; [done|]. by eexists.
Qed.

(** What the view's handle finds for a row of the batch just accepted. *)
Lemma accepted_row v n batch cap st v' st' j row :
  state_inv st -> view_ok v -> accepted v n batch cap st v' st' -> non_empty (b_operationId batch) = true ->
  b_rows batch !! j = Some row ->
  (sqlResultRowAt (v_rowSource v') (v_rowCount v + Z.of_nat j) st').2 = Some row.
Proof.
  intros Hst Hv Ha Hop Hj. pose proof (accept_ok _ _ _ _ _ _ _ Hv Ha) as Hv'.
  destruct Ha as [_ [Hp _] [Hs _] Hstart _ _ _ (_ & _ & _ & Hcap & _) Hsrc _ ->].
  destruct (vo_receiving _ Hv Hp) as (Hlen & _ & _).
  pose proof (placed_ordered _ (vo_placed _ Hv')) as Hord. pose proof (placed_rows _ (vo_placed _ Hv)) as Hpos.
  rewrite <- (vo_rows _ Hv) in Hpos. apply lookup_lt_Some in Hj as Hlt.
  destruct (handle_key v' (b_operationId batch) cap) as [key Hkey]; try done; try by rewrite Hsrc.
  set (range := mkRange (b_sequence batch) (v_rowCount v) (Z.of_nat (length (b_rows batch)))) in *.
  assert (pageRanges (v_rowSource v') !! b_sequence batch = Some range) as Hr.
  { rewrite Hsrc. cbn. rewrite Hs, Hlen. apply list_lookup_middle. done. }
  assert (retainSqlStreamBatch (v_rowSource v') batch st
    = retain (v_rowSource v') (b_sequence batch) (v_rowCount v) (b_rows batch) (b_failures batch) st) as ->.
  { unfold retainSqlStreamBatch. rewrite Hr. destruct (b_rowStart batch); cbn in Hstart; by rewrite ?Hstart. }
  destruct (retain_spec (v_rowSource v') (b_sequence batch) (v_rowCount v) (b_rows batch) (b_failures batch) st Hst)
    as [_ Hret].
  destruct (Hret key range Hkey Hr eq_refl eq_refl eq_refl) as (c & Hc & Hpage).
  set (index := v_rowCount v + Z.of_nat j).
  assert (holds_row index range = true) as Hin by (apply holds_bounds; unfold index, range; cbn; lia).
  pose proof (page_search_spec (v_rowSource v') index Hord) as Hfind.
  destruct (pageRangeIndexForRow (v_rowSource v') index) as [i|] eqn:E; [|by rewrite (Hfind _ _ Hr) in Hin].
  destruct Hfind as (r & Hri & Hri').
  assert (i = b_sequence batch) as -> by by eapply (holds_unique _ Hord index).
  rewrite Hr in Hri. injection Hri as <-.
  erewrite row_lookup; [|done|done| |done|done].
  - cbn. rewrite Hpage. cbn. rewrite Z.eqb_refl. unfold index. by replace (Z.to_nat _) with j by lia.
  - unfold index. rewrite Hsrc. cbn. lia.
Qed.

(** A batch is accepted only as the next one of its running view, with at most 256 rows, each
    as wide as the columns; the view then has one page more, its handle still describes pages
    that lie one after the other from the first row to the last, and every row of the batch is
    read back through that handle from the page cache, whatever the cache held before. *)
Theorem accepted_rows_read_back (ops : list op) (v : SqlStreamViewState) (n : nat)
    (batch : SqlStreamBatchWire) (cap : jsstr) (v' : SqlStreamViewState) (st' : state) :
  view_ok v -> acceptSqlStreamBatch safe_natural v n batch cap (run_ops safe_natural ops) = Some (v', st') ->
  non_empty (b_operationId batch) = true ->
  view_ok v' /\ v_nextSequence v' = S (b_sequence batch) /\ b_sequence batch = v_nextSequence v
  /\ v_rowCount v' = v_rowCount v + Z.of_nat (length (b_rows batch)) /\ (length (b_rows batch) <= 256)%nat
  /\ Forall (fun r => length r = length (b_columns batch)) (b_rows batch)
  /\ forall j row, b_rows batch !! j = Some row ->
     (sqlResultRowAt (v_rowSource v') (v_rowCount v + Z.of_nat j) st').2 = Some row.
Proof.
  intros Hv Ha%accepted_spec Hop. pose proof (accept_ok _ _ _ _ _ _ _ Hv Ha) as Hv'.
  pose proof (run_ops_inv safe_natural ops) as Hst. split_and!; [done|..].
  - destruct Ha as [_ _ [<- ->] _ _ _ _ _ _ _ _]. done.
  - apply Ha.
  - apply Ha.
  - destruct (ac_size _ _ _ _ _ _ _ Ha) as [Hz _]. unfold SQL_STREAM_MAX_ROWS_PER_BATCH in Hz. lia.
  - apply Ha.
  - intros j row. by eapply accepted_row.
Qed.
End accept.

Lemma sample_view_ok : view_ok sample_view.
Proof. by apply connecting_view_ok; [apply empty_view_ok|..]. Qed.

Lemma accepted_rows_witness :
  exists v' st', acceptSqlStreamBatch no_safe_natural sample_view 1 (sample_batch 0 [[VNull]; [VBool true]])
                   sample_capability (run_ops no_safe_natural []) = Some (v', st')
  /\ (sqlResultRowAt (v_rowSource v') 1 st').2 = Some [VBool true].
Proof.
  eexists _, _. split; [reflexivity|].
  unshelve epose proof (accepted_rows_read_back no_safe_natural [] sample_view 1
    (sample_batch 0 [[VNull]; [VBool true]]) sample_capability _ _ sample_view_ok _ _) as (_ & _ & _ & _ & _ & _ & H);
    [..|apply (H 1%nat)]; reflexivity.
Defined.
