(* ===== verification/ResultStream.v ===== *)
(** * The hook of a streamed result

    [src/features/queries/useSqlResultStream.ts]: runs that own a stream controller and the
    commits awaited by their batches. [start], [reset], [cancel] and the callback of a batch
    are asynchronous: each is a task that waits somewhere, and an input resumes it with the
    answer it waits for. A commit ([commit] of the source) is a promise that the layout effect
    of the next React render resolves, if its run is still shown. Inputs may come in any
    order, several calls of [start] and [reset] may overlap.

    The hook is taken after its first effect; a change of [scopeKey] runs the clean-up and the
    effect back to back, unmounting runs the clean-up for good. [stateRef] and the state given
    to [setStream] are always the same view, [h_state]; [h_shown] is the view of the last
    render. The performance marks are left out. *)

From S2P Require Import Prelude JsString JsMap JsValue ResultPages StreamView.
From S2P Require SqlStream.
From Stdlib Require String.
Import Stdlib.Strings.String.StringSyntax.

Notation stream_error := SqlStream.stream_error.

(** ** State *)

(** A [StreamRun]; its pending commits are those of [h_commits] with its position. [r_started]
    tells that its controller has been made, so that its batches may come. *)
Record StreamRun := mkStreamRun {
  r_id : nat; r_active : bool; r_controller : bool; r_invalidated : bool; r_started : bool }.

Definition newRun (id : nat) : StreamRun := mkStreamRun id true false false false.

Inductive commit_state := cm_pending | cm_done | cm_stale.

(** What is thrown in the hook. *)
Inductive hook_error := he_stale | he_rejected | he_stream (e : stream_error).

Definition staleRun_message : jsstr := js "SQL stream run is no longer active".
Definition rejected_message : jsstr := js "SQL stream batch rejected by the result reducer".

(** Where a call waits. [n] is the position of its commit, [run] that of its run. *)
Inductive task :=
| s_invalidating (restart : bool)                (* [start], or [reset], awaits the cancellation *)
| s_connecting (run n : nat)
| s_running (run : nat)
| s_finishing (run n : nat)
| s_failing (run n : nat) (e : hook_error)
| s_over (outcome : res hook_error unit)
| s_resetting (run n : nat)
| k_cancelling (run : nat) (partial controller : bool)
| k_completing (run : nat)                       (* the cancelled controller is completing *)
| b_committing (run n : nat) (batch : SqlStreamBatchWire)
| b_over (run : nat) (batch : SqlStreamBatchWire) (answer : res hook_error unit).

Record hook := mkHook {
  h_state : SqlStreamViewState; h_due : bool; h_shown : SqlStreamViewState;
  h_runs : list StreamRun; h_active : option nat; h_nextRunId : nat; h_mounted : bool;
  h_commits : list (nat * commit_state); h_tasks : list task;
  h_pages : state;
  h_cancels : list nat }.                        (* the runs whose controllers were cancelled *)

Definition open_hook (pages : state) : hook :=
  mkHook (emptySqlStreamView 0) false (emptySqlStreamView 0) [] None 0 true [] [] pages [].

Definition set_view (v : SqlStreamViewState) (due : bool) (h : hook) : hook :=
  mkHook v due (h_shown h) (h_runs h) (h_active h) (h_nextRunId h) (h_mounted h)
    (h_commits h) (h_tasks h) (h_pages h) (h_cancels h).
Definition set_run (i : nat) (r : StreamRun) (h : hook) : hook :=
  mkHook (h_state h) (h_due h) (h_shown h) (<[i:=r]> (h_runs h)) (h_active h) (h_nextRunId h) (h_mounted h)
    (h_commits h) (h_tasks h) (h_pages h) (h_cancels h).
Definition set_active (a : option nat) (h : hook) : hook :=
  mkHook (h_state h) (h_due h) (h_shown h) (h_runs h) a (h_nextRunId h) (h_mounted h)
    (h_commits h) (h_tasks h) (h_pages h) (h_cancels h).
Definition set_commits (cs : list (nat * commit_state)) (h : hook) : hook :=
  mkHook (h_state h) (h_due h) (h_shown h) (h_runs h) (h_active h) (h_nextRunId h) (h_mounted h)
    cs (h_tasks h) (h_pages h) (h_cancels h).
Definition set_pages (p : state) (h : hook) : hook :=
  mkHook (h_state h) (h_due h) (h_shown h) (h_runs h) (h_active h) (h_nextRunId h) (h_mounted h)
    (h_commits h) (h_tasks h) p (h_cancels h).
Definition set_mounted (m : bool) (h : hook) : hook :=
  mkHook (h_state h) (h_due h) (h_shown h) (h_runs h) (h_active h) (h_nextRunId h) m
    (h_commits h) (h_tasks h) (h_pages h) (h_cancels h).
Definition add_task (t : task) (h : hook) : hook :=
  mkHook (h_state h) (h_due h) (h_shown h) (h_runs h) (h_active h) (h_nextRunId h) (h_mounted h)
    (h_commits h) (h_tasks h ++ [t]) (h_pages h) (h_cancels h).
Definition set_task (t : nat) (w : task) (h : hook) : hook :=
  mkHook (h_state h) (h_due h) (h_shown h) (h_runs h) (h_active h) (h_nextRunId h) (h_mounted h)
    (h_commits h) (<[t:=w]> (h_tasks h)) (h_pages h) (h_cancels h).
(** [controller?.cancel()] *)
Definition call_cancel (i : nat) (h : hook) : hook :=
  mkHook (h_state h) (h_due h) (h_shown h) (h_runs h) (h_active h) (h_nextRunId h) (h_mounted h)
    (h_commits h) (h_tasks h) (h_pages h) (i :: h_cancels h).

(** ** Runs and commits *)

Definition owns (i : nat) (h : hook) : bool :=
  h_mounted h && match h_runs h !! i with Some r => r_active r | None => false end
  && bool_decide (h_active h = Some i).

(** Settles the pending commits of a run: [error] rejects them as stale. *)
Definition settlePending (i : nat) (error : bool) (h : hook) : hook :=
  set_commits (map (fun c => if (c.1 =? i) then
      (c.1, match c.2 with cm_pending => if error then cm_stale else cm_done | s => s end) else c) (h_commits h)) h.

(** [commit(run, next)] returns a promise, here the position of its outcome; [fresh] is false
    when [next] is the very view that is there, for which React does not render. *)
Definition commit (i : nat) (next : SqlStreamViewState) (fresh : bool) (h : hook) : hook * nat :=
  let n := length (h_commits h) in
  if negb (owns i h) then (set_commits (h_commits h ++ [(i, cm_stale)]) h, n)
  else
    let h := set_view next (h_due h || fresh) h in
    (set_commits (h_commits h ++ [(i, cm_pending)]) h, n).

(** The layout effect, which runs after a render with a new view. *)
Definition layout_effect (h : hook) : hook :=
  match h_active h with
  | Some i =>
    match h_runs h !! i with
    | Some r => if (v_runId (h_shown h) =? r_id r) && owns i h then settlePending i false h else h
    | None => h
    end
  | None => h
  end.

Definition react_commit (h : hook) : hook :=
  if h_due h then
    layout_effect (mkHook (h_state h) false (h_state h) (h_runs h) (h_active h) (h_nextRunId h) (h_mounted h)
      (h_commits h) (h_tasks h) (h_pages h) (h_cancels h))
  else h.

(** ** Invalidation *)

(** The view of a stopped run without the rows. *)
Definition discarded (v : SqlStreamViewState) : SqlStreamViewState :=
  mkView (v_runId v) ph_cancelled (v_operationId v) (v_nextSequence v) (v_columns v)
    emptySqlStreamRows 0 (v_truncated v) (v_durationMs v) (v_error v) (v_timings v).

(** [invalidate] up to its first [await]; whether rows were kept, and whether there was a
    controller whose cancellation is awaited. *)
Definition invalidate (run : option nat) (keepRows : bool) (h : hook) : hook * bool * bool :=
  match run with
  | None => (h, false, false)
  | Some i =>
    match h_runs h !! i with
    | None => (h, false, false)
    | Some r =>
      if negb (r_active r) then (h, false, false)
      else
        let h := set_run i (mkStreamRun (r_id r) false false true (r_started r)) h in
        let h := if bool_decide (h_active h = Some i) then set_active None h else h in
        let h := settlePending i true h in
        let current := h_state h in
        let '(h, partial) :=
          if (v_runId current =? r_id r) && receiving (v_phase current) then
            let partial := keepRows && (0 <? v_rowCount current)%Z in
            let h := if partial then h
                     else set_pages (clearSqlResultPageCache (Some (v_rowSource current)) (h_pages h)) h in
            let cancelled := if partial then with_phase current ph_cancelled (v_error current)
                             else discarded current in
            (set_view cancelled true h, partial)
          else (h, false) in
        (if r_controller r then call_cancel i h else h, partial, r_controller r)
    end
  end.

(** The end of [cancel]: the rows that were kept can be read back from the native core. *)
Definition make_readable (i : nat) (h : hook) : hook :=
  match h_runs h !! i with
  | Some r =>
    let latest := h_state h in
    if negb (h_mounted h) || negb (v_runId latest =? r_id r) || negb (bool_decide (v_phase latest = ph_cancelled))
    then h
    else set_view (mkView (v_runId latest) (v_phase latest) (v_operationId latest) (v_nextSequence latest)
                     (v_columns latest) (readable (v_rowSource latest) (src_rowCount (v_rowSource latest)))
                     (v_rowCount latest) (v_truncated latest) (v_durationMs latest) (v_error latest)
                     (v_timings latest)) true h
  | None => h
  end.

(** ** [start] and [reset] *)

(** The new run and its position. *)
Definition add_run (h : hook) : hook * nat :=
  let id := S (h_nextRunId h) in
  let i := length (h_runs h) in
  (mkHook (h_state h) (h_due h) (h_shown h) (h_runs h ++ [newRun id]) (Some i) id (h_mounted h)
     (h_commits h) (h_tasks h) (h_pages h) (h_cancels h), i).

Definition end_run (i : nat) (h : hook) : hook :=
  match h_runs h !! i with
  | Some r => set_active None (set_run i (mkStreamRun (r_id r) false (r_controller r) (r_invalidated r) (r_started r)) h)
  | None => h
  end.

(** The [finally] of [start]. *)
Definition finally (i : nat) (h : hook) : hook :=
  if bool_decide (h_active h = Some i) then
    match h_runs h !! i with
    | Some r =>
      end_run i (settlePending i true (set_run i (mkStreamRun (r_id r) (r_active r) false (r_invalidated r) (r_started r)) h))
    | None => h
    end
  else h.

Definition end_start (t i : nat) (outcome : res hook_error unit) (h : hook) : hook :=
  set_task t (s_over outcome) (finally i h).

(** [error instanceof Error ? error.message : "stream operation failed"] *)
Definition stream_message (e : stream_error) : jsstr :=
  match e with
  | SqlStream.se_ready_owner => js "stream ready notification did not match its owner"
  | SqlStream.se_batch_gone => js "stream batch is no longer available"
  | SqlStream.se_batch_owner => js "stream batch did not match its ready notification"
  | SqlStream.se_ack_rejected => js "stream batch acknowledgement was rejected"
  | SqlStream.se_receipt_owner => js "stream completion did not match the owning operation"
  | SqlStream.se_transport => js "SQL stream transport failed"
  | SqlStream.se_error message => message
  | SqlStream.se_value _ => js "stream operation failed"
  end.
Definition error_message (e : hook_error) : jsstr :=
  match e with
  | he_stale => staleRun_message
  | he_rejected => rejected_message
  | he_stream e => stream_message e
  end.

(** The [catch] of [start]. *)
Definition start_failed (t i : nat) (e : hook_error) (h : hook) : hook :=
  if negb (owns i h) then end_start t i (if h_mounted h then Ok tt else Throw e) h
  else if bool_decide (v_phase (h_state h) = ph_cancelled) then end_start t i (Ok tt) h
  else
    let current := h_state h in
    let phase := match v_operationId current with
                 | Some op => if non_empty op then ph_outcome_unknown else ph_error
                 | None => ph_error end in
    let '(h, n) := commit i (with_phase current phase (Some (error_message e))) true h in
    set_task t (s_failing i n e) h.

Definition connecting_view (id : nat) : SqlStreamViewState :=
  with_phase (emptySqlStreamView id) ph_connecting None.

(** After [await invalidate(...)]: [start] shows a connecting run, [reset] an empty view. *)
Definition invalidated (t : nat) (restart : bool) (h : hook) : hook :=
  if restart && negb (h_mounted h) then set_task t (s_over (Ok tt)) h
  else
    let '(h, i) := add_run h in
    let id := h_nextRunId h in
    let '(h, n) := commit i (if restart then emptySqlStreamView id else connecting_view id) true h in
    set_task t (if restart then s_resetting i n else s_connecting i n) h.

(** What a task is resumed with: a settled promise, what the factory returns should it be
    called, the end of the stream with the time it took, or the run's invalidation. *)
Inductive answer :=
| a_turn
| a_factory (made : res stream_error unit)
| a_completion (receipt : res stream_error SqlStreamReceipt) (elapsed : Z)
| a_invalidated.

Definition outcome_of_commit (h : hook) (n : nat) : commit_state :=
  match h_commits h !! n with Some (_, s) => s | None => cm_pending end.

(** The connecting view has been rendered: the factory makes the controller. *)
Definition connected (t i : nat) (made : res stream_error unit) (h : hook) : hook :=
  if negb (owns i h) then end_start t i (Ok tt) h
  else
    match made with
    | Throw e => start_failed t i (he_stream e) h
    | Ok _ =>
      match h_runs h !! i with
      | Some r => set_task t (s_running i) (set_run i (mkStreamRun (r_id r) (r_active r) true (r_invalidated r) true) h)
      | None => h
      end
    end.

(** The stream has ended. *)
Definition completed (t i : nat) (receipt : res stream_error SqlStreamReceipt) (elapsed : Z) (h : hook) : hook :=
  match receipt with
  | Throw e => start_failed t i (he_stream e) h
  | Ok receipt =>
    if negb (owns i h) then end_start t i (Ok tt) h
    else
      match h_runs h !! i with
      | Some r =>
        let '(h, n) := commit i (finishSqlStream (h_state h) (r_id r) receipt (Some (Z.max 0 elapsed)))
                         (takes_receipt (h_state h) (r_id r)) h in
        set_task t (s_finishing i n) h
      | None => h
      end
  end.

Definition reset_shown (t i : nat) (h : hook) : hook :=
  set_task t (s_over (Ok tt)) (if bool_decide (h_active h = Some i) then end_run i h else h).

(** The race of [start] is lost to the invalidation of its run. *)
Definition run_invalidated (i : nat) (h : hook) : bool :=
  match h_runs h !! i with Some r => r_invalidated r | None => false end.

Definition resume (t : nat) (a : answer) (h : hook) : hook :=
  match h_tasks h !! t with
  | None => h
  | Some w =>
    match w, a with
    | s_invalidating restart, a_turn => invalidated t restart h
    | s_connecting i n, a_factory made =>
      match outcome_of_commit h n with
      | cm_pending => h
      | cm_stale => start_failed t i he_stale h
      | cm_done => connected t i made h
      end
    | s_running i, a_completion receipt elapsed => completed t i receipt elapsed h
    | s_running i, a_invalidated => if run_invalidated i h then end_start t i (Ok tt) h else h
    | s_finishing i n, a_turn =>
      match outcome_of_commit h n with
      | cm_pending => h
      | cm_stale => start_failed t i he_stale h
      | cm_done => end_start t i (Ok tt) h
      end
    | s_failing i n e, a_turn =>
      match outcome_of_commit h n with
      | cm_pending => h
      | cm_stale => end_start t i (Throw he_stale) h
      | cm_done => end_start t i (Throw e) h
      end
    | s_resetting i n, a_turn =>
      match outcome_of_commit h n with
      | cm_pending => h
      | cm_stale => set_task t (s_over (Throw he_stale)) h
      | cm_done => reset_shown t i h
      end
    | k_cancelling i partial controller, a_turn =>
      set_task t (if negb partial || negb controller then s_over (Ok tt) else k_completing i) h
    | k_completing i, a_turn => set_task t (s_over (Ok tt)) (make_readable i h)
    | b_committing i n batch, a_turn =>
      match outcome_of_commit h n with
      | cm_pending => h
      | cm_stale => set_task t (b_over i batch (Throw he_stale)) h
      | cm_done => set_task t (b_over i batch (if owns i h then Ok tt else Throw he_stale)) h
      end
    | _, _ => h
    end
  end.

(** ** Calls *)

Definition start_call (restart : bool) (h : hook) : hook :=
  add_task (s_invalidating restart) (invalidate (h_active h) false h).1.1.

Definition cancel_call (h : hook) : hook :=
  match h_active h with
  | None => h
  | Some i =>
    let '(h, partial, controller) := invalidate (Some i) true h in
    add_task (k_cancelling i partial controller) h
  end.

(** The effect's clean-up. *)
Definition cleanup (h : hook) : hook := (invalidate (h_active h) false (set_mounted false h)).1.1.

Section batches.
Variable safe_natural : jsstr -> option N.

(** The callback that the factory was given for run [i]. *)
Definition on_batch (i : nat) (batch : SqlStreamBatchWire) (capability : jsstr) (h : hook) : hook :=
  match h_runs h !! i with
  | None => h
  | Some r =>
    if negb (r_started r) then h
    else if negb (owns i h) then add_task (b_over i batch (Throw he_stale)) h
    else
      match acceptSqlStreamBatch safe_natural (h_state h) (r_id r) batch capability (h_pages h) with
      | None => add_task (b_over i batch (Throw he_rejected)) h
      | Some (next, pages) =>
        let '(h, n) := commit i next true (set_pages pages h) in
        add_task (b_committing i n batch) h
      end
  end.

(** [x_pages]: anything else that happens to the page cache. *)
Inductive hook_input :=
| x_start | x_reset | x_cancel | x_scope | x_unmount | x_render
| x_batch (run : nat) (batch : SqlStreamBatchWire) (capability : jsstr)
| x_resume (t : nat) (a : answer)
| x_pages (o : op).

Definition hook_step (h : hook) (x : hook_input) : hook :=
  match x with
  | x_start => start_call false h
  | x_reset => start_call true h
  | x_cancel => cancel_call h
  | x_scope => set_mounted (h_mounted h) (cleanup h)
  | x_unmount => cleanup h
  | x_render => react_commit h
  | x_batch i batch capability => on_batch i batch capability h
  | x_resume t a => resume t a h
  | x_pages o => set_pages (apply_op safe_natural (h_pages h) o) h
  end.

(** [ops] are the calls of the page cache before the hook is mounted. *)
Definition hook_run (ops : list op) (xs : list hook_input) : hook :=
  foldl hook_step (open_hook (run_ops safe_natural ops)) xs.
End batches.

Definition stream_inputs : list hook_input :=
  [x_start; x_resume 0 a_turn; x_render; x_resume 0 (a_factory (Ok tt));
   x_batch 0 (sample_batch 0 [[VNull]; [VBool true]]) sample_capability; x_render; x_resume 1 a_turn;
   x_batch 0 (sample_batch 1 [[VBool false]]) sample_capability; x_render; x_resume 2 a_turn].

Example hook_sample :
  let h := hook_run no_safe_natural [] (stream_inputs ++
    [x_resume 0 (a_completion (Ok (sample_receipt 3)) 12); x_render; x_resume 0 a_turn]) in
  (v_phase (h_shown h), v_rowCount (h_shown h), v_timings (h_shown h), h_tasks h, h_active h)
  = (ph_complete, 3%Z, Some 12%Z,
     [s_over (Ok tt); b_over 0 (sample_batch 0 [[VNull]; [VBool true]]) (Ok tt);
      b_over 0 (sample_batch 1 [[VBool false]]) (Ok tt)], None).
Proof. reflexivity. Qed.

Example hook_cancelled :
  let h := hook_run no_safe_natural [] (stream_inputs ++ [x_cancel; x_resume 3 a_turn; x_resume 0 a_invalidated;
    x_resume 3 a_turn; x_render]) in
  (v_phase (h_shown h), v_rowCount (h_shown h), complete (v_rowSource (h_shown h)), h_cancels h,
   (sqlResultRowAt (v_rowSource (h_shown h)) 2 (h_pages h)).2)
  = (ph_cancelled, 3%Z, true, [0], Some [VBool false]).
Proof. reflexivity. Qed.
