(* ===== verification/ResultStreamInv.v ===== *)
(** * The hook of a streamed result: its invariant

    The invariant has two layers: what holds of the hook apart from its tasks ([core]), and
    what each waiting task knows of it ([task_ok]). A step changes the hook as [evolves] says,
    which every task but the one that runs survives. *)

From S2P Require Import Prelude JsString JsMap JsValue ResultPages ResultPagesInv StreamView.
From S2P Require Import ResultStream.
From S2P Require SqlStream.
From Stdlib Require String.
Import Stdlib.Strings.String.StringSyntax.

(** ** The hook without its tasks *)

Definition owned (i : nat) (h : hook) : Prop := h_mounted h = true /\ h_active h = Some i.

Record core (h : hook) : Prop := {
  co_ids : forall i r, h_runs h !! i = Some r -> r_id r = S i;
  co_next : h_nextRunId h = length (h_runs h);
  co_active : forall i, h_active h = Some i ->
    exists r, h_runs h !! i = Some r /\ r_active r = true /\ r_invalidated r = false;
  co_view : view_ok (h_state h);
  co_shown : view_ok (h_shown h);
  co_owned : forall i, owned i h -> v_runId (h_state h) = S i;
  co_commits : forall n i s, h_commits h !! n = Some (i, s) -> i < length (h_runs h);
  co_due : forall n i, owned i h -> h_commits h !! n = Some (i, cm_pending) -> h_due h = true;
  co_pending : forall n i, h_commits h !! n = Some (i, cm_pending) ->
    exists r, h_runs h !! i = Some r /\ r_active r = true;
  co_pages : state_inv (h_pages h);
  co_fresh : forall n i, owned i h -> h_commits h !! n <> Some (i, cm_stale) }.

Lemma owns_spec i h : core h -> owns i h = true <-> owned i h.
Proof.
  intros Hc. unfold owns, owned. rewrite !andb_true_iff, bool_decide_eq_true. split; [tauto|].
  intros [Hm Ha]. destruct (co_active _ Hc _ Ha) as (r & Hr & Hr' & _). by rewrite Hm, Hr.
Qed.

Lemma owns_false i h : core h -> owns i h = false <-> ~ owned i h.
Proof. intros Hc. rewrite <- owns_spec by done. destruct (owns i h); naive_solver. Qed.

(** A view that shows a batch of a run: it has the page of the batch. *)
Definition shows (v : SqlStreamViewState) (i : nat) (batch : SqlStreamBatchWire) : Prop :=
  v_runId v = S i /\ exists start, pageRanges (v_rowSource v) !! b_sequence batch
    = Some (mkRange (b_sequence batch) start (Z.of_nat (length (b_rows batch)))).

(** ** Tasks *)

Definition stage_run (w : task) : option nat :=
  match w with
  | s_connecting i _ | s_running i | s_finishing i _ | s_failing i _ _ | s_resetting i _ => Some i
  | _ => None
  end.

Definition stage_phase (w : task) (p : SqlStreamPhase) : Prop :=
  match w with
  | s_connecting _ _ | s_running _ => receiving p = true
  | s_resetting _ _ => p = ph_idle
  | _ => receiving p = false
  end.

Definition waits_commit (w : task) : option (nat * nat) :=
  match w with
  | s_connecting i n | s_finishing i n | s_failing i n _ | s_resetting i n | b_committing i n _ => Some (i, n)
  | _ => None
  end.

Record task_ok (h : hook) (w : task) : Prop := {
  tk_run : forall i, stage_run w = Some i ->
    i < length (h_runs h) /\ (owned i h -> stage_phase w (v_phase (h_state h)));
  tk_commit : forall i n, waits_commit w = Some (i, n) ->
    i < length (h_runs h) /\ exists s, h_commits h !! n = Some (i, s);
  tk_batch : forall i n batch, w = b_committing i n batch -> owned i h ->
    shows (h_state h) i batch /\ (h_commits h !! n = Some (i, cm_done) -> shows (h_shown h) i batch);
  tk_reset : forall i n, w = s_resetting i n -> forall n' s, h_commits h !! n' = Some (i, s) -> n' = n }.

Definition tasks_ok (h : hook) : Prop :=
  (forall t w, h_tasks h !! t = Some w -> task_ok h w)
  /\ forall t t' w w' i, h_tasks h !! t = Some w -> h_tasks h !! t' = Some w' ->
     stage_run w = Some i -> stage_run w' = Some i -> t = t'.

(** How the hook changes under the tasks that do not run; [who] is the run whose own task
    brings its view to another phase or commits. *)
Record evolves (who : option nat) (h h' : hook) : Prop := {
  ev_tasks : h_tasks h' = h_tasks h;
  ev_runs : length (h_runs h) <= length (h_runs h');
  ev_owned : forall i, owned i h' -> i < length (h_runs h) -> owned i h;
  ev_phase : forall i, owned i h' -> i < length (h_runs h) -> who <> Some i ->
    receiving (v_phase (h_state h')) = receiving (v_phase (h_state h))
    /\ (v_phase (h_state h) = ph_idle -> v_phase (h_state h') = ph_idle);
  ev_state : forall i b, owned i h' -> i < length (h_runs h) -> shows (h_state h) i b -> shows (h_state h') i b;
  ev_shown : forall i b, owned i h' -> i < length (h_runs h) -> shows (h_state h) i b ->
    shows (h_shown h) i b -> shows (h_shown h') i b;
  ev_commits : forall n i s, h_commits h !! n = Some (i, s) -> exists s', h_commits h' !! n = Some (i, s')
    /\ (owned i h' -> i < length (h_runs h) -> s' = cm_done -> s = cm_done \/ forall b, shows (h_state h) i b -> shows (h_shown h') i b);
  ev_new : forall n i s, h_commits h' !! n = Some (i, s) -> n < length (h_commits h)
    \/ length (h_runs h) <= i \/ who = Some i \/ (owned i h /\ v_phase (h_state h) <> ph_idle) }.

Lemma evolves_refl who h : evolves who h h.
Proof. split; try done; [by intros; exists s; auto|]. intros n i s Hn. left. by apply lookup_lt_Some in Hn. Qed.

Lemma evolves_weaken who h h' : evolves None h h' -> evolves who h h'.
Proof.
  intros [H1 H2 H3 H4 H5 H6 H7 H8]. split; try done.
  - intros i Hi Hl _. by apply (H4 i).
  - intros n i s Hn. destruct (H8 n i s Hn) as [?|[?|[?|?]]]; [by left|by right; left|done|by do 3 right].
Qed.

Lemma task_evolves who h h' w :
  evolves who h h' -> task_ok h w -> (forall i, stage_run w = Some i -> who <> Some i) -> task_ok h' w.
Proof.
  intros [H1 H2 H3 H4 H5 H6 H7 H8] [T1 T2 T3 T4] Hw. split.
  - intros i Hi. destruct (T1 i Hi) as [Hl Hp]. split; [lia|]. intros Ho.
    destruct (H4 i Ho Hl (Hw i Hi)) as [E1 E2]. specialize (Hp (H3 i Ho Hl)).
    destruct w; cbn in *; simplify_eq; rewrite ?E1; auto.
  - intros i n Hn. destruct (T2 i n Hn) as [Hl [s Hs]]. destruct (H7 n i s Hs) as (s' & Hs' & _).
    split; [lia|by exists s'].
  - intros i n b -> Ho. destruct (T2 i n eq_refl) as [Hl [s Hs]]. destruct (H7 n i s Hs) as (s' & Hs' & Hd).
    destruct (T3 i n b eq_refl (H3 i Ho Hl)) as [Hb Hb']. split; [by apply H5|].
    intros Hn. assert (s' = cm_done) as -> by congruence. destruct (Hd Ho Hl eq_refl) as [-> |Hd']; [|by apply Hd'].
    apply H6; auto.
  - intros i n -> n' s Hn'. destruct (T1 i eq_refl) as [Hl Hp].
    destruct (H8 n' i s Hn') as [Hlt|[?|[?|[Ho Hi]]]]; [|lia|by destruct (Hw i eq_refl)|by destruct Hi; apply Hp].
    apply lookup_lt_is_Some in Hlt as [[i' s'] Hs']. destruct (H7 _ _ _ Hs') as (s'' & Hs'' & _).
    assert (i' = i) as -> by congruence. by eapply T4.
Qed.

Lemma task_ok_set h t w0 w : task_ok h w -> task_ok (set_task t w0 h) w.
Proof. by intros [H1 H2 H3 H4]; split. Qed.
Lemma task_ok_add h w0 w : task_ok h w -> task_ok (add_task w0 h) w.
Proof. by intros [H1 H2 H3 H4]; split. Qed.

(** The task that runs goes on to wait for [w]. *)
Lemma set_task_ok who h h' t w0 w :
  tasks_ok h -> evolves who h h' -> h_tasks h !! t = Some w0 ->
  (forall i, who = Some i -> stage_run w0 = Some i) -> task_ok h' w ->
  (forall i, stage_run w = Some i -> stage_run w0 = Some i \/ length (h_runs h) <= i) ->
  tasks_ok (set_task t w h').
Proof.
  intros [Hok Huniq] He Ht Hwho Hw Hnew. assert (h_tasks h' = h_tasks h) as Htasks by apply He. split; cbn.
  - intros t' w'. rewrite Htasks. intros [(-> & <- & _)|(Hne & Ht')]%list_lookup_insert_Some; apply task_ok_set; [exact Hw|].
    apply (task_evolves who h h'); [done|by eapply Hok|].
    intros i Hi Hi'. destruct Hne. by apply (Huniq t t' w0 w' i); auto.
  - rewrite Htasks. intros t1 t2 w1 w2 i H1 H2 S1 S2.
    assert (forall t' w', h_tasks h !! t' = Some w' -> stage_run w' = Some i -> stage_run w = Some i -> t' = t) as Hx.
    { intros t' w' Ht' Hs Hs'. destruct (Hnew i Hs') as [Hs0|Hl]; [by eapply Huniq|].
      destruct (tk_run _ _ (Hok _ _ Ht') i Hs). lia. }
    apply list_lookup_insert_Some in H1 as [(-> & <- & _)|(Hn1 & H1)];
      apply list_lookup_insert_Some in H2 as [(-> & <- & _)|(Hn2 & H2)]; [done|..].
    + symmetry. by eapply Hx.
    + by eapply Hx.
    + by eapply Huniq.
Qed.

Lemma add_task_ok h h' w :
  tasks_ok h -> evolves None h h' -> task_ok h' w -> stage_run w = None -> tasks_ok (add_task w h').
Proof.
  intros [Hok Huniq] He Hw Hs. assert (h_tasks h' = h_tasks h) as Htasks by apply He. split; cbn; rewrite Htasks.
  - intros t' w' [Ht|[_ Ht]]%lookup_app_Some; apply task_ok_add;
      [apply (task_evolves None h h'); [done|by eapply Hok|done]|].
    by apply list_lookup_singleton_Some in Ht as [_ <-].
  - intros t1 t2 w1 w2 i [H1|[_ H1]]%lookup_app_Some [H2|[_ H2]]%lookup_app_Some S1 S2;
      try (apply list_lookup_singleton_Some in H1 as [_ <-]); try (apply list_lookup_singleton_Some in H2 as [_ <-]);
      try congruence. by eapply Huniq.
Qed.

Lemma evolve_ok h h' : tasks_ok h -> evolves None h h' -> tasks_ok h'.
Proof.
  intros [Hok Huniq] He. assert (h_tasks h' = h_tasks h) as Htasks by apply He. split; rewrite Htasks; [|done].
  intros t w Ht. by apply (task_evolves None h h'); [|eapply Hok|].
Qed.

Lemma evolves_trans who h1 h2 h3 :
  evolves who h1 h2 -> evolves who h2 h3 -> evolves who h1 h3.
Proof.
  intros E1 E2. pose proof (ev_runs _ _ _ E1) as L1. pose proof (ev_runs _ _ _ E2) as L2.
  assert (forall i, owned i h3 -> i < length (h_runs h1) -> owned i h2) as Ho
    by (intros i ? ?; apply (ev_owned _ _ _ E2); [done|lia]).
  split.
  - rewrite (ev_tasks _ _ _ E2). apply E1.
  - lia.
  - intros i Hi Hl. apply (ev_owned _ _ _ E1); auto.
  - intros i Hi Hl Hw. destruct (ev_phase _ _ _ E1 i (Ho i Hi Hl) Hl Hw), (ev_phase _ _ _ E2 i Hi ltac:(lia) Hw).
    split; [congruence|auto].
  - intros i b Hi Hl Hb. apply (ev_state _ _ _ E2); [done|lia|]. by apply (ev_state _ _ _ E1); auto.
  - intros i b Hi Hl Hb Hs. apply (ev_shown _ _ _ E2); [done|lia| |by apply (ev_shown _ _ _ E1); auto].
    by apply (ev_state _ _ _ E1); auto.
  - intros n i s Hn. destruct (ev_commits _ _ _ E1 n i s Hn) as (s2 & H2 & D2).
    destruct (ev_commits _ _ _ E2 n i s2 H2) as (s3 & H3 & D3). exists s3. split; [done|]. intros Hi Hl Hs.
    destruct (D3 Hi ltac:(lia) Hs) as [-> |D]; [|right; intros b Hb; apply D, (ev_state _ _ _ E1); auto].
    destruct (D2 (Ho i Hi Hl) Hl eq_refl) as [-> |D]; [by left|right].
    intros b Hb. apply (ev_shown _ _ _ E2); [done|lia|by apply (ev_state _ _ _ E1); auto|auto].
  - intros n i s Hn. destruct (ev_new _ _ _ E2 n i s Hn) as [Hlt|[?|[?|[Ho' Hp]]]]; [|lia|by auto|].
    + apply lookup_lt_is_Some in Hlt as [[i' s'] Hs']. destruct (ev_commits _ _ _ E2 _ _ _ Hs') as (s'' & Hs'' & _).
      assert (i' = i) as -> by congruence. by eapply (ev_new _ _ _ E1).
    + destruct (decide (i < length (h_runs h1))); [|right; left; lia]. destruct (decide (who = Some i)); [auto|].
      do 3 right. split; [by apply (ev_owned _ _ _ E1)|]. intros Hp'. destruct Hp.
      by apply (proj2 (ev_phase _ _ _ E1 i Ho' l n0)).
Qed.

(** ** Commits and runs that end *)

Lemma settle_lookup n j s i e h :
  h_commits (settlePending i e h) !! n = Some (j, s) <-> exists s0, h_commits h !! n = Some (j, s0) /\
    s = if j =? i then match s0 with cm_pending => if e then cm_stale else cm_done | _ => s0 end else s0.
Proof.
  unfold settlePending, set_commits. cbn. rewrite list_lookup_fmap.
  destruct (h_commits h !! n) as [[j0 s0]|]; cbn; [|naive_solver].
  split.
  - destruct (j0 =? i) eqn:E; intros [= <- <-]; exists s0; (split; [done|]); rewrite E; by destruct s0.
  - intros (s1 & [= -> ->] & ->). destruct (j =? i); by destruct s1.
Qed.

Lemma settle_pending_none n i e h : h_commits (settlePending i e h) !! n <> Some (i, cm_pending).
Proof. intros ([] & _ & H)%settle_lookup; rewrite Nat.eqb_refl in H; try done. by destruct e. Qed.

Lemma settle_pending_other n i j e h :
  h_commits (settlePending i e h) !! n = Some (j, cm_pending) -> j <> i /\ h_commits h !! n = Some (j, cm_pending).
Proof.
  intros H. assert (j <> i) as Hne by (intros ->; by apply settle_pending_none in H). split; [done|].
  apply settle_lookup in H as (s0 & H & Hs). apply Nat.eqb_neq in Hne. rewrite Hne in Hs. by subst.
Qed.

(** [h'] is [h] without its active run [i]. *)
Record stopped (i : nat) (h h' : hook) : Prop := {
  sp_run : forall r, h_runs h !! i = Some r -> exists r', h_runs h' = <[i:=r']> (h_runs h) /\ r_id r' = r_id r /\ r_active r' = false;
  sp_next : h_nextRunId h' = h_nextRunId h;
  sp_active : h_active h' = None;
  sp_view : view_ok (h_state h');
  sp_shown : h_shown h' = h_shown h;
  sp_tasks : h_tasks h' = h_tasks h;
  sp_pending : forall n j, h_commits h' !! n = Some (j, cm_pending) -> j <> i /\ h_commits h !! n = Some (j, cm_pending);
  sp_commits : forall n j, (exists s, h_commits h' !! n = Some (j, s)) <-> (exists s, h_commits h !! n = Some (j, s));
  sp_pages : state_inv (h_pages h') }.

Lemma settle_commits i e h n j :
  (exists s, h_commits (settlePending i e h) !! n = Some (j, s)) <-> (exists s, h_commits h !! n = Some (j, s)).
Proof.
  split.
  - intros (s & (s0 & H & _)%settle_lookup). by exists s0.
  - intros (s & H). eexists. apply settle_lookup. by exists s.
Qed.

Lemma stopped_core i h h' : core h -> is_Some (h_runs h !! i) -> stopped i h h' -> core h'.
Proof.
  intros [C1 C2 C3 C4 C5 C6 C7 C8 C9 C10 C11] [r Hr] [S1 S2 S3 S4 S5 S6 S7 S8 S9].
  destruct (S1 r Hr) as (r' & Hruns & Hid & _). apply lookup_lt_Some in Hr as Hlt.
  split; try done.
  - intros j rj. rewrite Hruns. intros [(<- & <- & _)|(_ & Hj)]%list_lookup_insert_Some; [by rewrite Hid; apply C1|by apply C1].
  - by rewrite S2, C2, Hruns, length_insert.
  - by rewrite S3.
  - by rewrite S5.
  - intros j [_ Ha]. congruence.
  - intros n j s Hn. destruct (proj1 (S8 n j) (ex_intro _ s Hn)) as [s0 H0]. rewrite Hruns, length_insert. by eapply C7.
  - intros n j [_ Ha]. congruence.
  - intros n j Hn. destruct (S7 n j Hn) as [Hne H0]. destruct (C9 n j H0) as (rj & Hj & Hact). exists rj.
    split; [|done]. rewrite Hruns. by rewrite list_lookup_insert_ne.
  - intros n j [_ Ha]. congruence.
Qed.

Lemma stopped_evolves i h h' : core h -> is_Some (h_runs h !! i) -> stopped i h h' -> evolves None h h'.
Proof.
  intros Hc [r Hr] [S1 S2 S3 S4 S5 S6 S7 S8 S9]. destruct (S1 r Hr) as (r' & Hruns & Hid & _).
  assert (forall j, ~ owned j h') as Hno by (intros j [_ Ha]; congruence).
  split; try done; try (intros j; intros; by destruct (Hno j)).
  - by rewrite Hruns, length_insert.
  - intros n j s Hn. destruct (proj2 (S8 n j) (ex_intro _ s Hn)) as [s' Hs']. exists s'. split; [done|].
    intros Ho. by destruct (Hno j).
  - intros n j s Hn. left. destruct (proj1 (S8 n j) (ex_intro _ s Hn)) as [s0 H0]. by apply lookup_lt_Some in H0.
Qed.

Lemma clear_source_inv source st : state_inv st -> state_inv (clearSqlResultPageCache (Some source) st).
Proof. intros H. by apply (apply_op_inv no_safe_natural st (Clear (Some source))). Qed.

Lemma discarded_ok v : view_ok (discarded v).
Proof. split; cbn; try done. apply empty_rows_placed. Qed.

Lemma cancelled_ok v e : view_ok v -> receiving (v_phase v) = true -> view_ok (with_phase v ph_cancelled e).
Proof. intros Hv Hp. apply closed_view_ok; [done..|]. by apply (vo_receiving _ Hv). Qed.

(** What [invalidate] does to the active run. *)
Lemma invalidate_stops keep i h :
  core h -> h_active h = Some i -> stopped i h (invalidate (Some i) keep h).1.1
  /\ h_mounted (invalidate (Some i) keep h).1.1 = h_mounted h.
Proof.
  intros Hc Ha. destruct (co_active _ Hc _ Ha) as (r & Hr & Hact & _). unfold invalidate. rewrite Hr, Hact. cbn [negb].
  cbn [set_run h_active]. rewrite Ha, bool_decide_eq_true_2 by done.
  set (h1 := settlePending i true _).
  assert (forall h2, h_runs h2 = h_runs h1 -> h_nextRunId h2 = h_nextRunId h -> h_active h2 = None ->
    view_ok (h_state h2) -> h_shown h2 = h_shown h -> h_tasks h2 = h_tasks h -> h_commits h2 = h_commits h1 ->
    state_inv (h_pages h2) -> stopped i h h2) as Hstop.
  { intros h2 E1 E2 E3 E4 E5 E6 E7 E8. split; try done.
    - intros r0 Hr0. rewrite E1. eexists. split; [done|]. by cbn; simplify_eq.
    - intros n j. rewrite E7. change (h_commits h1) with (h_commits (settlePending i true h)). apply settle_pending_other.
    - intros n j. rewrite E7. change (h_commits h1) with (h_commits (settlePending i true h)). apply settle_commits. }
  change (h_state h1) with (h_state h).
  destruct ((v_runId (h_state h) =? r_id r) && receiving (v_phase (h_state h))) eqn:E; bools.
  - destruct (keep && (0 <? v_rowCount (h_state h))%Z); destruct (r_controller r); cbn; (split; [apply Hstop|]);
      try done; cbn; first [by apply cancelled_ok; [apply Hc|]|apply discarded_ok|apply Hc|apply clear_source_inv, Hc].
  - destruct (r_controller r); cbn; (split; [apply Hstop|]); try done; cbn; apply Hc.
Qed.

(** What every caller of [invalidate] relies on. *)
Lemma invalidate_spec keep h :
  core h -> let h' := (invalidate (h_active h) keep h).1.1 in
  core h' /\ evolves None h h' /\ h_active h' = None /\ h_mounted h' = h_mounted h.
Proof.
  intros Hc h'. destruct (h_active h) as [i|] eqn:Ha.
  - destruct (invalidate_stops keep i h Hc Ha) as [Hs Hm]. destruct (co_active _ Hc _ Ha) as (r & Hr & _).
    split_and!; [by eapply stopped_core|by eapply stopped_evolves|apply Hs|done].
  - split_and!; [done|apply evolves_refl|done|done].
Qed.

(** ** The steps of a run *)

Lemma commit_spec i next h :
  core h -> i < length (h_runs h) ->
  (owned i h -> view_ok next /\ v_runId next = S i /\ forall b, shows (h_state h) i b -> shows next i b) ->
  let h' := (commit i next true h).1 in
  core h' /\ evolves (Some i) h h' /\ (commit i next true h).2 = length (h_commits h)
  /\ h_commits h' !! length (h_commits h) = Some (i, if owns i h then cm_pending else cm_stale)
  /\ h_runs h' = h_runs h /\ h_active h' = h_active h /\ h_mounted h' = h_mounted h
  /\ (owned i h -> h_state h' = next).
Proof.
  intros Hc Hl Hnext h'. unfold h', commit.
  assert (forall s n j x, (h_commits h ++ [(i, s)]) !! n = Some (j, x) ->
    h_commits h !! n = Some (j, x) \/ (n = length (h_commits h) /\ j = i /\ x = s)) as Hlook.
  { intros s n j x [H|[Hn H]]%lookup_app_Some; [by left|right].
    apply list_lookup_singleton_Some in H as [Hn' [= <- <-]]. split; [lia|done]. }
  destruct (owns i h) eqn:Ho; cbn.
  - apply owns_spec in Ho; [|done]. destruct (Hnext Ho) as (Hv & Hid & Hsh).
    assert (forall j, owned j h -> j = i) as Huniq by (intros j [_ H1]; destruct Ho as [_ H2]; congruence).
    destruct Hc as [C1 C2 C3 C4 C5 C6 C7 C8 C9 C10 C11].
    split_and!; try done; [split; try done; cbn|split; try done; cbn|..].
    + intros j Hj. by rewrite (Huniq j Hj).
    + intros n j s [H|(-> & -> & ->)]%Hlook; [by eapply C7|done].
    + intros n j Hj _. by rewrite orb_true_r.
    + intros n j [H|(-> & -> & _)]%Hlook; [by eapply C9|]. destruct Ho as [_ Ha]. destruct (C3 _ Ha) as (r & ? & ? & _). eauto.
    + intros n j Hj [H|(-> & -> & [=])]%Hlook. by apply (C11 n j).
    + intros j Hj _ Hne. by rewrite (Huniq j Hj) in Hne.
    + intros j b Hj _. rewrite (Huniq j Hj). apply Hsh.
    + intros n j s H. exists s. split; [|by auto]. by apply lookup_app_l_Some.
    + intros n j s [H|(-> & -> & ->)]%Hlook; [left; by apply lookup_lt_Some in H|by right; right; left].
    + rewrite lookup_app_r by lia. by rewrite Nat.sub_diag.
  - apply owns_false in Ho; [|done]. destruct Hc as [C1 C2 C3 C4 C5 C6 C7 C8 C9 C10 C11].
    split_and!; try done; [split; try done; cbn|split; try done; cbn|..].
    + intros n j s [H|(-> & -> & ->)]%Hlook; [by eapply C7|done].
    + intros n j Hj [H|(-> & -> & [=])]%Hlook. by eapply C8.
    + intros n j [H|(-> & -> & [=])]%Hlook. by eapply C9.
    + intros n j Hj [H|(-> & -> & _)]%Hlook; [by apply (C11 n j)|done].
    + intros n j s H. exists s. split; [|by auto]. by apply lookup_app_l_Some.
    + intros n j s [H|(-> & -> & ->)]%Hlook; [left; by apply lookup_lt_Some in H|by right; right; left].
    + rewrite lookup_app_r by lia. by rewrite Nat.sub_diag.
Qed.

(** A commit that keeps the phase of the view class does not disturb the run's own task. *)
Lemma commit_evolves i next h :
  core h -> owned i h -> evolves (Some i) h (commit i next true h).1 ->
  receiving (v_phase (h_state h)) = true -> receiving (v_phase next) = true ->
  evolves None h (commit i next true h).1.
Proof.
  intros Hc Ho [E1 E2 E3 E4 E5 E6 E7 E8] Hp Hn. split; try done.
  - intros j Hj Hl _. assert (j = i) as -> by (destruct (E3 j Hj Hl) as [_ H1]; destruct Ho as [_ H2]; congruence).
    unfold commit. rewrite (proj2 (owns_spec i h Hc) Ho). cbn. rewrite Hp, Hn. split; [done|].
    intros H. by rewrite H in Hp.
  - intros n j s Hj. destruct (E8 n j s Hj) as [?|[?|[[= <-]|?]]]; [by left|by right; left|do 3 right|by do 3 right].
    split; [done|]. intros H. by rewrite H in Hp.
Qed.

(** A new run is shown by its first commit, unless the hook is unmounted. *)
Lemma new_run_spec next h :
  core h -> view_ok next -> v_runId next = S (length (h_runs h)) ->
  let i := length (h_runs h) in let h' := (commit i next true (add_run h).1).1 in
  core h' /\ evolves None h h' /\ (commit i next true (add_run h).1).2 = length (h_commits h)
  /\ h_commits h' = h_commits h ++ [(i, if h_mounted h then cm_pending else cm_stale)]
  /\ h_runs h' = h_runs h ++ [newRun (S i)] /\ (owned i h' -> h_state h' = next) /\ h_active h' = Some i
  /\ h_mounted h' = h_mounted h.
Proof.
  intros Hc Hv Hid i h'. unfold h', commit.
  assert (h_runs (add_run h).1 !! i = Some (newRun (S i))) as Hi.
  { cbn. rewrite lookup_app_r by (unfold i; lia). unfold i. by rewrite Nat.sub_diag, (co_next _ Hc). }
  assert (owns i (add_run h).1 = h_mounted h) as ->.
  { unfold owns. rewrite Hi. cbn. rewrite bool_decide_eq_true_2 by done. by destruct (h_mounted h). }
  destruct Hc as [C1 C2 C3 C4 C5 C6 C7 C8 C9 C10 C11].
  assert (forall s n j x, (h_commits h ++ [(i, s)]) !! n = Some (j, x) ->
    (h_commits h !! n = Some (j, x) /\ j <> i) \/ (n = length (h_commits h) /\ j = i /\ x = s)) as Hlook.
  { intros s n j x [H|[Hn H]]%lookup_app_Some; [left|right].
    - split; [done|]. specialize (C7 _ _ _ H). unfold i. lia.
    - apply list_lookup_singleton_Some in H as [Hn' [= <- <-]]. split; [lia|done]. }
  assert (forall h2, h_runs h2 = h_runs h ++ [newRun (S i)] -> h_nextRunId h2 = S i -> h_active h2 = Some i ->
    h_shown h2 = h_shown h -> h_pages h2 = h_pages h -> h_tasks h2 = h_tasks h -> view_ok (h_state h2) ->
    (h_mounted h2 = true -> h_state h2 = next /\ h_due h2 = true) ->
    (exists s, h_commits h2 = h_commits h ++ [(i, s)] /\ (h_mounted h2 = true -> s = cm_pending)) ->
    core h2 /\ evolves None h h2) as Hnew.
  { intros h2 E1 E2 E3 E4 E5 E6 E7 E8 (s & E9 & Es).
    assert (forall j, owned j h2 -> j = i) as Huniq by (intros j [_ H]; congruence).
    assert (length (h_runs h2) = S i) as El by (rewrite E1, length_app; cbn; unfold i; lia).
    split; split; rewrite ?E4, ?E5; try done; try (intros j; intros; exfalso;
      match goal with H : owned j h2, H' : j < _ |- _ => apply Huniq in H; unfold i in H; lia end).
    - intros j r. rewrite E1. intros [H|[Hn H]]%lookup_app_Some; [by apply C1|].
      apply list_lookup_singleton_Some in H as [Hn' <-]. cbn. unfold i in *. f_equal. lia.
    - by rewrite E2, El.
    - rewrite E3. intros j [= <-]. exists (newRun (S i)). split; [|done]. rewrite E1.
      rewrite lookup_app_r by (unfold i; lia). unfold i. by rewrite Nat.sub_diag.
    - intros j Hj. destruct (E8 (proj1 Hj)) as [-> _]. by rewrite (Huniq j Hj).
    - intros n j x. rewrite E9, El. intros [[H _]|(_ & -> & _)]%Hlook; [|lia]. specialize (C7 _ _ _ H). unfold i. lia.
    - intros n j Hj _. apply E8, Hj.
    - intros n j. rewrite E9. intros [[H _]|(_ & -> & Hs)]%Hlook.
      + destruct (C9 _ _ H) as (r & Hr & Hact). exists r. split; [|done]. rewrite E1. by apply lookup_app_l_Some.
      + exists (newRun (S i)). split; [|done]. rewrite E1. rewrite lookup_app_r by (unfold i; lia).
        unfold i. by rewrite Nat.sub_diag.
    - intros n j Hj. rewrite E9, (Huniq j Hj). intros [[_ H]|(_ & _ & H)]%Hlook; [done|].
      by rewrite (Es (proj1 Hj)) in H.
    - rewrite El. unfold i. lia.
    - intros n j x H. exists x. split; [rewrite E9; by apply lookup_app_l_Some|]. intros Hj Hl. apply Huniq in Hj.
      unfold i in Hj. lia.
    - intros n j x. rewrite E9. intros [[H _]|(_ & -> & _)]%Hlook; [left; by apply lookup_lt_Some in H|].
      right; left. unfold i. lia. }
  destruct (h_mounted h) eqn:Hm; cbn;
    rewrite ?C2, ?orb_true_r;
    (match goal with |- core ?h2 /\ _ => destruct (Hnew h2) as [HA HB]; cbn end); try done; try (eexists; split; [done|]; cbn; congruence); try (intros; congruence).
  split_and!; try done. intros [H _]. cbn in H. congruence.
Qed.

(** Updates that keep runs, commits and the owner. *)
Record same_frame (h h' : hook) : Prop := {
  sf_runs : h_runs h' = h_runs h; sf_active : h_active h' = h_active h; sf_next : h_nextRunId h' = h_nextRunId h;
  sf_mounted : h_mounted h' = h_mounted h; sf_tasks : h_tasks h' = h_tasks h }.

Lemma react_commit_spec h :
  core h -> let h' := react_commit h in
  core h' /\ evolves None h h' /\ same_frame h h'
  /\ forall i, owned i h -> (forall n s, h_commits h !! n = Some (i, s) ->
       h_commits h' !! n = Some (i, match s with cm_pending => cm_done | _ => s end)).
Proof.
  intros Hc h'. unfold h', react_commit.
  destruct (h_due h) eqn:Hd.
  2: { split_and!; [done|apply evolves_refl|done|]. intros i Ho n [] Hn; try done.
       by rewrite (co_due _ Hc _ _ Ho Hn) in Hd. }
  set (h1 := mkHook _ _ _ _ _ _ _ _ _ _ _).
  assert (forall n i s, ~ owned i h -> h_commits h1 !! n = Some (i, s) -> h_commits h !! n = Some (i, s)) as Hid by done.
  destruct Hc as [C1 C2 C3 C4 C5 C6 C7 C8 C9 C10 C11].
  assert ((exists i, owned i h /\ layout_effect h1 = settlePending i false h1)
          \/ ((forall i, ~ owned i h) /\ layout_effect h1 = h1)) as [(i & Ho & ->)|[Hno ->]].
  { unfold layout_effect. cbn. destruct (h_active h) as [i|] eqn:Ha; [|right; split; [intros i [_ H]; congruence|done]].
    destruct (C3 _ eq_refl) as (r & Hr & Hact & Hinv). rewrite Hr.
    unfold owns. cbn. rewrite Hr, Hact, bool_decide_eq_true_2, !andb_true_r by done.
    destruct (h_mounted h) eqn:Hm; [left; exists i; split; [by split|]|right; split; [intros j [H _]; congruence|]].
    - rewrite (C6 i) by by split. by rewrite (C1 _ _ Hr), Nat.eqb_refl.
    - by rewrite andb_false_r. }
  - assert (forall j, owned j h -> j = i) as Huniq by (intros j [_ H1]; destruct Ho as [_ H2]; congruence).
    split_and!; [split|split| |]; try done.
    + intros n j s (s0 & H & _)%settle_lookup. by eapply C7.
    + intros n j Hj. rewrite (Huniq j Hj). intros H. by apply settle_pending_none in H.
    + intros n j [_ H]%settle_pending_other. by eapply C9.
    + intros n j Hj (s0 & H & Hs)%settle_lookup. rewrite (Huniq j Hj), Nat.eqb_refl in Hs. destruct s0; try done.
      by apply (C11 n j).
    + intros n j s H. eexists. split; [apply settle_lookup; by exists s|]. intros Hj _ _. right.
      intros b Hb. done.
    + intros n j s (s0 & H & _)%settle_lookup. left. by apply lookup_lt_Some in H.
    + intros j Hj n s Hn. rewrite (Huniq j Hj) in Hn |- *. apply settle_lookup. exists s. split; [done|].
      rewrite Nat.eqb_refl. by destruct s.
  - split_and!; [split|split| |]; try done.
    + intros n j Hj. by destruct (Hno j).
    + intros n j s H. exists s. split; [done|]. by auto.
    + intros n j s H. left. by apply lookup_lt_Some in H.
    + intros j Hj. by destruct (Hno j).
Qed.

Lemma make_readable_spec i h : core h -> core (make_readable i h) /\ evolves None h (make_readable i h).
Proof.
  intros Hc. unfold make_readable. destruct (h_runs h !! i) as [r|]; [|split; [done|apply evolves_refl]].
  destruct (_ || _) eqn:E; [split; [done|apply evolves_refl]|]. bools.
  destruct Hc as [C1 C2 C3 [V1 V2 V3 V4 V5 V6] C5 C6 C7 C8 C9 C10 C11].
  split; split; try done; cbn.
  - split; cbn; try done; [by rewrite H0|by right].
  - intros n s j H'. exists j. split; [done|by auto].
  - intros n s j H'. left. by apply lookup_lt_Some in H'.
Qed.

Lemma set_pages_spec p h : core h -> state_inv p -> core (set_pages p h) /\ evolves None h (set_pages p h).
Proof.
  intros [C1 C2 C3 C4 C5 C6 C7 C8 C9 C10 C11] Hp. split; split; try done; cbn.
  - intros n s j H'. exists j. split; [done|by auto].
  - intros n s j H'. left. by apply lookup_lt_Some in H'.
Qed.

Lemma start_controller i r h :
  core h -> h_runs h !! i = Some r ->
  let h' := set_run i (mkStreamRun (r_id r) (r_active r) true (r_invalidated r) true) h in
  core h' /\ evolves None h h'.
Proof.
  intros [C1 C2 C3 C4 C5 C6 C7 C8 C9 C10 C11] Hr h'. apply lookup_lt_Some in Hr as Hlt.
  assert (forall (P : StreamRun -> Prop) j, (forall a b c d, P (mkStreamRun (r_id r) (r_active r) a (r_invalidated r) b) <-> P (mkStreamRun (r_id r) (r_active r) c (r_invalidated r) d)) ->
    (exists rj, h_runs h !! j = Some rj /\ P rj) -> exists rj, h_runs h' !! j = Some rj /\ P rj) as Hkeep.
  { intros P j HP (rj & Hj & HPj). unfold h'. cbn. destruct (decide (j = i)) as [->|Hne].
    - eexists. split; [by apply list_lookup_insert_eq|]. assert (rj = r) as -> by congruence. destruct r. by eapply HP.
    - exists rj. by rewrite list_lookup_insert_ne. }
  split; split; try done; unfold h'; cbn; rewrite ?length_insert; try done.
  - intros j rj [(<- & <- & _)|(_ & Hj)]%list_lookup_insert_Some; [cbn; by eapply C1|by apply C1].
  - intros j Hj. by apply (Hkeep (fun rj => r_active rj = true /\ r_invalidated rj = false) j); [|apply C3].
  - intros n j Hj. by apply (Hkeep (fun rj => r_active rj = true) j); [|eapply C9].
  - intros n s j H'. exists j. split; [done|by auto].
  - intros n s j H'. left. by apply lookup_lt_Some in H'.
Qed.



Lemma finally_spec i h :
  core h -> core (finally i h) /\ evolves None h (finally i h) /\ h_mounted (finally i h) = h_mounted h.
Proof.
  intros Hc. unfold finally. destruct (bool_decide _) eqn:E; [|split_and!; [done|apply evolves_refl|done]]. bools.
  destruct (co_active _ Hc _ E) as (r & Hr & _). rewrite Hr.
  assert (stopped i h (end_run i (settlePending i true (set_run i
    (mkStreamRun (r_id r) (r_active r) false (r_invalidated r) (r_started r)) h)))) as Hs.
  { apply lookup_lt_Some in Hr as Hlt. unfold end_run. cbn. rewrite list_lookup_insert_eq by done.
    split; cbn; try done; try apply Hc.
    - intros r0 Hr0. rewrite list_insert_insert_eq. eexists. split; [done|]. by cbn; simplify_eq.
    - intros n j. apply (settle_pending_other n i j true h).
    - intros n j. apply (settle_commits i true h). }
  split_and!; [by eapply stopped_core|by eapply stopped_evolves|].
  unfold end_run. cbn. apply lookup_lt_Some in Hr as Hlt. by rewrite list_lookup_insert_eq.
Qed.

Lemma end_run_spec i n h :
  core h -> h_active h = Some i -> h_commits h !! n = Some (i, cm_done) ->
  (forall n' s, h_commits h !! n' = Some (i, s) -> n' = n) ->
  core (end_run i h) /\ evolves None h (end_run i h).
Proof.
  intros Hc Ha Hn Honly. destruct (co_active _ Hc _ Ha) as (r & Hr & _).
  assert (stopped i h (end_run i h)) as Hs.
  { unfold end_run. rewrite Hr. split; cbn; try done; try apply Hc.
    - intros r0 Hr0. eexists. split; [done|]. by cbn; simplify_eq.
    - intros n' j Hn'. split; [|done]. intros ->. assert (n' = n) as -> by by eapply Honly. congruence. }
  split; [by eapply stopped_core|by eapply stopped_evolves].
Qed.

(** ** The invariant holds always *)

Definition sound (h : hook) : Prop := core h /\ tasks_ok h.

Lemma open_sound pages : state_inv pages -> sound (open_hook pages).
Proof.
  intros Hp. split; split; cbn; try done; try (intros i [_ [=]]); try apply empty_view_ok.
Qed.

Lemma set_task_core t w h : core h -> core (set_task t w h).
Proof. by intros [C1 C2 C3 C4 C5 C6 C7 C8 C9 C10 C11]; split. Qed.
Lemma add_task_core w h : core h -> core (add_task w h).
Proof. by intros [C1 C2 C3 C4 C5 C6 C7 C8 C9 C10 C11]; split. Qed.

(** A task that waits for nothing the hook keeps. *)
Definition plain_task (w : task) : Prop := stage_run w = None /\ waits_commit w = None.
Lemma plain_ok h w : plain_task w -> task_ok h w.
Proof. intros [H1 H2]. split; intros; simplify_eq/=; congruence. Qed.

Lemma plain_step who h h' t w0 w :
  sound h -> core h' -> evolves who h h' -> h_tasks h !! t = Some w0 ->
  (forall i, who = Some i -> stage_run w0 = Some i) -> plain_task w -> sound (set_task t w h').
Proof.
  intros [Hc Hok] Hc' He Ht Hwho Hw. split; [by apply set_task_core|].
  eapply set_task_ok; [done|done|done|done|by apply plain_ok|]. intros i Hi. destruct Hw. congruence.
Qed.

Lemma end_start_sound who h h' t w0 i o :
  sound h -> core h' -> evolves who h h' -> h_tasks h !! t = Some w0 ->
  (forall i, who = Some i -> stage_run w0 = Some i) -> sound (end_start t i o h').
Proof.
  intros Hs Hc He Ht Hwho. destruct (finally_spec i h' Hc) as (Hc' & He' & _).
  eapply plain_step; [done|done| |done|done|done]. eapply evolves_trans; [done|]. by apply evolves_weaken.
Qed.

(** The run's own task commits a view and waits for it. *)
Lemma commit_step h t w0 i next w :
  sound h -> h_tasks h !! t = Some w0 -> stage_run w0 = Some i -> owned i h ->
  view_ok next -> v_runId next = S i -> (forall b, shows (h_state h) i b -> shows next i b) ->
  stage_run w = Some i -> waits_commit w = Some (i, length (h_commits h)) -> stage_phase w (v_phase next) ->
  (forall n, w <> s_resetting i n) -> sound (set_task t w (commit i next true h).1).
Proof.
  intros [Hc Hok] Ht Hs0 Ho Hv Hid Hsh Hsw Hww Hp Hnr.
  destruct (tk_run _ _ (proj1 Hok _ _ Ht) i Hs0) as [Hl _].
  destruct (commit_spec i next h Hc Hl (fun _ => conj Hv (conj Hid Hsh))) as (Hc' & He & Hn & Hlook & Hruns & Hact & Hm & Hst).
  split; [by apply set_task_core|]. eapply set_task_ok; [done|done|done| | |].
  - by intros j [= <-].
  - split.
    + intros j Hj. simplify_eq. rewrite Hruns. split; [done|]. intros _. by rewrite Hst.
    + intros j n Hj. simplify_eq. rewrite Hruns. split; [done|]. by eexists.
    + intros j n b ->. done.
    + intros j n ->. cbn in Hsw. injection Hsw as ->. by destruct (Hnr n).
  - intros j Hj. simplify_eq. by left.
Qed.

Lemma shows_phase v p e i b : shows v i b -> shows (with_phase v p e) i b.
Proof. done. Qed.

Lemma shows_finish v n receipt timings i b : shows v i b -> shows (finishSqlStream v n receipt timings) i b.
Proof. unfold finishSqlStream. by repeat case_match. Qed.

Lemma shows_accepted v n batch cap st v' st' i b :
  accepted v n batch cap st v' st' -> shows v i b -> shows v' i b.
Proof.
  intros [[H1 H2] _ _ _ _ _ _ _ Hs _ _] [Hi [start Hb]]. split; [congruence|]. exists start. rewrite Hs. cbn.
  by apply lookup_app_l_Some.
Qed.

Lemma accepted_shows v i batch cap st v' st' :
  view_ok v -> accepted v (S i) batch cap st v' st' -> shows v' i batch.
Proof.
  intros Hv [[H1 H2] [Hp _] [Hn _] _ _ _ _ _ Hs _ _]. split; [done|]. exists (v_rowCount v). rewrite Hs. cbn.
  rewrite Hn, (proj1 (vo_receiving _ Hv Hp)). by apply list_lookup_middle.
Qed.

(** A view closed by an error of its run. *)
Lemma error_view_ok v p e :
  view_ok v -> receiving (v_phase v) = true -> receiving p = false -> p <> ph_complete -> view_ok (with_phase v p e).
Proof. intros Hv Hp Hp' Hne. apply closed_view_ok; try done. by apply (vo_receiving _ Hv). Qed.

Lemma start_failed_sound h t w0 i e :
  sound h -> h_tasks h !! t = Some w0 -> stage_run w0 = Some i ->
  (owned i h -> receiving (v_phase (h_state h)) = true) -> sound (start_failed t i e h).
Proof.
  intros Hs Ht Hw Hp. pose proof Hs as [Hc Hok]. unfold start_failed.
  destruct (owns i h) eqn:Ho; cbn [negb].
  2: { eapply (end_start_sound None); [done|done|apply evolves_refl|done|done]. }
  apply owns_spec in Ho; [|done]. specialize (Hp Ho). rewrite bool_decide_eq_false_2 by (intros E; by rewrite E in Hp).
  set (p := match v_operationId (h_state h) with Some op => _ | None => _ end).
  assert (receiving p = false /\ p <> ph_complete) as [P1 P2]
    by (unfold p; destruct (v_operationId _) as [op|]; [destruct (non_empty op)|]; done).
  pose proof (commit_step h t w0 i (with_phase (h_state h) p (Some (error_message e)))
    (s_failing i (length (h_commits h)) e)) as Hstep.
  assert ((commit i (with_phase (h_state h) p (Some (error_message e))) true h).2 = length (h_commits h)) as Hn
    by (unfold commit; by case_match).
  destruct (commit _ _ _ _) as [h1 n] eqn:E. cbn in *. subst n.
  apply Hstep; try done; [apply error_view_ok; try done; apply Hc|by apply Hc].
Qed.

Lemma finish_phase v i receipt timings :
  v_runId v = i -> receiving (v_phase v) = true -> receiving (v_phase (finishSqlStream v i receipt timings)) = false
  /\ v_runId (finishSqlStream v i receipt timings) = i /\ takes_receipt v i = true.
Proof.
  intros Hi Hp. assert (takes_receipt v i = true) as Ht by (unfold takes_receipt; by rewrite Hi, Nat.eqb_refl, Hp).
  unfold finishSqlStream. rewrite Ht. cbn [negb]. by destruct (_ || _).
Qed.

Lemma completed_sound h t i receipt elapsed :
  sound h -> h_tasks h !! t = Some (s_running i) -> sound (completed t i receipt elapsed h).
Proof.
  intros Hs Ht. pose proof Hs as [Hc Hok]. destruct (tk_run _ _ (proj1 Hok _ _ Ht) i eq_refl) as [Hl Hp].
  destruct receipt as [receipt|e]; cbn [completed]; [|by eapply start_failed_sound].
  destruct (owns i h) eqn:Ho; cbn [negb].
  2: { eapply (end_start_sound None); [done|done|apply evolves_refl|done|done]. }
  apply owns_spec in Ho; [|done]. destruct (co_active _ Hc i (proj2 Ho)) as (r & Hr & _). rewrite Hr, (co_ids _ Hc _ _ Hr).
  destruct (finish_phase (h_state h) (S i) receipt (Some (Z.max 0 elapsed)) (co_owned _ Hc _ Ho) (Hp Ho)) as (F1 & F2 & ->).
  pose proof (commit_step h t _ i (finishSqlStream (h_state h) (S i) receipt (Some (Z.max 0 elapsed)))
    (s_finishing i (length (h_commits h))) Hs Ht eq_refl Ho) as Hstep.
  assert ((commit i (finishSqlStream (h_state h) (S i) receipt (Some (Z.max 0 elapsed))) true h).2
    = length (h_commits h)) as Hn by (unfold commit; by case_match).
  destruct (commit _ _ _ _) as [h1 n] eqn:E. cbn in *. subst n.
  apply Hstep; try done; [by apply finish_ok, Hc|]. intros b. apply shows_finish.
Qed.

Lemma connected_sound h t i n made :
  sound h -> h_tasks h !! t = Some (s_connecting i n) -> sound (connected t i made h).
Proof.
  intros Hs Ht. pose proof Hs as [Hc Hok]. destruct (tk_run _ _ (proj1 Hok _ _ Ht) i eq_refl) as [Hl Hp].
  unfold connected. destruct (owns i h) eqn:Ho; cbn [negb].
  2: { eapply (end_start_sound None); [done|done|apply evolves_refl|done|done]. }
  destruct made as [[]|e]; [|by eapply start_failed_sound].
  apply owns_spec in Ho; [|done]. destruct (co_active _ Hc i (proj2 Ho)) as (r & Hr & _). rewrite Hr.
  destruct (start_controller i r h Hc Hr) as [Hc' He].
  split; [by apply set_task_core|]. eapply (set_task_ok None); [done|done|done|done| |].
  - split; cbn; try done. intros j [= <-]. rewrite length_insert. split; [done|]. intros [Hm Ha]. by apply Hp.
  - intros j [= <-]. by left.
Qed.

Lemma invalidated_sound h t restart :
  sound h -> h_tasks h !! t = Some (s_invalidating restart) -> sound (invalidated t restart h).
Proof.
  intros Hs Ht. pose proof Hs as [Hc Hok]. unfold invalidated. case_match.
  { eapply (plain_step None); [done|done|apply evolves_refl|done|done|done]. }
  rewrite (surjective_pairing (add_run h)). cbn beta iota zeta.
  change (add_run h).2 with (length (h_runs h)).
  change (h_nextRunId (add_run h).1) with (S (h_nextRunId h)). rewrite (co_next _ Hc).
  set (next := if restart then emptySqlStreamView (S (length (h_runs h))) else connecting_view (S (length (h_runs h)))).
  assert (view_ok next /\ v_runId next = S (length (h_runs h))) as [Hv Hid].
  { unfold next. destruct restart; (split; [|done]); [apply empty_view_ok|].
    apply connecting_view_ok; try done. apply empty_view_ok. }
  destruct (new_run_spec next h Hc Hv Hid) as (Hc' & He & Hn & Hlook & Hruns & Hst & Hact & Hm).
  rewrite (surjective_pairing (commit _ _ _ _)). rewrite Hn.
  assert (length (h_runs h) < length (h_runs (commit (length (h_runs h)) next true (add_run h).1).1)) as Hl
    by (rewrite Hruns, length_app; cbn; lia).
  split; [by apply set_task_core|]. eapply (set_task_ok None); [done|done|done|done| |].
  - assert (forall n s, h_commits (commit (length (h_runs h)) next true (add_run h).1).1 !! n
      = Some (length (h_runs h), s) -> n = length (h_commits h)) as Honly.
    { intros n s. rewrite Hlook. intros [Hn0%(co_commits _ Hc)|[? Hn0]]%lookup_app_Some; [lia|].
      apply list_lookup_singleton_Some in Hn0 as [? _]. lia. }
    assert (exists s, h_commits (commit (length (h_runs h)) next true (add_run h).1).1 !! length (h_commits h)
      = Some (length (h_runs h), s)) as Hlast by (rewrite Hlook; eexists; by apply list_lookup_middle).
    destruct restart; split; cbn [stage_run waits_commit]; try done;
      try (intros j [= <-]; split; [done|]; intros Ho; by rewrite (Hst Ho));
      try (intros j n [= <- <-]; by split).
    intros j n [= <- <-]. apply Honly.
  - destruct restart; cbn; intros j [= <-]; by right.
Qed.

Lemma reset_shown_sound h t i n :
  sound h -> h_tasks h !! t = Some (s_resetting i n) -> h_commits h !! n = Some (i, cm_done) ->
  sound (reset_shown t i h).
Proof.
  intros Hs Ht Hn. pose proof Hs as [Hc Hok]. unfold reset_shown. case_match eqn:E; bools.
  - destruct (end_run_spec i n h Hc E Hn) as [Hc' He].
    { by apply (tk_reset _ _ (proj1 Hok _ _ Ht)). }
    by eapply (plain_step None).
  - eapply (plain_step None); [done|done|apply evolves_refl|done|done|done].
Qed.

(** The commit a task waits for. *)
Lemma outcome_lookup h t w i n :
  sound h -> h_tasks h !! t = Some w -> waits_commit w = Some (i, n) -> h_commits h !! n = Some (i, outcome_of_commit h n).
Proof.
  intros [_ Hok] Ht Hw. destruct (tk_commit _ _ (proj1 Hok _ _ Ht) i n Hw) as [_ [s Hs]].
  unfold outcome_of_commit. by rewrite Hs.
Qed.

Lemma stale_not_owned h i n : sound h -> h_commits h !! n = Some (i, cm_stale) -> ~ owned i h.
Proof. intros [Hc _] Hn Ho. by apply (co_fresh _ Hc n i). Qed.

Lemma resume_sound t a h : sound h -> sound (resume t a h).
Proof.
  intros Hs. pose proof Hs as [Hc Hok]. unfold resume. destruct (h_tasks h !! t) as [w|] eqn:Ht; [|done].
  assert (forall w', plain_task w' -> sound (set_task t w' h)) as Hplain
    by (intros w' Hw'; eapply (plain_step None); [done|done|apply evolves_refl|done|done|done]).
  assert (forall i o, stage_run w = Some i -> sound (end_start t i o h)) as Hend
    by (intros i o Hi; eapply (end_start_sound None); [done|done|apply evolves_refl|done|done]).
  assert (forall i n e, waits_commit w = Some (i, n) -> stage_run w = Some i -> outcome_of_commit h n = cm_stale ->
    sound (start_failed t i e h)) as Hstale.
  { intros i n e Hw Hi Hn. eapply start_failed_sound; [done|done|done|]. intros Ho.
    pose proof (outcome_lookup _ _ _ _ _ Hs Ht Hw) as Hl. rewrite Hn in Hl. by destruct (stale_not_owned _ _ _ Hs Hl). }
  destruct w as [restart|i n|i|i n|i n e|o|i n|i partial controller|i|i n b|i b o], a; try done.
  - by apply invalidated_sound.
  - destruct (outcome_of_commit h n) eqn:E; [done| |by eapply Hstale]. by eapply connected_sound.
  - by apply completed_sound.
  - case_match; [by apply Hend|done].
  - destruct (outcome_of_commit h n) eqn:E; [done|by apply Hend|by eapply Hstale].
  - destruct (outcome_of_commit h n) eqn:E; [done|by apply Hend..].
  - destruct (outcome_of_commit h n) eqn:E; [done| |by apply Hplain]. eapply reset_shown_sound; [done|done|].
    rewrite <- E. by eapply outcome_lookup.
  - apply Hplain. by case_match.
  - destruct (make_readable_spec i h Hc) as [Hc' He]. by eapply (plain_step None).
  - destruct (outcome_of_commit h n); [done|by apply Hplain..].
Qed.

Lemma batch_sound sn i batch cap h : sound h -> sound (on_batch sn i batch cap h).
Proof.
  intros Hs. pose proof Hs as [Hc Hok]. unfold on_batch. destruct (h_runs h !! i) as [r|] eqn:Hr; [|done].
  assert (forall w, plain_task w -> sound (add_task w h)) as Hplain.
  { intros w Hw. split; [by apply add_task_core|]. apply (add_task_ok h h); [done|apply evolves_refl|by apply plain_ok|by destruct Hw]. }
  destruct (r_started r); cbn [negb]; [|done].
  destruct (owns i h) eqn:Ho; cbn [negb]; [|by apply Hplain]. apply owns_spec in Ho; [|done].
  rewrite (co_ids _ Hc _ _ Hr).
  destruct (acceptSqlStreamBatch sn (h_state h) (S i) batch cap (h_pages h)) as [[next pages]|] eqn:E; [|by apply Hplain].
  apply accepted_spec in E. pose proof (accept_ok _ _ _ _ _ _ _ (co_view _ Hc) E) as Hv.
  destruct (set_pages_spec pages h Hc) as [Hc1 He1].
  { rewrite (ac_pages _ _ _ _ _ _ _ E). apply (apply_op_inv sn _ (Push (v_rowSource next) batch)), Hc. }
  apply lookup_lt_Some in Hr as Hl. pose proof (ac_phase _ _ _ _ _ _ _ E) as [Hp Hp'].
  destruct (commit_spec i next (set_pages pages h) Hc1 Hl) as (Hc2 & He2 & Hn & Hlook & Hruns & Hact & Hm & Hst).
  { intros _. split_and!; [done|by apply (ac_run _ _ _ _ _ _ _ E)|]. intros b. by eapply shows_accepted. }
  rewrite (surjective_pairing (commit _ _ _ _)), Hn.
  split; [by apply add_task_core|]. eapply (add_task_ok h); [done| | |done].
  - eapply evolves_trans; [exact He1|]. apply commit_evolves; try done. by rewrite Hp'.
  - split; try done.
    + intros j n [= <- <-]. rewrite Hruns. split; [done|]. by eexists.
    + intros j n b [= <- <- <-] Hj. rewrite Hst by done. split.
      * eapply accepted_shows; [apply Hc|done].
      * change (length (h_commits h)) with (length (h_commits (set_pages pages h))). rewrite Hlook.
        rewrite (proj2 (owns_spec _ _ Hc1)) by done. done.
Qed.

Section run.
Variable sn : jsstr -> option N.

Lemma call_sound keep h w :
  sound h -> plain_task w -> sound (add_task w (invalidate (h_active h) keep h).1.1).
Proof.
  intros [Hc Hok] Hw. destruct (invalidate_spec keep h Hc) as (Hc' & He & _).
  split; [by apply add_task_core|]. eapply add_task_ok; [done|done|by apply plain_ok|by destruct Hw].
Qed.

Lemma unmount_core h : core h -> core (set_mounted false h) /\ evolves None h (set_mounted false h).
Proof.
  intros [C1 C2 C3 C4 C5 C6 C7 C8 C9 C10 C11].
  assert (forall i, ~ owned i (set_mounted false h)) as Hno by by intros i [[=] _].
  split; split; try done; try (intros; exfalso; by eapply Hno).
  - intros n i s Hn. exists s. split; [done|auto].
  - intros n i s Hn. left. by apply lookup_lt_Some in Hn.
Qed.

Lemma cleanup_spec h : sound h -> sound (cleanup h) /\ h_active (cleanup h) = None /\ h_mounted (cleanup h) = false.
Proof.
  intros [Hc Hok]. unfold cleanup. destruct (unmount_core h Hc) as [Hc1 He1].
  destruct (invalidate_spec false _ Hc1) as (Hc2 & He2 & Ha & Hm).
  change (h_active (set_mounted false h)) with (h_active h) in *.
  split_and!; [split; [done|]|done|done]. eapply evolve_ok; [done|]. by eapply evolves_trans.
Qed.

Lemma set_mounted_idle m h : sound h -> h_active h = None -> sound (set_mounted m h).
Proof.
  intros [[C1 C2 C3 C4 C5 C6 C7 C8 C9 C10 C11] [Hok Hu]] Ha.
  assert (forall i, ~ owned i (set_mounted m h)) as Hno by (intros i [_ H]; cbn in H; congruence).
  split; [split; try done; intros; exfalso; by eapply Hno|].
  split; [|done]. intros t w Ht. destruct (Hok t w Ht) as [T1 T2 T3 T4]. split; try done.
  - intros i Hi. split; [by apply T1|]. intros H. by destruct (Hno i).
  - intros i n b _ H. by destruct (Hno i).
Qed.

Lemma step_sound h x : sound h -> sound (hook_step sn h x).
Proof.
  intros Hs. pose proof Hs as [Hc Hok]. destruct x as [| | | | | |i b c|t a|o]; cbn [hook_step].
  - by apply call_sound.
  - by apply call_sound.
  - unfold cancel_call. destruct (h_active h) as [i|] eqn:Ha; [|done].
    pose proof (call_sound true h) as H. rewrite Ha in H. destruct (invalidate _ _ _) as [[h1 p] c]. by apply H.
  - destruct (cleanup_spec h Hs) as (H & Ha & _). by apply set_mounted_idle.
  - apply (cleanup_spec h Hs).
  - destruct (react_commit_spec h Hc) as (Hc' & He & _). split; [done|]. by eapply evolve_ok.
  - by apply batch_sound.
  - by apply resume_sound.
  - destruct (set_pages_spec (apply_op sn (h_pages h) o) h Hc) as [Hc' He]; [by apply apply_op_inv, Hc|].
    split; [done|]. by eapply evolve_ok.
Qed.

Lemma steps_sound xs h : sound h -> sound (foldl (hook_step sn) h xs).
Proof. revert h. induction xs as [|x xs IH]; intros h Hs; [done|]. by apply IH, step_sound. Qed.

Lemma run_sound ops xs : sound (hook_run sn ops xs).
Proof. apply steps_sound, open_sound, run_ops_inv. Qed.
End run.
