(* ===== verification/ResultStreamFacts.v ===== *)
(** * The hook of a streamed result: its theorems

    What the invariant of [ResultStreamInv] says of every input sequence: what is on the screen
    when a batch is acknowledged, runs that are not the current one, complete views, stopped
    runs, and commits that nobody settles. *)

From S2P Require Import Prelude JsString JsMap JsValue ResultPages ResultPagesInv StreamView.
From S2P Require Import ResultStream ResultStreamInv.
From S2P Require SqlStream.
From Stdlib Require String.
Import Stdlib.Strings.String.StringSyntax.

(** ** What a step does to the tasks *)

Lemma invalidate_tasks run keep h : h_tasks (invalidate run keep h).1.1 = h_tasks h.
Proof.
  unfold invalidate. destruct run as [i|]; [|done]. destruct (h_runs h !! i) as [r|]; [|done].
  destruct (negb (r_active r)); [done|]. cbn zeta. destruct (bool_decide _); cbn;
    (destruct ((v_runId (h_state h) =? r_id r) && receiving (v_phase (h_state h))); [destruct (keep && (0 <? v_rowCount (h_state h))%Z)|]); by destruct (r_controller r).
Qed.

Lemma commit_tasks i v b h : h_tasks (commit i v b h).1 = h_tasks h.
Proof. unfold commit. by destruct (negb _). Qed.

(** Names the outcome of the [commit] of the goal, with its tasks. *)
Ltac commit_tasks_of :=
  match goal with |- context [commit ?i ?v ?b ?h] =>
    let Hk := fresh "Hk" in pose proof (commit_tasks i v b h) as Hk; destruct (commit i v b h) as [? ?]; cbn in Hk
  end.

Lemma finally_tasks i h : h_tasks (finally i h) = h_tasks h.
Proof.
  unfold finally, end_run. destruct (bool_decide _); [|done]. destruct (h_runs h !! i); [|done]. cbn.
  by destruct (_ !! i).
Qed.

Definition acknowledged (w : task) : bool := match w with b_over _ _ (Ok _) => true | _ => false end.

(** A call of [start] or [reset] that still stops the run before it. *)
Definition stops_first (w : task) : bool := match w with s_invalidating _ => true | _ => false end.

(** One task is added, or goes on; [call] tells that [start] or [reset] is called. *)
Definition changes_task (call : bool) (h : hook) (l : list task) : Prop :=
  l = h_tasks h \/ (exists w, l = h_tasks h ++ [w] /\ acknowledged w = false /\ (stops_first w = true -> call = true))
  \/ exists t w, l = <[t:=w]> (h_tasks h) /\ acknowledged w = false /\ stops_first w = false.

Lemma set_changes c h h' t w :
  h_tasks h' = h_tasks h -> acknowledged w = false -> stops_first w = false -> changes_task c h (h_tasks (set_task t w h')).
Proof. intros H Hw Hs. do 2 right. exists t, w. cbn. by rewrite H. Qed.

Lemma start_failed_changes t i e h : changes_task false h (h_tasks (start_failed t i e h)).
Proof.
  unfold start_failed. destruct (negb (owns i h)); [apply set_changes; [apply finally_tasks|done|done]|].
  destruct (bool_decide _); [apply set_changes; [apply finally_tasks|done|done]|]. cbn zeta.
  commit_tasks_of. by apply set_changes.
Qed.

Lemma resume_changes t a h :
  changes_task false h (h_tasks (resume t a h))
  \/ exists i n b, h_tasks h !! t = Some (b_committing i n b) /\ outcome_of_commit h n = cm_done /\ owns i h = true
       /\ h_tasks (resume t a h) = <[t:=b_over i b (Ok tt)]> (h_tasks h).
Proof.
  unfold resume. destruct (h_tasks h !! t) as [w|] eqn:Ht; [|by left; left].
  destruct w as [restart|i n|i|i n|i n e|o|i n|i partial controller|i|i n b|i b o], a; try (by left; left).
  - left. unfold invalidated. case_match; [by apply set_changes|].
    destruct (add_run h) as [h1 i] eqn:E. assert (h_tasks h1 = h_tasks h) as H1 by (by injection E as <- _).
    commit_tasks_of. apply set_changes; [congruence|by destruct restart..].
  - left. destruct (outcome_of_commit h n); [by left| |apply start_failed_changes]. unfold connected.
    repeat case_match; try (apply set_changes; [apply finally_tasks|done|done]); try apply start_failed_changes;
      [by apply set_changes|by left].
  - left. destruct receipt as [receipt|e]; cbn [completed]; [|apply start_failed_changes].
    destruct (negb (owns i h)); [apply set_changes; [apply finally_tasks|done|done]|].
    destruct (h_runs h !! i) as [r|]; [|by left]. commit_tasks_of. by apply set_changes.
  - left. case_match; [apply set_changes; [apply finally_tasks|done|done]|by left].
  - left. destruct (outcome_of_commit h n); [by left| |apply start_failed_changes].
    apply set_changes; [apply finally_tasks|done|done].
  - left. destruct (outcome_of_commit h n); [by left|..]; (apply set_changes; [apply finally_tasks|done|done]).
  - left. destruct (outcome_of_commit h n); [by left| |by apply set_changes]. unfold reset_shown, end_run.
    apply set_changes; [|done|done]. repeat case_match; done.
  - left. apply set_changes; [done|by case_match..].
  - left. apply set_changes; [|done|done]. unfold make_readable. by repeat case_match.
  - destruct (outcome_of_commit h n) eqn:E; [by left; left| |by left; apply set_changes].
    destruct (owns i h) eqn:Ho; [|by left; apply set_changes]. right. by exists i, n, b.
Qed.

Section theorems.
Variable sn : jsstr -> option N.

Lemma step_changes h x :
  (forall t a, x <> x_resume t a) ->
  changes_task (match x with x_start | x_reset => true | _ => false end) h (h_tasks (hook_step sn h x)).
Proof.
  intros Hx. assert (forall c w h', h_tasks h' = h_tasks h -> acknowledged w = false -> (stops_first w = true -> c = true) ->
    changes_task c h (h_tasks (add_task w h'))) as Hadd
    by (intros c w h' H Hw Hc; right; left; exists w; cbn; by rewrite H).
  destruct x as [| | | | | |i b c|t a|o]; cbn [hook_step].
  - by apply Hadd; [apply invalidate_tasks|..].
  - by apply Hadd; [apply invalidate_tasks|..].
  - unfold cancel_call. destruct (h_active h) as [i|]; [|by left].
    pose proof (invalidate_tasks (Some i) true h) as H. destruct (invalidate _ _ _) as [[h1 p] c]. by apply Hadd.
  - left. cbn. unfold cleanup. by rewrite invalidate_tasks.
  - left. unfold cleanup. by rewrite invalidate_tasks.
  - left. unfold react_commit, layout_effect. by repeat case_match.
  - unfold on_batch. destruct (h_runs h !! i) as [r|]; [|by left]. destruct (negb (r_started r)); [by left|].
    destruct (negb (owns i h)); [by apply Hadd|]. destruct (acceptSqlStreamBatch _ _ _ _ _ _) as [[v p]|]; [|by apply Hadd].
    commit_tasks_of. by apply Hadd.
  - by destruct (Hx t a).
  - by left.
Qed.

Lemma changes_keep c h l t w : changes_task c h l -> l !! t = Some w -> acknowledged w = true -> h_tasks h !! t = Some w.
Proof.
  intros [->|[(w' & -> & Hw' & _)|(t' & w' & -> & Hw' & _)]] Hl Hw; [done|..].
  - apply lookup_app_Some in Hl as [?|[_ Hl]]; [done|]. apply list_lookup_singleton_Some in Hl as [_ <-]. congruence.
  - apply list_lookup_insert_Some in Hl as [(_ & <- & _)|[_ ?]]; [congruence|done].
Qed.

(** C31: A batch's callback resolves, which lets the transport acknowledge the batch, only once the
    page of the batch is on the screen: the last render shows the view of the run that the
    batch came for, with the page of that batch in its place, and that run is the current one. *)
Theorem acknowledged_batches_are_rendered (ops : list op) (xs : list hook_input) (x : hook_input)
    (t i : nat) (batch : SqlStreamBatchWire) :
  let h := hook_run sn ops xs in
  h_tasks (hook_step sn h x) !! t = Some (b_over i batch (Ok tt)) ->
  h_tasks h !! t <> Some (b_over i batch (Ok tt)) ->
  owns i h = true /\ shows (h_shown h) i batch /\ view_ok (h_shown h).
Proof.
  intros h Ht Hnew. pose proof (run_sound sn ops xs) as [Hc Hok]. fold h in Hc, Hok.
  destruct x as [| | | | | |i' b' c|t' a|o]; try (destruct Hnew;
    by eapply changes_keep; [apply step_changes; intros ? ? [=]|done|]).
  cbn in Ht. destruct (resume_changes t' a h) as [Hch|(i' & n & b' & Hw & Hn & Ho & E)].
  { by destruct Hnew; eapply changes_keep. }
  rewrite E in Ht. apply list_lookup_insert_Some in Ht as [(-> & [= -> ->] & _)|[_ ?]]; [|done].
  split_and!; [done| |apply Hc]. apply owns_spec in Ho; [|done].
  apply (tk_batch _ _ (proj1 Hok _ _ Hw) i n batch eq_refl Ho). rewrite <- Hn.
  by apply (outcome_lookup h t (b_committing i n batch)).
Qed.

(** ** Runs that are not the current one *)

(** What the hook shows and keeps. *)
Definition unchanged (h h' : hook) : Prop :=
  h_state h' = h_state h /\ h_due h' = h_due h /\ h_shown h' = h_shown h /\ h_pages h' = h_pages h
  /\ h_cancels h' = h_cancels h /\ h_nextRunId h' = h_nextRunId h.

Lemma finally_unchanged i h : unchanged h (finally i h).
Proof.
  unfold finally, end_run. destruct (bool_decide _); [|done]. destruct (h_runs h !! i); [|done]. cbn.
  by destruct (_ !! i).
Qed.

Lemma failed_unchanged t i e h : owns i h = false -> unchanged h (start_failed t i e h).
Proof. intros Ho. unfold start_failed. rewrite Ho. cbn [negb]. apply finally_unchanged. Qed.

(** Whatever still comes from a run that is not the current one (its batches, the end of its
    stream, commits that settle late) changes nothing: neither the view, nor what is on the
    screen, nor the page cache; and its batches are refused, so that they are never
    acknowledged. *)
Theorem stale_runs_change_nothing (ops : list op) (xs : list hook_input) (i : nat) :
  let h := hook_run sn ops xs in owns i h = false ->
  (forall t a w, h_tasks h !! t = Some w ->
     stage_run w = Some i \/ (exists n, waits_commit w = Some (i, n)) -> unchanged h (hook_step sn h (x_resume t a))) /\
  (forall batch cap, let h' := hook_step sn h (x_batch i batch cap) in unchanged h h'
     /\ (h_tasks h' = h_tasks h \/ h_tasks h' = h_tasks h ++ [b_over i batch (Throw he_stale)])).
Proof.
  intros h Ho. split.
  - intros t a w Ht Hw. cbn. unfold resume. rewrite Ht.
    assert (forall j, stage_run w = Some j \/ (exists n, waits_commit w = Some (j, n)) -> j = i) as Hj
      by (intros j Hj; destruct w; cbn in *; naive_solver).
    destruct w as [restart|j n|j|j n|j n e|o|j n|j partial controller|j|j n b|j b o], a; try done;
      try (assert (j = i) as -> by (apply Hj; cbn; by eauto)); try (destruct (outcome_of_commit h n));
      try done; try (by apply failed_unchanged); try (apply finally_unchanged).
    + by destruct Hw as [|[? ?]].
    + unfold connected. rewrite Ho. apply finally_unchanged.
    + destruct receipt; cbn [completed]; [rewrite Ho; apply finally_unchanged|by apply failed_unchanged].
    + case_match; [apply finally_unchanged|done].
    + unfold reset_shown, end_run. by repeat case_match.
    + by destruct Hw as [|[? ?]].
  - intros batch cap. cbn. unfold on_batch. destruct (h_runs h !! i) as [r|]; [|by split; [|left]].
    destruct (negb (r_started r)); [by split; [|left]|]. rewrite Ho. cbn. by split; [|right].
Qed.

(** ** What is shown *)

Lemma invalidate_state run keep h :
  h_state (invalidate run keep h).1.1 = h_state h \/ v_phase (h_state (invalidate run keep h).1.1) = ph_cancelled.
Proof.
  unfold invalidate. destruct run as [i|]; [|by left]. destruct (h_runs h !! i) as [r|]; [|by left].
  destruct (negb (r_active r)); [by left|]. cbn zeta. destruct (bool_decide _); cbn;
    (destruct ((v_runId (h_state h) =? r_id r) && receiving (v_phase (h_state h)));
       [right; destruct (keep && (0 <? v_rowCount (h_state h))%Z)|left]); by destruct (r_controller r).
Qed.

Lemma commit_state_cases i v b h : h_state (commit i v b h).1 = v \/ h_state (commit i v b h).1 = h_state h.
Proof. unfold commit. destruct (negb _); [by right|by left]. Qed.

Lemma commit_owned_state t w i v b h : core h -> owned i h ->
  h_state (let '(h', n) := commit i v b h in set_task t (w n) h') = v.
Proof. intros Hc Ho. unfold commit. by rewrite (proj2 (owns_spec i h Hc) Ho). Qed.

Definition not_completing (h h' : hook) : Prop :=
  v_phase (h_state h) <> ph_complete -> v_phase (h_state h') <> ph_complete.

Lemma commit_not_completing i v b h h0 :
  h_state h = h_state h0 -> v_phase v <> ph_complete -> not_completing h0 (commit i v b h).1.
Proof. intros H Hv Hn. destruct (commit_state_cases i v b h) as [-> | ->]; [done|]. by rewrite H. Qed.

Lemma failed_not_completing t i e h : not_completing h (start_failed t i e h).
Proof.
  intros Hn. unfold start_failed. assert (h_state (finally i h) = h_state h) as Hf by apply finally_unchanged.
  destruct (negb (owns i h)); [cbn; by rewrite Hf|]. destruct (bool_decide _); [cbn; by rewrite Hf|]. cbn zeta.
  match goal with |- context [commit i ?v true h] =>
    pose proof (commit_not_completing i v true h h eq_refl) as Hk; destruct (commit i v true h) as [h1 n] end.
  apply Hk; [|done]. cbn. destruct (v_operationId (h_state h)) as [op|]; [destruct (non_empty op)|]; done.
Qed.

(** Only the end of the current run's stream completes a view. *)
Lemma step_completes h x :
  not_completing h (hook_step sn h x)
  \/ exists t i receipt elapsed, x = x_resume t (a_completion (Ok receipt) elapsed)
       /\ h_tasks h !! t = Some (s_running i) /\ owns i h = true.
Proof.
  assert (forall run keep h1, h_state h1 = h_state h -> not_completing h (invalidate run keep h1).1.1) as Hinv.
  { intros run keep h1 H Hn. destruct (invalidate_state run keep h1) as [-> | ->]; [by rewrite H|done]. }
  assert (forall h', h_state h' = h_state h -> not_completing h h') as Hkeep by (intros h' H Hn; by rewrite H).
  assert (forall i, not_completing h (finally i h)) as Hfin
    by (intros i Hn; by rewrite (proj1 (finally_unchanged i h))).
  destruct x as [| | | | | |i b c|t a|o]; cbn [hook_step].
  - left. by apply Hinv.
  - left. by apply Hinv.
  - left. unfold cancel_call. destruct (h_active h) as [i|]; [|by apply Hkeep].
    pose proof (Hinv (Some i) true h eq_refl) as H. destruct (invalidate _ _ _) as [[h1 p] c]. apply H.
  - left. by apply Hinv.
  - left. by apply Hinv.
  - left. apply Hkeep. unfold react_commit, layout_effect. by repeat case_match.
  - left. unfold on_batch. destruct (h_runs h !! i) as [r|]; [|by apply Hkeep]. destruct (negb (r_started r)); [by apply Hkeep|].
    destruct (negb (owns i h)); [by apply Hkeep|]. destruct (acceptSqlStreamBatch _ _ _ _ _ _) as [[v p]|] eqn:E; [|by apply Hkeep].
    apply accepted_spec, ac_phase in E as [_ E].
    pose proof (commit_not_completing i v true (set_pages p h) h eq_refl) as Hk.
    destruct (commit _ _ _ _) as [h1 n]. apply Hk. by rewrite E.
  - unfold resume. destruct (h_tasks h !! t) as [w|] eqn:Ht; [|by left; apply Hkeep].
    destruct w as [restart|i n|i|i n|i n e|o|i n|i partial controller|i|i n b|i b o], a; try (by left; apply Hkeep);
      try (destruct (outcome_of_commit h n)); try (by left; apply Hkeep); try (left; apply failed_not_completing); try (left; apply Hfin).
    + left. unfold invalidated. case_match; [by apply Hkeep|]. destruct (add_run h) as [h1 i] eqn:E.
      assert (h_state h1 = h_state h) as H1 by (by injection E as <- _).
      match goal with |- context [commit i ?v true h1] =>
        pose proof (commit_not_completing i v true h1 h H1) as Hk; destruct (commit i v true h1) as [h2 n] end.
      apply Hk. by destruct restart.
    + left. unfold connected. destruct (negb (owns i h)); [apply Hfin|]. destruct made; [|apply failed_not_completing].
      by apply Hkeep; destruct (h_runs h !! i).
    + destruct receipt as [receipt|e]; cbn [completed]; [|left; apply failed_not_completing].
      destruct (owns i h) eqn:Ho; [right|left; apply Hfin]. by exists t, i, receipt, elapsed.
    + left. case_match; [apply Hfin|by apply Hkeep].
    + left. apply Hkeep. unfold reset_shown, end_run. by repeat case_match.
    + left. intros Hn. unfold make_readable. by repeat case_match.
  - by left; apply Hkeep.
Qed.

(** C32: Every view the hook keeps or shows meets its contract, and it becomes complete only by the
    receipt of its run's stream, which names the operation of the accepted batches and counts
    exactly their rows. *)
Theorem complete_counts_accepted_rows (ops : list op) (xs : list hook_input) (x : hook_input) :
  let h := hook_run sn ops xs in let h' := hook_step sn h x in
  view_ok (h_state h) /\ view_ok (h_shown h) /\
  (v_phase (h_state h) <> ph_complete -> v_phase (h_state h') = ph_complete ->
   exists t i receipt elapsed, x = x_resume t (a_completion (Ok receipt) elapsed)
     /\ h_tasks h !! t = Some (s_running i) /\ owns i h = true
     /\ v_rowCount (h_state h) = SqlStream.sr_rowCount receipt /\ v_rowCount (h_state h') = v_rowCount (h_state h)
     /\ (forall op, v_operationId (h_state h) = Some op -> op = SqlStream.sr_operationId receipt)).
Proof.
  intros h h'. pose proof (run_sound sn ops xs) as [Hc Hok]. fold h in Hc, Hok.
  split_and!; [apply Hc..|]. intros Hn Hp.
  destruct (step_completes h x) as [H|(t & i & receipt & elapsed & -> & Ht & Ho)]; [by destruct (H Hn)|].
  exists t, i, receipt, elapsed. split_and!; try done; revert Hp; unfold h'; cbn; unfold resume; rewrite Ht;
    cbn [completed]; rewrite Ho; cbn [negb]; apply owns_spec in Ho; try done;
    destruct (co_active _ Hc i (proj2 Ho)) as (r & Hr & _); rewrite Hr, (co_ids _ Hc _ _ Hr);
    destruct (tk_run _ _ (proj1 Hok _ _ Ht) i eq_refl) as [_ Hrec]; specialize (Hrec Ho);
    rewrite commit_owned_state by done; intros Hp;
    destruct (finish_complete _ _ _ _ Hp Hrec) as [E1 E2]; try done.
  unfold finishSqlStream in *. by repeat case_match.
Qed.

(** ** Stopping a run *)

(** The calls that stop the current run. *)
Definition stopping (x : hook_input) : bool :=
  match x with x_start | x_reset | x_cancel | x_scope | x_unmount => true | _ => false end.

(** The invalidation of the current run while it receives. *)
Lemma invalidate_receiving keep i r h :
  core h -> owned i h -> h_runs h !! i = Some r -> receiving (v_phase (h_state h)) = true ->
  let h1 := (invalidate (Some i) keep h).1.1 in
  let kept := keep && (0 <? v_rowCount (h_state h))%Z in
  h_state h1 = (if kept then with_phase (h_state h) ph_cancelled (v_error (h_state h)) else discarded (h_state h))
  /\ h_pages h1 = (if kept then h_pages h else clearSqlResultPageCache (Some (v_rowSource (h_state h))) (h_pages h))
  /\ h_commits h1 = h_commits (settlePending i true h)
  /\ h_cancels h1 = (if r_controller r then i :: h_cancels h else h_cancels h).
Proof.
  intros Hc Ho Hr Hp h1 kept. destruct (co_active _ Hc _ (proj2 Ho)) as (r' & Hr' & Hact & _).
  unfold h1, invalidate. rewrite Hr. assert (r' = r) as -> by congruence. rewrite Hact. cbn zeta. cbn [negb set_run h_active].
  rewrite (proj2 Ho), bool_decide_eq_true_2 by done. cbn [settlePending set_commits set_active set_run h_state].
  rewrite (co_owned _ Hc _ Ho), (co_ids _ Hc _ _ Hr), Nat.eqb_refl, Hp. cbn [andb]. fold kept.
  by destruct kept, (r_controller r).
Qed.

Lemma invalidate_commits keep i h :
  core h -> h_active h = Some i -> h_commits (invalidate (Some i) keep h).1.1 = h_commits (settlePending i true h).
Proof.
  intros Hc Ha. destruct (co_active _ Hc _ Ha) as (r & Hr & Hact & _). unfold invalidate. rewrite Hr, Hact. cbn zeta.
  cbn [negb set_run h_active]. rewrite Ha, bool_decide_eq_true_2 by done. cbn [settlePending set_commits set_active set_run h_state].
  destruct ((v_runId (h_state h) =? r_id r) && receiving (v_phase (h_state h)));
    [destruct (keep && (0 <? v_rowCount (h_state h))%Z)|]; by destruct (r_controller r).
Qed.

Lemma stop_step h x i :
  h_active h = Some i -> stopping x = true ->
  let h1 := (invalidate (Some i) (match x with x_cancel => true | _ => false end) h).1.1 in
  let h' := hook_step sn h x in
  h_state h' = h_state h1 /\ h_pages h' = h_pages h1 /\ h_cancels h' = h_cancels h1 /\ h_commits h' = h_commits h1
  /\ h_active h' = h_active h1.
Proof.
  intros Ha Hx h1 h'.
  assert (forall m, let h2 := (invalidate (Some i) false (set_mounted m h)).1.1 in
    let h3 := (invalidate (Some i) false h).1.1 in
    h_state h2 = h_state h3 /\ h_pages h2 = h_pages h3 /\ h_cancels h2 = h_cancels h3 /\ h_commits h2 = h_commits h3
    /\ h_active h2 = h_active h3) as Hm.
  { intros m. unfold invalidate. cbn [set_mounted h_runs]. destruct (h_runs h !! i) as [r|]; [|done].
    destruct (negb (r_active r)); [done|]. cbn zeta. cbn [set_run h_active set_mounted].
    destruct (bool_decide _); cbn; (destruct ((v_runId (h_state h) =? r_id r) && receiving (v_phase (h_state h))));
      by destruct (r_controller r). }
  destruct x; try done; unfold h', h1; cbn [hook_step].
  - unfold start_call. by rewrite Ha.
  - unfold start_call. by rewrite Ha.
  - unfold cancel_call. rewrite Ha. by destruct (invalidate _ _ _) as [[h2 p] c].
  - unfold cleanup. cbn [set_mounted h_active]. rewrite Ha. apply (Hm false).
  - unfold cleanup. cbn [set_mounted h_active]. rewrite Ha. apply (Hm false).
Qed.

(** A person's cancellation keeps the rows that have been received: the view is only marked
    cancelled and the page cache stays as it is. A new run, a reset, a change of scope or
    unmounting, and a cancellation before the first row, show an empty cancelled view instead
    and drop the result's pages from the cache. All of them leave no current run and no commit
    of it unsettled, and cancel its controller. *)
Theorem cancel_keeps_rows (ops : list op) (xs : list hook_input) (i : nat) (x : hook_input) :
  let h := hook_run sn ops xs in let h' := hook_step sn h x in
  owns i h = true -> receiving (v_phase (h_state h)) = true -> stopping x = true ->
  (if match x with x_cancel => (0 <? v_rowCount (h_state h))%Z | _ => false end
   then h_state h' = with_phase (h_state h) ph_cancelled (v_error (h_state h)) /\ h_pages h' = h_pages h
   else h_state h' = discarded (h_state h)
        /\ forall key, sourceKey (v_rowSource (h_state h)) = Some key -> mget (caches (h_pages h')) key = None)
  /\ h_active h' = None /\ (forall n s, h_commits h' !! n = Some (i, s) -> s <> cm_pending)
  /\ (forall r, h_runs h !! i = Some r -> r_controller r = true -> h_cancels h' = i :: h_cancels h).
Proof.
  intros h h' Ho Hp Hx. pose proof (run_sound sn ops xs) as [Hc Hok]. fold h in Hc, Hok.
  apply owns_spec in Ho; [|done]. destruct (co_active _ Hc _ (proj2 Ho)) as (r & Hr & Hact & _).
  destruct (stop_step h x i (proj2 Ho) Hx) as (E1 & E2 & E3 & E4 & E5).
  destruct (invalidate_receiving (match x with x_cancel => true | _ => false end) i r h Hc Ho Hr Hp) as (F1 & F2 & F3 & F4).
  destruct (invalidate_stops (match x with x_cancel => true | _ => false end) i h Hc (proj2 Ho)) as [Hstop _].
  split_and!.
  - unfold h'. rewrite E1, E2, F1, F2.
    replace (match x with x_cancel => _ | _ => false end)
      with ((match x with x_cancel => true | _ => false end) && (0 <? v_rowCount (h_state h))%Z) by by destruct x.
    destruct (_ && _); split; try done. intros key Hkey. unfold clearSqlResultPageCache. rewrite Hkey. cbn.
    rewrite mget_del. by case_decide.
  - unfold h'. rewrite E5. apply Hstop.
  - intros n s. unfold h'. rewrite E4, F3. intros H ->. by apply settle_pending_none in H.
  - intros r' Hr' Hctl. simplify_eq. unfold h'. by rewrite E3, F4, Hctl.
Qed.

(** ** Calls one after another *)

(** [start] and [reset] are called only when no other such call still stops a run. *)
Definition call_in_turn (h : hook) (x : hook_input) : bool :=
  match x with x_start | x_reset => negb (existsb stops_first (h_tasks h)) | _ => true end.

Fixpoint in_turn (h : hook) (xs : list hook_input) : bool :=
  match xs with [] => true | x :: xs => call_in_turn h x && in_turn (hook_step sn h x) xs end.

(** Then no run is active but the current one. *)
Record orderly (h : hook) : Prop := {
  or_one : forall t t' w w', h_tasks h !! t = Some w -> h_tasks h !! t' = Some w' ->
    stops_first w = true -> stops_first w' = true -> t = t';
  or_idle : forall t w, h_tasks h !! t = Some w -> stops_first w = true -> h_active h = None;
  or_runs : forall i r, h_runs h !! i = Some r -> r_active r = true -> h_active h = Some i;
  or_mounted : forall n i, h_commits h !! n = Some (i, cm_pending) -> h_mounted h = true }.

(** Nothing becomes active, and commits are made only while mounted. *)
Record calms (h h' : hook) : Prop := {
  cl_active : h_active h' = h_active h \/ h_active h' = None;
  cl_runs : forall i r, h_runs h' !! i = Some r -> r_active r = true ->
    (exists r0, h_runs h !! i = Some r0 /\ r_active r0 = true) /\ (h_active h = Some i -> h_active h' = Some i);
  cl_mounted : h_mounted h' = h_mounted h;
  cl_pending : forall n i, h_commits h' !! n = Some (i, cm_pending) ->
    h_mounted h = true \/ h_commits h !! n = Some (i, cm_pending) }.

Lemma calms_refl h : calms h h.
Proof. split; [by left|eauto|done|by auto]. Qed.

Lemma calms_trans h1 h2 h3 : calms h1 h2 -> calms h2 h3 -> calms h1 h3.
Proof.
  intros [A1 R1 M1 P1] [A2 R2 M2 P2]. split; [|..|congruence|].
  - destruct A2 as [-> | ->]; [done|by right].
  - intros i r Hr Ha. destruct (R2 i r Hr Ha) as [(r2 & Hr2 & Ha2) Hc2]. destruct (R1 i r2 Hr2 Ha2) as [? ?]. eauto.
  - intros n i Hn. destruct (P2 n i Hn) as [?|Hp]; [left; congruence|by apply P1].
Qed.

Lemma stopped_calms i h h' : stopped i h h' -> core h -> h_active h = Some i -> h_mounted h' = h_mounted h -> calms h h'.
Proof.
  intros Hs Hc Ha Hm. destruct (co_active _ Hc _ Ha) as (r & Hr & _).
  destruct (sp_run _ _ _ Hs r Hr) as (r' & Hruns & _ & Hact'). split; [right; apply Hs|..|done|].
  - intros j rj. rewrite Hruns. intros [(<- & <- & _)|(Hne & Hj)]%list_lookup_insert_Some Haj; [congruence|].
    split; [by exists rj|]. congruence.
  - intros n j Hn. right. by apply (sp_pending _ _ _ Hs).
Qed.

Lemma invalidate_calms keep h : core h -> calms h (invalidate (h_active h) keep h).1.1.
Proof.
  intros Hc. destruct (h_active h) as [i|] eqn:Ha; [|apply calms_refl].
  destruct (invalidate_stops keep i h Hc Ha) as [Hs Hm]. by eapply stopped_calms.
Qed.

Lemma commit_calms i v b h : core h -> calms h (commit i v b h).1.
Proof.
  intros Hc. unfold commit. destruct (owns i h) eqn:Ho; cbn.
  - apply owns_spec in Ho as [Hm _]; [|done]. split; cbn; [by left|eauto|done|by left].
  - split; cbn; [by left|eauto|done|]. intros n j [Hn|[_ Hn]]%lookup_app_Some; [by right|].
    apply list_lookup_singleton_Some in Hn as [_ [=]].
Qed.

Lemma finally_calms i h : core h -> calms h (finally i h).
Proof.
  intros Hc. unfold finally. destruct (bool_decide _) eqn:E; [|apply calms_refl]. bools.
  destruct (co_active _ Hc _ E) as (r & Hr & _). rewrite Hr. apply lookup_lt_Some in Hr as Hlt.
  unfold end_run. cbn. rewrite list_lookup_insert_eq by done. split; cbn; rewrite ?list_insert_insert_eq.
  - by right.
  - intros j rj [(<- & <- & _)|(Hne & Hj)]%list_lookup_insert_Some Haj; [done|]. split; [by exists rj|congruence].
  - done.
  - intros n j Hn. right. by apply (settle_pending_other n i j true h).
Qed.

Lemma end_run_calms i h : core h -> h_active h = Some i -> calms h (end_run i h).
Proof.
  intros Hc Ha. destruct (co_active _ Hc _ Ha) as (r & Hr & _). unfold end_run. rewrite Hr. split; cbn; [by right|..|done|by right].
  intros j rj [(<- & <- & _)|(Hne & Hj)]%list_lookup_insert_Some Haj; [done|]. split; [by exists rj|congruence].
Qed.

Lemma react_calms h : calms h (react_commit h).
Proof.
  unfold react_commit. destruct (h_due h); [|apply calms_refl]. set (h1 := mkHook _ _ _ _ _ _ _ _ _ _ _).
  assert (forall h0, h_active h0 = h_active h -> h_runs h0 = h_runs h -> h_mounted h0 = h_mounted h ->
    (forall n i, h_commits h0 !! n = Some (i, cm_pending) -> h_commits h !! n = Some (i, cm_pending)) -> calms h h0) as Hk.
  { intros h0 E1 E2 E3 E4. split; [by left|rewrite E2, E1; eauto|done|auto]. }
  unfold layout_effect. destruct (h_active h1) as [i|]; [|by apply Hk]. destruct (h_runs h1 !! i) as [r|]; [|by apply Hk].
  destruct (_ && owns i h1); [|by apply Hk]. apply Hk; try done. intros m j Hm.
  by apply (settle_pending_other m i j false h1).
Qed.

Lemma calms_set h h' t w : calms h h' -> calms h (set_task t w h').
Proof. by intros [H1 H2 H3 H4]; split. Qed.

Lemma failed_calms t i e h : core h -> calms h (start_failed t i e h).
Proof.
  intros Hc. unfold start_failed, end_start. destruct (negb (owns i h)); [by apply calms_set, finally_calms|].
  destruct (bool_decide _); [by apply calms_set, finally_calms|]. cbn zeta.
  match goal with |- context [commit i ?v true h] =>
    pose proof (commit_calms i v true h Hc) as Hk; destruct (commit i v true h) as [h1 n] end. by apply calms_set.
Qed.

(** A resumed task other than the one that starts a run. *)
Lemma resume_calms t a h :
  core h -> (forall restart, h_tasks h !! t = Some (s_invalidating restart) -> a <> a_turn) -> calms h (resume t a h).
Proof.
  intros Hc Hinv. unfold resume. destruct (h_tasks h !! t) as [w|] eqn:Ht; [|apply calms_refl].
  destruct w as [restart|i n|i|i n|i n e|o|i n|i partial controller|i|i n b|i b o], a; try apply calms_refl;
    try (by destruct (Hinv restart eq_refl)); try (destruct (outcome_of_commit h n)); try apply calms_refl; try (apply calms_set, calms_refl);
    try (by apply failed_calms); try (by apply calms_set, finally_calms).
  - unfold connected. destruct (negb (owns i h)); [by apply calms_set, finally_calms|]. destruct made; [|by apply failed_calms].
    destruct (h_runs h !! i) as [r|] eqn:Hr; [|apply calms_refl]. apply calms_set. split; cbn; [by left|..|done|by right].
    intros j rj [(<- & <- & _)|(_ & Hj)]%list_lookup_insert_Some Ha; (split; [|done]); [by exists r|by exists rj].
  - destruct receipt as [receipt|e]; cbn [completed]; [|by apply failed_calms].
    destruct (negb (owns i h)); [by apply calms_set, finally_calms|]. destruct (h_runs h !! i); [|apply calms_refl].
    match goal with |- context [commit i ?v ?b h] =>
      pose proof (commit_calms i v b h Hc) as Hk; destruct (commit i v b h) as [h1 n] end. by apply calms_set.
  - case_match; [by apply calms_set, finally_calms|apply calms_refl].
  - unfold reset_shown. apply calms_set. case_match eqn:E; bools; [by apply end_run_calms|apply calms_refl].
  - apply calms_set. unfold make_readable. repeat case_match; split; cbn; eauto.
Qed.

(** Only a call of [start] or [reset] stops a run first. *)
Definition no_new_call (h h' : hook) : Prop :=
  forall t w, h_tasks h' !! t = Some w -> stops_first w = true -> h_tasks h !! t = Some w.

Lemma changes_no_call h h' : changes_task false h (h_tasks h') -> no_new_call h h'.
Proof.
  intros Hch t w Ht Hw. destruct Hch as [E|[(w' & E & _ & Hw')|(t' & w' & E & _ & Hw')]]; rewrite E in Ht; [done|..].
  - apply lookup_app_Some in Ht as [?|[_ Ht]]; [done|]. apply list_lookup_singleton_Some in Ht as [_ <-]. by apply Hw' in Hw.
  - apply list_lookup_insert_Some in Ht as [(_ & <- & _)|[_ ?]]; [congruence|done].
Qed.

Lemma resume_no_call t a h : no_new_call h (resume t a h).
Proof.
  destruct (resume_changes t a h) as [Hch|(i & n & b & _ & _ & _ & E)]; [by apply changes_no_call|].
  intros t' w Ht Hw. rewrite E in Ht. apply list_lookup_insert_Some in Ht as [(_ & <- & _)|[_ ?]]; done.
Qed.

Lemma calms_orderly h h' : orderly h -> calms h h' -> no_new_call h h' -> orderly h'.
Proof.
  intros [O1 O2 O3 O4] [K1 K2 K3 K4] Hold. split.
  - intros t t' w w' H1 H2 S1 S2. by eapply O1; [apply Hold|apply Hold|..].
  - intros t w Ht Hw. specialize (O2 t w (Hold t w Ht Hw) Hw). by destruct K1 as [-> | ->].
  - intros i r Hr Ha. destruct (K2 i r Hr Ha) as [(r0 & Hr0 & Ha0) Hcur]. by eapply Hcur, O3.
  - intros n i Hn. rewrite K3. destruct (K4 n i Hn) as [?|Hp]; [done|by eapply O4].
Qed.

Lemma call_orderly h restart :
  core h -> orderly h -> existsb stops_first (h_tasks h) = false -> orderly (start_call restart h).
Proof.
  intros Hc Ho Hnone. rewrite existsb_none in Hnone. destruct (invalidate_spec false h Hc) as (Hc' & He & Ha & Hm).
  pose proof (invalidate_calms false h Hc) as Hk. unfold start_call. set (h1 := (invalidate _ _ _).1.1) in *.
  assert (h_tasks h1 = h_tasks h) as Ht by apply He.
  assert (orderly h1) as [O1 O2 O3 O4] by (eapply calms_orderly; [done|done|by apply changes_no_call; left]).
  assert (forall t w, h_tasks h1 !! t = Some w -> stops_first w = true -> False) as Hno.
  { intros t w H Hw. rewrite Ht in H. rewrite (Hnone w) in Hw; [done|by eapply list_elem_of_lookup_2]. }
  split; try done; cbn.
  intros t t' w w' [H1|[L1 H1]]%lookup_app_Some [H2|[L2 H2]]%lookup_app_Some S1 S2;
    try (by destruct (Hno _ _ H1 S1)); try (by destruct (Hno _ _ H2 S2)).
  apply list_lookup_singleton_Some in H1 as [? _], H2 as [? _]. lia.
Qed.

Lemma cleanup_orderly m h :
  sound h -> orderly h -> m = h_mounted h \/ m = false -> orderly (set_mounted m (cleanup h)).
Proof.
  intros [Hc Hok] Ho Hmm. unfold cleanup. destruct (unmount_core h Hc) as [Hc1 _].
  change (h_active h) with (h_active (set_mounted false h)).
  destruct (invalidate_spec false _ Hc1) as (Hc2 & He2 & Ha & Hm).
  pose proof (invalidate_calms false _ Hc1) as [K1 K2 K3 K4].
  set (h1 := (invalidate _ _ _).1.1) in *. destruct Ho as [O1 O2 O3 O4].
  assert (forall n i, h_commits h1 !! n <> Some (i, cm_pending)) as Hnone.
  { intros n i Hn. destruct (co_pending _ Hc2 _ _ Hn) as (r & Hr & Hact).
    destruct (K2 i r Hr Hact) as [(r0 & Hr0 & Ha0) Hcur]. specialize (O3 i r0 Hr0 Ha0).
    specialize (Hcur O3). congruence. }
  split; cbn.
  - rewrite (ev_tasks _ _ _ He2). apply O1.
  - intros t w _ _. done.
  - intros i r Hr Hact. destruct (K2 i r Hr Hact) as [(r0 & Hr0 & Ha0) Hcur]. by eapply Hcur, O3.
  - intros n i Hn. by destruct (Hnone n i).
Qed.

Lemma invalidated_orderly t restart h :
  sound h -> orderly h -> h_tasks h !! t = Some (s_invalidating restart) -> orderly (invalidated t restart h).
Proof.
  intros Hs Ho Ht. pose proof Hs as [Hc Hok]. destruct Ho as [O1 O2 O3 O4]. pose proof (O2 _ _ Ht eq_refl) as Ha.
  assert (forall l w0, stops_first w0 = false -> l = <[t:=w0]> (h_tasks h) -> forall t' w, l !! t' = Some w -> stops_first w = true -> False) as Hnone.
  { intros l w0 Hw0 -> t' w [(-> & <- & _)|(Hne & Ht')]%list_lookup_insert_Some Hw; [congruence|].
    destruct Hne. by eapply O1. }
  unfold invalidated. case_match.
  { split; cbn.
    - intros t1 t2 w1 w2 H1 H2 S1 S2. exfalso. by eapply (Hnone _ (s_over (Ok tt))).
    - done.
    - done.
    - done. }
  rewrite (surjective_pairing (add_run h)). cbn beta iota zeta.
  change (add_run h).2 with (length (h_runs h)). change (h_nextRunId (add_run h).1) with (S (h_nextRunId h)).
  set (next := if restart then _ else _).
  rewrite (surjective_pairing (commit _ _ _ _)). set (h2 := (commit _ _ _ _).1). set (n2 := (commit _ _ _ _).2).
  assert (h_tasks h2 = h_tasks h /\ h_runs h2 = h_runs h ++ [newRun (S (h_nextRunId h))] /\
    h_active h2 = Some (length (h_runs h)) /\ h_mounted h2 = h_mounted h /\
    forall n i, h_commits h2 !! n = Some (i, cm_pending) -> h_mounted h = true \/ h_commits h !! n = Some (i, cm_pending))
    as (E1 & E2 & E3 & E4 & E5).
  { unfold h2, commit. destruct (owns _ _) eqn:Hown; cbn.
    - split_and!; try done. unfold owns in Hown. cbn in Hown. bools. auto.
    - split_and!; try done. intros n i [?|[_ H']]%lookup_app_Some; [by right|].
      by apply list_lookup_singleton_Some in H' as [_ [=]]. }
  split; cbn.
  - rewrite E1. intros t1 t2 w1 w2 H1 H2 S1 S2. exfalso. eapply (Hnone _ _ _ eq_refl); [exact H1|done]. Unshelve. by destruct restart.
  - rewrite E1. intros t1 w1 H1 S1. exfalso. eapply (Hnone _ _ _ eq_refl); [exact H1|done]. Unshelve. by destruct restart.
  - intros i r. rewrite E2, E3. intros [Hi|[Hl Hi]]%lookup_app_Some Hact; [specialize (O3 i r Hi Hact); congruence|].
    apply list_lookup_singleton_Some in Hi as [? _]. f_equal. lia.
  - intros n i Hn. rewrite E4. destruct (E5 n i Hn); [done|by eapply O4].
Qed.

Lemma step_orderly h x : sound h -> orderly h -> call_in_turn h x = true -> orderly (hook_step sn h x).
Proof.
  intros Hs Ho Hx. pose proof Hs as [Hc Hok].
  destruct x as [| | | | | |i b c|t a|o]; cbn [hook_step call_in_turn] in *; bools.
  - by apply call_orderly.
  - by apply call_orderly.
  - eapply calms_orderly; [done| |by apply changes_no_call, (step_changes h x_cancel)].
    unfold cancel_call. destruct (h_active h) as [i|] eqn:Ha; [|apply calms_refl].
    pose proof (invalidate_calms true h Hc) as Hk. rewrite Ha in Hk. destruct (invalidate _ _ _) as [[h1 p] c].
    by destruct Hk; split.
  - by apply cleanup_orderly; [..|left].
  - pose proof (cleanup_orderly false h Hs Ho (or_intror eq_refl)) as [O1 O2 O3 O4].
    destruct (cleanup_spec h Hs) as (_ & Ha & Hm). split; try done. intros n i Hn. by specialize (O4 n i Hn).
  - eapply calms_orderly; [done|apply react_calms|by apply changes_no_call, (step_changes h x_render)].
  - eapply calms_orderly; [done| |by apply changes_no_call, (step_changes h (x_batch i b c))].
    unfold on_batch. destruct (h_runs h !! i) as [r|]; [|apply calms_refl].
    assert (forall w h', calms h h' -> calms h (add_task w h')) as Hadd by (intros w h' []; by split).
    destruct (negb (r_started r)); [apply calms_refl|]. destruct (negb (owns i h)); [apply Hadd, calms_refl|].
    destruct (acceptSqlStreamBatch _ _ _ _ _ _) as [[v p]|] eqn:E; [|apply Hadd, calms_refl].
    assert (core (set_pages p h)) as Hc1.
    { apply set_pages_spec; [done|]. rewrite (ac_pages _ _ _ _ _ _ _ (accepted_spec _ _ _ _ _ _ _ _ E)).
      apply (apply_op_inv sn _ (Push (v_rowSource v) b)), Hc. }
    pose proof (commit_calms i v true _ Hc1) as [K1 K2 K3 K4]. destruct (commit _ _ _ _) as [h1 n]. apply Hadd. by split.
  - assert ((exists restart, h_tasks h !! t = Some (s_invalidating restart) /\ a = a_turn)
      \/ forall restart, h_tasks h !! t = Some (s_invalidating restart) -> a <> a_turn) as [[restart [Ht ->]]|Hno]
      by (destruct (h_tasks h !! t) as [[]|], a; naive_solver).
    + unfold resume. rewrite Ht. by apply invalidated_orderly.
    + eapply calms_orderly; [done| |apply resume_no_call]. by apply resume_calms.
  - eapply calms_orderly; [done| |by apply changes_no_call; left]. split; cbn; eauto.
Qed.

Lemma open_orderly pages : orderly (open_hook pages).
Proof. by split. Qed.

Lemma run_orderly h xs : sound h -> orderly h -> in_turn h xs = true -> orderly (foldl (hook_step sn) h xs).
Proof.
  revert h. induction xs as [|x xs IH]; intros h Hs Ho Hx; [done|]. cbn in Hx. bools.
  apply IH; [by apply step_sound|by apply step_orderly|done].
Qed.

(** No caller waits for ever. If [start] and [reset] are not called while another such call is
    still stopping a run, a commit that is not settled belongs to the current run; a render is
    due, which resolves it, unless one of the calls that stop the run rejects it before. *)
Theorem commits_are_settled (ops : list op) (xs : list hook_input) (n i : nat) :
  let h := hook_run sn ops xs in
  in_turn (open_hook (run_ops sn ops)) xs = true -> h_commits h !! n = Some (i, cm_pending) ->
  owns i h = true /\ h_due h = true
  /\ h_commits (hook_step sn h x_render) !! n = Some (i, cm_done)
  /\ forall x, stopping x = true -> h_commits (hook_step sn h x) !! n = Some (i, cm_stale).
Proof.
  intros h Hx Hn. pose proof (run_sound sn ops xs) as Hs. fold h in Hs. pose proof Hs as [Hc Hok].
  assert (orderly h) as [O1 O2 O3 O4].
  { apply run_orderly; [apply open_sound, run_ops_inv|apply open_orderly|done]. }
  destruct (co_pending _ Hc _ _ Hn) as (r & Hr & Hact).
  assert (owned i h) as Ho by (split; [by eapply O4|by eapply O3]).
  destruct (react_commit_spec h Hc) as (_ & _ & _ & Hdone). split_and!.
  - by apply owns_spec.
  - by eapply (co_due _ Hc).
  - apply (Hdone i Ho n _ Hn).
  - intros x Hstop. destruct (stop_step h x i (proj2 Ho) Hstop) as (_ & _ & _ & -> & _).
    rewrite invalidate_commits by (done || apply Ho). apply settle_lookup. exists cm_pending. by rewrite Nat.eqb_refl.
Qed.
End theorems.

(** ** At concrete inputs *)

Definition two_rows : SqlStreamBatchWire := sample_batch 0 [[VNull]; [VBool true]].

(** The first batch of [stream_inputs] has been rendered; then its callback goes on. *)
Lemma acknowledged_witness :
  let h := hook_run no_safe_natural [] (take 6 stream_inputs) in
  owns 0 h = true /\ shows (h_shown h) 0 two_rows /\ view_ok (h_shown h).
Proof.
  apply (acknowledged_batches_are_rendered no_safe_natural [] (take 6 stream_inputs) (x_resume 1 a_turn) 1 0 two_rows);
    [reflexivity|by vm_compute].
Defined.

(** A batch that comes after the cancellation. *)
Lemma stale_witness :
  let h := hook_run no_safe_natural [] (stream_inputs ++ [x_cancel]) in
  owns 0 h = false /\ unchanged h (hook_step no_safe_natural h (x_batch 0 (sample_batch 2 [[VNull]]) sample_capability)).
Proof.
  split; [reflexivity|].
  apply (stale_runs_change_nothing no_safe_natural [] (stream_inputs ++ [x_cancel]) 0). reflexivity.
Defined.

Lemma complete_witness :
  let h := hook_run no_safe_natural [] stream_inputs in
  let x := x_resume 0 (a_completion (Ok (sample_receipt 3)) 12) in
  v_phase (h_state (hook_step no_safe_natural h x)) = ph_complete
  /\ exists t i receipt elapsed, x = x_resume t (a_completion (Ok receipt) elapsed)
       /\ h_tasks h !! t = Some (s_running i) /\ owns i h = true
       /\ v_rowCount (h_state h) = SqlStream.sr_rowCount receipt
       /\ v_rowCount (h_state (hook_step no_safe_natural h x)) = v_rowCount (h_state h)
       /\ (forall op, v_operationId (h_state h) = Some op -> op = SqlStream.sr_operationId receipt).
Proof.
  split; [reflexivity|].
  apply (complete_counts_accepted_rows no_safe_natural [] stream_inputs
    (x_resume 0 (a_completion (Ok (sample_receipt 3)) 12))); [by vm_compute|reflexivity].
Defined.

Lemma cancel_witness :
  let h := hook_run no_safe_natural [] stream_inputs in let h' := hook_step no_safe_natural h x_cancel in
  v_rowCount (h_state h) = 3%Z
  /\ h_state h' = with_phase (h_state h) ph_cancelled (v_error (h_state h)) /\ h_pages h' = h_pages h
  /\ h_cancels h' = 0 :: h_cancels h.
Proof.
  pose proof (cancel_keeps_rows no_safe_natural [] stream_inputs 0 x_cancel) as H. cbv beta zeta iota in H |- *.
  assert ((0 <? v_rowCount (h_state (hook_run no_safe_natural [] stream_inputs)))%Z = true) as E by (by vm_compute).
  rewrite E in H. destruct H as ([H1 H2] & _ & _ & H3); [by vm_compute..|].
  split; [by vm_compute|]. split; [exact H1|]. split; [exact H2|].
  apply (H3 (mkStreamRun 1 true true false true)); by vm_compute.
Defined.

Lemma settled_witness :
  let xs := take 5 stream_inputs in let h := hook_run no_safe_natural [] xs in
  h_commits h !! 1 = Some (0, cm_pending) /\ h_commits (hook_step no_safe_natural h x_render) !! 1 = Some (0, cm_done).
Proof.
  split; [reflexivity|]. apply (commits_are_settled no_safe_natural [] (take 5 stream_inputs) 1 0); reflexivity.
Defined.

(** Two calls of [start] that overlap: the first run is never shown nor stopped, and its call
    waits for ever. The SQL workbench calls [start] only while nothing runs. *)
Example overlapping_starts :
  let h := hook_run no_safe_natural [] [x_start; x_start; x_resume 0 a_turn; x_resume 1 a_turn; x_render; x_cancel; x_render] in
  (h_tasks h !! 0, h_commits h, h_active h)
  = (Some (s_connecting 0 0), [(0, cm_pending); (1, cm_done)], None).
Proof. reflexivity. Qed.
