(* ===== verification/D1Batch.v ===== *)
(** * Batches on the workspace database

    The stores of the control plane write through [workspace-cloud/lib/d1/atomic.ts]: a
    scope query takes a snapshot of the rows a command is allowed to touch, and every
    statement of the same transaction selects from that snapshot. This file models the
    batch, a statement being a function on the tables that fails when a constraint is
    violated, and the pieces its callers share: canonical JSON
    ([workspace-versioning.ts]), the comparison of JSON columns ([d1/json.ts]) and the
    identity of audit events ([workspace-audit-id.ts]). SHA-256 and [localeCompare] are
    parameters. A JSON column is modelled as the value its text denotes. *)

From S2P Require Import Prelude JsString JsMap JsValue JsSort Regex NeonBranches.
From Stdlib Require String.
Import Stdlib.Strings.String.StringSyntax.
Local Open Scope Z_scope.

(** ** Errors *)

(** An [Error] with its message, a [ProviderRequestError] of the provider "neon", or the
    failure of a batch in the database. *)
Inductive op_error :=
| OpError (message : jsstr)
| ProviderError (message : jsstr) (status : Z)
| StorageError.
Notation outcome := (res op_error).
Definition fail {A} (message : jsstr) : outcome A := Throw (OpError message).
(** [if (condition) throw new Error(message)] *)
Definition throw_if (b : bool) (message : jsstr) : outcome unit := if b then fail message else Ok tt.

(** ** Canonical JSON *)

Section canonical.
Context (localeCompare : jsstr -> jsstr -> Z) (sha256hex : jsstr -> jsstr).

Definition entry_order (left right : jsstr * value) : Z := localeCompare (fst left) (fst right).

(** [Object.fromEntries(Object.entries(value).sort(...).map(...))] *)
Fixpoint canonicalize (v : value) : value :=
  match v with
  | VArr items => VArr (map canonicalize items)
  | VObj fields => VObj (sort_by entry_order (map (fun e => (fst e, canonicalize (snd e))) fields))
  | _ => v
  end.

(** The stored JSON values hold neither [undefined] nor a BigInt at the top, so
    [JSON.stringify] returns a text. *)
Definition canonicalJson (v : value) : jsstr :=
  match stringify (canonicalize v) with Ok (Some text) => text | _ => [] end.

Definition canonicalHash (v : value) : jsstr := sha256hex (canonicalJson v).

End canonical.

(** ** JSON columns *)

(** One step of [column -> 'key']: NULL when the value is no object or has no such key. *)
Definition json_get (v : option value) (k : jsstr) : option value :=
  match v with Some (VObj r) => mget r k | _ => None end.

(** The SQL value of [->>]: a JSON null is NULL, a container is its text. *)
Definition json_text (v : option value) : option jsstr :=
  match v with
  | Some (VStr s) => Some s
  | Some (VNum t) => Some t
  | Some (VBool true) => Some (js "1")
  | Some (VBool false) => Some (js "0")
  | Some (VArr l) => match stringify (VArr l) with Ok t => t | _ => None end
  | Some (VObj r) => match stringify (VObj r) with Ok t => t | _ => None end
  | _ => None
  end.

(** [left = right] of two nullable SQL values *)
Definition sql_same (left right : option jsstr) : bool :=
  match left, right with Some l, Some r => l ==s r | _, _ => false end.
(** [left = right] against a value that is not NULL *)
Definition sql_is (left : option jsstr) (right : jsstr) : bool := sql_same left (Some right).
(** [left IS right] *)
Definition sql_is_same (left right : option jsstr) : bool := bool_decide (left = right).
(** [column IS NULL OR value IS NULL OR column = value] *)
Definition sql_unset_or_same (column value : option jsstr) : bool :=
  bool_decide (column = None) || bool_decide (value = None) || sql_same column value.

(** A row of [json_tree]: the full key, the kind and the atom of a scalar. *)
Inductive json_step := in_field (k : jsstr) | at_index (i : nat).
Inductive json_kind := k_null | k_true | k_false | k_number | k_text | k_array | k_object.
#[export] Instance json_step_eq_dec : EqDecision json_step.
Proof. solve_decision. Defined.
#[export] Instance json_kind_eq_dec : EqDecision json_kind.
Proof. solve_decision. Defined.
Notation json_node := (list json_step * json_kind * option jsstr)%type.

Fixpoint json_tree (path : list json_step) (v : value) : list json_node :=
  match v with
  | VNull | VUndefined => [(path, k_null, None)]
  | VBool true => [(path, k_true, Some (js "1"))]
  | VBool false => [(path, k_false, Some (js "0"))]
  | VNum t => [(path, k_number, Some t)]
  | VBigInt n => [(path, k_number, Some (show_Z n))]
  | VStr s => [(path, k_text, Some s)]
  | VArr items =>
    (path, k_array, None)
    :: (fix go (i : nat) (l : list value) : list json_node :=
          match l with [] => [] | v :: l => json_tree (path ++ [at_index i]) v ++ go (S i) l end) 0%nat items
  | VObj fields =>
    (path, k_object, None)
    :: (fix go (l : list (jsstr * value)) : list json_node :=
          match l with [] => [] | (k, v) :: l => json_tree (path ++ [in_field k]) v ++ go l end) fields
  end.

(** [NOT EXISTS (left EXCEPT right)] *)
Definition no_except (left right : list json_node) : bool :=
  forallb (fun n => bool_decide (n ∈ right)) left.
Definition jsonEqual (left right : option value) : bool :=
  match left, right with
  | Some l, Some r =>
    no_except (json_tree [] l) (json_tree [] r) && no_except (json_tree [] r) (json_tree [] l)
  | _, _ => false
  end.

Lemma no_except_refl l : no_except l l = true.
Proof. apply forallb_elem. intros a Ha. by apply bool_decide_eq_true. Qed.

Lemma jsonEqual_refl v : jsonEqual (Some v) (Some v) = true.
Proof. cbn. by rewrite no_except_refl. Qed.

(** ** Audit events *)

Record audit_row := mkAudit {
  a_id : jsstr; a_organization : jsstr; a_actor : jsstr; a_action : jsstr;
  a_resourceType : jsstr; a_resource : jsstr; a_summary : value; a_request : jsstr }.

(** [/^[a-z][a-z0-9.:-]{0,127}$/] *)
Definition namespace_re : re :=
  RSeqs [RBol; RCls is_lower;
    RUpTo 127 (RCls (fun c => is_lower c || is_digit c || (c =? cDOT)%N || (c =? cCOLON)%N || (c =? cDASH)%N));
    REol].

(** The two lower-case hexadecimal digits of a byte. *)
Definition hex_digit (n : Z) : N := let n := Z.to_N n in if (n <? 10)%N then (48 + n)%N else (87 + n)%N.
Definition hex_byte (b : Z) : jsstr := [hex_digit (Z.shiftr b 4); hex_digit (Z.land b 15)].
Definition hex (bytes : list Z) : jsstr := concat (map hex_byte bytes).

(** [bytes\[i\] = f(bytes\[i\])] *)
Definition on_byte (i : nat) (f : Z -> Z) (bytes : list Z) : list Z := alter f i bytes.

Section audit.
(** [createHash("sha256").update(text, "utf8").digest()] *)
Context (sha256 : jsstr -> list Z).

Definition audit_hex (namespace idempotencyKey : jsstr) : jsstr :=
  let bytes := take 16 (sha256 (js "dopedb:" ++ namespace ++ [cCOLON] ++ idempotencyKey)) in
  let bytes := on_byte 6 (fun b => Z.lor (Z.land b 15) 80) bytes in
  let bytes := on_byte 8 (fun b => Z.lor (Z.land b 63) 128) bytes in
  hex bytes.

Definition workspaceAuditEventId (namespace idempotencyKey : jsstr) : outcome jsstr :=
  _ ← throw_if (negb (test namespace_re namespace) || negb (uuid idempotencyKey))
      (js "Invalid workspace audit identity");
  let h := audit_hex namespace idempotencyKey in
  Ok (join [cDASH] [slice h 0 8; slice h 8 12; slice h 12 16; slice h 16 20; drop 20 h]).

End audit.

Definition same_audit (existing excluded : audit_row) : bool :=
  (a_organization existing ==s a_organization excluded) && (a_actor existing ==s a_actor excluded)
  && (a_action existing ==s a_action excluded) && (a_resourceType existing ==s a_resourceType excluded)
  && (a_resource existing ==s a_resource excluded)
  && jsonEqual (Some (a_summary existing)) (Some (a_summary excluded))
  && (a_request existing ==s a_request excluded).

(** [INSERT INTO workspace_audit_event ...]: the primary key is violated by a second row. *)
Definition insert_audit (a : audit_row) (t : list audit_row) : option (list audit_row) :=
  if existsb (fun e => a_id e ==s a_id a) t then None else Some (t ++ [a]).

(** [... ON CONFLICT ("id") DO UPDATE SET "id" = CASE WHEN same THEN "id" ELSE NULL END]: an
    equal row stays, a different one makes the update violate NOT NULL. *)
Definition upsert_audit (a : audit_row) (t : list audit_row) : option (list audit_row) :=
  match findb (fun e => a_id e ==s a_id a) t with
  | Some e => if same_audit e a then Some t else None
  | None => Some (t ++ [a])
  end.

(** ** Batches *)

Section batch.
Context {D : Type}.

(** A statement, or a sequence of them, on the tables [D]. *)
Definition stmt (A : Type) : Type := D -> option (A * D).
Definition stmt_ret {A} (a : A) : stmt A := fun d => Some (a, d).
Definition stmt_bind {A B} (m : stmt A) (f : A -> stmt B) : stmt B :=
  fun d => match m d with Some (a, d') => f a d' | None => None end.

(** [scope] selects the payloads of the scope row: two rows violate its primary key, none
    leaves the relation empty. A violated constraint anywhere rolls everything back. *)
Definition atomicD1 {P A} (scope : D -> list P) (statements : option P -> stmt A) (d : D)
    : outcome A * D :=
  match scope d with
  | _ :: _ :: _ => (Throw StorageError, d)
  | rows => match statements (head rows) d with
            | Some (a, d') => (Ok a, d')
            | None => (Throw StorageError, d)
            end
  end.

(** A command that throws, or whose batch fails, leaves the tables alone. *)
Lemma atomicD1_throw {P A} (scope : D -> list P) (statements : option P -> stmt A) d e :
  fst (atomicD1 scope statements d) = Throw e -> snd (atomicD1 scope statements d) = d.
Proof. unfold atomicD1. case_all. Qed.

(** What a batch that committed did. *)
Lemma atomicD1_ok {P A} (scope : D -> list P) (statements : option P -> stmt A) d a d' :
  atomicD1 scope statements d = (Ok a, d') ->
  (scope d = [] /\ statements None d = Some (a, d'))
  \/ (exists p, scope d = [p] /\ statements (Some p) d = Some (a, d')).
Proof.
  unfold atomicD1. destruct (scope d) as [|p [|q rows]]; cbn; [| |done].
  - destruct (statements None d) as [[? ?]|] eqn:E; [|done]. intros [= -> ->]. by left.
  - destruct (statements (Some p) d) as [[? ?]|] eqn:E; [|done]. intros [= -> ->]. right. by exists p.
Qed.

End batch.
Arguments stmt D A : clear implicits.

Notation "x <~ m ; k" := (stmt_bind m (fun x => k)) (at level 100, m at next level, right associativity).

(** ** Identities are UUIDs of version 5 *)

Definition is_byte (b : Z) : Prop := 0 <= b < 256.

(** A fact about every byte, by trying them. *)
Lemma every_byte (p : Z -> bool) : forallb p (seqZ 0 256) = true -> forall b, is_byte b -> p b = true.
Proof. intros H b Hb. rewrite forallb_elem in H. apply H, elem_of_seqZ. unfold is_byte in Hb. lia. Qed.

Lemma byte_digits b : is_byte b -> is_hex (hex_digit (Z.shiftr b 4)) && is_hex (hex_digit (Z.land b 15)) = true.
Proof. revert b. apply (every_byte (fun b => is_hex (hex_digit (Z.shiftr b 4)) && is_hex (hex_digit (Z.land b 15)))). by vm_compute. Qed.

Lemma version_digit b : is_byte b ->
  (let v := Z.lor (Z.land b 15) 80 in (hex_digit (Z.shiftr v 4) =? 53)%N && is_hex (hex_digit (Z.land v 15))) = true.
Proof.
  revert b. apply (every_byte (fun b => let v := Z.lor (Z.land b 15) 80 in
    (hex_digit (Z.shiftr v 4) =? 53)%N && is_hex (hex_digit (Z.land v 15)))). by vm_compute.
Qed.

Lemma variant_digit b : is_byte b ->
  (let v := Z.lor (Z.land b 63) 128 in let c := hex_digit (Z.shiftr v 4) in
   (between 56 57 c || between 97 98 (lower_ascii c)) && is_hex (hex_digit (Z.land v 15))) = true.
Proof.
  revert b. apply (every_byte (fun b => let v := Z.lor (Z.land b 63) 128 in let c := hex_digit (Z.shiftr v 4) in
    (between 56 57 c || between 97 98 (lower_ascii c)) && is_hex (hex_digit (Z.land v 15)))). by vm_compute.
Qed.

(** Given a digest of bytes, at least sixteen of them, as SHA-256 has. *)
Lemma audit_ids_are_uuids (sha256 : jsstr -> list Z) namespace key id :
  (forall t, (16 <= length (sha256 t))%nat /\ Forall is_byte (sha256 t)) ->
  workspaceAuditEventId sha256 namespace key = Ok id -> uuid id = true /\ id !! 14%nat = Some 53%N.
Proof.
  intros Hsha H. unfold workspaceAuditEventId in H. apply res_bind_ok in H as (_ & _ & [= <-]). unfold audit_hex.
  destruct (Hsha (js "dopedb:" ++ namespace ++ [cCOLON] ++ key)) as [Hlen Hall].
  set (l := sha256 _) in *. clearbody l. clear Hsha.
  destruct l as [|b0 [|b1 [|b2 [|b3 [|b4 [|b5 [|b6 [|b7 [|b8 [|b9 [|b10 [|b11 [|b12 [|b13 [|b14 [|b15 l]]]]]]]]]]]]]]]]; try (cbn in Hlen; lia). clear Hlen.
  repeat match goal with H : Forall _ (_ :: _) |- _ => apply Forall_cons in H as [? H] end. clear Hall.
cbn -[uuid hex_digit Z.land Z.lor Z.shiftr].
  repeat match goal with
    | H : is_byte b6 |- _ => apply version_digit in H
    | H : is_byte b8 |- _ => apply variant_digit in H
    | H : is_byte ?b |- _ => apply byte_digits in H
    end.
  cbn zeta in *. repeat match goal with H : _ && _ = true |- _ => apply andb_true_iff in H as [? ?] end. neqs.
  match goal with H : hex_digit _ = 53%N |- _ => rewrite H end. split; [|done].
  apply test_fixed. cbn -[hex_digit Z.land Z.lor Z.shiftr is_hex between lower_ascii].
  repeat (apply Forall2_cons; split; [first [done|assumption]|]). apply Forall2_nil. done.
Qed.
