(* ===== verification/OperationRecords.v ===== *)
(** * Records of provider operations

    Models [workspace-cloud/lib/provider-operation-records.ts] (its validators and the
    projection of rows) and [provider-operation-marker.ts]. A plan is the JSON value the
    planners return; [plan_value] gives the value of each of the three plans. The
    keyed hash of the ownership marker, SHA-256, [localeCompare], [JSON.parse] and the two
    date functions are parameters. *)

From S2P Require Import Prelude JsString Regex JsMap JsonText JsValue Access RevocationGate NeonBranches.
From S2P Require Import NeonDeletePlan NeonCreatePlan NeonSwitchPlan D1Batch.
From Stdlib Require String.
Import Stdlib.Strings.String.StringSyntax.
Local Open Scope Z_scope.

(** ** Data *)

Definition MAX_REDACTED_PLAN_BYTES : nat := 32 * 1024.
Definition MAX_PROVIDER_RESULTS : nat := 200.

Inductive ProviderOperationState :=
| awaiting_approval | approved | claimed | remote_started | reconciling
| succeeded | failed | needs_repair | cancelled.
#[export] Instance ProviderOperationState_eq_dec : EqDecision ProviderOperationState.
Proof. solve_decision. Defined.
Definition operationStates : list ProviderOperationState :=
  [awaiting_approval; approved; claimed; remote_started; reconciling; succeeded; failed; needs_repair; cancelled].
Definition state_name (s : ProviderOperationState) : jsstr :=
  js match s with
     | awaiting_approval => "awaiting_approval" | approved => "approved" | claimed => "claimed"
     | remote_started => "remote_started" | reconciling => "reconciling" | succeeded => "succeeded"
     | failed => "failed" | needs_repair => "needs_repair" | cancelled => "cancelled"
     end.
(** [operationStates.includes(text)] *)
Definition operation_state (text : jsstr) : option ProviderOperationState :=
  findb (fun s => state_name s ==s text) operationStates.

Inductive ProviderOperationKind := kind_create | kind_delete | kind_switch.
#[export] Instance ProviderOperationKind_eq_dec : EqDecision ProviderOperationKind.
Proof. solve_decision. Defined.
Definition providerOperationKinds : list ProviderOperationKind := [kind_create; kind_delete; kind_switch].
Definition kind_name (k : ProviderOperationKind) : jsstr :=
  js match k with
     | kind_create => "neon.branch.create" | kind_delete => "neon.branch.delete"
     | kind_switch => "neon.branch.switch"
     end.
Definition isProviderOperationKind (text : jsstr) : bool :=
  existsb (fun k => kind_name k ==s text) providerOperationKinds.

Inductive ProviderOperationDecision := decision_approved | decision_rejected.
#[export] Instance ProviderOperationDecision_eq_dec : EqDecision ProviderOperationDecision.
Proof. solve_decision. Defined.
Definition decision_name (d : ProviderOperationDecision) : jsstr :=
  js match d with decision_approved => "approved" | decision_rejected => "rejected" end.

Inductive ProviderManagedAccessState :=
| waiting_for_provider | not_requested | bootstrap_required | access_ready | access_needs_repair | unavailable.
#[export] Instance ProviderManagedAccessState_eq_dec : EqDecision ProviderManagedAccessState.
Proof. solve_decision. Defined.
Definition managedAccessStates : list ProviderManagedAccessState :=
  [waiting_for_provider; not_requested; bootstrap_required; access_ready; access_needs_repair; unavailable].
Definition access_name (s : ProviderManagedAccessState) : jsstr :=
  js match s with
     | waiting_for_provider => "waiting_for_provider" | not_requested => "not_requested"
     | bootstrap_required => "bootstrap_required" | access_ready => "ready"
     | access_needs_repair => "needs_repair" | unavailable => "unavailable"
     end.
Definition access_state (text : jsstr) : option ProviderManagedAccessState :=
  findb (fun s => access_name s ==s text) managedAccessStates.

(** [/^\[A-Z\]\[A-Z0-9_\]{0,95}$/] *)
Definition failure_re : re :=
  RSeqs [RBol; RCls is_upper; RUpTo 95 (RCls (fun c => is_upper c || is_digit c || (c =? cUS)%N)); REol].

(** ** Plans as JSON values *)

Inductive NeonBranchOperationPlan :=
| PlanCreate (p : NeonBranchCreatePlan)
| PlanDelete (p : NeonBranchDeletePlan)
| PlanSwitch (p : NeonBranchSwitchPlan).

Definition risk_name (r : PlanRisk) : jsstr :=
  js match r with standard => "standard" | production_data => "production_data" end.
Definition policy_name (p : ApprovalPolicy) : jsstr :=
  js match p with single_admin => "single_admin" | separate_admin => "separate_admin" end.
Definition environment_name (e : PlanEnvironment) : jsstr :=
  js match e with development => "development" | production_env => "production" end.
Definition branch_state_name (s : NeonBranchState) : jsstr :=
  js match s with
     | st_init => "init" | st_resetting => "resetting" | st_ready => "ready"
     | st_archived => "archived" | st_unknown => "unknown"
     end.
Definition branch_source_name (s : NeonBranchInitSource) : jsstr :=
  js match s with parent_data => "parent-data" | schema_only => "schema-only" | src_unknown => "unknown" end.
Definition init_name (s : CreateInitSource) : jsstr :=
  js match s with init_parent_data => "parent-data" | init_schema_only => "schema-only" end.
Definition endpoint_name (e : CreateEndpoint) : jsstr :=
  js match e with ep_none => "none" | ep_read_write => "read_write" end.

Definition vstr (s : jsstr) : value := VStr s.
Definition strs (l : list jsstr) : value := VArr (map VStr l).
(** The counts of a built plan are safe integers; another number has no exact value here. *)
Definition num_json (n : num) : value := match n with Some z => num_value z | None => VNull end.
Definition opt_state (s : option NeonBranchState) : value :=
  match s with Some s => VStr (branch_state_name s) | None => VNull end.
Definition actions_value (l : list NeonBranchRestrictedAction) : value :=
  VArr (map (fun a => VObj [(js "name", VStr (act_name a)); (js "reason", VStr (act_reason a))]) l).
Definition point_value (p : NeonBranchSourcePoint) : value :=
  match p with
  | pt_head => VObj [(js "kind", VStr (js "head"))]
  | pt_lsn v => VObj [(js "kind", VStr (js "lsn")); (js "value", VStr v)]
  | pt_timestamp v => VObj [(js "kind", VStr (js "timestamp")); (js "value", VStr v)]
  end.

Definition create_source_value (s : NeonBranchCreateSource) : value := VObj [
  (js "projectId", VStr (cs_projectId s)); (js "branchId", VStr (cs_branchId s));
  (js "parentId", opt_value (cs_parentId s)); (js "treeParentId", opt_value (cs_treeParentId s));
  (js "name", VStr (cs_name s)); (js "currentState", VStr (branch_state_name (cs_currentState s)));
  (js "pendingState", opt_state (cs_pendingState s)); (js "stateChangedAt", VStr (cs_stateChangedAt s));
  (js "createdAt", VStr (cs_createdAt s)); (js "updatedAt", VStr (cs_updatedAt s));
  (js "creationSource", VStr (cs_creationSource s));
  (js "initSource", VStr (branch_source_name (cs_initSource s)));
  (js "sourceLsn", opt_value (cs_sourceLsn s)); (js "sourceTimestamp", opt_value (cs_sourceTimestamp s));
  (js "default", VBool (cs_default s)); (js "protected", VBool (cs_protected s));
  (js "expiresAt", opt_value (cs_expiresAt s)); (js "environment", VStr (environment_name (cs_environment s)));
  (js "point", point_value (cs_point s)); (js "restrictedActions", actions_value (cs_restrictedActions s))].
Definition create_target_value (t : NeonBranchCreateTarget) : value := VObj [
  (js "name", VStr (ct_name t)); (js "initSource", VStr (init_name (ct_initSource t)));
  (js "endpoint", VStr (endpoint_name (ct_endpoint t))); (js "protected", VBool (ct_protected t));
  (js "expiresAt", opt_value (ct_expiresAt t)); (js "copiesData", VBool (ct_copiesData t));
  (js "createsCompute", VBool (ct_createsCompute t))].

(** The fields the three plans share. *)
Definition plan_head (version : Z) (kind operationId integrationId generation issuedAt expiresAt : jsstr)
    : list (jsstr * value) := [
  (js "version", num_value version); (js "kind", VStr kind); (js "operationId", VStr operationId);
  (js "integrationId", VStr integrationId); (js "integrationGeneration", VStr generation);
  (js "issuedAt", VStr issuedAt); (js "expiresAt", VStr expiresAt)].
Definition plan_tail (risk : PlanRisk) (policy : ApprovalPolicy) (warnings : list jsstr)
    : list (jsstr * value) := [
  (js "risk", VStr (risk_name risk)); (js "approvalPolicy", VStr (policy_name policy));
  (js "warningCodes", strs warnings)].

Definition delete_target_value (t : NeonBranchDeleteTarget) : value := VObj [
  (js "projectId", VStr (dt_projectId t)); (js "branchId", VStr (dt_branchId t));
  (js "parentId", opt_value (dt_parentId t)); (js "treeParentId", opt_value (dt_treeParentId t));
  (js "name", VStr (dt_name t)); (js "currentState", VStr (branch_state_name (dt_currentState t)));
  (js "pendingState", opt_state (dt_pendingState t)); (js "stateChangedAt", VStr (dt_stateChangedAt t));
  (js "createdAt", VStr (dt_createdAt t)); (js "updatedAt", VStr (dt_updatedAt t));
  (js "creationSource", VStr (dt_creationSource t));
  (js "initSource", VStr (branch_source_name (dt_initSource t)));
  (js "default", VBool (dt_default t)); (js "protected", VBool (dt_protected t));
  (js "expiresAt", opt_value (dt_expiresAt t)); (js "restrictedActions", actions_value (dt_restrictedActions t));
  (js "childBranchIds", strs (dt_childBranchIds t))].

Definition snapshot_fields (b : BranchSnapshot) : list (jsstr * value) := [
  (js "branchId", VStr (bs_branchId b)); (js "name", VStr (bs_name b));
  (js "currentState", VStr (branch_state_name (bs_currentState b)));
  (js "pendingState", opt_state (bs_pendingState b)); (js "stateChangedAt", VStr (bs_stateChangedAt b));
  (js "updatedAt", VStr (bs_updatedAt b)); (js "default", VBool (bs_default b));
  (js "protected", VBool (bs_protected b)); (js "restrictedActions", actions_value (bs_restrictedActions b))].
Definition switch_source_value (s : SwitchSource) : value := VObj (snapshot_fields (ss_branch s) ++ [
  (js "projectId", VStr (ss_projectId s)); (js "connectionId", VStr (ss_connectionId s));
  (js "connectionName", VStr (ss_connectionName s)); (js "providerResourceId", VStr (ss_providerResourceId s));
  (js "databaseId", VStr (ss_databaseId s)); (js "database", VStr (ss_database s));
  (js "schemas", strs (ss_schemas s)); (js "environment", VStr (environment_name (ss_environment s)));
  (js "readonlyDefault", VBool (ss_readonlyDefault s)); (js "allowWrites", VBool (ss_allowWrites s));
  (js "schemaGroup", opt_value (ss_schemaGroup s)); (js "contentRevision", num_json (ss_contentRevision s));
  (js "authorityRevision", num_json (ss_authorityRevision s));
  (js "activeLeaseCount", num_json (ss_activeLeaseCount s))]).
Definition switch_target_value (t : SwitchTarget) : value := VObj (snapshot_fields (tf_branch t) ++ [
  (js "projectId", VStr (tf_projectId t)); (js "databaseId", VStr (tf_databaseId t));
  (js "database", VStr (tf_database t)); (js "endpointId", VStr (tf_endpointId t));
  (js "databaseFingerprint", VStr (tf_databaseFingerprint t));
  (js "resourceFingerprint", VStr (tf_resourceFingerprint t));
  (js "managedAccessOperationId", opt_value (tf_managedAccessOperationId t));
  (js "environment", VStr (environment_name (tf_environment t)))]).

Definition plan_fields (plan : NeonBranchOperationPlan) : list (jsstr * value) :=
  match plan with
  | PlanCreate p =>
    plan_head (cp_version p) (cp_kind p) (cp_operationId p) (cp_integrationId p) (cp_generation p)
      (cp_issuedAt p) (cp_expiresAt p)
    ++ [(js "source", create_source_value (cp_source p)); (js "target", create_target_value (cp_target p))]
    ++ plan_tail (cp_risk p) (cp_approvalPolicy p) (cp_warningCodes p)
  | PlanDelete p =>
    plan_head (dp_version p) (dp_kind p) (dp_operationId p) (dp_integrationId p) (dp_generation p)
      (dp_issuedAt p) (dp_expiresAt p)
    ++ [(js "target", delete_target_value (dp_target p));
        (js "references", VObj [
          (js "connectionCount", num_json (connectionCount (dp_references p)));
          (js "activeLeaseCount", num_json (activeLeaseCount (dp_references p)));
          (js "endpointIds", strs (endpointIds (dp_references p)))]);
        (js "ownership", VObj [
          (js "createOperationId", VStr (dp_createOperationId p));
          (js "createPlanHash", VStr (dp_createPlanHash p))]);
        (js "deletionMode", VStr (dp_deletionMode p))]
    ++ plan_tail (dp_risk p) (dp_approvalPolicy p) (dp_warningCodes p)
  | PlanSwitch p =>
    plan_head (sp_version p) (sp_kind p) (sp_operationId p) (sp_integrationId p) (sp_generation p)
      (sp_issuedAt p) (sp_expiresAt p)
    ++ [(js "source", switch_source_value (sp_source p)); (js "target", switch_target_value (sp_target p));
        (js "impact", VObj [
          (js "activeLeaseCount", num_json (im_activeLeaseCount (sp_impact p)));
          (js "closesExistingSessions", VBool (closesExistingSessions (sp_impact p)));
          (js "createsConnectionRevision", VBool (createsConnectionRevision (sp_impact p)));
          (js "reintrospectionRequired", VBool (reintrospectionRequired (sp_impact p)))])]
    ++ plan_tail (sp_risk p) (sp_approvalPolicy p) (sp_warningCodes p)
  end.
Definition plan_value (plan : NeonBranchOperationPlan) : value := VObj (plan_fields plan).

(** [plan.kind], [plan.operationId] and the other fields every plan has. *)
Definition plan_text (plan : NeonBranchOperationPlan) (k : jsstr) : jsstr :=
  match mget (plan_fields plan) k with Some (VStr s) => s | _ => [] end.
Definition plan_kind (plan : NeonBranchOperationPlan) : ProviderOperationKind :=
  match plan with PlanCreate _ => kind_create | PlanDelete _ => kind_delete | PlanSwitch _ => kind_switch end.

(** ** Redaction *)

(** [\[\u0000-\u0008\u000b\u000c\u000e-\u001f\u007f\]] *)
Definition unsafe_char (c : N) : bool :=
  (c <=? 8)%N || (c =? 11)%N || (c =? 12)%N || between 14 31 c || (c =? 127)%N.
(** [/^\[A-Za-z\]\[A-Za-z0-9\]{0,63}$/] *)
Definition key_re : re := RSeqs [RBol; RCls is_alpha; RUpTo 63 (RCls is_alnum); REol].
Definition secret_words : list jsstr :=
  [js "token"; js "secret"; js "password"; js "credential"; js "authorization"; js "connectionuri";
   js "connectionurl"; js "host"].
Definition secret_re : re := RAny (map RLitI secret_words).

Definition invalid_plan {A} : outcome A := fail (js "Invalid provider operation plan").
Definition secret_plan {A} : outcome A := fail (js "Provider operation plan contains secret-bearing data").

(** A key the plan may have. *)
Definition safe_key (key : jsstr) : bool :=
  test key_re key && ((key ==s js "credentialFenceFingerprint") || negb (test secret_re key)).

Fixpoint safeRedactedValue (v : value) (depth : nat) : outcome unit :=
  match v with
  | VNull | VBool _ => Ok tt
  | VNum text => if text ==s js "null" then invalid_plan else Ok tt
  | VStr s => if (2048 <? length s)%nat || existsb unsafe_char s then invalid_plan else Ok tt
  | VArr items =>
    if (8 <=? depth)%nat then invalid_plan
    else if (128 <? length items)%nat then invalid_plan
    else (fix go (l : list value) : outcome unit :=
            match l with [] => Ok tt | v :: l => _ ← safeRedactedValue v (S depth); go l end) items
  | VObj fields =>
    if (8 <=? depth)%nat then invalid_plan
    else (fix go (l : list (jsstr * value)) : outcome unit :=
            match l with
            | [] => Ok tt
            | (key, child) :: l =>
              if negb (safe_key key) then secret_plan
              else _ ← safeRedactedValue child (S depth); go l
            end) fields
  | VUndefined | VBigInt _ => invalid_plan
  end.

(** ** Ownership markers *)

Record MarkerContext := mkMarkerContext {
  mc_organizationId : jsstr; mc_integrationId : jsstr; mc_integrationGeneration : Z;
  mc_operationId : jsstr; mc_planHash : jsstr }.

Definition markerPayload (c : MarkerContext) : jsstr :=
  join [cLF] [js "v1"; mc_organizationId c; mc_integrationId c; show_Z (mc_integrationGeneration c);
              mc_operationId c; mc_planHash c].

Section records.
Context (localeCompare : jsstr -> jsstr -> Z) (sha256hex : jsstr -> jsstr).
(** HMAC-SHA-256 under the derived key, in base64url. *)
Context (hmac : jsstr -> jsstr).
Context (json_parse : jsstr -> option value).
Context (toISOString : Z -> jsstr) (date_parse : jsstr -> option Z).

Definition providerOperationOwnershipMarker (c : MarkerContext) : outcome jsstr :=
  _ ← throw_if ((length (mc_organizationId c) <? 1)%nat || (512 <? length (mc_organizationId c))%nat
                || existsb control_char (mc_organizationId c) || negb (uuid (mc_integrationId c))
                || (mc_integrationGeneration c <? 1) || negb (test hash_re (mc_planHash c))
                || negb (uuid (mc_operationId c)))
      (js "Invalid provider operation marker context");
  Ok (js "v1." ++ hmac (markerPayload c)).

(** The two buffers are equal exactly when the texts are: both are ASCII. *)
Definition verifyProviderOperationOwnershipMarker (c : MarkerContext) (marker : jsstr) : outcome bool :=
  if negb (test ownership_re marker) then Ok false
  else expected ← providerOperationOwnershipMarker c; Ok (marker ==s expected).

(** ** Validation of a plan *)

Definition assertPlan (organizationId integrationId : jsstr) (integrationGeneration : Z)
    (operationId planHash ownershipMarker : jsstr) (plan : NeonBranchOperationPlan) : outcome unit :=
  _ ← safeRedactedValue (plan_value plan) 0;
  _ ← throw_if ((MAX_REDACTED_PLAN_BYTES <? utf8_length (canonicalJson localeCompare (plan_value plan)))%nat
                || negb (canonicalHash localeCompare sha256hex (plan_value plan) ==s planHash)
                || negb (plan_text plan (js "operationId") ==s operationId)
                || negb (plan_text plan (js "integrationId") ==s integrationId)
                || negb (plan_text plan (js "integrationGeneration") ==s show_Z integrationGeneration))
      (js "Invalid provider operation plan");
  verified ← verifyProviderOperationOwnershipMarker
      (mkMarkerContext organizationId integrationId integrationGeneration operationId planHash) ownershipMarker;
  throw_if (negb verified) (js "Invalid provider operation plan").

Definition planDate (text : jsstr) : option Z := date_parse text.

(** A row as the database returns it: timestamps are texts, JSON columns unknown values. *)
Record ProviderOperationPlanRow := mkPlanRow {
  row_id : jsstr; row_kind : jsstr; row_state : jsstr; row_planHash : jsstr; row_planExpiresAt : jsstr;
  row_risk : jsstr; row_approvalPolicy : jsstr; row_redactedPlan : value; row_ownershipMarker : jsstr }.

Record ProviderOperationPlanRecord := mkPlanRecord {
  pr_id : jsstr; pr_state : ProviderOperationState; pr_planHash : jsstr; pr_planExpiresAt : Z;
  pr_risk : jsstr; pr_approvalPolicy : jsstr; pr_plan : js_record; pr_ownershipMarker : jsstr;
  pr_replayed : bool }.

(** The scope a row is read for. *)
Record RowScope := mkRowScope {
  rs_organizationId : jsstr; rs_integrationId : jsstr; rs_integrationGeneration : Z; rs_operationId : jsstr }.

(** [value === "text"] *)
Definition is_string (v : value) (s : jsstr) : bool := match v with VStr t => t ==s s | _ => false end.
Definition is_number (v : value) (z : Z) : bool := match v with VNum t => t ==s show_Z z | _ => false end.

(** The parsed plan column; [None] when the text is not JSON. *)
Definition plan_column (v : value) : option value :=
  match v with VStr text => json_parse text | _ => Some v end.

(** What the plan must say about its row. *)
Definition plan_matches_row (plan : js_record) (row : ProviderOperationPlanRow) (expiresAt : Z) (s : RowScope) : bool :=
  (canonicalHash localeCompare sha256hex (VObj plan) ==s row_planHash row)
  && is_string (field plan (js "operationId")) (row_id row)
  && is_number (field plan (js "version")) 1
  && isProviderOperationKind (row_kind row)
  && is_string (field plan (js "kind")) (row_kind row)
  && is_string (field plan (js "integrationId")) (rs_integrationId s)
  && is_string (field plan (js "integrationGeneration")) (show_Z (rs_integrationGeneration s))
  && is_string (field plan (js "expiresAt")) (toISOString expiresAt)
  && is_string (field plan (js "risk")) (row_risk row)
  && is_string (field plan (js "approvalPolicy")) (row_approvalPolicy row).

Definition planRecord (row : option ProviderOperationPlanRow) (s : RowScope)
    : outcome (option ProviderOperationPlanRecord) :=
  match row with
  | None => Ok None
  | Some row =>
    match plan_column (row_redactedPlan row), planDate (row_planExpiresAt row), operation_state (row_state row) with
    | Some (VObj plan), Some expiresAt, Some st =>
      if negb (test hash_re (row_planHash row))
         || negb ((row_risk row ==s js "standard") || (row_risk row ==s js "production_data"))
         || negb ((row_approvalPolicy row ==s js "single_admin") || (row_approvalPolicy row ==s js "separate_admin"))
      then Ok None
      else
        _ ← safeRedactedValue (VObj plan) 0;
        if negb (plan_matches_row plan row expiresAt s) then Ok None
        else
          verified ← verifyProviderOperationOwnershipMarker
            (mkMarkerContext (rs_organizationId s) (rs_integrationId s) (rs_integrationGeneration s)
               (row_id row) (row_planHash row)) (row_ownershipMarker row);
          if negb verified then Ok None
          else Ok (Some (mkPlanRecord (row_id row) st (row_planHash row) expiresAt (row_risk row)
                           (row_approvalPolicy row) plan (row_ownershipMarker row)
                           (negb (row_id row ==s rs_operationId s))))
    | _, _, _ => Ok None
    end
  end.

(** ** Executions *)

Record ExecutionResult := mkExecutionResult {
  er_endpointId : option jsstr; er_databaseCount : option Z; er_databaseFingerprint : option jsstr;
  er_retiredInheritedRoleCount : option Z; er_credentialFenceFingerprint : option jsstr;
  er_managedAccessState : option ProviderManagedAccessState }.

(** [value === undefined || value === null ? null : value] *)
Definition nullable (v : value) : option value :=
  match v with VUndefined | VNull => None | _ => Some v end.
(** A nullable property that must pass a test; [None] when it does not. *)
Definition checked {A} (read : value -> option A) (v : value) : option (option A) :=
  match nullable v with None => Some None | Some v => Some <$> read v end.

Definition text_of (r : re) (v : value) : option jsstr :=
  match v with VStr s => if test r s then Some s else None | _ => None end.
(** An integer from 0 to 200, by the text JSON gives it. *)
Definition small_count (v : value) : option Z :=
  match v with VNum t => findb (fun z => show_Z z ==s t) (seqZ 0 201) | _ => None end.
Definition access_of (v : value) : option ProviderManagedAccessState :=
  match v with VStr s => access_state s | _ => None end.
(** [(a === null) === (b === null)] *)
Definition both_or_neither {A B} (a : option A) (b : option B) : bool :=
  Bool.eqb (bool_decide (a = None)) (bool_decide (b = None)).

Definition read_result (result : js_record) : option ExecutionResult :=
  endpoint ← checked (text_of segment_re) (field result (js "endpointId"));
  count ← checked small_count (field result (js "databaseCount"));
  fingerprint ← checked (text_of hash_re) (field result (js "databaseFingerprint"));
  retired ← checked small_count (field result (js "retiredInheritedRoleCount"));
  fence ← checked (text_of hash_re) (field result (js "credentialFenceFingerprint"));
  access ← checked access_of (field result (js "managedAccessState"));
  if Bool.eqb (bool_decide (count = None)) (bool_decide (fingerprint = None))
     && Bool.eqb (bool_decide (retired = None)) (bool_decide (fence = None))
  then Some (mkExecutionResult endpoint count fingerprint retired fence access) else None.

Definition executionResultProjection (v : value) : option ExecutionResult :=
  match plan_column v with
  | Some VNull => Some (mkExecutionResult None None None None None None)
  | Some (VObj result) => read_result result
  | _ => None
  end.

Record ProviderOperationExecutionRow := mkExecutionRow {
  er_plan : ProviderOperationPlanRow; row_claimId : option jsstr; row_remoteStartedAt : option jsstr;
  row_providerOperationId : option jsstr; row_providerResourceId : option jsstr;
  row_reconcileAfter : option jsstr; row_redactedResult : value; row_failureCode : option jsstr }.

Record ProviderOperationExecutionRecord := mkExecutionRecord {
  xr_plan : ProviderOperationPlanRecord; xr_claimId : option jsstr; xr_remoteStartedAt : option Z;
  xr_providerOperationId : option jsstr; xr_providerResourceId : option jsstr;
  xr_reconcileAfter : option Z; xr_result : ExecutionResult; xr_failureCode : option jsstr }.

Definition optionalDate (text : option jsstr) : outcome (option Z) :=
  match text with
  | None => Ok None
  | Some text => match planDate text with
                 | Some t => Ok (Some t)
                 | None => fail (js "Invalid provider operation execution state")
                 end
  end.

(** [value === null || test(value)] *)
Definition null_or (p : jsstr -> bool) (o : option jsstr) : bool :=
  match o with None => true | Some s => p s end.

Definition executionRecord (row : option ProviderOperationExecutionRow) (s : RowScope)
    : outcome (option ProviderOperationExecutionRecord) :=
  plan ← planRecord (er_plan <$> row) s;
  match row, plan, (r ← row; executionResultProjection (row_redactedResult r)) with
  | Some row, Some plan, Some result =>
    if null_or uuid (row_claimId row) && null_or uuid (row_providerOperationId row)
       && null_or (test segment_re) (row_providerResourceId row)
       && null_or (test failure_re) (row_failureCode row)
    then
      started ← optionalDate (row_remoteStartedAt row);
      reconcile ← optionalDate (row_reconcileAfter row);
      Ok (Some (mkExecutionRecord plan (row_claimId row) started (row_providerOperationId row)
                  (row_providerResourceId row) reconcile result (row_failureCode row)))
    else Ok None
  | _, _, _ => Ok None
  end.

End records.

(** ** Tables of provider operations and their authority

    The rows of [workspace-cloud/lib/d1/schema/operations.ts] and of the tables the store
    joins with them, and the predicates that every durable provider mutation evaluates in
    the same transaction: [provider-integrations/authority.ts] (the live session, member
    and integration of the caller) and [provider-operation-authority.ts] (in addition the
    live requester and approver of the operation). Sessions, members, integrations,
    workspaces, grants and leases are the rows of the revocation component. *)

(** *** Rows *)

Record operation_row := mkOperation {
  o_id : jsstr; o_organization : jsstr; o_integration : jsstr; o_provider : jsstr; o_generation : Z;
  o_kind : jsstr; o_state : ProviderOperationState; o_idempotencyKey : jsstr; o_requestHash : jsstr;
  o_planHash : jsstr; o_planExpiresAt : Z; o_risk : jsstr; o_approvalPolicy : jsstr;
  o_requesterMember : jsstr; o_requesterUser : jsstr; o_requesterSession : jsstr; o_requesterRole : jsstr;
  o_resourceScope : jsstr; o_sourceResource : jsstr; o_targetName : jsstr; o_ownershipMarker : jsstr;
  o_redactedPlan : value; o_providerOperation : option jsstr; o_providerResource : option jsstr;
  o_redactedResult : option value; o_failureCode : option jsstr; o_claimId : option jsstr;
  o_claimedAt : option Z; o_remoteStartedAt : option Z; o_reconcileAfter : option Z;
  o_completedAt : option Z; o_createdAt : Z; o_updatedAt : Z }.

Record approval_row := mkApproval {
  ap_id : jsstr; ap_organization : jsstr; ap_operation : jsstr; ap_planHash : jsstr;
  ap_decision : ProviderOperationDecision; ap_member : jsstr; ap_user : jsstr; ap_session : jsstr;
  ap_role : jsstr; ap_createdAt : Z }.

(** A connection with the columns a branch switch reads and writes. *)
Record pconnection_row := mkPConnection {
  pc : connection_row; pc_name : jsstr; pc_contentRevision : Z; pc_target : option value;
  pc_readonlyDefault : bool; pc_schemaGroup : option jsstr; pc_environment : option jsstr;
  pc_host : jsstr; pc_port : Z; pc_database : jsstr; pc_sslmode : jsstr }.

Record presource_row := mkPResource {
  ps_id : jsstr; ps_organization : jsstr; ps_provider : jsstr; ps_fingerprint : jsstr;
  ps_resource : value; ps_metadata : value; ps_capabilities : value }.

Record version_row := mkVersion {
  v_id : jsstr; v_organization : jsstr; v_resourceType : jsstr; v_resource : jsstr; v_revision : Z;
  v_base : option Z; v_parent : option jsstr; v_branch : jsstr; v_operation : jsstr; v_payload : value;
  v_hash : jsstr; v_user : jsstr }.

(** The tables these commands only read. *)
Record identity_tables := mkIdentity {
  t_sessions : list session_row; t_members : list member_row; t_integrations : list integration_row;
  t_profiles : list profile_row; t_grants : list grant_row; t_leases : list lease_row }.

Record store := mkStore {
  identity : identity_tables; st_connections : list pconnection_row; st_resources : list presource_row;
  st_versions : list version_row; st_operations : list operation_row; st_approvals : list approval_row;
  st_audits : list audit_row }.

Definition set_operations (d : store) (t : list operation_row) : store :=
  mkStore (identity d) (st_connections d) (st_resources d) (st_versions d) t (st_approvals d) (st_audits d).
Definition set_approvals (d : store) (t : list approval_row) : store :=
  mkStore (identity d) (st_connections d) (st_resources d) (st_versions d) (st_operations d) t (st_audits d).
Definition set_audits (d : store) (t : list audit_row) : store :=
  mkStore (identity d) (st_connections d) (st_resources d) (st_versions d) (st_operations d) (st_approvals d) t.
Definition set_switched (d : store) (c : list pconnection_row) (r : list presource_row) (v : list version_row) : store :=
  mkStore (identity d) c r v (st_operations d) (st_approvals d) (st_audits d).

(** *** CHECK constraints *)

(** [length] of SQLite counts code points. *)
Definition sql_length (s : jsstr) : nat := length (filterb (fun c => negb (low_surrogate c)) s).
Definition sized_text (lo hi : nat) (s : jsstr) : bool := (lo <=? sql_length s)%nat && (sql_length s <=? hi)%nat.
(** The pattern of a UUID column, which has lower-case digits. *)
Definition lower_hex (c : N) : bool := is_digit c || between 97 102 c.
Definition lower_uuid_re : re := fixed (
  replicate 8 lower_hex ++ chars (js "-") ++ replicate 4 lower_hex ++ chars (js "-")
  ++ [between 49 56] ++ replicate 3 lower_hex ++ chars (js "-")
  ++ [fun c => between 56 57 c || between 97 98 c] ++ replicate 3 lower_hex ++ chars (js "-")
  ++ replicate 12 lower_hex).
(** [column IS NULL OR matches(column)] *)
Definition null_or_matches (r : re) (column : option jsstr) : bool := null_or (test r) column.
Definition is_set {A} (o : option A) : bool := match o with Some _ => true | None => false end.
Definition fifteen_minutes : Z := 15 * 60 * 1000.
Definition manager_roles : list jsstr := [js "admin"; js "owner"].

(** [provider_operation_claim_consistency] *)
Definition claim_consistency (o : operation_row) : bool :=
  let held := is_set (o_claimId o) && is_set (o_claimedAt o) in
  let free := negb (is_set (o_claimId o)) && negb (is_set (o_claimedAt o)) in
  match o_state o with
  | awaiting_approval | approved => free && negb (is_set (o_remoteStartedAt o)) && negb (is_set (o_completedAt o))
  | claimed => held && negb (is_set (o_remoteStartedAt o)) && negb (is_set (o_completedAt o))
  | remote_started | reconciling => held && is_set (o_remoteStartedAt o) && negb (is_set (o_completedAt o))
  | succeeded | failed | needs_repair | cancelled => is_set (o_completedAt o)
  end.

(** What the state of a row says about its other columns. *)
Definition state_checks (o : operation_row) : bool :=
  claim_consistency o && Bool.eqb (is_set (o_claimId o)) (is_set (o_claimedAt o))
  && (negb (is_set (o_failureCode o)) || bool_decide (o_state o = failed) || bool_decide (o_state o = needs_repair))
  && (negb (bool_decide (o_state o = succeeded)) || is_set (o_providerResource o)).

(** What the provider's identifiers and results look like. *)
Definition provider_checks (o : operation_row) : bool :=
  null_or_matches lower_uuid_re (o_providerOperation o) && null_or_matches segment_re (o_providerResource o)
  && null_or_matches failure_re (o_failureCode o)
  && match o_redactedResult o with None | Some (VObj _) => true | _ => false end.

(** What a plan fixes. *)
Definition plan_checks (o : operation_row) : bool :=
  (o_provider o ==s js "neon") && isProviderOperationKind (o_kind o) && (1 <=? o_generation o)
  && test hash_re (o_requestHash o) && test hash_re (o_planHash o)
  && sql_in (o_risk o) [js "standard"; js "production_data"]
  && sql_in (o_approvalPolicy o) [js "single_admin"; js "separate_admin"]
  && (negb (o_risk o ==s js "production_data") || (o_approvalPolicy o ==s js "separate_admin"))
  && sql_in (o_requesterRole o) manager_roles
  && sized_text 1 512 (o_resourceScope o) && sized_text 1 512 (o_sourceResource o) && sized_text 1 256 (o_targetName o)
  && sized_text 1 256 (o_ownershipMarker o) && sized_text 1 512 (o_requesterMember o)
  && sized_text 1 512 (o_requesterUser o) && sized_text 1 512 (o_requesterSession o)
  && test segment_re (o_resourceScope o) && test segment_re (o_sourceResource o)
  && test ownership_re (o_ownershipMarker o)
  && match o_redactedPlan o with VObj _ => true | _ => false end
  && (o_createdAt o <? o_planExpiresAt o) && (o_planExpiresAt o <=? o_createdAt o + fifteen_minutes).

Definition row_checks (o : operation_row) : bool := plan_checks o && state_checks o && provider_checks o.
Definition approval_checks (a : approval_row) : bool :=
  test hash_re (ap_planHash a) && sql_in (ap_role a) manager_roles.

(** *** Statements *)

Notation cmd := (stmt store).

(** [UPDATE workspace_provider_operation SET f WHERE p]: every written row meets the checks. *)
Definition update_operations (p : operation_row -> bool) (f : operation_row -> operation_row) : cmd unit := fun d =>
  if forallb (fun o => negb (p o) || row_checks (f o)) (st_operations d)
  then Some (tt, set_operations d (map (fun o => if p o then f o else o) (st_operations d))) else None.

(** [INSERT INTO workspace_provider_operation]: the checks, the primary key and the unique
    pair of organization and idempotency key. *)
Definition insert_operation (o : operation_row) : cmd unit := fun d =>
  if negb (row_checks o) || existsb (fun e => (o_id e ==s o_id o)
       || ((o_organization e ==s o_organization o) && (o_idempotencyKey e ==s o_idempotencyKey o))) (st_operations d)
  then None else Some (tt, set_operations d (st_operations d ++ [o])).

(** [INSERT INTO workspace_provider_operation_approval]: the checks, the primary key and the
    unique pair of organization and operation. *)
Definition insert_approval (a : approval_row) : cmd unit := fun d =>
  if negb (approval_checks a) || existsb (fun e => (ap_id e ==s ap_id a)
       || ((ap_organization e ==s ap_organization a) && (ap_operation e ==s ap_operation a))) (st_approvals d)
  then None else Some (tt, set_approvals d (st_approvals d ++ [a])).

Definition audit_with (insert : audit_row -> list audit_row -> option (list audit_row)) (a : audit_row) : cmd unit :=
  fun d => match insert a (st_audits d) with Some t => Some (tt, set_audits d t) | None => None end.
Definition query {A} (f : store -> A) : cmd A := fun d => Some (f d, d).
(** A statement that selects from a relation: it runs when there is a row. *)
Definition when_row {P} (row : option P) (f : P -> cmd unit) : cmd unit :=
  match row with Some r => f r | None => stmt_ret tt end.
Definition cmd_when (b : bool) (c : cmd unit) : cmd unit := if b then c else stmt_ret tt.

(** *** The caller *)

Record MutationLease := mkMutationLease {
  ml_connectionId : jsstr; ml_connectionRevision : Z; ml_providerResourceId : jsstr;
  ml_accessMode : option jsstr }.
Record ProviderMutationAuthority := mkMutationAuthority {
  pa_organizationId : jsstr; pa_membershipId : jsstr; pa_userId : jsstr; pa_sessionId : jsstr;
  pa_role : jsstr; pa_lease : option MutationLease }.
(** [claimId] is absent, null or a claim. *)
Record IntegrationGuard := mkGuard {
  gd_id : jsstr; gd_provider : option jsstr; gd_generation : option Z; gd_claimId : option (option jsstr) }.

(** [p(x)] of an argument that is there. *)
Definition if_given {A} (o : option A) (p : A -> bool) : bool :=
  match o with Some a => p a | None => true end.

Definition integration_guard (organizationId : jsstr) (g : IntegrationGuard) (d : store) : bool :=
  existsb (fun i => (i_id i ==s gd_id g) && (i_organization i ==s organizationId)
    && if_given (gd_provider g) (fun p => i_provider i ==s p)
    && if_given (gd_generation g) (fun n => i_generation i =? n)
    && if_given (gd_claimId g) (fun c => bool_decide (revocation_claim_id (i_gate i) = c)))
    (t_integrations (identity d)).

Definition lease_guard (a : ProviderMutationAuthority) (integrationId : jsstr) (l : MutationLease) (d : store) : bool :=
  existsb (fun c =>
    (c_id (pc c) ==s ml_connectionId l) && (c_organization (pc c) ==s pa_organizationId a)
    && sql_eq (c_integration (pc c)) integrationId && sql_eq (c_resource (pc c)) (ml_providerResourceId l)
    && (c_revision (pc c) =? ml_connectionRevision l) && (c_credentialMode (pc c) ==s js "managed")
    && bool_decide (c_deletedAt (pc c) = None) && gate_open (c_gate (pc c))
    && existsb (fun g => (g_organization g ==s c_organization (pc c)) && (g_connection g ==s c_id (pc c))
         && (g_member g ==s pa_membershipId a)
         && (sql_in (g_capability g) [js "use"; js "manage"]
             || ((g_capability g ==s js "read") && (default (js "write") (ml_accessMode l) ==s js "read"))))
         (t_grants (identity d)))
    (st_connections d).

(** A live session of a member of an active workspace with one of the roles. *)
Definition live_member (a : ProviderMutationAuthority) (roles : list jsstr) (d : store) (utcNow : Z) : bool :=
  existsb (fun s => (s_id s ==s pa_sessionId a) && (s_user s ==s pa_userId a) && (utcNow <? s_expiresAt s))
    (t_sessions (identity d))
  && existsb (fun m =>
       (m_id m ==s pa_membershipId a) && (m_organization m ==s pa_organizationId a) && (m_user m ==s pa_userId a)
       && existsb (fun p => (p_organization p ==s m_organization m) && (p_lifecycleState p ==s js "active"))
            (t_profiles (identity d))
       && (m_role m ==s pa_role a) && sql_in (m_role m) roles && gate_open (m_gate m))
       (t_members (identity d)).

Definition every_role : list jsstr := [js "viewer"; js "analyst"; js "editor"; js "admin"; js "owner"].

Definition providerMutationAuthoritySql (a : ProviderMutationAuthority) (requireManager : bool)
    (integration : option IntegrationGuard) (d : store) (utcNow : Z) : bool :=
  let lease := if requireManager then None else pa_lease a in
  live_member a (if bool_decide (lease = None) then manager_roles else every_role) d utcNow
  && if_given integration (fun g => integration_guard (pa_organizationId a) g d)
  && match lease with
     | Some l => lease_guard a (match integration with Some g => gd_id g | None => [] end) l d
     | None => true
     end.

(** *** The operation *)

Record ProviderOperationExecutionIdentity := mkExecutionIdentity {
  xi_authority : ProviderMutationAuthority; xi_integrationId : jsstr; xi_integrationGeneration : Z;
  xi_operationId : jsstr; xi_kind : ProviderOperationKind; xi_planHash : jsstr; xi_ownershipMarker : jsstr }.

(** The predicate the stores use: a manager, and the exact unclaimed integration. *)
Definition managerAuthority (a : ProviderMutationAuthority) (integrationId : jsstr) (generation : Z)
    (d : store) (utcNow : Z) : bool :=
  providerMutationAuthoritySql a true
    (Some (mkGuard integrationId (Some (js "neon")) (Some generation) (Some None))) d utcNow.
Definition identityAuthority (x : ProviderOperationExecutionIdentity) (d : store) (utcNow : Z) : bool :=
  managerAuthority (xi_authority x) (xi_integrationId x) (xi_integrationGeneration x) d utcNow.

Definition live_session (d : store) (utcNow : Z) (id user : jsstr) : bool :=
  existsb (fun s => (s_id s ==s id) && (s_user s ==s user) && (utcNow <? s_expiresAt s)) (t_sessions (identity d)).
Definition managing_member (d : store) (id org user role : jsstr) : bool :=
  existsb (fun m => (m_id m ==s id) && (m_organization m ==s org) && (m_user m ==s user)
                    && (m_role m ==s role) && sql_in (m_role m) manager_roles && gate_open (m_gate m))
    (t_members (identity d)).

Definition requester_live (d : store) (utcNow : Z) (o : operation_row) : bool :=
  live_session d utcNow (o_requesterSession o) (o_requesterUser o)
  && managing_member d (o_requesterMember o) (o_organization o) (o_requesterUser o) (o_requesterRole o).

(** [approval_policy <> 'separate_admin' OR (member <> requester AND user <> requester)] *)
Definition separated (o : operation_row) (member user : jsstr) : bool :=
  negb (o_approvalPolicy o ==s js "separate_admin")
  || (negb (member ==s o_requesterMember o) && negb (user ==s o_requesterUser o)).

Definition approval_live (d : store) (utcNow : Z) (o : operation_row) (a : approval_row) : bool :=
  requester_live d utcNow o
  && live_session d utcNow (ap_session a) (ap_user a)
  && managing_member d (ap_member a) (ap_organization a) (ap_user a) (ap_role a)
  && (ap_organization a ==s o_organization o) && (ap_operation a ==s o_id o)
  && (ap_planHash a ==s o_planHash o) && bool_decide (ap_decision a = decision_approved)
  && separated o (ap_member a) (ap_user a).

(** The subquery of the approval, which the listing shares. *)
Definition approved_live (d : store) (utcNow : Z) (o : operation_row) : bool :=
  existsb (approval_live d utcNow o) (st_approvals d).

Definition currentExecutionAuthoritySql (x : ProviderOperationExecutionIdentity) (d : store) (utcNow : Z)
    (o : operation_row) : bool :=
  identityAuthority x d utcNow && approved_live d utcNow o.

(** The operation an identity names, in the WHERE of every command. *)
Definition same_scope (organizationId integrationId : jsstr) (generation : Z) (kind : ProviderOperationKind)
    (operationId : jsstr) (o : operation_row) : bool :=
  (o_id o ==s operationId) && (o_organization o ==s organizationId) && (o_integration o ==s integrationId)
  && (o_provider o ==s js "neon") && (o_kind o ==s kind_name kind) && (o_generation o =? generation).
Definition names_operation (x : ProviderOperationExecutionIdentity) (o : operation_row) : bool :=
  same_scope (pa_organizationId (xi_authority x)) (xi_integrationId x) (xi_integrationGeneration x) (xi_kind x)
    (xi_operationId x) o
  && (o_planHash o ==s xi_planHash x) && (o_ownershipMarker o ==s xi_ownershipMarker x).

(** [operation.id = candidate.id AND organization_id = ... AND state = candidate.state] *)
Definition is_candidate (c o : operation_row) : bool :=
  (o_id o ==s o_id c) && (o_organization o ==s o_organization c) && bool_decide (o_state o = o_state c).

(** The row of a candidate after the update, in the final SELECT. *)
Definition row_of (c : operation_row) (d : store) : option operation_row :=
  findb (fun o => o_id o ==s o_id c) (st_operations d).

Definition state_in (s : ProviderOperationState) (l : list ProviderOperationState) : bool := bool_decide (s ∈ l).

Section identity.
Context (hmac : jsstr -> jsstr).

Definition assertExecutionIdentity (x : ProviderOperationExecutionIdentity) : outcome unit :=
  _ ← throw_if (negb (uuid (xi_integrationId x)) || negb (uuid (xi_operationId x))
                || negb (test hash_re (xi_planHash x)) || (xi_integrationGeneration x <? 1))
      (js "Invalid provider operation execution identity");
  verified ← verifyProviderOperationOwnershipMarker hmac
      (mkMarkerContext (pa_organizationId (xi_authority x)) (xi_integrationId x) (xi_integrationGeneration x)
         (xi_operationId x) (xi_planHash x)) (xi_ownershipMarker x);
  throw_if (negb verified) (js "Invalid provider operation execution identity").

End identity.

(** *** Tests of a state *)

Lemma state_in_elem s l : state_in s l = true <-> s ∈ l.
Proof. unfold state_in. apply bool_decide_eq_true. Qed.

(** The states a test allows, one goal for each. *)
Ltac in_states H :=
  apply state_in_elem in H;
  repeat (apply elem_of_cons in H as [H|H]; [|]); [..|by apply elem_of_nil in H].
