(* ===== verification/OperationPlan.v ===== *)
(** * Planning and deciding provider operations

    Models [workspace-cloud/lib/provider-operation-plan.ts]: recording a plan under an
    idempotency key, and the one terminal decision about it. The clock of the worker
    ([now]), the clock of the database ([utcNow]) and the fresh UUIDs are arguments. *)

From S2P Require Import Prelude JsString JsMap JsValue Regex Access NeonBranches NeonCreatePlan NeonDeletePlan.
From S2P Require Import NeonSwitchPlan RevocationGate D1Batch OperationRecords.
From Stdlib Require String.
Import Stdlib.Strings.String.StringSyntax.
Local Open Scope Z_scope.

(** Runs [run] once the checks of a command have passed. *)
Definition after {A B} (checks : outcome A) (run : A -> store -> outcome B * store) (d : store) : outcome B * store :=
  match checks with Ok a => run a d | Throw e => (Throw e, d) end.
(** Reads the result of a batch that has committed. *)
Definition reading {A B} (r : outcome A * store) (read : A -> outcome B) : outcome B * store :=
  (x ← fst r; read x, snd r).

(** ** Storage of a plan *)

Record PlanStorage := mkPlanStorage {
  sg_projectId : jsstr; sg_sourceResourceId : jsstr; sg_targetName : jsstr; sg_audit : js_record }.

Definition audit_head (kind : jsstr) (risk : PlanRisk) (policy : ApprovalPolicy) : js_record := [
  (js "provider", VStr (js "neon")); (js "kind", VStr kind); (js "planHash", VStr []);
  (js "risk", VStr (risk_name risk)); (js "approvalPolicy", VStr (policy_name policy))].

Definition providerOperationPlanStorage (plan : NeonBranchOperationPlan) : PlanStorage :=
  match plan with
  | PlanCreate p =>
    mkPlanStorage (cs_projectId (cp_source p)) (cs_branchId (cp_source p)) (ct_name (cp_target p))
      (audit_head (cp_kind p) (cp_risk p) (cp_approvalPolicy p) ++ [
        (js "projectId", VStr (cs_projectId (cp_source p))); (js "sourceBranchId", VStr (cs_branchId (cp_source p)));
        (js "targetName", VStr (ct_name (cp_target p)));
        (js "initSource", VStr (init_name (ct_initSource (cp_target p))));
        (js "sourcePoint", VStr (js match cs_point (cp_source p) with
           | pt_head => "head" | pt_lsn _ => "lsn" | pt_timestamp _ => "timestamp" end));
        (js "endpoint", VStr (endpoint_name (ct_endpoint (cp_target p))));
        (js "credentialPolicy", VStr (if bool_decide (ct_endpoint (cp_target p) = ep_read_write)
           then js "retire_inherited_dopedb_roles" else js "no_endpoint"))])
  | PlanSwitch p =>
    mkPlanStorage (ss_projectId (sp_source p)) (bs_branchId (ss_branch (sp_source p)))
      (bs_name (tf_branch (sp_target p)))
      (audit_head (sp_kind p) (sp_risk p) (sp_approvalPolicy p) ++ [
        (js "projectId", VStr (ss_projectId (sp_source p))); (js "connectionId", VStr (ss_connectionId (sp_source p)));
        (js "sourceBranchId", VStr (bs_branchId (ss_branch (sp_source p))));
        (js "targetBranchId", VStr (bs_branchId (tf_branch (sp_target p))));
        (js "sourceEnvironment", VStr (environment_name (ss_environment (sp_source p))));
        (js "targetEnvironment", VStr (environment_name (tf_environment (sp_target p))));
        (js "contentRevision", num_json (ss_contentRevision (sp_source p)));
        (js "authorityRevision", num_json (ss_authorityRevision (sp_source p)));
        (js "activeLeaseCount", num_json (im_activeLeaseCount (sp_impact p)))])
  | PlanDelete p =>
    mkPlanStorage (dt_projectId (dp_target p)) (dt_branchId (dp_target p)) (dt_name (dp_target p))
      (audit_head (dp_kind p) (dp_risk p) (dp_approvalPolicy p) ++ [
        (js "projectId", VStr (dt_projectId (dp_target p))); (js "targetBranchId", VStr (dt_branchId (dp_target p)));
        (js "targetName", VStr (dt_name (dp_target p))); (js "deletionMode", VStr (dp_deletionMode p));
        (js "connectionCount", num_json (connectionCount (dp_references p)));
        (js "activeLeaseCount", num_json (activeLeaseCount (dp_references p)));
        (js "endpointCount", num_value (Z.of_nat (length (endpointIds (dp_references p)))));
        (js "createOperationId", VStr (dp_createOperationId p))])
  end.

#[export] Instance PlanRisk_eq_dec : EqDecision PlanRisk.
Proof. solve_decision. Defined.
#[export] Instance ApprovalPolicy_eq_dec : EqDecision ApprovalPolicy.
Proof. solve_decision. Defined.

Definition risk_is (r : PlanRisk) (production : bool) : bool :=
  bool_decide (r = if production then production_data else standard).
(** [approvalPolicy === (risk === "production_data" ? "separate_admin" : "single_admin")] *)
Definition policy_fits (r : PlanRisk) (p : ApprovalPolicy) : bool :=
  bool_decide (p = if bool_decide (r = production_data) then separate_admin else single_admin).
Definition same_num (a b : num) : bool :=
  match a, b with Some x, Some y => x =? y | _, _ => false end.

Definition validPlanPolicy (plan : NeonBranchOperationPlan) : bool :=
  match plan with
  | PlanCreate p =>
    risk_is (cp_risk p) (ct_copiesData (cp_target p)
                         && bool_decide (cs_environment (cp_source p) = production_env))
    && policy_fits (cp_risk p) (cp_approvalPolicy p)
  | PlanSwitch p =>
    risk_is (sp_risk p) (bool_decide (ss_environment (sp_source p) = production_env)
                         || bool_decide (tf_environment (sp_target p) = production_env))
    && policy_fits (sp_risk p) (sp_approvalPolicy p)
    && same_num (ss_activeLeaseCount (sp_source p)) (im_activeLeaseCount (sp_impact p))
    && closesExistingSessions (sp_impact p) && createsConnectionRevision (sp_impact p)
    && reintrospectionRequired (sp_impact p)
  | PlanDelete p =>
    bool_decide (dp_risk p = standard) && bool_decide (dp_approvalPolicy p = single_admin)
    && (dp_deletionMode p ==s js "provider_default_soft_delete")
    && same_num (connectionCount (dp_references p)) (Some 0)
    && same_num (activeLeaseCount (dp_references p)) (Some 0)
  end.

Definition plan_risk (plan : NeonBranchOperationPlan) : PlanRisk :=
  match plan with PlanCreate p => cp_risk p | PlanDelete p => dp_risk p | PlanSwitch p => sp_risk p end.
Definition plan_policy (plan : NeonBranchOperationPlan) : ApprovalPolicy :=
  match plan with
  | PlanCreate p => cp_approvalPolicy p | PlanDelete p => dp_approvalPolicy p | PlanSwitch p => sp_approvalPolicy p
  end.
Definition plan_expiry (plan : NeonBranchOperationPlan) : jsstr :=
  match plan with PlanCreate p => cp_expiresAt p | PlanDelete p => dp_expiresAt p | PlanSwitch p => sp_expiresAt p end.

Section plan.
Context (localeCompare : jsstr -> jsstr -> Z) (sha256hex : jsstr -> jsstr) (sha256 : jsstr -> list Z).
Context (hmac : jsstr -> jsstr) (json_parse : jsstr -> option value).
Context (toISOString : Z -> jsstr) (date_parse : jsstr -> option Z).

(** The columns every reader selects. *)
Definition plan_row (o : operation_row) : ProviderOperationPlanRow :=
  mkPlanRow (o_id o) (o_kind o) (state_name (o_state o)) (o_planHash o) (toISOString (o_planExpiresAt o))
    (o_risk o) (o_approvalPolicy o) (o_redactedPlan o) (o_ownershipMarker o).
Definition read_plan (o : option operation_row) (s : RowScope) : outcome (option ProviderOperationPlanRecord) :=
  planRecord localeCompare sha256hex hmac json_parse toISOString date_parse (plan_row <$> o) s.

(** ** [recordProviderOperationPlan] *)

Record RecordInput := mkRecordInput {
  rc_authority : ProviderMutationAuthority; rc_integrationId : jsstr; rc_integrationGeneration : Z;
  rc_operationId : jsstr; rc_idempotencyKey : jsstr; rc_requestHash : jsstr; rc_planHash : jsstr;
  rc_ownershipMarker : jsstr; rc_plan : NeonBranchOperationPlan; rc_now : num }.

(** The checks before the batch: the expiry of the plan and the identity of its audit. *)
Definition record_checks (x : RecordInput) : outcome (Z * Z * jsstr) :=
  _ ← assertPlan localeCompare sha256hex hmac (pa_organizationId (rc_authority x)) (rc_integrationId x)
        (rc_integrationGeneration x) (rc_operationId x) (rc_planHash x) (rc_ownershipMarker x) (rc_plan x);
  _ ← throw_if (negb (test hash_re (rc_requestHash x)) || negb (validPlanPolicy (rc_plan x)))
        (js "Invalid provider operation plan");
  match rc_now x with
  | None => fail (js "Invalid time value")
  | Some now =>
    let expires := now + ten_minutes in
    _ ← throw_if (MAX_TIME <? Z.abs expires) (js "Invalid time value");
    _ ← throw_if (negb (plan_expiry (rc_plan x) ==s toISOString expires)) (js "Invalid provider operation plan");
    auditId ← workspaceAuditEventId sha256 (js "provider-operation:plan") (rc_idempotencyKey x);
    Ok (now, expires, auditId)
  end.

Definition same_key (x : RecordInput) (o : operation_row) : bool :=
  (o_organization o ==s pa_organizationId (rc_authority x)) && (o_idempotencyKey o ==s rc_idempotencyKey x).
Definition same_request (x : RecordInput) (o : operation_row) : bool :=
  (o_requestHash o ==s rc_requestHash x) && (o_provider o ==s js "neon")
  && (o_kind o ==s kind_name (plan_kind (rc_plan x))) && (o_integration o ==s rc_integrationId x)
  && (o_generation o =? rc_integrationGeneration x).

(** The integration is active, idle, not revoked and not being revoked. *)
Definition integration_ready (x : RecordInput) (i : integration_row) : bool :=
  (i_id i ==s rc_integrationId x) && (i_organization i ==s pa_organizationId (rc_authority x))
  && (i_provider i ==s js "neon") && (i_generation i =? rc_integrationGeneration x)
  && (i_status i ==s js "active") && (i_refreshPhase i ==s js "idle") && bool_decide (i_revokedAt i = None)
  && gate_open (i_gate i).

(** The payload: the identifier of the operation, and whether it is new. *)
Definition record_scope (x : RecordInput) (utcNow : Z) (d : store) : list (jsstr * bool) :=
  let existing := filterb (same_key x) (st_operations d) in
  let payload := match existing with [] => (rc_operationId x, true) | o :: _ => (o_id o, false) end in
  map (fun _ => payload)
    (filterb (fun i => integration_ready x i
       && managerAuthority (rc_authority x) (rc_integrationId x) (rc_integrationGeneration x) d utcNow
       && (match existing with [] => true | _ => false end || existsb (same_request x) existing))
       (t_integrations (identity d))).

Definition planned_operation (x : RecordInput) (now expires : Z) : operation_row :=
  let a := rc_authority x in
  let plan := rc_plan x in
  let sg := providerOperationPlanStorage plan in
  mkOperation (rc_operationId x) (pa_organizationId a) (rc_integrationId x) (js "neon")
    (rc_integrationGeneration x) (kind_name (plan_kind plan)) awaiting_approval (rc_idempotencyKey x)
    (rc_requestHash x) (rc_planHash x) expires (risk_name (plan_risk plan)) (policy_name (plan_policy plan))
    (pa_membershipId a) (pa_userId a) (pa_sessionId a) (pa_role a) (sg_projectId sg) (sg_sourceResourceId sg)
    (sg_targetName sg) (rc_ownershipMarker x) (canonicalize localeCompare (plan_value plan))
    None None None None None None None None None now now.

Definition planned_audit (x : RecordInput) (auditId : jsstr) : audit_row :=
  mkAudit auditId (pa_organizationId (rc_authority x)) (pa_userId (rc_authority x))
    (js "provider.operation.plan") (js "provider_operation") (rc_operationId x)
    (canonicalize localeCompare (VObj (spread (sg_audit (providerOperationPlanStorage (rc_plan x)))
                             [(js "planHash", VStr (rc_planHash x))])))
    (rc_idempotencyKey x).

Definition record_statements (x : RecordInput) (now expires : Z) (auditId : jsstr)
    (payload : option (jsstr * bool)) : cmd (option operation_row) :=
  let created := match payload with Some (_, created) => created | None => false end in
  _ <~ cmd_when created (insert_operation (planned_operation x now expires));
  _ <~ cmd_when created (audit_with insert_audit (planned_audit x auditId));
  query (fun d => match payload with
                  | Some (id, _) => findb (fun o => o_id o ==s id) (st_operations d)
                  | None => None
                  end).

Definition record_row_scope (x : RecordInput) : RowScope :=
  mkRowScope (pa_organizationId (rc_authority x)) (rc_integrationId x) (rc_integrationGeneration x) (rc_operationId x).

Definition recordProviderOperationPlan (x : RecordInput) (utcNow : Z) (d : store)
    : outcome (option ProviderOperationPlanRecord) * store :=
  after (record_checks x) (fun checked d =>
    let '(now, expires, auditId) := checked in
    reading (atomicD1 (record_scope x utcNow) (record_statements x now expires auditId) d)
      (fun row => read_plan row (record_row_scope x))) d.

(** ** [decideProviderOperation] *)

Record ProviderOperationDecisionRecord := mkDecisionRecord {
  dr_id : jsstr; dr_state : ProviderOperationState; dr_decision : ProviderOperationDecision;
  dr_approvalId : jsstr; dr_replayed : bool }.

(** An approval row is the caller's own, for this plan and this decision. *)
Definition own_approval (x : ProviderOperationExecutionIdentity) (decision : ProviderOperationDecision)
    (a : approval_row) : bool :=
  bool_decide (ap_decision a = decision)
  && (ap_member a ==s pa_membershipId (xi_authority x)) && (ap_user a ==s pa_userId (xi_authority x))
  && (ap_session a ==s pa_sessionId (xi_authority x)) && (ap_role a ==s pa_role (xi_authority x)).
Definition approval_of (o : operation_row) (a : approval_row) : bool :=
  (ap_organization a ==s o_organization o) && (ap_operation a ==s o_id o).

Definition decidable_operation (x : ProviderOperationExecutionIdentity) (decision : ProviderOperationDecision)
    (d : store) (utcNow : Z) (o : operation_row) : bool :=
  let approving := bool_decide (decision = decision_approved) in
  requester_live d utcNow o && names_operation x o
  && (bool_decide (o_state o = awaiting_approval)
      || existsb (fun a => approval_of o a && (ap_planHash a ==s o_planHash o) && own_approval x decision a)
           (st_approvals d))
  && (approving || state_in (o_state o) [awaiting_approval; cancelled])
  && (negb approving || negb (bool_decide (o_state o = awaiting_approval)) || (utcNow <? o_planExpiresAt o))
  && (negb approving || separated o (pa_membershipId (xi_authority x)) (pa_userId (xi_authority x)))
  && identityAuthority x d utcNow.

(** The payload: the operation, and whether the approval is new. *)
Definition decide_scope (x : ProviderOperationExecutionIdentity) (decision : ProviderOperationDecision)
    (utcNow : Z) (d : store) : list (jsstr * bool) :=
  map (fun o => (o_id o, negb (existsb (approval_of o) (st_approvals d))))
    (filterb (fun o => decidable_operation x decision d utcNow o
       && negb (existsb (fun a => approval_of o a
            && negb ((ap_planHash a ==s xi_planHash x) && own_approval x decision a)) (st_approvals d)))
       (st_operations d)).

Definition decision_approval (x : ProviderOperationExecutionIdentity) (decision : ProviderOperationDecision)
    (approvalId : jsstr) (now : Z) : approval_row :=
  let a := xi_authority x in
  mkApproval approvalId (pa_organizationId a) (xi_operationId x) (xi_planHash x) decision
    (pa_membershipId a) (pa_userId a) (pa_sessionId a) (pa_role a) now.

Definition decided_state (decision : ProviderOperationDecision) : ProviderOperationState :=
  match decision with decision_approved => approved | decision_rejected => cancelled end.

(** [state], [completed_at] and [updated_at] of a row; the other columns stay. *)
Definition with_state (s : ProviderOperationState) (completed : option Z) (updated : Z) (o : operation_row) : operation_row :=
  mkOperation (o_id o) (o_organization o) (o_integration o) (o_provider o) (o_generation o) (o_kind o) s
    (o_idempotencyKey o) (o_requestHash o) (o_planHash o) (o_planExpiresAt o) (o_risk o) (o_approvalPolicy o)
    (o_requesterMember o) (o_requesterUser o) (o_requesterSession o) (o_requesterRole o) (o_resourceScope o)
    (o_sourceResource o) (o_targetName o) (o_ownershipMarker o) (o_redactedPlan o) (o_providerOperation o)
    (o_providerResource o) (o_redactedResult o) (o_failureCode o) (o_claimId o) (o_claimedAt o)
    (o_remoteStartedAt o) (o_reconcileAfter o) completed (o_createdAt o) updated.

Definition decide_update (decision : ProviderOperationDecision) (now : Z) (o : operation_row) : operation_row :=
  with_state (decided_state decision)
    (if bool_decide (decision = decision_rejected) then Some now else o_completedAt o) now o.

Definition decision_audit (x : ProviderOperationExecutionIdentity) (decision : ProviderOperationDecision)
    (auditId : jsstr) (o : operation_row) : audit_row :=
  mkAudit auditId (pa_organizationId (xi_authority x)) (pa_userId (xi_authority x))
    (js "provider.operation.decision") (js "provider_operation") (xi_operationId x)
    (VObj [(js "provider", VStr (js "neon")); (js "kind", VStr (kind_name (xi_kind x)));
           (js "decision", VStr (decision_name decision)); (js "planHash", VStr (o_planHash o));
           (js "risk", VStr (o_risk o)); (js "approvalPolicy", VStr (o_approvalPolicy o))])
    (xi_operationId x).

Definition decide_statements (x : ProviderOperationExecutionIdentity) (decision : ProviderOperationDecision)
    (approvalId auditId : jsstr) (now : Z) (payload : option (jsstr * bool))
    : cmd (option (operation_row * approval_row)) :=
  let created := match payload with Some (_, created) => created | None => false end in
  let found := bool_decide (payload <> None) in
  _ <~ cmd_when created (insert_approval (decision_approval x decision approvalId now));
  _ <~ update_operations (fun o => (o_id o ==s xi_operationId x) && bool_decide (o_state o = awaiting_approval) && found)
         (decide_update decision now);
  _ <~ (fun d => when_row (if created then findb (fun o => o_id o ==s xi_operationId x) (st_operations d) else None)
         (fun o => audit_with insert_audit (decision_audit x decision auditId o)) d);
  query (fun d => if found then
           o ← findb (fun o => o_id o ==s xi_operationId x) (st_operations d);
           a ← findb (approval_of o) (st_approvals d); Some (o, a)
         else None).

Definition decide_checks (x : ProviderOperationExecutionIdentity) (now : num) : outcome (Z * jsstr) :=
  _ ← throw_if (negb (uuid (xi_integrationId x)) || negb (uuid (xi_operationId x))
                || negb (test hash_re (xi_planHash x)) || (xi_integrationGeneration x <? 1))
      (js "Invalid provider operation decision");
  match now with
  | None => fail (js "Invalid provider operation decision")
  | Some now =>
    verified ← verifyProviderOperationOwnershipMarker hmac
        (mkMarkerContext (pa_organizationId (xi_authority x)) (xi_integrationId x) (xi_integrationGeneration x)
           (xi_operationId x) (xi_planHash x)) (xi_ownershipMarker x);
    _ ← throw_if (negb verified) (js "Invalid provider operation decision");
    auditId ← workspaceAuditEventId sha256 (js "provider-operation:decision") (xi_operationId x);
    Ok (now, auditId)
  end.

Definition decision_result (x : ProviderOperationExecutionIdentity) (decision : ProviderOperationDecision)
    (approvalId : jsstr) (row : option (operation_row * approval_row)) : option ProviderOperationDecisionRecord :=
  match row with
  | Some (o, a) =>
    if (o_id o ==s xi_operationId x) && bool_decide (ap_decision a = decision) && uuid (ap_id a)
    then Some (mkDecisionRecord (o_id o) (o_state o) (ap_decision a) (ap_id a) (negb (ap_id a ==s approvalId)))
    else None
  | None => None
  end.

Definition decideProviderOperation (x : ProviderOperationExecutionIdentity) (decision : ProviderOperationDecision)
    (now : num) (approvalId : jsstr) (utcNow : Z) (d : store)
    : outcome (option ProviderOperationDecisionRecord) * store :=
  after (decide_checks x now) (fun checked d =>
    let '(now, auditId) := checked in
    reading (atomicD1 (decide_scope x decision utcNow) (decide_statements x decision approvalId auditId now) d)
      (fun row => Ok (decision_result x decision approvalId row))) d.

End plan.
