(* ===== verification/OperationExecution.v ===== *)
(** * Executing provider operations

    Models [workspace-cloud/lib/provider-operation-execution.ts]: the cancellation of an
    expired plan, the execution claim and the remote-start fence. A batch evaluates the
    clock of the database once per statement, so the fence takes two of its readings: one
    for the scope and one for the update. *)

From S2P Require Import Prelude JsString Regex JsMap JsValue RevocationGate NeonBranches NeonDeletePlan.
From S2P Require Import D1Batch OperationRecords OperationPlan.
From Stdlib Require String.
Import Stdlib.Strings.String.StringSyntax.
Local Open Scope Z_scope.

(** The summary every audit of an execution shares. *)
Definition execution_summary (x : ProviderOperationExecutionIdentity) (extra : js_record) (o : operation_row) : value :=
  VObj ([(js "provider", VStr (js "neon")); (js "kind", VStr (kind_name (xi_kind x)))]
        ++ extra ++ [(js "risk", VStr (o_risk o)); (js "approvalPolicy", VStr (o_approvalPolicy o))]).
Definition execution_audit (x : ProviderOperationExecutionIdentity) (auditId action : jsstr) (extra : js_record)
    (request : jsstr) (c o : operation_row) : audit_row :=
  mkAudit auditId (o_organization o) (pa_userId (xi_authority x)) action (js "provider_operation") (o_id o)
    (execution_summary x extra c) request.

(** The update of a candidate, the audit of the updated row, and that row. *)
Definition transition (c : option operation_row) (f : operation_row -> operation_row)
    (audit : operation_row -> operation_row -> cmd unit) : cmd (option (operation_row * operation_row)) :=
  _ <~ when_row c (fun c => update_operations (is_candidate c) f);
  _ <~ (fun d => when_row c (fun c => when_row (row_of c d) (audit c)) d);
  query (fun d => match c with Some c => (fun o => (c, o)) <$> row_of c d | None => None end).

Definition expiry_reason : value := VStr (js "plan_expired_before_remote_start").

Section execution.
Context (sha256 : jsstr -> list Z) (hmac : jsstr -> jsstr).

(** ** [cancelExpiredProviderOperationExecution] *)

Definition cancellable (x : ProviderOperationExecutionIdentity) (d : store) (utcNow : Z) (o : operation_row) : bool :=
  names_operation x o && state_in (o_state o) [approved; claimed] && bool_decide (o_remoteStartedAt o = None)
  && (o_planExpiresAt o <=? utcNow) && identityAuthority x d utcNow.

Definition cancel_update (now : Z) (o : operation_row) : operation_row :=
  mkOperation (o_id o) (o_organization o) (o_integration o) (o_provider o) (o_generation o) (o_kind o) cancelled
    (o_idempotencyKey o) (o_requestHash o) (o_planHash o) (o_planExpiresAt o) (o_risk o) (o_approvalPolicy o)
    (o_requesterMember o) (o_requesterUser o) (o_requesterSession o) (o_requesterRole o) (o_resourceScope o)
    (o_sourceResource o) (o_targetName o) (o_ownershipMarker o) (o_redactedPlan o) (o_providerOperation o)
    (o_providerResource o) (o_redactedResult o) (o_failureCode o) (o_claimId o) (o_claimedAt o)
    (o_remoteStartedAt o) None (Some now) (o_createdAt o) now.

Record ProviderOperationCancellationRecord := mkCancellation { cn_id : jsstr }.

Definition cancellation_result (x : ProviderOperationExecutionIdentity) (row : option (operation_row * operation_row))
    : option ProviderOperationCancellationRecord :=
  match row with
  | Some (_, o) =>
    if (o_id o ==s xi_operationId x) && bool_decide (o_state o = cancelled)
       && bool_decide (o_providerOperation o = None) && bool_decide (o_providerResource o = None)
       && bool_decide (o_reconcileAfter o = None) && bool_decide (o_failureCode o = None)
    then Some (mkCancellation (o_id o)) else None
  | None => None
  end.

Definition cancel_checks (x : ProviderOperationExecutionIdentity) (now : num) : outcome (Z * jsstr) :=
  _ ← assertExecutionIdentity hmac x;
  match now with
  | None => fail (js "Invalid provider operation cancellation time")
  | Some now =>
    auditId ← workspaceAuditEventId sha256 (js "provider-operation:cancel-expired") (xi_operationId x);
    Ok (now, auditId)
  end.

Definition cancelExpiredProviderOperationExecution (x : ProviderOperationExecutionIdentity) (now : num)
    (utcNow : Z) (d : store) : outcome (option ProviderOperationCancellationRecord) * store :=
  after (cancel_checks x now) (fun checked d =>
    let '(now, auditId) := checked in
    reading (atomicD1 (fun d => filterb (cancellable x d utcNow) (st_operations d))
      (fun c => transition c (cancel_update now) (fun c o =>
         audit_with upsert_audit (execution_audit x auditId (js "provider.operation.cancelled")
           [(js "reason", expiry_reason)] (xi_operationId x) c o))) d)
      (fun row => Ok (cancellation_result x row))) d.

(** ** [claimProviderOperationExecution] *)

Record ProviderOperationExecutionClaim := mkExecutionClaim {
  ec_id : jsstr; ec_state : ProviderOperationState; ec_claimId : jsstr; ec_claimedNow : bool }.

Definition can_claim (x : ProviderOperationExecutionIdentity) (d : store) (utcNow : Z) (o : operation_row) : bool :=
  names_operation x o && state_in (o_state o) [approved; claimed; remote_started; reconciling]
  && (negb (bool_decide (o_state o = approved)) || (utcNow <? o_planExpiresAt o))
  && currentExecutionAuthoritySql x d utcNow o.

Definition claim_update (claimId : jsstr) (now : Z) (o : operation_row) : operation_row :=
  if bool_decide (o_state o = approved) then
    mkOperation (o_id o) (o_organization o) (o_integration o) (o_provider o) (o_generation o) (o_kind o) claimed
      (o_idempotencyKey o) (o_requestHash o) (o_planHash o) (o_planExpiresAt o) (o_risk o) (o_approvalPolicy o)
      (o_requesterMember o) (o_requesterUser o) (o_requesterSession o) (o_requesterRole o) (o_resourceScope o)
      (o_sourceResource o) (o_targetName o) (o_ownershipMarker o) (o_redactedPlan o) (o_providerOperation o)
      (o_providerResource o) (o_redactedResult o) (o_failureCode o) (Some claimId) (Some now)
      (o_remoteStartedAt o) (o_reconcileAfter o) (o_completedAt o) (o_createdAt o) now
  else o.

Definition claim_result (x : ProviderOperationExecutionIdentity) (row : option (operation_row * operation_row))
    : option ProviderOperationExecutionClaim :=
  match row with
  | Some (c, o) =>
    match o_claimId o with
    | Some id =>
      if (o_id o ==s xi_operationId x) && state_in (o_state o) [claimed; remote_started; reconciling] && uuid id
      then Some (mkExecutionClaim (o_id o) (o_state o) id (bool_decide (o_state c = approved))) else None
    | None => None
    end
  | None => None
  end.

Definition claim_checks (x : ProviderOperationExecutionIdentity) (now : num) (claimId : jsstr) : outcome (Z * jsstr) :=
  _ ← assertExecutionIdentity hmac x;
  match now with
  | None => fail (js "Invalid provider operation claim time")
  | Some now =>
    auditId ← workspaceAuditEventId sha256 (js "provider-operation:claim") claimId;
    Ok (now, auditId)
  end.

Definition request_of (o : operation_row) : jsstr := default [] (o_claimId o).

Definition claimProviderOperationExecution (x : ProviderOperationExecutionIdentity) (now : num) (claimId : jsstr)
    (utcNow : Z) (d : store) : outcome (option ProviderOperationExecutionClaim) * store :=
  after (claim_checks x now claimId) (fun checked d =>
    let '(now, auditId) := checked in
    reading (atomicD1 (fun d => filterb (can_claim x d utcNow) (st_operations d))
      (fun c => transition c (claim_update claimId now) (fun c o =>
         cmd_when (bool_decide (o_state c = approved))
           (audit_with upsert_audit (execution_audit x auditId (js "provider.operation.claim") [] (request_of o) c o)))) d)
      (fun row => Ok (claim_result x row))) d.

(** ** [markProviderOperationRemoteStarted] *)

Record ProviderOperationRemoteStart := mkRemoteStart {
  sr_id : jsstr; sr_state : ProviderOperationState; sr_claimId : jsstr; sr_startedNow : bool }.

(** [redacted_plan->'source'->>'key'] *)
Definition plan_at (part key : jsstr) (o : operation_row) : option jsstr :=
  json_text (json_get (json_get (Some (o_redactedPlan o)) part) key).
(** [provider_resource->>'key'] *)
Definition target_at (key : jsstr) (c : pconnection_row) : option jsstr := json_text (json_get (pc_target c) key).

Definition authorized_operation (x : ProviderOperationExecutionIdentity) (claimId : jsstr) (d : store) (utcNow : Z)
    (o : operation_row) : bool :=
  names_operation x o && sql_eq (o_claimId o) claimId && state_in (o_state o) [claimed; remote_started; reconciling]
  && currentExecutionAuthoritySql x d utcNow o.

(** A managed connection of the operation's project on a branch, deleted or not. *)
Definition managed_on (branch : option jsstr) (o : operation_row) (c : pconnection_row) : bool :=
  (c_organization (pc c) ==s o_organization o) && sql_eq (c_integration (pc c)) (o_integration o)
  && (c_provider (pc c) ==s o_provider o) && (c_credentialMode (pc c) ==s js "managed")
  && sql_is (target_at (js "project") c) (o_resourceScope o) && sql_same (target_at (js "branch") c) branch.

(** Another connection that already has the target of a switch. *)
Definition occupies_target (o : operation_row) (c t : pconnection_row) : bool :=
  (c_organization (pc t) ==s c_organization (pc c)) && negb (c_id (pc t) ==s c_id (pc c))
  && (c_provider (pc t) ==s js "neon") && (c_credentialMode (pc t) ==s js "managed")
  && sql_eq (c_integration (pc t)) (o_integration o)
  && sql_is (target_at (js "project") t) (o_resourceScope o)
  && sql_same (target_at (js "branch") t) (plan_at (js "target") (js "branchId") o)
  && sql_same (target_at (js "databaseId") t) (plan_at (js "target") (js "databaseId") o)
  && bool_decide (c_deletedAt (pc t) = None).

Definition switch_connection (x : ProviderOperationExecutionIdentity) (d : store) (o : operation_row)
    (c : pconnection_row) : bool :=
  (c_organization (pc c) ==s o_organization o) && sql_is (plan_at (js "source") (js "connectionId") o) (c_id (pc c))
  && existsb (fun g => (g_organization g ==s c_organization (pc c)) && (g_connection g ==s c_id (pc c))
       && (g_member g ==s pa_membershipId (xi_authority x)) && (g_capability g ==s js "manage"))
       (t_grants (identity d))
  && (o_kind o ==s js "neon.branch.switch")
  && (c_provider (pc c) ==s js "neon") && (c_credentialMode (pc c) ==s js "managed")
  && sql_eq (c_integration (pc c)) (o_integration o)
  && sql_same (c_resource (pc c)) (plan_at (js "source") (js "providerResourceId") o)
  && sql_is (target_at (js "project") c) (o_resourceScope o)
  && sql_is (target_at (js "branch") c) (o_sourceResource o)
  && sql_same (target_at (js "databaseId") c) (plan_at (js "source") (js "databaseId") o)
  && sql_is (plan_at (js "source") (js "contentRevision") o) (show_Z (pc_contentRevision c))
  && sql_is (plan_at (js "source") (js "authorityRevision") o) (show_Z (c_revision (pc c)))
  && bool_decide (c_deletedAt (pc c) = None) && gate_open (c_gate (pc c))
  && negb (existsb (occupies_target o c) (st_connections d)).

(** An unexpired lease on a managed connection of the branch. *)
Definition leased (d : store) (utcNow : Z) (o : operation_row) : bool :=
  existsb (fun c => managed_on (Some (o_sourceResource o)) o c
    && existsb (fun l => (l_organization l ==s c_organization (pc c)) && (l_connection l ==s c_id (pc c))
         && (l_integration l ==s o_integration o) && bool_decide (l_revokedAt l = None)
         && (utcNow <? l_expiresAt l)) (t_leases (identity d)))
    (st_connections d).
Definition connected (d : store) (o : operation_row) : bool :=
  existsb (fun c => managed_on (Some (o_sourceResource o)) o c && bool_decide (c_deletedAt (pc c) = None))
    (st_connections d).

Definition startable (x : ProviderOperationExecutionIdentity) (claimId : jsstr) (d : store) (utcNow : Z)
    (o : operation_row) : bool :=
  authorized_operation x claimId d utcNow o
  && (negb (o_kind o ==s js "neon.branch.delete") || (negb (connected d o) && negb (leased d utcNow o)))
  && (negb (o_kind o ==s js "neon.branch.switch") || existsb (switch_connection x d o) (st_connections d)).

Definition start_update (now utcNow : Z) (o : operation_row) : operation_row :=
  let claimed_ := bool_decide (o_state o = claimed) in
  let expired_ := o_planExpiresAt o <=? utcNow in
  mkOperation (o_id o) (o_organization o) (o_integration o) (o_provider o) (o_generation o) (o_kind o)
    (if claimed_ && expired_ then cancelled else if claimed_ then remote_started else o_state o)
    (o_idempotencyKey o) (o_requestHash o) (o_planHash o) (o_planExpiresAt o) (o_risk o) (o_approvalPolicy o)
    (o_requesterMember o) (o_requesterUser o) (o_requesterSession o) (o_requesterRole o) (o_resourceScope o)
    (o_sourceResource o) (o_targetName o) (o_ownershipMarker o) (o_redactedPlan o) (o_providerOperation o)
    (o_providerResource o) (o_redactedResult o) (o_failureCode o) (o_claimId o) (o_claimedAt o)
    (if claimed_ && negb expired_ then Some now else o_remoteStartedAt o) (o_reconcileAfter o)
    (if claimed_ && expired_ then Some now else o_completedAt o) (o_createdAt o)
    (if claimed_ then now else o_updatedAt o).

Definition start_result (x : ProviderOperationExecutionIdentity) (claimId : jsstr)
    (row : option (operation_row * operation_row)) : option ProviderOperationRemoteStart :=
  match row with
  | Some (c, o) =>
    if (o_id o ==s xi_operationId x) && state_in (o_state o) [remote_started; reconciling; cancelled]
       && sql_eq (o_claimId o) claimId
    then Some (mkRemoteStart (o_id o) (o_state o) claimId
                 (bool_decide (o_state c = claimed) && bool_decide (o_state o = remote_started)))
    else None
  | None => None
  end.

Definition start_checks (x : ProviderOperationExecutionIdentity) (claimId : jsstr) (now : num) : outcome (Z * jsstr) :=
  _ ← assertExecutionIdentity hmac x;
  match now with
  | None => fail (js "Invalid provider operation remote-start context")
  | Some now =>
    _ ← throw_if (negb (uuid claimId)) (js "Invalid provider operation remote-start context");
    auditId ← workspaceAuditEventId sha256 (js "provider-operation:remote-start") claimId;
    Ok (now, auditId)
  end.

Definition start_audit (x : ProviderOperationExecutionIdentity) (auditId : jsstr) (c o : operation_row) : cmd unit :=
  let stopped := bool_decide (o_state o = cancelled) in
  cmd_when (bool_decide (o_state c = claimed))
    (audit_with upsert_audit (execution_audit x auditId
       (if stopped then js "provider.operation.cancelled" else js "provider.operation.remote_started")
       [(js "reason", if stopped then expiry_reason else VNull)] (request_of o) c o)).

Definition markProviderOperationRemoteStarted (x : ProviderOperationExecutionIdentity) (claimId : jsstr) (now : num)
    (utcScope utcUpdate : Z) (d : store) : outcome (option ProviderOperationRemoteStart) * store :=
  after (start_checks x claimId now) (fun checked d =>
    let '(now, auditId) := checked in
    reading (atomicD1 (fun d => filterb (startable x claimId d utcScope) (st_operations d))
      (fun c => transition c (start_update now utcUpdate) (start_audit x auditId)) d)
      (fun row => Ok (start_result x claimId row))) d.

End execution.

(** ** Reconciling provider operations

    Models [workspace-cloud/lib/provider-operation-reconciliation.ts] (what an observation
    of the provider may say, and how it is applied to the operation) and
    [provider-operation-bootstrap.ts] (the completion of the managed access of a created
    branch). *)

(** *** Observations *)

Inductive ReconciliationStatus := obs_missing | obs_pending | obs_ready | obs_conflict | obs_failed.
#[export] Instance ReconciliationStatus_eq_dec : EqDecision ReconciliationStatus.
Proof. solve_decision. Defined.
Definition status_name (s : ReconciliationStatus) : jsstr :=
  js match s with
     | obs_missing => "missing" | obs_pending => "pending" | obs_ready => "ready"
     | obs_conflict => "conflict" | obs_failed => "failed"
     end.

Record ProviderOperationReconciliationInput := mkObservation {
  ob_status : ReconciliationStatus; ob_branchId : option jsstr; ob_providerOperationId : option jsstr;
  ob_providerOperationStatus : option jsstr; ob_endpointId : option jsstr; ob_databaseCount : option num;
  ob_databaseFingerprint : option jsstr; ob_retiredInheritedRoleCount : option num;
  ob_credentialFenceFingerprint : option jsstr; ob_managedAccessState : ProviderManagedAccessState;
  ob_failureCode : option jsstr }.

Definition NEON_OPERATION_STATUSES : list jsstr :=
  [js "scheduling"; js "running"; js "finished"; js "failed"; js "error"; js "cancelling"; js "cancelled"; js "skipped"].

Definition is_null {A} (o : option A) : bool := match o with None => true | Some _ => false end.
(** An integer from 0 to 200 next to a hash, or both null. *)
Definition count_with_hash (count : option num) (hash : option jsstr) : bool :=
  match count, hash with
  | None, None => true
  | Some (Some n), Some h => (0 <=? n) && (n <=? 200) && test hash_re h
  | _, _ => false
  end.
(** [count !== null && count > 0] *)
Definition positive_count (count : option num) : bool :=
  match count with Some (Some n) => 0 <? n | _ => false end.
Definition has_status (x : ProviderOperationReconciliationInput) (s : ReconciliationStatus) : bool :=
  bool_decide (ob_status x = s).
Definition has_access (x : ProviderOperationReconciliationInput) (s : ProviderManagedAccessState) : bool :=
  bool_decide (ob_managedAccessState x = s).

(** The two fields of the credential fence are null. *)
Definition unfenced (x : ProviderOperationReconciliationInput) : bool :=
  is_null (ob_retiredInheritedRoleCount x) && is_null (ob_credentialFenceFingerprint x).
Definition fenced (x : ProviderOperationReconciliationInput) : bool :=
  negb (is_null (ob_retiredInheritedRoleCount x)) && negb (is_null (ob_credentialFenceFingerprint x)).

Definition ready_valid (x : ProviderOperationReconciliationInput) : bool :=
  negb (is_null (ob_branchId x)) && is_null (ob_failureCode x) && positive_count (ob_databaseCount x)
  && negb (is_null (ob_databaseFingerprint x))
  && ((has_access x not_requested && unfenced x) || (has_access x bootstrap_required && fenced x)).
Definition pending_valid (x : ProviderOperationReconciliationInput) : bool :=
  has_access x waiting_for_provider && is_null (ob_databaseCount x) && is_null (ob_databaseFingerprint x)
  && unfenced x.

Definition validProviderReconciliation (x : ProviderOperationReconciliationInput) : bool :=
  let st := has_status x in
  null_or (test segment_re) (ob_branchId x) && null_or (test segment_re) (ob_endpointId x)
  && null_or uuid (ob_providerOperationId x)
  && null_or (fun s => sql_in s NEON_OPERATION_STATUSES) (ob_providerOperationStatus x)
  && null_or (test failure_re) (ob_failureCode x)
  && count_with_hash (ob_databaseCount x) (ob_databaseFingerprint x)
  && count_with_hash (ob_retiredInheritedRoleCount x) (ob_credentialFenceFingerprint x)
  && (negb (st obs_missing) || is_null (ob_branchId x))
  && (negb (st obs_pending) || negb (is_null (ob_branchId x)))
  && (negb (st obs_ready) || ready_valid x)
  && (negb (st obs_missing) || has_access x waiting_for_provider)
  && (negb (st obs_pending) || pending_valid x)
  && (st obs_ready || unfenced x)
  && (negb (st obs_conflict) || has_access x access_needs_repair)
  && (negb (st obs_failed)
      || has_access x (if is_null (ob_branchId x) then unavailable else access_needs_repair))
  && (negb (st obs_conflict || st obs_failed) || negb (is_null (ob_failureCode x)))
  && (st obs_conflict || st obs_failed || is_null (ob_failureCode x)).

(** *** Applying an observation *)

Definition opt_num (n : option num) : value := match n with Some n => num_json n | None => VNull end.

Section reconcile.
Context (sha256 : jsstr -> list Z) (hmac : jsstr -> jsstr) (json_parse : jsstr -> option value).
Context (toISOString : Z -> jsstr).

Definition redacted_result (x : ProviderOperationReconciliationInput) (now : Z) : js_record := [
  (js "version", num_value 1); (js "status", VStr (status_name (ob_status x)));
  (js "branchId", opt_value (ob_branchId x)); (js "providerOperationId", opt_value (ob_providerOperationId x));
  (js "providerOperationStatus", opt_value (ob_providerOperationStatus x));
  (js "endpointId", opt_value (ob_endpointId x)); (js "databaseCount", opt_num (ob_databaseCount x));
  (js "databaseFingerprint", opt_value (ob_databaseFingerprint x));
  (js "retiredInheritedRoleCount", opt_num (ob_retiredInheritedRoleCount x));
  (js "credentialFenceFingerprint", opt_value (ob_credentialFenceFingerprint x));
  (js "managedAccessState", VStr (access_name (ob_managedAccessState x)));
  (js "failureCode", opt_value (ob_failureCode x)); (js "observedAt", VStr (toISOString now))].

(** [redacted_result->>'key'] *)
Definition result_at (key : jsstr) (o : operation_row) : option jsstr := json_text (json_get (o_redactedResult o) key).

(** [remote_started_at <= now - 2 minutes] *)
Definition long_missing (now : Z) (o : operation_row) : bool :=
  match o_remoteStartedAt o with Some t => t <=? now - 2 * 60 * 1000 | None => false end.

Definition target_state (x : ProviderOperationReconciliationInput) (now : Z) (o : operation_row) : ProviderOperationState :=
  match ob_status x with
  | obs_ready => succeeded
  | obs_conflict => needs_repair
  | obs_failed => if is_null (ob_branchId x) then failed else needs_repair
  | obs_missing => if long_missing now o then needs_repair else reconciling
  | obs_pending => reconciling
  end.
Definition target_failure (x : ProviderOperationReconciliationInput) (now : Z) (o : operation_row) : option jsstr :=
  match ob_status x with
  | obs_conflict | obs_failed => ob_failureCode x
  | obs_missing => if long_missing now o then Some (js "NEON_CREATE_RESULT_AMBIGUOUS") else None
  | _ => None
  end.

(** A success without its credential fence may be observed again to add the fence. *)
Definition refence (x : ProviderOperationReconciliationInput) (o : operation_row) : bool :=
  bool_decide (o_state o = succeeded) && sql_is (plan_at (js "target") (js "endpoint") o) (js "read_write")
  && is_null (result_at (js "credentialFenceFingerprint") o) && has_status x obs_ready
  && has_access x bootstrap_required && negb (is_null (ob_credentialFenceFingerprint x)).

Definition reconcilable (i : ProviderOperationExecutionIdentity) (claimId : jsstr)
    (x : ProviderOperationReconciliationInput) (d : store) (utcNow : Z) (o : operation_row) : bool :=
  names_operation i o && sql_eq (o_claimId o) claimId
  && (state_in (o_state o) [remote_started; reconciling] || refence x o)
  && sql_unset_or_same (o_providerOperation o) (ob_providerOperationId x)
  && sql_unset_or_same (o_providerResource o) (ob_branchId x)
  && sql_unset_or_same (result_at (js "endpointId") o) (ob_endpointId x)
  && sql_unset_or_same (result_at (js "databaseFingerprint") o) (ob_databaseFingerprint x)
  && sql_unset_or_same (result_at (js "credentialFenceFingerprint") o) (ob_credentialFenceFingerprint x)
  && identityAuthority i d utcNow.

(** [COALESCE(a, b)] *)
Definition coalesce {A} (a b : option A) : option A := match a with Some _ => a | None => b end.

Definition reconcile_update (x : ProviderOperationReconciliationInput) (now : Z) (o : operation_row) : operation_row :=
  let next := target_state x now o in
  let waits := bool_decide (next = reconciling) in
  mkOperation (o_id o) (o_organization o) (o_integration o) (o_provider o) (o_generation o) (o_kind o) next
    (o_idempotencyKey o) (o_requestHash o) (o_planHash o) (o_planExpiresAt o) (o_risk o) (o_approvalPolicy o)
    (o_requesterMember o) (o_requesterUser o) (o_requesterSession o) (o_requesterRole o) (o_resourceScope o)
    (o_sourceResource o) (o_targetName o) (o_ownershipMarker o) (o_redactedPlan o)
    (coalesce (o_providerOperation o) (ob_providerOperationId x))
    (coalesce (o_providerResource o) (ob_branchId x))
    (Some (VObj (mset (redacted_result x now) (js "endpointId")
                   (opt_value (coalesce (ob_endpointId x) (result_at (js "endpointId") o))))))
    (target_failure x now o) (o_claimId o) (o_claimedAt o) (o_remoteStartedAt o)
    (if waits then Some (now + 3000) else None) (if waits then None else Some now) (o_createdAt o) now.

Definition reconcile_extra (x : ProviderOperationReconciliationInput) : js_record := [
  (js "observation", VStr (status_name (ob_status x))); (js "branchId", opt_value (ob_branchId x));
  (js "providerOperationId", opt_value (ob_providerOperationId x))].
Definition completion_extra (o : operation_row) : js_record := [
  (js "state", VStr (state_name (o_state o))); (js "branchId", opt_value (o_providerResource o));
  (js "providerOperationId", opt_value (o_providerOperation o));
  (js "endpointId", opt_value (result_at (js "endpointId") o));
  (js "databaseCount", default VNull (json_get (o_redactedResult o) (js "databaseCount")));
  (js "databaseFingerprint", opt_value (result_at (js "databaseFingerprint") o));
  (js "retiredInheritedRoleCount", default VNull (json_get (o_redactedResult o) (js "retiredInheritedRoleCount")));
  (js "credentialFenceFingerprint", opt_value (result_at (js "credentialFenceFingerprint") o));
  (js "managedAccessState", opt_value (result_at (js "managedAccessState") o));
  (js "failureCode", opt_value (o_failureCode o))].

Definition reconcile_audits (i : ProviderOperationExecutionIdentity) (x : ProviderOperationReconciliationInput)
    (reconcileId completionId : jsstr) (c o : operation_row) : cmd unit :=
  _ <~ cmd_when (bool_decide (o_state c = remote_started))
         (audit_with upsert_audit (execution_audit i reconcileId (js "provider.operation.reconciling")
            (reconcile_extra x) (request_of o) c o));
  cmd_when (negb (bool_decide (o_state o = reconciling)))
    (audit_with upsert_audit (execution_audit i completionId (js "provider.operation." ++ state_name (o_state o))
       (completion_extra o) (request_of o) c o)).

Record ProviderOperationReconciliationRecord := mkReconciliation {
  rr_id : jsstr; rr_state : ProviderOperationState; rr_claimId : jsstr; rr_providerOperationId : option jsstr;
  rr_providerResourceId : option jsstr; rr_reconcileAfter : option Z; rr_result : ExecutionResult;
  rr_managedAccessState : ProviderManagedAccessState; rr_failureCode : option jsstr }.

(** A JSON column as the row carries it. *)
Definition json_column (v : option value) : value := default VNull v.

Definition reconcile_result (i : ProviderOperationExecutionIdentity) (claimId : jsstr)
    (row : option (operation_row * operation_row)) : option ProviderOperationReconciliationRecord :=
  match row with
  | Some (_, o) =>
    match executionResultProjection json_parse (json_column (o_redactedResult o)) with
    | Some result =>
      if (o_id o ==s xi_operationId i) && sql_eq (o_claimId o) claimId && null_or uuid (o_providerOperation o)
         && null_or (test segment_re) (o_providerResource o) && null_or (test failure_re) (o_failureCode o)
      then Some (mkReconciliation (o_id o) (o_state o) claimId (o_providerOperation o) (o_providerResource o)
                   (o_reconcileAfter o) result (default unavailable (er_managedAccessState result)) (o_failureCode o))
      else None
    | None => None
    end
  | None => None
  end.

(** [fingerprint ? "...-fenced" : "..."] *)
Definition fence_suffix (x : ProviderOperationReconciliationInput) (name : jsstr) : jsstr :=
  match ob_credentialFenceFingerprint x with
  | Some s => if non_empty s then name ++ js "-fenced" else name
  | None => name
  end.

Definition reconcile_checks (i : ProviderOperationExecutionIdentity) (claimId : jsstr)
    (x : ProviderOperationReconciliationInput) (now : num) : outcome (Z * jsstr * jsstr) :=
  _ ← assertExecutionIdentity hmac i;
  match now with
  | None => fail (js "Invalid provider operation reconciliation")
  | Some now =>
    _ ← throw_if (negb (uuid claimId) || negb (validProviderReconciliation x))
        (js "Invalid provider operation reconciliation");
    _ ← safeRedactedValue (VObj (redacted_result x now)) 0;
    reconcileId ← workspaceAuditEventId sha256 (fence_suffix x (js "provider-operation:reconcile")) claimId;
    completionId ← workspaceAuditEventId sha256 (fence_suffix x (js "provider-operation:complete")) claimId;
    Ok (now, reconcileId, completionId)
  end.

Definition applyProviderOperationReconciliation (i : ProviderOperationExecutionIdentity) (claimId : jsstr)
    (x : ProviderOperationReconciliationInput) (now : num) (utcNow : Z) (d : store)
    : outcome (option ProviderOperationReconciliationRecord) * store :=
  after (reconcile_checks i claimId x now) (fun checked d =>
    let '(now, reconcileId, completionId) := checked in
    reading (atomicD1 (fun d => filterb (reconcilable i claimId x d utcNow) (st_operations d))
      (fun c => transition c (reconcile_update x now) (reconcile_audits i x reconcileId completionId)) d)
      (fun row => Ok (reconcile_result i claimId row))) d.

(** *** [completeProviderOperationBootstrap] *)

Record BootstrapInput := mkBootstrap {
  bt_identity : ProviderOperationExecutionIdentity; bt_projectId : jsstr; bt_branchId : jsstr;
  bt_databaseFingerprint : jsstr; bt_credentialFenceFingerprint : jsstr; bt_providerAuditId : jsstr;
  bt_resourceFingerprint : jsstr; bt_planHash : jsstr }.

(** [startsWith(`${branchId}:`)], at most 512 units and no control character *)
Definition provider_audit_id (branchId id : jsstr) : bool :=
  startsWith id (branchId ++ [cCOLON]) && (length id <=? 512)%nat && negb (existsb control_char id).

Definition bootstrap_checks (b : BootstrapInput) (now : num) : outcome (Z * jsstr) :=
  _ ← assertExecutionIdentity hmac (bt_identity b);
  let bad := js "Invalid provider operation bootstrap completion" in
  _ ← throw_if (negb (bool_decide (xi_kind (bt_identity b) = kind_create)) || negb (test segment_re (bt_projectId b))
                || negb (test segment_re (bt_branchId b)) || negb (test hash_re (bt_databaseFingerprint b))
                || negb (test hash_re (bt_credentialFenceFingerprint b))
                || negb (provider_audit_id (bt_branchId b) (bt_providerAuditId b))
                || negb (test hash_re (bt_resourceFingerprint b)) || negb (test hash_re (bt_planHash b))) bad;
  match now with
  | None => fail bad
  | Some now =>
    auditId ← workspaceAuditEventId sha256 (js "provider-operation:bootstrap") (xi_operationId (bt_identity b));
    Ok (now, auditId)
  end.

Definition bootstrap_candidate (b : BootstrapInput) (d : store) (utcNow : Z) (o : operation_row) : bool :=
  names_operation (bt_identity b) o && (o_resourceScope o ==s bt_projectId b)
  && sql_eq (o_providerResource o) (bt_branchId b) && bool_decide (o_state o = succeeded)
  && sql_is (result_at (js "databaseFingerprint") o) (bt_databaseFingerprint b)
  && sql_is (result_at (js "credentialFenceFingerprint") o) (bt_credentialFenceFingerprint b)
  && (sql_is (result_at (js "managedAccessState") o) (js "bootstrap_required")
      || sql_is (result_at (js "managedAccessState") o) (js "ready"))
  && (sql_is (result_at (js "managedAccessState") o) (js "bootstrap_required")
      || (sql_is (result_at (js "bootstrapProviderAuditId") o) (bt_providerAuditId b)
          && sql_is (result_at (js "bootstrapResourceFingerprint") o) (bt_resourceFingerprint b)
          && sql_is (result_at (js "bootstrapPlanHash") o) (bt_planHash b)))
  && identityAuthority (bt_identity b) d utcNow.

Definition bootstrap_summary (b : BootstrapInput) : value := VObj [
  (js "provider", VStr (js "neon")); (js "kind", VStr (kind_name (xi_kind (bt_identity b))));
  (js "branchId", VStr (bt_branchId b)); (js "providerAuditId", VStr (bt_providerAuditId b));
  (js "resourceFingerprint", VStr (bt_resourceFingerprint b)); (js "bootstrapPlanHash", VStr (bt_planHash b));
  (js "databaseFingerprint", VStr (bt_databaseFingerprint b));
  (js "credentialFenceFingerprint", VStr (bt_credentialFenceFingerprint b));
  (js "managedAccessState", VStr (js "ready"))].

(** [json_set(redacted_result, ...)] *)
Definition json_set (v : option value) (fields : js_record) : option value :=
  match v with Some (VObj r) => Some (VObj (spread r fields)) | _ => v end.
Definition bootstrap_fields (b : BootstrapInput) (now : Z) : js_record := [
  (js "managedAccessState", VStr (js "ready")); (js "bootstrapProviderAuditId", VStr (bt_providerAuditId b));
  (js "bootstrapResourceFingerprint", VStr (bt_resourceFingerprint b));
  (js "bootstrapPlanHash", VStr (bt_planHash b)); (js "bootstrapReadyAt", VStr (toISOString now))].

Definition bootstrap_update (b : BootstrapInput) (now : Z) (o : operation_row) : operation_row :=
  mkOperation (o_id o) (o_organization o) (o_integration o) (o_provider o) (o_generation o) (o_kind o) (o_state o)
    (o_idempotencyKey o) (o_requestHash o) (o_planHash o) (o_planExpiresAt o) (o_risk o) (o_approvalPolicy o)
    (o_requesterMember o) (o_requesterUser o) (o_requesterSession o) (o_requesterRole o) (o_resourceScope o)
    (o_sourceResource o) (o_targetName o) (o_ownershipMarker o) (o_redactedPlan o) (o_providerOperation o)
    (o_providerResource o) (json_set (o_redactedResult o) (bootstrap_fields b now)) (o_failureCode o) (o_claimId o)
    (o_claimedAt o) (o_remoteStartedAt o) (o_reconcileAfter o) (o_completedAt o) (o_createdAt o) now.

Record ProviderOperationBootstrapCompletionRecord := mkBootstrapCompletion {
  bc_operationId : jsstr; bc_transitioned : bool }.

Definition bootstrap_statements (b : BootstrapInput) (auditId : jsstr) (now : Z) (c : option operation_row)
    : cmd (option (operation_row * operation_row)) :=
  let first := match c with
               | Some c => sql_is (result_at (js "managedAccessState") c) (js "bootstrap_required")
               | None => false
               end in
  _ <~ when_row (if first then c else None) (fun c => audit_with upsert_audit
         (mkAudit auditId (o_organization c) (pa_userId (xi_authority (bt_identity b)))
            (js "provider.operation.bootstrap_ready") (js "provider_operation") (o_id c) (bootstrap_summary b)
            (xi_operationId (bt_identity b))));
  _ <~ cmd_when first (update_operations (fun o => o_id o ==s xi_operationId (bt_identity b)) (bootstrap_update b now));
  query (fun d => match c with Some c => (fun o => (c, o)) <$> row_of c d | None => None end).

Definition bootstrap_result (b : BootstrapInput) (row : option (operation_row * operation_row))
    : option ProviderOperationBootstrapCompletionRecord :=
  match row with
  | Some (c, o) =>
    let previous := result_at (js "managedAccessState") c in
    if (o_id o ==s xi_operationId (bt_identity b)) && sql_is (result_at (js "managedAccessState") o) (js "ready")
       && (sql_is previous (js "bootstrap_required") || sql_is previous (js "ready"))
    then Some (mkBootstrapCompletion (o_id o) (sql_is previous (js "bootstrap_required"))) else None
  | None => None
  end.

Definition completeProviderOperationBootstrap (b : BootstrapInput) (now : num) (utcNow : Z) (d : store)
    : outcome (option ProviderOperationBootstrapCompletionRecord) * store :=
  after (bootstrap_checks b now) (fun checked d =>
    let '(now, auditId) := checked in
    reading (atomicD1 (fun d => filterb (bootstrap_candidate b d utcNow) (st_operations d))
      (bootstrap_statements b auditId now) d)
      (fun row => Ok (bootstrap_result b row))) d.

End reconcile.
