(* ===== verification/OperationSwitch.v ===== *)
(** * Committing a branch switch

    Models [workspace-cloud/lib/provider-operation-switch.ts]: one batch that discovers the
    target, moves the connection to it, records an immutable version, completes the
    operation and audits both; with the connection labels of
    [lib/knowledge/environment-kind.ts] and the fingerprint of a provider resource
    ([providers/adapter-contract.ts]). *)

From S2P Require Import Prelude JsString JsMap JsValue JsSort JsonText Regex NeonBranches NeonSwitchPlan.
From S2P Require Import RevocationGate D1Batch OperationRecords OperationPlan OperationExecution.
From Stdlib Require String.
Import Stdlib.Strings.String.StringSyntax.
Local Open Scope Z_scope.

(** ** Labels of connections *)

Definition CONNECTION_LABEL_TOKENS : list (jsstr * jsstr) :=
  [(js "production", js "prod"); (js "development", js "dev"); (js "staging", js "staging"); (js "test", js "test")].
(** [isEnvironmentKind(label) ? CONNECTION_LABEL_TOKENS\[label\] : label] *)
Definition connectionEnvironmentLabel (label : option jsstr) : option jsstr :=
  match label with
  | Some l => match mget CONNECTION_LABEL_TOKENS l with Some token => Some token | None => Some l end
  | None => None
  end.
Definition plan_label (e : PlanEnvironment) : option jsstr := connectionEnvironmentLabel (Some (environment_name e)).

(** ** Projections *)

Record ProviderImportProjection := mkProjection {
  pj_fingerprint : jsstr; pj_resource : js_record; pj_metadata : js_record; pj_discover : bool;
  pj_importReadOnly : bool; pj_managedLease : bool; pj_write : bool; pj_host : jsstr; pj_port : Z;
  pj_database : jsstr; pj_engine : jsstr; pj_sslmode : jsstr }.

Definition capabilities_value (p : ProviderImportProjection) : value := VObj [
  (js "discover", VBool (pj_discover p)); (js "importReadOnly", VBool (pj_importReadOnly p));
  (js "managedLease", VBool (pj_managedLease p)); (js "write", VBool (pj_write p))].

Section switch.
Context (localeCompare : jsstr -> jsstr -> Z) (sha256hex : jsstr -> jsstr) (sha256 : jsstr -> list Z).
Context (hmac : jsstr -> jsstr) (toISOString : Z -> jsstr).

(** The text of a projection; anything JSON cannot express throws. *)
Fixpoint canonical (v : value) : outcome jsstr :=
  match v with
  | VNull => Ok (js "null")
  | VBool true => Ok (js "true")
  | VBool false => Ok (js "false")
  | VNum t => if t ==s js "null" then fail (js "Invalid provider projection number") else Ok t
  | VStr s => Ok (json_string s)
  | VArr items =>
    texts ← (fix go (l : list value) : outcome (list jsstr) :=
      match l with [] => Ok [] | v :: l => t ← canonical v; ts ← go l; Ok (t :: ts) end) items;
    Ok (cLB :: join [cCOMMA] texts ++ [cRB])
  | VObj fields =>
    texts ← (fix go (l : list (jsstr * value)) : outcome (list (jsstr * jsstr)) :=
      match l with [] => Ok [] | (k, v) :: l => t ← canonical v; ts ← go l; Ok ((k, t) :: ts) end) fields;
    Ok (cLBRACE :: join [cCOMMA] (map (fun e => json_string (fst e) ++ cCOLON :: snd e)
          (sort_by (fun a b => localeCompare (fst a) (fst b)) texts)) ++ [cRBRACE])
  | VUndefined | VBigInt _ => fail (js "Invalid provider projection")
  end.

Definition known_providers : list jsstr := [js "neon"; js "gcpCloudSql"; js "planetScale"; js "vault"].
Definition providerResourceFingerprint (provider : jsstr) (resource : js_record) : outcome jsstr :=
  _ ← throw_if (negb (sql_in provider known_providers)) (js "Invalid provider");
  text ← canonical (VObj resource);
  Ok (sha256hex (provider ++ [cLF] ++ text)).

Record SwitchCompletionInput := mkSwitchCompletion {
  sx_identity : ProviderOperationExecutionIdentity; sx_claimId : jsstr; sx_connectionClaimId : jsstr;
  sx_plan : NeonBranchSwitchPlan; sx_projection : ProviderImportProjection; sx_now : num }.

(** The array of schemas of the resource, and that of the plan. *)
Definition same_schemas (v : value) (schemas : list jsstr) : bool :=
  match v with
  | VArr items => (length items =? length schemas)%nat
                  && forallb (fun p => is_string (fst p) (snd p)) (combine items schemas)
  | _ => false
  end.

(** The projection is the discovered target of the plan. *)
Definition projection_matches (p : ProviderImportProjection) (plan : NeonBranchSwitchPlan) (fingerprint : jsstr) : bool :=
  let target := sp_target plan in
  let resource := field (pj_resource p) in
  (pj_fingerprint p ==s tf_resourceFingerprint target) && (pj_fingerprint p ==s fingerprint)
  && is_string (resource (js "project")) (tf_projectId target)
  && is_string (resource (js "branch")) (bs_branchId (tf_branch target))
  && is_string (resource (js "databaseId")) (tf_databaseId target)
  && is_string (resource (js "database")) (tf_database target)
  && is_string (resource (js "engine")) (js "postgres")
  && same_schemas (resource (js "schemas")) (ss_schemas (sp_source plan))
  && match field (pj_metadata p) (js "production") with
     | VBool b => Bool.eqb b (bool_decide (tf_environment target = production_env)) | _ => false end
  && pj_discover p && pj_importReadOnly p && pj_managedLease p && pj_write p
  && (pj_host p ==s js "neon.managed.invalid") && (pj_port p =? 5432) && (pj_database p ==s tf_database target)
  && (pj_engine p ==s js "postgres") && (pj_sslmode p ==s js "verify-full").

(** The connection version of the switch. *)
Definition version_payload (plan : NeonBranchSwitchPlan) (p : ProviderImportProjection) : value := VObj [
  (js "name", VStr (ss_connectionName (sp_source plan))); (js "engine", VStr (js "postgres"));
  (js "provider", VStr (js "neon")); (js "driverId", VNull); (js "host", VStr (pj_host p));
  (js "port", num_value (pj_port p)); (js "database", VStr (pj_database p)); (js "sslmode", VStr (pj_sslmode p));
  (js "readonlyDefault", VBool (ss_readonlyDefault (sp_source plan)));
  (js "allowWrites", VBool (ss_allowWrites (sp_source plan)));
  (js "env", opt_value (plan_label (tf_environment (sp_target plan))));
  (js "schemaGroup", opt_value (ss_schemaGroup (sp_source plan))); (js "deleted", VBool false)].

Definition switch_result (plan : NeonBranchSwitchPlan) (now : Z) : value := VObj [
  (js "version", num_value 1); (js "status", VStr (js "ready"));
  (js "branchId", VStr (bs_branchId (tf_branch (sp_target plan)))); (js "providerOperationId", VNull);
  (js "providerOperationStatus", VNull); (js "endpointId", VStr (tf_endpointId (sp_target plan)));
  (js "databaseCount", num_value 1); (js "databaseFingerprint", VStr (tf_databaseFingerprint (sp_target plan)));
  (js "retiredInheritedRoleCount", VNull); (js "credentialFenceFingerprint", VNull);
  (js "managedAccessState", VStr (js "ready"));
  (js "resourceFingerprint", VStr (tf_resourceFingerprint (sp_target plan))); (js "failureCode", VNull);
  (js "observedAt", VStr (toISOString now))].

(** What the checks before the batch compute. *)
Record SwitchContext := mkSwitchContext {
  sq_now : Z; sq_authorityRevision : Z; sq_contentRevision : Z; sq_connectionAudit : jsstr; sq_operationAudit : jsstr }.

(** [Number.isSafeInteger(n + 1)] *)
Definition next_revision (n : num) : option Z :=
  match n with Some r => if isSafeInteger (Some (r + 1)) then Some (r + 1) else None | None => None end.

Definition switch_checks (x : SwitchCompletionInput) : outcome SwitchContext :=
  let i := sx_identity x in
  let plan := sx_plan x in
  let p := sx_projection x in
  let bad := js "Invalid Neon branch switch completion" in
  _ ← assertExecutionIdentity hmac i;
  _ ← assertPlan localeCompare sha256hex hmac (pa_organizationId (xi_authority i)) (xi_integrationId i)
        (xi_integrationGeneration i) (xi_operationId i) (xi_planHash i) (xi_ownershipMarker i) (PlanSwitch plan);
  _ ← throw_if (negb (bool_decide (xi_kind i = kind_switch)) || negb (sp_kind plan ==s js "neon.branch.switch")
                || bool_decide (sx_now x = None) || negb (uuid (sx_claimId x)) || negb (uuid (sx_connectionClaimId x))
                || match ss_authorityRevision (sp_source plan) with Some r => MAX_SAFE <=? r | None => false end) bad;
  fingerprint ← providerResourceFingerprint (js "neon") (pj_resource p);
  _ ← throw_if (negb (projection_matches p plan fingerprint)) bad;
  _ ← safeRedactedValue (VObj [(js "resource", VObj (pj_resource p)); (js "metadata", VObj (pj_metadata p));
                               (js "capabilities", capabilities_value p)]) 0;
  match sx_now x, next_revision (ss_authorityRevision (sp_source plan)), next_revision (ss_contentRevision (sp_source plan)) with
  | Some now, Some authority, Some content =>
    _ ← safeRedactedValue (switch_result plan now) 0;
    connectionAudit ← workspaceAuditEventId sha256 (js "connection:neon-branch-switch") (xi_operationId i);
    operationAudit ← workspaceAuditEventId sha256 (js "provider-operation:switch-complete") (sx_claimId x);
    Ok (mkSwitchContext now authority content connectionAudit operationAudit)
  | _, _, _ => fail (js "Invalid Neon branch switch revision")
  end.

(** ** The scope *)

Definition switch_operation (x : SwitchCompletionInput) (d : store) (utcNow : Z) (o : operation_row) : bool :=
  let i := sx_identity x in
  same_scope (pa_organizationId (xi_authority i)) (xi_integrationId i) (xi_integrationGeneration i) kind_switch
    (xi_operationId i) o
  && state_in (o_state o) [remote_started; reconciling] && sql_eq (o_claimId o) (sx_claimId x)
  && (o_planHash o ==s xi_planHash i) && (o_ownershipMarker o ==s xi_ownershipMarker i)
  && jsonEqual (Some (o_redactedPlan o)) (Some (canonicalize localeCompare (plan_value (PlanSwitch (sx_plan x)))))
  && identityAuthority i d utcNow.

Definition switch_source_connection (x : SwitchCompletionInput) (q : SwitchContext) (d : store) (o : operation_row)
    (c : pconnection_row) : bool :=
  let s := sp_source (sx_plan x) in
  (c_organization (pc c) ==s o_organization o) && (c_id (pc c) ==s ss_connectionId s)
  && (c_provider (pc c) ==s js "neon") && (c_credentialMode (pc c) ==s js "managed")
  && sql_eq (c_integration (pc c)) (o_integration o) && sql_eq (c_resource (pc c)) (ss_providerResourceId s)
  && sql_is (target_at (js "project") c) (ss_projectId s)
  && sql_is (target_at (js "branch") c) (bs_branchId (ss_branch s))
  && sql_is (target_at (js "databaseId") c) (ss_databaseId s) && sql_is (target_at (js "database") c) (ss_database s)
  && (pc_name c ==s ss_connectionName s) && Bool.eqb (pc_readonlyDefault c) (ss_readonlyDefault s)
  && Bool.eqb (c_allowWrites (pc c)) (ss_allowWrites s) && sql_is_same (pc_schemaGroup c) (ss_schemaGroup s)
  && sql_same (pc_environment c) (plan_label (ss_environment s))
  && bool_decide (ss_contentRevision s = Some (pc_contentRevision c))
  && (c_revision (pc c) =? sq_authorityRevision q)
  && bool_decide (revocation_pending_at (c_gate (pc c)) <> None)
  && sql_eq (revocation_claim_id (c_gate (pc c))) (sx_connectionClaimId x) && bool_decide (c_deletedAt (pc c) = None)
  && negb (existsb (fun l => (l_organization l ==s c_organization (pc c)) && (l_connection l ==s c_id (pc c))
       && bool_decide (l_revokedAt l = None)) (t_leases (identity d))).

(** The grants, source resources and parent versions a connection joins with. *)
Definition manager_grants (x : SwitchCompletionInput) (d : store) (c : pconnection_row) : list grant_row :=
  filterb (fun g => (g_organization g ==s c_organization (pc c)) && (g_connection g ==s c_id (pc c))
    && (g_member g ==s pa_membershipId (xi_authority (sx_identity x))) && (g_capability g ==s js "manage"))
    (t_grants (identity d)).
Definition source_resources (d : store) (c : pconnection_row) : list presource_row :=
  filterb (fun r => (ps_organization r ==s c_organization (pc c)) && sql_eq (c_resource (pc c)) (ps_id r)
    && (ps_provider r ==s js "neon") && jsonEqual (Some (ps_resource r)) (pc_target c)) (st_resources d).
Definition parent_versions (d : store) (c : pconnection_row) : list version_row :=
  filterb (fun v => (v_organization v ==s c_organization (pc c)) && (v_resourceType v ==s js "connection")
    && (v_resource v ==s c_id (pc c)) && (v_branch v ==s js "main") && (v_revision v =? pc_contentRevision c))
    (st_versions d).

Definition target_resource (x : SwitchCompletionInput) (d : store) : list presource_row :=
  filterb (fun r => (ps_organization r ==s pa_organizationId (xi_authority (sx_identity x)))
    && (ps_provider r ==s js "neon") && (ps_fingerprint r ==s pj_fingerprint (sx_projection x))) (st_resources d).
Definition projected_resource (x : SwitchCompletionInput) : value :=
  canonicalize localeCompare (VObj (pj_resource (sx_projection x))).

(** The target is free, or already the discovered one, and no other connection has it. *)
Definition target_free (x : SwitchCompletionInput) (d : store) : bool :=
  let found := target_resource x d in
  (match found with [] => true | _ => false end
   || existsb (fun r => jsonEqual (Some (ps_resource r)) (Some (projected_resource x))) found)
  && negb (existsb (fun c => (c_organization (pc c) ==s pa_organizationId (xi_authority (sx_identity x)))
       && sql_same (c_resource (pc c)) (ps_id <$> head found)
       && negb (c_id (pc c) ==s ss_connectionId (sp_source (sx_plan x))) && bool_decide (c_deletedAt (pc c) = None))
       (st_connections d)).

Record SwitchPayload := mkSwitchPayload {
  sz_targetId : jsstr; sz_parentVersionId : jsstr; sz_risk : jsstr; sz_approvalPolicy : jsstr }.

Definition switch_scope (x : SwitchCompletionInput) (q : SwitchContext) (freshResource : jsstr) (utcNow : Z)
    (d : store) : list SwitchPayload :=
  if target_free x d then
    flat_map (fun o => flat_map (fun c => flat_map (fun _ => flat_map (fun _ => map (fun v =>
      mkSwitchPayload (default freshResource (ps_id <$> head (target_resource x d))) (v_id v) (o_risk o)
        (o_approvalPolicy o))
      (parent_versions d c)) (source_resources d c)) (manager_grants x d c))
      (filterb (switch_source_connection x q d o) (st_connections d)))
      (filterb (switch_operation x d utcNow) (st_operations d))
  else [].

(** ** The statements *)

(** The upsert on (organization, provider, fingerprint); another row with the identifier
    violates the primary key. *)
Definition upsert_resource (r : presource_row) (t : list presource_row) : option (list presource_row) :=
  let same e := (ps_organization e ==s ps_organization r) && (ps_provider e ==s ps_provider r)
                && (ps_fingerprint e ==s ps_fingerprint r) in
  if existsb same t then
    Some (map (fun e => if same e then mkPResource (ps_id e) (ps_organization e) (ps_provider e) (ps_fingerprint e)
                          (ps_resource r) (ps_metadata r) (ps_capabilities r) else e) t)
  else if existsb (fun e => ps_id e ==s ps_id r) t then None else Some (t ++ [r]).

(** The primary key, and one version of the main branch per revision. *)
Definition insert_version (v : version_row) (t : list version_row) : option (list version_row) :=
  if existsb (fun e => (v_id e ==s v_id v)
       || ((v_organization e ==s v_organization v) && (v_resourceType e ==s v_resourceType v)
           && (v_resource e ==s v_resource v) && (v_revision e =? v_revision v)
           && (v_branch e ==s js "main") && (v_branch v ==s js "main"))) t
  then None else Some (t ++ [v]).

Definition switched_connection (x : SwitchCompletionInput) (targetId : jsstr) (c : pconnection_row) : pconnection_row :=
  let r := pc c in
  let p := sx_projection x in
  mkPConnection
    (mkConnection (c_id r) (c_organization r) (c_deletedAt r) (c_revision r) (c_credentialMode r) (c_integration r)
       (Some targetId) (c_engine r) (c_provider r) (c_allowWrites r) (mkGate None None None))
    (pc_name c) (pc_contentRevision c + 1) (Some (projected_resource x)) (pc_readonlyDefault c) (pc_schemaGroup c)
    (plan_label (tf_environment (sp_target (sx_plan x)))) (pj_host p) (pj_port p) (pj_database p) (pj_sslmode p).

Definition switched_operation (x : SwitchCompletionInput) (now : Z) (o : operation_row) : operation_row :=
  mkOperation (o_id o) (o_organization o) (o_integration o) (o_provider o) (o_generation o) (o_kind o) succeeded
    (o_idempotencyKey o) (o_requestHash o) (o_planHash o) (o_planExpiresAt o) (o_risk o) (o_approvalPolicy o)
    (o_requesterMember o) (o_requesterUser o) (o_requesterSession o) (o_requesterRole o) (o_resourceScope o)
    (o_sourceResource o) (o_targetName o) (o_ownershipMarker o) (o_redactedPlan o) (o_providerOperation o)
    (Some (bs_branchId (tf_branch (sp_target (sx_plan x)))))
    (Some (canonicalize localeCompare (switch_result (sx_plan x) now))) None (o_claimId o) (o_claimedAt o)
    (o_remoteStartedAt o) None (Some now) (o_createdAt o) now.

Definition switch_version (x : SwitchCompletionInput) (q : SwitchContext) (versionId : jsstr) (s : SwitchPayload) : version_row :=
  let payload := version_payload (sx_plan x) (sx_projection x) in
  mkVersion versionId (pa_organizationId (xi_authority (sx_identity x))) (js "connection")
    (ss_connectionId (sp_source (sx_plan x))) (sq_contentRevision q) (ss_contentRevision (sp_source (sx_plan x)))
    (Some (sz_parentVersionId s)) (js "main") (js "update") (canonicalize localeCompare payload)
    (canonicalHash localeCompare sha256hex payload) (pa_userId (xi_authority (sx_identity x))).

Definition switch_audit (x : SwitchCompletionInput) (id action kind resource : jsstr) (summary : js_record) : audit_row :=
  mkAudit id (pa_organizationId (xi_authority (sx_identity x))) (pa_userId (xi_authority (sx_identity x)))
    action kind resource (VObj summary) (sx_claimId x).
Definition branch_ids (plan : NeonBranchSwitchPlan) : js_record := [
  (js "sourceBranchId", VStr (bs_branchId (ss_branch (sp_source plan))));
  (js "targetBranchId", VStr (bs_branchId (tf_branch (sp_target plan))))].
Definition connection_audit (x : SwitchCompletionInput) (q : SwitchContext) : audit_row :=
  switch_audit x (sq_connectionAudit q) (js "connection.provider_target.switch") (js "connection")
    (ss_connectionId (sp_source (sx_plan x)))
    ([(js "provider", VStr (js "neon"))] ++ branch_ids (sx_plan x) ++ [
      (js "contentRevision", num_value (sq_contentRevision q)); (js "authorityRevision", num_value (sq_authorityRevision q));
      (js "activeLeaseCount", num_json (im_activeLeaseCount (sp_impact (sx_plan x))))]).
Definition completion_audit (x : SwitchCompletionInput) (q : SwitchContext) (s : SwitchPayload) : audit_row :=
  switch_audit x (sq_operationAudit q) (js "provider.operation.succeeded") (js "provider_operation")
    (xi_operationId (sx_identity x))
    ([(js "provider", VStr (js "neon")); (js "kind", VStr (js "neon.branch.switch"));
      (js "connectionId", VStr (ss_connectionId (sp_source (sx_plan x))))] ++ branch_ids (sx_plan x) ++ [
      (js "resourceFingerprint", VStr (tf_resourceFingerprint (sp_target (sx_plan x))));
      (js "risk", VStr (sz_risk s)); (js "approvalPolicy", VStr (sz_approvalPolicy s))]).

Definition switched_resource (x : SwitchCompletionInput) (targetId : jsstr) : presource_row :=
  mkPResource targetId (pa_organizationId (xi_authority (sx_identity x))) (js "neon")
    (pj_fingerprint (sx_projection x)) (projected_resource x)
    (canonicalize localeCompare (VObj (pj_metadata (sx_projection x))))
    (canonicalize localeCompare (capabilities_value (sx_projection x))).
(** The connection, resource and version statements, which touch no operation. *)
Definition move_connection (x : SwitchCompletionInput) (q : SwitchContext) (versionId : jsstr) (s : SwitchPayload) : cmd unit :=
  fun d =>
    match upsert_resource (switched_resource x (sz_targetId s)) (st_resources d),
          insert_version (switch_version x q versionId s) (st_versions d) with
    | Some resources, Some versions =>
      Some (tt, set_switched d (map (fun c => if c_id (pc c) ==s ss_connectionId (sp_source (sx_plan x))
                                              then switched_connection x (sz_targetId s) c else c) (st_connections d))
                  resources versions)
    | _, _ => None
    end.

Definition switch_statements (x : SwitchCompletionInput) (q : SwitchContext) (versionId : jsstr)
    (payload : option SwitchPayload) : cmd (option pconnection_row) :=
  _ <~ when_row payload (move_connection x q versionId);
  _ <~ when_row payload (fun _ => update_operations (fun o => o_id o ==s xi_operationId (sx_identity x))
         (switched_operation x (sq_now q)));
  _ <~ when_row payload (fun _ => audit_with insert_audit (connection_audit x q));
  _ <~ when_row payload (fun s => audit_with insert_audit (completion_audit x q s));
  query (fun d => match payload with
    | Some _ => findb (fun c => c_id (pc c) ==s ss_connectionId (sp_source (sx_plan x))) (st_connections d)
    | None => None
    end).

Record NeonBranchSwitchCompletionRecord := mkSwitchRecord {
  sw_operationId : jsstr; sw_connectionId : jsstr; sw_contentRevision : Z; sw_authorityRevision : Z;
  sw_targetBranchId : jsstr }.

Definition switch_completion_result (x : SwitchCompletionInput) (q : SwitchContext) (row : option pconnection_row)
    : option NeonBranchSwitchCompletionRecord :=
  match row with
  | Some c =>
    if (c_id (pc c) ==s ss_connectionId (sp_source (sx_plan x))) && (pc_contentRevision c =? sq_contentRevision q)
       && (c_revision (pc c) =? sq_authorityRevision q)
    then Some (mkSwitchRecord (xi_operationId (sx_identity x)) (c_id (pc c)) (pc_contentRevision c)
                 (c_revision (pc c)) (bs_branchId (tf_branch (sp_target (sx_plan x)))))
    else None
  | None => None
  end.

Definition completeNeonBranchSwitch (x : SwitchCompletionInput) (freshResource versionId : jsstr) (utcNow : Z)
    (d : store) : outcome (option NeonBranchSwitchCompletionRecord) * store :=
  after (switch_checks x) (fun q d =>
    reading (atomicD1 (switch_scope x q freshResource utcNow) (switch_statements x q versionId) d)
      (fun row => Ok (switch_completion_result x q row))) d.

End switch.
