(* ===== verification/OperationReads.v ===== *)
(** * Reading provider operations

    Models the readers of [workspace-cloud/lib/provider-operation-records.ts] (one plan, one
    execution, the approval surface of an integration) and
    [provider-operation-managed-access.ts]: the managed-access boundary of each branch a
    workspace created, which every lease and deletion consults. *)

From S2P Require Import Prelude JsString Regex JsMap JsValue JsSort RevocationGate NeonBranches NeonDeletePlan.
From S2P Require Import D1Batch OperationRecords OperationPlan OperationExecution.
From Stdlib Require String.
Import Stdlib.Strings.String.StringSyntax.
Local Open Scope Z_scope.

(** ** Ordering *)

(** [ORDER BY time DESC, id DESC]; identifiers are ASCII. *)
Definition newest_first (time : operation_row -> Z) (a b : operation_row) : Z :=
  if time b <? time a then -1 else if time a <? time b then 1
  else if str_ltb (o_id b) (o_id a) then -1 else if str_ltb (o_id a) (o_id b) then 1 else 0.

Section reads.
Context (localeCompare : jsstr -> jsstr -> Z) (sha256hex : jsstr -> jsstr) (hmac : jsstr -> jsstr).
Context (json_parse : jsstr -> option value) (toISOString : Z -> jsstr) (date_parse : jsstr -> option Z).

Definition scoped (s : RowScope) (kind : ProviderOperationKind) (o : operation_row) : bool :=
  same_scope (rs_organizationId s) (rs_integrationId s) (rs_integrationGeneration s) kind (rs_operationId s) o.

Definition execution_row (o : operation_row) : ProviderOperationExecutionRow :=
  mkExecutionRow (plan_row toISOString o) (o_claimId o) (toISOString <$> o_remoteStartedAt o) (o_providerOperation o)
    (o_providerResource o) (toISOString <$> o_reconcileAfter o) (json_column (o_redactedResult o)) (o_failureCode o).
Definition read_execution (o : option operation_row) (s : RowScope) : outcome (option ProviderOperationExecutionRecord) :=
  executionRecord localeCompare sha256hex hmac json_parse toISOString date_parse (execution_row <$> o) s.

Definition loadProviderOperationPlan (s : RowScope) (kind : ProviderOperationKind) (d : store)
    : outcome (option ProviderOperationPlanRecord) :=
  read_plan localeCompare sha256hex hmac json_parse toISOString date_parse (findb (scoped s kind) (st_operations d)) s.
Definition loadProviderOperationExecution (s : RowScope) (kind : ProviderOperationKind) (d : store)
    : outcome (option ProviderOperationExecutionRecord) :=
  read_execution (findb (scoped s kind) (st_operations d)) s.

(** ** The approval surface *)

Record ProviderOperationListRecord := mkListRecord {
  ls_execution : ProviderOperationExecutionRecord; ls_requestedByCurrentActor : bool;
  ls_executionAuthorityLive : bool }.

Definition in_integration (organizationId integrationId : jsstr) (generation : Z) (o : operation_row) : bool :=
  (o_organization o ==s organizationId) && (o_integration o ==s integrationId) && (o_provider o ==s js "neon")
  && isProviderOperationKind (o_kind o) && (o_generation o =? generation).

Definition list_row (organizationId integrationId : jsstr) (generation : Z) (member user : jsstr) (d : store)
    (utcNow : Z) (o : operation_row) : outcome ProviderOperationListRecord :=
  operation ← read_execution (Some o) (mkRowScope organizationId integrationId generation (o_id o));
  match operation with
  | Some x =>
    if non_empty (o_requesterMember o) && non_empty (o_requesterUser o) then
      Ok (mkListRecord x ((o_requesterMember o ==s member) && (o_requesterUser o ==s user)) (approved_live d utcNow o))
    else Throw (ProviderError (js "Workspace Neon operation inventory is invalid") 409)
  | None => Throw (ProviderError (js "Workspace Neon operation inventory is invalid") 409)
  end.

Definition listProviderOperationExecutions (organizationId integrationId : jsstr) (generation : Z) (member user : jsstr)
    (utcNow : Z) (d : store) : outcome (list ProviderOperationListRecord) :=
  let rows := take (MAX_PROVIDER_RESULTS + 1)
    (sort_by (newest_first o_updatedAt) (filterb (in_integration organizationId integrationId generation) (st_operations d))) in
  if (MAX_PROVIDER_RESULTS <? length rows)%nat
  then Throw (ProviderError (js "Workspace Neon operation scope is too large to inspect safely") 409)
  else res_map (list_row organizationId integrationId generation member user d utcNow) rows.

(** ** Managed-access boundaries *)

Record Bootstrap := mkBootstrapFields {
  bf_providerAuditId : option jsstr; bf_resourceFingerprint : option jsstr; bf_planHash : option jsstr;
  bf_readyAt : option Z }.

Definition bootstrapResultProjection (v : value) (branchId : jsstr) : option Bootstrap :=
  match plan_column json_parse v with
  | Some (VObj result) =>
    match nullable (field result (js "bootstrapProviderAuditId")), nullable (field result (js "bootstrapResourceFingerprint")),
          nullable (field result (js "bootstrapPlanHash")), nullable (field result (js "bootstrapReadyAt")) with
    | None, None, None, None => Some (mkBootstrapFields None None None None)
    | Some (VStr audit), Some (VStr fingerprint), Some (VStr hash), Some (VStr ready) =>
      match date_parse ready with
      | Some readyAt =>
        if provider_audit_id branchId audit && test hash_re fingerprint && test hash_re hash
        then Some (mkBootstrapFields (Some audit) (Some fingerprint) (Some hash) (Some readyAt)) else None
      | None => None
      end
    | _, _, _, _ => None
    end
  | _ => None
  end.

Record NeonBranchManagedAccessBoundary := mkBoundary {
  bd_operationId : jsstr; bd_state : ProviderOperationState; bd_planHash : jsstr; bd_ownershipMarker : jsstr;
  bd_branchId : jsstr; bd_endpointId : option jsstr; bd_databaseFingerprint : option jsstr;
  bd_credentialFenceFingerprint : option jsstr; bd_managedAccessState : ProviderManagedAccessState;
  bd_bootstrap : Bootstrap }.

(** The access state agrees with the fingerprints and with the bootstrap. *)
Definition boundary_consistent (access : ProviderManagedAccessState) (r : ExecutionResult) (b : Bootstrap) : bool :=
  negb ((bool_decide (access = bootstrap_required) || bool_decide (access = access_ready))
        && (is_null (er_endpointId r) || is_null (er_databaseFingerprint r) || is_null (er_credentialFenceFingerprint r)))
  && negb (bool_decide (access = access_ready) && is_null (bf_readyAt b))
  && negb (negb (bool_decide (access = access_ready)) && negb (is_null (bf_readyAt b))).

(** The row of an operation, whose resource is known by the query. *)
Definition neonBranchManagedAccessBoundary (o : operation_row) (branchId : jsstr) : option NeonBranchManagedAccessBoundary :=
  let column := json_column (o_redactedResult o) in
  match executionResultProjection json_parse column, bootstrapResultProjection column branchId with
  | Some r, Some b =>
    match er_managedAccessState r with
    | Some access =>
      if uuid (o_id o) && test hash_re (o_planHash o) && test ownership_re (o_ownershipMarker o)
         && test segment_re branchId && boundary_consistent access r b
      then Some (mkBoundary (o_id o) (o_state o) (o_planHash o) (o_ownershipMarker o) branchId (er_endpointId r)
                   (er_databaseFingerprint r) (er_credentialFenceFingerprint r) access b)
      else None
    | None => None
    end
  | _, _ => None
  end.

Record BoundaryScope := mkBoundaryScope {
  bs_organizationId : jsstr; bs_integrationId : jsstr; bs_integrationGeneration : Z; bs_projectId : jsstr }.

(** A succeeded deletion of the branch the operation created. *)
Definition deletes (o deletion : operation_row) : bool :=
  (o_organization deletion ==s o_organization o) && (o_integration deletion ==s o_integration o)
  && (o_generation deletion =? o_generation o) && (o_provider deletion ==s js "neon")
  && (o_kind deletion ==s js "neon.branch.delete") && (o_resourceScope deletion ==s o_resourceScope o)
  && sql_eq (o_providerResource o) (o_sourceResource deletion) && bool_decide (o_state deletion = succeeded).

Definition created_branch (s : BoundaryScope) (d : store) (o : operation_row) : bool :=
  (o_organization o ==s bs_organizationId s) && (o_integration o ==s bs_integrationId s) && (o_provider o ==s js "neon")
  && (o_kind o ==s js "neon.branch.create") && (o_generation o =? bs_integrationGeneration s)
  && (o_resourceScope o ==s bs_projectId s) && negb (is_null (o_providerResource o))
  && negb (bool_decide (o_state o = cancelled)) && negb (existsb (deletes o) (st_operations d)).

(** The loop over the rows: [seen] holds the branches met so far. *)
Fixpoint read_boundaries (seen : list jsstr) (rows : list operation_row) : outcome (list NeonBranchManagedAccessBoundary) :=
  match rows with
  | [] => Ok []
  | o :: rows =>
    let branchId := default [] (o_providerResource o) in
    match neonBranchManagedAccessBoundary o branchId with
    | Some boundary =>
      if existsb (fun b => b ==s branchId) seen
      then Throw (ProviderError (js "Neon branch managed-access authority is inconsistent") 409)
      else rest ← read_boundaries (branchId :: seen) rows; Ok (boundary :: rest)
    | None => Throw (ProviderError (js "Neon branch managed-access authority is inconsistent") 409)
    end
  end.

Definition listNeonBranchManagedAccessBoundaries (s : BoundaryScope) (d : store)
    : outcome (list NeonBranchManagedAccessBoundary) :=
  _ ← throw_if (negb (uuid (bs_integrationId s)) || (bs_integrationGeneration s <? 1) || negb (test segment_re (bs_projectId s)))
      (js "Invalid Neon branch managed-access scope");
  let rows := take (MAX_PROVIDER_RESULTS + 1)
    (sort_by (newest_first o_createdAt) (filterb (created_branch s d) (st_operations d))) in
  if (MAX_PROVIDER_RESULTS <? length rows)%nat
  then Throw (ProviderError (js "Workspace Neon branch operation scope is too large") 409)
  else read_boundaries [] rows.

Definition neonBranchManagedAccessBoundaryFor (s : BoundaryScope) (branchId : jsstr) (d : store)
    : outcome (option NeonBranchManagedAccessBoundary) :=
  boundaries ← listNeonBranchManagedAccessBoundaries s d;
  Ok (findb (fun b => bd_branchId b ==s branchId) boundaries).

Definition requireNeonBranchManagedAccessReady (s : BoundaryScope) (branchId : jsstr) (d : store)
    : outcome (option NeonBranchManagedAccessBoundary) :=
  boundary ← neonBranchManagedAccessBoundaryFor s branchId d;
  match boundary with
  | None => Ok None
  | Some b =>
    if negb (bool_decide (bd_state b = succeeded)) || negb (bool_decide (bd_managedAccessState b = access_ready))
    then Throw (ProviderError (if bool_decide (bd_managedAccessState b = bootstrap_required)
           then js "Complete Neon branch bootstrap before managed access"
           else js "Neon branch managed access needs repair") 409)
    else Ok (Some b)
  end.

End reads.

(** ** Managed access of created branches

    What the readers of [provider-operation-managed-access.ts] promise to the leases and
    deletions that consult them: no created branch is overlooked, no two operations claim
    the same branch, and access is only reported ready for a completed bootstrap. *)

Section boundary.
Context (json_parse : jsstr -> option value) (date_parse : jsstr -> option Z).

Notation boundary_of := (neonBranchManagedAccessBoundary json_parse date_parse).
Notation read_all := (read_boundaries json_parse date_parse).
Notation list_ := (listNeonBranchManagedAccessBoundaries json_parse date_parse).
Notation require_ := (requireNeonBranchManagedAccessReady json_parse date_parse).

Definition branch_of (o : operation_row) : jsstr := default [] (o_providerResource o).

(** The boundaries are those of the rows, in their order, one per branch. *)
Lemma read_boundaries_ok seen rows bs :
  read_all seen rows = Ok bs ->
  Forall2 (fun o b => boundary_of o (branch_of o) = Some b) rows bs
  /\ NoDup (map branch_of rows) /\ forall o, o ∈ rows -> branch_of o ∉ seen.
Proof.
  revert seen bs. induction rows as [|o rows IH]; intros seen bs; cbn.
  { intros [= <-]. split; [constructor|]. split; [constructor|]. by intros o ?%elem_of_nil. }
  fold (branch_of o). destruct (boundary_of o (branch_of o)) as [b|] eqn:Eb; [|done].
  destruct (existsb _ seen) eqn:Es; [done|]. intros H. apply res_bind_ok in H as (rest & Hrest & [= <-]).
  apply IH in Hrest as (Hall & Hn & Hnew). rewrite existsb_none in Es. split; [by constructor|]. split.
  - apply NoDup_cons. split; [|done]. intros (o' & E & Ho')%list_elem_of_fmap.
    apply (Hnew o' Ho'). rewrite <- E. by left.
  - intros o' [->|Ho']%elem_of_cons.
    + intros Hin. specialize (Es _ Hin). by bools.
    + intros Hin. apply (Hnew o' Ho'). by right.
Qed.

Lemma list_boundaries_ok s d bs :
  list_ s d = Ok bs ->
  exists rows, rows ≡ₚ filterb (created_branch s d) (st_operations d)
    /\ Forall2 (fun o b => boundary_of o (branch_of o) = Some b) rows bs /\ NoDup (map branch_of rows).
Proof.
  unfold listNeonBranchManagedAccessBoundaries. intros H. apply res_bind_ok in H as ([] & _ & H).
  set (all := sort_by _ _) in *. destruct (MAX_PROVIDER_RESULTS <? _)%nat eqn:El; [done|].
  assert (take (MAX_PROVIDER_RESULTS + 1) all = all) as E.
  { apply take_ge. apply Nat.ltb_ge in El. rewrite length_take in El. unfold MAX_PROVIDER_RESULTS in *. lia. }
  rewrite E in H. apply read_boundaries_ok in H as (Hall & Hn & _). exists all. split; [apply sort_by_perm|done].
Qed.

Lemma boundary_ok o branch b :
  boundary_of o branch = Some b ->
  bd_operationId b = o_id o /\ bd_state b = o_state o /\ bd_branchId b = branch /\ test segment_re branch = true
  /\ (bd_managedAccessState b = access_ready ->
      is_set (bd_endpointId b) && is_set (bd_databaseFingerprint b) && is_set (bd_credentialFenceFingerprint b)
      && is_set (bf_readyAt (bd_bootstrap b)) && is_set (bf_planHash (bd_bootstrap b)) = true).
Proof.
  unfold neonBranchManagedAccessBoundary. set (column := json_column _). clearbody column.
  destruct (executionResultProjection json_parse column) as [r|]; [|done].
  destruct (bootstrapResultProjection json_parse date_parse column branch) as [bt|] eqn:Ebt; [|done].
  destruct (er_managedAccessState r) as [access|]; [|done]. case_match eqn:E; [|done]. intros [= <-]. cbn. bools.
  split; [done|]. split; [done|]. split; [done|]. split; [done|]. intros ->.
  match goal with H : boundary_consistent _ _ _ = true |- _ => unfold boundary_consistent in H; cbn in H end.
  assert (is_set (bf_readyAt bt) = is_set (bf_planHash bt)) as Hb.
  { unfold bootstrapResultProjection in Ebt. repeat (case_match; try done); by simplify_eq. }
  destruct (er_endpointId r), (er_databaseFingerprint r), (er_credentialFenceFingerprint r), (bf_readyAt bt),
    (bf_planHash bt); done.
Qed.

(** The one operation of a branch, when the scope could be read. *)
Definition sole_operation (s : BoundaryScope) (d : store) (branchId : jsstr) (o : operation_row) : Prop :=
  o ∈ st_operations d /\ created_branch s d o = true /\ o_providerResource o = Some branchId
  /\ forall o', o' ∈ st_operations d -> created_branch s d o' = true -> o_providerResource o' = Some branchId -> o' = o.

(** a lease on a branch passes the boundary only when the branch was not created by an
    operation of the scope, or when exactly one operation created it, that operation succeeded
    and its bootstrap is recorded as ready with all its evidence; anything else is refused. *)
Theorem managed_access_is_ready_or_refused s branchId d :
  match require_ s branchId d with
  | Ok None => forall o, o ∈ st_operations d -> created_branch s d o = true -> o_providerResource o <> Some branchId
  | Ok (Some b) =>
    exists o, sole_operation s d branchId o /\ o_state o = succeeded /\ bd_operationId b = o_id o
      /\ bd_branchId b = branchId /\ bd_managedAccessState b = access_ready
      /\ is_set (bd_endpointId b) && is_set (bd_databaseFingerprint b) && is_set (bd_credentialFenceFingerprint b)
         && is_set (bf_readyAt (bd_bootstrap b)) && is_set (bf_planHash (bd_bootstrap b)) = true
  | Throw _ => True
  end.
Proof.
  destruct (require_ s branchId d) as [[b|]|] eqn:E; [| |done];
    unfold requireNeonBranchManagedAccessReady, neonBranchManagedAccessBoundaryFor in E;
    apply res_bind_ok in E as (found & E1 & E); apply res_bind_ok in E1 as (bs & Hlist & [= <-]);
    apply list_boundaries_ok in Hlist as (rows & Hperm & Hall & Hn);
    assert (forall o, o ∈ rows <-> o ∈ st_operations d /\ created_branch s d o = true) as Hrows
      by (intros o; rewrite Hperm, filterb_elem; tauto).
  - destruct (findb _ bs) as [b'|] eqn:Ef; [|done]. apply findb_some in Ef as [Hb Hin]. bools.
    destruct (negb (bool_decide (bd_state b' = succeeded)) || _) eqn:Ec; [done|]. injection E as <-.
    apply orb_false_iff in Ec as [H1 H2]. bools.
    apply list_elem_of_lookup in Hin as [i Hi]. destruct (Forall2_lookup_r _ _ _ _ _ Hall Hi) as (o & Ho & Hbo).
    apply list_elem_of_lookup_2 in Ho. pose proof (boundary_ok _ _ _ Hbo) as (Hid & Hst & Hbr & _ & Hready).
    pose proof (proj1 (Hrows o) Ho) as [Hin Hcb].
    assert (o_providerResource o = Some branchId) as Hres.
    { unfold created_branch in Hcb. bools. unfold branch_of in Hbr. destruct (o_providerResource o); [cbn in *; congruence|done]. }
    exists o. split; [|repeat (split; [congruence|]); by apply Hready].
    split; [done|]. split; [done|]. split; [done|]. intros o' Ho' Hcb' Hres'.
    apply (key_unique branch_of rows); [done| | |].
    + by apply Hrows.
    + by apply Hrows.
    + unfold branch_of. by rewrite Hres, Hres'.
  - destruct (findb _ bs) as [b'|] eqn:Ef; [by case_match|]. rewrite findb_none in Ef.
    intros o Ho Hcb Hres. assert (o ∈ rows) as Hin by by apply Hrows.
    apply list_elem_of_lookup in Hin as [i Hi]. destruct (Forall2_lookup_l _ _ _ _ _ Hall Hi) as (b & Hb & Hbo).
    apply list_elem_of_lookup_2 in Hb. specialize (Ef b Hb). apply boundary_ok in Hbo as (_ & _ & Hbr & _).
    bools. apply Ef. rewrite Hbr. unfold branch_of. by rewrite Hres.
Qed.

End boundary.
