(* ===== verification/OperationInv.v ===== *)
(** * The life of a provider operation

    Workers run the commands of the operation store in any order, each at its own
    readings of the clocks and with its own fresh identifiers, while other components
    change the other tables. This file gives what each command may do to an operation
    row ([moved]), shows that nothing else happens to the table ([run1_rows]), and from it
    the invariant of every reachable row ([row_ok], which contains the CHECK constraints of
    [d1/schema/operations.ts]). *)

From S2P Require Import Prelude JsString JsMap JsValue JsSort Regex NeonBranches NeonDeletePlan NeonSwitchPlan.
From S2P Require Import RevocationGate D1Batch OperationRecords OperationPlan OperationExecution.
From S2P Require Import OperationSwitch.
From Stdlib Require String.
Import Stdlib.Strings.String.StringSyntax.
Local Open Scope Z_scope.

(** ** Batches that touch the operations *)

(** A statement that writes audit events only. *)
Definition audits_only (m : cmd unit) : Prop :=
  forall d u d', m d = Some (u, d') -> d' = set_audits d (st_audits d').

Lemma set_audits_same d : set_audits d (st_audits d) = d.
Proof. by destruct d. Qed.

Lemma audits_only_ret : audits_only (stmt_ret tt).
Proof. intros d [] d' [= <-]. by rewrite set_audits_same. Qed.
Lemma audits_only_with insert a : audits_only (audit_with insert a).
Proof. intros d [] d'. unfold audit_with. case_match; [|done]. by intros [= <-]. Qed.
Lemma audits_only_when b m : audits_only m -> audits_only (cmd_when b m).
Proof. destruct b; [done|]. intros _. apply audits_only_ret. Qed.
Lemma audits_only_row {P} (row : option P) f : (forall p, audits_only (f p)) -> audits_only (when_row row f).
Proof. destruct row; [eauto|]. intros _. apply audits_only_ret. Qed.
Lemma audits_only_bind m k : audits_only m -> audits_only k -> audits_only (_ <~ m; k).
Proof.
  intros Hm Hk d u d'. unfold stmt_bind. destruct (m d) as [[[] d1]|] eqn:E; [|done].
  intros H%Hk. apply Hm in E. rewrite H. cbn. rewrite E. done.
Qed.
#[export] Hint Resolve audits_only_ret audits_only_with audits_only_when audits_only_row audits_only_bind : dope.

(** The tables of a batch that wrote operations by [f] and audits. *)
Definition only_operations (d d' : store) (f : operation_row -> operation_row) : Prop :=
  st_operations d' = map f (st_operations d) /\ st_approvals d' = st_approvals d
  /\ identity d' = identity d /\ st_connections d' = st_connections d /\ st_resources d' = st_resources d
  /\ st_versions d' = st_versions d.

Lemma update_operations_effect p f d u d' :
  update_operations p f d = Some (u, d') ->
  d' = set_operations d (map (fun o => if p o then f o else o) (st_operations d))
  /\ forall o, o ∈ st_operations d -> p o = true -> row_checks (f o) = true.
Proof.
  unfold update_operations. case_match eqn:E; [|done]. intros H. simplify_eq. split; [done|].
  intros o Ho Hp. rewrite forallb_elem in E. specialize (E o Ho). by rewrite Hp in E.
Qed.

Lemma transition_effect c f audit d r d' :
  (forall c o, audits_only (audit c o)) ->
  transition c f audit d = Some (r, d') ->
  match c with
  | Some c =>
    only_operations d d' (fun o => if is_candidate c o then f o else o)
    /\ (forall o, o ∈ st_operations d -> is_candidate c o = true -> row_checks (f o) = true)
    /\ r = (fun o => (c, o)) <$> row_of c d'
  | None => d' = d /\ r = None
  end.
Proof.
  intros Haudit. unfold transition, stmt_bind, query, when_row, stmt_ret.
  destruct c as [c|]; [|intros ?; by simplify_eq].
  destruct (update_operations _ f d) as [[u d1]|] eqn:Eu; [|done]. apply update_operations_effect in Eu as [-> Hchk].
  set (d1 := set_operations d _). destruct (row_of c d1) as [o|] eqn:Er.
  - destruct (audit c o d1) as [[[] d2]|] eqn:Ea; [|done]. intros H. simplify_eq.
    apply Haudit in Ea. rewrite Ea. done.
  - intros H. simplify_eq. done.
Qed.

(** The one row a candidate is. *)
Definition ids (d : store) : list jsstr := map o_id (st_operations d).

Lemma candidate_is_row d c o :
  NoDup (ids d) -> c ∈ st_operations d -> o ∈ st_operations d -> is_candidate c o = true -> o = c.
Proof. intros Hn Hc Ho H. unfold is_candidate in H. bools. by apply (key_unique o_id (st_operations d)). Qed.

(** Rows that stay, or change by [R]. *)
Definition rows_change (R : operation_row -> operation_row -> Prop) (t t' : list operation_row) : Prop :=
  Forall2 (fun o o' => o' = o \/ R o o') t t'.

Lemma rows_change_refl R t : rows_change R t t.
Proof. induction t; constructor; auto. Qed.

Lemma rows_change_map R (p : operation_row -> bool) f t :
  (forall o, o ∈ t -> p o = true -> R o (f o)) ->
  rows_change R t (map (fun o => if p o then f o else o) t).
Proof.
  intros H. induction t as [|o t IH]; constructor.
  - destruct (p o) eqn:E; [right|by left]. apply H; [by left|done].
  - apply IH. intros o' Ho. apply H. by right.
Qed.

(** The operations and approvals after a command that failed or had no candidate are those
    of before; otherwise one row moved. *)
Lemma batch_effect (p : store -> operation_row -> bool) f audit d :
  (forall c o, audits_only (audit c o)) -> NoDup (ids d) ->
  let d' := snd (atomicD1 (fun d => filterb (p d) (st_operations d)) (fun c => transition c f audit) d) in
  rows_change (fun o o' => row_checks o' = true /\ p d o = true /\ o' = f o) (st_operations d) (st_operations d')
  /\ st_approvals d' = st_approvals d.
Proof.
  intros Haudit Hn. destruct (atomicD1 _ _ d) as [[a|e] d'] eqn:Er; cbn.
  - apply atomicD1_ok in Er as [[_ Hs]|(c & Hc & Hs)]; apply transition_effect in Hs; try done.
    + destruct Hs as [-> _]. split; [apply rows_change_refl|done].
    + destruct Hs as [(Ho & Ha & _) [Hchk _]]. split; [|done]. rewrite Ho. apply rows_change_map.
      intros o Hin Hcand. specialize (Hchk o Hin Hcand). split; [done|].
      assert (c ∈ filterb (p d) (st_operations d)) as [Hp Hcin]%filterb_elem by (rewrite Hc; by left).
      rewrite (candidate_is_row d c o) by done. done.
  - pose proof (atomicD1_throw (fun d => filterb (p d) (st_operations d)) (fun c => transition c f audit) d e) as H.
    rewrite Er in H. cbn in *. rewrite H by done. split; [apply rows_change_refl|done].
Qed.

Lemma after_snd {A B} (checks : outcome A) (run : A -> store -> outcome B * store) d :
  snd (after checks run d) = d \/ (exists a, checks = Ok a /\ snd (after checks run d) = snd (run a d)).
Proof. unfold after. destruct checks; eauto. Qed.

Lemma reading_snd {A B} (r : outcome A * store) (read : A -> outcome B) : snd (reading r read) = snd r.
Proof. done. Qed.

Lemma after_ok {A B} (checks : outcome A) (run : A -> store -> outcome B * store) d b d' :
  after checks run d = (Ok b, d') -> exists a, checks = Ok a /\ run a d = (Ok b, d').
Proof. unfold after. destruct checks; [|done]. eauto. Qed.

Lemma reading_ok {A B} (r : outcome A * store) (read : A -> outcome B) b d' :
  reading r read = (Ok b, d') -> exists a, r = (Ok a, d') /\ read a = Ok b.
Proof. unfold reading. destruct r as [[a|e] d1]; cbn; [|done]. intros [= ? <-]. eauto. Qed.

(** ** The commands, one by one *)

Section life.
Context (localeCompare : jsstr -> jsstr -> Z) (sha256hex : jsstr -> jsstr) (sha256 : jsstr -> list Z).
Context (hmac : jsstr -> jsstr) (json_parse : jsstr -> option value).
Context (toISOString : Z -> jsstr) (date_parse : jsstr -> option Z).

Notation recordPlan := (recordProviderOperationPlan localeCompare sha256hex sha256 hmac json_parse toISOString date_parse).
Notation recordChecks := (record_checks localeCompare sha256hex sha256 hmac toISOString).
Notation decide_ := (decideProviderOperation sha256 hmac).
Notation cancel_ := (cancelExpiredProviderOperationExecution sha256 hmac).
Notation claim_ := (claimProviderOperationExecution sha256 hmac).
Notation start_ := (markProviderOperationRemoteStarted sha256 hmac).
Notation reconcile_ := (applyProviderOperationReconciliation sha256 hmac json_parse toISOString).
Notation bootstrap_ := (completeProviderOperationBootstrap sha256 hmac toISOString).
Notation switch_ := (completeNeonBranchSwitch localeCompare sha256hex sha256 hmac toISOString).
Notation switchChecks := (switch_checks localeCompare sha256hex sha256 hmac toISOString).

Definition planned_row (x : RecordInput) (d : store) (o : operation_row) : Prop :=
  exists now expires audit, recordChecks x = Ok (now, expires, audit)
    /\ o = planned_operation localeCompare x now expires /\ row_checks o = true
    /\ o_id o ∉ ids d /\ forall e, e ∈ st_operations d -> same_key x e = false.

Lemma insert_operation_effect o d d' u :
  insert_operation o d = Some (u, d') ->
  d' = set_operations d (st_operations d ++ [o]) /\ row_checks o = true /\ o_id o ∉ ids d
  /\ forall e, e ∈ st_operations d ->
       (o_organization e ==s o_organization o) && (o_idempotencyKey e ==s o_idempotencyKey o) = false.
Proof.
  unfold insert_operation. case_match eqn:E; [done|]. intros H. simplify_eq. split; [done|].
  apply orb_false_iff in E as [Hchk E]. bools. split; [done|]. rewrite existsb_none in E. split.
  - intros (e & Hid & He)%list_elem_of_fmap. specialize (E e He). bools. congruence.
  - intros e He. specialize (E e He). by apply orb_false_iff in E as [_ ?].
Qed.

Lemma audit_with_effect insert a d u d' :
  audit_with insert a d = Some (u, d') -> d' = set_audits d (st_audits d').
Proof. apply audits_only_with. Qed.

Lemma record_statements_effect x now expires audit p d r d' :
  record_statements localeCompare x now expires audit p d = Some (r, d') ->
  st_approvals d' = st_approvals d
  /\ (st_operations d' = st_operations d
      \/ (st_operations d' = st_operations d ++ [planned_operation localeCompare x now expires]
          /\ row_checks (planned_operation localeCompare x now expires) = true
          /\ rc_operationId x ∉ ids d /\ forall e, e ∈ st_operations d -> same_key x e = false)).
Proof.
  unfold record_statements, stmt_bind, cmd_when, query. destruct p as [[id [|]]|].
  - destruct (insert_operation _ d) as [[u d1]|] eqn:E1; [|done].
    apply insert_operation_effect in E1 as (-> & Hchk & Hid & Hkey).
    destruct (audit_with _ _ _) as [[u2 d2]|] eqn:E2; [|done]. apply audit_with_effect in E2.
    intros H. simplify_eq. rewrite E2. cbn. split; [done|]. right. auto.
  - unfold stmt_ret. intros H. simplify_eq. auto.
  - unfold stmt_ret. intros H. simplify_eq. auto.
Qed.

Lemma record_effect x utc d :
  let d' := snd (recordPlan x utc d) in
  st_approvals d' = st_approvals d
  /\ (st_operations d' = st_operations d
      \/ exists o, st_operations d' = st_operations d ++ [o] /\ planned_row x d o).
Proof.
  cbn. unfold recordProviderOperationPlan.
  destruct (after_snd (recordChecks x) (fun checked d =>
    let '(now, expires, auditId) := checked in
    reading (atomicD1 (record_scope x utc) (record_statements localeCompare x now expires auditId) d)
      (fun row => read_plan localeCompare sha256hex hmac json_parse toISOString date_parse row (record_row_scope x))) d)
    as [->|([[now expires] audit] & Hc & ->)]; [auto|].
  rewrite reading_snd. destruct (atomicD1 _ _ d) as [[a|e] d'] eqn:Er; cbn.
  - assert (exists p, record_statements localeCompare x now expires audit p d = Some (a, d')) as [p Hp]
      by (apply atomicD1_ok in Er as [[_ ?]|(? & _ & ?)]; eauto).
    apply record_statements_effect in Hp as [-> [->|(-> & Hchk & Hid & Hk)]]; (split; [done|]); [by left|right].
    eexists; split; [done|]. exists now, expires, audit. done.
  - pose proof (atomicD1_throw (record_scope x utc) (record_statements localeCompare x now expires audit) d e) as H.
    rewrite Er in H. cbn in H. rewrite H by done. auto.
Qed.

(** The four commands of one shape. *)
Lemma cancel_effect x now utc d :
  NoDup (ids d) ->
  let d' := snd (cancel_ x now utc d) in
  rows_change (fun o o' => row_checks o' = true /\ cancellable x d utc o = true /\ exists n, o' = cancel_update n o)
    (st_operations d) (st_operations d') /\ st_approvals d' = st_approvals d.
Proof.
  intros Hn. cbn. unfold cancelExpiredProviderOperationExecution, after.
  destruct (cancel_checks _ _ x now) as [[n audit]|]; [|split; [apply rows_change_refl|done]].
  cbn -[atomicD1 transition].
  destruct (batch_effect (fun d o => cancellable x d utc o) (cancel_update n)
    (fun c o => audit_with upsert_audit (execution_audit x audit (js "provider.operation.cancelled")
       [(js "reason", expiry_reason)] (xi_operationId x) c o)) d) as [H Ha]; [auto with dope|done|].
  split; [|exact Ha]. eapply Forall2_impl; [exact H|]. cbn. naive_solver.
Qed.

Lemma claim_effect_op x now cid utc d :
  NoDup (ids d) ->
  let d' := snd (claim_ x now cid utc d) in
  rows_change (fun o o' => row_checks o' = true /\ can_claim x d utc o = true /\ exists n, o' = claim_update cid n o)
    (st_operations d) (st_operations d') /\ st_approvals d' = st_approvals d.
Proof.
  intros Hn. cbn. unfold claimProviderOperationExecution, after.
  destruct (claim_checks _ _ x now cid) as [[n audit]|]; [|split; [apply rows_change_refl|done]].
  cbn -[atomicD1 transition].
  destruct (batch_effect (fun d o => can_claim x d utc o) (claim_update cid n)
    (fun c o => cmd_when (bool_decide (o_state c = approved))
       (audit_with upsert_audit (execution_audit x audit (js "provider.operation.claim") [] (request_of o) c o))) d)
    as [H Ha]; [auto with dope|done|].
  split; [|exact Ha]. eapply Forall2_impl; [exact H|]. cbn. naive_solver.
Qed.

Lemma start_effect x cid now utc utc' d :
  NoDup (ids d) ->
  let d' := snd (start_ x cid now utc utc' d) in
  rows_change (fun o o' => row_checks o' = true /\ startable x cid d utc o = true /\ exists n, o' = start_update n utc' o)
    (st_operations d) (st_operations d') /\ st_approvals d' = st_approvals d.
Proof.
  intros Hn. cbn. unfold markProviderOperationRemoteStarted, after.
  destruct (start_checks _ _ x cid now) as [[n audit]|]; [|split; [apply rows_change_refl|done]].
  cbn -[atomicD1 transition].
  destruct (batch_effect (fun d o => startable x cid d utc o) (start_update n utc') (start_audit x audit) d)
    as [H Ha]; [intros; unfold start_audit; auto with dope|done|].
  split; [|exact Ha]. eapply Forall2_impl; [exact H|]. cbn. naive_solver.
Qed.

Lemma reconcile_effect i cid x now utc d :
  NoDup (ids d) ->
  let d' := snd (reconcile_ i cid x now utc d) in
  rows_change (fun o o' => row_checks o' = true /\ reconcilable i cid x d utc o = true
                /\ exists n, validProviderReconciliation x = true /\ o' = reconcile_update toISOString x n o)
    (st_operations d) (st_operations d') /\ st_approvals d' = st_approvals d.
Proof.
  intros Hn. cbn. unfold applyProviderOperationReconciliation, after.
  destruct (reconcile_checks _ _ _ i cid x now) as [[[n rid] fid]|] eqn:Ec; [|split; [apply rows_change_refl|done]].
  assert (validProviderReconciliation x = true) as Hv.
  { unfold reconcile_checks in Ec. destruct now as [t|]; repeat (res_inv; try done).
    destruct (negb (uuid cid) || negb (validProviderReconciliation x)) eqn:E; cbn in *; [done|]. by bools. }
  cbn -[atomicD1 transition].
  destruct (batch_effect (fun d o => reconcilable i cid x d utc o) (reconcile_update toISOString x n)
    (reconcile_audits i x rid fid) d) as [H Ha]; [intros; unfold reconcile_audits; auto with dope|done|].
  split; [|exact Ha]. eapply Forall2_impl; [exact H|]. cbn. naive_solver.
Qed.

(** The bootstrap changes the result of the row it names, the only one with its identifier. *)
Lemma bootstrap_statements_effect b audit n c d r d' :
  bootstrap_statements toISOString b audit n c d = Some (r, d') ->
  st_approvals d' = st_approvals d
  /\ (st_operations d' = st_operations d
      \/ (c <> None /\ st_operations d'
          = map (fun o => if o_id o ==s xi_operationId (bt_identity b) then bootstrap_update toISOString b n o else o)
              (st_operations d)
          /\ forall o, o ∈ st_operations d -> o_id o ==s xi_operationId (bt_identity b) = true ->
               row_checks (bootstrap_update toISOString b n o) = true)).
Proof.
  unfold bootstrap_statements, stmt_bind, cmd_when, when_row, query, stmt_ret.
  destruct c as [c|]; [|intros H; simplify_eq; auto]. destruct (sql_is _ _).
  - destruct (audit_with _ _ d) as [[u d1]|] eqn:E; [|done]. apply audit_with_effect in E. rewrite E.
    destruct (update_operations _ _ _) as [[u2 d2]|] eqn:Eu; [|done].
    apply update_operations_effect in Eu as [-> Hchk]. intros H'. simplify_eq. cbn in *. split; [done|]. right. auto.
  - intros H'. simplify_eq. auto.
Qed.

Lemma same_id d a b : NoDup (ids d) -> a ∈ st_operations d -> b ∈ st_operations d -> o_id a = o_id b -> a = b.
Proof. intros. by apply (key_unique o_id (st_operations d)). Qed.

Lemma bootstrap_effect b now utc d :
  NoDup (ids d) ->
  let d' := snd (bootstrap_ b now utc d) in
  rows_change (fun o o' => row_checks o' = true /\ bootstrap_candidate b d utc o = true /\ exists n, o' = bootstrap_update toISOString b n o)
    (st_operations d) (st_operations d') /\ st_approvals d' = st_approvals d.
Proof.
  intros Hn. cbn. unfold completeProviderOperationBootstrap, after.
  destruct (bootstrap_checks _ _ b now) as [[n audit]|]; [|split; [apply rows_change_refl|done]].
  rewrite reading_snd. destruct (atomicD1 _ _ d) as [[a|e] d'] eqn:Er; cbn.
  - apply atomicD1_ok in Er as [[_ Hs]|(c & Hc & Hs)];
      apply bootstrap_statements_effect in Hs as [-> [->|(Hne & -> & Hchk)]];
      (split; [|done]); try apply rows_change_refl; [done|].
    apply rows_change_map. intros o Ho Hid. split; [by apply Hchk|]. split; [|by exists n].
    assert (c ∈ filterb (bootstrap_candidate b d utc) (st_operations d)) as [Hp Hcin]%filterb_elem
      by (rewrite Hc; by left).
    assert (o_id c = xi_operationId (bt_identity b)) as Hcid.
    { unfold bootstrap_candidate, names_operation, same_scope in Hp. bools. done. }
    bools. by rewrite (same_id d o c) by (done || congruence).
  - pose proof (atomicD1_throw (fun d => filterb (bootstrap_candidate b d utc) (st_operations d))
      (bootstrap_statements toISOString b audit n) d e) as H.
    rewrite Er in H. cbn in H. rewrite H by done. split; [apply rows_change_refl|done].
Qed.

(** A switch completes the operation of its scope. *)
Lemma switch_statements_effect x q vid p d r d' :
  switch_statements localeCompare sha256hex toISOString x q vid p d = Some (r, d') ->
  st_approvals d' = st_approvals d
  /\ (p = None /\ d' = d
      \/ exists s, p = Some s /\ st_operations d'
          = map (fun o => if o_id o ==s xi_operationId (sx_identity x)
                          then switched_operation localeCompare toISOString x (sq_now q) o else o) (st_operations d)
          /\ forall o, o ∈ st_operations d -> o_id o ==s xi_operationId (sx_identity x) = true ->
               row_checks (switched_operation localeCompare toISOString x (sq_now q) o) = true).
Proof.
  unfold switch_statements, stmt_bind, when_row, query, stmt_ret.
  destruct p as [s|]; [|intros H; simplify_eq; auto].
  destruct (move_connection _ _ x q vid s d) as [[u d1]|] eqn:E1; [|done].
  assert (st_operations d1 = st_operations d /\ st_approvals d1 = st_approvals d) as [Ho Ha].
  { unfold move_connection in E1. repeat case_match; simplify_eq. done. }
  destruct (update_operations _ _ d1) as [[u1 d1']|] eqn:Eu; [|done]. apply update_operations_effect in Eu as [-> Hchk].
  destruct (audit_with insert_audit (connection_audit x q) _) as [[u2 d2]|] eqn:E2; [|done].
  destruct (audit_with insert_audit (completion_audit x q s) d2) as [[u3 d3]|] eqn:E3; [|done].
  intros H. simplify_eq. apply audit_with_effect in E2, E3. rewrite E3. cbn. rewrite E2. cbn.
  split; [done|]. right. exists s. rewrite Ho in *. done.
Qed.

Lemma switch_scope_operation x q fresh utc d s :
  s ∈ switch_scope localeCompare x q fresh utc d ->
  exists o, o ∈ st_operations d /\ switch_operation localeCompare x d utc o = true.
Proof.
  unfold switch_scope. case_match; [|by intros ?%elem_of_nil].
  rewrite list_elem_of_In, in_flat_map. intros (o & Ho & _).
  apply list_elem_of_In, filterb_elem in Ho as [? ?]. eauto.
Qed.

Lemma switch_effect x fresh vid utc d :
  NoDup (ids d) ->
  let d' := snd (switch_ x fresh vid utc d) in
  rows_change (fun o o' => row_checks o' = true /\ switch_operation localeCompare x d utc o = true
                /\ exists n, o' = switched_operation localeCompare toISOString x n o)
    (st_operations d) (st_operations d') /\ st_approvals d' = st_approvals d.
Proof.
  intros Hn. cbn. unfold completeNeonBranchSwitch, after.
  destruct (switchChecks x) as [q|]; [|split; [apply rows_change_refl|done]].
  rewrite reading_snd. destruct (atomicD1 _ _ d) as [[a|e] d'] eqn:Er; cbn.
  - apply atomicD1_ok in Er as [[_ Hs]|(s & Hc & Hs)];
      apply switch_statements_effect in Hs as [-> [[_ ->]|(s' & Hs' & -> & Hchk)]];
      (split; [|done]); try apply rows_change_refl; [done|].
    apply rows_change_map. intros o Ho Hid. split; [by apply Hchk|]. split; [|by exists (sq_now q)].
    destruct (switch_scope_operation x q fresh utc d s) as (c & Hc' & Hop); [rewrite Hc; by left|].
    assert (o_id c = xi_operationId (sx_identity x)) as Hcid.
    { unfold switch_operation, same_scope in Hop. bools. done. }
    bools. by rewrite (same_id d o c) by (done || congruence).
  - pose proof (atomicD1_throw (switch_scope localeCompare x q fresh utc)
      (switch_statements localeCompare sha256hex toISOString x q vid) d e) as H.
    rewrite Er in H. cbn in H. rewrite H by done. split; [apply rows_change_refl|done].
Qed.

(** A decision moves a waiting operation, which then has the approval of the caller. *)
Definition decided_by (x : ProviderOperationExecutionIdentity) (dec : ProviderOperationDecision) (d' : store)
    (o : operation_row) : Prop :=
  exists a, a ∈ st_approvals d' /\ approval_of o a = true /\ ap_planHash a = o_planHash o /\ own_approval x dec a = true.

Lemma insert_approval_effect a d u d' :
  insert_approval a d = Some (u, d') ->
  d' = set_approvals d (st_approvals d ++ [a])
  /\ forall e, e ∈ st_approvals d ->
       ap_id e <> ap_id a /\ ~ (ap_organization e = ap_organization a /\ ap_operation e = ap_operation a).
Proof.
  unfold insert_approval. case_match eqn:E; [done|]. intros H. simplify_eq. split; [done|].
  apply orb_false_iff in E as [_ E].
  rewrite existsb_none in E. intros e He. specialize (E e He). bools.
  split; [done|]. intros [H1 H2]. rewrite H1, H2 in H0. by rewrite !bool_decide_true in H0.
Qed.

(** The approvals only grow, by one of the caller's own, whose operation it decides. *)
Definition approvals_grow (x : ProviderOperationExecutionIdentity) (dec : ProviderOperationDecision) (d d' : store) : Prop :=
  st_approvals d' = st_approvals d
  \/ exists aid n, st_approvals d' = st_approvals d ++ [decision_approval x dec aid n]
       /\ (forall e, e ∈ st_approvals d -> ~ (ap_organization e = pa_organizationId (xi_authority x)
                                              /\ ap_operation e = xi_operationId x))
       /\ exists o, o ∈ st_operations d' /\ approval_of o (decision_approval x dec aid n) = true
                    /\ o_state o <> awaiting_approval.

Lemma decide_statements_effect x dec aid audit n p d r d' :
  decide_statements x dec aid audit n p d = Some (r, d') ->
  match p with
  | None => d' = d
  | Some (id, created) =>
    st_operations d' = map (fun o => if (o_id o ==s xi_operationId x) && bool_decide (o_state o = awaiting_approval)
                                     then decide_update dec n o else o) (st_operations d)
    /\ (forall o, o ∈ st_operations d -> o_id o ==s xi_operationId x = true -> o_state o = awaiting_approval ->
         row_checks (decide_update dec n o) = true)
    /\ (if created then st_approvals d' = st_approvals d ++ [decision_approval x dec aid n]
          /\ (forall e, e ∈ st_approvals d -> ~ (ap_organization e = pa_organizationId (xi_authority x)
                                                 /\ ap_operation e = xi_operationId x))
        else st_approvals d' = st_approvals d)
  end.
Proof.
  unfold decide_statements, stmt_bind, cmd_when, when_row, query, stmt_ret.
  destruct p as [[id created]|].
  - assert (forall d1 d2 u, st_operations d1 = st_operations d ->
      update_operations (fun o => (o_id o ==s xi_operationId x) && bool_decide (o_state o = awaiting_approval)
                                  && bool_decide (Some (id, created) <> None)) (decide_update dec n) d1 = Some (u, d2) ->
      d2 = set_operations d1 (map (fun o => if (o_id o ==s xi_operationId x) && bool_decide (o_state o = awaiting_approval)
                                            then decide_update dec n o else o) (st_operations d))
      /\ (forall o, o ∈ st_operations d -> o_id o ==s xi_operationId x = true -> o_state o = awaiting_approval ->
           row_checks (decide_update dec n o) = true)) as Hup.
    { intros d1 d2 u Heq Eu. apply update_operations_effect in Eu as [-> Hchk]. rewrite Heq in *. split.
      - f_equal. apply map_ext. intros o. by rewrite andb_true_r.
      - intros o Ho Hid Hs. apply Hchk; [done|]. by rewrite Hid, Hs. }
    destruct created.
    + destruct (insert_approval _ d) as [[u d1]|] eqn:E1; [|done].
      apply insert_approval_effect in E1 as [-> Hno].
      destruct (update_operations _ _ _) as [[u1 d1']|] eqn:Eu; [|done]. apply Hup in Eu as [-> Hchk]; [|done].
      match goal with |- context [match findb ?p ?t with _ => _ end] => destruct (findb p t) as [o|] end.
      * destruct (audit_with _ _ _) as [[u2 d2]|] eqn:E2; [|done]. apply audit_with_effect in E2. rewrite E2.
        intros H. simplify_eq. cbn. split; [done|]. split; [done|]. split; [done|]. intros e He. by apply Hno.
      * intros H. simplify_eq. cbn. split; [done|]. split; [done|]. split; [done|]. intros e He. by apply Hno.
    + destruct (update_operations _ _ _) as [[u1 d1']|] eqn:Eu; [|done]. apply Hup in Eu as [-> Hchk]; [|done].
      intros H. simplify_eq. done.
  - destruct (update_operations _ _ _) as [[u1 d1']|] eqn:Eu; [|done]. apply update_operations_effect in Eu as [-> _].
    intros H. simplify_eq. destruct d as [i c r v t a u]. unfold set_operations. cbn. f_equal.
    rewrite <- (map_id t) at 2. apply map_ext. intros o. by rewrite andb_false_r.
Qed.

Lemma own_decision x dec aid n : own_approval x dec (decision_approval x dec aid n) = true.
Proof. unfold own_approval, decision_approval. cbn. by rewrite !bool_decide_true. Qed.

Lemma decide_effect x dec now aid utc d :
  NoDup (ids d) ->
  let d' := snd (decide_ x dec now aid utc d) in
  rows_change (fun o o' => row_checks o' = true /\ decidable_operation x dec d utc o = true /\ o_state o = awaiting_approval
                /\ decided_by x dec d' o /\ exists n, o' = decide_update dec n o)
    (st_operations d) (st_operations d') /\ approvals_grow x dec d d'.
Proof.
  intros Hn. cbn. unfold decideProviderOperation, after.
  destruct (decide_checks _ _ x now) as [[n audit]|]; [|split; [apply rows_change_refl|by left]].
  rewrite reading_snd. destruct (atomicD1 _ _ d) as [[a|e] d'] eqn:Er; cbn; cycle 1.
  { pose proof (atomicD1_throw (decide_scope x dec utc) (decide_statements x dec aid audit n) d e) as H.
    rewrite Er in H. cbn in H. rewrite H by done. split; [apply rows_change_refl|by left]. }
  apply atomicD1_ok in Er as [[_ Hs]|([id created] & Hc & Hs)]; apply decide_statements_effect in Hs.
  { subst. split; [apply rows_change_refl|by left]. }
  destruct Hs as (Ho & Hchk & Ha).
  assert ((id, created) ∈ decide_scope x dec utc d) as Hin by (rewrite Hc; by left).
  unfold decide_scope in Hin. apply list_elem_of_fmap in Hin as (c & [= -> ->] & [Hp Hcin]%filterb_elem).
  apply andb_true_iff in Hp as [Hdec Hprior]. apply negb_true_iff in Hprior. rewrite existsb_none in Hprior.
  assert (o_id c = xi_operationId x /\ o_organization c = pa_organizationId (xi_authority x)
          /\ o_planHash c = xi_planHash x) as (Hcid & Horg & Hhash).
  { unfold decidable_operation, names_operation, same_scope in Hdec. bools. done. }
  split; cycle 1.
  { unfold approvals_grow. destruct (negb (existsb _ _)) eqn:Enone; [right|by left]. exists aid, n.
    destruct Ha as [-> Hfresh]. split; [done|]. split; [done|]. exists (decide_update dec n c).
    split; [|split; [|by destruct dec]].
    - rewrite Ho. apply list_elem_of_fmap. exists c. split; [|done].
      rewrite bool_decide_true by done. cbn.
      unfold decidable_operation in Hdec. bools.
      match goal with H : bool_decide (o_state c = awaiting_approval) || _ = true |- _ => apply orb_true_iff in H as [Hst|Hown] end.
      { by rewrite Hst. }
      rewrite existsb_none in Enone. apply existsb_elem in Hown as (a1 & Hin' & Hown). bools.
      specialize (Enone a1 Hin'). congruence.
    - unfold approval_of. cbn. by rewrite !bool_decide_true by congruence. }
  rewrite Ho. apply rows_change_map. intros o Hoin H. bools.
  assert (o = c) as -> by (apply (same_id d); [done..|congruence]).
  split; [apply Hchk; [done| |done]; by apply bool_decide_eq_true|]. split; [done|]. split; [done|]. split; [|by exists n].
  unfold decided_by. destruct (existsb (approval_of c) (st_approvals d)) eqn:Eex; cbn in Ha.
  - apply existsb_elem in Eex as (a' & Ha' & Hof). exists a'. rewrite Ha. split; [done|]. split; [done|].
    specialize (Hprior a' Ha'). rewrite Hof in Hprior. cbn in Hprior. apply negb_false_iff in Hprior. bools.
    split; [congruence|done].
  - destruct Ha as [-> _]. exists (decision_approval x dec aid n).
    split; [apply elem_of_app; right; by left|]. split; [|split; [cbn; congruence|apply own_decision]].
    unfold approval_of. cbn. by rewrite !bool_decide_true by congruence.
Qed.

(** ** Any order of commands *)

Inductive op_event :=
| ev_record (x : RecordInput) (utcNow : Z)
| ev_decide (x : ProviderOperationExecutionIdentity) (decision : ProviderOperationDecision) (now : num)
    (approvalId : jsstr) (utcNow : Z)
| ev_cancel (x : ProviderOperationExecutionIdentity) (now : num) (utcNow : Z)
| ev_claim (x : ProviderOperationExecutionIdentity) (now : num) (claimId : jsstr) (utcNow : Z)
| ev_start (x : ProviderOperationExecutionIdentity) (claimId : jsstr) (now : num) (utcScope utcUpdate : Z)
| ev_reconcile (x : ProviderOperationExecutionIdentity) (claimId : jsstr) (result : ProviderOperationReconciliationInput)
    (now : num) (utcNow : Z)
| ev_bootstrap (b : BootstrapInput) (now : num) (utcNow : Z)
| ev_switch (x : SwitchCompletionInput) (freshResource versionId : jsstr) (utcNow : Z)
(** Anything the other components do to the other tables. *)
| ev_other (i : identity_tables) (c : list pconnection_row) (r : list presource_row) (v : list version_row)
    (a : list audit_row).

Definition run1 (d : store) (e : op_event) : store :=
  match e with
  | ev_record x utc => snd (recordPlan x utc d)
  | ev_decide x dec now aid utc => snd (decide_ x dec now aid utc d)
  | ev_cancel x now utc => snd (cancel_ x now utc d)
  | ev_claim x now cid utc => snd (claim_ x now cid utc d)
  | ev_start x cid now utc utc' => snd (start_ x cid now utc utc' d)
  | ev_reconcile x cid r now utc => snd (reconcile_ x cid r now utc d)
  | ev_bootstrap b now utc => snd (bootstrap_ b now utc d)
  | ev_switch x fresh vid utc => snd (switch_ x fresh vid utc d)
  | ev_other i c r v a => mkStore i c r v (st_operations d) (st_approvals d) a
  end.
Definition run (d : store) (es : list op_event) : store := foldl run1 d es.

(** What a command may do to a row, and when. *)
Definition moved (d : store) (e : op_event) (o o' : operation_row) : Prop :=
  row_checks o' = true /\
  match e with
  | ev_record _ _ | ev_other _ _ _ _ _ => False
  | ev_decide x dec _ _ utc =>
    decidable_operation x dec d utc o = true /\ o_state o = awaiting_approval
    /\ decided_by x dec (run1 d e) o /\ exists n, o' = decide_update dec n o
  | ev_cancel x _ utc => cancellable x d utc o = true /\ exists n, o' = cancel_update n o
  | ev_claim x _ cid utc => can_claim x d utc o = true /\ exists n, o' = claim_update cid n o
  | ev_start x cid _ utc utc' => startable x cid d utc o = true /\ exists n, o' = start_update n utc' o
  | ev_reconcile x cid r _ utc =>
    reconcilable x cid r d utc o = true
    /\ exists n, validProviderReconciliation r = true /\ o' = reconcile_update toISOString r n o
  | ev_bootstrap b _ utc => bootstrap_candidate b d utc o = true /\ exists n, o' = bootstrap_update toISOString b n o
  | ev_switch x _ _ utc =>
    switch_operation localeCompare x d utc o = true
    /\ exists n, o' = switched_operation localeCompare toISOString x n o
  end.

Lemma rows_change_impl (R S : operation_row -> operation_row -> Prop) t t' :
  (forall o o', R o o' -> S o o') -> rows_change R t t' -> rows_change S t t'.
Proof. intros H HR. eapply Forall2_impl; [exact HR|]. intros o o' [?|?]; auto. Qed.

(** One event appends a planned row or moves rows of the table; nothing else happens to it. *)
Lemma run1_rows d e :
  NoDup (ids d) ->
  rows_change (moved d e) (st_operations d) (st_operations (run1 d e))
  \/ exists x utc o, e = ev_record x utc /\ st_operations (run1 d e) = st_operations d ++ [o] /\ planned_row x d o.
Proof.
  intros Hn. destruct e as [x utc| | | | | | | |]; cbn [run1].
  - destruct (record_effect x utc d) as [_ [->|(o & Ho & Hp)]]; [left; apply rows_change_refl|right].
    by exists x, utc, o.
  - left. by apply decide_effect.
  - left. by apply cancel_effect.
  - left. by apply claim_effect_op.
  - left. by apply start_effect.
  - left. by apply reconcile_effect.
  - left. by apply bootstrap_effect.
  - left. by apply switch_effect.
  - left. apply rows_change_refl.
Qed.

(** Approvals are only added, by decisions, and at most one per operation. *)
Lemma run1_approvals d e :
  NoDup (ids d) ->
  st_approvals (run1 d e) = st_approvals d
  \/ exists x dec now aid utc, e = ev_decide x dec now aid utc /\ approvals_grow x dec d (run1 d e).
Proof.
  intros Hn. destruct e as [x utc|x dec now aid utc| | | | | | |]; cbn [run1].
  - left. apply record_effect.
  - right. exists x, dec, now, aid, utc. split; [done|]. by apply decide_effect.
  - left. by apply cancel_effect.
  - left. by apply claim_effect_op.
  - left. by apply start_effect.
  - left. by apply reconcile_effect.
  - left. by apply bootstrap_effect.
  - left. by apply switch_effect.
  - by left.
Qed.

(** ** What never changes *)

(** The columns a plan fixes. *)
Definition plan_part (o : operation_row) :=
  (o_id o, o_organization o, o_integration o, o_provider o, o_generation o, o_kind o, o_idempotencyKey o,
   o_requestHash o, o_planHash o, o_planExpiresAt o, o_risk o, o_approvalPolicy o,
   (o_requesterMember o, o_requesterUser o, o_requesterSession o, o_requesterRole o, o_resourceScope o,
    o_sourceResource o, o_targetName o, o_ownershipMarker o, o_redactedPlan o, o_createdAt o)).

Lemma moved_plan d e o o' : moved d e o o' -> plan_part o' = plan_part o.
Proof.
  intros [_ H]. revert H. destruct e; cbn; try done.
  - intros (_ & _ & _ & n & ->). done.
  - intros (_ & n & ->). done.
  - intros (_ & n & ->). unfold claim_update. by case_match.
  - intros (_ & n & ->). done.
  - intros (_ & n & _ & ->). done.
  - intros (_ & n & ->). done.
  - intros (_ & n & ->). done.
Qed.

Lemma plan_part_id o o' : plan_part o' = plan_part o -> o_id o' = o_id o.
Proof. unfold plan_part. congruence. Qed.

Lemma run1_ids d e : NoDup (ids d) -> NoDup (ids (run1 d e)) /\ sublist (ids d) (ids (run1 d e)).
Proof.
  intros Hn. destruct (run1_rows d e Hn) as [H|(x & utc & o & _ & Ho & now & expires & audit & _ & _ & _ & Hid & _)].
  - assert (ids (run1 d e) = ids d) as ->; [|done]. unfold ids.
    induction H as [|o o' t t' [->|Hm] _ IH]; cbn; [done| |]; f_equal; try done.
    by apply moved_plan, plan_part_id in Hm.
  - unfold ids in *. rewrite Ho, map_app. cbn. split; [|by apply sublist_inserts_r].
    apply NoDup_app. split; [done|]. split; [|apply NoDup_singleton].
    intros i Hi ->%list_elem_of_singleton. done.
Qed.

Lemma run_ids d es : NoDup (ids d) -> NoDup (ids (run d es)).
Proof. revert d. induction es as [|e es IH]; intros d Hn; cbn; [done|]. apply IH. by apply run1_ids. Qed.

(** A row and what it becomes. *)
Definition row_at (d : store) (id : jsstr) : option operation_row := findb (fun o => o_id o ==s id) (st_operations d).

Lemma row_at_in d id o : row_at d id = Some o -> o ∈ st_operations d /\ o_id o = id.
Proof. unfold row_at. intros [H1 H2]%findb_some. by bools. Qed.

Lemma row_at_of d o : NoDup (ids d) -> o ∈ st_operations d -> row_at d (o_id o) = Some o.
Proof.
  intros Hn Ho. unfold row_at. destruct (findb _ _) as [o'|] eqn:E.
  - apply findb_some in E as [Hid Hin]. bools. f_equal. by apply (same_id d).
  - rewrite findb_none in E. specialize (E o Ho). cbn in E. by rewrite bool_decide_true in E.
Qed.

Lemma row_at_step d e id o :
  NoDup (ids d) -> row_at d id = Some o ->
  exists o', row_at (run1 d e) id = Some o' /\ (o' = o \/ moved d e o o').
Proof.
  intros Hn [Ho <-]%row_at_in. destruct (run1_ids d e Hn) as [Hn' _].
  destruct (run1_rows d e Hn) as [H|(x & utc & new & _ & Hnew & _)].
  - apply list_elem_of_lookup in Ho as [i Hi]. destruct (Forall2_lookup_l _ _ _ _ _ H Hi) as (o' & Hi' & Hor).
    exists o'. split; [|done]. assert (o_id o = o_id o') as ->.
    { destruct Hor as [->|Hm]; [done|]. symmetry. by eapply plan_part_id, moved_plan. }
    apply row_at_of; [done|]. by eapply list_elem_of_lookup_2.
  - exists o. split; [|by left]. apply row_at_of; [done|]. rewrite Hnew. apply elem_of_app. by left.
Qed.

(** A row of the new table comes from one of the old, or was just planned. *)
Lemma row_at_back d e id o' :
  NoDup (ids d) -> row_at (run1 d e) id = Some o' ->
  (exists o, row_at d id = Some o /\ (o' = o \/ moved d e o o'))
  \/ exists x utc, e = ev_record x utc /\ planned_row x d o'.
Proof.
  intros Hn Hr. destruct (row_at d id) as [o|] eqn:E.
  - left. exists o. split; [done|]. destruct (row_at_step d e id o Hn E) as (o2 & Ho2 & ?). naive_solver.
  - destruct (row_at_in _ _ _ Hr) as [Hin <-].
    destruct (run1_rows d e Hn) as [H|(x & utc & o & He & Ho & Hp)].
    + apply list_elem_of_lookup in Hin as [i Hi]. destruct (Forall2_lookup_r _ _ _ _ _ H Hi) as (o & Hi' & Hor).
      assert (o_id o = o_id o') as Hid.
      { destruct Hor as [->|Hm]; [done|]. symmetry. by eapply plan_part_id, moved_plan. }
      rewrite <- Hid in E. rewrite row_at_of in E; [done..|]. by eapply list_elem_of_lookup_2.
    + rewrite Ho in Hin. apply elem_of_app in Hin as [Hin| ->%list_elem_of_singleton]; [|right; by eauto].
      by rewrite (row_at_of d o' Hn Hin) in E.
Qed.

(** ** The invariant *)

Definition started_states : list ProviderOperationState := [remote_started; reconciling; succeeded; failed; needs_repair].
(** The states only an approved operation can be in. *)
Definition approved_states : list ProviderOperationState := approved :: claimed :: started_states.

(** The operation has an approval of its plan, by someone else where the policy says so. *)
Definition has_approval (t : list approval_row) (o : operation_row) : Prop :=
  exists a, a ∈ t /\ approval_of o a = true /\ ap_planHash a = o_planHash o
    /\ ap_decision a = decision_approved /\ separated o (ap_member a) (ap_user a) = true.

Record row_ok (t : list approval_row) (o : operation_row) : Prop := {
  ok_checks : row_checks o = true;
  ok_started : is_set (o_remoteStartedAt o) = state_in (o_state o) started_states;
  ok_claimed : state_in (o_state o) (claimed :: started_states) = true -> is_set (o_claimId o) = true;
  ok_approved : state_in (o_state o) approved_states = true -> has_approval t o }.

Lemma ok_state_checks t o : row_ok t o -> state_checks o = true.
Proof. intros [H _ _ _]. unfold row_checks in H. by bools. Qed.

Lemma has_approval_mono t t' o o' :
  t ⊆ t' -> plan_part o' = plan_part o -> has_approval t o -> has_approval t' o'.
Proof.
  intros Ht Hp (a & Ha & Hof & Hh & Hd & Hs). exists a. split; [by apply Ht|].
  destruct o, o'. unfold plan_part in Hp. cbn in *. simplify_eq. done.
Qed.

(** A row whose state and start stay, or move together, stays well formed. *)
Lemma row_ok_intro t t' o o' :
  row_ok t o -> row_checks o' = true -> plan_part o' = plan_part o -> t ⊆ t' ->
  is_set (o_remoteStartedAt o') = state_in (o_state o') started_states ->
  (state_in (o_state o') (claimed :: started_states) = true -> is_set (o_claimId o') = true) ->
  (state_in (o_state o') approved_states = true -> state_in (o_state o) approved_states = true \/ has_approval t' o') ->
  row_ok t' o'.
Proof.
  intros [Hc Hs Hcl Ha] Hc' Hp Ht Hs' Hcl' Ha'. split; try done.
  intros Hst. destruct (Ha' Hst) as [H|H]; [|done]. eapply has_approval_mono; eauto.
Qed.

Lemma decided_has_approval x d' o :
  decided_by x decision_approved d' o ->
  separated o (pa_membershipId (xi_authority x)) (pa_userId (xi_authority x)) = true -> has_approval (st_approvals d') o.
Proof.
  intros (a & Ha & Hof & Hh & Hown) Hsep. unfold own_approval in Hown. bools.
  exists a. split; [done|]. split; [done|]. split; [done|]. split; [done|]. congruence.
Qed.

(** What the checks say of the columns the invariant speaks about. *)
Lemma unset {A} (o : option A) : is_set o = false -> o = None.
Proof. by destruct o. Qed.

Lemma checked_row o :
  state_checks o = true ->
  match o_state o with
  | awaiting_approval | approved =>
    o_claimId o = None /\ o_claimedAt o = None /\ o_remoteStartedAt o = None /\ o_completedAt o = None
  | claimed => is_set (o_claimId o) = true /\ o_remoteStartedAt o = None
  | remote_started | reconciling => is_set (o_claimId o) = true /\ is_set (o_remoteStartedAt o) = true
  | _ => True
  end.
Proof.
  unfold state_checks, claim_consistency. intros H. bools.
  destruct (o_state o); bools; auto using unset.
Qed.

(** A test of a state in a goal, once the state is known. *)
Ltac known_state := repeat match goal with H : o_state _ = _ |- _ => rewrite H in * end.

Lemma reconcilable_states i cid x d utc o :
  reconcilable i cid x d utc o = true ->
  o_state o = remote_started \/ o_state o = reconciling
  \/ (o_state o = succeeded /\ refence x o = true /\ ob_status x = obs_ready).
Proof.
  unfold reconcilable. intros H. bools.
  match goal with H : _ || refence x o = true |- _ => apply orb_true_iff in H as [Hs|Hr] end.
  - in_states Hs; auto.
  - right; right. pose proof Hr as Hr'. unfold refence, has_status in Hr'. bools. auto.
Qed.

Lemma target_state_in x n o : target_state x n o ∈ [succeeded; needs_repair; failed; reconciling].
Proof. unfold target_state. repeat case_match; set_solver. Qed.

Lemma moved_ok d e o o' :
  st_approvals d ⊆ st_approvals (run1 d e) -> row_ok (st_approvals d) o -> moved d e o o' ->
  row_ok (st_approvals (run1 d e)) o'.
Proof.
  intros Ht Hok Hm. pose proof (moved_plan _ _ _ _ Hm) as Hp. destruct Hm as [Hchk Hm].
  pose proof (checked_row o (ok_state_checks _ _ Hok)) as Hrow.
  pose proof Hok as [_ Hst Hcl Hap].
  destruct e; cbn in Hm; try done.
  - destruct Hm as (Hdec & Hs & Hby & n & ->). rewrite Hs in Hrow. destruct Hrow as (? & ? & Hnone & ?).
    eapply row_ok_intro; eauto; cbn; destruct decision; cbn; rewrite ?Hnone; try done.
    intros _. right. eapply has_approval_mono; [reflexivity|exact Hp|]. eapply decided_has_approval; [exact Hby|].
    unfold decidable_operation in Hdec. by bools.
  - destruct Hm as (Hcan & n & ->). unfold cancellable in Hcan. bools.
    eapply row_ok_intro; eauto; cbn; [|done..].
    match goal with H : o_remoteStartedAt o = None |- _ => by rewrite H end.
  - destruct Hm as (Hcan & n & ->). unfold claim_update in *. case_bool_decide as Hs.
    + rewrite Hs in Hrow. destruct Hrow as (? & ? & Hnone & ?).
      eapply row_ok_intro; eauto; cbn; rewrite ?Hnone, ?Hs; auto.
    + eapply row_ok_intro; eauto.
  - destruct Hm as (Hcan & n & ->). unfold startable, authorized_operation in Hcan. bools.
    match goal with H : state_in (o_state o) _ = true |- _ => in_states H; rename H into E; rewrite E in * end;
      (eapply row_ok_intro; [exact Hok|exact Hchk|exact Hp|exact Ht|..]); cbn; rewrite ?E; cbn;
      destruct (o_planExpiresAt o <=? utcUpdate); cbn; rewrite ?Hst; try done; auto; naive_solver.
  - destruct Hm as (Hcan & n & Hv & ->). apply reconcilable_states in Hcan.
    assert (state_in (o_state o) started_states = true) as Hin by (destruct Hcan as [E|[E|[E _]]]; by rewrite E).
    pose proof (target_state_in result n o) as Htarget.
    eapply row_ok_intro; eauto; cbn.
    + rewrite Hst, Hin. symmetry. apply state_in_elem. unfold started_states. set_solver.
    + intros _. apply Hcl. apply state_in_elem in Hin. apply state_in_elem. by right.
    + intros _. left. apply state_in_elem in Hin. apply state_in_elem. by do 2 right.
  - destruct Hm as (Hcan & n & ->). eapply row_ok_intro; eauto.
  - destruct Hm as (Hcan & n & ->). unfold switch_operation in Hcan. bools.
    match goal with H : state_in (o_state o) _ = true |- _ => in_states H; rename H into E; rewrite E in * end;
      (eapply row_ok_intro; eauto; cbn; rewrite ?Hst, ?E; auto).
Qed.

Definition well_formed (d : store) : Prop :=
  NoDup (ids d) /\ forall o, o ∈ st_operations d -> row_ok (st_approvals d) o.

Lemma run1_approvals_mono d e : NoDup (ids d) -> st_approvals d ⊆ st_approvals (run1 d e).
Proof.
  intros Hn. destruct (run1_approvals d e Hn) as [->|(x & dec & now & aid & utc & -> & [->|(i & n & -> & _)])];
    try done. intros a Ha. apply elem_of_app. by left.
Qed.

Lemma planned_ok t x d o : planned_row x d o -> row_ok t o.
Proof.
  intros (now & expires & audit & _ & -> & Hchk & _). split; try done.
Qed.

Lemma row_ok_mono t t' o : t ⊆ t' -> row_ok t o -> row_ok t' o.
Proof. intros Ht [H1 H2 H3 H4]. split; try done. intros H. eapply has_approval_mono; [exact Ht|done|by apply H4]. Qed.

Lemma run1_well_formed d e : well_formed d -> well_formed (run1 d e).
Proof.
  intros [Hn Hok]. destruct (run1_ids d e Hn) as [Hn' _]. split; [done|]. intros o Ho.
  pose proof (run1_approvals_mono d e Hn) as Ht.
  destruct (row_at_back d e (o_id o) o Hn (row_at_of _ _ Hn' Ho)) as [(o0 & Hr & Hor)|(x & utc & -> & Hp)].
  - apply row_at_in in Hr as [Hin _]. destruct Hor as [->|Hm]; [by eapply row_ok_mono, Hok|].
    eapply moved_ok; [done|by apply Hok|done].
  - by eapply planned_ok.
Qed.

Lemma run_well_formed d es : well_formed d -> well_formed (run d es).
Proof. revert d. induction es as [|e es IH]; intros d H; cbn; [done|]. by apply IH, run1_well_formed. Qed.

(** A workspace that has not planned anything yet. *)
Definition no_operations (d : store) : Prop := st_operations d = [] /\ st_approvals d = [].
Lemma no_operations_ok d : no_operations d -> well_formed d.
Proof.
  intros [Ho Ha]. unfold well_formed, ids. rewrite Ho. cbn. split; [constructor|]. by intros o ?%elem_of_nil.
Qed.

Lemma well_formed_row d id o : well_formed d -> row_at d id = Some o -> row_ok (st_approvals d) o /\ state_checks o = true.
Proof. intros [_ H] [Hin _]%row_at_in. specialize (H o Hin). split; [done|]. by eapply ok_state_checks. Qed.

(** ** The history of one operation *)

(** The moves of the state machine. *)
Definition may_become (s s' : ProviderOperationState) : bool :=
  bool_decide (s = s') ||
  match s with
  | awaiting_approval => state_in s' [approved; cancelled]
  | approved => state_in s' [claimed; cancelled]
  | claimed => state_in s' [remote_started; cancelled]
  | remote_started | reconciling => state_in s' [reconciling; succeeded; failed; needs_repair]
  | _ => false
  end.

(** How far an operation has come. *)
Definition rank (s : ProviderOperationState) : nat :=
  match s with
  | awaiting_approval => 0 | approved => 1 | claimed => 2 | remote_started => 3 | reconciling => 4 | _ => 5
  end.

Lemma may_become_rank s s' : may_become s s' = true -> (rank s <= rank s')%nat.
Proof. destruct s, s'; cbn; try done; lia. Qed.

(** A set column keeps its value. *)
Definition kept {A} (before after : option A) : Prop := forall a, before = Some a -> after = Some a.

Lemma kept_refl {A} (a : option A) : kept a a.
Proof. by intros x. Qed.
Lemma kept_coalesce {A} (a b : option A) : kept a (coalesce a b).
Proof. by intros x ->. Qed.
Lemma kept_none {A} (a b : option A) : a = None -> kept a b.
Proof. by intros -> x. Qed.
#[local] Hint Resolve kept_refl kept_coalesce kept_none : core.

(** One move of one operation. *)
Record advanced (o o' : operation_row) : Prop := {
  ad_plan : plan_part o' = plan_part o;
  ad_state : may_become (o_state o) (o_state o') = true;
  ad_claim : kept (o_claimId o) (o_claimId o');
  ad_started : kept (o_remoteStartedAt o) (o_remoteStartedAt o');
  ad_provider : kept (o_providerOperation o) (o_providerOperation o');
  ad_resource : o_kind o <> kind_name kind_switch -> kept (o_providerResource o) (o_providerResource o') }.

Lemma moved_advanced t d e o o' : row_ok t o -> moved d e o o' -> advanced o o'.
Proof.
  intros Hok Hm. pose proof (moved_plan _ _ _ _ Hm) as Hp.
  pose proof (checked_row o (ok_state_checks _ _ Hok)) as Hrow. destruct Hm as [_ Hm].
  destruct e; cbn in Hm; try done.
  - destruct Hm as (_ & Hs & _ & n & ->). split; cbn; auto. rewrite Hs. by destruct decision.
  - destruct Hm as (Hcan & n & ->). unfold cancellable in Hcan. bools.
    match goal with H : state_in (o_state o) _ = true |- _ => in_states H; rename H into E end; split; cbn; auto; by rewrite E.
  - destruct Hm as (Hcan & n & ->). unfold claim_update in *. case_bool_decide as Hs.
    + rewrite Hs in Hrow. destruct Hrow as (? & ? & ? & ?). split; cbn; auto. by rewrite Hs.
    + split; auto. unfold may_become. by rewrite bool_decide_true.
  - destruct Hm as (Hcan & n & ->). unfold startable, authorized_operation in Hcan. bools.
    match goal with H : state_in (o_state o) _ = true |- _ => in_states H; rename H into E; rewrite E in Hrow end;
      split; cbn; rewrite ?E; cbn; auto; destruct (o_planExpiresAt o <=? utcUpdate); cbn; auto.
    destruct Hrow as [_ ?]. auto.
  - destruct Hm as (Hcan & n & _ & ->). apply reconcilable_states in Hcan.
    pose proof (target_state_in result n o) as Ht. apply state_in_elem in Ht. split; cbn; auto.
    destruct Hcan as [E|[E|(E & _ & Hready)]]; rewrite E.
    + in_states Ht; by rewrite Ht.
    + in_states Ht; by rewrite Ht.
    + unfold target_state. by rewrite Hready.
  - destruct Hm as (Hcan & n & ->). split; cbn; auto. unfold may_become. by rewrite bool_decide_true.
  - destruct Hm as (Hcan & n & ->). unfold switch_operation, same_scope in Hcan. bools.
    match goal with H : state_in (o_state o) _ = true |- _ => in_states H; rename H into E end;
      (split; cbn -[kind_name]; auto; [by rewrite E|intros Hk; by destruct Hk]).
Qed.

(** The same over any run: the state walks along the moves, and what is recorded stays. *)
Record history (o o' : operation_row) : Prop := {
  hi_plan : plan_part o' = plan_part o;
  hi_state : rtc (fun s s' => may_become s s' = true) (o_state o) (o_state o');
  hi_claim : kept (o_claimId o) (o_claimId o');
  hi_started : kept (o_remoteStartedAt o) (o_remoteStartedAt o');
  hi_provider : kept (o_providerOperation o) (o_providerOperation o');
  hi_resource : o_kind o <> kind_name kind_switch -> kept (o_providerResource o) (o_providerResource o') }.

Lemma history_refl o : history o o.
Proof. split; auto. apply rtc_refl. Qed.

Lemma history_step o o1 o' : advanced o o1 -> history o1 o' -> history o o'.
Proof.
  intros [P S C R V W] [P' S' C' R' V' W']. split; [| |unfold kept in *; by eauto..|].
  - congruence.
  - by eapply rtc_l.
  - intros Hk. assert (o_kind o1 = o_kind o) as E by (unfold plan_part in P; congruence).
    intros a Ha. apply W'; [congruence|]. by apply W.
Qed.

Lemma run_history d es id o :
  well_formed d -> row_at d id = Some o -> exists o', row_at (run d es) id = Some o' /\ history o o'.
Proof.
  revert d o. induction es as [|e es IH]; intros d o Hwf Hr; cbn.
  - exists o. split; [done|apply history_refl].
  - destruct (row_at_step d e id o (proj1 Hwf) Hr) as (o1 & Hr1 & Hor).
    destruct (IH (run1 d e) o1 (run1_well_formed d e Hwf) Hr1) as (o' & Hr' & Hh). exists o'. split; [done|].
    destruct Hor as [->|Hm]; [done|]. eapply history_step; [|done].
    eapply moved_advanced; [|done]. by eapply well_formed_row.
Qed.

End life.
