(* ===== verification/OperationFacts.v ===== *)
(** * What the operation store guarantees

    The properties of provider operations over any order of commands: their history, the
    one remote start, the two people a copy of production data needs, idempotent requests
    and decisions, and the expired plans anyone in charge can close. *)

From S2P Require Import Prelude JsString Regex JsMap JsonText JsValue JsSort RevocationGate NeonBranches.
From S2P Require Import NeonDeletePlan NeonCreatePlan NeonSwitchPlan D1Batch OperationRecords OperationPlan.
From S2P Require Import OperationExecution OperationSwitch OperationInv.
From Stdlib Require String.
Import Stdlib.Strings.String.StringSyntax.
Local Open Scope Z_scope.

Section facts.
Context (localeCompare : jsstr -> jsstr -> Z) (sha256hex : jsstr -> jsstr) (sha256 : jsstr -> list Z).
Context (hmac : jsstr -> jsstr) (json_parse : jsstr -> option value).
Context (toISOString : Z -> jsstr) (date_parse : jsstr -> option Z).

Notation run1 := (run1 localeCompare sha256hex sha256 hmac json_parse toISOString date_parse).
Notation run := (run localeCompare sha256hex sha256 hmac json_parse toISOString date_parse).
Notation start_ := (markProviderOperationRemoteStarted sha256 hmac).
Notation claim_ := (claimProviderOperationExecution sha256 hmac).
Notation cancel_ := (cancelExpiredProviderOperationExecution sha256 hmac).
Notation record_ := (recordProviderOperationPlan localeCompare sha256hex sha256 hmac json_parse toISOString date_parse).
Notation decide_ := (decideProviderOperation sha256 hmac).

(** ** History *)

Definition terminal (s : ProviderOperationState) : bool := state_in s [succeeded; failed; needs_repair; cancelled].

Lemma terminal_stays s s' : terminal s = true -> rtc (fun s s' => may_become s s' = true) s s' -> s' = s.
Proof.
  intros Ht. induction 1 as [s|s s1 s' H1 _ IH]; [done|].
  assert (s1 = s) as -> by (destruct s, s1; done). auto.
Qed.

(** C15: whatever commands act on a store that began without operations, in any order and by
    anybody, a row stays: its identity, plan, policy and requester never change, what is once
    recorded of its claim, its start and the provider's identifiers is kept, its state moves
    only along the edges of the state machine, and a final state is final. *)
Theorem operation_history d es es' id o :
  no_operations d -> row_at (run d es) id = Some o ->
  exists o', row_at (run (run d es) es') id = Some o' /\ history o o'
    /\ (terminal (o_state o) = true -> o_state o' = o_state o).
Proof.
  intros Hno Hr. pose proof (run_well_formed localeCompare sha256hex sha256 hmac json_parse toISOString date_parse
    d es (no_operations_ok d Hno)) as Hwf.
  destruct (run_history localeCompare sha256hex sha256 hmac json_parse toISOString date_parse _ es' id o Hwf Hr)
    as (o' & Hr' & Hh).
  exists o'. split; [done|]. split; [done|]. intros Ht. apply (terminal_stays _ _ Ht), hi_state. done.
Qed.

(** ** One remote start *)

(** The result of a batch of one transition. *)
Lemma transition_result {B} (p : store -> operation_row -> bool) f audit (read : option (operation_row * operation_row) -> B) d b d' :
  (forall c o, audits_only (audit c o)) -> (forall o, o_id (f o) = o_id o) -> NoDup (ids d) ->
  reading (atomicD1 (fun d => filterb (p d) (st_operations d)) (fun c => transition c f audit) d) (fun r => Ok (read r)) = (Ok b, d') ->
  (b = read None /\ d' = d)
  \/ exists c, c ∈ st_operations d /\ p d c = true /\ row_at d' (o_id c) = Some (f c) /\ b = read (Some (c, f c)).
Proof.
  intros Haudit Hid Hn H. apply reading_ok in H as (r & Hr & [= <-]).
  apply atomicD1_ok in Hr as [[_ Hs]|(c & Hc & Hs)]; apply transition_effect in Hs; try done.
  { left. by destruct Hs as [-> ->]. }
  right. assert (c ∈ filterb (p d) (st_operations d)) as [Hp Hin]%filterb_elem by (rewrite Hc; by left).
  destruct Hs as [(Ho & _) [_ ->]]. exists c. split; [done|]. split; [done|].
  assert (row_at d' (o_id c) = Some (f c)) as E.
  { rewrite <- (Hid c). apply row_at_of.
    - unfold ids in *. rewrite Ho, map_map.
      erewrite map_ext; [exact Hn|]. intros o. cbn. by case_match.
    - rewrite Ho. apply list_elem_of_fmap. exists c. split; [|done].
      unfold is_candidate. by rewrite !bool_decide_true. }
  split; [done|]. unfold row_of. unfold row_at in E. by rewrite E.
Qed.

(** The event is a remote start of the operation by the caller, who may now call the provider. *)
Definition starts (d : store) (id : jsstr) (e : op_event) : bool :=
  match e with
  | ev_start x cid now utc utc' =>
    match fst (start_ x cid now utc utc' d) with
    | Ok (Some r) => sr_startedNow r && (sr_id r ==s id)
    | _ => false
    end
  | _ => false
  end.

Lemma starts_spec d id e :
  NoDup (ids d) -> starts d id e = true ->
  exists x cid now utc utc' o o',
    e = ev_start x cid now utc utc' /\ row_at d id = Some o /\ row_at (run1 d e) id = Some o'
    /\ startable x cid d utc o = true /\ o_state o = claimed /\ o_state o' = remote_started
    /\ utc' < o_planExpiresAt o.
Proof.
  intros Hn. destruct e as [| | | |x cid now utc utc'| | | |]; try done. cbn [starts].
  destruct (start_ x cid now utc utc' d) as [[[r|]|] d'] eqn:E; cbn; try done. intros Hs. bools.
  assert (run1 d (ev_start x cid now utc utc') = d') as Hd' by (cbn; by rewrite E).
  unfold markProviderOperationRemoteStarted in E. apply after_ok in E as ([n audit] & _ & E).
  apply transition_result in E as [[Hr _]|(c & Hc & Hp & Hrow & Hr)];
    [done| |intros; unfold start_audit; auto with dope|done|done].
  cbn in Hr. case_match; [|done]. injection Hr as Hr. subst r. cbn in *. bools.
  exists x, cid, now, utc, utc', c, (start_update n utc' c).
  assert (o_id c = id) as <- by done.
  split; [done|]. split; [by apply row_at_of|]. split; [by rewrite Hd'|]. split; [done|]. split; [done|].
  split; [done|]. cbn in *. destruct (o_planExpiresAt c <=? utc') eqn:El; [|lia].
  match goal with H : o_state c = claimed |- _ => rewrite H in * end. done.
Qed.

(** The remote starts of a run. *)
Fixpoint count_starts (d : store) (id : jsstr) (es : list op_event) : nat :=
  match es with
  | [] => 0
  | e :: es => (if starts d id e then 1 else 0) + count_starts (run1 d e) id es
  end.

Lemma no_more_starts d id es o :
  well_formed d -> row_at d id = Some o -> (3 <= rank (o_state o))%nat -> count_starts d id es = 0%nat.
Proof.
  revert d o. induction es as [|e es IH]; intros d o Hwf Hr Hrank; cbn; [done|].
  destruct (row_at_step localeCompare sha256hex sha256 hmac json_parse toISOString date_parse d e id o (proj1 Hwf) Hr)
    as (o1 & Hr1 & Hor).
  assert (rank (o_state o) <= rank (o_state o1))%nat as Hle.
  { destruct Hor as [->|Hm]; [lia|]. eapply may_become_rank, ad_state, moved_advanced; [|exact Hm].
    by eapply well_formed_row. }
  rewrite (IH (run1 d e) o1); [|by apply run1_well_formed|done|lia].
  destruct (starts d id e) eqn:E; [|lia].
  destruct (starts_spec d id e (proj1 Hwf) E) as (? & ? & ? & ? & ? & o2 & ? & _ & Ho2 & _ & _ & Hs & _).
  rewrite Hr in Ho2. simplify_eq. rewrite Hs in Hrank. cbn in Hrank. lia.
Qed.

Lemma starts_bounded d id es : well_formed d -> (count_starts d id es <= 1)%nat.
Proof.
  revert d. induction es as [|e es IH]; intros d Hwf; cbn; [lia|].
  pose proof (run1_well_formed localeCompare sha256hex sha256 hmac json_parse toISOString date_parse d e Hwf) as Hwf'.
  destruct (starts d id e) eqn:E; [|by apply IH].
  destruct (starts_spec d id e (proj1 Hwf) E) as (? & ? & ? & ? & ? & o2 & o' & _ & _ & Ho' & _ & _ & Hs & _).
  rewrite (no_more_starts _ id es o'); [lia|done|done|]. rewrite Hs. cbn. lia.
Qed.

(** C14: in any run, at most one start of an operation is answered with the permission to call
    the provider. *)
Theorem remote_start_once d es id : no_operations d -> (count_starts d id es <= 1)%nat.
Proof. intros Hno. by apply starts_bounded, no_operations_ok. Qed.

(** ** What a remote start has been through *)

(** A live manager of the workspace, as a session and a member. *)
Definition live_manager (d : store) (utc : Z) (org member user role session : jsstr) : Prop :=
  live_session d utc session user = true /\ managing_member d member org user role = true.

(** A copy of production data is under the policy of two people, by the CHECK of its row. *)
Lemma production_separated t o member user :
  row_ok t o -> o_risk o = js "production_data" -> separated o member user = true ->
  member <> o_requesterMember o /\ user <> o_requesterUser o.
Proof.
  intros Hok Hrisk Hs. pose proof (ok_checks _ _ Hok) as Hc. unfold row_checks, plan_checks in Hc. bools.
  match goal with H : negb (o_risk o ==s _) || _ = true |- _ => apply orb_true_iff in H as [H|H] end; bools; [done|].
  unfold separated in Hs. apply orb_true_iff in Hs as [Hs|Hs]; bools; done.
Qed.

(** C12: a start that gives the permission to call the provider comes from a manager whose session
    and membership are live, names the row with its plan, claim and marker before the plan
    expires, and finds an approval of exactly that plan whose approver and requester are
    both still live managers, two different people when production data is involved. *)
Theorem started_was_authorized d es id e :
  no_operations d -> starts (run d es) id e = true ->
  exists x cid now utc utc' o a,
    e = ev_start x cid now utc utc' /\ row_at (run d es) id = Some o /\ o_claimId o = Some cid
    /\ names_operation x o = true /\ utc' < o_planExpiresAt o
    /\ a ∈ st_approvals (run d es) /\ approval_of o a = true /\ ap_planHash a = xi_planHash x
    /\ ap_decision a = decision_approved
    /\ live_manager (run d es) utc (o_organization o) (o_requesterMember o) (o_requesterUser o) (o_requesterRole o) (o_requesterSession o)
    /\ live_manager (run d es) utc (o_organization o) (ap_member a) (ap_user a) (ap_role a) (ap_session a)
    /\ identityAuthority x (run d es) utc = true
    /\ (o_risk o = js "production_data" -> ap_member a <> o_requesterMember o /\ ap_user a <> o_requesterUser o).
Proof.
  intros Hno Hs. pose proof (run_well_formed localeCompare sha256hex sha256 hmac json_parse toISOString date_parse
    d es (no_operations_ok d Hno)) as Hwf.
  destruct (starts_spec _ id e (proj1 Hwf) Hs) as (x & cid & now & utc & utc' & o & o' & -> & Hr & _ & Hst & _ & _ & Hexp).
  unfold startable, authorized_operation, currentExecutionAuthoritySql, approved_live, sql_eq in Hst.
  apply andb_true_iff in Hst as [Hst _]. apply andb_true_iff in Hst as [Hst _]. bools.
  match goal with H : existsb _ _ = true |- _ => apply existsb_elem in H as (a & Ha & Hl) end.
  unfold approval_live, requester_live in Hl. bools. exists x, cid, now, utc, utc', o, a.
  match goal with H : names_operation x o = true |- _ => pose proof H as Hnames; unfold names_operation in H; bools end.
  assert (ap_organization a = o_organization o) as Horg by done.
  repeat (split; [done || congruence || (unfold approval_of; by rewrite !bool_decide_true)|]).
  split; [rewrite <- Horg; by split|]. split; [done|]. intros Hrisk.
  eapply production_separated; [by eapply well_formed_row|done..].
Qed.

(** Any operation that is approved or further has the approval of its plan. *)
Lemma approved_by d es id o :
  no_operations d -> row_at (run d es) id = Some o -> state_in (o_state o) approved_states = true ->
  exists a, a ∈ st_approvals (run d es) /\ approval_of o a = true /\ ap_planHash a = o_planHash o
    /\ ap_decision a = decision_approved
    /\ (o_risk o = js "production_data" -> ap_member a <> o_requesterMember o /\ ap_user a <> o_requesterUser o).
Proof.
  intros Hno Hr Hs. pose proof (run_well_formed localeCompare sha256hex sha256 hmac json_parse toISOString date_parse
    d es (no_operations_ok d Hno)) as Hwf.
  destruct (well_formed_row _ _ _ Hwf Hr) as [Hok _].
  destruct (ok_approved _ _ Hok Hs) as (a & Ha & Hof & Hh & Hd & Hsep). exists a. do 4 (split; [done|]).
  intros Hrisk. by eapply production_separated.
Qed.

End facts.

(** ** A branch switch is all or nothing

    [completeNeonBranchSwitch] writes the connection, its target resource, a version, the
    operation and two audit events in one batch. This file shows that it either writes all
    of them, from a state where the gate of the connection is held and no lease is left, or
    leaves the workspace as it was. *)

Section switch_facts.
Context (localeCompare : jsstr -> jsstr -> Z) (sha256hex : jsstr -> jsstr) (sha256 : jsstr -> list Z).
Context (hmac : jsstr -> jsstr) (toISOString : Z -> jsstr).

Notation switch_ := (completeNeonBranchSwitch localeCompare sha256hex sha256 hmac toISOString).
Notation statements_ := (switch_statements localeCompare sha256hex toISOString).

Definition connection_id (c : pconnection_row) : jsstr := c_id (pc c).
Definition connection_at (d : store) (id : jsstr) : option pconnection_row :=
  findb (fun c => connection_id c ==s id) (st_connections d).

Lemma connection_at_of d c :
  NoDup (map connection_id (st_connections d)) -> c ∈ st_connections d -> connection_at d (connection_id c) = Some c.
Proof.
  intros Hn Hc. unfold connection_at. destruct (findb _ _) as [c'|] eqn:E.
  - apply findb_some in E as [Hid Hin]. bools. f_equal. by apply (key_unique connection_id (st_connections d)).
  - rewrite findb_none in E. specialize (E c Hc). cbn in E. by rewrite bool_decide_true in E.
Qed.

Lemma next_revision_ok n z : next_revision n = Some z -> exists r, n = Some r /\ z = r + 1.
Proof. unfold next_revision. destruct n as [r|]; [|done]. case_match; [|done]. intros [= <-]. eauto. Qed.

Lemma switch_checks_revisions x q :
  switch_checks localeCompare sha256hex sha256 hmac toISOString x = Ok q ->
  exists a c, ss_authorityRevision (sp_source (sx_plan x)) = Some a /\ sq_authorityRevision q = a + 1
    /\ ss_contentRevision (sp_source (sx_plan x)) = Some c /\ sq_contentRevision q = c + 1.
Proof.
  unfold switch_checks. intros H. do 6 (apply res_bind_ok in H as (? & _ & H)).
  destruct (sx_now x) as [t|]; [|done].
  destruct (next_revision (ss_authorityRevision _)) as [a|] eqn:Ea; [|done].
  destruct (next_revision (ss_contentRevision _)) as [c|] eqn:Ec; [|done].
  do 3 (apply res_bind_ok in H as (? & _ & H)). injection H as <-.
  apply next_revision_ok in Ea as (a0 & -> & ->), Ec as (c0 & -> & ->). by exists a0, c0.
Qed.

(** Where a payload comes from. *)
Lemma switch_scope_from x q fresh utc d s :
  s ∈ switch_scope localeCompare x q fresh utc d ->
  exists o c v, o ∈ st_operations d /\ switch_operation localeCompare x d utc o = true
    /\ c ∈ st_connections d /\ switch_source_connection x q d o c = true
    /\ v ∈ parent_versions d c /\ sz_parentVersionId s = v_id v
    /\ sz_targetId s = default fresh (ps_id <$> head (target_resource x d))
    /\ sz_risk s = o_risk o /\ sz_approvalPolicy s = o_approvalPolicy o.
Proof.
  unfold switch_scope. case_match; [|by intros ?%elem_of_nil].
  rewrite list_elem_of_In, in_flat_map. intros (o & Ho & H').
  apply list_elem_of_In, filterb_elem in Ho as [Hop Ho].
  apply in_flat_map in H' as (c & Hc & H'). apply list_elem_of_In, filterb_elem in Hc as [Hsc Hc].
  apply in_flat_map in H' as (g & _ & H'). apply in_flat_map in H' as (r & _ & H').
  apply in_map_iff in H' as (v & <- & Hv%list_elem_of_In). by exists o, c, v.
Qed.

(** The tables after the statements. *)
Lemma switch_statements_commit x q vid s d r d' :
  statements_ x q vid (Some s) d = Some (r, d') ->
  exists versions, insert_version (switch_version localeCompare sha256hex x q vid s) (st_versions d) = Some versions
    /\ st_versions d' = versions
    /\ st_connections d' = map (fun c => if connection_id c ==s ss_connectionId (sp_source (sx_plan x))
                                         then switched_connection localeCompare x (sz_targetId s) c else c) (st_connections d)
    /\ st_operations d' = map (fun o => if o_id o ==s xi_operationId (sx_identity x)
                                        then switched_operation localeCompare toISOString x (sq_now q) o else o) (st_operations d)
    /\ st_audits d' = st_audits d ++ [connection_audit x q; completion_audit x q s]
    /\ identity d' = identity d /\ st_approvals d' = st_approvals d
    /\ upsert_resource (switched_resource localeCompare x (sz_targetId s)) (st_resources d) = Some (st_resources d')
    /\ r = connection_at d' (ss_connectionId (sp_source (sx_plan x))).
Proof.
  unfold switch_statements, stmt_bind, when_row, query. intros H.
  destruct (move_connection _ _ x q vid s d) as [[[] d1]|] eqn:E1; [|done].
  unfold move_connection in E1.
  destruct (upsert_resource _ _) as [resources|] eqn:Eur; [|done].
  destruct (insert_version _ _) as [versions|] eqn:Ev; [|done]. injection E1 as <-.
  destruct (update_operations _ _ _) as [[[] d2]|] eqn:Eu; [|done]. apply update_operations_effect in Eu as [-> _].
  unfold audit_with, insert_audit in H. cbn in H. destruct (existsb _ (st_audits d)); [done|]. cbn in H.
  destruct (existsb _ (st_audits d ++ _)); [done|]. injection H as <- <-. cbn. exists versions.
  repeat (split; [done|]). split; [|done]. by rewrite <- app_assoc.
Qed.

Lemma switch_checks_projection x q :
  switch_checks localeCompare sha256hex sha256 hmac toISOString x = Ok q ->
  pj_fingerprint (sx_projection x) = tf_resourceFingerprint (sp_target (sx_plan x))
  /\ pj_database (sx_projection x) = tf_database (sp_target (sx_plan x)).
Proof.
  unfold switch_checks. intros H. do 4 (apply res_bind_ok in H as (? & _ & H)).
  apply res_bind_ok in H as (? & Hp & _). unfold throw_if in Hp. destruct (negb _) eqn:E; [done|].
  unfold projection_matches in E. apply negb_false_iff in E. by bools.
Qed.

(** The upsert leaves the row with the identifier of the one that had the key, if any did, and
    every row of another key. *)
Lemma upsert_resource_spec r t t' :
  upsert_resource r t = Some t' ->
  (forall e, e ∈ t -> ps_organization e = ps_organization r -> ps_provider e = ps_provider r ->
     ps_fingerprint e = ps_fingerprint r -> mkPResource (ps_id e) (ps_organization r) (ps_provider r) (ps_fingerprint r)
       (ps_resource r) (ps_metadata r) (ps_capabilities r) ∈ t')
  /\ ((forall e, e ∈ t -> ps_organization e = ps_organization r -> ps_provider e = ps_provider r ->
         ps_fingerprint e <> ps_fingerprint r) -> r ∈ t')
  /\ (forall e, e ∈ t -> ~ (ps_organization e = ps_organization r /\ ps_provider e = ps_provider r
                           /\ ps_fingerprint e = ps_fingerprint r) -> e ∈ t').
Proof.
  unfold upsert_resource. destruct (existsb _ t) eqn:E.
  - intros [= <-]. apply existsb_elem in E as (f & Hf & Hk). bools. split; [|split].
    + intros e He K1 K2 K3. apply list_elem_of_fmap. exists e. split; [|done]. rewrite !bool_decide_true by done. cbn. by rewrite K1, K2, K3.
    + intros Hn. by destruct (Hn f).
    + intros e He Hk. apply list_elem_of_fmap. exists e. split; [|done]. case_match; [|done]. bools. by destruct Hk.
  - destruct (existsb (fun e => ps_id e ==s ps_id r) t); [done|]. intros [= <-]. rewrite existsb_none in E. split; [|split].
    + intros e He H1 H2 H3. specialize (E e He). cbn in E. by rewrite !bool_decide_true in E.
    + intros _. apply elem_of_app. right. by left.
    + intros e He _. apply elem_of_app. by left.
Qed.

(** Every row after the upsert was there or has the new values. *)
Lemma upsert_resource_from r t t' e :
  upsert_resource r t = Some t' -> e ∈ t' ->
  e ∈ t \/ ps_resource e = ps_resource r /\ ps_metadata e = ps_metadata r /\ ps_capabilities e = ps_capabilities r.
Proof.
  unfold upsert_resource. destruct (existsb _ t).
  - intros [= <-] (f & -> & Hf)%list_elem_of_fmap. case_match; [by right|by left].
  - destruct (existsb _ t); [done|]. intros [= <-] [H| ->%list_elem_of_singleton]%elem_of_app; [by left|by right].
Qed.

(** The resource a connection links, with the row of its table. *)
Definition linked (d : store) (c : pconnection_row) (e : presource_row) : Prop :=
  e ∈ st_resources d /\ c_resource (pc c) = Some (ps_id e).

(** [c'], formerly [c], links the row of the discovered target. That row has the identifier of
    the row that had its key, if one had, and the rows of other keys stay. *)
Definition resource_switched (x : SwitchCompletionInput) (d d' : store) (c c' : pconnection_row) : Prop :=
  exists e, linked d' c' e /\ ps_organization e = c_organization (pc c) /\ ps_provider e = js "neon"
    /\ ps_fingerprint e = tf_resourceFingerprint (sp_target (sx_plan x)) /\ pc_target c' = Some (ps_resource e)
    /\ ps_metadata e = canonicalize localeCompare (VObj (pj_metadata (sx_projection x)))
    /\ ps_capabilities e = canonicalize localeCompare (capabilities_value (sx_projection x))
    /\ (forall f, f ∈ st_resources d -> ps_organization f = ps_organization e -> ps_provider f = ps_provider e ->
          ps_fingerprint f = ps_fingerprint e -> exists f', f' ∈ st_resources d' /\ ps_id f' = ps_id f /\ ps_resource f' = ps_resource e)
    /\ (forall f, f ∈ st_resources d -> ~ (ps_organization f = ps_organization e /\ ps_provider f = ps_provider e
          /\ ps_fingerprint f = ps_fingerprint e) -> f ∈ st_resources d')
    /\ ((exists f, f ∈ st_resources d /\ ps_id f = ps_id e /\ ps_organization f = ps_organization e
           /\ ps_provider f = ps_provider e /\ ps_fingerprint f = ps_fingerprint e)
        \/ (forall f, f ∈ st_resources d -> ps_organization f = ps_organization e -> ps_provider f = ps_provider e ->
             ps_fingerprint f <> ps_fingerprint e)).

Record switched (x : SwitchCompletionInput) (utc : Z) (d d' : store) (r : NeonBranchSwitchCompletionRecord)
    (o : operation_row) (c c' : pconnection_row) : Prop := {
  sd_operation : row_at d (xi_operationId (sx_identity x)) = Some o;
  sd_waiting : state_in (o_state o) [remote_started; reconciling] = true /\ o_claimId o = Some (sx_claimId x);
  sd_authority : identityAuthority (sx_identity x) d utc = true;
  sd_connection : connection_at d (ss_connectionId (sp_source (sx_plan x))) = Some c;
  sd_held : revocation_claim_id (c_gate (pc c)) = Some (sx_connectionClaimId x)
            /\ (forall l, l ∈ t_leases (identity d) -> l_connection l = c_id (pc c) ->
                  l_organization l = c_organization (pc c) -> l_revokedAt l <> None);
  sd_planned : ss_contentRevision (sp_source (sx_plan x)) = Some (pc_contentRevision c)
               /\ ss_authorityRevision (sp_source (sx_plan x)) = Some (c_revision (pc c) - 1);
  sd_moved : connection_at d' (connection_id c) = Some c' /\ gate_open (c_gate (pc c')) = true
             /\ pc_contentRevision c' = pc_contentRevision c + 1 /\ c_revision (pc c') = c_revision (pc c)
             /\ pc_target c' = Some (projected_resource localeCompare x)
             /\ pc_database c' = tf_database (sp_target (sx_plan x))
             /\ pc_environment c' = plan_label (tf_environment (sp_target (sx_plan x)));
  sd_linked : resource_switched x d d' c c';
  sd_others : forall other, other ∈ st_connections d -> connection_id other <> connection_id c -> other ∈ st_connections d';
  sd_completed : exists o', row_at d' (o_id o) = Some o' /\ o_state o' = succeeded
                 /\ o_providerResource o' = Some (bs_branchId (tf_branch (sp_target (sx_plan x))));
  sd_version : exists v v', v ∈ st_versions d /\ v' ∈ st_versions d' /\ v' ∉ st_versions d
               /\ v_resource v = connection_id c /\ v_revision v = pc_contentRevision c
               /\ v_resource v' = connection_id c /\ v_revision v' = pc_contentRevision c'
               /\ v_parent v' = Some (v_id v) /\ v_base v' = Some (v_revision v);
  sd_audited : exists a b, st_audits d' = st_audits d ++ [
      mkAudit a (c_organization (pc c)) (pa_userId (xi_authority (sx_identity x)))
        (js "connection.provider_target.switch") (js "connection") (connection_id c)
        (VObj [(js "provider", VStr (js "neon"));
               (js "sourceBranchId", VStr (bs_branchId (ss_branch (sp_source (sx_plan x)))));
               (js "targetBranchId", VStr (bs_branchId (tf_branch (sp_target (sx_plan x)))));
               (js "contentRevision", VNum (show_Z (pc_contentRevision c'))); (js "authorityRevision", VNum (show_Z (c_revision (pc c'))));
               (js "activeLeaseCount", num_json (im_activeLeaseCount (sp_impact (sx_plan x))))]) (sx_claimId x);
      mkAudit b (c_organization (pc c)) (pa_userId (xi_authority (sx_identity x)))
        (js "provider.operation.succeeded") (js "provider_operation") (o_id o)
        (VObj [(js "provider", VStr (js "neon")); (js "kind", VStr (js "neon.branch.switch"));
               (js "connectionId", VStr (connection_id c));
               (js "sourceBranchId", VStr (bs_branchId (ss_branch (sp_source (sx_plan x)))));
               (js "targetBranchId", VStr (bs_branchId (tf_branch (sp_target (sx_plan x)))));
               (js "resourceFingerprint", VStr (tf_resourceFingerprint (sp_target (sx_plan x))));
               (js "risk", VStr (o_risk o)); (js "approvalPolicy", VStr (o_approvalPolicy o))]) (sx_claimId x)];
  sd_frame : identity d' = identity d /\ st_approvals d' = st_approvals d
             /\ (forall other, other ∈ st_operations d -> o_id other <> o_id o -> other ∈ st_operations d')
             /\ (forall v, v ∈ st_versions d -> v ∈ st_versions d');
  sd_result : r = mkSwitchRecord (o_id o) (connection_id c) (pc_contentRevision c') (c_revision (pc c'))
                    (bs_branchId (tf_branch (sp_target (sx_plan x)))) }.

Lemma switched_ids x t p l :
  map connection_id (map (fun c => if p c : bool then switched_connection localeCompare x t c else c) l) = map connection_id l.
Proof. rewrite map_map. apply map_ext. intros c. by case_match. Qed.

(** The connection links the row of the discovered target. *)
Lemma switched_linked x d d' s c :
  c_organization (pc c) = pa_organizationId (xi_authority (sx_identity x)) ->
  upsert_resource (switched_resource localeCompare x (sz_targetId s)) (st_resources d) = Some (st_resources d') ->
  (exists fresh, sz_targetId s = default fresh (ps_id <$> head (target_resource x d))) ->
  pj_fingerprint (sx_projection x) = tf_resourceFingerprint (sp_target (sx_plan x)) ->
  resource_switched x d d' c (switched_connection localeCompare x (sz_targetId s) c).
Proof.
  intros Ho Hu [fresh Ht] Hfp. apply upsert_resource_spec in Hu as (Hsame & Hnew & Hother). cbn in Hsame, Hnew, Hother.
  exists (switched_resource localeCompare x (sz_targetId s)). cbn. rewrite Ho, <- Hfp.
  assert (switched_resource localeCompare x (sz_targetId s) ∈ st_resources d'
    /\ ((exists f, f ∈ st_resources d /\ ps_id f = sz_targetId s
           /\ ps_organization f = pa_organizationId (xi_authority (sx_identity x)) /\ ps_provider f = js "neon"
           /\ ps_fingerprint f = pj_fingerprint (sx_projection x))
        \/ (forall f, f ∈ st_resources d -> ps_organization f = pa_organizationId (xi_authority (sx_identity x)) ->
             ps_provider f = js "neon" -> ps_fingerprint f <> pj_fingerprint (sx_projection x)))) as [Hin Hold].
  { destruct (target_resource x d) as [|f l] eqn:E.
    - assert (forall f, f ∈ st_resources d -> ps_organization f = pa_organizationId (xi_authority (sx_identity x)) ->
        ps_provider f = js "neon" -> ps_fingerprint f <> pj_fingerprint (sx_projection x)) as Hn; [|by auto].
      intros f Hf H1 H2 H3. assert (f ∈ target_resource x d) as Hin; [|rewrite E in Hin; by apply elem_of_nil in Hin].
      apply filterb_elem. split; [|done]. by rewrite !bool_decide_true.
    - assert (f ∈ target_resource x d) as Hin by (rewrite E; by left). apply filterb_elem in Hin as [Hk Hf]. bools. cbn in Ht.
      split; [|left; by exists f]. unfold switched_resource. rewrite Ht. by apply Hsame. }
  split; [by split|]. do 6 (split; [done|]). split; [|by split].
  intros f Hf H1 H2 H3. eexists. split; [by apply (Hsame f)|]. done.
Qed.

(** The commit, given the rows of its scope. *)
Lemma switch_commits x q vid utc d d' s o c v versions :
  NoDup (ids d) -> NoDup (map connection_id (st_connections d)) ->
  o ∈ st_operations d -> switch_operation localeCompare x d utc o = true ->
  c ∈ st_connections d -> switch_source_connection x q d o c = true -> v ∈ parent_versions d c ->
  sz_parentVersionId s = v_id v ->
  sq_contentRevision q = pc_contentRevision c + 1 ->
  ss_authorityRevision (sp_source (sx_plan x)) = Some (sq_authorityRevision q - 1) ->
  insert_version (switch_version localeCompare sha256hex x q vid s) (st_versions d) = Some versions ->
  st_versions d' = versions ->
  st_connections d' = map (fun c => if connection_id c ==s ss_connectionId (sp_source (sx_plan x))
                                    then switched_connection localeCompare x (sz_targetId s) c else c) (st_connections d) ->
  st_operations d' = map (fun o => if o_id o ==s xi_operationId (sx_identity x)
                                   then switched_operation localeCompare toISOString x (sq_now q) o else o) (st_operations d) ->
  st_audits d' = st_audits d ++ [connection_audit x q; completion_audit x q s] ->
  identity d' = identity d -> st_approvals d' = st_approvals d ->
  upsert_resource (switched_resource localeCompare x (sz_targetId s)) (st_resources d) = Some (st_resources d') ->
  (exists fresh, sz_targetId s = default fresh (ps_id <$> head (target_resource x d))) ->
  sz_risk s = o_risk o -> sz_approvalPolicy s = o_approvalPolicy o ->
  pj_fingerprint (sx_projection x) = tf_resourceFingerprint (sp_target (sx_plan x)) ->
  pj_database (sx_projection x) = tf_database (sp_target (sx_plan x)) ->
  exists r, switch_completion_result x q (connection_at d' (ss_connectionId (sp_source (sx_plan x)))) = Some r
    /\ switched x utc d d' r o c (switched_connection localeCompare x (sz_targetId s) c).
Proof.
  intros Hn Hcn Ho Hop Hcin Hsc Hv Hpv Hrev Hauth Hiv Hver Hcon Hops Haud Hident Happ Hres Htarget Hrisk Hpolicy Hfp Hdb.
  set (c' := switched_connection localeCompare x (sz_targetId s) c).
  unfold switch_operation, same_scope in Hop. unfold switch_source_connection in Hsc.
  unfold parent_versions in Hv. apply filterb_elem in Hv as [Hvp Hv]. bools. unfold sql_eq in *. bools.
  assert (connection_id c = ss_connectionId (sp_source (sx_plan x))) as Hcid by done.
  assert (connection_at d' (connection_id c) = Some c') as Hat.
  { apply (connection_at_of d' c'); rewrite Hcon; [by rewrite switched_ids|].
    apply list_elem_of_fmap. exists c. split; [|done]. by rewrite Hcid, bool_decide_true. }
  rewrite <- Hcid, Hat. cbn. eexists. split.
  { rewrite Hrev. rewrite bool_decide_true, Z.eqb_refl by done. cbn.
    match goal with H : (c_revision (pc c) =? _) = true |- _ => rewrite H end. cbn. reflexivity. }
  assert (o_id o = xi_operationId (sx_identity x)) as Hid by done.
  split.
  - rewrite <- Hid. by apply row_at_of.
  - done.
  - done.
  - rewrite <- Hcid. by apply connection_at_of.
  - split; [done|]. match goal with H : existsb _ (t_leases _) = false |- _ => rename H into Hleases end.
    rewrite existsb_none in Hleases. intros l Hl E1 E2 E3. specialize (Hleases l Hl).
    by rewrite !bool_decide_true in Hleases by done.
  - split; [done|]. match goal with H : (c_revision (pc c) =? _) = true |- _ => apply Z.eqb_eq in H; rewrite H end. done.
  - split; [done|]. split; [done|]. split; [done|]. split; [done|]. split; [done|]. by split.
  - apply (switched_linked x d d' s c); [congruence|done..].
  - intros other Hother Hne. rewrite Hcon. apply list_elem_of_fmap. exists other. split; [|done].
    by rewrite bool_decide_false by congruence.
  - exists (switched_operation localeCompare toISOString x (sq_now q) o). split; [|done].
    assert (ids d' = ids d) as Hids.
    { unfold ids. rewrite Hops, map_map. apply map_ext. intros o2. by case_match. }
    apply (row_at_of d' (switched_operation localeCompare toISOString x (sq_now q) o)); [by rewrite Hids|].
    rewrite Hops. apply list_elem_of_fmap. exists o. split; [|done]. by rewrite bool_decide_true.
  - unfold insert_version in Hiv. destruct (existsb _ (st_versions d)) eqn:Eex; [done|]. injection Hiv as <-.
    exists v, (switch_version localeCompare sha256hex x q vid s). split; [done|].
    split; [rewrite Hver; apply elem_of_app; right; by left|]. split.
    { intros Hin. rewrite existsb_none in Eex. specialize (Eex _ Hin). apply orb_false_iff in Eex as [Eex _]. by bools. }
    match goal with H : (v_revision v =? _) = true |- _ => apply Z.eqb_eq in H; rename H into Hvr end.
    cbn. rewrite Hpv, Hvr. split; [done|]. split; [done|]. split; [done|]. split; [done|]. done.
  - exists (sq_connectionAudit q), (sq_operationAudit q). rewrite Haud. do 2 f_equal; [|f_equal].
    + unfold connection_audit, switch_audit. cbn. rewrite Hrev. unfold num_value.
      match goal with H : (c_revision (pc c) =? _) = true |- _ => apply Z.eqb_eq in H; rewrite H end. f_equal; congruence.
    + unfold completion_audit, switch_audit. cbn. rewrite Hrisk, Hpolicy. f_equal; congruence.
  - split; [done|]. split; [done|]. split.
    + intros other Hother Hne. rewrite Hops. apply list_elem_of_fmap. exists other. split; [|done].
      by rewrite bool_decide_false by congruence.
    + intros w Hw. unfold insert_version in Hiv. case_match; [done|]. injection Hiv as <-. rewrite Hver. apply elem_of_app. by left.
  - cbn. rewrite Hid. done.
Qed.


End switch_facts.
