(* ===== verification/OperationReplay.v ===== *)
(** * Repeated requests for provider operations

    A retried request must not do its work twice: one plan per idempotency key, one
    terminal decision, one execution claim and one remote start, each repeated request
    being answered from what the first one wrote. The file also shows that an expired plan
    can always be closed. *)

From S2P Require Import Prelude JsString JsMap JsValue JsSort Regex NeonBranches NeonCreatePlan NeonDeletePlan.
From S2P Require Import NeonSwitchPlan RevocationGate D1Batch OperationRecords OperationPlan.
From S2P Require Import OperationExecution OperationSwitch OperationInv OperationFacts.
From Stdlib Require String.
Import Stdlib.Strings.String.StringSyntax.
Local Open Scope Z_scope.

(** ** Unique keys *)

Definition key_of (o : operation_row) : jsstr * jsstr := (o_organization o, o_idempotencyKey o).
Definition approval_key (a : approval_row) : jsstr * jsstr := (ap_organization a, ap_operation a).

Lemma findb_unique {A K} (key : A -> K) (p : A -> bool) l a :
  NoDup (map key l) -> a ∈ l -> (forall b, b ∈ l -> p b = true <-> key b = key a) -> findb p l = Some a.
Proof.
  intros Hn Ha Hp. assert (findb p l = head (filterb p l)) as ->; [|by rewrite (filterb_unique key p l a)].
  clear. induction l as [|b l IH]; cbn; [done|]. by destruct (p b).
Qed.

Section replay.
Context (localeCompare : jsstr -> jsstr -> Z) (sha256hex : jsstr -> jsstr) (sha256 : jsstr -> list Z).
Context (hmac : jsstr -> jsstr) (json_parse : jsstr -> option value).
Context (toISOString : Z -> jsstr) (date_parse : jsstr -> option Z).

Notation run1 := (run1 localeCompare sha256hex sha256 hmac json_parse toISOString date_parse).
Notation run := (run localeCompare sha256hex sha256 hmac json_parse toISOString date_parse).
Notation moved := (moved localeCompare sha256hex sha256 hmac json_parse toISOString date_parse).
Notation start_ := (markProviderOperationRemoteStarted sha256 hmac).
Notation claim_ := (claimProviderOperationExecution sha256 hmac).
Notation cancel_ := (cancelExpiredProviderOperationExecution sha256 hmac).
Notation record_ := (recordProviderOperationPlan localeCompare sha256hex sha256 hmac json_parse toISOString date_parse).
Notation decide_ := (decideProviderOperation sha256 hmac).

(** States in which the provider has not been called. *)
Definition unstarted_states : list ProviderOperationState := [awaiting_approval; approved; claimed].

Record settled (d : store) : Prop := {
  se_wf : well_formed d;
  se_keys : NoDup (map key_of (st_operations d));
  se_approvals : NoDup (map approval_key (st_approvals d));
  se_decided : forall a, a ∈ st_approvals d ->
    exists o, o ∈ st_operations d /\ approval_of o a = true /\ o_state o <> awaiting_approval;
  se_unstarted : forall o, o ∈ st_operations d -> state_in (o_state o) unstarted_states = true ->
    o_providerOperation o = None /\ o_providerResource o = None }.

(** What a plan fixes survives a move of any row. *)
Lemma rows_change_same {B} (g : operation_row -> B) d e t t' :
  (forall o o', plan_part o' = plan_part o -> g o' = g o) -> rows_change (moved d e) t t' -> map g t' = map g t.
Proof.
  intros Hg. induction 1 as [|o o' t t' [->|Hm] _ IH]; cbn; [done| |]; f_equal; try done.
  by apply Hg, (moved_plan _ _ _ _ _ _ _ _ _ _ _ Hm).
Qed.

Lemma plan_part_key o o' : plan_part o' = plan_part o -> key_of o' = key_of o.
Proof. unfold plan_part, key_of. congruence. Qed.

Lemma run1_idempotency_keys d e : settled d -> NoDup (map key_of (st_operations (run1 d e))).
Proof.
  intros [[Hn _] Hk _ _ _].
  destruct (run1_rows localeCompare sha256hex sha256 hmac json_parse toISOString date_parse d e Hn)
    as [H|(x & utc & o & _ & -> & now & expires & audit & _ & -> & _ & _ & Hkey)].
  - by rewrite (rows_change_same key_of d e _ _ plan_part_key H).
  - rewrite map_app. apply NoDup_app. split; [done|]. split; [|apply NoDup_singleton].
    intros k (e0 & -> & He)%list_elem_of_fmap Hin%list_elem_of_singleton. specialize (Hkey e0 He).
    unfold same_key in Hkey. unfold key_of in Hin. cbn in Hin. simplify_eq.
    by rewrite !bool_decide_true in Hkey by congruence.
Qed.

Lemma run1_approval_keys d e : settled d -> NoDup (map approval_key (st_approvals (run1 d e))).
Proof.
  intros [[Hn _] _ Ha _ _].
  destruct (run1_approvals localeCompare sha256hex sha256 hmac json_parse toISOString date_parse d e Hn)
    as [->|(x & dec & now & aid & utc & _ & [->|(i & n & -> & Hfresh & _)])]; try done.
  rewrite map_app. apply NoDup_app. split; [done|]. split; [|apply NoDup_singleton].
  intros k (a & -> & Hin)%list_elem_of_fmap Heq%list_elem_of_singleton. apply (Hfresh a Hin).
  unfold approval_key in Heq. cbn in Heq. by simplify_eq.
Qed.

Lemma run1_decided d e a :
  settled d -> a ∈ st_approvals (run1 d e) ->
  exists o, o ∈ st_operations (run1 d e) /\ approval_of o a = true /\ o_state o <> awaiting_approval.
Proof.
  intros [Hwf _ _ Hdec _] Ha. pose proof (proj1 Hwf) as Hn.
  assert (a ∈ st_approvals d ->
    exists o, o ∈ st_operations (run1 d e) /\ approval_of o a = true /\ o_state o <> awaiting_approval) as Hold.
  { intros (o & Ho & Hof & Hst)%Hdec. pose proof (row_at_of d o Hn Ho) as Hr.
    destruct (row_at_step localeCompare sha256hex sha256 hmac json_parse toISOString date_parse d e _ o Hn Hr)
      as (o' & [Hin _]%row_at_in & Hor). exists o'. split; [done|]. destruct Hor as [->|Hm]; [done|].
    destruct (moved_advanced _ _ _ _ _ _ _ (st_approvals d) d e o o' (proj2 Hwf o Ho) Hm) as [Hp Hs _ _ _ _]. split.
    - unfold approval_of in *. unfold plan_part in Hp. by injection Hp as -> ->.
    - intros E. rewrite E in Hs. by destruct (o_state o). }
  destruct (run1_approvals localeCompare sha256hex sha256 hmac json_parse toISOString date_parse d e Hn)
    as [Heq|(x & dec & now & aid & utc & _ & [Heq|(i & n & Heq & _ & o & Ho & Hof & Hst)])];
    rewrite Heq in Ha; auto.
  apply elem_of_app in Ha as [Ha| ->%list_elem_of_singleton]; eauto.
Qed.

Lemma moved_unstarted d e o o' :
  moved d e o o' -> row_ok (st_approvals d) o -> state_in (o_state o') unstarted_states = true ->
  (state_in (o_state o) unstarted_states = true -> o_providerOperation o = None /\ o_providerResource o = None) ->
  o_providerOperation o' = None /\ o_providerResource o' = None.
Proof.
  intros Hm Hok Hst Hprior. pose proof (ad_state _ _ (moved_advanced _ _ _ _ _ _ _ _ _ _ _ _ Hok Hm)) as Hs.
  assert (state_in (o_state o) unstarted_states = true) as Hun.
  { clear -Hs Hst. by destruct (o_state o), (o_state o'). }
  specialize (Hprior Hun). destruct Hm as [_ Hm]. destruct e; cbn in Hm; try done.
  - by destruct Hm as (_ & _ & _ & n & ->).
  - by destruct Hm as (_ & n & ->).
  - destruct Hm as (_ & n & ->). unfold claim_update. by case_match.
  - by destruct Hm as (_ & n & ->).
  - destruct Hm as (Hcan%reconcilable_states & _). exfalso. destruct Hcan as [E|[E|[E _]]]; by rewrite E in Hun.
  - by destruct Hm as (_ & n & ->).
  - destruct Hm as (_ & n & ->). done.
Qed.

Lemma run1_settled d e : settled d -> settled (run1 d e).
Proof.
  intros Hse. pose proof Hse as [Hwf _ _ _ Hun]. pose proof (proj1 Hwf) as Hn.
  pose proof (run1_well_formed localeCompare sha256hex sha256 hmac json_parse toISOString date_parse d e Hwf) as Hwf'.
  split; [done|by apply run1_idempotency_keys|by apply run1_approval_keys|intros a; by apply run1_decided|].
  intros o' Ho' Hst. pose proof (row_at_of _ o' (proj1 Hwf') Ho') as Hr'.
  destruct (row_at_back localeCompare sha256hex sha256 hmac json_parse toISOString date_parse d e _ o' Hn Hr')
    as [(o & [Ho _]%row_at_in & [->|Hm])|(x & utc & _ & now & expires & audit & _ & -> & _)].
  - by apply Hun.
  - eapply moved_unstarted; [done|by apply Hwf|done|by apply Hun].
  - done.
Qed.

Lemma run_settled d es : settled d -> settled (run d es).
Proof. revert d. induction es as [|e es IH]; intros d H; cbn; [done|]. by apply IH, run1_settled. Qed.

Lemma reachable_settled d es : no_operations d -> settled (run d es).
Proof.
  intros Hno. apply run_settled. pose proof (no_operations_ok d Hno) as Hwf. destruct Hno as [Ho Ha].
  split; [done|rewrite Ho; constructor|rewrite Ha; constructor| |].
  - rewrite Ha. by intros a ?%elem_of_nil.
  - rewrite Ho. by intros o ?%elem_of_nil.
Qed.
(** ** One plan per key *)

Lemma same_key_iff d y o :
  o ∈ st_operations d -> same_key y o = true ->
  forall e, e ∈ st_operations d -> same_key y e = true <-> key_of e = key_of o.
Proof.
  intros _ Ho e _. unfold same_key, key_of in *. bools. split.
  - intros H'. bools. congruence.
  - intros E. injection E as -> ->. rewrite !bool_decide_true by congruence. done.
Qed.

Lemma operation_state_name s : operation_state (state_name s) = Some s.
Proof. by destruct s. Qed.

(** What a plan that was read says of its row. *)
Lemma read_plan_ok o s r :
  read_plan localeCompare sha256hex hmac json_parse toISOString date_parse o s = Ok (Some r) ->
  exists o', o = Some o' /\ pr_id r = o_id o' /\ pr_planHash r = o_planHash o' /\ pr_state r = o_state o'
    /\ pr_replayed r = negb (o_id o' ==s rs_operationId s).
Proof.
  unfold read_plan, planRecord. destruct o as [o|]; cbn -[state_name operation_state planDate plan_column safeRedactedValue plan_matches_row]; [|done]. intros H. exists o. split; [done|].
  destruct (plan_column json_parse (o_redactedPlan o)) as [[]|]; try done.
  destruct (planDate date_parse _) as [expires|]; [|done].
  rewrite operation_state_name in H.
  case_match; [done|]. destruct (safeRedactedValue _ _); cbn in H; [|done]. case_match; [done|].
  destruct (verifyProviderOperationOwnershipMarker _ _ _); cbn in H; [|done]. case_match; [done|].
  by injection H as <-.
Qed.

(** C26: recording a plan under an idempotency key that the workspace already used changes nothing;
    an answer is the stored operation, is marked as replayed when its identifier is another
    one, and is only given when the request is the same. *)
Theorem record_idempotent d es y utc o :
  no_operations d -> o ∈ st_operations (run d es) -> same_key y o = true ->
  snd (record_ y utc (run d es)) = run d es
  /\ forall r, fst (record_ y utc (run d es)) = Ok (Some r) ->
       same_request y o = true /\ pr_id r = o_id o /\ pr_planHash r = o_planHash o /\ pr_state r = o_state o
       /\ pr_replayed r = negb (o_id o ==s rc_operationId y).
Proof.
  intros Hno Ho Hkey. pose proof (reachable_settled d es Hno) as Hse. set (d1 := run d es) in *. clearbody d1.
  assert (filterb (same_key y) (st_operations d1) = [o]) as Hex.
  { apply (filterb_unique key_of); [apply Hse|done|]. by apply (same_key_iff d1). }
  unfold recordProviderOperationPlan, after. destruct (record_checks _ _ _ _ _ y) as [[[now expires] audit]|]; [|done].
  rewrite reading_snd. unfold reading. destruct (atomicD1 _ _ d1) as [[row|err] d2] eqn:Er; cbn.
  - apply atomicD1_ok in Er as [[_ Hs]|([id created] & Hc & Hs)].
    { unfold record_statements, stmt_bind, cmd_when, stmt_ret, query in Hs. simplify_eq. split; [done|].
      intros r Hr. by apply read_plan_ok in Hr as (? & ? & _). }
    assert ((id, created) ∈ record_scope y utc d1) as Hin by (rewrite Hc; by left).
    unfold record_scope in Hin. rewrite Hex in Hin. apply list_elem_of_fmap in Hin as (i & [= -> ->] & [Hi _]%filterb_elem).
    cbn in Hi. rewrite orb_false_r in Hi. bools.
    unfold record_statements, stmt_bind, cmd_when, stmt_ret, query in Hs. simplify_eq. split; [done|].
    intros r Hr. apply read_plan_ok in Hr as (o' & Ho' & Hid & Hh & Hs & Hrep).
    pose proof (row_at_of _ o (proj1 (se_wf _ Hse)) Ho) as E. unfold row_at in E. rewrite E in Ho'. by simplify_eq.
  - pose proof (atomicD1_throw (record_scope y utc) (record_statements localeCompare y now expires audit) d1 err) as H.
    rewrite Er in H. cbn in H. split; [by apply H|done].
Qed.

(** ** One decision *)

Lemma approval_of_key o a : approval_of o a = true <-> approval_key a = (o_organization o, o_id o).
Proof.
  unfold approval_of, approval_key. split; intros H; [bools; congruence|].
  injection H as -> ->. by rewrite !bool_decide_true.
Qed.

(** The row of an operation that has an approval. *)
Lemma decided_row d a o :
  settled d -> a ∈ st_approvals d -> o ∈ st_operations d -> o_id o = ap_operation a -> o_state o <> awaiting_approval.
Proof.
  intros Hse Ha Ho Hid. destruct (se_decided _ Hse a Ha) as (o2 & Ho2 & Hof & Hst). unfold approval_of in Hof. bools.
  by rewrite (same_id d o o2 (proj1 (se_wf _ Hse)) Ho Ho2) by congruence.
Qed.

Lemma map_none {A} (p : A -> bool) (f : A -> A) l : (forall a, a ∈ l -> p a = false) -> map (fun a => if p a then f a else a) l = l.
Proof.
  induction l as [|a l IH]; cbn; intros H; [done|]. rewrite H by (by left). f_equal. apply IH. intros b Hb. apply H. by right.
Qed.

(** An update of no row, or of rows it leaves as they are. *)
Lemma update_nothing p f d :
  (forall o, o ∈ st_operations d -> p o = true -> row_checks (f o) = true /\ f o = o) ->
  update_operations p f d = Some (tt, d).
Proof.
  intros H. unfold update_operations. rewrite (proj2 (forallb_elem _ _)).
  - f_equal. f_equal. destruct d as [i c r v t a u]. unfold set_operations. cbn in *. f_equal.
    induction t as [|o t IH]; cbn; [done|]. f_equal.
    + destruct (p o) eqn:E; [|done]. by apply H; [left|].
    + apply IH. intros o' Ho. apply H. by right.
  - intros o Ho. destruct (p o) eqn:E; [|done]. cbn. by apply H.
Qed.

(** once an operation of the workspace has a decision, deciding it again changes nothing; only
    the person who decided, with the same decision and plan, gets that decision back. *)
Theorem decision_is_final d es x dec now aid utc a :
  no_operations d -> a ∈ st_approvals (run d es) ->
  ap_organization a = pa_organizationId (xi_authority x) -> ap_operation a = xi_operationId x ->
  snd (decide_ x dec now aid utc (run d es)) = run d es
  /\ forall r, fst (decide_ x dec now aid utc (run d es)) = Ok (Some r) ->
       dec = ap_decision a /\ own_approval x dec a = true /\ ap_planHash a = xi_planHash x
       /\ dr_decision r = dec /\ dr_approvalId r = ap_id a /\ dr_replayed r = negb (ap_id a ==s aid).
Proof.
  intros Hno Ha Horg Hop. pose proof (reachable_settled d es Hno) as Hse. set (d1 := run d es) in *. clearbody d1.
  pose proof (proj1 (se_wf _ Hse)) as Hn.
  assert (forall m p, update_operations (fun o => (o_id o ==s xi_operationId x) && bool_decide (o_state o = awaiting_approval)
            && p) (decide_update dec m) d1 = Some (tt, d1)) as Hnone.
  { intros m p. apply update_nothing. intros o Ho H. bools.
    destruct (decided_row d1 a o Hse Ha Ho); congruence. }
  unfold decideProviderOperation, after. destruct (decide_checks _ _ x now) as [[n audit]|]; [|done].
  rewrite reading_snd. unfold reading. destruct (atomicD1 _ _ d1) as [[row|err] d2] eqn:Er; cbn.
  - apply atomicD1_ok in Er as [[_ Hs]|([id created] & Hc & Hs)].
    { unfold decide_statements, stmt_bind, cmd_when, stmt_ret, when_row, query in Hs. rewrite Hnone in Hs.
      unfold stmt_ret in Hs. cbn in Hs. simplify_eq. done. }
    assert ((id, created) ∈ decide_scope x dec utc d1) as Hin by (rewrite Hc; by left).
    unfold decide_scope in Hin. apply list_elem_of_fmap in Hin as (o & [= -> ->] & [Hp Ho]%filterb_elem).
    apply andb_true_iff in Hp as [Hdec Hprior]. apply negb_true_iff in Hprior. rewrite existsb_none in Hprior.
    assert (o_id o = xi_operationId x /\ o_organization o = pa_organizationId (xi_authority x)) as [Hid Ho'].
    { unfold decidable_operation, names_operation, same_scope in Hdec. bools. done. }
    assert (approval_of o a = true) as Hof by (unfold approval_of; by rewrite !bool_decide_true by congruence).
    assert (existsb (approval_of o) (st_approvals d1) = true) as Hex by (apply existsb_elem; eauto).
    rewrite Hex in Hs. unfold decide_statements, stmt_bind, cmd_when, stmt_ret, when_row, query in Hs. cbn in Hs.
    rewrite Hnone in Hs. unfold stmt_ret in Hs. cbn in Hs. simplify_eq. split; [done|]. intros r Hr.
    specialize (Hprior a Ha). rewrite Hof in Hprior. cbn in Hprior. bools.
    pose proof (row_at_of _ o Hn Ho) as Hrow. unfold row_at in Hrow. rewrite Hid in Hrow.
    assert (findb (approval_of o) (st_approvals d2) = Some a) as Hfind.
    { apply (findb_unique approval_key); [apply Hse|done|]. intros b _. rewrite approval_of_key.
      by rewrite (proj1 (approval_of_key o a) Hof). }
    cbn in Hr. rewrite Hrow in Hr. cbn in Hr. rewrite Hfind in Hr. cbn in Hr. case_match; [|done]. simplify_eq. bools.
    by subst dec.
  - pose proof (atomicD1_throw (decide_scope x dec utc) (decide_statements x dec aid audit n) d1 err) as H.
    rewrite Er in H. cbn in H. split; [by apply H|done].
Qed.

(** ** One claim and one start *)

(** A transition that has nothing left to do. *)
Lemma transition_noop c f audit d :
  (forall o, o ∈ st_operations d -> is_candidate c o = true -> row_checks (f o) = true /\ f o = o) ->
  (forall o, row_of c d = Some o -> audit c o = stmt_ret tt) ->
  transition (Some c) f audit d = Some ((fun o => (c, o)) <$> row_of c d, d).
Proof.
  intros Hf Ha. unfold transition, stmt_bind, query, when_row. rewrite (update_nothing (is_candidate c) f d Hf).
  destruct (row_of c d) as [o|] eqn:E; [rewrite (Ha o eq_refl)|]; unfold stmt_ret; by rewrite E.
Qed.

(** A command whose only possible candidate needs no change. *)
Lemma batch_noop (p : store -> operation_row -> bool) f audit d :
  NoDup (ids d) ->
  (forall c, c ∈ st_operations d -> p d c = true -> row_checks (f c) = true /\ f c = c /\ audit c c = stmt_ret tt) ->
  snd (atomicD1 (fun d => filterb (p d) (st_operations d)) (fun c => transition c f audit) d) = d
  /\ forall r, fst (atomicD1 (fun d => filterb (p d) (st_operations d)) (fun c => transition c f audit) d) = Ok r ->
       r = None \/ exists c, c ∈ st_operations d /\ p d c = true /\ r = Some (c, c).
Proof.
  intros Hn H. destruct (atomicD1 _ _ d) as [[r|e] d'] eqn:Er; cbn.
  - apply atomicD1_ok in Er as [[_ Hs]|(c & Hc & Hs)].
    { cbn in Hs. unfold transition, stmt_bind, query, when_row, stmt_ret in Hs. simplify_eq. split; [done|]. naive_solver. }
    assert (c ∈ filterb (p d) (st_operations d)) as [Hp Hcin]%filterb_elem by (rewrite Hc; by left).
    assert (row_of c d = Some c) as Hrow by exact (row_at_of d c Hn Hcin).
    destruct (H c Hcin Hp) as (Hchk & Hf & Ha).
    rewrite transition_noop in Hs.
    + rewrite Hrow in Hs. simplify_eq. split; [done|]. intros r [= <-]. right. by exists c.
    + intros o Ho Hcand. by rewrite (candidate_is_row d c o).
    + rewrite Hrow. by intros o [= <-].
  - pose proof (atomicD1_throw (fun d => filterb (p d) (st_operations d)) (fun c => transition c f audit) d e) as Ht.
    rewrite Er in Ht. cbn in Ht. split; [by apply Ht|done].
Qed.

(** claiming a claimed operation again changes nothing and returns the claim it has, never a
    new one. *)
Theorem claim_is_kept d es x o cid now other utc :
  no_operations d -> row_at (run d es) (xi_operationId x) = Some o -> o_claimId o = Some cid ->
  snd (claim_ x now other utc (run d es)) = run d es
  /\ forall r, fst (claim_ x now other utc (run d es)) = Ok (Some r) ->
       ec_claimId r = cid /\ ec_claimedNow r = false /\ ec_state r = o_state o.
Proof.
  intros Hno Hr Hcid. pose proof (reachable_settled d es Hno) as Hse. set (d1 := run d es) in *. clearbody d1.
  pose proof (se_wf _ Hse) as Hwf. pose proof (row_at_in _ _ _ Hr) as [Hin Hid].
  pose proof (checked_row o (ok_state_checks _ _ (proj2 Hwf o Hin))) as Hrow.
  assert (bool_decide (o_state o = approved) = false) as Hst.
  { apply bool_decide_eq_false. intros E. rewrite E in Hrow. destruct Hrow as [? _]. congruence. }
  unfold claimProviderOperationExecution, after. destruct (claim_checks _ _ x now other) as [[n audit]|]; [|done].
  rewrite reading_snd. unfold reading.
  assert (forall c, c ∈ st_operations d1 -> can_claim x d1 utc c = true -> c = o) as Hone.
  { intros c Hc Hp. unfold can_claim, names_operation, same_scope in Hp. bools.
    apply (same_id d1); [apply Hwf|done..|congruence]. }
  edestruct (batch_noop (fun d o => can_claim x d utc o) (claim_update other n)) as [Hd Hres]; [apply Hwf| |].
  2: { split; [exact Hd|]. intros r Hf. cbn in Hf. destruct (fst (atomicD1 _ _ d1)) as [row|] eqn:E; [|done].
       destruct (Hres _ eq_refl) as [->|(c & Hc & Hp & ->)]; [done|]. rewrite (Hone c Hc Hp) in Hf. cbn in Hf.
       rewrite Hcid in Hf. case_match; [|done]. simplify_eq. cbn. by rewrite Hst. }
  intros c Hc Hp. rewrite (Hone c Hc Hp). unfold claim_update. rewrite Hst. split; [|done].
  apply ok_checks with (t := st_approvals d1). by apply Hwf.
Qed.

Lemma start_update_idle n utc o : o_state o <> claimed -> start_update n utc o = o.
Proof. intros Hs. unfold start_update. rewrite bool_decide_false by done. by destruct o. Qed.

(** starting an operation that was started changes nothing and never gives the permission to
    call the provider again. *)
Theorem start_is_kept d es x o cid now utc utc' :
  no_operations d -> row_at (run d es) (xi_operationId x) = Some o -> is_set (o_remoteStartedAt o) = true ->
  snd (start_ x cid now utc utc' (run d es)) = run d es
  /\ forall r, fst (start_ x cid now utc utc' (run d es)) = Ok (Some r) ->
       sr_startedNow r = false /\ sr_state r = o_state o /\ o_claimId o = Some cid.
Proof.
  intros Hno Hr Hset. pose proof (reachable_settled d es Hno) as Hse. set (d1 := run d es) in *. clearbody d1.
  pose proof (se_wf _ Hse) as Hwf. pose proof (row_at_in _ _ _ Hr) as [Hin Hid].
  pose proof (proj2 Hwf o Hin) as Hok.
  assert (o_state o <> claimed) as Hst.
  { intros E. rewrite (ok_started _ _ Hok), E in Hset. done. }
  unfold markProviderOperationRemoteStarted, after. destruct (start_checks _ _ x cid now) as [[n audit]|]; [|done].
  rewrite reading_snd. unfold reading.
  assert (forall c, c ∈ st_operations d1 -> startable x cid d1 utc c = true -> c = o) as Hone.
  { intros c Hc Hp. unfold startable, authorized_operation, names_operation, same_scope in Hp. bools.
    apply (same_id d1); [apply Hwf|done..|congruence]. }
  edestruct (batch_noop (fun d o => startable x cid d utc o) (start_update n utc') (start_audit x audit)) as [Hd Hres];
    [apply Hwf| |].
  2: { split; [exact Hd|]. intros r Hf. cbn in Hf. destruct (fst (atomicD1 _ _ d1)) as [row|] eqn:E; [|done].
       destruct (Hres _ eq_refl) as [->|(c & Hc & Hp & ->)]; [done|]. rewrite (Hone c Hc Hp) in Hf. cbn in Hf.
       case_match; [|done]. simplify_eq. cbn. rewrite bool_decide_false by done. bools.
       unfold sql_eq in *. destruct (o_claimId o); [|done]. by bools; subst. }
  intros c Hc Hp. rewrite (Hone c Hc Hp). rewrite start_update_idle by done. split; [by eapply ok_checks|]. split; [done|].
  unfold start_audit. by rewrite (bool_decide_false (o_state o = claimed)).
Qed.

(** ** Expired plans *)

Lemma uuid_identity x : assertExecutionIdentity hmac x = Ok tt -> uuid (xi_operationId x) = true.
Proof.
  unfold assertExecutionIdentity, throw_if. destruct (uuid (xi_operationId x)); [done|].
  by rewrite !orb_true_r.
Qed.

(** Only a failed operation has a failure code. *)
Lemma no_failure_code o :
  state_checks o = true -> state_in (o_state o) [approved; claimed] = true -> o_failureCode o = None.
Proof.
  unfold state_checks. intros H Hst. bools.
  match goal with H : negb (is_set (o_failureCode o)) || _ || _ = true |- _ => rename H into Hf end.
  destruct (o_failureCode o); [|done]. in_states Hst; rewrite Hst in Hf; done.
Qed.

Lemma cancel_update_checks n o :
  row_checks o = true -> state_in (o_state o) [approved; claimed] = true -> row_checks (cancel_update n o) = true.
Proof.
  unfold row_checks. intros H Hst. bools.
  match goal with H : plan_checks o = true |- _ => rename H into Hp end.
  match goal with H : provider_checks o = true |- _ => rename H into Hpr end.
  match goal with H : state_checks o = true |- _ => pose proof (no_failure_code o H Hst) as Hf end.
  assert (plan_checks (cancel_update n o) = true) as -> by exact Hp.
  assert (provider_checks (cancel_update n o) = true) as -> by exact Hpr.
  rewrite andb_true_r. cbn. unfold state_checks in *. bools. cbn.
  rewrite Hf.
  match goal with H : Bool.eqb _ _ = true |- _ => by rewrite H end.
Qed.

Lemma upsert_fresh a t : (forall e, e ∈ t -> a_id e <> a_id a) -> upsert_audit a t = Some (t ++ [a]).
Proof.
  intros H. unfold upsert_audit. rewrite (proj2 (findb_none _ _)); [done|]. intros e He.
  apply bool_decide_eq_false. by apply H.
Qed.

(** The commit of a cancellation. *)
Lemma cancel_commits d1 x o i now utc :
  settled d1 -> o ∈ st_operations d1 -> o_id o = xi_operationId x ->
  state_in (o_state o) [approved; claimed] = true -> o_planExpiresAt o <= utc ->
  names_operation x o = true -> identityAuthority x d1 utc = true -> assertExecutionIdentity hmac x = Ok tt ->
  workspaceAuditEventId sha256 (js "provider-operation:cancel-expired") (xi_operationId x) = Ok i ->
  (forall e, e ∈ st_audits d1 -> a_id e <> i) ->
  exists d2, cancel_ x (Some now) utc d1 = (Ok (Some (mkCancellation (xi_operationId x))), d2)
    /\ row_at d2 (xi_operationId x) = Some (cancel_update now o).
Proof.
  intros Hse Hin Hid Hst Hexp Hnames Hauth Hchk Ei Haudit. pose proof (se_wf _ Hse) as Hwf.
  pose proof (proj2 Hwf o Hin) as Hok. pose proof (no_failure_code o (ok_state_checks _ _ Hok) Hst) as Hfc.
  destruct (se_unstarted _ Hse o Hin) as [Hop Hres].
  { in_states Hst; by rewrite Hst. }
  assert (o_remoteStartedAt o = None) as Hnot.
  { apply unset. rewrite (ok_started _ _ Hok). in_states Hst; by rewrite Hst. }
  assert (filterb (cancellable x d1 utc) (st_operations d1) = [o]) as Hscope.
  { apply (filterb_unique o_id); [apply Hwf|done|]. intros c Hc. unfold cancellable. split.
    - intros H. unfold names_operation, same_scope in *. bools. congruence.
    - intros E. rewrite (same_id d1 c o (proj1 Hwf) Hc Hin E). rewrite Hnames, Hst, Hauth, Hnot, bool_decide_true by done. cbn.
      rewrite andb_true_r. by apply Z.leb_le. }
  unfold cancelExpiredProviderOperationExecution, cancel_checks. rewrite Hchk. cbn -[transition atomicD1 workspaceAuditEventId js]. rewrite Ei.
  cbn -[transition atomicD1 js]. unfold atomicD1. rewrite Hscope. cbn -[transition js].
  unfold transition, stmt_bind, query, when_row.
  assert (update_operations (is_candidate o) (cancel_update now) d1
    = Some (tt, set_operations d1 (map (fun c => if is_candidate o c then cancel_update now c else c) (st_operations d1)))) as ->.
  { unfold update_operations. rewrite (proj2 (forallb_elem _ _)); [done|]. intros c Hc.
    destruct (is_candidate o c) eqn:Ec; [|done]. cbn. apply cancel_update_checks; [apply Hwf in Hc; by eapply ok_checks|].
    by rewrite (candidate_is_row d1 o c (proj1 Hwf) Hin Hc Ec). }
  set (d2 := set_operations d1 _).
  assert (row_at d2 (o_id o) = Some (cancel_update now o)) as Hrow.
  { assert (ids d2 = ids d1) as Hids.
    { unfold ids, d2. cbn. rewrite map_map. apply map_ext. intros c. by case_match. }
    rewrite <- (row_at_of d2 (cancel_update now o)); [done|by rewrite Hids; apply Hwf|].
    unfold d2. cbn. apply list_elem_of_fmap. exists o. split; [|done]. unfold is_candidate. by rewrite !bool_decide_true. }
  assert (row_of o d2 = Some (cancel_update now o)) as -> by exact Hrow.
  unfold audit_with. rewrite upsert_fresh by (intros e He; by apply Haudit).
  assert (row_of o (set_audits d2 (st_audits d1 ++ [execution_audit x i (js "provider.operation.cancelled")
            [(js "reason", expiry_reason)] (xi_operationId x) o (cancel_update now o)])) = Some (cancel_update now o)) as E
    by exact Hrow.
  unfold row_of in E. cbn in E. unfold row_of. cbn -[js bool_decide]. rewrite E. eexists. split.
  { unfold reading, cancellation_result. cbn -[js bool_decide].
    rewrite Hid, Hop, Hres, Hfc, !bool_decide_true by done. reflexivity. }
  rewrite <- Hid. exact Hrow.
Qed.


End replay.
