(* ===== verification/OperationStored.v ===== *)
(** * Nothing secret is stored with a provider operation

    Plans and results are kept as JSON for people to approve and audit. This file states
    what a value that passes [safeRedactedValue] cannot contain, shows that canonical
    JSON keeps it, and that every plan in a reachable store passes. *)

From S2P Require Import Prelude JsString JsMap JsValue JsSort Regex Access NeonBranches NeonCreatePlan.
From S2P Require Import NeonDeletePlan NeonSwitchPlan RevocationGate D1Batch OperationRecords OperationPlan.
From S2P Require Import OperationExecution OperationSwitch OperationInv OperationFacts.
From Stdlib Require String.
Import Stdlib.Strings.String.StringSyntax.
Local Open Scope Z_scope.

(** ** Values inside values *)

(** [w] is [n] steps inside [v]. *)
Inductive within : nat -> value -> value -> Prop :=
| within_self v : within 0 v v
| within_item n items v w : v ∈ items -> within n v w -> within (S n) (VArr items) w
| within_field n fields k v w : (k, v) ∈ fields -> within n v w -> within (S n) (VObj fields) w.

(** A key names a secret when it contains one of these words, in any case. *)
Definition secret_names : list jsstr :=
  [js "token"; js "secret"; js "password"; js "credential"; js "authorization"; js "connectionuri";
   js "connectionurl"; js "host"].
Definition names_secret (key : jsstr) : Prop :=
  exists word pre mid post, word ∈ secret_names /\ key = pre ++ mid ++ post /\ map lower_ascii mid = map lower_ascii word.
(** A key is a letter and at most 63 letters and digits. *)
Definition identifier_key (key : jsstr) : Prop :=
  exists c rest, key = c :: rest /\ is_alpha c = true /\ (length rest <= 63)%nat /\ forallb is_alnum rest = true.
(** A control character other than a tab, a line feed or a carriage return. *)
Definition control_unit (c : N) : Prop := ((c < 32 /\ c <> 9 /\ c <> 10 /\ c <> 13) \/ c = 127)%N.

(** What a value may be [depth] steps inside the one that is stored. [JSON.stringify] writes
    [null] for a number that is not finite. *)
Definition clean_at (depth : nat) (v : value) : Prop :=
  match v with
  | VNull | VBool _ => True
  | VNum text => text <> js "null"
  | VStr s => (length s <= 2048)%nat /\ forall c, c ∈ s -> ~ control_unit c
  | VArr items => (depth < 8)%nat /\ (length items <= 128)%nat
  | VObj fields => (depth < 8)%nat /\ forall k v, (k, v) ∈ fields ->
      identifier_key k /\ (k = js "credentialFenceFingerprint" \/ ~ names_secret k)
  | VUndefined | VBigInt _ => False
  end.
Definition clean (v : value) : Prop := forall n w, within n v w -> clean_at n w.

(** *** The patterns of keys *)

Lemma upto_match s n p i j :
  rmatch s (RUpTo n (RCls p)) i j ->
  (i <= j <= i + n)%nat /\ (i < j -> j <= length s)%nat /\ forallb p (slice s i j) = true.
Proof.
  revert i. induction n as [|n IH]; intros i H; cbn in H.
  - inversion H; subst. unfold slice. rewrite Nat.sub_diag. split_and!; [lia..|done].
  - inversion H as [| | |? ? ? ? H'|? ? ? ? H'| | | | | | |]; subst; cycle 1.
    { inversion H'; subst. unfold slice. rewrite Nat.sub_diag. split_and!; [lia..|done]. }
    inversion H' as [| |? ? ? ? ? H1 H2| | | | | | | | |]; subst. inversion H1 as [|? ? c Hc Hp| | | | | | | | | |]; subst.
    apply IH in H2 as (Hb & Hl & Hall). pose proof (lookup_lt_Some _ _ _ Hc). split; [lia|]. split.
    { intros _. destruct (decide (S i < j)%nat); [by apply Hl|lia]. }
    unfold slice in *. rewrite (drop_S s c i) by done. replace (j - i)%nat with (S (j - S i)) by lia. cbn. by rewrite Hp.
Qed.
Lemma upto_run s n p i w b :
  pos s i (w ++ b) -> forallb p w = true -> (length w <= n)%nat -> rmatch s (RUpTo n (RCls p)) i (i + length w).
Proof.
  revert i n. induction w as [|c w IH]; intros i n Hp Hw Hn.
  - rewrite Nat.add_0_r. destruct n; [constructor|apply m_alt_r; constructor].
  - destruct n as [|n]; [cbn in Hn; lia|]. cbn in Hw. bools. apply m_alt_l. eapply m_seq.
    + eapply m_cls; [by rewrite (pos_lookup _ _ _ Hp)|done].
    + replace (i + length (c :: w))%nat with (S i + length w)%nat by (cbn; lia).
      apply IH; [exact (pos_cons s i c _ Hp)|done|cbn in Hn; lia].
Qed.
Lemma key_spec key : test key_re key = true <-> identifier_key key.
Proof.
  rewrite test_spec. unfold key_re. cbn [RSeqs]. split.
  - generalize (upto_match key 63 is_alnum). generalize (RUpTo 63 (RCls is_alnum)). intros run Hrun (i & j & _ & H). inversion H as [| |? ? ? ? ? H1 H2| | | | | | | | |]; subst. inversion H1; subst.
    inversion H2 as [| |? ? ? ? ? H3 H4| | | | | | | | |]; subst. inversion H3 as [|? ? c Hc Hp| | | | | | | | | |]; subst.
    inversion H4 as [| |? ? ? k ? H5 H6| | | | | | | | |]; subst. apply Hrun in H5 as (Hb & _ & Hall).
    inversion H6 as [| |? ? ? ? ? H7 H8| | | | | | | | |]; subst. inversion H7; subst.
    destruct key as [|d rest]; [done|]. cbn in Hc. injection Hc as ->. exists c, rest. split; [done|]. split; [done|].
    unfold slice in Hall. cbn [drop length] in *. rewrite drop_0, take_ge in Hall by lia. split; [lia|done].
  - intros (c & rest & -> & Hc & Hl & Hr). exists 0%nat, (1 + length rest)%nat. split; [lia|].
    eapply m_seq; [constructor|]. eapply m_seq; [by apply (m_cls _ _ _ c)|]. eapply m_seq.
    + apply (upto_run (c :: rest) 63 is_alnum 1 rest []); [|done|done]. rewrite app_nil_r. apply (pos_cons _ 0 c), pos_start.
    + eapply m_seq; [exact (m_eol (c :: rest))|constructor].
Qed.

Lemma litI_found s w i j :
  rmatch s (RLitI w) i j -> (i <= length s)%nat ->
  j = (i + length w)%nat /\ (j <= length s)%nat /\ map lower_ascii (slice s i j) = map lower_ascii w.
Proof.
  revert i. induction w as [|c w IH]; intros i H Hi; cbn in H.
  - inversion H; subst. unfold slice. rewrite Nat.sub_diag. split_and!; [cbn; lia|done..].
  - inversion H as [| |? ? ? ? ? H1 H2| | | | | | | | |]; subst. inversion H1 as [|? ? d Hd Hp| | | | | | | | | |]; subst.
    pose proof (lookup_lt_Some _ _ _ Hd). apply IH in H2 as (-> & Hl & E); [|lia]. apply N.eqb_eq in Hp.
    split; [cbn; lia|]. split; [done|]. unfold slice in *. rewrite (drop_S s d i) by done.
    replace (S i + length w - i)%nat with (S (length w)) by lia. cbn [take map]. rewrite <- Hp. f_equal. rewrite <- E. do 2 f_equal. lia.
Qed.
Lemma any_found s rs i j : rmatch s (RAny rs) i j -> exists r, r ∈ rs /\ rmatch s r i j.
Proof.
  induction rs as [|r rs IH]; intros H; [by inversion H|]. cbn in H. destruct rs as [|r' rs].
  - exists r. split; [by left|done].
  - inversion H as [| | |? ? ? ? H'|? ? ? ? H'| | | | | | |]; subst; [exists r; split; [by left|done]|].
    destruct (IH H') as (r0 & Hin & Hr). exists r0. split; [by right|done].
Qed.

Lemma rmatch_any s r rs i j : r ∈ rs -> rmatch s r i j -> rmatch s (RAny rs) i j.
Proof.
  induction rs as [|r0 rs IH]; [by intros ?%elem_of_nil|]. intros H Hm. cbn. destruct rs as [|r1 rs].
  - by apply elem_of_cons in H as [->|H%elem_of_nil].
  - apply elem_of_cons in H as [->|H]; [by apply m_alt_l|]. apply m_alt_r. by apply IH.
Qed.

Lemma secret_spec key : test secret_re key = true <-> names_secret key.
Proof.
  rewrite test_spec. unfold secret_re, names_secret. change secret_words with secret_names. split.
  - intros (i & j & Hi & Hm). apply any_found in Hm as (r & (word & -> & Hw)%list_elem_of_fmap & Hm).
    apply litI_found in Hm as (-> & Hl & E); [|done]. exists word, (take i key), (slice key i (i + length word)), (drop (i + length word) key).
    split; [done|]. split; [|done]. unfold slice. replace (i + length word - i)%nat with (length word) by lia.
    rewrite <- (take_drop i key) at 1. f_equal. rewrite <- (take_drop (length word) (drop i key)) at 1. by rewrite drop_drop.
  - intros (word & pre & mid & post & Hw & -> & E). exists (length pre), (length pre + length word)%nat.
    split; [rewrite length_app; lia|]. apply (rmatch_any _ (RLitI word)).
    { apply list_elem_of_fmap. by exists word. }
    apply ends_spec. rewrite (ends_litI _ _ word mid post); [by left| |done]. split; [rewrite length_app; lia|by rewrite drop_app_length].
Qed.
Lemma safe_key_spec key :
  safe_key key = true <-> identifier_key key /\ (key = js "credentialFenceFingerprint" \/ ~ names_secret key).
Proof.
  unfold safe_key. rewrite andb_true_iff, orb_true_iff, key_spec, negb_true_iff, <- not_true_iff_false, secret_spec.
  by rewrite bool_decide_eq_true.
Qed.
Lemma unsafe_char_spec c : unsafe_char c = true <-> control_unit c.
Proof.
  unfold unsafe_char, control_unit, between. rewrite !orb_true_iff, andb_true_iff, !N.leb_le, !N.eqb_eq. lia.
Qed.

(** The loops of [safeRedactedValue], in both directions. *)
Lemma safe_items depth items :
  safeRedactedValue (VArr items) depth = Ok tt ->
  (depth < 8)%nat /\ (length items <= 128)%nat /\ forall v, v ∈ items -> safeRedactedValue v (S depth) = Ok tt.
Proof.
  cbn [safeRedactedValue]. destruct (8 <=? depth)%nat eqn:Ed; [done|]. destruct (128 <? length items)%nat eqn:El; [done|].
  intros H. split; [by apply Nat.leb_gt|]. split; [by apply Nat.ltb_ge|]. clear El.
  induction items as [|v items IH]; [by intros v ?%elem_of_nil|].
  destruct (safeRedactedValue v (S depth)) as [[]|] eqn:E; [|done].
  intros w [->|Hw]%elem_of_cons; [done|]. by apply IH.
Qed.

Lemma safe_fields depth fields :
  safeRedactedValue (VObj fields) depth = Ok tt ->
  (depth < 8)%nat /\ forall k v, (k, v) ∈ fields -> safe_key k = true /\ safeRedactedValue v (S depth) = Ok tt.
Proof.
  cbn [safeRedactedValue]. destruct (8 <=? depth)%nat eqn:Ed; [done|].
  intros H. split; [by apply Nat.leb_gt|].
  induction fields as [|[k v] fields IH]; [by intros k v ?%elem_of_nil|].
  destruct (safe_key k) eqn:Ek; [|done]. cbn in H.
  destruct (safeRedactedValue v (S depth)) as [[]|] eqn:E; [|done].
  intros k' v' [[= -> ->]|Hw]%elem_of_cons; [done|]. by apply IH.
Qed.

Lemma clean_at_ok depth v : safeRedactedValue v depth = Ok tt -> clean_at depth v.
Proof.
  destruct v as [| | |t| |s|items|fields]; try done.
  - cbn. case_bool_decide; done.
  - cbn -[Nat.ltb]. destruct (2048 <? length s)%nat eqn:E; [done|]. rewrite orb_false_l. destruct (existsb unsafe_char s) eqn:Ec; [done|].
    intros _. split; [by apply Nat.ltb_ge|]. rewrite existsb_none in Ec. intros c Hc. rewrite <- unsafe_char_spec. by rewrite Ec.
  - intros (? & ? & _)%safe_items. done.
  - intros [Hd Hf]%safe_fields. split; [done|]. intros k v Hin. by apply safe_key_spec, (Hf k v Hin).
Qed.

Lemma safe_within n v w depth : within n v w -> safeRedactedValue v depth = Ok tt -> safeRedactedValue w (depth + n) = Ok tt.
Proof.
  intros Hw. revert depth. induction Hw as [v|n items v w Hin _ IH|n fields k v w Hin _ IH]; intros depth H.
  - by rewrite Nat.add_0_r.
  - apply safe_items in H as (_ & _ & H). rewrite Nat.add_succ_r, <- Nat.add_succ_l. by apply IH, H.
  - apply safe_fields in H as [_ H]. rewrite Nat.add_succ_r, <- Nat.add_succ_l. by eapply IH, H.
Qed.

(** ** Canonical JSON keeps it *)

(** Induction on a JSON value and the values inside it. *)
Lemma value_nested (P : value -> Prop) :
  (forall v, match v with VArr _ | VObj _ => False | _ => True end -> P v) ->
  (forall items, (forall v, v ∈ items -> P v) -> P (VArr items)) ->
  (forall fields, (forall k v, (k, v) ∈ fields -> P v) -> P (VObj fields)) -> forall v, P v.
Proof.
  intros Ha Hl Ho. fix IH 1. intros v. destruct v as [| | | | | |items|fields]; try by apply Ha.
  - apply Hl. induction items as [|x items IHl]; [intros v Hv; destruct (not_elem_of_nil v Hv)|].
    intros v Hv. apply elem_of_cons in Hv as [->|Hv]; [apply IH|by apply IHl].
  - apply Ho. induction fields as [|[k0 x] fields IHl]; [intros k v Hv; destruct (not_elem_of_nil (k, v) Hv)|].
    intros k v Hv. apply elem_of_cons in Hv as [E|Hv]; [injection E as _ ->; apply IH|by apply (IHl k)].
Qed.

Lemma items_safe depth items :
  (depth < 8)%nat -> (length items <= 128)%nat -> (forall v, v ∈ items -> safeRedactedValue v (S depth) = Ok tt) ->
  safeRedactedValue (VArr items) depth = Ok tt.
Proof.
  intros Hd Hl H. cbn [safeRedactedValue]. rewrite (proj2 (Nat.leb_gt _ _)), (proj2 (Nat.ltb_ge _ _)) by done.
  clear Hl. induction items as [|v items IH]; [done|]. rewrite H by (by left). cbn. apply IH. intros w Hw. apply H. by right.
Qed.

Lemma fields_safe depth fields :
  (depth < 8)%nat -> (forall k v, (k, v) ∈ fields -> safe_key k = true /\ safeRedactedValue v (S depth) = Ok tt) ->
  safeRedactedValue (VObj fields) depth = Ok tt.
Proof.
  intros Hd H. cbn [safeRedactedValue]. rewrite (proj2 (Nat.leb_gt _ _)) by done.
  induction fields as [|[k v] fields IH]; [done|]. destruct (H k v ltac:(by left)) as [-> ->]. cbn.
  apply IH. intros k' v' Hw. apply H. by right.
Qed.

(** What passes is exactly what is clean. *)
Lemma clean_safe v depth : (forall n w, within n v w -> clean_at (depth + n) w) -> safeRedactedValue v depth = Ok tt.
Proof.
  revert depth. induction v as [v Hv|items IH|fields IH] using value_nested; intros depth H;
    pose proof (H 0%nat _ (within_self _)) as H0; rewrite Nat.add_0_r in H0.
  - destruct v as [| | |t| |s| |]; try done.
    + cbn in *. by rewrite bool_decide_false.
    + destruct H0 as [Hl Hc]. cbn -[Nat.ltb]. rewrite (proj2 (Nat.ltb_ge _ _)) by done. rewrite orb_false_l.
      destruct (existsb unsafe_char s) eqn:E; [|done]. apply existsb_elem in E as (c & Hin & Hu). apply unsafe_char_spec in Hu.
      by destruct (Hc c Hin).
  - destruct H0 as [Hd Hl]. apply items_safe; [done|done|]. intros v Hin. apply IH; [done|]. intros n w Hw.
    replace (S depth + n)%nat with (depth + S n)%nat by lia. apply H. by apply (within_item n items v).
  - destruct H0 as [Hd Hf]. apply fields_safe; [done|]. intros k v Hin. split; [by apply safe_key_spec, Hf with v|].
    apply (IH k v Hin). intros n w Hw. replace (S depth + n)%nat with (depth + S n)%nat by lia. apply H. by apply (within_field n fields k v).
Qed.
Lemma safe_clean v depth n w : safeRedactedValue v depth = Ok tt -> within n v w -> clean_at (depth + n) w.
Proof. intros H Hw. by apply clean_at_ok, (safe_within n v w depth). Qed.
(** Deeper down less is allowed. *)
Lemma clean_at_less depth more v : clean_at (depth + more) v -> clean_at more v.
Proof. destruct v; try done; cbn; intros [? ?]; (split; [lia|done]). Qed.
Lemma field_clean fields k v : safeRedactedValue (VObj fields) 0 = Ok tt -> (k, v) ∈ fields -> clean v.
Proof.
  intros H Hin n w Hw. apply (clean_at_less 1). apply safe_fields in H as [_ H]. destruct (H k v Hin) as [_ Hv]. by apply (safe_clean v 1).
Qed.

Lemma canonicalize_safe localeCompare v depth :
  safeRedactedValue v depth = Ok tt -> safeRedactedValue (canonicalize localeCompare v) depth = Ok tt.
Proof.
  revert depth. induction v as [v Hv|items IH|fields IH] using value_nested; intros depth H; [by destruct v|..].
  - apply safe_items in H as (Hd & Hl & H). cbn [canonicalize]. apply items_safe; [done|by rewrite length_map|].
    intros w (v & -> & Hv)%list_elem_of_fmap. apply IH; auto.
  - apply safe_fields in H as [Hd H]. cbn [canonicalize]. apply fields_safe; [done|].
    intros k v Hin%sort_by_elem. apply list_elem_of_fmap in Hin as ([k' v'] & [= -> ->] & Hin).
    destruct (H _ _ Hin) as [Hk Hv]. split; [done|]. eapply IH; eauto.
Qed.

(** ** The stored plans *)

Section stored.
Context (localeCompare : jsstr -> jsstr -> Z) (sha256hex : jsstr -> jsstr) (sha256 : jsstr -> list Z).
Context (hmac : jsstr -> jsstr) (json_parse : jsstr -> option value).
Context (toISOString : Z -> jsstr) (date_parse : jsstr -> option Z).

Notation run1 := (run1 localeCompare sha256hex sha256 hmac json_parse toISOString date_parse).
Notation run := (run localeCompare sha256hex sha256 hmac json_parse toISOString date_parse).

(** What the checks of a plan say of the row. *)
Record plan_checked (o : operation_row) : Prop := {
  pk_safe : safeRedactedValue (o_redactedPlan o) 0 = Ok tt;
  pk_hash : exists plan, o_redactedPlan o = canonicalize localeCompare (plan_value plan)
              /\ canonicalHash localeCompare sha256hex (plan_value plan) = o_planHash o
              /\ (utf8_length (canonicalJson localeCompare (plan_value plan)) <= MAX_REDACTED_PLAN_BYTES)%nat
              /\ validPlanPolicy plan = true /\ o_risk o = risk_name (plan_risk plan)
              /\ o_approvalPolicy o = policy_name (plan_policy plan) /\ o_kind o = kind_name (plan_kind plan);
  pk_expiry : o_planExpiresAt o = o_createdAt o + ten_minutes }.

Lemma throw_if_ok b m : throw_if b m = Ok tt -> b = false.
Proof. by destruct b. Qed.

Lemma record_checked x now expires audit :
  record_checks localeCompare sha256hex sha256 hmac toISOString x = Ok (now, expires, audit) ->
  plan_checked (planned_operation localeCompare x now expires).
Proof.
  unfold record_checks, assertPlan. intros H. apply res_bind_ok in H as ([] & Hplan & H).
  apply res_bind_ok in Hplan as ([] & Hsafe & Hplan). apply res_bind_ok in Hplan as ([] & Hplan%throw_if_ok & _).
  apply res_bind_ok in H as ([] & Hpol%throw_if_ok & H). bools.
  destruct (rc_now x) as [t|]; [|done]. apply res_bind_ok in H as ([] & _ & H). apply res_bind_ok in H as ([] & _ & H).
  apply res_bind_ok in H as (i & _ & [= <- <- _]). split.
  - exact (canonicalize_safe localeCompare _ 0 Hsafe).
  - exists (rc_plan x). repeat (split; [done|]). split; [by apply Nat.ltb_ge|]. done.
  - done.
Qed.

Lemma plan_checked_kept o o' : plan_part o' = plan_part o -> plan_checked o -> plan_checked o'.
Proof. intros Hp [Hs Hh He]. destruct o, o'. unfold plan_part in Hp. cbn in *. simplify_eq. by split. Qed.

Lemma run1_plan_checked d e :
  NoDup (ids d) -> (forall o, o ∈ st_operations d -> plan_checked o) ->
  forall o, o ∈ st_operations (run1 d e) -> plan_checked o.
Proof.
  intros Hn H o Ho. destruct (run1_ids localeCompare sha256hex sha256 hmac json_parse toISOString date_parse d e Hn) as [Hn' _].
  destruct (row_at_back localeCompare sha256hex sha256 hmac json_parse toISOString date_parse d e _ o Hn (row_at_of _ o Hn' Ho))
    as [(o0 & [Hin _]%row_at_in & [->|Hm])|(x & utc & _ & now & expires & audit & Hc & -> & _)].
  - by apply H.
  - eapply plan_checked_kept; [by eapply moved_plan|by apply H].
  - by eapply record_checked.
Qed.

Lemma stored_plans_checked d es o : no_operations d -> o ∈ st_operations (run d es) -> plan_checked o.
Proof.
  intros Hno. pose proof (no_operations_ok d Hno) as [Hn _]. destruct Hno as [Hops _].
  assert (forall o, o ∈ st_operations d -> plan_checked o) as H by (rewrite Hops; by intros ? ?%elem_of_nil).
  clear Hops. revert d Hn H. induction es as [|e es IH]; intros d Hn H; cbn; [apply H|].
  apply IH; [by apply run1_ids|by apply run1_plan_checked].
Qed.

(** What a switch writes to the table of resources. *)
Lemma switch_resources x fresh vid utc d e :
  e ∈ st_resources (snd (completeNeonBranchSwitch localeCompare sha256hex sha256 hmac toISOString x fresh vid utc d)) ->
  e ∈ st_resources d \/ clean (ps_resource e) /\ clean (ps_metadata e) /\ clean (ps_capabilities e).
Proof.
  unfold completeNeonBranchSwitch, after. destruct (switch_checks _ _ _ _ _ x) as [q|] eqn:Eq; [|by left].
  rewrite reading_snd. destruct (atomicD1 _ _ d) as [[row|err] d'] eqn:Er; cbn; cycle 1.
  { pose proof (atomicD1_throw (switch_scope localeCompare x q fresh utc)
      (switch_statements localeCompare sha256hex toISOString x q vid) d err) as H.
    rewrite Er in H. cbn in H. rewrite H by done. by left. }
  apply atomicD1_ok in Er as [[_ Hs]|(s & _ & Hs)].
  { unfold switch_statements, stmt_bind, when_row, query, stmt_ret in Hs. simplify_eq. by left. }
  apply switch_statements_commit in Hs as (_ & _ & _ & _ & _ & _ & _ & _ & Hu & _).
  assert (safeRedactedValue (VObj [(js "resource", VObj (pj_resource (sx_projection x)));
    (js "metadata", VObj (pj_metadata (sx_projection x))); (js "capabilities", capabilities_value (sx_projection x))]) 0 = Ok tt) as Hsafe.
  { unfold switch_checks in Eq. do 5 (apply res_bind_ok in Eq as (? & _ & Eq)). by apply res_bind_ok in Eq as ([] & Hs & _). }
  apply (canonicalize_safe localeCompare) in Hsafe.
  intros He. destruct (upsert_resource_from _ _ _ e Hu He) as [Hin|(H1 & H2 & H3)]; [by left|right].
  rewrite H1, H2, H3. cbn [canonicalize map] in Hsafe.
  split; [|split]; eapply field_clean; try exact Hsafe; apply sort_by_elem; [by left|right; by left|right; right; by left].
Qed.

(** The plan copies the data of a production branch, or moves a connection from or to one. *)
Definition touches_production (plan : NeonBranchOperationPlan) : bool :=
  match plan with
  | PlanCreate p => ct_copiesData (cp_target p) && bool_decide (cs_environment (cp_source p) = production_env)
  | PlanSwitch p => bool_decide (ss_environment (sp_source p) = production_env)
                    || bool_decide (tf_environment (sp_target p) = production_env)
  | PlanDelete _ => false
  end.

Lemma production_risk plan : validPlanPolicy plan = true -> touches_production plan = true -> plan_risk plan = production_data.
Proof.
  destruct plan; cbn; [|done|]; intros Hp; unfold risk_is in Hp; intros Ht; rewrite Ht in Hp; clear Ht; by bools.
Qed.

(** C13: every operation that is approved or further carries the approval of exactly the plan
    it stores; when that plan copies the data of a production branch, or moves a connection
    from or to one, the approval is by another member and another person than the request. *)
Theorem production_data_needs_two_people d es id o :
  no_operations d -> row_at (run d es) id = Some o -> state_in (o_state o) approved_states = true ->
  exists plan a, o_redactedPlan o = canonicalize localeCompare (plan_value plan)
    /\ a ∈ st_approvals (run d es) /\ approval_of o a = true
    /\ ap_planHash a = canonicalHash localeCompare sha256hex (plan_value plan) /\ ap_decision a = decision_approved
    /\ (touches_production plan = true -> ap_member a <> o_requesterMember o /\ ap_user a <> o_requesterUser o).
Proof.
  intros Hno Hr Hs. destruct (row_at_in _ _ _ Hr) as [Hin _].
  destruct (stored_plans_checked d es o Hno Hin) as [_ (plan & Hv & Hh & _ & Hpol & Hrisk & _) _].
  destruct (approved_by localeCompare sha256hex sha256 hmac json_parse toISOString date_parse d es id o Hno Hr Hs)
    as (a & Ha & Hof & Hah & Hd & Hsep).
  exists plan, a. repeat (split; [done || congruence|]). intros Ht. apply Hsep.
  by rewrite Hrisk, production_risk.
Qed.

(** C28: nothing that names a secret is stored or shown. A JSON value passes the redaction
    check exactly when at every depth inside it every key is a letter with at most 63 letters
    and digits, contains none of the eight words for secrets (in any case) unless it is
    "credentialFenceFingerprint", texts have at most 2048 units and no control characters but
    tabs and line ends, numbers are finite, arrays have at most 128 items, and objects and
    arrays are at most eight deep. Every stored plan passes; so does every plan that is read
    back, whatever its column holds; and so do the resource, the metadata and the capabilities
    of every row that a branch switch adds or changes in the table of resources, whatever the
    provider's projection holds. *)
Theorem redacted_values_are_clean :
  (forall v, safeRedactedValue v 0 = Ok tt <-> clean v)
  /\ (forall d es o, no_operations d -> o ∈ st_operations (run d es) -> clean (o_redactedPlan o))
  /\ (forall row s r, planRecord localeCompare sha256hex hmac json_parse toISOString date_parse row s = Ok (Some r) ->
       clean (VObj (pr_plan r)))
  /\ (forall x fresh vid utc d e,
       e ∈ st_resources (snd (completeNeonBranchSwitch localeCompare sha256hex sha256 hmac toISOString x fresh vid utc d)) ->
       e ∈ st_resources d \/ clean (ps_resource e) /\ clean (ps_metadata e) /\ clean (ps_capabilities e)).
Proof.
  split; [|split; [|split]].
  - intros v. split; [intros H n w; by apply (safe_clean v 0)|]. intros H. by apply clean_safe.
  - intros d es o Hno Ho n w. apply (safe_clean _ 0). by destruct (stored_plans_checked d es o Hno Ho).
  - intros row s r Hr n w. apply (safe_clean _ 0). revert Hr. unfold planRecord. destruct row as [row|]; [|done].
    destruct (plan_column _ _) as [[| | | | | | |plan]|]; try done. destruct (planDate _ _); [|done]. destruct (operation_state _); [|done].
    case_match; [done|]. destruct (safeRedactedValue _ _) as [[]|] eqn:E; [|done]. cbn [res_bind]. case_match; [done|].
    destruct (verifyProviderOperationOwnershipMarker _ _ _) as [[|]|]; try done. by intros [= <-].
  - apply switch_resources.
Qed.

End stored.

(** ** The plans the planners make *)

Lemma risk_is_intro (b : bool) : risk_is (if b then production_data else standard) b = true.
Proof. by destruct b. Qed.
Lemma policy_fits_intro (b : bool) :
  policy_fits (if b then production_data else standard) (if b then separate_admin else single_admin) = true.
Proof. by destruct b. Qed.

Section planners.
Context (toISOString : Z -> jsstr) (date_parse : jsstr -> option Z).

Lemma create_plan_policy request source id integration g t1 t2 :
  validPlanPolicy (PlanCreate (create_plan request source id integration g t1 t2)) = true.
Proof.
  cbn [validPlanPolicy create_plan cp_risk cp_approvalPolicy cp_target ct_copiesData].
  assert (cs_environment (cp_source (create_plan request source id integration g t1 t2)) = cr_sourceEnvironment request)
    as -> by done.
  apply andb_true_iff. split; [apply risk_is_intro|apply policy_fits_intro].
Qed.

Lemma switch_plan_policy id integration g t1 t2 s t :
  ss_activeLeaseCount s <> None -> validPlanPolicy (PlanSwitch (switch_plan id integration g t1 t2 s t)) = true.
Proof.
  intros Hl. unfold validPlanPolicy, switch_plan.
  cbn [sp_risk sp_approvalPolicy sp_source sp_target sp_impact im_activeLeaseCount closesExistingSessions
       createsConnectionRevision reintrospectionRequired].
  unfold switch_productionData. rewrite risk_is_intro, policy_fits_intro. cbn. rewrite !andb_true_r.
  destruct (ss_activeLeaseCount s) as [n|]; [|done]. apply Z.eqb_refl.
Qed.

(** every plan the three planners build satisfies the policy that the recording of plans
    checks: its risk and its approval policy are those of the data and the environments it
    touches. *)
Theorem planned_operations_meet_the_policy :
  (forall request inv id integration g production now p,
     buildNeonBranchCreatePlan toISOString date_parse request inv id integration g production now = Ok p ->
     validPlanPolicy (PlanCreate p) = true)
  /\ (forall request inv ownership refs id integration g now p,
     buildNeonBranchDeletePlan toISOString request inv ownership refs id integration g now = Ok p ->
     validPlanPolicy (PlanDelete p) = true)
  /\ (forall request inv connection target id integration g now p,
     buildNeonBranchSwitchPlan toISOString request inv connection target id integration g now = Ok p ->
     validPlanPolicy (PlanSwitch p) = true).
Proof.
  split; [|split].
  - intros request inv id integration g production [t|] p; [|done]. cbn -[create_plan]. intros H.
    apply res_bind_ok in H as ([] & _ & H). destruct (ready_source _ _) as [source|]; [|done].
    repeat (apply res_bind_ok in H as (? & _ & H)). injection H as <-. apply create_plan_policy.
  - intros request inv ownership refs id integration g [t|] p; [|done]. cbn. intros H.
    apply res_bind_ok in H as ([] & _ & H). apply res_bind_ok in H as (branch & _ & H).
    apply res_bind_ok in H as (references & Hrefs & H). repeat (apply res_bind_ok in H as (? & _ & H)). injection H as <-.
    unfold validateReferenceSnapshot in Hrefs. apply res_bind_ok in Hrefs as ([] & _ & Hrefs).
    apply res_bind_ok in Hrefs as (ids & _ & [= <-]). done.
  - intros request inv connection target id integration g [t|] p; [|done]. cbn -[switch_plan]. intros H.
    apply res_bind_ok in H as ([] & Hctx%refuse_if_ok & H). repeat (apply res_bind_ok in H as (? & _ & H)). injection H as <-.
    apply switch_plan_policy. cbn. unfold switch_context_ok, safeConnectionSnapshot in Hctx. bools.
    by destruct (sc_activeLeaseCount connection).
Qed.

End planners.
