(* ===== verification/OperationWitness.v ===== *)
(** * A workspace with one operation

    Concrete parameters and tables on which the theorems about provider operations can be
    seen at work: an owner plans a copy of a production branch, an administrator approves
    it, and the owner claims and starts it. *)

From S2P Require Import Prelude JsString Regex JsMap JsValue JsSort RevocationGate NeonBranches NeonDeletePlan.
From S2P Require Import NeonCreatePlan NeonSwitchPlan D1Batch OperationRecords OperationPlan.
From S2P Require Import OperationExecution OperationSwitch OperationInv OperationFacts OperationReplay.
From S2P Require Import OperationStored.
From Stdlib Require String.
Import Stdlib.Strings.String.StringSyntax.
Local Open Scope Z_scope.

(** A digest of 32 bytes. *)
Definition demo_sha256 (t : jsstr) : list Z :=
  let h := foldl (fun h c => (h * 257 + Z.of_N c + 1) mod 1000003) 7 t in
  map (fun i => (h * (i + 1) + Z.shiftr h 7) mod 256) (seqZ 0 32).
Definition demo_hex (t : jsstr) : jsstr := hex (demo_sha256 t).
Definition demo_hmac (_ : jsstr) : jsstr := replicate 43 65%N.
Definition demo_parse (_ : jsstr) : option value := None.
Definition demo_date (t : jsstr) : option Z := findb (fun z => show_Z z ==s t) [1000; 601000; 2000].

Definition open_gate : gate := mkGate None None None.
Definition id_of (n : jsstr) : jsstr := js "00000000-0000-4000-8000-0000000000" ++ n.
Definition demo_integration : jsstr := id_of (js "01").
Definition demo_operation : jsstr := id_of (js "02").

Definition demo_identity : identity_tables := mkIdentity
  [mkSession (js "s1") (js "u1") 10000000; mkSession (js "s2") (js "u2") 10000000]
  [mkMember (js "m1") (js "org") (js "u1") (js "owner") open_gate;
   mkMember (js "m2") (js "org") (js "u2") (js "admin") open_gate]
  [mkIntegration demo_integration (js "org") (js "neon") 1 (js "active") (js "idle") None open_gate]
  [mkProfile (js "org") (js "active")] [] [].
Definition demo_store : store := mkStore demo_identity [] [] [] [] [] [].

Definition owner_authority : ProviderMutationAuthority :=
  mkMutationAuthority (js "org") (js "m1") (js "u1") (js "s1") (js "owner") None.
Definition admin_authority : ProviderMutationAuthority :=
  mkMutationAuthority (js "org") (js "m2") (js "u2") (js "s2") (js "admin") None.

(** The plan: a development copy of the production branch. *)
Definition demo_create : NeonBranchCreatePlan := mkCreatePlan 1 (js "neon.branch.create") demo_operation demo_integration
  (js "1") (show_Z 1000) (show_Z 601000)
  (mkCreateSource (js "project-1") (js "br-main") None None (js "main") st_ready None (js "t") (js "t") (js "t") (js "console")
     parent_data None None true true None production_env pt_head [])
  (mkCreateTarget (js "copy") init_parent_data ep_read_write false None true true)
  production_data separate_admin [js "NEON_PRODUCTION_DATA_COPY"].
Definition demo_planHash : jsstr := Eval vm_compute in canonicalHash str_cmp demo_hex (plan_value (PlanCreate demo_create)).
Definition demo_marker : jsstr := js "v1." ++ demo_hmac [].
Definition demo_record : RecordInput := mkRecordInput owner_authority demo_integration 1 demo_operation (id_of (js "03"))
  demo_planHash demo_planHash demo_marker (PlanCreate demo_create) (Some 1000).
Definition demo_execution (a : ProviderMutationAuthority) : ProviderOperationExecutionIdentity :=
  mkExecutionIdentity a demo_integration 1 demo_operation kind_create demo_planHash demo_marker.
Definition demo_claim_id : jsstr := id_of (js "05").

Notation demo_run := (run str_cmp demo_hex demo_sha256 demo_hmac demo_parse show_Z demo_date).

Definition planned_events : list op_event := [ev_record demo_record 1000].
Definition approved_events : list op_event :=
  planned_events ++ [ev_decide (demo_execution admin_authority) decision_approved (Some 1100) (id_of (js "04")) 1100].
Definition claimed_events : list op_event :=
  approved_events ++ [ev_claim (demo_execution owner_authority) (Some 1200) demo_claim_id 1200].
Definition demo_start : op_event := ev_start (demo_execution owner_authority) demo_claim_id (Some 1300) 1300 1300.
Definition started_events : list op_event := claimed_events ++ [demo_start].

(** The row of the operation after some events. *)
Definition demo_row (es : list op_event) : option operation_row := row_at (demo_run demo_store es) demo_operation.

Lemma demo_empty : no_operations demo_store.
Proof. done. Qed.

Example demo_states :
  (o_state <$> demo_row planned_events) = Some awaiting_approval
  /\ (o_state <$> demo_row approved_events) = Some approved
  /\ (o_state <$> demo_row claimed_events) = Some claimed
  /\ (o_state <$> demo_row started_events) = Some remote_started.
Proof. vm_compute. done. Qed.

(** ** The theorems about provider operations, on the example

    One instance of each theorem, on that workspace. *)

(** The row, and the tables it is in. *)
Lemma demo_row_some es : is_set (demo_row es) = true -> exists o, demo_row es = Some o.
Proof. destruct (demo_row es); [eauto|done]. Qed.

Definition rejected_later : list op_event :=
  [ev_claim (demo_execution owner_authority) (Some 1200) demo_claim_id 1200; demo_start].

Lemma operation_history_witness :
  exists o o', demo_row approved_events = Some o
    /\ row_at (demo_run (demo_run demo_store approved_events) rejected_later) demo_operation = Some o'
    /\ history o o' /\ o_state o' = remote_started.
Proof.
  destruct (demo_row_some approved_events) as [o Ho]; [by vm_compute|].
  destruct (operation_history str_cmp demo_hex demo_sha256 demo_hmac demo_parse show_Z demo_date demo_store approved_events
    rejected_later demo_operation o demo_empty Ho) as (o' & Hr & Hh & _).
  exists o, o'. split; [done|]. split; [done|]. split; [done|].
  assert ((o_state <$> row_at (demo_run (demo_run demo_store approved_events) rejected_later) demo_operation) = Some remote_started)
    as E by by vm_compute. rewrite Hr in E. by injection E.
Defined.

Lemma remote_start_once_witness :
  count_starts str_cmp demo_hex demo_sha256 demo_hmac demo_parse show_Z demo_date demo_store demo_operation
    (started_events ++ [demo_start]) = 1%nat
  /\ (count_starts str_cmp demo_hex demo_sha256 demo_hmac demo_parse show_Z demo_date demo_store demo_operation
    (started_events ++ [demo_start]) <= 1)%nat.
Proof. split; [by vm_compute|]. apply remote_start_once, demo_empty. Defined.

Lemma started_was_authorized_witness :
  starts demo_sha256 demo_hmac (demo_run demo_store claimed_events) demo_operation demo_start = true
  /\ exists a, a ∈ st_approvals (demo_run demo_store claimed_events) /\ ap_decision a = decision_approved.
Proof.
  assert (starts demo_sha256 demo_hmac (demo_run demo_store claimed_events) demo_operation demo_start = true) as H
    by by vm_compute.
  split; [done|]. destruct (started_was_authorized str_cmp demo_hex demo_sha256 demo_hmac demo_parse show_Z demo_date
    demo_store claimed_events demo_operation demo_start demo_empty H)
    as (x & cid & now & utc & utc' & o & a & _ & _ & _ & _ & _ & Ha & _ & _ & Hd & _).
  exists a. exact (conj Ha Hd).
Defined.

Lemma production_data_needs_two_people_witness :
  exists o plan a, demo_row approved_events = Some o /\ o_redactedPlan o = canonicalize str_cmp (plan_value plan)
    /\ a ∈ st_approvals (demo_run demo_store approved_events)
    /\ (touches_production plan = true -> ap_member a <> o_requesterMember o).
Proof.
  destruct (demo_row_some approved_events) as [o Ho]; [by vm_compute|].
  assert ((o_state <$> demo_row approved_events) = Some approved) as Hs by by vm_compute.
  rewrite Ho in Hs. injection Hs as Hs.
  destruct (production_data_needs_two_people str_cmp demo_hex demo_sha256 demo_hmac demo_parse show_Z demo_date demo_store
    approved_events demo_operation o demo_empty Ho) as (plan & a & Hp & Ha & _ & _ & _ & Hm); [by rewrite Hs|].
  exists o, plan, a. exact (conj Ho (conj Hp (conj Ha (fun Ht => proj1 (Hm Ht))))).
Defined.

(** The same request again, at a later time. *)
Lemma record_idempotent_witness :
  exists o, o ∈ st_operations (demo_run demo_store claimed_events)
    /\ snd (recordProviderOperationPlan str_cmp demo_hex demo_sha256 demo_hmac demo_parse show_Z demo_date demo_record 1400
         (demo_run demo_store claimed_events)) = demo_run demo_store claimed_events.
Proof.
  destruct (demo_row_some claimed_events) as [o Ho]; [by vm_compute|]. pose proof (row_at_in _ _ _ Ho) as [Hin _].
  assert ((same_key demo_record <$> demo_row claimed_events) = Some true) as Hk by by vm_compute.
  rewrite Ho in Hk. injection Hk as Hk. exists o. split; [done|].
  apply (record_idempotent str_cmp demo_hex demo_sha256 demo_hmac demo_parse show_Z demo_date demo_store claimed_events
    demo_record 1400 o demo_empty Hin Hk).
Defined.

(** A rejection after the approval. *)
Lemma decision_is_final_witness :
  exists a, a ∈ st_approvals (demo_run demo_store approved_events) /\ ap_decision a = decision_approved
    /\ snd (decideProviderOperation demo_sha256 demo_hmac (demo_execution admin_authority) decision_rejected (Some 1200)
         (id_of (js "06")) 1200 (demo_run demo_store approved_events)) = demo_run demo_store approved_events.
Proof.
  assert (map (fun a => (ap_organization a, ap_operation a, ap_decision a)) (st_approvals (demo_run demo_store approved_events))
    = [(js "org", demo_operation, decision_approved)]) as E by by vm_compute.
  destruct (st_approvals (demo_run demo_store approved_events)) as [|a rest] eqn:Ha; [done|].
  injection E as Horg Hop Hd _. exists a. split; [by left|]. split; [done|].
  apply (decision_is_final str_cmp demo_hex demo_sha256 demo_hmac demo_parse show_Z demo_date demo_store approved_events
    (demo_execution admin_authority) decision_rejected (Some 1200) (id_of (js "06")) 1200 a demo_empty); [|done|done].
  rewrite Ha. by left.
Defined.

(** Another worker claims again. *)
Lemma claim_is_kept_witness :
  (o_claimId <$> demo_row claimed_events) = Some (Some demo_claim_id)
  /\ snd (claimProviderOperationExecution demo_sha256 demo_hmac (demo_execution admin_authority) (Some 1250) (id_of (js "07"))
       1250 (demo_run demo_store claimed_events)) = demo_run demo_store claimed_events.
Proof.
  assert ((o_claimId <$> demo_row claimed_events) = Some (Some demo_claim_id)) as Hc by by vm_compute. split; [done|].
  destruct (demo_row_some claimed_events) as [o Ho]; [by vm_compute|]. rewrite Ho in Hc. injection Hc as Hc.
  apply (claim_is_kept str_cmp demo_hex demo_sha256 demo_hmac demo_parse show_Z demo_date demo_store claimed_events
    (demo_execution admin_authority) o demo_claim_id (Some 1250) (id_of (js "07")) 1250 demo_empty Ho Hc).
Defined.

Lemma start_is_kept_witness :
  snd (markProviderOperationRemoteStarted demo_sha256 demo_hmac (demo_execution owner_authority) demo_claim_id (Some 1400)
       1400 1400 (demo_run demo_store started_events)) = demo_run demo_store started_events.
Proof.
  destruct (demo_row_some started_events) as [o Ho]; [by vm_compute|].
  assert (((fun o => is_set (o_remoteStartedAt o)) <$> demo_row started_events) = Some true) as Hs by by vm_compute.
  rewrite Ho in Hs. injection Hs as Hs.
  apply (start_is_kept str_cmp demo_hex demo_sha256 demo_hmac demo_parse show_Z demo_date demo_store started_events
    (demo_execution owner_authority) o demo_claim_id (Some 1400) 1400 1400 demo_empty Ho Hs).
Defined.


(** A stored plan; a fingerprint in an array in an object; and a token in an object in one. *)
Lemma redacted_values_are_clean_witness :
  (exists o, o ∈ st_operations (demo_run demo_store planned_events) /\ clean (o_redactedPlan o))
  /\ clean (VObj [(js "roles", VArr [VObj [(js "credentialFenceFingerprint", VStr (js "0f"))]])])
  /\ ~ clean (VObj [(js "roles", VObj [(js "apiToken", VNull)])]).
Proof.
  destruct (redacted_values_are_clean str_cmp demo_hex demo_sha256 demo_hmac demo_parse show_Z demo_date) as (Hiff & Hplans & _).
  split; [|split].
  - destruct (demo_row_some planned_events) as [o Ho]; [by vm_compute|]. pose proof (row_at_in _ _ _ Ho) as [Hin _].
    exists o. split; [done|]. exact (Hplans demo_store planned_events o demo_empty Hin).
  - apply Hiff. vm_compute. reflexivity.
  - intros H%Hiff. vm_compute in H. discriminate H.
Defined.

(** *** A planner *)

Definition demo_main : NeonBranchInventoryItem := mkItem (mkBranch (js "br-main") (js "project-1") None None (js "main")
  st_ready None (js "t") (js "t") (js "t") (js "console") parent_data None None true true None [] prod_true true) 0.
Definition demo_inventory : NeonBranchInventory := mkInventory (js "project-1") [js "br-main"] [demo_main].
Definition demo_request : NeonBranchCreatePlanRequest := mkCreateRequest (id_of (js "03")) (js "project-1") (js "br-main")
  (js "copy") init_parent_data pt_head ep_read_write production_env.

Lemma planned_operations_meet_the_policy_witness :
  exists p, buildNeonBranchCreatePlan show_Z demo_date demo_request demo_inventory demo_operation demo_integration 1 true
      (Some 1000) = Ok p
    /\ cp_risk p = production_data /\ validPlanPolicy (PlanCreate p) = true.
Proof.
  eexists. assert (buildNeonBranchCreatePlan show_Z demo_date demo_request demo_inventory demo_operation demo_integration 1
    true (Some 1000) = Ok _) as H by (vm_compute; reflexivity).
  split; [exact H|]. split; [reflexivity|].
  exact (proj1 (planned_operations_meet_the_policy show_Z demo_date) _ _ _ _ _ _ _ _ H).
Defined.

(** *** A switch *)

Definition demo_connection : jsstr := id_of (js "10").
Definition connection_claim : jsstr := id_of (js "11").
Definition source_resource_id : jsstr := id_of (js "12").
Definition resource_of (branch : jsstr) : js_record := [
  (js "branch", VStr branch); (js "database", VStr (js "app")); (js "databaseId", VStr (js "7"));
  (js "engine", VStr (js "postgres")); (js "project", VStr (js "project-1"));
  (js "schemas", VArr [VStr (js "public")])].
Definition fingerprint_of (branch : jsstr) : jsstr :=
  match providerResourceFingerprint str_cmp demo_hex (js "neon") (resource_of branch) with Ok t => t | Throw _ => [] end.
Definition snapshot_of (branch : jsstr) : BranchSnapshot :=
  mkSnapshot branch branch st_ready None (js "t") (js "t") false false [].

Definition demo_switch : NeonBranchSwitchPlan := mkSwitchPlan 1 (js "neon.branch.switch") demo_operation demo_integration
  (js "1") (show_Z 1000) (show_Z 601000)
  (mkSwitchSource (snapshot_of (js "br-old")) (js "project-1") demo_connection (js "db") source_resource_id (js "7")
     (js "app") [js "public"] development false true None (Some 3) (Some 5) (Some 0))
  (mkTargetFacts (snapshot_of (js "br-new")) (js "project-1") (js "7") (js "app") (js "ep-1") (demo_hex (js "databases"))
     (fingerprint_of (js "br-new")) None development)
  (mkImpact (Some 0) true true true) standard single_admin [js "NEON_CONNECTION_TARGET_CHANGES"].
Definition switch_planHash : jsstr := Eval vm_compute in canonicalHash str_cmp demo_hex (plan_value (PlanSwitch demo_switch)).
Definition switch_execution : ProviderOperationExecutionIdentity :=
  mkExecutionIdentity owner_authority demo_integration 1 demo_operation kind_switch switch_planHash demo_marker.

Definition demo_projection : ProviderImportProjection := mkProjection (fingerprint_of (js "br-new")) (resource_of (js "br-new"))
  [(js "production", VBool false)] true true true true (js "neon.managed.invalid") 5432 (js "app") (js "postgres") (js "verify-full").
Definition demo_completion : SwitchCompletionInput :=
  mkSwitchCompletion switch_execution demo_claim_id connection_claim demo_switch demo_projection (Some 2000).

Definition switch_row : operation_row := mkOperation demo_operation (js "org") demo_integration (js "neon") 1
  (js "neon.branch.switch") remote_started (id_of (js "03")) switch_planHash switch_planHash 601000 (js "standard")
  (js "single_admin") (js "m1") (js "u1") (js "s1") (js "owner") (js "project-1") (js "br-old") (js "br-new") demo_marker
  (canonicalize str_cmp (plan_value (PlanSwitch demo_switch))) None None None None (Some demo_claim_id) (Some 1200)
  (Some 1300) None None 1000 1300.
Definition held_connection : pconnection_row := mkPConnection
  (mkConnection demo_connection (js "org") None 6 (js "managed") (Some demo_integration) (Some source_resource_id)
     (js "postgres") (js "neon") true (mkGate (Some 1900) (Some 1900) (Some connection_claim)))
  (js "db") 3 (Some (VObj (resource_of (js "br-old")))) false None (Some (js "dev")) (js "neon.managed.invalid") 5432
  (js "app") (js "verify-full").
Definition switch_store : store := mkStore
  (mkIdentity (t_sessions demo_identity) (t_members demo_identity) (t_integrations demo_identity) (t_profiles demo_identity)
     [mkGrant (js "org") demo_connection (js "m1") (js "manage")] [])
  [held_connection]
  [mkPResource source_resource_id (js "org") (js "neon") (fingerprint_of (js "br-old")) (VObj (resource_of (js "br-old")))
     VNull VNull]
  [mkVersion (id_of (js "13")) (js "org") (js "connection") demo_connection 3 None None (js "main") (js "create") VNull [] (js "u1")]
  [switch_row] [] [].

