(* ===== verification/NeonMutation.v ===== *)
(** * Responses to branch mutations

    Models [workspace-cloud/lib/providers/neon-branch-mutation.ts]: the body of a branch
    creation and the readers of what the provider answers, with the statuses, receipts and
    endpoints they keep. Everything else of a response is dropped. *)

From S2P Require Import Prelude JsString JsMap JsValue Regex NeonBranches NeonCreatePlan NeonDeletePlan.
From S2P Require Import RevocationGate D1Batch OperationRecords OperationExecution.
From Stdlib Require String.
Import Stdlib.Strings.String.StringSyntax.
Local Open Scope Z_scope.

(** ** Data *)

Record NeonBranchCreateReceipt := mkCreateReceipt {
  rp_branchId : jsstr; rp_operationId : option jsstr; rp_operationStatus : option jsstr; rp_endpointId : option jsstr }.
Record NeonBranchDeleteReceipt := mkDeleteReceipt {
  rd_branchId : jsstr; rd_operationId : option jsstr; rd_operationStatus : option jsstr; rd_alreadyDeleted : bool }.
Record ParsedNeonBranchOperation := mkParsedOperation {
  po_id : jsstr; po_branchId : option jsstr; po_action : jsstr; po_status : jsstr }.
Inductive EndpointType := read_write_endpoint | read_only_endpoint.
#[export] Instance EndpointType_eq_dec : EqDecision EndpointType.
Proof. solve_decision. Defined.
Record ParsedNeonBranchEndpoint := mkEndpoint { pe_id : jsstr; pe_type : EndpointType; pe_disabled : bool }.

(** ** Field readers *)

Definition bad_response {A} (message : jsstr) : outcome A := Throw (ProviderError message 502).
Definition mutation_object (v : value) : outcome js_record :=
  match v with VObj r => Ok r | _ => bad_response (js "Neon returned an invalid branch mutation response") end.
Definition mutation_string (v : value) (name : jsstr) : outcome jsstr :=
  match v with
  | VStr s =>
    if (length s <? 1)%nat || (2048 <? length s)%nat || existsb (fun c => control_char c || bidi_char c) s
    then bad_response (js "Neon response omitted " ++ name) else Ok s
  | _ => bad_response (js "Neon response omitted " ++ name)
  end.
Definition responseUuid (v : value) (name : jsstr) : outcome jsstr :=
  id ← mutation_string v name;
  if uuid id then Ok id else bad_response (js "Neon returned an invalid " ++ name).
Definition operationStatus (v : value) : outcome jsstr :=
  match v with
  | VStr s => if sql_in s NEON_OPERATION_STATUSES then Ok s else bad_response (js "Neon returned an invalid operation status")
  | _ => bad_response (js "Neon returned an invalid operation status")
  end.
(** [Array.isArray(value) ? value : \[\]] *)
Definition items_of (v : value) : list value := match v with VArr l => l | _ => [] end.

(** [/^\[a-z\]\[a-z0-9_\]{0,127}$/] *)
Definition operation_action_re : re :=
  RSeqs [RBol; RCls is_lower; RUpTo 127 (RCls (fun c => is_lower c || is_digit c || (c =? cUS)%N)); REol].

Definition parseNeonBranchOperation (v : value) (projectId branchId : jsstr) : outcome ParsedNeonBranchOperation :=
  row ← mutation_object v;
  project ← mutation_string (field row (js "project_id")) (js "operation project id");
  branch ← match field row (js "branch_id") with
           | VUndefined | VNull => Ok None
           | v => Some <$> mutation_string v (js "operation branch id")
           end;
  action ← mutation_string (field row (js "action")) (js "operation action");
  if negb (project ==s projectId) || negb (match branch with None => true | Some b => b ==s branchId end)
     || (128 <? length action)%nat || negb (test operation_action_re action)
  then bad_response (js "Neon returned an invalid branch operation")
  else
    id ← responseUuid (field row (js "id")) (js "operation id");
    st ← operationStatus (field row (js "status"));
    Ok (mkParsedOperation id branch action st).

Definition endpoint_type (s : jsstr) : option EndpointType :=
  if s ==s js "read_write" then Some read_write_endpoint
  else if s ==s js "read_only" then Some read_only_endpoint else None.

(** One endpoint, after those with the identifiers [seen]. *)
Definition parse_endpoint (branchId : jsstr) (seen : list jsstr) (v : value) : outcome ParsedNeonBranchEndpoint :=
  endpoint ← mutation_object v;
  id ← mutation_string (field endpoint (js "id")) (js "endpoint id");
  type ← mutation_string (field endpoint (js "type")) (js "endpoint type");
  match endpoint_type type with
  | Some t =>
    if negb (test segment_re id)
       || negb (match field endpoint (js "branch_id") with VUndefined => true | VStr b => b ==s branchId | _ => false end)
       || negb (match field endpoint (js "disabled") with VUndefined | VBool _ => true | _ => false end)
       || existsb (fun s => s ==s id) seen
    then bad_response (js "Neon returned an invalid branch endpoint")
    else Ok (mkEndpoint id t (match field endpoint (js "disabled") with VBool true => true | _ => false end))
  | None => bad_response (js "Neon returned an invalid branch endpoint")
  end.
Fixpoint parse_endpoints (branchId : jsstr) (seen : list jsstr) (l : list value) : outcome (list ParsedNeonBranchEndpoint) :=
  match l with
  | [] => Ok []
  | v :: l => e ← parse_endpoint branchId seen v; rest ← parse_endpoints branchId (pe_id e :: seen) l; Ok (e :: rest)
  end.
Definition parseNeonBranchEndpoints (v : value) (branchId : jsstr) : outcome (list ParsedNeonBranchEndpoint) :=
  if (16 <? length (items_of v))%nat then bad_response (js "Neon returned too many branch endpoints")
  else parse_endpoints branchId [] (items_of v).

(** The properties; assigning the key [__proto__] to the plain object adds no property. *)
Fixpoint read_annotations (entries : list (jsstr * value)) (parsed : list (jsstr * jsstr)) : outcome (list (jsstr * jsstr)) :=
  match entries with
  | [] => Ok parsed
  | (key, VStr property) :: rest =>
    if (length key <? 1)%nat || (256 <? length key)%nat || existsb control_char key
       || (2048 <? length property)%nat || existsb control_char property
    then bad_response (js "Neon returned invalid branch annotations")
    else read_annotations rest (if key ==s js "__proto__" then parsed else mset parsed key property)
  | _ => bad_response (js "Neon returned invalid branch annotations")
  end.
Definition parseNeonBranchAnnotation (v : value) (branchId : jsstr) : outcome (option (list (jsstr * jsstr))) :=
  match v with
  | VObj annotation =>
    object ← mutation_object (field annotation (js "object"));
    if negb (is_text (field object (js "id")) branchId) then Ok None
    else
      properties ← mutation_object (field annotation (js "value"));
      if (50 <? length properties)%nat then bad_response (js "Neon returned invalid branch annotations")
      else Some <$> read_annotations properties []
  | _ => Ok None
  end.

(** ** Requests *)

Definition marker_properties (operationId planHash ownershipMarker : jsstr) : list (jsstr * jsstr) := [
  (js "dopedb-operation-id", operationId); (js "dopedb-plan-hash", planHash); (js "dopedb-ownership", ownershipMarker)].

Definition neonBranchMutationBody (plan : NeonBranchCreatePlan) (planHash ownershipMarker : jsstr) : outcome value :=
  if negb (test hash_re planHash) || negb (test ownership_re ownershipMarker)
  then Throw (ProviderError (js "Invalid Neon branch mutation identity") 400)
  else Ok (VObj (
    [(js "branch", VObj ([
        (js "parent_id", VStr (cs_branchId (cp_source plan))); (js "name", VStr (ct_name (cp_target plan)));
        (js "init_source", VStr (init_name (ct_initSource (cp_target plan)))); (js "protected", VBool false)]
      ++ match cs_point (cp_source plan) with
         | pt_head => []
         | pt_lsn v => [(js "parent_lsn", VStr v)]
         | pt_timestamp v => [(js "parent_timestamp", VStr v)]
         end))]
    ++ (if bool_decide (ct_endpoint (cp_target plan) = ep_read_write)
        then [(js "endpoints", VArr [VObj [(js "type", VStr (js "read_write"))]])] else [])
    ++ [(js "annotation_value", VObj (map (fun e => (fst e, VStr (snd e)))
           (marker_properties (cp_operationId plan) planHash ownershipMarker)))])).

(** ** Receipts *)

(** The operations of a response; [key] tells repeated ones apart. *)
Fixpoint parse_operations (projectId branchId repeated : jsstr) (key : ParsedNeonBranchOperation -> jsstr)
    (seen : list jsstr) (l : list value) : outcome (list ParsedNeonBranchOperation) :=
  match l with
  | [] => Ok []
  | v :: l =>
    op ← parseNeonBranchOperation v projectId branchId;
    if existsb (fun s => s ==s key op) seen then bad_response repeated
    else rest ← parse_operations projectId branchId repeated key (key op :: seen) l; Ok (op :: rest)
  end.

Definition of_branch (branchId : jsstr) (op : ParsedNeonBranchOperation) : bool := sql_eq (po_branchId op) branchId.
(** [a ?? b] *)
Definition or_else {A} (a b : option A) : option A := match a with Some _ => a | None => b end.

Definition parseNeonBranchCreateReceipt (v : value) (plan : NeonBranchCreatePlan) : outcome NeonBranchCreateReceipt :=
  body ← mutation_object v;
  branch ← mutation_object (field body (js "branch"));
  branchId ← mutation_string (field branch (js "id")) (js "branch id");
  let project := cs_projectId (cp_source plan) in
  if negb (test segment_re branchId) || negb (is_text (field branch (js "project_id")) project)
     || negb (is_text (field branch (js "name")) (ct_name (cp_target plan)))
  then bad_response (js "Neon returned an invalid created branch")
  else if (64 <? length (items_of (field body (js "operations"))))%nat
  then bad_response (js "Neon returned too many branch operations")
  else
    operations ← parse_operations project branchId (js "Neon repeated a branch operation") po_id []
                   (items_of (field body (js "operations")));
    let primary := or_else
      (findb (fun op => of_branch branchId op
                        && sql_in (po_action op) [js "create_branch"; js "create_timeline"; js "apply_schema_from_branch"]) operations)
      (findb (of_branch branchId) operations) in
    endpoints ← parseNeonBranchEndpoints (field body (js "endpoints")) branchId;
    let endpoint := findb (fun e => bool_decide (pe_type e = read_write_endpoint)) endpoints in
    if (if bool_decide (ct_endpoint (cp_target plan) = ep_read_write)
        then negb (length endpoints =? 1)%nat || is_null endpoint
        else negb (length endpoints =? 0)%nat)
    then bad_response (js "Neon created an unexpected endpoint set")
    else Ok (mkCreateReceipt branchId (po_id <$> primary) (po_status <$> primary) (pe_id <$> endpoint)).

Definition parseNeonBranchDeleteReceipt (v : value) (plan : NeonBranchDeletePlan) : outcome NeonBranchDeleteReceipt :=
  let target := dp_target plan in
  match v with
  | VNull => Ok (mkDeleteReceipt (dt_branchId target) None None true)
  | _ =>
    body ← mutation_object v;
    branch ← mutation_object (field body (js "branch"));
    if negb (is_text (field branch (js "id")) (dt_branchId target))
       || negb (is_text (field branch (js "project_id")) (dt_projectId target))
    then bad_response (js "Neon returned an invalid deleted branch")
    else if (64 <? length (items_of (field body (js "operations"))))%nat
    then bad_response (js "Neon returned too many branch delete operations")
    else
      operations ← parse_operations (dt_projectId target) (dt_branchId target)
                     (js "Neon repeated a branch delete operation") (fun op => po_id op ++ [cCOLON] ++ po_action op) []
                     (items_of (field body (js "operations")));
      let primary := or_else (findb (fun op => po_action op ==s js "delete_timeline") operations)
                       (findb (of_branch (dt_branchId target)) operations) in
      Ok (mkDeleteReceipt (dt_branchId target) (po_id <$> primary) (po_status <$> primary) false)
  end.

(** ** What a reader returns is well formed *)

Lemma parse_operation_ok v project branch op :
  parseNeonBranchOperation v project branch = Ok op ->
  uuid (po_id op) = true /\ sql_in (po_status op) NEON_OPERATION_STATUSES = true
  /\ (po_branchId op = None \/ po_branchId op = Some branch).
Proof.
  unfold parseNeonBranchOperation. intros H. do 2 (apply res_bind_ok in H as (? & _ & H)).
  apply res_bind_ok in H as (b & _ & H). apply res_bind_ok in H as (action & _ & H).
  destruct (_ || _ || _ || _) eqn:E in H; [done|]. apply res_bind_ok in H as (id & Hid & H).
  apply res_bind_ok in H as (st & Hst & [= <-]). cbn. unfold responseUuid in Hid.
  apply res_bind_ok in Hid as (id' & _ & Hid). destruct (uuid id') eqn:Eu; [|done]. injection Hid as <-.
  unfold operationStatus in Hst. destruct (field _ (js "status")) as [| | | | |s| |]; try done.
  destruct (sql_in s _) eqn:Es; [|done]. injection Hst as <-. split; [done|]. split; [done|].
  bools. destruct b as [b|]; [right|by left]. bools. by subst.
Qed.

Lemma parse_operations_ok project branch repeated key seen l ops :
  parse_operations project branch repeated key seen l = Ok ops ->
  forall op, op ∈ ops -> uuid (po_id op) = true /\ sql_in (po_status op) NEON_OPERATION_STATUSES = true.
Proof.
  revert seen ops. induction l as [|v l IH]; intros seen ops; cbn.
  { intros [= <-] op Hop. by apply elem_of_nil in Hop. }
  intros H. apply res_bind_ok in H as (op & Hop & H). destruct (existsb _ seen); [done|].
  apply res_bind_ok in H as (rest & Hrest & [= <-]). intros op' [->|Hin]%elem_of_cons; [|by eapply IH].
  by destruct (parse_operation_ok _ _ _ _ Hop) as (? & ? & _).
Qed.

Lemma parse_endpoints_ok branch seen l es :
  parse_endpoints branch seen l = Ok es -> forall e, e ∈ es -> test segment_re (pe_id e) = true.
Proof.
  revert seen es. induction l as [|v l IH]; intros seen es; cbn.
  { intros [= <-] e He. by apply elem_of_nil in He. }
  intros H. apply res_bind_ok in H as (e & He & H). apply res_bind_ok in H as (rest & Hrest & [= <-]).
  intros e' [->|Hin]%elem_of_cons; [|by eapply IH]. unfold parse_endpoint in He.
  do 3 (apply res_bind_ok in He as (? & _ & He)). destruct (endpoint_type _); [|done].
  destruct (_ || _ || _ || _) eqn:E in He; [done|]. injection He as <-. by bools.
Qed.

Lemma or_else_in {A} (p q : A -> bool) l x : or_else (findb p l) (findb q l) = Some x -> x ∈ l.
Proof.
  unfold or_else. destruct (findb p l) as [y|] eqn:E; intros H.
  - injection H as <-. by apply findb_some in E as [_ ?].
  - by apply findb_some in H as [_ ?].
Qed.

Lemma primary_ok p q ops :
  (forall op, op ∈ ops -> uuid (po_id op) = true /\ sql_in (po_status op) NEON_OPERATION_STATUSES = true) ->
  null_or uuid (po_id <$> or_else (findb p ops) (findb q ops)) = true
  /\ null_or (fun s => sql_in s NEON_OPERATION_STATUSES) (po_status <$> or_else (findb p ops) (findb q ops)) = true.
Proof.
  intros H. destruct (or_else _ _) as [op|] eqn:E; [|done]. apply or_else_in in E. by apply H in E.
Qed.

Lemma create_receipt_ok v plan r :
  parseNeonBranchCreateReceipt v plan = Ok r ->
  test segment_re (rp_branchId r) = true /\ null_or uuid (rp_operationId r) = true
  /\ null_or (fun s => sql_in s NEON_OPERATION_STATUSES) (rp_operationStatus r) = true
  /\ null_or (test segment_re) (rp_endpointId r) = true.
Proof.
  unfold parseNeonBranchCreateReceipt. intros H. do 3 (apply res_bind_ok in H as (? & _ & H)).
  destruct (_ || _ || _) eqn:E in H; [done|]. destruct (64 <? _)%nat; [done|].
  apply res_bind_ok in H as (ops & Hops & H). apply res_bind_ok in H as (es & Hes & H).
  match type of H with (if ?b then _ else _) = _ => destruct b eqn:Ee end; [done|]. injection H as <-. cbn. bools. split; [done|].
  destruct (primary_ok (fun op => of_branch x1 op && sql_in (po_action op)
    [js "create_branch"; js "create_timeline"; js "apply_schema_from_branch"]) (of_branch x1) ops) as [Hid Hst].
  { by eapply parse_operations_ok. }
  split; [done|]. split; [done|]. unfold parseNeonBranchEndpoints in Hes. destruct (16 <? _)%nat; [done|].
  destruct (findb _ es) as [e|] eqn:Ef; [|done]. apply findb_some in Ef as [_ Hin]. cbn.
  by eapply parse_endpoints_ok.
Qed.
