(* ===== verification/NeonApi.v ===== *)
(** * Programs of the branch operations

    The use cases of Neon branches run in workers that query the database, read the clock
    and call the provider, with other workers in between. A program is a tree of such
    effects; each effect has a type of answers. The provider's HTTP API, the SQL session of
    a branch's owner and the parts that are not modelled (the credential store, the live
    snapshots, the revocation of leases and the authorization of a connection) are effects
    whose answers are not fixed; the commands of the operation store are effects whose
    answers [NeonSystem] fixes. *)

From S2P Require Import Prelude JsString Regex JsMap JsonText JsValue JsSort RevocationGate NeonBranches.
From S2P Require Import JsUri Access NeonDeletePlan NeonCreatePlan NeonSwitchPlan D1Batch OperationRecords OperationPlan.
From S2P Require Import OperationExecution OperationSwitch NeonMutation.
From Stdlib Require String.
Import Stdlib.Strings.String.StringSyntax.
Local Open Scope Z_scope.

(** ** Errors *)

(** What a use case throws: an error of a plan, of the store or an adapter, or a
    [NeonBranchMutationRequestError]. *)
Inductive failure :=
| plan_failure (e : plan_error)
| store_failure (e : op_error)
| mutation_failure (message : jsstr) (status : Z) (responseReceived explicitlyRetrySafe : bool).

(** ** HTTP *)

Inductive http_method := GET | POST | DELETE.
#[export] Instance http_method_eq_dec : EqDecision http_method.
Proof. solve_decision. Defined.
(** [rq_key] is the API key of the Authorization header, [rq_id] the [x-request-id]. *)
Record http_request := mkHttp {
  rq_method : http_method; rq_path : jsstr; rq_key : jsstr; rq_body : option value; rq_id : option jsstr }.
(** The bounded read of a body. *)
Inductive body_read := json_body (v : value) | oversized_body | invalid_body.
Inductive http_response := not_received | received (status : Z) (body : body_read).

(** ** Effects *)

(** A row of the store with the typed view of its plan, [plan as NeonBranchOperationPlan]. *)
Record Loaded (R : Type) := mkLoaded { ld_record : R; ld_plan : NeonBranchOperationPlan }.
Arguments mkLoaded {R}.
Arguments ld_record {R}.
Arguments ld_plan {R}.

Record CreateContext := mkCreateContext {
  lc_credential : jsstr; lc_inventory : NeonBranchInventory; lc_productionReference : bool }.
Record DeleteContext := mkDeleteContext {
  ld_credential : jsstr; ld_inventory : NeonBranchInventory; ld_ownership : NeonBranchDeleteOwnershipBoundary;
  ld_references : NeonBranchDeleteReferenceSnapshot }.
Record SwitchTargetContext := mkSwitchTargetContext {
  lt_inventory : NeonBranchInventory; lt_target : NeonBranchSwitchTargetSnapshot; lt_projection : ProviderImportProjection }.
Record SwitchContextLive := mkSwitchLive { lw_connection : NeonBranchSwitchConnectionSnapshot; lw_target : SwitchTargetContext }.
(** The target of [liveSwitchTargetContext]. *)
Record SwitchTargetScope := mkTargetScope {
  tq_projectId : jsstr; tq_branchId : jsstr; tq_database : jsstr; tq_schemas : list jsstr; tq_environment : PlanEnvironment }.

Inductive GateAnswer := gate_none | gate_claim (claimId : jsstr) (connectionRevision : num) (firstPending : bool).

Inductive effect : Type -> Type :=
(** [Date.now()] and [new Date()] *)
| Now : effect Z
| FreshUuid : effect jsstr
| Fetch (r : http_request) : effect http_response
| Delay : effect unit
(** The store of provider operations *)
| LoadExecution (s : RowScope) (kind : ProviderOperationKind) : effect (outcome (option (Loaded ProviderOperationExecutionRecord)))
| LoadPlan (s : RowScope) (kind : ProviderOperationKind) : effect (outcome (option (Loaded ProviderOperationPlanRecord)))
| Record_ (x : RecordInput) : effect (outcome (option (Loaded ProviderOperationPlanRecord)))
| Decide (x : ProviderOperationExecutionIdentity) (d : ProviderOperationDecision) (now : num)
    : effect (outcome (option ProviderOperationDecisionRecord))
| Cancel (x : ProviderOperationExecutionIdentity) (now : num) : effect (outcome (option ProviderOperationCancellationRecord))
| Claim (x : ProviderOperationExecutionIdentity) (now : num) : effect (outcome (option ProviderOperationExecutionClaim))
| Start (x : ProviderOperationExecutionIdentity) (claimId : jsstr) (now : num) : effect (outcome (option ProviderOperationRemoteStart))
| Apply (x : ProviderOperationExecutionIdentity) (claimId : jsstr) (r : ProviderOperationReconciliationInput) (now : num)
    : effect (outcome (option ProviderOperationReconciliationRecord))
| Complete (x : SwitchCompletionInput) : effect (outcome (option NeonBranchSwitchCompletionRecord))
(** Snapshots and credentials *)
| ProjectCredential (projectId : jsstr) : effect (outcome jsstr)
| LiveCreate (projectId branchId : jsstr) : effect (outcome CreateContext)
| LiveDelete (projectId branchId : jsstr) : effect (outcome DeleteContext)
| LiveSwitch (connectionId projectId branchId : jsstr) (environment : PlanEnvironment) : effect (outcome SwitchContextLive)
| LiveSwitchTarget (s : SwitchTargetScope) : effect (outcome SwitchTargetContext)
(** [sqlClient(connectionUri).query(text)]: the rows, unless it fails *)
| QuerySql (connectionUri text : jsstr) : effect (option (list js_record))
(** The connection of a switch *)
| AuthorizeConnection (connectionId : jsstr) : effect (option (jsstr * Z))
| ClaimGate (connectionId : jsstr) : effect GateAnswer
| ReleaseGate (claimId : jsstr) : effect unit
| ClearGate (claimId : jsstr) : effect unit
(** [revokeActiveLeases]: how many were deferred *)
| RevokeLeases (connectionId : jsstr) : effect (outcome Z).

(** ** Programs *)

Inductive prog (A : Type) : Type :=
| Ret (a : A)
| Vis {X : Type} (e : effect X) (k : X -> prog A).
Arguments Ret {A} a.
Arguments Vis {A X} e k.

Fixpoint prog_bind {A B} (p : prog A) (f : A -> prog B) : prog B :=
  match p with Ret a => f a | Vis e k => Vis e (fun x => prog_bind (k x) f) end.

(** Programs that may throw. *)
Definition action (A : Type) : Type := prog (res failure A).
Definition return_ {A} (a : A) : action A := Ret (Ok a).
Definition raise {A} (f : failure) : action A := Ret (Throw f).
Definition action_bind {A B} (p : action A) (f : A -> action B) : action B :=
  prog_bind p (fun r => match r with Ok a => f a | Throw e => raise e end).
(** [try { p } catch (e) { h(e) }] *)
Definition catch {A B} (p : action A) (f : A -> action B) (h : failure -> action B) : action B :=
  prog_bind p (fun r => match r with Ok a => f a | Throw e => h e end).

Definition ask {X} (e : effect X) : action X := Vis e (fun x => Ret (Ok x)).
Definition lift {A} (r : outcome A) : action A := match r with Ok a => return_ a | Throw e => raise (store_failure e) end.
Definition lift_plan {A} (r : planned A) : action A := match r with Ok a => return_ a | Throw e => raise (plan_failure e) end.
(** An effect that may throw. *)
Definition call {X} (e : effect (outcome X)) : action X := Vis e (fun r => lift r).

Notation "x <~~ m ; k" := (action_bind m (fun x => k)) (at level 100, m at next level, right associativity).

(** ** The API client

    [neon-api.ts]: single requests and collections. *)

Definition provider_failure {A} (message : jsstr) (status : Z) : action A := raise (store_failure (ProviderError message status)).
Definition http_ok (status : Z) : bool := (200 <=? status) && (status <=? 299).
(** [status === 401 ? 424 : status >= 500 ? 502 : status] *)
Definition relayed_status (status : Z) : Z := if status =? 401 then 424 else if 500 <=? status then 502 else status.
Definition boundedJson (b : body_read) : outcome value :=
  match b with
  | json_body v => Ok v
  | oversized_body => Throw (ProviderError (js "Neon response is too large") 502)
  | invalid_body => Throw (ProviderError (js "Neon returned an invalid response") 502)
  end.

(** [encodeURIComponent] leaves the characters of a segment as they are. *)
Definition apiSegment (s : jsstr) : outcome jsstr :=
  if test segment_re s then Ok s else Throw (ProviderError (js "Invalid Neon resource identifier") 400).

Definition apiRequest (key path : jsstr) : action value :=
  response <~~ ask (Fetch (mkHttp GET path key None None));
  match response with
  | not_received => provider_failure (js "Neon API is unavailable") 502
  | received status body =>
    if negb (http_ok status) then provider_failure (js "Neon rejected the request") (relayed_status status)
    else if status =? 204 then return_ VNull else lift (boundedJson body)
  end.

Definition api_object (v : value) : action js_record :=
  match v with VObj r => return_ r | _ => provider_failure (js "Neon returned an invalid response") 502 end.
Definition requiredString (v : value) (name : jsstr) : outcome jsstr :=
  match v with
  | VStr s => if (length s <? 1)%nat || (2048 <? length s)%nat
              then Throw (ProviderError (js "Neon response omitted " ++ name) 502) else Ok s
  | _ => Throw (ProviderError (js "Neon response omitted " ++ name) 502)
  end.
(** The text of a safe integer that is not negative. *)
Definition index_text (t : jsstr) : bool :=
  non_empty t && forallb is_digit t
  && (foldl (fun v c => v * 10 + (Z.of_N c - 48)) 0 t <=? 9007199254740991).
Definition requiredResourceId (v : value) (name : jsstr) : outcome jsstr :=
  match v with
  | VStr _ => requiredString v name
  | VNum t => if index_text t then Ok t else Throw (ProviderError (js "Neon response omitted " ++ name) 502)
  | _ => Throw (ProviderError (js "Neon response omitted " ++ name) 502)
  end.

Definition invalid_pagination {A} : outcome A := Throw (ProviderError (js "Neon returned invalid pagination") 502).
(** [page.next ?? page.cursor] *)
Definition nextCursor (body : js_record) : outcome (option jsstr) :=
  match field body (js "pagination") with
  | VUndefined | VNull => Ok None
  | VObj page =>
    match (match field page (js "next") with VUndefined | VNull => field page (js "cursor") | v => v end) with
    | VUndefined | VNull => Ok None
    | VStr s => if negb (non_empty s) then Ok None
                else if (2048 <? length s)%nat || existsb control_char s then invalid_pagination else Ok (Some s)
    | _ => invalid_pagination
    end
  | _ => invalid_pagination
  end.

(** ** The branch adapter

    Models the collections of [workspace-cloud/lib/providers/neon-api.ts], the inventory of
    [neon-branch-inventory-api.ts] and [neon-branch-api.ts]: the two mutating requests
    with their single retry, and the reconciliation of a creation (with the fence around
    inherited roles) and of a deletion, as programs. The four requests of a reconciliation that run concurrently run in the order
    of the source here. *)

(** *** Collections *)

Definition NEON_PAGE_LIMIT : Z := 100.
Definition MAX_NEON_PAGES : nat := 16.

Record CollectionInput := mkCollection {
  cl_key : jsstr; cl_path : jsstr; cl_collection : jsstr; cl_query : list (jsstr * jsstr); cl_pageLimit : bool;
  cl_scopeLabel : jsstr }.

Fixpoint read_objects (l : list value) : action (list js_record) :=
  match l with
  | [] => return_ []
  | v :: l => r <~~ api_object v; rest <~~ read_objects l; return_ (r :: rest)
  end.

(** The loop over the rows of a page: the identifiers seen so far. *)
Fixpoint new_ids (label : jsstr) (seen : list jsstr) (rows : list js_record) : outcome (list jsstr) :=
  match rows with
  | [] => Ok seen
  | row :: rows =>
    id ← requiredResourceId (field row (js "id")) (label ++ js " id");
    if existsb (fun s => s ==s id) seen
    then Throw (ProviderError (js "Neon " ++ label ++ js " pagination returned duplicate resources") 502)
    else new_ids label (id :: seen) rows
  end.

Definition branches_path (project : jsstr) : jsstr := js "/projects/" ++ project ++ js "/branches".
Definition branch_path (project branch : jsstr) : jsstr := branches_path project ++ [cSLASH] ++ branch.

(** What [parseNeonConnectionUri] reads of a [URL]; the port is its number. *)
Record ConnectionUri := mkConnectionUri {
  cu_protocol : jsstr; cu_username : jsstr; cu_password : jsstr; cu_hostname : jsstr; cu_port : option Z;
  cu_pathname : jsstr; cu_sslmode : option jsstr }.

Section api.
Context (localeCompare : jsstr -> jsstr -> Z) (sha256hex : jsstr -> jsstr) (date_parse : jsstr -> option Z).
(** The text of a [URLSearchParams], and [new URL]. *)
Context (search_params : list (jsstr * jsstr) -> jsstr) (parse_url : jsstr -> option ConnectionUri).

Definition collection_path (x : CollectionInput) (cursor : option jsstr) : jsstr :=
  let query := cl_query x ++ (if cl_pageLimit x then [(js "limit", show_Z NEON_PAGE_LIMIT)] else [])
               ++ match cursor with Some c => [(js "cursor", c)] | None => [] end in
  cl_path x ++ match query with [] => [] | _ => js "?" ++ search_params query end.

Fixpoint collect_pages (x : CollectionInput) (pages : nat) (rows : list js_record) (ids cursors : list jsstr)
    (cursor : option jsstr) : action (list js_record) :=
  match pages with
  | O => provider_failure (js "Neon " ++ cl_scopeLabel x ++ js " pagination exceeded its safety limit") 409
  | S pages =>
    body <~~ apiRequest (cl_key x) (collection_path x cursor);
    body <~~ api_object body;
    pageRows <~~ read_objects (items_of (field body (cl_collection x)));
    if (MAX_PROVIDER_RESULTS - length rows <? length pageRows)%nat
    then provider_failure (js "Neon " ++ cl_scopeLabel x ++ js " scope is too large to import safely") 409
    else
      ids <~~ lift (new_ids (cl_scopeLabel x) ids pageRows);
      next <~~ lift (nextCursor body);
      match next with
      | None => return_ (rows ++ pageRows)
      | Some c =>
        if (MAX_PROVIDER_RESULTS <=? length (rows ++ pageRows))%nat || existsb (fun s => s ==s c) cursors
        then provider_failure (js "Neon " ++ cl_scopeLabel x ++ js " pagination could not be completed safely") 409
        else collect_pages x pages (rows ++ pageRows) ids (c :: cursors) (Some c)
      end
  end.
Definition listNeonCollection (x : CollectionInput) : action (list js_record) :=
  collect_pages x MAX_NEON_PAGES [] [] [] None.

Definition listNeonBranchInventory (key project : jsstr) : action NeonBranchInventory :=
  segment <~~ lift (apiSegment project);
  rows <~~ listNeonCollection (mkCollection key (branches_path segment) (js "branches") [] true (js "branch"));
  match parseNeonBranchInventory date_parse project (map VObj rows) with
  | Ok inv => return_ inv
  | Throw message => provider_failure message 502
  end.

(** A database: its numeric identifier and its name. *)
Notation database := (jsstr * jsstr)%type.
Definition neonDatabaseName (s : jsstr) : bool :=
  (0 <? length s)%nat && (length s <=? 63)%nat
  && negb (existsb (fun c => control_char c || (c =? cSLASH)%N || (c =? 63)%N || (c =? 35)%N) s).
Definition read_database (branch : jsstr) (row : js_record) : outcome database :=
  id ← requiredResourceId (field row (js "id")) (js "database id");
  name ← requiredString (field row (js "name")) (js "database name");
  if negb (test database_id_re id) || negb (is_text (field row (js "branch_id")) branch) || negb (neonDatabaseName name)
  then Throw (ProviderError (js "Neon returned an invalid branch database") 502) else Ok (id, name).
Definition listNeonDatabases (key project branch : jsstr) : action (list database) :=
  p <~~ lift (apiSegment project);
  b <~~ lift (apiSegment branch);
  rows <~~ listNeonCollection (mkCollection key (branch_path p b ++ js "/databases") (js "databases") [] false (js "database"));
  lift (res_map (read_database branch) rows).

Definition neonBranchDatabaseFingerprint (databases : list database) : jsstr :=
  let sorted := sort_by (fun a b => str_cmp (fst a) (fst b)) databases in
  sha256hex (match stringify (VArr (map (fun d => VObj [(js "id", VStr (fst d)); (js "name", VStr (snd d))]) sorted)) with
             | Ok (Some t) => t | _ => [] end).

(** *** Mutating requests *)

Definition not_received_failure (noun : jsstr) : failure :=
  mutation_failure (js "Neon branch " ++ noun ++ js " response was not received") 502 false false.
Definition rejected_failure (noun : jsstr) (status : Z) (safe : bool) : failure :=
  mutation_failure (js "Neon rejected branch " ++ noun) (relayed_status status) true safe.
Definition unexpected_failure (noun : jsstr) : failure :=
  mutation_failure (js "Neon returned an unexpected branch " ++ noun ++ js " response") 502 true false.

(** Neon says that nothing happened. *)
Definition retry_safe (status : Z) : bool := (status =? 423) || (status =? 503).

(** The loop of [createNeonBranch] and [deleteNeonBranch]; [left] attempts remain. *)
Fixpoint mutation_attempts {R} (left : nat) (request : outcome http_request) (noun : jsstr) (accepted : list Z)
    (receipt : Z -> body_read -> outcome R) : action R :=
  match left with
  | O => raise (mutation_failure (js "Neon branch " ++ noun ++ js " retry boundary failed") 502 true false)
  | S rest =>
    request' <~~ lift request;
    response <~~ ask (Fetch request');
    match response with
    | not_received => raise (not_received_failure noun)
    | received status body =>
      if negb (http_ok status) then
        if retry_safe status && (left =? 2)%nat
        then _ <~~ ask Delay; mutation_attempts rest request noun accepted receipt
        else raise (rejected_failure noun status (retry_safe status))
      else if negb (existsb (Z.eqb status) accepted) then raise (unexpected_failure noun)
      else lift (receipt status body)
    end
  end.

Definition createNeonBranch (key : jsstr) (plan : NeonBranchCreatePlan) (planHash ownershipMarker : jsstr)
    : action NeonBranchCreateReceipt :=
  body <~~ lift (neonBranchMutationBody plan planHash ownershipMarker);
  mutation_attempts 2
    (project ← apiSegment (cs_projectId (cp_source plan));
     Ok (mkHttp POST (branches_path project) key (Some body) (Some (cp_operationId plan))))
    (js "creation") [201]
    (fun _ body => v ← boundedJson body; parseNeonBranchCreateReceipt v plan).

Definition deleteNeonBranch (key : jsstr) (plan : NeonBranchDeletePlan) : action NeonBranchDeleteReceipt :=
  mutation_attempts 2
    (project ← apiSegment (dt_projectId (dp_target plan));
     branch ← apiSegment (dt_branchId (dp_target plan));
     Ok (mkHttp DELETE (branch_path project branch) key None (Some (dp_operationId plan))))
    (js "deletion") [200; 204]
    (fun status body => v ← (if status =? 204 then Ok VNull else boundedJson body); parseNeonBranchDeleteReceipt v plan).

(** *** Reconciliation *)

Inductive OwnedBranch := owned_missing | owned_conflict (branchId : option jsstr) | owned (branchId : jsstr).

Definition carries_marker (properties : option (list (jsstr * jsstr))) (operationId planHash ownershipMarker : jsstr) : bool :=
  match properties with
  | Some p => forallb (fun e => bool_decide (mget p (fst e) = Some (snd e)))
                (marker_properties operationId planHash ownershipMarker)
  | None => false
  end.

Fixpoint named_rows (name : jsstr) (rows : list js_record) : outcome (list js_record) :=
  match rows with
  | [] => Ok []
  | row :: rows =>
    n ← requiredString (field row (js "name")) (js "branch name");
    rest ← named_rows name rows; Ok (if n ==s name then row :: rest else rest)
  end.

Definition ownedBranchId (key : jsstr) (plan : NeonBranchCreatePlan) (planHash ownershipMarker : jsstr) : action OwnedBranch :=
  let project := cs_projectId (cp_source plan) in
  let targetName := ct_name (cp_target plan) in
  segment <~~ lift (apiSegment project);
  rows <~~ listNeonCollection (mkCollection key (branches_path segment) (js "branches") [(js "search", targetName)] true
             (js "branch reconciliation"));
  exact <~~ lift (named_rows targetName rows);
  match exact with
  | [] => return_ owned_missing
  | [row] =>
    branchId <~~ lift (requiredString (field row (js "id")) (js "branch id"));
    if negb (test segment_re branchId) then provider_failure (js "Neon returned an invalid branch id") 502
    else
      body <~~ apiRequest key (branch_path segment branchId);
      body <~~ api_object body;
      branch <~~ api_object (field body (js "branch"));
      properties <~~ lift (parseNeonBranchAnnotation (field body (js "annotation")) branchId);
      if negb (is_text (field branch (js "id")) branchId) || negb (is_text (field branch (js "project_id")) project)
         || negb (is_text (field branch (js "name")) targetName)
         || negb (carries_marker properties (cp_operationId plan) planHash ownershipMarker)
      then return_ (owned_conflict (Some branchId)) else return_ (owned branchId)
  | _ => return_ (owned_conflict None)
  end.

Inductive EndpointStatus := endpoint_ready (endpointId : option jsstr) | endpoint_pending | endpoint_conflict.
Definition branchEndpointReconciliation (key project branchId : jsstr) (expected : CreateEndpoint) : action EndpointStatus :=
  p <~~ lift (apiSegment project);
  b <~~ lift (apiSegment branchId);
  body <~~ apiRequest key (branch_path p b ++ js "/endpoints");
  body <~~ api_object body;
  endpoints <~~ lift (parseNeonBranchEndpoints (field body (js "endpoints")) branchId);
  return_ (if bool_decide (expected = ep_none) then
             match endpoints with [] => endpoint_ready None | _ => endpoint_conflict end
           else match endpoints with
                | [] => endpoint_pending
                | [e] => if bool_decide (pe_type e = read_write_endpoint) && negb (pe_disabled e)
                         then endpoint_ready (Some (pe_id e)) else endpoint_conflict
                | _ => endpoint_conflict
                end).

(** [null] while the collection is not there yet. *)
Definition branchDatabaseReconciliation (key project branchId : jsstr) : action (option (list database)) :=
  catch (listNeonDatabases key project branchId) (fun d => return_ (Some d))
    (fun e => match e with
              | store_failure (ProviderError _ status) =>
                if existsb (Z.eqb status) [404; 409; 423] then return_ None else raise e
              | mutation_failure _ status _ _ => if existsb (Z.eqb status) [404; 409; 423] then return_ None else raise e
              | _ => raise e
              end).

Definition projectOperation (key project operationId : jsstr) : action ParsedNeonBranchOperation :=
  if negb (uuid operationId) then provider_failure (js "Invalid Neon operation id") 400
  else
    p <~~ lift (apiSegment project);
    body <~~ apiRequest key (js "/projects/" ++ p ++ js "/operations/" ++ operationId);
    body <~~ api_object body;
    operation <~~ api_object (field body (js "operation"));
    branch <~~ lift (requiredString (field operation (js "branch_id")) (js "operation branch id"));
    lift (parseNeonBranchOperation (field body (js "operation")) project branch).

(** The observation of a reconciliation with the fields that vary. *)
Definition observe (st : ReconciliationStatus) (branchId operationId operationStatus endpointId : option jsstr)
    (count : option num) (fingerprint : option jsstr) (access : ProviderManagedAccessState) (failureCode : option jsstr)
    : ProviderOperationReconciliationInput :=
  mkObservation st branchId operationId operationStatus endpointId count fingerprint None None access failureCode.

Definition stopped_statuses : list jsstr := [js "failed"; js "error"; js "cancelled"; js "skipped"].

(** What a reconciliation has read of an owned branch. *)
Record CreateFacts := mkFacts {
  fc_branchId : jsstr; fc_inventory : NeonBranchInventory; fc_endpoint : EndpointStatus;
  fc_operation : option ParsedNeonBranchOperation; fc_databases : option (list database) }.
Definition facts_endpoint (f : CreateFacts) : option jsstr :=
  match fc_endpoint f with endpoint_ready e => e | _ => None end.
Definition facts_count (f : CreateFacts) : option num := (fun d => Some (Z.of_nat (length d))) <$> fc_databases f.
Definition facts_fingerprint (f : CreateFacts) : option jsstr := neonBranchDatabaseFingerprint <$> fc_databases f.
(** [operation?.id ?? providerOperationId] *)
Definition facts_operationId (f : CreateFacts) (providerOperationId : option jsstr) : option jsstr :=
  match fc_operation f with Some op => Some (po_id op) | None => providerOperationId end.

(** The checks that end in a conflict or a failure. *)
Definition create_problem (f : CreateFacts) (providerOperationId : option jsstr) : option ProviderOperationReconciliationInput :=
  let stopped st code := Some (observe st (Some (fc_branchId f)) (facts_operationId f providerOperationId)
    (po_status <$> fc_operation f) (facts_endpoint f) (facts_count f) (facts_fingerprint f) access_needs_repair (Some code)) in
  match fc_operation f with
  | Some op =>
    if negb (sql_eq (po_branchId op) (fc_branchId f)) then stopped obs_conflict (js "NEON_OPERATION_BRANCH_MISMATCH")
    else if sql_in (po_status op) stopped_statuses then stopped obs_failed (js "NEON_OPERATION_FAILED")
    else match fc_endpoint f with
         | endpoint_conflict => stopped obs_conflict (js "NEON_ENDPOINT_SET_MISMATCH")
         | _ => None
         end
  | None => match fc_endpoint f with
            | endpoint_conflict => stopped obs_conflict (js "NEON_ENDPOINT_SET_MISMATCH")
            | _ => None
            end
  end.

Definition providerReady (f : CreateFacts) : bool :=
  match sole_branch (fc_inventory f) (fc_branchId f) with
  | Some b => bool_decide (currentState b = st_ready) && bool_decide (pendingState b = None) && b_ready b
  | None => false
  end
  && match fc_endpoint f with endpoint_ready _ => true | _ => false end
  && match fc_databases f with Some (_ :: _) => true | _ => false end
  && match fc_operation f with Some op => po_status op ==s js "finished" | None => true end.

(** *** The fence around inherited roles

    Models [retireInheritedNeonLeaseRoles] of [neon-managed-access.ts] with the owner
    connection of [neon-api.ts] it runs on. The two concurrent requests run in the order of
    the source here. *)

Definition neonOwnerRoleName (s : jsstr) : bool :=
  (0 <? utf8_length s)%nat && (utf8_length s <=? 63)%nat && negb (existsb control_char s).

Fixpoint database_rows (branch databaseId name : jsstr) (rows : list js_record) : outcome (list js_record) :=
  match rows with
  | [] => Ok []
  | row :: rows =>
    id ← requiredResourceId (field row (js "id")) (js "database id");
    rest ← database_rows branch databaseId name rows;
    Ok (if (id ==s databaseId) && is_text (field row (js "branch_id")) branch && is_text (field row (js "name")) name
        then row :: rest else rest)
  end.
Definition databaseOwner (key project branch : jsstr) (d : database) : action (option jsstr) :=
  p <~~ lift (apiSegment project);
  b <~~ lift (apiSegment branch);
  body <~~ apiRequest key (branch_path p b ++ js "/databases");
  body <~~ api_object body;
  rows <~~ read_objects (items_of (field body (js "databases")));
  databases <~~ lift (database_rows branch (fst d) (snd d) rows);
  match databases with
  | [row] =>
    name <~~ lift (requiredString (field row (js "owner_name")) (js "database owner"));
    return_ (if neonOwnerRoleName name then Some name else None)
  | _ => return_ None
  end.

Definition ends_with (s w : jsstr) : bool := startsWith (rev s) (rev w).
Definition neon_host (s : jsstr) : bool := ends_with s (js ".neon.tech").
(** The identifier of the endpoint. *)
Definition readWriteEndpoint (key project branch : jsstr) : action jsstr :=
  p <~~ lift (apiSegment project);
  b <~~ lift (apiSegment branch);
  body <~~ apiRequest key (branch_path p b ++ js "/endpoints");
  body <~~ api_object body;
  rows <~~ read_objects (items_of (field body (js "endpoints")));
  parsed <~~ lift (parseNeonBranchEndpoints (VArr (map VObj rows)) branch);
  match filterb (fun e => bool_decide (pe_type e = read_write_endpoint) && negb (pe_disabled e)) parsed with
  | [e] =>
    match findb (fun row => is_text (field row (js "id")) (pe_id e) && is_text (field row (js "branch_id")) branch
                            && is_text (field row (js "type")) (js "read_write")
                            && match field row (js "disabled") with VBool true => false | _ => true end) rows with
    | Some row =>
      host <~~ lift (requiredString (field row (js "host")) (js "endpoint host"));
      if negb (neon_host host) then provider_failure (js "Neon returned an invalid endpoint") 502
      else lift (requiredString (field row (js "id")) (js "endpoint id"))
    | None => provider_failure (js "Neon endpoint identity changed") 409
    end
  | _ => provider_failure (js "Neon branch does not have one exact read-write endpoint") 409
  end.

Fixpoint skip_slashes (s : jsstr) : jsstr :=
  match s with c :: s' => if (c =? cSLASH)%N then skip_slashes s' else s | [] => [] end.
(** The connection URI; every error is [None]. *)
Definition parseNeonConnectionUri (v : value) (expectedDatabase expectedRole : jsstr) : option jsstr :=
  match v with
  | VStr text =>
    if 8192 <? Z.of_nat (length text) then None
    else
      url ← parse_url text;
      name ← decodeURIComponent (skip_slashes (cu_pathname url));
      username ← decodeURIComponent (cu_username url);
      if negb (sql_in (cu_protocol url) [js "postgres:"; js "postgresql:"]) || negb (neon_host (cu_hostname url))
         || negb (default 5432 (cu_port url) =? 5432) || negb (name ==s expectedDatabase)
         || negb (username ==s expectedRole) || negb (non_empty (cu_password url))
         || negb (sql_in (default [] (cu_sslmode url)) [js "require"; js "verify-full"])
      then None else Some text
  | _ => None
  end.

(** The connection URI of the owner of a database. *)
Definition ownerConnection (key project branch : jsstr) (d : database) : action jsstr :=
  role <~~ databaseOwner key project branch d;
  endpoint <~~ readWriteEndpoint key project branch;
  match role with
  | None => provider_failure (js "Neon database was not found") 404
  | Some role =>
    p <~~ lift (apiSegment project);
    body <~~ apiRequest key (js "/projects/" ++ p ++ js "/connection_uri?" ++ search_params
               [(js "branch_id", branch); (js "endpoint_id", endpoint); (js "database_name", snd d);
                (js "role_name", role); (js "pooled", js "false")]);
    body <~~ api_object body;
    match parseNeonConnectionUri (field body (js "uri")) (snd d) role with
    | Some uri => return_ uri
    | None => provider_failure (js "Neon could not provide the database owner credential") 409
    end
  end.

Definition INHERITED_ROLES_SQL : jsstr :=
  js "SELECT rolname FROM pg_roles WHERE rolname ~ '^dopedb_[a-z0-9]{1,8}_[a-z0-9]{1,32}$' AND rolname !~ '^dopedb_policy_[0-9a-f]{16}$' LIMIT 1".
(** The fence, or the [NeonInheritedCredentialFenceConflictError] that its caller catches. *)
Inductive CredentialFence := fence_conflict | fenced (retiredInheritedRoleCount : Z) (credentialFenceFingerprint : jsstr).

Definition retireInheritedNeonLeaseRoles (key project branch : jsstr) (databases : list database) : action CredentialFence :=
  match sort_by (fun a b => localeCompare (fst a) (fst b)) databases with
  | [] => provider_failure (js "Neon branch has no database") 409
  | d :: _ =>
    uri <~~ ownerConnection key project branch d;
    rows <~~ ask (QuerySql uri INHERITED_ROLES_SQL);
    match rows with
    | None => provider_failure (js "Neon inherited credential fence could not be verified") 502
    | Some (_ :: _) => return_ fence_conflict
    | Some [] =>
      return_ (fenced 0 (sha256hex (match stringify (VObj [(js "projectId", VStr project); (js "branchId", VStr branch);
                                                           (js "retiredRoles", VArr [])]) with Ok (Some t) => t | _ => [] end)))
    end
  end.

Definition create_settled (f : CreateFacts) (providerOperationId : option jsstr) (ready : bool) (fence : option (Z * jsstr))
    (access : ProviderManagedAccessState) : ProviderOperationReconciliationInput :=
  mkObservation (if ready then obs_ready else obs_pending) (Some (fc_branchId f)) (facts_operationId f providerOperationId)
    (po_status <$> fc_operation f) (facts_endpoint f) (if ready then facts_count f else None)
    (if ready then facts_fingerprint f else None)
    ((fun x => Some (fst x)) <$> fence) (snd <$> fence) access None.

Definition create_verdict (key : jsstr) (plan : NeonBranchCreatePlan) (f : CreateFacts) (providerOperationId : option jsstr)
    : action ProviderOperationReconciliationInput :=
  match create_problem f providerOperationId with
  | Some problem => return_ problem
  | None =>
    if negb (providerReady f) then return_ (create_settled f providerOperationId false None waiting_for_provider)
    else if bool_decide (ct_endpoint (cp_target plan) = ep_none)
    then return_ (create_settled f providerOperationId true None not_requested)
    else
      fence <~~ retireInheritedNeonLeaseRoles key (cs_projectId (cp_source plan)) (fc_branchId f) (default [] (fc_databases f));
      match fence with
      | fenced count fingerprint =>
        return_ (create_settled f providerOperationId true (Some (count, fingerprint)) bootstrap_required)
      | fence_conflict =>
        return_ (observe obs_conflict (Some (fc_branchId f)) (facts_operationId f providerOperationId)
                   (po_status <$> fc_operation f) (facts_endpoint f) (facts_count f) (facts_fingerprint f)
                   access_needs_repair (Some (js "NEON_INHERITED_CREDENTIAL_FENCE_FAILED")))
      end
  end.

Definition reconcileNeonBranchCreate (key : jsstr) (plan : NeonBranchCreatePlan) (planHash ownershipMarker : jsstr)
    (providerOperationId : option jsstr) : action ProviderOperationReconciliationInput :=
  found <~~ ownedBranchId key plan planHash ownershipMarker;
  match found with
  | owned_missing =>
    return_ (observe obs_missing None providerOperationId None None None None waiting_for_provider None)
  | owned_conflict branchId =>
    return_ (observe obs_conflict branchId providerOperationId None None None None access_needs_repair
               (Some (js "NEON_OWNERSHIP_MARKER_MISMATCH")))
  | owned branchId =>
    let project := cs_projectId (cp_source plan) in
    inventory <~~ listNeonBranchInventory key project;
    endpoint <~~ branchEndpointReconciliation key project branchId (ct_endpoint (cp_target plan));
    operation <~~ match providerOperationId with
                  | Some id => if non_empty id then op <~~ projectOperation key project id; return_ (Some op) else return_ None
                  | None => return_ None
                  end;
    databases <~~ branchDatabaseReconciliation key project branchId;
    create_verdict key plan (mkFacts branchId inventory endpoint operation databases) providerOperationId
  end.

(** *** Deletions *)

Definition delete_verdict (plan : NeonBranchDeletePlan) (present : bool) (operation : option ParsedNeonBranchOperation)
    (providerOperationId : option jsstr) : ProviderOperationReconciliationInput :=
  let target := dt_branchId (dp_target plan) in
  let base st code := observe st (Some target)
    (match operation with Some op => Some (po_id op) | None => providerOperationId end)
    (po_status <$> operation) None None None unavailable code in
  let finished := match operation with Some op => po_status op ==s js "finished" | None => false end in
  match operation with
  | Some op =>
    if negb (sql_eq (po_branchId op) target) then base obs_conflict (Some (js "NEON_DELETE_OPERATION_BRANCH_MISMATCH"))
    else if sql_in (po_status op) stopped_statuses then base obs_failed (Some (js "NEON_DELETE_OPERATION_FAILED"))
    else if negb present && finished then base obs_ready None
    else if present && finished then base obs_conflict (Some (js "NEON_DELETE_RESOURCE_STILL_PRESENT"))
    else base obs_pending None
  | None => if negb present then base obs_ready None else base obs_pending None
  end.

Definition reconcileNeonBranchDelete (key : jsstr) (plan : NeonBranchDeletePlan) (providerOperationId : option jsstr)
    : action ProviderOperationReconciliationInput :=
  let target := dp_target plan in
  inventory <~~ listNeonBranchInventory key (dt_projectId target);
  operation <~~ match providerOperationId with
                | Some id =>
                  if non_empty id then
                    catch (projectOperation key (dt_projectId target) id) (fun op => return_ (Some op))
                      (fun e => match e with
                                | store_failure (ProviderError _ status) => if status =? 404 then return_ None else raise e
                                | mutation_failure _ status _ _ => if status =? 404 then return_ None else raise e
                                | _ => raise e
                                end)
                  else return_ None
                | None => return_ None
                end;
  return_ (delete_verdict plan (existsb (fun b => b_id (item_branch b) ==s dt_branchId target) (branches inventory))
             operation providerOperationId).

End api.
