(* ===== verification/NeonOperations.v ===== *)
(** * The use cases of Neon branches

    Models [workspace-cloud/lib/providers/neon-branch-operations/create.ts], [delete.ts],
    [switch.ts] and [contracts.ts], and the dispatcher
    [neon-branch-operation-application.ts]: planning, deciding and executing the three
    operations, as programs over the operation store and the provider. *)

From S2P Require Import Prelude JsString JsMap JsValue JsSort Regex NeonBranches NeonCreatePlan.
From S2P Require Import NeonDeletePlan NeonSwitchPlan RevocationGate D1Batch OperationRecords.
From S2P Require Import OperationPlan OperationExecution OperationSwitch OperationReads NeonMutation.
From S2P Require Import NeonApi.
From Stdlib Require String.
Import Stdlib.Strings.String.StringSyntax.
Local Open Scope Z_scope.

(** ** Contracts *)

(** The context of a command, without the connection authorizer, which is an effect. *)
Record NeonBranchOperationContext := mkContext {
  cx_workspaceId : jsstr; cx_integrationId : jsstr; cx_generation : Z; cx_authority : ProviderMutationAuthority }.

(** The operation of an [executionResponse]. *)
Record ExecutionView := mkView {
  ev_id : jsstr; ev_state : ProviderOperationState; ev_providerOperationId : option jsstr; ev_branchId : option jsstr;
  ev_reconcileAfter : option Z; ev_result : ExecutionResult; ev_failureCode : option jsstr }.

Definition no_result (access : option ProviderManagedAccessState) : ExecutionResult :=
  mkExecutionResult None None None None None access.
Definition execution_view (r : ProviderOperationExecutionRecord) : ExecutionView :=
  mkView (pr_id (xr_plan r)) (pr_state (xr_plan r)) (xr_providerOperationId r) (xr_providerResourceId r)
    (xr_reconcileAfter r) (xr_result r) (xr_failureCode r).
Definition reconciliation_view (r : ProviderOperationReconciliationRecord) : ExecutionView :=
  mkView (rr_id r) (rr_state r) (rr_providerOperationId r) (rr_providerResourceId r) (rr_reconcileAfter r) (rr_result r)
    (rr_failureCode r).
Definition cancelled_view (id : jsstr) : ExecutionView :=
  mkView id cancelled None None None (no_result (Some unavailable)) None.

Inductive NeonBranchOperationOutcome :=
| json_error (message : jsstr) (status : Z)
| execution_response (v : ExecutionView) (status : Z)
| decision_response (d : ProviderOperationDecisionRecord) (planHash : jsstr)
| plan_response (r : ProviderOperationPlanRecord) (plan : NeonBranchOperationPlan) (expired : bool)
| revocation_retry (id branchId : jsstr)
| switch_response (r : NeonBranchSwitchCompletionRecord).
Notation reply := NeonBranchOperationOutcome.

Definition jsonError (message : jsstr) (status : Z) : action reply := return_ (json_error message status).
Definition executionResponse (v : ExecutionView) (status : Z) : action reply := return_ (execution_response v status).
(** [state === "reconciling" ? 202 : 200] *)
Definition recorded_response (r : ProviderOperationReconciliationRecord) : action reply :=
  executionResponse (reconciliation_view r) (if bool_decide (rr_state r = reconciling) then 202 else 200).

Inductive branch_action :=
| plan_action (request : value)
| decide_action (operationId planHash : jsstr) (decision : ProviderOperationDecision)
| execute_action (operationId planHash : jsstr).
(** A parsed command: the resource use case and the action. *)
Record NeonBranchOperationCommand := mkCommand { cm_kind : ProviderOperationKind; cm_action : branch_action }.

Definition row_scope (cx : NeonBranchOperationContext) (operationId : jsstr) : RowScope :=
  mkRowScope (cx_workspaceId cx) (cx_integrationId cx) (cx_generation cx) operationId.
Definition identity_of (cx : NeonBranchOperationContext) (kind : ProviderOperationKind) (id planHash marker : jsstr)
    : ProviderOperationExecutionIdentity :=
  mkExecutionIdentity (cx_authority cx) (cx_integrationId cx) (cx_generation cx) id kind planHash marker.

(** ["succeeded", "failed", "needs_repair" or "cancelled"] *)
Definition finished_state (s : ProviderOperationState) : bool := state_in s [succeeded; failed; needs_repair; cancelled].
Definition unstarted (s : ProviderOperationState) : bool := state_in s [approved; claimed].

(** ** Execution, as the three use cases share it *)

(** [cancelExpiredProviderOperationExecution] and its answer. *)
Definition close_expired (x : ProviderOperationExecutionIdentity) (refusal : jsstr) : action reply :=
  now <~~ ask Now;
  cancelled <~~ call (Cancel x (Some now));
  match cancelled with
  | Some c => executionResponse (cancelled_view (cn_id c)) 200
  | None => jsonError refusal 409
  end.

(** The claim and the remote-start fence: a reply that ends the request, or the claim with
    whether the operation was started by it. *)
Definition claim_and_start (x : ProviderOperationExecutionIdentity) (no_claim no_fence : jsstr)
    : action (reply + jsstr * bool) :=
  now <~~ ask Now;
  claim <~~ call (Claim x (Some now));
  match claim with
  | None => return_ (inl (json_error no_claim 409))
  | Some c =>
    now <~~ ask Now;
    started <~~ call (Start x (ec_claimId c) (Some now));
    return_ match started with
            | None => inl (json_error no_fence 409)
            | Some s => if bool_decide (sr_state s = cancelled) then inl (execution_response (cancelled_view (sr_id s)) 200)
                        else inr (ec_claimId c, sr_startedNow s)
            end
  end.

(** [if (!claimId) return jsonError(refusal, 409)] *)
Definition with_claim (claim : option jsstr) (refusal : jsstr) (run : jsstr -> action reply) : action reply :=
  match claim with
  | Some id => if non_empty id then run id else jsonError refusal 409
  | None => jsonError refusal 409
  end.

Section operations.
Context (localeCompare : jsstr -> jsstr -> Z) (sha256hex : jsstr -> jsstr) (hmac : jsstr -> jsstr).
Context (toISOString : Z -> jsstr) (date_parse : jsstr -> option Z) (search_params : list (jsstr * jsstr) -> jsstr)
  (parse_url : jsstr -> option ConnectionUri).

(** ** Creation *)

(** A success whose inherited credentials were not fenced. *)
Definition needs_fence (r : ProviderOperationExecutionRecord) (p : NeonBranchCreatePlan) : bool :=
  bool_decide (pr_state (xr_plan r) = succeeded) && bool_decide (ct_endpoint (cp_target p) = ep_read_write)
  && (is_null (er_retiredInheritedRoleCount (xr_result r)) || is_null (er_credentialFenceFingerprint (xr_result r))).

(** What the worker observed of its own creation request. *)
Definition create_observation (receipt : res failure NeonBranchCreateReceipt) : ProviderOperationReconciliationInput :=
  match receipt with
  | Ok r => observe obs_pending (Some (rp_branchId r)) (rp_operationId r) (rp_operationStatus r) (rp_endpointId r) None None
              waiting_for_provider None
  | Throw (mutation_failure _ _ _ true) =>
    observe obs_failed None None None None None None unavailable (Some (js "NEON_RETRY_SAFE_REJECTED"))
  | Throw _ => observe obs_missing None None None None None None waiting_for_provider None
  end.

(** From the claim on: the request of the worker that started the operation, then the
    reconciliation. *)
Definition run_create (x : ProviderOperationExecutionIdentity) (p : NeonBranchCreatePlan) (key claimId : jsstr)
    (startedNow : bool) (providerOperationId : option jsstr) : action reply :=
  let settle id :=
    reconciled <~~ reconcileNeonBranchCreate localeCompare sha256hex date_parse search_params parse_url key p (xi_planHash x) (xi_ownershipMarker x) id;
    now <~~ ask Now;
    recorded <~~ call (Apply x claimId reconciled (Some now));
    match recorded with
    | Some r => recorded_response r
    | None => jsonError (js "Neon branch reconciliation authority changed") 409
    end in
  if startedNow then
    observation <~~ prog_bind (createNeonBranch key p (xi_planHash x) (xi_ownershipMarker x))
                      (fun receipt => return_ (create_observation receipt));
    now <~~ ask Now;
    recorded <~~ call (Apply x claimId observation (Some now));
    match recorded with
    | None => jsonError (js "Neon branch creation receipt could not be recorded") 409
    | Some r =>
      if negb (bool_decide (rr_state r = reconciling)) then executionResponse (reconciliation_view r) 200
      else if bool_decide (ob_status observation = obs_missing) then executionResponse (reconciliation_view r) 202
      else settle (rr_providerOperationId r)
    end
  else settle providerOperationId.

Definition execute_create (cx : NeonBranchOperationContext) (operationId planHash : jsstr) : action reply :=
  loaded <~~ call (LoadExecution (row_scope cx operationId) kind_create);
  match loaded with
  | Some (mkLoaded r (PlanCreate p)) =>
    let plan := xr_plan r in
    let st := pr_state plan in
    let x := identity_of cx kind_create (pr_id plan) (pr_planHash plan) (pr_ownershipMarker plan) in
    if negb (pr_planHash plan ==s planHash) then jsonError (js "Neon branch operation plan changed or is unavailable") 409
    else if finished_state st && negb (needs_fence r p) then executionResponse (execution_view r) 200
    else if bool_decide (st = awaiting_approval) then jsonError (js "Neon branch operation is awaiting approval") 409
    else
      now <~~ ask Now;
      if unstarted st && (pr_planExpiresAt plan <=? now)
      then close_expired x (js "Neon branch expiration authority or operation changed")
      else if bool_decide (st = reconciling) && match xr_reconcileAfter r with Some t => now <? t | None => false end
      then executionResponse (execution_view r) 202
      else if unstarted st then
        live <~~ call (LiveCreate (cs_projectId (cp_source p)) (cs_branchId (cp_source p)));
        now <~~ ask Now;
        _ <~~ lift_plan (revalidateNeonBranchCreatePlan date_parse p (lc_inventory live) (lc_productionReference live) (Some now));
        started <~~ claim_and_start x (js "Neon branch execution authority or operation changed")
                      (js "Neon branch remote-start fence changed");
        match started with
        | inl r => return_ r
        | inr (claimId, startedNow) =>
          with_claim (Some claimId) (js "Neon branch execution claim is unavailable")
            (fun id => run_create x p (lc_credential live) id startedNow (xr_providerOperationId r))
        end
      else
        key <~~ call (ProjectCredential (cs_projectId (cp_source p)));
        with_claim (xr_claimId r) (js "Neon branch execution claim is unavailable")
          (fun id => run_create x p key id false (xr_providerOperationId r))
  | _ => jsonError (js "Neon branch operation plan changed or is unavailable") 409
  end.

(** *** Approval and planning, as the three use cases share it *)

(** From the decision on. *)
Definition decide_operation (x : ProviderOperationExecutionIdentity) (decision : ProviderOperationDecision)
    (refusal : jsstr) : action reply :=
  now <~~ ask Now;
  decided <~~ call (Decide x decision (Some now));
  match decided with
  | Some d => return_ (decision_response d (xi_planHash x))
  | None => jsonError refusal 409
  end.
(** A live check is made of an approval that is still to come. *)
Definition approving (decision : ProviderOperationDecision) (r : ProviderOperationPlanRecord) : bool :=
  bool_decide (decision = decision_approved) && bool_decide (pr_state r = awaiting_approval).

(** A part of a built plan, as JSON. *)
Definition plan_part_value (plan : NeonBranchOperationPlan) (k : jsstr) : value := field (plan_fields plan) k.
(** The hash of a request with the fields [extra] of its snapshot. *)
Definition request_hash (cx : NeonBranchOperationContext) (request : value) (extra : js_record) : jsstr :=
  let a := cx_authority cx in
  canonicalHash localeCompare sha256hex (VObj ([
    (js "version", num_value 1); (js "organizationId", VStr (cx_workspaceId cx));
    (js "integrationId", VStr (cx_integrationId cx)); (js "integrationGeneration", VStr (show_Z (cx_generation cx)));
    (js "requestedByMemberId", VStr (pa_membershipId a)); (js "requestedByUserId", VStr (pa_userId a));
    (js "requestedBySessionId", VStr (pa_sessionId a)); (js "requestedByRole", VStr (pa_role a));
    (js "request", request)] ++ extra)).

(** From the built plan on: its hash and marker, the recording and the response. *)
Definition record_plan (cx : NeonBranchOperationContext) (operationId idempotencyKey requestHash : jsstr)
    (plan : NeonBranchOperationPlan) (now : Z) (same_kind : NeonBranchOperationPlan -> bool) (refusal : jsstr) : action reply :=
  let planHash := canonicalHash localeCompare sha256hex (plan_value plan) in
  marker <~~ lift (providerOperationOwnershipMarker hmac
             (mkMarkerContext (cx_workspaceId cx) (cx_integrationId cx) (cx_generation cx) operationId planHash));
  recorded <~~ call (Record_ (mkRecordInput (cx_authority cx) (cx_integrationId cx) (cx_generation cx) operationId
                idempotencyKey requestHash planHash marker plan (Some now)));
  match recorded with
  | Some (mkLoaded r p) =>
    if same_kind p then now <~~ ask Now; return_ (plan_response r p (pr_planExpiresAt r <=? now)) else jsonError refusal 409
  | None => jsonError refusal 409
  end.

(** *** Creation: approval and planning *)

Definition decide_create (cx : NeonBranchOperationContext) (operationId planHash : jsstr)
    (decision : ProviderOperationDecision) : action reply :=
  loaded <~~ call (LoadPlan (row_scope cx operationId) kind_create);
  match loaded with
  | Some (mkLoaded r (PlanCreate p)) =>
    if negb (pr_planHash r ==s planHash) then jsonError (js "Neon branch operation plan changed or is unavailable") 409
    else
      _ <~~ (if approving decision r then
               live <~~ call (LiveCreate (cs_projectId (cp_source p)) (cs_branchId (cp_source p)));
               now <~~ ask Now;
               _ <~~ lift_plan (revalidateNeonBranchCreatePlan date_parse p (lc_inventory live) (lc_productionReference live)
                                  (Some now));
               return_ tt
             else return_ tt);
      decide_operation (identity_of cx kind_create (pr_id r) (pr_planHash r) (pr_ownershipMarker r)) decision
        (js "Neon branch approval authority or operation changed")
  | _ => jsonError (js "Neon branch operation plan changed or is unavailable") 409
  end.

Definition create_request_value (r : NeonBranchCreatePlanRequest) : value := VObj [
  (js "idempotencyKey", VStr (cr_idempotencyKey r)); (js "projectId", VStr (cr_projectId r));
  (js "sourceBranchId", VStr (cr_sourceBranchId r)); (js "targetName", VStr (cr_targetName r));
  (js "initSource", VStr (init_name (cr_initSource r))); (js "sourcePoint", point_value (cr_sourcePoint r));
  (js "endpoint", VStr (endpoint_name (cr_endpoint r)));
  (js "sourceEnvironment", VStr (environment_name (cr_sourceEnvironment r)))].

Definition plan_create (cx : NeonBranchOperationContext) (body : value) : action reply :=
  request <~~ lift_plan (parseNeonBranchCreatePlanRequest date_parse body);
  live <~~ call (LiveCreate (cr_projectId request) (cr_sourceBranchId request));
  operationId <~~ ask FreshUuid;
  now <~~ ask Now;
  plan <~~ lift_plan (buildNeonBranchCreatePlan toISOString date_parse request (lc_inventory live) operationId
             (cx_integrationId cx) (cx_generation cx) (lc_productionReference live) (Some now));
  record_plan cx operationId (cr_idempotencyKey request)
    (request_hash cx (create_request_value request)
       [(js "sourceSnapshot", create_source_value (cp_source plan));
        (js "workspaceProductionReference", VBool (lc_productionReference live))])
    (PlanCreate plan) now (fun _ => true) (js "Neon branch plan authority or idempotency key changed").

Definition runNeonBranchCreateOperation (cx : NeonBranchOperationContext) (a : branch_action) : action reply :=
  match a with
  | execute_action id planHash => execute_create cx id planHash
  | decide_action id planHash decision => decide_create cx id planHash decision
  | plan_action request => plan_create cx request
  end.

(** ** Deletion *)

(** What the worker observed of its own deletion request. *)
Definition delete_observation (p : NeonBranchDeletePlan) (receipt : res failure NeonBranchDeleteReceipt)
    : ProviderOperationReconciliationInput :=
  match receipt with
  | Ok r => observe obs_pending (Some (rd_branchId r)) (rd_operationId r) (rd_operationStatus r) None None None unavailable None
  | Throw (mutation_failure _ _ true safe) =>
    observe obs_failed None None None None None None unavailable
      (Some (if safe then js "NEON_DELETE_RETRY_SAFE_REJECTED" else js "NEON_DELETE_REJECTED"))
  | Throw _ => observe obs_pending (Some (dt_branchId (dp_target p))) None None None None None unavailable None
  end.

(** A deletion that is still pending two minutes after its start is ambiguous. *)
Definition ambiguous_after (remoteStartedAt now : Z) (o : ProviderOperationReconciliationInput)
    : ProviderOperationReconciliationInput :=
  if bool_decide (ob_status o = obs_pending) && (remoteStartedAt <=? now - 2 * 60 * 1000)
  then mkObservation obs_conflict (ob_branchId o) (ob_providerOperationId o) (ob_providerOperationStatus o) (ob_endpointId o)
         (ob_databaseCount o) (ob_databaseFingerprint o) (ob_retiredInheritedRoleCount o)
         (ob_credentialFenceFingerprint o) (ob_managedAccessState o)
         (Some (js "NEON_DELETE_RESULT_AMBIGUOUS"))
  else o.

(** From the claim on. *)
Definition run_delete (x : ProviderOperationExecutionIdentity) (p : NeonBranchDeletePlan) (key claimId : jsstr)
    (startedNow : bool) (remoteStartedAt : option Z) (providerOperationId : option jsstr) : action reply :=
  let settle id :=
    reconciled <~~ reconcileNeonBranchDelete date_parse search_params key p id;
    started <~~ match remoteStartedAt with Some t => return_ t | None => ask Now end;
    now <~~ ask Now;
    let final := ambiguous_after started now reconciled in
    now <~~ ask Now;
    recorded <~~ call (Apply x claimId final (Some now));
    match recorded with
    | Some r => recorded_response r
    | None => jsonError (js "Neon branch deletion reconciliation authority changed") 409
    end in
  if startedNow then
    observation <~~ prog_bind (deleteNeonBranch key p) (fun receipt => return_ (delete_observation p receipt));
    now <~~ ask Now;
    recorded <~~ call (Apply x claimId observation (Some now));
    match recorded with
    | None => jsonError (js "Neon branch deletion receipt could not be recorded") 409
    | Some r =>
      if negb (bool_decide (rr_state r = reconciling)) then executionResponse (reconciliation_view r) 200
      else settle (rr_providerOperationId r)
    end
  else settle providerOperationId.

Definition execute_delete (cx : NeonBranchOperationContext) (operationId planHash : jsstr) : action reply :=
  loaded <~~ call (LoadExecution (row_scope cx operationId) kind_delete);
  match loaded with
  | Some (mkLoaded r (PlanDelete p)) =>
    let plan := xr_plan r in
    let st := pr_state plan in
    let x := identity_of cx kind_delete (pr_id plan) (pr_planHash plan) (pr_ownershipMarker plan) in
    if negb (pr_planHash plan ==s planHash) then jsonError (js "Neon branch delete plan changed or is unavailable") 409
    else if finished_state st then executionResponse (execution_view r) 200
    else if bool_decide (st = awaiting_approval) then jsonError (js "Neon branch deletion is awaiting approval") 409
    else
      now <~~ ask Now;
      if unstarted st && (pr_planExpiresAt plan <=? now)
      then close_expired x (js "Neon branch deletion authority or operation changed")
      else if bool_decide (st = reconciling) && match xr_reconcileAfter r with Some t => now <? t | None => false end
      then executionResponse (execution_view r) 202
      else if unstarted st then
        live <~~ call (LiveDelete (dt_projectId (dp_target p)) (dt_branchId (dp_target p)));
        now <~~ ask Now;
        _ <~~ lift_plan (revalidateNeonBranchDeletePlan date_parse p (ld_inventory live) (ld_ownership live)
                           (ld_references live) (Some now));
        started <~~ claim_and_start x (js "Neon branch deletion authority or operation changed")
                      (js "Neon branch deletion remote-start fence changed");
        match started with
        | inl r => return_ r
        | inr (claimId, startedNow) =>
          with_claim (Some claimId) (js "Neon branch deletion claim is unavailable")
            (fun id => run_delete x p (ld_credential live) id startedNow (xr_remoteStartedAt r) (xr_providerOperationId r))
        end
      else
        key <~~ call (ProjectCredential (dt_projectId (dp_target p)));
        with_claim (xr_claimId r) (js "Neon branch deletion claim is unavailable")
          (fun id => run_delete x p key id false (xr_remoteStartedAt r) (xr_providerOperationId r))
  | _ => jsonError (js "Neon branch delete plan changed or is unavailable") 409
  end.

Definition decide_delete (cx : NeonBranchOperationContext) (operationId planHash : jsstr)
    (decision : ProviderOperationDecision) : action reply :=
  loaded <~~ call (LoadPlan (row_scope cx operationId) kind_delete);
  match loaded with
  | Some (mkLoaded r (PlanDelete p)) =>
    if negb (pr_planHash r ==s planHash) then jsonError (js "Neon branch delete plan changed or is unavailable") 409
    else
      _ <~~ (if approving decision r then
               live <~~ call (LiveDelete (dt_projectId (dp_target p)) (dt_branchId (dp_target p)));
               now <~~ ask Now;
               _ <~~ lift_plan (revalidateNeonBranchDeletePlan date_parse p (ld_inventory live) (ld_ownership live)
                                  (ld_references live) (Some now));
               return_ tt
             else return_ tt);
      decide_operation (identity_of cx kind_delete (pr_id r) (pr_planHash r) (pr_ownershipMarker r)) decision
        (js "Neon branch deletion approval authority changed")
  | _ => jsonError (js "Neon branch delete plan changed or is unavailable") 409
  end.

Definition delete_request_value (r : NeonBranchDeletePlanRequest) : value := VObj [
  (js "idempotencyKey", VStr (dr_idempotencyKey r)); (js "projectId", VStr (dr_projectId r));
  (js "branchId", VStr (dr_branchId r))].

Definition plan_delete (cx : NeonBranchOperationContext) (body : value) : action reply :=
  request <~~ lift_plan (parseNeonBranchDeletePlanRequest body);
  live <~~ call (LiveDelete (dr_projectId request) (dr_branchId request));
  operationId <~~ ask FreshUuid;
  now <~~ ask Now;
  plan <~~ lift_plan (buildNeonBranchDeletePlan toISOString request (ld_inventory live) (ld_ownership live)
             (ld_references live) operationId (cx_integrationId cx) (cx_generation cx) (Some now));
  record_plan cx operationId (dr_idempotencyKey request)
    (request_hash cx (delete_request_value request)
       [(js "targetSnapshot", delete_target_value (dp_target plan));
        (js "referenceSnapshot", plan_part_value (PlanDelete plan) (js "references"));
        (js "createOwnership", plan_part_value (PlanDelete plan) (js "ownership"))])
    (PlanDelete plan) now (fun p => bool_decide (plan_kind p = kind_delete)) (js "Neon branch delete plan authority changed").

Definition runNeonBranchDeleteOperation (cx : NeonBranchOperationContext) (a : branch_action) : action reply :=
  match a with
  | execute_action id planHash => execute_delete cx id planHash
  | decide_action id planHash decision => decide_delete cx id planHash decision
  | plan_action request => plan_delete cx request
  end.

(** ** Switch *)

(** [plan.source.authorityRevision + 1] *)
Definition next_revision_of (p : NeonBranchSwitchPlan) : num :=
  match ss_authorityRevision (sp_source p) with Some r => Some (r + 1) | None => None end.
(** Runs [k] unless the caller may not use the connection. *)
Definition with_connection (connectionId : jsstr) (k : action reply) : action reply :=
  denied <~~ ask (AuthorizeConnection connectionId);
  match denied with Some (message, status) => jsonError message status | None => k end.

Definition switch_conflict (p : NeonBranchSwitchPlan) (failureCode : jsstr) : ProviderOperationReconciliationInput :=
  observe obs_conflict (Some (bs_branchId (tf_branch (sp_target p)))) None None None None None access_needs_repair
    (Some failureCode).
(** [recordSwitchFailure(...).catch(() => null)] *)
Definition recordSwitchFailure (x : ProviderOperationExecutionIdentity) (p : NeonBranchSwitchPlan) (claimId failureCode : jsstr)
    : action unit :=
  now <~~ ask Now;
  catch (call (Apply x claimId (switch_conflict p failureCode) (Some now))) (fun _ => return_ tt) (fun _ => return_ tt).

(** The live target, validated again. *)
Definition live_target (p : NeonBranchSwitchPlan) : action SwitchTargetContext :=
  let target := sp_target p in
  live <~~ call (LiveSwitchTarget (mkTargetScope (tf_projectId target) (bs_branchId (tf_branch target))
             (ss_database (sp_source p)) (ss_schemas (sp_source p)) (tf_environment target)));
  _ <~~ lift_plan (revalidateNeonBranchSwitchTarget p (lt_inventory live) (lt_target live));
  return_ live.

(** A [ProviderRequestError] or an error of a plan becomes the response; anything else goes on. *)
Definition expected_error (e : failure) : action reply :=
  match e with
  | plan_failure (PlanError message status) => jsonError message status
  | store_failure (ProviderError message status) => jsonError message status
  | mutation_failure message status _ _ => jsonError message status
  | _ => raise e
  end.

(** From the closed gate on: the connection's leases are gone. *)
Definition commit_switch (x : ProviderOperationExecutionIdentity) (p : NeonBranchSwitchPlan) (claimId gate : jsstr)
    : action reply :=
  catch (live_target p)
    (fun target =>
      now <~~ ask Now;
      catch (call (Complete (mkSwitchCompletion x claimId gate p (lt_projection target) (Some now))))
        (fun completed => match completed with
          | Some r => return_ (switch_response r)
          | None =>
            _ <~~ ask (ClearGate gate);
            _ <~~ recordSwitchFailure x p claimId (js "NEON_SWITCH_COMMIT_CHANGED");
            jsonError (js "Neon branch switch authority changed before commit") 409
          end)
        (fun e => _ <~~ ask (ReleaseGate gate); raise e))
    (fun e =>
      _ <~~ ask (ClearGate gate);
      _ <~~ recordSwitchFailure x p claimId (js "NEON_SWITCH_TARGET_CHANGED");
      expected_error e).

(** From the claim of the operation on. *)
Definition run_switch (x : ProviderOperationExecutionIdentity) (p : NeonBranchSwitchPlan) (claimId : jsstr) : action reply :=
  let connectionId := ss_connectionId (sp_source p) in
  claimed <~~ ask (ClaimGate connectionId);
  match claimed with
  | gate_none | gate_claim _ None _ => jsonError (js "Connection access is already changing. Retry shortly.") 409
  | gate_claim gate (Some revision) firstPending =>
    if negb (bool_decide (next_revision_of p = Some revision)) then
      _ <~~ ask (if firstPending then ClearGate gate else ReleaseGate gate);
      _ <~~ recordSwitchFailure x p claimId (js "NEON_SWITCH_CONNECTION_REVISION_CHANGED");
      jsonError (js "Neon connection changed after switch approval") 409
    else
      catch (call (RevokeLeases connectionId))
        (fun deferred =>
          if 0 <? deferred then
            _ <~~ ask (ReleaseGate gate);
            return_ (revocation_retry (xi_operationId x) (bs_branchId (tf_branch (sp_target p))))
          else commit_switch x p claimId gate)
        (fun e => _ <~~ ask (ReleaseGate gate); raise e)
  end.

Definition execute_switch (cx : NeonBranchOperationContext) (operationId planHash : jsstr) : action reply :=
  loaded <~~ call (LoadExecution (row_scope cx operationId) kind_switch);
  match loaded with
  | Some (mkLoaded r (PlanSwitch p)) =>
    let plan := xr_plan r in
    let st := pr_state plan in
    let x := identity_of cx kind_switch (pr_id plan) (pr_planHash plan) (pr_ownershipMarker plan) in
    if negb (pr_planHash plan ==s planHash) then jsonError (js "Neon branch switch plan changed or is unavailable") 409
    else with_connection (ss_connectionId (sp_source p)) (
      if finished_state st then executionResponse (execution_view r) 200
      else if bool_decide (st = awaiting_approval) then jsonError (js "Neon branch switch is awaiting approval") 409
      else
        now <~~ ask Now;
        if unstarted st && (pr_planExpiresAt plan <=? now)
        then close_expired x (js "Neon branch switch authority or operation changed")
        else if unstarted st then
          live <~~ call (LiveSwitch (ss_connectionId (sp_source p)) (ss_projectId (sp_source p))
                     (bs_branchId (tf_branch (sp_target p))) (tf_environment (sp_target p)));
          now <~~ ask Now;
          _ <~~ lift_plan (revalidateNeonBranchSwitchPlan date_parse p (lt_inventory (lw_target live)) (lw_connection live)
                             (lt_target (lw_target live)) (Some now));
          started <~~ claim_and_start x (js "Neon branch switch authority or operation changed")
                        (js "Neon branch switch remote-start fence changed");
          match started with
          | inl r => return_ r
          | inr (claimId, _) =>
            with_claim (Some claimId) (js "Neon branch switch execution claim is unavailable") (run_switch x p)
          end
        else with_claim (xr_claimId r) (js "Neon branch switch execution claim is unavailable") (run_switch x p))
  | _ => jsonError (js "Neon branch switch plan changed or is unavailable") 409
  end.

Definition decide_switch (cx : NeonBranchOperationContext) (operationId planHash : jsstr)
    (decision : ProviderOperationDecision) : action reply :=
  loaded <~~ call (LoadPlan (row_scope cx operationId) kind_switch);
  match loaded with
  | Some (mkLoaded r (PlanSwitch p)) =>
    if negb (pr_planHash r ==s planHash) then jsonError (js "Neon branch switch plan changed or is unavailable") 409
    else with_connection (ss_connectionId (sp_source p)) (
      _ <~~ (if approving decision r then
               live <~~ call (LiveSwitch (ss_connectionId (sp_source p)) (ss_projectId (sp_source p))
                          (bs_branchId (tf_branch (sp_target p))) (tf_environment (sp_target p)));
               now <~~ ask Now;
               _ <~~ lift_plan (revalidateNeonBranchSwitchPlan date_parse p (lt_inventory (lw_target live)) (lw_connection live)
                                  (lt_target (lw_target live)) (Some now));
               return_ tt
             else return_ tt);
      decide_operation (identity_of cx kind_switch (pr_id r) (pr_planHash r) (pr_ownershipMarker r)) decision
        (js "Neon branch switch approval authority changed"))
  | _ => jsonError (js "Neon branch switch plan changed or is unavailable") 409
  end.

Definition switch_request_value (r : NeonBranchSwitchPlanRequest) : value := VObj [
  (js "idempotencyKey", VStr (sr_idempotencyKey r)); (js "projectId", VStr (sr_projectId r));
  (js "connectionId", VStr (sr_connectionId r)); (js "targetBranchId", VStr (sr_targetBranchId r));
  (js "targetEnvironment", VStr (environment_name (sr_targetEnvironment r)))].

Definition plan_switch (cx : NeonBranchOperationContext) (body : value) : action reply :=
  request <~~ lift_plan (parseNeonBranchSwitchPlanRequest body);
  with_connection (sr_connectionId request) (
    live <~~ call (LiveSwitch (sr_connectionId request) (sr_projectId request) (sr_targetBranchId request)
               (sr_targetEnvironment request));
    operationId <~~ ask FreshUuid;
    now <~~ ask Now;
    plan <~~ lift_plan (buildNeonBranchSwitchPlan toISOString request (lt_inventory (lw_target live)) (lw_connection live)
               (lt_target (lw_target live)) operationId (cx_integrationId cx) (cx_generation cx) (Some now));
    record_plan cx operationId (sr_idempotencyKey request)
      (request_hash cx (switch_request_value request)
         [(js "sourceSnapshot", switch_source_value (sp_source plan)); (js "targetSnapshot", switch_target_value (sp_target plan));
          (js "impact", plan_part_value (PlanSwitch plan) (js "impact"))])
      (PlanSwitch plan) now (fun p => bool_decide (plan_kind p = kind_switch)) (js "Neon branch switch plan authority changed")).

Definition runNeonBranchSwitchOperation (cx : NeonBranchOperationContext) (a : branch_action) : action reply :=
  match a with
  | execute_action id planHash => execute_switch cx id planHash
  | decide_action id planHash decision => decide_switch cx id planHash decision
  | plan_action request => plan_switch cx request
  end.

(** ** The dispatcher *)

Definition failure_reply (e : failure) : reply :=
  match e with
  | plan_failure (PlanError message status) => json_error message status
  | store_failure (ProviderError message status) => json_error message status
  | mutation_failure message status _ _ => json_error message status
  | _ => json_error (js "Neon branch operation request failed") 502
  end.

Definition runNeonBranchOperation (cx : NeonBranchOperationContext) (body : NeonBranchOperationCommand) : prog reply :=
  prog_bind
    (match cm_kind body with
     | kind_create => runNeonBranchCreateOperation cx (cm_action body)
     | kind_delete => runNeonBranchDeleteOperation cx (cm_action body)
     | kind_switch => runNeonBranchSwitchOperation cx (cm_action body)
     end)
    (fun r => Ret match r with Ok answer => answer | Throw e => failure_reply e end).

End operations.

(** ** Commands *)

Definition command_kinds (prefix : jsstr) : list (jsstr * ProviderOperationKind) :=
  [(prefix ++ js "Create", kind_create); (prefix ++ js "Delete", kind_delete); (prefix ++ js "Switch", kind_switch)].
(** [body.action] is one of the three actions with the prefix. *)
Definition command_kind (body : js_record) (prefix : jsstr) : option ProviderOperationKind :=
  match field body (js "action") with VStr a => mget (command_kinds prefix) a | _ => None end.
Definition command_uuid (v : value) : option jsstr := match v with VStr s => if uuid s then Some s else None | _ => None end.
Definition command_hash (v : value) : option jsstr := match v with VStr s => if test hash_re s then Some s else None | _ => None end.
Definition command_decision (v : value) : option ProviderOperationDecision :=
  match v with
  | VStr s => findb (fun d => decision_name d ==s s) [decision_approved; decision_rejected]
  | _ => None
  end.
Definition has_exactly (body : js_record) (fields : list jsstr) : bool :=
  (length (mkeys body) =? S (length fields))%nat && forallb (mhas body) fields.

Definition parse_plan_command (body : js_record) : option NeonBranchOperationCommand :=
  kind ← command_kind body (js "plan");
  if has_exactly body [js "request"] then Some (mkCommand kind (plan_action (field body (js "request")))) else None.
Definition parse_decide_command (body : js_record) : option NeonBranchOperationCommand :=
  kind ← command_kind body (js "decide");
  if has_exactly body [js "operationId"; js "planHash"; js "decision"] then
    id ← command_uuid (field body (js "operationId"));
    hash ← command_hash (field body (js "planHash"));
    decision ← command_decision (field body (js "decision"));
    Some (mkCommand kind (decide_action id hash decision))
  else None.
Definition parse_execute_command (body : js_record) : option NeonBranchOperationCommand :=
  kind ← command_kind body (js "execute");
  if has_exactly body [js "operationId"; js "planHash"] then
    id ← command_uuid (field body (js "operationId"));
    hash ← command_hash (field body (js "planHash"));
    Some (mkCommand kind (execute_action id hash))
  else None.

Definition parseNeonBranchOperationCommand (v : value) : option NeonBranchOperationCommand :=
  match v with
  | VObj body =>
    match parse_plan_command body with
    | Some c => Some c
    | None => match parse_decide_command body with Some c => Some c | None => parse_execute_command body end
    end
  | _ => None
  end.

(** ** The inventory of operations *)

Record OperationListing := mkListing {
  li_record : ProviderOperationListRecord; li_plan : NeonBranchOperationPlan; li_expired : bool;
  li_canApprove : bool; li_canReject : bool; li_canExecute : bool; li_needsCredentialFenceRecovery : bool }.

Definition operation_listing (now : Z) (l : ProviderOperationListRecord * NeonBranchOperationPlan) : OperationListing :=
  let '(r, plan) := l in
  let x := ls_execution r in
  let st := pr_state (xr_plan x) in
  let expired := pr_planExpiresAt (xr_plan x) <=? now in
  let recovery := match plan with PlanCreate p => needs_fence x p | _ => false end in
  mkListing r plan expired
    (bool_decide (st = awaiting_approval) && negb expired
     && ((pr_approvalPolicy (xr_plan x) ==s js "single_admin") || negb (ls_requestedByCurrentActor r)))
    (bool_decide (st = awaiting_approval))
    (recovery || state_in st [remote_started; reconciling] || (unstarted st && ls_executionAuthorityLive r))
    recovery.

Definition listNeonBranchOperations (operations : outcome (list (ProviderOperationListRecord * NeonBranchOperationPlan))) (now : Z)
    : jsstr * Z + list OperationListing :=
  match operations with
  | Ok l => inr (map (operation_listing now) l)
  | Throw (ProviderError message status) => inl (message, status)
  | Throw _ => inl (js "Neon branch operation inventory failed", 502)
  end.
