(* ===== verification/NeonSystem.v ===== *)
(** * The branch operations as concurrent requests

    Workers run the programs of [NeonOperations] over the store of provider operations: any
    number of requests, at any time, each stopping anywhere, in any order of their effects.
    A command of the store is atomic; its answer may be lost after it took effect. What a
    lease, an import or any other part does to the store meanwhile is arbitrary, but only
    these use cases start operations. *)

From S2P Require Import Prelude JsString Regex JsMap JsValue JsSort RevocationGate NeonBranches NeonDeletePlan.
From S2P Require Import NeonCreatePlan NeonSwitchPlan D1Batch OperationRecords OperationPlan.
From S2P Require Import OperationExecution OperationSwitch OperationReads OperationInv OperationFacts.
From S2P Require Import OperationWitness.
From S2P Require Import NeonMutation NeonApi NeonOperations NeonFacts.
From Stdlib Require String.
Import Stdlib.Strings.String.StringSyntax.
Local Open Scope Z_scope.

(** ** Answers *)

(** What is not determined by the store: the clock, fresh identifiers, the provider and the
    parts that are not modelled. *)
Inductive oracle :=
| o_time (t : Z)
| o_text (s : jsstr)
| o_http (r : http_response)
(** A store command ran between two clock readings; [plan] is the typed view of a plan read. *)
| o_ran (utc utc' : Z) (fresh fresh' : jsstr) (plan : option NeonBranchOperationPlan)
(** It ran, and its answer was lost; or it did not run. *)
| o_lost (utc utc' : Z) (fresh fresh' : jsstr) (e : op_error)
| o_broken (e : op_error)
| o_credential (r : outcome jsstr)
| o_create (r : outcome CreateContext)
| o_delete (r : outcome DeleteContext)
| o_switch (r : outcome SwitchContextLive)
| o_target (r : outcome SwitchTargetContext)
| o_rows (r : option (list js_record))
| o_denied (r : option (jsstr * Z))
| o_gate (r : GateAnswer)
| o_deferred (r : outcome Z)
| o_done.

(** [plan as NeonBranchOperationPlan]: the texts of the typed plan are those of the object. *)
Definition reads_as (plan : js_record) (p : NeonBranchOperationPlan) : bool :=
  forallb (fun '(k, v) => match v with VStr s => is_string (field plan k) s | _ => true end) (plan_fields p).
Definition with_typed {R} (plan_of : R -> js_record) (p : option NeonBranchOperationPlan) (r : outcome (option R))
    : option (outcome (option (Loaded R))) :=
  match r with
  | Ok (Some r) => p ← p; if reads_as (plan_of r) p then Some (Ok (Some (mkLoaded r p))) else None
  | Ok None => Some (Ok None)
  | Throw e => Some (Throw e)
  end.

Section system.
Context (localeCompare : jsstr -> jsstr -> Z) (sha256hex : jsstr -> jsstr) (sha256 : jsstr -> list Z).
Context (hmac : jsstr -> jsstr) (json_parse : jsstr -> option value).
Context (toISOString : Z -> jsstr) (date_parse : jsstr -> option Z) (search_params : list (jsstr * jsstr) -> jsstr)
  (parse_url : jsstr -> option ConnectionUri).

Notation run1 := (run1 localeCompare sha256hex sha256 hmac json_parse toISOString date_parse).
Notation run := (run localeCompare sha256hex sha256 hmac json_parse toISOString date_parse).
Notation starts := (starts sha256 hmac).
Notation count_starts := (count_starts localeCompare sha256hex sha256 hmac json_parse toISOString date_parse).

(** The command an effect runs. *)
Definition event_of {X} (e : effect X) (utc utc' : Z) (fresh fresh' : jsstr) : list op_event :=
  match e with
  | Record_ x => [ev_record x utc]
  | Decide x d now => [ev_decide x d now fresh utc]
  | Cancel x now => [ev_cancel x now utc]
  | Claim x now => [ev_claim x now fresh utc]
  | Start x cid now => [ev_start x cid now utc utc']
  | Apply x cid r now => [ev_reconcile x cid r now utc]
  | Complete x => [ev_switch x fresh fresh' utc]
  | _ => []
  end.
(** Its answer. *)
Definition answer_of {X} (d : store) (e : effect X) (utc utc' : Z) (fresh fresh' : jsstr)
    (p : option NeonBranchOperationPlan) : option X :=
  match e in effect X return option X with
  | LoadExecution s kind =>
    with_typed (fun r => pr_plan (xr_plan r)) p
      (loadProviderOperationExecution localeCompare sha256hex hmac json_parse toISOString date_parse s kind d)
  | LoadPlan s kind =>
    with_typed pr_plan p (loadProviderOperationPlan localeCompare sha256hex hmac json_parse toISOString date_parse s kind d)
  | Record_ x =>
    with_typed pr_plan p
      (fst (recordProviderOperationPlan localeCompare sha256hex sha256 hmac json_parse toISOString date_parse x utc d))
  | Decide x dec now => Some (fst (decideProviderOperation sha256 hmac x dec now fresh utc d))
  | Cancel x now => Some (fst (cancelExpiredProviderOperationExecution sha256 hmac x now utc d))
  | Claim x now => Some (fst (claimProviderOperationExecution sha256 hmac x now fresh utc d))
  | Start x cid now => Some (fst (markProviderOperationRemoteStarted sha256 hmac x cid now utc utc' d))
  | Apply x cid r now =>
    Some (fst (applyProviderOperationReconciliation sha256 hmac json_parse toISOString x cid r now utc d))
  | Complete x => Some (fst (completeNeonBranchSwitch localeCompare sha256hex sha256 hmac toISOString x fresh fresh' utc d))
  | _ => None
  end.
Definition thrown {X} (e : effect X) (err : op_error) : option X :=
  match e in effect X return option X with
  | LoadExecution _ _ => Some (Throw err) | LoadPlan _ _ => Some (Throw err) | Record_ _ => Some (Throw err)
  | Decide _ _ _ => Some (Throw err) | Cancel _ _ => Some (Throw err) | Claim _ _ => Some (Throw err)
  | Start _ _ _ => Some (Throw err) | Apply _ _ _ _ => Some (Throw err) | Complete _ => Some (Throw err)
  | _ => None
  end.
(** The answers of the other parts. *)
Definition given {X} (e : effect X) (o : oracle) : option X :=
  match e in effect X return option X with
  | Now => match o with o_time t => Some t | _ => None end
  | FreshUuid => match o with o_text s => Some s | _ => None end
  | Fetch _ => match o with o_http r => Some r | _ => None end
  | Delay => match o with o_done => Some tt | _ => None end
  | ProjectCredential _ => match o with o_credential r => Some r | _ => None end
  | LiveCreate _ _ => match o with o_create r => Some r | _ => None end
  | LiveDelete _ _ => match o with o_delete r => Some r | _ => None end
  | LiveSwitch _ _ _ _ => match o with o_switch r => Some r | _ => None end
  | LiveSwitchTarget _ => match o with o_target r => Some r | _ => None end
  | QuerySql _ _ => match o with o_rows r => Some r | _ => None end
  | AuthorizeConnection _ => match o with o_denied r => Some r | _ => None end
  | ClaimGate _ => match o with o_gate r => Some r | _ => None end
  | ReleaseGate _ => match o with o_done => Some tt | _ => None end
  | ClearGate _ => match o with o_done => Some tt | _ => None end
  | RevokeLeases _ => match o with o_deferred r => Some r | _ => None end
  | _ => None
  end.
(** The answer to an effect, with the commands that ran on the store. *)
Definition respond {X} (d : store) (e : effect X) (o : oracle) : option (X * list op_event) :=
  match o with
  | o_ran utc utc' fresh fresh' p => x ← answer_of d e utc utc' fresh fresh' p; Some (x, event_of e utc utc' fresh fresh')
  | o_lost utc utc' fresh fresh' err => x ← thrown e err; Some (x, event_of e utc utc' fresh fresh')
  | o_broken err => x ← thrown e err; Some (x, [])
  | _ => x ← given e o; Some (x, [])
  end.

(** ** The system *)

(** The store with the commands that made it, the workers with what they have left to do, and
    the exchanges with the provider. *)
Record system := mkSystem {
  sy_store : store; sy_log : list op_event; sy_workers : list (prog reply); sy_trace : list exchange }.
Definition is_start (e : op_event) : bool := match e with ev_start _ _ _ _ _ => true | _ => false end.

Inductive sys_event :=
| request_arrives (cx : NeonBranchOperationContext) (c : NeonBranchOperationCommand)
| worker_step (i : nat) (o : oracle)
| meanwhile (e : op_event).
Definition sys_step (s : system) (ev : sys_event) : option system :=
  match ev with
  | request_arrives cx c =>
    Some (mkSystem (sy_store s) (sy_log s)
      (sy_workers s ++ [runNeonBranchOperation localeCompare sha256hex hmac toISOString date_parse search_params parse_url cx c])
      (sy_trace s))
  | worker_step i o =>
    match sy_workers s !! i with
    | Some (Vis e k) =>
      '(x, es) ← respond (sy_store s) e o;
      Some (mkSystem (run (sy_store s) es) (sy_log s ++ es) (<[i := k x]> (sy_workers s)) (sy_trace s ++ exchanges e x))
    | _ => None
    end
  | meanwhile e =>
    if is_start e then None
    else Some (mkSystem (run1 (sy_store s) e) (sy_log s ++ [e]) (sy_workers s) (sy_trace s))
  end.
Fixpoint sys_run (s : system) (evs : list sys_event) : option system :=
  match evs with [] => Some s | ev :: evs => s' ← sys_step s ev; sys_run s' evs end.
Definition initial (d : store) : system := mkSystem d [] [] [].

(** The mutating requests of an operation. *)
Definition mutates (id : jsstr) (q : http_request) : bool :=
  negb (bool_decide (rq_method q = GET)) && bool_decide (rq_id q = Some id).
Definition mutations (id : jsstr) (tr : list exchange) : list exchange := filterb (fun x => mutates id (ex_request x)) tr.
Definition is_refusal (r : http_response) : bool :=
  match r with received status _ => negb (http_ok status) && retry_safe status | not_received => false end.
Definition effective (id : jsstr) (tr : list exchange) : list exchange :=
  filterb (fun x => negb (is_refusal (ex_response x))) (mutations id tr).

(** ** Permissions

    A start that is answered with the permission gives its worker two requests: the one it
    was made for and the repetition of a refused one. *)

(** [plan.operationId] *)
Definition plan_operation (p : NeonBranchOperationPlan) : jsstr := plan_text p (js "operationId").

(** The answers that are possible: a typed plan is that of its row, and a start answers for
    the operation it names. *)
Definition possible {X} (e : effect X) : X -> Prop :=
  match e in effect X return X -> Prop with
  | LoadExecution _ _ => fun r => match r with Ok (Some l) => plan_operation (ld_plan l) = pr_id (xr_plan (ld_record l)) | _ => True end
  | Start x _ _ => fun r => match r with Ok (Some s) => sr_id s = xi_operationId x | _ => True end
  | _ => fun _ => True
  end.
(** The requests left after an answer. *)
Definition permission (id : jsstr) {X} (e : effect X) (c : nat) : X -> nat :=
  match e in effect X return X -> nat with
  | Start _ _ _ => fun r => match r with Ok (Some s) => if sr_startedNow s && (sr_id s ==s id) then 2%nat else c | _ => c end
  | Fetch q => fun r => if mutates id q then if is_refusal r then (c - 1)%nat else 0%nat else c
  | _ => fun _ => c
  end.
Definition spends (id : jsstr) {X} (e : effect X) : bool := match e with Fetch q => mutates id q | _ => false end.

(** With [c] permitted requests the program stays within its permissions, and ends with [Q]. *)
Fixpoint safe (id : jsstr) {A} (c : nat) (p : prog A) (Q : nat -> A -> Prop) : Prop :=
  match p with
  | Ret a => Q c a
  | Vis e k => (spends id e = true -> (1 <= c)%nat) /\ forall x, possible e x -> safe id (permission id e c x) (k x) Q
  end.
Definition anything {A} (c : nat) (a : A) : Prop := True.

Lemma safe_bind {A B} id c (p : prog A) (f : A -> prog B) P Q :
  safe id c p P -> (forall c a, P c a -> safe id c (f a) Q) -> safe id c (prog_bind p f) Q.
Proof.
  revert c. induction p as [a|X e k IH]; intros c; cbn; [by auto|]. intros [Hs Hk] Hf. split; [done|].
  intros x Hx. by apply IH; [apply Hk|].
Qed.
Lemma safe_impl {A} id c (p : prog A) (P Q : nat -> A -> Prop) :
  safe id c p P -> (forall c a, P c a -> Q c a) -> safe id c p Q.
Proof.
  revert c. induction p as [a|X e k IH]; intros c; cbn; [by auto|]. intros [Hs Hk] HPQ. split; [done|].
  intros x Hx. by apply IH; [apply Hk|].
Qed.
(** A program that only reads keeps every permission. *)
Lemma safe_reads {A} id n c (p : prog A) : reads n p -> safe id c p (fun c' _ => c' = c).
Proof.
  revert n. induction p as [a|X e k IH]; intros n; cbn; [done|]. intros H.
  destruct e; cbn in *; try (split; [done|]; intros ? _; by eapply IH, H); try (by destruct H).
  destruct H as (Hm & _ & Hk). unfold mutates. rewrite Hm. cbn. split; [done|]. intros x _. by eapply IH, Hk.
Qed.
Lemma safe_any {A} id n c (p : prog A) : reads n p -> safe id c p anything.
Proof. intros H. eapply safe_impl; [by apply (safe_reads id n)|done]. Qed.
Lemma safe_action {A B} id n c (p : action A) (f : A -> action B) :
  reads n p -> (forall a, safe id c (f a) anything) -> safe id c (action_bind p f) anything.
Proof. intros Hp Hf. eapply safe_bind; [by apply (safe_reads id n)|]. intros ? [a|e] ->; [apply Hf|done]. Qed.

Lemma reads_call n {X} (e : effect (outcome X)) : effect_request e = None -> starting e = false -> reads n (call e).
Proof. intros He Hs. cbn. rewrite He. split; [done|]. intros r. apply reads_lift. Qed.
Lemma reads_ask n {X} (e : effect X) : effect_request e = None -> starting e = false -> reads n (ask e).
Proof. intros He Hs. cbn. rewrite He. by split. Qed.
Lemma reads_lift_plan {A} n (r : planned A) : reads n (lift_plan r).
Proof. by destruct r. Qed.
#[local] Hint Extern 1 (reads _ (call _)) => apply reads_call; reflexivity : reads.
#[local] Hint Extern 1 (reads _ (ask _)) => apply reads_ask; reflexivity : reads.
Lemma reads_json n message status : reads n (jsonError message status).
Proof. done. Qed.
Lemma reads_response n v status : reads n (executionResponse v status).
Proof. done. Qed.
Lemma reads_recorded n r : reads n (recorded_response r).
Proof. done. Qed.
#[local] Hint Resolve reads_lift_plan reads_json reads_response reads_recorded : reads.

(** One step of a program that only reads; [quiet] walks through its steps and branches. *)
Ltac quiet_step :=
  cbv zeta;
  match goal with
  | |- reads _ _ => solve [auto with reads]
  | |- reads _ (action_bind _ _) => apply reads_step; [|intros ?]
  | |- reads _ (catch _ _ _) => apply (reads_catch 0); [|intros ?|intros ?]
  | |- reads _ (prog_bind _ _) => apply (reads_bind 0); [|intros ?]
  | |- reads _ (ask (match ?x with _ => _ end)) => destruct x
  | |- reads _ (match ?x with _ => _ end) => destruct x
  end.
Ltac quiet := repeat quiet_step.

Lemma safe_load {B} id c scope kind (f : option (Loaded ProviderOperationExecutionRecord) -> action B) :
  safe id c (f None) anything ->
  (forall l, plan_operation (ld_plan l) = pr_id (xr_plan (ld_record l)) -> safe id c (f (Some l)) anything) ->
  safe id c (action_bind (call (LoadExecution scope kind)) f) anything.
Proof. intros Hn Hl. split; [done|]. intros [[l|]|e] Hp; [by apply Hl|apply Hn|done]. Qed.

(** *** The requests *)

Lemma attempts_safe {R} id c n request noun accepted (receipt : Z -> body_read -> outcome R) operation :
  (forall q, request = Ok q -> rq_id q = Some operation) -> (operation = id -> (n <= c)%nat) ->
  safe id c (mutation_attempts n request noun accepted receipt) anything.
Proof.
  intros Hq. revert c. induction n as [|n IH]; intros c Hc; [done|]. destruct request as [q|e]; [|done].
  specialize (Hq q eq_refl). split.
  - cbn. unfold mutates. rewrite Hq. intros H. bools. specialize (Hc ltac:(congruence)). lia.
  - intros r _. cbn [ask prog_bind].
    assert (operation = id -> is_refusal r = true -> (n <= permission id (Fetch q) c r)%nat) as Hleft.
    { intros Ho Hr. cbn. rewrite Hr. specialize (Hc Ho). destruct (mutates id q); lia. }
    destruct r as [|status body]; [done|]. destruct (http_ok status) eqn:Eok; cbn [negb].
    + destruct (existsb (Z.eqb status) accepted); [|done]. cbn [negb]. by destruct (receipt status body).
    + destruct (retry_safe status && (S n =? 2)%nat) eqn:E; [|done]. apply andb_true_iff in E as [Es _].
      split; [done|]. intros [] _. apply IH. intros Ho. apply Hleft; [done|]. cbn. by rewrite Eok, Es.
Qed.
Lemma create_safe id c key p planHash marker :
  (cp_operationId p = id -> (2 <= c)%nat) -> safe id c (createNeonBranch key p planHash marker) anything.
Proof.
  intros Hc. unfold createNeonBranch. destruct (neonBranchMutationBody p planHash marker) as [body|e]; [|done].
  apply (attempts_safe _ _ _ _ _ _ _ (cp_operationId p)); [|done]. intros q. destruct (apiSegment _); [|done]. by intros [= <-].
Qed.
Lemma delete_safe id c key p :
  (dp_operationId p = id -> (2 <= c)%nat) -> safe id c (deleteNeonBranch key p) anything.
Proof.
  intros Hc. apply (attempts_safe _ _ _ _ _ _ _ (dp_operationId p)); [|done]. intros q.
  destruct (apiSegment (dt_projectId _)); cbn; [|done]. destruct (apiSegment _); cbn; [|done]. by intros [= <-].
Qed.

(** *** Executions *)

Lemma claim_and_start_safe id c x no_claim no_fence :
  safe id c (claim_and_start x no_claim no_fence)
    (fun c' r => forall claimId, r = Ok (inr (claimId, true)) -> xi_operationId x = id -> (2 <= c')%nat).
Proof.
  split; [done|]. intros now _. split; [done|]. intros [[claim|]|e] _; cbn; try done.
  split; [done|]. intros now' _. split; [done|]. intros [[s|]|e] Hs; cbn in *; try done.
  case_match; [done|]. intros claimId [= _ Hn] Hid. rewrite Hn. cbn. rewrite Hs, Hid, bool_decide_true; [lia|done].
Qed.

Lemma run_create_safe id c x p key claimId startedNow providerId :
  (startedNow = true -> cp_operationId p = id -> (2 <= c)%nat) ->
  safe id c (run_create localeCompare sha256hex date_parse search_params parse_url x p key claimId startedNow providerId) anything.
Proof.
  intros Hc. assert (forall providerId, reads 54 (
    reconciled <~~ reconcileNeonBranchCreate localeCompare sha256hex date_parse search_params parse_url key p (xi_planHash x) (xi_ownershipMarker x) providerId;
    now <~~ ask Now;
    recorded <~~ call (Apply x claimId reconciled (Some now));
    match recorded with
    | Some r => recorded_response r
    | None => jsonError (js "Neon branch reconciliation authority changed") 409
    end)) as Hsettle.
  { intros id'. apply reads_last; [apply reconcile_create_reads|]. intros o. quiet. }
  unfold run_create. destruct startedNow; [|apply (safe_any id 54), Hsettle].
  apply safe_bind with (P := anything); [|intros c' [o|e] _; [|done]].
  - eapply safe_bind; [apply create_safe; auto|done].
  - apply (safe_any id 54). quiet.
Qed.
Lemma run_delete_safe id c x p key claimId startedNow startedAt providerId :
  (startedNow = true -> dp_operationId p = id -> (2 <= c)%nat) ->
  safe id c (run_delete date_parse search_params x p key claimId startedNow startedAt providerId) anything.
Proof.
  intros Hc. assert (forall providerId, reads 17 (
    reconciled <~~ reconcileNeonBranchDelete date_parse search_params key p providerId;
    started <~~ match startedAt with Some t => return_ t | None => ask Now end;
    now <~~ ask Now;
    let final := ambiguous_after started now reconciled in
    now <~~ ask Now;
    recorded <~~ call (Apply x claimId final (Some now));
    match recorded with
    | Some r => recorded_response r
    | None => jsonError (js "Neon branch deletion reconciliation authority changed") 409
    end)) as Hsettle.
  { intros id'. apply reads_last; [apply reconcile_delete_reads|]. intros o. destruct startedAt; quiet. }
  unfold run_delete. destruct startedNow; [|apply (safe_any id 17), Hsettle].
  apply safe_bind with (P := anything); [|intros c' [o|e] _; [|done]].
  - eapply safe_bind; [apply delete_safe; auto|done].
  - apply (safe_any id 17). quiet.
Qed.

(** The rest of an execution once it has been claimed and started. *)
Lemma after_start id x no_claim no_fence operation (f : reply + jsstr * bool -> action reply) :
  xi_operationId x = operation -> (forall r, reads 0 (f (inl r))) ->
  (forall c claimId startedNow, (startedNow = true -> operation = id -> (2 <= c)%nat) ->
     safe id c (f (inr (claimId, startedNow))) anything) ->
  safe id 0 (action_bind (claim_and_start x no_claim no_fence) f) anything.
Proof.
  intros Hx Hl Hf. eapply safe_bind; [apply claim_and_start_safe|]. intros c [[r|[claimId startedNow]]|e] H; cbn; [|apply Hf|done].
  - apply (safe_any id 0), Hl.
  - intros -> Ho. apply (H claimId); [done|by rewrite Hx].
Qed.
Lemma with_claim_safe id c claim refusal (run : jsstr -> action reply) :
  (forall claimId, safe id c (run claimId) anything) -> safe id c (with_claim claim refusal run) anything.
Proof. intros Hr. unfold with_claim. by repeat case_match. Qed.

Lemma execute_create_safe id cx operationId planHash :
  safe id 0 (execute_create localeCompare sha256hex date_parse search_params parse_url cx operationId planHash) anything.
Proof.
  unfold execute_create. apply safe_load; [done|]. intros [r [p|p|p]] Hp; [|done..].
  change (cp_operationId p = pr_id (xr_plan r)) in Hp. cbv beta iota zeta.
  destruct (negb _); [done|]. destruct (finished_state _ && _); [done|]. destruct (bool_decide _); [done|].
  apply (safe_action id 0); [auto with reads|]. intros now. destruct (unstarted _ && _).
  { apply (safe_any id 0). unfold close_expired. quiet. }
  destruct (_ && _); [done|]. destruct (unstarted _).
  - apply (safe_action id 0); [auto with reads|]. intros live. apply (safe_action id 0); [auto with reads|]. intros now'.
    apply (safe_action id 0); [auto with reads|]. intros _. apply (after_start id _ _ _ (pr_id (xr_plan r))); [done|done|].
    intros c claimId startedNow Hc. apply with_claim_safe. intros claim. apply run_create_safe. by rewrite Hp.
  - apply (safe_action id 0); [auto with reads|]. intros key. apply with_claim_safe. intros claim. by apply run_create_safe.
Qed.
Lemma execute_delete_safe id cx operationId planHash :
  safe id 0 (execute_delete date_parse search_params cx operationId planHash) anything.
Proof.
  unfold execute_delete. apply safe_load; [done|]. intros [r [p|p|p]] Hp; [done| |done].
  change (dp_operationId p = pr_id (xr_plan r)) in Hp. cbv beta iota zeta.
  destruct (negb _); [done|]. destruct (finished_state _); [done|]. destruct (bool_decide _); [done|].
  apply (safe_action id 0); [auto with reads|]. intros now. destruct (unstarted _ && _).
  { apply (safe_any id 0). unfold close_expired. quiet. }
  destruct (_ && _); [done|]. destruct (unstarted _).
  - apply (safe_action id 0); [auto with reads|]. intros live. apply (safe_action id 0); [auto with reads|]. intros now'.
    apply (safe_action id 0); [auto with reads|]. intros _. apply (after_start id _ _ _ (pr_id (xr_plan r))); [done|done|].
    intros c claimId startedNow Hc. apply with_claim_safe. intros claim. apply run_delete_safe. by rewrite Hp.
  - apply (safe_action id 0); [auto with reads|]. intros key. apply with_claim_safe. intros claim. by apply run_delete_safe.
Qed.
Lemma run_switch_reads x p claimId : reads 0 (run_switch x p claimId).
Proof. unfold run_switch, commit_switch, live_target, recordSwitchFailure, expected_error. quiet. Qed.
Lemma with_connection_safe id c connectionId k : safe id c k anything -> safe id c (with_connection connectionId k) anything.
Proof. intros Hk. apply (safe_action id 0); [auto with reads|]. by intros [[m st]|]. Qed.
Lemma execute_switch_safe id cx operationId planHash :
  safe id 0 (execute_switch date_parse cx operationId planHash) anything.
Proof.
  unfold execute_switch. apply safe_load; [done|]. intros [r [p|p|p]] Hp; [done..|]. cbv beta iota zeta.
  destruct (negb _); [done|]. apply with_connection_safe. destruct (finished_state _); [done|]. destruct (bool_decide _); [done|].
  apply (safe_action id 0); [auto with reads|]. intros now. destruct (unstarted _ && _).
  { apply (safe_any id 0). unfold close_expired. quiet. }
  destruct (unstarted _).
  - apply (safe_action id 0); [auto with reads|]. intros live. apply (safe_action id 0); [auto with reads|]. intros now'.
    apply (safe_action id 0); [auto with reads|]. intros _. apply (after_start id _ _ _ (pr_id (xr_plan r))); [done|done|].
    intros c claimId startedNow _. apply with_claim_safe. intros claim. apply (safe_any id 0), run_switch_reads.
  - apply with_claim_safe. intros claim. apply (safe_any id 0), run_switch_reads.
Qed.

Lemma plan_reads cx body :
  reads 0 (plan_create localeCompare sha256hex hmac toISOString date_parse cx body)
  /\ reads 0 (plan_delete localeCompare sha256hex hmac toISOString cx body)
  /\ reads 0 (plan_switch localeCompare sha256hex hmac toISOString cx body).
Proof.
  split; [|split]; unfold plan_create, plan_delete, plan_switch, with_connection, record_plan; quiet.
Qed.
Lemma decide_reads cx id planHash decision :
  reads 0 (decide_create date_parse cx id planHash decision) /\ reads 0 (decide_delete date_parse cx id planHash decision)
  /\ reads 0 (decide_switch date_parse cx id planHash decision).
Proof.
  split; [|split]; unfold decide_create, decide_delete, decide_switch, with_connection, decide_operation; quiet.
Qed.
Lemma operation_safe id cx c :
  safe id 0 (runNeonBranchOperation localeCompare sha256hex hmac toISOString date_parse search_params parse_url cx c) anything.
Proof.
  eapply safe_bind with (P := anything); [|by intros ? [?|?] _].
  destruct c as [[] [request|operation planHash decision|operation planHash]];
    first [apply execute_create_safe|apply execute_delete_safe|apply execute_switch_safe|apply (safe_any id 0)];
    first [apply plan_reads|apply decide_reads].
Qed.

(** ** Possible answers *)

(** A plan that was read is the plan of its row. *)
Lemma plan_record_operation row s r :
  planRecord localeCompare sha256hex hmac json_parse toISOString date_parse row s = Ok (Some r) ->
  is_string (field (pr_plan r) (js "operationId")) (pr_id r) = true.
Proof.
  unfold planRecord. destruct row as [row|]; [|done].
  destruct (plan_column _ _) as [[]|]; try done. destruct (planDate _ _); [|done]. destruct (operation_state _); [|done].
  destruct (_ || _ || _); [done|]. intros ([] & _ & H)%res_bind_ok. destruct (negb _) eqn:E in H; [done|].
  apply res_bind_ok in H as (verified & _ & H). destruct (negb verified); [done|]. injection H as <-.
  unfold plan_matches_row in E. cbn. by bools.
Qed.
Lemma execution_record_operation row s r :
  executionRecord localeCompare sha256hex hmac json_parse toISOString date_parse row s = Ok (Some r) ->
  is_string (field (pr_plan (xr_plan r)) (js "operationId")) (pr_id (xr_plan r)) = true.
Proof.
  unfold executionRecord. intros (plan & Hp & H)%res_bind_ok. destruct row as [row|]; [|done].
  destruct plan as [plan|]; [|done]. cbn in H. destruct (executionResultProjection _); [|done].
  destruct (_ && _ && _ && _); [|done]. apply res_bind_ok in H as (? & _ & H). apply res_bind_ok in H as (? & _ & H).
  injection H as <-. by eapply plan_record_operation.
Qed.
Lemma is_string_unique v s t : is_string v s = true -> is_string v t = true -> s = t.
Proof. destruct v; cbn; try done. intros. by bools; subst. Qed.
Lemma reads_as_operation plan p : reads_as plan p = true -> is_string (field plan (js "operationId")) (plan_operation p) = true.
Proof.
  unfold reads_as. rewrite forallb_elem. intros H.
  apply (H (js "operationId", VStr (plan_operation p))). destruct p; cbn; by do 2 right; left.
Qed.

Lemma start_names_its_operation x cid now utc utc' d r :
  fst (markProviderOperationRemoteStarted sha256 hmac x cid now utc utc' d) = Ok (Some r) -> sr_id r = xi_operationId x.
Proof.
  destruct (markProviderOperationRemoteStarted _ _ _ _ _ _ _ _) as [a d'] eqn:E. cbn. intros ->.
  apply after_ok in E as ([n audit] & _ & E). apply reading_ok in E as (row & _ & [= E]).
  unfold start_result in E. destruct row as [[c o]|]; [|done]. case_match eqn:Ec; [|done]. injection E as <-. cbn. by bools.
Qed.

Lemma respond_possible {X} d (e : effect X) o x es : respond d e o = Some (x, es) -> possible e x.
Proof.
  destruct e; try done; destruct o; cbn; try done; try by intros [= <- <-].
  - destruct (loadProviderOperationExecution _ _ _ _ _ _ _ _ _) as [[r|]|] eqn:E; cbn; [|by intros [= <- <-]..].
    destruct plan as [p|]; [|done]. cbn. destruct (reads_as _ p) eqn:Er; [|done]. cbn. intros [= <- <-]. cbn.
    eapply is_string_unique; [by apply reads_as_operation|by eapply execution_record_operation].
  - intros [= <- <-]. destruct (fst _) as [[r|]|] eqn:E; [|done..]. by eapply start_names_its_operation.
Qed.

(** The permissions that an answer gives come from a start in the store. *)
Definition active (c : nat) : nat := if decide (c = 0%nat) then 0 else 1.
Lemma respond_permission {X} id d (e : effect X) o x es c :
  respond d e o = Some (x, es) -> spends id e = false ->
  (permission id e c x <= c + 2 * count_starts d id es /\ active (permission id e c x) <= active c + count_starts d id es)%nat.
Proof.
  intros H Hs. assert (permission id e c x = c \/ permission id e c x = 2%nat /\ count_starts d id es = 1%nat) as [->|[-> ->]].
  2,3: unfold active; repeat case_decide; lia.
  destruct e; try by left.
  - cbn in Hs. left. cbn. by rewrite Hs.
  - destruct o; cbn in H; try done; injection H as <- <-; try by left. cbn.
    destruct (fst _) as [[r|]|]; [|by left..]. destruct (_ && _); [by right|by left].
Qed.
Lemma respond_fetch d q o r es : respond d (Fetch q) o = Some (r, es) -> es = [].
Proof. destruct o; cbn; try done. by intros [= _ <-]. Qed.

(** ** The invariant *)

Lemma sum_insert (l : list nat) i a b : l !! i = Some b -> (sum_list (<[i:=a]> l) + b = sum_list l + a)%nat.
Proof.
  intros Hi. pose proof (lookup_lt_Some _ _ _ Hi). rewrite insert_take_drop by done.
  rewrite <- (take_drop_middle l i b Hi) at 3. rewrite !sum_list_with_app. cbn. lia.
Qed.
Lemma run_app d es es' : run d (es ++ es') = run (run d es) es'.
Proof. apply foldl_app. Qed.
Lemma count_starts_app d id es es' :
  count_starts d id (es ++ es') = (count_starts d id es + count_starts (run d es) id es')%nat.
Proof. revert d. induction es as [|e es IH]; intros d; cbn; [done|]. by rewrite IH, Nat.add_assoc. Qed.
Lemma counted_start d id es :
  (1 <= count_starts d id es)%nat ->
  exists es1 e es2, es = es1 ++ e :: es2 /\ starts (run d es1) id e = true.
Proof.
  revert d. induction es as [|e es IH]; intros d; cbn; [lia|]. destruct (starts d id e) eqn:E.
  - intros _. by exists [], e, es.
  - intros H. destruct (IH (run1 d e) H) as (es1 & e' & es2 & -> & Hs). by exists (e :: es1), e', es2.
Qed.

(** With the permissions [cs] of the workers: the requests sent and permitted are twice the
    starts, and those that were not refused, with the permissions, are as many as the starts. *)
Record permitted (d0 : store) (id : jsstr) (s : system) (cs : list nat) : Prop := {
  pm_store : sy_store s = run d0 (sy_log s);
  pm_workers : Forall2 (fun p c => safe id c p anything) (sy_workers s) cs;
  pm_sent : (length (mutations id (sy_trace s)) + sum_list cs <= 2 * count_starts d0 id (sy_log s))%nat;
  pm_effective : (length (effective id (sy_trace s)) + sum_list (active <$> cs) <= count_starts d0 id (sy_log s))%nat }.

Lemma active_le c : (active c <= 1)%nat.
Proof. unfold active. case_decide; lia. Qed.

Lemma exchange_cost {X} id d (e : effect X) o x es c :
  respond d e o = Some (x, es) -> (spends id e = true -> (1 <= c)%nat) ->
  (length (mutations id (exchanges e x)) + permission id e c x <= c + 2 * count_starts d id es
   /\ length (effective id (exchanges e x)) + active (permission id e c x) <= active c + count_starts d id es)%nat.
Proof.
  intros H Hc. destruct (spends id e) eqn:Es.
  - destruct e; try done. cbn in Es. specialize (Hc eq_refl). rewrite (respond_fetch _ _ _ _ _ H).
    unfold effective, mutations. cbn. rewrite Es. cbn. unfold active.
    destruct (is_refusal x); cbn; repeat case_decide; lia.
  - assert (mutations id (exchanges e x) = []) as Hm.
    { destruct e; try done. cbn in Es. unfold mutations. cbn. by rewrite Es. }
    unfold effective. rewrite Hm. by apply (respond_permission id d e o).
Qed.

Lemma sys_step_permitted d0 id s ev s' cs :
  permitted d0 id s cs -> sys_step s ev = Some s' -> exists cs', permitted d0 id s' cs'.
Proof.
  intros [Hd Hw Hm He] H. destruct ev as [cx c|i o|e]; cbn in H.
  - injection H as <-. exists (cs ++ [0%nat]). split; cbn [sy_store sy_log sy_workers sy_trace]; [done| | |].
    + apply Forall2_app; [done|]. constructor; [apply operation_safe|constructor].
    + rewrite sum_list_with_app. change (sum_list [0%nat]) with 0%nat. lia.
    + rewrite fmap_app, sum_list_with_app. change (sum_list (active <$> [0%nat])) with 0%nat. lia.
  - destruct (sy_workers s !! i) as [[r|X e k]|] eqn:Hi; [done| |done].
    destruct (respond (sy_store s) e o) as [[x es]|] eqn:Hr; [|done]. injection H as <-.
    destruct (Forall2_lookup_l _ _ _ _ _ Hw Hi) as (c & Hc & Hspend & Hk).
    destruct (exchange_cost id _ _ _ _ _ c Hr Hspend) as [H1 H2].
    pose proof (sum_insert cs i (permission id e c x) c Hc) as S1.
    pose proof (sum_insert (active <$> cs) i (active (permission id e c x)) (active c)) as S2.
    rewrite list_lookup_fmap, Hc in S2. specialize (S2 eq_refl).
    exists (<[i:=permission id e c x]> cs). split; cbn [sy_store sy_log sy_workers sy_trace].
    + by rewrite Hd, run_app.
    + apply Forall2_insert; [done|]. apply Hk. by eapply respond_possible.
    + unfold mutations in *. rewrite filterb_app, length_app, count_starts_app, <- Hd. lia.
    + unfold effective, mutations in *. rewrite !filterb_app, length_app, count_starts_app, <- Hd, list_fmap_insert. lia.
  - destruct (is_start e) eqn:Es; [done|]. injection H as <-.
    assert (starts (sy_store s) id e = false) as Hs by by destruct e.
    exists cs. split; cbn [sy_store sy_log sy_workers sy_trace]; [by rewrite run_app, <- Hd|done|..];
      rewrite count_starts_app, <- Hd; cbn [OperationFacts.count_starts]; rewrite Hs; lia.
Qed.
Lemma sys_run_permitted d0 id evs s s' cs :
  permitted d0 id s cs -> sys_run s evs = Some s' -> exists cs', permitted d0 id s' cs'.
Proof.
  revert s cs. induction evs as [|ev evs IH]; intros s cs Hp; cbn; [intros [= <-]; eauto|].
  intros (s1 & Hs & H)%bind_Some. destruct (sys_step_permitted _ _ _ _ _ _ Hp Hs) as [cs' Hp']. by eapply IH.
Qed.

(** C1: however many requests run concurrently, in any order of their effects, with any clocks
    and provider answers, with lost database answers and workers that stop anywhere: for an
    operation at most two mutating requests reach the provider, at most one of them not
    refused as locked or unavailable, and only if one start of the operation was answered
    with the permission, in a store that the commands of the run have made. *)
Theorem provider_mutated_at_most_once d evs s id :
  no_operations d -> sys_run (initial d) evs = Some s ->
  (length (mutations id (sy_trace s)) <= 2)%nat
  /\ (length (effective id (sy_trace s)) <= 1)%nat
  /\ sy_store s = run d (sy_log s)
  /\ (mutations id (sy_trace s) <> [] ->
      exists es1 e es2, sy_log s = es1 ++ e :: es2 /\ starts (run d es1) id e = true).
Proof.
  intros Hno Hrun. destruct (sys_run_permitted d id evs (initial d) s []) as [cs [Hd _ Hm He]]; [|done|].
  { split; cbn; [done|constructor|lia..]. }
  assert (count_starts d id (sy_log s) <= 1)%nat as Hc by (apply starts_bounded, no_operations_ok, Hno).
  split; [lia|]. split; [lia|]. split; [done|]. intros Hne. apply counted_start.
  destruct (mutations id (sy_trace s)); [done|]. cbn in Hm. lia.
Qed.
End system.

(** ** Concrete executions *)

Notation demo_system_run := (sys_run str_cmp demo_hex demo_sha256 demo_hmac demo_parse show_Z demo_date no_query (fun _ => None)).
Notation demo_system := (initial demo_store).
Definition demo_context : NeonBranchOperationContext := mkContext (js "org") demo_integration 1 owner_authority.
Definition demo_execute : sys_event :=
  request_arrives demo_context (mkCommand kind_create (execute_action demo_operation demo_planHash)).
Definition answered (fresh : jsstr) : oracle := o_ran 1300 1300 fresh [] (Some (PlanCreate demo_create)).

(** The plan is recorded and approved; two requests execute it, interleaved. *)
Definition demo_events : list sys_event :=
  map meanwhile approved_events ++ [demo_execute; demo_execute]
  ++ [worker_step 0 (answered []); worker_step 1 (answered []); worker_step 0 (o_time 1200); worker_step 1 (o_time 1200);
      worker_step 0 (o_create (Ok (mkCreateContext (js "key") demo_inventory true)));
      worker_step 1 (o_create (Ok (mkCreateContext (js "key") demo_inventory true)));
      worker_step 0 (o_time 1200); worker_step 1 (o_time 1200); worker_step 0 (o_time 1200); worker_step 1 (o_time 1200);
      worker_step 0 (answered demo_claim_id); worker_step 1 (answered (id_of (js "08")));
      worker_step 0 (o_time 1300); worker_step 1 (o_time 1300); worker_step 1 (answered []); worker_step 0 (answered []);
      worker_step 1 (o_http (received 503 invalid_body)); worker_step 1 o_done;
      worker_step 1 (o_http not_received)].

(** The second of the two requests was answered with the permission: it creates the branch, is
    refused once and repeats its request; the first only reads. *)
Lemma provider_mutated_at_most_once_witness :
  exists s, demo_system_run demo_system demo_events = Some s
    /\ length (mutations demo_operation (sy_trace s)) = 2%nat /\ length (effective demo_operation (sy_trace s)) = 1%nat
    /\ exists es1 e es2, sy_log s = es1 ++ e :: es2 /\ starts demo_sha256 demo_hmac (demo_run demo_store es1) demo_operation e = true.
Proof.
  assert ((fun s => (length (mutations demo_operation (sy_trace s)), length (effective demo_operation (sy_trace s))))
    <$> demo_system_run demo_system demo_events = Some (2%nat, 1%nat)) as E by (vm_compute; reflexivity).
  destruct (demo_system_run demo_system demo_events) as [s|] eqn:Hs; [|discriminate E]. injection E as H2 H1.
  exists s. split; [reflexivity|]. split; [exact H2|]. split; [exact H1|].
  destruct (provider_mutated_at_most_once str_cmp demo_hex demo_sha256 demo_hmac demo_parse show_Z demo_date no_query
    (fun _ => None) demo_store demo_events s demo_operation demo_empty Hs) as (_ & _ & _ & H).
  apply H. intros Hm. rewrite Hm in H2. discriminate H2.
Defined.
