(* ===== verification/Lifecycle.v ===== *)
(** * The deletion of a workspace

    Models [workspace-cloud/lib/workspace-lifecycle.ts] (scheduling and cancelling a
    deletion, the status an owner sees, the clean-up of what is due),
    [workspace-retention-purge.ts] (the final purge), [d1/member-authority.ts] and
    [authorizeWorkspaceLifecycle] of [workspace-authorization.ts]. Every write is one batch
    of [D1Batch]; the rows are those of [d1/schema/workspace.ts] with their constraints. Of
    the tables that only follow a workspace's deletion, a row is its organization. *)

From S2P Require Import Prelude JsString JsMap JsValue JsSort NeonBranches Access RevocationGate D1Batch OperationRecords.
From Stdlib Require String.
Import Stdlib.Strings.String.StringSyntax.
Local Open Scope Z_scope.

Definition DAY_MS : Z := 24 * 60 * 60 * 1000.
Definition WORKSPACE_DELETION_RETENTION_DAYS : Z := 7.

(** ** Tables *)

Inductive receipt_status := receipt_pending | receipt_cancelled | receipt_purged.
#[export] Instance receipt_status_eq_dec : EqDecision receipt_status.
Proof. solve_decision. Defined.

Record organization_row := mkOrganization { og_id : jsstr; og_name : jsstr }.
Record workspace_row := mkWorkspace {
  w_organization : jsstr; w_state : jsstr; w_receipt : option jsstr; w_requestedAt : option Z; w_purgeAfter : option Z;
  w_revision : Z; w_updatedAt : Z }.
Record receipt_row := mkReceipt {
  rt_id : jsstr; rt_organization : jsstr; rt_requestedBy : option jsstr; rt_requestedAt : Z; rt_purgeAfter : Z;
  rt_status : receipt_status; rt_cancelledAt : option Z; rt_purgedAt : option Z }.
Record web_session_row := mkWebSession { ws_session : session_row; ws_activeOrganization : option jsstr; ws_updatedAt : Z }.
Record backup_row := mkBackup { bk_id : jsstr; bk_organization : jsstr; bk_deletedAt : option Z; bk_purgeAfter : option Z }.
Record rotation_row := mkRotation { ro_organization : jsstr; ro_status : jsstr }.
Record event_row := mkEvent {
  ae_organization : jsstr; ae_actor : option jsstr; ae_action : jsstr; ae_type : jsstr; ae_resource : jsstr;
  ae_summary : value; ae_request : jsstr }.
(** A row of another table that belongs to an organization. *)
Record owned_row := mkOwned { ow_table : jsstr; ow_organization : jsstr }.

Record workspace_db := mkWorkspaceDb {
  organizations : list organization_row; workspaces : list workspace_row; receipts : list receipt_row;
  staff : list member_row; web_sessions : list web_session_row; providers : list integration_row;
  credentials : list lease_row; operations : list operation_row; rotations : list rotation_row;
  backups : list backup_row; owned : list owned_row; audit : list event_row }.

Definition set_receipts (t : list receipt_row) (d : workspace_db) : workspace_db :=
  mkWorkspaceDb (organizations d) (workspaces d) t (staff d) (web_sessions d) (providers d) (credentials d) (operations d)
    (rotations d) (backups d) (owned d) (audit d).
Definition set_workspaces (t : list workspace_row) (d : workspace_db) : workspace_db :=
  mkWorkspaceDb (organizations d) t (receipts d) (staff d) (web_sessions d) (providers d) (credentials d) (operations d)
    (rotations d) (backups d) (owned d) (audit d).
Definition set_staff (t : list member_row) (d : workspace_db) : workspace_db :=
  mkWorkspaceDb (organizations d) (workspaces d) (receipts d) t (web_sessions d) (providers d) (credentials d) (operations d)
    (rotations d) (backups d) (owned d) (audit d).
Definition set_web_sessions (t : list web_session_row) (d : workspace_db) : workspace_db :=
  mkWorkspaceDb (organizations d) (workspaces d) (receipts d) (staff d) t (providers d) (credentials d) (operations d)
    (rotations d) (backups d) (owned d) (audit d).
Definition set_backups (t : list backup_row) (d : workspace_db) : workspace_db :=
  mkWorkspaceDb (organizations d) (workspaces d) (receipts d) (staff d) (web_sessions d) (providers d) (credentials d)
    (operations d) (rotations d) t (owned d) (audit d).
Definition add_audits (t : list event_row) (d : workspace_db) : workspace_db :=
  mkWorkspaceDb (organizations d) (workspaces d) (receipts d) (staff d) (web_sessions d) (providers d) (credentials d)
    (operations d) (rotations d) (backups d) (owned d) (audit d ++ t).

(** An unconditional statement. *)
Definition always (f : workspace_db -> workspace_db) : stmt workspace_db unit := fun d => Some (tt, f d).

(** The CHECKs of a profile. *)
Definition lifecycle_check (w : workspace_row) : bool :=
  ((w_state w ==s js "active") && negb (is_set (w_receipt w)) && negb (is_set (w_requestedAt w)) && negb (is_set (w_purgeAfter w)))
  || ((w_state w ==s js "deletion_pending") && is_set (w_receipt w)
      && match w_requestedAt w, w_purgeAfter w with Some r, Some p => r + DAY_MS <=? p | _, _ => false end).
Definition MAX_REVISION : Z := 9007199254740991.
Definition workspace_checks (w : workspace_row) : bool :=
  (1 <=? w_revision w) && (w_revision w <=? MAX_REVISION) && lifecycle_check w.
(** Those of a receipt. *)
Definition receipt_checks (r : receipt_row) : bool :=
  (rt_requestedAt r + DAY_MS <=? rt_purgeAfter r)
  && match rt_status r with
     | receipt_pending => negb (is_set (rt_cancelledAt r)) && negb (is_set (rt_purgedAt r))
     | receipt_cancelled => is_set (rt_cancelledAt r) && negb (is_set (rt_purgedAt r))
     | receipt_purged => negb (is_set (rt_cancelledAt r)) && is_set (rt_purgedAt r)
     end.
Definition pending_of (org : jsstr) (r : receipt_row) : bool :=
  (rt_organization r ==s org) && bool_decide (rt_status r = receipt_pending).
(** [INSERT INTO workspace_deletion_receipt]: the primary key, and one pending row at most
    for an organization. *)
Definition insert_receipt (r : receipt_row) : stmt workspace_db unit := fun d =>
  if existsb (fun e => (rt_id e ==s rt_id r) || pending_of (rt_organization r) e) (receipts d) || negb (receipt_checks r) then None
  else Some (tt, set_receipts (receipts d ++ [r]) d).
(** [UPDATE workspace_profile]: the CHECK of every changed row. *)
Definition update_workspaces (p : workspace_row -> bool) (f : workspace_row -> workspace_row) : stmt workspace_db unit := fun d =>
  if forallb (fun w => workspace_checks (f w)) (filterb p (workspaces d))
  then Some (tt, set_workspaces (map (fun w => if p w then f w else w) (workspaces d)) d) else None.
Definition update_receipts (p : receipt_row -> bool) (f : receipt_row -> receipt_row) : stmt workspace_db unit := fun d =>
  if forallb (fun r => receipt_checks (f r)) (filterb p (receipts d))
  then Some (tt, set_receipts (map (fun r => if p r then f r else r) (receipts d)) d) else None.

(** ** Authority *)

Record WorkspaceLifecycleAuthority := mkLifecycleAuthority { la_session : jsstr; la_user : jsstr; la_membership : jsstr }.

Definition open_gate_of (m : member_row) : bool :=
  negb (is_set (revocation_pending_at (m_gate m))) && negb (is_set (revocation_claim_id (m_gate m))).
Definition session_of (a : WorkspaceLifecycleAuthority) (utcNow : Z) (s : web_session_row) : bool :=
  (s_id (ws_session s) ==s la_session a) && (s_user (ws_session s) ==s la_user a) && (utcNow <? s_expiresAt (ws_session s)).
(** [workspaceMemberAuthority] returns a row. *)
Definition workspaceMemberAuthority (org : jsstr) (a : WorkspaceLifecycleAuthority) (role : jsstr) (roles : list jsstr)
    (utcNow : Z) (d : workspace_db) : bool :=
  existsb (session_of a utcNow) (web_sessions d)
  && existsb (fun m => (m_user m ==s la_user a) && (m_id m ==s la_membership a) && (m_organization m ==s org)
                       && (m_role m ==s role) && existsb (fun r => m_role m ==s r) roles && open_gate_of m) (staff d)
  && existsb (fun w => (w_organization w ==s org) && (w_state w ==s js "active")) (workspaces d).

(** The join of [authorizeWorkspaceLifecycle], for a member and its workspace. *)
Definition lifecycle_access (m : member_row) (w : workspace_row) : bool :=
  (m_role m ==s js "owner") && negb (is_set (revocation_claim_id (m_gate m)))
  && (((w_state w ==s js "active") && negb (is_set (revocation_pending_at (m_gate m))))
      || ((w_state w ==s js "deletion_pending")
          && match revocation_pending_at (m_gate m), w_requestedAt w with Some p, Some r => p =? r | _, _ => false end)).
(** The state it lets the session's user see. *)
Definition authorizeWorkspaceLifecycle (org user : jsstr) (d : workspace_db) : option jsstr :=
  head (flat_map (fun m =>
    if (m_organization m ==s org) && (m_user m ==s user) then
      map w_state (filterb (fun w => (w_organization w ==s org) && lifecycle_access m w) (workspaces d))
    else []) (staff d)).

(** ** Blockers *)

Definition of_org {R} (organization : R -> jsstr) (org : jsstr) (r : R) : bool := organization r ==s org.
Definition active_integration (org : jsstr) (i : integration_row) : bool :=
  of_org i_organization org i && (negb (is_set (i_revokedAt i)) || negb (i_status i ==s js "revoked")).
Definition active_lease (org : jsstr) (l : lease_row) : bool := of_org l_organization org l && negb (is_set (l_revokedAt l)).
Definition unresolved_operation (org : jsstr) (o : operation_row) : bool :=
  of_org o_organization org o && negb (state_in (o_state o) [succeeded; failed; cancelled]).
Definition running_rotation (org : jsstr) (r : rotation_row) : bool := of_org ro_organization org r && (ro_status r ==s js "running").
Definition claimed_member (org : jsstr) (m : member_row) : bool :=
  of_org m_organization org m && is_set (revocation_claim_id (m_gate m)).
Definition revoked_member (org : jsstr) (m : member_row) : bool := of_org m_organization org m && negb (open_gate_of m).

Definition workspaceDeletionUnblocked (org : jsstr) (d : workspace_db) : bool :=
  negb (existsb (active_integration org) (providers d)) && negb (existsb (active_lease org) (credentials d))
  && negb (existsb (unresolved_operation org) (operations d)) && negb (existsb (running_rotation org) (rotations d))
  && negb (existsb (claimed_member org) (staff d)).

(** *** [workspaceLifecycleStatus] *)

Record LifecycleBlockers := mkBlockers {
  lb_providerIntegrations : nat; lb_credentialLeases : nat; lb_providerOperations : nat; lb_keyRotations : nat;
  lb_memberRevocations : nat }.
Record LifecycleStatus := mkLifecycleStatus {
  lf_workspaceName : jsstr; lf_revision : Z; lf_pending : bool; lf_receipt : option jsstr; lf_requestedAt : option Z;
  lf_purgeAfter : option Z; lf_backupCount : nat; lf_tombstonedBackupCount : nat; lf_blockers : LifecycleBlockers;
  lf_canScheduleDeletion : bool }.
Definition count {R} (p : R -> bool) (t : list R) : nat := length (filterb p t).

Definition blockers_of (org : jsstr) (d : workspace_db) : LifecycleBlockers :=
  mkBlockers (count (active_integration org) (providers d)) (count (active_lease org) (credentials d))
    (count (unresolved_operation org) (operations d)) (count (running_rotation org) (rotations d))
    (count (revoked_member org) (staff d)).
Definition no_blockers (b : LifecycleBlockers) : bool :=
  (lb_providerIntegrations b =? 0)%nat && (lb_credentialLeases b =? 0)%nat && (lb_providerOperations b =? 0)%nat
  && (lb_keyRotations b =? 0)%nat && (lb_memberRevocations b =? 0)%nat.
Definition workspaceLifecycleStatus (org : jsstr) (d : workspace_db) : option LifecycleStatus :=
  w ← findb (of_org w_organization org) (workspaces d);
  o ← findb (of_org og_id org) (organizations d);
  let b := blockers_of org d in
  Some (mkLifecycleStatus (og_name o) (w_revision w) (w_state w ==s js "deletion_pending") (w_receipt w) (w_requestedAt w)
          (w_purgeAfter w)
          (count (fun b => of_org bk_organization org b && negb (is_set (bk_deletedAt b))) (backups d))
          (count (fun b => of_org bk_organization org b && is_set (bk_deletedAt b)) (backups d)) b
          ((w_state w ==s js "active") && no_blockers b)).

(** ** Scheduling *)

Record ScheduleInput := mkSchedule {
  sd_organizationId : jsstr; sd_authority : WorkspaceLifecycleAuthority; sd_requestId : jsstr; sd_confirmation : jsstr }.
(** The receipt that [findFirst] reads before the batch, possibly of an earlier state. *)
Definition existing_receipt (requestId org : jsstr) (d : workspace_db) : option receipt_row :=
  findb (fun r => (rt_id r ==s requestId) && (rt_organization r ==s org)) (receipts d).

Definition schedule_scope (x : ScheduleInput) (utcNow : Z) (d : workspace_db) : list organization_row :=
  let org := sd_organizationId x in
  filterb (fun o => (og_id o ==s org) && (og_name o ==s sd_confirmation x)
    && workspaceMemberAuthority org (sd_authority x) (js "owner") [js "owner"] utcNow d
    && negb (existsb (fun r => rt_id r ==s sd_requestId x) (receipts d))
    && negb (existsb (revoked_member org) (staff d))
    && workspaceDeletionUnblocked org d) (organizations d).

Definition purge_time (requestedAt : Z) : Z := requestedAt + WORKSPACE_DELETION_RETENTION_DAYS * DAY_MS.
Definition scheduled_workspace (x : ScheduleInput) (now utcNow : Z) (w : workspace_row) : workspace_row :=
  mkWorkspace (w_organization w) (js "deletion_pending") (Some (sd_requestId x)) (Some now) (Some (purge_time now))
    (w_revision w + 1) utcNow.
Definition set_pending (at_ : option Z) (m : member_row) : member_row :=
  mkMember (m_id m) (m_organization m) (m_user m) (m_role m)
    (mkGate at_ (revocation_claimed_at (m_gate m)) (revocation_claim_id (m_gate m))).
Definition leave_workspace (org : jsstr) (utcNow : Z) (s : web_session_row) : web_session_row :=
  if sql_eq (ws_activeOrganization s) org then mkWebSession (ws_session s) None utcNow else s.
Definition deletion_event (org : jsstr) (actor : option jsstr) (action : jsstr) (summary : js_record) (request : jsstr) : event_row :=
  mkEvent org actor action (js "workspace") org (VObj summary) request.

Definition schedule_statements (x : ScheduleInput) (now utcNow : Z) (time_text : Z -> jsstr) (matched : option organization_row)
    : stmt workspace_db bool :=
  match matched with
  | None => stmt_ret false
  | Some _ =>
    let org := sd_organizationId x in
    _ <~ insert_receipt (mkReceipt (sd_requestId x) org (Some (la_user (sd_authority x))) now (purge_time now) receipt_pending None None);
    _ <~ update_workspaces (of_org w_organization org) (scheduled_workspace x now utcNow);
    _ <~ always (fun d => set_staff (map (fun m => if of_org m_organization org m then set_pending (Some now) m else m) (staff d)) d);
    _ <~ always (fun d => set_web_sessions (map (leave_workspace org utcNow) (web_sessions d)) d);
    _ <~ always (add_audits [deletion_event org (Some (la_user (sd_authority x))) (js "workspace.deletion.schedule")
                   [(js "purgeAfter", VStr (time_text (purge_time now)))] (sd_requestId x)]);
    stmt_ret true
  end.

Inductive lifecycle_result := lifecycle_done | lifecycle_replayed | lifecycle_refused.

(** [now] is the worker's clock, [utcNow] the database's. *)
Definition scheduleWorkspaceDeletion (time_text : Z -> jsstr) (x : ScheduleInput) (existing : option receipt_row) (now utcNow : Z)
    (d : workspace_db) : outcome lifecycle_result * workspace_db :=
  match existing with
  | Some r => (Ok (if bool_decide (rt_status r = receipt_pending) then lifecycle_replayed else lifecycle_refused), d)
  | None =>
    let (r, d') := atomicD1 (schedule_scope x utcNow) (schedule_statements x now utcNow time_text) d in
    (match r with Ok true => Ok lifecycle_done | Ok false => Ok lifecycle_refused | Throw e => Throw e end, d')
  end.

(** ** Cancelling *)

Record CancelInput := mkCancel { cd_organizationId : jsstr; cd_authority : WorkspaceLifecycleAuthority; cd_requestId : jsstr }.

(** The conditions on the joined rows. *)
Definition cancellable_workspace (x : CancelInput) (utcNow : Z) (w : workspace_row) : bool :=
  (w_organization w ==s cd_organizationId x) && (w_state w ==s js "deletion_pending") && sql_eq (w_receipt w) (cd_requestId x)
  && match w_purgeAfter w with Some t => utcNow <? t | None => false end.
Definition cancellable_receipt (x : CancelInput) (utcNow : Z) (w : workspace_row) (r : receipt_row) : bool :=
  sql_eq (w_receipt w) (rt_id r) && (rt_organization r ==s w_organization w) && bool_decide (rt_status r = receipt_pending)
  && (utcNow <? rt_purgeAfter r).
Definition cancelling_owner (x : CancelInput) (w : workspace_row) (m : member_row) : bool :=
  (m_organization m ==s w_organization w) && (m_id m ==s la_membership (cd_authority x)) && (m_role m ==s js "owner")
  && negb (is_set (revocation_claim_id (m_gate m)))
  && match revocation_pending_at (m_gate m), w_requestedAt w with Some p, Some r => p =? r | _, _ => false end.
Definition cancel_scope (x : CancelInput) (utcNow : Z) (d : workspace_db) : list (option Z) :=
  flat_map (fun w => flat_map (fun r => flat_map (fun m => map (fun _ => w_requestedAt w)
      (filterb (fun s => (s_user (ws_session s) ==s m_user m) && session_of (cd_authority x) utcNow s) (web_sessions d)))
    (filterb (cancelling_owner x w) (staff d)))
   (filterb (cancellable_receipt x utcNow w) (receipts d)))
  (filterb (cancellable_workspace x utcNow) (workspaces d)).

Definition cancelled_receipt (utcNow : Z) (r : receipt_row) : receipt_row :=
  mkReceipt (rt_id r) (rt_organization r) (rt_requestedBy r) (rt_requestedAt r) (rt_purgeAfter r) receipt_cancelled (Some utcNow)
    (rt_purgedAt r).
Definition restored_workspace (utcNow : Z) (w : workspace_row) : workspace_row :=
  mkWorkspace (w_organization w) (js "active") None None None (w_revision w + 1) utcNow.
(** The gates that the scheduling closed. *)
Definition suspended_at (org : jsstr) (requestedAt : option Z) (m : member_row) : bool :=
  of_org m_organization org m && negb (is_set (revocation_claim_id (m_gate m)))
  && match revocation_pending_at (m_gate m), requestedAt with Some p, Some r => p =? r | _, _ => false end.
Definition return_to_workspace (x : CancelInput) (utcNow : Z) (s : web_session_row) : web_session_row :=
  if (s_id (ws_session s) ==s la_session (cd_authority x)) && (s_user (ws_session s) ==s la_user (cd_authority x))
  then mkWebSession (ws_session s) (Some (cd_organizationId x)) utcNow else s.

Definition cancel_statements (x : CancelInput) (utcNow : Z) (fresh : jsstr) (matched : option (option Z)) : stmt workspace_db bool :=
  match matched with
  | None => stmt_ret false
  | Some requestedAt =>
    let org := cd_organizationId x in
    _ <~ update_receipts (fun r => rt_id r ==s cd_requestId x) (cancelled_receipt utcNow);
    _ <~ update_workspaces (of_org w_organization org) (restored_workspace utcNow);
    _ <~ always (fun d => set_staff (map (fun m => if suspended_at org requestedAt m then set_pending None m else m) (staff d)) d);
    _ <~ always (fun d => set_web_sessions (map (return_to_workspace x utcNow) (web_sessions d)) d);
    _ <~ always (add_audits [deletion_event org (Some (la_user (cd_authority x))) (js "workspace.deletion.cancel") [] fresh]);
    stmt_ret true
  end.

Definition cancelWorkspaceDeletion (x : CancelInput) (existing : option receipt_row) (utcNow : Z) (fresh : jsstr)
    (d : workspace_db) : outcome lifecycle_result * workspace_db :=
  match (rt_status <$> existing) with
  | Some receipt_cancelled => (Ok lifecycle_replayed, d)
  | Some receipt_pending =>
    let (r, d') := atomicD1 (cancel_scope x utcNow) (cancel_statements x utcNow fresh) d in
    (match r with Ok true => Ok lifecycle_done | Ok false => Ok lifecycle_refused | Throw e => Throw e end, d')
  | _ => (Ok lifecycle_refused, d)
  end.

(** ** The purge *)

Definition evidenceTables : list jsstr := [
  js "workspace_analysis_publication"; js "workspace_analysis_article_query_receipt"; js "workspace_analysis_article_run";
  js "workspace_analysis_article_revision"; js "workspace_analysis_article"; js "workspace_analysis_runner";
  js "workspace_metadata_backup"; js "workspace_data_key_rotation"; js "workspace_data_key";
  js "workspace_resource_conflict_resolution"; js "workspace_resource_conflict"; js "workspace_resource_version";
  js "workspace_provider_import_request"; js "knowledge_source"; js "workspace_connection"].

Definition purgeable_workspace (org receiptId : jsstr) (utcNow : Z) (w : workspace_row) : bool :=
  (w_organization w ==s org) && sql_eq (w_receipt w) receiptId && (w_state w ==s js "deletion_pending")
  && match w_purgeAfter w with Some t => t <=? utcNow | None => false end.
Definition purgeable_receipt (utcNow : Z) (w : workspace_row) (r : receipt_row) : bool :=
  sql_eq (w_receipt w) (rt_id r) && (rt_organization r ==s w_organization w) && bool_decide (rt_status r = receipt_pending)
  && (rt_purgeAfter r <=? utcNow).
Definition purge_scope (org receiptId : jsstr) (utcNow : Z) (d : workspace_db) : list receipt_row :=
  if workspaceDeletionUnblocked org d then
    flat_map (fun w => filterb (purgeable_receipt utcNow w) (receipts d)) (filterb (purgeable_workspace org receiptId utcNow) (workspaces d))
  else [].

Definition purged_receipt (utcNow : Z) (r : receipt_row) : receipt_row :=
  mkReceipt (rt_id r) (rt_organization r) (rt_requestedBy r) (rt_requestedAt r) (rt_purgeAfter r) receipt_purged (rt_cancelledAt r)
    (Some utcNow).
Definition not_of {R} (organization : R -> jsstr) (org : jsstr) (t : list R) : list R :=
  filterb (fun r => negb (organization r ==s org)) t.
(** [DELETE FROM table WHERE organization_id = org]; two of these tables have rows of their own here. *)
Definition delete_evidence (org table : jsstr) (d : workspace_db) : workspace_db :=
  mkWorkspaceDb (organizations d) (workspaces d) (receipts d) (staff d) (web_sessions d) (providers d) (credentials d) (operations d)
    (if table ==s js "workspace_data_key_rotation" then not_of ro_organization org (rotations d) else rotations d)
    (if table ==s js "workspace_metadata_backup" then not_of bk_organization org (backups d) else backups d)
    (filterb (fun r => negb ((ow_table r ==s table) && (ow_organization r ==s org))) (owned d)) (audit d).
(** [DELETE FROM organization], whose rows are referenced ON DELETE CASCADE, the session's
    active organization ON DELETE SET NULL. *)
Definition delete_organization (org : jsstr) (d : workspace_db) : workspace_db :=
  mkWorkspaceDb (not_of og_id org (organizations d)) (not_of w_organization org (workspaces d)) (receipts d)
    (not_of m_organization org (staff d))
    (map (fun s => if sql_eq (ws_activeOrganization s) org then mkWebSession (ws_session s) None (ws_updatedAt s) else s) (web_sessions d))
    (not_of i_organization org (providers d)) (not_of l_organization org (credentials d)) (not_of o_organization org (operations d))
    (not_of ro_organization org (rotations d)) (not_of bk_organization org (backups d)) (not_of ow_organization org (owned d))
    (not_of ae_organization org (audit d)).

Definition purge_statements (org receiptId : jsstr) (utcNow : Z) (matched : option receipt_row) : stmt workspace_db bool :=
  match matched with
  | None => stmt_ret false
  | Some _ =>
    _ <~ update_receipts (fun r => (rt_id r ==s receiptId) && (rt_organization r ==s org)) (purged_receipt utcNow);
    _ <~ always (fun d => foldl (fun d t => delete_evidence org t d) d evidenceTables);
    fun d => Some (existsb (of_org og_id org) (organizations d), delete_organization org d)
  end.
Definition purgeDueWorkspace (org receiptId : jsstr) (utcNow : Z) (d : workspace_db) : outcome bool * workspace_db :=
  atomicD1 (purge_scope org receiptId utcNow) (purge_statements org receiptId utcNow) d.

(** ** The clean-up *)

(** [Math.max(1, Math.min(limit ?? default, most))] *)
Definition bounded_limit (limit : option Z) (preset most : Z) : nat := Z.to_nat (Z.max 1 (Z.min (default preset limit) most)).
Definition due_backup (utcNow : Z) (b : backup_row) : bool :=
  is_set (bk_deletedAt b) && match bk_purgeAfter b with Some t => t <=? utcNow | None => false end.
(** [ORDER BY time, id] *)
Definition time_order {R} (time : R -> Z) (id : R -> jsstr) (a b : R) : Z :=
  if time a <? time b then -1 else if time b <? time a then 1 else str_cmp (id a) (id b).
Definition due_backups (limit : nat) (utcNow : Z) (d : workspace_db) : list backup_row :=
  take limit (sort_by (time_order (fun b => default 0 (bk_purgeAfter b)) bk_id) (filterb (due_backup utcNow) (backups d))).
(** [fresh] gives the request identifiers of the audit rows. *)
Definition purge_backups (limit : nat) (utcNow : Z) (fresh : nat -> jsstr) (d : workspace_db) : nat * workspace_db :=
  let due := due_backups limit utcNow d in
  let listed b := existsb (fun b' => bk_id b' ==s bk_id b) due in
  (count listed (backups d),
   add_audits (imap (fun i b => mkEvent (bk_organization b) None (js "workspace.backup.purge") (js "workspace_backup") (bk_id b)
                                  (VObj []) (fresh i)) due)
     (set_backups (filterb (fun b => negb (listed b)) (backups d)) d)).

Definition due_workspaces (limit : nat) (utcNow : Z) (d : workspace_db) : list (jsstr * jsstr) :=
  let due := flat_map (fun w => map (fun r => (w, r))
    (filterb (fun r => purgeable_receipt utcNow w r && (w_state w ==s js "deletion_pending")
                       && match w_purgeAfter w with Some t => t <=? utcNow | None => false end) (receipts d))) (workspaces d) in
  map (fun wr => (w_organization (fst wr), rt_id (snd wr)))
    (take limit (sort_by (time_order (fun wr => default 0 (w_purgeAfter (fst wr))) (fun wr => w_organization (fst wr))) due)).

(** The loop over the due workspaces, each at its own time. *)
Fixpoint purge_rows (rows : list (jsstr * jsstr)) (clock : nat -> Z) (d : workspace_db) : outcome nat * workspace_db :=
  match rows with
  | [] => (Ok 0%nat, d)
  | (org, receiptId) :: rows =>
    match purgeDueWorkspace org receiptId (clock 0%nat) d with
    | (Ok purged, d') =>
      let (r, d'') := purge_rows rows (fun i => clock (S i)) d' in
      (match r with Ok n => Ok ((if purged then 1 else 0) + n)%nat | Throw e => Throw e end, d'')
    | (Throw e, d') => (Throw e, d')
    end
  end.
Record RetentionResult := mkRetention { rn_backupsPurged : nat; rn_workspacesPurged : nat; rn_workspacesDeferred : nat }.
Definition cleanupWorkspaceRetention (backupLimit workspaceLimit : option Z) (clock : nat -> Z) (fresh : nat -> jsstr)
    (d : workspace_db) : outcome RetentionResult * workspace_db :=
  let (n, d') := purge_backups (bounded_limit backupLimit 25 100) (clock 0%nat) fresh d in
  let due := due_workspaces (bounded_limit workspaceLimit 1 5) (clock 1%nat) d' in
  let (r, d'') := purge_rows due (fun i => clock (2 + i)%nat) d' in
  (match r with Ok purged => Ok (mkRetention n purged (length due - purged)) | Throw e => Throw e end, d'').

(** ** What the commands do *)

Definition new_receipt (x : ScheduleInput) (now : Z) : receipt_row :=
  mkReceipt (sd_requestId x) (sd_organizationId x) (Some (la_user (sd_authority x))) now (purge_time now) receipt_pending None None.
(** The tables after a scheduling. *)
Definition scheduled_db (time_text : Z -> jsstr) (x : ScheduleInput) (now utcNow : Z) (d : workspace_db) : workspace_db :=
  let org := sd_organizationId x in
  add_audits [deletion_event org (Some (la_user (sd_authority x))) (js "workspace.deletion.schedule")
                [(js "purgeAfter", VStr (time_text (purge_time now)))] (sd_requestId x)]
    (set_web_sessions (map (leave_workspace org utcNow) (web_sessions d))
      (set_staff (map (fun m => if of_org m_organization org m then set_pending (Some now) m else m) (staff d))
        (set_workspaces (map (fun w => if of_org w_organization org w then scheduled_workspace x now utcNow w else w) (workspaces d))
          (set_receipts (receipts d ++ [new_receipt x now]) d)))).
(** After a cancellation. *)
Definition cancelled_db (x : CancelInput) (requestedAt : option Z) (utcNow : Z) (fresh : jsstr) (d : workspace_db) : workspace_db :=
  let org := cd_organizationId x in
  add_audits [deletion_event org (Some (la_user (cd_authority x))) (js "workspace.deletion.cancel") [] fresh]
    (set_web_sessions (map (return_to_workspace x utcNow) (web_sessions d))
      (set_staff (map (fun m => if suspended_at org requestedAt m then set_pending None m else m) (staff d))
        (set_workspaces (map (fun w => if of_org w_organization org w then restored_workspace utcNow w else w) (workspaces d))
          (set_receipts (map (fun r => if rt_id r ==s cd_requestId x then cancelled_receipt utcNow r else r) (receipts d)) d)))).
(** After a purge. *)
Definition without_evidence (org : jsstr) (d : workspace_db) : workspace_db :=
  foldl (fun d t => delete_evidence org t d) d evidenceTables.
Definition purged_db (org receiptId : jsstr) (utcNow : Z) (d : workspace_db) : workspace_db :=
  delete_organization org (without_evidence org
    (set_receipts (map (fun r => if (rt_id r ==s receiptId) && (rt_organization r ==s org) then purged_receipt utcNow r else r)
                     (receipts d)) d)).

(** What holds when a scheduling took effect. *)
Record schedulable (x : ScheduleInput) (now utcNow : Z) (d : workspace_db) : Prop := {
  sb_organization : exists o, o ∈ organizations d /\ og_id o = sd_organizationId x /\ og_name o = sd_confirmation x;
  sb_owner : workspaceMemberAuthority (sd_organizationId x) (sd_authority x) (js "owner") [js "owner"] utcNow d = true;
  sb_fresh : existsb (fun e => (rt_id e ==s sd_requestId x) || pending_of (sd_organizationId x) e) (receipts d) = false;
  sb_gates : existsb (revoked_member (sd_organizationId x)) (staff d) = false;
  sb_unblocked : workspaceDeletionUnblocked (sd_organizationId x) d = true }.

Lemma purge_time_late now : (now + DAY_MS <=? purge_time now) = true.
Proof. apply Z.leb_le. unfold purge_time, WORKSPACE_DELETION_RETENTION_DAYS, DAY_MS. lia. Qed.

Lemma schedule_effect time_text x existing now utcNow d r d' :
  scheduleWorkspaceDeletion time_text x existing now utcNow d = (r, d') ->
  d' = d \/ r = Ok lifecycle_done /\ d' = scheduled_db time_text x now utcNow d /\ schedulable x now utcNow d.
Proof.
  unfold scheduleWorkspaceDeletion. destruct existing as [e|]; [intros [= _ <-]; by left|].
  destruct (atomicD1 _ _ d) as [[b|e] d1] eqn:E.
  { intros [= <- <-]. apply atomicD1_ok in E as [[_ E]|(o & Ho & E)]; [injection E as _ <-; by left|].
    right. cbn [schedule_statements] in E. unfold stmt_bind, insert_receipt, always in E.
    destruct (existsb _ _ || _) eqn:Ei; [done|]. unfold update_workspaces in E. destruct (forallb _ _) eqn:Ew; [|done].
    injection E as <- <-. split; [done|]. split; [done|].
    assert (o ∈ schedule_scope x utcNow d) as Hin by (rewrite Ho; by left).
    apply filterb_elem in Hin as [Hc Hin]. apply orb_false_iff in Ei as [Ei _]. bools. cbn in Ei.
    by split; [exists o|..]. }
  intros [= _ <-]. left. pose proof (atomicD1_throw (schedule_scope x utcNow) (schedule_statements x now utcNow time_text) d e) as H.
  rewrite E in H. by apply H.
Qed.

Lemma schedule_done time_text x existing now utcNow d d' :
  scheduleWorkspaceDeletion time_text x existing now utcNow d = (Ok lifecycle_done, d') ->
  d' = scheduled_db time_text x now utcNow d /\ schedulable x now utcNow d.
Proof.
  intros E. pose proof E as [->|(_ & -> & Hs)]%schedule_effect; [|done]. exfalso.
  unfold scheduleWorkspaceDeletion in E. destruct existing as [e|]; [by case_match|].
  destruct (atomicD1 _ _ d) as [[[]|] d1] eqn:Ea; try done. injection E as ->.
  apply atomicD1_ok in Ea as [[_ Ea]|(o & Ho & Ea)]; [done|]. cbn [schedule_statements] in Ea.
  unfold stmt_bind, insert_receipt, always in Ea. destruct (existsb _ _ || _); [done|]. unfold update_workspaces in Ea.
  destruct (forallb _ _); [|done]. injection Ea as Ea. apply (f_equal receipts), (f_equal length) in Ea.
  cbn in Ea. rewrite length_app in Ea. cbn in Ea. lia.
Qed.

(** The rows that a cancellation takes together. *)
Record cancellable_rows (x : CancelInput) (utcNow : Z) (d : workspace_db) (w : workspace_row) (r : receipt_row) (m : member_row) : Prop := {
  cb_workspace : w ∈ workspaces d /\ cancellable_workspace x utcNow w = true;
  cb_receipt : r ∈ receipts d /\ cancellable_receipt x utcNow w r = true;
  cb_owner : m ∈ staff d /\ cancelling_owner x w m = true;
  cb_session : exists s, s ∈ web_sessions d /\ s_user (ws_session s) = m_user m /\ session_of (cd_authority x) utcNow s = true }.

Lemma cancel_scope_elem x utcNow d requestedAt :
  requestedAt ∈ cancel_scope x utcNow d <-> exists w r m, cancellable_rows x utcNow d w r m /\ requestedAt = w_requestedAt w.
Proof.
  unfold cancel_scope. rewrite elem_of_flat_map. split.
  - intros (w & [Hw Hwd]%filterb_elem & (r & [Hr Hrd]%filterb_elem & (m & [Hm Hmd]%filterb_elem & (s & -> & [Hs Hsd]%filterb_elem)%list_elem_of_fmap)%elem_of_flat_map)%elem_of_flat_map).
    exists w, r, m. split; [|done]. bools. split; [done..|]. by exists s.
  - intros (w & r & m & [[Hw Hwd] [Hr Hrd] [Hm Hmd] (s & Hs & Hu & Hsd)] & ->).
    exists w. split; [by apply filterb_elem|]. apply elem_of_flat_map. exists r. split; [by apply filterb_elem|].
    apply elem_of_flat_map. exists m. split; [by apply filterb_elem|]. apply list_elem_of_fmap. exists s. split; [done|].
    apply filterb_elem. split; [|done]. rewrite Hsd, andb_true_r. by apply bool_decide_eq_true.
Qed.

Lemma cancellation_effect x existing utcNow fresh d r d' :
  cancelWorkspaceDeletion x existing utcNow fresh d = (r, d') ->
  d' = d \/ r = Ok lifecycle_done /\ exists w e m, cancellable_rows x utcNow d w e m /\ d' = cancelled_db x (w_requestedAt w) utcNow fresh d.
Proof.
  unfold cancelWorkspaceDeletion. destruct (rt_status <$> existing) as [[]|]; try (intros [= _ <-]; by left).
  destruct (atomicD1 _ _ d) as [[b|e] d1] eqn:E.
  { intros [= <- <-]. apply atomicD1_ok in E as [[_ E]|(at_ & Ho & E)]; [injection E as _ <-; by left|].
    right. assert (at_ ∈ cancel_scope x utcNow d) as (w & e & m & Hc & ->)%cancel_scope_elem by (rewrite Ho; by left).
    cbn [cancel_statements] in E. unfold stmt_bind, update_receipts, update_workspaces, always in E.
    destruct (forallb _ _); [|done]. cbn in E. destruct (forallb _ _); [|done].
    injection E as <- <-. split; [done|]. by exists w, e, m. }
  intros [= _ <-]. left. pose proof (atomicD1_throw (cancel_scope x utcNow) (cancel_statements x utcNow fresh) d e) as H.
  rewrite E in H. by apply H.
Qed.

Record purgeable (org receiptId : jsstr) (utcNow : Z) (d : workspace_db) (w : workspace_row) (r : receipt_row) : Prop := {
  pb_workspace : w ∈ workspaces d /\ purgeable_workspace org receiptId utcNow w = true;
  pb_receipt : r ∈ receipts d /\ purgeable_receipt utcNow w r = true;
  pb_unblocked : workspaceDeletionUnblocked org d = true }.

Lemma purge_effect org receiptId utcNow d b d' :
  purgeDueWorkspace org receiptId utcNow d = (b, d') ->
  d' = d /\ b <> Ok true \/ d' = purged_db org receiptId utcNow d /\ exists w r, purgeable org receiptId utcNow d w r.
Proof.
  unfold purgeDueWorkspace. destruct b as [b|e]; intros E.
  2: { left. pose proof (atomicD1_throw (purge_scope org receiptId utcNow) (purge_statements org receiptId utcNow) d e) as H.
       rewrite E in H. cbn in H. by rewrite (H eq_refl). }
  apply atomicD1_ok in E as [[_ E]|(r & Ho & E)]; [injection E as <- <-; by left|]. right.
  cbn [purge_statements] in E. unfold stmt_bind, update_receipts, always in E. destruct (forallb _ _); [|done].
  injection E as _ <-. split; [done|].
  assert (r ∈ purge_scope org receiptId utcNow d) as H by (rewrite Ho; by left). unfold purge_scope in H.
  destruct (workspaceDeletionUnblocked org d) eqn:Eu; [|by apply elem_of_nil in H].
  apply elem_of_flat_map in H as (w & [Hw Hwd]%filterb_elem & [Hr Hrd]%filterb_elem). by exists w, r.
Qed.

(** ** All workspaces over time *)

(** The other writes: a workspace is founded, a user is deleted (ON DELETE SET NULL), and
    everything but receipts and the lifecycle of workspaces changes in any way. *)
Inductive lifecycle_event :=
| le_schedule (x : ScheduleInput) (existing : option receipt_row) (now utcNow : Z)
| le_cancel (x : CancelInput) (existing : option receipt_row) (utcNow : Z) (fresh : jsstr)
| le_purge (org receiptId : jsstr) (utcNow : Z)
| le_backups (most : nat) (utcNow : Z) (fresh : nat -> jsstr)
| le_found (org : jsstr) (utcNow : Z)
| le_forget (user : jsstr)
| le_other (o : list organization_row) (m : list member_row) (s : list web_session_row) (i : list integration_row)
    (l : list lease_row) (p : list operation_row) (r : list rotation_row) (b : list backup_row) (w : list owned_row)
    (a : list event_row) (revision : jsstr -> Z).

Definition revised (revision : jsstr -> Z) (w : workspace_row) : workspace_row :=
  mkWorkspace (w_organization w) (w_state w) (w_receipt w) (w_requestedAt w) (w_purgeAfter w) (revision (w_organization w))
    (w_updatedAt w).
Definition with_requester (user : option jsstr) (r : receipt_row) : receipt_row :=
  mkReceipt (rt_id r) (rt_organization r) user (rt_requestedAt r) (rt_purgeAfter r) (rt_status r) (rt_cancelledAt r) (rt_purgedAt r).
Definition forgotten (user : jsstr) (r : receipt_row) : receipt_row :=
  if sql_eq (rt_requestedBy r) user then with_requester None r else r.
Definition founded (org : jsstr) (utcNow : Z) : workspace_row := mkWorkspace org (js "active") None None None 1 utcNow.

Section time.
Context (time_text : Z -> jsstr).

Definition lrun1 (d : workspace_db) (e : lifecycle_event) : workspace_db :=
  match e with
  | le_schedule x existing now utcNow => snd (scheduleWorkspaceDeletion time_text x existing now utcNow d)
  | le_cancel x existing utcNow fresh => snd (cancelWorkspaceDeletion x existing utcNow fresh d)
  | le_purge org receiptId utcNow => snd (purgeDueWorkspace org receiptId utcNow d)
  | le_backups most utcNow fresh => snd (purge_backups most utcNow fresh d)
  | le_found org utcNow =>
    if existsb (of_org w_organization org) (workspaces d) then d else set_workspaces (workspaces d ++ [founded org utcNow]) d
  | le_forget user => set_receipts (map (forgotten user) (receipts d)) d
  | le_other o m s i l p r b w a revision => mkWorkspaceDb o (map (revised revision) (workspaces d)) (receipts d) m s i l p r b w a
  end.
Definition lrun (d : workspace_db) (es : list lifecycle_event) : workspace_db := foldl lrun1 d es.

(** A receipt that its workspace names with its times. *)
Definition pending_for (w : workspace_row) (r : receipt_row) : Prop :=
  rt_organization r = w_organization w /\ w_receipt w = Some (rt_id r) /\ rt_status r = receipt_pending
  /\ w_requestedAt w = Some (rt_requestedAt r) /\ w_purgeAfter w = Some (rt_purgeAfter r).
Record lifecycle_ok (d : workspace_db) : Prop := {
  lk_workspaces : NoDup (map w_organization (workspaces d));
  lk_receipts : NoDup (map rt_id (receipts d));
  lk_receipt : forall r, r ∈ receipts d -> receipt_checks r = true /\ rt_purgeAfter r = purge_time (rt_requestedAt r);
  lk_workspace : forall w, w ∈ workspaces d -> lifecycle_check w = true
    /\ forall id, w_receipt w = Some id -> exists r, r ∈ receipts d /\ pending_for w r;
  lk_pending : forall r, r ∈ receipts d -> rt_status r = receipt_pending -> exists w, w ∈ workspaces d /\ pending_for w r }.

(** Nothing has been scheduled yet. *)
Definition all_active (d : workspace_db) : Prop :=
  receipts d = [] /\ NoDup (map w_organization (workspaces d))
  /\ forall w, w ∈ workspaces d -> lifecycle_check w = true /\ w_receipt w = None.

Lemma all_active_ok d : all_active d -> lifecycle_ok d.
Proof.
  intros (Hr & Hn & Hw). split; [done|rewrite Hr; constructor| |intros w H; destruct (Hw w H) as [? E]; split; [done|by rewrite E]|];
    intros r H; rewrite Hr in H; by apply elem_of_nil in H.
Qed.

Lemma active_no_receipt w : lifecycle_check w = true -> w_state w = js "active" -> w_receipt w = None.
Proof.
  unfold lifecycle_check. intros H E. rewrite E in H. destruct (w_receipt w); [|done].
  by rewrite ?andb_false_r, ?andb_false_l in H.
Qed.
Lemma no_receipt_active w : lifecycle_check w = true -> w_receipt w = None -> w_state w = js "active".
Proof.
  unfold lifecycle_check. intros H E. rewrite E in H. cbn in H. rewrite andb_false_r, orb_false_r in H. by bools.
Qed.

Lemma schedule_ok x now utcNow d :
  lifecycle_ok d -> schedulable x now utcNow d -> lifecycle_ok (scheduled_db time_text x now utcNow d).
Proof.
  intros [Hnw Hnr Hr Hw Hp] [_ Howner Hfresh _ _]. rewrite existsb_none in Hfresh.
  assert (forall r, r ∈ receipts d -> rt_id r <> sd_requestId x /\ (rt_organization r = sd_organizationId x -> rt_status r <> receipt_pending))
    as Hf.
  { intros r Hin. specialize (Hfresh r Hin). apply orb_false_iff in Hfresh as [H1 H2]. split; [by apply bool_decide_eq_false in H1|].
    intros Ho Hs. unfold pending_of in H2. by rewrite Ho, Hs, !bool_decide_true in H2. }
  apply andb_true_iff in Howner as [_ Hact]. apply existsb_elem in Hact as (w0 & Hw0 & Hc). bools.
  split; cbn.
  - by rewrite map_if_key.
  - rewrite map_app. apply NoDup_app. split; [done|]. split; [|apply NoDup_singleton].
    intros id (r & -> & Hin)%list_elem_of_fmap E%list_elem_of_singleton. by destruct (Hf r Hin) as [? _].
  - intros r [Hin| ->%list_elem_of_singleton]%elem_of_app; [by apply Hr|]. split; [|done]. unfold receipt_checks. cbn.
    by rewrite purge_time_late.
  - intros w' (w & Hin & ->)%elem_of_map_if. destruct (of_org w_organization _ w) eqn:Eo.
    + split; [unfold lifecycle_check; cbn; by rewrite purge_time_late|]. intros id _. exists (new_receipt x now).
      split; [by apply elem_of_app; right; left|]. unfold of_org in Eo. by bools.
    + destruct (Hw w Hin) as [Hc' He]. split; [done|]. intros id Hid. destruct (He id Hid) as (r & Hrin & Hpf).
      exists r. split; [by apply elem_of_app; left|done].
  - intros r [Hin| ->%list_elem_of_singleton]%elem_of_app Hs.
    + destruct (Hp r Hin Hs) as (w & Hwin & Hpf). exists w. split; [|done]. apply elem_of_map_if. exists w. split; [done|].
      destruct (of_org w_organization _ w) eqn:Eo; [|done]. unfold of_org in Eo. bools. destruct Hpf as [Ho _].
      exfalso. apply (proj2 (Hf r Hin)); [congruence|done].
    + exists (scheduled_workspace x now utcNow w0). split; [|done]. apply elem_of_map_if. exists w0. split; [done|].
      unfold of_org. by rewrite bool_decide_true.
Qed.

(** Where a receipt and its workspace meet. *)
Lemma same_receipt d w r r' :
  lifecycle_ok d -> w ∈ workspaces d -> r ∈ receipts d -> w_receipt w = Some (rt_id r) ->
  r' ∈ receipts d -> rt_id r' = rt_id r -> r' = r /\ pending_for w r.
Proof.
  intros H Hw Hr Hid Hr' E. assert (r' = r) as -> by (by eapply key_unique; [apply (lk_receipts d H)|..]). split; [done|].
  destruct (proj2 (lk_workspace d H w Hw) _ Hid) as (r1 & Hr1 & Hp). destruct Hp as (Ho & Hid' & Hrest).
  rewrite Hid in Hid'. injection Hid' as Hid'.
  assert (r1 = r) as -> by (by eapply key_unique; [apply (lk_receipts d H)|..]). by split.
Qed.
(** One settled receipt, and its workspace restored or gone. *)
Lemma settle_ok d ws (settle : receipt_row -> receipt_row) (p : receipt_row -> bool) w0 r0 :
  lifecycle_ok d -> w0 ∈ workspaces d -> r0 ∈ receipts d -> pending_for w0 r0 ->
  (forall r, r ∈ receipts d -> p r = true <-> rt_id r = rt_id r0) ->
  (forall r, rt_id (settle r) = rt_id r) -> receipt_checks (settle r0) = true -> rt_status (settle r0) <> receipt_pending ->
  rt_purgeAfter (settle r0) = purge_time (rt_requestedAt (settle r0)) ->
  NoDup (map w_organization ws) ->
  (forall w, w ∈ ws -> w_organization w <> w_organization w0 /\ w ∈ workspaces d
                       \/ lifecycle_check w = true /\ w_receipt w = None) ->
  (forall w, w ∈ workspaces d -> w_organization w <> w_organization w0 -> w ∈ ws) ->
  forall d', workspaces d' = ws -> receipts d' = map (fun r => if p r then settle r else r) (receipts d) -> lifecycle_ok d'.
Proof.
  intros H Hw0 Hr0 Hp0 Hp Hid Hchk Hst Hpurge Hn Hws Hkeep d' Ew Er.
  assert (forall r, r ∈ receipts d -> rt_id r = rt_id r0 -> r = r0) as Huniq.
  { intros r Hr E. by eapply key_unique; [apply (lk_receipts d H)|..]. }
  split; rewrite ?Ew, ?Er.
  - done.
  - rewrite map_if_key by done. apply H.
  - intros r' (r & Hr & ->)%elem_of_map_if. destruct (p r) eqn:E; [|by apply H].
    apply Hp in E; [|done]. by rewrite (Huniq r Hr E).
  - intros w Hw. destruct (Hws w Hw) as [[Hne Hwd]|[Hc Hnone]]; [|split; [done|by rewrite Hnone]].
    destruct (lk_workspace d H w Hwd) as [Hc He]. split; [done|]. intros id Hi. destruct (He id Hi) as (r & Hr & Hpf).
    exists r. split; [|done]. apply elem_of_map_if. exists r. split; [done|]. destruct (p r) eqn:E; [|done].
    apply Hp in E; [|done]. rewrite (Huniq r Hr E) in Hpf. destruct Hpf as [Ho _], Hp0 as [Ho' _]. congruence.
  - intros r' (r & Hr & ->)%elem_of_map_if Hs. destruct (p r) eqn:E.
    + apply Hp in E; [|done]. by rewrite (Huniq r Hr E) in Hs.
    + destruct (lk_pending d H r Hr Hs) as (w & Hw & Hpf). exists w. split; [|done]. apply Hkeep; [done|]. intros Eo.
      assert (w = w0) as -> by (by eapply key_unique; [apply (lk_workspaces d H)|..]).
      destruct Hpf as (_ & Hi & _), Hp0 as (_ & Hi' & _). rewrite Hi in Hi'. injection Hi' as Hi'.
      by rewrite (proj2 (Hp r Hr) Hi') in E.
Qed.

Lemma cancellable_pending x utcNow d w r m :
  lifecycle_ok d -> cancellable_rows x utcNow d w r m ->
  pending_for w r /\ rt_id r = cd_requestId x /\ w_organization w = cd_organizationId x /\ utcNow < rt_purgeAfter r.
Proof.
  intros H [[Hw Hc] [Hr Hc'] _ _]. unfold cancellable_workspace, cancellable_receipt, sql_eq in *. bools.
  assert (pending_for w r) as Hp by (by eapply same_receipt). split; [done|]. destruct Hp as (_ & Hi & _). split; [congruence|]. split; [done|]. by apply Z.ltb_lt.
Qed.
Lemma purgeable_pending org receiptId utcNow d w r :
  lifecycle_ok d -> purgeable org receiptId utcNow d w r ->
  pending_for w r /\ rt_id r = receiptId /\ w_organization w = org /\ rt_purgeAfter r <= utcNow.
Proof.
  intros H [[Hw Hc] [Hr Hc'] _]. unfold purgeable_workspace, purgeable_receipt, sql_eq in *. bools.
  assert (pending_for w r) as Hp by (by eapply same_receipt). split; [done|]. destruct Hp as (_ & Hi & _). split; [congruence|]. split; [done|]. by apply Z.leb_le.
Qed.

Lemma cancel_ok x utcNow fresh d w r m :
  lifecycle_ok d -> cancellable_rows x utcNow d w r m -> lifecycle_ok (cancelled_db x (w_requestedAt w) utcNow fresh d).
Proof.
  intros H Hc. destruct (cancellable_pending _ _ _ _ _ _ H Hc) as (Hp & Hid & Ho & _). destruct Hc as [[Hw _] [Hr _] _ _].
  destruct (lk_receipt d H r Hr) as [Hchk Hpurge]. pose proof Hp as (_ & _ & Hs & _).
  eapply (settle_ok d (map (fun w => if of_org w_organization (cd_organizationId x) w then restored_workspace utcNow w else w) (workspaces d))
    (cancelled_receipt utcNow) (fun r => rt_id r ==s cd_requestId x) w r); try done.
  - intros r' _. rewrite Hid. apply bool_decide_eq_true.
  - unfold receipt_checks in *. cbn. rewrite Hs in Hchk. apply andb_true_iff in Hchk as [-> Hc].
    by destruct (rt_cancelledAt r), (rt_purgedAt r).
  - rewrite map_if_key by done. apply H.
  - intros w' (w1 & Hw1 & ->)%elem_of_map_if. unfold of_org. case_match eqn:E; bools; [by right|left]. split; [congruence|done].
  - intros w1 Hw1 Hne. apply elem_of_map_if. exists w1. split; [done|]. unfold of_org. by rewrite bool_decide_false by congruence.
Qed.

Lemma evidence_keeps org d :
  receipts (without_evidence org d) = receipts d /\ workspaces (without_evidence org d) = workspaces d.
Proof. done. Qed.
Lemma purge_ok org receiptId utcNow d w r :
  lifecycle_ok d -> purgeable org receiptId utcNow d w r -> lifecycle_ok (purged_db org receiptId utcNow d).
Proof.
  intros H Hc. destruct (purgeable_pending _ _ _ _ _ _ H Hc) as (Hp & Hid & Ho & _). destruct Hc as [[Hw _] [Hr _] _].
  destruct (lk_receipt d H r Hr) as [Hchk Hpurge]. pose proof Hp as (Hro & _ & Hs & _).
  eapply (settle_ok d (not_of w_organization org (workspaces d)) (purged_receipt utcNow)
    (fun r => (rt_id r ==s receiptId) && (rt_organization r ==s org)) w r); try done.
  - intros r' Hr'. rewrite andb_true_iff, !bool_decide_eq_true, <- Hid. split; [by intros [? _]|]. intros E. split; [done|].
    rewrite (key_unique rt_id (receipts d) r' r (lk_receipts d H) Hr' Hr E). congruence.
  - unfold receipt_checks in *. cbn. rewrite Hs in Hchk. apply andb_true_iff in Hchk as [-> Hc].
    by destruct (rt_cancelledAt r), (rt_purgedAt r).
  - apply NoDup_filterb_fmap, H.
  - intros w' [E Hin]%filterb_elem. left. bools. split; [congruence|done].
  - intros w' Hin Hne. apply filterb_elem. split; [|done]. by rewrite bool_decide_false by congruence.
Qed.

Lemma forgotten_eq user r : forgotten user r = with_requester (rt_requestedBy (forgotten user r)) r.
Proof. unfold forgotten. case_match; by destruct r. Qed.
Lemma forget_ok user d : lifecycle_ok d -> lifecycle_ok (set_receipts (map (forgotten user) (receipts d)) d).
Proof.
  intros [Hn Hr Hc Hw Hp].
  assert (forall w r, pending_for w r -> pending_for w (forgotten user r)) as Hpf by (intros w r; by rewrite forgotten_eq).
  split; cbn.
  - done.
  - rewrite map_map. erewrite map_ext; [exact Hr|]. intros r. by rewrite forgotten_eq.
  - intros r' (r & -> & Hin)%list_elem_of_fmap. rewrite forgotten_eq. exact (Hc r Hin).
  - intros w Hin. destruct (Hw w Hin) as [? He]. split; [done|]. intros id Hid. destruct (He id Hid) as (r & Hrin & Hr').
    exists (forgotten user r). split; [by apply list_elem_of_fmap_2|by apply Hpf].
  - intros r' (r & -> & Hin)%list_elem_of_fmap Hs. rewrite forgotten_eq in Hs. destruct (Hp r Hin Hs) as (w & Hwin & Hw').
    exists w. split; [done|by apply Hpf].
Qed.
Lemma lrun1_ok d e : lifecycle_ok d -> lifecycle_ok (lrun1 d e).
Proof.
  intros H. destruct e as [x existing now utcNow|x existing utcNow fresh|org receiptId utcNow|most utcNow fresh|org utcNow|user|o m s i l p r b ow a revision]; cbn [lrun1].
  - destruct (scheduleWorkspaceDeletion _ _ _ _ _ _) as [r d'] eqn:E. cbn.
    apply schedule_effect in E as [->|(_ & -> & Hs)]; [done|by apply schedule_ok].
  - destruct (cancelWorkspaceDeletion _ _ _ _ _) as [r d'] eqn:E. cbn.
    apply cancellation_effect in E as [->|(_ & w & r' & m & Hc & ->)]; [done|by eapply cancel_ok].
  - destruct (purgeDueWorkspace _ _ _ _) as [r d'] eqn:E. cbn.
    apply purge_effect in E as [[-> _]|[-> (w & r' & Hc)]]; [done|by eapply purge_ok].
  - by destruct H.
  - destruct (existsb _ _) eqn:E; [done|]. rewrite existsb_none in E. destruct H as [Hn Hr Hc Hw Hp]. split; cbn; [|done|done| |].
    + rewrite map_app. apply NoDup_app. split; [done|]. split; [|apply NoDup_singleton].
      intros o (w & -> & Hin)%list_elem_of_fmap Ho%list_elem_of_singleton. specialize (E w Hin). unfold of_org in E.
      by rewrite Ho, bool_decide_true in E.
    + intros w [Hin| ->%list_elem_of_singleton]%elem_of_app; [by apply Hw|by split].
    + intros r Hin Hs. destruct (Hp r Hin Hs) as (w & Hwin & Hpf). exists w. split; [|done]. apply elem_of_app. by left.
  - by apply forget_ok.
  - destruct H as [Hn Hr Hc Hw Hp]. split; cbn; [|done|done| |].
    + by rewrite map_map.
    + intros w' (w & -> & Hin)%list_elem_of_fmap. by apply (Hw w).
    + intros r' Hin Hs. destruct (Hp r' Hin Hs) as (w & Hwin & Hpf). exists (revised revision w). split; [|done].
      by apply list_elem_of_fmap_2.
Qed.
Lemma lrun_ok d es : all_active d -> lifecycle_ok (lrun d es).
Proof.
  intros H%all_active_ok. revert d H. induction es as [|e es IH]; intros d H; [done|]. apply IH. by apply lrun1_ok.
Qed.

(** ** What deletion guarantees *)

(** C16: a workspace with a pending deletion is closed to everybody: in any state that schedulings,
    cancellations, purges and any other writes lead to, no session of no member has authority
    over it; it names its one pending receipt, which falls due seven days after the request. *)
Theorem pending_workspace_is_closed d es r :
  all_active d -> r ∈ receipts (lrun d es) -> rt_status r = receipt_pending ->
  (forall a role roles utcNow, workspaceMemberAuthority (rt_organization r) a role roles utcNow (lrun d es) = false)
  /\ (exists w, w ∈ workspaces (lrun d es) /\ w_state w = js "deletion_pending" /\ pending_for w r)
  /\ rt_purgeAfter r = rt_requestedAt r + 7 * DAY_MS
  /\ forall r', r' ∈ receipts (lrun d es) -> rt_status r' = receipt_pending -> rt_organization r' = rt_organization r -> r' = r.
Proof.
  intros Ha Hr Hs. pose proof (lrun_ok d es Ha) as H. set (d' := lrun d es) in *. clearbody d'. clear Ha.
  destruct (lk_pending d' H r Hr Hs) as (w & Hw & Hp). pose proof Hp as (Ho & Hid & _).
  split; [|split; [exists w; split; [done|split; [|done]]|split]].
  - intros a role roles utcNow. apply not_true_iff_false. intros [_ Hact]%andb_true_iff.
    apply existsb_elem in Hact as (w' & Hw' & Hc). bools.
    assert (w' = w) as -> by (eapply key_unique; [apply (lk_workspaces d' H)|done|done|congruence]).
    assert (w_receipt w = None) as E; [|congruence]. apply active_no_receipt; [|done]. by apply (lk_workspace d' H).
  - destruct (lk_workspace d' H w Hw) as [Hc _]. unfold lifecycle_check in Hc. rewrite Hid in Hc.
    apply orb_true_iff in Hc as [Hc|Hc]; [|by bools]. by rewrite andb_false_r in Hc.
  - by rewrite (proj2 (lk_receipt d' H r Hr)).
  - intros r' Hr' Hs' Ho'. destruct (lk_pending d' H r' Hr' Hs') as (w' & Hw' & (Ho1 & Hid1 & _)).
    assert (w' = w) as -> by (eapply key_unique; [apply (lk_workspaces d' H)|done|done|congruence]).
    eapply key_unique; [apply (lk_receipts d' H)|done|done|congruence].
Qed.

(** The receipt that was requested, whatever became of it; a deleted user is not named. *)
Definition same_deletion (r r' : receipt_row) : Prop :=
  rt_id r' = rt_id r /\ rt_organization r' = rt_organization r
  /\ (rt_requestedBy r' = rt_requestedBy r \/ rt_requestedBy r' = None)
  /\ rt_requestedAt r' = rt_requestedAt r /\ rt_purgeAfter r' = rt_purgeAfter r.
Definition receipt_kept (r : receipt_row) (d : workspace_db) : Prop :=
  exists r', r' ∈ receipts d /\ same_deletion r r'
             /\ (rt_status r <> receipt_pending -> r' = with_requester (rt_requestedBy r') r).

Lemma with_requester_same r : r = with_requester (rt_requestedBy r) r.
Proof. by destruct r. Qed.
Lemma receipt_stays r d : r ∈ receipts d -> receipt_kept r d.
Proof.
  intros H. exists r. split; [done|]. split; [|intros _; apply with_requester_same]. unfold same_deletion. tauto.
Qed.
Lemma forgotten_stays user r d : r ∈ receipts d -> receipt_kept r (set_receipts (map (forgotten user) (receipts d)) d).
Proof.
  intros H. exists (forgotten user r). split; [by apply list_elem_of_fmap_2|].
  split; [unfold forgotten; case_match; unfold same_deletion; cbn; tauto|]. intros _. apply forgotten_eq.
Qed.
Lemma settled_kept d d' (p : receipt_row -> bool) settle r r0 :
  (forall r, r ∈ receipts d -> p r = true -> r = r0) -> rt_status r0 = receipt_pending ->
  (forall r, same_deletion r (settle r)) -> receipts d' = map (fun r => if p r then settle r else r) (receipts d) ->
  r ∈ receipts d -> receipt_kept r d'.
Proof.
  intros Hp Hs Hsame E Hr. exists (if p r then settle r else r). split.
  { rewrite E. apply elem_of_map_if. by exists r. }
  destruct (p r) eqn:Ep; [|split; [unfold same_deletion; tauto|intros _; apply with_requester_same]]. split; [done|].
  intros Hn. by rewrite (Hp r Hr Ep) in Hn.
Qed.
Lemma lrun1_kept d e r : lifecycle_ok d -> r ∈ receipts d -> receipt_kept r (lrun1 d e).
Proof.
  intros H Hr. assert (forall d', receipts d' = receipts d -> receipt_kept r d') as Hsame.
  { intros d' E. apply receipt_stays. by rewrite E. }
  destruct e as [x existing now utcNow|x existing utcNow fresh|org receiptId utcNow|most utcNow fresh|org utcNow|user|]; cbn [lrun1].
  - destruct (scheduleWorkspaceDeletion _ _ _ _ _ _) as [b d'] eqn:E. cbn.
    apply schedule_effect in E as [->|(_ & -> & _)]; [by apply Hsame|]. apply receipt_stays. by apply elem_of_app; left.
  - destruct (cancelWorkspaceDeletion _ _ _ _ _) as [b d'] eqn:E. cbn.
    apply cancellation_effect in E as [->|(_ & w & r0 & m & Hc & ->)]; [by apply Hsame|].
    destruct (cancellable_pending _ _ _ _ _ _ H Hc) as ((_ & _ & Hs & _) & Hid & _). destruct Hc as [_ [Hr0 _] _ _].
    eapply (settled_kept d _ (fun r => rt_id r ==s cd_requestId x) (cancelled_receipt utcNow) r r0); try done.
    2: by intros r1; unfold same_deletion; cbn; tauto.
    intros r1 Hr1 E. bools. eapply key_unique; [apply (lk_receipts d H)|done|done|congruence].
  - destruct (purgeDueWorkspace _ _ _ _) as [b d'] eqn:E. cbn.
    apply purge_effect in E as [[-> _]|[-> (w & r0 & Hc)]]; [by apply Hsame|].
    destruct (purgeable_pending _ _ _ _ _ _ H Hc) as ((_ & _ & Hs & _) & Hid & _). destruct Hc as [_ [Hr0 _] _].
    eapply (settled_kept d _ (fun r => (rt_id r ==s receiptId) && (rt_organization r ==s org)) (purged_receipt utcNow) r r0); try done.
    2: by intros r1; unfold same_deletion; cbn; tauto.
    intros r1 Hr1 E. bools. eapply key_unique; [apply (lk_receipts d H)|done|done|congruence].
  - by apply Hsame.
  - destruct (existsb _ _); by apply Hsame.
  - by apply forgotten_stays.
  - by apply Hsame.
Qed.

(** a deletion request is never forgotten and is settled once: in every later state its receipt
    is there with the same request, and a receipt that was cancelled or purged never changes; only
    the name of a requester whose account is deleted is lost. *)
Theorem receipts_are_final d es es' r :
  all_active d -> r ∈ receipts (lrun d es) -> receipt_kept r (lrun (lrun d es) es').
Proof.
  intros Ha Hr. pose proof (lrun_ok d es Ha) as H. revert H Hr. generalize (lrun d es) as d1. clear Ha.
  assert (forall d1, receipt_kept r d1 -> lifecycle_ok d1 -> receipt_kept r (lrun d1 es')) as Hgen.
  { induction es' as [|e es' IH]; intros d1 Hk H; [done|]. cbn. apply IH; [|by apply lrun1_ok].
    destruct Hk as (r1 & Hr1 & Hs1 & Hf1). destruct (lrun1_kept d1 e r1 H Hr1) as (r2 & Hr2 & Hs2 & Hf2).
    exists r2. split; [done|]. split.
    - destruct Hs1 as (? & ? & ? & ? & ?), Hs2 as (? & ? & Hu & ? & ?). repeat split; try congruence. destruct Hu as [->|Hu]; [done|by right].
    - intros Hn. specialize (Hf1 Hn). rewrite Hf1 in Hf2. exact (Hf2 Hn). }
  intros d1 H Hr. apply Hgen; [|done]. by apply receipt_stays.
Qed.

(** *** The purge *)

(** No table has a row of the organization, and no session has it open. *)
Definition holds_nothing (org : jsstr) (d : workspace_db) : Prop :=
  existsb (of_org og_id org) (organizations d) = false /\ existsb (of_org w_organization org) (workspaces d) = false
  /\ existsb (of_org m_organization org) (staff d) = false /\ existsb (of_org i_organization org) (providers d) = false
  /\ existsb (of_org l_organization org) (credentials d) = false /\ existsb (of_org o_organization org) (operations d) = false
  /\ existsb (of_org ro_organization org) (rotations d) = false /\ existsb (of_org bk_organization org) (backups d) = false
  /\ existsb (of_org ow_organization org) (owned d) = false /\ existsb (of_org ae_organization org) (audit d) = false
  /\ existsb (fun s => sql_eq (ws_activeOrganization s) org) (web_sessions d) = false.
(** The rows of every other organization are as they were. *)
Definition others_kept (org : jsstr) (d d' : workspace_db) : Prop :=
  not_of og_id org (organizations d') = not_of og_id org (organizations d)
  /\ not_of w_organization org (workspaces d') = not_of w_organization org (workspaces d)
  /\ not_of m_organization org (staff d') = not_of m_organization org (staff d)
  /\ not_of i_organization org (providers d') = not_of i_organization org (providers d)
  /\ not_of l_organization org (credentials d') = not_of l_organization org (credentials d)
  /\ not_of o_organization org (operations d') = not_of o_organization org (operations d)
  /\ not_of ro_organization org (rotations d') = not_of ro_organization org (rotations d)
  /\ not_of bk_organization org (backups d') = not_of bk_organization org (backups d)
  /\ not_of ow_organization org (owned d') = not_of ow_organization org (owned d)
  /\ not_of ae_organization org (audit d') = not_of ae_organization org (audit d)
  /\ map ws_session (web_sessions d') = map ws_session (web_sessions d)
  /\ not_of rt_organization org (receipts d') = not_of rt_organization org (receipts d).

Lemma not_of_none {R} (organization : R -> jsstr) org t : existsb (of_org organization org) (not_of organization org t) = false.
Proof. apply existsb_none. intros r [Hr _]%filterb_elem. unfold of_org. by apply negb_true_iff in Hr. Qed.
(** Removing some rows of the organization first changes nothing. *)
Lemma not_of_filter {R} (organization : R -> jsstr) org (p : R -> bool) t :
  (forall r, p r = false -> organization r = org) -> not_of organization org (filterb p t) = not_of organization org t.
Proof.
  intros Hp. unfold not_of. induction t as [|r t IH]; cbn; [done|]. destruct (p r) eqn:E; cbn.
  - case_match; [by f_equal|exact IH].
  - rewrite (Hp r E), bool_decide_true by done. exact IH.
Qed.
Lemma not_of_twice {R} (organization : R -> jsstr) org t : not_of organization org (not_of organization org t) = not_of organization org t.
Proof. apply not_of_filter. intros r H. apply negb_false_iff in H. by bools. Qed.
Lemma not_of_settled org (p : receipt_row -> bool) settle l :
  (forall r, p r = true -> rt_organization r = org /\ rt_organization (settle r) = org) ->
  not_of rt_organization org (map (fun r => if p r then settle r else r) l) = not_of rt_organization org l.
Proof.
  intros Hp. unfold not_of. induction l as [|r l IH]; cbn; [done|]. destruct (p r) eqn:E; cbn.
  - destruct (Hp r E) as [-> ->]. rewrite bool_decide_true by done. exact IH.
  - case_match; [by f_equal|exact IH].
Qed.
Lemma evidence_others org table d :
  not_of ro_organization org (rotations (delete_evidence org table d)) = not_of ro_organization org (rotations d)
  /\ not_of bk_organization org (backups (delete_evidence org table d)) = not_of bk_organization org (backups d)
  /\ not_of ow_organization org (owned (delete_evidence org table d)) = not_of ow_organization org (owned d).
Proof.
  cbn. split; [|split].
  - destruct (table ==s _); [apply not_of_twice|done].
  - destruct (table ==s _); [apply not_of_twice|done].
  - apply not_of_filter. intros r H. apply negb_false_iff in H. by bools.
Qed.
Lemma without_evidence_others org d :
  not_of ro_organization org (rotations (without_evidence org d)) = not_of ro_organization org (rotations d)
  /\ not_of bk_organization org (backups (without_evidence org d)) = not_of bk_organization org (backups d)
  /\ not_of ow_organization org (owned (without_evidence org d)) = not_of ow_organization org (owned d).
Proof.
  unfold without_evidence. generalize evidenceTables as l. intros l. revert d. induction l as [|t l IH]; intros d; [done|].
  cbn [foldl]. destruct (IH (delete_evidence org t d)) as (-> & -> & ->). apply evidence_others.
Qed.

(** C17: a purge happens only when the deletion was requested at least seven days ago, is still
    pending and nothing blocks it; then nothing of the workspace is left but its receipt, which
    says that it was purged, and the rows of all other workspaces are as they were. *)
Theorem purge_is_due_and_complete d es org receiptId utcNow d' :
  all_active d -> purgeDueWorkspace org receiptId utcNow (lrun d es) = (Ok true, d') ->
  (exists r, r ∈ receipts (lrun d es) /\ rt_id r = receiptId /\ rt_organization r = org /\ rt_status r = receipt_pending
             /\ rt_requestedAt r + 7 * DAY_MS <= utcNow /\ purged_receipt utcNow r ∈ receipts d')
  /\ workspaceDeletionUnblocked org (lrun d es) = true /\ holds_nothing org d' /\ others_kept org (lrun d es) d'.
Proof.
  intros Ha E. pose proof (lrun_ok d es Ha) as H. set (d1 := lrun d es) in *. clearbody d1. clear Ha.
  apply purge_effect in E as [[_ E]|[-> (w & r & Hc)]]; [done|].
  destruct (purgeable_pending _ _ _ _ _ _ H Hc) as ((Ho & _ & Hs & _) & Hid & Horg & Hdue). destruct Hc as [_ [Hr _] Hu].
  split; [exists r; split; [done|]; split; [done|]; split; [congruence|]; split; [done|]; split|].
  - rewrite (proj2 (lk_receipt d1 H r Hr)) in Hdue. exact Hdue.
  - apply (elem_of_map_if (fun r => (rt_id r ==s receiptId) && (rt_organization r ==s org))). exists r. split; [done|].
    by rewrite Hid, Ho, Horg, !bool_decide_true.
  - split; [done|]. unfold purged_db. set (d2 := set_receipts _ d1).
    destruct (without_evidence_others org d2) as (E1 & E2 & E3). split.
    + repeat split; try apply not_of_none. cbn. apply existsb_none. intros s (s0 & -> & _)%list_elem_of_fmap.
      destruct (sql_eq (ws_activeOrganization s0) org) eqn:Ea; [done|exact Ea].
    + repeat split; try apply not_of_twice.
      * etrans; [apply (not_of_twice ro_organization org (rotations (without_evidence org d2)))|exact E1].
      * etrans; [apply (not_of_twice bk_organization org (backups (without_evidence org d2)))|exact E2].
      * etrans; [apply (not_of_twice ow_organization org (owned (without_evidence org d2)))|exact E3].
      * cbn. rewrite map_map. apply map_ext. intros s. by case_match.
      * apply (not_of_settled org _ (purged_receipt utcNow)). intros r' Ep. apply andb_true_iff in Ep as [_ Ep]. by bools.
Qed.

(** *** Taking a deletion back *)

(** The primary keys that a cancellation joins. *)
Definition unique_people (d : workspace_db) : Prop :=
  NoDup (map m_id (staff d)) /\ NoDup (map (fun s => s_id (ws_session s)) (web_sessions d)).
(** The workspace as after two changes of its lifecycle. *)
Definition twice_changed (org : jsstr) (utcNow : Z) (w : workspace_row) : workspace_row :=
  if of_org w_organization org w
  then mkWorkspace (w_organization w) (w_state w) (w_receipt w) (w_requestedAt w) (w_purgeAfter w) (w_revision w + 2) utcNow else w.
(** As before, with the cancelled receipt and the two audit rows. *)
Record taken_back (x : ScheduleInput) (now utcNow : Z) (d d' : workspace_db) : Prop := {
  tb_members : staff d' = staff d;
  tb_workspaces : workspaces d' = map (twice_changed (sd_organizationId x) utcNow) (workspaces d);
  tb_receipts : receipts d' = receipts d ++ [cancelled_receipt utcNow (new_receipt x now)];
  tb_sessions : map ws_session (web_sessions d') = map ws_session (web_sessions d);
  tb_organizations : organizations d' = organizations d;
  tb_rest : providers d' = providers d /\ credentials d' = credentials d /\ operations d' = operations d
            /\ rotations d' = rotations d /\ backups d' = backups d /\ owned d' = owned d }.

Lemma leave_session org utcNow s : ws_session (leave_workspace org utcNow s) = ws_session s.
Proof. unfold leave_workspace. by case_match. Qed.
Lemma return_session x utcNow s : ws_session (return_to_workspace x utcNow s) = ws_session s.
Proof. unfold return_to_workspace. by case_match. Qed.

(** A member whose gate is open gets it back as it was. *)
Lemma reopened org now m :
  revoked_member org m = false ->
  (let m' := if of_org m_organization org m then set_pending (Some now) m else m in
   if suspended_at org (Some now) m' then set_pending None m' else m') = m.
Proof.
  unfold revoked_member, suspended_at. cbn. destruct (of_org m_organization org m) eqn:Eo; cbn.
  - unfold open_gate_of. intros H. apply negb_false_iff, andb_true_iff in H as [H1 H2].
    unfold of_org in *. cbn. rewrite Eo, H2, Z.eqb_refl. cbn. destruct m as [i o u r [p c k]]. cbn in *. by destruct p.
  - unfold of_org in *. by rewrite Eo.
Qed.

Section restore.
Context (x : ScheduleInput) (now utcNow utcLater : Z) (d : workspace_db) (fresh : jsstr).
Context (Hok : lifecycle_ok d) (Hkeys : unique_people d) (Hs : schedulable x now utcNow d) (Hlater : utcLater < purge_time now).
Context (Hsession : existsb (session_of (sd_authority x) utcLater) (web_sessions d) = true).
Notation org := (sd_organizationId x).
Notation cancel := (mkCancel org (sd_authority x) (sd_requestId x)).
Notation d2 := (scheduled_db time_text x now utcNow d).

Lemma active_workspace : exists w, w ∈ workspaces d /\ w_organization w = org /\ w_state w = js "active".
Proof.
  destruct Hs as [_ Ho _ _ _]. apply andb_true_iff in Ho as [_ H]. apply existsb_elem in H as (w & Hw & H). bools. by exists w.
Qed.
Lemma scheduling_owner :
  exists m, m ∈ staff d /\ m_user m = la_user (sd_authority x) /\ m_id m = la_membership (sd_authority x)
    /\ m_organization m = org /\ m_role m = js "owner" /\ open_gate_of m = true.
Proof.
  destruct Hs as [_ Ho _ _ _]. apply andb_true_iff in Ho as [[_ H]%andb_true_iff _]. apply existsb_elem in H as (m & Hm & H).
  bools. by exists m.
Qed.

Lemma cancel_scope_one : cancel_scope cancel utcLater d2 = [Some now].
Proof.
  pose proof (schedule_ok x now utcNow d Hok Hs) as Hok2. destruct active_workspace as (w & Hw & Ho & _).
  destruct scheduling_owner as (m & Hm & Hu & Hid & Hmo & Hrole & Hgate).
  apply existsb_elem in Hsession as (s & Hin & Hsess). unfold session_of in Hsess. bools.
  assert (scheduled_workspace x now utcNow w ∈ workspaces d2) as Hw2.
  { apply elem_of_map_if. exists w. split; [done|]. unfold of_org. by rewrite Ho, bool_decide_true. }
  assert (new_receipt x now ∈ receipts d2) as Hr2 by (apply elem_of_app; right; by left).
  assert (set_pending (Some now) m ∈ staff d2) as Hm2.
  { apply elem_of_map_if. exists m. split; [done|]. unfold of_org. by rewrite Hmo, bool_decide_true. }
  unfold cancel_scope.
  rewrite (filterb_unique w_organization _ _ (scheduled_workspace x now utcNow w)); [|apply Hok2|done|].
  2: { intros w' Hw'. unfold cancellable_workspace. cbn. rewrite Ho. split; [by intros; bools|]. intros E.
       assert (w' = scheduled_workspace x now utcNow w) as ->.
       { eapply key_unique; [apply (lk_workspaces _ Hok2)|done|done|]. cbn. congruence. }
       cbn. rewrite Ho. unfold sql_eq. rewrite !bool_decide_true by done. by apply Z.ltb_lt. }
  cbn [flat_map]. rewrite app_nil_r.
  rewrite (filterb_unique rt_id _ _ (new_receipt x now)); [|apply Hok2|done|].
  2: { intros r' Hr'. unfold cancellable_receipt. cbn -[d2]. split.
       - intros Hcut. unfold sql_eq in Hcut. bools. congruence.
       - intros E. assert (r' = new_receipt x now) as -> by (by eapply key_unique; [apply (lk_receipts _ Hok2)|..]).
         cbn. unfold sql_eq. rewrite Ho, !bool_decide_true by done. by apply Z.ltb_lt. }
  cbn [flat_map]. rewrite app_nil_r.
  rewrite (filterb_unique m_id _ _ (set_pending (Some now) m)); [|cbn; rewrite map_if_key by done; apply Hkeys|done|].
  2: { intros m' Hm'. unfold cancelling_owner. cbn -[d2]. split.
       - intros Hcut. bools. congruence.
       - intros E. assert (m' = set_pending (Some now) m) as ->.
         { eapply (key_unique m_id); [|exact Hm'|exact Hm2|exact E]. cbn. rewrite map_if_key by done. apply Hkeys. }
         cbn. rewrite Ho, Hid, Hrole, Hmo, !bool_decide_true by done. cbn. rewrite Z.eqb_refl.
         unfold open_gate_of in Hgate. bools. by destruct (revocation_claim_id (m_gate m)). }
  cbn [flat_map]. rewrite app_nil_r.
  rewrite (filterb_unique (fun s => s_id (ws_session s)) _ _ (leave_workspace org utcNow s)).
  - done.
  - cbn. rewrite map_map. erewrite map_ext; [apply Hkeys|]. intros s'. cbn. by rewrite leave_session.
  - cbn. by apply list_elem_of_fmap_2.
  - intros s' Hs'. cbn in Hs'. apply list_elem_of_fmap in Hs' as (s0 & -> & Hs0). rewrite !leave_session. unfold session_of.
    rewrite !leave_session. cbn. split; [intros Hcut; bools; congruence|]. intros E.
    assert (s0 = s) as -> by (by eapply (key_unique (fun s => s_id (ws_session s))); [apply Hkeys|..]).
    rewrite !andb_true_iff, !bool_decide_eq_true. split_and!; congruence.
Qed.


(** What the second batch writes is what the first one had changed. *)
Lemma gates_back :
  map (fun m => if suspended_at org (Some now) m then set_pending None m else m)
    (map (fun m => if of_org m_organization org m then set_pending (Some now) m else m) (staff d)) = staff d.
Proof.
  destruct Hs as [_ _ _ Hg _]. rewrite existsb_none in Hg. rewrite map_map. rewrite <- (map_id (staff d)) at 2.
  apply map_ext_in. intros m Hm. apply reopened. apply Hg. by apply list_elem_of_In.
Qed.
Lemma receipts_back :
  map (fun r => if rt_id r ==s sd_requestId x then cancelled_receipt utcLater r else r) (receipts d ++ [new_receipt x now])
  = receipts d ++ [cancelled_receipt utcLater (new_receipt x now)].
Proof.
  destruct Hs as [_ _ Hf _ _]. rewrite existsb_none in Hf. rewrite map_app. cbn. rewrite bool_decide_true by done. f_equal.
  rewrite <- (map_id (receipts d)) at 2. apply map_ext_in. intros r Hr%list_elem_of_In. specialize (Hf r Hr).
  apply orb_false_iff in Hf as [Hf _]. by rewrite Hf.
Qed.
Lemma workspaces_back :
  map (fun w => if of_org w_organization org w then restored_workspace utcLater w else w)
    (map (fun w => if of_org w_organization org w then scheduled_workspace x now utcNow w else w) (workspaces d))
  = map (twice_changed org utcLater) (workspaces d).
Proof.
  rewrite map_map. apply map_ext_in. intros w Hw%list_elem_of_In. unfold twice_changed. destruct (of_org w_organization org w) eqn:E.
  - unfold of_org in *. cbn. rewrite E. destruct active_workspace as (w1 & Hw1 & Ho & Ha). bools.
    assert (w = w1) as -> by (eapply key_unique; [apply (lk_workspaces _ Hok)|done|done|congruence]).
    destruct (lk_workspace _ Hok w1 Hw1) as [Hc _]. unfold lifecycle_check in Hc. rewrite Ha in Hc.
    unfold restored_workspace, scheduled_workspace. cbn. replace (w_revision w1 + 1 + 1) with (w_revision w1 + 2) by lia.
    cbn in Hc. rewrite orb_false_r in Hc. bools. rewrite Ha. by destruct (w_receipt w1), (w_requestedAt w1), (w_purgeAfter w1).
  - by rewrite E.
Qed.

Lemma cancelled_back : taken_back x now utcLater d (cancelled_db cancel (Some now) utcLater fresh d2).
Proof.
  split; cbn.
  - apply gates_back.
  - apply workspaces_back.
  - apply receipts_back.
  - rewrite !map_map. apply map_ext. intros s. by rewrite return_session, leave_session.
  - done.
  - by repeat split.
Qed.
Context (Hrevision : forall w, w ∈ workspaces d -> w_organization w = org -> 1 <= w_revision w <= MAX_REVISION - 2).
Lemma restored_workspaces_check :
  forallb (fun w => workspace_checks (restored_workspace utcLater w)) (filterb (of_org w_organization org)
    (map (fun w => if of_org w_organization org w then scheduled_workspace x now utcNow w else w) (workspaces d))) = true.
Proof.
  apply forallb_elem. intros w' [Ho (w & Hw & ->)%elem_of_map_if]%filterb_elem. unfold workspace_checks.
  case_match eqn:E; [|congruence]. unfold of_org in E. bools. cbn. specialize (Hrevision w Hw ltac:(done)).
  rewrite !andb_true_iff, !Z.leb_le. split; [lia|done].
Qed.
Lemma restored_checks :
  forallb (fun r => receipt_checks (cancelled_receipt utcLater r)) (filterb (fun r => rt_id r ==s sd_requestId x) (receipts d2)) = true.
Proof.
  apply forallb_forall. intros r Hr%list_elem_of_In. apply filterb_elem in Hr as [Hid Hr]. bools.
  pose proof (schedule_ok x now utcNow d Hok Hs) as Hok2.
  assert (r = new_receipt x now) as ->.
  { eapply key_unique; [apply (lk_receipts _ Hok2)|done|apply elem_of_app; right; by left|done]. }
  unfold receipt_checks. cbn. by rewrite purge_time_late.
Qed.
Lemma cancel_again :
  cancelWorkspaceDeletion cancel (Some (new_receipt x now)) utcLater fresh d2 = (Ok lifecycle_done, cancelled_db cancel (Some now) utcLater fresh d2).
Proof.
  unfold cancelWorkspaceDeletion. cbn [fmap option_fmap option_map rt_status new_receipt]. unfold atomicD1. rewrite cancel_scope_one.
  cbn [head cancel_statements cd_organizationId cd_requestId cd_authority]. unfold stmt_bind at 1. unfold update_receipts at 1. rewrite restored_checks.
  unfold stmt_bind, always, update_workspaces, stmt_ret. cbn [workspaces scheduled_db add_audits set_web_sessions set_staff set_workspaces set_receipts].
  rewrite restored_workspaces_check. done.
Qed.
Lemma receipt_found : existing_receipt (sd_requestId x) org d2 = Some (new_receipt x now).
Proof.
  destruct Hs as [_ _ Hf _ _]. rewrite existsb_none in Hf. unfold existing_receipt. cbn.
  induction (receipts d) as [|r l IH]; cbn; [by rewrite !bool_decide_true|].
  destruct (orb_false_elim _ _ (Hf r ltac:(by left))) as [Hr _]. cbn in Hr. rewrite Hr. cbn. apply IH. intros r' Hr'. apply Hf. by right.
Qed.
End restore.

(** C18: cancelling undoes scheduling: the owner who scheduled the deletion of a workspace, with the
    same session still live and before the purge is due, can take it back (two revisions must be
    left); then every member's
    gate is as it was before, the workspace is active again with its fields as they were but the
    revision, the receipt remains as cancelled, and of the other tables only the audit trail and
    the workspaces that sessions have open have changed. *)
Theorem cancel_restores d es x existing now utcNow d2 utcLater fresh :
  all_active d -> unique_people (lrun d es) ->
  scheduleWorkspaceDeletion time_text x existing now utcNow (lrun d es) = (Ok lifecycle_done, d2) ->
  existsb (session_of (sd_authority x) utcLater) (web_sessions (lrun d es)) = true -> utcLater < purge_time now ->
  (forall w, w ∈ workspaces (lrun d es) -> w_organization w = sd_organizationId x -> 1 <= w_revision w <= MAX_REVISION - 2) ->
  exists d3,
    cancelWorkspaceDeletion (mkCancel (sd_organizationId x) (sd_authority x) (sd_requestId x))
      (existing_receipt (sd_requestId x) (sd_organizationId x) d2) utcLater fresh d2 = (Ok lifecycle_done, d3)
    /\ taken_back x now utcLater (lrun d es) d3.
Proof.
  intros Ha Hk E Hsess Hl Hrev. pose proof (lrun_ok d es Ha) as Hok. apply schedule_done in E as [-> Hs].
  rewrite receipt_found by done. eexists. split; [by apply cancel_again|by apply cancelled_back].
Qed.

(** *** What the status promises *)

Lemma count_zero {R} (p : R -> bool) t : (count p t =? 0)%nat = negb (existsb p t).
Proof. unfold count. induction t as [|r t IH]; cbn; [done|]. by destruct (p r). Qed.
Lemma claimed_revoked org t : existsb (revoked_member org) t = false -> existsb (claimed_member org) t = false.
Proof.
  rewrite !existsb_none. intros H m Hm. specialize (H m Hm). unfold revoked_member, claimed_member, open_gate_of in *.
  destruct (of_org _ _ m), (is_set (revocation_claim_id (m_gate m))), (is_set (revocation_pending_at (m_gate m))); done.
Qed.
(** The counts that are shown are the conditions that the batch tests. *)
Lemma no_blockers_unblocked org d :
  no_blockers (blockers_of org d) = negb (existsb (revoked_member org) (staff d)) && workspaceDeletionUnblocked org d.
Proof.
  unfold no_blockers, workspaceDeletionUnblocked. cbn. rewrite !count_zero. pose proof (claimed_revoked org (staff d)) as H.
  destruct (existsb (revoked_member org) (staff d)); [by rewrite !andb_false_r|]. rewrite H by done. by rewrite !andb_true_r.
Qed.

(** A live session of an owner whom [authorizeWorkspaceLifecycle] admits. *)
Record admitted (x : ScheduleInput) (utcNow : Z) (d : workspace_db) (m : member_row) (w : workspace_row) : Prop := {
  ad_session : existsb (session_of (sd_authority x) utcNow) (web_sessions d) = true;
  ad_member : m ∈ staff d /\ m_user m = la_user (sd_authority x) /\ m_id m = la_membership (sd_authority x)
              /\ m_organization m = sd_organizationId x;
  ad_workspace : w ∈ workspaces d /\ w_organization w = sd_organizationId x;
  ad_access : lifecycle_access m w = true }.

Lemma admitted_authority x utcNow d m w :
  NoDup (map w_organization (workspaces d)) -> admitted x utcNow d m w ->
  workspaceMemberAuthority (sd_organizationId x) (sd_authority x) (js "owner") [js "owner"] utcNow d = (w_state w ==s js "active").
Proof.
  intros Hn [Hs (Hm & Hu & Hid & Ho) [Hw Hwo] Ha]. unfold workspaceMemberAuthority. rewrite Hs. cbn [andb].
  destruct (bool_decide_reflect (w_state w = js "active")) as [E|E].
  - apply andb_true_iff. split; apply existsb_elem; [exists m|exists w]; (split; [done|]).
    + unfold lifecycle_access in Ha. rewrite E, (bool_decide_false (js "active" = js "deletion_pending")) in Ha by done.
      rewrite andb_false_l, orb_false_r in Ha. bools. cbn [existsb]. unfold open_gate_of.
      rewrite !andb_true_iff, !negb_true_iff, !orb_true_iff, !bool_decide_eq_true. tauto.
    + by rewrite Hwo, E, !bool_decide_true.
  - apply andb_false_iff. right. apply existsb_none. intros w' Hw'. apply not_true_iff_false. intros Hc. bools.
    assert (w' = w) as -> by (eapply key_unique; [exact Hn|done|done|congruence]). done.
Qed.

Lemma schedule_writes x now utcNow o d :
  (forall w, w ∈ workspaces d -> w_organization w = sd_organizationId x -> 1 <= w_revision w < MAX_REVISION) ->
  existsb (fun e => (rt_id e ==s sd_requestId x) || pending_of (sd_organizationId x) e) (receipts d) = false ->
  schedule_statements x now utcNow time_text (Some o) d = Some (true, scheduled_db time_text x now utcNow d).
Proof.
  intros Hrev H. cbn [schedule_statements]. unfold stmt_bind at 1. unfold insert_receipt at 1. cbn [rt_id rt_organization]. rewrite H.
  unfold receipt_checks. cbn [rt_requestedAt rt_purgeAfter rt_status rt_cancelledAt rt_purgedAt]. rewrite purge_time_late. cbn [andb orb negb is_set].
  unfold stmt_bind, update_workspaces, always, stmt_ret. rewrite (proj2 (forallb_elem _ _)); [done|].
  intros w [Ho Hw]%filterb_elem. unfold of_org in Ho. bools. specialize (Hrev w Hw ltac:(done)). unfold workspace_checks, lifecycle_check.
  cbn. rewrite purge_time_late, andb_true_r, andb_true_iff, !Z.leb_le. lia.
Qed.
Lemma active_none_pending d w r :
  lifecycle_ok d -> w ∈ workspaces d -> w_state w = js "active" -> r ∈ receipts d -> pending_of (w_organization w) r = false.
Proof.
  intros Hok Hw Hs Hr. apply not_true_iff_false. unfold pending_of. intros H. bools.
  destruct (lk_pending d Hok r Hr ltac:(done)) as (w' & Hw' & Ho & Hid & _).
  assert (w' = w) as -> by (eapply key_unique; [apply (lk_workspaces d Hok)|done|done|congruence]).
  rewrite active_no_receipt in Hid; [done| |done]. by apply (lk_workspace d Hok).
Qed.

(** C19: the deletion status is exact: to an owner whom the lifecycle page admits, it offers to
    schedule the deletion exactly when a request with the workspace's name takes effect (a
    revision must be left); when it
    does not offer it, the request is refused and nothing changes. *)
Theorem status_tells d es x now utcNow st m w :
  all_active d -> NoDup (map og_id (organizations (lrun d es))) -> admitted x utcNow (lrun d es) m w ->
  workspaceLifecycleStatus (sd_organizationId x) (lrun d es) = Some st -> sd_confirmation x = lf_workspaceName st ->
  existsb (fun r => rt_id r ==s sd_requestId x) (receipts (lrun d es)) = false -> 1 <= w_revision w < MAX_REVISION ->
  scheduleWorkspaceDeletion time_text x (existing_receipt (sd_requestId x) (sd_organizationId x) (lrun d es)) now utcNow (lrun d es)
  = if lf_canScheduleDeletion st then (Ok lifecycle_done, scheduled_db time_text x now utcNow (lrun d es))
    else (Ok lifecycle_refused, lrun d es).
Proof.
  intros Hact Hno Had E Hname Hfresh Hrev. pose proof (lrun_ok d es Hact) as Hok. set (d1 := lrun d es) in *. clearbody d1. clear Hact.
  unfold existing_receipt. rewrite (proj2 (findb_none _ _)).
  2: { intros r Hr. by rewrite (proj1 (existsb_none _ _) Hfresh r Hr). }
  cbn. unfold atomicD1. unfold workspaceLifecycleStatus in E.
  destruct (findb _ (workspaces d1)) as [w1|] eqn:Ew; [|done]. destruct (findb _ (organizations d1)) as [o|] eqn:Eo; [|done].
  injection E as <-. cbn [lf_canScheduleDeletion lf_workspaceName] in *. apply findb_some in Ew as [Hw1 Hw1in], Eo as [Ho Hoin].
  unfold of_org in Hw1, Ho. bools. pose proof Had as [_ _ [Hw Hwo] _].
  assert (w1 = w) as -> by (eapply key_unique; [apply (lk_workspaces d1 Hok)|done|done|congruence]).
  pose proof (admitted_authority x utcNow d1 m w (lk_workspaces d1 Hok) Had) as Hauth.
  unfold schedule_scope. rewrite Hauth, Hfresh. rewrite no_blockers_unblocked.
  destruct (bool_decide_reflect (w_state w = js "active")) as [Es|Es]; cbn [andb negb].
  2: { rewrite filterb_none; [done|]. intros o' _. by rewrite !andb_false_r. }
  destruct (existsb (revoked_member _) _) eqn:Er, (workspaceDeletionUnblocked _ _) eqn:Eu; cbn [andb negb];
    try (rewrite filterb_none; [done|]; intros o' _; by rewrite !andb_false_r).
  rewrite (filterb_unique og_id _ _ o); [|done|done|].
  2: { intros o' Ho'. rewrite !andb_true_r, Hname. split; [intros Hc; bools; congruence|]. intros E.
       assert (o' = o) as -> by (by eapply (key_unique og_id)). by rewrite !bool_decide_true. }
  cbn [head]. rewrite schedule_writes; [done| |].
  { intros w' Hw' Ho'. by rewrite (key_unique w_organization _ w' w (lk_workspaces d1 Hok) Hw' Hw ltac:(congruence)). } apply existsb_none. intros r Hr. apply orb_false_iff.
  split; [exact (proj1 (existsb_none _ _) Hfresh r Hr)|]. rewrite <- Hwo. by apply (active_none_pending d1).
Qed.

(** *** The clean-up *)

Lemma purge_scope_one d r utcNow :
  lifecycle_ok d -> r ∈ receipts d -> rt_status r = receipt_pending -> rt_purgeAfter r <= utcNow ->
  workspaceDeletionUnblocked (rt_organization r) d = true -> purge_scope (rt_organization r) (rt_id r) utcNow d = [r].
Proof.
  intros Hok Hr Hs Hdue Hu. unfold purge_scope. rewrite Hu. destruct (lk_pending d Hok r Hr Hs) as (w & Hw & Hp).
  pose proof Hp as (Ho & Hid & _ & Hat & Hafter). destruct (lk_workspace d Hok w Hw) as [Hc _].
  assert (w_state w = js "deletion_pending") as Hstate.
  { unfold lifecycle_check in Hc. rewrite Hid in Hc. apply orb_true_iff in Hc as [Hc|Hc]; [by rewrite andb_false_r in Hc|by bools]. }
  rewrite (filterb_unique w_organization _ _ w); [|apply Hok|done|].
  2: { intros w' Hw'. unfold purgeable_workspace. split; [intros Hc'; bools; congruence|]. intros E.
       assert (w' = w) as -> by (by eapply (key_unique w_organization); [apply Hok|..]).
       rewrite Ho, Hid, Hstate, Hafter. unfold sql_eq. rewrite !bool_decide_true by done. by apply Z.leb_le. }
  cbn [flat_map]. rewrite app_nil_r. rewrite (filterb_unique rt_id _ _ r); [done|apply Hok|done|].
  intros r' Hr'. unfold purgeable_receipt, sql_eq. rewrite Hid. split; [intros Hc'; bools; congruence|]. intros E.
  assert (r' = r) as -> by (by eapply (key_unique rt_id); [apply Hok|..]).
  rewrite Ho, Hs, !bool_decide_true by done. by apply Z.leb_le.
Qed.

(** C20: a due deletion is carried out: once the retention of a pending request is over and nothing
    blocks its workspace, the purge of it succeeds, and the request is then settled. *)
Theorem due_workspace_is_purged d es r utcNow :
  all_active d -> r ∈ receipts (lrun d es) -> rt_status r = receipt_pending -> rt_purgeAfter r <= utcNow ->
  workspaceDeletionUnblocked (rt_organization r) (lrun d es) = true ->
  existsb (of_org og_id (rt_organization r)) (organizations (lrun d es)) = true ->
  purgeDueWorkspace (rt_organization r) (rt_id r) utcNow (lrun d es)
  = (Ok true, purged_db (rt_organization r) (rt_id r) utcNow (lrun d es)).
Proof.
  intros Ha Hr Hs Hdue Hu Ho. pose proof (lrun_ok d es Ha) as Hok. set (d1 := lrun d es) in *. clearbody d1.
  unfold purgeDueWorkspace, atomicD1. rewrite purge_scope_one by done. cbn [head purge_statements].
  unfold stmt_bind, update_receipts, always. rewrite (proj2 (forallb_elem _ _)).
  - cbn. by rewrite Ho.
  - intros r' [Hc Hr']%filterb_elem. bools. assert (r' = r) as -> by (by eapply (key_unique rt_id); [apply Hok|..]).
    destruct (lk_receipt d1 Hok r Hr) as [Hchk _]. unfold receipt_checks in *. cbn. rewrite Hs in Hchk.
    apply andb_true_iff in Hchk as [-> Hc]. by destruct (rt_cancelledAt r), (rt_purgedAt r).
Qed.

(** The clean-up is a run of these events, whichever of its calls fail. *)
Lemma purge_rows_run rows clock d : exists es, snd (purge_rows rows clock d) = lrun d es.
Proof.
  revert clock d. induction rows as [|[org id] rows IH]; intros clock d; cbn [purge_rows]; [by exists []|].
  destruct (purgeDueWorkspace org id (clock 0%nat) d) as [[b|e] d'] eqn:E.
  - destruct (IH (fun i => clock (S i)) d') as [es Hes]. destruct (purge_rows rows _ d') as [r d'']. cbn in *. subst d''.
    exists (le_purge org id (clock 0%nat) :: es). cbn. by rewrite E.
  - exists [le_purge org id (clock 0%nat)]. cbn. by rewrite E.
Qed.
Lemma cleanup_is_a_run b w clock fresh d : exists es, snd (cleanupWorkspaceRetention b w clock fresh d) = lrun d es.
Proof.
  unfold cleanupWorkspaceRetention.
  assert (lrun1 d (le_backups (bounded_limit b 25 100) (clock 0%nat) fresh) = snd (purge_backups (bounded_limit b 25 100) (clock 0%nat) fresh d)) as E
    by done.
  destruct (purge_backups _ _ _ d) as [n d'] eqn:Ep. cbn [snd] in E.
  destruct (purge_rows_run (due_workspaces (bounded_limit w 1 5) (clock 1%nat) d') (fun i => clock (2 + i)%nat) d') as [es Hes].
  destruct (purge_rows _ _ d') as [r d'']. cbn in Hes |- *. subst d''. exists (le_backups (bounded_limit b 25 100) (clock 0%nat) fresh :: es).
  cbn [lrun foldl]. by rewrite E.
Qed.
End time.

(** ** Examples *)

Definition demo_authority : WorkspaceLifecycleAuthority := mkLifecycleAuthority (js "s1") (js "ada") (js "m1").
Definition demo_member (id user role : jsstr) : member_row :=
  mkMember id (js "acme") user role (mkGate None None None).
(** Two members, a session of the owner, a backup, and another workspace. *)
Definition demo_db : workspace_db :=
  mkWorkspaceDb [mkOrganization (js "acme") (js "Acme"); mkOrganization (js "other") (js "Other")]
    [founded (js "acme") 5; founded (js "other") 6] [] [demo_member (js "m1") (js "ada") (js "owner"); demo_member (js "m2") (js "bob") (js "viewer")]
    [mkWebSession (mkSession (js "s1") (js "ada") (purge_time 2000)) (Some (js "acme")) 7] [] [] [] []
    [mkBackup (js "b1") (js "acme") None None] [mkOwned (js "knowledge_source") (js "acme"); mkOwned (js "knowledge_source") (js "other")] [].
Definition demo_schedule : ScheduleInput := mkSchedule (js "acme") demo_authority (js "r1") (js "Acme").
Definition demo_time (t : Z) : jsstr := [Z.to_N t].
Definition demo_scheduled : list lifecycle_event := [le_schedule demo_schedule None 1000 1001].
Notation demo_run := (lrun demo_time demo_db).

Lemma demo_active : all_active demo_db.
Proof.
  split; [done|]. split; [by apply (bool_decide_eq_true_1 (NoDup [js "acme"; js "other"]))|].
  intros w Hw. repeat (apply elem_of_cons in Hw as [->|Hw]; [done|]). by apply elem_of_nil in Hw.
Qed.
Lemma demo_receipt : new_receipt demo_schedule 1000 ∈ receipts (demo_run demo_scheduled).
Proof.
  assert (receipts (demo_run demo_scheduled) = [new_receipt demo_schedule 1000]) as -> by (vm_compute; reflexivity). by left.
Qed.

Lemma pending_workspace_is_closed_witness :
  workspaceMemberAuthority (js "acme") demo_authority (js "owner") [js "owner"] 1500 demo_db = true
  /\ forall a role roles utcNow, workspaceMemberAuthority (js "acme") a role roles utcNow (demo_run demo_scheduled) = false.
Proof.
  split; [vm_compute; reflexivity|].
  exact (proj1 (pending_workspace_is_closed demo_time demo_db demo_scheduled (new_receipt demo_schedule 1000) demo_active demo_receipt eq_refl)).
Defined.

Definition demo_purge : lifecycle_event := le_purge (js "acme") (js "r1") (purge_time 1000).
Lemma receipts_are_final_witness :
  receipt_kept (new_receipt demo_schedule 1000) (lrun demo_time (demo_run demo_scheduled) [le_forget (js "ada"); demo_purge])
  /\ map rt_status (receipts (lrun demo_time (demo_run demo_scheduled) [le_forget (js "ada"); demo_purge])) = [receipt_purged].
Proof.
  split; [|vm_compute; reflexivity].
  exact (receipts_are_final demo_time demo_db demo_scheduled _ (new_receipt demo_schedule 1000) demo_active demo_receipt).
Defined.

Lemma purge_is_due_and_complete_witness :
  holds_nothing (js "acme") (lrun1 demo_time (demo_run demo_scheduled) demo_purge)
  /\ others_kept (js "acme") (demo_run demo_scheduled) (lrun1 demo_time (demo_run demo_scheduled) demo_purge)
  /\ map ow_organization (owned (lrun1 demo_time (demo_run demo_scheduled) demo_purge)) = [js "other"].
Proof.
  assert (purgeDueWorkspace (js "acme") (js "r1") (purge_time 1000) (demo_run demo_scheduled)
          = (Ok true, lrun1 demo_time (demo_run demo_scheduled) demo_purge)) as E by (vm_compute; reflexivity).
  destruct (purge_is_due_and_complete demo_time demo_db demo_scheduled _ _ _ _ demo_active E) as (_ & _ & H1 & H2).
  split; [exact H1|]. split; [exact H2|]. vm_compute. reflexivity.
Defined.

Lemma cancel_restores_witness :
  exists d3,
    cancelWorkspaceDeletion (mkCancel (js "acme") demo_authority (js "r1"))
      (existing_receipt (js "r1") (js "acme") (demo_run demo_scheduled)) 1500 (js "u1") (demo_run demo_scheduled) = (Ok lifecycle_done, d3)
    /\ taken_back demo_schedule 1000 1500 demo_db d3.
Proof.
  apply (cancel_restores demo_time demo_db [] demo_schedule None 1000 1001 (demo_run demo_scheduled) 1500 (js "u1") demo_active).
  - split; [by apply (bool_decide_eq_true_1 (NoDup [js "m1"; js "m2"]))|by apply (bool_decide_eq_true_1 (NoDup [js "s1"]))].
  - vm_compute. reflexivity.
  - vm_compute. reflexivity.
  - vm_compute. reflexivity.
  - intros w Hw _. change (w ∈ [founded (js "acme") 5; founded (js "other") 6]) in Hw. unfold MAX_REVISION.
    repeat (apply elem_of_cons in Hw as [->|Hw]; [cbn; lia|]). by apply elem_of_nil in Hw.
Defined.

Lemma status_tells_witness :
  exists st, workspaceLifecycleStatus (js "acme") demo_db = Some st /\ lf_canScheduleDeletion st = true
    /\ scheduleWorkspaceDeletion demo_time demo_schedule (existing_receipt (js "r1") (js "acme") demo_db) 1000 1001 demo_db
       = (Ok lifecycle_done, scheduled_db demo_time demo_schedule 1000 1001 demo_db).
Proof.
  destruct (workspaceLifecycleStatus (js "acme") demo_db) as [st|] eqn:E; [|discriminate E].
  exists st. split; [reflexivity|].
  assert (lf_canScheduleDeletion st = true /\ lf_workspaceName st = js "Acme") as [Hc Hn]
    by (vm_compute in E; injection E as <-; split; reflexivity).
  split; [exact Hc|].
  etransitivity; [apply (status_tells demo_time demo_db [] demo_schedule 1000 1001 st (demo_member (js "m1") (js "ada") (js "owner")) (founded (js "acme") 5) demo_active)|by rewrite Hc].
  - by apply (bool_decide_eq_true_1 (NoDup [js "acme"; js "other"])).
  - split; [vm_compute; reflexivity|split_and!; [by left|done..]|split; [by left|done]|vm_compute; reflexivity].
  - exact E.
  - by rewrite Hn.
  - reflexivity.
  - by vm_compute.
Defined.

Lemma due_workspace_is_purged_witness :
  purgeDueWorkspace (js "acme") (js "r1") (purge_time 1000) (demo_run demo_scheduled)
  = (Ok true, purged_db (js "acme") (js "r1") (purge_time 1000) (demo_run demo_scheduled)).
Proof.
  apply (due_workspace_is_purged demo_time demo_db demo_scheduled (new_receipt demo_schedule 1000) (purge_time 1000) demo_active demo_receipt).
  - reflexivity.
  - by vm_compute.
  - vm_compute. reflexivity.
  - vm_compute. reflexivity.
Defined.
